(* ===== verification/_CoqProject ===== *)
-Q . S2P
Prelude.v
GoStrings.v
GoTime.v
Records.v
DirTypes.v
Decide.v
Replace.v
WbState.v
Shares.v
Root.v
MemFS.v
WritePass.v
WritePassProofs.v
WriteBack.v
Tree.v
TreeProofs.v
TreeTheorems.v
Walk.v
Prefetch.v
Invalidate.v
Sender.v
AccountPorts.v
TunnelPolicy.v
Ephemeral.v
EphemeralProofs.v
Tunnel.v
Names.v
Coalesce.v
Gate.v
Tokens.v
Forwards.v
Mounts.v
WatchTree.v
WatchTreeProofs.v
Watcher.v
Json.v
Rewrite.v
RewriteProofs.v
PortView.v
Create.v
Collect.v
Prune.v
FdCache.v
NfsServe.v
ShareStore.v
KeyFiles.v
Accounts.v
KeyFilesProofs.v
AccountsProofs.v
AccountsTheorems.v
Info.v
CacheProto.v
Unions.v
Cleanup.v
UnionLayer.v
UnionWrite.v
Elevate.v
DaemonPlan.v
Daemons.v
DaemonEnsure.v
EnrolPolicy.v
Manage.v
ManageProofs.v
Redeem.v
AdminProofs.v
Logins.v
Replay.v
Examples.v
ClientExamples.v
MountExamples.v
CreateExamples.v
AgentExamples.v
AccountExamples.v
WatchExamples.v
UnionExamples.v
DaemonExamples.v
EnrolExamples.v
Config.v
HostPorts.v
SessionExamples.v
