(* ===== verification/Prelude.v ===== *)
(** * remote-docker: a verification development

    remote-docker runs docker on another machine as if it were here.  A client keeps
    an SSH session to a workspace, rewrites the docker requests that pass through
    it, serves the local directories that containers mount (live, or as a cached
    copy that is filled ahead and written back), and forwards published ports; an
    agent on the workspace enrols people, gives every machine its port, runs their
    daemons and cleans up.  The program is in Go.  This library translates the parts
    that decide something into Rocq, one definition per function or per hold of a
    lock, and proves what they promise.

    ** How the code is modelled

    Pure functions are functions.  A method of a mutable object is a function from
    its state (a [Record] of the object's fields) to a result and the next state.
    Code under a mutex is one definition; where a method releases the mutex in
    between, there is one definition per hold, and a step relation interleaves them.
    An error is [Err] of a [res], or the [None] of an [option] where the code only
    asks whether there was one.  What is not in the repository (the disk, the
    consumer's answers, docker, SSH keys, [strings.ToLower], clocks) is an argument,
    a class of operations, or a record of answers; what a theorem relies on of it is
    a hypothesis, and a witness shows that it can hold.  Integers are [Z]; where a
    width matters the wrap-around is written out ([wrap64], [GoTime.Sub]).
    Floating point is the standard library's binary64.  Texts are byte strings;
    [GoStrings], [GoTime] and [Records] hold what is used of Go's [strings],
    [path], [slices], [time] and [strconv].

    ** The cache of a directory (dircache/)

    [DirTypes] has the vocabulary of types.go: changes, events, baselines.
    [Decide] is decide.go, the decision what a consumer's change may do to a file
    here; [Replace] the directories and links that were replaced (replace.go).
    [WbState] is write-back's memory (wbstate.go), [Shares] what has been sent and
    recorded (cache.go, and the record file of session/cached.go).  [Root] and
    [MemFS] are the file system as an [os.Root], a class with one instance;
    [WritePass] is writepass.go on it and [WriteBack] the round (writeback.go).
    [Tree], [Walk], [Prefetch] and [Sender] are the fill: the tree that orders it,
    the walk that feeds it, its policy and its loop (tree.go, walk.go, prefetch.go).
    [Invalidate] is what is sent, held back or dropped (cache.go, invalidate.go).
    The theorems: nothing here is touched that was not reported, that changed since
    it was looked at, or that the decision does not license; the decision refines
    a three-way merge; a fill overwrites nothing of the consumer's; the record and
    the tree's counters are exact; the fill ends and finishes.

    ** The workspace (core/workspace, core-agent, agent/internal)

    [KeyFiles] has account and unix names (workspace/account.go, unixname.go) and
    the text of a key file; [Accounts] the store of accounts.go and
    keyfile_write.go: the sync of the keys directories, uids, provisioning,
    publication, and the enrolled directory's changes.  [AccountPorts] is the
    mapping of uids to ports and the allocator (mapping.go, ports.go), over the
    records of [Records] (record.go); [Ephemeral] the runs of ephemeral accounts
    (registry.go), against a class of what it needs of the allocator that the
    allocator's model is proved to have, and [Cleanup] what is removed once one has
    expired (ephemeral/cleanup.go, dockercli/runs.go).  [Tokens] is the enrolment tokens on a
    directory that several agents share (tokens.go); [Prune] what is removed from a
    daemon (prune/); [Tunnel] the framing of datagrams (tunnel/datagram.go).
    A share's cache on the workspace is a union of the client's files and a layer
    of the container's: [CacheProto] is what a client asks of it and what it is
    mounted with (core/cache/cache.go, core-agent/union), [Unions] which unions are
    mounted for whom (unions/unions.go), [UnionLayer] what the containers did
    (unions/changes.go), [UnionWrite] what the client sends into it
    (unions/write.go).
    [Elevate] is the privileged child an agent without privileges starts beside
    itself (elevate/plan.go, docker.go).  [DaemonPlan] is the container of an
    account's daemon (daemons/plan.go), [Daemons] what the manager asks of docker, a
    free monad of commands whose runs are traces, and [DaemonEnsure] how the sessions
    of an account share one start (daemons/runner.go, target.go).  [Info] is what a
    workspace says of itself (workspace/info.go).  The SSH server's management is
    [EnrolPolicy], who may do what (sshd/enrolpolicy.go), [Manage] every operation
    (manage.go, accounts/purge.go), [Redeem] the redemption of a token (redeem.go),
    and [Logins] who is connected and the sweep of revoked keys (server.go,
    revoke.go), on the models of the accounts, the tokens, the runs and the ports;
    [TunnelPolicy] is who may bind and reach a tunnel's port, with the listeners that
    are kept (forward.go, forward_tcpip.go, hostgateway.go, tunnelserver/forward.go).
    [Replay] performs a client's file events on its mounts (replay/replay.go).
    The theorems: a uid is given once and an account keeps its own for good; who may
    authenticate follows the key files, an enrolment changes one key and takes
    effect at once; no two machines share a port and a run keeps its own; a token
    redeems once; cleaning up after a run removes the run's own and nothing else, and
    its port is given away only then; an image in use stays until its age has passed; datagrams arrive
    whole; a share has one union, which is taken down only when nobody has asked for
    it since and no container holds it; the changes listed are what the layer's
    entries say; a batch lands or names each of its files, and a fill leaves alone
    what a container wrote; a privileged child has no way to the host's docker; a
    daemon's container is replaced only while it is idle, by one start at a time, and
    its volume only on request; an account that is no admin manages itself and nobody
    else, and no request takes the last admin's last key; a redemption enrols its
    bearer's key and nothing else, and a refused one leaves nothing behind; a revoked
    key is disconnected; while a tunnel is up no other account is let through to it; a
    client's events touch its own mounts only.

    ** The client (core-client, client/internal)

    [Names] and [Mounts] are what shares, exports, volumes and machines are called
    and a mount's words (export.go, client.go, sharepath.go, mode.go,
    mountwords.go); [Rewrite] the rewriting of bind mounts (rewrite/bindspec.go,
    mode.go, rewrite.go), [PortView] of published ports and of what docker shows of
    them (ports.go, portview.go, hosts.go), and [Create] of the whole create request
    ([ContainerCreate]), over the JSON values of [Json]; [Collect] the collection of
    unused volumes (gc.go);
    [WatchTree] the watched directories (fswatch/path.go, tree.go), [Watcher] the
    loops around them (watch.go, backend.go) and [Coalesce] the coalescer of their
    events (coalesce.go); [Gate] the
    connection of a session (session/gate.go), [ShareStore] its record of what the
    workspace was given (shares.go) and [HostPorts] the local ports a container can
    reach (hostports.go); [Forwards] the published ports (ports/); [Config] the
    configuration (config/).  The NFS server (nfsserve/) is two files: [FdCache] the cache of open
    descriptors (fdcache.go), and [NfsServe] what may be mounted, the handles the
    far side holds, and what it is told of a file (registry.go, handles.go, attrs.go,
    onefile.go, names.go).  The theorems: names and labels round-trip and identities
    are injective; the far side reaches only what was asked for or is recorded, its
    handles of a share's root survive a restart, and no descriptor is closed while
    it is read or leaked; a mount is settled or refused before anything is opened, and a
    rewritten bind keeps what the user asked for; a create request keeps every field
    it does not own and makes a container that is the session's; the ports asked for
    are those that are opened and shown; a share that was recorded is served again by
    the next session, and the newest record is the one that lands; the host ports
    bound are those listed; a setting comes from the nearest layer that has it, and an
    edit of one workspace leaves the others alone; collection spares what is shared;
    a watch is always inside a share, a walk ends and takes shallow directories
    first, a change reaches every share it is in, and what was missed is announced;
    no event is lost silently and each is flushed in time; an idle connection is
    released only while nobody uses it; forwards follow the containers.

    A file has its component's definitions first and its theorems behind them; where
    they are long, files ending in [Proofs] or [Theorems] hold the lemmas and theorems.
    [Examples], [ClientExamples], [MountExamples], [CreateExamples],
    [SessionExamples], [AgentExamples], [AccountExamples], [WatchExamples],
    [UnionExamples], [DaemonExamples] and [EnrolExamples] apply each theorem that has
    hypotheses to a concrete state where they hold, and hold the runs behind the
    findings; where those are short, they are in the component's own file.

    ** Bounds and fuel

    A recursion that is not structural has fuel that its argument bounds, and a
    lemma says it is enough where a theorem needs it: the length of the text for
    trimming, splitting into fields, decoding runes and walking up a path
    ([ups_fuel]); 63 doublings in [Tree.levelFor], the exponent's range; the nodes
    that remain for [drainFuel]; the 65536 ports for [allocate]; the stream's length
    for [readFlow]; the looks that fit into the ready timeout for [awaitFuel]; eleven
    octal digits for a 32-bit mask; the length of the text for [jsonGo].

    ** Not modelled

    Goroutines' timers and tickers only decide when a modelled step runs.  The text
    of JSON (bodies and files are the values they hold), HTTP proxying, SSH and NFS
    wiring, the channel of the cache protocol and its frames, mount and namespace
    system calls, the command line, metrics, logging, and Windows, WSL and Hyper-V
    glue are calls into libraries and the system.  Path resolution that follows no
    link (nfsserve's nofollow.go) and the lock on the keys directory are system
    calls. *)

From Stdlib Require Export ZArith Lia.
From stdpp Require Export base tactics strings gmap sorting numbers list.

#[export] Set Default Goal Selector "!".

(** ** Machine integers *)

(** [wrap64 z] is the value a Go [int64] (or [time.Duration]) holds after an
    operation whose exact result is [z]: two's complement at 64 bits. *)
Definition wrap64 (z : Z) : Z := (z + 2^63) mod 2^64 - 2^63.

Lemma wrap64_small (z : Z) : (-2^63 ≤ z < 2^63)%Z → wrap64 z = z.
Proof. intros H. unfold wrap64. rewrite Z.mod_small; lia. Qed.

Lemma wrap64_range (z : Z) : (-2^63 ≤ wrap64 z < 2^63)%Z.
Proof. unfold wrap64. pose proof (Z.mod_pos_bound (z + 2^63) (2^64) eq_refl). lia. Qed.

(** ** Results of fallible code *)

(** A Go function returning [(T, error)]: [Ok v], or [Err e] with the error's
    text. *)
Inductive res (E A : Type) :=
| Ok (a : A)
| Err (e : E).
Arguments Ok {E A} a.
Arguments Err {E A} e.

Declare Scope go_scope.
Delimit Scope go_scope with go.
Open Scope go_scope.

Notation "'let?' x := c 'in' k" :=
  (match c with Ok x => k | Err e => Err e end)
  (at level 200, x pattern, right associativity) : go_scope.

Lemma Ok_inj {E A} {a b : A} : @Ok E A a = Ok b → a = b.
Proof. by intros [= ->]. Qed.

Definition is_ok {E A} (r : res E A) : bool :=
  match r with Ok _ => true | Err _ => false end.

(** A loop whose body may return early with an error. *)
Fixpoint foldRes {E A B} (f : A → B → res E A) (a : A) (l : list B) : res E A :=
  match l with
  | [] => Ok a
  | b :: l' => let? a' := f a b in foldRes f a' l'
  end.

(** Steps that commute give one result in any order, errors apart. *)
Lemma foldRes_app {E A B} (f : A → B → res E A) a l1 l2 :
  foldRes f a (l1 ++ l2) = let? a' := foldRes f a l1 in foldRes f a' l2.
Proof. revert a. induction l1 as [|b l1 IH]; intros a; [done|]. cbn. destruct (f a b); [apply IH|done]. Qed.

Definition same_ok {E A} (r r' : res E A) : Prop := ∀ a, r = Ok a ↔ r' = Ok a.

Lemma foldRes_permutation {E A B} (f : A → B → res E A) l l' :
  (∀ a x y, same_ok (let? a' := f a x in f a' y) (let? a' := f a y in f a' x)) →
  l ≡ₚ l' → ∀ a, same_ok (foldRes f a l) (foldRes f a l').
Proof.
  intros Hc Hp. induction Hp as [|x l l' _ IH|x y l|l1 l2 l3 _ IH1 _ IH2]; intros a b; [done| | |].
  - cbn. destruct (f a x); [apply IH|done].
  - cbn. pose proof (Hc a y x) as H. revert H. unfold same_ok.
    destruct (f a y) as [a1|e1], (f a x) as [a2|e2]; [destruct (f a1 x) as [a3|], (f a2 y) as [a4|]|destruct (f a1 x) as [a3|]|destruct (f a2 y) as [a4|]|];
      intros H; try done; try discriminate (proj1 (H a3) eq_refl); try discriminate (proj2 (H a4) eq_refl).
    by rewrite (Ok_inj (proj1 (H a3) eq_refl)).
  - rewrite (IH1 a b). apply IH2.
Qed.

(** ** Automation *)

Create HintDb rd discriminated.
#[export] Hint Constants Transparent : rd.

(** [destruct_ifs] splits every conditional or match whose scrutinee is stuck,
    keeping the equation, and clears the absurd branches. *)
Ltac destruct_ifs :=
  repeat match goal with
  | |- context [if ?b then _ else _] => destruct b eqn:?
  | |- context [match ?x with _ => _ end] => destruct x eqn:?
  end; simplify_eq/=.

Ltac destruct_ifs_in H :=
  repeat match type of H with
  | context [if ?b then _ else _] => destruct b eqn:?
  | context [match ?x with _ => _ end] => destruct x eqn:?
  end; simplify_eq/=.

(** [split_in H] splits the conditionals and matches in [H], innermost
    scrutinee first, so that a match on a match is resolved from the inside. *)
Ltac split_in H :=
  repeat (cbv beta iota zeta in H;
  match type of H with
  | context [match ?x with _ => _ end] =>
      lazymatch x with
      | context [match _ with _ => _ end] => fail
      | _ => destruct x eqn:?
      end
  end).

Ltac split_goal :=
  repeat (cbv beta iota zeta;
  match goal with
  | |- context [match ?x with _ => _ end] =>
      lazymatch x with
      | context [match _ with _ => _ end] => fail
      | _ => destruct x eqn:?
      end
  end).

(** [bool_to_prop] turns the boolean tests the code makes into propositions. *)
Ltac bool_to_prop :=
  repeat match goal with
  | H : (_ && _) = true |- _ => apply andb_true_iff in H as [? ?]
  | H : (_ && _) = false |- _ => apply andb_false_iff in H
  | H : (_ || _) = true |- _ => apply orb_true_iff in H
  | H : (_ || _) = false |- _ => apply orb_false_iff in H as [? ?]
  | H : negb _ = true |- _ => apply negb_true_iff in H
  | H : negb _ = false |- _ => apply negb_false_iff in H
  | H : (_ <? _)%Z = true |- _ => apply Z.ltb_lt in H
  | H : (_ <? _)%Z = false |- _ => apply Z.ltb_ge in H
  | H : (_ <=? _)%Z = true |- _ => apply Z.leb_le in H
  | H : (_ <=? _)%Z = false |- _ => apply Z.leb_gt in H
  | H : (_ =? _)%Z = true |- _ => apply Z.eqb_eq in H
  | H : (_ =? _)%Z = false |- _ => apply Z.eqb_neq in H
  | H : (_ <? _)%nat = true |- _ => apply Nat.ltb_lt in H
  | H : (_ <? _)%nat = false |- _ => apply Nat.ltb_ge in H
  | H : (_ <=? _)%nat = true |- _ => apply Nat.leb_le in H
  | H : (_ <=? _)%nat = false |- _ => apply Nat.leb_gt in H
  | H : (_ =? _)%nat = true |- _ => apply Nat.eqb_eq in H
  | H : (_ =? _)%nat = false |- _ => apply Nat.eqb_neq in H
  | H : bool_decide _ = true |- _ => apply bool_decide_eq_true in H
  | H : bool_decide _ = false |- _ => apply bool_decide_eq_false in H
  end.

(** ** Lists *)

Lemma mjoin_cons {A} (x : list A) (l : list (list A)) : mjoin (x :: l) = x ++ mjoin l.
Proof. done. Qed.

Lemma mjoin_app {A} (l1 l2 : list (list A)) : mjoin (l1 ++ l2) = mjoin l1 ++ mjoin l2.
Proof. induction l1 as [|x l1 IH]; [done|]. rewrite <- app_comm_cons, !mjoin_cons, IH. apply app_assoc. Qed.

Lemma filter_id {A} (P : A → Prop) `{∀ x, Decision (P x)} (l : list A) :
  (∀ x, x ∈ l → P x) → filter P l = l.
Proof.
  intros HP. induction l as [|x l IH]; [done|]. rewrite filter_cons_True by (apply HP; left).
  f_equal. apply IH. intros y Hy. apply HP. by right.
Qed.


Lemma filter_none {A} (P : A → Prop) `{∀ x, Decision (P x)} (l : list A) :
  (∀ x, x ∈ l → ¬ P x) → filter P l = [].
Proof.
  intros HP. induction l as [|x l IH]; [done|]. rewrite filter_cons_False by (apply HP; left).
  apply IH. intros y Hy. apply HP. by right.
Qed.
