(* ===== verification/GoStrings.v ===== *)
(** * The parts of Go's [strings], [path], [slices] and [sort] the code uses

    Go strings are byte strings; [string] is a list of [ascii] bytes.  Every
    separator the code splits or cuts at is one byte, so the separator is an
    [ascii] here. *)

From Stdlib Require Import Ascii.
From S2P Require Import Prelude.

Open Scope string_scope.
Open Scope list_scope.
Open Scope nat_scope.

(** [simpl] may compute an append whose left operand is a constructor. *)
#[global] Arguments String.append !s1 s2 /.

Abbreviation strlen := String.length.

Module strings.

(** [strings.HasPrefix(s, p)]. *)
Fixpoint HasPrefix (s p : string) {struct p} : bool :=
  match p, s with
  | EmptyString, _ => true
  | String a p', String b s' => Ascii.eqb a b && HasPrefix s' p'
  | String _ _, EmptyString => false
  end.

(** [strings.CutPrefix(s, p)]: what is left, when the prefix is there. *)
Fixpoint CutPrefix (s p : string) {struct p} : option string :=
  match p, s with
  | EmptyString, _ => Some s
  | String a p', String b s' => if Ascii.eqb a b then CutPrefix s' p' else None
  | String _ _, EmptyString => None
  end.

Definition TrimPrefix (s p : string) : string := default s (CutPrefix s p).

Fixpoint rev_app (s acc : string) : string :=
  match s with
  | EmptyString => acc
  | String a s' => rev_app s' (String a acc)
  end.
Definition rev (s : string) : string := rev_app s "".

Definition HasSuffix (s p : string) : bool := HasPrefix (rev s) (rev p).
Definition CutSuffix (s p : string) : option string := rev <$> CutPrefix (rev s) (rev p).
Definition TrimSuffix (s p : string) : string := default s (CutSuffix s p).

(** [strings.Contains] for a one-byte needle. *)
Fixpoint Contains (s : string) (c : ascii) : bool :=
  match s with
  | EmptyString => false
  | String a s' => Ascii.eqb a c || Contains s' c
  end.

(** [strings.Count] for a one-byte needle. *)
Fixpoint Count (s : string) (c : ascii) : nat :=
  match s with
  | EmptyString => 0
  | String a s' => (if Ascii.eqb a c then 1 else 0) + Count s' c
  end.

(** [strings.Cut(s, sep)]: around the first separator, [None] when there is
    none (Go then returns [s], [""] and [false]). *)
Fixpoint Cut (s : string) (c : ascii) : option (string * string) :=
  match s with
  | EmptyString => None
  | String a s' =>
      if Ascii.eqb a c then Some ("", s')
      else match Cut s' c with
           | Some (l, r) => Some (String a l, r)
           | None => None
           end
  end.

(** [strings.Split(s, sep)]: never empty. *)
Fixpoint Split (s : string) (c : ascii) : list string :=
  match s with
  | EmptyString => [""]
  | String a s' =>
      if Ascii.eqb a c then "" :: Split s' c
      else match Split s' c with
           | w :: ws => String a w :: ws
           | [] => [String a ""]
           end
  end.

Fixpoint Join (ws : list string) (sep : string) : string :=
  match ws with
  | [] => ""
  | [w] => w
  | w :: ws' => w +:+ sep +:+ Join ws' sep
  end.

(** Dropping leading bytes that satisfy [f]; [strings.TrimLeft] and
    [strings.Trim] with a set of bytes. *)
Fixpoint TrimLeftFunc (f : ascii → bool) (s : string) : string :=
  match s with
  | EmptyString => ""
  | String a s' => if f a then TrimLeftFunc f s' else s
  end.
Definition TrimFunc (f : ascii → bool) (s : string) : string :=
  rev (TrimLeftFunc f (rev (TrimLeftFunc f s))).

(** [strings.TrimSpace]: Unicode white space, which on bytes is the six ASCII
    spaces and the UTF-8 encodings of U+0085, U+00A0, U+1680, U+2000 to U+200A,
    U+2028, U+2029, U+202F, U+205F and U+3000. *)
Definition ascii_spaces : list string :=
  (fun n => String (ascii_of_nat n) "") <$> [9; 10; 11; 12; 13; 32].
Definition utf8 (l : list nat) : string := foldr (fun n s => String (ascii_of_nat n) s) "" l.
Definition unicode_spaces : list string :=
  utf8 <$> ([[194;133]; [194;160]; [225;154;128]; [226;128;168]; [226;128;169];
             [226;128;175]; [226;129;159]; [227;128;128]] ++
            ((fun k => [226;128;128+k]) <$> seq 0 11))%list.
Definition spaces : list string := (ascii_spaces ++ unicode_spaces)%list.

Fixpoint cut_any (ps : list string) (s : string) : option string :=
  match ps with
  | [] => None
  | p :: ps' => match CutPrefix s p with Some r => Some r | None => cut_any ps' s end
  end.

Fixpoint trim_any (fuel : nat) (ps : list string) (s : string) : string :=
  match fuel with
  | 0 => s
  | S fuel' => match cut_any ps s with Some r => trim_any fuel' ps r | None => s end
  end.

Definition TrimSpace (s : string) : string :=
  let l := trim_any (strlen s) spaces s in
  rev (trim_any (strlen l) (rev <$> spaces) (rev l)).

End strings.

(** ** Lemmas on the string functions *)

Section string_lemmas.
Import strings.

Lemma append_nil_r (s : string) : s +:+ "" = s.
Proof. induction s; simpl; congruence. Qed.

Lemma append_assoc (a b c : string) : (a +:+ b) +:+ c = a +:+ (b +:+ c).
Proof. induction a; simpl; congruence. Qed.

Lemma strlen_append (a b : string) : strlen (a +:+ b) = strlen a + strlen b.
Proof. induction a; simpl; congruence. Qed.

Lemma append_inj_l (a b c : string) : a +:+ b = a +:+ c → b = c.
Proof. induction a; simpl; [done|]. intros [= H]; auto. Qed.

Lemma CutPrefix_Some (s p r : string) : CutPrefix s p = Some r ↔ s = p +:+ r.
Proof.
  revert s; induction p as [|a p IH]; intros s; simpl; [split; congruence|].
  destruct s as [|b s]; [done|].
  destruct (Ascii.eqb_spec a b) as [->|Hne].
  - rewrite IH. split; congruence.
  - split; [done|]. intros [=]; congruence.
Qed.

Lemma HasPrefix_CutPrefix (s p : string) : HasPrefix s p = bool_decide (is_Some (CutPrefix s p)).
Proof.
  revert s; induction p as [|a p IH]; intros s; simpl; [done|].
  destruct s as [|b s]; [done|]. by destruct (Ascii.eqb a b); simpl.
Qed.

Lemma HasPrefix_spec (s p : string) : HasPrefix s p = true ↔ ∃ r, s = p +:+ r.
Proof.
  rewrite HasPrefix_CutPrefix, bool_decide_eq_true. unfold is_Some.
  by setoid_rewrite CutPrefix_Some.
Qed.

Lemma CutPrefix_append (p r : string) : CutPrefix (p +:+ r) p = Some r.
Proof. by apply CutPrefix_Some. Qed.

Lemma rev_app_append (s acc : string) : rev_app s acc = rev s +:+ acc.
Proof.
  unfold rev. revert acc. induction s as [|a s IH]; intros acc; simpl; [done|].
  rewrite IH, (IH (String a "")), append_assoc. done.
Qed.

Lemma rev_append (a b : string) : rev (a +:+ b) = rev b +:+ rev a.
Proof.
  induction a as [|x a IH]; simpl; [by rewrite append_nil_r|].
  unfold rev at 1. simpl. rewrite rev_app_append, IH, append_assoc.
  f_equal. unfold rev at 2. simpl. by rewrite rev_app_append.
Qed.

Lemma rev_rev (s : string) : rev (rev s) = s.
Proof.
  induction s as [|a s IH]; [done|].
  change (String a s) with (String a "" +:+ s) at 1.
  by rewrite rev_append, rev_append, IH.
Qed.

Lemma CutSuffix_Some (s p r : string) : CutSuffix s p = Some r ↔ s = r +:+ p.
Proof.
  unfold CutSuffix. split.
  - intros (r' & H%CutPrefix_Some & ->)%fmap_Some_1.
    by rewrite <- (rev_rev s), H, rev_append, rev_rev.
  - intros ->. rewrite rev_append, CutPrefix_append. simpl. by rewrite rev_rev.
Qed.

Lemma TrimSuffix_append (s p : string) : TrimSuffix (s +:+ p) p = s.
Proof. unfold TrimSuffix. by rewrite (proj2 (CutSuffix_Some (s +:+ p) p s) eq_refl). Qed.

Lemma Cut_Some (s : string) c l r :
  Cut s c = Some (l, r) ↔ s = l +:+ String c r ∧ Contains l c = false.
Proof.
  revert l; induction s as [|a s IH]; intros l; simpl.
  { split; [done|]. intros [H _]. by destruct l. }
  destruct (Ascii.eqb_spec a c) as [->|Hne].
  - split; [intros [= <- <-]; done|]. intros [H Hc]. destruct l as [|b l]; simpl in *; [congruence|].
    injection H as -> _. by rewrite Ascii.eqb_refl in Hc.
  - destruct (Cut s c) as [[l' r']|] eqn:E.
    + split.
      * intros [= <- <-]. destruct (proj1 (IH l') eq_refl) as [-> Hc]. simpl. split; [done|].
        by rewrite (proj2 (Ascii.eqb_neq a c) Hne).
      * intros [H Hc]. destruct l as [|b l]; simpl in *; [congruence|].
        injection H as -> ->. apply orb_false_iff in Hc as [_ Hc].
        assert (Some (l', r') = Some (l, r)) as [= -> ->]; [|done].
        by apply IH.
    + split; [done|]. intros [H Hc]. destruct l as [|b l]; simpl in *; [congruence|].
      injection H as -> ->. apply orb_false_iff in Hc as [_ Hc].
      assert (None = Some (l, r)); [|done]. by apply IH.
Qed.

Lemma Cut_None (s : string) c : Cut s c = None ↔ Contains s c = false.
Proof.
  induction s as [|a s IH]; simpl; [done|].
  destruct (Ascii.eqb a c); simpl; [done|]. rewrite <- IH.
  destruct (Cut s c) as [[??]|]; split; done.
Qed.

Lemma Contains_append (a b : string) c : Contains (a +:+ b) c = Contains a c || Contains b c.
Proof. induction a as [|x a IH]; simpl; [done|]. by rewrite IH, orb_assoc. Qed.

Lemma Count_append (a b : string) c : Count (a +:+ b) c = Count a c + Count b c.
Proof. induction a as [|x a IH]; simpl; [done|]. rewrite IH. lia. Qed.

Lemma Split_not_nil (s : string) c : Split s c ≠ [].
Proof.
  destruct s as [|a s]; simpl; [done|].
  destruct (Ascii.eqb a c); [done|]. by destruct (Split s c).
Qed.

Lemma Join_cons (w : string) ws sep :
  ws ≠ [] → Join (w :: ws) sep = w +:+ sep +:+ Join ws sep.
Proof. by destruct ws. Qed.

Lemma Join_snoc (ws : list string) w : ws ≠ [] → Join (ws ++ [w]) "/" = Join ws "/" +:+ "/" +:+ w.
Proof.
  induction ws as [|x ws IH]; [done|]. intros _. destruct ws as [|y ws]; [done|].
  rewrite <- app_comm_cons, !Join_cons by done. rewrite IH by done. by rewrite !append_assoc.
Qed.

(** Joining what [Split] cut gives the string back. *)
Lemma Join_Split (s : string) c : Join (Split s c) (String c "") = s.
Proof.
  induction s as [|a s IH]; simpl; [done|].
  destruct (Ascii.eqb_spec a c) as [->|Hne].
  - rewrite Join_cons by apply Split_not_nil. by rewrite IH.
  - pose proof (Split_not_nil s c). destruct (Split s c) as [|w [|w' ws]]; [done| |].
    + simpl in *. congruence.
    + rewrite Join_cons in IH |- * by done. simpl in *. congruence.
Qed.

Lemma Split_no_sep (s : string) c : Forall (λ w, Contains w c = false) (Split s c).
Proof.
  induction s as [|a s IH]; simpl; [by repeat constructor|].
  destruct (Ascii.eqb a c) eqn:E; [by constructor|].
  destruct (Split s c) as [|w ws]; [by repeat constructor; simpl; rewrite E|].
  inversion IH; subst. constructor; [|done]. simpl. by rewrite E.
Qed.

Lemma Split_no_Contains (s : string) c : Contains s c = false → Split s c = [s].
Proof.
  induction s as [|a s IH]; simpl; [done|]. intros [-> H]%orb_false_iff. by rewrite IH.
Qed.

Lemma Split_append (w s : string) c :
  Contains w c = false → Split (w +:+ String c s) c = w :: Split s c.
Proof.
  induction w as [|a w IH]; simpl.
  - by rewrite Ascii.eqb_refl.
  - intros [-> H]%orb_false_iff. by rewrite IH.
Qed.

Lemma Split_snoc (s : string) c : Split (s +:+ String c "") c = (Split s c ++ [""])%list.
Proof.
  induction s as [|a s IH]; simpl; [by rewrite Ascii.eqb_refl|]. destruct (Ascii.eqb a c); [by rewrite IH|].
  rewrite IH. pose proof (Split_not_nil s c). by destruct (Split s c).
Qed.

(** Splitting what [Join] glued gives the words back, when no word holds the
    separator. *)
Lemma Split_Join (ws : list string) c :
  ws ≠ [] → Forall (λ w, Contains w c = false) ws → Split (Join ws (String c "")) c = ws.
Proof.
  induction ws as [|w ws IH]; [done|]. intros _ [Hw Hws]%Forall_cons.
  destruct ws as [|w' ws]; [by apply Split_no_Contains|].
  rewrite Join_cons by done. simpl ((String c "") +:+ _).
  rewrite Split_append by done. f_equal. by apply IH.
Qed.

End string_lemmas.

(** ** Stable sorting: [slices.SortStableFunc], and [sort.Slice] or
    [slices.Sort] where no two elements compare equal *)

Section stable_sort.
Context {A : Type} (leb : A → A → bool).

Fixpoint insert_sorted (x : A) (l : list A) : list A :=
  match l with
  | [] => [x]
  | y :: l' => if leb x y then x :: y :: l' else y :: insert_sorted x l'
  end.

Fixpoint stable_sort (l : list A) : list A :=
  match l with
  | [] => []
  | x :: l' => insert_sorted x (stable_sort l')
  end.

Lemma insert_sorted_Permutation x l : insert_sorted x l ≡ₚ x :: l.
Proof.
  induction l as [|y l IH]; simpl; [done|]. destruct (leb x y); [done|].
  rewrite IH. apply Permutation_swap.
Qed.

Lemma stable_sort_Permutation l : stable_sort l ≡ₚ l.
Proof. induction l as [|x l IH]; simpl; [done|]. by rewrite insert_sorted_Permutation, IH. Qed.

Lemma elem_of_stable_sort x l : x ∈ stable_sort l ↔ x ∈ l.
Proof. by rewrite stable_sort_Permutation. Qed.

Lemma length_stable_sort l : length (stable_sort l) = length l.
Proof. apply Permutation_length, stable_sort_Permutation. Qed.

Context (Htotal : ∀ x y, leb x y = true ∨ leb y x = true).
Context (Htrans : ∀ x y z, leb x y = true → leb y z = true → leb x z = true).

Lemma insert_sorted_sorted x l :
  StronglySorted (λ a b, leb a b = true) l → StronglySorted (λ a b, leb a b = true) (insert_sorted x l).
Proof.
  induction 1 as [|y l Hl IH Hy]; simpl; [repeat constructor|].
  destruct (leb x y) eqn:E.
  - constructor; [by constructor|]. constructor; [done|].
    eapply Forall_impl; [exact Hy|]. simpl. intros z Hz. by eapply Htrans.
  - constructor; [done|]. rewrite insert_sorted_Permutation. constructor; [|done].
    destruct (Htotal x y); congruence.
Qed.

Lemma stable_sort_sorted l : StronglySorted (λ a b, leb a b = true) (stable_sort l).
Proof. induction l; simpl; [constructor|]. by apply insert_sorted_sorted. Qed.

(** Stability: the elements of one equivalence class keep their order. *)
Lemma insert_sorted_filter (P : A → Prop) `{∀ x, Decision (P x)} x l :
  (∀ y z, P y → P z → leb y z = true) →
  filter P (insert_sorted x l) = filter P (x :: l).
Proof.
  intros HP. induction l as [|y l IH]; simpl; [done|].
  destruct (leb x y) eqn:E; [done|].
  rewrite filter_cons, IH, !filter_cons. destruct (decide (P y)) as [Hy|], (decide (P x)) as [Hx|]; try done.
  specialize (HP x y Hx Hy). congruence.
Qed.

Lemma stable_sort_stable (P : A → Prop) `{∀ x, Decision (P x)} l :
  (∀ y z, P y → P z → leb y z = true) → filter P (stable_sort l) = filter P l.
Proof.
  intros HP. induction l as [|x l IH]; simpl; [done|].
  rewrite insert_sorted_filter by done. rewrite !filter_cons, IH. done.
Qed.

End stable_sort.

(** In a sorted list an earlier element is related to every later one. *)
Lemma StronglySorted_lookup_lt {A} (R : A → A → Prop) (l : list A) i j x y :
  StronglySorted R l → l !! i = Some x → l !! j = Some y → i < j → R x y.
Proof.
  intros Hl. revert i j. induction Hl as [|z l Hl IH Hz]; intros [|i] [|j]; simpl; try done; try lia.
  - intros [= ->] Hj _. rewrite Forall_forall in Hz. apply Hz. by eapply list_elem_of_lookup_2.
  - intros Hi Hj ?. eapply IH; [done..|lia].
Qed.

(** Byte-wise string order, Go's [<=] on strings. *)
Definition string_leb (a b : string) : bool := String.leb a b.

Lemma string_leb_total a b : string_leb a b = true ∨ string_leb b a = true.
Proof. apply String.leb_total. Qed.

Lemma ascii_compare_trans (c : comparison) a b d :
  Ascii.compare a b = c → Ascii.compare b d = c → Ascii.compare a d = c.
Proof.
  unfold Ascii.compare. destruct c.
  - rewrite !N.compare_eq_iff. congruence.
  - rewrite !N.compare_lt_iff. lia.
  - rewrite !N.compare_gt_iff. lia.
Qed.

Lemma ascii_compare_refl a : Ascii.compare a a = Eq.
Proof. unfold Ascii.compare. by apply N.compare_eq_iff. Qed.

Lemma ascii_compare_eq a b : Ascii.compare a b = Eq → a = b.
Proof. apply Ascii.compare_eq_iff. Qed.

Lemma string_compare_le_trans a b c :
  String.compare a b ≠ Gt → String.compare b c ≠ Gt → String.compare a c ≠ Gt.
Proof.
  revert b c; induction a as [|x a IH]; intros [|y b] [|z c]; simpl; try done.
  destruct (Ascii.compare x y) eqn:Exy; [|intros _|done].
  - apply ascii_compare_eq in Exy as ->. intros Hab.
    destruct (Ascii.compare y z); [intros Hbc; by eapply IH|done|done].
  - destruct (Ascii.compare y z) eqn:Eyz; [|intros _|done].
    + apply ascii_compare_eq in Eyz as ->. by rewrite Exy.
    + by rewrite (ascii_compare_trans Lt _ _ _ Exy Eyz).
Qed.

Lemma string_leb_trans a b c : string_leb a b = true → string_leb b c = true → string_leb a c = true.
Proof.
  unfold string_leb, String.leb. intros H1 H2.
  pose proof (string_compare_le_trans a b c) as H.
  destruct (String.compare a b), (String.compare b c), (String.compare a c); try done;
    exfalso; by apply H.
Qed.

Definition sort_strings : list string → list string := stable_sort string_leb.

(** ** Go's [path]: [Clean] and [Dir] *)

Module path.
Import strings.

Definition sep : ascii := "/".

(** The part of [p] up to and including the last slash: the directory half of
    [path.Split]. *)
Fixpoint dir_part (p : string) : string :=
  match p with
  | EmptyString => ""
  | String a p' =>
      if Contains p' sep then String a (dir_part p')
      else if Ascii.eqb a sep then String a "" else ""
  end.

(** Lexical cleaning on components: empty and "." components go, ".." takes
    the component before it; at the root of a rooted path it goes too, and
    otherwise it stays. [acc] is reversed. *)
Fixpoint clean_parts (rooted : bool) (acc ws : list string) : list string :=
  match ws with
  | [] => List.rev acc
  | w :: ws' =>
      if bool_decide (w = "" ∨ w = ".") then clean_parts rooted acc ws'
      else if bool_decide (w = "..") then
        match acc with
        | [] => clean_parts rooted (if rooted then [] else [".."]) ws'
        | a :: acc' =>
            if bool_decide (a = "..") then clean_parts rooted (".." :: acc) ws'
            else clean_parts rooted acc' ws'
        end
      else clean_parts rooted (w :: acc) ws'
  end.

Definition Clean (p : string) : string :=
  let rooted := HasPrefix p "/" in
  let out := Join (clean_parts rooted [] (Split p sep)) "/" in
  if rooted then "/" +:+ out
  else if bool_decide (out = "") then "." else out.

Definition Dir (p : string) : string := Clean (dir_part p).

(** [path.Base]: the last component, trailing slashes dropped. *)
Fixpoint trim_slashes (ws : list string) : list string :=
  match ws with
  | "" :: ws' => trim_slashes ws'
  | _ => ws
  end.
Definition Base (p : string) : string :=
  if bool_decide (p = "") then "."
  else match trim_slashes (List.rev (Split p sep)) with
       | [] => "/"
       | w :: _ => w
       end.

(** The loop [for d := p; d != "/" && d != "."; d = path.Dir(d)]: every
    directory from [p] up, [p] included, the root excluded. Each [Dir] is
    strictly shorter, so the length of [p] bounds the rounds ([ups_fuel]). *)
Fixpoint ups_fuel (fuel : nat) (p : string) : list string :=
  match fuel with
  | 0 => []
  | S fuel' =>
      if bool_decide (p = "/" ∨ p = ".") then [] else p :: ups_fuel fuel' (Dir p)
  end.
Definition ups (p : string) : list string := ups_fuel (S (strlen p)) p.

End path.

Example clean_1 : path.Clean "/a/b/../c//./d/" = "/a/c/d". Proof. reflexivity. Qed.
Example clean_2 : path.Clean "" = "." ∧ path.Clean "/.." = "/" ∧ path.Clean "../../a/.." = "../..". Proof. done. Qed.
Example dir_1 : path.Dir "/a/b/c" = "/a/b" ∧ path.Dir "/a" = "/" ∧ path.Dir "a" = "." ∧ path.Dir "/" = "/". Proof. done. Qed.
Example base_1 : path.Base "/a/b/" = "b" ∧ path.Base "a" = "a" ∧ path.Base "//" = "/" ∧ path.Base "" = ".". Proof. done. Qed.
Example ups_1 : path.ups "/a/b/c" = ["/a/b/c"; "/a/b"; "/a"]. Proof. reflexivity. Qed.

(** *** [Dir] gets shorter, so the upward loops end *)

Section path_lemmas.
Import strings path.

(** The bytes a list of components takes when joined, one separator each. *)
Definition weight (ws : list string) : nat := foldr (λ w n, strlen w + 1 + n) 0 ws.

Lemma weight_app a b : weight (a ++ b)%list = weight a + weight b.
Proof. unfold weight. induction a as [|w a IH]; simpl; [done|]. rewrite IH. lia. Qed.

Lemma weight_rev a : weight (List.rev a) = weight a.
Proof. induction a as [|w a IH]; simpl; [done|]. rewrite weight_app, IH. simpl. lia. Qed.

Lemma strlen_Join ws : strlen (Join ws "/") = weight ws - 1.
Proof.
  induction ws as [|w [|w' ws] IH]; [done| |].
  - simpl. lia.
  - rewrite Join_cons by done. rewrite !strlen_append, IH. simpl. lia.
Qed.

Lemma weight_Split p : weight (Split p sep) = strlen p + 1.
Proof.
  pose proof (f_equal strlen (Join_Split p sep)) as H.
  change (String sep "") with "/" in H. rewrite strlen_Join in H.
  pose proof (Split_not_nil p sep). destruct (Split p sep) as [|w ws]; [done|]. simpl in *. lia.
Qed.

Lemma weight_clean_parts r acc ws : weight (clean_parts r acc ws) ≤ weight acc + weight ws.
Proof.
  revert acc; induction ws as [|w ws IH]; intros acc; simpl.
  - rewrite weight_rev. lia.
  - repeat case_bool_decide; subst; [rewrite IH; lia| |rewrite IH; simpl; lia].
    destruct acc as [|a acc]; [rewrite IH; destruct r; simpl; lia|].
    case_bool_decide; rewrite IH; simpl; lia.
Qed.

(** A path that ends in a slash has an empty last component. *)
Lemma dir_part_empty_or_slash p : dir_part p = "" ∨ ∃ q, dir_part p = q +:+ "/".
Proof.
  induction p as [|a p IH]; simpl; [by left|].
  destruct (Contains p sep) eqn:E.
  - right. destruct IH as [H|[q ->]]; [|by exists (String a q)].
    exfalso. revert E H. clear. induction p as [|b p IH]; simpl; [done|].
    destruct (Contains p sep); [done|]. by destruct (Ascii.eqb b sep).
  - destruct (Ascii.eqb_spec a sep) as [->|]; [right; by exists ""|by left].
Qed.

Lemma strlen_dir_part p : strlen (dir_part p) ≤ strlen p.
Proof.
  induction p as [|a p IH]; simpl; [lia|].
  destruct (Contains p sep); [simpl; lia|]. destruct (Ascii.eqb a sep); simpl; lia.
Qed.

Lemma clean_parts_snoc_empty r acc ws : clean_parts r acc (ws ++ [""])%list = clean_parts r acc ws.
Proof.
  revert acc; induction ws as [|w ws IH]; intros acc; simpl; [done|].
  repeat case_bool_decide; [by rewrite IH| |by rewrite IH].
  destruct acc; [by rewrite IH|]. case_bool_decide; by rewrite IH.
Qed.

Lemma Split_snoc_sep q : Split (q +:+ "/") sep = (Split q sep ++ [""])%list.
Proof. apply Split_snoc. Qed.

Lemma Clean_snoc_sep_le q :
  Clean (q +:+ "/") = "/" ∨ Clean (q +:+ "/") = "." ∨ strlen (Clean (q +:+ "/")) < strlen (q +:+ "/").
Proof.
  unfold Clean. rewrite Split_snoc_sep, clean_parts_snoc_empty.
  pose proof (weight_clean_parts (HasPrefix (q +:+ "/") "/") [] (Split q sep)) as Hw.
  rewrite weight_Split in Hw. change (weight []) with 0 in Hw. rewrite !strlen_append.
  destruct (HasPrefix (q +:+ "/") "/") eqn:E.
  - destruct q as [|b q]; [by left|]. apply HasPrefix_spec in E as [r [= -> _]].
    change (Split (String _ q) sep) with ("" :: Split q sep) in *.
    pose proof (weight_clean_parts true [] (Split q sep)) as Hw'. rewrite weight_Split in Hw'. simpl in Hw'.
    right; right. rewrite strlen_append, strlen_Join. simpl in *. lia.
  - case_bool_decide; [by right; left|]. right; right. rewrite strlen_Join. simpl. lia.
Qed.

Lemma Dir_shorter p : Dir p = "/" ∨ Dir p = "." ∨ strlen (Dir p) < strlen p.
Proof.
  unfold Dir. destruct (dir_part_empty_or_slash p) as [->|[q E]]; [by right; left|].
  pose proof (Clean_snoc_sep_le q). pose proof (strlen_dir_part p). rewrite E in *.
  destruct H as [H|[H|H]]; [by left|by right; left|]. right; right. lia.
Qed.

(** The loop over the directories above a path ends: any fuel from [ups]'s on
    gives the same list. *)
Lemma ups_fuel_enough n p : strlen p < n → ups_fuel n p = ups p.
Proof.
  unfold ups. assert (∀ n m p, strlen p < n → strlen p < m → ups_fuel n p = ups_fuel m p) as H.
  - clear. induction n as [|n IH]; intros [|m] p; simpl; [lia..|]. intros Hn Hm.
    case_bool_decide as Hp; [done|]. f_equal.
    destruct (Dir_shorter p) as [->|[->|Hlt]]; [destruct n, m; done..|].
    apply IH; lia.
  - intros. apply H; lia.
Qed.

Lemma ups_step p : p ≠ "/" → p ≠ "." → ups p = p :: ups (Dir p).
Proof.
  intros H1 H2. rewrite <- (ups_fuel_enough (S (S (strlen p + strlen (Dir p)))) p) by lia.
  cbn [ups_fuel]. rewrite bool_decide_eq_false_2 by tauto. f_equal. apply (ups_fuel_enough (S _)). lia.
Qed.

Lemma ups_stop p : p = "/" ∨ p = "." → ups p = [].
Proof. intros [-> | ->]; done. Qed.

(** A path strictly under a directory has more slashes than the directory. *)
Lemma Count_under d x : Count d sep < Count (d +:+ "/" +:+ x) sep.
Proof. rewrite !Count_append. simpl. lia. Qed.

End path_lemmas.

(** [strings.FieldsFunc] for separators of one byte. *)
Fixpoint fieldsFuncGo (f : ascii → bool) (s acc : string) : list string :=
  match s with
  | EmptyString => if bool_decide (acc = "") then [] else [acc]
  | String a s' => if f a then (if bool_decide (acc = "") then [] else [acc]) ++ fieldsFuncGo f s' "" else fieldsFuncGo f s' (acc +:+ String a "")
  end.
Definition FieldsFunc (f : ascii → bool) (s : string) : list string := fieldsFuncGo f s "".
