(* ===== verification/GoTime.v ===== *)
(** * Go's [time.Time] and [time.Duration] as the code uses them

    A [Time] is its distance from the Unix epoch in nanoseconds, unbounded: a
    Go [Time] holds 64-bit seconds and nanoseconds separately, so no instant the
    code can read overflows it.  A [Duration] is an [int64] of nanoseconds;
    negating one wraps. *)

From S2P Require Import Prelude.
Open Scope Z_scope.

Abbreviation Time := Z (only parsing).
Abbreviation Duration := Z (only parsing).

Definition Nanosecond : Duration := 1.
Definition Millisecond : Duration := 1000000.
Definition Second : Duration := 1000000000.
Definition Minute : Duration := 60 * Second.
Definition Hour : Duration := 60 * Minute.

(** The zero [time.Time], 1 January of year 1. *)
Definition zeroTime : Time := -62135596800 * Second.
Definition IsZero (t : Time) : bool := t =? zeroTime.

Definition Add (t : Time) (d : Duration) : Time := t + d.
Definition After (t u : Time) : bool := u <? t.
Definition Before (t u : Time) : bool := t <? u.
Definition Equal (t u : Time) : bool := t =? u.

(** [t.Sub(u)] saturates at the bounds of a [Duration]. *)
Definition Sub (t u : Time) : Duration := Z.max (-2^63) (Z.min (2^63 - 1) (t - u)).

(** [time.Unix(0, ns)]. *)
Definition Unix0 (ns : Z) : Time := ns.

(** [t.Round(time.Second)]: to the nearest second, halves up. The zero time is
    a whole second, so the remainder can be taken from the epoch. *)
Definition RoundSecond (t : Time) : Time :=
  let r := t mod Second in
  if r + r <? Second then t - r else t + (Second - r).

Definition neg (d : Duration) : Duration := wrap64 (- d).

Lemma RoundSecond_whole (t : Time) : RoundSecond t mod Second = 0.
Proof.
  unfold RoundSecond. pose proof (Z.div_mod t Second ltac:(done)). destruct (_ <? _).
  - replace (t - t mod Second) with ((t / Second) * Second) by lia. apply Z_mod_mult.
  - replace (t + (Second - t mod Second)) with ((t / Second + 1) * Second) by lia. apply Z_mod_mult.
Qed.

Lemma RoundSecond_idem (t : Time) : t mod Second = 0 → RoundSecond t = t.
Proof. intros H. unfold RoundSecond. rewrite H. simpl. lia. Qed.

Lemma RoundSecond_near (t : Time) : Z.abs (RoundSecond t - t) * 2 ≤ Second.
Proof.
  unfold RoundSecond. pose proof (Z.mod_pos_bound t Second eq_refl).
  destruct (_ <? _) eqn:E; bool_to_prop; lia.
Qed.
