(* ===== verification/Records.v ===== *)
(** * The state directory's records (core-agent/accounts/record.go), and
    [strconv]'s decimal numbers

    A record is a text file of one entry per line.  [WriteRecord] is the text it
    leaves on disk (the temporary file, the sync and the rename make the
    replacement atomic: the old text or the new one), [ReadRecord] the lines it
    hands to the parser.  A line longer than the scanner's buffer is an error of
    the read, which the callers are given as such. *)

From Stdlib Require Import Ascii.
From stdpp Require Import pretty.
From S2P Require Import Prelude GoStrings.
Open Scope Z_scope.

Definition newline : ascii := "010"%char.

(** [WriteRecord]: the body. *)
Definition WriteRecord (lines : list string) : string :=
  let body := strings.Join lines (String newline "") in
  if bool_decide (body = "") then "" else body +:+ String newline "".

(** [ReadRecord]: every line that is neither blank nor a comment. *)
Definition ReadRecord (text : string) : list string :=
  filter (λ line, line ≠ ""%string ∧ strings.HasPrefix line "#" = false)
         (strings.TrimSpace <$> strings.Split text newline).

(** [strconv.Atoi]: an optional sign and at least one digit, in the range of an
    [int]. *)
Definition digit (a : ascii) : option Z :=
  let n := Z.of_nat (nat_of_ascii a) - 48 in
  if (0 <=? n) && (n <=? 9) then Some n else None.

Fixpoint digits (acc : Z) (s : string) : option Z :=
  match s with
  | EmptyString => Some acc
  | String a s' => match digit a with Some d => digits (acc * 10 + d) s' | None => None end
  end.

Definition Atoi (s : string) : option Z :=
  let in_int (o : option Z) := match o with Some n => if (-2^63 <=? n) && (n <? 2^63) then Some n else None | None => None end in
  match s with
  | EmptyString => None
  | String "-" s' => match s' with EmptyString => None | _ => in_int (Z.opp <$> digits 0 s') end
  | String "+" s' => match s' with EmptyString => None | _ => in_int (digits 0 s') end
  | _ => in_int (digits 0 s)
  end.

(** [%d] and [strconv.Itoa]. *)
Definition Itoa (n : Z) : string := pretty n.

(** ** Round trips *)

Lemma digit_char (x : N) : (x < 10)%N → digit (pretty_N_char x) = Some (Z.of_N x).
Proof.
  intros H. assert (x = 0 ∨ x = 1 ∨ x = 2 ∨ x = 3 ∨ x = 4 ∨ x = 5 ∨ x = 6 ∨ x = 7 ∨ x = 8 ∨ x = 9)%N as Hx by lia.
  by repeat destruct Hx as [->|Hx]; subst.
Qed.

Lemma digits_go (x : N) (s : string) : digits 0 (pretty_N_go x s) = digits (Z.of_N x) s.
Proof.
  revert s. induction (N.lt_wf_0 x) as [x _ IH]; intros s. destruct (decide (x = 0)%N) as [->|Hx]; [by rewrite pretty_N_go_0|].
  rewrite pretty_N_go_step by lia. rewrite IH by (apply N.div_lt; lia). cbn [digits].
  rewrite digit_char by (apply N.mod_lt; done). f_equal. pose proof (N.div_mod x 10 ltac:(done)). lia.
Qed.

Lemma digits_pretty (x : N) : digits 0 (pretty x) = Some (Z.of_N x).
Proof.
  unfold pretty, pretty_N. case_decide as Hx; [by subst|]. by rewrite digits_go.
Qed.

Lemma digit_bounds a n : digit a = Some n → 0 ≤ n ≤ 9.
Proof. unfold digit. destruct (_ && _) eqn:E; [|done]. intros [= <-]. bool_to_prop. lia. Qed.

(** Every byte of a printed number is a digit. *)
Fixpoint allDigits (s : string) : bool :=
  match s with
  | EmptyString => true
  | String a s' => match digit a with Some _ => allDigits s' | None => false end
  end.

Lemma digits_allDigits s acc n : digits acc s = Some n → allDigits s = true.
Proof.
  revert acc. induction s as [|a s IH]; intros acc; [done|]. cbn [digits allDigits].
  destruct (digit a); [|done]. by apply IH.
Qed.

Lemma Itoa_digits n : 0 ≤ n → digits 0 (Itoa n) = Some n ∧ allDigits (Itoa n) = true ∧ Itoa n ≠ ""%string.
Proof.
  intros Hn. assert (Itoa n = pretty (Z.to_N n)) as E.
  { unfold Itoa, pretty, pretty_Z. destruct n as [|p|p]; [done|done|lia]. }
  assert (digits 0 (Itoa n) = Some n) as Hd by (rewrite E, digits_pretty; f_equal; lia).
  split; [done|]. split; [by eapply digits_allDigits|]. intros E'.
  assert (n = 0) as -> by (rewrite E' in Hd; simpl in Hd; congruence). done.
Qed.

Lemma Atoi_Itoa n : 0 ≤ n < 2^63 → Atoi (Itoa n) = Some n.
Proof.
  intros Hn. destruct (Itoa_digits n) as (Hd & Ha & Hne); [lia|]. unfold Atoi.
  destruct (Itoa n) as [|a s]; [done|]. simpl in Ha.
  destruct (digit a) eqn:Ed; [|done].
  assert (a ≠ "-"%char ∧ a ≠ "+"%char) as [H1 H2] by (split; intros ->; vm_compute in Ed; done).
  destruct a as [b0 b1 b2 b3 b4 b5 b6 b7].
  assert ((match digits 0 (String (Ascii b0 b1 b2 b3 b4 b5 b6 b7) s) with
           | Some n => if (-2^63 <=? n) && (n <? 2^63) then Some n else None | None => None end) = Some n) as Hr.
  { rewrite Hd. rewrite (proj2 (Z.leb_le _ _)), (proj2 (Z.ltb_lt _ _)) by lia. done. }
  destruct b0, b1, b2, b3, b4, b5, b6, b7; try exact Hr; done.
Qed.

(** ** A record read back *)

(** A byte of a printable name: neither a space nor outside ASCII. *)
Definition visible (a : ascii) : bool := let n := nat_of_ascii a in ((33 <=? n) && (n <=? 126))%nat.

Fixpoint everyByte (f : ascii → bool) (s : string) : bool :=
  match s with EmptyString => true | String a s' => f a && everyByte f s' end.

Lemma everyByte_app f s s' : everyByte f (s +:+ s') = everyByte f s && everyByte f s'.
Proof. induction s as [|a s IH]; simpl; [done|]. by rewrite IH, andb_assoc. Qed.

Lemma everyByte_rev_app f s acc : everyByte f (strings.rev_app s acc) = everyByte f s && everyByte f acc.
Proof.
  revert acc. induction s as [|a s IH]; intros acc; simpl; [done|]. rewrite IH. simpl.
  by rewrite andb_assoc, (andb_comm (everyByte f s)).
Qed.

Lemma everyByte_impl f g s : (∀ a, f a = true → g a = true) → everyByte f s = true → everyByte g s = true.
Proof. intros H. induction s as [|a s IH]; simpl; [done|]. intros [? ?]%andb_true_iff. by rewrite H, IH. Qed.

Lemma everyByte_Contains f c s : f c = false → everyByte f s = true → strings.Contains s c = false.
Proof.
  intros Hc. induction s as [|a s IH]; simpl; [done|]. intros [Ha Hs]%andb_true_iff. rewrite IH by done.
  destruct (Ascii.eqb_spec a c) as [->|]; [congruence|done].
Qed.

(** No space starts or ends with a visible byte. *)
Definition startsWith (a : ascii) (p : string) : bool :=
  match p with EmptyString => true | String b _ => Ascii.eqb b a end.

Lemma visible_no_space a :
  visible a = true →
  existsb (startsWith a) strings.spaces = false ∧ existsb (startsWith a) (strings.rev <$> strings.spaces) = false.
Proof. destruct a as [[] [] [] [] [] [] [] []]; vm_compute; split; done. Qed.

Lemma cut_any_visible ps a s : existsb (startsWith a) ps = false → strings.cut_any ps (String a s) = None.
Proof.
  induction ps as [|p ps IH]; simpl; [done|]. intros [Hp Hps]%orb_false_iff. rewrite IH by done.
  destruct p as [|b p]; [done|]. simpl in *. by rewrite Hp.
Qed.

Lemma trim_any_visible fuel ps s :
  (∀ a, visible a = true → existsb (startsWith a) ps = false) → everyByte visible s = true →
  strings.trim_any fuel ps s = s.
Proof.
  intros Hps Hs. destruct fuel as [|fuel]; [done|]. simpl. destruct s as [|a s].
  - assert (strings.cut_any ps "" = None) as ->; [|done].
    pose proof (Hps "a"%char eq_refl) as H. induction ps as [|p ps IH]; [done|]. simpl in *. apply orb_false_iff in H as [H1 H2].
    destruct p; [done|]. simpl. apply IH; [|done]. intros b Hb. specialize (Hps b Hb). by apply orb_false_iff in Hps as [_ ?].
  - simpl in Hs. apply andb_true_iff in Hs as [Ha _]. by rewrite cut_any_visible by auto.
Qed.

Lemma TrimSpace_visible s : everyByte visible s = true → strings.TrimSpace s = s.
Proof.
  intros Hs. unfold strings.TrimSpace. rewrite (trim_any_visible _ _ _ (λ a H, proj1 (visible_no_space a H)) Hs).
  rewrite (trim_any_visible _ _ _ (λ a H, proj2 (visible_no_space a H))); [by apply rev_rev|].
  unfold strings.rev. by rewrite everyByte_rev_app, Hs.
Qed.

(** A line the record gives back as it was written. *)
Definition recordLine (line : string) : Prop :=
  everyByte visible line = true ∧ line ≠ ""%string ∧ strings.HasPrefix line "#" = false.

Lemma ReadRecord_WriteRecord lines : Forall recordLine lines → ReadRecord (WriteRecord lines) = lines.
Proof.
  intros Hl. unfold WriteRecord, ReadRecord. destruct lines as [|l0 lines]; [done|].
  assert (Forall (λ w, strings.Contains w newline = false) (l0 :: lines)) as Hn.
  { eapply Forall_impl; [exact Hl|]. intros l (Hv & _). by eapply (everyByte_Contains visible). }
  assert (strings.Join (l0 :: lines) (String newline "") ≠ ""%string) as Hne.
  { apply Forall_cons in Hl as [(_ & Hne & _) _]. destruct l0 as [|a l0]; [done|]. destruct lines; [done|]. rewrite Join_cons by done. done. }
  rewrite bool_decide_eq_false_2 by done.
  assert (strings.Split (strings.Join (l0 :: lines) (String newline "") +:+ String newline "") newline = (l0 :: lines) ++ [""%string]) as ->.
  { clear Hne Hl. revert l0 Hn. induction lines as [|l1 lines IH]; intros l0 [H0 Hn]%Forall_cons.
    - simpl strings.Join. by rewrite Split_append.
    - rewrite Join_cons by done. rewrite !append_assoc. simpl ((String newline "") +:+ _).
      rewrite Split_append by done. cbn [app]. f_equal. by apply IH. }
  rewrite fmap_app, filter_app. replace (filter _ (strings.TrimSpace <$> [""%string])) with (@nil string) by done. rewrite app_nil_r.
  clear Hn Hne. induction Hl as [|l ls (Hv & Hne & Hc) Hl IH]; [done|]. rewrite fmap_cons, TrimSpace_visible by done.
  rewrite filter_cons_True by done. by rewrite IH.
Qed.

(** ** Trimming twice *)

Section trimming.
Context (ps : list string) (nonempty : ""%string ∉ ps).

Lemma cut_any_None s : strings.cut_any ps s = None ↔ ∀ p, p ∈ ps → strings.CutPrefix s p = None.
Proof.
  clear nonempty. induction ps as [|p qs IH]; cbn; [split; [by intros _ ? ?%elem_of_nil|done]|].
  destruct (strings.CutPrefix s p) eqn:E; [split; [done|intros H; rewrite H in E by left; done]|]. rewrite IH. split.
  - intros H q [->|Hq]%elem_of_cons; auto.
  - intros H q Hq. apply H. by right.
Qed.

Lemma cut_any_Some s r : strings.cut_any ps s = Some r → ∃ p, p ∈ ps ∧ s = p +:+ r.
Proof.
  clear nonempty. induction ps as [|p qs IH]; cbn; [done|]. destruct (strings.CutPrefix s p) eqn:E.
  - intros [= ->]. exists p. split; [left|by apply CutPrefix_Some].
  - intros (q & ? & ?)%IH. exists q. split; [by right|done].
Qed.

Lemma cut_any_prefix a b : strings.cut_any ps (a +:+ b) = None → strings.cut_any ps a = None.
Proof.
  rewrite !cut_any_None. intros H p Hp. destruct (strings.CutPrefix a p) as [r|] eqn:E; [|done].
  apply CutPrefix_Some in E as ->. specialize (H p Hp). rewrite append_assoc, CutPrefix_append in H. done.
Qed.

Lemma trim_any_stops fuel s : (strlen s ≤ fuel)%nat → strings.cut_any ps (strings.trim_any fuel ps s) = None.
Proof.
  revert s. induction fuel as [|fuel IH]; intros s Hl.
  - destruct s; [|cbn in Hl; lia]. apply cut_any_None. intros p Hp. destruct p; [done|done].
  - cbn [strings.trim_any]. destruct (strings.cut_any ps s) as [r|] eqn:E; [|done]. apply IH.
    apply cut_any_Some in E as (p & Hp & ->). rewrite strlen_append in Hl. destruct p; [done|]. cbn in Hl. lia.
Qed.

Lemma trim_any_id fuel s : strings.cut_any ps s = None → strings.trim_any fuel ps s = s.
Proof. destruct fuel; [done|]. cbn. by intros ->. Qed.

Lemma trim_any_suffix fuel s : ∃ pre, s = pre +:+ strings.trim_any fuel ps s.
Proof.
  revert s. induction fuel as [|fuel IH]; intros s; cbn [strings.trim_any]; [by exists ""%string|].
  destruct (strings.cut_any ps s) as [r|] eqn:E; [|by exists ""%string]. apply cut_any_Some in E as (p & _ & ->).
  destruct (IH r) as [pre Hr]. exists (p +:+ pre). by rewrite append_assoc, <- Hr.
Qed.

End trimming.

Lemma TrimSpace_idem s : strings.TrimSpace (strings.TrimSpace s) = strings.TrimSpace s.
Proof.
  assert (""%string ∉ strings.spaces) as H1 by (refine (bool_decide_unpack _ _); vm_compute; exact I).
  assert (""%string ∉ strings.rev <$> strings.spaces) as H2 by (refine (bool_decide_unpack _ _); vm_compute; exact I).
  unfold strings.TrimSpace at 2 3. set (l := strings.trim_any (strlen s) strings.spaces s).
  set (t := strings.trim_any (strlen l) (strings.rev <$> strings.spaces) (strings.rev l)).
  assert (strlen (strings.rev l) = strlen l) as Hlen.
  { clear. induction l as [|a l IH]; [done|]. unfold strings.rev. cbn. rewrite rev_app_append, strlen_append, IH. cbn. lia. }
  pose proof (trim_any_stops strings.spaces H1 (strlen s) s ltac:(done)) as Hl. fold l in Hl.
  pose proof (trim_any_stops (strings.rev <$> strings.spaces) H2 (strlen l) (strings.rev l) ltac:(lia)) as Ht. fold t in Ht.
  destruct (trim_any_suffix (strings.rev <$> strings.spaces) (strlen l) (strings.rev l)) as [pre Hp]. fold t in Hp.
  assert (strings.cut_any strings.spaces (strings.rev t) = None) as Hr.
  { apply (cut_any_prefix _ _ (strings.rev pre)). rewrite <- rev_append, <- Hp, rev_rev. done. }
  unfold strings.TrimSpace. rewrite (trim_any_id _ _ _ Hr), rev_rev, (trim_any_id _ _ _ Ht). done.
Qed.

(** A string with a visible byte is not blank. *)
Lemma trim_any_visible_left ps fuel s c :
  visible c = true → Forall (λ p, strings.Contains p c = false) ps → strings.Contains s c = true →
  strings.Contains (strings.trim_any fuel ps s) c = true.
Proof.
  intros Hc Hps. revert s. induction fuel as [|fuel IH]; intros s Hs; cbn [strings.trim_any]; [done|].
  destruct (strings.cut_any ps s) as [r|] eqn:E; [|done]. apply IH. apply cut_any_Some in E as (p & Hp & ->).
  rewrite Forall_forall in Hps. rewrite Contains_append, (Hps p Hp) in Hs. done.
Qed.

Lemma Contains_rev s c : strings.Contains (strings.rev s) c = strings.Contains s c.
Proof.
  induction s as [|a s IH]; [done|]. unfold strings.rev. cbn [strings.rev_app]. rewrite rev_app_append, Contains_append, IH. cbn.
  destruct (Ascii.eqb a c), (strings.Contains s c); done.
Qed.

Lemma TrimSpace_not_blank s c : visible c = true → strings.Contains s c = true → strings.TrimSpace s ≠ ""%string.
Proof.
  intros Hc Hs E. assert (strings.Contains (strings.TrimSpace s) c = true) as H; [|by rewrite E in H].
  assert (∀ p, p ∈ strings.spaces → strings.Contains p c = false) as Hsp.
  { apply Forall_forall. revert Hc. clear. destruct c as [[] [] [] [] [] [] [] []]; vm_compute; intros; try done; repeat constructor. }
  unfold strings.TrimSpace. rewrite Contains_rev. apply trim_any_visible_left; [done| |rewrite Contains_rev; apply trim_any_visible_left; [done| |done]].
  - apply Forall_fmap, Forall_forall. intros p Hp. simpl. rewrite Contains_rev. auto.
  - by apply Forall_forall.
Qed.
