(* ===== verification/DirTypes.v ===== *)
(** * dircache's vocabulary (types.go, the data of decide.go)

    What the consumer did to its copy of a share ([Change]), what happened to a
    path on this machine ([Op], [Event]), what the fill sent ([Baseline]), and
    what a stat answers ([FileInfo]). *)

From S2P Require Import Prelude GoStrings GoTime.
Open Scope Z_scope.

(** types.go: [Change]. *)
Record Change := {
  ch_Path : string;
  ch_Size : Z;
  ch_ModTime : Z;
  ch_Deleted : bool;
  ch_Opaque : bool;
  ch_Link : string;
  ch_Changed : Z;
  ch_Dir : bool;
  ch_Mode : Z
}.

#[export] Instance Change_eq_dec : EqDecision Change.
Proof. solve_decision. Defined.

(** types.go: [Op], a bitset. *)
Definition OpCreate : Z := 1.
Definition OpWrite : Z := 2.
Definition OpRemove : Z := 4.
Definition OpRename : Z := 8.
Definition OpAttrib : Z := 16.

Definition Gone (o : Z) : bool := negb (Z.land o (Z.lor OpRemove OpRename) =? 0).

(** types.go: [Event] and [Notice]. *)
Record Event := {
  ev_Share : string;
  ev_Path : string;
  ev_Op : Z;
  ev_Dir : bool
}.

Record Notice := {
  n_Reason : string;
  n_Dropped : Z
}.

(** [fs.FileMode] bits. *)
Definition ModeDir : Z := Z.shiftl 1 31.
Definition ModeSymlink : Z := Z.shiftl 1 27.
Definition permExec : Z := 73 (* 0o111 *).
Definition permRead : Z := 292 (* 0o444 *).

(** What [os.Root.Stat] answers, as far as the code reads it. *)
Record FileInfo := {
  fi_Size : Z;
  fi_ModTime : Time;
  fi_Mode : Z
}.

#[export] Instance FileInfo_eq_dec : EqDecision FileInfo.
Proof. solve_decision. Defined.

Definition IsDir (i : FileInfo) : bool := Z.testbit (fi_Mode i) 31.

(** decide.go: [Baseline]. *)
Record Baseline := {
  b_Size : Z;
  b_ModTime : Time;
  b_Consumer : Z
}.

#[export] Instance Baseline_eq_dec : EqDecision Baseline.
Proof. solve_decision. Defined.

(** The zero value of [Baseline]. *)
Definition zeroBaseline : Baseline := {| b_Size := 0; b_ModTime := zeroTime; b_Consumer := 0 |}.

Definition sameFile (b o : Baseline) : bool :=
  (b_Size b =? b_Size o) && Equal (b_ModTime b) (b_ModTime o).

(** [copiedTime]: either side may hold the other's time rounded to the second. *)
Definition copiedTime (theirs : Z) (ours : Time) : bool :=
  let t := Unix0 theirs in
  Equal t ours || Equal t (RoundSecond ours) || Equal (RoundSecond t) ours.

Definition carries (b : Baseline) (c : Change) : bool :=
  if negb (ch_Size c =? b_Size b) then false
  else if negb (b_Consumer b =? 0) && (ch_ModTime c =? b_Consumer b) then true
  else copiedTime (ch_ModTime c) (b_ModTime b).

Definition sameContent (c : Change) (info : FileInfo) : bool :=
  (ch_Size c =? fi_Size info) && copiedTime (ch_ModTime c) (fi_ModTime info).

(** walk.go: [Entry], one file a prefetch may send. *)
Record Entry := {
  e_Path : string;
  e_Size : Z
}.

#[export] Instance Entry_eq_dec : EqDecision Entry.
Proof. solve_decision. Defined.

(** cache.go: [slashed]. *)
Definition slashed (p : string) : string := "/" +:+ strings.TrimPrefix p "/".

Lemma slashed_idem p : slashed (slashed p) = slashed p.
Proof. unfold slashed. unfold strings.TrimPrefix at 1. by rewrite CutPrefix_append. Qed.

Lemma slashed_absolute p : slashed ("/" +:+ p) = "/" +:+ p.
Proof. unfold slashed, strings.TrimPrefix. by rewrite CutPrefix_append. Qed.

(** Every time this machine sends arrives unchanged or rounded to the second,
    and either way reads as a copy. *)
Lemma copiedTime_refl t : copiedTime t t = true.
Proof. unfold copiedTime, Equal, Unix0. by rewrite Z.eqb_refl. Qed.

Lemma copiedTime_rounded t : copiedTime (RoundSecond t) t = true.
Proof. unfold copiedTime, Equal, Unix0. rewrite Z.eqb_refl. by rewrite orb_true_r. Qed.

(** A time read as a copy is within half a second of the original. *)
Lemma copiedTime_near theirs ours :
  copiedTime theirs ours = true → Z.abs (theirs - ours) * 2 ≤ Second.
Proof.
  unfold copiedTime, Equal, Unix0. pose proof (RoundSecond_near ours).
  pose proof (RoundSecond_near theirs).
  intros [[H1|H1]%orb_true_iff|H1]%orb_true_iff; apply Z.eqb_eq in H1; unfold Second in *; lia.
Qed.

#[export] Hint Resolve copiedTime_refl copiedTime_rounded : rd.
