(* ===== verification/Decide.v ===== *)
(** * What a consumer's changes mean for the files here (dircache/decide.go)

    The one pure decision procedure of write-back: given what the fill sent
    (the manifest), every path any batch recorded, what the consumer changed and
    what this machine has now, [decide] says what to do about each change.

    The [local] and [ctime] arguments are the two questions the code asks this
    machine's disk; a nil [ctime] is [None]. *)
From S2P Require Import Prelude GoStrings GoTime DirTypes.

Open Scope Z_scope.

(** decide.go: [kind]. *)
Inductive kind :=
| kindWrite
| kindDelete
| kindConflict
| kindLink
| kindMkdir
| kindChmod
| kindAdopt.

#[export] Instance kind_eq_dec : EqDecision kind.
Proof. solve_decision. Defined.

Definition kind_String (k : kind) : string :=
  match k with
  | kindWrite => "write"
  | kindDelete => "delete"
  | kindLink => "link"
  | kindMkdir => "mkdir"
  | kindChmod => "chmod"
  | kindAdopt => "adopt"
  | kindConflict => "conflict"
  end.

(** decide.go: [seenState]. *)
Record seenState := {
  s_Here : bool;
  s_Size : Z;
  s_Mod : Time;
  s_Ctime : Time
}.

#[export] Instance seenState_eq_dec : EqDecision seenState.
Proof. solve_decision. Defined.

Definition zeroSeen : seenState :=
  {| s_Here := false; s_Size := 0; s_Mod := zeroTime; s_Ctime := zeroTime |}.

(** replace.go: [linkState]. *)
Record linkState := {
  l_Exists : bool;
  l_IsLink : bool;
  l_Target : string;
  l_ModTime : Time
}.

Definition zeroLinkState : linkState :=
  {| l_Exists := false; l_IsLink := false; l_Target := ""; l_ModTime := zeroTime |}.

(** decide.go: [action]. *)
Record action := {
  a_Path : string;
  a_kind : kind;
  a_Wins : bool;
  a_Why : string;
  a_Link : string;
  a_Consumer : Z;
  a_Exec : Z;
  a_Dir : bool;
  a_Seen : seenState;
  a_LinkSeen : linkState
}.

(** The composite literals the code writes, every other field zero. *)
Definition actOf (p : string) (k : kind) : action :=
  {| a_Path := p; a_kind := k; a_Wins := false; a_Why := ""; a_Link := "";
     a_Consumer := 0; a_Exec := 0; a_Dir := false;
     a_Seen := zeroSeen; a_LinkSeen := zeroLinkState |}.

Definition actWrite (p : string) (consumer exec : Z) : action :=
  {| a_Path := p; a_kind := kindWrite; a_Wins := false; a_Why := ""; a_Link := "";
     a_Consumer := consumer; a_Exec := exec; a_Dir := false;
     a_Seen := zeroSeen; a_LinkSeen := zeroLinkState |}.

Definition actConflict (p : string) (wins : bool) (why : string) (consumer exec : Z) : action :=
  {| a_Path := p; a_kind := kindConflict; a_Wins := wins; a_Why := why; a_Link := "";
     a_Consumer := consumer; a_Exec := exec; a_Dir := false;
     a_Seen := zeroSeen; a_LinkSeen := zeroLinkState |}.

Definition actDelete (p : string) (dir : bool) : action :=
  {| a_Path := p; a_kind := kindDelete; a_Wins := false; a_Why := ""; a_Link := "";
     a_Consumer := 0; a_Exec := 0; a_Dir := dir;
     a_Seen := zeroSeen; a_LinkSeen := zeroLinkState |}.

Definition actChmod (p : string) (exec : Z) : action :=
  {| a_Path := p; a_kind := kindChmod; a_Wins := false; a_Why := ""; a_Link := "";
     a_Consumer := 0; a_Exec := exec; a_Dir := false;
     a_Seen := zeroSeen; a_LinkSeen := zeroLinkState |}.

Definition actAdopt (p : string) (consumer : Z) : action :=
  {| a_Path := p; a_kind := kindAdopt; a_Wins := false; a_Why := ""; a_Link := "";
     a_Consumer := consumer; a_Exec := 0; a_Dir := false;
     a_Seen := zeroSeen; a_LinkSeen := zeroLinkState |}.

Definition setSeen (s : seenState) (a : action) : action :=
  {| a_Path := a_Path a; a_kind := a_kind a; a_Wins := a_Wins a; a_Why := a_Why a;
     a_Link := a_Link a; a_Consumer := a_Consumer a; a_Exec := a_Exec a; a_Dir := a_Dir a;
     a_Seen := s; a_LinkSeen := a_LinkSeen a |}.

Definition seenOf (info : option FileInfo) : seenState :=
  match info with
  | None => zeroSeen
  | Some i => {| s_Here := true; s_Size := fi_Size i; s_Mod := fi_ModTime i; s_Ctime := zeroTime |}
  end.

Definition seen_same (s now : seenState) : bool :=
  Bool.eqb (s_Here s) (s_Here now) && (s_Size s =? s_Size now) && Equal (s_Mod s) (s_Mod now) &&
  (IsZero (s_Ctime s) || Equal (s_Ctime s) (s_Ctime now)).

(** The reasons a person reads. *)
Definition whyYouLater := "you changed it here after the container did; your version is kept".
Definition whyYouLaterDeleted := "you changed it here after the container deleted it; your file is kept".
Definition whyNoChangeTime := "when it last changed here cannot be read; your version is kept".
Definition whyOldWorkspace := "the container deleted it, and this workspace is too old to say when; update the workspace".
Definition whyDirHere := "the container has a file where you have a directory; your directory is kept".
Definition whyFileHere := "the container made a directory where you have a file; your file is kept".
Definition whyDeletedYouChanged := "the container deleted it and you changed it; your file is kept".
Definition whyYouDeleted := "you deleted it and the container changed it; its version is kept".

Definition conflictReason (containerWins : bool) : string :=
  if containerWins then "both changed it; the container wrote last, so its version is kept"
  else "both changed it; you wrote last, so your version is kept".

(** [consumerLater]: the consumer's time, skew taken off, is later than ours by
    more than [by]. *)
Definition consumerLater (theirs : Z) (ours : Time) (skew by_ : Duration) : bool :=
  After (Add (Unix0 theirs) (neg skew)) (Add ours by_).

(** [execFlip]: +1 set, -1 clear, 0 agree or not known. A nil info is [None]. *)
Definition execFlip (c : Change) (info : option FileInfo) (exec : Z) : Z :=
  match info with
  | None => 0
  | Some i =>
      if (exec =? 0) || (ch_Changed c =? 0) then 0
      else
        let theirs := negb (Z.land (ch_Mode c) exec =? 0) in
        let ours := negb (Z.land (fi_Mode i) permExec =? 0) in
        if Bool.eqb theirs ours then 0 else if theirs then 1 else -1
  end.

(** [withExec]: what chmod +x and chmod -x leave a file with. *)
Definition withExec (perm exec : Z) : Z :=
  if 0 <? exec then Z.lor perm (Z.shiftr (Z.land perm permRead) 2)
  else if exec <? 0 then Z.ldiff perm permExec
  else perm.

(** [cmp.Or] on two integers. *)
Definition cmpOr (a b : Z) : Z := if a =? 0 then b else a.

Abbreviation localAt := (string → option FileInfo).
Abbreviation ctimeAt := (option (string → option Time)).

Section decide.

Context (manifest : gmap string Baseline).
Context (recorded : gset string).
Context (local : localAt).
Context (ctime : ctimeAt).
Context (skew margin : Duration).
Context (exec : Z).

(** The lazily built [holding] set: every recorded path and every directory
    above one. *)
Definition holding : gset string := list_to_set (elements recorded ≫= path.ups).
Definition held (p : string) : bool := bool_decide (p ∈ holding).

(** The closure [lastWriter], which also notes the change time it read in [st]. *)
Definition lastWriter (p : string) (st : seenState) (theirs : Z) (by_ : Duration)
  : option bool * seenState :=
  match ctime with
  | None => (None, st)
  | Some f =>
      if theirs =? 0 then (None, st)
      else match f p with
           | None => (None, st)
           | Some ours =>
               (Some (consumerLater theirs ours skew by_),
                {| s_Here := s_Here st; s_Size := s_Size st; s_Mod := s_Mod st; s_Ctime := ours |})
           end
  end.

Definition youChanged (base : Baseline) (info : option FileInfo) : bool :=
  match info with
  | None => true
  | Some i => negb (fi_Size i =? b_Size base) || negb (Equal (fi_ModTime i) (b_ModTime base))
  end.

(** [decideHeld]: the table for a file the cache holds. *)
Definition decideHeld (change : Change) (base : Baseline) (info : option FileInfo) (st : seenState)
  : list action * seenState :=
  let p := ch_Path change in
  if ch_Deleted change then
    match info with
    | None => ([], st)
    | Some _ =>
        if youChanged base info then ([actConflict p false whyDeletedYouChanged 0 0], st)
        else ([actDelete p false], st)
    end
  else if negb (youChanged base info) then
    ([actWrite p (ch_ModTime change) (execFlip change info exec)], st)
  else match info with
  | None => ([actConflict p true whyYouDeleted (ch_ModTime change) 0], st)
  | Some i =>
      let '(last, st') := lastWriter p st (ch_Changed change) 0 in
      let wins := match last with
                  | Some w => w
                  | None => After (Add (Unix0 (ch_ModTime change)) (neg skew)) (fi_ModTime i)
                  end in
      ([actConflict p wins (conflictReason wins) (ch_ModTime change)
          (if wins then execFlip change info exec else 0)], st')
  end.

Definition keep (p why : string) : list action := [actConflict p false why 0 0].

(** One change of the loop in [decide]: its actions, and what [seen] records for
    its path ([None] for the two kinds of change the loop passes over). *)
Definition decideOne (change : Change) : list action * option seenState :=
  let p := ch_Path change in
  if negb (bool_decide (ch_Link change = "")) then ([], None)
  else if ch_Opaque change then
    match local p with
    | None => ((if negb (held p) then [actOf p kindMkdir] else []), None)
    | Some _ => ([], None)
    end
  else
    let sent := manifest !! p in
    let info := local p in
    let st := seenOf info in
    let here := match info with Some _ => true | None => false end in
    let isdir := match info with Some i => IsDir i | None => false end in
    if ch_Dir change then
      match info with
      | None => ((if negb (held p) then [actOf p kindMkdir] else []), Some st)
      | Some i => ((if negb (IsDir i) then keep p whyFileHere else []), Some st)
      end
    else if here && isdir then
      if negb (ch_Deleted change) then (keep p whyDirHere, Some st)
      else
        let '(last, st') := lastWriter p st (ch_Changed change) margin in
        ((if bool_decide (last = Some true) then [actDelete p true] else []), Some st')
    else if here && negb (ch_Deleted change) &&
            match info with Some i => sameContent change i | None => false end then
      let flip := execFlip change info exec in
      if negb (flip =? 0) then
        let '(last, st') := lastWriter p st (ch_Changed change) margin in
        (match last with
         | None => keep p whyNoChangeTime
         | Some true => [actChmod p flip]
         | Some false => keep p whyYouLater
         end, Some st')
      else
        (match sent with None => [actAdopt p (ch_ModTime change)] | Some _ => [] end, Some st)
    else match sent with
    | Some base =>
        if negb (ch_Deleted change) && carries base change then ([], Some st)
        else let '(acts, st') := decideHeld change base info st in (acts, Some st')
    | None =>
        if negb here then
          ((if negb (ch_Deleted change) && negb (bool_decide (p ∈ recorded))
            then [actWrite p (ch_ModTime change) 0] else []), Some st)
        else if ch_Deleted change then
          let '(last, st') := lastWriter p st (ch_Changed change) margin in
          (if ch_Changed change =? 0 then keep p whyOldWorkspace
           else match last with
                | None => keep p whyNoChangeTime
                | Some true => [actDelete p false]
                | Some false => keep p whyYouLaterDeleted
                end, Some st')
        else
          let theirs := cmpOr (ch_Changed change) (ch_ModTime change) in
          let '(last, st') := lastWriter p st theirs margin in
          (match last with
           | None => keep p whyNoChangeTime
           | Some true => [actWrite p (ch_ModTime change) (execFlip change info exec)]
           | Some false => keep p whyYouLater
           end, Some st')
    end.

(** The map [seen] after the loop: the last state noted for each path. *)
Definition seenAfter (changes : list Change) : gmap string seenState :=
  foldl (λ m ch, match snd (decideOne ch) with
                 | Some st => <[ch_Path ch := st]> m
                 | None => m
                 end) ∅ changes.

Definition decide_raw (changes : list Change) : list action :=
  changes ≫= λ ch, fst (decideOne ch).

Definition decide_ (changes : list Change) : list action :=
  let seen := seenAfter changes in
  (λ a, setSeen (default zeroSeen (seen !! a_Path a)) a) <$> decide_raw changes.

End decide.

(** decide.go: [writes], [deletes], [ofKind]; writepass.go: [moving]. *)
Definition isWrite (a : action) : bool :=
  bool_decide (a_kind a = kindWrite) || (bool_decide (a_kind a = kindConflict) && a_Wins a).

Definition writes (actions : list action) : list string :=
  a_Path <$> filter (λ a, isWrite a = true) actions.

Definition deeper_leb (a b : string) : bool :=
  (strings.Count b path.sep <=? strings.Count a path.sep)%nat.

Definition deletes (actions : list action) : list string :=
  stable_sort deeper_leb (a_Path <$> filter (λ a, a_kind a = kindDelete) actions).

Definition ofKind (actions : list action) (k : kind) : list action :=
  filter (λ a, a_kind a = k) actions.

Definition moving (actions : list action) : nat :=
  length (filter (λ a, a_kind a ≠ kindAdopt ∧ (a_kind a ≠ kindConflict ∨ a_Wins a = true)) actions).

(** * Properties of [decide] (dircache/decide.go) *)

Open Scope Z_scope.

(** An action that would replace, remove or re-mode something this machine has. *)
Definition touches (a : action) : bool :=
  match a_kind a with
  | kindWrite | kindDelete | kindChmod | kindLink => true
  | kindConflict => a_Wins a
  | kindMkdir | kindAdopt => false
  end.

(** ** The abstract merge the held-file table implements *)

(** What one side did to a file since the fill sent it. *)
Inductive since := Unchanged | Changed | Deleted.

#[export] Instance since_eq_dec : EqDecision since.
Proof. solve_decision. Defined.

Inductive verdict :=
| Nothing
| TakeTheirs (reported : bool)
| RemoveHere
| KeepOurs.

(** Last writer wins over a common base: the specification, in which a clock
    ([they_last]) enters only when both sides changed the file. *)
Definition merge (they we : since) (they_last : bool) : verdict :=
  match they, we with
  | Unchanged, _ => Nothing
  | Deleted, Deleted => Nothing
  | Deleted, Changed => KeepOurs
  | Deleted, Unchanged => RemoveHere
  | Changed, Unchanged => TakeTheirs false
  | Changed, Deleted => TakeTheirs true
  | Changed, Changed => if they_last then TakeTheirs true else KeepOurs
  end.

Definition we_did (base : Baseline) (info : option FileInfo) : since :=
  match info with
  | None => Deleted
  | Some i => if bool_decide (fi_Size i = b_Size base ∧ fi_ModTime i = b_ModTime base)
              then Unchanged else Changed
  end.

Section decide_props.

Context (manifest : gmap string Baseline) (recorded : gset string).
Context (local : localAt) (ctime : ctimeAt) (skew margin : Duration) (exec : Z).

Abbreviation one := (decideOne manifest recorded local ctime skew margin exec).
Abbreviation dec := (decide_ manifest recorded local ctime skew margin exec).
Abbreviation lastW := (lastWriter ctime skew).

(** Every change time the code compares is read here. *)
Definition consumer_last (ch : Change) (theirs : Z) (by_ : Duration) : Prop :=
  ∃ f ours, ctime = Some f ∧ f (ch_Path ch) = Some ours ∧ theirs ≠ 0 ∧
            consumerLater theirs ours skew by_ = true.

Lemma lastWriter_true p st theirs by_ st' :
  lastW p st theirs by_ = (Some true, st') →
  ∃ f ours, ctime = Some f ∧ f p = Some ours ∧ theirs ≠ 0 ∧ consumerLater theirs ours skew by_ = true.
Proof.
  unfold lastWriter. intros H. destruct_ifs_in H. bool_to_prop. eauto 10.
Qed.

Lemma lastWriter_seen p st theirs by_ :
  let st' := snd (lastW p st theirs by_) in
  s_Here st' = s_Here st ∧ s_Size st' = s_Size st ∧ s_Mod st' = s_Mod st.
Proof. unfold lastWriter. by destruct_ifs. Qed.

(** What licenses touching a file this machine has at the path of [ch]. *)
Inductive licensed (ch : Change) (info : FileInfo) : Prop :=
| lic_last :
    (** the consumer changed it last, by more than the margin *)
    manifest !! ch_Path ch = None ∨ sameContent ch info = true ∨ IsDir info = true →
    consumer_last ch (if ch_Deleted ch then ch_Changed ch else cmpOr (ch_Changed ch) (ch_ModTime ch)) margin →
    licensed ch info
| lic_unchanged base :
    (** the cache held it and it is here as it was sent *)
    manifest !! ch_Path ch = Some base →
    fi_Size info = b_Size base → fi_ModTime info = b_ModTime base → licensed ch info
| lic_both base :
    (** both sides changed it and the consumer wrote last: by the change times,
        or, only where one of them is not known, by the modification times *)
    manifest !! ch_Path ch = Some base → ch_Deleted ch = false →
    consumer_last ch (ch_Changed ch) 0 ∨
    (fst (lastW (ch_Path ch) zeroSeen (ch_Changed ch) 0) = None ∧
     fi_ModTime info < ch_ModTime ch + neg skew) →
    licensed ch info.

Lemma youChanged_false base info :
  youChanged base (Some info) = false → fi_Size info = b_Size base ∧ fi_ModTime info = b_ModTime base.
Proof. unfold youChanged, Equal. intros. bool_to_prop. done. Qed.

Lemma lastWriter_st p st st' theirs by_ :
  fst (lastW p st theirs by_) = fst (lastW p st' theirs by_).
Proof. unfold lastWriter. by destruct_ifs. Qed.

Lemma execFlip_nonzero ch info : execFlip ch info exec ≠ 0 → ch_Changed ch ≠ 0.
Proof. unfold execFlip. destruct info; [|done]. destruct_ifs; bool_to_prop; naive_solver. Qed.

Lemma cmpOr_nonzero a b : a ≠ 0 → cmpOr a b = a.
Proof. unfold cmpOr. intros. by destruct (a =? 0) eqn:E; bool_to_prop. Qed.

(** [pick H]: [H] says an action is in a list of at most one. *)
Ltac pick H :=
  first [by apply elem_of_nil in H | apply list_elem_of_singleton in H as ->; try done].
Ltac by_last El :=
  let f := fresh "f" in let ours := fresh "ours" in
  eapply lastWriter_true in El as (f & ours & ?); by exists f, ours.

Lemma decideHeld_touch ch base info st a st' :
  decideHeld ctime skew exec ch base (Some info) st = (a, st') →
  manifest !! ch_Path ch = Some base →
  ∀ x, x ∈ a → touches x = true → licensed ch info.
Proof.
  unfold decideHeld. intros H Hm x Hx Ht. destruct (ch_Deleted ch) eqn:Ed.
  - destruct (youChanged base (Some info)) eqn:E; simplify_eq; [by pick Hx|].
    apply youChanged_false in E as [??]. by eapply lic_unchanged.
  - destruct (youChanged base (Some info)) eqn:E; simpl in H.
    + destruct (lastW _ _ _ _) as [last st0] eqn:El. injection H as <- <-. pick Hx.
      eapply lic_both; [done..|]. destruct last as [[]|]; [left; by_last El|done|right].
      unfold touches, After, Add, Unix0 in Ht; cbn in Ht. bool_to_prop.
      rewrite (lastWriter_st _ _ st), El. auto.
    + simplify_eq. apply youChanged_false in E as [??]. by eapply lic_unchanged.
Qed.

Lemma decideOne_touch ch info a :
  a ∈ fst (one ch) → touches a = true → local (ch_Path ch) = Some info → licensed ch info.
Proof.
  unfold decideOne. intros Ha Ht Hl. rewrite Hl in Ha. cbv zeta in Ha.
  destruct (negb (bool_decide _)); [by pick Ha|].
  destruct (ch_Opaque ch); [by pick Ha|].
  destruct (ch_Dir ch); [destruct (negb _); by pick Ha|].
  destruct (IsDir info) eqn:Edir; cbn [andb] in Ha.
  { destruct (ch_Deleted ch) eqn:Ed; cbn [negb] in Ha; [|by pick Ha].
    destruct (lastW _ _ _ _) as [last st'] eqn:El. cbn [fst] in Ha.
    case_bool_decide; subst; [|by pick Ha].
    apply lic_last; [auto|]. rewrite Ed. by_last El. }
  destruct (negb (ch_Deleted ch) && sameContent ch info) eqn:Esame.
  { bool_to_prop. destruct (negb (_ =? 0)) eqn:Ef.
    - destruct (lastW _ _ _ _) as [last st'] eqn:El.
      destruct last as [[]|]; pick Ha. bool_to_prop. apply execFlip_nonzero in Ef.
      apply lic_last; [auto|]. destruct (ch_Deleted ch); [done|]. rewrite cmpOr_nonzero by done.
      by_last El.
    - destruct (manifest !! _); by pick Ha. }
  destruct (manifest !! ch_Path ch) as [base|] eqn:Em.
  { destruct (_ && carries _ _); [by pick Ha|].
    destruct (decideHeld _ _ _ _ _ _ _) as [acts st'] eqn:Eh. by eapply decideHeld_touch. }
  destruct (ch_Deleted ch) eqn:Ed; cbn [negb] in Ha;
    destruct (lastW _ _ _ _) as [last st'] eqn:El; cbn [fst] in Ha.
  - destruct (_ =? 0); [by pick Ha|]. destruct last as [[]|]; pick Ha.
    apply lic_last; [auto|]. rewrite Ed. by_last El.
  - destruct last as [[]|]; pick Ha. apply lic_last; [auto|]. rewrite Ed. by_last El.
Qed.

(** Every action is about the path of the change it came from. *)
Lemma decideOne_path ch a : a ∈ fst (one ch) → a_Path a = ch_Path ch.
Proof.
  unfold decideOne, decideHeld, keep. intros Ha. cbv zeta in Ha.
  split_in Ha; by pick Ha.
Qed.

Lemma elem_of_decide changes a :
  a ∈ dec changes ↔
  ∃ ch a0, ch ∈ changes ∧ a0 ∈ fst (one ch) ∧
    a = setSeen (default zeroSeen (seenAfter manifest recorded local ctime skew margin exec changes !! a_Path a0)) a0.
Proof.
  unfold decide_, decide_raw. rewrite list_elem_of_fmap.
  setoid_rewrite list_elem_of_bind. naive_solver.
Qed.

Lemma touches_setSeen s a : touches (setSeen s a) = touches a.
Proof. done. Qed.

Lemma decide_licensed changes a info :
  a ∈ dec changes → touches a = true → local (a_Path a) = Some info →
  ∃ ch, ch ∈ changes ∧ ch_Path ch = a_Path a ∧ licensed ch info.
Proof.
  intros (ch & a0 & Hch & Ha0 & ->)%elem_of_decide Ht Hl.
  rewrite touches_setSeen in Ht. cbn [setSeen a_Path] in *.
  exists ch. rewrite (decideOne_path _ _ Ha0) in *. eauto using decideOne_touch.
Qed.

(** C2 (safety). Whatever [decide] would write over, delete or re-mode on this
    machine is licensed by one of the changes reported for its path: the consumer
    changed it last by more than the margin, of a path the cache does not hold, a
    copy with the same content or a directory; or the cache held it and it is here
    with the size and the modification time it was sent with, whatever its change
    time; or it is held, the change is no deletion, and the consumer wrote last by
    the change times, or, where one of those is not known, by the modification
    times less the skew. *)
Theorem decide_touches_only_licensed changes a info :
  a ∈ dec changes → touches a = true → local (a_Path a) = Some info →
  ∃ ch, ch ∈ changes ∧ ch_Path ch = a_Path a ∧ licensed ch info.
Proof. apply decide_licensed. Qed.

(** A time that is not known never writes or deletes anything: for
    a path the cache never held that this machine has, when no change time can
    be read for it, every action leaves it as it is. *)
Theorem decide_unknown_time_keeps changes a info :
  a ∈ dec changes → local (a_Path a) = Some info → manifest !! a_Path a = None →
  match ctime with None => True | Some f => f (a_Path a) = None end →
  touches a = false.
Proof.
  intros Ha Hl Hm Hc. apply not_true_iff_false. intros Ht.
  destruct (decide_licensed _ _ _ Ha Ht Hl) as (ch & _ & Hp & []);
    rewrite Hp in *; [|congruence..].
  destruct H0 as (f & ours & -> & Hf & _). rewrite Hp in *. congruence.
Qed.

(** C6 (safety). What was deleted here is not brought back: for a recorded path
    this machine no longer has and this run did not send, the only action there
    can be is to make a directory the consumer now has of that name; and a
    directory that held recorded files is not made again. *)
Theorem decide_no_resurrection changes p :
  local p = None →
  (manifest !! p = None → p ∈ recorded → ∀ a, a ∈ dec changes → a_Path a = p → a_kind a = kindMkdir) ∧
  (held recorded p = true → ∀ a, a ∈ dec changes → a_Path a = p → a_kind a ≠ kindMkdir).
Proof.
  intros Hl.
  split; [intros Hm Hr|intros Hh]; intros a (ch & a0 & Hch & Ha & ->)%elem_of_decide;
    cbn [setSeen a_Path a_kind]; rewrite (decideOne_path _ _ Ha); intros Hp; revert Ha;
    unfold decideOne, decideHeld; cbv zeta; rewrite Hp, Hl; cbn [negb andb];
    [rewrite Hm, (bool_decide_eq_true_2 _ Hr)|rewrite Hh];
    rewrite ?andb_false_r; cbn [negb]; rewrite ?andb_false_r; intros Ha;
    split_in Ha; by pick Ha.
Qed.

(** The consumer's copy is unchanged when it is the version sent or carried
    back, or a copy of the very file here. *)
Definition they_did (base : Baseline) (ch : Change) (info : option FileInfo) : since :=
  if ch_Deleted ch then Deleted
  else if carries base ch || match info with Some i => sameContent ch i | None => false end
  then Unchanged else Changed.

(** The consumer wrote last: by the change times where both are known, by the
    modification times otherwise. *)
Definition they_wrote_last (ch : Change) (info : option FileInfo) : bool :=
  match fst (lastW (ch_Path ch) zeroSeen (ch_Changed ch) 0), info with
  | Some w, _ => w
  | None, Some i => fi_ModTime i <? ch_ModTime ch + neg skew
  | None, None => false
  end.

Definition verdict_of (acts : list action) : option verdict :=
  match acts with
  | [] => Some Nothing
  | [a] => match a_kind a with
           | kindWrite => Some (TakeTheirs false)
           | kindDelete => Some RemoveHere
           | kindConflict => Some (if a_Wins a then TakeTheirs true else KeepOurs)
           | _ => None
           end
  | _ => None
  end.

Lemma youChanged_we_did base info :
  youChanged base info = negb (bool_decide (we_did base info = Unchanged)).
Proof.
  destruct info as [i|]; simpl; [|done]. unfold Equal.
  destruct (Z.eqb_spec (fi_Size i) (b_Size base)), (Z.eqb_spec (fi_ModTime i) (b_ModTime base));
    simpl; repeat case_bool_decide; naive_solver.
Qed.

(** C4 (refinement). For a file the cache holds, [decide] is exactly the
    three-way merge over the baseline: the consumer's side and this machine's
    side are each compared with what was sent, and which side wrote last is
    asked only when both changed it.  The change is one of a file's content or its
    deletion: it is no link, no replaced directory and no directory, what is here is
    no directory, and the change does not flip the execute bit. *)
Theorem decide_held_refines_merge ch base :
  manifest !! ch_Path ch = Some base →
  ch_Link ch = ""%string → ch_Opaque ch = false → ch_Dir ch = false →
  (∀ i, local (ch_Path ch) = Some i → IsDir i = false) →
  execFlip ch (local (ch_Path ch)) exec = 0 →
  verdict_of (fst (one ch)) =
    Some (merge (they_did base ch (local (ch_Path ch))) (we_did base (local (ch_Path ch)))
                (they_wrote_last ch (local (ch_Path ch)))).
Proof.
  intros Hm Hlink Hop Hd Hdir Hflip. unfold decideOne. cbv zeta.
  rewrite Hlink, Hop, Hd, Hm. cbn [negb]. rewrite Hflip. cbn [negb Z.eqb].
  unfold they_did, they_wrote_last. destruct (local (ch_Path ch)) as [i|] eqn:Hl; cbn [andb].
  - rewrite (Hdir i eq_refl). destruct (ch_Deleted ch) eqn:Ed; cbn [negb andb].
    + unfold decideHeld. rewrite Ed, youChanged_we_did. destruct (we_did base (Some i)) eqn:Ew; try done.
      by simpl in Ew; case_bool_decide.
    + destruct (sameContent ch i) eqn:Es; [by rewrite orb_true_r|]. rewrite orb_false_r.
      destruct (carries base ch) eqn:Ec; [done|].
      unfold decideHeld. rewrite Ed, youChanged_we_did. destruct (we_did base (Some i)) eqn:Ew; cbn [negb bool_decide]; try done.
      * rewrite (lastWriter_st _ zeroSeen (seenOf (Some i))).
        destruct (lastW _ _ _ _) as [[[]|] st']; done.
      * by simpl in Ew; case_bool_decide.
  - destruct (ch_Deleted ch) eqn:Ed; cbn [negb andb]; [by unfold decideHeld; rewrite Ed|].
    rewrite orb_false_r. destruct (carries base ch); [done|]. by unfold decideHeld; rewrite Ed.
Qed.

(** *** What each action was decided against *)

Lemma seenAfter_snoc changes ch :
  seenAfter manifest recorded local ctime skew margin exec (changes ++ [ch]) =
  match snd (one ch) with
  | Some st => <[ch_Path ch := st]> (seenAfter manifest recorded local ctime skew margin exec changes)
  | None => seenAfter manifest recorded local ctime skew margin exec changes
  end.
Proof. unfold seenAfter. by rewrite foldl_app. Qed.

Lemma decideOne_seen ch st :
  snd (one ch) = Some st →
  seen_same {| s_Here := s_Here st; s_Size := s_Size st; s_Mod := s_Mod st; s_Ctime := zeroTime |}
            (seenOf (local (ch_Path ch))) = true ∧
  (s_Ctime st = zeroTime ∨ ∃ f, ctime = Some f ∧ f (ch_Path ch) = Some (s_Ctime st)).
Proof.
  assert (∀ st0, st0 = seenOf (local (ch_Path ch)) ∨
                 (∃ theirs by_, st0 = snd (lastW (ch_Path ch) (seenOf (local (ch_Path ch))) theirs by_)) →
    seen_same {| s_Here := s_Here st0; s_Size := s_Size st0; s_Mod := s_Mod st0; s_Ctime := zeroTime |}
              (seenOf (local (ch_Path ch))) = true ∧
    (s_Ctime st0 = zeroTime ∨ ∃ f, ctime = Some f ∧ f (ch_Path ch) = Some (s_Ctime st0))) as Hst.
  { assert (s_Ctime (seenOf (local (ch_Path ch))) = zeroTime) as Hz by by destruct (local _).
    intros st0 [->|(theirs & by_ & ->)].
    - unfold seen_same, Equal, IsZero; simpl. rewrite eqb_reflx, !Z.eqb_refl. auto.
    - destruct (lastWriter_seen (ch_Path ch) (seenOf (local (ch_Path ch))) theirs by_) as (-> & -> & ->).
      unfold seen_same, Equal, IsZero; simpl. rewrite eqb_reflx, !Z.eqb_refl. split; [done|].
      unfold lastWriter. destruct_ifs; eauto. }
  intros H. apply Hst. unfold decideOne, decideHeld in H. cbv zeta in H.
  remember (seenOf (local (ch_Path ch))) as st1.
  assert (∀ th b l s, lastW (ch_Path ch) st1 th b = (l, s) →
           ∃ theirs by_, s = snd (lastW (ch_Path ch) st1 theirs by_)) as Hl.
  { intros th b l s E. exists th, b. by rewrite E. }
  split_in H; simplify_eq/=; eauto.
Qed.

Lemma seenAfter_lookup changes p :
  seenAfter manifest recorded local ctime skew margin exec changes !! p = None ∨
  ∃ ch, ch ∈ changes ∧ ch_Path ch = p ∧
    snd (one ch) = seenAfter manifest recorded local ctime skew margin exec changes !! p.
Proof.
  induction changes as [|ch changes IH] using rev_ind; [left; apply lookup_empty|].
  rewrite seenAfter_snoc. setoid_rewrite elem_of_app. setoid_rewrite list_elem_of_singleton.
  destruct (snd (one ch)) as [st|] eqn:E; [|naive_solver].
  destruct (decide (ch_Path ch = p)) as [<-|Hne].
  - rewrite lookup_insert_eq. right. exists ch. eauto.
  - rewrite lookup_insert_ne by done. naive_solver.
Qed.

(** The state each action carries for the check made just
    before its path is touched is what this machine had when it was decided:
    existence, size and modification time as [local] answered, and a change time
    only if it is the one that was read. *)
Theorem decide_seen_is_local changes a :
  a ∈ dec changes → s_Here (a_Seen a) = true →
  ∃ info, local (a_Path a) = Some info ∧
    s_Size (a_Seen a) = fi_Size info ∧ s_Mod (a_Seen a) = fi_ModTime info ∧
    (s_Ctime (a_Seen a) = zeroTime ∨ ∃ f, ctime = Some f ∧ f (a_Path a) = Some (s_Ctime (a_Seen a))).
Proof.
  intros (ch & a0 & Hch & Ha0 & ->)%elem_of_decide. cbn [setSeen a_Seen a_Path].
  destruct (seenAfter_lookup changes (a_Path a0)) as [->|(ch' & _ & <- & Hs)]; [done|].
  rewrite <- Hs. destruct (snd (one ch')) as [st|] eqn:E; [|done]. simpl. intros Hh.
  apply decideOne_seen in E as [E1 E2]. unfold seen_same, Equal in E1. simpl in E1.
  rewrite Hh in E1. bool_to_prop. destruct (local _) as [i|]; simpl in *; [|done].
  exists i. naive_solver.
Qed.

End decide_props.

(** ** The order of deletions *)

Lemma deeper_leb_total a b : deeper_leb a b = true ∨ deeper_leb b a = true.
Proof. unfold deeper_leb. rewrite !Nat.leb_le. lia. Qed.

Lemma deeper_leb_trans a b c : deeper_leb a b = true → deeper_leb b c = true → deeper_leb a c = true.
Proof. unfold deeper_leb. rewrite !Nat.leb_le. lia. Qed.

Lemma elem_of_deletes acts p :
  p ∈ deletes acts ↔ ∃ a, a ∈ acts ∧ a_kind a = kindDelete ∧ a_Path a = p.
Proof.
  unfold deletes. rewrite elem_of_stable_sort, list_elem_of_fmap.
  setoid_rewrite list_elem_of_filter. naive_solver.
Qed.

(** Deletions run deepest first: a path under a directory is
    removed before the directory itself, so a directory is emptied before its
    own turn comes; and exactly the paths decided as deletions are removed. *)
Theorem deletes_deepest_first acts :
  (∀ p, p ∈ deletes acts ↔ ∃ a, a ∈ acts ∧ a_kind a = kindDelete ∧ a_Path a = p) ∧
  ∀ d x i j,
    deletes acts !! i = Some d → deletes acts !! j = Some (d +:+ "/" +:+ x) → (j < i)%nat.
Proof.
  split; [apply elem_of_deletes|]. intros d x i j Hi Hj. destruct (decide (i = j)) as [->|Hne].
  { pose proof (Count_under d x) as H. assert (d = d +:+ "/" +:+ x) as E by congruence. rewrite <- E in H. lia. }
  destruct (decide (j < i)%nat); [done|]. exfalso.
  assert (deeper_leb d (d +:+ "/" +:+ x) = true) as H.
  { apply (StronglySorted_lookup_lt (λ a b, deeper_leb a b = true) (deletes acts) i j); [|done..|lia].
    apply stable_sort_sorted; [apply deeper_leb_total|apply deeper_leb_trans]. }
  unfold deeper_leb in H. apply Nat.leb_le in H. pose proof (Count_under d x). lia.
Qed.
