(* ===== verification/Replace.v ===== *)
(** * Directories removed or replaced, links, and reserved names
    (dircache/replace.go, and the pure part of dircache/writeback.go that works
    out which deletions a removed directory implies) *)

From S2P Require Import Prelude GoStrings GoTime DirTypes Decide.
Open Scope Z_scope.

(** replace.go: [linkState.same], [linkBaseline]. *)
Definition link_same (s now : linkState) : bool :=
  Bool.eqb (l_Exists s) (l_Exists now) && Bool.eqb (l_IsLink s) (l_IsLink now) &&
  bool_decide (l_Target s = l_Target now) && Equal (l_ModTime s) (l_ModTime now).

Definition linkBaseline (target : string) (mod_ : Time) : Baseline :=
  {| b_Size := Z.of_nat (strlen target); b_ModTime := mod_; b_Consumer := 0 |}.

Abbreviation linkAt := (string → linkState).

Definition whyOtherLink := "the container made a link here that points elsewhere than yours; yours is kept".
Definition whyFileForLink := "the container made a link where you have a file; your file is kept".

Definition actLink (p target : string) (here : linkState) : action :=
  {| a_Path := p; a_kind := kindLink; a_Wins := false; a_Why := ""; a_Link := target;
     a_Consumer := 0; a_Exec := 0; a_Dir := false;
     a_Seen := zeroSeen; a_LinkSeen := here |}.

(** One change of [decideLinks]. A path with no baseline reads as the zero
    [Baseline], as a Go map does. *)
Definition decideLink (manifest : gmap string Baseline) (local : linkAt) (ch : Change) : list action :=
  if bool_decide (ch_Link ch = "") then []
  else
    let p := ch_Path ch in
    let here := local p in
    if negb (l_Exists here) then [actLink p (ch_Link ch) here]
    else if l_IsLink here && bool_decide (l_Target here = ch_Link ch) then []
    else if l_IsLink here &&
            bool_decide (default zeroBaseline (manifest !! p) = linkBaseline (l_Target here) (l_ModTime here)) &&
            negb (IsZero (l_ModTime here)) then [actLink p (ch_Link ch) here]
    else if l_IsLink here then [actConflict p false whyOtherLink 0 0]
    else [actConflict p false whyFileForLink 0 0].

Definition decideLinks (manifest : gmap string Baseline) (changes : list Change) (local : linkAt)
  : list action := changes ≫= decideLink manifest local.

(** [replacedDeletions]: [hidden] and [listed] as the loop fills them. *)
Definition hiddenSet (changes : list Change) : gset string :=
  list_to_set (ch_Path <$> filter (λ ch, ch_Opaque ch = true ∨ ch_Deleted ch = true) changes).
Definition listedSet (changes : list Change) : gset string :=
  list_to_set (ch_Path <$> filter (λ ch, ch_Opaque ch = false) changes).

(** The loop over the directories above a path, the path itself excluded. *)
Definition dirsAbove (p : string) : list string := path.ups (path.Dir p).

Definition replacedDeletions (manifest : gmap string Baseline) (changes : list Change) : list string :=
  let hidden := hiddenSet changes in
  let listed := listedSet changes in
  sort_strings ((map_to_list manifest) ≫= λ '(p, b),
    if bool_decide (p ∈ listed) || negb (b_Consumer b =? 0) then []
    else if existsb (λ d, bool_decide (d ∈ hidden)) (dirsAbove p) then [p] else []).

(** [overlayMarker]: a component starting ".wh.". *)
Definition overlayMarker (p : string) : bool :=
  existsb (λ part, strings.HasPrefix part ".wh.")
    (strings.Split (strings.TrimFunc (λ a, Ascii.eqb a path.sep) p) path.sep).

(** writeback.go: [hiddenAt], the last time said for each removed or replaced
    directory. *)
Definition hiddenAt (changes : list Change) : gmap string Z :=
  foldl (λ m ch, if ch_Opaque ch || ch_Deleted ch then <[ch_Path ch := ch_Changed ch]> m else m) ∅ changes.

(** writeback.go: [earliestHidden]. *)
Definition earlier (t at_ : Z) : Z :=
  if negb (t =? 0) && ((at_ =? 0) || (t <? at_)) then t else at_.
Definition earliestHidden (p : string) (hidden : gmap string Z) : Z :=
  foldl (λ at_ d, earlier (default 0 (hidden !! d)) at_) 0 (dirsAbove p).

(** ** Properties *)

Lemma elem_of_decideLinks manifest changes local a :
  a ∈ decideLinks manifest changes local ↔ ∃ ch, ch ∈ changes ∧ a ∈ decideLink manifest local ch.
Proof. unfold decideLinks. rewrite list_elem_of_bind. naive_solver. Qed.

(** A link is made only where nothing is, or over a link that
    write-back itself made there and nobody re-pointed since: a file, a
    directory or a link of this machine's own is never replaced by one. *)
Theorem decideLinks_only_over_own manifest changes local a :
  a ∈ decideLinks manifest changes local → a_kind a = kindLink →
  l_Exists (local (a_Path a)) = false ∨
  (l_IsLink (local (a_Path a)) = true ∧
   manifest !! a_Path a =
     Some (linkBaseline (l_Target (local (a_Path a))) (l_ModTime (local (a_Path a)))) ∧
   a_LinkSeen a = local (a_Path a)).
Proof.
  intros (ch & _ & Ha)%elem_of_decideLinks Hk. unfold decideLink in Ha.
  split_in Ha; try (by apply elem_of_nil in Ha); apply list_elem_of_singleton in Ha as ->; try done; cbn in *.
  - left. by bool_to_prop.
  - right. bool_to_prop. split_and!; [done| |done].
    destruct (manifest !! ch_Path ch) as [b|]; simpl in *; [congruence|].
    exfalso. assert (l_ModTime (local (ch_Path ch)) = zeroTime) as E.
    { by match goal with H : zeroBaseline = _ |- _ => apply (f_equal b_ModTime) in H end. }
    unfold IsZero in *. rewrite E in *. by rewrite Z.eqb_refl in *.
Qed.

Lemma elem_of_replacedDeletions manifest changes p :
  p ∈ replacedDeletions manifest changes ↔
  (∃ b, manifest !! p = Some b ∧ b_Consumer b = 0) ∧
  (∀ ch, ch ∈ changes → ch_Path ch = p → ch_Opaque ch = true) ∧
  (∃ ch, ch ∈ changes ∧ (ch_Opaque ch = true ∨ ch_Deleted ch = true) ∧ ch_Path ch ∈ dirsAbove p).
Proof.
  unfold replacedDeletions, sort_strings. rewrite elem_of_stable_sort, list_elem_of_bind.
  assert (p ∉ listedSet changes ↔ ∀ ch, ch ∈ changes → ch_Path ch = p → ch_Opaque ch = true) as Hl.
  { unfold listedSet. rewrite elem_of_list_to_set, list_elem_of_fmap. setoid_rewrite list_elem_of_filter.
    split; [intros H ch Hc Hp; apply not_false_iff_true; naive_solver|intros H (ch & -> & E & Hc)].
    rewrite (H ch) in E; done. }
  assert (existsb (λ d, bool_decide (d ∈ hiddenSet changes)) (dirsAbove p) = true ↔
    ∃ ch, ch ∈ changes ∧ (ch_Opaque ch = true ∨ ch_Deleted ch = true) ∧ ch_Path ch ∈ dirsAbove p) as Hh.
  { rewrite existsb_exists. setoid_rewrite bool_decide_eq_true. setoid_rewrite <- list_elem_of_In.
    unfold hiddenSet. setoid_rewrite elem_of_list_to_set. setoid_rewrite list_elem_of_fmap.
    setoid_rewrite list_elem_of_filter. naive_solver. }
  rewrite <- Hl, <- Hh. split.
  - intros ([q b] & Hq & Hin%elem_of_map_to_list). split_in Hq; try (by apply elem_of_nil in Hq).
    apply list_elem_of_singleton in Hq as ->. bool_to_prop. naive_solver.
  - intros ((b & Hb & Hc) & Hn & Hd). exists (p, b). rewrite elem_of_map_to_list. split; [|done].
    rewrite bool_decide_eq_false_2 by done. rewrite Hc, Hd. simpl. by apply list_elem_of_singleton.
Qed.

Lemma replacedDeletions_NoDup manifest changes : NoDup (replacedDeletions manifest changes).
Proof.
  unfold replacedDeletions, sort_strings. rewrite stable_sort_Permutation. apply NoDup_bind.
  - intros [p1 b1] [p2 b2] y H1%elem_of_map_to_list H2%elem_of_map_to_list Y1 Y2.
    split_in Y1; try (by apply elem_of_nil in Y1). split_in Y2; try (by apply elem_of_nil in Y2).
    apply list_elem_of_singleton in Y1, Y2. congruence.
  - intros [q b] _. destruct_ifs; auto using NoDup_nil_2, NoDup_singleton.
  - apply NoDup_map_to_list.
Qed.

(** The deletions a removed or replaced directory implies are
    exactly the paths the fill sent and did not carry back that lie under one
    and are not listed themselves; each is named once, in order. *)
Theorem replacedDeletions_exact manifest changes :
  StronglySorted (λ a b, string_leb a b = true) (replacedDeletions manifest changes) ∧
  NoDup (replacedDeletions manifest changes) ∧
  ∀ p, p ∈ replacedDeletions manifest changes ↔
    (∃ b, manifest !! p = Some b ∧ b_Consumer b = 0) ∧
    (∀ ch, ch ∈ changes → ch_Path ch = p → ch_Opaque ch = true) ∧
    (∃ ch, ch ∈ changes ∧ (ch_Opaque ch = true ∨ ch_Deleted ch = true) ∧ ch_Path ch ∈ dirsAbove p).
Proof.
  split_and!; [|apply replacedDeletions_NoDup|intros p; apply elem_of_replacedDeletions].
  apply stable_sort_sorted; [apply string_leb_total|apply string_leb_trans].
Qed.

Lemma earlier_spec t a :
  (earlier t a = a ∨ earlier t a = t ∧ t ≠ 0) ∧ (a ≠ 0 → earlier t a ≤ a ∧ earlier t a ≠ 0) ∧
  (t ≠ 0 → earlier t a ≤ t ∧ earlier t a ≠ 0).
Proof. unfold earlier. destruct (Z.eqb_spec t 0), (Z.eqb_spec a 0), (Z.ltb_spec t a); simpl; lia. Qed.

Lemma fold_earlier (f : string → Z) (l : list string) a r :
  r = foldl (λ at_ d, earlier (f d) at_) a l →
  (r = a ∨ (∃ d, d ∈ l ∧ r = f d ∧ r ≠ 0)) ∧
  (a ≠ 0 → r ≤ a ∧ r ≠ 0) ∧ (∀ d, d ∈ l → f d ≠ 0 → r ≤ f d ∧ r ≠ 0).
Proof.
  revert a; induction l as [|d l IH]; intros a; simpl.
  { intros ->. split_and!; [auto|lia|intros d Hd; by apply elem_of_nil in Hd]. }
  intros (H1 & H2 & H3)%IH. pose proof (earlier_spec (f d) a) as (A1 & A2 & A3).
  setoid_rewrite elem_of_cons. split_and!.
  - destruct H1 as [->|(d' & ? & ? & ?)]; [|right; exists d'; auto].
    destruct A1 as [->|[-> ?]]; [auto|right; exists d; auto].
  - intros. lia.
  - intros d' [->|Hd'] Hne; [lia|auto].
Qed.

(** The time a path went from the consumer's view is the
    earliest removal or replacement of a directory above it that carries a time;
    it is not known exactly when no directory above it was removed at a known
    time. *)
Theorem earliestHidden_is_earliest p hidden :
  (earliestHidden p hidden = 0 ↔ ∀ d t, d ∈ dirsAbove p → hidden !! d = Some t → t = 0) ∧
  (earliestHidden p hidden ≠ 0 →
   (∃ d, d ∈ dirsAbove p ∧ hidden !! d = Some (earliestHidden p hidden)) ∧
   ∀ d t, d ∈ dirsAbove p → hidden !! d = Some t → t ≠ 0 → earliestHidden p hidden ≤ t).
Proof.
  destruct (fold_earlier (λ d, default 0 (hidden !! d)) (dirsAbove p) 0 (earliestHidden p hidden) eq_refl)
    as (H1 & _ & H3).
  assert (∀ d t, d ∈ dirsAbove p → hidden !! d = Some t → t ≠ 0 →
                 earliestHidden p hidden ≤ t ∧ earliestHidden p hidden ≠ 0) as H.
  { intros d t Hd Ht Hne. specialize (H3 d Hd). rewrite Ht in H3. by apply H3. }
  split; [split|].
  - intros E d t Hd Ht. destruct (decide (t = 0)); [done|]. by destruct (H d t Hd Ht).
  - intros Hz. destruct H1 as [H1|(d & Hd & H1 & Hne)]; [done|].
    destruct (hidden !! d) as [t|] eqn:E; simpl in H1; [|lia]. rewrite H1. by eapply Hz.
  - intros Hne. split; [|intros d t Hd Ht Ht0; by apply (H d t)].
    destruct H1 as [H1|(d & Hd & H1 & _)]; [done|].
    exists d. split; [done|]. destruct (hidden !! d); simpl in *; congruence.
Qed.
