(* ===== verification/WbState.v ===== *)
(** * What write-back remembers about a share between rounds
    (dircache/wbstate.go)

    [writeBacks] maps a share to its memory; every method is a no-op for a share
    that has none.  A nil Go map reads as an empty one, so both are [∅]. *)
From S2P Require Import Prelude GoStrings GoTime DirTypes.

Open Scope Z_scope.

Definition writeBackBackoffMin : Duration := 5 * Second.
Definition writeBackBackoffMax : Duration := Minute.

Inductive SkipKind :=
| SkipName
| SkipLink
| SkipClash
| SkipMarker
| SkipKept.

#[export] Instance SkipKind_eq_dec : EqDecision SkipKind.
Proof. solve_decision. Defined.

Record Skipped := {
  sk_Path : string;
  sk_Why : string;
  sk_Kind : SkipKind
}.

#[export] Instance Skipped_eq_dec : EqDecision Skipped.
Proof. solve_decision. Defined.

(** [skip]: a path given up on, with the change that was refused. *)
Record skip := {
  skip_change : Change;
  skip_Skipped : Skipped
}.

Record listing := {
  ls_at : Z;
  ls_paths : list string
}.

Record wbState := {
  wb_failures : Z;
  wb_next : Time;
  wb_stalled : bool;
  wb_since : Time;
  wb_reason : string;
  wb_firstPath : string;
  wb_pending : Z;
  wb_skipped : gmap string skip;
  wb_said : gmap string string;
  wb_tried : gmap string Z;
  wb_walks : gmap string listing
}.

(** [&wbState{}]. *)
Definition wbZero : wbState :=
  {| wb_failures := 0; wb_next := zeroTime; wb_stalled := false; wb_since := zeroTime;
     wb_reason := ""; wb_firstPath := ""; wb_pending := 0;
     wb_skipped := ∅; wb_said := ∅; wb_tried := ∅; wb_walks := ∅ |}.

Abbreviation writeBacks := (gmap string wbState).

(** Field updates. *)
Definition set_skipped (f : gmap string skip → gmap string skip) (s : wbState) : wbState :=
  {| wb_failures := wb_failures s; wb_next := wb_next s; wb_stalled := wb_stalled s;
     wb_since := wb_since s; wb_reason := wb_reason s; wb_firstPath := wb_firstPath s;
     wb_pending := wb_pending s; wb_skipped := f (wb_skipped s); wb_said := wb_said s;
     wb_tried := wb_tried s; wb_walks := wb_walks s |}.

Definition set_said (f : gmap string string → gmap string string) (s : wbState) : wbState :=
  {| wb_failures := wb_failures s; wb_next := wb_next s; wb_stalled := wb_stalled s;
     wb_since := wb_since s; wb_reason := wb_reason s; wb_firstPath := wb_firstPath s;
     wb_pending := wb_pending s; wb_skipped := wb_skipped s; wb_said := f (wb_said s);
     wb_tried := wb_tried s; wb_walks := wb_walks s |}.

Definition set_tried (f : gmap string Z → gmap string Z) (s : wbState) : wbState :=
  {| wb_failures := wb_failures s; wb_next := wb_next s; wb_stalled := wb_stalled s;
     wb_since := wb_since s; wb_reason := wb_reason s; wb_firstPath := wb_firstPath s;
     wb_pending := wb_pending s; wb_skipped := wb_skipped s; wb_said := wb_said s;
     wb_tried := f (wb_tried s); wb_walks := wb_walks s |}.

Definition set_walks (f : gmap string listing → gmap string listing) (s : wbState) : wbState :=
  {| wb_failures := wb_failures s; wb_next := wb_next s; wb_stalled := wb_stalled s;
     wb_since := wb_since s; wb_reason := wb_reason s; wb_firstPath := wb_firstPath s;
     wb_pending := wb_pending s; wb_skipped := wb_skipped s; wb_said := wb_said s;
     wb_tried := wb_tried s; wb_walks := f (wb_walks s) |}.

(** [skip.same]. *)
Definition skip_same (s : skip) (c : Change) : bool :=
  (ch_Size (skip_change s) =? ch_Size c) && (ch_ModTime (skip_change s) =? ch_ModTime c) &&
  Bool.eqb (ch_Deleted (skip_change s)) (ch_Deleted c) &&
  bool_decide (ch_Link (skip_change s) = ch_Link c) &&
  (ch_Changed (skip_change s) =? ch_Changed c) && (ch_Mode (skip_change s) =? ch_Mode c).

(** [backoff]: [min], doubling once per failure while below [max], at most
    [max]. The doubling is an [int64] multiplication. *)
Fixpoint backoff_loop (n : nat) (d maxWait : Duration) : Duration :=
  match n with
  | O => d
  | S n' => if d <? maxWait then backoff_loop n' (wrap64 (d * 2)) maxWait else d
  end.
Definition backoff (minWait maxWait : Duration) (failures : Z) : Duration :=
  Z.min (backoff_loop (Z.to_nat failures) minWait maxWait) maxWait.

Module wb.

Definition reset (share : string) (w : writeBacks) : writeBacks := <[share := wbZero]> w.

Definition drop (share : string) (w : writeBacks) : writeBacks := delete share w.

Definition ready (share : string) (now : Time) (w : writeBacks) : bool :=
  match w !! share with
  | Some s => negb (Before now (wb_next s))
  | None => false
  end.

(** [fail]: the new state, whether the share has just stalled, and the time of
    the next try. *)
Definition fail_state (s : wbState) (now : Time) (reason first : string) (pending : Z) (progress : bool) : wbState :=
  let failures := if progress then 0 else wb_failures s in
  {| wb_failures := failures + 1;
     wb_next := Add now (backoff writeBackBackoffMin writeBackBackoffMax failures);
     wb_stalled := true;
     wb_since := if negb (wb_stalled s) then now else wb_since s;
     wb_reason := reason; wb_firstPath := first; wb_pending := pending;
     wb_skipped := wb_skipped s; wb_said := wb_said s; wb_tried := wb_tried s; wb_walks := wb_walks s |}.

Definition fail (share : string) (now : Time) (reason first : string) (pending : Z) (progress : bool)
  (w : writeBacks) : writeBacks * (bool * Time) :=
  match w !! share with
  | None => (w, (false, zeroTime))
  | Some s =>
      let s' := fail_state s now reason first pending progress in
      (<[share := s']> w, (negb (wb_stalled s), wb_next s'))
  end.

(** [ok]: a round that finished; whether it ended a stall, and since when. *)
Definition ok_state (s : wbState) : wbState :=
  {| wb_failures := 0; wb_next := zeroTime; wb_stalled := false; wb_since := wb_since s;
     wb_reason := ""; wb_firstPath := ""; wb_pending := 0;
     wb_skipped := wb_skipped s; wb_said := wb_said s; wb_tried := wb_tried s; wb_walks := wb_walks s |}.

Definition ok (share : string) (w : writeBacks) : writeBacks * (bool * Time) :=
  match w !! share with
  | None => (w, (false, zeroTime))
  | Some s => (<[share := ok_state s]> w, (wb_stalled s, wb_since s))
  end.

(** [skip]. *)
Definition skip_ (share : string) (ch : Change) (sk : Skipped) (w : writeBacks) : writeBacks * bool :=
  match w !! share with
  | None => (w, false)
  | Some s =>
      let new := {| skip_change := ch;
                    skip_Skipped := {| sk_Path := ch_Path ch; sk_Why := sk_Why sk; sk_Kind := sk_Kind sk |} |} in
      (<[share := set_skipped <[ch_Path ch := new]> s]> w,
       match wb_skipped s !! ch_Path ch with
       | None => true
       | Some old => negb (skip_same old ch)
       end)
  end.

Definition conflictNew (share p why : string) (w : writeBacks) : writeBacks * bool :=
  match w !! share with
  | None => (w, false)
  | Some s =>
      if bool_decide (default "" (wb_said s !! p) = why) then (w, false)
      else (<[share := set_said <[p := why]> s]> w, true)
  end.

(** [ranked]: fewest failed tries first, otherwise as given. *)
Definition tried_leb (tried : gmap string Z) (a b : string) : bool :=
  default 0 (tried !! a) <=? default 0 (tried !! b).

Definition ranked (share : string) (paths : list string) (w : writeBacks) : list string :=
  match w !! share with
  | None => paths
  | Some s => if bool_decide (wb_tried s = ∅) then paths else stable_sort (tried_leb (wb_tried s)) paths
  end.

(** [try]: each path asked for that did not land adds to its count. *)
Definition bump (tried : gmap string Z) (p : string) : gmap string Z :=
  <[p := default 0 (tried !! p) + 1]> tried.

Definition try_ (share : string) (asked landed : gset string) (w : writeBacks) : writeBacks :=
  match w !! share with
  | None => w
  | Some s => <[share := set_tried (λ t, foldl bump t (elements (asked ∖ landed))) s]> w
  end.

(** [landed]: forgets everything remembered about the paths. *)
Definition forget_paths {A} (paths : list string) (m : gmap string A) : gmap string A :=
  foldl (λ m p, delete p m) m paths.

Definition landed (share : string) (paths : list string) (w : writeBacks) : writeBacks :=
  match w !! share with
  | None => w
  | Some s =>
      <[share := set_skipped (forget_paths paths)
                   (set_said (forget_paths paths) (set_tried (forget_paths paths) s))]> w
  end.

(** [unskipped]: the changes less what was given up on and has not changed. *)
Definition given_up (s : wbState) (ch : Change) : bool :=
  match wb_skipped s !! ch_Path ch with
  | Some sk => negb (bool_decide (sk_Kind (skip_Skipped sk) = SkipKept)) && skip_same sk ch
  | None => false
  end.

Definition unskipped (share : string) (changes : list Change) (w : writeBacks) : list Change :=
  match w !! share with
  | None => changes
  | Some s => if bool_decide (wb_skipped s = ∅) then changes
              else filter (λ ch, given_up s ch = false) changes
  end.

(** [forget]: what is remembered about every path no longer pending goes. *)
Definition keep_only {A} (keep : gset string) (m : gmap string A) : gmap string A :=
  filter (λ kv, fst kv ∈ keep) m.

Definition forget (share : string) (pending : list (list Change)) (w : writeBacks) : writeBacks :=
  match w !! share with
  | None => w
  | Some s =>
      let keep : gset string := list_to_set (ch_Path <$> mjoin pending) in
      <[share := set_said (keep_only keep) (set_tried (keep_only keep)
                   (set_skipped (keep_only keep) (set_walks (keep_only keep) s)))]> w
  end.

(** [keptNow]: makes [kept] the paths this round kept. One step of the loop, and
    the loop over the map, whose outcome does not depend on its order. *)
Definition kept_step (changes : gmap string Change) (zeroCh : Change)
  (acc : gmap string skip * list Skipped) (kv : string * Skipped) : gmap string skip * list Skipped :=
  let '(m, newly) := acc in
  let '(p, sk) := kv in
  let ch := default zeroCh (changes !! p) in
  match m !! p with
  | Some old =>
      if negb (bool_decide (sk_Kind (skip_Skipped old) = SkipKept)) then acc
      else (<[p := {| skip_change := ch; skip_Skipped := sk |}]> m,
            if negb (skip_same old ch) || negb (bool_decide (sk_Why (skip_Skipped old) = sk_Why sk))
            then newly ++ [sk] else newly)
  | None => (<[p := {| skip_change := ch; skip_Skipped := sk |}]> m, newly ++ [sk])
  end.

(** The zero [Change], which a missing key of the changes map reads as. *)
Definition zeroChange : Change :=
  {| ch_Path := ""; ch_Size := 0; ch_ModTime := 0; ch_Deleted := false; ch_Opaque := false;
     ch_Link := ""; ch_Changed := 0; ch_Dir := false; ch_Mode := 0 |}.

Definition drop_unkept (kept : gmap string Skipped) (m : gmap string skip) : gmap string skip :=
  filter (λ kv, ¬ (sk_Kind (skip_Skipped (snd kv)) = SkipKept ∧ kept !! fst kv = None)) m.

Definition skipped_leb (a b : Skipped) : bool := string_leb (sk_Path a) (sk_Path b).

Definition keptNow (share : string) (kept : gmap string Skipped) (changes : gmap string Change)
  (w : writeBacks) : writeBacks * list Skipped :=
  match w !! share with
  | None => (w, [])
  | Some s =>
      let '(m, newly) := foldl (kept_step changes zeroChange)
                               (drop_unkept kept (wb_skipped s), []) (map_to_list kept) in
      (<[share := set_skipped (λ _, m) s]> w, stable_sort skipped_leb newly)
  end.

(** [walked]: the listing of [dir] made for the removal at [at_], listed by
    [list_] the first time it is asked for. *)
Definition walked (share dir : string) (at_ : Z) (list_ : unit → list string) (w : writeBacks)
  : writeBacks * list string :=
  match w !! share with
  | Some s =>
      match wb_walks s !! dir with
      | Some wk =>
          if ls_at wk =? at_ then (w, ls_paths wk)
          else let paths := list_ () in
               (<[share := set_walks <[dir := {| ls_at := at_; ls_paths := paths |}]> s]> w, paths)
      | None =>
          let paths := list_ () in
          (<[share := set_walks <[dir := {| ls_at := at_; ls_paths := paths |}]> s]> w, paths)
      end
  | None => (w, list_ ())
  end.

(** [report]: a share's write-back as status shows it. *)
Record WriteBackReport := {
  r_Stalled : bool;
  r_Since : Time;
  r_Next : Time;
  r_Reason : string;
  r_FirstPath : string;
  r_Pending : Z;
  r_Skipped : list Skipped
}.

Definition report (share : string) (w : writeBacks) : WriteBackReport :=
  match w !! share with
  | None => {| r_Stalled := false; r_Since := zeroTime; r_Next := zeroTime; r_Reason := "";
               r_FirstPath := ""; r_Pending := 0; r_Skipped := [] |}
  | Some s =>
      {| r_Stalled := wb_stalled s; r_Since := wb_since s; r_Next := wb_next s;
         r_Reason := wb_reason s; r_FirstPath := wb_firstPath s; r_Pending := wb_pending s;
         r_Skipped := stable_sort skipped_leb
                        ((λ kv, skip_Skipped (snd kv)) <$> map_to_list (wb_skipped s)) |}
  end.

End wb.

(** * Properties of write-back's memory (dircache/wbstate.go) *)

Open Scope Z_scope.

(** ** The backoff *)

Lemma backoff_loop_spec n d maxWait :
  0 < d → maxWait < 2^62 →
  backoff_loop n d maxWait = d * 2 ^ Z.of_nat n ∨
  (maxWait ≤ backoff_loop n d maxWait ∧ maxWait ≤ d * 2 ^ Z.of_nat n).
Proof.
  intros Hd Hmax. revert d Hd. induction n as [|n IH]; intros d Hd; simpl; [left; lia|].
  replace (2 ^ Z.of_nat (S n)) with (2 * 2 ^ Z.of_nat n) by (rewrite <- Z.pow_succ_r; [f_equal; lia|lia]).
  destruct (Z.ltb_spec d maxWait).
  - rewrite wrap64_small by lia. destruct (IH (d * 2) ltac:(lia)) as [->|[H1 H2]]; [left; lia|].
    right. split; [done|]. by rewrite Z.mul_assoc.
  - right. split; [lia|]. assert (0 < 2 ^ Z.of_nat n) by (apply Z.pow_pos_nonneg; lia). nia.
Qed.

Lemma backoff_value minWait maxWait failures :
  0 < minWait → maxWait < 2^62 → 0 ≤ failures →
  backoff minWait maxWait failures = Z.min (minWait * 2 ^ failures) maxWait.
Proof.
  intros Hmin Hmax Hf. unfold backoff.
  destruct (backoff_loop_spec (Z.to_nat failures) minWait maxWait Hmin Hmax) as [->|[H1 H2]].
  - by rewrite Z2Nat.id.
  - rewrite Z2Nat.id in H2 by done. lia.
Qed.

(** The backoff doubles from the shortest wait and is capped at
    the longest, exactly: [min * 2^failures] at most [max], with no overflow on
    the way for any cap a [Duration] can double. *)
Theorem backoff_closed_form minWait maxWait failures :
  0 < minWait → maxWait < 2^62 → 0 ≤ failures →
  backoff minWait maxWait failures = Z.min (minWait * 2 ^ failures) maxWait.
Proof. apply backoff_value. Qed.

Lemma wb_backoff_range failures :
  0 ≤ failures →
  writeBackBackoffMin ≤ backoff writeBackBackoffMin writeBackBackoffMax failures ≤ writeBackBackoffMax.
Proof.
  intros Hf. rewrite backoff_value; [|done|done|done].
  assert (0 < 2 ^ failures) by (apply Z.pow_pos_nonneg; lia).
  unfold writeBackBackoffMin, writeBackBackoffMax, Minute, Second. lia.
Qed.

(** ** The stall state machine *)

(** Every operation on one share's memory. *)
Inductive wb_op :=
| OpFail (now : Time) (reason first : string) (pending : Z) (progress : bool)
| OpOk
| OpSkip (ch : Change) (sk : Skipped)
| OpConflict (p why : string)
| OpTry (asked landed : gset string)
| OpLanded (paths : list string)
| OpForget (pending : list (list Change))
| OpKept (kept : gmap string Skipped) (changes : gmap string Change)
| OpWalked (dir : string) (at_ : Z) (paths : list string).

Definition wb_apply (share : string) (o : wb_op) (w : writeBacks) : writeBacks :=
  match o with
  | OpFail now reason first pending progress => fst (wb.fail share now reason first pending progress w)
  | OpOk => fst (wb.ok share w)
  | OpSkip ch sk => fst (wb.skip_ share ch sk w)
  | OpConflict p why => fst (wb.conflictNew share p why w)
  | OpTry asked landed => wb.try_ share asked landed w
  | OpLanded paths => wb.landed share paths w
  | OpForget pending => wb.forget share pending w
  | OpKept kept changes => fst (wb.keptNow share kept changes w)
  | OpWalked dir at_ paths => fst (wb.walked share dir at_ (λ _, paths) w)
  end.

(** The states write-back can be in: from no share at all, by attaching and
    forgetting shares and by the operations of rounds. *)
Inductive wb_reachable : writeBacks → Prop :=
| wbr_init : wb_reachable ∅
| wbr_reset share w : wb_reachable w → wb_reachable (wb.reset share w)
| wbr_drop share w : wb_reachable w → wb_reachable (wb.drop share w)
| wbr_op share o w : wb_reachable w → wb_reachable (wb_apply share o w).

(** A share is stalled exactly while rounds have failed since the last one that
    finished; an unstalled share waits for nothing and has nothing to say. *)
Record wb_wf (s : wbState) : Prop := {
  wf_failures : 0 ≤ wb_failures s;
  wf_stalled : wb_stalled s = true ↔ 0 < wb_failures s;
  wf_idle : wb_stalled s = false →
            wb_next s = zeroTime ∧ wb_reason s = ""%string ∧ wb_firstPath s = ""%string ∧ wb_pending s = 0
}.

Lemma wb_wf_zero : wb_wf wbZero.
Proof. split; simpl; [lia|split; [done|lia]|done]. Qed.

Lemma wb_wf_fail s now reason first pending progress :
  wb_wf s → wb_wf (wb.fail_state s now reason first pending progress).
Proof.
  intros [H1 _ _]. split; simpl; [destruct progress; lia| |done].
  split; [|done]. destruct progress; lia.
Qed.

Lemma wb_wf_ok s : wb_wf s → wb_wf (wb.ok_state s).
Proof. intros _. split; simpl; [lia|split; [done|lia]|done]. Qed.

(** The other operations leave the stall fields alone. *)
Lemma wb_wf_same s s' :
  wb_wf s → wb_failures s' = wb_failures s → wb_stalled s' = wb_stalled s → wb_next s' = wb_next s →
  wb_reason s' = wb_reason s → wb_firstPath s' = wb_firstPath s → wb_pending s' = wb_pending s → wb_wf s'.
Proof. intros [H1 H2 H3] E1 E2 E3 E4 E5 E6. split; rewrite ?E1, ?E2, ?E3, ?E4, ?E5, ?E6; done. Qed.

Lemma wb_wf_map_insert (w : writeBacks) share s :
  map_Forall (λ _, wb_wf) w → wb_wf s → map_Forall (λ _, wb_wf) (<[share := s]> w).
Proof. intros. by apply map_Forall_insert_2. Qed.

#[export] Hint Resolve wb_wf_zero wb_wf_fail wb_wf_ok wb_wf_map_insert : rd.

Lemma wb_apply_wf share o w :
  map_Forall (λ _, wb_wf) w → map_Forall (λ _, wb_wf) (wb_apply share o w).
Proof.
  intros Hw. destruct o; simpl;
    unfold wb.fail, wb.ok, wb.skip_, wb.conflictNew, wb.try_, wb.landed, wb.forget, wb.keptNow, wb.walked;
    destruct (w !! share) as [s|] eqn:E; try done;
    pose proof (Hw share s E) as Hs; destruct_ifs; try done; apply wb_wf_map_insert; auto with rd;
    by eapply wb_wf_same.
Qed.

Lemma wb_reachable_wf w : wb_reachable w → map_Forall (λ _, wb_wf) w.
Proof.
  induction 1 as [|share w _ IH|share w _ IH|share o w _ IH].
  - apply map_Forall_empty.
  - unfold wb.reset. auto with rd.
  - unfold wb.drop. by apply map_Forall_delete.
  - by apply wb_apply_wf.
Qed.

(** In every reachable state of write-back's memory, a share is
    stalled exactly while it has failures to its name, and one that is not
    stalled has no wait, no reason and nothing pending. *)
Theorem wb_stall_invariant w : wb_reachable w → map_Forall (λ _, wb_wf) w.
Proof. apply wb_reachable_wf. Qed.

(** A failed round never stops write-back for good: from any
    reachable state the share is tried again no sooner than the shortest wait
    and no later than a minute after the failure, and a round that made progress
    waits only the shortest. *)
Theorem fail_then_ready w share s now reason first pending progress t :
  wb_reachable w → w !! share = Some s →
  let w' := fst (wb.fail share now reason first pending progress w) in
  (t < now + writeBackBackoffMin → wb.ready share t w' = false) ∧
  (now + Minute ≤ t → wb.ready share t w' = true) ∧
  (progress = true → now + writeBackBackoffMin ≤ t → wb.ready share t w' = true).
Proof.
  intros Hr Hs. pose proof (wb_reachable_wf _ Hr share s Hs) as [Hf _ _].
  simpl. unfold wb.fail. rewrite Hs. simpl. unfold wb.ready. rewrite lookup_insert_eq. simpl.
  unfold Before, Add. rewrite !negb_true_iff, !negb_false_iff, !Z.ltb_ge, !Z.ltb_lt.
  split_and!.
  - pose proof (wb_backoff_range (if progress then 0 else wb_failures s)) as H. destruct progress; lia.
  - pose proof (wb_backoff_range (if progress then 0 else wb_failures s)) as H.
    unfold writeBackBackoffMax in *. destruct progress; lia.
  - intros -> Ht. rewrite backoff_value by done.
    unfold writeBackBackoffMax, writeBackBackoffMin, Minute, Second in *. lia.
Qed.

(** ** Forgotten shares *)

(** Every operation is a no-op for a share that has no memory, so a
    round that ends after its share was forgotten leaves nothing for the next
    attach to inherit; and it touches no other share's memory. *)
Theorem wb_apply_frame share o w other :
  (w !! share = None → wb_apply share o w = w) ∧
  (other ≠ share → wb_apply share o w !! other = w !! other).
Proof.
  split.
  - intros E. destruct o; simpl;
      unfold wb.fail, wb.ok, wb.skip_, wb.conflictNew, wb.try_, wb.landed, wb.forget, wb.keptNow, wb.walked;
      by rewrite E.
  - intros Hne. destruct o; simpl;
      unfold wb.fail, wb.ok, wb.skip_, wb.conflictNew, wb.try_, wb.landed, wb.forget, wb.keptNow, wb.walked;
      destruct_ifs; try done; by rewrite lookup_insert_ne.
Qed.

(** ** Paths given up on *)

Lemma unskipped_filter share changes w s :
  w !! share = Some s → wb.unskipped share changes w = filter (λ ch, wb.given_up s ch = false) changes.
Proof.
  intros E. unfold wb.unskipped. rewrite E. case_bool_decide as Hs; [|done].
  symmetry. apply filter_id. intros ch _. unfold wb.given_up. by rewrite Hs, lookup_empty.
Qed.

(** A path given up on is left alone until its change differs,
    and only then: after [skip], exactly the changes to that path that are the
    refused one are withheld from the next round, whatever else is pending; once
    the path lands, nothing is withheld for it. *)
Theorem skip_withholds_only_same share w s ch sk changes :
  w !! share = Some s → sk_Kind sk ≠ SkipKept →
  let w' := fst (wb.skip_ share ch sk w) in
  (∀ c, ch_Path c = ch_Path ch →
     (c ∈ wb.unskipped share changes w' ↔ c ∈ changes ∧ skip_same {| skip_change := ch; skip_Skipped := sk |} c = false)) ∧
  (∀ c, ch_Path c ≠ ch_Path ch →
     (c ∈ wb.unskipped share changes w' ↔ c ∈ wb.unskipped share changes w)) ∧
  (∀ c, ch_Path c = ch_Path ch → c ∈ changes → c ∈ wb.unskipped share changes (wb.landed share [ch_Path ch] w')).
Proof.
  intros Hs Hk. simpl. unfold wb.skip_. rewrite Hs. simpl. split_and!.
  - intros c Hp. erewrite unskipped_filter by apply lookup_insert_eq. rewrite list_elem_of_filter.
    unfold wb.given_up. simpl. rewrite Hp, lookup_insert_eq. simpl.
    rewrite bool_decide_eq_false_2 by done. simpl. unfold skip_same. naive_solver.
  - intros c Hp. erewrite unskipped_filter by apply lookup_insert_eq. erewrite (unskipped_filter _ _ w) by done.
    rewrite !list_elem_of_filter. unfold wb.given_up. simpl. by rewrite lookup_insert_ne.
  - intros c Hp Hc. unfold wb.landed. rewrite lookup_insert_eq.
    erewrite unskipped_filter by apply lookup_insert_eq. rewrite list_elem_of_filter. split; [|done].
    unfold wb.given_up. simpl. by rewrite Hp, lookup_delete_eq.
Qed.

(** *** Conflicts kept are said once *)

Section kept.
Context (changes : gmap string Change).
Abbreviation step := (wb.kept_step changes wb.zeroChange).

Definition kept_value (p : string) (sk : Skipped) (old : option skip) : skip :=
  match old with
  | Some o => if bool_decide (sk_Kind (skip_Skipped o) = SkipKept)
              then {| skip_change := default wb.zeroChange (changes !! p); skip_Skipped := sk |} else o
  | None => {| skip_change := default wb.zeroChange (changes !! p); skip_Skipped := sk |}
  end.

(** A path kept is said when it is new, its change is new or the reason is. *)
Definition kept_news (p : string) (sk : Skipped) (old : option skip) : bool :=
  match old with
  | Some o => bool_decide (sk_Kind (skip_Skipped o) = SkipKept) &&
              (negb (skip_same o (default wb.zeroChange (changes !! p))) ||
               negb (bool_decide (sk_Why (skip_Skipped o) = sk_Why sk)))
  | None => true
  end.

Lemma kept_step_eq m newly p sk :
  step (m, newly) (p, sk) =
  (<[p := kept_value p sk (m !! p)]> m, newly ++ if kept_news p sk (m !! p) then [sk] else []).
Proof.
  unfold wb.kept_step, kept_value, kept_news. destruct (m !! p) as [o|] eqn:E; [|done].
  case_bool_decide; simpl.
  - destruct (_ || _); [done|]. by rewrite app_nil_r.
  - by rewrite insert_id, app_nil_r.
Qed.

Lemma kept_fold l m newly :
  NoDup l.*1 →
  let r := foldl step (m, newly) l in
  (∀ p, fst r !! p = match (list_to_map l : gmap string Skipped) !! p with
                     | Some sk => Some (kept_value p sk (m !! p))
                     | None => m !! p
                     end) ∧
  (∀ sk, sk ∈ snd r ↔ sk ∈ newly ∨ ∃ p, (p, sk) ∈ l ∧ kept_news p sk (m !! p) = true).
Proof.
  revert m newly. induction l as [|[p sk] l IH]; intros m newly Hnd.
  { simpl. split; [done|]. intros sk. split; [auto|]. intros [?|(p & Hp & _)]; [done|by apply elem_of_nil in Hp]. }
  apply NoDup_cons in Hnd as [Hp Hnd]. cbv zeta. cbn [foldl]. rewrite kept_step_eq.
  specialize (IH (<[p := kept_value p sk (m !! p)]> m) (newly ++ if kept_news p sk (m !! p) then [sk] else []) Hnd)
    as [IH1 IH2].
  assert (∀ q sk', (q, sk') ∈ l → q ≠ p) as Hq.
  { intros q sk' Hq ->. apply Hp. apply list_elem_of_fmap. by exists (p, sk'). }
  split.
  - intros q. rewrite IH1. simpl. destruct (decide (p = q)) as [<-|Hne].
    + rewrite lookup_insert_eq, not_elem_of_list_to_map_1 by done. by rewrite lookup_insert_eq.
    + by rewrite !lookup_insert_ne.
  - intros x. rewrite IH2, elem_of_app. setoid_rewrite elem_of_cons. split.
    + intros [[?|Hx]|(q & Hin & Hn)]; [auto| |].
      * right. destruct (kept_news p sk (m !! p)) eqn:E; [|by apply elem_of_nil in Hx].
        apply list_elem_of_singleton in Hx as ->. eauto.
      * rewrite lookup_insert_ne in Hn by (symmetry; by eapply Hq). eauto 10.
    + intros [?|(q & [[= -> ->]|Hin] & Hn)]; [auto| |].
      * left. right. rewrite Hn. by apply list_elem_of_singleton.
      * right. exists q. rewrite lookup_insert_ne by (symmetry; by eapply Hq). auto.
Qed.

End kept.

Lemma keptNow_skipped share kept changes w s :
  w !! share = Some s →
  ∃ m newly, wb.keptNow share kept changes w = (<[share := set_skipped (λ _, m) s]> w, newly) ∧
  (∀ p, m !! p = match kept !! p with
                 | Some sk => Some (kept_value changes p sk (wb.drop_unkept kept (wb_skipped s) !! p))
                 | None => wb.drop_unkept kept (wb_skipped s) !! p
                 end) ∧
  (∀ sk, sk ∈ newly ↔ ∃ p, kept !! p = Some sk ∧
                           kept_news changes p sk (wb.drop_unkept kept (wb_skipped s) !! p) = true).
Proof.
  intros Hs. unfold wb.keptNow. rewrite Hs.
  pose proof (kept_fold changes (map_to_list kept) (wb.drop_unkept kept (wb_skipped s)) []
                (NoDup_fst_map_to_list kept)) as [H1 H2].
  destruct (foldl _ _ _) as [m newly]. simpl in H1, H2.
  exists m, (stable_sort wb.skipped_leb newly). split; [done|]. rewrite list_to_map_to_list in H1. split; [done|].
  intros sk. rewrite elem_of_stable_sort, H2. setoid_rewrite elem_of_map_to_list.
  split; [intros [H|H]; [by apply elem_of_nil in H|done]|auto].
Qed.

Lemma skip_same_refl sk c : skip_same {| skip_change := c; skip_Skipped := sk |} c = true.
Proof. unfold skip_same. simpl. rewrite !Z.eqb_refl, eqb_reflx, bool_decide_eq_true_2; done. Qed.

(** A change that lost to this machine's version is said once
    and not every round: a second round that keeps the same paths for the same
    changes and reasons has nothing new to say, and a path no longer kept is no
    longer listed. *)
Theorem keptNow_said_once share kept changes w s :
  w !! share = Some s → (∀ p sk, kept !! p = Some sk → sk_Kind sk = SkipKept) →
  let w1 := fst (wb.keptNow share kept changes w) in
  snd (wb.keptNow share kept changes w1) = [] ∧
  ∃ s1, w1 !! share = Some s1 ∧
    ∀ p k, wb_skipped s1 !! p = Some k → sk_Kind (skip_Skipped k) = SkipKept → is_Some (kept !! p).
Proof.
  intros Hs Hk. destruct (keptNow_skipped share kept changes w s Hs) as (m & newly & -> & Hm & _). simpl.
  assert (∀ p k, m !! p = Some k → sk_Kind (skip_Skipped k) = SkipKept → is_Some (kept !! p)) as Hkept.
  { intros p k. rewrite Hm. destruct (kept !! p) eqn:E; [eauto|]. unfold wb.drop_unkept.
    rewrite map_lookup_filter_Some. simpl. naive_solver. }
  split; [|exists (set_skipped (λ _, m) s); split; [apply lookup_insert_eq|done]].
  destruct (keptNow_skipped share kept changes (<[share := set_skipped (λ _, m) s]> w)
              (set_skipped (λ _, m) s)) as (m2 & newly2 & -> & _ & Hn2); [apply lookup_insert_eq|].
  simpl. apply elem_of_nil_inv. intros sk (p & Hp & Hnews)%Hn2. revert Hnews.
  change (wb_skipped (set_skipped (λ _, m) s)) with m.
  assert (wb.drop_unkept kept m !! p = m !! p) as ->.
  { unfold wb.drop_unkept. destruct (m !! p) as [k|] eqn:E.
    - apply map_lookup_filter_Some. split; [done|]. simpl. rewrite Hp. naive_solver.
    - apply map_lookup_filter_None. by left. }
  rewrite Hm, Hp. unfold kept_news, kept_value.
  destruct (wb.drop_unkept kept (wb_skipped s) !! p) as [o|].
  - destruct (decide (sk_Kind (skip_Skipped o) = SkipKept)) as [Ho|Ho].
    + rewrite (bool_decide_eq_true_2 _ Ho). cbn [skip_Skipped].
      rewrite skip_same_refl, (bool_decide_eq_true_2 (sk_Why sk = sk_Why sk) eq_refl). by rewrite andb_false_r.
    + by rewrite !(bool_decide_eq_false_2 _ Ho).
  - cbn [skip_Skipped]. rewrite skip_same_refl, (bool_decide_eq_true_2 (sk_Why sk = sk_Why sk) eq_refl).
    by rewrite andb_false_r.
Qed.

(** *** Paths that never land do not starve the others *)

Lemma bump_lookup t p q : default 0 (wb.bump t p !! q) = default 0 (t !! q) + (if bool_decide (p = q) then 1 else 0).
Proof.
  unfold wb.bump. case_bool_decide as E; [subst; rewrite lookup_insert_eq; done|].
  rewrite lookup_insert_ne by done. lia.
Qed.

Lemma bump_fold l t q :
  NoDup l → default 0 (foldl wb.bump t l !! q) = default 0 (t !! q) + (if bool_decide (q ∈ l) then 1 else 0).
Proof.
  revert t. induction l as [|p l IH]; intros t Hnd; cbn [foldl].
  { rewrite bool_decide_eq_false_2 by apply not_elem_of_nil. lia. }
  apply NoDup_cons in Hnd as [Hp Hnd]. rewrite IH, bump_lookup by done.
  case_bool_decide as E1; case_bool_decide as E2; case_bool_decide as E3; set_solver by lia.
Qed.

Lemma tried_leb_total t a b : wb.tried_leb t a b = true ∨ wb.tried_leb t b a = true.
Proof. unfold wb.tried_leb. rewrite !Z.leb_le. lia. Qed.

Lemma tried_leb_trans t a b c : wb.tried_leb t a b = true → wb.tried_leb t b c = true → wb.tried_leb t a c = true.
Proof. unfold wb.tried_leb. rewrite !Z.leb_le. lia. Qed.

(** Files that never land cannot starve the ones behind them:
    the next pass asks for the same paths, and every path that was not a failure
    of this pass is asked for before every one that was, when both had failed as
    often before. *)
Theorem ranked_after_try share w s asked landed paths :
  w !! share = Some s →
  let out := wb.ranked share paths (wb.try_ share asked landed w) in
  out ≡ₚ paths ∧
  ∀ i j p q, out !! i = Some p → out !! j = Some q →
    default 0 (wb_tried s !! p) = default 0 (wb_tried s !! q) →
    p ∈ asked ∖ landed → q ∉ asked ∖ landed → (j < i)%nat.
Proof.
  intros Hs. simpl. unfold wb.try_, wb.ranked. rewrite Hs, lookup_insert_eq. simpl.
  set (t := foldl wb.bump (wb_tried s) (elements (asked ∖ landed))).
  assert (∀ q, default 0 (t !! q) = default 0 (wb_tried s !! q) + (if bool_decide (q ∈ asked ∖ landed) then 1 else 0)) as Ht.
  { intros q. unfold t. rewrite bump_fold by apply NoDup_elements.
    by rewrite (bool_decide_ext (q ∈ elements (asked ∖ landed)) (q ∈ asked ∖ landed)) by apply elem_of_elements. }
  assert (∀ p q, default 0 (wb_tried s !! p) = default 0 (wb_tried s !! q) →
     p ∈ asked ∖ landed → q ∉ asked ∖ landed → ¬ default 0 (t !! p) ≤ default 0 (t !! q)) as Hlt.
  { intros p q E Hp Hq. rewrite !Ht, E. rewrite bool_decide_eq_true_2 by done. rewrite bool_decide_eq_false_2 by done. lia. }
  case_bool_decide as Hempty.
  { split; [done|]. intros i j p q _ _ E Hp Hq. exfalso. apply (Hlt p q E Hp Hq). by rewrite Hempty, !lookup_empty. }
  split; [apply stable_sort_Permutation|]. intros i j p q Hi Hj E Hp Hq.
  destruct (decide (j < i)%nat); [done|]. destruct (decide (i = j)) as [->|]; [congruence|].
  exfalso. apply (Hlt p q E Hp Hq). apply Z.leb_le.
  eapply (StronglySorted_lookup_lt (λ a b, wb.tried_leb t a b = true)); [|exact Hi|exact Hj|lia].
  apply stable_sort_sorted; [apply tried_leb_total|apply tried_leb_trans].
Qed.
