(* ===== verification/Shares.v ===== *)
(** * What the cache knows about each share (dircache/cache.go), and the record
    that outlives the process (client/internal/session/cached.go)

    For every attached share: where it is, the baselines of what is in its cache
    (the manifest), every path any batch put there (the record), and what
    write-back remembers.  Where the code asks this machine's disk about a path
    the answer is an argument ([stat], [lstatMod]).  The maps are guarded by one
    mutex, so each operation is one step. *)
From S2P Require Import Prelude GoStrings GoTime DirTypes Decide Replace WbState.

Open Scope Z_scope.

(** prefetch.go: [Policy], and [rank]. *)
Inductive Policy := PolicyUnset | PolicyOff | PolicyEager | PolicyTree.

#[export] Instance Policy_eq_dec : EqDecision Policy.
Proof. solve_decision. Defined.

Definition rank (p : Policy) : Z :=
  match p with PolicyTree => 1 | PolicyEager => 2 | _ => 0 end.

(** cache.go: [ShareOptions]. *)
Record ShareOptions := {
  o_Policy : Policy;
  o_Ephemeral : bool;
  o_Exec : Z
}.

(** walk.go: [Stats]. *)
Record Stats := {
  st_Files : Z;
  st_Bytes : Z;
  st_TotalFiles : Z;
  st_TotalBytes : Z;
  st_Excluded : Z;
  st_Markers : Z;
  st_FirstMarker : string
}.

Definition zeroStats : Stats :=
  {| st_Files := 0; st_Bytes := 0; st_TotalFiles := 0; st_TotalBytes := 0;
     st_Excluded := 0; st_Markers := 0; st_FirstMarker := "" |}.

(** walk.go: [Stats.Complete]. *)
Definition Complete (s : Stats) : bool := st_Files s =? st_TotalFiles s.

(** cache.go: [Report] and [shareState]; an error is its text, nil is [None]. *)
Record shareState := {
  ss_Local : string;
  ss_Stats : Stats;
  ss_Sent : Z;
  ss_Bytes : Z;
  ss_Done : bool;
  ss_Err : option string;
  ss_FillErr : option string;
  ss_FillRetry : Time;
  ss_Cached : bool;
  ss_opts : ShareOptions
}.

Definition newShareState (opts : ShareOptions) : shareState :=
  {| ss_Local := ""; ss_Stats := zeroStats; ss_Sent := 0; ss_Bytes := 0; ss_Done := false;
     ss_Err := None; ss_FillErr := None; ss_FillRetry := zeroTime; ss_Cached := false; ss_opts := opts |}.

Definition set_Local (root : string) (s : shareState) : shareState :=
  {| ss_Local := root; ss_Stats := ss_Stats s; ss_Sent := ss_Sent s; ss_Bytes := ss_Bytes s;
     ss_Done := ss_Done s; ss_Err := ss_Err s; ss_FillErr := ss_FillErr s;
     ss_FillRetry := ss_FillRetry s; ss_Cached := ss_Cached s; ss_opts := ss_opts s |}.

Definition add_counts (sent bytes : Z) (s : shareState) : shareState :=
  {| ss_Local := ss_Local s; ss_Stats := ss_Stats s; ss_Sent := ss_Sent s + sent; ss_Bytes := ss_Bytes s + bytes;
     ss_Done := ss_Done s; ss_Err := ss_Err s; ss_FillErr := ss_FillErr s;
     ss_FillRetry := ss_FillRetry s; ss_Cached := ss_Cached s; ss_opts := ss_opts s |}.

(** [shares.finish]: the first call wins. *)
Definition finish (s : shareState) (cached : bool) (err : option string) : shareState * bool :=
  if ss_Done s then (s, false)
  else ({| ss_Local := ss_Local s; ss_Stats := ss_Stats s; ss_Sent := ss_Sent s; ss_Bytes := ss_Bytes s;
           ss_Done := true; ss_Err := err; ss_FillErr := ss_FillErr s;
           ss_FillRetry := ss_FillRetry s; ss_Cached := cached; ss_opts := ss_opts s |}, true).

(** [shares], less the prefetch map, which is [Prefetch]'s. *)
Record shares := {
  sh_state : gmap string shareState;
  sh_roots : gmap string string;
  sh_manifests : gmap string (gmap string Baseline);
  sh_recorded : gmap string (gset string);
  sh_wb : writeBacks
}.

Definition noShares : shares :=
  {| sh_state := ∅; sh_roots := ∅; sh_manifests := ∅; sh_recorded := ∅; sh_wb := ∅ |}.

(** A Go map read at a missing key gives the zero value. *)
Definition manifestOf (f : shares) (share : string) : gmap string Baseline := default ∅ (sh_manifests f !! share).
Definition recordedOf (f : shares) (share : string) : gset string := default ∅ (sh_recorded f !! share).

Definition set_manifest (share : string) (m : gmap string Baseline) (f : shares) : shares :=
  {| sh_state := sh_state f; sh_roots := sh_roots f; sh_manifests := <[share := m]> (sh_manifests f);
     sh_recorded := sh_recorded f; sh_wb := sh_wb f |}.

Definition set_wb (g : writeBacks → writeBacks) (f : shares) : shares :=
  {| sh_state := sh_state f; sh_roots := sh_roots f; sh_manifests := sh_manifests f;
     sh_recorded := sh_recorded f; sh_wb := g (sh_wb f) |}.

Definition set_state (g : gmap string shareState → gmap string shareState) (f : shares) : shares :=
  {| sh_state := g (sh_state f); sh_roots := sh_roots f; sh_manifests := sh_manifests f;
     sh_recorded := sh_recorded f; sh_wb := sh_wb f |}.

Definition ephemeral (f : shares) (share : string) : bool :=
  match sh_state f !! share with Some s => o_Ephemeral (ss_opts s) | None => false end.

Definition execOf (f : shares) (share : string) : Z :=
  match sh_state f !! share with Some s => o_Exec (ss_opts s) | None => 0 end.

(** [shares.set]: the loop over [filled], key by key. *)
Definition filled_recorded (filled : gmap string Baseline) : gset string :=
  set_map slashed (dom filled).
Definition filled_manifest (filled : gmap string Baseline) : gmap string Baseline :=
  foldl (λ m '(p, b), if negb (IsZero (b_ModTime b)) then <[slashed p := b]> m else m) ∅ (map_to_list filled).

Definition set_ (share root : string) (s : shareState) (filled : gmap string Baseline) (f : shares) : shares :=
  {| sh_state := <[share := set_Local root s]> (sh_state f);
     sh_roots := <[share := root]> (sh_roots f);
     sh_manifests := <[share := filled_manifest filled]> (sh_manifests f);
     sh_recorded := <[share := filled_recorded filled]> (sh_recorded f);
     sh_wb := wb.reset share (sh_wb f) |}.

(** [shares.editRecord]: one path, then the list; whether it changed anything. *)
Definition edit_one (add : bool) (acc : gset string * gmap string Baseline * bool) (p0 : string)
  : gset string * gmap string Baseline * bool :=
  let '(rec, man, changed) := acc in
  let p := slashed p0 in
  if Bool.eqb (bool_decide (p ∈ rec)) add then acc
  else if add then ({[p]} ∪ rec, man, true)
  else (rec ∖ {[p]}, delete p man, true).

Definition editRecord (share : string) (paths : list string) (add : bool) (f : shares) : shares * bool :=
  match sh_recorded f !! share with
  | None => (f, false)
  | Some rec =>
      let '(rec', man', changed) := foldl (edit_one add) (rec, manifestOf f share, false) paths in
      ({| sh_state := sh_state f; sh_roots := sh_roots f;
          sh_manifests := match sh_manifests f !! share with
                          | Some _ => <[share := man']> (sh_manifests f)
                          | None => sh_manifests f
                          end;
          sh_recorded := <[share := rec']> (sh_recorded f); sh_wb := sh_wb f |}, changed)
  end.

(** [shares.snapshot]: the record with the baselines it has, for saving. *)
Definition snapshot (f : shares) (share : string) : gmap string Baseline :=
  set_to_map (λ p, (p, default zeroBaseline (manifestOf f share !! p))) (recordedOf f share).

(** [shares.recordedUnder]. The order of the appended paths is Go's map order;
    the callers use them as a set. *)
Definition recordedUnder (f : shares) (share : string) (paths : list string) : list string :=
  paths ++ filter (λ p, existsb (λ d, strings.HasPrefix p (strings.TrimSuffix d "/" +:+ "/")) paths = true)
                  (elements (recordedOf f share)).

(** [shares.forget]. *)
Definition forget (share : string) (f : shares) : shares :=
  {| sh_state := delete share (sh_state f); sh_roots := delete share (sh_roots f);
     sh_manifests := delete share (sh_manifests f); sh_recorded := delete share (sh_recorded f);
     sh_wb := wb.drop share (sh_wb f) |}.

(** cache.go: [Read] and [Applied]. *)
Record Read := {
  rd_Path : string;
  rd_Size : Z;
  rd_ModTime : Time
}.

Record Applied := {
  ap_Read : list Read;
  ap_Skipped : list string;
  ap_Kept : list string
}.

(** [shares.noteSent]. *)
Definition note_one (m : gmap string Baseline) (r : Read) : gmap string Baseline :=
  let p := slashed (rd_Path r) in
  let b := {| b_Size := rd_Size r; b_ModTime := rd_ModTime r; b_Consumer := 0 |} in
  let b' := match m !! p with
            | Some old => if negb (b_Consumer old =? 0) && sameFile old b
                          then {| b_Size := rd_Size r; b_ModTime := rd_ModTime r; b_Consumer := b_Consumer old |}
                          else b
            | None => b
            end in
  <[p := b']> m.

Definition noteSent (share : string) (read : list Read) (f : shares) : shares :=
  match sh_manifests f !! share with
  | None => f
  | Some m => set_manifest share (foldl note_one m read) f
  end.

(** [Cache.noteApplied]: what the far end left out or kept is neither recorded
    nor compared against; the rest has the baseline the Store read. *)
Definition noteApplied (share : string) (applied : Applied) (f : shares) : shares :=
  let notOurs := ap_Skipped applied ++ ap_Kept applied in
  match notOurs with
  | [] => noteSent share (ap_Read applied) f
  | _ => let left : gset string := list_to_set (slashed <$> notOurs) in
         noteSent share (filter (λ r, slashed (rd_Path r) ∉ left) (ap_Read applied))
                  (fst (editRecord share notOurs false f))
  end.

Section disk.

(** What a stat of a share path under the share's root answers. *)
Context (stat : string → option FileInfo).

(** What an lstat answers: the entry's own modification time. *)
Context (lstatMod : string → option Time).

Definition baselineOf (p : string) : option Baseline :=
  match stat p with
  | Some i => Some {| b_Size := fi_Size i; b_ModTime := fi_ModTime i; b_Consumer := 0 |}
  | None => None
  end.

Definition sentOf (f : shares) (share : string) (entries : list Entry) : gmap string Baseline :=
  foldl (λ out e, match manifestOf f share !! slashed (e_Path e) with
                  | Some b => <[slashed (e_Path e) := b]> out
                  | None => out
                  end) ∅ entries.

Definition alreadyHeld (f : shares) (share : string) (entries : list Entry) : list string :=
  omap (λ '(p, b), match baselineOf p with
                   | Some now => if sameFile now b then Some (strings.TrimPrefix p "/") else None
                   | None => None
                   end) (map_to_list (sentOf f share entries)).

(** [shares.rebase]: one action. *)
Definition rebase_one (m : gmap string Baseline) (a : action) : gmap string Baseline :=
  match a_kind a with
  | kindDelete => delete (a_Path a) m
  | kindLink =>
      match lstatMod (a_Path a) with
      | Some t => <[a_Path a := linkBaseline (a_Link a) t]> m
      | None => delete (a_Path a) m
      end
  | kindMkdir | kindChmod => m
  | kindConflict =>
      if a_Wins a then
        match baselineOf (a_Path a) with
        | Some b => <[a_Path a := {| b_Size := b_Size b; b_ModTime := b_ModTime b; b_Consumer := a_Consumer a |}]> m
        | None => delete (a_Path a) m
        end
      else m
  | kindWrite | kindAdopt =>
      match baselineOf (a_Path a) with
      | Some b => <[a_Path a := {| b_Size := b_Size b; b_ModTime := b_ModTime b; b_Consumer := a_Consumer a |}]> m
      | None => delete (a_Path a) m
      end
  end.

Definition rebase (share : string) (acts : list action) (f : shares) : shares :=
  match sh_manifests f !! share with
  | None => f
  | Some m => set_manifest share (foldl rebase_one m acts) f
  end.

(** writepass.go: [writePass.commit], less saving the record. *)
Definition commit (share : string) (acts : list action) (added removed : list string) (f : shares) : shares :=
  let f1 := rebase share acts f in
  let f2 := fst (editRecord share added true f1) in
  let f3 := fst (editRecord share removed false f2) in
  set_wb (wb.landed share (added ++ removed)) f3.

End disk.

(** cache.go: [Cache.record] and [Cache.unrecord], less saving. *)
Definition record (share : string) (entries : list Entry) (f : shares) : shares :=
  fst (editRecord share (e_Path <$> entries) true f).
Definition unrecord (share : string) (paths : list string) (f : shares) : shares :=
  fst (editRecord share paths false f).

(** cache.go: [deletedSince]: [Some true] the file is there, [Some false] it is
    gone, [None] any other error, which proves nothing. *)
Definition deletedSince (here : string → option bool) (filled : list string) : list string :=
  slashed <$> filter (λ p, here p = Some false) filled.

(** ** The record on disk (session/cached.go) *)

Module cachedStore.

Record cachedBaseline := {
  c_Size : Z;
  c_MTime : Z;
  c_Consumer : Z
}.

(** The part of the file about one export. *)
Record cachedShare := {
  cf_Shares : list string;
  cf_Baselines : gmap string cachedBaseline
}.

(** [Record]: what is written for a share. [UnixNano] is an [int64]. *)
Definition encode (filled : gmap string Baseline) : cachedShare :=
  {| cf_Shares := sort_strings ((map_to_list filled).*1);
     cf_Baselines := omap (λ b, if IsZero (b_ModTime b) then None
                                else Some {| c_Size := b_Size b; c_MTime := wrap64 (b_ModTime b);
                                             c_Consumer := b_Consumer b |}) filled |}.

(** [newCachedStore]: what is read back for it. *)
Definition decode (file : cachedShare) : gmap string Baseline :=
  let zeros : gmap string Baseline := list_to_map ((λ p, (p, zeroBaseline)) <$> cf_Shares file) in
  ((λ c, {| b_Size := c_Size c; b_ModTime := Unix0 (c_MTime c); b_Consumer := c_Consumer c |})
     <$> cf_Baselines file) ∪ zeros.

End cachedStore.

(** * Properties of the shares' bookkeeping (dircache/cache.go) and of the record
    (client/internal/session/cached.go) *)

Open Scope Z_scope.

(** ** The invariant *)

Definition is_slashed (p : string) : Prop := slashed p = p.

(** What is known of one share: every path with a baseline is recorded, so a
    later deletion here can take it out of the cache; paths are spelled with a
    leading slash. *)
Record share_wf (rec : gset string) (man : gmap string Baseline) : Prop := {
  wf_man_recorded : dom man ⊆ rec;
  wf_rec_slashed : set_Forall is_slashed rec
}.

(** The five maps agree about which shares are attached. *)
Record shares_wf (f : shares) : Prop := {
  wf_roots : dom (sh_roots f) = dom (sh_state f);
  wf_manifests : dom (sh_manifests f) = dom (sh_state f);
  wf_recorded : dom (sh_recorded f) = dom (sh_state f);
  wf_wb : dom (sh_wb f) = dom (sh_state f);
  wf_shares : ∀ share, share_wf (recordedOf f share) (manifestOf f share)
}.

Lemma share_wf_empty : share_wf ∅ ∅.
Proof. split; [set_solver|apply set_Forall_empty]. Qed.

#[export] Hint Resolve share_wf_empty : rd.

Lemma noShares_wf : shares_wf noShares.
Proof. by split; simpl; rewrite ?dom_empty_L. Qed.

(** Changing one share's record and manifest together. *)
Lemma manifestOf_insert f share share' m :
  default ∅ (<[share := m]> (sh_manifests f) !! share') = if decide (share = share') then m else manifestOf f share'.
Proof. rewrite lookup_insert. by case_decide. Qed.

Lemma recordedOf_insert f share share' r :
  default ∅ (<[share := r]> (sh_recorded f) !! share') = if decide (share = share') then r else recordedOf f share'.
Proof. rewrite lookup_insert. by case_decide. Qed.

Lemma elem_of_filled_recorded filled p :
  p ∈ filled_recorded filled ↔ ∃ q, is_Some (filled !! q) ∧ p = slashed q.
Proof. unfold filled_recorded. rewrite elem_of_map. setoid_rewrite elem_of_dom. naive_solver. Qed.

Lemma filled_manifest_dom filled p :
  p ∈ dom (filled_manifest filled) → p ∈ filled_recorded filled.
Proof.
  unfold filled_manifest. rewrite elem_of_filled_recorded.
  assert (∀ l m, (∀ q b, (q, b) ∈ l → filled !! q = Some b) →
    (p ∈ dom (m : gmap string Baseline) → ∃ q, is_Some (filled !! q) ∧ p = slashed q) →
    p ∈ dom (foldl (λ m '(p, b), if negb (IsZero (b_ModTime b)) then <[slashed p := b]> m else m) m l) →
    ∃ q, is_Some (filled !! q) ∧ p = slashed q) as H.
  { induction l as [|[q b] l IH]; intros m Hl Hm; simpl; [done|]. apply IH.
    - intros; apply Hl; by right.
    - destruct (negb _); [|done]. rewrite dom_insert_L, elem_of_union, elem_of_singleton.
      intros [->|?]; [|auto]. exists q. split; [|done]. rewrite (Hl q b) by left. eauto. }
  apply H; [intros q b; apply elem_of_map_to_list|]. rewrite dom_empty_L. set_solver.
Qed.

Lemma set_wf share root s filled f : shares_wf f → shares_wf (set_ share root s filled f).
Proof.
  intros [H1 H2 H3 H4 H5]. split; simpl; rewrite ?dom_insert_L; try congruence.
  { unfold wb.reset. rewrite dom_insert_L. congruence. }
  intros share'. unfold recordedOf, manifestOf; simpl. rewrite recordedOf_insert, manifestOf_insert.
  case_decide; [|apply H5]. split.
  - intros p. apply filled_manifest_dom.
  - intros p (q & _ & ->)%elem_of_filled_recorded. apply slashed_idem.
Qed.

Lemma forget_wf share f : shares_wf f → shares_wf (forget share f).
Proof.
  intros [H1 H2 H3 H4 H5]. split; simpl; rewrite ?dom_delete_L; try congruence.
  { unfold wb.drop. rewrite dom_delete_L. congruence. }
  intros share'. unfold recordedOf, manifestOf; simpl. rewrite !lookup_delete.
  case_decide; [apply share_wf_empty|apply H5].
Qed.

(** *** Editing the record *)

Lemma edit_one_add rec man ch p :
  fst (edit_one true (rec, man, ch) p) = ({[slashed p]} ∪ rec, man).
Proof.
  unfold edit_one. case_bool_decide; simpl; [|done]. f_equal. set_solver.
Qed.

Lemma edit_one_remove rec man ch p :
  dom man ⊆ rec → fst (edit_one false (rec, man, ch) p) = (rec ∖ {[slashed p]}, delete (slashed p) man).
Proof.
  intros Hd. unfold edit_one. case_bool_decide as Hp; simpl; [done|].
  rewrite delete_id by (apply not_elem_of_dom; set_solver). f_equal. set_solver.
Qed.

Lemma edit_fold_add paths rec man ch :
  fst (foldl (edit_one true) (rec, man, ch) paths) = (list_to_set (slashed <$> paths) ∪ rec, man).
Proof.
  revert rec man ch. induction paths as [|p paths IH]; intros rec man ch; cbn [foldl].
  { simpl. f_equal. set_solver. }
  destruct (edit_one true (rec, man, ch) p) as [[r m] c] eqn:E.
  pose proof (edit_one_add rec man ch p) as H. rewrite E in H. simpl in H. injection H as -> ->.
  rewrite IH. f_equal. set_solver.
Qed.

Lemma edit_fold_remove paths rec man ch :
  dom man ⊆ rec →
  fst (foldl (edit_one false) (rec, man, ch) paths) =
  (rec ∖ list_to_set (slashed <$> paths), wb.forget_paths (slashed <$> paths) man).
Proof.
  revert rec man ch. induction paths as [|p paths IH]; intros rec man ch Hd; cbn [foldl].
  { simpl. f_equal. set_solver. }
  destruct (edit_one false (rec, man, ch) p) as [[r m] c] eqn:E.
  pose proof (edit_one_remove rec man ch p Hd) as H. rewrite E in H. simpl in H. injection H as -> ->.
  rewrite IH by (rewrite dom_delete_L; set_solver). f_equal. set_solver.
Qed.

Lemma lookup_forget_paths {A} (l : list string) (m : gmap string A) p :
  wb.forget_paths l m !! p = if bool_decide (p ∈ l) then None else m !! p.
Proof.
  unfold wb.forget_paths. revert m. induction l as [|q l IH]; intros m; cbn [foldl].
  { rewrite bool_decide_eq_false_2 by apply not_elem_of_nil. done. }
  rewrite IH. destruct (decide (q = p)) as [->|Hne].
  - rewrite lookup_delete_eq. rewrite (bool_decide_eq_true_2 (p ∈ p :: l)) by left. by destruct (bool_decide _).
  - rewrite lookup_delete_ne by done.
    by rewrite (bool_decide_ext (p ∈ l) (p ∈ q :: l)) by set_solver.
Qed.

(** What [editRecord] leaves, when the share is attached. *)
Lemma editRecord_add f share paths :
  is_Some (sh_recorded f !! share) →
  let f' := fst (editRecord share paths true f) in
  recordedOf f' share = list_to_set (slashed <$> paths) ∪ recordedOf f share ∧
  manifestOf f' share = manifestOf f share.
Proof.
  intros [rec Hr]. simpl. unfold editRecord. rewrite Hr.
  pose proof (edit_fold_add paths rec (manifestOf f share) false) as H.
  destruct (foldl _ _ _) as [[r m] c]. simpl in H. injection H as -> ->. simpl.
  unfold recordedOf, manifestOf. simpl. rewrite lookup_insert_eq, Hr. simpl. split; [done|].
  destruct (sh_manifests f !! share) eqn:E; [by rewrite lookup_insert_eq|by rewrite E].
Qed.

Lemma editRecord_remove f share paths :
  shares_wf f → is_Some (sh_recorded f !! share) →
  let f' := fst (editRecord share paths false f) in
  recordedOf f' share = recordedOf f share ∖ list_to_set (slashed <$> paths) ∧
  manifestOf f' share = wb.forget_paths (slashed <$> paths) (manifestOf f share).
Proof.
  intros Hwf [rec Hr]. simpl. unfold editRecord. rewrite Hr.
  pose proof (wf_man_recorded _ _ (wf_shares _ Hwf share)) as Hd. unfold recordedOf in Hd. rewrite Hr in Hd. simpl in Hd.
  pose proof (edit_fold_remove paths rec (manifestOf f share) false Hd) as H.
  destruct (foldl _ _ _) as [[r m] c]. simpl in H. injection H as -> ->. simpl.
  unfold recordedOf. simpl. rewrite lookup_insert_eq, Hr. simpl. split; [done|].
  unfold manifestOf. simpl. destruct (sh_manifests f !! share) eqn:E; [by rewrite lookup_insert_eq|].
  exfalso. apply not_elem_of_dom in E. rewrite (wf_manifests _ Hwf), <- (wf_recorded _ Hwf) in E.
  apply E. apply elem_of_dom. eauto.
Qed.

Lemma editRecord_other f share share' paths add :
  share ≠ share' →
  let f' := fst (editRecord share paths add f) in
  recordedOf f' share' = recordedOf f share' ∧ manifestOf f' share' = manifestOf f share'.
Proof.
  intros Hne. simpl. unfold editRecord. destruct (sh_recorded f !! share); [|done].
  destruct (foldl _ _ _) as [[r m] c]. simpl. unfold recordedOf, manifestOf. simpl.
  rewrite lookup_insert_ne by done. split; [done|].
  destruct (sh_manifests f !! share); [by rewrite lookup_insert_ne|done].
Qed.

Lemma editRecord_doms f share paths add :
  let f' := fst (editRecord share paths add f) in
  dom (sh_state f') = dom (sh_state f) ∧ dom (sh_roots f') = dom (sh_roots f) ∧
  dom (sh_manifests f') = dom (sh_manifests f) ∧ dom (sh_recorded f') = dom (sh_recorded f) ∧
  sh_wb f' = sh_wb f.
Proof.
  simpl. unfold editRecord. destruct (sh_recorded f !! share) eqn:Hr; [|done].
  destruct (foldl _ _ _) as [[r m] c]. simpl. split_and!; try done.
  - destruct (sh_manifests f !! share) eqn:E; [|done]. apply dom_insert_lookup_L. eauto.
  - apply dom_insert_lookup_L. eauto.
Qed.

Lemma share_wf_forget rec man l :
  share_wf rec man → share_wf (rec ∖ list_to_set l) (wb.forget_paths l man).
Proof.
  intros [H1 H2]. split; [|set_solver]. intros p. rewrite elem_of_dom. intros [b Hb].
  rewrite lookup_forget_paths in Hb. case_bool_decide; [done|].
  assert (p ∈ dom man) by (apply elem_of_dom; eauto). set_solver.
Qed.

Lemma editRecord_wf f share paths add : shares_wf f → shares_wf (fst (editRecord share paths add f)).
Proof.
  intros Hwf. destruct (editRecord_doms f share paths add) as (D1 & D2 & D3 & D4 & D5).
  pose proof Hwf as [H1 H2 H3 H4 H5]. split; [congruence..|]. intros share'.
  destruct (decide (share = share')) as [<-|Hne].
  2: { destruct (editRecord_other f share share' paths add Hne) as [-> ->]. apply H5. }
  destruct (sh_recorded f !! share) eqn:Hr.
  2: { unfold editRecord. rewrite Hr. apply H5. }
  destruct add.
  - destruct (editRecord_add f share paths) as [-> ->]; [eauto|]. destruct (H5 share) as [W1 W2].
    split; [set_solver|]. apply set_Forall_union; [|done].
    intros p (q & -> & _)%elem_of_list_to_set%list_elem_of_fmap. apply slashed_idem.
  - destruct (editRecord_remove f share paths Hwf) as [-> ->]; [eauto|]. by apply share_wf_forget.
Qed.

(** *** Baselines *)

Lemma foldl_dom_subset {A} (step : gmap string Baseline → A → gmap string Baseline) (P : string → Prop) l m :
  (∀ m a, a ∈ l → ∀ p, p ∈ dom (step m a) → P p ∨ p ∈ dom m) →
  ∀ p, p ∈ dom (foldl step m l) → P p ∨ p ∈ dom m.
Proof.
  revert m. induction l as [|a l IH]; intros m Hs p; cbn [foldl]; [auto|].
  intros Hp. apply IH in Hp as [?|Hp]; [by left| |].
  - apply (Hs m a) in Hp; [done|left].
  - intros m' a' ?. apply Hs. by right.
Qed.

Lemma note_one_dom m r : dom (note_one m r) ⊆ {[slashed (rd_Path r)]} ∪ dom m.
Proof. unfold note_one. by rewrite dom_insert_L. Qed.

Lemma set_manifest_manifestOf share share' m f :
  manifestOf (set_manifest share m f) share' = if decide (share = share') then m else manifestOf f share'.
Proof. apply manifestOf_insert. Qed.

(** A new manifest for an attached share keeps the invariant as long as it
    names only recorded paths. *)
Lemma set_manifest_wf share m f :
  shares_wf f → is_Some (sh_manifests f !! share) → dom m ⊆ recordedOf f share →
  shares_wf (set_manifest share m f).
Proof.
  intros [H1 H2 H3 H4 H5] Hs Hm. split; try done.
  { simpl. by rewrite dom_insert_lookup_L. }
  intros share'. rewrite set_manifest_manifestOf. case_decide as E; [subst share'|apply H5].
  split; [done|]. apply (wf_rec_slashed _ _ (H5 share)).
Qed.

Lemma set_wb_wf g f : dom (g (sh_wb f)) = dom (sh_wb f) → shares_wf f → shares_wf (set_wb g f).
Proof. intros Hd [H1 H2 H3 H4 H5]. split; try done. simpl. congruence. Qed.

Lemma noteSent_wf share read f :
  shares_wf f → (∀ r, r ∈ read → slashed (rd_Path r) ∈ recordedOf f share) →
  shares_wf (noteSent share read f).
Proof.
  intros Hwf Hr. unfold noteSent. destruct (sh_manifests f !! share) as [m|] eqn:E; [|done].
  apply set_manifest_wf; [done|eauto|].
  pose proof (wf_man_recorded _ _ (wf_shares _ Hwf share)) as Hd. unfold manifestOf in Hd. rewrite E in Hd.
  intros p Hp. destruct (foldl_dom_subset note_one (λ p, p ∈ recordedOf f share) read m) with (p := p)
    as [?|?]; [|done|done|by apply Hd].
  intros m' r Hin q [->%elem_of_singleton|?]%note_one_dom%elem_of_union; auto.
Qed.

Lemma editRecord_recordedOf_remove f share paths p :
  shares_wf f → p ∈ recordedOf f share → p ∉ slashed <$> paths →
  p ∈ recordedOf (fst (editRecord share paths false f)) share.
Proof.
  intros Hwf Hp Hn. unfold recordedOf in Hp. destruct (sh_recorded f !! share) eqn:E; [|set_solver].
  destruct (editRecord_remove f share paths Hwf) as [-> _]; [eauto|]. unfold recordedOf. rewrite E. set_solver.
Qed.

Lemma noteApplied_wf share applied f :
  shares_wf f → (∀ r, r ∈ ap_Read applied → slashed (rd_Path r) ∈ recordedOf f share) →
  shares_wf (noteApplied share applied f).
Proof.
  intros Hwf Hr. unfold noteApplied. destruct (_ ++ _) as [|x l] eqn:E; [by apply noteSent_wf|].
  rewrite <- E. apply noteSent_wf; [by apply editRecord_wf|].
  intros r [Hn Hin]%list_elem_of_filter. apply editRecord_recordedOf_remove; [done|auto|].
  by rewrite elem_of_list_to_set in Hn.
Qed.

Lemma landed_dom share paths w : dom (wb.landed share paths w) = dom w.
Proof.
  unfold wb.landed. destruct (w !! share) eqn:E; [|done]. apply dom_insert_lookup_L. eauto.
Qed.

Section disk.
Context (stat : string → option FileInfo) (lstatMod : string → option Time).

Lemma rebase_one_dom m a p :
  p ∈ dom (rebase_one stat lstatMod m a) → p = a_Path a ∧ a_kind a ≠ kindDelete ∨ p ∈ dom m.
Proof.
  unfold rebase_one. split_goal; rewrite ?dom_insert_L, ?dom_delete_L; set_solver.
Qed.

(** A commit keeps the invariant: what it gives a baseline it records, and what
    it takes out of the record has no baseline left.  [added] names every path
    with a baseline to set, as [link], [adopt] and [pull] call it; a deletion is
    committed with the path in [removed]. *)
Lemma commit_wf share acts added removed f :
  shares_wf f →
  (∀ a, a ∈ acts → a_kind a ≠ kindDelete → a_Path a ∈ slashed <$> added) →
  shares_wf (commit stat lstatMod share acts added removed f).
Proof.
  intros Hwf Hacts. unfold commit. apply set_wb_wf; [apply landed_dom|].
  apply editRecord_wf. pose proof Hwf as [H1 H2 H3 H4 H5].
  unfold rebase. destruct (sh_manifests f !! share) as [m|] eqn:E; [|by apply editRecord_wf].
  assert (Hrec : is_Some (sh_recorded f !! share)).
  { apply elem_of_dom. rewrite H3, <- H2. apply elem_of_dom. eauto. }
  set (f1 := set_manifest _ _ _).
  destruct (editRecord_doms f1 share added true) as (D1 & D2 & D3 & D4 & D5).
  assert (Hdm : dom (sh_manifests f1) = dom (sh_manifests f)) by (subst f1; simpl; rewrite dom_insert_lookup_L; eauto).
  split; [subst f1; simpl in *; congruence..|]. intros share'.
  destruct (decide (share = share')) as [<-|Hne].
  2: { destruct (editRecord_other f1 share share' added true Hne) as [-> ->].
       unfold f1. rewrite set_manifest_manifestOf, decide_False by done. apply H5. }
  destruct (editRecord_add f1 share added) as [-> ->]; [done|].
  unfold f1 at 2. rewrite set_manifest_manifestOf, decide_True by done.
  destruct (H5 share) as [W1 W2]. unfold manifestOf in W1. rewrite E in W1. split.
  - intros p Hp. apply (foldl_dom_subset _ (λ p, p ∈ slashed <$> added)) in Hp as [?|?].
    + set_solver.
    + apply elem_of_union; right. by apply W1.
    + intros m' a Ha q [[-> ?]|?]%rebase_one_dom; [left; auto|by right].
  - apply set_Forall_union; [|done].
    intros p (q & -> & _)%elem_of_list_to_set%list_elem_of_fmap. apply slashed_idem.
Qed.

End disk.

(** ** The life of the shares *)

(** One step at a time: attaching, forgetting, a batch (recorded before it is
    applied, noted after), paths taken out of the record, and a write-back
    commit.  What a batch read is among its entries, which is [Applied.Read]'s
    meaning; every commit the pass makes either sets baselines for the paths it
    adds, or deletes the path it removes. *)
Inductive share_step (f : shares) : shares → Prop :=
| step_set share root s filled : share_step f (set_ share root s filled f)
| step_forget share : share_step f (forget share f)
| step_batch share entries applied :
    (∀ r, r ∈ ap_Read applied → slashed (rd_Path r) ∈ (λ e, slashed (e_Path e)) <$> entries) →
    share_step f (noteApplied share applied (record share entries f))
| step_unrecord share paths : share_step f (unrecord share paths f)
| step_commit stat lstatMod share acts added removed :
    (∀ a, a ∈ acts → a_kind a ≠ kindDelete → a_Path a ∈ slashed <$> added) →
    share_step f (commit stat lstatMod share acts added removed f).

Definition shares_reachable : shares → Prop := rtc share_step noShares.

Lemma recordedOf_record f share entries p :
  is_Some (sh_recorded f !! share) → p ∈ (λ e, slashed (e_Path e)) <$> entries →
  p ∈ recordedOf (record share entries f) share.
Proof.
  intros Hs Hp. unfold record. destruct (editRecord_add f share (e_Path <$> entries) Hs) as [-> _].
  apply elem_of_union. left. apply elem_of_list_to_set. by rewrite <- list_fmap_compose.
Qed.

Lemma noteApplied_unattached f share applied :
  shares_wf f → sh_recorded f !! share = None → noteApplied share applied f = f.
Proof.
  intros Hwf Hr. unfold noteApplied, noteSent, editRecord. rewrite Hr. simpl.
  assert (sh_manifests f !! share = None) as ->.
  { apply not_elem_of_dom. rewrite (wf_manifests _ Hwf), <- (wf_recorded _ Hwf). by apply not_elem_of_dom. }
  by destruct (_ ++ _).
Qed.

Lemma share_step_wf f f' : shares_wf f → share_step f f' → shares_wf f'.
Proof.
  intros Hwf Hs. destruct Hs as [share root s filled|share|share entries applied Hr|share paths|]; simpl.
  - by apply set_wf.
  - by apply forget_wf.
  - assert (shares_wf (record share entries f)) as Hwf' by by apply editRecord_wf.
    destruct (sh_recorded f !! share) eqn:E.
    + apply noteApplied_wf; [exact Hwf'|]. intros r Hin. apply recordedOf_record; eauto.
    + rewrite noteApplied_unattached; [done|done|]. unfold record, editRecord. by rewrite E.
  - by apply editRecord_wf.
  - by apply commit_wf.
Qed.

Lemma shares_reachable_wf f : shares_reachable f → shares_wf f.
Proof.
  intros Hr. unfold shares_reachable in Hr. remember noShares as f0 eqn:E0.
  assert (shares_wf f0) as Hwf by (subst; apply noShares_wf). clear E0.
  induction Hr as [|? ? ? ? ? IH]; [done|]. apply IH. by eapply share_step_wf.
Qed.

(** C8 (invariant). Whatever sequence of attaches, batches, drops, commits and
    forgets a cache has been through, each done before the next, every path it
    has a baseline for is in the record (so a deletion here can always take it
    out of the cache), every recorded path is spelled from the share's root, and
    the five maps agree about which shares are attached. *)
Theorem shares_record_invariant f :
  shares_reachable f →
  dom (sh_roots f) = dom (sh_state f) ∧ dom (sh_manifests f) = dom (sh_state f) ∧
  dom (sh_recorded f) = dom (sh_state f) ∧ dom (sh_wb f) = dom (sh_state f) ∧
  ∀ share p,
    (is_Some (manifestOf f share !! p) → p ∈ recordedOf f share) ∧
    (p ∈ recordedOf f share → slashed p = p).
Proof.
  intros [H1 H2 H3 H4 H5]%shares_reachable_wf.
  split_and!; try done. intros share p. destruct (H5 share) as [W1 W2]. split.
  - intros Hm. apply W1. by apply elem_of_dom.
  - apply W2.
Qed.

(** The interleaving the invariant excludes: an invalidation that drops a path
    while a batch holding it is in flight.  The path then has a baseline and no
    record. *)
Definition inFlightDrop (share : string) (entries : list Entry) (applied : Applied) (dropped : list string)
  (f : shares) : shares :=
  noteApplied share applied (unrecord share dropped (record share entries f)).

Lemma inFlightDrop_unrecorded :
  let f := set_ "s" "/root" (newShareState {| o_Policy := PolicyEager; o_Ephemeral := false; o_Exec := 0 |}) ∅ noShares in
  let f' := inFlightDrop "s" [{| e_Path := "a"; e_Size := 1 |}]
              {| ap_Read := [{| rd_Path := "a"; rd_Size := 1; rd_ModTime := 5 |}]; ap_Skipped := []; ap_Kept := [] |}
              ["/a"] f in
  is_Some (manifestOf f' "s" !! "/a") ∧ "/a" ∉ recordedOf f' "s".
Proof. simpl. split; [eexists; vm_compute; reflexivity|apply (bool_decide_unpack _); vm_compute; exact I]. Qed.

(** ** Restarting *)

(** A time the record can hold: [UnixNano] is defined for it. *)
Definition representable (t : Time) : Prop := -2^63 ≤ t < 2^63.

Lemma representable_nonzero t : representable t → IsZero t = false.
Proof. unfold representable, IsZero, zeroTime, Second. intros. apply Z.eqb_neq. lia. Qed.

Lemma lookup_snapshot f share p :
  snapshot f share !! p =
  if bool_decide (p ∈ recordedOf f share) then Some (default zeroBaseline (manifestOf f share !! p)) else None.
Proof.
  unfold snapshot. apply option_eq. intros b. rewrite lookup_set_to_map by (intros; simpl in *; congruence).
  case_bool_decide; naive_solver.
Qed.

Lemma lookup_zeros (l : list string) p :
  (list_to_map ((λ p, (p, zeroBaseline)) <$> l) : gmap string Baseline) !! p =
  if bool_decide (p ∈ l) then Some zeroBaseline else None.
Proof.
  induction l as [|q l IH]; [done|]. rewrite fmap_cons. simpl list_to_map.
  destruct (decide (q = p)) as [->|Hne].
  - rewrite lookup_insert_eq, (bool_decide_eq_true_2 (p ∈ p :: l)) by left. done.
  - rewrite lookup_insert_ne, IH by done. by rewrite (bool_decide_ext (p ∈ l) (p ∈ q :: l)) by set_solver.
Qed.

(** What comes back from the file is what was written, for any record whose
    times are representable or zero (a zero time is a path with no baseline). *)
Lemma decode_encode filled :
  (∀ p b, filled !! p = Some b → b = zeroBaseline ∨ representable (b_ModTime b)) →
  cachedStore.decode (cachedStore.encode filled) = filled.
Proof.
  intros Hok. apply map_eq. intros p. unfold cachedStore.decode, cachedStore.encode. simpl.
  rewrite lookup_union, lookup_fmap, lookup_omap, lookup_zeros.
  assert (Hin : p ∈ sort_strings ((map_to_list filled).*1) ↔ is_Some (filled !! p)).
  { unfold sort_strings. rewrite stable_sort_Permutation, list_elem_of_fmap. split.
    - intros ([q b] & -> & ?%elem_of_map_to_list). eauto.
    - intros [b ?%elem_of_map_to_list]. by exists (p, b). }
  rewrite (bool_decide_ext _ _ Hin).
  destruct (filled !! p) as [b|] eqn:E; simpl; [|done].
  destruct (Hok p b E) as [->|Hr]; [done|].
  rewrite representable_nonzero by done. simpl. unfold Unix0. rewrite wrap64_small by done. by destruct b.
Qed.

Lemma lookup_filled_manifest (filled : gmap string Baseline) p :
  (∀ q b, filled !! q = Some b → slashed q = q) →
  filled_manifest filled !! p =
  match filled !! p with Some b => if IsZero (b_ModTime b) then None else Some b | None => None end.
Proof.
  intros Hs. unfold filled_manifest.
  assert (∀ l (m : gmap string Baseline), (∀ q b, (q, b) ∈ l → slashed q = q) → NoDup l.*1 →
    foldl (λ m '(p, b), if negb (IsZero (b_ModTime b)) then <[slashed p := b]> m else m) m l !! p =
    match (list_to_map l : gmap string Baseline) !! p with
    | Some b => if IsZero (b_ModTime b) then m !! p else Some b
    | None => m !! p
    end) as H.
  { induction l as [|[q b] l IH]; intros m Hl Hnd; [done|]. cbn [foldl]. simpl list_to_map.
    rewrite fmap_cons in Hnd. apply NoDup_cons in Hnd as [Hq Hnd].
    rewrite IH by (try done; intros; eapply Hl; by right). rewrite (Hl q b) by left. destruct (decide (q = p)) as [->|Hne].
    - rewrite lookup_insert_eq, not_elem_of_list_to_map_1 by done. destruct (IsZero _); simpl; [done|]. by rewrite lookup_insert_eq.
    - rewrite (lookup_insert_ne _ q p b) by done. destruct (IsZero _); simpl; [done|]. by rewrite lookup_insert_ne by done. }
  rewrite H.
  - by rewrite list_to_map_to_list.
  - intros q b ?%elem_of_map_to_list. eauto.
  - apply NoDup_fst_map_to_list.
Qed.

(** A share saved and attached again by a later process knows
    what it knew: the same recorded paths and the same baselines, through the
    record's file. *)
Theorem restart_keeps_record f share root s f0 :
  shares_reachable f →
  (∀ p b, manifestOf f share !! p = Some b → representable (b_ModTime b)) →
  let f' := set_ share root s (cachedStore.decode (cachedStore.encode (snapshot f share))) f0 in
  recordedOf f' share = recordedOf f share ∧ manifestOf f' share = manifestOf f share.
Proof.
  intros Hwf%shares_reachable_wf Hok. destruct (wf_shares _ Hwf share) as [W1 W2]. simpl.
  rewrite decode_encode.
  2: { intros p b. rewrite lookup_snapshot. case_bool_decide; [|done]. intros [= <-].
       destruct (manifestOf f share !! p) eqn:E; simpl; eauto. }
  unfold recordedOf at 1, manifestOf at 1. simpl. rewrite !lookup_insert_eq. simpl. split.
  - apply set_eq. intros p. rewrite elem_of_filled_recorded. setoid_rewrite lookup_snapshot. split.
    + intros (q & [b Hq] & ->). case_bool_decide; [|done]. by rewrite (W2 q).
    + intros Hp. exists p. split; [|by rewrite (W2 p)]. rewrite bool_decide_eq_true_2 by done. eauto.
  - apply map_eq. intros p. rewrite lookup_filled_manifest.
    2: { intros q b. rewrite lookup_snapshot. case_bool_decide; [|done]. intros _. by apply W2. }
    rewrite lookup_snapshot. destruct (manifestOf f share !! p) as [b|] eqn:E; simpl.
    + rewrite bool_decide_eq_true_2 by (apply W1, elem_of_dom; eauto). by rewrite representable_nonzero by eauto.
    + by case_bool_decide.
Qed.
