(* ===== verification/Root.v ===== *)
(** * The share's root on this machine (os.Root), failed writes sorted
    (dircache/classify.go, classify_unix.go, classify_windows.go), and landing
    one file or link (dircache/writeback.go: [writeUnder], [landLink])

    [Root] is what the code asks of an [os.Root] handle, as a type class over a
    disk state: paths are relative to the root and slash-separated.  Any
    operation may fail with any error.  [RootLaws] states what the code relies
    on: which entries an operation can change, and what one that succeeds
    leaves.  [MemFS] is an instance in memory. *)

From S2P Require Import Prelude GoStrings GoTime DirTypes Decide.
Open Scope Z_scope.

(** ** Errors *)

(** A Go error as far as the code asks: its text, the [syscall.Errno] and the
    [caseClashError] it wraps, whether it is [os.ErrNotExist] and whether it is
    [errChangedHere]. *)
Record goerror := {
  ge_text : string;
  ge_errno : option Z;
  ge_notExist : bool;
  ge_clash : option (string * string);
  ge_changedHere : bool
}.

Definition errText (t : string) : goerror :=
  {| ge_text := t; ge_errno := None; ge_notExist := false; ge_clash := None; ge_changedHere := false |}.

(** writeback.go: [errChangedHere]. *)
Definition errChangedHere : goerror :=
  {| ge_text := "changed here since write-back looked at it"; ge_errno := None; ge_notExist := false;
     ge_clash := None; ge_changedHere := true |}.

(** classify.go: [caseClashError], with its [Error]. *)
Definition caseClashError (p existing : string) : goerror :=
  {| ge_text := p +:+ " differs only in case from " +:+ existing +:+ ", which is already here";
     ge_errno := None; ge_notExist := false; ge_clash := Some (p, existing); ge_changedHere := false |}.

(** classify.go: [fault]. *)
Inductive fault := faultOther | faultSpace | faultName.

#[export] Instance fault_eq_dec : EqDecision fault.
Proof. solve_decision. Defined.

(** The platform's error numbers. *)
Class Platform := {
  diskFull : Z → bool;
  unholdableName : Z → bool
}.

(** classify_unix.go, with Linux's values: ENOSPC 28, EDQUOT 122, EINVAL 22,
    ENAMETOOLONG 36, EILSEQ 84. *)
Definition unix_diskFull (e : Z) : bool := (e =? 28) || (e =? 122).
Definition unix_unholdableName (e : Z) : bool := (e =? 22) || (e =? 36) || (e =? 84).

(** classify_windows.go. *)
Definition windows_diskFull (e : Z) : bool := (e =? 112) || (e =? 39).
Definition windows_unholdableName (e : Z) : bool := (e =? 123) || (e =? 206) || (e =? 1314).

Definition unixPlatform : Platform := {| diskFull := unix_diskFull; unholdableName := unix_unholdableName |}.
Definition windowsPlatform : Platform :=
  {| diskFull := windows_diskFull; unholdableName := windows_unholdableName |}.

(** [strings.Contains] of a substring. *)
Fixpoint containsStr (s sub : string) : bool :=
  strings.HasPrefix s sub ||
  match s with EmptyString => false | String _ s' => containsStr s' sub end.

(** classify.go: [classifyWrite]. *)
Definition classifyWrite `{Platform} (err : option goerror) : fault :=
  match err with
  | None => faultOther
  | Some e =>
      let byErrno := match ge_errno e with
                     | Some n => if diskFull n then Some faultSpace
                                 else if unholdableName n then Some faultName else None
                     | None => None
                     end in
      match byErrno with
      | Some f => f
      | None => if containsStr (ge_text e) "path escapes from parent" then faultName
                else match ge_clash e with Some _ => faultName | None => faultOther end
      end
  end.

(** ** The disk *)

(** What is at a path. A directory's own times are left out: they change with
    its entries, and the code never compares them. *)
Inductive Node :=
| nDir
| nFile (perm : Z) (mtime : Time) (body : string)
| nLink (mtime : Time) (target : string).

#[export] Instance Node_eq_dec : EqDecision Node.
Proof. solve_decision. Defined.

Definition isLink (n : option Node) : Prop := match n with Some (nLink _ _) => True | _ => False end.


Definition modeType : Z := Z.lor ModeDir ModeSymlink.
(** [Mode().IsRegular()], for the kinds of entry a share has. *)
Definition IsRegular (i : FileInfo) : bool := Z.land (fi_Mode i) modeType =? 0.
(** [Mode().Perm()]. *)
Definition Perm (mode : Z) : Z := Z.land mode 511.
(** [Mode()&os.ModeSymlink != 0]. *)
Definition IsSymlink (i : FileInfo) : bool := negb (Z.land (fi_Mode i) ModeSymlink =? 0).

(** The file info a regular file has. *)
Definition fileInfo (perm : Z) (mtime : Time) (body : string) : FileInfo :=
  {| fi_Size := Z.of_nat (strlen body); fi_ModTime := mtime; fi_Mode := Perm perm |}.

(** An [os.Root] follows a link among the directories above a path, as long as it
    stays inside the root, so two paths can lead to one entry.  [node] is therefore
    indexed by places, the paths of the tree itself, which pass through no link; a
    path through a link has no node of its own.  [place d p] is the place the path
    [p] leads to: the links among the directories above it followed, its last name
    kept. *)
Class Root (D : Type) := {
  node : D → string → option Node;
  place : D → string → string;
  Lstat : D → string → res goerror FileInfo;
  Stat : D → string → res goerror FileInfo;
  Readlink : D → string → res goerror string;
  Readdirnames : D → string → res goerror (list string);
  Remove : D → string → D * option goerror;
  MkdirAll : D → string → D * option goerror;
  Chmod : D → string → Z → D * option goerror;
  Chtimes : D → string → Time → D * option goerror;
  Create : D → string → Z → D * option goerror;
  Write : D → string → string → D * option goerror;
  Symlink : D → string → string → D * option goerror;
  Rename : D → string → string → D * option goerror
}.

(** [filepath.Join(dir, name)] for a directory [filepath.Dir] answered. *)
Definition joinName (dir name : string) : string :=
  if bool_decide (dir = ".") then name
  else if bool_decide (dir = "/") then "/" +:+ name else dir +:+ "/" +:+ name.

(** [q] is a directory above the relative path [p]: one of the names
    [MkdirAll (Dir p)] may make. *)
Definition above (q p : string) : Prop := q ∈ path.ups (path.Dir p).

(** A relative path as the share writes it; the root itself is the empty one. *)
Definition cleanRel (p : string) : Prop := p = "" ∨ path.Clean p = p.

(** One name, with no separator in it. *)
Definition leaf (name : string) : Prop :=
  forallb (λ a, negb (Ascii.eqb a path.sep)) (String.list_ascii_of_string name) = true.

(** No link is among the directories above a path. *)
Definition straight `{Root D} (d : D) (p : string) : Prop := ∀ u, above u p → ¬ isLink (node d u).

(** The laws are of a disk that tells names apart by their case, and in which no
    link to a directory leads through an entry of that directory. *)
Class RootLaws (D : Type) `{Root D} := {
  (** Where paths lead: a path with no link above it is its own place, and a name
      beside a path is beside the path's place. *)
  place_straight d p : cleanRel p → straight d p → place d p = p;
  place_beside d p name : cleanRel p → leaf name →
    place d (joinName (path.Dir p) name) = joinName (path.Dir (place d p)) name;
  place_apart d p name : cleanRel p → leaf name → joinName (path.Dir p) name ≠ p →
    place d (joinName (path.Dir p) name) ≠ place d p;
  (** A name nothing is at cannot be stat'ed. *)
  lstat_node d p i : Lstat d p = Ok i → is_Some (node d (place d p));
  lstat_dir d p i : Lstat d p = Ok i → IsDir i = true → node d (place d p) = Some nDir;
  stat_file d p perm t b : node d (place d p) = Some (nFile perm t b) → Stat d p = Ok (fileInfo perm t b);
  lstat_link d p t target : node d (place d p) = Some (nLink t target) →
    Lstat d p = Ok {| fi_Size := Z.of_nat (strlen target); fi_ModTime := t; fi_Mode := Z.lor ModeSymlink 511 |};
  (** [Remove] takes the name itself, never what a link points to, and never a
      directory with anything in it. *)
  remove_frame d p q : q ≠ place d p → node (fst (Remove d p)) q = node d q;
  remove_ok d p : snd (Remove d p) = None → node (fst (Remove d p)) (place d p) = None;
  remove_err d p e : snd (Remove d p) = Some e → node (fst (Remove d p)) (place d p) = node d (place d p);
  remove_dir_empty d p q : snd (Remove d p) = None → node d (place d p) = Some nDir → above (place d p) q →
    node d q = None;
  (** [MkdirAll] makes the directories missing of a path and changes nothing else. *)
  mkdirall_frame d p q : node (fst (MkdirAll d p)) q ≠ node d q →
    node d q = None ∧ node (fst (MkdirAll d p)) q = Some nDir ∧ q ∈ path.ups (place d p);
  mkdirall_above d p q : cleanRel p → node (fst (MkdirAll d (path.Dir p))) q ≠ node d q → above q (place d p);
  mkdirall_place d p : cleanRel p → place (fst (MkdirAll d (path.Dir p))) p = place d p;
  (** [Chmod] follows links and changes permission bits only. *)
  chmod_bits d p m q perm t b : node d q = Some (nFile perm t b) →
    ∃ perm', node (fst (Chmod d p m)) q = Some (nFile perm' t b);
  chmod_other d p m q : (∀ perm t b, node d q ≠ Some (nFile perm t b)) → node (fst (Chmod d p m)) q = node d q;
  chmod_frame d p m q : ¬ isLink (node d (place d p)) → q ≠ place d p → node (fst (Chmod d p m)) q = node d q;
  chmod_place d p m q : place (fst (Chmod d p m)) q = place d q;
  (** A temporary is made with O_EXCL, and only it changes until the rename. *)
  create_frame d p m q : q ≠ place d p → node (fst (Create d p m)) q = node d q;
  create_ok d p m : snd (Create d p m) = None →
    node d (place d p) = None ∧ ∃ perm t, node (fst (Create d p m)) (place d p) = Some (nFile perm t "");
  create_err d p m e : snd (Create d p m) = Some e → node (fst (Create d p m)) (place d p) = node d (place d p);
  create_place d p m q : place (fst (Create d p m)) q = place d q;
  write_frame d p s q : q ≠ place d p → node (fst (Write d p s)) q = node d q;
  write_file d p s perm t b : node d (place d p) = Some (nFile perm t b) →
    ∃ t' b', node (fst (Write d p s)) (place d p) = Some (nFile perm t' b');
  write_ok d p s perm t : node d (place d p) = Some (nFile perm t "") → snd (Write d p s) = None →
    ∃ t', node (fst (Write d p s)) (place d p) = Some (nFile perm t' s);
  write_place d p s q : place (fst (Write d p s)) q = place d q;
  chtimes_frame d p t q : ¬ isLink (node d (place d p)) → q ≠ place d p → node (fst (Chtimes d p t)) q = node d q;
  chtimes_file d p t perm t0 b : node d (place d p) = Some (nFile perm t0 b) →
    ∃ t', node (fst (Chtimes d p t)) (place d p) = Some (nFile perm t' b) ∧ (snd (Chtimes d p t) = None → t' = t);
  chtimes_place d p t q : place (fst (Chtimes d p t)) q = place d q;
  symlink_frame d target p q : q ≠ place d p → node (fst (Symlink d target p)) q = node d q;
  symlink_ok d target p : snd (Symlink d target p) = None →
    node d (place d p) = None ∧ ∃ t, node (fst (Symlink d target p)) (place d p) = Some (nLink t target);
  symlink_err d target p e : snd (Symlink d target p) = Some e →
    node (fst (Symlink d target p)) (place d p) = node d (place d p);
  (** A new link changes where the paths under it lead, not those beside it. *)
  symlink_beside d target p name : cleanRel p → leaf name →
    place (fst (Symlink d target (joinName (path.Dir p) name))) p = place d p;
  (** What is renamed here is a file or a link, which has nothing under it. *)
  rename_frame d from to q : node d (place d from) ≠ Some nDir → q ≠ place d from → q ≠ place d to →
    node (fst (Rename d from to)) q = node d q;
  rename_ok d from to : snd (Rename d from to) = None → place d from ≠ place d to →
    node d (place d from) ≠ Some nDir →
    node (fst (Rename d from to)) (place d to) = node d (place d from) ∧
    node (fst (Rename d from to)) (place d from) = None;
  rename_err d from to e : snd (Rename d from to) = Some e →
    node (fst (Rename d from to)) (place d to) = node d (place d to) ∧
    node (fst (Rename d from to)) (place d from) = node d (place d from) ∧
    ∀ q, place (fst (Rename d from to)) q = place d q;
  rename_beside d p name : cleanRel p → leaf name → node d (place d (joinName (path.Dir p) name)) ≠ Some nDir →
    place (fst (Rename d (joinName (path.Dir p) name) p)) p = place d p
}.

(** ** Landing *)

(** writeback.go: [writebackPrefix]. *)
Definition writebackPrefix : string := ".rd-writeback-".

(** writeback.go: [relPath], with this machine's separator a slash. *)
Definition relPath (p : string) : string := strings.TrimPrefix p "/".

(** [strconv.FormatUint(n, 16)] of a 64-bit number. *)
Definition hexChar (n : Z) : Ascii.ascii := Ascii.ascii_of_nat (Z.to_nat (if n <? 10 then 48 + n else 87 + n)).
Fixpoint hexLoop (fuel : nat) (n : Z) (acc : string) : string :=
  match fuel with
  | O => acc
  | S fuel' => let acc' := String (hexChar (n mod 16)) acc in
               if n / 16 =? 0 then acc' else hexLoop fuel' (n / 16) acc'
  end.
Definition FormatUint16 (n : Z) : string := hexLoop 16 n "".

(** The name of a temporary. *)
Definition tmpName (rand : Z) : string := writebackPrefix +:+ FormatUint16 rand.

(** cache.go: [File]. [f_BodyErr] is the error reading the body ends with. *)
Record File := {
  f_Path : string;
  f_ModTime : Time;
  f_Mode : Z;
  f_Body : string;
  f_BodyErr : option goerror;
  f_Unreadable : string
}.

Section landing.
Context {D : Type} `{Root D}.

(** writeback.go: [landLink]. [rand] is the number the temporary is named
    after. *)
Definition landLink (d : D) (rel target : string) (rand : Z) : D * option goerror :=
  let dir := path.Dir rel in
  let '(d1, e1) := MkdirAll d dir in
  match e1 with
  | Some e => (d1, Some e)
  | None =>
      let tmp := joinName dir (tmpName rand) in
      let '(d2, e2) := Symlink d1 target tmp in
      match e2 with
      | Some e => (d2, Some e)
      | None =>
          let '(d3, e3) := Rename d2 tmp rel in
          match e3 with
          | Some e => (fst (Remove d3 tmp), Some e)
          | None => (d3, None)
          end
      end
  end.

(** The body is copied into the temporary; the copy's error, or the write's. *)
Definition copyBody (d : D) (tmp : string) (f : File) : D * option goerror :=
  let '(d', e) := Write d tmp (f_Body f) in
  (d', match f_BodyErr f with Some e' => Some e' | None => e end).

(** The part of [writeUnder] between making the temporary and the guard: its
    bits, its bytes and its time. *)
Definition fillTmp (d : D) (tmp : string) (file : File) (perm : Z) (existing : bool) : D * option goerror :=
  let d1 := if existing then fst (Chmod d tmp perm) else d in
  let '(d2, e) := copyBody d1 tmp file in
  match e with
  | None => (if negb (IsZero (f_ModTime file)) then fst (Chtimes d2 tmp (f_ModTime file)) else d2, None)
  | Some _ => (d2, e)
  end.

(** writeback.go: [writeUnder]. [guard] is asked on the disk as it is just
    before the rename; [None] is a nil guard. *)
Definition writeUnder (d : D) (file : File) (guard : option (D → bool)) (exec rand : Z)
  : D * option goerror :=
  let rel := relPath (f_Path file) in
  let dir := path.Dir rel in
  let '(d1, e1) := MkdirAll d dir in
  match e1 with
  | Some e => (d1, Some e)
  | None =>
      let '(perm, existing) := match Stat d1 rel with
                               | Ok info => if IsRegular info then (withExec (Perm (fi_Mode info)) exec, true)
                                            else (Perm (f_Mode file), false)
                               | Err _ => (Perm (f_Mode file), false)
                               end in
      let tmp := joinName dir (tmpName rand) in
      let '(d2, e2) := Create d1 tmp perm in
      match e2 with
      | Some e => (d2, Some e)
      | None =>
          let '(d5, e4) := fillTmp d2 tmp file perm existing in
          let e5 := match e4, guard with
                    | None, Some g => if g d5 then None else Some errChangedHere
                    | e, _ => e
                    end in
          let '(d6, e6) := match e5 with None => Rename d5 tmp rel | Some e => (d5, Some e) end in
          match e6 with
          | Some e => (fst (Remove d6 tmp), Some e)
          | None => (d6, None)
          end
      end
  end.

End landing.

(** ** What landing does to the disk *)

Lemma ups_strlen p q : q ∈ path.ups p → (strlen q ≤ strlen p)%nat.
Proof.
  remember (strlen p) as n eqn:En. revert p En.
  induction (Nat.lt_wf_0 n) as [n _ IH]. intros p En Hq.
  destruct (decide (p = "/" ∨ p = "."))%string as [Hr|Hn].
  - rewrite ups_stop in Hq by done. by apply elem_of_nil in Hq.
  - rewrite ups_step in Hq by naive_solver. apply elem_of_cons in Hq as [->|Hq]; [lia|].
    destruct (Dir_shorter p) as [E|[E|Hlt]].
    + rewrite E, ups_stop in Hq by auto. by apply elem_of_nil in Hq.
    + rewrite E, ups_stop in Hq by auto. by apply elem_of_nil in Hq.
    + subst n. specialize (IH _ Hlt (path.Dir p) eq_refl Hq). lia.
Qed.

(** A directory above a path is not the path. *)
Lemma above_ne q p : above q p → q ≠ p.
Proof.
  unfold above. intros Hq ->. pose proof (ups_strlen _ _ Hq).
  destruct (Dir_shorter p) as [E|[E|Hlt]]; [rewrite E, ups_stop in Hq by auto; by apply elem_of_nil in Hq..|lia].
Qed.

Lemma fileInfo_not_dir perm t b : IsDir (fileInfo perm t b) = false.
Proof. unfold IsDir, fileInfo, Perm. cbn [fi_Mode]. rewrite Z.land_spec. apply andb_false_r. Qed.

Lemma hexChar_leaf k : 0 ≤ k < 16 → Ascii.eqb (hexChar k) path.sep = false.
Proof.
  intros Hk. assert (k ∈ [0;1;2;3;4;5;6;7;8;9;10;11;12;13;14;15]) as Hin by (rewrite !elem_of_cons; lia).
  revert k Hin Hk. apply (Forall_forall (λ k, 0 ≤ k < 16 → Ascii.eqb (hexChar k) path.sep = false)).
  repeat constructor; done.
Qed.

Lemma hexLoop_leaf fuel n acc : leaf acc → leaf (hexLoop fuel n acc).
Proof.
  revert n acc. induction fuel as [|fuel IH]; intros n acc Ha; cbn [hexLoop]; [done|].
  assert (leaf (String (hexChar (n mod 16)) acc)).
  { unfold leaf in *. cbn [String.list_ascii_of_string forallb]. rewrite hexChar_leaf by (apply Z.mod_pos_bound; lia). done. }
  destruct (_ =? _); auto.
Qed.

Lemma leaf_app a b : leaf a → leaf b → leaf (a +:+ b).
Proof. unfold leaf. induction a as [|c a IH]; [done|]. cbn. destruct (Ascii.eqb c path.sep); cbn; auto. Qed.

Lemma tmpName_leaf rand : leaf (tmpName rand).
Proof. apply leaf_app; [done|]. by apply hexLoop_leaf. Qed.

Section landing_lemmas.
Context {D : Type} `{RootLaws D}.

(** What landing at the place [pl] may leave different elsewhere: directories made
    above it where nothing was, and its own temporary. *)
Definition elsewhere_kept (pl tmp : string) (d d' : D) : Prop :=
  ∀ q, q ≠ pl → q ≠ tmp → node d' q = node d q ∨ (node d q = None ∧ node d' q = Some nDir ∧ above q pl).

Lemma elsewhere_kept_trans pl tmp d1 d2 d3 :
  elsewhere_kept pl tmp d1 d2 → (∀ q, q ≠ pl → q ≠ tmp → node d3 q = node d2 q) →
  elsewhere_kept pl tmp d1 d3.
Proof. intros H1 H2 q Hq1 Hq2. rewrite H2 by done. auto. Qed.

Lemma MkdirAll_kept d rel tmp :
  cleanRel rel → elsewhere_kept (place d rel) tmp d (fst (MkdirAll d (path.Dir rel))).
Proof.
  intros Hc q _ _. destruct (decide (node (fst (MkdirAll d (path.Dir rel))) q = node d q)) as [|Hne]; [by left|].
  right. pose proof (mkdirall_above _ _ _ Hc Hne). by apply mkdirall_frame in Hne as (? & ? & _).
Qed.

Lemma MkdirAll_rel d rel :
  cleanRel rel → node (fst (MkdirAll d (path.Dir rel))) (place d rel) = node d (place d rel).
Proof.
  intros Hc. destruct (decide (node (fst (MkdirAll d (path.Dir rel))) (place d rel) = node d (place d rel))) as [|Hne]; [done|].
  apply (mkdirall_above _ _ _ Hc) in Hne. by apply above_ne in Hne.
Qed.

Definition tmpOf (rel : string) (rand : Z) : string := joinName (path.Dir rel) (tmpName rand).

(** Where a path's temporary is. *)
Lemma place_tmpOf d rel rand : cleanRel rel → place d (tmpOf rel rand) = tmpOf (place d rel) rand.
Proof. intros Hc. unfold tmpOf. apply place_beside; [done|apply tmpName_leaf]. Qed.

Lemma tmpOf_apart d rel rand : cleanRel rel → tmpOf rel rand ≠ rel → tmpOf (place d rel) rand ≠ place d rel.
Proof. intros Hc Hne. rewrite <- place_tmpOf by done. apply place_apart; [done|apply tmpName_leaf|done]. Qed.

(** The link half. *)
Lemma landLink_spec d rel target rand d' e :
  landLink d rel target rand = (d', e) → cleanRel rel → tmpOf rel rand ≠ rel →
  elsewhere_kept (place d rel) (tmpOf (place d rel) rand) d d' ∧
  match e with
  | Some _ => node d' (place d rel) = node d (place d rel)
  | None => ∃ t, node d' (place d rel) = Some (nLink t target)
  end.
Proof.
  unfold landLink. fold (tmpOf rel rand). intros E Hc Hne. pose proof (tmpOf_apart d rel rand Hc Hne) as Hap.
  set (pl := place d rel) in *. set (tmp := tmpOf pl rand) in *.
  pose proof (MkdirAll_kept d rel tmp Hc) as K1. pose proof (MkdirAll_rel d rel Hc) as R1.
  pose proof (mkdirall_place d rel Hc) as P1. fold pl in K1, R1, P1.
  destruct (MkdirAll d (path.Dir rel)) as [d1 [e1|]]; simpl in *; [by injection E as <- <-|].
  assert (T1 : place d1 (tmpOf rel rand) = tmp) by (by rewrite place_tmpOf, P1).
  pose proof (symlink_frame d1 target (tmpOf rel rand)) as F2. rewrite T1 in F2.
  assert (K2 : elsewhere_kept pl tmp d (fst (Symlink d1 target (tmpOf rel rand)))).
  { eapply elsewhere_kept_trans; [done|]. intros. by apply F2. }
  pose proof (symlink_ok d1 target (tmpOf rel rand)) as O2. rewrite T1 in O2.
  pose proof (symlink_beside d1 target rel (tmpName rand) Hc (tmpName_leaf _)) as P2. fold (tmpOf rel rand) in P2. rewrite P1 in P2.
  destruct (Symlink d1 target (tmpOf rel rand)) as [d2 [e2|]]; simpl in *.
  { injection E as <- <-. split; [done|]. by rewrite F2. }
  destruct (O2 eq_refl) as [_ [t Ht]].
  assert (T2 : place d2 (tmpOf rel rand) = tmp) by (by rewrite place_tmpOf, P2).
  pose proof (rename_frame d2 (tmpOf rel rand) rel) as F3. pose proof (rename_ok d2 (tmpOf rel rand) rel) as O3.
  pose proof (rename_err d2 (tmpOf rel rand) rel) as X3. rewrite T2, P2, Ht in F3, O3. rewrite T2, P2 in X3.
  destruct (Rename d2 (tmpOf rel rand) rel) as [d3 [e3|]]; simpl in *; injection E as <- <-.
  - destruct (X3 e3 eq_refl) as (E1 & _ & P3).
    assert (T3 : place d3 (tmpOf rel rand) = tmp) by (by rewrite P3).
    split.
    + eapply elsewhere_kept_trans; [done|]. intros. rewrite remove_frame by (by rewrite T3). by rewrite F3.
    + rewrite remove_frame by (rewrite T3; auto). rewrite E1. by rewrite F2.
  - destruct (O3 eq_refl Hap) as [E1 _]; [done|]. split.
    + eapply elsewhere_kept_trans; [done|]. intros. by rewrite F3.
    + rewrite E1. eauto.
Qed.

Lemma copyBody_frame d tmp f q : q ≠ place d tmp → node (fst (copyBody d tmp f)) q = node d q.
Proof. intros. unfold copyBody. pose proof (write_frame d tmp (f_Body f) q). destruct (Write _ _ _). auto. Qed.

Lemma copyBody_place d tmp f q : place (fst (copyBody d tmp f)) q = place d q.
Proof. unfold copyBody. pose proof (write_place d tmp (f_Body f) q). by destruct (Write _ _ _). Qed.

Lemma copyBody_ok d tmp f perm t :
  node d (place d tmp) = Some (nFile perm t "") →
  ∃ t' b', node (fst (copyBody d tmp f)) (place d tmp) = Some (nFile perm t' b') ∧
    (snd (copyBody d tmp f) = None → b' = f_Body f).
Proof.
  intros Hn. unfold copyBody. pose proof (write_ok d tmp (f_Body f) perm t Hn) as Hok.
  destruct (write_file d tmp (f_Body f) perm t _ Hn) as (t1 & b1 & Hf).
  destruct (Write _ _ _) as [d' e]. simpl in *. exists t1, b1. split; [done|].
  destruct (f_BodyErr f); [done|]. intros ->. destruct (Hok eq_refl) as [t' Ht]. congruence.
Qed.

Lemma fillTmp_spec d tmp file perm existing perm0 t0 d' e :
  node d (place d tmp) = Some (nFile perm0 t0 "") → fillTmp d tmp file perm existing = (d', e) →
  (∀ q, q ≠ place d tmp → node d' q = node d q) ∧ (∀ q, place d' q = place d q) ∧
  ∃ perm t b, node d' (place d tmp) = Some (nFile perm t b) ∧ (e = None → b = f_Body file).
Proof.
  intros Hn. unfold fillTmp. set (d1 := if existing then fst (Chmod d tmp perm) else d).
  assert (F1 : ∀ q, q ≠ place d tmp → node d1 q = node d q).
  { intros q Hq. unfold d1. destruct existing; [|done]. apply chmod_frame; [rewrite Hn; intros []|done]. }
  assert (P1 : ∀ q, place d1 q = place d q) by (intros q; unfold d1; destruct existing; [apply chmod_place|done]).
  assert (N1 : ∃ perm1, node d1 (place d1 tmp) = Some (nFile perm1 t0 "")).
  { rewrite P1. unfold d1. destruct existing; [by eapply chmod_bits|eauto]. }
  destruct N1 as [perm1 N1].
  pose proof (copyBody_frame d1 tmp file) as F2. pose proof (copyBody_place d1 tmp file) as P2.
  destruct (copyBody_ok d1 tmp file _ _ N1) as (t' & b' & N2 & O2). rewrite P1 in F2, N2.
  destruct (copyBody d1 tmp file) as [d2 e2]; simpl in *.
  assert (P12 : ∀ q, place d2 q = place d q) by (intros; by rewrite P2, P1).
  destruct e2 as [e2|]; intros [= <- <-].
  { split_and!; [intros; by rewrite F2, F1|done|by eauto 10]. }
  destruct (negb _); [|split_and!; [intros; by rewrite F2, F1|done|by eauto 10]].
  split_and!.
  - intros q Hq. rewrite chtimes_frame, F2, F1; [done..|rewrite P12, N2; intros []|by rewrite P12].
  - intros q. by rewrite chtimes_place.
  - rewrite <- (P12 tmp) in N2 |- *. destruct (chtimes_file d2 tmp (f_ModTime file) _ _ _ N2) as (t'' & -> & _). eauto 10.
Qed.

(** The file half. A landing that fails leaves the target as it was; one that
    succeeds was let through by the guard, on a disk whose target was still
    untouched, and leaves the consumer's bytes there. *)
Lemma writeUnder_spec d file g exec rand d' e :
  let rel := relPath (f_Path file) in
  let pl := place d rel in
  writeUnder d file (Some g) exec rand = (d', e) → cleanRel rel → tmpOf rel rand ≠ rel →
  elsewhere_kept pl (tmpOf pl rand) d d' ∧
  match e with
  | Some _ => node d' pl = node d pl
  | None => place d' rel = pl ∧ (∃ perm t, node d' pl = Some (nFile perm t (f_Body file))) ∧
            ∃ dg, g dg = true ∧ node dg pl = node d pl ∧ elsewhere_kept pl (tmpOf pl rand) d dg
  end.
Proof.
  cbv zeta. unfold writeUnder. set (rel := relPath (f_Path file)). fold (tmpOf rel rand).
  intros E Hc Hne. pose proof (tmpOf_apart d rel rand Hc Hne) as Hap.
  set (pl := place d rel) in *. set (tmp := tmpOf pl rand) in *.
  pose proof (MkdirAll_kept d rel tmp Hc) as K1. pose proof (MkdirAll_rel d rel Hc) as R1.
  pose proof (mkdirall_place d rel Hc) as P1. fold pl in K1, R1, P1.
  destruct (MkdirAll d (path.Dir rel)) as [d1 [e1|]]; simpl in *; [by injection E as <- <-|].
  assert (T1 : place d1 (tmpOf rel rand) = tmp) by (by rewrite place_tmpOf, P1).
  destruct (match Stat d1 rel with Ok _ => _ | Err _ => _ end) as [perm existing].
  pose proof (create_frame d1 (tmpOf rel rand) perm) as F2. pose proof (create_ok d1 (tmpOf rel rand) perm) as O2.
  pose proof (create_place d1 (tmpOf rel rand) perm) as P2. rewrite T1 in F2, O2.
  destruct (Create d1 (tmpOf rel rand) perm) as [d2 [e2|]]; simpl in *.
  { injection E as <- <-. split; [|by rewrite F2 by auto].
    eapply elsewhere_kept_trans; [exact K1|]. intros. by apply F2. }
  destruct (O2 eq_refl) as (_ & perm2 & t2 & N2). assert (T2 : place d2 (tmpOf rel rand) = tmp) by (by rewrite P2).
  rewrite <- T2 in N2 at 1.
  destruct (fillTmp d2 (tmpOf rel rand) file perm existing) as [d5 e4] eqn:E4.
  destruct (fillTmp_spec _ _ _ _ _ _ _ _ _ N2 E4) as (F4 & P4 & perm5 & t5 & b5 & N5 & O4). rewrite T2 in F4, N5.
  assert (P5 : ∀ q, place d5 q = place d1 q) by (intros; by rewrite P4, P2).
  assert (T5 : place d5 (tmpOf rel rand) = tmp) by (by rewrite P5).
  assert (K5 : elsewhere_kept pl tmp d d5).
  { eapply elsewhere_kept_trans; [exact K1|]. intros. by rewrite F4, F2. }
  assert (R5 : node d5 pl = node d pl) by (rewrite F4, F2 by auto; done).
  assert (X : elsewhere_kept pl tmp d (fst (Remove d5 (tmpOf rel rand))) ∧ node (fst (Remove d5 (tmpOf rel rand))) pl = node d pl).
  { split; [|by rewrite remove_frame by (rewrite T5; auto)].
    eapply elsewhere_kept_trans; [exact K5|]. intros. by rewrite remove_frame by (by rewrite T5). }
  destruct e4 as [e4|]; [by injection E as <- <-|]. rewrite (O4 eq_refl) in N5. destruct (g d5) eqn:Eg; [|by injection E as <- <-].
  assert (P5r : place d5 rel = pl) by (by rewrite P5).
  pose proof (rename_frame d5 (tmpOf rel rand) rel) as F6. pose proof (rename_ok d5 (tmpOf rel rand) rel) as O6.
  pose proof (rename_err d5 (tmpOf rel rand) rel) as X6. rewrite T5, P5r, N5 in F6, O6. rewrite T5, P5r in X6.
  pose proof (rename_beside d5 rel (tmpName rand) Hc (tmpName_leaf _)) as B6. fold (tmpOf rel rand) in B6.
  rewrite T5, N5, P5r in B6.
  destruct (Rename d5 (tmpOf rel rand) rel) as [d6 [e6|]]; simpl in *; injection E as <- <-.
  - destruct (X6 e6 eq_refl) as (E1 & _ & P6). assert (T6 : place d6 (tmpOf rel rand) = tmp) by (by rewrite P6).
    split; [|rewrite remove_frame by (rewrite T6; auto); by rewrite E1].
    eapply elsewhere_kept_trans; [exact K5|]. intros. rewrite remove_frame by (by rewrite T6). by rewrite F6.
  - destruct (O6 eq_refl Hap) as [E1 _]; [done|]. split; [|split; [by apply B6|split; [rewrite E1; eauto|by exists d5]]].
    eapply elsewhere_kept_trans; [exact K5|]. intros. by rewrite F6.
Qed.

End landing_lemmas.
