(* ===== verification/MemFS.v ===== *)
(** * A disk in memory: an instance of [Root] that obeys [RootLaws]

    Entries by relative path.  Links are never followed, so every path is its own
    place and one through a link finds nothing: a link to anything reads as absent
    through [Stat].  Used to evaluate the write-back pass on
    concrete shares, and to show that the laws hold together. *)

From S2P Require Import Prelude GoStrings GoTime DirTypes Decide Root.
Open Scope Z_scope.

Module MemFS.

Abbreviation t := (gmap string Node).

Definition notExist : goerror :=
  {| ge_text := "no such file or directory"; ge_errno := Some 2; ge_notExist := true; ge_clash := None;
     ge_changedHere := false |}.
Definition notEmpty : goerror :=
  {| ge_text := "directory not empty"; ge_errno := Some 39; ge_notExist := false; ge_clash := None;
     ge_changedHere := false |}.
Definition exists_ : goerror :=
  {| ge_text := "file exists"; ge_errno := Some 17; ge_notExist := false; ge_clash := None;
     ge_changedHere := false |}.

Definition infoOf (n : Node) : FileInfo :=
  match n with
  | nDir => {| fi_Size := 0; fi_ModTime := 0; fi_Mode := Z.lor ModeDir 493 |}
  | nFile perm t b => fileInfo perm t b
  | nLink t target => {| fi_Size := Z.of_nat (strlen target); fi_ModTime := t; fi_Mode := Z.lor ModeSymlink 511 |}
  end.

Definition lstat (d : t) (p : string) : res goerror FileInfo :=
  match d !! p with Some n => Ok (infoOf n) | None => Err notExist end.

Definition stat (d : t) (p : string) : res goerror FileInfo :=
  match d !! p with Some (nLink _ _) | None => Err notExist | Some n => Ok (infoOf n) end.

Definition readlink (d : t) (p : string) : res goerror string :=
  match d !! p with Some (nLink _ target) => Ok target | _ => Err notExist end.

Definition readdirnames (d : t) (p : string) : res goerror (list string) :=
  Ok (path.Base <$> filter (λ q, path.Dir q = p) (map_to_list d).*1).

(** Whether anything is under [p]. *)
Definition occupied (d : t) (p : string) : bool :=
  existsb (λ q, bool_decide (p ∈ path.ups (path.Dir q))) (map_to_list d).*1.

Definition remove (d : t) (p : string) : t * option goerror :=
  match d !! p with
  | None => (d, Some notExist)
  | Some _ => if occupied d p then (d, Some notEmpty) else (delete p d, None)
  end.

Definition mkdir1 (d : t) (p : string) : t :=
  match d !! p with None => <[p := nDir]> d | Some _ => d end.

Definition mkdirAll (d : t) (p : string) : t * option goerror :=
  if existsb (λ q, match d !! q with Some nDir | None => false | _ => true end) (path.ups p)
  then (d, Some exists_)
  else (foldl mkdir1 d (path.ups p), None).

Definition chmod (d : t) (p : string) (m : Z) : t * option goerror :=
  match d !! p with
  | Some (nFile _ t b) => (<[p := nFile m t b]> d, None)
  | Some nDir => (d, None)
  | _ => (d, Some notExist)
  end.

Definition chtimes (d : t) (p : string) (m : Time) : t * option goerror :=
  match d !! p with
  | Some (nFile perm _ b) => (<[p := nFile perm m b]> d, None)
  | Some nDir => (d, None)
  | _ => (d, Some notExist)
  end.

Definition create (d : t) (p : string) (m : Z) : t * option goerror :=
  match d !! p with
  | None => (<[p := nFile m 1 ""]> d, None)
  | Some _ => (d, Some exists_)
  end.

Definition write (d : t) (p s : string) : t * option goerror :=
  match d !! p with
  | Some (nFile perm t b) => (<[p := nFile perm t (b +:+ s)]> d, None)
  | _ => (d, Some notExist)
  end.

Definition symlink (d : t) (target p : string) : t * option goerror :=
  match d !! p with
  | None => (<[p := nLink 1 target]> d, None)
  | Some _ => (d, Some exists_)
  end.

Definition rename (d : t) (from to : string) : t * option goerror :=
  match d !! from, d !! to with
  | None, _ => (d, Some notExist)
  | _, Some nDir => (d, Some exists_)
  | Some n, _ => if bool_decide (from = to) then (d, None) else (<[to := n]> (delete from d), None)
  end.

#[export] Instance root : Root t := {|
  node d p := d !! p; place _ p := p; Lstat := lstat; Stat := stat; Readlink := readlink; Readdirnames := readdirnames;
  Remove := remove; MkdirAll := mkdirAll; Chmod := chmod; Chtimes := chtimes; Create := create;
  Write := write; Symlink := symlink; Rename := rename
|}.

Lemma foldl_mkdir1 l d q : foldl mkdir1 d l !! q ≠ d !! q → d !! q = None ∧ foldl mkdir1 d l !! q = Some nDir ∧ q ∈ l.
Proof.
  revert d. induction l as [|p l IH]; intros d; cbn [foldl]; [done|]. intros Hne.
  unfold mkdir1 in Hne |- * at 2. destruct (d !! p) eqn:E.
  { apply IH in Hne as (? & ? & ?). split_and!; [done..|by right]. }
  destruct (decide (p = q)) as [->|Hpq].
  { split_and!; [done| |left]. destruct (decide (foldl mkdir1 (<[q:=nDir]> d) l !! q = <[q:=nDir]> d !! q)) as [->|Hn].
    - apply lookup_insert_eq.
    - by apply IH in Hn as (_ & ? & _). }
  pose proof (lookup_insert_ne d p q nDir Hpq) as Hi. rewrite <- Hi in Hne.
  apply IH in Hne as (H1 & H2 & H3). rewrite Hi in H1. split_and!; [done..|by right].
Qed.

Lemma occupied_false d p q : occupied d p = false → p ∈ path.ups (path.Dir q) → d !! q = None.
Proof.
  intros Ho Hp. destruct (d !! q) eqn:E; [|done]. exfalso. apply not_true_iff_false in Ho. apply Ho.
  apply existsb_exists. exists q. split; [|by apply bool_decide_eq_true_2].
  apply list_elem_of_In, list_elem_of_fmap. exists (q, n). split; [done|]. by apply elem_of_map_to_list.
Qed.

Local Ltac mem :=
  intros; unfold lstat, stat, remove, chmod, chtimes, create, write, symlink, rename in *;
  repeat case_match; bool_to_prop; simplify_map_eq; eauto; try (split; by eauto).

#[export] Instance root_laws : RootLaws t.
Proof.
  split; cbn [node place Lstat Stat Remove MkdirAll Chmod Chtimes Create Write Symlink Rename root].
  all: try (by mem).
  - intros d p i. unfold lstat. destruct (d !! p) as [[]|]; intros [= <-]; simpl; try done.
    by rewrite fileInfo_not_dir.
  - intros d p q Hr Hd Ha. unfold remove in Hr. rewrite Hd in Hr. destruct (occupied d p) eqn:E; [done|].
    by eapply occupied_false.
  - intros d p q. unfold mkdirAll. destruct (existsb _ _); [done|]. apply foldl_mkdir1.
  - intros d p q _. unfold mkdirAll. destruct (existsb _ _); [done|]. cbn [fst]. intros Hne. by apply foldl_mkdir1 in Hne as (_ & _ & ?).
  - intros d p m q perm t b Hq. destruct (decide (p = q)) as [->|]; mem.
  - intros d p m q Hq. destruct (decide (p = q)) as [->|]; mem. by edestruct Hq.
Qed.

End MemFS.
