(* ===== verification/WritePass.v ===== *)
(** * One write-back pass over a share (dircache/writepass.go)

    What [decide] and [decideLinks] decided, carried out path by path.  The pass
    is a record threaded through the handlers; the disk is any [Root].  What the
    code only logs is left out, and what it remembers about having said it
    ([conflictNew], [skip]) is kept.  The store's answer to a pull is an
    argument ([PullAnswer]): the files it hands over in order, the error it ends
    with, and whether the pass had been cancelled by then. *)

From S2P Require Import Prelude GoStrings GoTime Records DirTypes Decide Replace WbState Shares Root.
Open Scope Z_scope.

(** writeback.go: the bounds on a pass. *)
Definition pullChunk : nat := 200.
Definition writeBackRoundFiles : nat := 2000.

(** ** What the pass asks the disk *)

Section questions.
Context {D : Type} `{Root D}.
Context (ChangeTime : option (D → string → option Time)).

(** writeback.go: [localAtRoot], [linkAtRoot], [ctimeAtRoot]. *)
Definition localAtRoot (d : D) : localAt := λ p,
  match Stat d (relPath p) with Ok info => Some info | Err _ => None end.

Definition linkAtRoot (d : D) : linkAt := λ p,
  let rel := relPath p in
  match Lstat d rel with
  | Err _ => zeroLinkState
  | Ok info =>
      if IsSymlink info
      then {| l_Exists := true; l_IsLink := true;
              l_Target := match Readlink d rel with Ok t => t | Err _ => "" end; l_ModTime := fi_ModTime info |}
      else {| l_Exists := true; l_IsLink := false; l_Target := ""; l_ModTime := fi_ModTime info |}
  end.

Definition ctimeAtRoot (d : D) : ctimeAt :=
  match ChangeTime with
  | None => None
  | Some f => Some (λ p, f d (relPath p))
  end.

(** [stillAsSeen]. *)
Definition stillAsSeen (d : D) (a : action) : bool :=
  if bool_decide (a_kind a = kindLink) then link_same (a_LinkSeen a) (linkAtRoot d (a_Path a))
  else
    let rel := relPath (a_Path a) in
    if negb (s_Here (a_Seen a)) then match Lstat d rel with Err _ => true | Ok _ => false end
    else
      let now := seenOf (localAtRoot d (a_Path a)) in
      let now' := match ChangeTime with
                  | Some f =>
                      if negb (IsZero (s_Ctime (a_Seen a))) && s_Here now
                      then {| s_Here := s_Here now; s_Size := s_Size now; s_Mod := s_Mod now;
                              s_Ctime := default zeroTime (f d rel) |}
                      else now
                  | None => now
                  end in
      seen_same (a_Seen a) now'.

(** [emptyDir]. *)
Definition emptyDir (d : D) (rel : string) : bool :=
  match Readdirnames d rel with Ok [] => true | _ => false end.

End questions.

(** ** Names that differ only in case *)

(** [caseNames.dirs]. *)
Abbreviation caseNames := (gmap string (gset string)).

Module names.
Section names.
Context {D : Type} `{Root D}.

(** [strings.EqualFold]: Unicode simple folding. *)
Context (EqualFold : string → string → bool).

(** [caseNames.clash]: the listing it may add, and the clash. *)
Definition clash (d : D) (n : caseNames) (rel : string) : caseNames * option goerror :=
  match Lstat d rel with
  | Err _ => (n, None)
  | Ok _ =>
      let dir := path.Dir rel in
      let base := path.Base rel in
      let listed := match n !! dir with
                    | Some ns => Some (n, ns)
                    | None => match Readdirnames d dir with
                              | Err _ => None
                              | Ok l => Some (<[dir := list_to_set l]> n, list_to_set l)
                              end
                    end in
      match listed with
      | None => (n, None)
      | Some (n', ns) =>
          if bool_decide (base ∈ ns) then (n', None)
          else (n', match filter (λ name, EqualFold name base = true) (elements ns) with
                    | name :: _ => Some (caseClashError rel name)
                    | [] => None
                    end)
      end
  end.
End names.

(** [caseNames.wrote]. The loop visits every directory from the file's up, with
    its parent. *)
Definition forget_unlisted (n : caseNames) (dir : string) : caseNames :=
  match n !! path.Dir dir with
  | Some ns => if bool_decide (path.Base dir ∈ ns) then n else delete (path.Dir dir) n
  | None => n
  end.

Definition wrote (n : caseNames) (rel : string) (landed : bool) : caseNames :=
  let dir := path.Dir rel in
  let n1 := match n !! dir with
            | Some ns => if landed then <[dir := {[path.Base rel]} ∪ ns]> n else n
            | None => n
            end in
  foldl forget_unlisted n1 (path.ups dir).

(** [caseNames.removed]. *)
Definition removed (n : caseNames) (rel : string) : caseNames :=
  let n1 := delete rel n in
  let dir := path.Dir rel in
  match n1 !! dir with
  | None => n1
  | Some ns => if bool_decide (path.Base rel ∈ ns) then <[dir := ns ∖ {[path.Base rel]}]> n1
               else delete dir n1
  end.
End names.

(** ** The pass *)

(** [writePass], its state. *)
Record writePass (D : Type) := {
  p_disk : D;
  p_names : caseNames;
  p_shares : shares;
  p_landed : Z;
  p_soft : Z;
  p_softFirst : string;
  p_softErr : option goerror;
  p_aborted : bool;
  p_fetchErr : option goerror;
  p_fetchFirst : string;
  p_chunkFails : Z;
  p_tried : gset string;
  p_wrote : gset string;
  p_rand : nat
}.
Arguments p_disk {D}. Arguments p_names {D}. Arguments p_shares {D}. Arguments p_landed {D}.
Arguments p_soft {D}. Arguments p_softFirst {D}. Arguments p_softErr {D}. Arguments p_aborted {D}.
Arguments p_fetchErr {D}. Arguments p_fetchFirst {D}. Arguments p_chunkFails {D}.
Arguments p_tried {D}. Arguments p_wrote {D}. Arguments p_rand {D}.

Section updates.
Context {D : Type}.

Definition newPass (d : D) (n : caseNames) (f : shares) (rand : nat) : writePass D :=
  {| p_disk := d; p_names := n; p_shares := f; p_landed := 0; p_soft := 0; p_softFirst := "";
     p_softErr := None; p_aborted := false; p_fetchErr := None; p_fetchFirst := ""; p_chunkFails := 0;
     p_tried := ∅; p_wrote := ∅; p_rand := rand |}.

Definition with_disk (d : D) (p : writePass D) : writePass D :=
  {| p_disk := d; p_names := p_names p; p_shares := p_shares p; p_landed := p_landed p; p_soft := p_soft p;
     p_softFirst := p_softFirst p; p_softErr := p_softErr p; p_aborted := p_aborted p;
     p_fetchErr := p_fetchErr p; p_fetchFirst := p_fetchFirst p; p_chunkFails := p_chunkFails p;
     p_tried := p_tried p; p_wrote := p_wrote p; p_rand := p_rand p |}.

Definition with_names (n : caseNames) (p : writePass D) : writePass D :=
  {| p_disk := p_disk p; p_names := n; p_shares := p_shares p; p_landed := p_landed p; p_soft := p_soft p;
     p_softFirst := p_softFirst p; p_softErr := p_softErr p; p_aborted := p_aborted p;
     p_fetchErr := p_fetchErr p; p_fetchFirst := p_fetchFirst p; p_chunkFails := p_chunkFails p;
     p_tried := p_tried p; p_wrote := p_wrote p; p_rand := p_rand p |}.

Definition with_shares (g : shares → shares) (p : writePass D) : writePass D :=
  {| p_disk := p_disk p; p_names := p_names p; p_shares := g (p_shares p); p_landed := p_landed p;
     p_soft := p_soft p; p_softFirst := p_softFirst p; p_softErr := p_softErr p; p_aborted := p_aborted p;
     p_fetchErr := p_fetchErr p; p_fetchFirst := p_fetchFirst p; p_chunkFails := p_chunkFails p;
     p_tried := p_tried p; p_wrote := p_wrote p; p_rand := p_rand p |}.

Definition add_landed (n : Z) (p : writePass D) : writePass D :=
  {| p_disk := p_disk p; p_names := p_names p; p_shares := p_shares p; p_landed := p_landed p + n;
     p_soft := p_soft p; p_softFirst := p_softFirst p; p_softErr := p_softErr p; p_aborted := p_aborted p;
     p_fetchErr := p_fetchErr p; p_fetchFirst := p_fetchFirst p; p_chunkFails := p_chunkFails p;
     p_tried := p_tried p; p_wrote := p_wrote p; p_rand := p_rand p |}.

(** [p.soft++] and the first failure. *)
Definition add_soft (path : string) (err : goerror) (p : writePass D) : writePass D :=
  {| p_disk := p_disk p; p_names := p_names p; p_shares := p_shares p; p_landed := p_landed p;
     p_soft := p_soft p + 1;
     p_softFirst := match p_softErr p with None => path | Some _ => p_softFirst p end;
     p_softErr := match p_softErr p with None => Some err | Some e => Some e end;
     p_aborted := p_aborted p;
     p_fetchErr := p_fetchErr p; p_fetchFirst := p_fetchFirst p; p_chunkFails := p_chunkFails p;
     p_tried := p_tried p; p_wrote := p_wrote p; p_rand := p_rand p |}.

(** The next random number is drawn. *)
Definition drawn (p : writePass D) : writePass D :=
  {| p_disk := p_disk p; p_names := p_names p; p_shares := p_shares p; p_landed := p_landed p;
     p_soft := p_soft p; p_softFirst := p_softFirst p; p_softErr := p_softErr p; p_aborted := p_aborted p;
     p_fetchErr := p_fetchErr p; p_fetchFirst := p_fetchFirst p; p_chunkFails := p_chunkFails p;
     p_tried := p_tried p; p_wrote := p_wrote p; p_rand := S (p_rand p) |}.

Definition with_tried (tried : gset string) (p : writePass D) : writePass D :=
  {| p_disk := p_disk p; p_names := p_names p; p_shares := p_shares p; p_landed := p_landed p;
     p_soft := p_soft p; p_softFirst := p_softFirst p; p_softErr := p_softErr p; p_aborted := p_aborted p;
     p_fetchErr := p_fetchErr p; p_fetchFirst := p_fetchFirst p; p_chunkFails := p_chunkFails p;
     p_tried := tried; p_wrote := ∅; p_rand := p_rand p |}.

Definition add_wrote (paths : list string) (p : writePass D) : writePass D :=
  {| p_disk := p_disk p; p_names := p_names p; p_shares := p_shares p; p_landed := p_landed p;
     p_soft := p_soft p; p_softFirst := p_softFirst p; p_softErr := p_softErr p; p_aborted := p_aborted p;
     p_fetchErr := p_fetchErr p; p_fetchFirst := p_fetchFirst p; p_chunkFails := p_chunkFails p;
     p_tried := p_tried p; p_wrote := list_to_set paths ∪ p_wrote p; p_rand := p_rand p |}.

Definition set_aborted (p : writePass D) : writePass D :=
  {| p_disk := p_disk p; p_names := p_names p; p_shares := p_shares p; p_landed := p_landed p;
     p_soft := p_soft p; p_softFirst := p_softFirst p; p_softErr := p_softErr p; p_aborted := true;
     p_fetchErr := p_fetchErr p; p_fetchFirst := p_fetchFirst p; p_chunkFails := p_chunkFails p;
     p_tried := p_tried p; p_wrote := p_wrote p; p_rand := p_rand p |}.

(** A chunk the store could not serve: [left] of its files are lost for this
    pass. *)
Definition chunk_failed (err : goerror) (first : string) (left : Z) (p : writePass D) : writePass D :=
  {| p_disk := p_disk p; p_names := p_names p; p_shares := p_shares p; p_landed := p_landed p;
     p_soft := p_soft p + left; p_softFirst := p_softFirst p; p_softErr := p_softErr p; p_aborted := p_aborted p;
     p_fetchErr := match p_fetchErr p with None => Some err | Some e => Some e end;
     p_fetchFirst := match p_fetchErr p with None => first | Some _ => p_fetchFirst p end;
     p_chunkFails := p_chunkFails p + 1;
     p_tried := p_tried p; p_wrote := p_wrote p; p_rand := p_rand p |}.

Definition chunk_ok (p : writePass D) : writePass D :=
  {| p_disk := p_disk p; p_names := p_names p; p_shares := p_shares p; p_landed := p_landed p;
     p_soft := p_soft p; p_softFirst := p_softFirst p; p_softErr := p_softErr p; p_aborted := p_aborted p;
     p_fetchErr := p_fetchErr p; p_fetchFirst := p_fetchFirst p; p_chunkFails := 0;
     p_tried := p_tried p; p_wrote := p_wrote p; p_rand := p_rand p |}.

End updates.

(** The zero [action], which a missing key of the actions map reads as. *)
Definition zeroAction : action := actOf "" kindWrite.

(** writeback.go, [writeBackShare]: the two maps of a pass. *)
Definition actionsByPath (actions : list action) : gmap string action :=
  foldl (λ m a, <[a_Path a := a]> m) ∅ actions.
Definition changesByPath (changes : list Change) : gmap string Change :=
  foldl (λ m ch, <[ch_Path ch := ch]> m) ∅ changes.

(** What a pull answers. *)
Record PullAnswer := {
  pa_files : list File;
  pa_err : option goerror;
  pa_cancelled : bool
}.

(** [slices.Chunk]. *)
Fixpoint chunks_fuel {A} (fuel n : nat) (l : list A) : list (list A) :=
  match fuel, l with
  | S fuel', _ :: _ => take n l :: chunks_fuel fuel' n (drop n l)
  | _, _ => []
  end.
Definition Chunk {A} (n : nat) (l : list A) : list (list A) := chunks_fuel (length l) n l.

(** writeback.go: [passResult]. *)
Record passResult := {
  pr_more : bool;
  pr_landed : Z;
  pr_pending : Z;
  pr_first : string
}.

Definition noResult : passResult := {| pr_more := false; pr_landed := 0; pr_pending := 0; pr_first := "" |}.


Section pass.
Context {D : Type} `{Root D} `{Platform}.
Context (ChangeTime : option (D → string → option Time)).
Context (EqualFold : string → string → bool).

(** The random numbers the temporaries are named after. *)
Context (rand : nat → Z).

(** The clock when the pass reports. *)
Context (now : Time).
Context (share : string) (change : gmap string Change) (actionOf : gmap string action).

Abbreviation pass := (writePass D).

Definition changeAt (p : string) : Change := default wb.zeroChange (change !! p).
Definition actionAt (p : string) : action := default zeroAction (actionOf !! p).

(** cache.go: [sayOnce]; writeback.go: [skipped], [stall] and [recovered]. *)
Definition sayOnce (path why : string) (f : shares) : shares :=
  set_wb (λ w, fst (wb.conflictNew share path why w)) f.
Definition skipped (ch : Change) (sk : Skipped) (f : shares) : shares :=
  set_wb (λ w, fst (wb.skip_ share ch sk w)) f.
Definition stall (what : string) (err : goerror) (first : string) (pending : Z) (progress : bool) (f : shares) : shares :=
  set_wb (λ w, fst (wb.fail share now (what +:+ ": " +:+ ge_text err) first pending progress w)) f.
Definition recovered (f : shares) : shares := set_wb (λ w, fst (wb.ok share w)) f.

(** [changedHere]. *)
Definition changedHere (path : string) (p : pass) : pass :=
  with_shares (sayOnce path "changed here while write-back was running") p.

(** [failed]. *)
Definition failed (path : string) (err : goerror) (p : pass) : pass :=
  if negb (bool_decide (classifyWrite (Some err) = faultName)) then add_soft path err p
  else
    let kind := if negb (bool_decide (ch_Link (changeAt path) = "")) then SkipLink
                else match ge_clash err with Some _ => SkipClash | None => SkipName end in
    with_shares (skipped (changeAt path) {| sk_Path := ""; sk_Why := ge_text err; sk_Kind := kind |}) p.

(** [commit], the baselines read from the disk as it is now. *)
Definition commitPass (acts : list action) (added removed : list string) (p : pass) : pass :=
  with_shares (commit (localAtRoot (p_disk p))
                      (λ q, match Lstat (p_disk p) (relPath q) with Ok i => Some (fi_ModTime i) | Err _ => None end)
                      share acts added removed) p.

(** [settled]. *)
Definition settled (path : string) (p : pass) : pass :=
  add_landed 1 (with_shares (set_wb (wb.landed share [path])) p).

(** [removeDir]. *)
Definition removeDir (a : action) (p : pass) : pass :=
  let rel := relPath (a_Path a) in
  match Lstat (p_disk p) rel with
  | Err e => if ge_notExist e then settled (a_Path a) p else failed (a_Path a) e p
  | Ok info =>
      if negb (IsDir info) then changedHere (a_Path a) p
      else
        let '(d, err) := Remove (p_disk p) rel in
        let p1 := with_disk d p in
        match err with
        | Some e => if negb (emptyDir d rel)
                    then with_shares (sayOnce (a_Path a) "a directory the container removed still holds files here") p1
                    else failed (a_Path a) e p1
        | None => settled (a_Path a) (with_names (names.removed (p_names p1) rel) p1)
        end
  end.

(** [remove]. *)
Definition remove (path : string) (p : pass) : pass :=
  let a := actionAt path in
  if a_Dir a then removeDir a p
  else if negb (stillAsSeen ChangeTime (p_disk p) a) then changedHere path p
  else
    let rel := relPath path in
    let '(d, err) := Remove (p_disk p) rel in
    let p1 := with_disk d p in
    match err with
    | None => add_landed 1 (commitPass [a] [] [path] (with_names (names.removed (p_names p1) rel) p1))
    | Some e => if ge_notExist e then add_landed 1 (commitPass [a] [] [path] p1) else failed path e p1
    end.

(** [mkdir]. *)
Definition mkdir (a : action) (p : pass) : pass :=
  if negb (stillAsSeen ChangeTime (p_disk p) a) then changedHere (a_Path a) p
  else
    let rel := relPath (a_Path a) in
    let '(d, err) := MkdirAll (p_disk p) rel in
    let p1 := with_names (names.wrote (p_names p) rel (match err with None => true | Some _ => false end)) (with_disk d p) in
    match err with
    | Some e => failed (a_Path a) e p1
    | None => settled (a_Path a) p1
    end.

(** [chmod]. *)
Definition chmod (a : action) (p : pass) : pass :=
  if negb (stillAsSeen ChangeTime (p_disk p) a) then changedHere (a_Path a) p
  else
    let rel := relPath (a_Path a) in
    let '(d, err) := match Stat (p_disk p) rel with
                     | Ok info => Chmod (p_disk p) rel (withExec (Perm (fi_Mode info)) (a_Exec a))
                     | Err e => (p_disk p, Some e)
                     end in
    let p1 := with_disk d p in
    match err with
    | Some e => failed (a_Path a) e p1
    | None =>
        match Stat d rel with
        | Ok info =>
            if negb (Bool.eqb (negb (Z.land (fi_Mode info) permExec =? 0)) (0 <? a_Exec a))
            then with_shares (skipped (changeAt (a_Path a))
                   {| sk_Path := ""; sk_Why := "this filesystem does not keep an execute bit"; sk_Kind := SkipName |}) p1
            else settled (a_Path a) p1
        | Err _ => settled (a_Path a) p1
        end
    end.

(** [adopt]. *)
Definition adopt (acts : list action) (p : pass) : pass :=
  let still := filter (λ a, stillAsSeen ChangeTime (p_disk p) a = true) acts in
  match still with
  | [] => p
  | _ => commitPass still (a_Path <$> still) [] p
  end.

(** [link]. *)
Definition link (a : action) (p : pass) : pass :=
  if negb (stillAsSeen ChangeTime (p_disk p) a) then changedHere (a_Path a) p
  else
    let rel := relPath (a_Path a) in
    let '(d, err) := landLink (p_disk p) rel (a_Link a) (rand (p_rand p)) in
    let p1 := with_names (names.wrote (p_names p) rel (match err with None => true | Some _ => false end))
                         (drawn (with_disk d p)) in
    match err with
    | Some e => failed (a_Path a) e p1
    | None => add_landed 1 (commitPass [a] [a_Path a] [] p1)
    end.

(** [land]. *)
Definition land (f : File) (guard : D → bool) (p : pass) : pass * option goerror :=
  let rel := relPath (f_Path f) in
  let '(n, clashed) := names.clash EqualFold (p_disk p) (p_names p) rel in
  match clashed with
  | Some e => (with_names n p, Some e)
  | None =>
      let '(d, err) := writeUnder (p_disk p) f (Some guard) (a_Exec (actionAt (f_Path f))) (rand (p_rand p)) in
      (with_names (names.wrote n rel (match err with None => true | Some _ => false end)) (drawn (with_disk d p)), err)
  end.

(** The callback of [pull] for one file: the pass after it, and either to go on
    with the paths written so far, or to abort on a full disk. *)
Record pulling := {
  pu_pass : pass;
  pu_wrote : list string;
  pu_abort : option (goerror * string)
}.

Definition pullOne (s : pulling) (f : File) : pulling :=
  match pu_abort s with
  | Some _ => s
  | None =>
      let p := pu_pass s in
      if negb (bool_decide (f_Unreadable f = "")) then
        {| pu_pass := match change !! f_Path f with
                      | Some ch => with_shares (skipped ch {| sk_Path := ""; sk_Why := f_Unreadable f; sk_Kind := SkipName |}) p
                      | None => p
                      end;
           pu_wrote := pu_wrote s; pu_abort := None |}
      else
        let '(p1, werr) := land f (λ d, stillAsSeen ChangeTime d (actionAt (f_Path f))) p in
        match werr with
        | None => {| pu_pass := p1; pu_wrote := pu_wrote s ++ [f_Path f]; pu_abort := None |}
        | Some e =>
            if ge_changedHere e then {| pu_pass := changedHere (f_Path f) p1; pu_wrote := pu_wrote s; pu_abort := None |}
            else if bool_decide (classifyWrite (Some e) = faultSpace)
            then {| pu_pass := p1; pu_wrote := pu_wrote s; pu_abort := Some (e, f_Path f) |}
            else {| pu_pass := failed (f_Path f) e p1; pu_wrote := pu_wrote s; pu_abort := None |}
        end
  end.

(** [pull]: whether the pass can go on. *)
Definition pull (answer : PullAnswer) (chunk : list string) (p : pass) : pass * bool :=
  let s := foldl pullOne {| pu_pass := p; pu_wrote := []; pu_abort := None |} (pa_files answer) in
  let wrote := pu_wrote s in
  let p1 := add_wrote wrote (add_landed (Z.of_nat (length wrote))
              (commitPass (actionAt <$> wrote) wrote [] (pu_pass s))) in
  let left := Z.of_nat (length chunk) - Z.of_nat (length wrote) in
  match pu_abort s with
  | Some (e, first) =>
      (with_shares (stall "writing back what a container wrote" e first left false) (set_aborted p1), false)
  | None =>
      match pa_err answer with
      | Some e =>
          let p2 := chunk_failed e (default "" (head chunk)) left p1 in
          (p2, (p_chunkFails p2 <? 3) && negb (pa_cancelled answer))
      | None => (chunk_ok p1, true)
      end
  end.

(** The loop over the chunks, until one says stop. *)
Fixpoint pullAll (Pull : list string → PullAnswer) (chunks : list (list string)) (p : pass) : pass :=
  match chunks with
  | [] => p
  | c :: rest =>
      let '(p', more) := pull (Pull c) c p in
      if more then pullAll Pull rest p' else p'
  end.

(** The links, directories and modes, in the order they were decided. *)
Definition landOne (p : pass) (a : action) : pass :=
  match a_kind a with
  | kindLink => link a p
  | kindMkdir => mkdir a p
  | kindChmod => chmod a p
  | _ => p
  end.

(** [run]. *)
Definition run (Pull : list string → PullAnswer) (actions : list action) (p : pass) : pass * passResult :=
  let p1 := foldl (λ p path, remove path p) p (deletes actions) in
  let p2 := foldl landOne p1 actions in
  let p3 := adopt (ofKind actions kindAdopt) p2 in
  let all := wb.ranked share (writes actions) (sh_wb (p_shares p3)) in
  let more := (writeBackRoundFiles <? length all)%nat in
  let paths := take writeBackRoundFiles all in
  let p4 := pullAll Pull (Chunk pullChunk paths) (with_tried (list_to_set paths) p3) in
  let tried := set_wb (wb.try_ share (p_tried p4) (p_wrote p4)) in
  let result (more : bool) : passResult :=
    {| pr_more := more; pr_landed := p_landed p4;
       pr_pending := Z.max (Z.of_nat (moving actions) - p_landed p4) 0;
       pr_first := if bool_decide (p_softFirst p4 = "") then p_fetchFirst p4 else p_softFirst p4 |} in
  let progress := 0 <? p_landed p4 in
  if p_aborted p4 then (with_shares tried p4, result false)
  else match p_fetchErr p4 with
  | Some e =>
      (with_shares tried (with_shares
         (stall "fetching what a container wrote" e (p_fetchFirst p4) (p_soft p4) progress) p4), result false)
  | None =>
      if 0 <? p_soft p4 then
        (with_shares tried (with_shares
           (stall ("writing back " +:+ Itoa (p_soft p4) +:+ " file(s) that could not be written yet")
                  (default (errText "") (p_softErr p4)) (p_softFirst p4) (p_soft p4) progress) p4), result false)
      else (with_shares tried (with_shares recovered p4), result (more && progress))
  end.

End pass.
