(* ===== verification/WritePassProofs.v ===== *)
(** * Properties of the write-back pass (dircache/writepass.go) *)

From S2P Require Import Prelude GoStrings GoTime DirTypes Decide Replace WbState Shares Root MemFS WritePass.
Open Scope Z_scope.

(** ** What a step may change on the disk *)

(** The same entry but for a file's permission bits. *)
Definition sameBytes (n n' : option Node) : Prop :=
  n = n' ∨ ∃ perm perm' t b, n = Some (nFile perm t b) ∧ n' = Some (nFile perm' t b).

Lemma sameBytes_refl n : sameBytes n n.
Proof. by left. Qed.

Lemma sameBytes_trans n1 n2 n3 : sameBytes n1 n2 → sameBytes n2 n3 → sameBytes n1 n3.
Proof. intros [->|(p&p'&t&b&->&->)] [<-|(q&q'&t'&b'&[=]&->)]; try by left + (right; eauto 10). right. subst. eauto 10. Qed.

Lemma sameBytes_None n : sameBytes n None → n = None.
Proof. intros [->|(?&?&?&?&?&?)]; done. Qed.

#[export] Hint Resolve sameBytes_refl : rd.

Section pass_proofs.
Context {D : Type} `{RootLaws D} `{Platform}.
Context (ChangeTime : option (D → string → option Time)) (EqualFold : string → string → bool).
Context (rand : nat → Z) (now : Time) (share : string) (change : gmap string Change).

(** A name one of the pass's temporaries may have. *)
Definition isTmp (q : string) : Prop := ∃ rel n, q = tmpOf rel (rand n).

(** The disk [d'] differs from [d] only at the places in [rels], in permission
    bits, in temporaries, and in directories made above one of [rels] where nothing
    was. *)
Definition confined (rels : string → Prop) (d d' : D) : Prop :=
  ∀ q, ¬ isTmp q → ¬ rels q →
    sameBytes (node d q) (node d' q) ∨
    (node d q = None ∧ node d' q = Some nDir ∧ ∃ rel, rels rel ∧ above q rel).

Lemma confined_refl rels d : confined rels d d.
Proof. intros q _ _. left. apply sameBytes_refl. Qed.

Lemma sameBytes_dir n : sameBytes (Some nDir) n → n = Some nDir.
Proof. intros [<-|(?&?&?&?&?&?)]; done. Qed.

Lemma confined_trans rels d1 d2 d3 : confined rels d1 d2 → confined rels d2 d3 → confined rels d1 d3.
Proof.
  intros H12 H23 q Ht Hr. destruct (H12 q Ht Hr) as [S1|(N1 & E1 & A1)], (H23 q Ht Hr) as [S2|(N2 & E2 & A2)].
  - left. by eapply sameBytes_trans.
  - right. split_and!; [|done..]. rewrite N2 in S1. by apply sameBytes_None in S1.
  - right. split_and!; [done| |done]. rewrite E1 in S2. by apply sameBytes_dir in S2.
  - congruence.
Qed.

Lemma confined_mono (r1 r2 : string → Prop) d d' : (∀ q, r1 q → r2 q) → confined r1 d d' → confined r2 d d'.
Proof.
  intros Hm Hc q Ht Hr. destruct (Hc q Ht) as [Hs|(Hn & Hd & rel & Hr' & Ha)].
  - intros Hr1. apply Hr. by apply Hm.
  - by left.
  - right. split_and!; [done..|]. exists rel. split; [by apply Hm|done].
Qed.

Lemma elsewhere_confined pl n d d' :
  elsewhere_kept pl (tmpOf pl (rand n)) d d' → confined (eq pl) d d'.
Proof.
  intros He q Ht Hr. destruct (He q) as [E|(? & ? & ?)]; [naive_solver|intros ->; apply Ht; by eexists _, _|..].
  - left. rewrite E. apply sameBytes_refl.
  - right. eauto.
Qed.

(** Only the place of [rel] changes, and no link is put there. *)
Definition touchesAt (rel : string) (d d' : D) : Prop :=
  confined (eq (place d rel)) d d' ∧ (isLink (node d' (place d rel)) → isLink (node d (place d rel))).

Lemma touchesAt_refl rel d : touchesAt rel d d.
Proof. split; [apply confined_refl|done]. Qed.

Lemma Remove_touches d rel : touchesAt rel d (fst (Remove d rel)).
Proof.
  split.
  - intros q _ Hr. left. rewrite remove_frame by auto. apply sameBytes_refl.
  - destruct (snd (Remove d rel)) as [e|] eqn:E; [by rewrite (remove_err _ _ _ E)|by rewrite (remove_ok _ _ E)].
Qed.

Lemma Chmod_same d rel m q : sameBytes (node d q) (node (fst (Chmod d rel m)) q).
Proof.
  destruct (node d q) as [[|perm t b|t target]|] eqn:E.
  2: { destruct (chmod_bits d rel m q _ _ _ E) as [perm' ->]. right. eauto 10. }
  all: rewrite chmod_other by congruence; by left.
Qed.

Lemma sameBytes_link n n' : sameBytes n n' → isLink n' → isLink n.
Proof. by intros [->|(?&?&?&?&->&->)]. Qed.

Lemma Chmod_touches d rel m : touchesAt rel d (fst (Chmod d rel m)).
Proof. split; [intros q _ _; left; apply Chmod_same|apply sameBytes_link, Chmod_same]. Qed.

Lemma MkdirAll_touches d rel : touchesAt rel d (fst (MkdirAll d rel)).
Proof.
  split.
  - intros q _ Hr. destruct (decide (node (fst (MkdirAll d rel)) q = node d q)) as [E|Hne].
    { left. rewrite E. apply sameBytes_refl. }
    right. apply mkdirall_frame in Hne as (Hn & Hd & Hu). split_and!; [done..|]. exists (place d rel). split; [done|].
    destruct (decide (place d rel = "/" ∨ place d rel = "."))%string as [Hs|Hs].
    + rewrite ups_stop in Hu by done. by apply elem_of_nil in Hu.
    + rewrite ups_step in Hu by naive_solver. apply elem_of_cons in Hu as [->|?]; done.
  - destruct (decide (node (fst (MkdirAll d rel)) (place d rel) = node d (place d rel))) as [->|Hne]; [done|].
    by apply mkdirall_frame in Hne as (_ & -> & _).
Qed.

(** No link is on the way to any of the paths [T]. *)
Definition roads (T : string → Prop) (d : D) : Prop := ∀ r, T r → straight d r.

(** None of the paths [T] lies under a temporary. *)
Definition offTmp (T : string → Prop) : Prop := ∀ r u, T r → above u r → ¬ isTmp u.

Lemma confined_roads T pl d d' :
  offTmp T → confined (eq pl) d d' → (∀ r, T r → above pl r → isLink (node d' pl) → isLink (node d pl)) →
  roads T d → roads T d'.
Proof.
  intros Ho Hc Hp Hr r Ht u Hu Hl. apply (Hr r Ht u Hu). destruct (decide (u = pl)) as [->|Hne]; [by apply (Hp r)|].
  destruct (Hc u) as [Hs|(_ & E & _)]; [by apply (Ho r)|intros E; by apply Hne|by eapply sameBytes_link|by rewrite E in Hl].
Qed.

Lemma touchesAt_roads T rel d d' : offTmp T → touchesAt rel d d' → roads T d → roads T d'.
Proof. intros Ho [Hc Hl]. apply (confined_roads T (place d rel)); auto. Qed.

Section handlers.
Context (actionOf : gmap string action).

Abbreviation pass := (writePass D).

(** *** The bookkeeping leaves the disk alone *)

Lemma failed_disk path e (p : pass) : p_disk (failed share change path e p) = p_disk p.
Proof. unfold failed. by destruct (negb _). Qed.

Hint Rewrite failed_disk : disk.

(** *** Each handler is confined to its own path, and guarded *)

(** [removeDir] only ever takes an empty directory. *)
Lemma removeDir_touches a (p : pass) :
  touchesAt (relPath (a_Path a)) (p_disk p) (p_disk (removeDir share change a p)).
Proof.
  unfold removeDir. pose proof (Remove_touches (p_disk p) (relPath (a_Path a))) as Hc.
  destruct (Remove _ _) as [d e]. split_goal; rewrite ?failed_disk; simpl; try done; apply touchesAt_refl.
Qed.

Lemma remove_touches path (p : pass) :
  a_Path (actionAt actionOf path) = path →
  touchesAt (relPath path) (p_disk p) (p_disk (remove ChangeTime share change actionOf path p)).
Proof.
  intros Hp. unfold remove. destruct (a_Dir _).
  { rewrite <- Hp at 1. apply removeDir_touches. }
  pose proof (Remove_touches (p_disk p) (relPath path)) as Hc. destruct (Remove _ _) as [d e].
  split_goal; rewrite ?failed_disk; simpl; try done; apply touchesAt_refl.
Qed.

Lemma mkdir_touches a (p : pass) :
  touchesAt (relPath (a_Path a)) (p_disk p) (p_disk (mkdir ChangeTime share change a p)).
Proof.
  unfold mkdir. pose proof (MkdirAll_touches (p_disk p) (relPath (a_Path a))) as Hc.
  destruct (MkdirAll _ _) as [d e]. split_goal; rewrite ?failed_disk; simpl; try done; apply touchesAt_refl.
Qed.

Lemma chmod_touches a (p : pass) :
  touchesAt (relPath (a_Path a)) (p_disk p) (p_disk (chmod ChangeTime share change a p)).
Proof.
  unfold chmod. destruct (negb (stillAsSeen _ _ _)); [apply touchesAt_refl|].
  destruct (Stat (p_disk p) _) as [i|e]; simpl; [|rewrite failed_disk; apply touchesAt_refl].
  pose proof (Chmod_touches (p_disk p) (relPath (a_Path a)) (withExec (Perm (fi_Mode i)) (a_Exec a))) as Hc.
  destruct (Chmod _ _ _) as [d e]. split_goal; rewrite ?failed_disk; simpl; done.
Qed.

(** A path as the share writes one, that is none of its own temporaries. *)
Definition plainName (path : string) : Prop :=
  cleanRel (relPath path) ∧ ∀ n, tmpOf (relPath path) (rand n) ≠ relPath path.

Lemma link_confined a (p : pass) :
  plainName (a_Path a) →
  confined (eq (place (p_disk p) (relPath (a_Path a)))) (p_disk p) (p_disk (link ChangeTime rand share change a p)).
Proof.
  intros [Hcl Hpl]. unfold link. destruct (negb (stillAsSeen _ _ _)); [apply confined_refl|].
  destruct (landLink _ _ _ _) as [d e] eqn:E.
  destruct (landLink_spec _ _ _ _ _ _ E Hcl (Hpl _)) as [Hk _]. apply elsewhere_confined in Hk.
  destruct e; rewrite ?failed_disk; done.
Qed.

Lemma land_touches f g (p : pass) :
  plainName (f_Path f) →
  touchesAt (relPath (f_Path f)) (p_disk p) (p_disk (fst (land EqualFold rand actionOf f g p))).
Proof.
  intros [Hcl Hpl]. unfold land. destruct (names.clash _ _ _ _) as [n [e|]]; [apply touchesAt_refl|].
  destruct (writeUnder _ _ _ _ _) as [d e] eqn:E.
  destruct (writeUnder_spec _ _ _ _ _ _ _ E Hcl (Hpl _)) as [Hk Hs]. apply elsewhere_confined in Hk.
  split; [done|]. simpl. destruct e; [by rewrite Hs|]. by destruct Hs as (_ & (? & ? & ->) & _).
Qed.

Lemma pullOne_touches f (s : pulling) :
  plainName (f_Path f) →
  touchesAt (relPath (f_Path f)) (p_disk (pu_pass s))
           (p_disk (pu_pass (pullOne ChangeTime EqualFold rand share change actionOf s f))).
Proof.
  intros Hpl. unfold pullOne. destruct (pu_abort s); [apply touchesAt_refl|].
  destruct (negb _); [destruct (change !! _); apply touchesAt_refl|].
  pose proof (land_touches f (λ d, stillAsSeen ChangeTime d (actionAt actionOf (f_Path f))) (pu_pass s) Hpl) as Hc.
  destruct (land _ _ _ _ _ _) as [p1 [e|]]; [|done]. split_goal; simpl; rewrite ?failed_disk; done.
Qed.

(** Where the way is straight, the path itself is what changes. *)
Lemma straight_confined (T rels : string → Prop) rel d d' :
  cleanRel rel → T rel → rels rel → roads T d → confined (eq (place d rel)) d d' → confined rels d d'.
Proof.
  intros Hcl HT Hr Hroads. rewrite place_straight by auto. apply confined_mono. by intros ? <-.
Qed.

Lemma pullAnswer_confined (T rels : string → Prop) files s :
  offTmp T → (∀ f, f ∈ files → plainName (f_Path f) ∧ T (relPath (f_Path f)) ∧ rels (relPath (f_Path f))) →
  roads T (p_disk (pu_pass s)) →
  let s' := foldl (pullOne ChangeTime EqualFold rand share change actionOf) s files in
  confined rels (p_disk (pu_pass s)) (p_disk (pu_pass s')) ∧ roads T (p_disk (pu_pass s')).
Proof.
  intros Ho. revert s. induction files as [|f files IH]; intros s Hf Hr; cbn [foldl]; [split; [apply confined_refl|done]|].
  destruct (Hf f) as (Hpl & HT & Hrel); [left|]. pose proof (pullOne_touches f s Hpl) as Ht.
  destruct (IH (pullOne ChangeTime EqualFold rand share change actionOf s f)) as [Hc Hr'].
  - intros; apply Hf; by right.
  - by eapply touchesAt_roads.
  - split; [|done]. eapply confined_trans; [|exact Hc].
    apply (straight_confined T rels (relPath (f_Path f))); [apply Hpl|done|done|done|apply Ht].
Qed.

(** The store hands over only files it was asked for, which is what
    [Store.Pull] promises: it fetches the named paths. *)
Definition honest (Pull : list string → PullAnswer) : Prop :=
  ∀ chunk f, f ∈ pa_files (Pull chunk) → f_Path f ∈ chunk.

Lemma pull_disk answer chunk (p : pass) :
  p_disk (fst (pull ChangeTime EqualFold rand now share change actionOf answer chunk p)) =
  p_disk (pu_pass (foldl (pullOne ChangeTime EqualFold rand share change actionOf)
                     {| pu_pass := p; pu_wrote := []; pu_abort := None |} (pa_files answer))).
Proof. unfold pull. by destruct (pu_abort _) as [[e f]|]; [|destruct (pa_err _)]. Qed.

Lemma pullAll_confined (T rels : string → Prop) Pull chunks (p : pass) :
  honest Pull → offTmp T →
  (∀ c path, c ∈ chunks → path ∈ c → plainName path ∧ T (relPath path) ∧ rels (relPath path)) →
  roads T (p_disk p) →
  confined rels (p_disk p)
    (p_disk (pullAll ChangeTime EqualFold rand now share change actionOf Pull chunks p)).
Proof.
  intros Hh Ho. revert p. induction chunks as [|c chunks IH]; intros p Hc Hr; simpl; [apply confined_refl|].
  pose proof (pull_disk (Pull c) c p) as Hd.
  pose proof (pullAnswer_confined T rels (pa_files (Pull c)) {| pu_pass := p; pu_wrote := []; pu_abort := None |} Ho) as Hp.
  destruct (pull _ _ _ _ _ _ _ _ _ _) as [p' more]. simpl in Hd. cbv zeta in Hp. rewrite <- Hd in Hp. simpl in Hp.
  destruct Hp as [Hpp Hr']; [|done|].
  { intros f Hf. apply (Hc c); [left|by apply Hh]. }
  destruct more; [|done]. eapply confined_trans; [done|]. apply IH; [|done]. intros c' path ?. apply Hc. by right.
Qed.

End handlers.

(** ** Chunks *)

Lemma elem_of_chunks_fuel {A} fuel n (l c : list A) x : c ∈ chunks_fuel fuel n l → x ∈ c → x ∈ l.
Proof.
  revert l. induction fuel as [|fuel IH]; intros l; simpl; [by intros ?%elem_of_nil|].
  destruct l as [|y l]; [by intros ?%elem_of_nil|].
  rewrite elem_of_cons. intros [->|Hc] Hx.
  - rewrite <- (take_drop n (y :: l)). apply elem_of_app. by left.
  - rewrite <- (take_drop n (y :: l)). apply elem_of_app. right. by apply (IH _ Hc).
Qed.

(** ** The actions of a pass, by path *)

Lemma actionsByPath_spec actions path a :
  actionsByPath actions !! path = Some a → a ∈ actions ∧ a_Path a = path.
Proof.
  unfold actionsByPath.
  assert (∀ l (m : gmap string action), (∀ p a, m !! p = Some a → a ∈ actions ∧ a_Path a = p) →
    (∀ a, a ∈ l → a ∈ actions) →
    foldl (λ m a, <[a_Path a := a]> m) m l !! path = Some a → a ∈ actions ∧ a_Path a = path) as Hg.
  { induction l as [|b l IH]; intros m Hm Hl; cbn [foldl]; [apply Hm|]. apply IH.
    - intros p a'. rewrite lookup_insert. case_decide; [intros [= <-]; subst; split; [apply Hl; left|done]|apply Hm].
    - intros; apply Hl; by right. }
  apply Hg; [by intros ? ? ?%lookup_empty_Some|done].
Qed.

Lemma actionsByPath_some actions path :
  path ∈ a_Path <$> actions → is_Some (actionsByPath actions !! path).
Proof.
  unfold actionsByPath. generalize (∅ : gmap string action).
  assert (∀ l (m : gmap string action), is_Some (m !! path) → is_Some (foldl (λ m a, <[a_Path a := a]> m) m l !! path)) as Hk.
  { induction l as [|b l IH]; intros m Hm; cbn [foldl]; [done|]. apply IH. rewrite lookup_insert. case_decide; eauto. }
  induction actions as [|b l IH]; intros m Hp; [by apply elem_of_nil in Hp|].
  rewrite fmap_cons in Hp. apply elem_of_cons in Hp as [->|Hp]; cbn [foldl]; [|by apply IH].
  apply Hk. rewrite lookup_insert_eq. eauto.
Qed.

Lemma actionAt_path actions path :
  path ∈ a_Path <$> actions →
  a_Path (actionAt (actionsByPath actions) path) = path ∧ actionAt (actionsByPath actions) path ∈ actions.
Proof.
  intros [a Ha]%actionsByPath_some. unfold actionAt. rewrite Ha. simpl.
  apply actionsByPath_spec in Ha as [? ?]. done.
Qed.

Lemma deletes_sub actions path : path ∈ deletes actions → path ∈ a_Path <$> actions.
Proof.
  unfold deletes. rewrite stable_sort_Permutation. intros (a & -> & [_ ?]%list_elem_of_filter)%list_elem_of_fmap.
  apply list_elem_of_fmap. eauto.
Qed.

Lemma writes_sub actions path : path ∈ writes actions → path ∈ a_Path <$> actions.
Proof.
  unfold writes. intros (a & -> & [_ ?]%list_elem_of_filter)%list_elem_of_fmap. apply list_elem_of_fmap. eauto.
Qed.

Lemma elem_of_ranked paths w path : path ∈ wb.ranked share paths w ↔ path ∈ paths.
Proof.
  unfold wb.ranked. destruct (w !! share); [|done]. case_bool_decide; [done|]. by rewrite stable_sort_Permutation.
Qed.

(** ** The whole pass *)

Definition decidedRels (actions : list action) (q : string) : Prop := ∃ a, a ∈ actions ∧ q = relPath (a_Path a).

Lemma foldl_confined {A} (step : writePass D → A → writePass D) (T rels : string → Prop) l p :
  (∀ p x, x ∈ l → roads T (p_disk p) → confined rels (p_disk p) (p_disk (step p x)) ∧ roads T (p_disk (step p x))) →
  roads T (p_disk p) →
  confined rels (p_disk p) (p_disk (foldl step p l)) ∧ roads T (p_disk (foldl step p l)).
Proof.
  revert p. induction l as [|x l IH]; intros p Hs Hr; cbn [foldl]; [split; [apply confined_refl|done]|].
  destruct (Hs p x) as [Hc Hr1]; [left|done|]. destruct (IH (step p x)) as [Hc' Hr2]; [|done|].
  - intros; apply Hs; [by right|done].
  - split; [by eapply confined_trans|done].
Qed.

Lemma run_disk Pull actions p :
  let p1 := foldl (λ p path, remove ChangeTime share change (actionsByPath actions) path p) p (deletes actions) in
  let p2 := foldl (landOne ChangeTime rand share change) p1 actions in
  ∃ p3 paths, p_disk p3 = p_disk p2 ∧ (∀ q, q ∈ paths → q ∈ writes actions) ∧
    p_disk (fst (run ChangeTime EqualFold rand now share change (actionsByPath actions) Pull actions p)) =
    p_disk (pullAll ChangeTime EqualFold rand now share change (actionsByPath actions) Pull (Chunk pullChunk paths) p3).
Proof.
  cbv zeta. unfold run. set (p2 := foldl (landOne _ _ _ _) _ _).
  set (p3 := adopt _ _ _ _). set (paths := take _ _).
  exists (with_tried (list_to_set paths) p3), paths. split_and!.
  - unfold p3, adopt. simpl. by destruct (filter _ _).
  - intros q Hq. apply elem_of_take in Hq as (i & Hi & _). apply list_elem_of_lookup_2 in Hi.
    by apply elem_of_ranked in Hi.
  - destruct (p_aborted _); [done|]. destruct (p_fetchErr _); [done|]. by destruct (0 <? _).
Qed.

(** The actions that make or write something, all of them done after the deletions. *)
Definition lands (a : action) : bool :=
  match a_kind a with kindLink | kindMkdir | kindChmod => true | _ => isWrite a end.

(** What the pass relies on of the paths it decided about: they are written as the
    share writes them, none is a temporary or lies under one, no link is on the way
    to any of them on the disk the pass starts with, and nothing is made or written
    under a path that becomes a link. *)
Record reachable_paths (actions : list action) (d : D) : Prop := {
  rp_plain : ∀ a, a ∈ actions → plainName (a_Path a);
  rp_tmp : offTmp (decidedRels actions);
  rp_straight : roads (decidedRels actions) d;
  rp_links : ∀ a b, a ∈ actions → b ∈ actions → a_kind a = kindLink → lands b = true →
    ¬ above (relPath (a_Path a)) (relPath (a_Path b))
}.

(** The paths dealt with after the deletions. *)
Definition laterRels (actions : list action) (q : string) : Prop :=
  ∃ a, a ∈ actions ∧ lands a = true ∧ q = relPath (a_Path a).

Lemma landOne_confined actions p a :
  (∀ b, b ∈ actions → plainName (a_Path b)) → offTmp (laterRels actions) →
  (∀ a b, a ∈ actions → b ∈ actions → a_kind a = kindLink → lands b = true →
    ¬ above (relPath (a_Path a)) (relPath (a_Path b))) →
  a ∈ actions → roads (laterRels actions) (p_disk p) →
  confined (decidedRels actions) (p_disk p) (p_disk (landOne ChangeTime rand share change p a)) ∧
  roads (laterRels actions) (p_disk (landOne ChangeTime rand share change p a)).
Proof.
  intros Hpl Ho Hlk Ha Hr. destruct (Hpl a Ha) as [Hcl _].
  assert (Hdec : decidedRels actions (relPath (a_Path a))) by (by exists a).
  assert (Hlater : lands a = true → laterRels actions (relPath (a_Path a))) by (intros; by exists a).
  assert (Hgo : ∀ p', lands a = true → touchesAt (relPath (a_Path a)) (p_disk p) (p_disk p') →
    confined (decidedRels actions) (p_disk p) (p_disk p') ∧ roads (laterRels actions) (p_disk p')).
  { intros p' Hk Ht. split; [|by eapply touchesAt_roads].
    by apply (straight_confined (laterRels actions) _ (relPath (a_Path a))), Ht; auto. }
  assert (Hsame : confined (decidedRels actions) (p_disk p) (p_disk p) ∧ roads (laterRels actions) (p_disk p))
    by (split; [apply confined_refl|done]).
  assert (Hk : a_kind a = kindLink ∨ a_kind a = kindMkdir ∨ a_kind a = kindChmod → lands a = true)
    by (unfold lands; intros [->|[->| ->]]; done).
  unfold landOne. destruct (a_kind a) eqn:Ek; try done; auto using mkdir_touches, chmod_touches.
  assert (Hla : laterRels actions (relPath (a_Path a))) by auto.
  pose proof (link_confined a p (Hpl a Ha)) as Hc. split.
  - by apply (straight_confined (laterRels actions) _ (relPath (a_Path a))).
  - rewrite place_straight in Hc by auto. eapply confined_roads; [done..| |done].
    intros r (b & Hb & Hkb & ->) Hab. by destruct (Hlk a b).
Qed.

(** A whole pass changes nothing on this machine beyond the paths
    that were decided about: every other entry keeps its bytes, its time and its
    kind, and the only new names are directories above a decided path (where
    nothing was) and the pass's own temporaries.  Whatever errors the disk
    answers with, and however the pulls end. *)
Lemma run_confined Pull actions p :
  honest Pull → reachable_paths actions (p_disk p) →
  confined (decidedRels actions) (p_disk p)
    (p_disk (fst (run ChangeTime EqualFold rand now share change (actionsByPath actions) Pull actions p))).
Proof.
  intros Hh [Hpl Ho Hst Hlk].
  assert (Hrel : ∀ path, path ∈ a_Path <$> actions → decidedRels actions (relPath path)).
  { intros path (a & -> & ?)%list_elem_of_fmap. by exists a. }
  assert (Hsub : ∀ q, laterRels actions q → decidedRels actions q) by (intros q (a & ? & _ & ?); by exists a).
  assert (Ho2 : offTmp (laterRels actions)) by (intros r u Hr; apply Ho; auto).
  destruct (run_disk Pull actions p) as (p3 & paths & E3 & Hp3 & ->).
  destruct (foldl_confined (λ p path, remove ChangeTime share change (actionsByPath actions) path p)
    (decidedRels actions) (decidedRels actions) (deletes actions) p) as [C1 R1]; [|done|].
  { intros p' path Hin%deletes_sub Hr. pose proof (remove_touches (actionsByPath actions) path p') as Ht.
    destruct (actionAt_path actions path Hin) as [Hat _]. specialize (Ht Hat).
    split; [|by eapply touchesAt_roads].
    apply (straight_confined (decidedRels actions) _ (relPath path)); auto; [|apply Ht].
    apply list_elem_of_fmap in Hin as (a & -> & ?). by apply Hpl. }
  destruct (foldl_confined (landOne ChangeTime rand share change) (laterRels actions) (decidedRels actions) actions
    (foldl (λ p path, remove ChangeTime share change (actionsByPath actions) path p) p (deletes actions))) as [C2 R2].
  { intros p' a Ha Hr. by apply landOne_confined. }
  { intros r Hr. by apply R1, Hsub. }
  eapply confined_trans; [exact C1|]. eapply confined_trans; [exact C2|]. rewrite <- E3.
  eapply (pullAll_confined _ (laterRels actions)); [done..| |by rewrite E3].
  intros c path Hc Hp. assert (Hin : path ∈ writes actions) by (apply Hp3; by eapply elem_of_chunks_fuel).
  pose proof (writes_sub _ _ Hin) as Hin'. unfold writes in Hin.
  apply list_elem_of_fmap in Hin as (a & -> & [Hw Ha]%list_elem_of_filter). split_and!; auto.
  exists a. split_and!; [done| |done]. unfold lands. by destruct (a_kind a).
Qed.

(** ** Nothing is touched that changed since it was looked at *)

(** C3 (safety). The pass looks again at each path immediately before it
    touches it.  Making a link or a directory, setting a mode, and removing a
    file leave the disk exactly as it was unless the path still is as [decide]
    saw it; a directory is only removed while it is one and nothing is under it;
    and a file lands only when the guard passed on a disk where its target was
    still untouched. *)
Theorem touched_only_as_seen actionOf a f guard p d rel :
  d = p_disk p → rel = relPath (a_Path a) →
  (stillAsSeen ChangeTime d a = false →
     p_disk (link ChangeTime rand share change a p) = d ∧
     p_disk (mkdir ChangeTime share change a p) = d ∧
     p_disk (chmod ChangeTime share change a p) = d ∧
     (actionOf !! a_Path a = Some a → a_Dir a = false →
        p_disk (remove ChangeTime share change actionOf (a_Path a) p) = d)) ∧
  (node (p_disk (removeDir share change a p)) (place d rel) ≠ node d (place d rel) →
     node d (place d rel) = Some nDir ∧ ∀ q, above (place d rel) q → node d q = None) ∧
  (plainName (f_Path f) →
   let target := place d (relPath (f_Path f)) in
   node (p_disk (fst (land EqualFold rand actionOf f guard p))) target ≠ node d target →
     ∃ dg, guard dg = true ∧ node dg target = node d target ∧ confined (eq target) d dg).
Proof.
  intros -> ->. split_and!.
  - intros Hs. unfold link, mkdir, chmod, remove, actionAt. rewrite Hs. split_and!; try done.
    intros -> Hd. simpl. by rewrite Hd, Hs.
  - unfold removeDir. destruct (Lstat _ _) as [i|e] eqn:El.
    2: { destruct (ge_notExist e); rewrite ?failed_disk; done. }
    destruct (IsDir i) eqn:Ei; [|done]. cbn [negb]. pose proof (lstat_dir _ _ _ El Ei) as Hd.
    pose proof (remove_err (p_disk p) (relPath (a_Path a))) as He.
    pose proof (remove_dir_empty (p_disk p) (relPath (a_Path a))) as Hm.
    destruct (Remove _ _) as [d' [e|]]; simpl in *.
    + rewrite <- (He e eq_refl). by destruct (negb _); rewrite ?failed_disk.
    + intros _. split; [done|]. intros q Ha. by apply Hm.
  - intros [Hcl Hpl] target. unfold land. destruct (names.clash _ _ _ _) as [n [e|]]; [done|].
    destruct (writeUnder _ _ _ _ _) as [d' e] eqn:E. simpl.
    destruct (writeUnder_spec _ _ _ _ _ _ _ E Hcl (Hpl _)) as [_ Hs]. destruct e; [done|]. intros _.
    destruct Hs as (_ & _ & dg & Hg & Hn & Hk). exists dg. split_and!; try done. by eapply elsewhere_confined.
Qed.

(** ** What landed is recorded *)

(** The baseline a landed write gets: what the disk now holds, with the
    consumer's time. *)
Definition landedBaseline (d : D) (a : action) : option Baseline :=
  match localAtRoot d (a_Path a) with
  | Some i => Some {| b_Size := fi_Size i; b_ModTime := fi_ModTime i; b_Consumer := a_Consumer a |}
  | None => None
  end.

Lemma rebase_one_write d lst m a p :
  isWrite a = true →
  rebase_one (localAtRoot d) lst m a !! p = if decide (p = a_Path a) then landedBaseline d a else m !! p.
Proof.
  clear EqualFold. intros Hw. unfold rebase_one, baselineOf, landedBaseline, isWrite in *.
  destruct (a_kind a); simpl in *; try done; try rewrite Hw; destruct (localAtRoot d (a_Path a)); simpl;
    rewrite ?lookup_insert, ?lookup_delete; repeat case_decide; congruence.
Qed.

Lemma rebase_fold_writes actionOf d lst m wrote p :
  (∀ w, w ∈ wrote → isWrite (actionAt actionOf w) = true ∧ a_Path (actionAt actionOf w) = w) →
  foldl (rebase_one (localAtRoot d) lst) m (actionAt actionOf <$> wrote) !! p =
  if bool_decide (p ∈ wrote) then landedBaseline d (actionAt actionOf p) else m !! p.
Proof.
  clear EqualFold. intros Hw. revert m. induction wrote as [|w wrote IH]; intros m; cbn [foldl fmap list_fmap].
  { rewrite bool_decide_eq_false_2 by apply not_elem_of_nil. done. }
  destruct (Hw w) as [Hw1 Hw2]; [left|]. rewrite IH by (intros; apply Hw; by right).
  rewrite rebase_one_write, Hw2 by done. destruct (decide (p = w)) as [->|Hne].
  - rewrite (bool_decide_eq_true_2 (w ∈ w :: wrote)) by left. by case_bool_decide.
  - by rewrite (bool_decide_ext (p ∈ wrote) (p ∈ w :: wrote)) by set_solver.
Qed.

Lemma commit_writes actionOf d lst wrote f p :
  is_Some (sh_manifests f !! share) → is_Some (sh_recorded f !! share) →
  (∀ w, w ∈ wrote → isWrite (actionAt actionOf w) = true ∧ a_Path (actionAt actionOf w) = w) →
  let f' := commit (localAtRoot d) lst share (actionAt actionOf <$> wrote) wrote [] f in
  p ∈ wrote →
  manifestOf f' share !! p = landedBaseline d (actionAt actionOf p) ∧ slashed p ∈ recordedOf f' share.
Proof.
  clear EqualFold. intros [m Hm] [rec Hr] Hw f' Hp. subst f'. unfold commit, rebase. rewrite Hm.
  set (f1 := set_manifest _ _ _).
  destruct (editRecord_add f1 share wrote) as [E1 E2]; [by exists rec|].
  set (f2 := fst (editRecord share wrote true f1)) in *.
  assert (E3 : fst (editRecord share [] false f2) = f2 ∨
    (recordedOf (fst (editRecord share [] false f2)) share = recordedOf f2 share ∧
     manifestOf (fst (editRecord share [] false f2)) share = manifestOf f2 share)).
  { unfold editRecord. destruct (sh_recorded f2 !! share) as [r2|] eqn:E; [|by left]. right. simpl.
    unfold recordedOf, manifestOf. simpl. rewrite lookup_insert_eq, E. split; [done|].
    destruct (sh_manifests f2 !! share) eqn:E'; [by rewrite lookup_insert_eq|by rewrite E']. }
  assert (recordedOf (fst (editRecord share [] false f2)) share = recordedOf f2 share ∧
     manifestOf (fst (editRecord share [] false f2)) share = manifestOf f2 share) as [R M]
    by (destruct E3 as [->|?]; done).
  unfold set_wb, manifestOf, recordedOf in *. simpl. rewrite R, M, E1, E2. split.
  - unfold f1. simpl. rewrite lookup_insert_eq. simpl. rewrite rebase_fold_writes by done.
    by rewrite bool_decide_eq_true_2.
  - apply elem_of_union. left. apply elem_of_list_to_set, list_elem_of_fmap. eauto.
Qed.

(** The callback changes what write-back remembers, never the baselines or the
    record: those move with the commit. *)
Definition sameRecord (f f' : shares) : Prop :=
  sh_manifests f' = sh_manifests f ∧ sh_recorded f' = sh_recorded f.

Lemma failed_sameRecord path e (p : writePass D) : sameRecord (p_shares p) (p_shares (failed share change path e p)).
Proof. unfold failed. by destruct (negb _). Qed.

Lemma land_shares actionOf f g (p : writePass D) : p_shares (fst (land EqualFold rand actionOf f g p)) = p_shares p.
Proof. unfold land. destruct (names.clash _ _ _ _) as [n [e|]]; [done|]. by destruct (writeUnder _ _ _ _ _). Qed.

Lemma pullOne_sameRecord actionOf f (s : pulling) :
  sameRecord (p_shares (pu_pass s)) (p_shares (pu_pass (pullOne ChangeTime EqualFold rand share change actionOf s f))).
Proof.
  unfold pullOne. destruct (pu_abort s); [done|]. destruct (negb _); [by destruct (change !! _)|].
  pose proof (land_shares actionOf f (λ d, stillAsSeen ChangeTime d (actionAt actionOf (f_Path f))) (pu_pass s)) as E.
  destruct (land _ _ _ _ _ _) as [p1 [e|]]; simpl in *; [|by rewrite E].
  destruct (ge_changedHere e); [by simpl; rewrite <- E|].
  case_bool_decide; simpl; [by rewrite <- E|]. rewrite <- E. apply failed_sameRecord.
Qed.

Lemma pulls_sameRecord actionOf files (s : pulling) :
  sameRecord (p_shares (pu_pass s))
    (p_shares (pu_pass (foldl (pullOne ChangeTime EqualFold rand share change actionOf) s files))).
Proof.
  revert s. induction files as [|f files IH]; intros s; cbn [foldl]; [done|].
  destruct (IH (pullOne ChangeTime EqualFold rand share change actionOf s f)) as [E1 E2].
  destruct (pullOne_sameRecord actionOf f s) as [E3 E4]. split; congruence.
Qed.

Lemma pullOne_wrote actionOf f (s : pulling) w :
  w ∈ pu_wrote (pullOne ChangeTime EqualFold rand share change actionOf s f) → w ∈ pu_wrote s ∨ w = f_Path f.
Proof.
  unfold pullOne. destruct (pu_abort s); [auto|]. destruct (negb _); [auto|].
  destruct (land _ _ _ _ _ _) as [p1 [e|]]; simpl; [split_goal; simpl; auto|].
  rewrite elem_of_app, list_elem_of_singleton. tauto.
Qed.

Lemma pulls_wrote actionOf files (s : pulling) w :
  w ∈ pu_wrote (foldl (pullOne ChangeTime EqualFold rand share change actionOf) s files) →
  w ∈ pu_wrote s ∨ w ∈ f_Path <$> files.
Proof.
  revert s. induction files as [|f files IH]; intros s; cbn [foldl]; [auto|]. rewrite fmap_cons, elem_of_cons.
  intros [[?| ->]%pullOne_wrote|?]%IH; auto.
Qed.

Lemma actionAt_unique actions a :
  NoDup (a_Path <$> actions) → a ∈ actions → actionAt (actionsByPath actions) (a_Path a) = a.
Proof.
  intros Hnd Ha. destruct (actionAt_path actions (a_Path a)) as [E Hin]; [apply list_elem_of_fmap; eauto|].
  apply list_elem_of_lookup in Ha as [i Hi], Hin as [j Hj].
  assert (i = j); [|congruence]. eapply (NoDup_lookup _ i j (a_Path a) Hnd); rewrite list_lookup_fmap.
  - by rewrite Hi.
  - rewrite Hj. simpl. by rewrite E.
Qed.

Lemma writes_action actions w :
  NoDup (a_Path <$> actions) → w ∈ writes actions →
  isWrite (actionAt (actionsByPath actions) w) = true ∧ a_Path (actionAt (actionsByPath actions) w) = w.
Proof.
  intros Hnd (a & -> & [Hw Ha]%list_elem_of_filter)%list_elem_of_fmap. by rewrite actionAt_unique.
Qed.

Definition wroteIn (actions : list action) (answer : PullAnswer) (p : writePass D) : list string :=
  pu_wrote (foldl (pullOne ChangeTime EqualFold rand share change (actionsByPath actions))
             {| pu_pass := p; pu_wrote := []; pu_abort := None |} (pa_files answer)).

(** A pull cut short keeps what it brought: however the pull
    ends (all served, the store failing midway, a full disk), every file that
    landed is counted, marked written, recorded, and has as its baseline what
    the disk now holds with the consumer's time. *)
Theorem pull_keeps_what_landed answer actions chunk p w :
  (∀ f, f ∈ pa_files answer → f_Path f ∈ chunk) → (∀ q, q ∈ chunk → q ∈ writes actions) →
  NoDup (a_Path <$> actions) →
  is_Some (sh_manifests (p_shares p) !! share) → is_Some (sh_recorded (p_shares p) !! share) →
  w ∈ wroteIn actions answer p →
  let p' := fst (pull ChangeTime EqualFold rand now share change (actionsByPath actions) answer chunk p) in
  manifestOf (p_shares p') share !! w = landedBaseline (p_disk p') (actionAt (actionsByPath actions) w) ∧
  slashed w ∈ recordedOf (p_shares p') share ∧ w ∈ p_wrote p' ∧
  p_landed p' = p_landed (pu_pass (foldl (pullOne ChangeTime EqualFold rand share change (actionsByPath actions))
             {| pu_pass := p; pu_wrote := []; pu_abort := None |} (pa_files answer))) +
             Z.of_nat (length (wroteIn actions answer p)).
Proof.
  intros Hh Hc Hnd Hm Hr Hw. unfold wroteIn in *. simpl. unfold pull.
  pose proof (pulls_sameRecord (actionsByPath actions) (pa_files answer) {| pu_pass := p; pu_wrote := []; pu_abort := None |}) as [S1 S2].
  assert (Hall : ∀ w, w ∈ pu_wrote (foldl (pullOne ChangeTime EqualFold rand share change (actionsByPath actions))
    {| pu_pass := p; pu_wrote := []; pu_abort := None |} (pa_files answer)) →
    isWrite (actionAt (actionsByPath actions) w) = true ∧ a_Path (actionAt (actionsByPath actions) w) = w).
  { intros w' [?%elem_of_nil|(f & -> & Hf)%list_elem_of_fmap]%pulls_wrote; [done|].
    apply writes_action; [done|]. by apply Hc, Hh. }
  set (s := foldl _ _ _) in *. simpl in S1, S2. rewrite <- S1 in Hm. rewrite <- S2 in Hr.
  pose proof (commit_writes (actionsByPath actions) (p_disk (pu_pass s))
    (λ q, match Lstat (p_disk (pu_pass s)) (relPath q) with Ok i => Some (fi_ModTime i) | Err _ => None end)
    (pu_wrote s) (p_shares (pu_pass s)) w Hm Hr Hall Hw) as [C1 C2].
  destruct (pu_abort s) as [[e fst_]|]; [|destruct (pa_err answer)]; simpl;
    (split_and!; [exact C1|exact C2|by apply elem_of_union_l, elem_of_list_to_set|done]).
Qed.

(** ** Landing a change settles it *)

Lemma writeUnder_stat d file g exec_ n d' :
  writeUnder d file (Some g) exec_ (rand n) = (d', None) → plainName (f_Path file) →
  ∃ perm t, localAtRoot d' (f_Path file) = Some (fileInfo perm t (f_Body file)).
Proof.
  intros E [Hcl Hpl]. destruct (writeUnder_spec _ _ _ _ _ _ _ E Hcl (Hpl _)) as [_ (Hp & (perm & t & Hn) & _)].
  exists perm, t. unfold localAtRoot. rewrite <- Hp in Hn. by rewrite (stat_file _ _ _ _ _ Hn).
Qed.

(** C7 (liveness). Write-back converges: once a change the consumer reported
    has landed and been committed, the same change decides to nothing, so the
    next round does not write it again.  The landed bytes are the change's
    (their number), its execute bit agrees, and its time is not the epoch. *)
Theorem landed_write_settles f d file g exec_ n d' lst recorded ctime skew margin exec ch a :
  writeUnder d file (Some g) exec_ (rand n) = (d', None) → plainName (f_Path file) →
  is_Some (sh_manifests f !! share) → is_Some (sh_recorded f !! share) →
  isWrite a = true → a_Path a = ch_Path ch → a_Consumer a = ch_ModTime ch →
  f_Path file = ch_Path ch → Z.of_nat (strlen (f_Body file)) = ch_Size ch →
  ch_Link ch = ""%string → ch_Opaque ch = false → ch_Dir ch = false → ch_Deleted ch = false → ch_ModTime ch ≠ 0 →
  execFlip ch (localAtRoot d' (ch_Path ch)) exec = 0 →
  let f' := commit (localAtRoot d') lst share [a] [ch_Path ch] [] f in
  fst (decideOne (manifestOf f' share) recorded (localAtRoot d') ctime skew margin exec ch) = [].
Proof.
  intros E Hpl Hm Hr Hw Hap Hac Hfp Hsz Hl Ho Hd Hdel Hmt Hflip f'.
  destruct (writeUnder_stat _ _ _ _ _ _ E Hpl) as (perm & t & Hloc). rewrite Hfp in Hloc.
  assert (Hman : manifestOf f' share !! ch_Path ch = landedBaseline d' a).
  { pose proof (commit_writes {[ch_Path ch := a]} d' lst [ch_Path ch] f (ch_Path ch) Hm Hr) as Hcw. cbv zeta in Hcw.
    assert (Ea : actionAt {[ch_Path ch := a]} (ch_Path ch) = a) by (unfold actionAt; by rewrite lookup_singleton_eq).
    cbn [fmap list_fmap] in Hcw. rewrite Ea in Hcw. apply Hcw; [|by left].
    intros w ->%list_elem_of_singleton. by rewrite Ea. }
  unfold landedBaseline in Hman. rewrite Hap, Hloc in Hman.
  unfold decideOne. cbv zeta. rewrite Hl, Ho, Hd, Hman, Hloc. rewrite Hloc in Hflip. rewrite Hflip, Hdel.
  rewrite fileInfo_not_dir. cbn [negb andb bool_decide Z.eqb].
  destruct (sameContent _ _); [done|]. unfold carries. cbn [b_Size b_Consumer b_ModTime fileInfo fi_Size].
  rewrite Hsz, Hac, !Z.eqb_refl. apply Z.eqb_neq in Hmt. by rewrite Hmt.
Qed.

End pass_proofs.
