(* ===== verification/WriteBack.v ===== *)
(** * Write-back rounds (dircache/writeback.go)

    [writeBackShare] collects one share's changes, decides about them and runs a
    pass; [round] does it for every share; [Settle] repeats rounds before a
    session closes.  What the store and the machine answer during a pass is a
    record ([PassEnv]); the disk, the shares and the answers kept for the fill
    are the state ([cacheState]).  Logging is left out. *)
From S2P Require Import Prelude GoStrings GoTime DirTypes Decide Replace WbState Shares Root WritePass WritePassProofs.

Open Scope Z_scope.

Definition maxPassesPerRound : nat := 50.
Definition presentChunk : nat := 1000.

(** What [Store.Changes] answers. *)
Inductive ChangesAnswer :=
| ChangesOk (changes : list Change)
| ErrShareGone
| ChangesErr (err : goerror).

(** cache.go: [changedAnswer]. *)
Record changedAnswer := {
  ca_at : Time;
  ca_changes : gmap string Change
}.

(** The state a round works on. *)
Record cacheState (D : Type) := {
  cs_disk : D;
  cs_shares : shares;
  cs_changed : gmap string changedAnswer;
  cs_rand : nat
}.
Arguments cs_disk {D}. Arguments cs_shares {D}. Arguments cs_changed {D}. Arguments cs_rand {D}.

Definition on_shares {D} (g : shares → shares) (c : cacheState D) : cacheState D :=
  {| cs_disk := cs_disk c; cs_shares := g (cs_shares c); cs_changed := cs_changed c; cs_rand := cs_rand c |}.

(** What the world answers during one pass over a share. [pe_live] is whether
    there is a store, [pe_Present] [None] a store that is no [Presenter]; a
    [Present] call that fails, [ErrCannotPresent] included, is an [Err]. *)
Record PassEnv (D : Type) := {
  pe_clock : Time;
  pe_live : bool;
  pe_Changes : ChangesAnswer;
  pe_OpenRoot : option goerror;
  pe_Present : option (list string → res goerror (list string));
  pe_Pull : list string → PullAnswer;
  pe_ChangeTime : option (D → string → option Time);
  pe_skew : Duration;
  pe_margin : Duration
}.
Arguments pe_clock {D}. Arguments pe_live {D}. Arguments pe_Changes {D}. Arguments pe_OpenRoot {D}.
Arguments pe_Present {D}. Arguments pe_Pull {D}. Arguments pe_ChangeTime {D}. Arguments pe_skew {D}.
Arguments pe_margin {D}.

(** cache.go: [rememberChanges]. *)
Definition rememberChanges {D} (share : string) (now : Time) (changes : list Change) (c : cacheState D) : cacheState D :=
  {| cs_disk := cs_disk c; cs_shares := cs_shares c;
     cs_changed := <[share := {| ca_at := now; ca_changes := changesByPath changes |}]> (cs_changed c);
     cs_rand := cs_rand c |}.

(** [confirmedAbsent]: chunk by chunk, until one cannot be answered. *)
Fixpoint confirm (Present : list string → res goerror (list string)) (chunks : list (list string)) : list string :=
  match chunks with
  | [] => []
  | c :: rest =>
      match Present c with
      | Err _ => []
      | Ok here => filter (λ p, p ∉ here) c ++ confirm Present rest
      end
  end.

Definition confirmedAbsent (Present : option (list string → res goerror (list string))) (candidates : list string)
  : list string :=
  match Present with
  | None => []
  | Some f => confirm f (Chunk presentChunk candidates)
  end.

(** [slices.Compact]: runs of equal elements become one. *)
Fixpoint Compact (l : list string) : list string :=
  match l with
  | a :: (b :: _) as l' => if bool_decide (a = b) then Compact l' else a :: Compact l'
  | _ => l
  end.

(** [dropMarkers] and [dropClashes]: what they set aside is skipped. *)
Definition markerSkip : Skipped :=
  {| sk_Path := ""; sk_Why := "an overlay marker, which is never a file of yours; it is safe to delete"; sk_Kind := SkipMarker |}.

Definition dropMarkers (share : string) (changes : list Change) (f : shares) : shares * list Change :=
  foldl (λ acc ch, let '(f, out) := acc in
           if overlayMarker (ch_Path ch) then (skipped share ch markerSkip f, out) else (f, out ++ [ch]))
        (f, []) changes.

Section round.
Context {D : Type} `{Root D} `{Platform}.
Context (EqualFold : string → string → bool) (rand : nat → Z).

Definition dropClash (share : string) (d : D) (manifest : gmap string Baseline)
  (acc : shares * caseNames * list Change) (ch : Change) : shares * caseNames * list Change :=
  let '(f, n, out) := acc in
  if bool_decide (manifest !! ch_Path ch = None) && negb (ch_Deleted ch) && negb (ch_Opaque ch) &&
     bool_decide (ch_Link ch = "") then
    let '(n', err) := names.clash EqualFold d n (relPath (ch_Path ch)) in
    match err with
    | Some e => (skipped share ch {| sk_Path := ""; sk_Why := ge_text e; sk_Kind := SkipClash |} f, n', out)
    | None => (f, n', out ++ [ch])
    end
  else (f, n, out ++ [ch]).

Definition dropClashes (share : string) (d : D) (n : caseNames) (manifest : gmap string Baseline)
  (changes : list Change) (f : shares) : shares * caseNames * list Change :=
  foldl (dropClash share d manifest) (f, n, []) changes.

(** [walkLocal]: every path under [dir], never following a link and never a
    temporary of write-back.  [fs.WalkDir] lists a directory in the order of its
    names and goes on into what is a directory; a directory that cannot be listed
    has nothing.  A path is at most 4096 bytes long, which bounds the depth. *)
Definition walkDepth : nat := 4096.

Fixpoint walkUnder (fuel : nat) (d : D) (p : string) : list string :=
  match fuel with
  | O => []
  | S fuel' =>
      match Readdirnames d p with
      | Err _ => []
      | Ok entries =>
          sort_strings entries ≫= λ name,
            let q := p +:+ "/" +:+ name in
            (if strings.HasPrefix name writebackPrefix then [] else ["/" +:+ q]) ++
            (if match Lstat d q with Ok info => IsDir info | Err _ => false end then walkUnder fuel' d q else [])
      end
  end.

Definition walkLocal (d : D) (dir : string) : list string :=
  let rel := strings.TrimPrefix dir "/" in
  match Lstat d rel with
  | Ok info => if IsDir info then walkUnder walkDepth d rel else []
  | Err _ => []
  end.

(** [unheldUnder]: one removed directory, then all of them. *)
Definition unheldIn (share : string) (d : D) (manifest : gmap string Baseline) (listed : gset string)
  (acc : shares * list string) (hidden : string * Z) : shares * list string :=
  let '(f, out) := acc in
  let '(dir, at_) := hidden in
  if at_ =? 0 then acc
  else
    let '(w, paths) := wb.walked share dir at_ (λ _, walkLocal d dir) (sh_wb f) in
    (set_wb (λ _, w) f,
     out ++ filter (λ p, manifest !! p = None ∧ p ∉ listed ∧ is_ok (Lstat d (relPath p)) = true) paths).

Definition unheldUnder (share : string) (d : D) (manifest : gmap string Baseline)
  (changes : list Change) (hidden : gmap string Z) (f : shares) : shares * list string :=
  foldl (unheldIn share d manifest (listedSet changes)) (f, []) (map_to_list hidden).

(** The deletion a confirmed path becomes. *)
Definition impliedChange (hidden : gmap string Z) (p : string) : Change :=
  {| ch_Path := p; ch_Size := 0; ch_ModTime := 0; ch_Deleted := true; ch_Opaque := false; ch_Link := "";
     ch_Changed := earliestHidden p hidden; ch_Dir := false; ch_Mode := 0 |}.

(** [impliedDeletions]. *)
Definition impliedDeletions (env : PassEnv D) (share : string) (d : D) (manifest : gmap string Baseline)
  (reported : list Change) (f : shares) : shares * list Change :=
  let hidden := hiddenAt reported in
  if bool_decide (hidden = ∅) then (f, [])
  else
    let '(f', unheld) := unheldUnder share d manifest reported hidden f in
    let candidates := Compact (sort_strings (replacedDeletions manifest reported ++ unheld)) in
    (f', impliedChange hidden <$> confirmedAbsent (pe_Present env) candidates).

(** The kept conflicts of a pass, and the ones said. *)
Definition keptOf (actions : list action) : gmap string Skipped :=
  foldl (λ m a, if a_Wins a then m
                else <[a_Path a := {| sk_Path := a_Path a; sk_Why := a_Why a; sk_Kind := SkipKept |}]> m)
        ∅ (ofKind actions kindConflict).
Definition sayWins (share : string) (actions : list action) (f : shares) : shares :=
  foldl (λ f a, if a_Wins a then sayOnce share (a_Path a) (a_Why a) f else f) f (ofKind actions kindConflict).

(** What [writeBackShare] decides from a share's changes: the shares after it
    has set aside and remembered what it does, the listings it made, the changes
    and the actions. *)
Definition decideShare (env : PassEnv D) (share : string) (recorded : gset string) (d : D) (reported changes : list Change)
  (f : shares) : shares * caseNames * list Change * list action :=
  let manifest := manifestOf f share in
  let '(f1, n, changes1) := dropClashes share d ∅ manifest changes f in
  let '(f2, implied) := impliedDeletions env share d manifest reported f1 in
  let changes2 := changes1 ++ implied in
  let f3 := set_wb (wb.forget share [reported; changes2]) f2 in
  let actions := decide_ manifest recorded (localAtRoot d) (ctimeAtRoot (pe_ChangeTime env) d)
                         (pe_skew env) (pe_margin env) (execOf f3 share) changes2 ++
                 decideLinks manifest changes2 (linkAtRoot d) in
  (f3, n, changes2, actions).

(** [writeBackShare]. *)
Definition writeBackShare (env : PassEnv D) (share : string) (force : bool) (c : cacheState D) : cacheState D * passResult :=
  let minusOne := {| pr_more := false; pr_landed := 0; pr_pending := -1; pr_first := "" |} in
  match sh_roots (cs_shares c) !! share with
  | None => (c, noResult)
  | Some _ =>
    if negb (pe_live env) then (c, minusOne)
    else if negb force && negb (wb.ready share (pe_clock env) (sh_wb (cs_shares c))) then (c, noResult)
    else
      let recorded := recordedOf (cs_shares c) share in
      match pe_Changes env with
      | ErrShareGone => (on_shares (forget share) c, noResult)
      | ChangesErr e => (on_shares (stall (pe_clock env) share "asking what a container changed" e "" (-1) false) c, minusOne)
      | ChangesOk reported =>
          let c1 := rememberChanges share (pe_clock env) reported c in
          let '(f2, changes) := dropMarkers share (wb.unskipped share reported (sh_wb (cs_shares c1))) (cs_shares c1) in
          let c2 := on_shares (λ _, f2) c1 in
          match changes with
          | [] => (on_shares (λ f, recovered share (set_wb (wb.forget share [reported]) f)) c2, noResult)
          | _ =>
              match pe_OpenRoot env with
              | Some e => (on_shares (stall (pe_clock env) share "opening the share to write back" e "" (-1) false) c2,
                           {| pr_more := false; pr_landed := 0; pr_pending := Z.of_nat (length changes); pr_first := "" |})
              | None =>
                  let '(f3, n, changes', actions) :=
                    decideShare env share recorded (cs_disk c2) reported changes (cs_shares c2) in
                  let kept := keptOf actions in
                  let byPath := changesByPath changes' in
                  let f4 := set_wb (λ w, fst (wb.keptNow share kept byPath w)) (sayWins share actions f3) in
                  if (length actions =? size kept)%nat then (on_shares (λ _, recovered share f4) c2, noResult)
                  else
                    let '(p, r) := run (pe_ChangeTime env) EqualFold rand (pe_clock env) share byPath
                                       (actionsByPath actions) (pe_Pull env) actions
                                       (newPass (cs_disk c2) n f4 (cs_rand c2)) in
                    ({| cs_disk := p_disk p; cs_shares := p_shares p; cs_changed := cs_changed c2; cs_rand := p_rand p |}, r)
              end
          end
      end
  end.

(** [round], once it may start: the shares in the order [all] gives, each up to
    [maxPassesPerRound] passes. [env share k] is what the world answers in the
    [k]-th pass over [share], and [cancelled share k] whether the round has been
    cancelled by its end. *)
Context (env : string → nat → PassEnv D) (cancelled : string → nat → bool).

Fixpoint passes (n k : nat) (share : string) (force : bool) (c : cacheState D) (carried : Z)
  : cacheState D * Z * option passResult :=
  match n with
  | O => (c, carried, None)
  | S n' =>
      let '(c', r) := writeBackShare (env share k) share force c in
      let carried' := carried + pr_landed r in
      if negb (pr_more r) || cancelled share k then (c', carried', Some r)
      else match passes n' (S k) share force c' carried' with
           | (c'', carried'', None) => (c'', carried'', Some r)
           | x => x
           end
  end.

Definition roundShare (force : bool) (acc : cacheState D * Z * gmap string passResult) (share : string)
  : cacheState D * Z * gmap string passResult :=
  let '(c, carried, last) := acc in
  if ephemeral (cs_shares c) share then acc
  else
    let '(c', carried', r) := passes maxPassesPerRound 0 share force c carried in
    (c', carried', match r with Some r => <[share := r]> last | None => last end).

Definition round (force : bool) (all : list string) (c : cacheState D) : cacheState D * Z * gmap string passResult :=
  foldl (roundShare force) (c, 0, ∅) all.

(** [WritesBack]. *)
Definition WritesBack (f : shares) : bool :=
  existsb (λ share, negb (ephemeral f share)) (map_to_list (sh_roots f)).*1.

End round.

(** * Properties of write-back rounds (dircache/writeback.go) *)

Open Scope Z_scope.

(** ** Deletions a directory implies *)

Lemma chunk_elem {A} n (l c : list A) x : c ∈ Chunk n l → x ∈ c → x ∈ l.
Proof. apply elem_of_chunks_fuel. Qed.

Lemma elem_of_confirm f chunks p :
  p ∈ confirm f chunks → ∃ c here, c ∈ chunks ∧ f c = Ok here ∧ p ∈ c ∧ p ∉ here.
Proof.
  induction chunks as [|c chunks IH]; simpl; [by intros ?%elem_of_nil|].
  destruct (f c) as [here|e] eqn:E; [|by intros ?%elem_of_nil].
  rewrite elem_of_app, list_elem_of_filter. intros [[Hn Hc]|Hp].
  - exists c, here. split_and!; [left|done..].
  - destruct (IH Hp) as (c' & here' & ? & ?). exists c', here'. split; [by right|done].
Qed.

(** The consumer said, in one answer, that it does not have the path. *)
Definition saidAbsent (Present : option (list string → res goerror (list string))) (p : string) : Prop :=
  ∃ f c here, Present = Some f ∧ f c = Ok here ∧ p ∈ c ∧ p ∉ here.

Lemma confirmedAbsent_said Present candidates p :
  p ∈ confirmedAbsent Present candidates → saidAbsent Present p ∧ p ∈ candidates.
Proof.
  unfold confirmedAbsent. destruct Present as [f|]; [|by intros ?%elem_of_nil].
  intros (c & here & Hc & Hf & Hp & Hn)%elem_of_confirm. split; [by exists f, c, here|by eapply chunk_elem].
Qed.

Lemma Compact_sub l p : p ∈ Compact l → p ∈ l.
Proof.
  induction l as [|a [|b l] IH]; [done..|]. simpl Compact in *. case_bool_decide; [intros; right; by apply IH|].
  rewrite !elem_of_cons. intros [->|Hp]; [by left|]. right. apply elem_of_cons. by apply IH.
Qed.

Section round_proofs.
Context {D : Type} `{RootLaws D} `{Platform}.
Context (EqualFold : string → string → bool) (rand : nat → Z).

(** *** Where a walk looks *)

(** [p] is a path under the directory [dir], as a walk of it spells one. *)
Definition listedUnder (dir p : string) : Prop := ∃ rest, p = "/" +:+ relPath dir +:+ "/" +:+ rest.

Lemma walkUnder_under fuel d p q : q ∈ walkUnder fuel d p → ∃ rest, q = "/" +:+ p +:+ "/" +:+ rest.
Proof.
  revert p. induction fuel as [|fuel IH]; intros p; cbn [walkUnder]; [by intros ?%elem_of_nil|].
  destruct (Readdirnames d p) as [entries|]; [|by intros ?%elem_of_nil].
  rewrite list_elem_of_bind. intros (name & Hq & _). apply elem_of_app in Hq as [Hq|Hq].
  - destruct (strings.HasPrefix _ _); [by apply elem_of_nil in Hq|]. apply list_elem_of_singleton in Hq as ->. eauto.
  - destruct (match Lstat _ _ with Ok _ => _ | Err _ => _ end); [|by apply elem_of_nil in Hq].
    apply IH in Hq as [rest ->]. exists (name +:+ "/" +:+ rest). by rewrite !append_assoc.
Qed.

Lemma walkLocal_under d dir q : q ∈ walkLocal d dir → listedUnder dir q.
Proof.
  unfold walkLocal. destruct (Lstat _ _) as [i|]; [|by intros ?%elem_of_nil].
  destruct (IsDir i); [apply walkUnder_under|by intros ?%elem_of_nil].
Qed.

(** The listings write-back remembers are of the directories they are kept for. *)
Definition listingsUnder (w : writeBacks) : Prop :=
  ∀ share s dir l p, w !! share = Some s → wb_walks s !! dir = Some l → p ∈ ls_paths l → listedUnder dir p.

(** *** What a removed directory may take with it *)

(** [dir] is reported removed or replaced. *)
Definition removedDir (reported : list Change) (dir : string) : Prop :=
  ∃ ch, ch ∈ reported ∧ ch_Path ch = dir ∧ (ch_Opaque ch = true ∨ ch_Deleted ch = true).

(** A path a removed or replaced directory may take with it: it lies under one that
    is reported so, and was sent by the fill and not carried back since, or was
    never held by the cache and is on this machine's disk now. *)
Definition candidate (d : D) (manifest : gmap string Baseline) (reported : list Change) (p : string) : Prop :=
  ∃ dir, removedDir reported dir ∧
    ((dir ∈ dirsAbove p ∧ p ∈ replacedDeletions manifest reported) ∨
     (listedUnder dir p ∧ manifest !! p = None ∧ p ∉ listedSet reported ∧ is_ok (Lstat d (relPath p)) = true)).

Lemma hiddenAt_removed reported dir at_ : hiddenAt reported !! dir = Some at_ → removedDir reported dir.
Proof.
  unfold hiddenAt. assert (∀ l (m : gmap string Z), (∀ ch, ch ∈ l → ch ∈ reported) →
    (∀ a, m !! dir = Some a → removedDir reported dir) →
    foldl (λ m ch, if ch_Opaque ch || ch_Deleted ch then <[ch_Path ch := ch_Changed ch]> m else m) m l !! dir = Some at_ →
    removedDir reported dir) as Hg.
  { induction l as [|ch l IH]; intros m Hl Hm; cbn [foldl]; [apply Hm|]. apply IH; [intros; apply Hl; by right|].
    intros a. destruct (ch_Opaque ch || ch_Deleted ch) eqn:E; [|apply Hm]. rewrite lookup_insert. case_decide as Hd; [|apply Hm].
    intros _. exists ch. split_and!; [apply Hl; left|done|by apply orb_true_iff in E]. }
  apply Hg; [done|]. by intros a ?%lookup_empty_Some.
Qed.

Lemma walked_under share dir at_ d w :
  listingsUnder w →
  listingsUnder (fst (wb.walked share dir at_ (λ _, walkLocal d dir) w)) ∧
  ∀ p, p ∈ snd (wb.walked share dir at_ (λ _, walkLocal d dir) w) → listedUnder dir p.
Proof.
  intros Hw. unfold wb.walked. destruct (w !! share) as [s|] eqn:Es; [|split; [done|apply walkLocal_under]].
  assert (Hnew : listingsUnder (<[share := set_walks <[dir := {| ls_at := at_; ls_paths := walkLocal d dir |}]> s]> w)).
  { intros sh s' dir' l p. rewrite lookup_insert. case_decide as E; [|apply Hw]. intros [= <-]. cbn [set_walks wb_walks].
    rewrite lookup_insert. case_decide as E'; [|subst; intros; by eapply Hw]. intros [= <-]. subst. apply walkLocal_under. }
  destruct (wb_walks s !! dir) as [wk|] eqn:Ew; [|split; [done|apply walkLocal_under]].
  destruct (_ =? _); (split; [done|]); [|apply walkLocal_under]. intros p Hp. by apply (Hw share s dir wk).
Qed.

Lemma unheldUnder_spec share d manifest reported f :
  listingsUnder (sh_wb f) →
  let r := unheldUnder share d manifest reported (hiddenAt reported) f in
  listingsUnder (sh_wb (fst r)) ∧
  ∀ p, p ∈ snd r → ∃ dir, removedDir reported dir ∧ listedUnder dir p ∧
    manifest !! p = None ∧ p ∉ listedSet reported ∧ is_ok (Lstat d (relPath p)) = true.
Proof.
  unfold unheldUnder. set (good := λ p, ∃ dir, removedDir reported dir ∧ listedUnder dir p ∧
    manifest !! p = None ∧ p ∉ listedSet reported ∧ is_ok (Lstat d (relPath p)) = true).
  assert (∀ l acc, (∀ dir at_, (dir, at_) ∈ l → removedDir reported dir) → listingsUnder (sh_wb (fst acc)) → (∀ p, p ∈ snd acc → good p) →
    let r := foldl (unheldIn share d manifest (listedSet reported)) acc l in
    listingsUnder (sh_wb (fst r)) ∧ ∀ p, p ∈ snd r → good p) as Hg.
  { induction l as [|[dir at_] l IH]; intros [f' out] Hl Hf Ho; cbn [foldl]; [done|].
    apply IH; [intros; eapply Hl; by right|..]; unfold unheldIn; destruct (at_ =? 0); try done;
      destruct (walked_under share dir at_ d (sh_wb f') Hf) as [Hw Hu]; destruct (wb.walked _ _ _ _ _) as [w paths]; [done|].
    cbn [snd]. intros p [?|[(? & ? & ?) Hp]%list_elem_of_filter]%elem_of_app; [auto|].
    exists dir. split_and!; [eapply Hl; left|by apply Hu|done..]. }
  intros Hf. apply Hg; [|done|by intros ? ?%elem_of_nil].
  intros dir at_ Hd%elem_of_map_to_list. by eapply hiddenAt_removed.
Qed.

Lemma impliedDeletions_spec env share d manifest reported f :
  listingsUnder (sh_wb f) →
  listingsUnder (sh_wb (fst (impliedDeletions env share d manifest reported f))) ∧
  ∀ ch, ch ∈ snd (impliedDeletions env share d manifest reported f) →
  ch = impliedChange (hiddenAt reported) (ch_Path ch) ∧
  saidAbsent (pe_Present env) (ch_Path ch) ∧ candidate d manifest reported (ch_Path ch).
Proof.
  intros Hf. unfold impliedDeletions. case_bool_decide; [split; [done|by intros ? ?%elem_of_nil]|].
  pose proof (unheldUnder_spec share d manifest reported f Hf) as [Hw Hu].
  destruct (unheldUnder _ _ _ _ _ _) as [f' unheld]. simpl in *. split; [done|].
  intros ch (p & -> & [Hs Hp]%confirmedAbsent_said)%list_elem_of_fmap. cbn [impliedChange ch_Path]. split_and!; [done..|].
  apply Compact_sub in Hp. unfold sort_strings in Hp. rewrite stable_sort_Permutation, elem_of_app in Hp.
  destruct Hp as [Hp|Hp].
  - pose proof Hp as (_ & _ & ch & Hch & Hrm & Hab)%elem_of_replacedDeletions.
    exists (ch_Path ch). split; [by exists ch|]. by left.
  - destruct (Hu p Hp) as (dir & ? & ? & ? & ? & ?). exists dir. split; [done|]. by right.
Qed.

(** Nothing is deleted on a removed directory's say-so alone: every
    deletion a round implies is of a path the consumer itself answered it does
    not have, that was sent by the fill and not carried back since, or that the
    cache never held and is on disk; and it carries the time the first directory
    above it went.  A store that cannot say, or whose answer fails, implies
    nothing. *)
Theorem implied_deletions_confirmed env share d manifest reported f :
  listingsUnder (sh_wb f) →
  (∀ ch, ch ∈ snd (impliedDeletions env share d manifest reported f) →
     ch = impliedChange (hiddenAt reported) (ch_Path ch) ∧
     saidAbsent (pe_Present env) (ch_Path ch) ∧ candidate d manifest reported (ch_Path ch)) ∧
  ((∀ ask c here, pe_Present env = Some ask → ask c ≠ Ok here) →
     snd (impliedDeletions env share d manifest reported f) = []).
Proof.
  intros Hf. pose proof (impliedDeletions_spec env share d manifest reported f Hf) as [_ Hs].
  split; [done|]. intros HP. apply elem_of_nil_inv. intros ch Hch.
  apply Hs in Hch as (_ & (g & c & here & E & E' & _) & _). by apply (HP g c here).
Qed.

(** ** The bookkeeping of a round leaves the record alone *)

Lemma foldl_inv {A B} (P : A → Prop) (step : A → B → A) l a :
  P a → (∀ a b, P a → P (step a b)) → P (foldl step a l).
Proof. intros Ha Hs. revert a Ha. induction l as [|b l IH]; intros a Ha; cbn [foldl]; auto. Qed.

Lemma dropMarkers_spec share changes f :
  sameRecord f (fst (dropMarkers share changes f)) ∧
  (∀ ch, ch ∈ snd (dropMarkers share changes f) → ch ∈ changes).
Proof.
  unfold dropMarkers.
  assert (∀ l f0 out, (∀ ch, ch ∈ l → ch ∈ changes) → sameRecord f f0 → (∀ ch, ch ∈ out → ch ∈ changes) →
    let r := foldl (λ acc ch, let '(f, out) := acc in
      if overlayMarker (ch_Path ch) then (skipped share ch markerSkip f, out) else (f, out ++ [ch])) (f0, out) l in
    sameRecord f (fst r) ∧ (∀ ch, ch ∈ snd r → ch ∈ changes)) as Hg.
  { induction l as [|c l IH]; intros f0 out Hl Hf Ho; cbn [foldl]; [done|].
    destruct (overlayMarker _); apply IH; try done; try (intros; apply Hl; by right).
    intros ch [?| ->%list_elem_of_singleton]%elem_of_app; [auto|apply Hl; left]. }
  apply Hg; [done|done|by intros ? ?%elem_of_nil].
Qed.

Lemma dropClashes_spec share d manifest changes f :
  sameRecord f (fst (fst (dropClashes EqualFold share d ∅ manifest changes f))) ∧
  (∀ ch, ch ∈ snd (dropClashes EqualFold share d ∅ manifest changes f) → ch ∈ changes).
Proof.
  unfold dropClashes.
  assert (∀ l acc, (∀ ch, ch ∈ l → ch ∈ changes) → sameRecord f (fst (fst acc)) → (∀ ch, ch ∈ snd acc → ch ∈ changes) →
    let r := foldl (dropClash EqualFold share d manifest) acc l in
    sameRecord f (fst (fst r)) ∧ (∀ ch, ch ∈ snd r → ch ∈ changes)) as Hg.
  { induction l as [|c l IH]; intros [[f0 n] out] Hl Hf Ho; cbn [foldl]; [done|]. simpl in *.
    assert (Hadd : ∀ ch, ch ∈ out ++ [c] → ch ∈ changes).
    { intros ch [?| ->%list_elem_of_singleton]%elem_of_app; [auto|apply Hl; left]. }
    apply IH; [intros; apply Hl; by right|..]; unfold dropClash; destruct (_ && _); try done;
      destruct (names.clash _ _ _ _) as [n' [e|]]; done. }
  apply Hg; [done|done|by intros ? ?%elem_of_nil].
Qed.

(** ** The listings a round leaves are those it found and those it made *)

Definition walksSub (f f' : shares) : Prop :=
  ∀ share s' dir l, sh_wb f' !! share = Some s' → wb_walks s' !! dir = Some l →
    ∃ s, sh_wb f !! share = Some s ∧ wb_walks s !! dir = Some l.

Lemma walksSub_refl f : walksSub f f.
Proof. intros share s' dir l ??. eauto. Qed.

Lemma walksSub_trans f1 f2 f3 : walksSub f1 f2 → walksSub f2 f3 → walksSub f1 f3.
Proof. intros H12 H23 share s dir l Hs Hl. destruct (H23 _ _ _ _ Hs Hl) as (s2 & ? & ?). by eapply H12. Qed.

Lemma walksSub_listings f f' : walksSub f f' → listingsUnder (sh_wb f) → listingsUnder (sh_wb f').
Proof. intros Hs Hf share s dir l p ???. destruct (Hs share s dir l) as (? & ? & ?); [done..|]. by eapply Hf. Qed.

Lemma walksSub_wb f f' : sh_wb f' = sh_wb f → walksSub f f'.
Proof. intros E. unfold walksSub. rewrite E. eauto. Qed.

Lemma walksSub_set share g f :
  (∀ s, sh_wb f !! share = Some s → ∃ s', g (sh_wb f) = <[share := s']> (sh_wb f) ∧ wb_walks s' ⊆ wb_walks s) →
  (sh_wb f !! share = None → g (sh_wb f) = sh_wb f) → walksSub f (set_wb g f).
Proof.
  intros Hs Hn share' s' dir l. cbn [set_wb sh_wb]. destruct (sh_wb f !! share) as [s|] eqn:E; [|rewrite Hn by done; eauto].
  destruct (Hs s eq_refl) as (s1 & -> & Hsub). rewrite lookup_insert. case_decide as Hd; [|eauto].
  intros [= <-] Hl. subst share'. exists s. split; [done|]. by eapply lookup_weaken.
Qed.

Lemma keep_only_sub {A} (keep : gset string) (m : gmap string A) : wb.keep_only keep m ⊆ m.
Proof. apply map_filter_subseteq. Qed.

Lemma walksSub_sayOnce share path why f : walksSub f (sayOnce share path why f).
Proof.
  apply (walksSub_set share); [intros s E|intros E]; unfold wb.conflictNew; rewrite E; [|done].
  case_bool_decide; cbn [fst]; eexists; split; [by rewrite insert_id|done|done|done].
Qed.

Lemma walksSub_skipped share ch sk f : walksSub f (skipped share ch sk f).
Proof. apply (walksSub_set share); [intros s E|intros E]; unfold wb.skip_; rewrite E; [eexists; split|]; done. Qed.

Lemma walksSub_stall now share what e first n b f : walksSub f (stall now share what e first n b f).
Proof. apply (walksSub_set share); [intros s E|intros E]; unfold wb.fail; rewrite E; [eexists; split|]; done. Qed.

Lemma walksSub_recovered share f : walksSub f (recovered share f).
Proof. apply (walksSub_set share); [intros s E|intros E]; unfold wb.ok; rewrite E; [eexists; split|]; done. Qed.

Lemma walksSub_landed share paths f : walksSub f (set_wb (wb.landed share paths) f).
Proof. apply (walksSub_set share); [intros s E|intros E]; unfold wb.landed; rewrite E; [eexists; split|]; done. Qed.

Lemma walksSub_try share a l f : walksSub f (set_wb (wb.try_ share a l) f).
Proof. apply (walksSub_set share); [intros s E|intros E]; unfold wb.try_; rewrite E; [eexists; split|]; done. Qed.

Lemma walksSub_forget share pending f : walksSub f (set_wb (wb.forget share pending) f).
Proof.
  apply (walksSub_set share); [intros s E|intros E]; unfold wb.forget; rewrite E; [eexists; split; [done|]|done].
  apply keep_only_sub.
Qed.

Lemma walksSub_keptNow share kept m f : walksSub f (set_wb (λ w, fst (wb.keptNow share kept m w)) f).
Proof.
  apply (walksSub_set share); [intros s E|intros E]; unfold wb.keptNow; rewrite E; [|done].
  destruct (foldl _ _ _) as [m' newly]. by eexists.
Qed.

Lemma walksSub_drop share f : walksSub f (forget share f).
Proof. intros sh s' dir l. cbn [forget sh_wb]. unfold wb.drop. rewrite lookup_delete_Some. intros [_ ?]. eauto. Qed.

Lemma walksSub_commit loc lst share acts added removed f : walksSub f (commit loc lst share acts added removed f).
Proof.
  unfold commit. eapply walksSub_trans; [|apply walksSub_landed]. apply walksSub_wb.
  destruct (editRecord_doms (fst (editRecord share added true (rebase loc lst share acts f))) share removed false) as (_ & _ & _ & _ & ->).
  destruct (editRecord_doms (rebase loc lst share acts f) share added true) as (_ & _ & _ & _ & ->).
  unfold rebase. by destruct (sh_manifests f !! share).
Qed.

Section pass_walks.
Context (CT : option (D → string → option Time)) (now : Time) (share : string) (change : gmap string Change) (actionOf : gmap string action).

Local Hint Resolve walksSub_refl walksSub_sayOnce walksSub_skipped walksSub_stall walksSub_recovered walksSub_landed
  walksSub_try walksSub_forget walksSub_keptNow walksSub_commit : walks.

Lemma walksSub_failed path e (p : writePass D) : walksSub (p_shares p) (p_shares (failed share change path e p)).
Proof. unfold failed. destruct (negb _); cbn; auto with walks. Qed.
Local Hint Resolve walksSub_failed : walks.

Lemma walksSub_failed_of path e (p p0 : writePass D) :
  p_shares p0 = p_shares p → walksSub (p_shares p) (p_shares (failed share change path e p0)).
Proof. intros <-. apply walksSub_failed. Qed.

Lemma removeDir_walks a (p : writePass D) : walksSub (p_shares p) (p_shares (removeDir share change a p)).
Proof.
  unfold removeDir. destruct (Lstat _ _) as [i|e]; [|destruct (ge_notExist e); [cbn|]; auto with walks].
  destruct (negb (IsDir i)); [cbn; auto with walks|]. destruct (Remove _ _) as [d [e|]]; [|cbn; auto with walks].
  destruct (negb _); [cbn; auto with walks|]. apply (walksSub_failed (a_Path a) e (with_disk d p)).
Qed.

Lemma remove_walks path (p : writePass D) : walksSub (p_shares p) (p_shares (remove CT share change actionOf path p)).
Proof.
  unfold remove. destruct (a_Dir _); [apply removeDir_walks|]. destruct (negb _); [cbn; auto with walks|].
  destruct (Remove _ _) as [d [e|]]; [|cbn; auto with walks]. destruct (ge_notExist e); [cbn; auto with walks|].
  apply (walksSub_failed path e (with_disk d p)).
Qed.

Lemma landOne_walks a (p : writePass D) : walksSub (p_shares p) (p_shares (landOne CT rand share change p a)).
Proof.
  unfold landOne. destruct (a_kind a); auto with walks; unfold link, mkdir, chmod; (destruct (negb (stillAsSeen _ _ _)); [cbn; auto with walks|]).
  - destruct (landLink _ _ _ _) as [d [e|]]; [by apply walksSub_failed_of|cbn; auto with walks].
  - destruct (MkdirAll _ _) as [d [e|]]; [by apply walksSub_failed_of|cbn; auto with walks].
  - destruct (match Stat _ _ with Ok _ => _ | Err _ => _ end) as [d [e|]]; [by apply walksSub_failed_of|].
    destruct (Stat d _); [|cbn; auto with walks]. destruct (negb _); cbn; auto with walks.
Qed.

Lemma pullOne_walks fl (s : pulling) :
  walksSub (p_shares (pu_pass s)) (p_shares (pu_pass (pullOne CT EqualFold rand share change actionOf s fl))).
Proof.
  unfold pullOne. destruct (pu_abort s); [auto with walks|]. destruct (negb _); [destruct (change !! _); cbn; auto with walks|].
  pose proof (land_shares EqualFold rand actionOf fl (λ d, stillAsSeen CT d (actionAt actionOf (f_Path fl))) (pu_pass s)) as E.
  destruct (land _ _ _ _ _ _) as [p1 [e|]]; cbn [fst] in E; rewrite <- E; [|cbn; auto with walks].
  destruct (ge_changedHere e); [cbn; auto with walks|]. case_bool_decide; [cbn; auto with walks|]. apply walksSub_failed.
Qed.

Lemma foldl_walks {A B} (sh : B → shares) (step : B → A → B) l b :
  (∀ b x, walksSub (sh b) (sh (step b x))) → walksSub (sh b) (sh (foldl step b l)).
Proof.
  intros Hs. revert b. induction l as [|x l IH]; intros b; cbn [foldl]; [apply walksSub_refl|].
  eapply walksSub_trans; [apply Hs|apply IH].
Qed.

Lemma pull_walks answer chunk (p : writePass D) :
  walksSub (p_shares p) (p_shares (fst (pull CT EqualFold rand now share change actionOf answer chunk p))).
Proof.
  unfold pull. pose proof (foldl_walks (λ s, p_shares (pu_pass s)) (pullOne CT EqualFold rand share change actionOf) (pa_files answer)
    {| pu_pass := p; pu_wrote := []; pu_abort := None |} (λ s fl, pullOne_walks fl s)) as Hf. cbn [pu_pass] in Hf.
  destruct (pu_abort _) as [[e first]|]; [|destruct (pa_err answer)]; cbn;
    (eapply walksSub_trans; [exact Hf|]); [|apply walksSub_commit..].
  eapply walksSub_trans; [apply walksSub_commit|apply walksSub_stall].
Qed.

Lemma pullAll_walks Pull chunks (p : writePass D) :
  walksSub (p_shares p) (p_shares (pullAll CT EqualFold rand now share change actionOf Pull chunks p)).
Proof.
  revert p. induction chunks as [|c chunks IH]; intros p; cbn [pullAll]; [apply walksSub_refl|].
  pose proof (pull_walks (Pull c) c p) as Hp. destruct (pull _ _ _ _ _ _ _ _ _ _) as [p' []]; [|done].
  eapply walksSub_trans; [exact Hp|apply IH].
Qed.

Lemma run_walks Pull actions (p : writePass D) :
  walksSub (p_shares p) (p_shares (fst (run CT EqualFold rand now share change actionOf Pull actions p))).
Proof.
  unfold run. set (p1 := foldl _ p _). set (p2 := foldl _ p1 _). set (p3 := adopt _ _ _ p2).
  set (p4 := pullAll _ _ _ _ _ _ _ _ _ _).
  assert (walksSub (p_shares p) (p_shares p4)) as H4.
  { eapply walksSub_trans; [apply (foldl_walks p_shares (λ p path, remove CT share change actionOf path p) (deletes actions)); intros; apply remove_walks|].
    eapply walksSub_trans; [apply (foldl_walks p_shares (landOne CT rand share change) actions); intros; apply landOne_walks|].
    eapply (walksSub_trans _ (p_shares p3)); [|exact (pullAll_walks Pull _ (with_tried _ p3))]. unfold p3, adopt. destruct (filter _ _); [apply walksSub_refl|]. cbn. apply walksSub_commit. }
  destruct (p_aborted p4); [|destruct (p_fetchErr p4); [|destruct (0 <? p_soft p4)]]; cbn;
    (eapply walksSub_trans; [exact H4|]); [apply walksSub_try|..];
    (eapply walksSub_trans; [|apply walksSub_try]); auto with walks.
Qed.

End pass_walks.

Lemma dropMarkers_walks share changes f : walksSub f (fst (dropMarkers share changes f)).
Proof.
  unfold dropMarkers. apply (foldl_walks fst _ changes (f, [])). intros [f0 out] ch.
  destruct (overlayMarker _); [apply walksSub_skipped|apply walksSub_refl].
Qed.

Lemma dropClashes_walks share d manifest changes f :
  walksSub f (fst (fst (dropClashes EqualFold share d ∅ manifest changes f))).
Proof.
  unfold dropClashes. apply (foldl_walks (λ x, fst (fst x)) _ changes (f, ∅, [])). intros [[f0 n] out] ch. unfold dropClash.
  destruct (_ && _); [|apply walksSub_refl]. destruct (names.clash _ _ _ _) as [n' [e|]]; [apply walksSub_skipped|apply walksSub_refl].
Qed.

Lemma sayWins_walks share actions f : walksSub f (sayWins share actions f).
Proof. apply (foldl_walks id). intros f0 a. unfold id. destruct (a_Wins a); [apply walksSub_sayOnce|apply walksSub_refl]. Qed.

(** ** A round over one share *)

(** The paths a pass may touch: those the consumer reported, and those under a
    directory it reported removed or replaced that the consumer confirmed it does
    not have. *)
Definition mayTouch (env : PassEnv D) (d : D) (manifest : gmap string Baseline) (reported : list Change) (p : string) : Prop :=
  p ∈ ch_Path <$> reported ∨ (saidAbsent (pe_Present env) p ∧ candidate d manifest reported p).

Definition reportedRels (env : PassEnv D) (d : D) (manifest : gmap string Baseline) (reported : list Change) (q : string) : Prop :=
  ∃ p, q = relPath p ∧ mayTouch env d manifest reported p.

(** What a round relies on of the paths it may touch: they are written as the share
    writes them, none is a temporary of write-back or lies under one, no link of
    this machine is on the way to one, and nothing is reported under a path that is
    reported as a link. *)
Record ordinary (env : PassEnv D) (d : D) (manifest : gmap string Baseline) (reported : list Change) : Prop := {
  or_plain : ∀ p, mayTouch env d manifest reported p → plainName rand p;
  or_tmp : offTmp rand (reportedRels env d manifest reported);
  or_straight : roads (reportedRels env d manifest reported) d;
  or_links : ∀ ch ch', ch ∈ reported → ch' ∈ reported → ch_Link ch ≠ ""%string →
    ¬ above (relPath (ch_Path ch)) (relPath (ch_Path ch'))
}.

(** What an implied deletion decides to lands nothing. *)
Lemma implied_lands m rec loc ct skew margin ex hidden p a :
  a ∈ fst (decideOne m rec loc ct skew margin ex (impliedChange hidden p)) → lands a = false.
Proof.
  unfold decideOne, decideHeld, keep. cbn [impliedChange ch_Path ch_Link ch_Opaque ch_Dir ch_Deleted ch_Changed ch_ModTime].
  intros Ha. cbv zeta in Ha. split_in Ha; try (by apply elem_of_nil in Ha); by apply list_elem_of_singleton in Ha as ->.
Qed.

Lemma decideOne_no_link m rec loc ct skew margin ex ch a :
  a ∈ fst (decideOne m rec loc ct skew margin ex ch) → a_kind a ≠ kindLink.
Proof.
  unfold decideOne, decideHeld, keep. intros Ha. cbv zeta in Ha.
  split_in Ha; try (by apply elem_of_nil in Ha); by apply list_elem_of_singleton in Ha as ->.
Qed.

Lemma decideLink_spec m loc ch a : a ∈ decideLink m loc ch → a_Path a = ch_Path ch ∧ ch_Link ch ≠ ""%string.
Proof.
  unfold decideLink. case_bool_decide as El; [by intros ?%elem_of_nil|]. intros Ha.
  split_in Ha; try (by apply elem_of_nil in Ha); by apply list_elem_of_singleton in Ha as ->.
Qed.

(** Where an action came from: a reported change, or an implied deletion. *)
Lemma decideShare_spec env share recorded d reported changes f :
  (∀ ch, ch ∈ changes → ch ∈ reported) → listingsUnder (sh_wb f) →
  let r := decideShare EqualFold env share recorded d reported changes f in
  listingsUnder (sh_wb (r.1.1.1)) ∧
  ∀ a, a ∈ r.2 →
    (∃ ch, ch ∈ reported ∧ a_Path a = ch_Path ch ∧ (a_kind a = kindLink → ch_Link ch ≠ ""%string)) ∨
    (saidAbsent (pe_Present env) (a_Path a) ∧ candidate d (manifestOf f share) reported (a_Path a) ∧ lands a = false).
Proof.
  intros Hc Hf. unfold decideShare. pose proof (dropClashes_walks share d (manifestOf f share) changes f) as W1.
  pose proof (dropClashes_spec share d (manifestOf f share) changes f) as [_ H1'].
  destruct (dropClashes _ _ _ _ _ _ _) as [[f1 n] changes1]. cbn [fst snd] in H1', W1.
  pose proof (impliedDeletions_spec env share d (manifestOf f share) reported f1 (walksSub_listings _ _ W1 Hf)) as [W2 H2'].
  destruct (impliedDeletions _ _ _ _ _ _) as [f2 implied]. cbn [fst snd] in *. cbn zeta. split.
  { by apply (walksSub_listings f2); [apply walksSub_forget|]. }
  intros a [(ch & a0 & Hin & Ha0 & ->)%elem_of_decide|(ch & Hin & Ha)%elem_of_decideLinks]%elem_of_app; apply elem_of_app in Hin as [Hin|Hin].
  - left. exists ch. split_and!; [auto|by apply (decideOne_path _ _ _ _ _ _ _ _ _ Ha0)|]. intros Hk. by apply decideOne_no_link in Ha0.
  - right. destruct (H2' _ Hin) as (E & Hs & Hcd). pose proof (decideOne_path _ _ _ _ _ _ _ _ _ Ha0) as Hp. rewrite E in Ha0.
    cbn [setSeen a_Path]. rewrite Hp. split_and!; [done..|]. by apply implied_lands in Ha0.
  - apply decideLink_spec in Ha as [Hp Hl]. left. exists ch. split_and!; auto.
  - apply decideLink_spec in Ha as [_ Hl]. destruct (H2' _ Hin) as (E & _). by rewrite E in Hl.
Qed.

(** C1 (safety). One round over a share, whatever errors the disk and the store
    answer with: this machine's files change only at paths the consumer reported,
    or that lie under a directory it reported removed or replaced and that it
    confirmed it does not have; every other entry keeps its bytes, its time and its
    kind, and the only new names are directories above such a path where nothing
    was, and temporaries.  It holds of a store that hands over only the files it is
    asked for; for paths written as shares write them, no temporaries nor under
    one, with none of this machine's links on the way and nothing reported under a
    reported link (a link on the way is followed, and what it leads to is written);
    and while the listings kept of removed directories are of those directories,
    which a round keeps true. *)
Theorem round_touches_only_reported env share force c reported :
  let manifest := manifestOf (cs_shares c) share in
  honest (pe_Pull env) → pe_Changes env = ChangesOk reported →
  ordinary env (cs_disk c) manifest reported → listingsUnder (sh_wb (cs_shares c)) →
  let c' := fst (writeBackShare EqualFold rand env share force c) in
  confined rand (reportedRels env (cs_disk c) manifest reported) (cs_disk c) (cs_disk c') ∧
  listingsUnder (sh_wb (cs_shares c')).
Proof.
  intros manifest Hh HC [Hpl Htmp Hst Hlk] Hls. cbv zeta. unfold writeBackShare.
  destruct (sh_roots _ !! share); [|by split; [apply confined_refl|]].
  destruct (negb _); [by split; [apply confined_refl|]|]. destruct (_ && _); [by split; [apply confined_refl|]|]. rewrite HC.
  set (c1 := rememberChanges _ _ _ c).
  pose proof (dropMarkers_walks share (wb.unskipped share reported (sh_wb (cs_shares c1))) (cs_shares c1)) as W2.
  pose proof (dropMarkers_spec share (wb.unskipped share reported (sh_wb (cs_shares c1))) (cs_shares c1)) as [[Hman _] Hdm].
  destruct (dropMarkers _ _ _) as [f2 changes]. cbn [fst snd] in Hman, Hdm, W2.
  assert (L2 : listingsUnder (sh_wb f2)) by (by eapply walksSub_listings).
  assert (manifestOf f2 share = manifest) as Em by (unfold manifest, manifestOf; by rewrite Hman).
  assert (Hsub : ∀ ch, ch ∈ changes → ch ∈ reported).
  { intros ch Hch. apply Hdm in Hch. unfold wb.unskipped in Hch. destruct (_ !! share); [|done].
    case_bool_decide; [done|]. by apply list_elem_of_filter in Hch as [_ ?]. }
  destruct changes as [|ch0 changes].
  { split; [apply confined_refl|]. cbn [fst on_shares cs_shares]. eapply walksSub_listings; [|exact L2].
    eapply walksSub_trans; [apply walksSub_forget|apply walksSub_recovered]. }
  destruct (pe_OpenRoot env).
  { split; [apply confined_refl|]. cbn [fst on_shares cs_shares]. eapply walksSub_listings; [|exact L2]. apply walksSub_stall. }
  pose proof (decideShare_spec env share (recordedOf (cs_shares c) share) (cs_disk c) reported (ch0 :: changes) f2 Hsub L2) as [L3 Hp].
  cbn [on_shares cs_disk cs_shares c1 rememberChanges cs_rand cs_changed].
  destruct (decideShare _ _ _ _ _ _ _ _) as [[[f3 n] changes'] actions]. cbn [fst snd] in Hp, L3. rewrite Em in Hp.
  set (f4 := set_wb _ (sayWins share actions f3)).
  assert (L4 : listingsUnder (sh_wb f4)).
  { eapply walksSub_listings; [|exact L3]. eapply walksSub_trans; [apply sayWins_walks|apply walksSub_keptNow]. }
  destruct (_ =? _)%nat.
  { split; [apply confined_refl|]. cbn [fst on_shares cs_shares]. eapply walksSub_listings; [|exact L4]. apply walksSub_recovered. }
  assert (Htouch : ∀ a, a ∈ actions → mayTouch env (cs_disk c) manifest reported (a_Path a)).
  { intros a [(ch & Hch & -> & _)|(? & ? & _)]%Hp; [left; apply list_elem_of_fmap; eauto|by right]. }
  assert (Hrel : ∀ q, decidedRels actions q → reportedRels env (cs_disk c) manifest reported q).
  { intros q (a & Ha & ->). exists (a_Path a). auto. }
  match goal with |- context [run ?a ?b ?r ?nw ?s ?ch ?ac ?pl ?acts ?p] =>
    pose proof (run_confined a b r nw s ch pl acts p Hh) as Hrun; pose proof (run_walks a nw s ch ac pl acts p) as Hwk;
    destruct (run a b r nw s ch ac pl acts p) as [p' res] end.
  cbn [fst p_disk newPass cs_disk p_shares cs_shares] in *. split; [|by eapply walksSub_listings].
  apply (confined_mono rand (decidedRels actions)); [done|]. apply Hrun. split.
  - intros a Ha. apply Hpl. auto.
  - intros r u Hr. apply Htmp. auto.
  - intros r Hr. apply Hst. auto.
  - intros a b Ha Hb Hka Hlb. destruct (Hp a Ha) as [(ch & Hch & -> & Hl)|(_ & _ & Hla)]; [|unfold lands in Hla; by rewrite Hka in Hla].
    destruct (Hp b Hb) as [(ch' & Hch' & -> & _)|(_ & _ & Hlb')]; [|congruence]. apply Hlk; auto.
Qed.


Section rounds.
Context (env : string → nat → PassEnv D) (cancelled : string → nat → bool).

(** A cache whose every share is ephemeral has nothing to write
    back, and a round over it does nothing: it asks no share, lands nothing and
    reports on none. *)
Theorem ephemeral_round_is_empty force c :
  WritesBack (cs_shares c) = false →
  round EqualFold rand env cancelled force (map_to_list (sh_roots (cs_shares c))).*1 c = (c, 0, ∅).
Proof.
  unfold WritesBack, round. generalize ((map_to_list (sh_roots (cs_shares c))).*1). intros l.
  induction l as [|share l IH]; simpl; [done|]. intros [He Hl]%orb_false_iff.
  apply negb_false_iff in He. rewrite He. auto.
Qed.

End rounds.

End round_proofs.
