(* ===== verification/Tree.v ===== *)
(** * The prefetch tree (dircache/tree.go)

    Small files in walk order, cut into leaves under a tree of branching [k];
    reads are evidence, and a node is fetched whole once enough of it is in use.

    A node is an inductive value.  The parallel slices [entries] and [state] of a
    leaf are one list of cells.  The pointer a path maps to is the number of its
    leaf, counted left to right: [build] groups consecutive items, so it never
    reorders leaves.  What the code does along parent pointers (adding to every
    ancestor's counters, climbing from the leaf) is done on the way back up from
    the leaf.  [float64] is [SpecFloat]'s binary64; byte counts are [Z], since
    every file in the tree is at most [LargeFile]. *)

From Stdlib Require Import SpecFloat.
From S2P Require Import Prelude GoStrings GoTime DirTypes.
Open Scope Z_scope.

(** ** float64 *)

Module float64.
Definition t : Type := spec_float.
Definition ofZ (z : Z) : t := binary_normalize 53 1024 z 0 false.
Definition mul (a b : t) : t := SFmul 53 1024 a b.
Definition div (a b : t) : t := SFdiv 53 1024 a b.
Definition add (a b : t) : t := SFadd 53 1024 a b.
Definition leb (a b : t) : bool := SFleb a b.
Definition ltb (a b : t) : bool := SFltb a b.

(** The conversion to [int64], toward zero; out of range, and for a NaN, what
    amd64 answers. *)
Definition toZ (f : t) : Z :=
  match f with
  | S754_zero _ => 0
  | S754_finite s m e =>
      let mag := if 0 <=? e then Z.pos m * 2 ^ e else Z.pos m / 2 ^ (- e) in
      let v := if s then - mag else mag in
      if (-2^63 <=? v) && (v <? 2^63) then v else -2^63
  | _ => -2^63
  end.

Definition minf (a b : t) : t := if ltb b a then b else a.
Definition maxf (a b : t) : t := if ltb a b then b else a.

(** The nearest doubles to 0.05 and 0.6. *)
Definition f0_05 : t := S754_finite false 7205759403792794 (-57).
Definition f0_6 : t := S754_finite false 5404319552844595 (-53).
End float64.

(** [Duration.Seconds]. *)
Definition Seconds (d : Duration) : float64.t :=
  float64.add (float64.ofZ (Z.quot d Second)) (float64.div (float64.ofZ (Z.rem d Second)) (float64.ofZ 1000000000)).

(** ** Link and layout *)

Record Link := {
  lk_RTT : Duration;
  lk_Bandwidth : Z
}.

Definition BDP (l : Link) : Z :=
  if (lk_Bandwidth l <=? 0) || (lk_RTT l <=? 0) then 0
  else float64.toZ (float64.mul (float64.ofZ (lk_Bandwidth l)) (Seconds (lk_RTT l))).

Record Layout := {
  ly_Link : Link;
  ly_LargeFile : Z;
  ly_LeafBytes : Z;
  ly_WindowLeaves : Z;
  ly_Branching : Z;
  ly_MaxFetchBDP : float64.t;
  ly_FMin : float64.t;
  ly_NodePromote : float64.t
}.

Definition defaultLargeFile : Z := 1048576.
Definition defaultLeafBytes : Z := 262144.
Definition defaultWindowLeaves : Z := 32.
Definition defaultBranching : Z := 2.

(** [withDefaults]; the error is [ErrBranching] with the number got. *)
Definition withDefaults (l : Layout) : res Z Layout :=
  let branching := if ly_Branching l =? 0 then defaultBranching else ly_Branching l in
  if branching <? 2 then Err branching
  else Ok {| ly_Link := ly_Link l;
             ly_LargeFile := if ly_LargeFile l <=? 0 then defaultLargeFile else ly_LargeFile l;
             ly_LeafBytes := if ly_LeafBytes l <=? 0 then defaultLeafBytes else ly_LeafBytes l;
             ly_WindowLeaves := if ly_WindowLeaves l <=? 0 then defaultWindowLeaves else ly_WindowLeaves l;
             ly_Branching := branching;
             ly_MaxFetchBDP := if float64.leb (ly_MaxFetchBDP l) (float64.ofZ 0) then float64.ofZ 4 else ly_MaxFetchBDP l;
             ly_FMin := if float64.leb (ly_FMin l) (float64.ofZ 0) then float64.f0_05 else ly_FMin l;
             ly_NodePromote := if float64.leb (ly_NodePromote l) (float64.ofZ 0) then float64.f0_6 else ly_NodePromote l |}.

(** ** Nodes *)

Record fileState := {
  fs_stored : bool;
  fs_read : Z
}.

Definition newFile : fileState := {| fs_stored := false; fs_read := 0 |}.

Abbreviation cell := (Entry * fileState)%type.

Record counters := {
  n_bytes : Z;
  n_fetched : Z;
  n_read : Z;
  n_files : Z;
  n_fetchedFiles : Z
}.

Definition zeroc : counters := {| n_bytes := 0; n_fetched := 0; n_read := 0; n_files := 0; n_fetchedFiles := 0 |}.
Definition addc (a b : counters) : counters :=
  {| n_bytes := n_bytes a + n_bytes b; n_fetched := n_fetched a + n_fetched b; n_read := n_read a + n_read b;
     n_files := n_files a + n_files b; n_fetchedFiles := n_fetchedFiles a + n_fetchedFiles b |}.
Definition subc (a b : counters) : counters :=
  {| n_bytes := n_bytes a - n_bytes b; n_fetched := n_fetched a - n_fetched b; n_read := n_read a - n_read b;
     n_files := n_files a - n_files b; n_fetchedFiles := n_fetchedFiles a - n_fetchedFiles b |}.

#[warnings="-register-all"]
Inductive node := Node (kids : list node) (cells : list cell) (c : counters).

Definition n_kids (n : node) : list node := let 'Node k _ _ := n in k.
Definition n_cells (n : node) : list cell := let 'Node _ l _ := n in l.
Definition n_counters (n : node) : counters := let 'Node _ _ c := n in c.

Definition leaf (n : node) : bool := match n_kids n with [] => true | _ => false end.
Definition unfetched (n : node) : Z := n_bytes (n_counters n) - n_fetched (n_counters n).
Definition unfetchedFiles (n : node) : Z := n_files (n_counters n) - n_fetchedFiles (n_counters n).

(** [unread]. *)
Definition unread (n : node) : bool :=
  existsb (λ '(e, st), negb (fs_stored st) && (fs_read st <? e_Size e)) (n_cells n).

(** The leaves under a node, left to right, and how many they are. *)
Fixpoint leavesOf (n : node) : list (list cell) :=
  let 'Node kids cells _ := n in
  match kids with
  | [] => [cells]
  | _ => mjoin (leavesOf <$> kids)
  end.
Definition nleaves (n : node) : nat := length (leavesOf n).

(** The files under a node. *)
Definition cellsOf (n : node) : list cell := mjoin (leavesOf n).

(** ** Laying out *)

(** [bySizePath], as a boolean order. *)
Definition bySizePath (a b : Entry) : bool :=
  (e_Size a <? e_Size b) || ((e_Size a =? e_Size b) && string_leb (e_Path a) (e_Path b)).

Record placed := {
  pl_n : node;
  pl_level : Z
}.

(** [emit]: a fresh leaf. *)
Definition emit (entries : list Entry) (level : Z) : placed :=
  {| pl_n := Node [] ((λ e, (e, newFile)) <$> entries)
       {| n_bytes := foldr (λ e s, e_Size e + s) 0 entries; n_fetched := 0; n_read := 0;
          n_files := Z.of_nat (length entries); n_fetchedFiles := 0 |};
     pl_level := level |}.

(** [levelFor]: the loop doubles [span] until it holds the file. *)
Fixpoint levelFor_loop (fuel : nat) (span size level : Z) : Z :=
  match fuel with
  | O => level
  | S fuel' => if span <? size then levelFor_loop fuel' (span * 2) size (level + 1) else level
  end.

Section layout.
Context (layout : Layout).

(** [size] below 2^63 and a span of at least one: 63 doublings are enough,
    as the theorem on the level shows. *)
Definition levelFor (size : Z) : Z := levelFor_loop 63 (ly_LeafBytes layout) size 0.

(** [cut]: one entry, then the window. The accumulator is [out], [cur] and
    [size]. *)
Definition cut_one (acc : list placed * list Entry * Z) (e : Entry) : list placed * list Entry * Z :=
  let '(out, cur, size) := acc in
  if ly_LeafBytes layout <? e_Size e then
    let out' := match cur with [] => out | _ => out ++ [emit cur 0] end in
    (out' ++ [emit [e] (levelFor (e_Size e))], [], match cur with [] => size | _ => 0 end)
  else
    let '(out', cur', size') :=
      if (ly_LeafBytes layout <? size + e_Size e) && match cur with [] => false | _ => true end
      then (out ++ [emit cur 0], [], 0) else (out, cur, size) in
    (out', cur' ++ [e], size' + e_Size e).

Definition cut (window : list Entry) : list placed :=
  let '(out, cur, _) := foldl cut_one ([], [], 0) window in
  match cur with [] => out | _ => out ++ [emit cur 0] end.

(** [place]: the accumulator is [out], [window] and [acc]. *)
Definition flushWindow (out : list placed) (window : list Entry) : list placed :=
  match window with [] => out | _ => out ++ cut (stable_sort bySizePath window) end.

Definition place_one (acc : list placed * list Entry * Z) (e : Entry) : list placed * list Entry * Z :=
  let '(out, window, a) := acc in
  let window' := window ++ [e] in
  let a' := a + e_Size e in
  if ly_LeafBytes layout * ly_WindowLeaves layout <=? a' then (flushWindow out window', [], 0)
  else (out, window', a').

Definition place (entries : list Entry) : list placed :=
  let '(out, window, _) := foldl place_one ([], [], 0) entries in flushWindow out window.

(** [build]: the run of at most [k] items at or below [level] that starts the
    list, and what follows it. *)
Fixpoint takeRun (k : nat) (level : Z) (items : list placed) : list placed * list placed :=
  match k, items with
  | S k', x :: rest =>
      if pl_level x <=? level then let '(run, rest') := takeRun k' level rest in (x :: run, rest')
      else ([], items)
  | _, _ => ([], items)
  end.

Definition parentOf (run : list placed) : node :=
  Node (pl_n <$> run) [] (foldr (λ p c, addc (n_counters (pl_n p)) c) zeroc run).

(** One level of [build]. *)
Fixpoint buildLevel (fuel : nat) (level : Z) (items : list placed) : list placed :=
  match fuel, items with
  | S fuel', x :: rest =>
      if level <? pl_level x then x :: buildLevel fuel' level rest
      else
        let '(run, rest') := takeRun (Z.to_nat (ly_Branching layout)) level items in
        match run with
        | [y] => {| pl_n := pl_n y; pl_level := level + 1 |} :: buildLevel fuel' level rest'
        | _ => {| pl_n := parentOf run; pl_level := level + 1 |} :: buildLevel fuel' level rest'
        end
  | _, _ => []
  end.

Fixpoint build_loop (fuel : nat) (level : Z) (items : list placed) : option node :=
  match items with
  | [] => None
  | [x] => Some (pl_n x)
  | _ => match fuel with
         | O => None
         | S fuel' => build_loop fuel' (level + 1) (buildLevel (length items) level items)
         end
  end.

(** The levels to climb before every item can be paired, and then one per item
    are enough ([build_total]). *)
Definition buildFuel (items : list placed) : nat :=
  (Z.to_nat (foldr (λ p m, Z.max (pl_level p + 1) m) 0 items)%Z + length items)%nat.

Definition build (items : list placed) : option node :=
  match items with
  | [] => Some (Node [] [] zeroc)
  | _ => build_loop (buildFuel items) 0 items
  end.

End layout.

(** ** Finding and changing files *)

(** [where], as [emit] fills it: leaf by leaf, the last of a path winning. *)
Definition whereLeaf (m : gmap string (nat * nat)) (k : nat) (p : placed) : gmap string (nat * nat) :=
  foldl (λ m '(i, c), <[e_Path (fst c) := (k, i)]> m) m (imap pair (n_cells (pl_n p))).
Definition whereOf (items : list placed) : gmap string (nat * nat) :=
  foldl (λ m '(k, p), whereLeaf m k p) ∅ (imap pair items).

(** The kid that has the [k]-th leaf is replaced by what [f] makes of it. *)
Definition onKid {A} (f : node → nat → node * A) (none : A) : list node → nat → list node * A :=
  fix go (l : list node) (k : nat) :=
    match l with
    | [] => ([], none)
    | x :: rest =>
        if (k <? nleaves x)%nat then let '(x', a) := f x k in (x' :: rest, a)
        else let '(rest', a) := go rest (k - nleaves x)%nat in (x :: rest', a)
    end.

(** [leaf.entries[idx]] with [leaf.state[idx]], for the [k]-th leaf under [n]. *)
Definition cellAt (n : node) (k i : nat) : option cell :=
  match leavesOf n !! k with Some cells => cells !! i | None => None end.

(** A file's state is replaced, and what the code adds to its leaf's counters is
    added to every node above too ([addRead], [addFetched]). *)
Definition onCell (g : cell → cell * counters) (cells : list cell) (i : nat) : list cell * counters :=
  match cells !! i with
  | Some x => let '(x', dl) := g x in (<[i := x']> cells, dl)
  | None => (cells, zeroc)
  end.

Fixpoint update (g : cell → cell * counters) (n : node) (k i : nat) : node * counters :=
  let 'Node kids cells c := n in
  match kids with
  | [] => let '(cells', dl) := onCell g cells i in (Node [] cells' (addc c dl), dl)
  | _ => let '(kids', dl) := onKid (λ x k, update g x k i) zeroc kids k in (Node kids' cells (addc c dl), dl)
  end.

(** [markStored], on one file. *)
Definition markStored (x : cell) : cell * counters :=
  let '(e, st) := x in
  ((e, {| fs_stored := true; fs_read := 0 |}),
   {| n_bytes := 0; n_fetched := e_Size e; n_read := - Z.min (fs_read st) (e_Size e); n_files := 0; n_fetchedFiles := 1 |}).

(** What [Unstore] does to one file, for the entry it was given. *)
Definition unmark (size : Z) (x : cell) : cell * counters :=
  let '(e, st) := x in
  ((e, {| fs_stored := false; fs_read := fs_read st |}),
   {| n_bytes := 0; n_fetched := - size; n_read := 0; n_files := 0; n_fetchedFiles := -1 |}).

(** What [Read] does to one file that is not stored: [n] more bytes of it read. *)
Definition addReadTo (n : Z) (x : cell) : cell * counters :=
  let '(e, st) := x in
  let before := Z.min (fs_read st) (e_Size e) in
  let after := Z.min (fs_read st + n) (e_Size e) in
  ((e, {| fs_stored := fs_stored st; fs_read := after |}),
   {| n_bytes := 0; n_fetched := 0; n_read := if before <? after then after - before else 0; n_files := 0; n_fetchedFiles := 0 |}).

(** [fetch]: every file under [n] that is not stored is marked, and named. The
    stack takes a node's kids from the last to the first. *)
Definition fetchCells (cells : list cell) : list cell * counters :=
  foldr (λ x '(out, dl), if fs_stored (snd x) then (x :: out, dl)
                         else let '(x', dx) := markStored x in (x' :: out, addc dx dl)) ([], zeroc) cells.

Fixpoint fetchAll (n : node) : node * counters :=
  let 'Node kids cells c := n in
  match kids with
  | [] => let '(cells', dl) := fetchCells cells in (Node [] cells' (addc c dl), dl)
  | _ =>
      let '(kids', dl) := foldr (λ x '(out, dl), let '(x', dx) := fetchAll x in (x' :: out, addc dx dl)) ([], zeroc) kids in
      (Node kids' cells (addc c dl), dl)
  end.

Fixpoint unstoredOf (n : node) : list Entry :=
  let 'Node kids cells _ := n in
  match kids with
  | [] => fst <$> filter (λ x, fs_stored (snd x) = false) cells
  | _ => mjoin (List.rev (unstoredOf <$> kids))
  end.

(** ** The tree *)

Record Tree := {
  t_layout : Layout;
  t_root : node;
  t_entries : list Entry;
  t_where : gmap string (nat * nat)
}.

Definition with_root (n : node) (t : Tree) : Tree :=
  {| t_layout := t_layout t; t_root := n; t_entries := t_entries t; t_where := t_where t |}.

(** [SetLink]. *)
Definition SetLink (l : Link) (t : Tree) : Tree :=
  let y := t_layout t in
  {| t_layout := {| ly_Link := l; ly_LargeFile := ly_LargeFile y; ly_LeafBytes := ly_LeafBytes y;
                    ly_WindowLeaves := ly_WindowLeaves y; ly_Branching := ly_Branching y;
                    ly_MaxFetchBDP := ly_MaxFetchBDP y; ly_FMin := ly_FMin y; ly_NodePromote := ly_NodePromote y |};
     t_root := t_root t; t_entries := t_entries t; t_where := t_where t |}.

(** [account]: what a carried-over state adds to a fresh leaf. *)
Definition account (st : fileState) (size : Z) : counters :=
  if fs_stored st then {| n_bytes := 0; n_fetched := size; n_read := 0; n_files := 0; n_fetchedFiles := 1 |}
  else {| n_bytes := 0; n_fetched := 0; n_read := Z.min (fs_read st) size; n_files := 0; n_fetchedFiles := 0 |}.

Definition carry (st : fileState) (x : cell) : cell * counters := ((fst x, st), account st (e_Size (fst x))).

(** [rebuild]: the state of each path found before is carried to its new leaf,
    path by path. *)
Definition carryOne (old : string → option fileState) (items : list placed) (kv : string * (nat * nat)) : list placed :=
  let '(p, (k, i)) := kv in
  match old p with
  | None => items
  | Some st =>
      alter (λ it, {| pl_n := fst (update (carry st) (pl_n it) 0 i);
                      pl_level := pl_level it |}) k items
  end.

Definition oldState (t : Tree) (p : string) : option fileState :=
  match t_where t !! p with
  | Some (k, i) => snd <$> cellAt (t_root t) k i
  | None => None
  end.

Definition rebuild (layout : Layout) (entries : list Entry) (old : string → option fileState) : Tree :=
  let items := place layout (filter (λ e, e_Size e ≤ ly_LargeFile layout) entries) in
  let where_ := whereOf items in
  let items' := foldl (carryOne old) items (map_to_list where_) in
  {| t_layout := layout; t_root := default (Node [] [] zeroc) (build layout items'); t_entries := entries; t_where := where_ |}.

(** [NewTree] and [Add]. *)
Definition NewTree (entries : list Entry) (layout : Layout) : res Z Tree :=
  match withDefaults layout with
  | Err e => Err e
  | Ok l => Ok (rebuild l entries (λ _, None))
  end.

Definition Add (entries : list Entry) (t : Tree) : Tree :=
  rebuild (t_layout t) (t_entries t ++ entries) (oldState t).

(** [cached]. *)
Definition cached (t : Tree) (p : string) : bool :=
  match oldState t p with Some st => fs_stored st | None => false end.

(** [bdp], [cap] and [promote]. *)
Definition bdp (layout : Layout) : Z :=
  let b := BDP (ly_Link layout) in if 0 <? b then b else ly_LeafBytes layout.

Definition cap (layout : Layout) : Z := float64.toZ (float64.mul (ly_MaxFetchBDP layout) (float64.ofZ (bdp layout))).

Definition promote (layout : Layout) (n : node) : bool :=
  let c := n_counters n in
  if negb (leaf n) then
    float64.leb (float64.mul (ly_NodePromote layout) (float64.ofZ (n_bytes c))) (float64.ofZ (n_fetched c))
  else if negb (unread n) then false
  else
    let mean := float64.div (float64.ofZ (unfetched n)) (float64.ofZ (unfetchedFiles n)) in
    let f := float64.minf (float64.maxf (float64.div mean (float64.ofZ (bdp layout))) (ly_FMin layout)) (float64.ofZ 1) in
    float64.leb (float64.mul f (float64.ofZ (unfetched n))) (float64.ofZ (n_read c)).

(** [Read], climbing: what has been sent so far, and whether the climb stopped. *)
Record climb := {
  cl_out : list Entry;
  cl_total : Z;
  cl_broken : bool
}.

Definition sumSizes (l : list Entry) : Z := foldr (λ e s, e_Size e + s) 0 l.

(** One node of the climb. *)
Definition visit (layout : Layout) (n : node) (s : climb) : node * climb * counters :=
  if cl_broken s then (n, s, zeroc)
  else if unfetched n =? 0 then (n, s, zeroc)
  else if cap layout <? cl_total s + unfetched n
  then (n, {| cl_out := cl_out s; cl_total := cl_total s; cl_broken := true |}, zeroc)
  else if negb (promote layout n) then (n, s, zeroc)
  else
    let sent := unstoredOf n in
    let '(n', dl) := fetchAll n in
    (n', {| cl_out := cl_out s ++ sent; cl_total := cl_total s + sumSizes sent; cl_broken := false |}, dl).

Definition startClimb : climb := {| cl_out := []; cl_total := 0; cl_broken := false |}.

Fixpoint readFrom (layout : Layout) (bytes : Z) (n : node) (k i : nat) : node * (climb * counters) :=
  let 'Node kids cells c := n in
  match kids with
  | [] =>
      let '(cells', dl) := onCell (addReadTo bytes) cells i in
      let '(n', s, dl') := visit layout (Node [] cells' (addc c dl)) startClimb in
      (n', (s, addc dl dl'))
  | _ =>
      let '(kids', (s, dl)) := onKid (λ x k, readFrom layout bytes x k i) (startClimb, zeroc) kids k in
      let '(n', s', dl') := visit layout (Node kids' cells (addc c dl)) s in
      (n', (s', addc dl dl'))
  end.

Definition Read (p : string) (n : Z) (t : Tree) : Tree * list Entry :=
  match t_where t !! p with
  | None => (t, [])
  | Some (k, i) =>
      match cellAt (t_root t) k i with
      | Some (_, st) =>
          if fs_stored st then (t, [])
          else let '(root, (s, _)) := readFrom (t_layout t) n (t_root t) k i in (with_root root t, cl_out s)
      | None => (t, [])
      end
  end.

(** [MarkSent]. *)
Definition MarkSent (p : string) (t : Tree) : Tree :=
  match t_where t !! p with
  | None => t
  | Some (k, i) =>
      match cellAt (t_root t) k i with
      | Some (_, st) => if fs_stored st then t else with_root (fst (update markStored (t_root t) k i)) t
      | None => t
      end
  end.

(** [Unstore]. *)
Definition unstoreOne (t : Tree) (e : Entry) : Tree :=
  match t_where t !! e_Path e with
  | None => t
  | Some (k, i) =>
      match cellAt (t_root t) k i with
      | Some (_, st) => if fs_stored st then with_root (fst (update (unmark (e_Size e)) (t_root t) k i)) t else t
      | None => t
      end
  end.
Definition Unstore (entries : list Entry) (t : Tree) : Tree := foldl unstoreOne t entries.

(** [Stored] and [unstoredCount]. *)
Definition Stored (t : Tree) : Z * Z := (n_fetched (n_counters (t_root t)), n_fetchedFiles (n_counters (t_root t))).
Definition unstoredCount (t : Tree) : Z := unfetchedFiles (t_root t).

(** [Unstored]: the candidates with their locations, in the order the stack
    meets them, [base] leaves to the left of [n]. *)
Fixpoint leafCands (k i : nat) (cells : list cell) : list (nat * nat * Entry) :=
  match cells with
  | [] => []
  | (e, st) :: rest => if fs_stored st then leafCands k (S i) rest else (k, i, e) :: leafCands k (S i) rest
  end.

Definition kidsCands (f : node → nat → list (nat * nat * Entry)) : list node → nat → list (nat * nat * Entry) :=
  fix go (l : list node) (base : nat) :=
    match l with
    | [] => []
    | x :: rest => go rest (base + nleaves x)%nat ++ f x base
    end.

Fixpoint candsOf (n : node) (base : nat) : list (nat * nat * Entry) :=
  let 'Node kids cells _ := n in
  match kids with
  | [] => leafCands base 0 cells
  | _ => kidsCands candsOf kids base
  end.

Definition cand_leb (x y : nat * nat * Entry) : bool := bySizePath (snd x) (snd y).

(** The loop that takes candidates while the limits allow. *)
Fixpoint takeCands (maxBytes maxFiles : Z) (cands : list (nat * nat * Entry)) (out : list Entry) (size : Z) (n : node)
  : node * list Entry :=
  match cands with
  | [] => (n, out)
  | (k, i, e) :: rest =>
      if (maxFiles <=? Z.of_nat (length out)) ||
         (match out with [] => false | _ => true end && (maxBytes <? size + e_Size e)) then (n, out)
      else takeCands maxBytes maxFiles rest (out ++ [e]) (size + e_Size e) (fst (update markStored n k i))
  end.

Definition Unstored (maxBytes maxFiles : Z) (t : Tree) : Tree * list Entry :=
  if (maxFiles <=? 0) || (maxBytes <=? 0) then (t, [])
  else
    let '(root, out) := takeCands maxBytes maxFiles (stable_sort cand_leb (candsOf (t_root t) 0)) [] 0 (t_root t) in
    (with_root root t, out).
