(* ===== verification/TreeProofs.v ===== *)
(** * Properties of the prefetch tree (dircache/tree.go) *)

From S2P Require Import Prelude GoStrings GoTime DirTypes Tree.
Open Scope Z_scope.

(** ** Counters *)

Ltac counters :=
  repeat match goal with c : counters |- _ => destruct c end;
  unfold addc, subc, zeroc in *; simpl in *; f_equal; lia.

Lemma addc_assoc a b c : addc a (addc b c) = addc (addc a b) c.
Proof. counters. Qed.
Lemma addc_comm a b : addc a b = addc b a.
Proof. counters. Qed.
Lemma addc_zero_r a : addc a zeroc = a.
Proof. counters. Qed.
Lemma addc_zero_l a : addc zeroc a = a.
Proof. counters. Qed.

Definition sumc (l : list counters) : counters := foldr addc zeroc l.

Lemma sumc_app a b : sumc (a ++ b) = addc (sumc a) (sumc b).
Proof. induction a as [|x a IH]; simpl; [by rewrite addc_zero_l|]. by rewrite IH, addc_assoc. Qed.

(** What a file counts towards its leaf and every node above. *)
Definition cellc (x : cell) : counters :=
  let '(e, st) := x in
  {| n_bytes := e_Size e;
     n_fetched := if fs_stored st then e_Size e else 0;
     n_read := if fs_stored st then 0 else Z.min (fs_read st) (e_Size e);
     n_files := 1;
     n_fetchedFiles := if fs_stored st then 1 else 0 |}.

Definition cellsc (l : list cell) : counters := sumc (cellc <$> l).

Lemma cellsc_app a b : cellsc (a ++ b) = addc (cellsc a) (cellsc b).
Proof. unfold cellsc. by rewrite fmap_app, sumc_app. Qed.

(** ** Nodes *)

Section node_induction.
Context (P : node → Prop).
Context (Hleaf : ∀ cells c, P (Node [] cells c)).
Context (Hnode : ∀ x kids cells c, Forall P (x :: kids) → P (Node (x :: kids) cells c)).

Fixpoint node_induction (n : node) : P n :=
  match n with
  | Node kids cells c =>
      match kids with
      | [] => Hleaf cells c
      | x :: rest =>
          Hnode x rest cells c
            ((fix go (l : list node) : Forall P l :=
                match l with
                | [] => Forall_nil_2 P
                | y :: l' => Forall_cons_2 P y l' (node_induction y) (go l')
                end) (x :: rest))
      end
  end.
End node_induction.

(** Every node's counters are the sums of what is under it. *)
#[warnings="-register-all"]
Inductive wf : node → Prop :=
| wf_leaf cells : wf (Node [] cells (cellsc cells))
| wf_node x kids : Forall wf (x :: kids) → wf (Node (x :: kids) [] (sumc (n_counters <$> (x :: kids)))).

Lemma cellsOf_node x kids cells c : cellsOf (Node (x :: kids) cells c) = mjoin (cellsOf <$> (x :: kids)).
Proof.
  unfold cellsOf. cbn [leavesOf]. generalize (x :: kids). intros l.
  induction l as [|y l IH]; [done|]. rewrite !fmap_cons, !mjoin_cons, mjoin_app. by f_equal.
Qed.

Lemma cellsOf_leaf cells c : cellsOf (Node [] cells c) = cells.
Proof. unfold cellsOf. simpl. by rewrite app_nil_r. Qed.

Lemma cellsc_join (l : list (list cell)) : cellsc (mjoin l) = sumc (cellsc <$> l).
Proof. induction l as [|x l IH]; [done|]. rewrite mjoin_cons, cellsc_app, IH. reflexivity. Qed.

Lemma wf_counters n : wf n → n_counters n = cellsc (cellsOf n).
Proof.
  induction n as [cells c|x kids cells c IH] using node_induction; intros Hwf.
  - inversion Hwf. by rewrite cellsOf_leaf.
  - inversion Hwf as [|? ? Hk]; subst. rewrite cellsOf_node, cellsc_join.
    change (sumc (n_counters <$> x :: kids) = sumc (cellsc <$> (cellsOf <$> x :: kids))). f_equal.
    clear Hwf. revert IH Hk. generalize (x :: kids). intros l IH Hk.
    induction Hk as [|y l Hy Hl IHl]; [reflexivity|]. apply Forall_cons in IH as [IHy IH].
    rewrite !fmap_cons. f_equal; auto.
Qed.

(** ** Sending *)

(** A file the cache holds; what was read of it no longer counts. *)
Definition storedState : fileState := {| fs_stored := true; fs_read := 0 |}.

(** [l'] is [l] after sending [out]: each file of [out] was not stored and now
    is, and every other file is stored exactly if it was. *)
Inductive sends : list cell → list cell → list Entry → Prop :=
| sends_nil : sends [] [] []
| sends_keep e st st' l l' out :
    fs_stored st' = fs_stored st → (fs_stored st = true → st' = st) →
    sends l l' out → sends ((e, st) :: l) ((e, st') :: l') out
| sends_flip e st l l' out :
    fs_stored st = false → sends l l' out → sends ((e, st) :: l) ((e, storedState) :: l') (e :: out).

Lemma sends_refl l : sends l l [].
Proof. induction l as [|[e st] l IH]; by constructor. Qed.

Lemma sends_app l1 l1' o1 l2 l2' o2 :
  sends l1 l1' o1 → sends l2 l2' o2 → sends (l1 ++ l2) (l1' ++ l2') (o1 ++ o2).
Proof. intros H1 H2. induction H1; simpl; [done|by constructor..]. Qed.

Lemma sends_trans l1 l2 o1 l3 o2 :
  sends l1 l2 o1 → sends l2 l3 o2 → ∃ o3, sends l1 l3 o3 ∧ o3 ≡ₚ o1 ++ o2.
Proof.
  intros H1. revert l3 o2. induction H1 as [|e st st' l l' out Hs Hk H1 IH|e st l l' out Hs H1 IH]; intros l3 o2 H2.
  - inversion H2; subst. exists []. split; [constructor|done].
  - inversion H2 as [|? ? st'' ? l'' out' Hs2 Hk2 H2'|? ? ? l'' out' Hs2 H2']; subst;
      destruct (IH _ _ H2') as (o3 & Ho & Hp).
    + exists o3. split; [constructor; [congruence| |done]|done]. intros E. rewrite Hk2 by congruence. auto.
    + exists (e :: o3). split; [constructor; [congruence|done]|]. rewrite Hp. by rewrite Permutation_middle.
  - inversion H2 as [|? ? st'' ? l'' out' Hs2 Hk2 H2'|? ? ? l'' out' Hs2 H2']; subst; [|done].
    destruct (IH _ _ H2') as (o3 & Ho & Hp). rewrite (Hk2 eq_refl).
    exists (e :: o3). split; [by constructor|]. simpl. by constructor.
Qed.

(** A stored file counts no reads, and no file has a negative size. *)
Definition cell_ok (x : cell) : Prop := (fs_stored (snd x) = true → fs_read (snd x) = 0) ∧ 0 ≤ e_Size (fst x).

Lemma sends_cell_ok l l' out : sends l l' out → Forall cell_ok l → Forall cell_ok l'.
Proof.
  intros H. induction H as [|e st st' l l' out Hs Hk H IH|e st l l' out Hs H IH]; [done|..];
    intros [[H1 H2] Hl]%Forall_cons; constructor; try (by apply IH); split; simpl in *; try done.
  intros E. rewrite Hk by congruence. apply H1. congruence.
Qed.

Lemma sends_sum l l' out : sends l l' out → n_fetched (cellsc l') = n_fetched (cellsc l) + sumSizes out.
Proof.
  intros H. induction H as [|e st st' l l' out Hs Hk H IH|e st l l' out Hs H IH]; [done|..];
    unfold cellsc in *; rewrite !fmap_cons; cbn [sumc foldr addc n_fetched cellc sumSizes].
  - rewrite Hs. unfold sumc, sumSizes in *. rewrite IH. lia.
  - rewrite Hs. unfold sumc, sumSizes in *. rewrite IH. simpl. lia.
Qed.

(** ** Reaching a leaf *)

Lemma leavesOf_node x kids cells c : leavesOf (Node (x :: kids) cells c) = mjoin (leavesOf <$> (x :: kids)).
Proof. done. Qed.

Lemma length_leaves (l : list node) : length (mjoin (leavesOf <$> l)) = sum_list_with nleaves l.
Proof. induction l as [|x l IH]; [done|]. rewrite fmap_cons, mjoin_cons, length_app, IH. reflexivity. Qed.

(** [onKid] changes the one kid that has the leaf. *)
Lemma onKid_split {A} (f : node → nat → node * A) none kids k :
  (k < sum_list_with nleaves kids)%nat →
  ∃ l1 x l2, kids = l1 ++ x :: l2 ∧ (sum_list_with nleaves l1 ≤ k)%nat ∧
    (k - sum_list_with nleaves l1 < nleaves x)%nat ∧
    onKid f none kids k = (l1 ++ fst (f x (k - sum_list_with nleaves l1)%nat) :: l2,
                           snd (f x (k - sum_list_with nleaves l1)%nat)).
Proof.
  revert k. induction kids as [|y kids IH]; intros k Hk; cbn [sum_list_with onKid] in *; [lia|].
  destruct (k <? nleaves y)%nat eqn:E; bool_to_prop.
  - exists [], y, kids. simpl. rewrite Nat.sub_0_r. split_and!; [done|lia|lia|]. by destruct (f y k).
  - destruct (IH (k - nleaves y)%nat) as (l1 & x & l2 & -> & H1 & H2 & H3); [lia|].
    exists (y :: l1), x, l2. rewrite H3. cbn [sum_list_with app].
    replace (k - (nleaves y + sum_list_with nleaves l1))%nat with (k - nleaves y - sum_list_with nleaves l1)%nat by lia.
    split_and!; [done|lia|lia|reflexivity].
Qed.

Lemma node_app_cons l1 x l2 : ∃ y l, l1 ++ x :: l2 = y :: l :> list node.
Proof. destruct l1; simpl; eauto. Qed.

Lemma leavesOf_app l1 x l2 cells c :
  leavesOf (Node (l1 ++ x :: l2) cells c) = mjoin (leavesOf <$> l1) ++ leavesOf x ++ mjoin (leavesOf <$> l2).
Proof.
  destruct (node_app_cons l1 x l2) as (y & l & E). rewrite E, leavesOf_node, <- E, fmap_app, fmap_cons, mjoin_app.
  reflexivity.
Qed.

Lemma cellsOf_app l1 x l2 cells c :
  cellsOf (Node (l1 ++ x :: l2) cells c) = mjoin (cellsOf <$> l1) ++ cellsOf x ++ mjoin (cellsOf <$> l2).
Proof.
  destruct (node_app_cons l1 x l2) as (y & l & E). rewrite E, cellsOf_node, <- E, fmap_app, fmap_cons, mjoin_app.
  reflexivity.
Qed.

Lemma cellAt_kid l1 x l2 cells c k i :
  (sum_list_with nleaves l1 ≤ k)%nat → (k - sum_list_with nleaves l1 < nleaves x)%nat →
  cellAt (Node (l1 ++ x :: l2) cells c) k i = cellAt x (k - sum_list_with nleaves l1)%nat i.
Proof.
  intros H1 H2. unfold cellAt. rewrite leavesOf_app, <- length_leaves in *.
  rewrite lookup_app_r by lia. by rewrite lookup_app_l.
Qed.

Lemma wf_app_inv l1 x l2 cells c :
  wf (Node (l1 ++ x :: l2) cells c) →
  cells = [] ∧ c = sumc (n_counters <$> (l1 ++ x :: l2)) ∧ Forall wf l1 ∧ wf x ∧ Forall wf l2.
Proof.
  destruct (node_app_cons l1 x l2) as (y & l & E). rewrite E. intros Hwf.
  inversion Hwf as [|? ? Hk]; subst. rewrite <- E in Hk.
  apply Forall_app in Hk as [? Hk]. apply Forall_cons in Hk as [? ?]. split_and!; [done|reflexivity|done..].
Qed.

Lemma wf_app_intro l1 x l2 c :
  c = sumc (n_counters <$> (l1 ++ x :: l2)) → Forall wf l1 → wf x → Forall wf l2 → wf (Node (l1 ++ x :: l2) [] c).
Proof.
  intros -> H1 H2 H3. destruct (node_app_cons l1 x l2) as (y & l & E).
  assert (Forall wf (y :: l)). { rewrite <- E. apply Forall_app. split; [done|]. by constructor. }
  rewrite E. by constructor.
Qed.

Lemma sumc_replace l1 (x x' : node) l2 dl :
  n_counters x' = addc (n_counters x) dl →
  sumc (n_counters <$> (l1 ++ x' :: l2)) = addc (sumc (n_counters <$> (l1 ++ x :: l2))) dl.
Proof.
  intros Hx. rewrite !fmap_app, !fmap_cons, !sumc_app. cbn [sumc foldr]. rewrite Hx.
  rewrite <- !addc_assoc. f_equal. f_equal. apply addc_comm.
Qed.

(** ** Changing one file *)

(** [g] counts what it does. *)
Definition good (g : cell → cell * counters) (x : cell) : Prop := cellc (fst (g x)) = addc (cellc x) (snd (g x)).

Lemma onCell_spec g cells i :
  (∀ x, cells !! i = Some x → good g x) →
  cellsc (fst (onCell g cells i)) = addc (cellsc cells) (snd (onCell g cells i)) ∧
  length (fst (onCell g cells i)) = length cells.
Proof.
  intros Hg. unfold onCell. destruct (cells !! i) as [x|] eqn:E; simpl; [|by rewrite addc_zero_r].
  specialize (Hg x eq_refl). unfold good in Hg. destruct (g x) as [x' dl]. simpl in *.
  split; [|by rewrite length_insert].
  rewrite insert_take_drop by (by eapply lookup_lt_Some).
  pose proof (take_drop_middle _ _ _ E) as Hc. clear E.
  set (a := take i cells) in *. set (b := drop (S i) cells) in *. clearbody a b. subst cells.
  rewrite !cellsc_app. unfold cellsc at 2 4. rewrite !fmap_cons. cbn [sumc foldr]. rewrite Hg.
  rewrite <- !addc_assoc. f_equal. f_equal. apply addc_comm.
Qed.

Lemma update_spec g n k i :
  wf n → (k < nleaves n)%nat → (∀ x, cellAt n k i = Some x → good g x) →
  let r := update g n k i in
  wf (fst r) ∧ n_counters (fst r) = addc (n_counters n) (snd r) ∧
  leavesOf (fst r) = alter (λ cells, fst (onCell g cells i)) k (leavesOf n).
Proof.
  revert k. induction n as [cells c|y kids cells c IH] using node_induction; intros k Hwf Hk Hg; cbv zeta.
  - cbn [update]. assert (k = 0)%nat as -> by (unfold nleaves in Hk; simpl in Hk; lia).
    inversion Hwf; subst. destruct (onCell_spec g cells i) as [Hs _].
    { intros x Hx. by apply Hg. }
    simpl. destruct (onCell g cells i) as [cells' dl]. simpl in *. rewrite <- Hs. split_and!; [constructor|done..].
  - assert (Hk' : (k < sum_list_with nleaves (y :: kids))%nat).
    { unfold nleaves in Hk. rewrite leavesOf_node, length_leaves in Hk. done. }
    cbn [update]. set (f := λ x k, update g x k i).
    destruct (onKid_split f zeroc (y :: kids) k Hk') as (l1 & x & l2 & E & H1 & H2 & ->).
    rewrite E in *. clear E y kids. apply wf_app_inv in Hwf as (-> & -> & W1 & Wx & W2).
    apply Forall_app in IH as [_ IH]. apply Forall_cons in IH as [IH _].
    destruct (IH (k - sum_list_with nleaves l1)%nat Wx H2) as (U1 & U2 & U3).
    { intros z Hz. apply Hg. by rewrite cellAt_kid. }
    change (update g x (k - sum_list_with nleaves l1)%nat i) with (f x (k - sum_list_with nleaves l1)%nat) in *.
    destruct (f x _) as [x' dl]. cbn [fst snd n_counters] in U1, U2, U3 |- *.
    split_and!.
    + apply wf_app_intro; [|done..]. symmetry. by apply sumc_replace.
    + done.
    + rewrite !leavesOf_app, U3. rewrite <- length_leaves in *.
      replace k with (length (mjoin (leavesOf <$> l1)) + (k - length (mjoin (leavesOf <$> l1))))%nat at 2 by lia.
      rewrite alter_app_r. f_equal. by rewrite alter_app_l.
Qed.

(** ** Fetching a node *)

(** The entries of each leaf, in their places. *)
Definition shape (n : node) : list (list Entry) := (λ cells : list cell, fst <$> cells) <$> leavesOf n.

Lemma shape_app l1 x l2 cells c :
  shape (Node (l1 ++ x :: l2) cells c) = mjoin (shape <$> l1) ++ shape x ++ mjoin (shape <$> l2).
Proof.
  unfold shape. rewrite leavesOf_app, !fmap_app. f_equal; [|f_equal].
  - clear. induction l1 as [|y l IH]; [done|]. by rewrite !fmap_cons, !mjoin_cons, fmap_app, IH.
  - clear. induction l2 as [|y l IH]; [done|]. by rewrite !fmap_cons, !mjoin_cons, fmap_app, IH.
Qed.

Lemma good_markStored e st : fs_stored st = false → good markStored (e, st).
Proof. intros Hs. unfold good, markStored, cellc, addc. simpl. rewrite Hs. f_equal; lia. Qed.

Lemma good_addReadTo n e st : 0 ≤ n → fs_stored st = false → good (addReadTo n) (e, st).
Proof.
  intros Hn Hs. unfold good, addReadTo, cellc, addc. simpl. rewrite Hs. destruct (_ <? _) eqn:E; bool_to_prop; f_equal; lia.
Qed.

Lemma good_unmark e st : fs_stored st = true → fs_read st = 0 → 0 ≤ e_Size e → good (unmark (e_Size e)) (e, st).
Proof. intros Hs Hr He. unfold good, unmark, cellc, addc. simpl. rewrite Hs, Hr. f_equal; lia. Qed.

Definition unstoredCells (l : list cell) : list Entry := fst <$> filter (λ x, fs_stored (snd x) = false) l.

Lemma fetchCells_spec l :
  cellsc (fst (fetchCells l)) = addc (cellsc l) (snd (fetchCells l)) ∧
  sends l (fst (fetchCells l)) (unstoredCells l) ∧ fst <$> fst (fetchCells l) = fst <$> l.
Proof.
  induction l as [|[e st] l (IH1 & IH2 & IH3)]; [split_and!; [reflexivity|constructor|reflexivity]|].
  unfold fetchCells in *. cbn [foldr]. destruct (foldr _ _ l) as [out dl]. cbn [fst snd] in IH1, IH2, IH3.
  unfold unstoredCells. destruct (fs_stored st) eqn:Es; cbn [snd fst].
  - rewrite Es. cbn [fst snd]. split_and!.
    + unfold cellsc in *. rewrite !fmap_cons. cbn [sumc foldr]. fold (sumc (cellc <$> out)). rewrite IH1. apply addc_assoc.
    + rewrite filter_cons_False by (simpl; congruence). by constructor.
    + by rewrite !fmap_cons, IH3.
  - rewrite Es. cbn [markStored fst snd]. split_and!.
    + pose proof (good_markStored e st Es) as Hg. unfold good in Hg. cbn [markStored fst snd] in Hg.
      unfold cellsc in *. rewrite !fmap_cons. cbn [sumc foldr]. fold (sumc (cellc <$> out)). rewrite IH1, Hg.
      unfold sumc. rewrite <- !addc_assoc. f_equal. rewrite !addc_assoc. f_equal. apply addc_comm.
    + rewrite filter_cons_True by done. rewrite fmap_cons. by constructor.
    + by rewrite !fmap_cons, IH3.
Qed.

(** What fetching leaves of a list of kids, folded as [fetchAll] folds them. *)
Definition fetchKids (kids : list node) : list node * counters :=
  foldr (λ x '(out, dl), let '(x', dx) := fetchAll x in (x' :: out, addc dx dl)) ([], zeroc) kids.

Record fetched_ok (n n' : node) (dl : counters) : Prop := {
  fo_wf : wf n';
  fo_counters : n_counters n' = addc (n_counters n) dl;
  fo_shape : shape n' = shape n;
  fo_sends : ∃ o, sends (cellsOf n) (cellsOf n') o ∧ o ≡ₚ unstoredOf n
}.

Lemma fetchKids_spec kids :
  Forall (λ x, wf x → fetched_ok x (fst (fetchAll x)) (snd (fetchAll x))) kids → Forall wf kids →
  Forall wf (fst (fetchKids kids)) ∧ length (fst (fetchKids kids)) = length kids ∧
  sumc (n_counters <$> fst (fetchKids kids)) = addc (sumc (n_counters <$> kids)) (snd (fetchKids kids)) ∧
  mjoin (shape <$> fst (fetchKids kids)) = mjoin (shape <$> kids) ∧
  ∃ o, sends (mjoin (cellsOf <$> kids)) (mjoin (cellsOf <$> fst (fetchKids kids))) o ∧
       o ≡ₚ mjoin (List.rev (unstoredOf <$> kids)).
Proof.
  intros IH Hwf. induction Hwf as [|x kids Hx Hk IHk]; cbn [fetchKids foldr].
  { split_and!; [constructor|reflexivity..|]. exists []. split; [constructor|done]. }
  apply Forall_cons in IH as [IHx IH]. destruct (IHx Hx) as [W C S (o & So & Po)].
  destruct (IHk IH) as (K1 & K2 & K3 & K4 & o' & K5 & K6). clear IHk IHx IH.
  unfold fetchKids in *. destruct (foldr _ _ kids) as [kids' dl]. destruct (fetchAll x) as [x' dx].
  cbn [fst snd] in *. split_and!.
  - by constructor.
  - simpl. by rewrite K2.
  - rewrite !fmap_cons. cbn [sumc foldr]. fold (sumc (n_counters <$> kids')) (sumc (n_counters <$> kids)).
    rewrite C, K3. rewrite <- !addc_assoc. f_equal. rewrite !addc_assoc. f_equal. apply addc_comm.
  - by rewrite !fmap_cons, !mjoin_cons, S, K4.
  - exists (o ++ o'). rewrite !fmap_cons, !mjoin_cons. split; [by apply sends_app|].
    cbn [List.rev]. rewrite mjoin_app, Po, K6. rewrite mjoin_cons, app_nil_r. apply Permutation_app_comm.
Qed.

Lemma cellsOf_kids kids cells c : kids ≠ [] → cellsOf (Node kids cells c) = mjoin (cellsOf <$> kids).
Proof. destruct kids; [done|]. intros _. apply cellsOf_node. Qed.

Lemma shape_kids kids cells c : kids ≠ [] → shape (Node kids cells c) = mjoin (shape <$> kids).
Proof.
  destruct kids as [|x kids]; [done|]. intros _. change (x :: kids) with ([] ++ x :: kids) at 1. rewrite shape_app.
  by rewrite fmap_cons, mjoin_cons.
Qed.

Lemma wf_kids kids c : kids ≠ [] → c = sumc (n_counters <$> kids) → Forall wf kids → wf (Node kids [] c).
Proof. destruct kids; [done|]. intros _ -> ?. by constructor. Qed.

Lemma fetchAll_spec n : wf n → fetched_ok n (fst (fetchAll n)) (snd (fetchAll n)).
Proof.
  induction n as [cells c|y kids cells c IH] using node_induction; intros Hwf; cbn [fetchAll].
  - inversion Hwf; subst. destruct (fetchCells_spec cells) as (H1 & H2 & H3).
    destruct (fetchCells cells) as [cells' dl]. cbn [fst snd] in *. split; cbn [n_counters].
    + rewrite <- H1. constructor.
    + done.
    + unfold shape. simpl. by rewrite H3.
    + exists (unstoredCells cells). rewrite !cellsOf_leaf. done.
  - inversion Hwf as [|? ? Hk]; subst. destruct (fetchKids_spec (y :: kids) IH Hk) as (H1 & H2 & H3 & H4 & H5).
    fold (fetchKids (y :: kids)). destruct (fetchKids (y :: kids)) as [kids' dl]. cbn [fst snd] in *.
    assert (kids' ≠ []) by (destruct kids'; done). split; cbn [n_counters].
    + apply wf_kids; [done| |done]. symmetry. exact H3.
    + done.
    + rewrite !shape_kids by done. exact H4.
    + rewrite !cellsOf_kids by done. exact H5.
Qed.

Lemma wf_unfetched n : wf n → unfetched n = sumSizes (unstoredCells (cellsOf n)).
Proof.
  intros Hwf. unfold unfetched. rewrite (wf_counters n Hwf). unfold cellsc, unstoredCells.
  induction (cellsOf n) as [|[e st] l IH]; [done|]. rewrite fmap_cons. cbn [sumc foldr addc n_bytes n_fetched cellc].
  fold (sumc (cellc <$> l)). destruct (fs_stored st) eqn:E.
  - rewrite filter_cons_False by (simpl; congruence). lia.
  - rewrite filter_cons_True by done. rewrite fmap_cons. cbn [sumSizes foldr fst]. fold (sumSizes (fst <$> filter (λ x : cell, fs_stored (snd x) = false) l)). lia.
Qed.

(** ** Reading *)

Lemma sumSizes_app a b : sumSizes (a ++ b) = sumSizes a + sumSizes b.
Proof. induction a as [|e a IH]; [done|]. simpl. rewrite IH. lia. Qed.

#[export] Instance sumSizes_Permutation : Proper ((≡ₚ) ==> (=)) sumSizes.
Proof. intros a b H. induction H; simpl; lia. Qed.

Lemma unstoredCells_app a b : unstoredCells (a ++ b) = unstoredCells a ++ unstoredCells b.
Proof. unfold unstoredCells. by rewrite filter_app, fmap_app. Qed.

Lemma mjoin_rev {A} (l : list (list A)) : mjoin (List.rev l) ≡ₚ mjoin l.
Proof.
  induction l as [|x l IH]; [done|]. cbn [List.rev]. rewrite mjoin_app, !mjoin_cons, app_nil_r, IH.
  apply Permutation_app_comm.
Qed.

Lemma unstoredOf_cells n : unstoredOf n ≡ₚ unstoredCells (cellsOf n).
Proof.
  induction n as [cells c|x kids cells c IH] using node_induction; [by rewrite cellsOf_leaf|].
  rewrite cellsOf_node. cbn [unstoredOf]. rewrite mjoin_rev. revert IH. generalize (x :: kids). intros l IH.
  induction IH as [|y l Hy Hl IHl]; [done|]. by rewrite !fmap_cons, !mjoin_cons, unstoredCells_app, Hy, IHl.
Qed.

Lemma unstoredOf_sum n : wf n → sumSizes (unstoredOf n) = unfetched n.
Proof. intros Hwf. by rewrite unstoredOf_cells, wf_unfetched. Qed.

(** A climb stays within the cap. *)
Definition climb_ok (layout : Layout) (s : climb) : Prop :=
  cl_total s = sumSizes (cl_out s) ∧ (cl_out s = [] ∨ cl_total s ≤ cap layout).

(** What a step of [Read] does to a node, having sent [out] under it before. *)
Record step_ok (layout : Layout) (n n' : node) (s : climb) (dl : counters) : Prop := {
  so_wf : wf n';
  so_counters : n_counters n' = addc (n_counters n) dl;
  so_shape : shape n' = shape n;
  so_climb : climb_ok layout s;
  so_sends : ∃ o, sends (cellsOf n) (cellsOf n') o ∧ o ≡ₚ cl_out s
}.

Lemma visit_spec layout n n1 s dl :
  step_ok layout n n1 s dl →
  let '(n', s', dl') := visit layout n1 s in step_ok layout n n' s' (addc dl dl').
Proof.
  intros Hok. pose proof Hok as [W C S [T1 T2] (o & So & Po)]. unfold visit.
  destruct (cl_broken s); [by rewrite addc_zero_r|]. destruct (unfetched n1 =? 0); [by rewrite addc_zero_r|].
  destruct (cap layout <? _) eqn:Ecap; [rewrite addc_zero_r; split; eauto; done|].
  destruct (negb (promote layout n1)); [by rewrite addc_zero_r|].
  destruct (fetchAll_spec n1 W) as [W' C' S' (o' & So' & Po')].
  destruct (fetchAll n1) as [n' dl']. cbn [fst snd] in *. bool_to_prop. split; cbn [cl_out cl_total].
  - done.
  - by rewrite C', C, addc_assoc.
  - congruence.
  - split; cbn [cl_out cl_total]; [rewrite sumSizes_app; lia|]. right. rewrite unstoredOf_sum by done. lia.
  - destruct (sends_trans _ _ _ _ _ So So') as (o3 & So3 & Po3). exists o3. split; [done|]. by rewrite Po3, Po, Po'.
Qed.

Lemma sends_onCell_keep g cells i :
  (∀ x, cells !! i = Some x → fst (fst (g x)) = fst x ∧ fs_stored (snd (fst (g x))) = false ∧ fs_stored (snd x) = false) →
  sends cells (fst (onCell g cells i)) [] ∧ fst <$> fst (onCell g cells i) = fst <$> cells.
Proof.
  intros Hg. unfold onCell. destruct (cells !! i) as [x|] eqn:E; [|split; [apply sends_refl|done]].
  destruct (Hg x eq_refl) as (H1 & H2 & H3). destruct (g x) as [[e' st'] dl]. destruct x as [e st]. simpl in *. subst e'.
  rewrite insert_take_drop by (by eapply lookup_lt_Some).
  pose proof (take_drop_middle _ _ _ E) as Hc. clear E Hg.
  set (a := take i cells) in *. set (b := drop (S i) cells) in *. clearbody a b. subst cells. split.
  - change (@nil Entry) with (@nil Entry ++ []). apply sends_app; [apply sends_refl|]. constructor; [congruence..|apply sends_refl].
  - by rewrite !fmap_app, !fmap_cons.
Qed.

Lemma readFrom_spec layout bytes n k i :
  wf n → 0 ≤ bytes → (k < nleaves n)%nat → (∀ x, cellAt n k i = Some x → fs_stored (snd x) = false) →
  let '(n', (s, dl)) := readFrom layout bytes n k i in step_ok layout n n' s dl.
Proof.
  intros Hwf Hb. revert k Hwf. induction n as [cells c|y kids cells c IH] using node_induction; intros k Hwf Hk Hc; cbn [readFrom].
  - assert (k = 0)%nat as -> by (unfold nleaves in Hk; simpl in Hk; lia). inversion Hwf; subst.
    assert (Hst : ∀ x, cells !! i = Some x → fs_stored (snd x) = false) by (intros x Hx; by apply Hc).
    destruct (onCell_spec (addReadTo bytes) cells i) as [Hs _].
    { intros [e st] Hx. apply good_addReadTo; [done|]. by apply Hst in Hx. }
    destruct (sends_onCell_keep (addReadTo bytes) cells i) as [Hk1 Hk2].
    { intros [e st] Hx. apply Hst in Hx. by simpl in *. }
    destruct (onCell _ cells i) as [cells' dl]. cbn [fst snd] in *.
    assert (step_ok layout (Node [] cells (cellsc cells)) (Node [] cells' (addc (cellsc cells) dl)) startClimb dl) as Hok.
    { split; cbn [n_counters].
      - rewrite <- Hs. constructor.
      - done.
      - unfold shape. simpl. by rewrite Hk2.
      - by split; [|left].
      - exists []. by rewrite !cellsOf_leaf. }
    apply visit_spec in Hok. by destruct (visit _ _ _) as [[n' s'] dl'].
  - assert (Hk' : (k < sum_list_with nleaves (y :: kids))%nat).
    { unfold nleaves in Hk. rewrite leavesOf_node, length_leaves in Hk. done. }
    set (f := λ x k, readFrom layout bytes x k i).
    destruct (onKid_split f (startClimb, zeroc) (y :: kids) k Hk') as (l1 & x & l2 & E & H1 & H2 & ->).
    rewrite E in *. clear E y kids. pose proof Hwf as Hwf'. apply wf_app_inv in Hwf as (-> & -> & W1 & Wx & W2).
    apply Forall_app in IH as [_ IH]. apply Forall_cons in IH as [IH _].
    specialize (IH (k - sum_list_with nleaves l1)%nat Wx H2).
    change (readFrom layout bytes x (k - sum_list_with nleaves l1)%nat i) with (f x (k - sum_list_with nleaves l1)%nat) in IH.
    destruct (f x _) as [x' [s dl]]. cbn [fst snd]. destruct IH as [W C S T (o & So & Po)].
    { intros z Hz. apply Hc. by rewrite cellAt_kid. }
    assert (step_ok layout (Node (l1 ++ x :: l2) [] (sumc (n_counters <$> (l1 ++ x :: l2))))
      (Node (l1 ++ x' :: l2) [] (addc (sumc (n_counters <$> (l1 ++ x :: l2))) dl)) s dl) as Hok.
    { split; cbn [n_counters].
      - apply wf_app_intro; [|done..]. symmetry. by apply sumc_replace.
      - done.
      - by rewrite !shape_app, S.
      - done.
      - exists ([] ++ o ++ []). rewrite !cellsOf_app. split; [|by rewrite app_nil_r].
        apply sends_app; [apply sends_refl|]. apply sends_app; [done|apply sends_refl]. }
    apply visit_spec in Hok. by destruct (visit _ _ _) as [[n' s'] dl'].
Qed.

(** ** Building *)

Section build.
Context (layout : Layout).
Context (Hk : 2 ≤ ly_Branching layout).

Definition itemLeaves (items : list placed) : list (list cell) := mjoin ((λ p, leavesOf (pl_n p)) <$> items).

Lemma itemLeaves_app a b : itemLeaves (a ++ b) = itemLeaves a ++ itemLeaves b.
Proof. unfold itemLeaves. by rewrite fmap_app, mjoin_app. Qed.

Lemma itemLeaves_cons x l : itemLeaves (x :: l) = leavesOf (pl_n x) ++ itemLeaves l.
Proof. done. Qed.

Lemma takeRun_spec k level items :
  let '(run, rest) := takeRun k level items in
  items = run ++ rest ∧ Forall (λ p, pl_level p ≤ level) run ∧ (length run ≤ k)%nat.
Proof.
  revert items. induction k as [|k IH]; intros [|x items]; simpl; [split_and!; [done|constructor|lia]..|].
  destruct (pl_level x <=? level) eqn:E; [|split_and!; [done|constructor|simpl; lia]].
  specialize (IH items). destruct (takeRun k level items) as [run rest]. destruct IH as (-> & Hr & Hl).
  bool_to_prop. split_and!; [done|by constructor|simpl; lia].
Qed.

(** When everything can be paired, a run takes [k] or all of what is left. *)
Lemma takeRun_full k level items :
  Forall (λ p, pl_level p ≤ level) items → length (fst (takeRun k level items)) = Nat.min k (length items).
Proof.
  intros Hl. revert k. induction Hl as [|x items Hx Hl IH]; intros [|k]; simpl; [done..|].
  apply Z.leb_le in Hx. rewrite Hx. specialize (IH k). destruct (takeRun k level items). simpl in *. lia.
Qed.

Lemma parentOf_wf run : (2 ≤ length run)%nat → Forall (λ p, wf (pl_n p)) run → wf (parentOf run).
Proof.
  intros Hl Hr. unfold parentOf. apply wf_kids.
  - intros E. apply (f_equal length) in E. rewrite length_fmap in E. simpl in E. lia.
  - clear. induction run as [|x run IH]; [done|]. rewrite !fmap_cons. cbn [foldr sumc]. rewrite IH. reflexivity.
  - clear Hl. induction Hr; constructor; auto.
Qed.

Lemma parentOf_leaves run : run ≠ [] → leavesOf (parentOf run) = itemLeaves run.
Proof.
  destruct run as [|x run]; [done|]. intros _. unfold parentOf. rewrite fmap_cons, leavesOf_node, <- fmap_cons.
  unfold itemLeaves. by rewrite <- list_fmap_compose.
Qed.

(** One level keeps the leaves in order, and moves what it pairs up one. *)
Lemma buildLevel_spec fuel level items a :
  (length items ≤ fuel)%nat → 1 ≤ a → Forall (λ p, wf (pl_n p)) items → Forall (λ p, pl_level p < level + a) items →
  let out := buildLevel layout fuel level items in
  itemLeaves out = itemLeaves items ∧ Forall (λ p, wf (pl_n p)) out ∧
  Forall (λ p, pl_level p < level + Z.max 2 a) out ∧ (length out ≤ length items)%nat ∧ (items ≠ [] → out ≠ []) ∧
  (a = 1 → (2 ≤ length items)%nat → (length out < length items)%nat).
Proof.
  intros Hf Ha. revert items Hf. induction fuel as [|fuel IH]; intros items Hf Hw Hlv; cbv zeta.
  { destruct items; simpl in *; [|lia]. split_and!; try done; try constructor. lia. }
  destruct items as [|x items]; [split_and!; try done; simpl; lia|]. cbn [buildLevel].
  apply Forall_cons in Hw as Hw'. destruct Hw' as [Hwx Hw']. apply Forall_cons in Hlv as Hlv'. destruct Hlv' as [Hlx Hlv'].
  destruct (level <? pl_level x) eqn:Ex; bool_to_prop.
  - destruct (IH items) as (I1 & I2 & I3 & I4 & I5 & I6); [simpl in *; lia|done..|].
    rewrite !itemLeaves_cons, I1. split_and!; try done; try (constructor; [lia || done|done]); simpl in *; lia.
  - pose proof (takeRun_spec (Z.to_nat (ly_Branching layout)) level (x :: items)) as Hr.
    pose proof (takeRun_full (Z.to_nat (ly_Branching layout)) level (x :: items)) as Hfull.
    assert (Hne : fst (takeRun (Z.to_nat (ly_Branching layout)) level (x :: items)) ≠ []).
    { destruct (Z.to_nat (ly_Branching layout)) eqn:Ek; [lia|]. simpl. apply Z.leb_le in Ex. rewrite Ex.
      destruct (takeRun n level items) as [run0 rest0]. cbn [fst]. congruence. }
    destruct (takeRun _ _ _) as [run rest]. cbn [fst] in *. destruct Hr as (Eq & Hrl & Hrn).
    rewrite Eq in *. clear Eq Hw' Hlv' Hwx Hlx Ex x items.
    apply Forall_app in Hw as [Hwr Hwrest], Hlv as [Hlr Hlrest]. rewrite length_app in *.
    assert (0 < length run)%nat by (destruct run; simpl; [done|lia]).
    destruct (IH rest) as (I1 & I2 & I3 & I4 & I5 & I6); [lia|done..|].
    destruct run as [|y [|z run]]; [done|..].
    + apply Forall_cons in Hwr as [Hwy _]. cbn [app length] in *. rewrite !itemLeaves_cons, I1. cbn [pl_n].
      split_and!; try done; try (constructor; [simpl; lia || done|done]); [simpl in *; lia..|].
      intros -> Hlen. assert (Forall (λ p, pl_level p ≤ level) (y :: rest)) as Hall.
      { constructor; [by apply Forall_cons in Hrl as [? _]|]. eapply Forall_impl; [exact Hlrest|]. simpl. lia. }
      specialize (Hfull Hall). simpl in *. lia.
    + rewrite itemLeaves_app, itemLeaves_cons, I1. cbn [pl_n]. rewrite parentOf_leaves by done.
      split_and!; try done; try (constructor; [|done]); try (simpl in *; lia).
      apply parentOf_wf; [simpl; lia|done].
Qed.

(** The loop over the levels ends: the levels left to climb and the items left
    to pair bound it. *)
Lemma build_loop_total fuel level items (a : nat) :
  items ≠ [] → (1 ≤ a)%nat → (a + length items ≤ S fuel)%nat →
  Forall (λ p, wf (pl_n p)) items → Forall (λ p, pl_level p < level + Z.of_nat a) items →
  ∃ n, build_loop layout fuel level items = Some n ∧ wf n ∧ leavesOf n = itemLeaves items.
Proof.
  revert level items a. induction fuel as [|fuel IH]; intros level items a Hne Ha Hm Hw Hl.
  - destruct items as [|x [|y l]]; [done| |simpl in *; lia]. apply Forall_cons in Hw as [Hw _].
    exists (pl_n x). simpl. split_and!; [done..|]. unfold itemLeaves. simpl. by rewrite app_nil_r.
  - destruct items as [|x [|y l]]; [done| |].
    { apply Forall_cons in Hw as [Hw _]. exists (pl_n x). simpl. split_and!; [done..|].
      unfold itemLeaves. simpl. by rewrite app_nil_r. }
    cbn [build_loop]. set (items := x :: y :: l) in *.
    destruct (buildLevel_spec (length items) level items (Z.of_nat a)) as (B1 & B2 & B3 & B4 & B5 & B6); [lia|lia|done..|].
    destruct (decide (a = 1%nat)) as [->|Ha1].
    + destruct (IH (level + 1) (buildLevel layout (length items) level items) 1%nat) as (n & E & Hwn & Hln).
      * by apply B5.
      * lia.
      * assert (length (buildLevel layout (length items) level items) < length items)%nat by (apply B6; [done|simpl; lia]). lia.
      * done.
      * eapply Forall_impl; [exact B3|]. simpl. lia.
      * exists n. split_and!; [done..|]. by rewrite Hln.
    + destruct (IH (level + 1) (buildLevel layout (length items) level items) (a - 1)%nat) as (n & E & Hwn & Hln).
      * by apply B5.
      * lia.
      * lia.
      * done.
      * eapply Forall_impl; [exact B3|]. simpl. lia.
      * exists n. split_and!; [done..|]. by rewrite Hln.
Qed.

Lemma build_total items :
  Forall (λ p, wf (pl_n p)) items →
  ∃ n, build layout items = Some n ∧ wf n ∧
       leavesOf n = match items with [] => [[]] | _ => itemLeaves items end.
Proof.
  intros Hw. unfold build. destruct items as [|x items].
  { exists (Node [] [] zeroc). split_and!; [done| |done]. apply (wf_leaf []). }
  set (l := x :: items) in *. set (a0 := Z.to_nat (foldr (λ p m, Z.max (pl_level p + 1) m) 0 l)).
  destruct (build_loop_total (buildFuel l) 0 l (S a0)) as (n & E & Hwn & Hln).
  - done.
  - lia.
  - unfold buildFuel. fold a0. lia.
  - done.
  - apply Forall_forall. intros p Hp. cbv beta.
    assert (pl_level p + 1 ≤ foldr (λ p m, Z.max (pl_level p + 1) m) 0 l).
    { clear -Hp. induction l as [|y l IH]; [by apply elem_of_nil in Hp|]. apply elem_of_cons in Hp as [->|Hp]; simpl; [lia|].
      specialize (IH Hp). lia. }
    lia.
  - exists n. done.
Qed.

End build.

(** ** One file of the tree *)

(** The entry at a place, whatever its state. *)
Definition entryAt (n : node) (k i : nat) : option Entry :=
  match shape n !! k with Some es => es !! i | None => None end.

Lemma entryAt_cellAt n k i : entryAt n k i = fst <$> cellAt n k i.
Proof.
  unfold entryAt, cellAt, shape. rewrite list_lookup_fmap. destruct (leavesOf n !! k); [|done]. simpl.
  apply list_lookup_fmap.
Qed.

Lemma cellAt_split n k i x :
  cellAt n k i = Some x →
  (k < nleaves n)%nat ∧ ∃ L1 a b L2, leavesOf n = L1 ++ (a ++ x :: b) :: L2 ∧ length L1 = k ∧ length a = i.
Proof.
  unfold cellAt. destruct (leavesOf n !! k) as [cells|] eqn:E; [|done]. intros Hx.
  split; [by apply lookup_lt_Some in E|].
  exists (take k (leavesOf n)), (take i cells), (drop (S i) cells), (drop (S k) (leavesOf n)).
  rewrite (take_drop_middle _ _ _ Hx), (take_drop_middle _ _ _ E). split_and!; [done|..].
  - apply lookup_lt_Some in E. rewrite length_take. lia.
  - apply lookup_lt_Some in Hx. rewrite length_take. lia.
Qed.

Lemma cellAt_cells n k i x : cellAt n k i = Some x → x ∈ cellsOf n.
Proof.
  intros (_ & L1 & a & b & L2 & E & _)%cellAt_split. unfold cellsOf. rewrite E, mjoin_app, mjoin_cons.
  set_solver.
Qed.

Lemma cells_cellAt n x : x ∈ cellsOf n → ∃ k i, cellAt n k i = Some x.
Proof.
  unfold cellsOf, cellAt. intros (cells & Hx & Hc)%list_elem_of_join.
  apply list_elem_of_lookup in Hc as [k Hk], Hx as [i Hi]. exists k, i. by rewrite Hk.
Qed.

(** Changing one file changes that file and nothing else. *)
Lemma update_one g n k i x :
  wf n → cellAt n k i = Some x → good g x → fst (fst (g x)) = fst x →
  let r := update g n k i in
  wf (fst r) ∧ n_counters (fst r) = addc (n_counters n) (snd (g x)) ∧ shape (fst r) = shape n ∧
  (∃ l1 l2, cellsOf n = l1 ++ x :: l2 ∧ cellsOf (fst r) = l1 ++ fst (g x) :: l2) ∧
  (∀ k' i', cellAt (fst r) k' i' = if decide ((k', i') = (k, i)) then Some (fst (g x)) else cellAt n k' i').
Proof.
  intros Hwf Hx Hg He. destruct (cellAt_split _ _ _ _ Hx) as (Hk & L1 & a & b & L2 & EL & <- & <-). cbv zeta.
  destruct (update_spec g n (length L1) (length a) Hwf Hk) as (U1 & U2 & U3).
  { intros y Hy. by simplify_eq. }
  assert (EL' : leavesOf (fst (update g n (length L1) (length a))) = L1 ++ (a ++ fst (g x) :: b) :: L2).
  { rewrite U3, EL, alter_app_r_alt by lia. rewrite Nat.sub_diag. cbn [alter list_alter]. do 2 f_equal.
    unfold onCell. rewrite list_lookup_middle by done.
    destruct (g x) as [x' dl]. simpl. by rewrite insert_app_r_alt, Nat.sub_diag by lia. }
  assert (EC : ∃ l1 l2, cellsOf n = l1 ++ x :: l2 ∧ cellsOf (fst (update g n (length L1) (length a))) = l1 ++ fst (g x) :: l2).
  { exists (mjoin L1 ++ a), (b ++ mjoin L2). unfold cellsOf. rewrite EL, EL', !mjoin_app, !mjoin_cons.
    split; by rewrite <- !app_assoc. }
  split_and!; [done|..|done|].
  - destruct EC as (l1 & l2 & E1 & E2). rewrite (wf_counters _ U1), (wf_counters _ Hwf), E1, E2, !cellsc_app.
    unfold cellsc at 2 4. rewrite !fmap_cons. cbn [sumc foldr]. rewrite Hg.
    rewrite <- !addc_assoc. f_equal. f_equal. apply addc_comm.
  - unfold shape. rewrite EL, EL', !fmap_app, !fmap_cons. do 2 f_equal. rewrite !fmap_app, !fmap_cons. by rewrite He.
  - intros k' i'. unfold cellAt in *. rewrite U3. destruct (decide (k' = length L1)) as [->|Hk'].
    + rewrite list_lookup_alter_eq. destruct (leavesOf n !! length L1) as [cells|]; [|done]. simpl.
      unfold onCell. rewrite Hx. destruct (g x) as [x' dl]. cbn [fst]. destruct (decide (i' = length a)) as [->|Hi'].
      * rewrite decide_True by done. apply list_lookup_insert_eq. by eapply lookup_lt_Some.
      * rewrite decide_False by congruence. by apply list_lookup_insert_ne.
    + rewrite decide_False by congruence. by rewrite list_lookup_alter_ne.
Qed.
