(* ===== verification/TreeTheorems.v ===== *)
(** * The prefetch tree's operations keep its books (dircache/tree.go) *)

From S2P Require Import Prelude GoStrings GoTime DirTypes Tree TreeProofs.
Open Scope Z_scope.

(** ** The invariant *)

Record tree_ok (t : Tree) : Prop := {
  tk_branching : 2 ≤ ly_Branching (t_layout t);
  tk_wf : wf (t_root t);
  tk_cells : Forall cell_ok (cellsOf (t_root t));
  tk_where : ∀ p k i, t_where t !! p = Some (k, i) → ∃ e, entryAt (t_root t) k i = Some e ∧ e_Path e = p;
  tk_complete : ∀ k i e, entryAt (t_root t) k i = Some e → is_Some (t_where t !! e_Path e)
}.

(** An operation that keeps every entry in its place keeps the index right. *)
Lemma tree_ok_root t n :
  tree_ok t → wf n → Forall cell_ok (cellsOf n) → shape n = shape (t_root t) → tree_ok (with_root n t).
Proof.
  intros [H1 H2 H3 H4 H5] Hw Hc Hs. split; simpl; try done; unfold entryAt in *; rewrite Hs; done.
Qed.

Lemma where_cell t p k i :
  tree_ok t → t_where t !! p = Some (k, i) →
  ∃ e st, cellAt (t_root t) k i = Some (e, st) ∧ e_Path e = p ∧ (k < nleaves (t_root t))%nat.
Proof.
  intros Hok Hw. destruct (tk_where _ Hok _ _ _ Hw) as (e & He & Hp). rewrite entryAt_cellAt in He.
  destruct (cellAt (t_root t) k i) as [[e' st]|] eqn:E; [|done]. simplify_eq/=.
  exists e, st. split_and!; [done..|]. by apply cellAt_split in E as [? _].
Qed.

Lemma sends_update n k i e st :
  wf n → cellAt n k i = Some (e, st) → fs_stored st = false →
  let n' := fst (update markStored n k i) in
  wf n' ∧ shape n' = shape n ∧ sends (cellsOf n) (cellsOf n') [e] ∧
  (∀ k' i', cellAt n' k' i' = if decide ((k', i') = (k, i)) then Some (e, storedState) else cellAt n k' i').
Proof.
  intros Hw Hc Hs. destruct (update_one markStored n k i (e, st) Hw Hc (good_markStored e st Hs) eq_refl)
    as (U1 & U2 & U3 & (l1 & l2 & E1 & E2) & U5).
  split_and!; [done..| |done]. rewrite E1, E2. change [e] with ([] ++ [e]). apply sends_app; [apply sends_refl|].
  constructor; [done|apply sends_refl].
Qed.

(** ** Reading *)

Lemma Read_ok p n t :
  tree_ok t → 0 ≤ n →
  tree_ok (fst (Read p n t)) ∧ climb_ok (t_layout t) {| cl_out := snd (Read p n t); cl_total := sumSizes (snd (Read p n t)); cl_broken := false |} ∧
  ∃ o, sends (cellsOf (t_root t)) (cellsOf (t_root (fst (Read p n t)))) o ∧ o ≡ₚ snd (Read p n t).
Proof.
  intros Hok Hn.
  assert (Hsame : tree_ok t ∧ climb_ok (t_layout t) {| cl_out := []; cl_total := sumSizes []; cl_broken := false |} ∧
    ∃ o, sends (cellsOf (t_root t)) (cellsOf (t_root t)) o ∧ o ≡ₚ []).
  { split_and!; [done|by split; [|left]|]. exists []. split; [apply sends_refl|done]. }
  unfold Read. destruct (t_where t !! p) as [[k i]|] eqn:Ew; [|done].
  destruct (where_cell _ _ _ _ Hok Ew) as (e & st & Hc & Hp & Hk). rewrite Hc.
  destruct (fs_stored st) eqn:Es; [done|].
  pose proof (readFrom_spec (t_layout t) n (t_root t) k i (tk_wf _ Hok) Hn Hk) as Hr.
  destruct (readFrom _ _ _ _ _) as [root [s dl]]. destruct Hr as [W C S [T1 T2] (o & So & Po)].
  { intros x Hx. by simplify_eq. }
  cbn [fst snd]. split_and!; [|split; simpl; [done|]; destruct T2; [by left|right; lia]|by exists o].
  apply tree_ok_root; [done..| |done]. by eapply sends_cell_ok; [|apply Hok].
Qed.

Lemma MarkSent_ok p t : tree_ok t → tree_ok (MarkSent p t).
Proof.
  intros Hok. unfold MarkSent. destruct (t_where t !! p) as [[k i]|] eqn:Ew; [|done].
  destruct (where_cell _ _ _ _ Hok Ew) as (e & st & Hc & Hp & Hk). rewrite Hc.
  destruct (fs_stored st) eqn:Es; [done|].
  destruct (sends_update _ _ _ _ _ (tk_wf _ Hok) Hc Es) as (U1 & U2 & U3 & U4).
  apply tree_ok_root; [done..| |done]. by eapply sends_cell_ok; [|apply Hok].
Qed.

(** ** Taking a batch back *)

(** [e] is the tree's own entry for its path. *)
Definition ownEntry (t : Tree) (e : Entry) : Prop :=
  ∀ k i e', t_where t !! e_Path e = Some (k, i) → entryAt (t_root t) k i = Some e' → e' = e.

Lemma unstoreOne_spec t e :
  tree_ok t → ownEntry t e →
  let t' := unstoreOne t e in
  tree_ok t' ∧ t_where t' = t_where t ∧ t_layout t' = t_layout t ∧ shape (t_root t') = shape (t_root t) ∧
  (∀ k i st, t_where t !! e_Path e = Some (k, i) → cellAt (t_root t) k i = Some (e, st) → fs_stored st = true →
     n_counters (t_root t') = addc (n_counters (t_root t))
       {| n_bytes := 0; n_fetched := - e_Size e; n_read := 0; n_files := 0; n_fetchedFiles := -1 |} ∧
     ∀ k' i', (k', i') ≠ (k, i) → cellAt (t_root t') k' i' = cellAt (t_root t) k' i').
Proof.
  intros Hok Hown. cbv zeta. unfold unstoreOne. destruct (t_where t !! e_Path e) as [[k i]|] eqn:Ew.
  2: { split_and!; done. }
  destruct (where_cell _ _ _ _ Hok Ew) as (e0 & st & Hc & Hp & Hk). rewrite Hc.
  assert (e0 = e) as -> by (apply (Hown k i); [done|by rewrite entryAt_cellAt, Hc]).
  destruct (fs_stored st) eqn:Es.
  2: { split_and!; try done. intros k' i' st' [= <- <-] Hc' Hs'. congruence. }
  pose proof (proj1 (Forall_forall _ _) (tk_cells _ Hok) _ (cellAt_cells _ _ _ _ Hc)) as [Hr Hsz]. simpl in Hr, Hsz.
  destruct (update_one (unmark (e_Size e)) _ _ _ _ (tk_wf _ Hok) Hc (good_unmark e st Es (Hr Es) Hsz) eq_refl)
    as (U1 & U2 & U3 & (l1 & l2 & E1 & E2) & U5).
  split_and!; try done.
  - apply tree_ok_root; [done..| |done]. rewrite E2. pose proof (tk_cells _ Hok) as Hall. rewrite E1 in Hall.
    apply Forall_app in Hall as [? Hall]. apply Forall_cons in Hall as [? ?]. apply Forall_app. split; [done|].
    by constructor.
  - intros k' i' st' [= <- <-] Hc' Hs'. split; [done|]. intros k1 i1 Hne. cbn [with_root t_root].
    by rewrite U5, decide_False.
Qed.

Lemma Unstore_ok entries t : tree_ok t → Forall (ownEntry t) entries → tree_ok (Unstore entries t).
Proof.
  unfold Unstore. revert t. induction entries as [|e entries IH]; intros t Hok Hown; cbn [foldl]; [done|].
  apply Forall_cons in Hown as [He Hown]. destruct (unstoreOne_spec t e Hok He) as (O1 & O2 & O3 & O4 & _).
  apply IH; [done|]. eapply Forall_impl; [exact Hown|]. intros e'. unfold ownEntry, entryAt. by rewrite O2, O4.
Qed.

(** ** The walk's leftovers *)

(** The unstored files of a list of leaves, numbered from [base]. *)
Fixpoint flatCands (L : list (list cell)) (base : nat) : list (nat * nat * Entry) :=
  match L with
  | [] => []
  | cells :: L' => leafCands base 0 cells ++ flatCands L' (S base)
  end.

Lemma flatCands_app L1 L2 base : flatCands (L1 ++ L2) base = flatCands L1 base ++ flatCands L2 (base + length L1).
Proof.
  revert base. induction L1 as [|c L1 IH]; intros base; simpl; [by rewrite Nat.add_0_r|].
  rewrite IH, app_assoc. do 2 f_equal. lia.
Qed.

Lemma candsOf_flat n base : candsOf n base ≡ₚ flatCands (leavesOf n) base.
Proof.
  revert base. induction n as [cells c|x kids cells c IH] using node_induction; intros base.
  { simpl. by rewrite app_nil_r. }
  rewrite leavesOf_node. change (candsOf (Node (x :: kids) cells c) base) with (kidsCands candsOf (x :: kids) base).
  revert base IH. generalize (x :: kids). clear x kids cells c.
  induction l as [|y l IHl]; intros base IH; [done|]. apply Forall_cons in IH as [Hy IH].
  rewrite fmap_cons, mjoin_cons, flatCands_app. cbn [kidsCands]. rewrite IHl, Hy by done. apply Permutation_app_comm.
Qed.

Lemma elem_of_leafCands k0 j cells k i e :
  (k, i, e) ∈ leafCands k0 j cells ↔
  k = k0 ∧ ∃ i0 st, i = (j + i0)%nat ∧ cells !! i0 = Some (e, st) ∧ fs_stored st = false.
Proof.
  revert j. induction cells as [|[e0 st0] cells IH]; intros j; cbn [leafCands].
  { split; [by intros ?%elem_of_nil|naive_solver]. }
  assert (Hrest : (k, i, e) ∈ leafCands k0 (S j) cells ↔
    k = k0 ∧ ∃ i0 st, i = (j + S i0)%nat ∧ ((e0, st0) :: cells) !! S i0 = Some (e, st) ∧ fs_stored st = false).
  { rewrite IH. simpl. setoid_rewrite Nat.add_succ_r. done. }
  destruct (fs_stored st0) eqn:Es; [|rewrite elem_of_cons]; rewrite Hrest; split.
  - intros (-> & i0 & st & ? & ? & ?). eauto 10.
  - intros (-> & [|i0] & st & -> & Hx & Hs); [simplify_eq/=; congruence|eauto 10].
  - intros [[= -> -> ->]|(-> & i0 & st & ? & ? & ?)]; [|eauto 10]. split; [done|]. exists 0%nat, st0.
    rewrite Nat.add_0_r. done.
  - intros (-> & [|i0] & st & -> & Hx & Hs); [left; simplify_eq/=; by rewrite Nat.add_0_r|right; eauto 10].
Qed.

Lemma elem_of_flatCands L base k i e :
  (k, i, e) ∈ flatCands L base ↔
  ∃ k0 cells st, k = (base + k0)%nat ∧ L !! k0 = Some cells ∧ cells !! i = Some (e, st) ∧ fs_stored st = false.
Proof.
  revert base. induction L as [|c L IH]; intros base; cbn [flatCands].
  { split; [by intros ?%elem_of_nil|naive_solver]. }
  rewrite elem_of_app, elem_of_leafCands, IH. split.
  - intros [[-> (i0 & st & -> & Hx & Hs)]|(k0 & cells & st & -> & HL & Hx & Hs)].
    + exists 0%nat, c, st. split_and!; [lia|done..].
    + exists (S k0), cells, st. split_and!; [lia|done..].
  - intros ([|k0] & cells & st & -> & HL & Hx & Hs); simpl in HL.
    + left. simplify_eq. split; [lia|]. exists i, st. done.
    + right. exists k0, cells, st. split_and!; [lia|done..].
Qed.

Lemma elem_of_candsOf n k i e :
  (k, i, e) ∈ candsOf n 0 ↔ ∃ st, cellAt n k i = Some (e, st) ∧ fs_stored st = false.
Proof.
  rewrite candsOf_flat, elem_of_flatCands. unfold cellAt. split.
  - intros (k0 & cells & st & -> & HL & Hx & Hs). simpl. rewrite HL. eauto.
  - intros (st & Hx & Hs). destruct (leavesOf n !! k) as [cells|] eqn:E; [|done]. exists k, cells, st. done.
Qed.

Lemma NoDup_leafCands k j cells : NoDup (fst <$> leafCands k j cells).
Proof.
  revert j. induction cells as [|[e st] cells IH]; intros j; cbn [leafCands]; [constructor|].
  destruct (fs_stored st); [apply IH|]. rewrite fmap_cons. constructor; [|apply IH].
  intros ([[k' i'] e'] & [= <- <-] & (_ & i0 & _ & ? & _)%elem_of_leafCands)%list_elem_of_fmap. lia.
Qed.

Lemma NoDup_flatCands L base : NoDup (fst <$> flatCands L base).
Proof.
  revert base. induction L as [|c L IH]; intros base; cbn [flatCands]; [constructor|].
  rewrite fmap_app. apply NoDup_app. split_and!; [apply NoDup_leafCands| |apply IH].
  intros [k i] ([[k1 i1] e1] & [= -> ->] & (-> & _)%elem_of_leafCands)%list_elem_of_fmap
      ([[k2 i2] e2] & [= <- <-] & (k0 & _ & _ & ? & _)%elem_of_flatCands)%list_elem_of_fmap. lia.
Qed.

(** The loop that takes candidates. *)
Lemma takeCands_spec maxBytes maxFiles cands out size n :
  wf n → NoDup (fst <$> cands) →
  (∀ k i e, (k, i, e) ∈ cands → ∃ st, cellAt n k i = Some (e, st) ∧ fs_stored st = false) →
  size = sumSizes out → Z.of_nat (length out) ≤ maxFiles → ((length out ≤ 1)%nat ∨ size ≤ maxBytes) →
  let '(n', out') := takeCands maxBytes maxFiles cands out size n in
  ∃ taken rest, cands = taken ++ rest ∧ out' = out ++ (snd <$> taken) ∧
    wf n' ∧ shape n' = shape n ∧ (∃ o, sends (cellsOf n) (cellsOf n') o ∧ o ≡ₚ snd <$> taken) ∧
    (∀ k i, (k, i) ∉ fst <$> taken → cellAt n' k i = cellAt n k i) ∧
    (∀ k i e, (k, i, e) ∈ taken → cellAt n' k i = Some (e, storedState)) ∧
    Z.of_nat (length out') ≤ maxFiles ∧ ((length out' ≤ 1)%nat ∨ sumSizes out' ≤ maxBytes).
Proof.
  revert out size n. induction cands as [|[[k i] e] cands IH]; intros out size n Hw Hnd Hc Hsz Hf Hb; cbn [takeCands].
  { exists [], []. subst size.
    split_and!; try done; try (by intros ? ? ? ?%elem_of_nil); [by rewrite fmap_nil, app_nil_r|].
    exists []. split; [apply sends_refl|done]. }
  destruct (_ || _) eqn:E.
  { exists [], ((k, i, e) :: cands). subst size.
    split_and!; try done; try (by intros ? ? ? ?%elem_of_nil); [by rewrite fmap_nil, app_nil_r|].
    exists []. split; [apply sends_refl|done]. }
  bool_to_prop. rewrite fmap_cons in Hnd. apply NoDup_cons in Hnd as [Hn Hnd].
  destruct (Hc k i e) as (st & Hcell & Hst); [left|].
  destruct (sends_update _ _ _ _ _ Hw Hcell Hst) as (U1 & U2 & U3 & U4).
  specialize (IH (out ++ [e]) (size + e_Size e) (fst (update markStored n k i)) U1 Hnd).
  destruct (takeCands _ _ _ _ _ _) as [n' out'].
  destruct IH as (taken & rest & -> & -> & W & S & (o & So & Po) & K1 & K2 & L1 & L2).
  - intros k' i' e' Hin. rewrite U4, decide_False; [apply Hc; by right|].
    intros [= -> ->]. apply Hn. apply list_elem_of_fmap. exists (k, i, e'). done.
  - rewrite sumSizes_app. simpl. lia.
  - rewrite length_app. simpl. lia.
  - rewrite length_app. simpl. destruct out; simpl in *; [left; lia|right]. destruct H0; [done|]. bool_to_prop. lia.
  - exists ((k, i, e) :: taken), rest. split_and!; try done.
    + by rewrite <- app_assoc.
    + congruence.
    + destruct (sends_trans _ _ _ _ _ U3 So) as (o3 & So3 & Po3). exists o3. split; [done|].
      rewrite Po3, Po, fmap_cons. done.
    + intros k' i' Hni. rewrite fmap_cons, not_elem_of_cons in Hni. destruct Hni as [? Hni].
      rewrite K1 by done. by rewrite U4, decide_False.
    + intros k' i' e'. rewrite elem_of_cons. intros [[= -> -> ->]|Hin]; [|by apply K2].
      rewrite K1, U4, decide_True; [done..|]. intros Hi. apply Hn. rewrite fmap_app. apply elem_of_app. by left.
Qed.

Lemma bySizePath_total a b : bySizePath a b = true ∨ bySizePath b a = true.
Proof.
  unfold bySizePath. destruct (Z.lt_trichotomy (e_Size a) (e_Size b)) as [H|[H|H]].
  - left. apply Z.ltb_lt in H. by rewrite H.
  - rewrite H, Z.ltb_irrefl, Z.eqb_refl. simpl. apply string_leb_total.
  - right. apply Z.ltb_lt in H. by rewrite H.
Qed.

Lemma bySizePath_trans a b c : bySizePath a b = true → bySizePath b c = true → bySizePath a c = true.
Proof.
  unfold bySizePath. intros [H1|[H1 H1']%andb_true_iff]%orb_true_iff [H2|[H2 H2']%andb_true_iff]%orb_true_iff;
    bool_to_prop; apply orb_true_iff.
  - left. apply Z.ltb_lt. lia.
  - left. apply Z.ltb_lt. lia.
  - left. apply Z.ltb_lt. lia.
  - right. apply andb_true_iff. split; [apply Z.eqb_eq; lia|]. by eapply string_leb_trans.
Qed.

Lemma Unstored_spec maxBytes maxFiles t :
  tree_ok t →
  let '(t', out) := Unstored maxBytes maxFiles t in
  tree_ok t' ∧ (∃ o, sends (cellsOf (t_root t)) (cellsOf (t_root t')) o ∧ o ≡ₚ out) ∧
  Z.of_nat (length out) ≤ Z.max maxFiles 0 ∧ ((length out ≤ 1)%nat ∨ sumSizes out ≤ maxBytes) ∧
  (∀ e e' st, e ∈ out → (e', st) ∈ cellsOf (t_root t') → fs_stored st = false → bySizePath e e' = true).
Proof.
  intros Hok. unfold Unstored. destruct (_ || _) eqn:E.
  { split_and!; [done| |simpl; lia|left; simpl; lia|by intros ? ? ? ?%elem_of_nil]. exists []. split; [apply sends_refl|done]. }
  bool_to_prop. set (cands := stable_sort cand_leb (candsOf (t_root t) 0)).
  assert (Hin : ∀ k i e, (k, i, e) ∈ cands ↔ ∃ st, cellAt (t_root t) k i = Some (e, st) ∧ fs_stored st = false).
  { intros k i e. unfold cands. by rewrite stable_sort_Permutation, elem_of_candsOf. }
  pose proof (takeCands_spec maxBytes maxFiles cands [] 0 (t_root t) (tk_wf _ Hok)) as Hs.
  destruct (takeCands _ _ _ _ _ _) as [root out].
  destruct Hs as (taken & rest & Ec & -> & W & S & (o & So & Po) & K1 & K2 & L1 & L2).
  - unfold cands. rewrite stable_sort_Permutation, candsOf_flat. apply NoDup_flatCands.
  - intros k i e ?%Hin. done.
  - done.
  - simpl. lia.
  - left. simpl. lia.
  - cbn [app] in *. split_and!; [|by exists o|lia|done|].
    + apply tree_ok_root; [done..| |done]. by eapply sends_cell_ok; [|apply Hok].
    + intros e e' st He Hx Hst. cbn [with_root t_root] in Hx.
      apply cells_cellAt in Hx as (k' & i' & Hx). apply list_elem_of_fmap in He as ([[k i] e0] & -> & Ht).
      assert (Hrest : (k', i', e') ∈ rest).
      { destruct (decide ((k', i') ∈ fst <$> taken)) as [Hi|Hi].
        - apply list_elem_of_fmap in Hi as ([[k1 i1] e1] & [= <- <-] & Ht1). apply K2 in Ht1. by simplify_eq/=.
        - rewrite K1 in Hx by done. assert ((k', i', e') ∈ cands) as Hc by (apply Hin; eauto).
          rewrite Ec in Hc. apply elem_of_app in Hc as [Hc|]; [|done]. exfalso. apply Hi.
          apply list_elem_of_fmap. by exists (k', i', e'). }
      assert (StronglySorted (λ x y, cand_leb x y = true) cands) as Hso.
      { apply stable_sort_sorted; unfold cand_leb; [intros; apply bySizePath_total|intros ? ? ?; apply bySizePath_trans]. }
      apply list_elem_of_lookup in Ht as [a Ha], Hrest as [b Hb].
      apply (StronglySorted_lookup_lt (λ x y, cand_leb x y = true) cands a (length taken + b) (k, i, e0) (k', i', e') Hso).
      * rewrite Ec. by apply lookup_app_l_Some.
      * rewrite Ec, lookup_app_r by lia. by replace (length taken + b - length taken)%nat with b by lia.
      * apply lookup_lt_Some in Ha. lia.
Qed.

(** ** Laying the files out *)

Definition nonneg (e : Entry) : Prop := 0 ≤ e_Size e.

(** What [cut] emits: a leaf of files nothing has happened to. *)
Definition freshItem (p : placed) : Prop := ∃ es level, p = emit es level ∧ Forall nonneg es.

(** A leaf with its counters right. *)
Definition leafItem (p : placed) : Prop := ∃ cells, pl_n p = Node [] cells (cellsc cells).

Definition itemCells (p : placed) : list cell := n_cells (pl_n p).

Lemma fresh_leaf p :
  freshItem p → leafItem p ∧ Forall (λ x, snd x = newFile) (itemCells p) ∧ Forall cell_ok (itemCells p).
Proof.
  intros (es & level & -> & Hn). split_and!.
  - exists ((λ e, (e, newFile)) <$> es). unfold emit. simpl. f_equal. unfold cellsc. rewrite <- list_fmap_compose.
    induction Hn as [|e es He Hn IH]; [done|]. rewrite fmap_cons. cbn [sumc foldr length]. fold (sumc ((cellc ∘ (λ e, (e, newFile))) <$> es)).
    rewrite <- IH. unfold nonneg in He. unfold addc. cbn -[Z.of_nat Z.min]. f_equal; lia.
  - apply Forall_fmap, Forall_true. done.
  - apply Forall_fmap. eapply Forall_impl; [exact Hn|]. intros e He. by split.
Qed.

Section layout.
Context (layout : Layout).

Lemma cut_fresh window : Forall nonneg window → Forall freshItem (cut layout window).
Proof.
  intros Hw. unfold cut.
  assert (∀ l acc, Forall nonneg l → Forall freshItem (fst (fst acc)) → Forall nonneg (snd (fst acc)) →
    let r := foldl (cut_one layout) acc l in Forall freshItem (fst (fst r)) ∧ Forall nonneg (snd (fst r))) as Hg.
  { induction l as [|e l IH]; intros [[out cur] size] Hl Ho Hc; cbn [foldl]; [done|].
    apply Forall_cons in Hl as [He Hl]. cbn [fst snd] in *.
    assert (Hcur : Forall freshItem (out ++ [emit cur 0])).
    { apply Forall_app. split; [done|]. repeat constructor. by exists cur, 0. }
    assert (Hone : ∀ o, Forall freshItem o → Forall freshItem (o ++ [emit [e] (levelFor layout (e_Size e))])).
    { intros o Hof. apply Forall_app. split; [done|]. repeat constructor. exists [e], (levelFor layout (e_Size e)).
      split; [done|by constructor]. }
    apply IH; [done|..]; unfold cut_one; destruct (_ <? _); cbn [fst snd].
    - apply Hone. by destruct cur.
    - by destruct (_ && _).
    - constructor.
    - destruct (_ && _); cbn [fst snd]; [by constructor|]. apply Forall_app. split; [done|by constructor]. }
  destruct (Hg window ([], [], 0) Hw) as [H1 H2]; [constructor..|].
  destruct (foldl _ _ _) as [[out cur] size]. cbn [fst snd] in *. destruct cur; [done|].
  apply Forall_app. split; [done|]. repeat constructor. by eexists _, 0.
Qed.

Lemma flushWindow_fresh out window :
  Forall freshItem out → Forall nonneg window → Forall freshItem (flushWindow layout out window).
Proof.
  intros Ho Hw. unfold flushWindow. destruct window as [|e w]; [done|]. apply Forall_app. split; [done|].
  apply cut_fresh. by rewrite stable_sort_Permutation.
Qed.

Lemma place_fresh entries : Forall nonneg entries → Forall freshItem (place layout entries).
Proof.
  intros He. unfold place.
  assert (∀ l acc, Forall nonneg l → Forall freshItem (fst (fst acc)) → Forall nonneg (snd (fst acc)) →
    let r := foldl (place_one layout) acc l in Forall freshItem (fst (fst r)) ∧ Forall nonneg (snd (fst r))) as Hg.
  { induction l as [|e l IH]; intros [[out window] a] Hl Ho Hc; cbn [foldl]; [done|].
    apply Forall_cons in Hl as [Hh Hl]. cbn [fst snd] in *.
    assert (Forall nonneg (window ++ [e])) by (apply Forall_app; split; [done|by constructor]).
    apply IH; [done|..]; unfold place_one; destruct (_ <=? _); cbn [fst snd]; try done.
    by apply flushWindow_fresh. }
  destruct (Hg entries ([], [], 0) He) as [H1 H2]; [constructor..|].
  destruct (foldl _ _ _) as [[out window] a]. by apply flushWindow_fresh.
Qed.

End layout.

(** [where] finds each path at a place that holds it, and finds them all. *)
Definition placeOf (items : list placed) (k i : nat) : option cell :=
  match items !! k with Some it => itemCells it !! i | None => None end.

Lemma whereLeaf_spec m k it p loc :
  whereLeaf m k it !! p = Some loc →
  m !! p = Some loc ∨ ∃ i x, loc = (k, i) ∧ itemCells it !! i = Some x ∧ e_Path (fst x) = p.
Proof.
  unfold whereLeaf, itemCells.
  assert (∀ l (m : gmap string (nat * nat)), (∀ j c, (j, c) ∈ l → n_cells (pl_n it) !! j = Some c) →
    foldl (λ m '(i, c), <[e_Path (fst c) := (k, i)]> m) m l !! p = Some loc →
    m !! p = Some loc ∨ ∃ i x, loc = (k, i) ∧ n_cells (pl_n it) !! i = Some x ∧ e_Path (fst x) = p) as Hg.
  { induction l as [|[j c] l IH]; intros m0 Hl; cbn [foldl]; [auto|]. intros [Hm|?]%IH; [|auto|].
    - rewrite lookup_insert in Hm. case_decide; [|auto]. right. exists j, c. simplify_eq. split_and!; [done|apply Hl; left|done].
    - intros; apply Hl; by right. }
  apply Hg. intros j c Hin. apply elem_of_lookup_imap in Hin as (j' & c' & [= -> ->] & ?). done.
Qed.

Lemma whereLeaf_mono m k it p : is_Some (m !! p) → is_Some (whereLeaf m k it !! p).
Proof.
  unfold whereLeaf. generalize (imap pair (n_cells (pl_n it))). intros l. revert m.
  induction l as [|[j c] l IH]; intros m Hm; cbn [foldl]; [done|]. apply IH. rewrite lookup_insert. case_decide; eauto.
Qed.

Lemma whereLeaf_complete m k it i x : itemCells it !! i = Some x → is_Some (whereLeaf m k it !! e_Path (fst x)).
Proof.
  unfold whereLeaf, itemCells. intros Hx. apply (elem_of_lookup_imap_2 pair) in Hx. revert m Hx.
  generalize (imap pair (n_cells (pl_n it))). intros l. induction l as [|[j c] l IH]; intros m Hx; [by apply elem_of_nil in Hx|].
  cbn [foldl]. apply elem_of_cons in Hx as [[= <- <-]|Hx]; [|by apply IH]. clear IH.
  assert (is_Some (<[e_Path (fst x) := (k, i)]> m !! e_Path (fst x))) as Hi by (rewrite lookup_insert_eq; eauto).
  revert Hi. generalize (<[e_Path (fst x) := (k, i)]> m). induction l as [|[j c] l IH]; intros m' Hm; cbn [foldl]; [done|].
  apply IH. rewrite lookup_insert. case_decide; eauto.
Qed.

Lemma whereOf_spec items p k i :
  whereOf items !! p = Some (k, i) → ∃ x, placeOf items k i = Some x ∧ e_Path (fst x) = p.
Proof.
  unfold whereOf, placeOf.
  assert (∀ l (m : gmap string (nat * nat)), (∀ j it, (j, it) ∈ l → items !! j = Some it) →
    foldl (λ m '(k, p), whereLeaf m k p) m l !! p = Some (k, i) →
    m !! p = Some (k, i) ∨ ∃ x, match items !! k with Some it => itemCells it !! i | None => None end = Some x ∧ e_Path (fst x) = p) as Hg.
  { induction l as [|[j it] l IH]; intros m Hl; cbn [foldl]; [auto|]. intros [Hm|?]%IH; [|auto|].
    - apply whereLeaf_spec in Hm as [?|(i' & x & [= -> ->] & Hx & Hp)]; [auto|]. right. exists x.
      rewrite (Hl j it) by left. done.
    - intros; apply Hl; by right. }
  intros H. apply Hg in H as [?%lookup_empty_Some|?]; [done|done|].
  intros j it Hin. apply elem_of_lookup_imap in Hin as (j' & c' & [= -> ->] & ?). done.
Qed.

Lemma whereOf_complete items k i x : placeOf items k i = Some x → is_Some (whereOf items !! e_Path (fst x)).
Proof.
  unfold placeOf, whereOf. destruct (items !! k) as [it|] eqn:E; [|done]. intros Hx.
  apply (elem_of_lookup_imap_2 pair) in E. revert E. generalize (imap pair items). generalize (∅ : gmap string (nat * nat)).
  assert (∀ l (m : gmap string (nat * nat)), is_Some (m !! e_Path (fst x)) →
    is_Some (foldl (λ m '(k, p), whereLeaf m k p) m l !! e_Path (fst x))) as Hk.
  { induction l as [|[j it'] l IH]; intros m Hm; cbn [foldl]; [done|]. apply IH. by apply whereLeaf_mono. }
  intros m l. revert m. induction l as [|[j it'] l IH]; intros m Hin; [by apply elem_of_nil in Hin|]. cbn [foldl].
  apply elem_of_cons in Hin as [[= <- <-]|Hin]; [|by apply IH]. apply Hk. by eapply whereLeaf_complete.
Qed.

(** *** Carrying states over *)

Lemma good_carry st e : 0 ≤ e_Size e → good (carry st) (e, newFile).
Proof.
  intros He. unfold good, carry, account, cellc, addc. simpl. destruct (fs_stored st); simpl; f_equal; lia.
Qed.

(** The leaves are right, hold the entries [E], and the files at the places
    still to be carried to are untouched. *)
Record carry_ok (E : list (list Entry)) (todo : list (string * (nat * nat))) (items : list placed) : Prop := {
  cy_leaf : Forall leafItem items;
  cy_entries : (λ it, fst <$> itemCells it) <$> items = E;
  cy_cells : Forall (λ it, Forall cell_ok (itemCells it)) items;
  cy_todo : ∀ p k i x, (p, (k, i)) ∈ todo → placeOf items k i = Some x → snd x = newFile
}.

Lemma update_leaf g it i :
  leafItem it → (∀ x, itemCells it !! i = Some x → good g x) →
  leafItem {| pl_n := fst (update g (pl_n it) 0 i); pl_level := pl_level it |} ∧
  itemCells {| pl_n := fst (update g (pl_n it) 0 i); pl_level := pl_level it |} = fst (onCell g (itemCells it) i).
Proof.
  intros (cells & E) Hg. unfold itemCells, leafItem in *. cbn [pl_n]. rewrite E in *. cbn [n_cells update] in *.
  destruct (onCell_spec g cells i Hg) as [Hs _]. destruct (onCell g cells i) as [cells' dl]. cbn [fst snd] in *.
  split; [|done]. exists cells'. by rewrite Hs.
Qed.

Lemma alter_out {A} (f : A → A) (l : list A) k : l !! k = None → alter f k l = l.
Proof.
  intros E. apply list_eq. intros j. rewrite list_lookup_alter. case_decide; [subst; by rewrite E|done].
Qed.

Lemma carryOne_ok E old p k i todo items :
  (∀ st, old p = Some st → fs_stored st = true → fs_read st = 0) →
  carry_ok E ((p, (k, i)) :: todo) items → (k, i) ∉ snd <$> todo →
  carry_ok E todo (carryOne old items (p, (k, i))).
Proof.
  intros Hold [C1 C2 C3 C4] Hni. unfold carryOne. destruct (old p) as [st|] eqn:Eo.
  2: { split; try done. intros p' k' i' x Hin. eapply C4. by right. }
  destruct (items !! k) as [it|] eqn:Ek.
  2: { rewrite alter_out by done. split; try done. intros p' k' i' x Hin. eapply C4. by right. }
  assert (Hg : ∀ x, itemCells it !! i = Some x → good (carry st) x).
  { intros [e s] Hx. assert (s = newFile) as ->.
    { apply (C4 p k i (e, s)); [left|]. unfold placeOf. by rewrite Ek. }
    apply good_carry. eapply Forall_lookup_1 in C3; [|exact Ek]. eapply Forall_lookup_1 in C3; [|exact Hx]. apply C3. }
  destruct (update_leaf (carry st) it i (Forall_lookup_1 _ _ _ _ C1 Ek) Hg) as [L1 L2].
  set (it' := {| pl_n := fst (update (carry st) (pl_n it) 0 i); pl_level := pl_level it |}) in *.
  split.
  - apply Forall_alter; [done|]. intros it0 H0 ?. by simplify_eq.
  - rewrite <- C2. apply list_eq. intros j. rewrite !list_lookup_fmap.
    destruct (decide (k = j)) as [<-|Hj]; [|by rewrite list_lookup_alter_ne].
    rewrite list_lookup_alter_eq, Ek. simpl. f_equal. fold it'. rewrite L2. unfold onCell.
    destruct (itemCells it !! i) as [x|] eqn:Ex; [|done]. simpl. rewrite list_fmap_insert. simpl.
    apply list_insert_id. by rewrite list_lookup_fmap, Ex.
  - apply Forall_alter; [done|]. intros it0 H0 Hc. assert (it0 = it) as -> by congruence. fold it'. rewrite L2. unfold onCell.
    destruct (itemCells it !! i) as [x|] eqn:Ex; [|done]. simpl. apply Forall_insert; [done|].
    split; [simpl; eauto|]. eapply Forall_lookup_1 in Hc; [|exact Ex]. apply Hc.
  - intros p' k' i' x Hin Hx. unfold placeOf in Hx. destruct (decide (k = k')) as [<-|Hne].
    2: { rewrite list_lookup_alter_ne in Hx by done. apply (C4 p' k' i'); [by right|done]. }
    rewrite list_lookup_alter_eq, Ek in Hx. simpl in Hx. fold it' in Hx. rewrite L2 in Hx.
    assert (i ≠ i'). { intros <-. apply Hni. apply list_elem_of_fmap. by exists (p', (k, i)). }
    apply (C4 p' k i'); [by right|]. unfold placeOf. rewrite Ek. unfold onCell in Hx.
    destruct (itemCells it !! i); [|done]. simpl in Hx. by rewrite list_lookup_insert_ne in Hx.
Qed.

Lemma carry_all E old todo items :
  (∀ p st, old p = Some st → fs_stored st = true → fs_read st = 0) →
  NoDup (snd <$> todo) → carry_ok E todo items → carry_ok E [] (foldl (carryOne old) items todo).
Proof.
  intros Hold. revert items. induction todo as [|[p [k i]] todo IH]; intros items Hnd Hok; cbn [foldl]; [done|].
  rewrite fmap_cons in Hnd. apply NoDup_cons in Hnd as [Hni Hnd]. apply IH; [done|]. apply carryOne_ok; [|done..]. eauto.
Qed.

Lemma NoDup_where items : NoDup (snd <$> map_to_list (whereOf items)).
Proof.
  apply NoDup_fmap_2_strong; [|apply NoDup_map_to_list].
  intros [p [k i]] [p' loc] H1%elem_of_map_to_list H2%elem_of_map_to_list Heq. simpl in Heq. subst loc.
  apply whereOf_spec in H1 as (x & Hx & <-), H2 as (x' & Hx' & <-). by simplify_eq.
Qed.

(** ** Rebuilding *)

Lemma rebuild_ok layout entries old :
  2 ≤ ly_Branching layout → Forall nonneg entries →
  (∀ p st, old p = Some st → fs_stored st = true → fs_read st = 0) →
  tree_ok (rebuild layout entries old).
Proof.
  intros Hb Hn Hold. unfold rebuild. set (items := place layout _).
  assert (Hf : Forall freshItem items).
  { apply place_fresh. apply Forall_forall. intros e [_ He]%list_elem_of_filter. by eapply Forall_forall in Hn. }
  assert (Hok : carry_ok ((λ it, fst <$> itemCells it) <$> items) (map_to_list (whereOf items)) items).
  { split; [|done|..].
    - eapply Forall_impl; [exact Hf|]. intros it Hit. by apply fresh_leaf in Hit as [? _].
    - eapply Forall_impl; [exact Hf|]. intros it Hit. by apply fresh_leaf in Hit as (_ & _ & ?).
    - intros p k i x _ Hx. unfold placeOf in Hx. destruct (items !! k) as [it|] eqn:Ek; [|done].
      pose proof (Forall_lookup_1 _ _ _ _ Hf Ek) as (_ & H1 & _)%fresh_leaf. by eapply Forall_lookup_1 in H1. }
  apply (carry_all _ old) in Hok; [|done|apply NoDup_where]. set (items' := foldl _ _ _) in *.
  destruct Hok as [C1 C2 C3 _]. destruct (build_total layout Hb items') as (n & -> & Hw & Hl).
  { eapply Forall_impl; [exact C1|]. intros it (cells & ->). constructor. }
  assert (Hcell : ∀ k i, cellAt n k i = placeOf items' k i).
  { intros k i. unfold cellAt, placeOf. rewrite Hl. assert (itemLeaves items' = itemCells <$> items') as El.
    { clear -C1. induction C1 as [|it l (cells & E) _ IH]; [done|]. rewrite itemLeaves_cons, fmap_cons, IH. unfold itemCells. by rewrite E. }
    destruct items' as [|x l] eqn:Ei; [by destruct k|]. rewrite El, list_lookup_fmap. by destruct ((x :: l) !! k). }
  assert (Hent : ∀ k i, fst <$> placeOf items' k i = fst <$> placeOf items k i).
  { intros k i. unfold placeOf. pose proof (f_equal (.!! k) C2) as Ek. simpl in Ek. rewrite !list_lookup_fmap in Ek.
    destruct (items' !! k) as [a|], (items !! k) as [b|]; try done. injection Ek as Ek.
    rewrite <- !list_lookup_fmap. by rewrite Ek. }
  split; cbn [t_layout t_root t_where default]; [done..| | |].
  - apply Forall_forall. intros x (k & i & Hx)%cells_cellAt. rewrite Hcell in Hx. unfold placeOf in Hx.
    destruct (items' !! k) as [it|] eqn:Ek; [|done]. pose proof (Forall_lookup_1 _ _ _ _ C3 Ek) as H.
    by eapply Forall_lookup_1 in H.
  - intros p k i (x & Hx & Hp)%whereOf_spec. exists (fst x). rewrite entryAt_cellAt, Hcell, Hent, Hx. done.
  - intros k i e. rewrite entryAt_cellAt, Hcell, Hent. destruct (placeOf items k i) as [x|] eqn:Ex; [|done].
    intros [= <-]. by eapply whereOf_complete.
Qed.

(** ** The life of a tree *)

Lemma withDefaults_branching l l' : withDefaults l = Ok l' → 2 ≤ ly_Branching l'.
Proof. unfold withDefaults. destruct (_ <? 2) eqn:E; [done|]. intros [= <-]. bool_to_prop. simpl. lia. Qed.

Inductive tree_step (t : Tree) : Tree → Prop :=
| tree_add entries : Forall nonneg entries → tree_step t (Add entries t)
| tree_read p n : 0 ≤ n → tree_step t (fst (Read p n t))
| tree_markSent p : tree_step t (MarkSent p t)
| tree_unstore entries : Forall (ownEntry t) entries → tree_step t (Unstore entries t)
| tree_unstored maxBytes maxFiles : tree_step t (fst (Unstored maxBytes maxFiles t))
| tree_setLink l : tree_step t (SetLink l t).

(** The files a tree was ever offered have sizes. *)
Definition offered_ok (t : Tree) : Prop := Forall nonneg (t_entries t).

Lemma oldState_ok t p st : tree_ok t → oldState t p = Some st → fs_stored st = true → fs_read st = 0.
Proof.
  intros Hok. unfold oldState. destruct (t_where t !! p) as [[k i]|]; [|done].
  destruct (cellAt (t_root t) k i) as [[e s]|] eqn:E; [|done]. intros [= <-].
  apply (proj1 (Forall_forall _ _) (tk_cells _ Hok) _ (cellAt_cells _ _ _ _ E)).
Qed.

Lemma Unstore_entries entries t : t_entries (Unstore entries t) = t_entries t.
Proof.
  unfold Unstore. revert t. induction entries as [|e entries IH]; intros t; cbn [foldl]; [done|]. rewrite IH.
  unfold unstoreOne. destruct (t_where t !! _) as [[k i]|]; [|done]. destruct (cellAt _ _ _) as [[e' st]|]; [|done].
  by destruct (fs_stored st).
Qed.

Lemma tree_step_ok t t' : tree_step t t' → tree_ok t ∧ offered_ok t → tree_ok t' ∧ offered_ok t'.
Proof.
  unfold offered_ok. intros Hs [Hok Ho]. destruct Hs as [entries He|p n Hn|p|entries He|mb mf|l].
  - assert (Forall nonneg (t_entries t ++ entries)) by by apply Forall_app. split; [|done].
    apply rebuild_ok; [apply Hok|done|]. intros p st. by apply oldState_ok.
  - split; [by apply Read_ok|]. unfold Read. destruct (t_where t !! p) as [[k i]|]; [|done].
    destruct (cellAt _ _ _) as [[e st]|]; [|done].
    destruct (fs_stored st); [done|]. by destruct (readFrom _ _ _ _ _) as [? [? ?]].
  - split; [by apply MarkSent_ok|]. unfold MarkSent. destruct (t_where t !! p) as [[k i]|]; [|done].
    destruct (cellAt _ _ _) as [[e st]|]; [|done]. by destruct (fs_stored st).
  - split; [by apply Unstore_ok|]. by rewrite Unstore_entries.
  - pose proof (Unstored_spec mb mf t Hok) as Hu. unfold Unstored in *. destruct (_ || _); [done|].
    destruct (takeCands _ _ _ _ _ _) as [root out]. by destruct Hu as [? _].
  - destruct Hok as [H1 H2 H3 H4 H5]. split; [|done]. by split.
Qed.

Definition tree_reachable (t : Tree) : Prop :=
  ∃ entries layout t0, Forall nonneg entries ∧ NewTree entries layout = Ok t0 ∧ rtc tree_step t0 t.

Lemma tree_reachable_ok t : tree_reachable t → tree_ok t.
Proof.
  intros (entries & layout & t0 & Hn & Ht0 & Hr).
  assert (tree_ok t0 ∧ offered_ok t0) as H0.
  { unfold NewTree in Ht0. destruct (withDefaults layout) as [l|e] eqn:El; [|done]. injection Ht0 as <-.
    split; [|done]. apply rebuild_ok; [by eapply withDefaults_branching|done|done]. }
  assert (tree_ok t ∧ offered_ok t) as [? _]; [|done].
  clear Ht0 Hn. induction Hr as [|? ? ? Hs Hr IH]; [done|]. apply IH. by eapply tree_step_ok.
Qed.

Definition storedCells (l : list cell) : list cell := filter (λ x, fs_stored (snd x) = true) l.
Definition openCells (l : list cell) : list cell := filter (λ x, fs_stored (snd x) = false) l.

Lemma cellsc_stored l :
  n_fetched (cellsc l) = sumSizes (fst <$> storedCells l) ∧
  n_fetchedFiles (cellsc l) = Z.of_nat (length (storedCells l)) ∧
  n_files (cellsc l) - n_fetchedFiles (cellsc l) = Z.of_nat (length (openCells l)).
Proof.
  induction l as [|[e st] l (I1 & I2 & I3)]; [done|]. unfold cellsc, storedCells, openCells in *. rewrite fmap_cons.
  cbn [sumc foldr addc n_fetched n_fetchedFiles n_files cellc]. fold (sumc (cellc <$> l)). destruct (fs_stored st) eqn:E.
  - rewrite filter_cons_True by done. rewrite (filter_cons_False _ (e, st)) by (simpl; congruence).
    rewrite fmap_cons. cbn [sumSizes foldr length fst]. fold (sumSizes (fst <$> filter (λ x : cell, fs_stored (snd x) = true) l)). lia.
  - rewrite filter_cons_False by (simpl; congruence). rewrite (filter_cons_True _ (e, st)) by done. cbn [length]. lia.
Qed.

(** Whatever a tree has been through (files added by the walk,
    reads, batches taken and refused, files marked sent, a link that changed),
    its books are right: what it says is stored, in bytes and in files, and what
    it says is left, are the totals over the files it holds, and every inner
    node's counters are the sums of its children's. *)
Theorem tree_counters_exact t :
  tree_reachable t →
  wf (t_root t) ∧
  Stored t = (sumSizes (fst <$> storedCells (cellsOf (t_root t))), Z.of_nat (length (storedCells (cellsOf (t_root t))))) ∧
  unstoredCount t = Z.of_nat (length (openCells (cellsOf (t_root t)))).
Proof.
  intros Hok%tree_reachable_ok. split; [apply Hok|]. unfold Stored, unstoredCount, unfetchedFiles.
  rewrite (wf_counters _ (tk_wf _ Hok)). destruct (cellsc_stored (cellsOf (t_root t))) as (-> & -> & ->). done.
Qed.

(** C40 (bounds). One miss sends at most the cap in total, however many levels it
    climbs, and nothing twice: each file sent was not stored before and is
    afterwards, and every other file is stored exactly if it was. *)
Theorem read_sends_within_cap t p n :
  tree_reachable t → 0 ≤ n →
  (snd (Read p n t) = [] ∨ sumSizes (snd (Read p n t)) ≤ cap (t_layout t)) ∧
  ∃ out, sends (cellsOf (t_root t)) (cellsOf (t_root (fst (Read p n t)))) out ∧ out ≡ₚ snd (Read p n t).
Proof.
  intros Hok%tree_reachable_ok Hn. destruct (Read_ok p n t Hok Hn) as (_ & [_ Hc] & Hs). by split.
Qed.

(** What the walk takes respects the limits it is given (a single
    file may be larger than the byte limit, so that a share still makes
    progress), sends nothing twice, and is the smallest of what is left: every
    file still unstored afterwards comes after every file taken. *)
Theorem unstored_smallest_first t maxBytes maxFiles :
  tree_reachable t →
  let '(t', out) := Unstored maxBytes maxFiles t in
  Z.of_nat (length out) ≤ Z.max maxFiles 0 ∧ ((length out ≤ 1)%nat ∨ sumSizes out ≤ maxBytes) ∧
  (∃ o, sends (cellsOf (t_root t)) (cellsOf (t_root t')) o ∧ o ≡ₚ out) ∧
  (∀ e e' st, e ∈ out → (e', st) ∈ cellsOf (t_root t') → fs_stored st = false → bySizePath e e' = true).
Proof.
  intros Hok%tree_reachable_ok. pose proof (Unstored_spec maxBytes maxFiles t Hok) as Hu.
  destruct (Unstored _ _ _) as [t' out]. naive_solver.
Qed.

(** ** A refused batch *)

Lemma sends_entries l l' out : sends l l' out → fst <$> l' = fst <$> l.
Proof. intros H. induction H; [done|..]; rewrite !fmap_cons; by f_equal. Qed.

Lemma sends_elem l l' out e : sends l l' out → e ∈ out → (e, storedState) ∈ l'.
Proof.
  intros H. induction H as [|e0 st st' l l' out Hs Hk H IH|e0 st l l' out Hs H IH]; [by intros ?%elem_of_nil|..].
  - intros He. right. auto.
  - rewrite elem_of_cons. intros [->|He]; [left|right; auto].
Qed.

Lemma sends_out_sub l l' out : sends l l' out → out `sublist_of` (fst <$> l).
Proof. intros H. induction H; rewrite ?fmap_cons; by constructor. Qed.

Definition uniquePaths (t : Tree) : Prop := NoDup ((λ x, e_Path (fst x)) <$> cellsOf (t_root t)).

(** With no path twice, the index finds each stored file itself. *)
Lemma where_of_cell t x :
  tree_ok t → uniquePaths t → x ∈ cellsOf (t_root t) →
  ∃ k i, t_where t !! e_Path (fst x) = Some (k, i) ∧ cellAt (t_root t) k i = Some x.
Proof.
  intros Hok Hu Hx. destruct (cells_cellAt _ _ Hx) as (k0 & i0 & Hc).
  destruct (tk_complete _ Hok k0 i0 (fst x)) as [[k i] Hw]; [by rewrite entryAt_cellAt, Hc|].
  exists k, i. split; [done|]. destruct (where_cell _ _ _ _ Hok Hw) as (e' & st & Hc' & Hp & _).
  rewrite Hc'. f_equal. apply cellAt_cells in Hc'. unfold uniquePaths in Hu.
  apply list_elem_of_lookup in Hc' as [a Ha], Hx as [b Hb].
  assert (a = b); [|congruence]. eapply (NoDup_lookup _ a b (e_Path (fst x)) Hu); rewrite list_lookup_fmap.
  - by rewrite Ha, <- Hp.
  - by rewrite Hb.
Qed.

Lemma Unstore_counts entries t :
  tree_ok t → NoDup (e_Path <$> entries) →
  (∀ e, e ∈ entries → ∃ k i st, t_where t !! e_Path e = Some (k, i) ∧ cellAt (t_root t) k i = Some (e, st) ∧ fs_stored st = true) →
  Stored (Unstore entries t) = (fst (Stored t) - sumSizes entries, snd (Stored t) - Z.of_nat (length entries)).
Proof.
  unfold Unstore. revert t. induction entries as [|e entries IH]; intros t Hok Hnd He; cbn [foldl].
  { unfold Stored. simpl. by rewrite !Z.sub_0_r. }
  rewrite fmap_cons in Hnd. apply NoDup_cons in Hnd as [Hn Hnd].
  destruct (He e) as (k & i & st & Hw & Hc & Hs); [left|].
  assert (Hown : ownEntry t e).
  { intros k' i' e' Hw' Hent. rewrite entryAt_cellAt in Hent. rewrite Hw in Hw'. injection Hw' as <- <-.
    rewrite Hc in Hent. by injection Hent. }
  destruct (unstoreOne_spec t e Hok Hown) as (O1 & O2 & O3 & O4 & O5). destruct (O5 k i st Hw Hc Hs) as [O6 O7].
  rewrite IH; [|done..|].
  - unfold Stored. rewrite O6. cbn [fst snd addc n_fetched n_fetchedFiles sumSizes foldr length]. f_equal; [|lia].
    fold (sumSizes entries). lia.
  - intros e' Hin. destruct (He e') as (k' & i' & st' & Hw' & Hc' & Hs'); [by right|]. exists k', i', st'.
    rewrite O2, O7; [done|]. intros [= -> ->]. rewrite Hc in Hc'. injection Hc' as <- _. apply Hn.
    apply list_elem_of_fmap. eauto.
Qed.

Lemma refused t t1 out o :
  tree_ok t → tree_ok t1 → uniquePaths t → sends (cellsOf (t_root t)) (cellsOf (t_root t1)) o → o ≡ₚ out →
  Stored (Unstore out t1) = Stored t.
Proof.
  intros Hok Hok1 Hu Hs Hp.
  assert (Hu1 : uniquePaths t1).
  { unfold uniquePaths in *. change (λ x : cell, e_Path (fst x)) with (e_Path ∘ (fst : cell → Entry)) in *.
    rewrite list_fmap_compose in *. by rewrite (sends_entries _ _ _ Hs). }
  rewrite Unstore_counts; [|done|..].
  - unfold Stored. rewrite (wf_counters _ (tk_wf _ Hok)), (wf_counters _ (tk_wf _ Hok1)), (sends_sum _ _ _ Hs). cbn [fst snd].
    rewrite <- Hp. f_equal; [lia|]. clear -Hs. unfold cellsc.
    induction Hs as [|e st st' l l' out Ha Hb Hs IH|e st l l' out Ha Hs IH]; [done|..]; rewrite !fmap_cons;
      cbn [sumc foldr addc n_fetchedFiles cellc length storedState fs_stored]; unfold sumc in *; rewrite ?Ha; lia.
  - rewrite <- Hp. eapply sublist_NoDup; [exact Hu|]. change (λ x : cell, e_Path (fst x)) with (e_Path ∘ (fst : cell → Entry)).
    rewrite list_fmap_compose. apply fmap_sublist. by eapply sends_out_sub.
  - intros e He. rewrite <- Hp in He. destruct (where_of_cell t1 (e, storedState) Hok1 Hu1) as (k & i & Hw & Hc).
    { by eapply sends_elem. }
    exists k, i, storedState. done.
Qed.

(** A batch the store refuses is as if it had never been taken:
    putting it back leaves the tree holding, in bytes and in files, exactly what
    it held before, whether the batch came from a read or from the walk. *)
Theorem refused_batch_restores t p n maxBytes maxFiles :
  tree_reachable t → uniquePaths t → 0 ≤ n →
  Stored (Unstore (snd (Read p n t)) (fst (Read p n t))) = Stored t ∧
  Stored (Unstore (snd (Unstored maxBytes maxFiles t)) (fst (Unstored maxBytes maxFiles t))) = Stored t.
Proof.
  intros Hok%tree_reachable_ok Hu Hn. split.
  - destruct (Read_ok p n t Hok Hn) as (Hok1 & _ & o & Hs & Hp). by eapply refused.
  - pose proof (Unstored_spec maxBytes maxFiles t Hok) as Hspec. destruct (Unstored _ _ _) as [t' out].
    destruct Hspec as (Hok1 & (o & Hs & Hp) & _). by eapply refused.
Qed.

(** ** Nothing is lost in the layout *)

Definition itemEntries (items : list placed) : list Entry := mjoin ((λ it, fst <$> itemCells it) <$> items).

Lemma itemEntries_app a b : itemEntries (a ++ b) = itemEntries a ++ itemEntries b.
Proof. unfold itemEntries. by rewrite fmap_app, mjoin_app. Qed.

Lemma itemEntries_emit es level : itemEntries [emit es level] = es.
Proof.
  unfold itemEntries, itemCells, emit. simpl. rewrite app_nil_r, <- list_fmap_compose. apply list_fmap_id.
Qed.

Lemma cut_one_entries layout out cur size e :
  let '(out', cur', _) := cut_one layout (out, cur, size) e in
  itemEntries out' ++ cur' = (itemEntries out ++ cur) ++ [e].
Proof.
  unfold cut_one. destruct (_ <? _).
  - rewrite itemEntries_app, itemEntries_emit, app_nil_r. destruct cur; [by rewrite app_nil_r|].
    by rewrite itemEntries_app, itemEntries_emit.
  - destruct (_ && _); [|by rewrite app_assoc]. rewrite itemEntries_app, itemEntries_emit. done.
Qed.

Lemma cut_entries layout window : itemEntries (cut layout window) = window.
Proof.
  unfold cut.
  assert (∀ l out cur size, let '(out', cur', _) := foldl (cut_one layout) (out, cur, size) l in
    itemEntries out' ++ cur' = (itemEntries out ++ cur) ++ l) as Hg.
  { induction l as [|e l IH]; intros out cur size; cbn [foldl]; [by rewrite app_nil_r|].
    pose proof (cut_one_entries layout out cur size e) as H1. destruct (cut_one layout (out, cur, size) e) as [[out1 cur1] size1].
    specialize (IH out1 cur1 size1). destruct (foldl _ _ l) as [[out' cur'] size']. rewrite IH, H1.
    by rewrite <- app_assoc. }
  specialize (Hg window [] [] 0). destruct (foldl _ _ _) as [[out cur] size]. simpl in Hg.
  destruct cur; [by rewrite app_nil_r in Hg|]. by rewrite itemEntries_app, itemEntries_emit.
Qed.

Lemma flushWindow_entries layout out window : itemEntries (flushWindow layout out window) ≡ₚ itemEntries out ++ window.
Proof.
  unfold flushWindow. destruct window as [|e w]; [by rewrite app_nil_r|]. rewrite itemEntries_app, cut_entries.
  by rewrite stable_sort_Permutation.
Qed.

Lemma place_entries layout entries : itemEntries (place layout entries) ≡ₚ entries.
Proof.
  unfold place.
  assert (∀ l out window a, let '(out', window', _) := foldl (place_one layout) (out, window, a) l in
    itemEntries out' ++ window' ≡ₚ (itemEntries out ++ window) ++ l) as Hg.
  { induction l as [|e l IH]; intros out window a; cbn [foldl]; [by rewrite app_nil_r|].
    unfold place_one at 2. destruct (_ <=? _).
    - specialize (IH (flushWindow layout out (window ++ [e])) [] 0). destruct (foldl _ _ l) as [[out' w'] a']. rewrite IH.
      rewrite app_nil_r, flushWindow_entries. by rewrite !app_assoc, <- (app_assoc _ [e]).
    - specialize (IH out (window ++ [e]) (a + e_Size e)). destruct (foldl _ _ l) as [[out' w'] a']. rewrite IH.
      by rewrite !app_assoc, <- (app_assoc _ [e]). }
  specialize (Hg entries [] [] 0). destruct (foldl _ _ _) as [[out window] a]. rewrite flushWindow_entries. exact Hg.
Qed.

(** A tree is built from any files at all, and holds every one
    of them that is small enough, once, wherever the size windows, the leaves and
    the levels put it; none of them is stored yet. *)
Theorem newTree_holds_small_files entries layout t :
  Forall nonneg entries → NewTree entries layout = Ok t →
  fst <$> cellsOf (t_root t) ≡ₚ filter (λ e, e_Size e ≤ ly_LargeFile (t_layout t)) entries ∧ Stored t = (0, 0).
Proof.
  unfold NewTree. intros Hn Ht. destruct (withDefaults layout) as [l|e] eqn:El; [|done]. injection Ht as <-.
  unfold rebuild. cbn [t_layout t_root]. set (items := place l _).
  assert (Hid : ∀ todo its, foldl (carryOne (λ _, None)) its todo = its).
  { induction todo as [|[p [k i]] todo IH]; intros its; cbn [foldl]; [done|]. by rewrite IH. }
  rewrite Hid. assert (Hf : Forall freshItem items).
  { apply place_fresh. apply Forall_forall. intros e [_ He]%list_elem_of_filter. by eapply Forall_forall in Hn. }
  assert (Hleaf : Forall leafItem items).
  { eapply Forall_impl; [exact Hf|]. intros it Hit. by apply fresh_leaf in Hit as [? _]. }
  destruct (build_total l (withDefaults_branching _ _ El) items) as (n & -> & Hw & Hl).
  { eapply Forall_impl; [exact Hleaf|]. intros it (cells & ->). constructor. }
  cbn [default from_option id]. assert (Ecells : cellsOf n = mjoin (itemCells <$> items)).
  { unfold cellsOf. rewrite Hl. clear -Hleaf. destruct items as [|x items]; [done|]. revert Hleaf. generalize (x :: items). intros its Hleaf.
    induction Hleaf as [|it its (cells & E) _ IH]; [done|]. rewrite itemLeaves_cons, fmap_cons, mjoin_app, mjoin_cons, IH.
    unfold itemCells. rewrite E. simpl. by rewrite app_nil_r. }
  assert (Eent : fst <$> cellsOf n = itemEntries items).
  { rewrite Ecells. clear. unfold itemEntries. induction items as [|it its IH]; [done|]. by rewrite !fmap_cons, !mjoin_cons, fmap_app, IH. }
  split.
  { change (fst <$> cellsOf n ≡ₚ filter (λ e, e_Size e ≤ ly_LargeFile l) entries). rewrite Eent. apply place_entries. }
  unfold Stored. cbn [t_root]. rewrite (wf_counters _ Hw), Ecells. clear -Hf.
  induction Hf as [|it its (_ & Hnew & _)%fresh_leaf _ IH]; [done|]. rewrite fmap_cons, mjoin_cons, cellsc_app.
  cbn [n_fetched n_fetchedFiles addc]. injection IH as -> ->. rewrite !Z.add_0_r. clear -Hnew.
  induction Hnew as [|[e st] l Hst _ IH]; [done|]. simpl in Hst. subst st. unfold cellsc. rewrite fmap_cons. cbn. injection IH as H1 H2.
  unfold cellsc, sumc in *. by rewrite H1, H2.
Qed.

(** ** Levels *)

Lemma levelFor_loop_spec fuel span size level :
  0 < span → size ≤ span * 2 ^ Z.of_nat fuel →
  ∃ j : nat, levelFor_loop fuel span size level = level + Z.of_nat j ∧ size ≤ span * 2 ^ Z.of_nat j ∧
    (j = 0%nat ∨ span * 2 ^ (Z.of_nat j - 1) < size).
Proof.
  revert span level. induction fuel as [|fuel IH]; intros span level Hs Hf; cbn [levelFor_loop].
  { exists 0%nat. simpl in *. split_and!; [lia|lia|by left]. }
  destruct (span <? size) eqn:E; bool_to_prop.
  - destruct (IH (span * 2) (level + 1)) as (j & -> & H1 & H2); [lia| |].
    { rewrite Nat2Z.inj_succ, Z.pow_succ_r in Hf by lia. lia. }
    exists (S j). rewrite Nat2Z.inj_succ, Z.pow_succ_r by lia. split_and!; [lia|lia|]. right.
    replace (Z.succ (Z.of_nat j) - 1) with (Z.of_nat j) by lia. destruct H2 as [->|H2]; [simpl; lia|].
    destruct j as [|j]; [simpl; lia|]. rewrite Nat2Z.inj_succ in *. replace (Z.succ (Z.of_nat j) - 1) with (Z.of_nat j) in H2 by lia.
    rewrite Z.pow_succ_r by lia. lia.
  - exists 0%nat. simpl. split_and!; [lia|lia|by left].
Qed.

(** The level a large file enters at is the smallest whose span
    holds it: the doubling loop ends for every size an [int64] holds, its last
    span is at least the file, and the span before it is not. *)
Theorem levelFor_least layout size :
  0 < ly_LeafBytes layout → size < 2 ^ 63 →
  ∃ j : nat, levelFor layout size = Z.of_nat j ∧ size ≤ ly_LeafBytes layout * 2 ^ Z.of_nat j ∧
    (j = 0%nat ∨ ly_LeafBytes layout * 2 ^ (Z.of_nat j - 1) < size).
Proof.
  intros Hl Hs. unfold levelFor. destruct (levelFor_loop_spec 63 (ly_LeafBytes layout) size 0 Hl) as (j & E & H1 & H2).
  { change (2 ^ Z.of_nat 63) with (2 ^ 63). nia. }
  exists j. split_and!; [lia|done..].
Qed.
