(* ===== verification/Walk.v ===== *)
(** * What a share offers its cache: the walk, the budget and the batches
    (dircache/walk.go), and which paths it covers (dircache/invalidate.go:
    [excludedPath])

    The tree under the root is a [dirent] forest, in the order [filepath.WalkDir]
    visits it; a directory that cannot be listed is one with nothing in it, as
    the walk skips it. *)

From S2P Require Import Prelude GoStrings GoTime DirTypes Shares Root.
Open Scope Z_scope.

(** ** Budget *)

Record Budget := {
  bu_Files : Z;
  bu_Bytes : Z
}.

Definition DefaultFiles : Z := 20000.
Definition DefaultBytes : Z := 2147483648.

Definition budget_files (b : Budget) : Z := if bu_Files b <=? 0 then DefaultFiles else bu_Files b.
Definition budget_bytes (b : Budget) : Z := if bu_Bytes b <=? 0 then DefaultBytes else bu_Bytes b.

(** ** What is left out *)

(** [excluded]. *)
Definition excluded (names : list string) : gset string :=
  list_to_set (filter (λ n, n ≠ "") (strings.TrimSpace <$> names)).

(** invalidate.go: [excludedPath]. *)
Definition excludedPath (p : string) (excludes : list string) : bool :=
  match excludes with
  | [] => false
  | _ => existsb (λ part, negb (bool_decide (part = "")) && bool_decide (part ∈ excluded excludes))
                 (strings.Split (path.Clean p) path.sep)
  end.

(** ** The walk *)

(** An entry of a directory. [fi] is what [d.Info] answers for a file, [regular]
    what its type says. *)
#[warnings="-register-all"]
Inductive dirent :=
| DFile (name : string) (regular : bool) (fi : option Z)
| DDir (name : string) (kids : list dirent).

Definition d_name (d : dirent) : string := match d with DFile n _ _ => n | DDir n _ => n end.

Definition addMarker (rel : string) (s : Stats) : Stats :=
  {| st_Files := st_Files s; st_Bytes := st_Bytes s; st_TotalFiles := st_TotalFiles s; st_TotalBytes := st_TotalBytes s;
     st_Excluded := st_Excluded s; st_Markers := st_Markers s + 1;
     st_FirstMarker := if bool_decide (st_FirstMarker s = "") then rel else st_FirstMarker s |}.

Definition addExcluded (s : Stats) : Stats :=
  {| st_Files := st_Files s; st_Bytes := st_Bytes s; st_TotalFiles := st_TotalFiles s; st_TotalBytes := st_TotalBytes s;
     st_Excluded := st_Excluded s + 1; st_Markers := st_Markers s; st_FirstMarker := st_FirstMarker s |}.

Definition addTotal (size : Z) (s : Stats) : Stats :=
  {| st_Files := st_Files s; st_Bytes := st_Bytes s; st_TotalFiles := st_TotalFiles s + 1;
     st_TotalBytes := st_TotalBytes s + size; st_Excluded := st_Excluded s; st_Markers := st_Markers s;
     st_FirstMarker := st_FirstMarker s |}.

(** The path of [name] in the directory [dir], relative to the root. *)
Definition under (dir name : string) : string := if bool_decide (dir = "") then name else dir +:+ "/" +:+ name.

(** The callback of [walk] for one entry, and what is under it. *)
Fixpoint walkEntry (skip : gset string) (dir : string) (d : dirent) (acc : Stats * list Entry) : Stats * list Entry :=
  let '(s, out) := acc in
  let rel := under dir (d_name d) in
  let isDir := match d with DDir _ _ => true | DFile _ _ _ => false end in
  if negb isDir && strings.HasPrefix (d_name d) writebackPrefix then acc
  else if strings.HasPrefix (d_name d) ".wh." then (addMarker rel s, out)
  else if bool_decide (d_name d ∈ skip) then (addExcluded s, out)
  else match d with
       | DDir _ kids => foldl (λ acc k, walkEntry skip rel k acc) acc kids
       | DFile _ regular fi =>
           match fi with
           | Some size => if regular then (addTotal size s, out ++ [{| e_Path := rel; e_Size := size |}]) else acc
           | None => acc
           end
       end.

(** [walk]: the stats, and the entries in the order they are yielded. *)
Definition walk (kids : list dirent) (excludes : list string) : Stats * list Entry :=
  foldl (λ acc k, walkEntry (excluded excludes) "" k acc) (zeroStats, []) kids.

(** ** Batches *)

Definition batchBytes : Z := 16777216.
Definition maxBatchFiles : nat := 2000.

(** [batches]: one entry of the loop; the accumulator is [out], [batch], [size]. *)
Definition batch_one (acc : list (list Entry) * list Entry * Z) (e : Entry) : list (list Entry) * list Entry * Z :=
  let '(out, batch, size) := acc in
  let '(out', batch', size') :=
    if match batch with [] => false | _ => true end &&
       ((batchBytes <? size + e_Size e) || (maxBatchFiles <=? length batch)%nat)
    then (out ++ [batch], [], 0) else (out, batch, size) in
  (out', batch' ++ [e], size' + e_Size e).

Definition batches (entries : list Entry) : list (list Entry) :=
  let '(out, batch, _) := foldl batch_one ([], [], 0) entries in
  match batch with [] => out | _ => out ++ [batch] end.

(** ** Properties *)

(** A name a directory can hold. *)
Definition goodName (n : string) : Prop := n ≠ ""%string ∧ n ≠ "."%string ∧ n ≠ ".."%string ∧ strings.Contains n path.sep = false.

Definition batch_ok (b : list Entry) : Prop :=
  b ≠ [] ∧ (length b ≤ maxBatchFiles)%nat ∧
  ((length b = 1)%nat ∨ foldr (λ e s, e_Size e + s) 0 b ≤ batchBytes).

Lemma sum_snoc b e : foldr (λ e s, e_Size e + s) 0 (b ++ [e]) = foldr (λ e s, e_Size e + s) 0 b + e_Size e.
Proof. induction b as [|x b IH]; simpl; [lia|]. rewrite IH. lia. Qed.

Lemma batch_one_spec out batch size e :
  Forall batch_ok out → (batch = [] ∧ size = 0 ∨ batch_ok batch ∧ size = foldr (λ e s, e_Size e + s) 0 batch) →
  let '(out', batch', size') := batch_one (out, batch, size) e in
  Forall batch_ok out' ∧ batch_ok batch' ∧ size' = foldr (λ e s, e_Size e + s) 0 batch' ∧
  mjoin out' ++ batch' = (mjoin out ++ batch) ++ [e].
Proof.
  intros Ho Hb. unfold batch_one. destruct Hb as [[-> ->]|[Hb ->]].
  - cbn [andb app]. split_and!; [done| |cbn [app foldr]; lia|by rewrite app_nil_r].
    split_and!; [done|unfold maxBatchFiles; simpl; lia|left; done].
  - destruct batch as [|x b]; [by destruct Hb|]. set (batch := x :: b) in *. cbn [andb].
    destruct (_ || _) eqn:E.
    + split_and!; [apply Forall_app; split; [done|by constructor]| |cbn [app foldr]; lia|].
      * split_and!; [done|unfold maxBatchFiles; simpl; lia|left; done].
      * rewrite mjoin_app, mjoin_cons. simpl. by rewrite app_nil_r.
    + bool_to_prop. split_and!; [done| |by rewrite sum_snoc|by rewrite app_assoc].
      split_and!; [by destruct batch|rewrite length_app; cbn [length]; lia|right; rewrite sum_snoc; lia].
Qed.

(** The batches of an invalidation are its entries, all of them
    and in order, cut into runs that are never empty, never more than two
    thousand files, and never more than 16 MiB unless one file alone is. *)
Theorem batches_partition entries :
  mjoin (batches entries) = entries ∧ Forall batch_ok (batches entries).
Proof.
  unfold batches.
  assert (∀ l out batch size, Forall batch_ok out →
    (batch = [] ∧ size = 0 ∨ batch_ok batch ∧ size = foldr (λ e s, e_Size e + s) 0 batch) →
    let '(out', batch', _) := foldl batch_one (out, batch, size) l in
    Forall batch_ok out' ∧ (batch' = [] ∨ batch_ok batch') ∧ mjoin out' ++ batch' = (mjoin out ++ batch) ++ l) as Hg.
  { induction l as [|e l IH]; intros out batch size Ho Hb; cbn [foldl].
    { rewrite app_nil_r. split_and!; [done|naive_solver|done]. }
    pose proof (batch_one_spec out batch size e Ho Hb) as Hs. destruct (batch_one _ _) as [[out1 batch1] size1].
    destruct Hs as (H1 & H2 & H3 & H4). specialize (IH out1 batch1 size1 H1 (or_intror (conj H2 H3))).
    destruct (foldl _ _ l) as [[out' batch'] size']. destruct IH as (I1 & I2 & I3).
    split_and!; [done..|]. by rewrite I3, H4, <- app_assoc. }
  specialize (Hg entries [] [] 0 (Forall_nil_2 _) (or_introl (conj eq_refl eq_refl))).
  destruct (foldl _ _ _) as [[out batch] size]. destruct Hg as (H1 & H2 & H3). simpl in H3.
  destruct batch as [|x b]; [by rewrite app_nil_r in H3|]. destruct H2 as [?|H2]; [done|].
  split; [|apply Forall_app; split; [done|by constructor]]. rewrite mjoin_app, mjoin_cons. simpl. by rewrite app_nil_r.
Qed.

(** ** The walk and the invalidation agree about what is covered *)

Section dirent_induction.
Context (P : dirent → Prop).
Context (Hfile : ∀ name regular fi, P (DFile name regular fi)).
Context (Hdir : ∀ name kids, Forall P kids → P (DDir name kids)).

Fixpoint dirent_induction (d : dirent) : P d :=
  match d with
  | DFile name regular fi => Hfile name regular fi
  | DDir name kids =>
      Hdir name kids ((fix go (l : list dirent) : Forall P l :=
        match l with
        | [] => Forall_nil_2 P
        | x :: l' => Forall_cons_2 P x l' (dirent_induction x) (go l')
        end) kids)
  end.
End dirent_induction.

(** Every name under a directory is one a directory can hold. *)
Fixpoint goodTree (d : dirent) : Prop :=
  match d with
  | DFile name _ _ => goodName name
  | DDir name kids => goodName name ∧ foldr (λ k acc, goodTree k ∧ acc) True kids
  end.

(** A component the cache covers. *)
Definition coveredName (skip : gset string) (n : string) : Prop :=
  goodName n ∧ n ∉ skip ∧ strings.HasPrefix n ".wh." = false.

(** The components of a covered path. *)
Definition coveredParts (skip : gset string) (ws : list string) (p : string) : Prop :=
  p = strings.Join ws "/" ∧ Forall (coveredName skip) ws.

Lemma Join_good_nonempty ws : ws ≠ [] → Forall goodName ws → strings.Join ws "/" ≠ ""%string.
Proof.
  intros Hne Hg. destruct ws as [|w ws]; [done|]. apply Forall_cons in Hg as [(Hw & _) _].
  destruct ws as [|y ws]; [done|]. rewrite Join_cons by done. by destruct w.
Qed.

Lemma under_parts skip ws dir name :
  coveredParts skip ws dir → coveredName skip name → coveredParts skip (ws ++ [name]) (under dir name).
Proof.
  intros [-> Hws] Hn. split; [|apply Forall_app; split; [done|by constructor]]. unfold under.
  destruct ws as [|w ws]; [done|]. rewrite bool_decide_eq_false_2; [by rewrite Join_snoc|].
  apply Join_good_nonempty; [done|]. eapply Forall_impl; [exact Hws|]. by intros ? [? _].
Qed.

(** What the walk has done so far. *)
Definition walk_ok (skip : gset string) (acc : Stats * list Entry) : Prop :=
  let '(s, out) := acc in
  st_TotalFiles s = Z.of_nat (length out) ∧ st_TotalBytes s = foldr (λ e s, e_Size e + s) 0 out ∧
  Forall (λ e, ∃ ws, ws ≠ [] ∧ coveredParts skip ws (e_Path e)) out.

Lemma walkEntry_ok skip d ws dir acc :
  goodTree d → coveredParts skip ws dir → walk_ok skip acc → walk_ok skip (walkEntry skip dir d acc).
Proof.
  revert ws dir acc. induction d as [name regular fi|name kids IH] using dirent_induction; intros ws dir [s out] Hg Hd Hok;
    cbn [walkEntry d_name].
  - destruct (_ && _); [done|]. destruct (strings.HasPrefix name ".wh.") eqn:Em; [done|].
    case_bool_decide as Hs; [done|]. destruct fi as [size|]; [|done]. destruct regular; [|done].
    destruct Hok as (H1 & H2 & H3). split_and!; cbn [st_TotalFiles st_TotalBytes addTotal].
    + rewrite length_app. simpl. lia.
    + rewrite sum_snoc. simpl. lia.
    + apply Forall_app. split; [done|]. constructor; [|constructor]. exists (ws ++ [name]). split; [by destruct ws|].
      apply under_parts; [done|]. by split_and!.
  - cbn [negb andb]. destruct (strings.HasPrefix name ".wh.") eqn:Em; [done|]. case_bool_decide as Hs; [done|].
    destruct Hg as [Hn Hk].
    assert (Hd' : coveredParts skip (ws ++ [name]) (under dir name)) by (apply under_parts; [done|by split_and!]).
    revert Hok. generalize (s, out). clear -IH Hk Hd'. induction IH as [|k kids Hkid _ IHl]; intros acc Hok; cbn [foldl]; [done|].
    destruct Hk as [Hk1 Hk2]. apply IHl; [done|]. by eapply Hkid.
Qed.

Lemma clean_parts_good rooted acc ws : Forall goodName ws → path.clean_parts rooted acc ws = List.rev acc ++ ws.
Proof.
  intros Hg. revert acc. induction Hg as [|w ws (H1 & H2 & H3 & _) _ IH]; intros acc; simpl; [by rewrite app_nil_r|].
  rewrite bool_decide_eq_false_2 by naive_solver. rewrite bool_decide_eq_false_2 by done. rewrite IH. simpl.
  by rewrite <- app_assoc.
Qed.

Lemma Clean_good ws : ws ≠ [] → Forall goodName ws → path.Clean (strings.Join ws "/") = strings.Join ws "/".
Proof.
  intros Hne Hg. unfold path.Clean.
  assert (strings.HasPrefix (strings.Join ws "/") "/" = false) as ->.
  { destruct ws as [|w ws]; [done|]. apply Forall_cons in Hg as [(Hw & _ & _ & Hc) _].
    destruct w as [|a w]; [done|]. simpl in Hc. apply orb_false_iff in Hc as [Hc _].
    assert (∃ r, strings.Join (String a w :: ws) "/" = String a r) as [r ->].
    { destruct ws; [by exists w|]. rewrite Join_cons by done. simpl. eauto. }
    destruct (strings.HasPrefix (String a r) "/") eqn:E; [|done]. apply HasPrefix_spec in E as [r' [= -> _]]. by vm_compute in Hc. }
  change "/" with (String path.sep "") at 2. rewrite Split_Join; [|done|].
  2: { eapply Forall_impl; [exact Hg|]. by intros ? (_ & _ & _ & ?). }
  rewrite clean_parts_good by done. cbn [List.rev app].
  rewrite bool_decide_eq_false_2; [done|]. by apply Join_good_nonempty.
Qed.

(** The walk and the invalidation cannot disagree about what
    is cacheable: no path the walk yields is one [excludedPath] calls excluded,
    and no component of one is a name the union reserves; and the totals it
    reports are those of what it yielded. *)
Theorem walk_covers kids excludes :
  Forall goodTree kids →
  let '(s, out) := walk kids excludes in
  st_TotalFiles s = Z.of_nat (length out) ∧ st_TotalBytes s = foldr (λ e s, e_Size e + s) 0 out ∧
  Forall (λ e, excludedPath (e_Path e) excludes = false ∧
               Forall (λ part, strings.HasPrefix part ".wh." = false) (strings.Split (e_Path e) path.sep)) out.
Proof.
  intros Hg. unfold walk.
  assert (∀ acc, walk_ok (excluded excludes) acc →
    walk_ok (excluded excludes) (foldl (λ acc k, walkEntry (excluded excludes) "" k acc) acc kids)) as Hw.
  { induction Hg as [|k kids Hk _ IH]; intros acc Hok; cbn [foldl]; [done|]. apply IH.
    eapply (walkEntry_ok _ _ []); [done| |done]. split; [done|constructor]. }
  specialize (Hw (zeroStats, []) (conj eq_refl (conj eq_refl (Forall_nil_2 _)))).
  destruct (foldl _ _ _) as [s out]. destruct Hw as (H1 & H2 & H3). split_and!; [done..|].
  eapply Forall_impl; [exact H3|]. intros e (ws & Hne & Hp & Hc). rewrite Hp.
  assert (Hgood : Forall goodName ws) by (eapply Forall_impl; [exact Hc|]; by intros ? [? _]).
  assert (Hs : strings.Split (strings.Join ws "/") path.sep = ws).
  { apply Split_Join; [done|]. eapply Forall_impl; [exact Hgood|]. by intros ? (_ & _ & _ & ?). }
  split.
  - unfold excludedPath. destruct excludes as [|x excludes]; [done|]. rewrite Clean_good, Hs by done.
    apply not_true_iff_false. intros (w & Hw%list_elem_of_In & E)%existsb_exists. bool_to_prop.
    eapply Forall_forall in Hc; [|exact Hw]. destruct Hc as (_ & ? & _). done.
  - rewrite Hs. eapply Forall_impl; [exact Hc|]. by intros ? (_ & _ & ?).
Qed.
