(* ===== verification/Prefetch.v ===== *)
(** * The prefetch sender (dircache/prefetch.go)

    One share's tree and what the sender behind it keeps: the demand batches in
    order, when a read last arrived, and the failures in a row.  The wake-up
    channel and the goroutines are left out; each operation is what runs under
    the prefetch's lock. *)

From S2P Require Import Prelude GoStrings GoTime DirTypes WbState Shares Tree TreeProofs TreeTheorems Walk.
Open Scope Z_scope.

(** [ParsePolicy]: [None] is the error. *)
Definition ParsePolicy (s : string) : option Policy :=
  if bool_decide (s = "" ∨ s = "off") then Some PolicyOff
  else if bool_decide (s = "eager") then Some PolicyEager
  else if bool_decide (s = "tree") then Some PolicyTree
  else None.

Definition quietFor : Duration := 2 * Second.
Definition walkBatch : Z := 1048576.
Definition fillBackoffMin : Duration := Second.
Definition fillBackoffMax : Duration := 5 * Minute.
Definition bandwidthFloor : Z := 262144.

(** [prefetch]. *)
Record prefetch := {
  pf_policy : Policy;
  pf_tree : Tree;
  pf_queue : list (list Entry);
  pf_lastRead : Time;
  pf_walked : bool;
  pf_failures : Z;
  pf_retryAt : Time
}.

(** [startTree], for a layout on the current link. *)
Definition newPrefetch (policy : Policy) (tree : Tree) : prefetch :=
  {| pf_policy := policy; pf_tree := tree; pf_queue := []; pf_lastRead := zeroTime; pf_walked := false;
     pf_failures := 0; pf_retryAt := zeroTime |}.

(** [Touch], for a share whose prefetch is [p]; [None] is a share without one. *)
Definition Touch (now : Time) (path : string) (n : Z) (p : option prefetch) : option prefetch :=
  match p with
  | None => None
  | Some p =>
      if negb (bool_decide (pf_policy p = PolicyTree)) then Some p
      else
        let '(tree, got) := Read (strings.TrimPrefix path "/") n (pf_tree p) in
        Some {| pf_policy := pf_policy p; pf_tree := tree;
                pf_queue := match got with [] => pf_queue p | _ => pf_queue p ++ [got] end;
                pf_lastRead := now; pf_walked := pf_walked p; pf_failures := pf_failures p; pf_retryAt := pf_retryAt p |}
  end.

Definition set_tree (t : Tree) (p : prefetch) : prefetch :=
  {| pf_policy := pf_policy p; pf_tree := t; pf_queue := pf_queue p; pf_lastRead := pf_lastRead p;
     pf_walked := pf_walked p; pf_failures := pf_failures p; pf_retryAt := pf_retryAt p |}.

(** The [flush] of [feedTree]: a batch the walk found, less what the cache
    already holds. *)
Definition feed (pending : list Entry) (held : list string) (p : prefetch) : prefetch :=
  match pending with
  | [] => p
  | _ => set_tree (foldl (λ t path, MarkSent path t) (Add pending (pf_tree p)) held) p
  end.

(** [raise]: the share's state and its prefetch, and whether a fill is to be
    started. [None] for the state is a share that is not attached. *)
Definition set_policy (policy : Policy) (o : ShareOptions) : ShareOptions :=
  {| o_Policy := policy; o_Ephemeral := o_Ephemeral o; o_Exec := o_Exec o |}.

Definition with_policy (policy : Policy) (s : shareState) : shareState :=
  {| ss_Local := ss_Local s; ss_Stats := ss_Stats s; ss_Sent := ss_Sent s; ss_Bytes := ss_Bytes s; ss_Done := ss_Done s;
     ss_Err := ss_Err s; ss_FillErr := ss_FillErr s; ss_FillRetry := ss_FillRetry s; ss_Cached := ss_Cached s;
     ss_opts := set_policy policy (ss_opts s) |}.

Definition reopened (policy : Policy) (s : shareState) : shareState :=
  {| ss_Local := ss_Local s; ss_Stats := ss_Stats s; ss_Sent := ss_Sent s; ss_Bytes := ss_Bytes s; ss_Done := false;
     ss_Err := None; ss_FillErr := ss_FillErr s; ss_FillRetry := ss_FillRetry s; ss_Cached := false;
     ss_opts := set_policy policy (ss_opts s) |}.

Definition raise (policy : Policy) (state : option shareState) (p : option prefetch)
  : option shareState * option prefetch * bool :=
  if rank policy =? 0 then (state, p, false)
  else match state with
  | None => (None, p, false)
  | Some s =>
      match p with
      | Some p0 =>
          if rank policy <=? rank (pf_policy p0) then (state, p, false)
          else (Some (with_policy policy s),
                Some {| pf_policy := policy; pf_tree := pf_tree p0; pf_queue := pf_queue p0; pf_lastRead := pf_lastRead p0;
                        pf_walked := pf_walked p0; pf_failures := pf_failures p0; pf_retryAt := pf_retryAt p0 |}, false)
      | None => (Some (reopened policy s), None, true)
      end
  end.

(** [batchFailed]. *)
Definition batchFailed (now : Time) (base : Duration) (batch : list Entry) (err : string) (p : prefetch) (s : shareState)
  : prefetch * shareState :=
  let base' := if base <=? 0 then fillBackoffMin else base in
  let retryAt := GoTime.Add now (backoff base' fillBackoffMax (pf_failures p)) in
  ({| pf_policy := pf_policy p; pf_tree := Unstore batch (pf_tree p); pf_queue := pf_queue p; pf_lastRead := pf_lastRead p;
      pf_walked := pf_walked p; pf_failures := pf_failures p + 1; pf_retryAt := retryAt |},
   {| ss_Local := ss_Local s; ss_Stats := ss_Stats s; ss_Sent := ss_Sent s; ss_Bytes := ss_Bytes s; ss_Done := ss_Done s;
      ss_Err := ss_Err s; ss_FillErr := Some err; ss_FillRetry := retryAt; ss_Cached := ss_Cached s; ss_opts := ss_opts s |}).

(** [batchSent]. *)
Definition batchSent (p : prefetch) (s : shareState) : prefetch * shareState :=
  let p' := {| pf_policy := pf_policy p; pf_tree := pf_tree p; pf_queue := pf_queue p; pf_lastRead := pf_lastRead p;
               pf_walked := pf_walked p; pf_failures := 0; pf_retryAt := zeroTime |} in
  if 0 <? pf_failures p then
    (p', {| ss_Local := ss_Local s; ss_Stats := ss_Stats s; ss_Sent := ss_Sent s; ss_Bytes := ss_Bytes s; ss_Done := ss_Done s;
            ss_Err := ss_Err s; ss_FillErr := None; ss_FillRetry := zeroTime; ss_Cached := ss_Cached s; ss_opts := ss_opts s |})
  else (p', s).

Section sender.
Context (budget : Budget).

(** [overBudget]. *)
Definition overBudget (bytes files : Z) : bool := (budget_bytes budget <=? bytes) || (budget_files budget <=? files).

(** [next]. *)
Definition next (now : Time) (p : prefetch) : prefetch * list Entry * bool :=
  if Before now (pf_retryAt p) then (p, [], false)
  else match pf_queue p with
  | batch :: queue =>
      ({| pf_policy := pf_policy p; pf_tree := pf_tree p; pf_queue := queue; pf_lastRead := pf_lastRead p;
          pf_walked := pf_walked p; pf_failures := pf_failures p; pf_retryAt := pf_retryAt p |}, batch, true)
  | [] =>
      let eager := bool_decide (pf_policy p = PolicyEager) in
      if negb eager && (Sub now (pf_lastRead p) <? quietFor) then (p, [], false)
      else
        let '(stored, files) := Stored (pf_tree p) in
        if overBudget stored files then (p, [], false)
        else
          let limit := if eager then batchBytes else walkBatch in
          let '(tree, out) := Unstored (Z.min limit (budget_bytes budget - stored)) (budget_files budget - files) (pf_tree p) in
          (set_tree tree p, out, false)
  end.

(** [finishIfWalked]. *)
Definition set_figures (files bytes : Z) (s : shareState) : shareState :=
  let st := ss_Stats s in
  {| ss_Local := ss_Local s;
     ss_Stats := {| st_Files := files; st_Bytes := bytes; st_TotalFiles := st_TotalFiles st; st_TotalBytes := st_TotalBytes st;
                    st_Excluded := st_Excluded st; st_Markers := st_Markers st; st_FirstMarker := st_FirstMarker st |};
     ss_Sent := ss_Sent s; ss_Bytes := ss_Bytes s; ss_Done := ss_Done s; ss_Err := ss_Err s; ss_FillErr := ss_FillErr s;
     ss_FillRetry := ss_FillRetry s; ss_Cached := ss_Cached s; ss_opts := ss_opts s |}.

Definition finishIfWalked (p : prefetch) (s : shareState) : shareState :=
  let '(stored, files) := Stored (pf_tree p) in
  let left := unstoredCount (pf_tree p) in
  if negb (pf_walked p) then s
  else if (0 <? left) && negb (overBudget stored files) then s
  else
    let s1 := if ss_Done s then s else set_figures files stored s in
    fst (finish s1 (left =? 0) None).

End sender.

(** [observeBandwidth]: the moving average, from what it was. *)
Definition observeBandwidth (have bytes : Z) (took : Duration) : Z :=
  if (took <=? 0) || (bytes <? bandwidthFloor) then have
  else
    let rate := float64.toZ (float64.div (float64.ofZ bytes) (Seconds took)) in
    if negb (have =? 0) then Z.quot (have * 3 + rate) 4 else rate.

(** ** Properties *)

(** The share's prefetch keeps a reachable tree. *)
Lemma unstored_stored t maxBytes maxFiles :
  tree_ok t →
  let '(t', out) := Unstored maxBytes maxFiles t in
  Stored t' = (fst (Stored t) + sumSizes out, snd (Stored t) + Z.of_nat (length out)).
Proof.
  intros Hok. pose proof (Unstored_spec maxBytes maxFiles t Hok) as Hs. destruct (Unstored _ _ _) as [t' out].
  destruct Hs as (Hok' & (o & So & Po) & _). unfold Stored. cbn [fst snd].
  rewrite (wf_counters _ (tk_wf _ Hok)), (wf_counters _ (tk_wf _ Hok')), (sends_sum _ _ _ So), Po. f_equal.
  rewrite <- Po. clear -So. unfold cellsc.
  induction So as [|e st st' l l' out Ha Hb Hs IH|e st l l' out Ha Hs IH]; [done|..]; rewrite !fmap_cons;
      cbn [sumc foldr addc n_fetchedFiles cellc length storedState fs_stored]; unfold sumc in *; rewrite ?Ha; lia.
Qed.

(** The walk stays within the budget: a batch it takes leaves the
    share holding at most the budget's files, and at most its bytes unless the
    batch is one file; once over budget it takes nothing; and nothing at all is
    taken before the retry time of a batch the store refused. *)
Theorem walk_within_budget budget now p :
  tree_reachable (pf_tree p) → pf_queue p = [] →
  let '(p', out, demand) := next budget now p in
  demand = false ∧ (now < pf_retryAt p → out = []) ∧
  (out ≠ [] →
     snd (Stored (pf_tree p')) ≤ budget_files budget ∧
     (fst (Stored (pf_tree p')) ≤ budget_bytes budget ∨ (length out = 1)%nat) ∧
     overBudget budget (fst (Stored (pf_tree p))) (snd (Stored (pf_tree p))) = false).
Proof.
  intros Hok%tree_reachable_ok Hq. unfold next, Before.
  destruct (now <? pf_retryAt p) eqn:Er; [done|]. bool_to_prop. rewrite Hq. destruct (_ && _); [split_and!; [done|lia|done]|].
  destruct (Stored (pf_tree p)) as [stored files] eqn:Es.
  destruct (overBudget budget stored files) eqn:Eo; [split_and!; [done|lia|done]|].
  set (limit := if bool_decide _ then _ else _).
  set (mb := Z.min limit _). set (mf := budget_files budget - files).
  pose proof (Unstored_spec mb mf (pf_tree p) Hok) as Hs.
  pose proof (unstored_stored (pf_tree p) mb mf Hok) as Hst. destruct (Unstored mb mf _) as [t' out]. cbn [pf_tree set_tree].
  destruct Hs as (_ & _ & L1 & L2 & _). split_and!; [done|lia|]. intros Hne. rewrite Hst, Es. cbn [fst snd].
  pose proof Eo as Eo'. unfold overBudget in Eo. bool_to_prop. assert (0 < length out)%nat by (destruct out; simpl; [done|lia]).
  split_and!; [lia| |exact Eo']. destruct L2 as [L2|L2]; [right; lia|left; lia].
Qed.
