(* ===== verification/Invalidate.v ===== *)
(** * Sending into a cache without overwriting the consumer
    (dircache/cache.go: [sendBatch], [consumerChanged], [withoutConsumerChanges],
    [consumersOwn], [fillsOwn], [reconcileDeletions], [Attach]; dircache/invalidate.go)

    The state is what the cache knows about its shares and the consumer's last
    answers; what the store and this machine answer is a record ([SendEnv]). *)

From S2P Require Import Prelude GoStrings GoTime DirTypes Decide Replace WbState Shares Root WritePass WriteBack Walk.
Open Scope Z_scope.

Definition consumerChangedTTL : Duration := 2 * Second.

(** What the world answers while something is sent. [se_stat] is [os.Stat] under
    the share's root, [se_gone] whether an [os.Lstat] says the path does not
    exist, [se_ctime] [ChangeTime] there, [None] where there is none or it cannot
    be read; [se_hasCtime] whether this machine has [ChangeTime] at all, and
    [se_open] whether the root can be opened. *)
Record SendEnv := {
  se_clock : Time;
  se_live : bool;
  se_Changes : ChangesAnswer;
  se_Apply : list Entry → res goerror Applied;
  se_Drop : list string → option goerror;
  se_stat : string → option FileInfo;
  se_gone : string → bool;
  se_hasCtime : bool;
  se_open : bool;
  se_ctime : string → option Time;
  se_skew : Duration;
  se_margin : Duration
}.

Record books := {
  bk_shares : shares;
  bk_changed : gmap string changedAnswer
}.

Definition bk_on (g : shares → shares) (b : books) : books := {| bk_shares := g (bk_shares b); bk_changed := bk_changed b |}.

(** What the times of one path say about sending it. *)
Inductive sendVerdict := SendSilently | SendAfter | HoldBack.

#[export] Instance sendVerdict_eq_dec : EqDecision sendVerdict.
Proof. solve_decision. Defined.

Section send.
Context (env : SendEnv) (share : string).

(** [consumerChanged]. *)
Definition consumerChanged (fresh : bool) (b : books) : books * res goerror (gmap string Change) :=
  let ask :=
    match se_Changes env with
    | ChangesOk changes =>
        ({| bk_shares := bk_shares b;
            bk_changed := <[share := {| ca_at := se_clock env; ca_changes := changesByPath changes |}]> (bk_changed b) |},
         Ok (changesByPath changes))
    | ErrShareGone => (b, Err (errText "dircache: the store has no cache for this share"))
    | ChangesErr e => (b, Err e)
    end in
  match bk_changed b !! share with
  | Some cached =>
      if negb fresh && (Sub (se_clock env) (ca_at cached) <? consumerChangedTTL) then (b, Ok (ca_changes cached)) else ask
  | None => ask
  end.

(** [localChangeTime]. *)
Definition localChangeTime (p : string) : option Time :=
  if negb (se_hasCtime env) then None else if negb (se_open env) then None else se_ctime env p.

(** [fillsOwn]. *)
Definition fillsOwn (p : string) (ch : Change) (sent : gmap string Baseline) : bool :=
  if negb (bool_decide (ch_Link ch = "")) then false
  else if ch_Deleted ch && (ch_Changed ch =? 0) then bool_decide (sent !! p = None)
  else if ch_Deleted ch then
    match localChangeTime p with
    | Some ours => negb (consumerLater (ch_Changed ch) ours (se_skew env) (se_margin env))
    | None => false
    end
  else match sent !! p with
  | Some base => carries base ch
  | None => match se_stat env p with Some info => sameContent ch info | None => false end
  end.

(** [consumersOwn]. *)
Definition ownChange (changed : gmap string Change) (sent : gmap string Baseline) (p : string) : option Change :=
  match changed !! p with
  | Some ch => if negb (ch_Opaque ch) && negb (ch_Dir ch) && negb (fillsOwn p ch sent) then Some ch else None
  | None => None
  end.

Definition consumersOwn (entries : list Entry) (fresh : bool) (b : books) : books * res goerror (gmap string Change) :=
  if bool_decide (entries = []) || ephemeral (bk_shares b) share then (b, Ok ∅)
  else
    let '(b', r) := consumerChanged fresh b in
    match r with
    | Err e => (b', Err e)
    | Ok changed =>
        if bool_decide (changed = ∅) then (b', Ok ∅)
        else
          let sent := sentOf (bk_shares b') share entries in
          (b', Ok (foldl (λ out e, match ownChange changed sent (slashed (e_Path e)) with
                                   | Some ch => <[slashed (e_Path e) := ch]> out
                                   | None => out
                                   end) ∅ entries))
    end.

(** [withoutConsumerChanges]. *)
Definition whyBothBeforeCarried := "changed in the container and here before write-back carried it".

Definition withoutConsumerChanges (entries : list Entry) (b : books) : books * res goerror (list Entry) :=
  let '(b', r) := consumersOwn entries false b in
  match r with
  | Err e => (b', Err e)
  | Ok theirs =>
      (foldl (λ b e, if bool_decide (is_Some (theirs !! slashed (e_Path e)))
                     then bk_on (sayOnce share (slashed (e_Path e)) whyBothBeforeCarried) b else b) b' entries,
       Ok (filter (λ e, theirs !! slashed (e_Path e) = None) entries))
  end.

(** invalidate.go: [withoutSkipped]. *)
Definition withoutSkipped (entries : list Entry) (skipped : list string) : list Entry :=
  filter (λ e, slashed (e_Path e) ∉ slashed <$> skipped) entries.

(** [sendBatch]: the counters of the share's state move with it.  [handBatch] also
    says what it handed to the store's [Apply]. *)
Definition handBatch (entries : list Entry) (s : shareState) (b : books)
  : books * shareState * option goerror * list (list Entry) :=
  if negb (se_live env) then (b, s, None, [])
  else
    let '(b1, r) := withoutConsumerChanges entries b in
    match r with
    | Err e => (b1, s, Some e, [])
    | Ok sendable =>
        if bool_decide (sendable = []) && negb (bool_decide (length sendable = length entries)) then (b1, s, None, [])
        else
          let bytes := foldr (λ e n, e_Size e + n) 0 sendable in
          let s1 := add_counts 0 bytes s in
          let b2 := bk_on (record share sendable) b1 in
          match se_Apply env sendable with
          | Err e => (b2, s1, Some e, [sendable])
          | Ok applied =>
              let landed := withoutSkipped sendable (ap_Skipped applied ++ ap_Kept applied) in
              (bk_on (noteApplied share applied) b2, add_counts (Z.of_nat (length landed)) 0 s1, None, [sendable])
          end
    end.

Definition sendBatch (entries : list Entry) (s : shareState) (b : books) : books * shareState * option goerror :=
  (handBatch entries s b).1.

(** [reconcileDeletions]. *)
Definition reconcileDeletions (here : string → option bool) (b : books) : books :=
  let gone := deletedSince here (elements (recordedOf (bk_shares b) share)) in
  if bool_decide (gone = []) || negb (se_live env) then b
  else match se_Drop env gone with
       | Some _ => b
       | None => bk_on (unrecord share gone) b
       end.

(** ** Invalidation (invalidate.go) *)

(** [pend]. *)
Record pend := {
  pd_gone : bool;
  pd_dir : bool
}.

(** [holdsConsumerWork]: whether some change under [dir] is the container's own
    and not yet here. *)
Definition holdsConsumerWork (dir : string) (changed : gmap string Change) (sent : gmap string Baseline) : bool :=
  existsb (λ '(p, ch), strings.HasPrefix p (strings.TrimSuffix dir "/" +:+ "/") && negb (ch_Deleted ch) &&
                       negb (ch_Opaque ch) && negb (ch_Dir ch) && negb (fillsOwn p ch sent)) (map_to_list changed).

Definition whyDirHasWork := "removed here while the container has work in it".

(** [droppableDirs]. *)
Definition droppableDirs (dirs : list string) (b : books) : books * list string :=
  let gone := filter (λ d, se_gone env d = true) dirs in
  if bool_decide (gone = []) || ephemeral (bk_shares b) share then (b, gone)
  else
    let '(b', r) := consumerChanged true b in
    match r with
    | Err _ => (b', [])
    | Ok changed =>
        let sent := manifestOf (bk_shares b') share in
        (foldl (λ b d, if holdsConsumerWork d changed sent then bk_on (sayOnce share d whyDirHasWork) b else b) b' gone,
         filter (λ d, holdsConsumerWork d changed sent = false) gone)
    end.

Definition whyContainerAfterYou := "the container wrote it after you; write-back carries its version".
Definition whyYouAfterContainer := "you wrote it after the container".

(** [withoutLaterConsumerChanges]: what one entry's times say. *)
Definition laterVerdict (theirs : gmap string Change) (e : Entry) : sendVerdict :=
  match theirs !! slashed (e_Path e) with
  | None => SendSilently
  | Some ch =>
      if ch_Changed ch =? 0 then SendSilently
      else match se_ctime env (slashed (e_Path e)) with
           | None => SendSilently
           | Some ours => if consumerLater (ch_Changed ch) ours (se_skew env) (se_margin env) then HoldBack else SendAfter
           end
  end.

Definition withoutLaterConsumerChanges (entries : list Entry) (b : books) : books * list Entry :=
  if negb (se_hasCtime env) then (b, entries)
  else
    let '(b', r) := consumersOwn entries true b in
    match r with
    | Err _ => (b', entries)
    | Ok theirs =>
        if bool_decide (theirs = ∅) || negb (se_open env) then (b', entries)
        else
          (foldl (λ b e, match laterVerdict theirs e with
                         | SendSilently => b
                         | SendAfter => bk_on (sayOnce share (slashed (e_Path e)) whyYouAfterContainer) b
                         | HoldBack => bk_on (sayOnce share (slashed (e_Path e)) whyContainerAfterYou) b
                         end) b' entries,
           filter (λ e, laterVerdict theirs e ≠ HoldBack) entries)
    end.

(** [invalidate], for the paths in the order the map gives them. *)
Definition applyBatch (b : books) (batch : list Entry) : books :=
  let b1 := bk_on (record share batch) b in
  match se_Apply env batch with
  | Err _ => b1
  | Ok applied => bk_on (noteApplied share applied) b1
  end.

Definition changedEntry (p : string) : Entry :=
  let rel := strings.TrimPrefix p "/" in
  {| e_Path := rel; e_Size := match se_stat env (slashed rel) with Some i => fi_Size i | None => 0 end |}.

Definition invalidate (paths : list (string * pend)) (b : books) : books :=
  if negb (se_live env) then b
  else
    let dirs := fst <$> filter (λ x, pd_gone (snd x) = true ∧ pd_dir (snd x) = true) paths in
    let dropped := fst <$> filter (λ x, pd_gone (snd x) = true ∧ pd_dir (snd x) = false) paths in
    let changed := (λ x, changedEntry (fst x)) <$>
                   filter (λ x, pd_gone (snd x) = false ∧ overlayMarker (fst x) = false) paths in
    let '(b1, changed') := withoutLaterConsumerChanges changed b in
    let '(b2, gone) := droppableDirs dirs b1 in
    let dropped' := dropped ++ gone in
    let b3 := match dropped' with
              | [] => b2
              | _ => match se_Drop env dropped' with
                     | Some _ => b2
                     | None => bk_on (λ f, unrecord share (recordedUnder f share dropped') f) b2
                     end
              end in
    foldl applyBatch b3 (batches changed').

End send.

(** [invalidator.pending], [Observe], [take] and [stop]. The timer is set
    exactly when something is pending. *)
Definition observe (attached : string → bool) (excludes : list string) (ev : Event)
  (pending : gmap string (gmap string pend)) : gmap string (gmap string pend) :=
  if negb (attached (ev_Share ev)) then pending
  else if ev_Dir ev && negb (Gone (ev_Op ev)) then pending
  else if excludedPath (ev_Path ev) excludes then pending
  else <[ev_Share ev := <[ev_Path ev := {| pd_gone := Gone (ev_Op ev); pd_dir := ev_Dir ev |}]>
                          (default ∅ (pending !! ev_Share ev))]> pending.

Definition take_ (pending : gmap string (gmap string pend)) : gmap string (gmap string pend) * gmap string (gmap string pend) :=
  (∅, pending).

(** ** Properties *)

Section send_proofs.
Context (env : SendEnv) (share : string).












(** Last writer wins into the cache too: an edit made here is
    held back exactly when the consumer changed the same file and did so later by
    the two change times; every other edit goes, in order. *)
Theorem edit_held_back_iff_later entries b b1 theirs :
  se_hasCtime env = true → se_open env = true → consumersOwn env share entries true b = (b1, Ok theirs) →
  (snd (withoutLaterConsumerChanges env share entries b) `sublist_of` entries) ∧
  ∀ e, e ∈ entries →
    (e ∉ snd (withoutLaterConsumerChanges env share entries b) ↔
     ∃ ch ours, theirs !! slashed (e_Path e) = Some ch ∧ ch_Changed ch ≠ 0 ∧
       se_ctime env (slashed (e_Path e)) = Some ours ∧
       consumerLater (ch_Changed ch) ours (se_skew env) (se_margin env) = true).
Proof.
  intros Hc Ho Hown. unfold withoutLaterConsumerChanges. rewrite Hc, Hown, Ho. cbn [negb orb].
  rewrite orb_false_r. case_bool_decide as Ht; cbn [snd].
  - split; [done|]. intros e He. split; [done|]. intros (ch & ours & Hl & _). subst theirs. by rewrite lookup_empty in Hl.
  - split; [apply sublist_filter|]. intros e He. rewrite list_elem_of_filter.
    assert (laterVerdict env theirs e = HoldBack ↔ ∃ ch ours, theirs !! slashed (e_Path e) = Some ch ∧ ch_Changed ch ≠ 0 ∧
       se_ctime env (slashed (e_Path e)) = Some ours ∧
       consumerLater (ch_Changed ch) ours (se_skew env) (se_margin env) = true) as <-.
    { unfold laterVerdict. split.
      - intros Hv. repeat case_match; try done. bool_to_prop. eauto 10.
      - intros (ch & ours & -> & Hne & -> & ->). apply Z.eqb_neq in Hne. by rewrite Hne. }
    destruct (decide (laterVerdict env theirs e = HoldBack)); naive_solver.
Qed.

End send_proofs.
