(* ===== verification/Sender.v ===== *)
(** * The fill of the shares (dircache/cache.go and prefetch.go: Attach, raise,
    startTree, feedTree, send, and the fast path of Touch)

    The prefetches of all shares with the counter [trees] that [Touch] reads
    before anything else.  Each definition is what runs under the shares' lock or
    the prefetch's; the sender's inner loop is [drain].  What the store, the
    clock and the link answer in the [k]-th turn of that loop is [turn k]. *)
From S2P Require Import Prelude GoStrings GoTime Records DirTypes Decide WbState Shares Root WritePass Tree TreeProofs TreeTheorems Walk Prefetch Invalidate.

Open Scope Z_scope.

Record fills := {
  fl_books : books;
  fl_prefetch : gmap string prefetch;
  fl_trees : Z
}.

Definition with_books (g : books → books) (f : fills) : fills :=
  {| fl_books := g (fl_books f); fl_prefetch := fl_prefetch f; fl_trees := fl_trees f |}.
Definition on_prefetch (g : gmap string prefetch → gmap string prefetch) (f : fills) : fills :=
  {| fl_books := fl_books f; fl_prefetch := g (fl_prefetch f); fl_trees := fl_trees f |}.
Definition add_trees (n : Z) (f : fills) : fills :=
  {| fl_books := fl_books f; fl_prefetch := fl_prefetch f; fl_trees := fl_trees f + n |}.

Definition stateOf (share : string) (f : fills) : option shareState := sh_state (bk_shares (fl_books f)) !! share.
Definition put_state (share : string) (s : shareState) (f : fills) : fills :=
  with_books (bk_on (set_state <[share := s]>)) f.

(** One for a prefetch that [trees] counts. *)
Definition treeOne (p : Policy) : Z := if bool_decide (p = PolicyTree) then 1 else 0.

(** [Layout{Link: l}]. *)
Definition linkLayout (l : Link) : Layout :=
  {| ly_Link := l; ly_LargeFile := 0; ly_LeafBytes := 0; ly_WindowLeaves := 0; ly_Branching := 0;
     ly_MaxFetchBDP := float64.ofZ 0; ly_FMin := float64.ofZ 0; ly_NodePromote := float64.ofZ 0 |}.

(** [startTree], before it starts the two goroutines. *)
Definition whyBranching (got : Z) : string := "dircache: tree branching must be at least 2: got " +:+ Itoa got.

Definition startTree (link : Link) (share : string) (policy : Policy) (f : fills) : fills :=
  match NewTree [] (linkLayout link) with
  | Err got =>
      match stateOf share f with
      | Some s => put_state share (fst (finish s false (Some (whyBranching got)))) f
      | None => f
      end
  | Ok tree =>
      let old := match fl_prefetch f !! share with Some p => treeOne (pf_policy p) | None => 0 end in
      add_trees (treeOne policy - old) (on_prefetch <[share := newPrefetch policy tree]> f)
  end.

(** The half of [raise] that runs once the share's prefetch has been found: the
    counter first, then the policy.  [raiseOrphan] is the same code when the
    share was forgotten in between: the prefetch and the state it writes to are
    in no map any more, and only the counter is shared. *)
Definition leavesTree (have policy : Policy) : Z :=
  if bool_decide (have = PolicyTree) && negb (bool_decide (policy = PolicyTree)) then 1 else 0.

Definition raiseFound (share : string) (policy : Policy) (p0 : prefetch) (f : fills) : fills :=
  let '(state, p, _) := raise policy (stateOf share f) (Some p0) in
  if rank policy <=? rank (pf_policy p0) then f
  else
    let f1 := on_prefetch (partial_alter (λ _, p) share) (add_trees (- leavesTree (pf_policy p0) policy) f) in
    match state with Some s => put_state share s f1 | None => f1 end.

Definition raiseOrphan (policy : Policy) (p0 : prefetch) (f : fills) : fills :=
  if rank policy <=? rank (pf_policy p0) then f else add_trees (- leavesTree (pf_policy p0) policy) f.

(** [raise]. *)
Definition raiseShare (link : Link) (share : string) (policy : Policy) (f : fills) : fills :=
  if rank policy =? 0 then f
  else match stateOf share f with
  | None => f
  | Some s =>
      match fl_prefetch f !! share with
      | Some p0 => raiseFound share policy p0 f
      | None => startTree link share policy (put_state share (reopened policy s) f)
      end
  end.

(** [Attach]: [filled] is what the record answers for the share. The
    reconciliation it starts is [reconcileDeletions]. *)
Definition Attach (link : Link) (filled : gmap string Baseline) (share root : string) (opts : ShareOptions) (f : fills) : fills :=
  match stateOf share f with
  | Some _ => raiseShare link share (o_Policy opts) f
  | None =>
      let f1 := with_books (bk_on (set_ share root (newShareState opts) filled)) f in
      if bool_decide (o_Policy opts = PolicyOff) || bool_decide (o_Policy opts = PolicyUnset)
      then put_state share (fst (finish (set_Local root (newShareState opts)) true None)) f1
      else startTree link share (o_Policy opts) f1
  end.

(** [shares.forget], with the prefetch. *)
Definition forgetShare (share : string) (f : fills) : fills :=
  let f1 := with_books (bk_on (Shares.forget share)) f in
  match fl_prefetch f !! share with
  | Some p => add_trees (- treeOne (pf_policy p)) (on_prefetch (delete share) f1)
  | None => f1
  end.

(** [Touch], with the load that comes before the lookup. *)
Definition touchShare (now : Time) (share path : string) (n : Z) (f : fills) : fills :=
  if fl_trees f =? 0 then f
  else on_prefetch (λ m, partial_alter (Touch now path n) share m) f.

(** The lookup alone, without the fast path. *)
Definition touchSlow (now : Time) (share path : string) (n : Z) (f : fills) : fills :=
  on_prefetch (λ m, partial_alter (Touch now path n) share m) f.

(** [feedTree]: its [flush], and its end with the walk's figures. *)
Definition feedFlush (share : string) (pending : list Entry) (held : list string) (f : fills) : fills :=
  on_prefetch (alter (feed pending held) share) f.

Definition set_walked (p : prefetch) : prefetch :=
  {| pf_policy := pf_policy p; pf_tree := pf_tree p; pf_queue := pf_queue p; pf_lastRead := pf_lastRead p;
     pf_walked := true; pf_failures := pf_failures p; pf_retryAt := pf_retryAt p |}.

Definition set_Stats (st : Stats) (s : shareState) : shareState :=
  {| ss_Local := ss_Local s; ss_Stats := st; ss_Sent := ss_Sent s; ss_Bytes := ss_Bytes s; ss_Done := ss_Done s;
     ss_Err := ss_Err s; ss_FillErr := ss_FillErr s; ss_FillRetry := ss_FillRetry s; ss_Cached := ss_Cached s; ss_opts := ss_opts s |}.

Definition feedDone (share : string) (stats : Stats) (f : fills) : fills :=
  let f1 := on_prefetch (alter set_walked share) f in
  match stateOf share f with Some s => put_state share (set_Stats stats s) f1 | None => f1 end.

(** [feedTree], run at once: the walk's entries in runs of [maxBatchFiles], each
    flushed with what the cache already holds of it, then the end. [stat] is what
    this machine's disk answers. *)
Definition feedTree (stat : localAt) (kids : list dirent) (excludes : list string) (share : string) (f : fills) : fills :=
  let '(stats, out) := walk kids excludes in
  feedDone share stats
    (foldl (λ f pending, feedFlush share pending (alreadyHeld stat (bk_shares (fl_books f)) share pending) f)
           f (Chunk maxBatchFiles out)).

(** One turn of the sender's loop: what it asks, and when. *)
Record turn := {
  tn_env : SendEnv;
  tn_clock : Time;
  tn_failedAt : Time;
  tn_link : Link
}.

Section send.
Context (budget : Budget) (fillBackoff : Duration) (turns : nat → turn).

(** The body of the inner loop of [send], for a prefetch [p] that is still the
    share's; whether the loop goes on. *)
Definition sendTurn (share : string) (k : nat) (p : prefetch) (f : fills) : fills * prefetch * bool :=
  let '(p1, batch, _) := next budget (tn_clock (turns k)) p in
  match batch with
  | [] => (f, p1, false)
  | _ =>
      let s := default (newShareState {| o_Policy := PolicyUnset; o_Ephemeral := false; o_Exec := 0 |}) (stateOf share f) in
      let '(b, s', err) := sendBatch (tn_env (turns k)) share batch s (fl_books f) in
      let '(p2, s2) := match err with
                       | Some e => batchFailed (tn_failedAt (turns k)) fillBackoff batch (ge_text e) p1 s'
                       | None => let '(p2, s2) := batchSent p1 s' in (set_tree (SetLink (tn_link (turns k)) (pf_tree p2)) p2, s2)
                       end in
      let f1 := with_books (λ _, b) f in
      (match stateOf share f1 with Some _ => put_state share s2 f1 | None => f1 end, p2,
       match err with Some _ => false | None => true end)
  end.

(** The loop: [None] when the fuel ran out. *)
Fixpoint drain (fuel : nat) (share : string) (k : nat) (p : prefetch) (f : fills) : option (fills * prefetch) :=
  match fuel with
  | O => None
  | S fuel' =>
      let '(f', p', more) := sendTurn share k p f in
      if more then drain fuel' share (S k) p' f' else Some (f', p')
  end.

(** One wake-up of [send]: the loop, then [finishIfWalked]; nothing for a share
    that has been forgotten. *)
Definition drainFuel (p : prefetch) : nat := S (length (pf_queue p) + Z.to_nat (unstoredCount (pf_tree p))).

Definition wakeUp (share : string) (f : fills) : option fills :=
  match fl_prefetch f !! share with
  | None => Some f
  | Some p =>
      match drain (drainFuel p) share 0 p f with
      | None => None
      | Some (f', p') =>
          let f1 := on_prefetch <[share := p']> f' in
          Some (match stateOf share f1 with
                | Some s => put_state share (finishIfWalked budget p' s) f1
                | None => f1
                end)
      end
  end.

End send.

(** * Properties of the fill (dircache/prefetch.go) *)

Open Scope Z_scope.

(** ** The counter of trees *)

(** How many prefetches have the tree policy. *)
Definition treeCount (m : gmap string prefetch) : Z :=
  Z.of_nat (size (filter (λ kv, pf_policy kv.2 = PolicyTree) m)).

Definition countedAt (m : gmap string prefetch) (share : string) : Z :=
  match m !! share with Some p => treeOne (pf_policy p) | None => 0 end.

Lemma treeCount_delete m share : treeCount (delete share m) = treeCount m - countedAt m share.
Proof.
  unfold treeCount, countedAt, treeOne. rewrite map_filter_delete. destruct (m !! share) as [p|] eqn:E.
  - case_bool_decide as Hp.
    + assert (filter (λ kv, pf_policy kv.2 = PolicyTree) m !! share = Some p) as Hf by by apply map_lookup_filter_Some.
      rewrite map_size_delete, Hf. cbv beta iota. pose proof (map_size_ne_0_lookup_2 _ share (ex_intro _ _ Hf)). lia.
    + rewrite map_size_delete. replace (_ !! share) with (@None prefetch); [unfold id; lia|].
      symmetry. apply map_lookup_filter_None. right. intros p' Hp'. simpl. congruence.
  - rewrite map_size_delete. replace (_ !! share) with (@None prefetch); [unfold id; lia|].
    symmetry. apply map_lookup_filter_None. by left.
Qed.

Lemma treeCount_insert m share p : treeCount (<[share := p]> m) = treeCount m - countedAt m share + treeOne (pf_policy p).
Proof.
  rewrite <- treeCount_delete, <- insert_delete_eq. unfold treeCount, treeOne. case_bool_decide.
  - rewrite map_filter_insert_True by done. rewrite map_size_insert_None; [lia|].
    apply map_lookup_filter_None. left. apply lookup_delete_eq.
  - rewrite map_filter_insert_False by done. rewrite delete_delete_eq. lia.
Qed.

Lemma treeCount_same m share p p' :
  m !! share = Some p → pf_policy p' = pf_policy p → treeCount (<[share := p']> m) = treeCount m.
Proof. intros Hm Hp. rewrite treeCount_insert. unfold countedAt. rewrite Hm, Hp. lia. Qed.

Lemma treeCount_zero m share p : treeCount m = 0 → m !! share = Some p → pf_policy p ≠ PolicyTree.
Proof.
  intros H0 Hm Hp. unfold treeCount in H0.
  assert (size (filter (λ kv : string * prefetch, pf_policy kv.2 = PolicyTree) m) ≠ 0%nat); [|lia].
  apply (map_size_ne_0_lookup_2 _ share). exists p. by apply map_lookup_filter_Some.
Qed.

(** ** Sending leaves the shares' states alone, apart from the counters it is given *)

(** What sending does not touch of a share's state. *)
Definition frozen (s : shareState) : ShareOptions * bool := (ss_opts s, ss_Done s).
Definition frozenOf (share : string) (f : fills) : option (ShareOptions * bool) := frozen <$> stateOf share f.

Lemma editRecord_state share paths add f : sh_state (fst (editRecord share paths add f)) = sh_state f.
Proof. unfold editRecord. destruct (sh_recorded f !! share); [|done]. by destruct (foldl _ _ _) as [[? ?] ?]. Qed.

Lemma noteApplied_state share applied f : sh_state (noteApplied share applied f) = sh_state f.
Proof. unfold noteApplied, noteSent. repeat case_match; simpl; by rewrite ?editRecord_state. Qed.

Lemma consumersOwn_shares env share entries fresh b : bk_shares (fst (consumersOwn env share entries fresh b)) = bk_shares b.
Proof.
  unfold consumersOwn. destruct (_ || _); [done|]. unfold consumerChanged.
  destruct (bk_changed b !! share) as [c|]; [destruct (negb fresh && _)|]; try (by destruct (bool_decide _));
    destruct (se_Changes env); simpl; by try destruct (bool_decide _).
Qed.

Lemma withoutConsumerChanges_state env share entries b :
  sh_state (bk_shares (fst (withoutConsumerChanges env share entries b))) = sh_state (bk_shares b).
Proof.
  unfold withoutConsumerChanges. pose proof (consumersOwn_shares env share entries false b) as H.
  destruct (consumersOwn env share entries false b) as [b' [theirs|e]]; simpl in *; [|by rewrite H].
  rewrite <- H. clear H. revert b'. generalize entries at 1. intros l. induction l as [|e l IH]; intros b'; cbn [foldl]; [done|].
  rewrite IH. by destruct (bool_decide _).
Qed.

Lemma sendBatch_state env share entries s b b' s' err :
  sendBatch env share entries s b = (b', s', err) →
  sh_state (bk_shares b') = sh_state (bk_shares b) ∧ frozen s' = frozen s.
Proof.
  unfold sendBatch, handBatch. destruct (negb _); [by intros [= <- <- <-]|].
  pose proof (withoutConsumerChanges_state env share entries b) as H.
  destruct (withoutConsumerChanges env share entries b) as [b1 [sendable|e]]; simpl in H; [|by intros [= <- <- <-]].
  destruct (_ && _); [by intros [= <- <- <-]|].
  destruct (se_Apply env sendable); intros [= <- <- <-]; simpl; unfold record; by rewrite ?noteApplied_state, ?editRecord_state.
Qed.

(** ** The life of the fills *)

Inductive fill_step (f : fills) : fills → Prop :=
| fill_attach link filled share root opts : fill_step f (Attach link filled share root opts f)
| fill_forget share : fill_step f (forgetShare share f)
| fill_touch now share path n : fill_step f (touchShare now share path n f)
| fill_flush share pending held : fill_step f (feedFlush share pending held f)
| fill_walked share stats : fill_step f (feedDone share stats f)
| fill_wake budget base turns share f' : wakeUp budget base turns share f = Some f' → fill_step f f'.

Definition noFills : fills :=
  {| fl_books := {| bk_shares := noShares; bk_changed := ∅ |}; fl_prefetch := ∅; fl_trees := 0 |}.

Definition fills_reachable : fills → Prop := rtc fill_step noFills.

(** The policy a share runs at: the one its status shows. *)
Definition policyOf (share : string) (f : fills) : option Policy := (o_Policy ∘ ss_opts) <$> stateOf share f.

(** The counter is exact, a prefetch has the policy its share shows, and a share
    has one exactly when that policy sends anything. *)
Record fills_ok (f : fills) : Prop := {
  fk_trees : fl_trees f = treeCount (fl_prefetch f);
  fk_policy : ∀ share p, fl_prefetch f !! share = Some p →
    policyOf share f = Some (pf_policy p) ∧ 0 < rank (pf_policy p);
  fk_off : ∀ share pol, fl_prefetch f !! share = None → policyOf share f = Some pol → rank pol = 0
}.

Lemma noFills_ok : fills_ok noFills.
Proof. split; [done|..]; by intros share p ?. Qed.

Lemma policyOf_put share s f share' :
  policyOf share' (put_state share s f) = if decide (share' = share) then Some (o_Policy (ss_opts s)) else policyOf share' f.
Proof.
  unfold policyOf, stateOf, put_state. simpl. rewrite lookup_insert. repeat case_decide; simplify_eq; done.
Qed.

(** Changing the states without changing a policy, and the prefetches without
    changing theirs. *)
Lemma fills_ok_same f f' :
  fills_ok f → fl_trees f' = fl_trees f →
  (∀ share, policyOf share f' = policyOf share f) →
  (∀ share, pf_policy <$> fl_prefetch f' !! share = pf_policy <$> fl_prefetch f !! share) →
  treeCount (fl_prefetch f') = treeCount (fl_prefetch f) → fills_ok f'.
Proof.
  intros [H1 H2 H3] Ht Hp Hq Hc. split; [congruence|..].
  - intros share p Hs. specialize (Hq share). rewrite Hs in Hq. rewrite Hp.
    destruct (fl_prefetch f !! share) as [p0|] eqn:E; [|done]. injection Hq as ->. by apply H2.
  - intros share pol Hs. rewrite Hp. specialize (Hq share). rewrite Hs in Hq.
    destruct (fl_prefetch f !! share) eqn:E; [done|]. by apply H3.
Qed.

(** One prefetch replaced by one of the same policy, or left. *)
Lemma alter_policy (g : prefetch → prefetch) share (m : gmap string prefetch) :
  (∀ p, pf_policy (g p) = pf_policy p) →
  treeCount (alter g share m) = treeCount m ∧
  ∀ share', pf_policy <$> alter g share m !! share' = pf_policy <$> m !! share'.
Proof.
  intros Hg. split.
  - destruct (m !! share) as [p|] eqn:E.
    + replace (alter g share m) with (<[share := g p]> m); [by apply treeCount_same with (p := p)|].
      apply map_eq. intros i. rewrite lookup_alter, lookup_insert. case_decide; [|done]. subst. by rewrite E.
    + replace (alter g share m) with m; [done|]. apply map_eq. intros i. rewrite lookup_alter.
      case_decide; [|done]. subst. by rewrite E.
  - intros share'. rewrite lookup_alter. case_decide; [|done]. subst. destruct (m !! share'); simpl; [|done]. by rewrite Hg.
Qed.

(** The layout [startTree] asks for is always usable. *)
Lemma newTree_link l : ∃ t, NewTree [] (linkLayout l) = Ok t.
Proof. by eexists. Qed.

Lemma startTree_spec link share policy f :
  ∃ tree, startTree link share policy f =
    add_trees (treeOne policy - countedAt (fl_prefetch f) share) (on_prefetch <[share := newPrefetch policy tree]> f).
Proof. unfold startTree. destruct (newTree_link link) as [t ->]. by exists t. Qed.

Lemma startTree_ok link share policy f :
  fl_trees f = treeCount (fl_prefetch f) → policyOf share f = Some policy → 0 < rank policy →
  (∀ share' p, share' ≠ share → fl_prefetch f !! share' = Some p → policyOf share' f = Some (pf_policy p) ∧ 0 < rank (pf_policy p)) →
  (∀ share' pol, share' ≠ share → fl_prefetch f !! share' = None → policyOf share' f = Some pol → rank pol = 0) →
  fills_ok (startTree link share policy f).
Proof.
  intros Ht Hp Hr Ho1 Ho2. destruct (startTree_spec link share policy f) as [tree ->].
  split; cbn [fl_trees fl_prefetch add_trees on_prefetch].
  - rewrite treeCount_insert. unfold countedAt. simpl. lia.
  - intros share' p. rewrite lookup_insert. case_decide as Hs; [|by apply Ho1]. subst share'. by intros [= <-].
  - intros share' pol. rewrite lookup_insert. case_decide; [done|]. by apply Ho2.
Qed.

Lemma reopened_policy policy s : o_Policy (ss_opts (reopened policy s)) = policy.
Proof. done. Qed.

Lemma raiseFound_spec share policy p0 s f :
  stateOf share f = Some s → rank policy ≠ 0 → rank (pf_policy p0) < rank policy →
  ∃ p', pf_policy p' = policy ∧
    raiseFound share policy p0 f =
    put_state share (with_policy policy s)
      (on_prefetch (partial_alter (λ _, Some p') share) (add_trees (- leavesTree (pf_policy p0) policy) f)).
Proof.
  intros Hs Hr Hlt. unfold raiseFound, raise. rewrite Hs. rewrite (proj2 (Z.eqb_neq _ _)) by done.
  rewrite (proj2 (Z.leb_gt _ _)) by lia. eexists. split; [|reflexivity]. done.
Qed.

Lemma raiseFound_ok share policy p0 f :
  fills_ok f → fl_prefetch f !! share = Some p0 → rank policy ≠ 0 → fills_ok (raiseFound share policy p0 f).
Proof.
  intros [H1 H2 H3] Hp Hr. destruct (decide (rank policy ≤ rank (pf_policy p0))) as [Hle|Hlt].
  { unfold raiseFound. destruct (raise _ _ _) as [[? ?] ?]. by rewrite (proj2 (Z.leb_le _ _)). }
  destruct (H2 _ _ Hp) as [Hpol Hpos]. unfold policyOf in Hpol. destruct (stateOf share f) as [s|] eqn:Hs; [|done].
  destruct (raiseFound_spec share policy p0 s f Hs Hr) as (p' & Hp' & ->); [lia|].
  split; cbn [fl_trees fl_prefetch put_state with_books on_prefetch add_trees].
  - change (partial_alter (λ _, Some p') share (fl_prefetch f)) with (<[share := p']> (fl_prefetch f)).
    rewrite treeCount_insert. unfold countedAt. rewrite Hp, Hp'. unfold leavesTree, treeOne.
    destruct (pf_policy p0), policy; simpl in *; try lia.
  - intros share' p. rewrite policyOf_put. rewrite lookup_partial_alter. repeat case_decide; subst; try done.
    + intros [= <-]. split; [done|lia].
    + apply H2.
  - intros share' pol. rewrite policyOf_put, lookup_partial_alter. repeat case_decide; subst; try done. apply H3.
Qed.

Lemma Attach_ok link filled share root opts f : fills_ok f → fills_ok (Attach link filled share root opts f).
Proof.
  intros Hok. pose proof Hok as [H1 H2 H3]. unfold Attach. destruct (stateOf share f) as [s|] eqn:Hs.
  - unfold raiseShare. destruct (Z.eqb_spec (rank (o_Policy opts)) 0) as [|Hr]; [done|]. rewrite Hs.
    destruct (fl_prefetch f !! share) as [p0|] eqn:Hp; [by apply raiseFound_ok|].
    apply startTree_ok; [done|by rewrite policyOf_put, decide_True|destruct (o_Policy opts); simpl in *; lia|..];
      intros share' x Hne; rewrite policyOf_put, decide_False by done; [apply H2|apply H3].
  - assert (fl_prefetch f !! share = None) as Hn.
    { destruct (fl_prefetch f !! share) as [p|] eqn:Hp; [|done]. destruct (H2 _ _ Hp) as [Hpol _].
      unfold policyOf in Hpol. by rewrite Hs in Hpol. }
    set (f1 := with_books _ f).
    assert (∀ share', share' ≠ share → policyOf share' f1 = policyOf share' f) as Ho.
    { intros share' Hne. unfold policyOf, stateOf, f1. simpl. by rewrite lookup_insert_ne. }
    assert (policyOf share f1 = Some (o_Policy opts)) as Hself.
    { unfold policyOf, stateOf, f1. simpl. by rewrite lookup_insert_eq. }
    destruct (_ || _) eqn:Eo.
    + assert (rank (o_Policy opts) = 0) as Hr0.
      { by apply orb_true_iff in Eo as [Eo|Eo]; apply bool_decide_eq_true_1 in Eo as ->. }
      clear Eo. split; cbn [fl_trees fl_prefetch put_state with_books f1]; [done|..]; intros share' x Hx;
        rewrite policyOf_put; case_decide as Hne; subst; try congruence.
      * rewrite Ho by done. by apply H2.
      * by intros [= <-].
      * rewrite Ho by done. by apply H3.
    + bool_to_prop. apply startTree_ok; [done|done|destruct (o_Policy opts); simpl in *; try lia; done|..];
        intros share' x Hne; rewrite Ho by done; [apply H2|apply H3].
Qed.

Lemma forgetShare_ok share f : fills_ok f → fills_ok (forgetShare share f).
Proof.
  intros [H1 H2 H3]. unfold forgetShare.
  assert (∀ share', policyOf share' (with_books (bk_on (Shares.forget share)) f) = if decide (share' = share) then None else policyOf share' f) as Hp.
  { intros share'. unfold policyOf, stateOf. simpl. rewrite lookup_delete. repeat case_decide; subst; done. }
  destruct (fl_prefetch f !! share) as [p|] eqn:E; split; cbn [fl_trees fl_prefetch add_trees on_prefetch with_books].
  - rewrite treeCount_delete. unfold countedAt. rewrite E. lia.
  - intros share' p'. rewrite lookup_delete. case_decide as Hs; [done|]. intros Hp'.
    unfold policyOf, stateOf in *. simpl. rewrite lookup_delete_ne by done. by apply H2.
  - intros share' pol. rewrite lookup_delete. case_decide as Hs; [|intros Hn];
      unfold policyOf, stateOf in *; simpl; [subst; by rewrite lookup_delete_eq|].
    rewrite lookup_delete_ne by done. by apply H3.
  - done.
  - intros share' p' Hp'. rewrite Hp. case_decide; [congruence|]. by apply H2.
  - intros share' pol Hn. rewrite Hp. case_decide; [done|]. by apply H3.
Qed.

Lemma next_policy budget now p : pf_policy (fst (fst (next budget now p))) = pf_policy p.
Proof.
  unfold next. destruct (Before _ _); [done|]. destruct (pf_queue p); [|done]. destruct (_ && _); [done|].
  destruct (Stored _). destruct (overBudget _ _ _); [done|]. by destruct (Unstored _ _ _).
Qed.

Lemma Touch_policy now path n p : pf_policy <$> Touch now path n p = pf_policy <$> p.
Proof.
  destruct p as [p|]; [|done]. simpl. destruct (negb _); [done|]. by destruct (Read _ _ _) as [t [|e got]].
Qed.

Section loop.
Context (budget : Budget) (base : Duration) (turns : nat → turn).

Lemma policyOf_frozen f share : policyOf share f = (o_Policy ∘ fst) <$> frozenOf share f.
Proof. unfold policyOf, frozenOf. by destruct (stateOf share f). Qed.

Lemma frozenOf_put share s f share' :
  frozenOf share' (put_state share s f) = if decide (share' = share) then Some (frozen s) else frozenOf share' f.
Proof.
  unfold frozenOf, stateOf, put_state. simpl. rewrite lookup_insert. repeat case_decide; simplify_eq; done.
Qed.

Lemma sendTurn_frozen share k p f f' p' more :
  sendTurn budget base turns share k p f = (f', p', more) →
  pf_policy p' = pf_policy p ∧ fl_prefetch f' = fl_prefetch f ∧ fl_trees f' = fl_trees f ∧
  ∀ share', frozenOf share' f' = frozenOf share' f.
Proof.
  unfold sendTurn. pose proof (next_policy budget (tn_clock (turns k)) p) as Hn.
  destruct (next _ _ _) as [[p1 batch] d]. simpl in Hn. destruct batch as [|e batch]; [by intros [= <- <- <-]|].
  set (s := default _ _). destruct (sendBatch _ _ _ _ _) as [[b s'] err] eqn:Eb. apply sendBatch_state in Eb as [Hb Hfr].
  assert (∀ share', stateOf share' (with_books (λ _, b) f) = stateOf share' f) as Hst by (intros; unfold stateOf; simpl; by rewrite Hb).
  assert (∀ s2 share', frozen s2 = frozen s' →
    frozenOf share' (match stateOf share (with_books (λ _, b) f) with Some _ => put_state share s2 (with_books (λ _, b) f) | None => with_books (λ _, b) f end)
    = frozenOf share' f) as Hpol.
  { intros s2 share' Ho. destruct (stateOf share (with_books _ f)) as [s0|] eqn:E; [|unfold frozenOf; by rewrite Hst].
    rewrite frozenOf_put. case_decide; [|unfold frozenOf; by rewrite Hst]. subst share'. rewrite Hst in E. unfold s in Hfr.
    rewrite E in Hfr. unfold frozenOf. rewrite E. simpl. by rewrite Ho, Hfr. }
  destruct err as [er|]; [|unfold batchSent; destruct (0 <? pf_failures p1)]; intros [= <- <- <-]; simpl;
    (split_and!; [done|by case_match|by case_match|intros share'; by apply Hpol]).
Qed.

Lemma drain_frozen fuel share k p f f' p' :
  drain budget base turns fuel share k p f = Some (f', p') →
  pf_policy p' = pf_policy p ∧ fl_prefetch f' = fl_prefetch f ∧ fl_trees f' = fl_trees f ∧
  ∀ share', frozenOf share' f' = frozenOf share' f.
Proof.
  revert k p f. induction fuel as [|fuel IH]; intros k p f; [done|]. cbn [drain].
  destruct (sendTurn _ _ _ _ _ _ _) as [[f1 p1] more] eqn:E. apply sendTurn_frozen in E as (H1 & H2 & H3 & H4).
  destruct more; [|by intros [= <- <-]]. intros (J1 & J2 & J3 & J4)%IH. split_and!; try congruence.
Qed.

Lemma finishIfWalked_opts p s : ss_opts (finishIfWalked budget p s) = ss_opts s.
Proof.
  unfold finishIfWalked. destruct (Stored _). destruct (negb _); [done|]. destruct (_ && _); [done|].
  unfold finish. destruct (ss_Done s) eqn:E; simpl; rewrite E; done.
Qed.

Lemma wakeUp_ok share f f' : fills_ok f → wakeUp budget base turns share f = Some f' → fills_ok f'.
Proof.
  intros Hok. unfold wakeUp. destruct (fl_prefetch f !! share) as [p|] eqn:Ep; [|by intros [= <-]].
  destruct (drain _ _ _ _ _ _ _ _) as [[f1 p']|] eqn:Ed; [|done]. apply drain_frozen in Ed as (H1 & H2 & H3 & H4').
  assert (∀ share', policyOf share' f1 = policyOf share' f) as H4 by (intros; by rewrite !policyOf_frozen, H4').
  intros [= <-]. apply (fills_ok_same f); [done| | | |].
  - by destruct (stateOf share _).
  - intros share'. destruct (stateOf share _) as [s|] eqn:E; [|by rewrite <- H4].
    rewrite policyOf_put, finishIfWalked_opts. case_decide; [|by rewrite <- H4]. subst. rewrite <- H4.
    unfold policyOf. change (stateOf share (on_prefetch <[share := p']> f1)) with (stateOf share f1) in E. by rewrite E.
  - intros share'. assert (fl_prefetch (on_prefetch <[share := p']> f1) !! share' = if decide (share = share') then Some p' else fl_prefetch f !! share') as E.
    { simpl. rewrite lookup_insert. case_decide; [done|by rewrite H2]. }
    destruct (stateOf share _); cbn [fl_prefetch put_state with_books]; rewrite E; case_decide; subst; rewrite ?Ep; simpl; congruence.
  - destruct (stateOf share _); cbn [fl_prefetch put_state with_books on_prefetch]; rewrite H2; by apply treeCount_same with (p := p).
Qed.

End loop.

Lemma touchSlow_ok now share path n f : fills_ok f → fills_ok (touchSlow now share path n f).
Proof.
  intros Hok. set (g := λ p, default p (Touch now path n (Some p))).
  assert (partial_alter (Touch now path n) share (fl_prefetch f) = alter g share (fl_prefetch f)) as E.
  { apply map_eq. intros i. rewrite lookup_partial_alter, lookup_alter. case_decide; [|done]. subst i.
    destruct (fl_prefetch f !! share) as [p|]; [|done]. unfold g. simpl. destruct (negb _); [done|]. by destruct (Read _ _ _). }
  assert (∀ p, pf_policy (g p) = pf_policy p) as Hg.
  { intros p. unfold g. pose proof (Touch_policy now path n (Some p)) as H. destruct (Touch now path n (Some p)); simpl in *; congruence. }
  destruct (alter_policy g share (fl_prefetch f) Hg) as [A1 A2].
  apply (fills_ok_same f); [done|done|done|..]; cbn [touchSlow on_prefetch fl_prefetch]; by rewrite E.
Qed.

(** With no tree, the lookup finds nothing to do. *)
Lemma touchSlow_zero now share path n f :
  treeCount (fl_prefetch f) = 0 → touchSlow now share path n f = f.
Proof.
  intros H0. destruct f as [b m t]. unfold touchSlow, on_prefetch. simpl in *. f_equal.
  apply map_eq. intros i. rewrite lookup_partial_alter. case_decide; [|done]. subst i.
  destruct (m !! share) as [p|] eqn:E; [|done]. simpl. by rewrite bool_decide_eq_false_2 by by eapply treeCount_zero.
Qed.

Lemma fill_step_ok f f' : fills_ok f → fill_step f f' → fills_ok f'.
Proof.
  intros Hok Hs. destruct Hs as [link filled share root opts|share|now share path n|share pending held|share stats|budget base turns share f' E].
  - by apply Attach_ok.
  - by apply forgetShare_ok.
  - unfold touchShare. destruct (_ =? 0); [done|]. by apply touchSlow_ok.
  - destruct (alter_policy (feed pending held) share (fl_prefetch f)) as [A1 A2]; [by intros p; destruct pending|].
    by apply (fills_ok_same f).
  - destruct (alter_policy set_walked share (fl_prefetch f)) as [A1 A2]; [done|]. unfold feedDone.
    destruct (stateOf share f) as [s|] eqn:E; apply (fills_ok_same f); try done.
    intros share'. rewrite policyOf_put. case_decide; [|done]. subst. unfold policyOf. by rewrite E.
  - by eapply wakeUp_ok.
Qed.

Lemma fills_reachable_ok f : fills_reachable f → fills_ok f.
Proof.
  intros Hr. assert (fills_ok noFills) as H0 by apply noFills_ok. unfold fills_reachable in Hr.
  induction Hr as [|? ? ? Hs Hr IH]; [done|]. apply IH. by eapply fill_step_ok.
Qed.

(** Touch's fast path loses nothing: whatever the fills have been
    through (attaches, raises, forgets, reads, walks and wake-ups of the sender,
    each done before the next), the counter it loads is the number of prefetches
    with the tree policy, and skipping the lookup when it is zero is the lookup. *)
Theorem touch_fast_path_exact f now share path n :
  fills_reachable f →
  fl_trees f = treeCount (fl_prefetch f) ∧ touchShare now share path n f = touchSlow now share path n f.
Proof.
  intros Hok%fills_reachable_ok. split; [apply Hok|]. unfold touchShare.
  destruct (Z.eqb_spec (fl_trees f) 0) as [E|]; [|done]. rewrite touchSlow_zero; [done|]. rewrite <- E. symmetry. apply Hok.
Qed.

Lemma startTree_frame link share policy f share' :
  policyOf share' (startTree link share policy f) = policyOf share' f ∧
  (share' ≠ share → fl_prefetch (startTree link share policy f) !! share' = fl_prefetch f !! share').
Proof.
  destruct (startTree_spec link share policy f) as [tree ->]. split; [done|]. intros Hne. simpl. by rewrite lookup_insert_ne.
Qed.

Lemma Attach_frame link filled share root opts f share' :
  share' ≠ share →
  policyOf share' (Attach link filled share root opts f) = policyOf share' f ∧
  fl_prefetch (Attach link filled share root opts f) !! share' = fl_prefetch f !! share'.
Proof.
  intros Hne. unfold Attach, raiseShare. destruct (stateOf share f) as [s|] eqn:Hs.
  - destruct (_ =? 0); [done|]. rewrite ?Hs. destruct (fl_prefetch f !! share) as [p0|].
    + unfold raiseFound. destruct (raise _ _ _) as [[st p] b]. destruct (_ <=? _); [done|].
      destruct st; rewrite ?policyOf_put, ?decide_False by done; cbn; by rewrite lookup_partial_alter_ne.
    + destruct (startTree_frame link share (o_Policy opts) (put_state share (reopened (o_Policy opts) s) f) share') as [-> H].
      rewrite (H Hne), policyOf_put, decide_False by done. done.
  - assert (policyOf share' (with_books (bk_on (set_ share root (newShareState opts) filled)) f) = policyOf share' f) as Ho.
    { unfold policyOf, stateOf. simpl. by rewrite lookup_insert_ne. }
    destruct (_ || _); [by rewrite policyOf_put, decide_False by done|].
    destruct (startTree_frame link share (o_Policy opts) (with_books (bk_on (set_ share root (newShareState opts) filled)) f) share') as [-> H].
    by rewrite (H Hne).
Qed.

Lemma rank_nonneg p : 0 ≤ rank p.
Proof. by destruct p. Qed.

Lemma Attach_rank link filled share root opts f :
  fills_ok f →
  ∃ pol, policyOf share (Attach link filled share root opts f) = Some pol ∧
    rank pol = Z.max (rank (default PolicyUnset (policyOf share f))) (rank (o_Policy opts)).
Proof.
  intros [_ H2 H3]. unfold Attach, raiseShare. destruct (stateOf share f) as [s|] eqn:Hs.
  - assert (policyOf share f = Some (o_Policy (ss_opts s))) as Hp by (unfold policyOf; by rewrite Hs).
    pose proof (rank_nonneg (o_Policy (ss_opts s))). rewrite Hp. cbn [default from_option id].
    destruct (Z.eqb_spec (rank (o_Policy opts)) 0) as [E|Hr]; [exists (o_Policy (ss_opts s)); split; [done|unfold id; lia]|].
    destruct (fl_prefetch f !! share) as [p0|] eqn:Ep.
    + destruct (H2 _ _ Ep) as [Hpol _]. assert (pf_policy p0 = o_Policy (ss_opts s)) as Hsame by congruence.
      destruct (decide (rank (o_Policy opts) ≤ rank (pf_policy p0))) as [Hle|Hlt].
      * exists (o_Policy (ss_opts s)). unfold raiseFound. destruct (raise _ _ _) as [[? ?] ?].
        rewrite (proj2 (Z.leb_le _ _)) by done. split; [done|]. rewrite Hsame in Hle. unfold id. lia.
      * destruct (raiseFound_spec share (o_Policy opts) p0 s f Hs Hr) as (p' & Hp' & ->); [lia|].
        exists (o_Policy opts). rewrite policyOf_put, decide_True by done. split; [done|]. rewrite Hsame in Hlt. unfold id. lia.
    + exists (o_Policy opts). rewrite (proj1 (startTree_frame _ _ _ _ _)), policyOf_put, decide_True by done.
      pose proof (H3 _ _ Ep Hp). split; [done|]. unfold id. pose proof (rank_nonneg (o_Policy opts)). lia.
  - assert (policyOf share f = None) as -> by (unfold policyOf; by rewrite Hs). pose proof (rank_nonneg (o_Policy opts)).
    exists (o_Policy opts). split; [|simpl; lia].
    destruct (_ || _); [by rewrite policyOf_put, decide_True by done|].
    rewrite (proj1 (startTree_frame _ _ _ _ _)). unfold policyOf, stateOf. simpl. by rewrite lookup_insert_eq.
Qed.

(** A share runs at the highest policy any consumer asked for:
    attaching it raises its policy to what is asked and never lowers it, it has a
    prefetch of that policy exactly when the policy sends anything, and no other
    share's policy or prefetch moves. *)
Theorem attach_runs_at_highest link filled share root opts f :
  fills_reachable f →
  let f' := Attach link filled share root opts f in
  ∃ pol, policyOf share f' = Some pol ∧
    rank pol = Z.max (rank (default PolicyUnset (policyOf share f))) (rank (o_Policy opts)) ∧
    pf_policy <$> fl_prefetch f' !! share = (if 0 <? rank pol then Some pol else None) ∧
    ∀ share', share' ≠ share → policyOf share' f' = policyOf share' f ∧ fl_prefetch f' !! share' = fl_prefetch f !! share'.
Proof.
  intros Hok%fills_reachable_ok. cbv zeta. destruct (Attach_rank link filled share root opts f Hok) as (pol & Hp & Hr).
  exists pol. split; [done|]. split; [done|]. split; [|intros share' Hne; by apply Attach_frame].
  destruct (Attach_ok link filled share root opts f Hok) as [_ H2 H3].
  destruct (fl_prefetch (Attach _ _ _ _ _ _) !! share) as [p|] eqn:E; simpl.
  - destruct (H2 _ _ E) as [Hp' Hpos]. rewrite Hp in Hp'. injection Hp' as ->. by rewrite (proj2 (Z.ltb_lt _ _)).
  - rewrite (H3 _ _ E Hp). done.
Qed.

(** ** The sender's loop ends *)

Lemma unstoredCount_open t : tree_ok t → unstoredCount t = Z.of_nat (length (openCells (cellsOf (t_root t)))).
Proof.
  intros Hok. unfold unstoredCount, unfetchedFiles. rewrite (wf_counters _ (tk_wf _ Hok)).
  by destruct (cellsc_stored (cellsOf (t_root t))) as (_ & _ & ->).
Qed.

Lemma sends_open l l' out : sends l l' out → length (openCells l) = (length (openCells l') + length out)%nat.
Proof.
  unfold openCells. intros H. induction H as [|e st st' l l' out Hs _ H IH|e st l l' out Hs H IH]; [done|..].
  - rewrite !filter_cons. cbn [snd]. rewrite Hs. case_decide; simpl; lia.
  - rewrite filter_cons_True by done. rewrite filter_cons_False by done. simpl. lia.
Qed.

Lemma Unstored_open maxBytes maxFiles t t' out :
  tree_ok t → Unstored maxBytes maxFiles t = (t', out) →
  tree_ok t' ∧ unstoredCount t = unstoredCount t' + Z.of_nat (length out).
Proof.
  intros Hok E. pose proof (Unstored_spec maxBytes maxFiles t Hok) as Hs. rewrite E in Hs.
  destruct Hs as (Hok' & (o & So & Po) & _). split; [done|].
  rewrite !unstoredCount_open, (sends_open _ _ _ So), (Permutation_length Po) by done. lia.
Qed.

(** The measure of the loop. *)
Definition toSend (p : prefetch) : nat := (length (pf_queue p) + Z.to_nat (unstoredCount (pf_tree p)))%nat.

Lemma next_progress budget now p p1 batch d :
  tree_ok (pf_tree p) → next budget now p = (p1, batch, d) →
  tree_ok (pf_tree p1) ∧ (batch ≠ [] → (toSend p1 < toSend p)%nat).
Proof.
  intros Hok. unfold next. destruct (Before _ _); [by intros [= <- <- <-]|].
  destruct (pf_queue p) as [|b q] eqn:Eq.
  2: { intros [= <- <- <-]. split; [done|]. unfold toSend. rewrite Eq. simpl. lia. }
  destruct (_ && _); [by intros [= <- <- <-]|]. destruct (Stored _). destruct (overBudget _ _ _); [by intros [= <- <- <-]|].
  destruct (Unstored _ _ _) as [t' out] eqn:E. apply Unstored_open in E as [Hok' Hc]; [|done].
  intros [= <- <- <-]. split; [done|]. intros Hne. unfold toSend. cbn [set_tree pf_queue pf_tree]. rewrite Eq, Hc.
  pose proof (unstoredCount_open _ Hok'). destruct out; [done|]. simpl. lia.
Qed.

Lemma SetLink_ok l t : tree_ok t → tree_ok (SetLink l t).
Proof. intros [H1 H2 H3 H4 H5]. by split. Qed.

Section loop_ends.
Context (budget : Budget) (base : Duration) (turns : nat → turn).

Lemma sendTurn_progress share k p f f' p' :
  tree_ok (pf_tree p) → sendTurn budget base turns share k p f = (f', p', true) →
  tree_ok (pf_tree p') ∧ (toSend p' < toSend p)%nat.
Proof.
  intros Hok. unfold sendTurn. destruct (next _ _ _) as [[p1 batch] d] eqn:E. apply next_progress in E as [Hok1 Hlt]; [|done].
  destruct batch as [|e batch]; [done|]. destruct (sendBatch _ _ _ _ _) as [[b s'] [er|]]; [by destruct (batchFailed _ _ _ _ _ _)|].
  unfold batchSent. destruct (0 <? pf_failures p1); intros [= <- <-]; cbn [set_tree pf_tree];
    (split; [by apply SetLink_ok|]); unfold toSend in *; cbn [pf_queue pf_tree]; by apply Hlt.
Qed.

Lemma drain_enough fuel share k p f :
  tree_ok (pf_tree p) → (toSend p < fuel)%nat →
  ∃ r, drain budget base turns fuel share k p f = Some r ∧ drain budget base turns (drainFuel p) share k p f = Some r.
Proof.
  unfold drainFuel. fold (toSend p). revert k p f.
  assert (∀ n m k p f, tree_ok (pf_tree p) → (toSend p < n)%nat → (toSend p < m)%nat →
    ∃ r, drain budget base turns n share k p f = Some r ∧ drain budget base turns m share k p f = Some r) as H.
  { induction n as [|n IH]; intros m k p f Hok Hn Hm; [lia|]. destruct m as [|m]; [lia|]. cbn [drain].
    destruct (sendTurn _ _ _ _ _ _ _) as [[f' p'] more] eqn:E. destruct more; [|by eexists].
    apply sendTurn_progress in E as [Hok' Hlt]; [|done]. apply IH; [done|lia|lia]. }
  intros k p f Hok Hf. by apply H; [| |lia].
Qed.

End loop_ends.

(** ** A fill that is allowed everything *)

Lemma takeCands_grows maxBytes maxFiles cands out size n :
  (length out ≤ length (snd (takeCands maxBytes maxFiles cands out size n)))%nat.
Proof.
  revert out size n. induction cands as [|[[k i] e] cands IH]; intros out size n; cbn [takeCands]; [done|].
  destruct (_ || _); [done|]. etransitivity; [|apply IH]. rewrite length_app. lia.
Qed.

(** The walk comes back empty only when nothing is left. *)
Lemma Unstored_nil maxBytes maxFiles t t' :
  tree_ok t → 0 < maxBytes → 0 < maxFiles → Unstored maxBytes maxFiles t = (t', []) → unstoredCount t = 0.
Proof.
  intros Hok Hb Hf. unfold Unstored. rewrite (proj2 (Z.leb_gt _ _)), (proj2 (Z.leb_gt maxBytes 0)) by done. cbn [orb].
  destruct (stable_sort cand_leb (candsOf (t_root t) 0)) as [|[[k i] e] cands] eqn:Es.
  - intros _. rewrite unstoredCount_open by done. destruct (openCells _) as [|[e st] l] eqn:Eo; [done|]. exfalso.
    assert ((e, st) ∈ openCells (cellsOf (t_root t))) as Hin by (rewrite Eo; left).
    apply list_elem_of_filter in Hin as [Hs (k & i & Hc)%cells_cellAt].
    assert ((k, i, e) ∈ candsOf (t_root t) 0) as Hk by (apply elem_of_candsOf; eauto).
    rewrite <- (elem_of_stable_sort cand_leb), Es in Hk. by apply elem_of_nil in Hk.
  - cbn [takeCands length]. rewrite (proj2 (Z.leb_gt _ _)) by lia. cbn [orb andb app].
    pose proof (takeCands_grows maxBytes maxFiles cands [e] (0 + e_Size e) (fst (update markStored (t_root t) k i))) as Hg.
    destruct (takeCands _ _ _ _ _ _) as [root out]. intros [= <- ->]. simpl in Hg. lia.
Qed.

Section eager.
Context (budget : Budget) (base : Duration) (turns : nat → turn) (share : string).

(** An eager prefetch whose next batch may go at every turn. *)
Record eagerReady (p : prefetch) : Prop := {
  er_tree : tree_ok (pf_tree p);
  er_policy : pf_policy p = PolicyEager;
  er_queue : Forall (λ b, b ≠ []) (pf_queue p);
  er_retry : ∀ k, pf_retryAt p ≤ tn_clock (turns k)
}.

Definition idle (p : prefetch) : Prop :=
  pf_queue p = [] ∧
  (unstoredCount (pf_tree p) = 0 ∨ overBudget budget (fst (Stored (pf_tree p))) (snd (Stored (pf_tree p))) = true).

Lemma next_eager k p p1 batch d :
  eagerReady p → next budget (tn_clock (turns k)) p = (p1, batch, d) →
  eagerReady p1 ∧ pf_walked p1 = pf_walked p ∧ (batch = [] → idle p1).
Proof.
  intros Hr E. pose proof (next_progress _ _ _ _ _ _ (er_tree _ Hr) E) as [Hok _]. revert E.
  destruct Hr as [H1 H2 H3 H4]. unfold next, Before. rewrite (proj2 (Z.ltb_ge _ _)) by apply H4.
  destruct (pf_queue p) as [|b q] eqn:Eq.
  2: { apply Forall_cons in H3 as [Hb H3]. intros [= <- <- <-]. split; [by split|]. by split. }
  rewrite H2. rewrite (bool_decide_eq_true_2 (PolicyEager = PolicyEager)) by done. cbn [negb andb].
  destruct (Stored (pf_tree p)) as [stored files] eqn:Es. destruct (overBudget budget stored files) eqn:Eo.
  - intros [= <- <- <-]. split; [split; rewrite ?Eq; done|]. split; [done|]. intros _. split; [done|]. right. by rewrite Es.
  - destruct (Unstored _ _ _) as [t' out] eqn:Eu. intros [= <- <- <-].
    split; [split; cbn [set_tree pf_queue pf_tree pf_policy pf_retryAt]; rewrite ?Eq; done|]. split; [done|]. intros ->.
    split; [done|]. left. cbn [set_tree pf_tree]. unfold overBudget in Eo. bool_to_prop.
    pose proof (Unstored_open _ _ _ _ _ H1 Eu) as [_ Hc]. simpl in Hc. rewrite Z.add_0_r in Hc. rewrite <- Hc.
    eapply Unstored_nil; [exact H1| | |exact Eu]; unfold batchBytes; lia.
Qed.

Hypothesis accepts : ∀ k batch s b, snd (sendBatch (tn_env (turns k)) share batch s b) = None.
Hypothesis clock_ok : ∀ k, zeroTime ≤ tn_clock (turns k).

Lemma sendTurn_eager k p f f' p' more :
  eagerReady p → sendTurn budget base turns share k p f = (f', p', more) →
  eagerReady p' ∧ pf_walked p' = pf_walked p ∧ (more = false → idle p').
Proof.
  intros Hr. unfold sendTurn. destruct (next _ _ _) as [[p1 batch] d] eqn:E.
  apply next_eager in E as (Hr1 & Hw & Hi); [|done]. destruct batch as [|e batch]; [intros [= <- <- <-]; auto|].
  match goal with |- context [sendBatch ?e ?sh ?b ?s ?bk] => pose proof (accepts k b s bk) as Ha; destruct (sendBatch e sh b s bk) as [[b' s'] err] end.
  simpl in Ha. subst err. destruct Hr1 as [H1 H2 H3 H4].
  unfold batchSent. destruct (0 <? pf_failures p1); intros [= <- <- <-]; (split; [|done]); split; cbn [set_tree pf_tree pf_policy pf_queue pf_retryAt];
    auto using SetLink_ok.
Qed.

Lemma drain_eager fuel k p f f' p' :
  eagerReady p → drain budget base turns fuel share k p f = Some (f', p') → idle p' ∧ pf_walked p' = pf_walked p.
Proof.
  revert k p f. induction fuel as [|fuel IH]; intros k p f Hr; [done|]. cbn [drain].
  destruct (sendTurn _ _ _ _ _ _ _) as [[f1 p1] more] eqn:E. apply sendTurn_eager in E as (Hr1 & Hw & Hi); [|done].
  destruct more; [intros [? ->]%IH; [|done]; by split|]. intros [= <- <-]. auto.
Qed.

End eager.

(** One wake-up of the sender ends, whatever the store, the clock
    and the link answer: the loop takes at most one turn more than there are
    demand batches queued and files not yet stored, and more fuel changes
    nothing. *)
Theorem send_loop_ends budget base turns share p f fuel :
  fl_prefetch f !! share = Some p → tree_reachable (pf_tree p) →
  (drainFuel p ≤ fuel)%nat →
  is_Some (wakeUp budget base turns share f) ∧
  ∃ r, drain budget base turns fuel share 0 p f = Some r ∧ drain budget base turns (drainFuel p) share 0 p f = Some r.
Proof.
  intros Hp Hok%tree_reachable_ok Hf. unfold drainFuel in Hf. fold (toSend p) in Hf.
  destruct (drain_enough budget base turns fuel share 0 p f Hok) as ([f' p'] & E1 & E2); [lia|].
  split; [|eauto]. unfold wakeUp. rewrite Hp, E2. by eexists.
Qed.

(** A fill that is allowed everything finishes: when the walk of an
    eager share is over and the store takes every batch, one wake-up of the
    sender sends whatever is queued and left until the budget is spent, marks the
    share done, and calls it cached exactly when every file of its tree was sent;
    the figures it reports are what the tree holds. *)
Theorem eager_fill_finishes budget base turns share p f s :
  fl_prefetch f !! share = Some p → stateOf share f = Some s → ss_Done s = false →
  tree_reachable (pf_tree p) → pf_policy p = PolicyEager → pf_walked p = true →
  Forall (λ b, b ≠ []) (pf_queue p) →
  (∀ k, pf_retryAt p ≤ tn_clock (turns k) ∧ zeroTime ≤ tn_clock (turns k)) →
  (∀ k batch s b, snd (sendBatch (tn_env (turns k)) share batch s b) = None) →
  ∃ f' p' s', wakeUp budget base turns share f = Some f' ∧
    fl_prefetch f' !! share = Some p' ∧ stateOf share f' = Some s' ∧
    pf_queue p' = [] ∧ ss_Done s' = true ∧
    ss_Cached s' = (unstoredCount (pf_tree p') =? 0) ∧
    (ss_Cached s' = false → overBudget budget (fst (Stored (pf_tree p'))) (snd (Stored (pf_tree p'))) = true) ∧
    (st_Bytes (ss_Stats s'), st_Files (ss_Stats s')) = Stored (pf_tree p').
Proof.
  intros Hp Hs Hd Hok%tree_reachable_ok Hpol Hw Hq Hc Ha.
  assert (eagerReady turns p) as Hr by (split; [done|done|done|intros k; apply Hc]).
  destruct (drain_enough budget base turns (drainFuel p) share 0 p f Hok) as ([f1 p1] & E & _); [unfold drainFuel, toSend; lia|].
  destruct (drain_eager budget base turns share Ha (λ k, proj2 (Hc k)) _ _ _ _ _ _ Hr E) as [[Hq1 Hi] Hw1].
  pose proof (drain_frozen _ _ _ _ _ _ _ _ _ _ E) as (_ & _ & _ & Hfr). specialize (Hfr share).
  unfold frozenOf in Hfr. rewrite Hs in Hfr. destruct (stateOf share f1) as [s1|] eqn:Hs1; [|done]. injection Hfr as _ Hd1. rewrite Hd in Hd1.
  unfold wakeUp. rewrite Hp, E. change (stateOf share (on_prefetch <[share := p1]> f1)) with (stateOf share f1). rewrite Hs1.
  eexists _, p1, (finishIfWalked budget p1 s1). split; [done|]. split; [simpl; by rewrite lookup_insert_eq|].
  split; [unfold stateOf, put_state; simpl; by rewrite lookup_insert_eq|]. split; [done|].
  unfold finishIfWalked. rewrite Hw1, Hw. cbn [negb]. destruct (Stored (pf_tree p1)) as [stored files] eqn:Es. simpl in Hi.
  assert ((0 <? unstoredCount (pf_tree p1)) && negb (overBudget budget stored files) = false) as ->.
  { apply andb_false_iff. destruct Hi as [->| ->]; [by left|by right]. }
  rewrite Hd1. unfold finish. cbn [set_figures ss_Done]. rewrite Hd1. cbn.
  split_and!; [done|done|intros Hne; destruct Hi as [Hi|Hi]; [by rewrite Hi in Hne|done]|done].
Qed.
