(* ===== verification/AccountPorts.v ===== *)
(** * Which port serves which machine (core/workspace/mapping.go and
    core-agent/accounts/ports.go)

    The uid decides an account's first port; every further machine, and every
    ephemeral run, is given one by the allocator.  Each operation holds the
    allocator's mutex for the part that is one definition here; what [Preferred]
    answers, which is asked with no lock held, is an argument, and so are
    [Reserved] and whether the record can be read and written.  [memoReserved]
    asks [Reserved] once per uid and decision; its answers are the function's. *)
From Stdlib Require Import Ascii.
From S2P Require Import Prelude GoStrings Records.

Open Scope Z_scope.

(** ** core/workspace/mapping.go *)

Definition DefaultUIDBase : Z := 10000.
Definition DefaultPortBase : Z := 30000.
Definition MaxPort : Z := 65535.

Record Mapping := {
  m_UIDBase : Z;
  m_PortBase : Z
}.

Definition DefaultMapping : Mapping := {| m_UIDBase := DefaultUIDBase; m_PortBase := DefaultPortBase |}.

(** The errors, by what they say. *)
Inductive mapError :=
| NegativeUIDBase
| InvalidPortBase
| UIDBelowBase (uid : Z)
| PortAboveMax (uid port : Z)
| PortOutside (port : Z).

Definition Validate (m : Mapping) : option mapError :=
  if m_UIDBase m <? 0 then Some NegativeUIDBase
  else if (m_PortBase m <? 1) || (MaxPort <? m_PortBase m) then Some InvalidPortBase
  else None.

Definition PortForUID (m : Mapping) (uid : Z) : res mapError Z :=
  match Validate m with
  | Some e => Err e
  | None =>
      if uid <? m_UIDBase m then Err (UIDBelowBase uid)
      else
        let port := m_PortBase m + uid - m_UIDBase m in
        if MaxPort <? port then Err (PortAboveMax uid port) else Ok port
  end.

Definition UIDForPort (m : Mapping) (port : Z) : res mapError Z :=
  match Validate m with
  | Some e => Err e
  | None =>
      if (port <? m_PortBase m) || (MaxPort <? port) then Err (PortOutside port)
      else Ok (m_UIDBase m + port - m_PortBase m)
  end.

(** ** core-agent/accounts/ports.go *)

(** [assignment] is the account and the client; [entry]. *)
Abbreviation assignment := (string * string)%type.

Record entry := {
  en_port : Z;
  en_ephemeral : bool;
  en_token : Z
}.

#[export] Instance entry_eq_dec : EqDecision entry.
Proof. solve_decision. Defined.

(** [Ports], with the record's text on disk ([None] for no file). *)
Record Ports := {
  po_loaded : bool;
  po_assigned : gmap assignment entry;
  po_next : Z;
  po_disk : option string
}.

(** An agent that has just started. *)
Definition restart (p : Ports) : Ports :=
  {| po_loaded := false; po_assigned := ∅; po_next := 0; po_disk := po_disk p |}.

(** Why a call failed. *)
Inductive portError :=
| MappingError (e : mapError)
| RecordUnreadable
| CannotAskPreferred
| NoPortLeft.

(** What the world answers to one call. *)
Record portEnv := {
  pv_readable : bool;
  pv_writable : bool;
  pv_Reserved : Z → bool;
  pv_Preferred : option Z
}.

Section ports.
Context (M : Mapping).

(** One line of the record, written and read. *)
Definition colon : ascii := ":"%char.

Definition portLine (k : assignment) (e : entry) : string :=
  strings.Join [k.1; k.2; Itoa (en_port e)] (String colon "").

Definition parseLine (line : string) : option (assignment * entry) :=
  match strings.Split line colon with
  | [account; client; n] =>
      match Atoi n with
      | Some port => if (port <? 1) || (MaxPort <? port) then None
                     else Some ((account, client), {| en_port := port; en_ephemeral := false; en_token := 0 |})
      | None => None
      end
  | _ => None
  end.

(** [load]: the last line for a machine wins. *)
Definition parseRecord (text : option string) : gmap assignment entry :=
  match text with
  | None => ∅
  | Some t => list_to_map (reverse (omap parseLine (ReadRecord t)))
  end.

Definition load (env : portEnv) (p : Ports) : res portError Ports :=
  if po_loaded p then Ok p
  else if negb (pv_readable env) then Err RecordUnreadable
  else Ok {| po_loaded := true; po_assigned := parseRecord (po_disk p); po_next := po_next p; po_disk := po_disk p |}.

(** [save]: what is not ephemeral, sorted; a write that fails leaves the record
    as it was. *)
Definition durable (m : gmap assignment entry) : gmap assignment entry :=
  filter (λ kv, en_ephemeral kv.2 = false) m.

Definition save (env : portEnv) (p : Ports) : Ports :=
  if pv_writable env then
    {| po_loaded := po_loaded p; po_assigned := po_assigned p; po_next := po_next p;
       po_disk := Some (WriteRecord (sort_strings ((λ kv, portLine kv.1 kv.2) <$> map_to_list (durable (po_assigned p))))) |}
  else p.

(** [assign]. *)
Definition assign (k : assignment) (port : Z) (ephemeral : bool) (p : Ports) : Ports * entry :=
  let e := {| en_port := port; en_ephemeral := ephemeral; en_token := po_next p + 1 |} in
  ({| po_loaded := po_loaded p; po_assigned := <[k := e]> (po_assigned p); po_next := po_next p + 1; po_disk := po_disk p |}, e).

(** Whether somebody has the port. *)
Definition takenIn (m : gmap assignment entry) (port : Z) : bool :=
  existsb (λ kv, en_port kv.2 =? port) (map_to_list m).

(** [free]. *)
Definition free (reserved : Z → bool) (port : Z) : bool :=
  if (port <? m_PortBase M) || (MaxPort <? port) then false
  else match UIDForPort M port with Ok uid => negb (reserved uid) | Err _ => true end.

(** [allocate]: down from the top; 0 is none. *)
Fixpoint allocate_from (fuel : nat) (taken : Z → bool) (reserved : Z → bool) (port : Z) : Z :=
  match fuel with
  | O => 0
  | S fuel' =>
      if port <? m_PortBase M then 0
      else if taken port || match UIDForPort M port with Ok uid => reserved uid | Err _ => false end
      then allocate_from fuel' taken reserved (port - 1)
      else port
  end.

Definition allocate (taken : Z → bool) (reserved : Z → bool) : Z :=
  allocate_from (Z.to_nat (MaxPort - m_PortBase M + 1)) taken reserved MaxPort.

(** [decide]. *)
Definition decidePort (env : portEnv) (k : assignment) (base want : Z) (ephemeral : bool) (p : Ports)
  : Ports * res portError entry :=
  match load env p with
  | Err e => (p, Err e)
  | Ok p1 =>
      match po_assigned p1 !! k with
      | Some e => (p1, Ok e)
      | None =>
          let taken := takenIn (po_assigned p1) in
          let reserved := pv_Reserved env in
          let port0 := if negb (want =? 0) && negb (taken want) && free reserved want then want else 0 in
          let port1 := if (port0 =? 0) && negb ephemeral && negb (taken base) then base else port0 in
          let port := if port1 =? 0 then allocate taken reserved else port1 in
          if port =? 0 then (p1, Err NoPortLeft)
          else
            let '(p2, e) := assign k port ephemeral p1 in
            (if ephemeral then p2 else save env p2, Ok e)
      end
  end.

(** [entry]: a client the record already knows. *)
Definition entryOf (env : portEnv) (k : assignment) (p : Ports) : Ports * res portError (option entry) :=
  match load env p with
  | Err e => (p, Err e)
  | Ok p1 => (p1, Ok (po_assigned p1 !! k))
  end.

(** [For]: [uid] is the account's. *)
Definition For (env : portEnv) (account : string) (uid : Z) (client : string) (p : Ports) : Ports * res portError Z :=
  match PortForUID M uid with
  | Err e => (p, Err (MappingError e))
  | Ok base =>
      if bool_decide (client = "") then (p, Ok base)
      else
        let '(p1, r) := entryOf env (account, client) p in
        match r with
        | Err e => (p1, Err e)
        | Ok (Some e) => (p1, Ok (en_port e))
        | Ok None =>
            match pv_Preferred env with
            | None => (p1, Err CannotAskPreferred)
            | Some want =>
                let '(p2, r2) := decidePort env (account, client) base want false p1 in
                (p2, match r2 with Ok e => Ok (en_port e) | Err e => Err e end)
            end
        end
  end.

(** [ForRun]: the port and the token that frees it. *)
Definition ForRun (env : portEnv) (account client : string) (p : Ports) : Ports * res portError (Z * Z) :=
  let '(p1, r) := entryOf env (account, client) p in
  match r with
  | Err e => (p1, Err e)
  | Ok (Some e) => (p1, Ok (en_port e, en_token e))
  | Ok None =>
      match pv_Preferred env with
      | None => (p1, Err CannotAskPreferred)
      | Some want =>
          let '(p2, r2) := decidePort env (account, client) 0 want true p1 in
          (p2, match r2 with Ok e => Ok (en_port e, en_token e) | Err e => Err e end)
      end
  end.

(** [Hold]: the token, when the run has its port back. *)
Definition Hold (env : portEnv) (account client : string) (port : Z) (p : Ports) : Ports * option Z :=
  match load env p with
  | Err _ => (p, None)
  | Ok p1 =>
      match po_assigned p1 !! (account, client) with
      | Some e => (p1, if en_ephemeral e && (en_port e =? port) then Some (en_token e) else None)
      | None =>
          if takenIn (po_assigned p1) port then (p1, None)
          else if negb (free (pv_Reserved env) port) then (p1, None)
          else let '(p2, e) := assign (account, client) port true p1 in (p2, Some (en_token e))
      end
  end.

(** [Free]. *)
Definition Free (account client : string) (token : Z) (p : Ports) : Ports * bool :=
  match po_assigned p !! (account, client) with
  | Some e =>
      if en_ephemeral e && negb (token =? 0) && (en_token e =? token)
      then ({| po_loaded := po_loaded p; po_assigned := delete (account, client) (po_assigned p);
               po_next := po_next p; po_disk := po_disk p |}, true)
      else (p, false)
  | None => (p, false)
  end.

(** [Forget]: every machine of an account, its runs left alone. *)
Definition Forget (env : portEnv) (account : string) (p : Ports) : Ports :=
  match load env p with
  | Err _ => p
  | Ok p1 =>
      let kept := filter (λ kv, ¬ (kv.1.1 = account ∧ en_ephemeral kv.2 = false)) (po_assigned p1) in
      if bool_decide (kept = po_assigned p1) then p1
      else save env {| po_loaded := po_loaded p1; po_assigned := kept; po_next := po_next p1; po_disk := po_disk p1 |}
  end.

(** [Lookup]. *)
Definition Lookup (env : portEnv) (account client : string) (p : Ports) : Ports * res portError (option Z) :=
  let '(p1, r) := entryOf env (account, client) p in
  (p1, match r with Ok o => Ok (en_port <$> o) | Err e => Err e end).

(** [Owns]: the record first; the first entry a walk of it meets. *)
Definition Owns (env : portEnv) (account : string) (uid port : Z) (p : Ports) : Ports * bool :=
  match load env p with
  | Err _ => (p, false)
  | Ok p1 =>
      (p1, match filter (λ kv, en_port kv.2 = port) (map_to_list (po_assigned p1)) with
           | (k, _) :: _ => bool_decide (k.1 = account)
           | [] => match PortForUID M uid with Ok base => port =? base | Err _ => false end
           end)
  end.

End ports.

(** * Properties of the port allocator (core-agent/accounts/ports.go) *)

Open Scope Z_scope.

(** ** The mapping *)

Lemma Validate_ok m : Validate m = None → 0 ≤ m_UIDBase m ∧ 1 ≤ m_PortBase m ≤ MaxPort.
Proof. unfold Validate. destruct (_ <? 0) eqn:E1; [done|]. destruct (_ || _) eqn:E2; [done|]. bool_to_prop. lia. Qed.

Lemma PortForUID_Ok m uid port :
  PortForUID m uid = Ok port ↔ Validate m = None ∧ m_UIDBase m ≤ uid ∧ port = m_PortBase m + uid - m_UIDBase m ∧ port ≤ MaxPort.
Proof.
  unfold PortForUID. destruct (Validate m) eqn:E; [naive_solver|].
  destruct (Z.ltb_spec uid (m_UIDBase m)); [split; [done|lia]|].
  destruct (Z.ltb_spec MaxPort (m_PortBase m + uid - m_UIDBase m)); split; try done; try lia; [by intros [= <-]|].
  intros (_ & _ & -> & _). done.
Qed.

Lemma UIDForPort_Ok m uid port :
  UIDForPort m port = Ok uid ↔ Validate m = None ∧ m_PortBase m ≤ port ≤ MaxPort ∧ uid = m_UIDBase m + port - m_PortBase m.
Proof.
  unfold UIDForPort. destruct (Validate m) eqn:E; [naive_solver|].
  destruct (_ || _) eqn:Eb; bool_to_prop; split; try done; try lia; [by intros [= <-]|intros (_ & _ & ->); done].
Qed.

(** The two directions of the mapping agree exactly. *)
Lemma mapping_inverse m uid port : PortForUID m uid = Ok port ↔ UIDForPort m port = Ok uid ∧ m_UIDBase m ≤ uid.
Proof.
  rewrite PortForUID_Ok, UIDForPort_Ok. split.
  - intros (Hv & Hu & -> & Hp). pose proof (Validate_ok _ Hv). split_and!; try done; lia.
  - intros [(Hv & Hp & ->) Hu]. split_and!; try done; lia.
Qed.

(** ** The record on disk *)

(** A name the record can hold: printable, without the separator and without the
    comment mark. *)
Definition nameByte (a : ascii) : bool := visible a && negb (Ascii.eqb a ":") && negb (Ascii.eqb a "#").
Definition plainText (s : string) : Prop := everyByte nameByte s = true.
Definition plainKey (k : assignment) : Prop := plainText k.1 ∧ plainText k.2.

Definition forgetToken (e : entry) : entry := {| en_port := en_port e; en_ephemeral := false; en_token := 0 |}.

Lemma nameByte_visible a : nameByte a = true → visible a = true.
Proof. unfold nameByte. destruct (visible a); done. Qed.

Lemma plainText_visible s : plainText s → everyByte visible s = true.
Proof. apply everyByte_impl, nameByte_visible. Qed.

Lemma allDigits_bytes s : allDigits s = true → everyByte nameByte s = true.
Proof.
  induction s as [|a s IH]; simpl; [done|]. destruct (digit a) eqn:E; [|done]. intros Hs. rewrite (IH Hs), andb_true_r. clear -E.
  destruct a as [[] [] [] [] [] [] [] []]; vm_compute in E; try done; reflexivity.
Qed.

Lemma portLine_eq k e : portLine k e = k.1 +:+ ":" +:+ k.2 +:+ ":" +:+ Itoa (en_port e).
Proof. done. Qed.

Lemma portLine_record k e : plainKey k → 1 ≤ en_port e ≤ MaxPort → recordLine (portLine k e).
Proof.
  intros [H1 H2] Hp. destruct (Itoa_digits (en_port e)) as (_ & Ha & Hne); [unfold MaxPort in *; lia|].
  rewrite portLine_eq. split_and!.
  - rewrite !everyByte_app, (plainText_visible _ H1), (plainText_visible _ H2). simpl. apply (everyByte_impl nameByte); [apply nameByte_visible|by apply allDigits_bytes].
  - by destruct (k.1).
  - unfold plainText in H1. destruct (k.1) as [|a s]; [done|].
    change (strings.HasPrefix (String a s +:+ ":" +:+ k.2 +:+ ":" +:+ Itoa (en_port e)) "#") with (Ascii.eqb "#" a && true).
    destruct (Ascii.eqb_spec "#" a) as [<-|]; [by vm_compute in H1|done].
Qed.

Lemma parse_portLine k e : plainKey k → 1 ≤ en_port e ≤ MaxPort → parseLine (portLine k e) = Some (k, forgetToken e).
Proof.
  intros [H1 H2] Hp. unfold parseLine, portLine.
  assert (everyByte nameByte (Itoa (en_port e)) = true) as Hi.
  { apply allDigits_bytes. apply Itoa_digits. lia. }
  rewrite Split_Join; [|done|].
  - rewrite Atoi_Itoa by (unfold MaxPort in *; lia). rewrite (proj2 (Z.ltb_ge _ _)), (proj2 (Z.ltb_ge _ _)) by lia. by destruct k.
  - repeat constructor; by apply (everyByte_Contains nameByte).
Qed.

(** What is saved is what a later agent loads, token apart. *)
Lemma parse_saved (m : gmap assignment entry) :
  map_Forall (λ k e, plainKey k ∧ 1 ≤ en_port e ≤ MaxPort) m →
  parseRecord (Some (WriteRecord (sort_strings ((λ kv, portLine kv.1 kv.2) <$> map_to_list m)))) = forgetToken <$> m.
Proof.
  intros Hm. unfold parseRecord.
  assert (∃ l, sort_strings ((λ kv, portLine kv.1 kv.2) <$> map_to_list m) = (λ kv, portLine kv.1 kv.2) <$> l ∧ l ≡ₚ map_to_list m) as (l & -> & Hl).
  { destruct (Permutation_map_inv (λ kv : assignment * entry, portLine kv.1 kv.2) (map_to_list m)
      (l1 := sort_strings ((λ kv, portLine kv.1 kv.2) <$> map_to_list m))) as (l & E & P); [apply stable_sort_Permutation|].
    exists l. split; [exact E|]. by symmetry. }
  assert (∀ kv, kv ∈ l → plainKey kv.1 ∧ 1 ≤ en_port kv.2 ≤ MaxPort) as Hin.
  { intros [k e] Hk. rewrite Hl in Hk. apply elem_of_map_to_list in Hk. by apply (Hm k e). }
  rewrite ReadRecord_WriteRecord.
  2: { apply Forall_fmap, Forall_forall. intros kv Hk. by apply portLine_record; apply Hin. }
  assert (omap parseLine ((λ kv, portLine kv.1 kv.2) <$> l) = prod_map id forgetToken <$> l) as ->.
  { clear Hl. induction l as [|[k e] l IH]; [done|]. rewrite fmap_cons. cbn [omap list_omap].
    destruct (Hin (k, e)) as [? ?]; [left|]. rewrite parse_portLine by done. rewrite fmap_cons. f_equal. apply IH. intros; apply Hin; by right. }
  rewrite <- fmap_reverse, list_to_map_fmap. f_equal. rewrite <- (list_to_map_to_list m).
  apply list_to_map_proper.
  - rewrite fmap_reverse. rewrite reverse_Permutation, Hl. apply NoDup_fst_map_to_list.
  - by rewrite reverse_Permutation.
Qed.

(** ** The invariant *)

Definition injPorts (m : gmap assignment entry) : Prop :=
  ∀ k1 k2 e1 e2, m !! k1 = Some e1 → m !! k2 = Some e2 → en_port e1 = en_port e2 → k1 = k2.

Record assigned_ok (m : gmap assignment entry) (next : Z) : Prop := {
  ao_inj : injPorts m;
  ao_key : ∀ k e, m !! k = Some e → plainKey k ∧ 1 ≤ en_port e ≤ MaxPort;
  ao_token : ∀ k e, m !! k = Some e → 0 ≤ en_token e ≤ next ∧ (en_ephemeral e = true → 0 < en_token e);
  ao_tokens : ∀ k1 k2 e1 e2, m !! k1 = Some e1 → m !! k2 = Some e2 → en_token e1 = en_token e2 → 0 < en_token e1 → k1 = k2
}.

(** What the allocator knows: the record, until it has been read. *)
Definition view (p : Ports) : gmap assignment entry :=
  if po_loaded p then po_assigned p else parseRecord (po_disk p).

Record ports_ok (p : Ports) : Prop := {
  pk_view : assigned_ok (view p) (po_next p);
  pk_next : 0 ≤ po_next p;
  pk_disk : assigned_ok (parseRecord (po_disk p)) 0;
  pk_unloaded : po_loaded p = false → po_assigned p = ∅
}.

Lemma load_spec env p p1 :
  load env p = Ok p1 → ports_ok p →
  ports_ok p1 ∧ po_loaded p1 = true ∧ po_assigned p1 = view p ∧ po_next p1 = po_next p ∧ po_disk p1 = po_disk p.
Proof.
  unfold load, view. destruct (po_loaded p) eqn:E.
  - intros [= <-] Hok. by rewrite E.
  - destruct (pv_readable env); [|done]. intros [= <-] [H1 H2 H3 H4]. split; [|done].
    unfold view in H1. rewrite E in H1. by split.
Qed.

Lemma takenIn_false m port : takenIn m port = false ↔ ∀ k e, m !! k = Some e → en_port e ≠ port.
Proof.
  unfold takenIn. rewrite <- not_true_iff_false, existsb_exists. split.
  - intros H k e Hk <-. apply H. exists (k, e). split; [|by apply Z.eqb_eq].
    by apply list_elem_of_In, elem_of_map_to_list.
  - intros H ([k e] & Hin%list_elem_of_In%elem_of_map_to_list & E%Z.eqb_eq). by apply (H k e).
Qed.

Lemma assigned_ok_mono m n n' : n ≤ n' → assigned_ok m n → assigned_ok m n'.
Proof. intros Hn [H1 H2 H3 H4]. split; [done|done| |done]. intros k e Hk. destruct (H3 k e Hk). split; [lia|done]. Qed.

Lemma assigned_ok_sub m m' n : m' ⊆ m → assigned_ok m n → assigned_ok m' n.
Proof.
  intros Hs [H1 H2 H3 H4].
  assert (∀ k e, m' !! k = Some e → m !! k = Some e) as L by (intros; by eapply lookup_weaken).
  split; [intros k1 k2 e1 e2 ? ?|intros k e ?..|intros k1 k2 e1 e2 ? ?]; eauto.
Qed.

(** The record keeps ports and keys, and no token. *)
Lemma assigned_ok_forget m n : assigned_ok m n → assigned_ok (forgetToken <$> m) 0.
Proof.
  intros [H1 H2 H3 H4].
  assert (∀ k e, (forgetToken <$> m) !! k = Some e → ∃ e0, m !! k = Some e0 ∧ e = forgetToken e0) as L.
  { intros k e. rewrite lookup_fmap. destruct (m !! k) as [e0|]; simpl; [|done]. intros [= <-]. eauto. }
  split.
  - intros k1 k2 e1 e2 (a & Ha & ->)%L (b & Hb & ->)%L. simpl. by eapply H1.
  - intros k e (a & Ha & ->)%L. by apply (H2 k a).
  - intros k e (a & Ha & ->)%L. simpl. by split.
  - intros k1 k2 e1 e2 (a & Ha & ->)%L (b & Hb & ->)%L. simpl. lia.
Qed.

Lemma durable_sub m : durable m ⊆ m.
Proof. apply map_filter_subseteq. Qed.

Lemma save_spec env p :
  ports_ok p → po_loaded p = true →
  ports_ok (save env p) ∧ view (save env p) = view p ∧ po_loaded (save env p) = true ∧
  (pv_writable env = true → parseRecord (po_disk (save env p)) = forgetToken <$> durable (view p)).
Proof.
  intros Hok Hl. unfold save. destruct (pv_writable env) eqn:Ew; [|done].
  destruct Hok as [H1 H2 H3 H4]. unfold view in *. rewrite Hl in H1.
  assert (parseRecord (Some (WriteRecord (sort_strings ((λ kv, portLine kv.1 kv.2) <$> map_to_list (durable (po_assigned p)))))) =
          forgetToken <$> durable (po_assigned p)) as E.
  { apply parse_saved. intros k e Hk. apply (ao_key _ _ H1 k e). by eapply lookup_weaken; [|apply durable_sub]. }
  cbn [po_loaded po_assigned po_disk po_next]. rewrite !Hl. split; [|done].
  split; cbn [po_loaded po_assigned po_disk po_next]; [unfold view; simpl; by rewrite ?Hl|done| |by rewrite ?Hl].
  rewrite E. eapply assigned_ok_forget, assigned_ok_sub; [apply durable_sub|exact H1].
Qed.

Lemma assign_spec k port ephemeral p p' e :
  assign k port ephemeral p = (p', e) → ports_ok p → po_loaded p = true →
  plainKey k → 1 ≤ port ≤ MaxPort → view p !! k = None → takenIn (view p) port = false →
  ports_ok p' ∧ po_loaded p' = true ∧ view p' = <[k := e]> (view p) ∧ po_disk p' = po_disk p ∧
  en_port e = port ∧ en_ephemeral e = ephemeral ∧ 0 < en_token e.
Proof.
  intros [= <- <-] [[H1 H2 H3 H4] Hn Hd Hu] Hl Hk Hp Hnone Ht. pose proof (proj1 (takenIn_false _ _) Ht) as Hfree. clear Ht. unfold view in *. rewrite Hl in *.
  cbn [po_loaded po_assigned po_disk po_next]. rewrite ?Hl. split; [|split_and!; try done; simpl; lia].
  split; unfold view; cbn [po_loaded po_assigned po_disk po_next]; rewrite ?Hl; [|lia|done|done].
  split.
  - intros k1 k2 e1 e2. rewrite !lookup_insert. repeat case_decide; subst; try done; [| |by apply H1].
    + intros [= <-] Ha Heq. simpl in Heq. by destruct (Hfree k2 e2 Ha).
    + intros Ha [= <-] Heq. simpl in Heq. by destruct (Hfree k1 e1 Ha).
  - intros k1 e1. rewrite lookup_insert. case_decide; subst; [|by apply H2]. intros [= <-]. done.
  - intros k1 e1. rewrite lookup_insert. case_decide; subst; [intros [= <-]; simpl; lia|].
    intros Ha. destruct (H3 k1 e1 Ha) as [? ?]. split; [lia|done].
  - intros k1 k2 e1 e2. rewrite !lookup_insert. repeat case_decide; subst; try done; [| |by apply H4].
    + intros [= <-] Ha. simpl. destruct (H3 k2 e2 Ha). lia.
    + intros Ha [= <-]. simpl. destruct (H3 k1 e1 Ha). lia.
Qed.

(** ** The operations *)

(** The record has every machine's port, as after any successful save. *)
Definition synced (p : Ports) : Prop := parseRecord (po_disk p) = forgetToken <$> durable (view p).

Section operations.
Context (M : Mapping) (valid : Validate M = None).

(** A port that may be handed to somebody who does not derive it. *)
Definition handable (reserved : Z → bool) (port : Z) : Prop :=
  m_PortBase M ≤ port ≤ MaxPort ∧ reserved (m_UIDBase M + port - m_PortBase M) = false.

Lemma UIDForPort_valid port :
  m_PortBase M ≤ port ≤ MaxPort → UIDForPort M port = Ok (m_UIDBase M + port - m_PortBase M).
Proof. intros. by apply UIDForPort_Ok. Qed.

Lemma free_true reserved port : free M reserved port = true ↔ handable reserved port.
Proof.
  unfold free, handable. destruct (_ || _) eqn:E; bool_to_prop; [split; [done|lia]|].
  rewrite UIDForPort_valid by lia. destruct (reserved _); split; naive_solver lia.
Qed.

Lemma allocate_from_spec fuel taken reserved port :
  port ≤ MaxPort → (Z.to_nat (port - m_PortBase M + 1) ≤ fuel)%nat →
  let r := allocate_from M fuel taken reserved port in
  (r ≠ 0 → handable reserved r ∧ taken r = false) ∧
  (r = 0 → ∀ q, m_PortBase M ≤ q ≤ port → taken q = true ∨ reserved (m_UIDBase M + q - m_PortBase M) = true).
Proof.
  pose proof (Validate_ok _ valid) as [_ Hv]. revert port. induction fuel as [|fuel IH]; intros port Hp Hf; cbn [allocate_from]; cbv zeta.
  { split; [done|]. intros _ q Hq. lia. }
  destruct (Z.ltb_spec port (m_PortBase M)). { split; [done|]. intros _ q Hq. lia. }
  rewrite UIDForPort_valid by lia. destruct (taken port || reserved _) eqn:E.
  - destruct (IH (port - 1)) as [I1 I2]; [lia|lia|]. split; [done|]. intros Hr q Hq.
    destruct (decide (q = port)) as [->|]; [by apply orb_true_iff|]. apply I2; [done|lia].
  - apply orb_false_iff in E as [E1 E2]. split; [intros _; split; [split; [lia|done]|done]|lia].
Qed.

Lemma allocate_spec taken reserved :
  let r := allocate M taken reserved in
  (r ≠ 0 → handable reserved r ∧ taken r = false) ∧
  (r = 0 → ∀ q, m_PortBase M ≤ q ≤ MaxPort → taken q = true ∨ reserved (m_UIDBase M + q - m_PortBase M) = true).
Proof. apply allocate_from_spec; [done|]. pose proof (Validate_ok _ valid). lia. Qed.

(** How the knowledge may change by giving [k] a port: not at all, or by a new
    entry, on a port nobody has, that [k] derives ([base], a machine's) or that
    may be handed to anybody. *)
Definition given (reserved : Z → bool) (k : assignment) (base : option Z) (ephemeral : bool) (v v' : gmap assignment entry) (e : entry) : Prop :=
  (v !! k = Some e ∧ v' = v) ∨
  (v !! k = None ∧ v' = <[k := e]> v ∧ en_ephemeral e = ephemeral ∧ 0 < en_token e ∧
   takenIn v (en_port e) = false ∧ (base = Some (en_port e) ∨ handable reserved (en_port e))).

Lemma handable_range reserved port : handable reserved port → 1 ≤ port ≤ MaxPort.
Proof. intros [? _]. pose proof (Validate_ok _ valid). lia. Qed.

(** Every port of the range is taken, or some existing account's own. *)
Definition exhausted (reserved : Z → bool) (v : gmap assignment entry) : Prop :=
  ∀ q, m_PortBase M ≤ q ≤ MaxPort → takenIn v q = true ∨ reserved (m_UIDBase M + q - m_PortBase M) = true.

Lemma load_error env p e : load env p = Err e → e = RecordUnreadable.
Proof. unfold load. destruct (po_loaded p); [done|]. destruct (negb _); [by intros [= <-]|done]. Qed.

Lemma decidePort_spec env k base want ephemeral p p' r :
  decidePort M env k base want ephemeral p = (p', r) → ports_ok p → plainKey k →
  (ephemeral = false → 1 ≤ base ≤ MaxPort) →
  ports_ok p' ∧
  match r with
  | Ok e => given (pv_Reserved env) k (if ephemeral then None else Some base) ephemeral (view p) (view p') e ∧
            (ephemeral = false → pv_writable env = true → view p !! k = None → synced p')
  | Err er => view p' = view p ∧ (er = NoPortLeft → exhausted (pv_Reserved env) (view p))
  end.
Proof.
  unfold decidePort. intros E Hok Hk Hbase. destruct (load env p) as [p1|er] eqn:El; [|injection E as <- <-; apply load_error in El as ->; done].
  apply load_spec in El as (Hok1 & Hl & Ha & Hn & Hd); [|done].
  assert (view p1 = view p) as Hv by (unfold view at 1; rewrite Hl; done).
  rewrite Ha in E. destruct (view p !! k) as [e|] eqn:Ek.
  { injection E as <- <-. split; [done|]. split; [|done]. left. by rewrite Hv. }
  set (taken := takenIn (view p)) in E. set (port0 := if _ : bool then want else 0) in E.
  set (port1 := if _ : bool then base else port0) in E. set (port := if port1 =? 0 then _ else port1) in E.
  destruct (Z.eqb_spec port 0) as [Hz|Hne].
  { injection E as <- <-. split; [done|]. split; [done|]. intros _. unfold port in Hz.
    destruct (Z.eqb_spec port1 0) as [|]; [|done]. exact (proj2 (allocate_spec taken (pv_Reserved env)) Hz). }
  assert (Hport : taken port = false ∧ ((if ephemeral then None else Some base) = Some port ∨ handable (pv_Reserved env) port)).
  { assert (port0 ≠ 0 → taken port0 = false ∧ handable (pv_Reserved env) port0) as H0.
    { unfold port0. destruct (negb (want =? 0) && negb (taken want) && free M (pv_Reserved env) want) eqn:Ew; [|done]. intros _. bool_to_prop. by rewrite <- free_true. }
    assert (port1 ≠ 0 → taken port1 = false ∧ ((if ephemeral then None else Some base) = Some port1 ∨ handable (pv_Reserved env) port1)) as H1.
    { unfold port1. destruct ((port0 =? 0) && negb ephemeral && negb (taken base)) eqn:Ew; [|intros [? ?]%H0; auto]. intros _. bool_to_prop. subst ephemeral. auto. }
    unfold port in *. destruct (Z.eqb_spec port1 0); [|by apply H1].
    destruct (allocate_spec taken (pv_Reserved env)) as [A _]. destruct (A Hne). auto. }
  destruct Hport as [Ht Hp]. destruct (assign k port ephemeral p1) as [p2 e] eqn:Eas.
  assert (1 ≤ port ≤ MaxPort) as Hr.
  { destruct Hp as [Hp|Hp]; [|by eapply handable_range]. destruct ephemeral; [done|]. injection Hp as <-. by apply Hbase. }
  apply assign_spec in Eas as (Hok2 & Hl2 & Hv2 & Hd2 & Hep & Hee & Het); try done; try (by rewrite Hv).
  assert (given (pv_Reserved env) k (if ephemeral then None else Some base) ephemeral (view p) (view p2) e) as Hg.
  { right. rewrite Hv2, Hv, Hep. done. }
  injection E as <- <-. destruct ephemeral; [done|].
  destruct (save_spec env p2 Hok2 Hl2) as (S1 & S2 & _ & S3). unfold synced. rewrite S2. split; [done|]. split; [done|]. by intros _ Hw _; apply S3.
Qed.

Lemma entryOf_spec env k p p1 r :
  entryOf env k p = (p1, r) → ports_ok p →
  ports_ok p1 ∧ view p1 = view p ∧ po_disk p1 = po_disk p ∧ (∀ o, r = Ok o → o = view p !! k ∧ po_loaded p1 = true) ∧
  (∀ e, r = Err e → e = RecordUnreadable).
Proof.
  unfold entryOf. destruct (load env p) as [p'|e] eqn:El; intros [= <- <-] Hok; [|apply load_error in El as ->; split_and!; try done; by intros e [= <-]].
  apply load_spec in El as (Hok1 & Hl & Ha & Hn & Hd); [|done]. split_and!; [done|by unfold view at 1; rewrite Hl|done| |done].
  intros o [= <-]. by rewrite Ha.
Qed.

Lemma For_spec env account uid client p p' r :
  For M env account uid client p = (p', r) → ports_ok p → plainText account → plainText client →
  ports_ok p' ∧
  match r with
  | Ok port =>
      (client = ""%string ∧ PortForUID M uid = Ok port ∧ p' = p) ∨
      ∃ base e, PortForUID M uid = Ok base ∧ port = en_port e ∧
        given (pv_Reserved env) (account, client) (Some base) false (view p) (view p') e
  | Err er => view p' = view p ∧ (er = NoPortLeft → exhausted (pv_Reserved env) (view p))
  end.
Proof.
  unfold For. intros E Hok Ha Hc. destruct (PortForUID M uid) as [base|] eqn:Eb; [|injection E as <- <-; by split].
  case_bool_decide; [injection E as <- <-; auto|]. destruct (entryOf _ _ _) as [p1 r1] eqn:Ee.
  apply entryOf_spec in Ee as (Hok1 & Hv1 & _ & Hr1 & He1); [|done].
  destruct r1 as [[e|]|er]; [| |injection E as <- <-; rewrite (He1 _ eq_refl); by split].
  - injection E as <- <-. split; [done|]. right. exists base, e. split_and!; try done. left. by destruct (Hr1 _ eq_refl) as [-> _].
  - destruct (pv_Preferred env) as [want|]; [|injection E as <- <-; by split].
    destruct (decidePort _ _ _ _ _ _ _) as [p2 r2] eqn:Ed. injection E as <- <-.
    apply PortForUID_Ok in Eb as (Hv & Hu & Hbase & Hmax).
    eapply decidePort_spec in Ed as [Hok2 Hg]; [|done|by split|intros _; pose proof (Validate_ok _ valid); lia].
    split; [done|]. destruct r2 as [e|er]; [|by rewrite Hv1 in Hg]. destruct Hg as [Hg _]. right. rewrite Hv1 in Hg. exists base, e. done.
Qed.

Lemma ForRun_spec env account client p p' r :
  ForRun M env account client p = (p', r) → ports_ok p → plainText account → plainText client →
  ports_ok p' ∧
  match r with
  | Ok (port, token) => ∃ e, port = en_port e ∧ token = en_token e ∧
      given (pv_Reserved env) (account, client) None true (view p) (view p') e
  | Err er => view p' = view p ∧ (er = NoPortLeft → exhausted (pv_Reserved env) (view p))
  end.
Proof.
  unfold ForRun. intros E Hok Ha Hc. destruct (entryOf _ _ _) as [p1 r1] eqn:Ee.
  apply entryOf_spec in Ee as (Hok1 & Hv1 & _ & Hr1 & He1); [|done].
  destruct r1 as [[e|]|er]; [| |injection E as <- <-; rewrite (He1 _ eq_refl); by split].
  - injection E as <- <-. split; [done|]. exists e. split_and!; try done. left. by destruct (Hr1 _ eq_refl) as [-> _].
  - destruct (pv_Preferred env) as [want|]; [|injection E as <- <-; by split].
    destruct (decidePort _ _ _ _ _ _ _) as [p2 r2] eqn:Ed. injection E as <- <-.
    eapply decidePort_spec in Ed as [Hok2 Hg]; [|done|by split|done].
    split; [done|]. destruct r2 as [e|er]; [|by rewrite Hv1 in Hg]. destruct Hg as [Hg _]. rewrite Hv1 in Hg. exists e. done.
Qed.

Lemma Hold_spec env account client port p p' r :
  Hold M env account client port p = (p', r) → ports_ok p → plainText account → plainText client →
  ports_ok p' ∧
  match r with
  | Some token => ∃ e, port = en_port e ∧ token = en_token e ∧ en_ephemeral e = true ∧
      given (pv_Reserved env) (account, client) None true (view p) (view p') e
  | None => view p' = view p
  end.
Proof.
  unfold Hold. intros E Hok Ha Hc. destruct (load env p) as [p1|er] eqn:El; [|by injection E as <- <-].
  apply load_spec in El as (Hok1 & Hl & Has & Hn & Hd); [|done].
  assert (view p1 = view p) as Hv by (unfold view at 1; rewrite Hl; done).
  rewrite Has in E. destruct (view p !! (account, client)) as [e|] eqn:Ek.
  - injection E as <- <-. split; [done|]. destruct (en_ephemeral e && _) eqn:Ee; [|done]. bool_to_prop.
    exists e. split_and!; try done. left. by rewrite Hv.
  - destruct (takenIn (view p) port) eqn:Et; [injection E as <- <-; by split|].
    destruct (free M (pv_Reserved env) port) eqn:Ef; [|injection E as <- <-; by split].
    destruct (assign _ _ _ _) as [p2 e] eqn:Eas. injection E as <- <-. apply free_true in Ef.
    apply assign_spec in Eas as (Hok2 & Hl2 & Hv2 & Hd2 & Hep & Hee & Het); try done; try (by rewrite Hv); [|by eapply handable_range].
    split; [done|]. exists e. split_and!; try done. right. rewrite Hv2, Hv, Hep. split_and!; try done. by right.
Qed.

End operations.

Lemma Free_spec account client token p p' b :
  Free account client token p = (p', b) → ports_ok p →
  ports_ok p' ∧
  if b then ∃ e, view p !! (account, client) = Some e ∧ en_ephemeral e = true ∧ en_token e = token ∧
                 view p' = delete (account, client) (view p)
  else p' = p.
Proof.
  unfold Free. intros E Hok. destruct (po_assigned p !! (account, client)) as [e|] eqn:Ek; [|by injection E as <- <-].
  destruct (en_ephemeral e && negb (token =? 0) && (en_token e =? token)) eqn:Ec; [|by injection E as <- <-].
  injection E as <- <-. bool_to_prop.
  assert (po_loaded p = true) as Hl.
  { destruct (po_loaded p) eqn:E; [done|]. rewrite (pk_unloaded _ Hok E) in Ek. done. }
  destruct Hok as [K1 K2 K3 K4]. unfold view in *. rewrite Hl in *. cbn [po_loaded po_assigned]. rewrite ?Hl. split; [|by exists e].
  split; unfold view; cbn [po_loaded po_assigned po_next po_disk]; rewrite ?Hl; try done. eapply assigned_ok_sub; [apply delete_subseteq|done].
Qed.

Lemma Forget_spec env account p :
  ports_ok p →
  ports_ok (Forget env account p) ∧
  ∀ k e, view (Forget env account p) !! k = Some e → view p !! k = Some e.
Proof.
  intros Hok. unfold Forget. destruct (load env p) as [p1|er] eqn:El; [|done].
  apply load_spec in El as (Hok1 & Hl & Has & Hn & Hd); [|done].
  assert (view p1 = view p) as Hv by (unfold view at 1; rewrite Hl; done).
  case_bool_decide; [by rewrite Hv|]. set (kept := filter _ (po_assigned p1)).
  set (p2 := {| po_loaded := po_loaded p1; po_assigned := kept; po_next := po_next p1; po_disk := po_disk p1 |}).
  assert (kept ⊆ view p1) as Hs by (unfold view; rewrite Hl; apply map_filter_subseteq).
  assert (view p2 = kept) as Hv2 by (unfold view, p2; simpl; by rewrite Hl).
  assert (ports_ok p2) as Hok2.
  { destruct Hok1 as [H1 H2 H3 H4]. split; [|done|done|simpl; by rewrite Hl]. rewrite Hv2. by eapply assigned_ok_sub. }
  destruct (save_spec env p2 Hok2) as (S1 & S2 & _); [done|]. split; [done|]. intros k e. rewrite S2, Hv2, <- Hv. intros Hk. by eapply lookup_weaken.
Qed.

(** Only machines of the account are forgotten. *)
Lemma Forget_keeps env account p k e :
  ports_ok p → view p !! k = Some e → k.1 ≠ account ∨ en_ephemeral e = true → view (Forget env account p) !! k = Some e.
Proof.
  intros Hok Hk Hkeep. unfold Forget. destruct (load env p) as [p1|er] eqn:El; [|done].
  apply load_spec in El as (Hok1 & Hl & Has & Hn & Hd); [|done].
  case_bool_decide; [unfold view; rewrite Hl; by rewrite Has|]. set (kept := filter _ (po_assigned p1)).
  set (p2 := {| po_loaded := po_loaded p1; po_assigned := kept; po_next := po_next p1; po_disk := po_disk p1 |}).
  assert (view p2 = kept) as Hv2 by (unfold view, p2; simpl; by rewrite Hl).
  assert (kept !! k = Some e) as Hkept.
  { apply map_lookup_filter_Some. split; [by rewrite Has|]. intros [H1 H2]. simpl in *. destruct Hkeep; congruence. }
  unfold save. destruct (pv_writable env); [|by rewrite Hv2]. unfold view, p2. simpl. by rewrite Hl.
Qed.

Lemma restart_ok p : ports_ok p → ports_ok (restart p).
Proof. intros [H1 H2 H3 H4]. by split. Qed.

(** ** The life of the allocator *)

Section life.
Context (M : Mapping) (valid : Validate M = None).

Inductive port_step (p : Ports) : Ports → Prop :=
| port_for env account uid client :
    plainText account → plainText client → port_step p (fst (For M env account uid client p))
| port_run env account client :
    plainText account → plainText client → port_step p (fst (ForRun M env account client p))
| port_hold env account client port :
    plainText account → plainText client → port_step p (fst (Hold M env account client port p))
| port_free account client token : port_step p (fst (Free account client token p))
| port_forget env account : port_step p (Forget env account p)
| port_owns env account uid port : port_step p (fst (Owns M env account uid port p))
| port_restart : port_step p (restart p).

(** From a record that gives no port to two machines. *)
Definition freshPorts (disk : option string) : Ports :=
  {| po_loaded := false; po_assigned := ∅; po_next := 0; po_disk := disk |}.

Definition ports_reachable (p : Ports) : Prop :=
  ∃ disk, assigned_ok (parseRecord disk) 0 ∧ rtc port_step (freshPorts disk) p.

Lemma Owns_view env account uid port p :
  ports_ok p → ports_ok (fst (Owns M env account uid port p)) ∧ view (fst (Owns M env account uid port p)) = view p.
Proof.
  intros Hok. unfold Owns. destruct (load env p) as [p1|e] eqn:El; [|done].
  apply load_spec in El as (Hok1 & Hl & Ha & _); [|done]. split; [done|]. simpl. unfold view at 1. by rewrite Hl.
Qed.

Lemma port_step_ok p p' : ports_ok p → port_step p p' → ports_ok p'.
Proof.
  intros Hok Hs. destruct Hs as [env a u c Ha Hc|env a c Ha Hc|env a c port Ha Hc|a c tok|env a|env a u port|].
  - destruct (For M env a u c p) as [p' r] eqn:E. by eapply For_spec in E as [? _].
  - destruct (ForRun M env a c p) as [p' r] eqn:E. by eapply ForRun_spec in E as [? _].
  - destruct (Hold M env a c port p) as [p' r] eqn:E. by eapply Hold_spec in E as [? _].
  - destruct (Free a c tok p) as [p' b] eqn:E. by eapply Free_spec in E as [? _].
  - by apply Forget_spec.
  - by apply Owns_view.
  - by apply restart_ok.
Qed.

Lemma ports_reachable_ok p : ports_reachable p → ports_ok p.
Proof.
  intros (disk & Hd & Hr). assert (ports_ok (freshPorts disk)) as H0 by by split.
  clear Hd. induction Hr as [|? ? ? Hs Hr IH]; [done|]. apply IH. by eapply port_step_ok.
Qed.

(** C10 (invariant). No port serves two machines: whatever the agent has been through
    (machines and runs asking for ports, runs given theirs back or ended, accounts
    purged, restarts), two machines or runs never have one port, every port is one
    a tunnel can bind, and a token names at most one run. *)
Theorem ports_never_shared p :
  ports_reachable p →
  (∀ k1 k2 e1 e2, view p !! k1 = Some e1 → view p !! k2 = Some e2 → en_port e1 = en_port e2 → k1 = k2) ∧
  (∀ k e, view p !! k = Some e → 1 ≤ en_port e ≤ MaxPort) ∧
  (∀ k1 k2 e1 e2, view p !! k1 = Some e1 → view p !! k2 = Some e2 →
     en_ephemeral e1 = true → en_token e1 = en_token e2 → k1 = k2).
Proof.
  intros Hok%ports_reachable_ok. destruct (pk_view _ Hok) as [H1 H2 H3 H4]. split_and!; [done|by apply H2|].
  intros k1 k2 e1 e2 Hk1 Hk2 He Ht. eapply H4; eauto. by apply (H3 k1 e1).
Qed.

(** A port is given only while nobody has it: a machine the record does
    not know gets its account's own port or one no existing account derives, a
    run always one no existing account derives, and a call that fails for want of
    a port fails because every port of the range is taken or somebody's own. *)
Theorem given_port_is_free env account uid client p :
  ports_reachable p → plainText account → plainText client → client ≠ ""%string → view p !! (account, client) = None →
  (∀ p' port, For M env account uid client p = (p', Ok port) →
     takenIn (view p) port = false ∧ (PortForUID M uid = Ok port ∨ handable M (pv_Reserved env) port)) ∧
  (∀ p' port token, ForRun M env account client p = (p', Ok (port, token)) →
     takenIn (view p) port = false ∧ handable M (pv_Reserved env) port) ∧
  (snd (For M env account uid client p) = Err NoPortLeft ∨ snd (ForRun M env account client p) = Err NoPortLeft →
     exhausted M (pv_Reserved env) (view p)).
Proof.
  intros Hok%ports_reachable_ok Ha Hc Hne Hn. split_and!.
  - intros p' port E. eapply For_spec in E as [_ [(? & _)|(base & e & Hb & -> & [[? _]|(_ & _ & _ & _ & Ht & Hp)])]]; try done; [congruence|].
    split; [done|]. destruct Hp as [[= ->]|?]; auto.
  - intros p' port token E. eapply ForRun_spec in E as (_ & e & -> & -> & [[? _]|(_ & _ & _ & _ & Ht & [?|Hp])]); try done; congruence.
  - intros [E|E].
    + destruct (For M env account uid client p) as [p' r] eqn:Ef. simpl in E. subst r. eapply For_spec in Ef as (_ & _ & H); try done. by apply H.
    + destruct (ForRun M env account client p) as [p' r] eqn:Ef. simpl in E. subst r. eapply ForRun_spec in Ef as (_ & _ & H); try done. by apply H.
Qed.

Lemma Owns_true env account uid port p :
  ports_ok p → snd (Owns M env account uid port p) = true →
  (∃ k e, view p !! k = Some e ∧ en_port e = port ∧ k.1 = account) ∨
  (takenIn (view p) port = false ∧ PortForUID M uid = Ok port).
Proof.
  intros Hok. unfold Owns. destruct (load env p) as [p1|er] eqn:El; [|done].
  apply load_spec in El as (_ & _ & Ha & _); [|done]. rewrite Ha. simpl.
  destruct (filter _ _) as [|[k e] l] eqn:Ef.
  - intros Hb. right. split.
    + apply takenIn_false. intros k e Hk Hp.
      assert ((k, e) ∈ filter (λ kv : assignment * entry, en_port kv.2 = port) (map_to_list (view p))) as Hin.
      { apply list_elem_of_filter. split; [done|]. by apply elem_of_map_to_list. }
      rewrite Ef in Hin. by apply elem_of_nil in Hin.
    + destruct (PortForUID M uid); [|done]. apply Z.eqb_eq in Hb. by subst.
  - intros Hacc%bool_decide_eq_true_1. left. exists k, e.
    assert ((k, e) ∈ filter (λ kv : assignment * entry, en_port kv.2 = port) (map_to_list (view p))) as Hin by (rewrite Ef; left).
    apply list_elem_of_filter in Hin as [Hp Hin%elem_of_map_to_list]. done.
Qed.

(** At most one account may forward a port: asked about one port in any
    reachable state, the allocator never says yes to two accounts, whose uids
    differ; a port given to somebody's machine is no longer the account's that
    derives it. *)
Theorem owns_exclusive env1 env2 p port account1 account2 uid1 uid2 :
  ports_reachable p → account1 ≠ account2 → uid1 ≠ uid2 →
  snd (Owns M env1 account1 uid1 port p) = true → snd (Owns M env2 account2 uid2 port p) = false.
Proof.
  intros Hok%ports_reachable_ok Hne Hu H1. apply not_true_iff_false. intros H2.
  apply Owns_true in H1 as [(k1 & e1 & Hk1 & Hp1 & Ha1)|[Ht1 Hb1]], H2 as [(k2 & e2 & Hk2 & Hp2 & Ha2)|[Ht2 Hb2]]; try done.
  - assert (k1 = k2); [|congruence]. eapply (ao_inj _ _ (pk_view _ Hok)); eauto. congruence.
  - by destruct (proj1 (takenIn_false _ _) Ht2 k1 e1 Hk1).
  - by destruct (proj1 (takenIn_false _ _) Ht1 k2 e2 Hk2).
  - apply PortForUID_Ok in Hb1 as (_ & _ & ? & _), Hb2 as (_ & _ & ? & _). lia.
Qed.

(** ** A machine keeps its port *)

Lemma For_synced env account uid client p p' port :
  For M env account uid client p = (p', Ok port) → ports_ok p → plainText account → plainText client →
  pv_writable env = true → synced p → synced p'.
Proof.
  unfold For. intros E Hok Ha Hc Hw Hs. destruct (PortForUID M uid) as [base|] eqn:Eb; [|done].
  case_bool_decide; [by injection E as <- <-|]. destruct (entryOf _ _ _) as [p1 r1] eqn:Ee.
  apply entryOf_spec in Ee as (Hok1 & Hv1 & Hd1 & Hr1 & _); [|done].
  assert (synced p1) as Hs1 by (unfold synced; by rewrite Hd1, Hv1).
  destruct r1 as [[e|]|er]; [by injection E as <- <-| |done].
  destruct (Hr1 _ eq_refl) as [Hnone _]. destruct (pv_Preferred env) as [want|]; [|done].
  destruct (decidePort _ _ _ _ _ _ _) as [p2 r2] eqn:Ed. injection E as <- Er. destruct r2 as [e|]; [|done].
  apply PortForUID_Ok in Eb as (Hv & Hu & Hbase & Hmax).
  eapply decidePort_spec in Ed as (_ & _ & Hsync); [|done..|by split|intros _; pose proof (Validate_ok _ valid); lia].
  apply Hsync; [done|done|by rewrite Hv1].
Qed.

(** A machine keeps its port: once [For] has given one and the record
    could be written, an agent restarted on that record gives the same machine the
    same port, whatever [Preferred] and [Reserved] answer then, and the record
    stays in step with what the allocator knows. *)
Theorem machine_keeps_port env env' account uid uid' client p p' port base' :
  ports_reachable p → synced p → plainText account → plainText client → client ≠ ""%string →
  (∀ e, view p !! (account, client) = Some e → en_ephemeral e = false) →
  pv_writable env = true → pv_readable env' = true → PortForUID M uid' = Ok base' →
  For M env account uid client p = (p', Ok port) →
  synced p' ∧ snd (For M env' account uid' client (restart p')) = Ok port.
Proof.
  intros Hok%ports_reachable_ok Hs Ha Hc Hne Hdur Hw Hr Hb' E.
  assert (synced p') as Hs' by by eapply For_synced. split; [done|].
  eapply For_spec in E as (Hok' & [(? & _)|(base & e & Hb & -> & Hg)]); try done.
  assert (view p' !! (account, client) = Some e ∧ en_ephemeral e = false) as [Hk He].
  { destruct Hg as [[Hk ->]|(_ & -> & He & _)]; [by split; [|apply Hdur]|]. by rewrite lookup_insert_eq. }
  unfold For. rewrite Hb', bool_decide_eq_false_2 by done. unfold entryOf, load, restart. cbn [po_loaded]. rewrite Hr. cbn [negb].
  cbn [po_assigned po_disk]. unfold synced in Hs'. rewrite Hs', lookup_fmap.
  assert (durable (view p') !! (account, client) = Some e) as -> by (by apply map_lookup_filter_Some). done.
Qed.

End life.
