(* ===== verification/TunnelPolicy.v ===== *)
(** * Who may bind and reach a tunnel's port (agent/internal/sshd: forward.go,
    forward_tcpip.go, hostgateway.go; core-agent/tunnelserver/forward.go)

    A client's file server reaches the workspace as a listener on a loopback port,
    and answers whoever can connect to it.  The policy decides which port an account
    may bind and which it may dial; the machinery keeps its listeners.  Each hold of
    a mutex is one definition; the connections, with the goroutines that end a
    forward, are steps.  Whether a listener can be bound, the allocator's answers,
    [netip.ParseAddr] and docker's are arguments.  A token is a number that grows; the
    2^64 that would let one return are not reached. *)
From Stdlib Require Import Ascii.
From S2P Require Import Prelude GoStrings Records AccountPorts.

Open Scope Z_scope.

(** ** forward.go *)

(** [net.JoinHostPort]. *)
Definition JoinHostPort (host port : string) : string :=
  if strings.Contains host ":" || strings.Contains host "%" then "[" +:+ host +:+ "]:" +:+ port else host +:+ ":" +:+ port.

Definition isLoopback (host : string) : bool := bool_decide (host ∈ ["127.0.0.1"; "::1"; "localhost"]%string).

Definition reservationKey (host : string) (port : Z) : string := JoinHostPort (if isLoopback host then "loopback" else host) (Itoa port).

Record reservation := {
  rs_account : string;
  rs_token : Z
}.

Record ForwardPolicy := {
  fp_next : Z;
  fp_bound : gmap string reservation
}.
Definition NewForwardPolicy : ForwardPolicy := {| fp_next := 0; fp_bound := ∅ |}.

(** What of a [sessionAccount] a forward is decided on. *)
Record forwardAccount := {
  fa_name : string;
  fa_uid : Z;
  fa_client : string;
  fa_ephemeral : bool
}.

Inductive refusal := NotLoopback | NoPort | NotItsPort (want : Z) | HeldByAnother | OthersServer.

Section policy.
(** [Ports.Owns], where there is an allocator. *)
Context (M : Mapping) (Ports_Owns : option (string → Z → Z → bool)).

Definition owns (a : forwardAccount) (port : Z) : bool :=
  match Ports_Owns with
  | Some f => f (fa_name a) (fa_uid a) port
  | None => match PortForUID M (fa_uid a) with Ok want => port =? want | Err _ => false end
  end.

Definition Allow (a : forwardAccount) (host : string) (port : Z) (p : ForwardPolicy) : res refusal unit :=
  if negb (isLoopback host) then Err NotLoopback
  else if negb (owns a port) then Err (match PortForUID M (fa_uid a) with Ok want => NotItsPort want | Err _ => NoPort end)
  else match fp_bound p !! reservationKey host port with
       | Some r => if bool_decide (rs_account r = fa_name a) then Ok tt else Err HeldByAnother
       | None => Ok tt
       end.

End policy.

Definition Holder (host : string) (port : Z) (p : ForwardPolicy) : option string := rs_account <$> fp_bound p !! reservationKey host port.

Definition AllowDial (a : forwardAccount) (host : string) (port : Z) (p : ForwardPolicy) : res refusal unit :=
  if negb (isLoopback host) then Err NotLoopback
  else match Holder host port p with
       | Some holder => if bool_decide (holder = fa_name a) then Ok tt else Err OthersServer
       | None => Ok tt
       end.

Definition Bind (a : forwardAccount) (host : string) (port : Z) (p : ForwardPolicy) : option (Z * ForwardPolicy) :=
  match fp_bound p !! reservationKey host port with
  | Some _ => None
  | None =>
      let token := fp_next p + 1 in
      Some (token, {| fp_next := token; fp_bound := <[reservationKey host port := {| rs_account := fa_name a; rs_token := token |}]> (fp_bound p) |})
  end.

Definition Release (token : Z) (host : string) (port : Z) (p : ForwardPolicy) : ForwardPolicy :=
  match fp_bound p !! reservationKey host port with
  | Some r => if rs_token r =? token then {| fp_next := fp_next p; fp_bound := delete (reservationKey host port) (fp_bound p) |} else p
  | None => p
  end.

(** ** hostgateway.go and forward_tcpip.go *)

(** [netip.ParseAddr]: whether it is a loopback address, or unspecified, or an IPv4
    one, and its text. *)
Record addr := {
  ad_loopback : bool;
  ad_unspecified : bool;
  ad_is4 : bool;
  ad_text : string
}.

Section gateway.
Context (ParseAddr : string → option addr).

Definition usable4 (line : string) : option string :=
  match ParseAddr (strings.TrimSpace line) with
  | Some ip => if ad_is4 ip && negb (ad_unspecified ip) && negb (ad_loopback ip) then Some (ad_text ip) else None
  | None => None
  end.
Definition firstIPv4 (out : string) : string := default ""%string (head (omap usable4 (strings.Split out (ascii_of_nat 10)))).

(** [allowHostForward]; [bridge] is what the daemon's gateway query printed, where the
    account has a daemon and it answered.  [None] is not handled. *)
Definition allowHostForward (bridge : option string) (host : string) (port : Z) : option bool :=
  match ParseAddr host, bridge with
  | Some ip, Some out =>
      if ad_loopback ip || ad_unspecified ip then None
      else if bool_decide (firstIPv4 out = "") || negb (bool_decide (ad_text ip = firstIPv4 out)) then None
      else Some (negb ((port =? 0) || (65535 <? port)))
  | _, _ => None
  end.

(** [runPort]; [got] is what [Runs.Port] answered. *)
Definition runPort (got : option Z) (asked : Z) : option Z :=
  match got with Some port => if negb (asked =? 0) && negb (asked =? port) then None else Some port | None => None end.

(** [reversePolicy.Allow] up to its [Bind]: refused, a host forward, or the port to
    reserve. *)
Inductive decision := Refuse | HostForward (port : Z) | Reserve (port : Z).

Definition decideReverse (M : Mapping) (Ports_Owns : option (string → Z → Z → bool)) (account : option forwardAccount) (bridge : option string) (got : option Z)
    (host : string) (port : Z) (p : ForwardPolicy) : decision :=
  match account with
  | None => Refuse
  | Some a =>
      if bool_decide (fa_client a = "") then Refuse
      else match allowHostForward bridge host port with
           | Some ok => if ok then HostForward port else Refuse
           | None =>
               match (if fa_ephemeral a then runPort got port else Some port) with
               | None => Refuse
               | Some port => match Allow M Ports_Owns a host port p with Ok _ => Reserve port | Err _ => Refuse end
               end
           end
  end.

End gateway.

(** ** tunnelserver/forward.go *)

Record listening := {
  ls_conn : nat;
  ls_host : string;
  ls_port : Z;
  ls_open : bool
}.

(** Where the goroutine of a forward is: permitted, reserved, listening, serving, its
    loop ended, its listener dropped. *)
Inductive stage := Permitted | Reserved | Listens (ln : nat) | Serves (ln : nat) | LoopEnded (ln : nat) | ListenerGone (ln : nat).

Record forward := {
  fo_conn : nat;
  fo_host : string;
  fo_port : Z;
  fo_token : Z;
  fo_at : stage
}.

Record tunnelWorld := {
  tw_policy : ForwardPolicy;
  tw_conns : gmap nat (forwardAccount * bool);
  tw_tasks : gmap nat forward;
  tw_forwards : gmap (nat * string) nat;
  tw_listeners : gmap nat listening;
  tw_dials : list (forwardAccount * string * Z)
}.

Definition set_policy (p : ForwardPolicy) (w : tunnelWorld) : tunnelWorld :=
  {| tw_policy := p; tw_conns := tw_conns w; tw_tasks := tw_tasks w; tw_forwards := tw_forwards w; tw_listeners := tw_listeners w; tw_dials := tw_dials w |}.
Definition set_conns (c : gmap nat (forwardAccount * bool)) (w : tunnelWorld) : tunnelWorld :=
  {| tw_policy := tw_policy w; tw_conns := c; tw_tasks := tw_tasks w; tw_forwards := tw_forwards w; tw_listeners := tw_listeners w; tw_dials := tw_dials w |}.
Definition set_tasks (t : gmap nat forward) (w : tunnelWorld) : tunnelWorld :=
  {| tw_policy := tw_policy w; tw_conns := tw_conns w; tw_tasks := t; tw_forwards := tw_forwards w; tw_listeners := tw_listeners w; tw_dials := tw_dials w |}.
Definition set_listeners (f : gmap (nat * string) nat) (l : gmap nat listening) (w : tunnelWorld) : tunnelWorld :=
  {| tw_policy := tw_policy w; tw_conns := tw_conns w; tw_tasks := tw_tasks w; tw_forwards := f; tw_listeners := l; tw_dials := tw_dials w |}.
Definition set_dials (d : list (forwardAccount * string * Z)) (w : tunnelWorld) : tunnelWorld :=
  {| tw_policy := tw_policy w; tw_conns := tw_conns w; tw_tasks := tw_tasks w; tw_forwards := tw_forwards w; tw_listeners := tw_listeners w; tw_dials := d |}.

(** [forwardKey] and the address it holds. *)
Definition forwardAddr (host : string) (port : Z) : string := JoinHostPort host (Itoa port).
Definition forwardKey (conn : nat) (host : string) (port : Z) : nat * string := (conn, forwardAddr host port).

Definition closed (s : listening) : listening := {| ls_conn := ls_conn s; ls_host := ls_host s; ls_port := ls_port s; ls_open := false |}.
Definition closeListener (ln : nat) (w : tunnelWorld) : tunnelWorld := set_listeners (tw_forwards w) (alter closed ln (tw_listeners w)) w.

(** [Forwards.close], of a cancel. *)
Definition closeForward (k : nat * string) (w : tunnelWorld) : tunnelWorld :=
  match tw_forwards w !! k with Some ln => closeListener ln w | None => w end.

(** [drop]. *)
Definition drop (k : nat * string) (ln : nat) (w : tunnelWorld) : tunnelWorld :=
  closeListener ln (if bool_decide (tw_forwards w !! k = Some ln) then set_listeners (delete k (tw_forwards w)) (tw_listeners w) w else w).

Definition at_stage (s : stage) (f : forward) : forward :=
  {| fo_conn := fo_conn f; fo_host := fo_host f; fo_port := fo_port f; fo_token := fo_token f; fo_at := s |}.
Definition with_token (t : Z) (f : forward) : forward :=
  {| fo_conn := fo_conn f; fo_host := fo_host f; fo_port := fo_port f; fo_token := t; fo_at := Reserved |}.
Definition put_task (i : nat) (f : forward) (w : tunnelWorld) : tunnelWorld := set_tasks (<[i := f]> (tw_tasks w)) w.
Definition end_task (i : nat) (w : tunnelWorld) : tunnelWorld := set_tasks (delete i (tw_tasks w)) w.
Definition release (f : forward) (w : tunnelWorld) : tunnelWorld := set_policy (Release (fo_token f) (fo_host f) (fo_port f) (tw_policy w)) w.

Section steps.
Context (ParseAddr : string → option addr) (M : Mapping).

Inductive tunnel_step (w : tunnelWorld) : tunnelWorld → Prop :=
| tn_connect c a : tw_conns w !! c = None → tunnel_step w (set_conns (<[c := (a, false)]> (tw_conns w)) w)
| tn_done c a : tw_conns w !! c = Some (a, false) → tunnel_step w (set_conns (<[c := (a, true)]> (tw_conns w)) w)
| tn_permit i c a d Ports_Owns bridge got host asked port : tw_conns w !! c = Some (a, d) → tw_tasks w !! i = None →
    decideReverse ParseAddr M Ports_Owns (Some a) bridge got host asked (tw_policy w) = Reserve port →
    tunnel_step w (put_task i {| fo_conn := c; fo_host := host; fo_port := port; fo_token := 0; fo_at := Permitted |} w)
| tn_host i c a d Ports_Owns bridge got host asked port : tw_conns w !! c = Some (a, d) → tw_tasks w !! i = None →
    decideReverse ParseAddr M Ports_Owns (Some a) bridge got host asked (tw_policy w) = HostForward port →
    tunnel_step w (put_task i {| fo_conn := c; fo_host := host; fo_port := port; fo_token := 0; fo_at := Reserved |} w)
| tn_bind i f a d token p : tw_tasks w !! i = Some f → fo_at f = Permitted → tw_conns w !! fo_conn f = Some (a, d) →
    Bind a (fo_host f) (fo_port f) (tw_policy w) = Some (token, p) → tunnel_step w (put_task i (with_token token f) (set_policy p w))
| tn_refused i f a d : tw_tasks w !! i = Some f → fo_at f = Permitted → tw_conns w !! fo_conn f = Some (a, d) →
    Bind a (fo_host f) (fo_port f) (tw_policy w) = None → tunnel_step w (end_task i w)
| tn_listen i f ln : tw_tasks w !! i = Some f → fo_at f = Reserved → tw_listeners w !! ln = None →
    tunnel_step w (put_task i (at_stage (Listens ln) f)
      (set_listeners (tw_forwards w) (<[ln := {| ls_conn := fo_conn f; ls_host := fo_host f; ls_port := fo_port f; ls_open := true |}]> (tw_listeners w)) w))
| tn_nolisten i f : tw_tasks w !! i = Some f → fo_at f = Reserved → tunnel_step w (end_task i (release f w))
| tn_register i f ln : tw_tasks w !! i = Some f → fo_at f = Listens ln →
    tunnel_step w (put_task i (at_stage (Serves ln) f) (set_listeners (<[forwardKey (fo_conn f) (fo_host f) (fo_port f) := ln]> (tw_forwards w)) (tw_listeners w) w))
| tn_cancel c a host port : tw_conns w !! c = Some (a, false) → tunnel_step w (closeForward (forwardKey c host port) w)
| tn_loopEnds i f ln : tw_tasks w !! i = Some f → fo_at f = Serves ln → tunnel_step w (put_task i (at_stage (LoopEnded ln) f) w)
| tn_drop i f ln : tw_tasks w !! i = Some f → fo_at f = LoopEnded ln →
    tunnel_step w (put_task i (at_stage (ListenerGone ln) f) (drop (forwardKey (fo_conn f) (fo_host f) (fo_port f)) ln w))
| tn_release i f ln : tw_tasks w !! i = Some f → fo_at f = ListenerGone ln → tunnel_step w (end_task i (release f w))
(** The goroutines that wait for the connection to end. *)
| tn_doneRelease i f a : tw_tasks w !! i = Some f → fo_at f ≠ Permitted → tw_conns w !! fo_conn f = Some (a, true) → tunnel_step w (release f w)
| tn_doneDrop i f a ln : tw_tasks w !! i = Some f → fo_at f = Serves ln ∨ fo_at f = LoopEnded ln → tw_conns w !! fo_conn f = Some (a, true) →
    tunnel_step w (drop (forwardKey (fo_conn f) (fo_host f) (fo_port f)) ln w)
(** [localPolicy]: the question, and the dial behind it. *)
| tn_mayDial c a d host port : tw_conns w !! c = Some (a, d) → AllowDial a host port (tw_policy w) = Ok tt → tunnel_step w (set_dials ((a, host, port) :: tw_dials w) w)
| tn_dialled d1 x d2 : tw_dials w = d1 ++ x :: d2 → tunnel_step w (set_dials (d1 ++ d2) w).

Definition noTunnels : tunnelWorld :=
  {| tw_policy := NewForwardPolicy; tw_conns := ∅; tw_tasks := ∅; tw_forwards := ∅; tw_listeners := ∅; tw_dials := [] |}.
Definition tunnel_reachable (w : tunnelWorld) : Prop := rtc tunnel_step noTunnels w.

End steps.

(** * A tunnel is reached by its account alone *)

(** ** Reservations *)

Lemma Release_sub token host port p k r : fp_bound (Release token host port p) !! k = Some r → fp_bound p !! k = Some r.
Proof. unfold Release. destruct (fp_bound p !! reservationKey host port) as [r0|]; [|done]. destruct (_ =? _); [|done]. cbn. by intros [_ ?]%lookup_delete_Some. Qed.

Lemma Release_others token host port p k r : fp_bound p !! k = Some r → rs_token r ≠ token → fp_bound (Release token host port p) !! k = Some r.
Proof.
  intros Hk Hr. unfold Release. destruct (fp_bound p !! reservationKey host port) as [r0|] eqn:E; [|done]. destruct (Z.eqb_spec (rs_token r0) token); [|done]. cbn.
  rewrite lookup_delete_ne; [done|]. intros <-. congruence.
Qed.

Lemma Release_next token host port p : fp_next (Release token host port p) = fp_next p.
Proof. unfold Release. destruct (_ !! _) as [r|]; [|done]. by destruct (_ =? _). Qed.

Lemma Bind_spec a host port p token p' : Bind a host port p = Some (token, p') →
  fp_bound p !! reservationKey host port = None ∧ token = fp_next p + 1 ∧ fp_next p' = token ∧
  fp_bound p' = <[reservationKey host port := {| rs_account := fa_name a; rs_token := token |}]> (fp_bound p).
Proof. unfold Bind. destruct (_ !! _); [done|]. by intros [= <- <-]. Qed.

Lemma loopback_key host host' port : isLoopback host = true → isLoopback host' = true → reservationKey host port = reservationKey host' port.
Proof. unfold reservationKey. by intros -> ->. Qed.

(** ** The invariant *)

(** The forward that a listener belongs to. *)
Definition serving (ln : nat) (f : forward) : Prop := fo_at f = Listens ln ∨ fo_at f = Serves ln ∨ fo_at f = LoopEnded ln.

Record tunnels_ok (w : tunnelWorld) : Prop := {
  to_next : 0 ≤ fp_next (tw_policy w);
  to_tokens : ∀ k r, fp_bound (tw_policy w) !! k = Some r → 0 < rs_token r ≤ fp_next (tw_policy w);
  to_tasks : ∀ i f, tw_tasks w !! i = Some f → 0 ≤ fo_token f ≤ fp_next (tw_policy w) ∧ is_Some (tw_conns w !! fo_conn f) ∧
    (fo_at f ≠ Permitted → fo_token f = 0 → isLoopback (fo_host f) = false);
  to_unique : ∀ i j f g, tw_tasks w !! i = Some f → tw_tasks w !! j = Some g → fo_token f ≠ 0 → fo_token f = fo_token g → i = j;
  to_held : ∀ i f a, tw_tasks w !! i = Some f → fo_token f ≠ 0 → tw_conns w !! fo_conn f = Some (a, false) →
    fp_bound (tw_policy w) !! reservationKey (fo_host f) (fo_port f) = Some {| rs_account := fa_name a; rs_token := fo_token f |};
  to_listeners : ∀ ln s, tw_listeners w !! ln = Some s → ls_open s = true →
    ∃ i f, tw_tasks w !! i = Some f ∧ serving ln f ∧ fo_conn f = ls_conn s ∧ fo_host f = ls_host s ∧ fo_port f = ls_port s
}.

Lemma noTunnels_ok : tunnels_ok noTunnels.
Proof. split; cbn; try done; intros *; by rewrite lookup_empty. Qed.

Section invariant.
Context (ParseAddr : string → option addr) (M : Mapping).
(** The names of the loopback are no other address. *)
Context (ParseAddr_loopback : ∀ host ip, isLoopback host = true → ParseAddr host = Some ip → ad_loopback ip = true).

(** A forward that moves on within what it has. *)
Lemma tn_put_ok w i f f' : tunnels_ok w → tw_tasks w !! i = Some f → fo_conn f' = fo_conn f → fo_host f' = fo_host f → fo_port f' = fo_port f → fo_token f' = fo_token f →
  (fo_at f' ≠ Permitted → fo_at f ≠ Permitted) → (∀ ln, serving ln f → serving ln f' ∨ ∀ s, tw_listeners w !! ln = Some s → ls_open s = false) → tunnels_ok (put_task i f' w).
Proof.
  intros [H1 H2 H3 H4 H5 H6] Hi Ec Eh Ep Et Hat Hs. assert (∀ j g, tw_tasks (put_task i f' w) !! j = Some g → ∃ g', tw_tasks w !! j = Some g' ∧ fo_token g = fo_token g' ∧ fo_conn g = fo_conn g' ∧ fo_host g = fo_host g' ∧
    fo_port g = fo_port g' ∧ (fo_at g ≠ Permitted → fo_at g' ≠ Permitted)) as Hold.
  { intros j g. cbn. intros [[<- <-]|[_ Hj]]%lookup_insert_Some; [by exists f|by exists g]. }
  split; cbn [put_task set_tasks tw_policy tw_conns tw_listeners]; try done.
  - intros j g (g' & Hg & Eg & Eg2 & Eg3 & _ & Ha)%Hold. rewrite Eg, Eg2, Eg3. destruct (H3 j g' Hg) as (? & ? & ?). split_and!; [lia|lia|done|auto].
  - intros j k g1 g2 (g1' & Hg1 & E1 & _)%Hold (g2' & Hg2 & E2 & _)%Hold. rewrite E1, E2. by apply H4.
  - intros j g a (g' & Hg & Eg & Eg2 & Eg3 & Eg4 & _)%Hold. rewrite Eg, Eg2, Eg3, Eg4. by apply (H5 j).
  - intros ln s Hl Ho. destruct (H6 ln s Hl Ho) as (j & g & Hj & Hg & E1 & E2 & E3). destruct (decide (i = j)) as [<-|Hne].
    + assert (g = f) as -> by congruence. destruct (Hs ln Hg) as [Hf|Hc]; [|by rewrite (Hc s Hl) in Ho]. exists i, f'. cbn [tw_tasks put_task set_tasks]. rewrite lookup_insert_eq, Ec, Eh, Ep. by split_and!.
    + exists j, g. cbn [tw_tasks put_task set_tasks]. by rewrite lookup_insert_ne.
Qed.

(** Closing listeners. *)
Lemma tn_close_ok w fs ln : tunnels_ok w → tunnels_ok (set_listeners fs (alter closed ln (tw_listeners w)) w).
Proof.
  intros [H1 H2 H3 H4 H5 H6]. split; try done. cbn. intros ln' s. destruct (decide (ln = ln')) as [<-|Hne]; [|rewrite lookup_alter_ne by done; apply H6].
  rewrite lookup_alter_eq. destruct (tw_listeners w !! ln); [|done]. intros [= <-] Ho. done.
Qed.

Lemma tn_drop_ok w k ln : tunnels_ok w → tunnels_ok (drop k ln w).
Proof. intros H. unfold drop, closeListener. case_bool_decide; [|by apply tn_close_ok]. exact (tn_close_ok w (delete k (tw_forwards w)) ln H). Qed.

Lemma drop_closed w k ln s : tw_listeners (drop k ln w) !! ln = Some s → ls_open s = false.
Proof.
  assert (∀ l : gmap nat listening, alter closed ln l !! ln = Some s → ls_open s = false) as H.
  { intros l. rewrite lookup_alter_eq. destruct (l !! ln); [|done]. by intros [= <-]. }
  unfold drop, closeListener. case_bool_decide; apply H.
Qed.

(** Giving a reservation up, at the end of its forward or of its connection. *)
Lemma release_ok w i f : tunnels_ok w → tw_tasks w !! i = Some f → (∀ a, tw_conns w !! fo_conn f ≠ Some (a, false)) → tunnels_ok (release f w).
Proof.
  intros [H1 H2 H3 H4 H5 H6] Hi Hd. split; cbn [release set_policy tw_policy tw_tasks tw_conns tw_listeners]; rewrite ?Release_next; try done.
  - intros k r Hk%Release_sub. by eapply H2.
  - intros j g a Hj Hg Ha. apply Release_others; [by eapply H5|]. cbn. intros E. assert (i = j) as <- by (symmetry; by eapply H4). assert (g = f) as -> by congruence. by eapply Hd.
Qed.

Lemma tn_end_ok w i f : tunnels_ok w → tw_tasks w !! i = Some f → (∀ ln s, serving ln f → tw_listeners w !! ln = Some s → ls_open s = false) → tunnels_ok (end_task i w).
Proof.
  intros [H1 H2 H3 H4 H5 H6] Hi Hs. split; cbn [end_task set_tasks tw_policy tw_tasks tw_conns tw_listeners]; try done.
  - intros j g [_ Hj]%lookup_delete_Some. by eapply H3.
  - intros j k g1 g2 [_ Hj]%lookup_delete_Some [_ Hk]%lookup_delete_Some. by eapply H4.
  - intros j g a [_ Hj]%lookup_delete_Some. by eapply H5.
  - intros ln s Hl Ho. destruct (H6 ln s Hl Ho) as (j & g & Hj & Hg & E). exists j, g. rewrite lookup_delete_ne; [done|]. intros <-. assert (g = f) as -> by congruence. rewrite (Hs ln s Hg Hl) in Ho. done.
Qed.

Lemma tn_end_release_ok w i f : tunnels_ok w → tw_tasks w !! i = Some f → (∀ ln, ¬ serving ln f) → tunnels_ok (end_task i (release f w)).
Proof.
  intros Hw Hi Hn. destruct (tn_end_ok w i f Hw Hi) as [H1 H2 H3 H4 H5 H6]; [intros ln s H; by destruct (Hn ln)|].
  split; cbn [end_task release set_policy set_tasks tw_policy tw_tasks tw_conns tw_listeners] in *; rewrite ?Release_next; try done.
  - intros k r Hk%Release_sub. by eapply H2.
  - intros j g a Hj Hg Ha. apply Release_others; [by eapply H5|]. cbn. intros E. apply lookup_delete_Some in Hj as [Hne Hj]. apply Hne. symmetry. by eapply (to_unique w Hw).
Qed.

Lemma decide_host Ports_Owns account bridge got host asked p port :
  decideReverse ParseAddr M Ports_Owns account bridge got host asked p = HostForward port → isLoopback host = false.
Proof.
  unfold decideReverse. destruct account as [a|]; [|done]. case_bool_decide; [done|]. destruct (allowHostForward _ _ _ _) as [ok|] eqn:E.
  - intros _. unfold allowHostForward in E. destruct (ParseAddr host) as [ip|] eqn:Ei; [|done]. destruct bridge; [|done]. destruct (isLoopback host) eqn:El; [|done].
    by rewrite (ParseAddr_loopback host ip El Ei) in E.
  - destruct (if fa_ephemeral a then _ else _) as [q|]; [|done]. by destruct (Allow _ _ _ _ _ _).
Qed.

(** A forward that begins, without a reservation. *)
Lemma tn_begin_ok w i f : tunnels_ok w → tw_tasks w !! i = None → is_Some (tw_conns w !! fo_conn f) → fo_token f = 0 → (fo_at f ≠ Permitted → isLoopback (fo_host f) = false) →
  tunnels_ok (put_task i f w).
Proof.
  intros [H1 H2 H3 H4 H5 H6] Hi Hc Ht Hp. split; cbn [put_task set_tasks tw_policy tw_conns tw_tasks tw_listeners]; try done.
  - intros j g [[<- <-]|[_ Hj]]%lookup_insert_Some; [rewrite Ht; split_and!; [lia|lia|done|auto]|by eapply H3].
  - intros j k g1 g2 [[<- <-]|[_ Hj]]%lookup_insert_Some [[<- <-]|[_ Hk]]%lookup_insert_Some Hg E; [done|congruence|congruence|by eapply H4].
  - intros j g a [[<- <-]|[_ Hj]]%lookup_insert_Some Hg; [done|by apply (H5 j)].
  - intros ln s Hl Ho. destruct (H6 ln s Hl Ho) as (j & g & Hj & Hg). exists j, g. rewrite lookup_insert_ne; [done|]. intros ->. congruence.
Qed.

(** A forward that is given its reservation. *)
Lemma bind_ok w i f a d token p : tunnels_ok w → tw_tasks w !! i = Some f → fo_at f = Permitted → tw_conns w !! fo_conn f = Some (a, d) →
  Bind a (fo_host f) (fo_port f) (tw_policy w) = Some (token, p) → tunnels_ok (put_task i (with_token token f) (set_policy p w)).
Proof.
  intros [H1 H2 H3 H4 H5 H6] Hi Hat Hc (Hn & -> & En & Eb)%Bind_spec.
  assert (∀ j g, tw_tasks w !! j = Some g → fo_token g ≤ fp_next (tw_policy w)) as Hle by (intros j g Hj; by apply (H3 j)).
  split; cbn [put_task set_tasks set_policy tw_policy tw_conns tw_tasks tw_listeners]; rewrite ?En; [lia|..].
  - rewrite Eb. intros k r [[<- <-]|[_ Hk]]%lookup_insert_Some; [cbn; lia|]. destruct (H2 k r Hk). lia.
  - intros j g [[<- <-]|[_ Hj]]%lookup_insert_Some; cbn [with_token fo_token fo_conn fo_at fo_host]; [split_and!; [lia|lia|by eexists|lia]|]. destruct (H3 j g Hj) as (? & ? & ?). split_and!; [lia|lia|done|done].
  - intros j k g1 g2 [[<- <-]|[_ Hj]]%lookup_insert_Some [[<- <-]|[_ Hk]]%lookup_insert_Some Hg E; cbn in Hg, E; [done| | |by eapply H4].
    + pose proof (Hle k g2 Hk). lia.
    + pose proof (Hle j g1 Hj). lia.
  - rewrite Eb. intros j g a' [[<- <-]|[_ Hj]]%lookup_insert_Some Hg Ha; cbn in Ha |- *; [rewrite lookup_insert_eq; rewrite Hc in Ha; by injection Ha as -> _|].
    rewrite lookup_insert_ne; [by apply (H5 j)|]. intros E. pose proof (H5 j g a' Hj Hg Ha) as H. congruence.
  - intros ln s Hl Ho. destruct (H6 ln s Hl Ho) as (j & g & Hj & Hg & E). exists j, g. rewrite lookup_insert_ne; [done|]. intros <-. assert (g = f) as -> by congruence.
    unfold serving in Hg. rewrite Hat in Hg. by destruct Hg as [?|[?|?]].
Qed.

Lemma tn_listen_ok w i f ln : tunnels_ok w → tw_tasks w !! i = Some f → fo_at f = Reserved → tw_listeners w !! ln = None →
  tunnels_ok (put_task i (at_stage (Listens ln) f)
    (set_listeners (tw_forwards w) (<[ln := {| ls_conn := fo_conn f; ls_host := fo_host f; ls_port := fo_port f; ls_open := true |}]> (tw_listeners w)) w)).
Proof.
  intros Hw Hi Hat Hl. assert (tunnels_ok (put_task i (at_stage (Listens ln) f) w)) as [H1 H2 H3 H4 H5 H6].
  { apply (tn_put_ok w i f); try done; [by rewrite Hat|]. intros ln'. unfold serving. rewrite Hat. by intros [?|[?|?]]. }
  split; try done. cbn. intros ln' s [[<- <-]|[_ Hl']]%lookup_insert_Some Ho; [|by apply H6]. exists i, (at_stage (Listens ln) f). rewrite lookup_insert_eq. split_and!; [done|by left|done..].
Qed.

Lemma tunnel_step_ok w w' : tunnels_ok w → tunnel_step ParseAddr M w w' → tunnels_ok w'.
Proof.
  intros Hw Hs. destruct Hs as [c a Hc|c a Hc|i c a d po br got host asked port Hc Hi Hd|i c a d po br got host asked port Hc Hi Hd|i f a d token p Hi Hat Hc Hb|i f a d Hi Hat Hc Hb|i f ln Hi Hat Hl
    |i f Hi Hat|i f ln Hi Hat|c a host port Hc|i f ln Hi Hat|i f ln Hi Hat|i f ln Hi Hat|i f a Hi Hat Hc|i f a ln Hi Hat Hc|c a d host port Hc Hd|d1 x d2 Hd].
  - destruct Hw as [H1 H2 H3 H4 H5 H6]. split; cbn; try done.
    + intros i f Hi. destruct (H3 i f Hi) as (? & [x Hx] & ?). split_and!; [lia|lia| |done]. exists x. rewrite lookup_insert_ne; [done|]. intros ->. congruence.
    + intros i f a' Hi Hf. rewrite lookup_insert_ne; [by apply (H5 i)|]. intros ->. destruct (H3 i f Hi) as (_ & [x Hx] & _). congruence.
  - destruct Hw as [H1 H2 H3 H4 H5 H6]. split; cbn; try done.
    + intros i f Hi. destruct (H3 i f Hi) as (? & [x Hx] & ?). split_and!; [lia|lia| |done]. destruct (decide (c = fo_conn f)) as [->|]; [rewrite lookup_insert_eq; by eexists|rewrite lookup_insert_ne by done; by eexists].
    + intros i f a' Hi Hf [[_ ?]|[_ Ha]]%lookup_insert_Some; [done|by apply (H5 i)].
  - apply tn_begin_ok; try done.
  - apply tn_begin_ok; try done. intros _. by eapply decide_host.
  - by eapply bind_ok.
  - apply (tn_end_ok w i f); try done. intros ln s. unfold serving. rewrite Hat. by intros [?|[?|?]].
  - by apply tn_listen_ok.
  - apply tn_end_release_ok; try done. intros ln. unfold serving. rewrite Hat. by intros [?|[?|?]].
  - assert (tunnels_ok (set_listeners (<[forwardKey (fo_conn f) (fo_host f) (fo_port f) := ln]> (tw_forwards w)) (tw_listeners w) w)) as Hw' by (destruct Hw; split; done).
    apply (tn_put_ok _ i f); try done; [by rewrite Hat|]. intros ln'. unfold serving. rewrite Hat. intros [[= ->]|[?|?]]; try done. left. right. by left.
  - unfold closeForward. destruct (tw_forwards w !! _); [by apply tn_close_ok|done].
  - apply (tn_put_ok w i f); try done; [by rewrite Hat|]. intros ln'. unfold serving. rewrite Hat. intros [?|[[= ->]|?]]; try done. left. right. by right.
  - apply (tn_put_ok _ i f); try done; [by apply tn_drop_ok|unfold drop; by case_bool_decide|by rewrite Hat|]. intros ln'. unfold serving at 1. rewrite Hat. intros [?|[?|[= ->]]]; try done. right.
    intros s. apply drop_closed.
  - apply tn_end_release_ok; try done. intros ln'. unfold serving. rewrite Hat. by intros [?|[?|?]].
  - apply (release_ok w i f); try done. intros a'. by rewrite Hc.
  - by apply tn_drop_ok.
  - by destruct Hw; split.
  - by destruct Hw; split.
Qed.

Lemma tunnel_reachable_ok w : tunnel_reachable ParseAddr M w → tunnels_ok w.
Proof. apply (rtc_ind_r tunnels_ok); [apply noTunnels_ok|]. intros w1 w2 _ Hs Hw. by eapply tunnel_step_ok. Qed.

(** The reservation behind a listener of a live connection. *)
Lemma listener_reserved w ln s a : tunnels_ok w → tw_listeners w !! ln = Some s → ls_open s = true → isLoopback (ls_host s) = true → tw_conns w !! ls_conn s = Some (a, false) →
  ∃ i f, tw_tasks w !! i = Some f ∧ serving ln f ∧ fo_token f ≠ 0 ∧
    fp_bound (tw_policy w) !! reservationKey (ls_host s) (ls_port s) = Some {| rs_account := fa_name a; rs_token := fo_token f |}.
Proof.
  intros Hw Hl Ho Hb Hc. destruct (to_listeners w Hw ln s Hl Ho) as (i & f & Hi & Hs & E1 & E2 & E3). exists i, f. rewrite <- E1 in Hc. rewrite <- E2, <- E3.
  assert (fo_token f ≠ 0) as Ht. { intros Ht. destruct (to_tasks w Hw i f Hi) as (_ & _ & H). rewrite <- E2 in Hb. rewrite H in Hb; [done| |done]. intros Hp. unfold serving in Hs. rewrite Hp in Hs. by destruct Hs as [?|[?|?]]. }
  split_and!; [done|done|done|]. by apply (to_held w Hw i).
Qed.

(** C13 (safety). Nobody else is let through to a client's file server.  While a connection of an
    account is up and its tunnel listens on a loopback port, whatever has been bound,
    cancelled, released or left half done by other sessions and by other tunnels of
    its own, no other account is permitted to dial that port, by any name of the
    loopback; no other session is given the port; and no other tunnel of a live
    connection listens on it. *)
Theorem tunnels_are_their_accounts_alone w ln s a : tunnel_reachable ParseAddr M w →
  tw_listeners w !! ln = Some s → ls_open s = true → isLoopback (ls_host s) = true → tw_conns w !! ls_conn s = Some (a, false) →
  ∀ host, isLoopback host = true →
    (∀ b, fa_name b ≠ fa_name a → AllowDial b host (ls_port s) (tw_policy w) = Err OthersServer) ∧
    (∀ b, Bind b host (ls_port s) (tw_policy w) = None) ∧
    (∀ ln' s' a', tw_listeners w !! ln' = Some s' → ls_open s' = true → ls_host s' = host → ls_port s' = ls_port s → tw_conns w !! ls_conn s' = Some (a', false) → ln' = ln).
Proof.
  intros Hw%tunnel_reachable_ok Hl Ho Hb Hc host Hh. destruct (listener_reserved w ln s a Hw Hl Ho Hb Hc) as (i & f & Hi & Hs & Ht & Hr).
  rewrite (loopback_key (ls_host s) host) in Hr by done. split_and!.
  - intros b Hne. unfold AllowDial, Holder. rewrite Hh, Hr. cbn. by rewrite bool_decide_eq_false_2.
  - intros b. unfold Bind. by rewrite Hr.
  - intros ln' s' a' Hl' Ho' <- Ep Hc'. destruct (listener_reserved w ln' s' a' Hw Hl' Ho' Hh Hc') as (j & g & Hj & Hs' & _ & Hr'). rewrite Ep, Hr in Hr'. injection Hr' as _ Et.
    assert (i = j) as <- by (by eapply (to_unique w Hw)). assert (g = f) as -> by congruence. unfold serving in Hs, Hs'. naive_solver congruence.
Qed.

End invariant.

(** ** Whose a port is *)

(** At most one of two accounts may bind a port, by what the allocator says in any
    state it can be in; and a run is bound to its own port alone, whatever number it
    asks for. *)
Theorem port_has_one_owner M env1 env2 ps a b host port p : Validate M = None → ports_reachable M ps → fa_name a ≠ fa_name b → fa_uid a ≠ fa_uid b →
  Allow M (Some (λ account uid port, snd (Owns M env1 account uid port ps))) a host port p = Ok tt →
  is_ok (Allow M (Some (λ account uid port, snd (Owns M env2 account uid port ps))) b host port p) = false.
Proof.
  intros Hv Hr Hn Hu. unfold Allow, owns. destruct (isLoopback host); [|done]. cbn [negb]. destruct (snd (Owns M env1 (fa_name a) (fa_uid a) port ps)) eqn:E; [|done]. intros _.
  by rewrite (owns_exclusive M Hv env1 env2 ps port (fa_name a) (fa_name b) (fa_uid a) (fa_uid b) Hr Hn Hu E).
Qed.

(** ** Runs *)

Definition aliceHere : forwardAccount := {| fa_name := "alice"; fa_uid := 10001; fa_client := "89abcdef"; fa_ephemeral := false |}.
Definition bobHere : forwardAccount := {| fa_name := "bob"; fa_uid := 10002; fa_client := "01234567"; fa_ephemeral := false |}.
Definition noAddr (host : string) : option addr := None.

Lemma noAddr_loopback host ip : isLoopback host = true → noAddr host = Some ip → ad_loopback ip = true.
Proof. done. Qed.

Definition bothConnected : tunnelWorld := set_conns (<[1%nat := (bobHere, false)]> (<[0%nat := (aliceHere, false)]> ∅)) noTunnels.
(** Bob asks about the port while nobody holds it. *)
Definition bobAsked : tunnelWorld := set_dials [(bobHere, "localhost"%string, 30001)] bothConnected.
Definition aliceForward (s : stage) (token : Z) : forward := {| fo_conn := 0; fo_host := "127.0.0.1"; fo_port := 30001; fo_token := token; fo_at := s |}.
Definition aliceReserved : ForwardPolicy := {| fp_next := 1; fp_bound := {["loopback:30001"%string := {| rs_account := "alice"; rs_token := 1 |}]} |}.
Definition aliceListens : listening := {| ls_conn := 0; ls_host := "127.0.0.1"; ls_port := 30001; ls_open := true |}.
Definition aliceBound : tunnelWorld := put_task 0 (aliceForward Reserved 1) (set_policy aliceReserved (put_task 0 (aliceForward Permitted 0) bobAsked)).
Definition aliceUp : tunnelWorld := put_task 0 (aliceForward (Listens 0) 1) (set_listeners ∅ (<[0%nat := aliceListens]> ∅) aliceBound).

Lemma aliceUp_reachable : tunnel_reachable noAddr DefaultMapping aliceUp.
Proof.
  assert (tunnel_reachable noAddr DefaultMapping bobAsked) as H0.
  { eapply rtc_l; [by apply (tn_connect _ _ noTunnels 0 aliceHere)|]. eapply rtc_l; [by apply (tn_connect _ _ _ 1 bobHere)|].
    apply rtc_once, (tn_mayDial _ _ bothConnected 1 bobHere false "localhost" 30001); reflexivity. }
  assert (tunnel_reachable noAddr DefaultMapping (put_task 0 (aliceForward Permitted 0) bobAsked)) as H1.
  { eapply rtc_r; [exact H0|]. apply (tn_permit _ _ bobAsked 0 0 aliceHere false None None None "127.0.0.1" 30001 30001); vm_compute; reflexivity. }
  assert (tunnel_reachable noAddr DefaultMapping aliceBound) as H2.
  { eapply rtc_r; [exact H1|]. apply (tn_bind _ _ (put_task 0 (aliceForward Permitted 0) bobAsked) 0 (aliceForward Permitted 0) aliceHere false 1 aliceReserved); vm_compute; reflexivity. }
  eapply rtc_r; [exact H2|]. by apply (tn_listen noAddr DefaultMapping aliceBound 0 (aliceForward Reserved 1) 0).
Qed.

Lemma tunnels_are_their_accounts_alone_witness :
  AllowDial bobHere "localhost" 30001 (tw_policy aliceUp) = Err OthersServer ∧ Bind aliceHere "::1" 30001 (tw_policy aliceUp) = None.
Proof.
  destruct (tunnels_are_their_accounts_alone noAddr DefaultMapping noAddr_loopback aliceUp 0 aliceListens aliceHere aliceUp_reachable eq_refl eq_refl eq_refl eq_refl "localhost" eq_refl) as [H _].
  destruct (tunnels_are_their_accounts_alone noAddr DefaultMapping noAddr_loopback aliceUp 0 aliceListens aliceHere aliceUp_reachable eq_refl eq_refl eq_refl eq_refl "::1" eq_refl) as (_ & H' & _).
  split; [apply H; discriminate|apply H'].
Defined.

(** The question and the dial are two moments: a dial that was permitted while nobody
    held the port is still to be made when another account's tunnel listens there. *)
Lemma permitted_dial_reaches_tunnel : ∃ w, tunnel_reachable noAddr DefaultMapping w ∧
  (bobHere, "localhost"%string, 30001) ∈ tw_dials w ∧ tw_listeners w !! 0%nat = Some aliceListens ∧ tw_conns w !! 0%nat = Some (aliceHere, false).
Proof. exists aliceUp. split; [apply aliceUp_reachable|]. split; [left|]. split; reflexivity. Qed.
