(* ===== verification/Ephemeral.v ===== *)
(** * The runs of ephemeral accounts (agent/internal/ephemeral/registry.go)

    A registry of runs over an allocator given by an interface.  [ru_id] is the
    identity of the Go [*run]: a run deleted and made again under the same key is
    another one.  Each definition is one hold of the registry's mutex; [Port] is
    two, with the allocator's answer in between.  The metrics and the log are left
    out; a snapshot is returned by the operations that take one, and [write] puts
    it on disk. *)

From S2P Require Import Prelude GoStrings GoTime Records AccountPorts.
Open Scope Z_scope.

(** ** The interface *)

(** [Ports]: [Q] is what the world answers while a call runs. [None] is an error
    of [ForRun] and a refusal of [Hold]. *)
Class RunPorts (P Q : Type) := {
  rp_ForRun : Q → string → string → P → P * option (Z * Z);
  rp_Hold : Q → string → string → Z → P → P * option Z;
  rp_Free : string → string → Z → P → P * bool
}.

(** What the registry relies on.  [rp_held] is what a key has: its port, its token
    and whether it is a run's; [rp_bound] is a token no smaller than any given so
    far, and a new token is greater. *)
Abbreviation holding := (Z * Z * bool)%type.

Class RunPortsLaws (P Q : Type) `{RunPorts P Q} := {
  rp_ok : P → Prop;
  rp_held : P → gmap (string * string) holding;
  rp_bound : P → Z;
  rp_name : string → Prop;
  rp_sound : ∀ p k port token b, rp_ok p → rp_held p !! k = Some (port, token, b) →
    port ≠ 0 ∧ token ≤ rp_bound p ∧ (b = true → 0 < token);
  rp_inj : ∀ p k1 k2 port t1 t2 b1 b2, rp_ok p →
    rp_held p !! k1 = Some (port, t1, b1) → rp_held p !! k2 = Some (port, t2, b2) → k1 = k2;
  rp_ForRun_ok : ∀ q k p p' r, rp_ok p → rp_name k.1 → rp_name k.2 → rp_ForRun q k.1 k.2 p = (p', r) →
    rp_ok p' ∧ rp_bound p ≤ rp_bound p' ∧
    match r with
    | None => rp_held p' = rp_held p
    | Some (port, token) =>
        (∃ b, rp_held p !! k = Some (port, token, b) ∧ rp_held p' = rp_held p) ∨
        (rp_held p !! k = None ∧ rp_bound p < token ∧ rp_held p' = <[k := (port, token, true)]> (rp_held p))
    end;
  rp_Hold_ok : ∀ q k port p p' r, rp_ok p → rp_name k.1 → rp_name k.2 → rp_Hold q k.1 k.2 port p = (p', r) →
    rp_ok p' ∧ rp_bound p ≤ rp_bound p' ∧
    match r with
    | None => rp_held p' = rp_held p
    | Some token =>
        (rp_held p !! k = Some (port, token, true) ∧ rp_held p' = rp_held p) ∨
        (rp_held p !! k = None ∧ rp_bound p < token ∧ rp_held p' = <[k := (port, token, true)]> (rp_held p))
    end;
  rp_Free_ok : ∀ k token p p' b, rp_ok p → rp_Free k.1 k.2 token p = (p', b) →
    rp_ok p' ∧ rp_bound p ≤ rp_bound p' ∧
    if b then (∃ port, rp_held p !! k = Some (port, token, true)) ∧ token ≠ 0 ∧ rp_held p' = delete k (rp_held p)
    else rp_held p' = rp_held p ∧ (token = 0 ∨ ∀ port, rp_held p !! k ≠ Some (port, token, true))
}.

(** ** The registry *)

Definition DefaultMax : Z := 8.
Definition DefaultGrace : Duration := 2 * Minute.

Inductive State := Live | Grace | Cleaning.

#[export] Instance State_eq_dec : EqDecision State.
Proof. solve_decision. Defined.

Definition State_String (s : State) : string :=
  match s with Live => "live" | Grace => "grace" | Cleaning => "cleaning" end.

Record run := {
  ru_id : nat;
  ru_state : State;
  ru_conns : Z;
  ru_port : Z;
  ru_token : Z;
  ru_lastSeen : Time;
  ru_allocating : Z
}.

(** [&run{}]. *)
Definition newRun (id : nat) : run :=
  {| ru_id := id; ru_state := Live; ru_conns := 0; ru_port := 0; ru_token := 0; ru_lastSeen := zeroTime; ru_allocating := 0 |}.

Record snapshot := {
  sn_gen : Z;
  sn_lines : list string
}.

Record Registry (P : Type) := {
  rg_Max : Z;
  rg_Grace : Duration;
  rg_runs : gmap (string * string) run;
  rg_ports : P;
  rg_ids : nat;
  rg_gen : Z;
  rg_written : Z;
  rg_disk : list string
}.
Arguments rg_Max {P}. Arguments rg_Grace {P}. Arguments rg_runs {P}. Arguments rg_ports {P}. Arguments rg_ids {P}.
Arguments rg_gen {P}. Arguments rg_written {P}. Arguments rg_disk {P}.

Inductive refusal := AtLimit | BeingCleaned.

Section registry.
Context {P Q : Type} `{RunPorts P Q}.

Abbreviation registry := (Registry P).

Definition with_runs (g : gmap (string * string) run → gmap (string * string) run) (r : registry) : registry :=
  {| rg_Max := rg_Max r; rg_Grace := rg_Grace r; rg_runs := g (rg_runs r); rg_ports := rg_ports r; rg_ids := rg_ids r;
     rg_gen := rg_gen r; rg_written := rg_written r; rg_disk := rg_disk r |}.
Definition with_ports (p : P) (r : registry) : registry :=
  {| rg_Max := rg_Max r; rg_Grace := rg_Grace r; rg_runs := rg_runs r; rg_ports := p; rg_ids := rg_ids r;
     rg_gen := rg_gen r; rg_written := rg_written r; rg_disk := rg_disk r |}.

Definition max (r : registry) : Z := if 0 <? rg_Max r then rg_Max r else DefaultMax.
Definition grace (r : registry) : Duration := if 0 <? rg_Grace r then rg_Grace r else DefaultGrace.

(** [count]. *)
Definition count (account : string) (r : registry) : Z :=
  Z.of_nat (size (filter (λ kv, kv.1.1 = account) (rg_runs r))).

(** [snapshot] and [write]. *)
Definition runLine (k : string * string) (ru : run) : string :=
  strings.Join [k.1; k.2; Itoa (ru_port ru); State_String (ru_state ru); Itoa (Z.div (ru_lastSeen ru) Second)] (String colon "").

Definition takeSnapshot (r : registry) : registry * snapshot :=
  let lines := sort_strings (omap (λ '(k, ru), if ru_port ru =? 0 then None else Some (runLine k ru)) (map_to_list (rg_runs r))) in
  ({| rg_Max := rg_Max r; rg_Grace := rg_Grace r; rg_runs := rg_runs r; rg_ports := rg_ports r; rg_ids := rg_ids r;
      rg_gen := rg_gen r + 1; rg_written := rg_written r; rg_disk := rg_disk r |},
   {| sn_gen := rg_gen r + 1; sn_lines := lines |}).

Definition write (ok : bool) (s : snapshot) (r : registry) : registry :=
  if sn_gen s <=? rg_written r then r
  else {| rg_Max := rg_Max r; rg_Grace := rg_Grace r; rg_runs := rg_runs r; rg_ports := rg_ports r; rg_ids := rg_ids r;
          rg_gen := rg_gen r; rg_written := sn_gen s; rg_disk := if ok then sn_lines s else rg_disk r |}.

(** [Attach]: the identity of the run the connection counts for. *)
Definition attached (now : Time) (ru : run) : run :=
  {| ru_id := ru_id ru; ru_state := Live; ru_conns := ru_conns ru + 1; ru_port := ru_port ru; ru_token := ru_token ru;
     ru_lastSeen := now; ru_allocating := ru_allocating ru |}.

Definition attachTo (now : Time) (k : string * string) (ru : run) (r : registry) : registry * res refusal nat * option snapshot :=
  let '(r', s) := takeSnapshot (with_runs <[k := attached now ru]> r) in (r', Ok (ru_id ru), Some s).

Definition Attach (now : Time) (k : string * string) (r : registry) : registry * res refusal nat * option snapshot :=
  match rg_runs r !! k with
  | None =>
      if max r <=? count k.1 r then (r, Err AtLimit, None)
      else
        let r1 := {| rg_Max := rg_Max r; rg_Grace := rg_Grace r; rg_runs := rg_runs r; rg_ports := rg_ports r; rg_ids := S (rg_ids r);
                     rg_gen := rg_gen r; rg_written := rg_written r; rg_disk := rg_disk r |} in
        attachTo now k (newRun (rg_ids r)) r1
  | Some ru =>
      if bool_decide (ru_state ru = Cleaning) then (r, Err BeingCleaned, None) else attachTo now k ru r
  end.

(** [detach], for a connection that counted for the run [id]. *)
Definition detached (now : Time) (ru : run) : run :=
  {| ru_id := ru_id ru; ru_state := ru_state ru; ru_conns := ru_conns ru - 1; ru_port := ru_port ru; ru_token := ru_token ru;
     ru_lastSeen := now; ru_allocating := ru_allocating ru |}.
Definition set_run_state (s : State) (ru : run) : run :=
  {| ru_id := ru_id ru; ru_state := s; ru_conns := ru_conns ru; ru_port := ru_port ru; ru_token := ru_token ru;
     ru_lastSeen := ru_lastSeen ru; ru_allocating := ru_allocating ru |}.

Definition detach (now : Time) (k : string * string) (id : nat) (r : registry) : registry * option snapshot :=
  match rg_runs r !! k with
  | Some ru =>
      if negb (ru_id ru =? id)%nat then (r, None)
      else
        let ru1 := detached now ru in
        if 0 <? ru_conns ru1 then (with_runs <[k := ru1]> r, None)
        else
          let r1 := if (ru_port ru1 =? 0) && (ru_allocating ru1 =? 0) then with_runs (delete k) r
                    else with_runs <[k := set_run_state Grace ru1]> r in
          let '(r2, s) := takeSnapshot r1 in (r2, Some s)
  | None => (r, None)
  end.

(** [Port]: before the allocator is asked, and after. *)
Inductive portBegun :=
| NotAttached
| HasPort (port : Z)
| Asking (id : nat).

Definition set_allocating (n : Z) (ru : run) : run :=
  {| ru_id := ru_id ru; ru_state := ru_state ru; ru_conns := ru_conns ru; ru_port := ru_port ru; ru_token := ru_token ru;
     ru_lastSeen := ru_lastSeen ru; ru_allocating := n |}.
Definition set_port (port token : Z) (ru : run) : run :=
  {| ru_id := ru_id ru; ru_state := ru_state ru; ru_conns := ru_conns ru; ru_port := port; ru_token := token;
     ru_lastSeen := ru_lastSeen ru; ru_allocating := ru_allocating ru |}.

Definition portBegin (k : string * string) (r : registry) : registry * portBegun :=
  match rg_runs r !! k with
  | Some ru =>
      if negb (bool_decide (ru_state ru = Live)) then (r, NotAttached)
      else if negb (ru_port ru =? 0) then (r, HasPort (ru_port ru))
      else (with_runs <[k := set_allocating (ru_allocating ru + 1) ru]> r, Asking (ru_id ru))
  | None => (r, NotAttached)
  end.

Definition portAsk (q : Q) (k : string * string) (r : registry) : registry * option (Z * Z) :=
  let '(p, answer) := rp_ForRun q k.1 k.2 (rg_ports r) in (with_ports p r, answer).

(** [None] is an error: the run expired, or the allocator's. *)
Definition portEnd (k : string * string) (id : nat) (answer : option (Z * Z)) (r : registry)
  : registry * option Z * option snapshot :=
  let expired (r : registry) :=
    (match answer with
     | Some (_, token) => with_ports (fst (rp_Free k.1 k.2 token (rg_ports r))) r
     | None => r
     end, None, None) in
  match rg_runs r !! k with
  | Some ru =>
      if negb (ru_id ru =? id)%nat then expired r
      else
        let ru1 := set_allocating (ru_allocating ru - 1) ru in
        let r1 := with_runs <[k := ru1]> r in
        if bool_decide (ru_state ru = Cleaning) then expired r1
        else match answer with
        | None =>
            (if (ru_conns ru1 =? 0) && (ru_port ru1 =? 0) && (ru_allocating ru1 =? 0) then with_runs (delete k) r1 else r1,
             None, None)
        | Some (port, token) =>
            if ru_port ru1 =? 0 then
              let '(r2, s) := takeSnapshot (with_runs <[k := set_port port token ru1]> r1) in (r2, Some port, Some s)
            else (r1, Some (ru_port ru1), None)
        end
  | None => expired r
  end.

(** [Sweep]: the runs that are due, marked; then each of them, once [Cleanup] has
    answered. *)
Record due := {
  du_key : string * string;
  du_id : nat;
  du_port : Z;
  du_token : Z
}.

Definition expires (enrolled : string → bool) (now : Time) (r : registry) (k : string * string) (ru : run) : bool :=
  enrolled k.1 && bool_decide (ru_state ru = Grace) && (grace r <=? Sub now (ru_lastSeen ru)).

Definition marked (enrolled : string → bool) (now : Time) (r : registry) (k : string * string) (ru : run) : run :=
  if expires enrolled now r k ru then set_run_state Cleaning ru else ru.

Definition sweepMark (enrolled : string → bool) (now : Time) (r : registry) : registry * list due * option snapshot :=
  let r1 := with_runs (map_imap (λ k ru, Some (marked enrolled now r k ru))) r in
  let dues := omap (λ '(k, ru), if enrolled k.1 && bool_decide (ru_state ru = Cleaning)
                                then Some {| du_key := k; du_id := ru_id ru; du_port := ru_port ru; du_token := ru_token ru |}
                                else None) (map_to_list (rg_runs r1)) in
  match dues with
  | [] => (r1, [], None)
  | _ => let '(r2, s) := takeSnapshot r1 in (r2, dues, Some s)
  end.

(** The port is freed under the allocator's lock, and the run is gone under the
    registry's. *)
Definition sweepFree (d : due) (r : registry) : registry :=
  let k := du_key d in
  if du_token d =? 0 then r else with_ports (fst (rp_Free k.1 k.2 (du_token d) (rg_ports r))) r.

Definition sweepGone (d : due) (r : registry) : registry * snapshot :=
  let k := du_key d in
  takeSnapshot (match rg_runs r !! k with
                | Some ru => if (ru_id ru =? du_id d)%nat then with_runs (delete k) r else r
                | None => r
                end).

Definition sweepOne (cleaned : bool) (d : due) (r : registry) : registry * option snapshot :=
  if negb cleaned then (r, None) else let '(r', s) := sweepGone d (sweepFree d r) in (r', Some s).

(** A whole sweep with nothing in between. *)
Definition Sweep (enrolled : string → bool) (now : Time) (Cleanup : string * string → bool) (r : registry) : registry :=
  let '(r1, dues, _) := sweepMark enrolled now r in
  foldl (λ r d, fst (sweepOne (Cleanup (du_key d)) d r)) r1 dues.

(** [Drop]. *)
Definition dropOne (r : registry) (kv : (string * string) * run) : registry :=
  let '(k, ru) := kv in
  let r1 := if ru_port ru =? 0 then r else with_ports (fst (rp_Free k.1 k.2 (ru_token ru) (rg_ports r))) r in
  with_runs (delete k) r1.

Definition Drop (account : string) (r : registry) : registry * snapshot :=
  takeSnapshot (foldl dropOne r (filter (λ kv, kv.1.1 = account) (map_to_list (rg_runs r)))).

(** [readRecord]: one line; an unknown state reads as grace. *)
Record Entry := {
  et_key : string * string;
  et_port : Z;
  et_state : State;
  et_lastSeen : Time
}.

Definition parseRun (line : string) : option Entry :=
  match strings.Split line colon with
  | [account; client; port; state; secs] =>
      match Atoi port, Atoi secs with
      | Some port, Some secs =>
          Some {| et_key := (account, client); et_port := port;
                  et_state := if bool_decide (state = State_String Live) then Live
                              else if bool_decide (state = State_String Cleaning) then Cleaning else Grace;
                  et_lastSeen := secs * Second |}
      | _, _ => None
      end
  | _ => None
  end.

(** [Restore]: [q] is what the world answers while the ports are taken back. *)
Definition restoreOne (q : Q) (now : Time) (r : registry) (e : Entry) : registry :=
  let k := et_key e in
  let state := if bool_decide (et_state e = Live) then Grace else et_state e in
  let lastSeen := if bool_decide (et_state e = Live) then now else et_lastSeen e in
  let '(p, held) := rp_Hold q k.1 k.2 (et_port e) (rg_ports r) in
  let ru := {| ru_id := rg_ids r; ru_state := match held with Some _ => state | None => Cleaning end; ru_conns := 0;
               ru_port := et_port e; ru_token := default 0 held; ru_lastSeen := lastSeen; ru_allocating := 0 |} in
  {| rg_Max := rg_Max r; rg_Grace := rg_Grace r; rg_runs := <[k := ru]> (rg_runs r); rg_ports := p; rg_ids := S (rg_ids r);
     rg_gen := rg_gen r; rg_written := rg_written r; rg_disk := rg_disk r |}.

Definition Restore (q : Q) (now : Time) (r : registry) : registry * snapshot :=
  takeSnapshot (foldl (restoreOne q now) r (omap parseRun (rg_disk r))).

(** [Census]: the ports held. *)
Definition censusPorts (r : registry) : Z :=
  Z.of_nat (size (filter (λ kv, ru_port kv.2 ≠ 0) (rg_runs r))).
Definition censusRuns (r : registry) (account : string) (s : State) : Z :=
  Z.of_nat (size (filter (λ kv, kv.1.1 = account ∧ ru_state kv.2 = s) (rg_runs r))).

End registry.

(** [*accounts.Ports] as the registry's allocator. *)
Definition accountPorts (M : Mapping) : RunPorts Ports portEnv := {|
  rp_ForRun q account client p :=
    let '(p', r) := ForRun M q account client p in (p', match r with Ok answer => Some answer | Err _ => None end);
  rp_Hold q account client port p := Hold M q account client port p;
  rp_Free account client token p := Free account client token p
|}.
