(* ===== verification/EphemeralProofs.v ===== *)
(** * The runs of ephemeral accounts keep their ports (agent/internal/ephemeral/registry.go)

    The registry is proved against the interface [RunPorts] alone; at the end
    the allocator of core-agent/accounts/ports.go is an instance of it. *)

From stdpp Require Import functions.
From S2P Require Import Prelude GoStrings GoTime Records AccountPorts Ephemeral.
Open Scope Z_scope.

(** ** The calls under way *)

(** For one key: the connections that will call [detach], the [Port] calls under
    way (with the allocator's answer, once there), and the runs a sweep has to
    clean and has freed, each with the identity of its run. *)
Record threads := {
  th_conns : list nat;
  th_asks : list (nat * option (option (Z * Z)));
  th_dues : list due;
  th_gone : list due
}.

Definition noThreads : threads := {| th_conns := []; th_asks := []; th_dues := []; th_gone := [] |}.
Definition with_conns (l : list nat) (t : threads) : threads :=
  {| th_conns := l; th_asks := th_asks t; th_dues := th_dues t; th_gone := th_gone t |}.
Definition with_asks (l : list (nat * option (option (Z * Z)))) (t : threads) : threads :=
  {| th_conns := th_conns t; th_asks := l; th_dues := th_dues t; th_gone := th_gone t |}.
Definition with_dues (l g : list due) (t : threads) : threads :=
  {| th_conns := th_conns t; th_asks := th_asks t; th_dues := l; th_gone := g |}.

Definition occ (id : nat) (l : list nat) : Z := Z.of_nat (length (filter (λ x, x = id) l)).

Lemma occ_nonneg id l : 0 ≤ occ id l.
Proof. unfold occ. lia. Qed.

Lemma occ_cons id x l : occ id (x :: l) = occ id l + (if decide (x = id) then 1 else 0).
Proof. unfold occ. rewrite filter_cons. case_decide; simpl; lia. Qed.

Lemma occ_pos id l : 0 < occ id l ↔ id ∈ l.
Proof.
  induction l as [|x l IH]; [unfold occ; simpl; split; [lia|by intros ?%elem_of_nil]|].
  rewrite occ_cons, elem_of_cons, <- IH. pose proof (occ_nonneg id l).
  case_decide; split; intros; destruct_or?; auto; try lia; congruence.
Qed.

Lemma occ_fresh id l : (∀ x, x ∈ l → (x < id)%nat) → occ id l = 0.
Proof.
  intros Hl. pose proof (occ_nonneg id l). destruct (Z.ltb_spec 0 (occ id l)) as [Hp%occ_pos|]; [|lia].
  specialize (Hl _ Hp). lia.
Qed.

#[export] Instance occ_proper id : Proper ((≡ₚ) ==> eq) (occ id).
Proof. intros l1 l2 E. unfold occ. by rewrite E. Qed.

Section runs.
Context {P Q : Type} `{RunPortsLaws P Q}.
Context (runKey : string * string → Prop) (runNames : ∀ k, runKey k → rp_name k.1 ∧ rp_name k.2).

Record world := {
  wd_reg : Registry P;
  wd_th : string * string → threads
}.

Definition held (w : world) : gmap (string * string) holding := rp_held (rg_ports (wd_reg w)).

(** The calls, from any number of connections, one sweep at a time, and whatever
    else asks the allocator meanwhile, which leaves the keys of runs alone.  No
    run ends while a [Port] call of it waits: see [orphan_call_frees]. *)
Definition quiet (r : Registry P) (which : string * string → run → Prop) : Prop :=
  ∀ k ru, runKey k → rg_runs r !! k = Some ru → which k ru → ru_allocating ru = 0.

Inductive run_step (w : world) : world → Prop :=
| run_attach now k r' res s :
    runKey k → Attach now k (wd_reg w) = (r', res, s) →
    run_step w {| wd_reg := r';
      wd_th := match res with Ok id => <[k := with_conns (id :: th_conns (wd_th w k)) (wd_th w k)]> (wd_th w) | Err _ => wd_th w end |}
| run_detach now k id l r' s :
    runKey k → th_conns (wd_th w k) ≡ₚ id :: l → detach now k id (wd_reg w) = (r', s) →
    run_step w {| wd_reg := r'; wd_th := <[k := with_conns l (wd_th w k)]> (wd_th w) |}
| run_begin k r' b :
    runKey k → portBegin k (wd_reg w) = (r', b) →
    run_step w {| wd_reg := r';
      wd_th := match b with Asking id => <[k := with_asks ((id, None) :: th_asks (wd_th w k)) (wd_th w k)]> (wd_th w) | _ => wd_th w end |}
| run_ask q k id l r' a :
    runKey k → th_asks (wd_th w k) ≡ₚ (id, None) :: l → portAsk q k (wd_reg w) = (r', a) →
    run_step w {| wd_reg := r'; wd_th := <[k := with_asks ((id, Some a) :: l) (wd_th w k)]> (wd_th w) |}
| run_end k id a l r' res s :
    runKey k → th_asks (wd_th w k) ≡ₚ (id, Some a) :: l → portEnd k id a (wd_reg w) = (r', res, s) →
    run_step w {| wd_reg := r'; wd_th := <[k := with_asks l (wd_th w k)]> (wd_th w) |}
| run_mark enrolled now r' ds s :
    (∀ k, th_dues (wd_th w k) = [] ∧ th_gone (wd_th w k) = []) →
    quiet (wd_reg w) (λ k ru, expires enrolled now (wd_reg w) k ru = true) →
    sweepMark enrolled now (wd_reg w) = (r', ds, s) →
    run_step w {| wd_reg := r'; wd_th := λ k, with_dues (filter (λ d, du_key d = k) ds) [] (wd_th w k) |}
| run_keep d l :
    runKey (du_key d) → th_dues (wd_th w (du_key d)) ≡ₚ d :: l →
    run_step w {| wd_reg := wd_reg w;
      wd_th := <[du_key d := with_dues l (th_gone (wd_th w (du_key d))) (wd_th w (du_key d))]> (wd_th w) |}
| run_free d l :
    runKey (du_key d) → th_dues (wd_th w (du_key d)) ≡ₚ d :: l →
    run_step w {| wd_reg := sweepFree d (wd_reg w);
      wd_th := <[du_key d := with_dues l (d :: th_gone (wd_th w (du_key d))) (wd_th w (du_key d))]> (wd_th w) |}
| run_gone d l r' s :
    runKey (du_key d) → th_gone (wd_th w (du_key d)) ≡ₚ d :: l → sweepGone d (wd_reg w) = (r', s) →
    run_step w {| wd_reg := r';
      wd_th := <[du_key d := with_dues (th_dues (wd_th w (du_key d))) l (wd_th w (du_key d))]> (wd_th w) |}
| run_drop account r' s :
    quiet (wd_reg w) (λ k _, k.1 = account) → Drop account (wd_reg w) = (r', s) →
    run_step w {| wd_reg := r'; wd_th := wd_th w |}
| run_write ok s : run_step w {| wd_reg := write ok s (wd_reg w); wd_th := wd_th w |}
| run_others p' :
    rp_ok p' → rp_bound (rg_ports (wd_reg w)) ≤ rp_bound p' → (∀ k, runKey k → rp_held p' !! k = held w !! k) →
    run_step w {| wd_reg := with_ports p' (wd_reg w); wd_th := wd_th w |}.

(** ** The invariant, one key at a time *)

Definition due_of (ru : run) (d : due) : Prop := ru_id ru = du_id d.

Record key_ok (o : option run) (h : option holding) (bound : Z) (ids : nat) (t : threads) : Prop := {
  ko_held : ∀ port token b, h = Some (port, token, b) → b = true ∧ port ≠ 0 ∧ 0 < token ≤ bound;
  ko_id : ∀ ru, o = Some ru → (ru_id ru < ids)%nat;
  ko_conns : ∀ id, id ∈ th_conns t → (id < ids)%nat;
  ko_count : ∀ ru, o = Some ru → ru_conns ru = occ (ru_id ru) (th_conns t) ∧ ru_allocating ru = occ (ru_id ru) (th_asks t).*1;
  ko_live : ∀ ru, o = Some ru → ru_state ru = Live ↔ 0 < ru_conns ru;
  ko_ask : ∀ id a, (id, a) ∈ th_asks t → ∃ ru, o = Some ru ∧ ru_id ru = id ∧ ru_state ru ≠ Cleaning;
  ko_answer : ∀ id port token, (id, Some (Some (port, token))) ∈ th_asks t → h = Some (port, token, true);
  ko_portless : ∀ ru, o = Some ru → ru_port ru = 0 → ru_token ru = 0;
  ko_port : ∀ ru, o = Some ru → ru_state ru ≠ Cleaning → ru_port ru ≠ 0 → h = Some (ru_port ru, ru_token ru, true);
  ko_cleaning : ∀ ru, o = Some ru → ru_state ru = Cleaning → ru_token ru ≠ 0 →
    h = Some (ru_port ru, ru_token ru, true) ∨ ∃ d, d ∈ th_gone t ∧ due_of ru d;
  ko_leak : ∀ port token b, h = Some (port, token, b) →
    (∃ ru, o = Some ru ∧ ru_port ru = port ∧ ru_token ru = token) ∨ ∃ id, (id, Some (Some (port, token))) ∈ th_asks t;
  ko_due : ∀ d, d ∈ th_dues t → (du_id d < ids)%nat ∧ (du_token d ≠ 0 → du_token d ≤ bound) ∧
    (∀ ru, o = Some ru → due_of ru d → ru_state ru = Cleaning ∧ ru_token ru = du_token d) ∧
    (∀ port b, h = Some (port, du_token d, b) → ∃ ru, o = Some ru ∧ due_of ru d);
  ko_gone : ∀ d, d ∈ th_gone t → (du_id d < ids)%nat ∧ ∀ ru, o = Some ru → due_of ru d → ru_state ru = Cleaning ∧ h = None
}.

Record world_ok (w : world) : Prop := {
  wo_ports : rp_ok (rg_ports (wd_reg w));
  wo_key : ∀ k, runKey k →
    key_ok (rg_runs (wd_reg w) !! k) (held w !! k) (rp_bound (rg_ports (wd_reg w))) (rg_ids (wd_reg w)) (wd_th w k)
}.

(** A step leaves every other key alone. *)
Lemma key_ok_mono o h bound bound' ids ids' t :
  bound ≤ bound' → (ids ≤ ids')%nat → key_ok o h bound ids t → key_ok o h bound' ids' t.
Proof.
  intros Hb Hi K. destruct K. split; auto.
  - intros port token b E. destruct (ko_held0 _ _ _ E) as (? & ? & ?). split_and!; try done; lia.
  - intros ru E. specialize (ko_id0 _ E). lia.
  - intros id E. specialize (ko_conns0 _ E). lia.
  - intros d E. destruct (ko_due0 _ E) as (? & ? & ? & ?). split_and!; try done; lia.
  - intros d E. destruct (ko_gone0 _ E) as (? & ?). split; [lia|done].
Qed.

Lemma world_at k w w' :
  world_ok w → rp_ok (rg_ports (wd_reg w')) → rp_bound (rg_ports (wd_reg w)) ≤ rp_bound (rg_ports (wd_reg w')) →
  (rg_ids (wd_reg w) ≤ rg_ids (wd_reg w'))%nat →
  (∀ k', runKey k' → k' ≠ k → rg_runs (wd_reg w') !! k' = rg_runs (wd_reg w) !! k' ∧ held w' !! k' = held w !! k' ∧ wd_th w' k' = wd_th w k') →
  (runKey k → key_ok (rg_runs (wd_reg w') !! k) (held w' !! k) (rp_bound (rg_ports (wd_reg w'))) (rg_ids (wd_reg w')) (wd_th w' k)) →
  world_ok w'.
Proof.
  intros [W1 W2] Hok Hb Hi Hother Hk. split; [done|]. intros k' Hk'.
  destruct (decide (k' = k)) as [->|Hne]; [auto|].
  destruct (Hother _ Hk' Hne) as (-> & -> & ->). eapply key_ok_mono; eauto.
Qed.

(** ** Each call, at its key *)

Lemma no_asks o h bound ids t : key_ok o h bound ids t → (∀ ru, o = Some ru → ru_state ru = Cleaning ∨ ru_allocating ru = 0) → th_asks t = [].
Proof.
  intros K Hq. destruct (th_asks t) as [|[id a] l] eqn:E; [done|].
  destruct (ko_ask _ _ _ _ _ K id a) as (ru & -> & Hid & Hc); [rewrite E; left|].
  destruct (Hq _ eq_refl) as [|Ha]; [done|]. destruct (ko_count _ _ _ _ _ K _ eq_refl) as [_ Hn].
  rewrite Ha in Hn. assert (0 < occ (ru_id ru) (th_asks t).*1); [|lia]. apply occ_pos. rewrite E, <- Hid. left.
Qed.

(** With no call under way, a key without a port holds none. *)
Lemma portless_holds_none o h bound ids t :
  key_ok o h bound ids t → (∀ ru, o = Some ru → ru_port ru = 0) → th_asks t = [] → h = None.
Proof.
  intros K Hp Ha. destruct h as [[[port token] b]|]; [|done].
  destruct (ko_held _ _ _ _ _ K _ _ _ eq_refl) as (_ & Hne & _).
  destruct (ko_leak _ _ _ _ _ K _ _ _ eq_refl) as [(ru & Hru & <- & _)|(id & Hin)].
  - by destruct Hne; apply Hp.
  - rewrite Ha in Hin. by apply elem_of_nil in Hin.
Qed.

Lemma attach_new now h bound ids t :
  key_ok None h bound ids t →
  key_ok (Some (attached now (newRun ids))) h bound (S ids) (with_conns (ids :: th_conns t) t).
Proof.
  intros K. assert (th_asks t = []) as Ha by by eapply no_asks.
  assert (h = None) as -> by by eapply portless_holds_none.
  assert (occ ids (th_conns t) = 0) as Ho by (apply occ_fresh, (ko_conns _ _ _ _ _ K)).
  destruct K. split; cbn [with_conns th_conns th_asks th_dues th_gone]; try done.
  - intros ru [= <-]. simpl. lia.
  - intros id [->|Hin]%elem_of_cons; [lia|]. specialize (ko_conns0 _ Hin). lia.
  - intros ru [= <-]. rewrite Ha, occ_cons. simpl. rewrite Ho, decide_True by done. done.
  - intros ru [= <-]. simpl. done.
  - rewrite Ha. by intros id a ?%elem_of_nil.
  - by intros ru [= <-].
  - by intros ru [= <-].
  - by intros ru [= <-].
  - intros d Hd. destruct (ko_due0 _ Hd) as (? & ? & _). split_and!; try done; [lia|]. intros ru [= <-] Hof. unfold due_of in Hof. simpl in Hof. lia.
  - intros d Hd. destruct (ko_gone0 _ Hd) as (? & _). split; [lia|]. intros ru [= <-] Hof. unfold due_of in Hof. simpl in Hof. lia.
Qed.

(** A run that is not being cleaned up, changed with the calls of its key. *)
Lemma update_run ru ru' h h' b b' ids t t' :
  key_ok (Some ru) h b ids t → ru_state ru ≠ Cleaning → ru_state ru' ≠ Cleaning → ru_id ru' = ru_id ru →
  b ≤ b' → h' = h ∨ (∃ port token, h' = Some (port, token, true) ∧ port ≠ 0 ∧ 0 < token ∧ b < token ≤ b') →
  (∀ id, id ∈ th_conns t' → (id < ids)%nat) →
  ru_conns ru' = occ (ru_id ru) (th_conns t') → ru_allocating ru' = occ (ru_id ru) (th_asks t').*1 →
  (ru_state ru' = Live ↔ 0 < ru_conns ru') →
  (∀ id a, (id, a) ∈ th_asks t' → id = ru_id ru ∧ ∀ port token, a = Some (Some (port, token)) → h' = Some (port, token, true)) →
  (ru_port ru' = 0 → ru_token ru' = 0) → (ru_port ru' ≠ 0 → h' = Some (ru_port ru', ru_token ru', true)) →
  (∀ port token, h' = Some (port, token, true) → ru_port ru' ≠ 0 ∨ ∃ id, (id, Some (Some (port, token))) ∈ th_asks t') →
  th_dues t' = th_dues t → th_gone t' = th_gone t → key_ok (Some ru') h' b' ids t'.
Proof.
  intros K Hc Hc' Hid Hb Hh Hconns Hnc Hna Hlive Hasks Hpl Hp Hleak Hd Hg.
  assert (∀ d, d ∈ th_dues t → ¬ due_of ru' d) as Hdue.
  { intros d Hin Hof. destruct (ko_due _ _ _ _ _ K d Hin) as (_ & _ & Hr & _). unfold due_of in Hof. rewrite Hid in Hof. by destruct (Hr _ eq_refl Hof). }
  assert (∀ d, d ∈ th_gone t → ¬ due_of ru' d) as Hgone.
  { intros d Hin Hof. destruct (ko_gone _ _ _ _ _ K d Hin) as (_ & Hr). unfold due_of in Hof. rewrite Hid in Hof. by destruct (Hr _ eq_refl Hof). }
  assert (∀ port token bb, h' = Some (port, token, bb) → bb = true ∧ port ≠ 0 ∧ 0 < token ≤ b') as Hheld.
  { intros port token bb E. destruct Hh as [->|(port' & token' & -> & ? & ? & ?)]; [|injection E as <- <- <-; split_and!; try done; lia].
    destruct (ko_held _ _ _ _ _ K _ _ _ E) as (? & ? & ?). split_and!; try done; lia. }
  split; rewrite ?Hd, ?Hg; try (by intros ru0 [= <-]); try done.
  - intros ru0 [= <-]. rewrite Hid. by apply (ko_id _ _ _ _ _ K).
  - intros ru0 [= <-]. rewrite Hid. done.
  - intros id a Hin. exists ru'. split_and!; try done. rewrite Hid. symmetry. by eapply Hasks.
  - intros id port token Hin. destruct (Hasks _ _ Hin) as [_ Ha]. by apply Ha.
  - intros port token bb E. destruct (Hheld _ _ _ E) as (-> & _). destruct (Hleak _ _ E) as [Hne|Hex]; [|by right].
    left. exists ru'. rewrite (Hp Hne) in E. by injection E as <- <-.
  - intros d Hin. destruct (ko_due _ _ _ _ _ K d Hin) as (? & ? & _ & Hr). split_and!; try done; [lia| |].
    + intros ru0 [= <-] Hof. by destruct (Hdue d Hin).
    + intros port bb E. destruct Hh as [->|(port' & token' & -> & ? & ? & ?)]; [|injection E as -> ->; lia].
      destruct (Hr _ _ E) as (ru0 & [= <-] & Hof). exfalso. apply (Hdue d Hin). unfold due_of in *. congruence.
  - intros d Hin. destruct (ko_gone _ _ _ _ _ K d Hin) as (? & _). split; [done|]. intros ru0 [= <-] Hof. by destruct (Hgone d Hin).
Qed.

(** What [update_run] asks of what did not change. *)
Lemma asks_own ru h b ids t :
  key_ok (Some ru) h b ids t →
  ∀ id a, (id, a) ∈ th_asks t → id = ru_id ru ∧ ∀ port token, a = Some (Some (port, token)) → h = Some (port, token, true).
Proof.
  intros K id a Hin. destruct (ko_ask _ _ _ _ _ K _ _ Hin) as (ru0 & [= <-] & <- & _). split; [done|].
  intros port token ->. by apply (ko_answer _ _ _ _ _ K _ _ _ Hin).
Qed.

Lemma leak_own ru h b ids t :
  key_ok (Some ru) h b ids t →
  ∀ port token, h = Some (port, token, true) → ru_port ru ≠ 0 ∨ ∃ id, (id, Some (Some (port, token))) ∈ th_asks t.
Proof.
  intros K port token Hh. destruct (ko_leak _ _ _ _ _ K _ _ _ Hh) as [(ru0 & [= <-] & <- & _)|]; [|by right].
  left. by apply (ko_held _ _ _ _ _ K _ _ _ Hh).
Qed.

(** The run is deleted; it holds nothing. *)
Lemma delete_run o h b ids t t' :
  key_ok o h b ids t → h = None → th_asks t' = [] → (∀ id, id ∈ th_conns t' → (id < ids)%nat) →
  (∀ d, d ∈ th_dues t' → d ∈ th_dues t) → (∀ d, d ∈ th_gone t' → d ∈ th_gone t) → key_ok None h b ids t'.
Proof.
  intros K -> Ha Hconns Hd Hg. split; try done.
  - rewrite Ha. by intros id a ?%elem_of_nil.
  - rewrite Ha. by intros id port token ?%elem_of_nil.
  - intros d Hin. destruct (ko_due _ _ _ _ _ K d (Hd _ Hin)) as (? & ? & _). done.
  - intros d Hin. destruct (ko_gone _ _ _ _ _ K d (Hg _ Hin)) as (? & _). done.
Qed.

(** No run, and no call but old connections and sweeps. *)
Lemma no_run_conns h b ids t l :
  key_ok None h b ids t → (∀ id, id ∈ l → id ∈ th_conns t) → key_ok None h b ids (with_conns l t).
Proof. intros K Hl. destruct K. by split; cbn [with_conns th_conns th_asks th_dues th_gone]; eauto. Qed.

(** ** Each call preserves the invariant *)

Ltac reg_simpl := unfold held; cbn [wd_reg wd_th fst snd takeSnapshot with_runs with_ports rg_runs rg_ports rg_ids rg_Max rg_Grace rg_gen rg_written rg_disk].
Ltac others := intros ? _ ?; rewrite ?lookup_insert_ne, ?lookup_delete_ne, ?fn_lookup_insert_ne by done; done.

Lemma attach_ok w now k r' res s :
  world_ok w → runKey k → Attach now k (wd_reg w) = (r', res, s) →
  world_ok {| wd_reg := r';
    wd_th := match res with Ok id => <[k := with_conns (id :: th_conns (wd_th w k)) (wd_th w k)]> (wd_th w) | Err _ => wd_th w end |}.
Proof.
  intros W Hk E. pose proof (wo_key _ W k Hk) as K. unfold Attach in E. destruct (rg_runs (wd_reg w) !! k) as [ru|] eqn:Er.
  - case_bool_decide as Hc; [injection E as <- <- <-; by destruct w|]. injection E as <- <- <-.
    apply (world_at k w); reg_simpl; [done|apply W|lia|lia|others|]. intros _. rewrite lookup_insert_eq, fn_lookup_insert.
    destruct (ko_count _ _ _ _ _ K _ eq_refl) as [Hn Ha]. pose proof (occ_nonneg (ru_id ru) (th_conns (wd_th w k))).
    eapply (update_run ru); [exact K|..]; cbn; eauto using asks_own, leak_own, ko_portless, ko_port; try done; try lia.
    + intros id [->|Hin]%elem_of_cons; [by apply (ko_id _ _ _ _ _ K)|by apply (ko_conns _ _ _ _ _ K)].
    + rewrite occ_cons, decide_True by done. lia.
    + split; [lia|done].
  - destruct (_ <=? _); [injection E as <- <- <-; by destruct w|]. injection E as <- <- <-.
    apply (world_at k w); reg_simpl; [done|apply W|lia|lia|others|]. intros _. rewrite lookup_insert_eq, fn_lookup_insert. by apply attach_new.
Qed.

Lemma detach_ok w now k id l r' s :
  world_ok w → runKey k → th_conns (wd_th w k) ≡ₚ id :: l → detach now k id (wd_reg w) = (r', s) →
  world_ok {| wd_reg := r'; wd_th := <[k := with_conns l (wd_th w k)]> (wd_th w) |}.
Proof.
  intros W Hk Hl E. pose proof (wo_key _ W k Hk) as K.
  assert (∀ x, x ∈ l → (x < rg_ids (wd_reg w))%nat) as Hlt by (intros x Hx; apply (ko_conns _ _ _ _ _ K); rewrite Hl; by right).
  unfold detach in E. destruct (rg_runs (wd_reg w) !! k) as [ru|] eqn:Er.
  2: { injection E as <- <-. apply (world_at k w); reg_simpl; [done|apply W|lia|lia|others|]. intros _. rewrite Er, fn_lookup_insert.
       apply no_run_conns; [done|]. intros x Hx. rewrite Hl. by right. }
  destruct (ko_count _ _ _ _ _ K _ eq_refl) as [Hn Ha]. rewrite Hl, occ_cons in Hn. pose proof (occ_nonneg (ru_id ru) l) as Hnn.
  destruct (Nat.eqb_spec (ru_id ru) id) as [Hid|Hid]; cbn [negb] in E.
  - rewrite decide_True in Hn by done. assert (ru_state ru = Live) as HL by (apply (ko_live _ _ _ _ _ K _ eq_refl); lia).
    cbn [detached ru_conns ru_port ru_allocating] in E. destruct (Z.ltb_spec 0 (ru_conns ru - 1)) as [Hpos|Hz].
    + injection E as <- <-. apply (world_at k w); reg_simpl; [done|apply W|lia|lia|others|]. intros _. rewrite lookup_insert_eq, fn_lookup_insert.
      eapply (update_run ru); [exact K|..]; cbn; eauto using asks_own, leak_own, ko_portless; try congruence; try lia.
      * rewrite HL. split; [lia|done].
      * apply (ko_port _ _ _ _ _ K); [done|]. by rewrite HL.
    + destruct ((ru_port ru =? 0) && (ru_allocating ru =? 0)) eqn:Eend; injection E as <- <-; bool_to_prop.
      * assert (th_asks (wd_th w k) = []) as Hna by (eapply no_asks; [exact K|]; intros ? [= <-]; auto).
        assert (held w !! k = None) as Hh by (eapply portless_holds_none; [exact K| |done]; by intros ? [= <-]).
        apply (world_at k w); reg_simpl; [done|apply W|lia|lia|others|]. intros _. rewrite lookup_delete_eq, fn_lookup_insert.
        by eapply delete_run; [exact K|..].
      * apply (world_at k w); reg_simpl; [done|apply W|lia|lia|others|]. intros _. rewrite lookup_insert_eq, fn_lookup_insert.
        eapply (update_run ru); [exact K|..]; cbn; eauto using asks_own, leak_own, ko_portless; try congruence; try lia.
        -- split; [done|lia].
        -- apply (ko_port _ _ _ _ _ K); [done|]. by rewrite HL.
  - rewrite decide_False in Hn by done. injection E as <- <-.
    apply (world_at k w); reg_simpl; [done|apply W|lia|lia|others|]. intros _. rewrite Er, fn_lookup_insert.
    destruct K as [? ? ? C ? ? ? ? ? ? ? ? ?]. split; cbn [with_conns th_conns th_asks th_dues th_gone]; eauto.
    intros ru0 [= <-]. split; [lia|done].
Qed.

Lemma begin_ok w k r' b :
  world_ok w → runKey k → portBegin k (wd_reg w) = (r', b) →
  world_ok {| wd_reg := r';
    wd_th := match b with Asking id => <[k := with_asks ((id, None) :: th_asks (wd_th w k)) (wd_th w k)]> (wd_th w) | _ => wd_th w end |}.
Proof.
  intros W Hk E. pose proof (wo_key _ W k Hk) as K. unfold portBegin in E.
  destruct (rg_runs (wd_reg w) !! k) as [ru|] eqn:Er; [|injection E as <- <-; by destruct w].
  case_bool_decide as Hl; cbn [negb] in E; [|injection E as <- <-; by destruct w].
  destruct (Z.eqb_spec (ru_port ru) 0) as [Hz|]; cbn [negb] in E; [|injection E as <- <-; by destruct w].
  injection E as <- <-. destruct (ko_count _ _ _ _ _ K _ eq_refl) as [Hn Ha].
  apply (world_at k w); reg_simpl; [done|apply W|lia|lia|others|]. intros _. rewrite lookup_insert_eq, fn_lookup_insert.
  eapply (update_run ru); [exact K|..]; cbn; eauto using ko_portless, ko_conns; try congruence; try lia.
  - change (((ru_id ru, None) :: th_asks (wd_th w k)).*1) with (ru_id ru :: (th_asks (wd_th w k)).*1). rewrite occ_cons, decide_True by done. lia.
  - by apply (ko_live _ _ _ _ _ K).
  - intros id a [[= -> ->]|Hin]%elem_of_cons; [done|]. by eapply asks_own.
  - intros port token Hh. destruct (leak_own _ _ _ _ _ K _ _ Hh) as [|(id & Hin)]; [by left|]. right. exists id. by right.
Qed.

Lemma asks_perm {w k id a l} :
  th_asks (wd_th w k) ≡ₚ (id, a) :: l →
  (∀ x, x ∈ l → x ∈ th_asks (wd_th w k)) ∧ (id, a) ∈ th_asks (wd_th w k) ∧
  ∀ n, occ n (th_asks (wd_th w k)).*1 = occ n l.*1 + (if decide (id = n) then 1 else 0).
Proof.
  intros E. split_and!; [intros x Hx; rewrite E; by right|rewrite E; left|].
  intros n. rewrite E. change (((id, a) :: l).*1) with (id :: l.*1). by rewrite occ_cons.
Qed.

Lemma ask_ok w q k id l r' a :
  world_ok w → runKey k → th_asks (wd_th w k) ≡ₚ (id, None) :: l → portAsk q k (wd_reg w) = (r', a) →
  world_ok {| wd_reg := r'; wd_th := <[k := with_asks ((id, Some a) :: l) (wd_th w k)]> (wd_th w) |}.
Proof.
  intros W Hk Hl E. pose proof (wo_key _ W k Hk) as K. destruct (asks_perm Hl) as (Hin & Hhead & Hocc).
  destruct (ko_ask _ _ _ _ _ K _ _ Hhead) as (ru & Er & Hid & Hc). rewrite Er in K.
  unfold portAsk in E. destruct (rp_ForRun q k.1 k.2 (rg_ports (wd_reg w))) as [p' a'] eqn:Ef. injection E as <- <-.
  destruct (runNames _ Hk). apply rp_ForRun_ok in Ef as (Hok & Hb & Hf); [|apply W|done..].
  destruct (ko_count _ _ _ _ _ K _ eq_refl) as [Hn Ha].
  assert (∀ k', k' ≠ k → rp_held p' !! k' = held w !! k') as Hother.
  { intros k' Hne. unfold held. destruct a' as [[port token]|]; [|by rewrite Hf].
    destruct Hf as [(bb & _ & ->)|(_ & _ & ->)]; [done|]. by rewrite lookup_insert_ne. }
  assert (rp_held p' !! k = held w !! k ∨
    ∃ port token, rp_held p' !! k = Some (port, token, true) ∧ port ≠ 0 ∧ 0 < token ∧ rp_bound (rg_ports (wd_reg w)) < token ≤ rp_bound p') as Hh.
  { unfold held. destruct a' as [[port token]|]; [|by left; rewrite Hf].
    destruct Hf as [(bb & _ & ->)|(_ & Ht & E)]; [by left|]. right. exists port, token.
    assert (rp_held p' !! k = Some (port, token, true)) as Ek by by rewrite E, lookup_insert_eq.
    destruct (rp_sound _ _ _ _ _ Hok Ek) as (? & ? & ?). split_and!; auto. }
  assert (∀ port token, a' = Some (port, token) → rp_held p' !! k = Some (port, token, true)) as Hans.
  { intros port token ->. destruct Hf as [(bb & Hbb & ->)|(_ & _ & ->)]; [|by rewrite lookup_insert_eq].
    destruct (ko_held _ _ _ _ _ K _ _ _ Hbb) as (-> & _). done. }
  assert (held w !! k ≠ None → rp_held p' !! k = held w !! k) as Hkeep.
  { destruct a' as [[port token]|]; [|by rewrite Hf]. destruct Hf as [(bb & _ & ->)|(Hnone & _)]; [done|]. by intros ?. }
  apply (world_at k w); reg_simpl; [done|done|done|lia| |].
  { intros k' _ Hne. rewrite fn_lookup_insert_ne by done. auto. }
  intros _. rewrite Er, fn_lookup_insert. eapply (update_run ru); [exact K|..]; cbn [with_asks th_conns th_asks th_dues th_gone]; eauto using ko_portless, ko_conns, ko_live.
  - rewrite Ha, Hocc. change (((id, Some a') :: l).*1) with (id :: l.*1). by rewrite occ_cons.
  - intros id' x [[= -> ->]|Hx]%elem_of_cons; [split; [done|]; intros port token [= E]; by apply Hans|].
    destruct (asks_own _ _ _ _ _ K _ _ (Hin _ Hx)) as [? Hx']. split; [done|]. intros port token ->. rewrite Hkeep; [by apply Hx'|]. by rewrite (Hx' _ _ eq_refl).
  - intros Hp. rewrite Hkeep; [|rewrite (ko_port _ _ _ _ _ K _ eq_refl Hc Hp)]; eauto using ko_port.
  - intros port token Hp. destruct a' as [[port' token']|].
    + right. exists id. rewrite (Hans _ _ eq_refl) in Hp. injection Hp as <- <-. left.
    + rewrite Hf in Hp. destruct (leak_own _ _ _ _ _ K _ _ Hp) as [|(id' & Hx)]; [by left|]. right. exists id'.
      rewrite Hl in Hx. apply elem_of_cons in Hx as [[=]|Hx]. by right.
Qed.

Lemma end_ok w k id a l r' res s :
  world_ok w → runKey k → th_asks (wd_th w k) ≡ₚ (id, Some a) :: l → portEnd k id a (wd_reg w) = (r', res, s) →
  world_ok {| wd_reg := r'; wd_th := <[k := with_asks l (wd_th w k)]> (wd_th w) |}.
Proof.
  intros W Hk Hl E. pose proof (wo_key _ W k Hk) as K. destruct (asks_perm Hl) as (Hin & Hhead & Hocc).
  destruct (ko_ask _ _ _ _ _ K _ _ Hhead) as (ru & Er & Hid & Hc). rewrite Er in K.
  destruct (ko_count _ _ _ _ _ K _ eq_refl) as [Hn Ha]. rewrite Hocc, decide_True in Ha by done. pose proof (occ_nonneg (ru_id ru) l.*1) as Hnn.
  assert (∀ id' x, (id', x) ∈ l → id' = ru_id ru ∧ ∀ port token, x = Some (Some (port, token)) → held w !! k = Some (port, token, true)) as Hown
    by (intros id' x Hx; by eapply asks_own; [exact K|apply Hin]).
  unfold portEnd in E. rewrite Er, Hid, Nat.eqb_refl in E. cbn [negb] in E. rewrite bool_decide_eq_false_2 in E by done.
  cbn [set_allocating ru_conns ru_port ru_allocating] in E.
  destruct a as [[port token]|].
  - pose proof (ko_answer _ _ _ _ _ K _ _ _ Hhead) as Hh. destruct (Z.eqb_spec (ru_port ru) 0) as [Hz|Hz]; injection E as <- <- <-.
    + apply (world_at k w); reg_simpl; [done|apply W|lia|lia|others|]. intros _. rewrite lookup_insert_eq, fn_lookup_insert.
      destruct (ko_held _ _ _ _ _ K _ _ _ Hh) as (_ & Hne & _).
      eapply (update_run ru); [exact K|..]; cbn; eauto using ko_conns, ko_live; try done; lia.
    + apply (world_at k w); reg_simpl; [done|apply W|lia|lia|others|]. intros _. rewrite lookup_insert_eq, fn_lookup_insert.
      eapply (update_run ru); [exact K|..]; cbn; eauto using ko_conns, ko_live, ko_port; try done; lia.
  - assert (∀ port token, held w !! k = Some (port, token, true) → ru_port ru ≠ 0 ∨ ∃ id', (id', Some (Some (port, token))) ∈ l) as Hleak.
    { intros port token Hh. destruct (leak_own _ _ _ _ _ K _ _ Hh) as [|(id' & Hx)]; [by left|]. right. exists id'.
      rewrite Hl in Hx. by apply elem_of_cons in Hx as [[=]|Hx]. }
    destruct (_ && _ && _) eqn:Eend; injection E as <- <- <-; bool_to_prop.
    + assert (l = []) as ->.
      { destruct l as [|[id' x] l]; [done|]. exfalso. destruct (Hown id' x) as [-> _]; [left|].
        assert (0 < occ (ru_id ru) (((ru_id ru, x) :: l).*1)) by (apply occ_pos; left). lia. }
      assert (held w !! k = None) as Hh.
      { destruct (held w !! k) as [[[port token] bb]|] eqn:Eh; [|done]. destruct (ko_held _ _ _ _ _ K _ _ _ eq_refl) as (-> & _).
        destruct (Hleak _ _ eq_refl) as [|(id' & ?%elem_of_nil)]; done. }
      apply (world_at k w); reg_simpl; [done|apply W|lia|lia| |].
      { intros k' _ Hne. rewrite lookup_delete_ne, lookup_insert_ne, fn_lookup_insert_ne by done. done. }
      intros _. rewrite lookup_delete_eq, fn_lookup_insert. eapply delete_run; [exact K|..]; eauto using ko_conns.
    + apply (world_at k w); reg_simpl; [done|apply W|lia|lia|others|]. intros _. rewrite lookup_insert_eq, fn_lookup_insert.
      eapply (update_run ru); [exact K|..]; cbn; eauto using ko_conns, ko_live, ko_port, ko_portless; try done; lia.
Qed.

(** A sweep marks what has expired. *)
Lemma mark_key (f : run → bool) o h b ids t ds :
  key_ok o h b ids t → th_gone t = [] →
  (∀ ru, o = Some ru → f ru = true → ru_state ru = Grace ∧ ru_allocating ru = 0) →
  (∀ d, d ∈ ds → ∃ ru, o = Some ru ∧ (f ru = true ∨ ru_state ru = Cleaning) ∧ due_of ru d ∧ du_token d = ru_token ru) →
  key_ok ((λ ru, if f ru then set_run_state Cleaning ru else ru) <$> o) h b ids (with_dues ds [] t).
Proof.
  intros K Hg Hf Hds. destruct o as [ru|].
  2: { destruct K. split; cbn; eauto; try done; intros d Hd; [by destruct (Hds _ Hd) as (? & ? & _)|by apply elem_of_nil in Hd]. }
  cbn [fmap option_fmap option_map]. set (ru' := if f ru then set_run_state Cleaning ru else ru).
  assert (ru_id ru' = ru_id ru ∧ ru_port ru' = ru_port ru ∧ ru_token ru' = ru_token ru ∧ ru_conns ru' = ru_conns ru ∧
          ru_allocating ru' = ru_allocating ru) as (Ei & Ep & Et & Ec & Ea) by (unfold ru'; by destruct (f ru)).
  assert (ru_state ru' = Cleaning ↔ f ru = true ∨ ru_state ru = Cleaning) as Hst by (unfold ru'; destruct (f ru); naive_solver).
  assert (ru_state ru' = Live ↔ ru_state ru = Live) as HL.
  { unfold ru'. destruct (f ru) eqn:E; [|done]. destruct (Hf _ eq_refl E) as [-> _]. done. }
  assert (f ru = true → th_asks t = []) as Hasks.
  { intros E. eapply no_asks; [exact K|]. intros ru0 [= <-]. right. by apply (Hf _ eq_refl E). }
  assert (ru_state ru' = Cleaning → ru_token ru ≠ 0 → h = Some (ru_port ru, ru_token ru, true)) as Hheld.
  { intros [E|E]%Hst Ht.
    - destruct (Hf _ eq_refl E) as [Hgr _]. apply (ko_port _ _ _ _ _ K); [done|by rewrite Hgr|]. intros Hz. by apply Ht, (ko_portless _ _ _ _ _ K).
    - destruct (ko_cleaning _ _ _ _ _ K _ eq_refl E Ht) as [|(d & Hd & _)]; [done|]. rewrite Hg in Hd. by apply elem_of_nil in Hd. }
  assert (∀ d, d ∈ ds → ru_state ru' = Cleaning ∧ due_of ru d ∧ du_token d = ru_token ru) as Hdue.
  { intros d Hd. destruct (Hds _ Hd) as (ru0 & [= <-] & ? & ? & ?). by rewrite Hst. }
  split; cbn [with_dues th_conns th_asks th_dues th_gone]; eauto using ko_held, ko_conns, ko_answer.
  - intros ru0 [= <-]. rewrite Ei. by apply (ko_id _ _ _ _ _ K).
  - intros ru0 [= <-]. rewrite Ei, Ec, Ea. by apply (ko_count _ _ _ _ _ K).
  - intros ru0 [= <-]. rewrite HL, Ec. by apply (ko_live _ _ _ _ _ K).
  - intros id a Hin. destruct (ko_ask _ _ _ _ _ K _ _ Hin) as (ru0 & [= <-] & <- & Hc). exists ru'. split_and!; [done..|].
    intros [E|]%Hst; [|done]. rewrite (Hasks E) in Hin. by apply elem_of_nil in Hin.
  - intros ru0 [= <-]. rewrite Ep, Et. by apply (ko_portless _ _ _ _ _ K).
  - intros ru0 [= <-]. rewrite Ep, Et. intros Hc. apply (ko_port _ _ _ _ _ K); [done|]. intros E. apply Hc, Hst. by right.
  - intros ru0 [= <-]. rewrite Ep, Et. auto.
  - intros port token bb E. destruct (ko_leak _ _ _ _ _ K _ _ _ E) as [(ru0 & [= <-] & ? & ?)|]; [left; exists ru'; by rewrite Ep, Et|by right].
  - intros d Hd. destruct (Hdue _ Hd) as (Hc & Hof & Htok). pose proof (ko_id _ _ _ _ _ K _ eq_refl) as Hid. split_and!.
    + unfold due_of in Hof. lia.
    + rewrite Htok. intros Hne. destruct (ko_held _ _ _ _ _ K _ _ _ (Hheld Hc Hne)) as (_ & _ & ?). lia.
    + intros ru0 [= <-] _. by rewrite Et.
    + intros. exists ru'. unfold due_of in *. by rewrite Ei.
  - by intros d ?%elem_of_nil.
Qed.

Lemma sweepMark_spec enrolled now (r : Registry P) r' ds s :
  sweepMark enrolled now r = (r', ds, s) →
  rg_runs r' = map_imap (λ k ru, Some (marked enrolled now r k ru)) (rg_runs r) ∧ rg_ports r' = rg_ports r ∧ rg_ids r' = rg_ids r ∧
  ∀ d, d ∈ ds → ∃ ru, rg_runs r !! du_key d = Some ru ∧ ru_state (marked enrolled now r (du_key d) ru) = Cleaning ∧
                      due_of ru d ∧ du_token d = ru_token ru.
Proof.
  unfold sweepMark. set (r1 := with_runs _ r). set (dues := omap _ _). intros E.
  assert (ds = dues) as -> by (destruct dues; cbn in E; by injection E).
  assert (rg_runs r' = rg_runs r1 ∧ rg_ports r' = rg_ports r1 ∧ rg_ids r' = rg_ids r1) as (-> & -> & ->).
  { destruct dues; cbn in E; by injection E as <- _. }
  split_and!; [done..|]. intros d Hd. unfold dues in Hd. apply list_elem_of_omap in Hd as ([k ru'] & Hin%elem_of_map_to_list & Ed).
  destruct (enrolled k.1 && bool_decide (ru_state ru' = Cleaning)) eqn:Ec; [|done]. injection Ed as <-. bool_to_prop. cbn [du_key].
  unfold r1 in Hin. cbn [with_runs rg_runs] in Hin. rewrite map_lookup_imap in Hin.
  destruct (rg_runs r !! k) as [ru|]; [|done]. injection Hin as <-. exists ru.
  assert (ru_id (marked enrolled now r k ru) = ru_id ru ∧ ru_token (marked enrolled now r k ru) = ru_token ru) as [Ei Et] by (unfold marked; by destruct (expires _ _ _ _ _)).
  split_and!; done.
Qed.

Lemma mark_ok w enrolled now r' ds s :
  world_ok w → (∀ k, th_dues (wd_th w k) = [] ∧ th_gone (wd_th w k) = []) →
  quiet (wd_reg w) (λ k ru, expires enrolled now (wd_reg w) k ru = true) →
  sweepMark enrolled now (wd_reg w) = (r', ds, s) →
  world_ok {| wd_reg := r'; wd_th := λ k, with_dues (filter (λ d, du_key d = k) ds) [] (wd_th w k) |}.
Proof.
  intros W Hnone Hq E. apply sweepMark_spec in E as (Er & Ep & Ei & Hds). split; reg_simpl; rewrite ?Ep; [apply W|].
  intros k Hk. pose proof (wo_key _ W k Hk) as K. rewrite Er, Ei, map_lookup_imap.
  assert ((rg_runs (wd_reg w) !! k ≫= λ ru, Some (marked enrolled now (wd_reg w) k ru)) =
          (λ ru, if expires enrolled now (wd_reg w) k ru then set_run_state Cleaning ru else ru) <$> rg_runs (wd_reg w) !! k) as ->
    by by destruct (rg_runs (wd_reg w) !! k).
  apply mark_key; [done|by apply Hnone| |].
  - intros ru Hru Hex. split; [|by eapply Hq]. unfold expires in Hex. bool_to_prop. done.
  - intros d [<- Hd]%list_elem_of_filter. destruct (Hds _ Hd) as (ru & Hru & Hm & Hof & Ht). exists ru. split_and!; try done.
    unfold marked in Hm. destruct (expires _ _ _ _ _); auto.
Qed.

(** Fewer runs to clean. *)
Lemma fewer_dues o h b ids t l :
  key_ok o h b ids t → (∀ d, d ∈ l → d ∈ th_dues t) → key_ok o h b ids (with_dues l (th_gone t) t).
Proof. intros K Hl. destruct K. split; cbn; eauto. Qed.

Lemma keep_ok w d l :
  world_ok w → runKey (du_key d) → th_dues (wd_th w (du_key d)) ≡ₚ d :: l →
  world_ok {| wd_reg := wd_reg w;
    wd_th := <[du_key d := with_dues l (th_gone (wd_th w (du_key d))) (wd_th w (du_key d))]> (wd_th w) |}.
Proof.
  intros W Hk Hl. apply (world_at (du_key d) w); reg_simpl; [done|apply W|lia|lia|others|]. intros _. rewrite fn_lookup_insert.
  apply fewer_dues; [by apply (wo_key _ W)|]. intros d' Hd'. rewrite Hl. by right.
Qed.

(** Nothing but the run a sweep cleans has its token. *)
Lemma due_holds o h b ids t d port bb :
  key_ok o h b ids t → d ∈ th_dues t → h = Some (port, du_token d, bb) →
  ∃ ru, o = Some ru ∧ due_of ru d ∧ ru_state ru = Cleaning ∧ ru_token ru = du_token d.
Proof.
  intros K Hd Hh. destruct (ko_due _ _ _ _ _ K _ Hd) as (_ & _ & Hr & Hx). destruct (Hx _ _ Hh) as (ru & -> & Hof).
  destruct (Hr _ eq_refl Hof). eauto.
Qed.

Lemma cleaning_holds o h b ids t ru :
  key_ok o h b ids t → o = Some ru → ru_state ru = Cleaning → ∀ port token bb, h = Some (port, token, bb) → token = ru_token ru.
Proof.
  intros K -> Hc port token bb Hh. destruct (ko_leak _ _ _ _ _ K _ _ _ Hh) as [(ru0 & [= <-] & _ & ->)|(id & Hin)]; [done|].
  by destruct (ko_ask _ _ _ _ _ K _ _ Hin) as (ru0 & [= <-] & _ & ?).
Qed.

(** The sweep frees what it has cleaned: [h'] is what the key has then. *)
Lemma free_key o h h' b b' ids t d l :
  key_ok o h b ids t → d ∈ th_dues t → (∀ d', d' ∈ l → d' ∈ th_dues t) → b ≤ b' →
  (h' = h ∧ ∀ port bb, h = Some (port, du_token d, bb) → False) ∨ (h' = None ∧ ∃ port, h = Some (port, du_token d, true)) →
  key_ok o h' b' ids (with_dues l (d :: th_gone t) t).
Proof.
  intros K Hd Hl Hb Hh. destruct (ko_due _ _ _ _ _ K _ Hd) as (Hid & _ & Hr & _).
  apply (key_ok_mono _ _ b b' ids ids); [done|done|].
  assert (∀ ru, o = Some ru → due_of ru d → ru_state ru = Cleaning ∧ h' = None) as Hgone.
  { intros ru Hru Hof. destruct (Hr _ Hru Hof) as [Hc Ht]. split; [done|].
    destruct Hh as [[-> Hno]|[-> _]]; [|done]. destruct h as [[[port token] bb]|]; [|done].
    rewrite (cleaning_holds _ _ _ _ _ _ K Hru Hc _ _ _ eq_refl), Ht in Hno. by destruct (Hno _ _ eq_refl). }
  destruct Hh as [[-> Hno]|(-> & port & Hport)].
  - destruct K. split; cbn [with_dues th_conns th_asks th_dues th_gone]; eauto.
    + intros ru Hru Hc Ht. destruct (ko_cleaning0 _ Hru Hc Ht) as [|(d' & ? & ?)]; [by left|]. right. exists d'. split; [by right|done].
    + intros d' [->|Hd']%elem_of_cons; [done|by apply ko_gone0].
  - destruct (due_holds _ _ _ _ _ _ _ _ K Hd Hport) as (ru & -> & Hof & Hc & Ht).
    assert (th_asks t = []) as Ha by (eapply no_asks; [exact K|]; intros ? [= <-]; by left).
    destruct K. split; cbn [with_dues th_conns th_asks th_dues th_gone]; eauto; try done.
    + rewrite Ha. by intros ? ? ? ?%elem_of_nil.
    + by intros ru0 [= <-].
    + intros ru0 [= <-] _ _. right. exists d. split; [left|done].
    + intros d' Hd'. destruct (ko_due0 _ (Hl _ Hd')) as (? & ? & ? & _). done.
    + intros d' [->|Hd']%elem_of_cons; [done|]. destruct (ko_gone0 _ Hd') as [? Hg]. split; [done|]. intros ru0 [= <-] Ho. split; [done|]. done.
Qed.

Lemma free_ok w d l :
  world_ok w → runKey (du_key d) → th_dues (wd_th w (du_key d)) ≡ₚ d :: l →
  world_ok {| wd_reg := sweepFree d (wd_reg w);
    wd_th := <[du_key d := with_dues l (d :: th_gone (wd_th w (du_key d))) (wd_th w (du_key d))]> (wd_th w) |}.
Proof.
  intros W Hk Hl. pose proof (wo_key _ W _ Hk) as K. set (k := du_key d) in *.
  assert (d ∈ th_dues (wd_th w k)) as Hd by (rewrite Hl; left).
  assert (∀ d', d' ∈ l → d' ∈ th_dues (wd_th w k)) as Hl' by (intros; rewrite Hl; by right).
  unfold sweepFree. fold k. destruct (Z.eqb_spec (du_token d) 0) as [Hz|Hz].
  - apply (world_at k w); reg_simpl; [done|apply W|lia|lia|others|]. intros _. rewrite fn_lookup_insert.
    eapply free_key; [exact K|done..|lia|]. left. split; [done|]. intros port bb E. destruct (ko_held _ _ _ _ _ K _ _ _ E). lia.
  - destruct (rp_Free k.1 k.2 (du_token d) (rg_ports (wd_reg w))) as [p' b] eqn:Ef. apply rp_Free_ok in Ef as (Hok & Hb & Hf); [|apply W].
    apply (world_at k w); reg_simpl; [done|done|done|lia| |].
    { intros k' _ Hne. rewrite fn_lookup_insert_ne by done. split_and!; try done.
      destruct b; [destruct Hf as (_ & _ & ->); by rewrite lookup_delete_ne|by destruct Hf as [-> _]]. }
    intros _. rewrite fn_lookup_insert. eapply free_key; [exact K|done..|]. unfold held. destruct b.
    + destruct Hf as (Hex & _ & ->). right. rewrite lookup_delete_eq. done.
    + destruct Hf as [-> [|Hno]]; [done|]. left. split; [done|]. intros port bb E.
      destruct (ko_held _ _ _ _ _ K _ _ _ E) as (-> & _). by apply (Hno port).
Qed.

Lemma gone_ok w d l r' s :
  world_ok w → runKey (du_key d) → th_gone (wd_th w (du_key d)) ≡ₚ d :: l → sweepGone d (wd_reg w) = (r', s) →
  world_ok {| wd_reg := r';
    wd_th := <[du_key d := with_dues (th_dues (wd_th w (du_key d))) l (wd_th w (du_key d))]> (wd_th w) |}.
Proof.
  intros W Hk Hl E. pose proof (wo_key _ W _ Hk) as K. set (k := du_key d) in *. unfold sweepGone in E. fold k in E.
  destruct (ko_gone _ _ _ _ _ K d) as [_ Hg]; [rewrite Hl; left|].
  assert (∀ d', d' ∈ l → d' ∈ th_gone (wd_th w k)) as Hl' by (intros; rewrite Hl; by right).
  destruct (rg_runs (wd_reg w) !! k) as [ru|] eqn:Er; [destruct (Nat.eqb_spec (ru_id ru) (du_id d)) as [Hid|Hid]|]; injection E as <- <-;
    (apply (world_at k w); reg_simpl; [done|apply W|lia|lia|others|]); intros _; rewrite ?lookup_delete_eq, ?Er, fn_lookup_insert.
  - destruct (Hg _ eq_refl Hid) as [Hc Hh]. eapply delete_run; [exact K|done|..]; cbn; eauto using ko_conns.
    eapply no_asks; [exact K|]. intros ? [= <-]. by left.
  - destruct K. split; cbn; eauto. intros ru0 [= <-] Hc Ht. destruct (ko_cleaning0 _ eq_refl Hc Ht) as [|(d' & Hd' & Hof)]; [by left|].
    right. exists d'. split; [|done]. rewrite Hl in Hd'. apply elem_of_cons in Hd' as [->|]; [|done]. by destruct Hid.
  - destruct K. split; cbn; eauto; done.
Qed.

(** [Drop], run by run. *)
Lemma dropOne_ok w k ru :
  world_ok w → rg_runs (wd_reg w) !! k = Some ru → (runKey k → ru_allocating ru = 0) →
  world_ok {| wd_reg := dropOne (wd_reg w) (k, ru); wd_th := wd_th w |}.
Proof.
  intros W Er Hq. unfold dropOne. set (r1 := if _ : bool then _ else _).
  assert (rp_ok (rg_ports r1) ∧ rp_bound (rg_ports (wd_reg w)) ≤ rp_bound (rg_ports r1) ∧ rg_runs r1 = rg_runs (wd_reg w) ∧
    rg_ids r1 = rg_ids (wd_reg w) ∧ (∀ k', k' ≠ k → rp_held (rg_ports r1) !! k' = held w !! k') ∧
    (runKey k → rp_held (rg_ports r1) !! k = None)) as (Hok & Hb & E1 & E2 & Hother & Hk').
  { assert (runKey k → th_asks (wd_th w k) = []) as Hna.
    { intros Hk. eapply no_asks; [by apply (wo_key _ W)|]. rewrite Er. intros ru0 [= <-]. auto. }
    unfold r1. destruct (Z.eqb_spec (ru_port ru) 0) as [Hz|Hz].
    - split_and!; try done; [apply W|]. intros Hk. eapply portless_holds_none; [by apply (wo_key _ W)| |auto]. rewrite Er. by intros ? [= <-].
    - destruct (rp_Free k.1 k.2 (ru_token ru) (rg_ports (wd_reg w))) as [p' b] eqn:Ef. apply rp_Free_ok in Ef as (Hok & Hb & Hf); [|apply W].
      split_and!; try done; cbn [with_ports rg_ports fst].
      + intros k' Hne. destruct b; [destruct Hf as (_ & _ & ->); by rewrite lookup_delete_ne|by destruct Hf as [-> _]].
      + intros Hk. pose proof (wo_key _ W k Hk) as K. rewrite Er in K. destruct b; [destruct Hf as (_ & _ & ->); by rewrite lookup_delete_eq|].
        destruct Hf as [-> Hno]. change (rp_held (rg_ports (wd_reg w))) with (held w). destruct (held w !! k) as [[[port token] b]|] eqn:Eh; [|done].
        destruct (ko_held _ _ _ _ _ K _ _ _ eq_refl) as (-> & _ & Ht).
        destruct (ko_leak _ _ _ _ _ K _ _ _ eq_refl) as [(ru0 & [= <-] & _ & <-)|(id & Hin)].
        * destruct Hno as [Hz'|Hno]; [lia|]. by destruct (Hno port).
        * rewrite (Hna Hk) in Hin. by apply elem_of_nil in Hin. }
  apply (world_at k w); reg_simpl; rewrite ?E1, ?E2; [done|done|done|done| |].
  - intros k' _ Hne. rewrite lookup_delete_ne by done. auto.
  - intros Hk. pose proof (wo_key _ W k Hk) as K. rewrite Er in K. rewrite lookup_delete_eq, (Hk' Hk).
    assert (th_asks (wd_th w k) = []) as Hna by (eapply no_asks; [exact K|]; intros ? [= <-]; auto).
    apply (key_ok_mono _ _ (rp_bound (rg_ports (wd_reg w))) _ (rg_ids (wd_reg w))); [done|done|].
    split; eauto using ko_conns; try done.
    + rewrite Hna. by intros ? ? ?%elem_of_nil.
    + rewrite Hna. by intros ? ? ? ?%elem_of_nil.
    + intros d Hd. destruct (ko_due _ _ _ _ _ K _ Hd) as (? & ? & _). done.
    + intros d Hd. destruct (ko_gone _ _ _ _ _ K _ Hd) as (? & _). done.
Qed.

Lemma dropOne_runs (r : Registry P) kv : rg_runs (dropOne r kv) = delete kv.1 (rg_runs r).
Proof. destruct kv as [k ru]. unfold dropOne. by destruct (_ =? _). Qed.

Lemma drops_ok l r th :
  world_ok {| wd_reg := r; wd_th := th |} → NoDup l.*1 →
  (∀ k ru, (k, ru) ∈ l → rg_runs r !! k = Some ru ∧ (runKey k → ru_allocating ru = 0)) →
  world_ok {| wd_reg := foldl dropOne r l; wd_th := th |}.
Proof.
  revert r. induction l as [|[k ru] l IH]; intros r W Hnd Hl; [done|]. inversion Hnd as [|? ? Hni Hnd']; subst.
  destruct (Hl k ru) as [Hk Hq]; [left|]. cbn [foldl]. apply IH; [by apply (dropOne_ok _ k ru W)|done|].
  intros k' ru' Hin. rewrite dropOne_runs. cbn [fst]. rewrite lookup_delete_ne.
  - apply Hl. by right.
  - intros <-. apply Hni. apply list_elem_of_fmap. by exists (k, ru').
Qed.

Lemma drop_ok w account r' s :
  world_ok w → quiet (wd_reg w) (λ k _, k.1 = account) → Drop account (wd_reg w) = (r', s) →
  world_ok {| wd_reg := r'; wd_th := wd_th w |}.
Proof.
  intros W Hq E. unfold Drop in E. set (l := filter _ _) in E. set (r1 := foldl _ _ _) in E.
  assert (world_ok {| wd_reg := r1; wd_th := wd_th w |}) as W1.
  { apply drops_ok; [by destruct w| |].
    - eapply sublist_NoDup; [apply (NoDup_fst_map_to_list (rg_runs (wd_reg w)))|]. apply fmap_sublist, sublist_filter.
    - intros k ru [Ha Hin%elem_of_map_to_list]%list_elem_of_filter. split; [done|]. intros Hk. by eapply Hq. }
  injection E as <- <-. destruct W1 as [W1 W2]. split; [exact W1|exact W2].
Qed.

Lemma run_step_ok w w' : world_ok w → run_step w w' → world_ok w'.
Proof.
  intros W Hs. destruct Hs; eauto using attach_ok, detach_ok, begin_ok, ask_ok, end_ok, mark_ok, keep_ok, free_ok, gone_ok, drop_ok.
  - destruct W as [W1 W2]. unfold write. destruct (_ <=? _); by split.
  - destruct W as [W1 W2]. split; [done|]. intros k Hk. reg_simpl.
    match goal with H : ∀ k, runKey k → _ |- _ => rewrite (H k Hk) end. eapply key_ok_mono; [eassumption|reflexivity|by apply W2].
Qed.

(** ** An agent that starts *)

Lemma restored_key ids ru h b :
  ru_id ru = ids → ru_conns ru = 0 → ru_allocating ru = 0 → ru_state ru ≠ Live →
  (h = None ∧ ru_token ru = 0 ∧ ru_state ru = Cleaning) ∨
  (h = Some (ru_port ru, ru_token ru, true) ∧ ru_port ru ≠ 0 ∧ 0 < ru_token ru ≤ b) →
  key_ok (Some ru) h b (S ids) noThreads.
Proof.
  intros Hi Hc Ha Hs Hh. split; cbn; try (by intros ? ?%elem_of_nil); try (by intros ? ? ?%elem_of_nil); try (by intros ? ? ? ?%elem_of_nil).
  - destruct Hh as [[-> _]|(-> & ? & ?)]; [done|]. by intros ? ? ? [= <- <- <-].
  - intros ? [= <-]. lia.
  - intros ? [= <-]. by rewrite Hc, Ha.
  - intros ? [= <-]. rewrite Hc. split; [done|lia].
  - intros ? [= <-]. naive_solver.
  - intros ? [= <-]. naive_solver.
  - intros ? [= <-]. naive_solver.
  - destruct Hh as [[-> _]|(-> & ? & ?)]; [done|]. intros ? ? ? [= <- <- <-]. left. by exists ru.
Qed.

Lemma restoreOne_ok q now r e :
  world_ok {| wd_reg := r; wd_th := λ _, noThreads |} → runKey (et_key e) → rg_runs r !! et_key e = None →
  world_ok {| wd_reg := restoreOne q now r e; wd_th := λ _, noThreads |}.
Proof.
  intros W Hk Hn. pose proof (wo_key _ W _ Hk) as K. cbn [wd_reg wd_th] in K. rewrite Hn in K.
  assert (rp_held (rg_ports r) !! et_key e = None) as Hh by by eapply portless_holds_none; [exact K|..].
  unfold restoreOne. destruct (rp_Hold _ _ _ _ _) as [p' got] eqn:Eh. destruct (runNames _ Hk).
  apply rp_Hold_ok in Eh as (Hok & Hb & Hg); [|apply W|done..].
  eapply (world_at (et_key e)); [exact W|..]; reg_simpl; [done|done|lia| |].
  - intros k' _ Hne. rewrite lookup_insert_ne by done. split_and!; try done. destruct got as [token|]; [|by rewrite Hg].
    destruct Hg as [[? _]|(_ & _ & ->)]; [congruence|]. by rewrite lookup_insert_ne.
  - intros _. rewrite lookup_insert_eq. apply restored_key; cbn; try done.
    + destruct got; [|done]. case_bool_decide; done.
    + destruct got as [token|]; [|left; by rewrite Hg]. destruct Hg as [[? _]|(_ & Ht & E)]; [congruence|]. right.
      assert (rp_held p' !! et_key e = Some (et_port e, token, true)) as Ek by by rewrite E, lookup_insert_eq.
      destruct (rp_sound _ _ _ _ _ Hok Ek) as (? & ? & ?). split_and!; auto.
Qed.

(** A registry that has just been made, over a record that names each run once. *)
Record starts (r : Registry P) : Prop := {
  st_runs : rg_runs r = ∅;
  st_ports : rp_ok (rg_ports r);
  st_held : ∀ k, runKey k → rp_held (rg_ports r) !! k = None;
  st_record : NoDup (et_key <$> omap parseRun (rg_disk r));
  st_keys : Forall (λ e, runKey (et_key e)) (omap parseRun (rg_disk r))
}.

Lemma restores_ok q now l r :
  world_ok {| wd_reg := r; wd_th := λ _, noThreads |} → NoDup (et_key <$> l) →
  Forall (λ e, runKey (et_key e) ∧ rg_runs r !! et_key e = None) l →
  world_ok {| wd_reg := foldl (restoreOne q now) r l; wd_th := λ _, noThreads |}.
Proof.
  revert r. induction l as [|e l IH]; intros r W Hnd Hl; [done|]. inversion Hnd as [|? ? Hni Hnd']; subst. inversion Hl as [|? ? [Hk Hn] Hl']; subst.
  cbn [foldl]. apply IH; [by apply restoreOne_ok|done|]. apply Forall_forall. intros e' He'.
  rewrite Forall_forall in Hl'. destruct (Hl' e' He') as [Hk' Hn']. split; [done|].
  unfold restoreOne. destruct (rp_Hold _ _ _ _ _). cbn [rg_runs]. rewrite lookup_insert_ne; [done|].
  intros E. apply Hni. rewrite E. by apply list_elem_of_fmap_2.
Qed.

Lemma start_ok q now r : starts r → world_ok {| wd_reg := fst (Restore q now r); wd_th := λ _, noThreads |}.
Proof.
  intros [S1 S2 S3 S4 S5].
  assert (world_ok {| wd_reg := foldl (restoreOne q now) r (omap parseRun (rg_disk r)); wd_th := λ _, noThreads |}) as [W1 W2]; [|by split].
  apply restores_ok; [|done|].
  - split; [done|]. intros k Hk. reg_simpl. rewrite S1, lookup_empty, S3 by done.
    split; cbn; try done; try (by intros ? ?%elem_of_nil); try (by intros ? ? ?%elem_of_nil); by intros ? ? ? ?%elem_of_nil.
  - eapply Forall_impl; [exact S5|]. intros e He. by rewrite S1, lookup_empty.
Qed.

Definition runs_reachable (w : world) : Prop :=
  ∃ r q now, starts r ∧ rtc run_step {| wd_reg := fst (Restore q now r); wd_th := λ _, noThreads |} w.

Lemma runs_reachable_ok w : runs_reachable w → world_ok w.
Proof.
  intros (r & q & now & Hs & Hr). pose proof (start_ok q now r Hs) as W. clear Hs.
  induction Hr as [|? ? ? Hs Hr IH]; [done|]. apply IH. by eapply run_step_ok.
Qed.

(** C9 (invariant). A run keeps its port until it has been cleaned up: in any state the
    registry can reach, over any allocator that keeps the interface's laws, a run
    is live exactly while a connection counts for it; the port of a run that is
    not being cleaned up is the allocator's for that run, and of nobody else; an
    expired run still holds its port until a sweep whose [Cleanup] succeeded frees
    it; and no port leaks: what the allocator holds for a run belongs to a run of
    the registry or to a [Port] call under way.  No run may end while a [Port]
    call of it waits. *)
Theorem runs_keep_ports w k :
  runs_reachable w → runKey k →
  (∀ ru, rg_runs (wd_reg w) !! k = Some ru →
     (ru_state ru = Live ↔ 0 < ru_conns ru) ∧ ru_conns ru = occ (ru_id ru) (th_conns (wd_th w k)) ∧
     (ru_state ru ≠ Cleaning → ru_port ru ≠ 0 →
        held w !! k = Some (ru_port ru, ru_token ru, true) ∧
        ∀ k' token b, held w !! k' = Some (ru_port ru, token, b) → k' = k) ∧
     (ru_state ru = Cleaning → ru_token ru ≠ 0 → (∀ d, d ∈ th_gone (wd_th w k) → ru_id ru ≠ du_id d) →
        held w !! k = Some (ru_port ru, ru_token ru, true))) ∧
  (∀ port token b, held w !! k = Some (port, token, b) →
     (∃ ru, rg_runs (wd_reg w) !! k = Some ru ∧ ru_port ru = port ∧ ru_token ru = token) ∨
     ∃ id, (id, Some (Some (port, token))) ∈ th_asks (wd_th w k)).
Proof.
  intros W%runs_reachable_ok Hk. pose proof (wo_key _ W k Hk) as K. split; [|by apply K].
  intros ru Hru. split_and!; [by apply (ko_live _ _ _ _ _ K)|by apply (ko_count _ _ _ _ _ K)| |].
  - intros Hc Hp. pose proof (ko_port _ _ _ _ _ K _ Hru Hc Hp) as Hh. split; [done|]. intros k' token b Hh'.
    eapply rp_inj; [apply W|exact Hh'|exact Hh].
  - intros Hc Ht Hg. destruct (ko_cleaning _ _ _ _ _ K _ Hru Hc Ht) as [|(d & Hd & Hof)]; [done|]. by destruct (Hg d Hd).
Qed.

End runs.

(** ** The allocator keeps the interface's laws *)

Definition heldOf (e : entry) : holding := (en_port e, en_token e, en_ephemeral e).

Section allocator.
Context (M : Mapping) (valid : Validate M = None).

Lemma load_next env p p1 : load env p = Ok p1 → po_next p1 = po_next p.
Proof. unfold load. destruct (po_loaded p); [by intros [= <-]|]. destruct (negb _); [done|by intros [= <-]]. Qed.

(** A token is new when the entry is. *)
Lemma ForRun_next env a c p p' r :
  ForRun M env a c p = (p', r) → ports_ok p →
  po_next p ≤ po_next p' ∧ ∀ port token, r = Ok (port, token) → view p !! (a, c) = None → po_next p < token.
Proof.
  unfold ForRun. intros E Hok. destruct (entryOf _ _ _) as [p1 r1] eqn:Ee.
  pose proof (entryOf_spec _ _ _ _ _ Ee Hok) as (Hok1 & Hv1 & _ & Hr1 & _).
  assert (po_next p1 = po_next p) as Hn.
  { unfold entryOf in Ee. destruct (load env p) eqn:El; injection Ee as <- _; [by eapply load_next|done]. }
  destruct r1 as [[e|]|er]; [| |injection E as <- <-; split; [lia|done]].
  - injection E as <- <-. split; [lia|]. intros ? ? _. by destruct (Hr1 _ eq_refl) as [<- _].
  - destruct (pv_Preferred env) as [want|]; [|injection E as <- <-; split; [lia|done]].
    destruct (decidePort _ _ _ _ _ _ _) as [p2 r2] eqn:Ed. injection E as <- <-.
    unfold decidePort in Ed. destruct (load env p1) as [p3|] eqn:El; [|injection Ed as <- <-; split; [lia|done]].
    pose proof (load_next _ _ _ El) as Hn3. apply load_spec in El as (_ & _ & Ha & _); [|done]. rewrite Ha, Hv1 in Ed.
    destruct (view p !! (a, c)) as [e|] eqn:Ek; [injection Ed as <- <-; split; [lia|done]|].
    destruct (_ =? 0) in Ed; injection Ed as <- <-; cbn; split; try lia; [done|]. intros ? ? [= _ <-] _. lia.
Qed.

Lemma Hold_next env a c port p p' r :
  Hold M env a c port p = (p', r) → ports_ok p →
  po_next p ≤ po_next p' ∧ ∀ token, r = Some token → view p !! (a, c) = None → po_next p < token.
Proof.
  unfold Hold. intros E Hok. destruct (load env p) as [p1|er] eqn:El; [|injection E as <- <-; split; [lia|done]].
  pose proof (load_next _ _ _ El) as Hn. apply load_spec in El as (_ & _ & Ha & _); [|done]. rewrite Ha in E.
  destruct (view p !! (a, c)) as [e|]; [injection E as <- <-; split; [lia|done]|].
  destruct (takenIn _ _); [injection E as <- <-; split; [lia|done]|].
  destruct (negb _); injection E as <- <-; cbn; split; try lia; [done|]. intros ? [= <-] _. lia.
Qed.

Abbreviation heldBy p := (heldOf <$> view p).

Lemma heldBy_Some p k port token b :
  heldBy p !! k = Some (port, token, b) ↔ ∃ e, view p !! k = Some e ∧ port = en_port e ∧ token = en_token e ∧ b = en_ephemeral e.
Proof.
  rewrite lookup_fmap. unfold heldOf. destruct (view p !! k) as [e|]; cbn; [|naive_solver].
  split; [intros [= <- <- <-]; eauto|intros (e' & [= <-] & -> & -> & ->); done].
Qed.

Lemma heldBy_sound p k port token b :
  ports_ok p → heldBy p !! k = Some (port, token, b) → port ≠ 0 ∧ token ≤ po_next p ∧ (b = true → 0 < token).
Proof.
  intros Hok (e & Hk & -> & -> & ->)%heldBy_Some. destruct (pk_view _ Hok) as [_ H2 H3 _].
  destruct (H2 _ _ Hk) as [_ ?], (H3 _ _ Hk) as [? ?]. split_and!; [lia|lia|done].
Qed.

Lemma heldBy_inj p k1 k2 port t1 t2 b1 b2 :
  ports_ok p → heldBy p !! k1 = Some (port, t1, b1) → heldBy p !! k2 = Some (port, t2, b2) → k1 = k2.
Proof.
  intros Hok (e1 & Hk1 & -> & _)%heldBy_Some (e2 & Hk2 & E & _)%heldBy_Some. by eapply (ao_inj _ _ (pk_view _ Hok)).
Qed.

(** An answer on an entry the key had, or on a new one. *)
Lemma given_held reserved k v v' e next :
  given M reserved k None true v v' e → (v !! k = None → next < en_token e) →
  (∃ b, (heldOf <$> v) !! k = Some (en_port e, en_token e, b) ∧ b = en_ephemeral e ∧ heldOf <$> v' = heldOf <$> v) ∨
  ((heldOf <$> v) !! k = None ∧ next < en_token e ∧
   heldOf <$> v' = <[k := (en_port e, en_token e, true)]> (heldOf <$> v)).
Proof.
  intros [[Hk ->]|(Hk & -> & He & _)] Hn.
  - left. exists (en_ephemeral e). by rewrite lookup_fmap, Hk.
  - right. rewrite lookup_fmap, Hk, fmap_insert. unfold heldOf at 2. rewrite He. auto.
Qed.

Definition accountPorts_laws : @RunPortsLaws Ports portEnv (accountPorts M).
Proof.
  refine {| rp_ok := ports_ok; rp_held p := heldBy p; rp_bound := po_next; rp_name := plainText;
            rp_sound := heldBy_sound; rp_inj := heldBy_inj |}; cbn [rp_ForRun rp_Hold rp_Free accountPorts].
  - intros q [a c] p p' r Hok Ha Hc E. cbn [fst snd] in *. destruct (ForRun M q a c p) as [p1 r1] eqn:Ef. injection E as <- <-.
    destruct (ForRun_next _ _ _ _ _ _ Ef Hok) as [Hn Ht]. eapply ForRun_spec in Ef as [Hok1 Hs]; [|done..].
    split_and!; [done..|]. destruct r1 as [[port token]|er]; [|by destruct Hs as [-> _]].
    destruct Hs as (e & -> & -> & Hg). destruct (given_held _ _ _ _ _ (po_next p) Hg) as [(b & ? & _ & ?)|?]; eauto.
  - intros q [a c] port p p' r Hok Ha Hc E. cbn [fst snd] in *.
    destruct (Hold_next _ _ _ _ _ _ _ E Hok) as [Hn Ht]. eapply Hold_spec in E as [Hok1 Hs]; [|done..].
    split_and!; [done..|]. destruct r as [token|]; [|by rewrite Hs].
    destruct Hs as (e & -> & -> & He & Hg). destruct (given_held _ _ _ _ _ (po_next p) Hg) as [(b & ? & -> & ?)|?]; [by apply Ht| |by right].
    left. by rewrite <- He.
  - intros [a c] token p p' b Hok E. cbn [fst snd] in *. pose proof E as E0. eapply Free_spec in E as [Hok1 Hs]; [|done].
    assert (po_next p' = po_next p) as Hn.
    { unfold Free in E0. destruct (po_assigned p !! (a, c)); [destruct (_ && _)|]; by injection E0 as <- _. }
    split_and!; [done|lia|]. destruct b.
    + destruct Hs as (e & Hk & He & Ht & Hv). split_and!.
      * exists (en_port e). apply heldBy_Some. by exists e.
      * destruct (ao_token _ _ (pk_view _ Hok) _ _ Hk) as [_ Hpos]. specialize (Hpos He). lia.
      * by rewrite Hv, fmap_delete.
    + subst p'. split; [done|]. destruct (Z.eqb_spec token 0) as [|Hne]; [by left|]. right. intros port (e & Hk & _ & Ht & He)%heldBy_Some.
      unfold Free in E0. assert (po_loaded p = true → False) as Hl.
      { intros Hl. unfold view in Hk. rewrite Hl in Hk. rewrite Hk, <- He, Ht, Z.eqb_refl in E0.
        destruct (Z.eqb_spec (en_token e) 0); [by rewrite <- Ht in *|done]. }
      destruct (po_loaded p) eqn:El; [by apply Hl|]. unfold view in Hk. rewrite El in Hk.
      destruct (ao_token _ _ (pk_disk _ Hok) _ _ Hk). lia.
Defined.

End allocator.
