(* ===== verification/Tunnel.v ===== *)
(** * Datagrams over a byte stream (core/tunnel/datagram.go)

    A stream says nothing about where one write ended: a reader is the chunks its
    calls to [Read] will hand over, however the bytes were cut, and what the last
    call reports.  [ReadFull] is [io.ReadFull]; a byte is a [Z]. *)

From S2P Require Import Prelude.
Open Scope Z_scope.

Abbreviation byte := Z (only parsing).
Abbreviation bytes := (list Z) (only parsing).

Definition is_byte (b : byte) : Prop := 0 ≤ b < 256.

Definition MaxDatagram : Z := 65535.

(** What a call reports. *)
Inductive streamError :=
| EOF
| ErrUnexpectedEOF
| TooLarge (size limit : Z)
| Broken (why : string).

#[export] Instance streamError_eq_dec : EqDecision streamError.
Proof. solve_decision. Defined.

(** ** The reader *)

Record reader := {
  rd_chunks : list bytes;
  rd_end : streamError
}.

(** Every byte still to come. *)
Definition rest (r : reader) : bytes := mjoin (rd_chunks r).

(** The loop of [io.ReadAtLeast]: a call hands over at most one chunk, and no more
    than was asked for. *)
Fixpoint fill (n : nat) (cs : list bytes) : bytes * list bytes :=
  match n with
  | O => ([], cs)
  | _ =>
      match cs with
      | [] => ([], [])
      | c :: cs' =>
          if (n <? length c)%nat then (take n c, drop n c :: cs')
          else let '(got, after) := fill (n - length c) cs' in (c ++ got, after)
      end
  end.

Definition ReadFull (n : nat) (r : reader) : reader * res streamError bytes :=
  let '(got, after) := fill n (rd_chunks r) in
  let r' := {| rd_chunks := after; rd_end := rd_end r |} in
  (r', if (length got =? n)%nat then Ok got
       else if bool_decide (got = []) then Err (rd_end r)
       else if bool_decide (rd_end r = EOF) then Err ErrUnexpectedEOF
       else Err (rd_end r)).

(** ** The frame *)

(** [binary.BigEndian.PutUint16] of [uint16(n)], and [Uint16]. *)
Definition PutUint16 (n : Z) : bytes := let u := n mod 2 ^ 16 in [Z.shiftr u 8; Z.land u 255].
Definition Uint16 (hi lo : byte) : Z := Z.lor (Z.shiftl hi 8) lo.

(** [WriteDatagram]: the one [Write] it makes. *)
Definition WriteDatagram (payload : bytes) : res streamError bytes :=
  let n := Z.of_nat (length payload) in
  if MaxDatagram <? n then Err (TooLarge n MaxDatagram)
  else Ok (PutUint16 n ++ payload).

(** [ReadDatagram], into a buffer of [room] bytes: what is in its first bytes. *)
Definition ReadDatagram (room : nat) (r : reader) : reader * res streamError bytes :=
  match ReadFull 2 r with
  | (r1, Ok [hi; lo]) =>
      let size := Uint16 hi lo in
      if Z.of_nat room <? size then (r1, Err (TooLarge size (Z.of_nat room)))
      else ReadFull (Z.to_nat size) r1
  | (r1, Ok _) => (r1, Err EOF)
  | (r1, Err e) => (r1, Err e)
  end.

(** The loop of both ends of a flow: every datagram, until a read fails.  [fuel]
    bounds the datagrams. *)
Fixpoint readFlow (fuel : nat) (room : nat) (r : reader) : list bytes * option streamError :=
  match fuel with
  | O => ([], None)
  | S fuel' =>
      match ReadDatagram room r with
      | (r', Ok p) => let '(ps, e) := readFlow fuel' room r' in (p :: ps, e)
      | (_, Err e) => ([], Some e)
      end
  end.

(** ** Reading *)

Lemma fill_spec n cs got after :
  fill n cs = (got, after) → got = take n (mjoin cs) ∧ mjoin after = drop n (mjoin cs).
Proof.
  revert n got after. induction cs as [|c cs IH]; intros n got after.
  { destruct n; intros [= <- <-]; by rewrite ?take_nil, ?drop_nil. }
  rewrite mjoin_cons. destruct n as [|n]; [by intros [= <- <-]|]. cbn [fill].
  destruct (Nat.ltb_spec (S n) (length c)) as [Hlt|Hge].
  - intros [= <- <-]. rewrite mjoin_cons, take_app_le, drop_app_le by lia. done.
  - destruct (fill _ _) as [got' after'] eqn:E. intros [= <- <-]. apply IH in E as [-> ->].
    rewrite take_app_ge, drop_app_ge by lia. done.
Qed.

(** All the bytes asked for, when they are there. *)
Lemma ReadFull_enough n r :
  (n ≤ length (rest r))%nat →
  ∃ r', ReadFull n r = (r', Ok (take n (rest r))) ∧ rest r' = drop n (rest r) ∧ rd_end r' = rd_end r.
Proof.
  intros Hn. unfold ReadFull, rest in *. destruct (fill n (rd_chunks r)) as [got after] eqn:E.
  apply fill_spec in E as [-> Hl]. rewrite length_take, (proj2 (Nat.eqb_eq _ _)) by lia. eexists. split; [done|]. done.
Qed.

(** Otherwise what ended the stream, or [ErrUnexpectedEOF] where some came. *)
Lemma ReadFull_short n r :
  (length (rest r) < n)%nat →
  snd (ReadFull n r) = Err (if decide (rest r = []) then rd_end r else if decide (rd_end r = EOF) then ErrUnexpectedEOF else rd_end r).
Proof.
  intros Hn. unfold ReadFull, rest in *. destruct (fill n (rd_chunks r)) as [got after] eqn:E.
  apply fill_spec in E as [-> Hl]. rewrite length_take, (proj2 (Nat.eqb_neq _ _)) by lia. cbn [snd].
  rewrite take_ge by lia. rewrite !decide_bool_decide. by repeat case_bool_decide.
Qed.

Lemma Uint16_PutUint16 n : 0 ≤ n < 2 ^ 16 → ∃ hi lo, PutUint16 n = [hi; lo] ∧ Uint16 hi lo = n.
Proof.
  intros Hn. unfold PutUint16, Uint16. eexists _, _. split; [done|]. rewrite Z.mod_small by done.
  change 255 with (Z.ones 8). apply Z.bits_inj'. intros i Hi. rewrite Z.lor_spec, Z.land_spec.
  destruct (Z.ltb_spec i 8).
  - rewrite Z.shiftl_spec_low, Z.ones_spec_low by lia. by rewrite andb_true_r.
  - rewrite Z.shiftl_spec, Z.shiftr_spec, Z.ones_spec_high by lia. rewrite andb_false_r, orb_false_r. f_equal. lia.
Qed.

Ltac decide_all := repeat case_decide; simpl in *; destruct_or?; try done; try lia; naive_solver lia.

(** A frame that was written, on any cut of the stream. *)
Lemma WriteDatagram_Ok p f :
  WriteDatagram p = Ok f →
  Z.of_nat (length p) ≤ MaxDatagram ∧ length f = S (S (length p)) ∧
  ∃ hi lo, f = hi :: lo :: p ∧ Uint16 hi lo = Z.of_nat (length p).
Proof.
  unfold WriteDatagram, MaxDatagram. destruct (Z.ltb_spec 65535 (Z.of_nat (length p))) as [|Hle]; [done|]. intros E.
  assert (f = PutUint16 (Z.of_nat (length p)) ++ p) as -> by congruence.
  destruct (Uint16_PutUint16 (Z.of_nat (length p))) as (hi & lo & -> & Hu); [lia|]. split_and!; [lia|done|]. by exists hi, lo.
Qed.

Lemma ReadDatagram_whole room r p f tl :
  WriteDatagram p = Ok f → rest r = f ++ tl → (length p ≤ room)%nat →
  ∃ r', ReadDatagram room r = (r', Ok p) ∧ rest r' = tl ∧ rd_end r' = rd_end r.
Proof.
  intros (_ & Hlen & hi & lo & -> & Hu)%WriteDatagram_Ok Hr Hroom. unfold ReadDatagram.
  destruct (ReadFull_enough 2 r) as (r1 & -> & Hr1 & He1); [rewrite Hr; simpl; lia|]. rewrite Hr in *. cbn [take app] in *.
  rewrite Hu, (proj2 (Z.ltb_ge _ _)), Nat2Z.id by lia. cbn [drop] in Hr1. rewrite ?drop_0 in Hr1.
  destruct (ReadFull_enough (length p) r1) as (r2 & -> & Hr2 & He2); [rewrite Hr1, length_app; lia|].
  exists r2. rewrite Hr1, take_app_length. split_and!; [done| |congruence]. by rewrite Hr2, Hr1, drop_app_length.
Qed.

(** The same frame, with the stream ending inside it. *)
Lemma ReadDatagram_cut room r p f :
  WriteDatagram p = Ok f → (length p ≤ room)%nat → (length (rest r) < length f)%nat → rest r = take (length (rest r)) f → rd_end r = EOF →
  snd (ReadDatagram room r) =
  Err (if decide (length (rest r) = 0%nat ∨ length (rest r) = 2%nat) then EOF else ErrUnexpectedEOF).
Proof.
  intros (_ & Hlen & hi & lo & -> & Hu)%WriteDatagram_Ok Hroom Hshort Hr He. unfold ReadDatagram.
  destruct (decide (length (rest r) < 2)%nat) as [Hlt|Hge].
  - pose proof (ReadFull_short 2 r Hlt) as Hf. destruct (ReadFull 2 r) as [r1 x]. cbn [snd] in Hf. subst x. cbn [snd]. rewrite He.
    destruct (rest r) as [|? [|? ?]]; simpl in Hlt; [| |lia]; decide_all.
  - destruct (ReadFull_enough 2 r) as (r1 & -> & Hr1 & He1); [lia|].
    destruct (rest r) as [|a [|b l]] eqn:E; [simpl in Hge; lia..|]. cbn [take]. cbn in Hr. injection Hr as -> -> Hl.
    rewrite Hu, (proj2 (Z.ltb_ge _ _)), Nat2Z.id by lia. cbn [drop] in Hr1. rewrite ?drop_0 in Hr1.
    rewrite take_0.
    rewrite ReadFull_short by (rewrite Hr1; simpl in Hshort; lia). rewrite Hr1, He1, He.
    destruct l; cbn [length]; decide_all.
Qed.

(** ** The flow *)

(** Datagrams keep their boundaries: however the stream cuts and joins
    what was written, the loop that reads a flow gives back every datagram that
    [WriteDatagram] wrote, whole and in order, and then the end of the stream. *)
Theorem datagrams_roundtrip ps frames room r :
  Forall2 (λ p f, WriteDatagram p = Ok f) ps frames → Forall (λ p, (length p ≤ room)%nat) ps →
  rest r = mjoin frames → rd_end r = EOF →
  readFlow (S (length ps)) room r = (ps, Some EOF).
Proof.
  intros Hw. revert r. induction Hw as [|p f ps frames Hp Hw IH]; intros r Hroom Hr He.
  - cbn in Hr. cbn [readFlow length]. unfold ReadDatagram.
    pose proof (ReadFull_short 2 r ltac:(rewrite Hr; simpl; lia)) as Hf. destruct (ReadFull 2 r) as [r1 x]. cbn [snd] in Hf. subst x.
    by rewrite Hr, He.
  - inversion Hroom as [|? ? Hp' Hroom']; subst. rewrite mjoin_cons in Hr.
    destruct (ReadDatagram_whole room r p f (mjoin frames) Hp Hr Hp') as (r' & E & Hr' & He').
    change (length (p :: ps)) with (S (length ps)). remember (S (length ps)) as n eqn:Hn. cbn [readFlow]. rewrite E. rewrite (IH r') by congruence. done.
Qed.

(** A stream that ends early loses no boundary: the datagrams that arrived
    whole are delivered, nothing of the one that was cut is, and the loop ends
    with [ErrUnexpectedEOF], except where the cut falls between two datagrams or
    right behind a length: there it is [EOF], as if the far end had finished. *)
Theorem cut_flow_delivers_whole ps frames room r n :
  Forall2 (λ p f, WriteDatagram p = Ok f) ps frames → Forall (λ p, (length p ≤ room)%nat) ps →
  rest r = take n (mjoin frames) → (n < length (mjoin frames))%nat → rd_end r = EOF →
  ∃ k, (k < length ps)%nat ∧
       (length (mjoin (take k frames)) ≤ n < length (mjoin (take (S k) frames)))%nat ∧
       readFlow (S (length ps)) room r =
       (take k ps, Some (if decide (n = length (mjoin (take k frames)) ∨ n = (length (mjoin (take k frames)) + 2)%nat)
                         then EOF else ErrUnexpectedEOF)).
Proof.
  intros Hw. revert n r. induction Hw as [|p f ps frames Hp Hw IH]; intros n r Hroom Hr Hn He; [cbn in Hn; lia|].
  inversion Hroom as [|? ? Hp' Hroom']; subst. rewrite mjoin_cons in Hr, Hn. rewrite length_app in Hn.
  change (length (p :: ps)) with (S (length ps)). remember (S (length ps)) as m eqn:Hm. cbn [readFlow].
  destruct (decide (n < length f)%nat) as [Hcut|Hwhole].
  - exists 0%nat. cbn [take mjoin list_join length]. rewrite take_0, app_nil_r. rewrite take_app_le in Hr by lia.
    assert (length (rest r) = n) as Hlen by (rewrite Hr, length_take; lia).
    pose proof (ReadDatagram_cut room r p f Hp Hp' ltac:(lia) ltac:(by rewrite Hlen) He) as Hc.
    destruct (ReadDatagram room r) as [r' x]. cbn [snd] in Hc. subst x. rewrite Hlen. split_and!; try lia. done.
  - rewrite take_app_ge in Hr by lia.
    destruct (ReadDatagram_whole room r p f _ Hp Hr Hp') as (r' & -> & Hr' & He').
    destruct (IH (n - length f)%nat r') as (k & Hk & Hb & Hf); [done|done|lia|congruence|].
    exists (S k). rewrite Hf. cbn [take]. rewrite !mjoin_cons, !length_app. cbn [take] in Hb. split_and!; try lia.
    repeat f_equal. repeat case_decide; try done; lia.
Qed.
