(* ===== verification/Names.v ===== *)
(** * What shares, exports and volumes are called (core/workspace/export.go,
    client.go, sharepath.go) and which change notices are accepted
    (core/notify/notify.go)

    Names travel between the client, the agent and Docker: a share's id is a
    digest, an export is [/m/<id>], a volume [rd-<client>-<id>], its cache layer
    the same with [-cache].  [sha256.Sum256] is an argument.  The errors are
    inductive, by what they say. *)
From Stdlib Require Import Ascii.
From S2P Require Import Prelude GoStrings Records DirTypes.

#[local] Open Scope string_scope.

(** ** Hex *)

(** [encoding/hex]: either case is read, lower case is written. *)
Definition hexValue (a : ascii) : option nat :=
  let n := nat_of_ascii a in
  if ((48 <=? n) && (n <=? 57))%nat then Some (n - 48)%nat
  else if ((97 <=? n) && (n <=? 102))%nat then Some (n - 87)%nat
  else if ((65 <=? n) && (n <=? 70))%nat then Some (n - 55)%nat
  else None.

Definition hexDigit (n : nat) : ascii := ascii_of_nat (if (n <? 10)%nat then 48 + n else 87 + n).

Fixpoint EncodeToString (s : string) : string :=
  match s with
  | EmptyString => ""
  | String a s' => let n := nat_of_ascii a in String (hexDigit (n / 16)) (String (hexDigit (n mod 16)) (EncodeToString s'))
  end.

(** [hex.DecodeString]. *)
Fixpoint DecodeString (s : string) : option string :=
  match s with
  | EmptyString => Some ""
  | String a (String b s') =>
      match hexValue a, hexValue b, DecodeString s' with
      | Some h, Some l, Some r => Some (String (ascii_of_nat (16 * h + l)) r)
      | _, _, _ => None
      end
  | String _ EmptyString => None
  end.

Definition isHex (s : string) : bool := bool_decide (is_Some (DecodeString s)).

(** ** core/workspace/export.go *)

Definition ExportMountPrefix : string := "/m/".
Definition VolumeNamePrefix : string := "rd-".
Definition cacheSuffix : string := "-cache".
Definition idLen : nat := 16.
Definition clientIDLen : nat := 8.
Definition dash : ascii := "-".

Inductive nameError :=
| NeitherExportNorVolume (s : string)
| NoShareID (s : string)
| NotHex (s : string).

(** [parseID]. *)
Definition parseID (s : string) : res nameError string :=
  let check (id : string) :=
    if negb (strlen id =? idLen)%nat then Err (NoShareID s)
    else if isHex id then Ok id else Err (NotHex s) in
  if strings.HasPrefix s ExportMountPrefix then check (strings.TrimPrefix s ExportMountPrefix)
  else if strings.HasPrefix s VolumeNamePrefix then check (strings.TrimPrefix s VolumeNamePrefix)
  else Err (NeitherExportNorVolume s).

Definition ValidExport (exportPath : string) : option nameError :=
  match parseID exportPath with Ok _ => None | Err e => Some e end.

Definition validShare (share : string) : bool := is_ok (parseID (VolumeNamePrefix +:+ share)).

Definition validClient (s : string) : bool := (strlen s =? clientIDLen)%nat && isHex s.

Definition ExportPathForID (id : string) : string := ExportMountPrefix +:+ id.

Definition VolumeNameForID (client id : string) : string :=
  if bool_decide (client = "") then VolumeNamePrefix +:+ id
  else VolumeNamePrefix +:+ client +:+ "-" +:+ id.

Definition CacheVolumeName (share : string) : string := share +:+ cacheSuffix.
Definition VolumeNameForCache (client id : string) : string := CacheVolumeName (VolumeNameForID client id).

Definition IsManagedVolume (name : string) : bool := strings.HasPrefix name VolumeNamePrefix.
Definition IsCacheVolume (name : string) : bool := IsManagedVolume name && strings.HasSuffix name cacheSuffix.

Definition VolumeNameForExport (client exportPath : string) : res nameError string :=
  match parseID exportPath with Ok id => Ok (VolumeNameForID client id) | Err e => Err e end.

Definition CacheVolumeForExport (client exportPath : string) : res nameError string :=
  match VolumeNameForExport client exportPath with Ok name => Ok (CacheVolumeName name) | Err e => Err e end.

(** [ParseVolumeName]: the client, the share, and whether the name is ours. *)
Definition ParseVolumeName (name : string) : string * string * bool :=
  match strings.CutPrefix name VolumeNamePrefix with
  | None => ("", "", false)
  | Some rest =>
      let rest := strings.TrimSuffix rest cacheSuffix in
      match strings.Cut rest dash with
      | None => ("", rest, validShare rest)
      | Some (client, share) => if validClient client then (client, share, validShare share) else ("", "", false)
      end
  end.

(** ** Digests *)

Section digests.
Context (Sum256 : string → string).

(** The first [n] bytes of a string: the slice [s[:n]]. *)
Fixpoint firstBytes (n : nat) (s : string) : string :=
  match n, s with
  | S n', String a s' => String a (firstBytes n' s')
  | _, _ => ""
  end.

Definition digestID (key : string) : string := firstBytes idLen (EncodeToString (Sum256 key)).
Definition ClientID (publicKeyWire : string) : string := firstBytes clientIDLen (EncodeToString (Sum256 publicKeyWire)).

Definition RunRequest : string := "remote-docker-run".

(** [binary.BigEndian.AppendUint32] of [uint32(n)]. *)
Definition AppendUint32 (n : nat) : string :=
  let u := (Z.of_nat n mod 2 ^ 32)%Z in
  let byteAt k := ascii_of_nat (Z.to_nat (Z.land (Z.shiftr u k) 255)) in
  String (byteAt 24%Z) (String (byteAt 16%Z) (String (byteAt 8%Z) (String (byteAt 0%Z) ""))).

Definition EphemeralClientID (publicKeyWire runID : string) : string :=
  firstBytes clientIDLen (EncodeToString
    (Sum256 (RunRequest +:+ String "000" "" +:+ AppendUint32 (strlen publicKeyWire) +:+ publicKeyWire +:+ runID))).

End digests.

(** [isLowerHex] by byte: a byte above 127 is part of no rune it accepts. *)
Definition lowerHex (a : ascii) : bool :=
  let n := nat_of_ascii a in ((48 <=? n) && (n <=? 57))%nat || ((97 <=? n) && (n <=? 102))%nat.
Definition isLowerHex (s : string) : bool := everyByte lowerHex s.
Definition runIDBytes : nat := 16.
Definition ValidRunID (s : string) : bool := (strlen s =? 2 * runIDBytes)%nat && isLowerHex s.
Definition validClientID (s : string) : bool := (strlen s =? clientIDLen)%nat && isLowerHex s.

(** ** core/workspace/sharepath.go *)

Inductive pathError :=
| PathEmpty
| PathNotAbsolute (p : string)
| PathBackslash (p : string)
| PathNUL (p : string)
| PathEmptyComponent (p : string)
| PathDots (p part : string).

Definition backslash : ascii := ascii_of_nat 92.
Definition NUL : ascii := ascii_of_nat 0.

(** The first component that is refused. *)
Fixpoint badComponent (p : string) (parts : list string) : option pathError :=
  match parts with
  | [] => None
  | part :: parts' =>
      if bool_decide (part = "") then Some (PathEmptyComponent p)
      else if bool_decide (part = "." ∨ part = "..") then Some (PathDots p part)
      else badComponent p parts'
  end.

Definition ValidSharePath (p : string) : option pathError :=
  if bool_decide (p = "") then Some PathEmpty
  else if negb (strings.HasPrefix p "/") then Some (PathNotAbsolute p)
  else if strings.Contains p backslash then Some (PathBackslash p)
  else if strings.Contains p NUL then Some (PathNUL p)
  else if bool_decide (p = "/") then None
  else badComponent p (strings.Split (strings.TrimPrefix p "/") path.sep).

(** ** core/notify/notify.go *)

Definition opAll : Z := Z.lor OpCreate (Z.lor OpWrite (Z.lor OpRemove (Z.lor OpRename OpAttrib))).

(** [notify.Event]; [Op] is a [uint8]. *)
Record WireEvent := {
  we_Export : string;
  we_Path : string;
  we_Op : Z;
  we_Dir : bool
}.

Inductive eventError :=
| BadExport (e : nameError)
| BadPath (e : pathError)
| NoOperation (p : string)
| UnknownOperation (p : string) (bits : Z).

Definition ValidEvent (e : WireEvent) : option eventError :=
  match ValidExport (we_Export e) with
  | Some err => Some (BadExport err)
  | None =>
      match ValidSharePath (we_Path e) with
      | Some err => Some (BadPath err)
      | None =>
          if (we_Op e =? 0)%Z then Some (NoOperation (we_Path e))
          else let rest := Z.ldiff (we_Op e) opAll in
               if (rest =? 0)%Z then None else Some (UnknownOperation (we_Path e) rest)
      end
  end.

(** * Properties of the names (core/workspace) *)

#[local] Open Scope string_scope.

(** ** In-share paths *)

(** A component a share path may have. *)
Definition plainPart (w : string) : Prop := w ≠ "" ∧ w ≠ "." ∧ w ≠ "..".

Lemma badComponent_None p parts : badComponent p parts = None ↔ Forall plainPart parts.
Proof.
  unfold plainPart. induction parts as [|w parts IH]; cbn; [split; [constructor|done]|].
  rewrite Forall_cons, <- IH. repeat case_bool_decide; naive_solver.
Qed.

Lemma clean_parts_plain acc ws : Forall plainPart ws → path.clean_parts true acc ws = (List.rev acc ++ ws)%list.
Proof.
  revert acc. induction ws as [|w ws IH]; intros acc Hw; cbn; [by rewrite app_nil_r|].
  inversion Hw as [|? ? (H1 & H2 & H3) Hw']; subst. rewrite bool_decide_eq_false_2 by naive_solver. rewrite bool_decide_eq_false_2 by done.
  rewrite IH by done. cbn. by rewrite <- app_assoc.
Qed.

(** A rooted path is cleaned to plain components, each one of its own. *)
Lemma clean_parts_rooted (Q : string → Prop) acc ws :
  Forall Q ws → Forall (λ w, plainPart w ∧ Q w) acc → Forall (λ w, plainPart w ∧ Q w) (path.clean_parts true acc ws).
Proof.
  revert acc. induction ws as [|w ws IH]; intros acc Hw Ha; cbn; [by apply Forall_rev|].
  inversion Hw as [|? ? Hq Hw']; subst. case_bool_decide as H1; [auto|]. case_bool_decide as H2.
  - destruct acc as [|a acc]; [auto|]. inversion Ha as [|? ? [(_ & _ & Hd) _] Ha']; subst. rewrite bool_decide_eq_false_2 by done. auto.
  - apply IH; [done|]. constructor; [|done]. split; [|done]. unfold plainPart. naive_solver.
Qed.

Lemma TrimPrefix_append (pre q : string) : strings.TrimPrefix (pre +:+ q) pre = q.
Proof. unfold strings.TrimPrefix. by rewrite CutPrefix_append. Qed.

Lemma Clean_rooted q : path.Clean ("/" +:+ q) = "/" +:+ strings.Join (path.clean_parts true [] (strings.Split q path.sep)) "/".
Proof. done. Qed.

(** The whitelist is exactly the paths that cleaning leaves alone: a
    share path is accepted when it is absolute, holds no backslash and no NUL,
    and [path.Clean] gives it back unchanged; a traversal is refused, never
    repaired. *)
Theorem share_path_is_clean p :
  ValidSharePath p = None ↔
  strings.HasPrefix p "/" = true ∧ strings.Contains p backslash = false ∧ strings.Contains p NUL = false ∧ path.Clean p = p.
Proof.
  unfold ValidSharePath. case_bool_decide as He; [subst; split; [done|by intros (? & _)]|].
  destruct (strings.HasPrefix p "/") eqn:Hp; cbn [negb]; [|split; [done|by intros (? & _)]].
  destruct (strings.Contains p backslash); [split; [done|by intros (_ & ? & _)]|].
  destruct (strings.Contains p NUL); [split; [done|by intros (_ & _ & ? & _)]|].
  apply HasPrefix_spec in Hp as [q ->]. case_bool_decide as Hroot; [split; [|done]; intros _; by rewrite Hroot|].
  rewrite TrimPrefix_append, badComponent_None, Clean_rooted.
  split.
  - intros Hw. split_and!; try done. f_equal. rewrite clean_parts_plain by done. cbn. apply Join_Split.
  - intros (_ & _ & _ & E). apply append_inj_l in E.
    pose proof (clean_parts_rooted (λ w, strings.Contains w path.sep = false) [] (strings.Split q path.sep)
      (Split_no_sep q path.sep) (Forall_nil_2 _)) as Hc.
    destruct (path.clean_parts true [] (strings.Split q path.sep)) as [|w ws] eqn:Ec; [cbn in E; subst q; done|].
    assert (strings.Split q path.sep = w :: ws) as ->.
    { rewrite <- E. apply (Split_Join (w :: ws)); [done|]. eapply Forall_impl; [exact Hc|]. by intros ? [_ ?]. }
    eapply Forall_impl; [exact Hc|]. by intros ? [? _].
Qed.

(** ** Hex *)

Definition hexByte (a : ascii) : bool := bool_decide (is_Some (hexValue a)).

Lemma isHex_iff s : isHex s = true ↔ everyByte hexByte s = true ∧ Nat.even (strlen s) = true.
Proof.
  unfold isHex. rewrite bool_decide_eq_true.
  enough (∀ n s, (strlen s ≤ n)%nat → is_Some (DecodeString s) ↔ everyByte hexByte s = true ∧ Nat.even (strlen s) = true) as H by by apply (H (strlen s)).
  clear s. induction n as [|n IH]; intros s Hn; [destruct s; [|simpl in Hn; lia]; split; [done|by eexists]|].
  destruct s as [|a [|b s]]; [split; [done|by eexists]|split; [by intros [? ?]|by intros [_ ?]]|].
  assert (strlen s ≤ n)%nat as Hs by (simpl in Hn; lia). specialize (IH s Hs).
  cbn [DecodeString everyByte strlen Nat.even]. unfold hexByte at 1 2.
  destruct (hexValue a) as [h|]; [|split; [by intros [? ?]|by intros [? _]]].
  destruct (hexValue b) as [l|]; [|split; [by intros [? ?]|by intros [? _]]].
  rewrite !bool_decide_eq_true_2 by eauto. cbn [andb]. rewrite <- IH.
  destruct (DecodeString s) as [r|]; [split; intros _; eauto|]. split; by intros [? [=]].
Qed.

Lemma hexByte_dash : hexByte dash = false.
Proof. done. Qed.

Lemma isHex_no_dash s : isHex s = true → strings.Contains s dash = false.
Proof. intros [H _]%isHex_iff. by apply (everyByte_Contains hexByte). Qed.

(** ** Volume names *)

Lemma append_suffix (a b c d : string) : a +:+ b = c +:+ d → (strlen d ≤ strlen b)%nat → ∃ x, b = x +:+ d.
Proof.
  revert c. induction a as [|k a IH]; intros c E Hl; [by exists c|].
  destruct c as [|k' c].
  - exfalso. apply (f_equal strlen) in E. rewrite strlen_append in E. simpl in E. lia.
  - injection E as _ E. by apply (IH c).
Qed.

(** An id is no cache suffix, and ends no name that has one. *)
Definition shareID (id : string) : Prop := strlen id = idLen ∧ isHex id = true.

Lemma shareID_no_cache a id : shareID id → strings.CutSuffix (a +:+ id) cacheSuffix = None.
Proof.
  intros [Hl Hx]. destruct (strings.CutSuffix _ _) as [r|] eqn:E; [|done]. exfalso.
  apply CutSuffix_Some in E. apply append_suffix in E as [x ->]; [|rewrite Hl; vm_compute; lia].
  apply isHex_no_dash in Hx. rewrite Contains_append in Hx. apply orb_false_iff in Hx as [_ Hx]. done.
Qed.

Lemma TrimSuffix_id a id : shareID id → strings.TrimSuffix (a +:+ id) cacheSuffix = a +:+ id.
Proof. intros H. unfold strings.TrimSuffix. by rewrite shareID_no_cache. Qed.

Lemma parseID_volume id : parseID (VolumeNamePrefix +:+ id) = Ok id ↔ shareID id.
Proof.
  unfold parseID, shareID. change (strings.HasPrefix (VolumeNamePrefix +:+ id) ExportMountPrefix) with false. cbv iota.
  assert (strings.HasPrefix (VolumeNamePrefix +:+ id) VolumeNamePrefix = true) as -> by (apply HasPrefix_spec; by exists id).
  rewrite TrimPrefix_append. destruct (Nat.eqb_spec (strlen id) idLen); cbn [negb]; [|split; [done|by intros [? _]]].
  destruct (isHex id); split; try done. by intros [_ ?].
Qed.

Lemma validShare_iff id : validShare id = true ↔ shareID id.
Proof.
  unfold validShare, is_ok. rewrite <- parseID_volume. destruct (parseID _) as [x|] eqn:E; [|done].
  split; [|done]. intros _. f_equal. unfold parseID in E. change (strings.HasPrefix (VolumeNamePrefix +:+ id) ExportMountPrefix) with false in E. cbv iota in E.
  destruct (strings.HasPrefix _ _); [|done]. rewrite TrimPrefix_append in E. destruct (negb _); [done|]. destruct (isHex id); [|done]. by injection E.
Qed.

Lemma validClient_iff c : validClient c = true ↔ strlen c = clientIDLen ∧ isHex c = true.
Proof. unfold validClient. by rewrite andb_true_iff, Nat.eqb_eq. Qed.

Lemma validClient_nonempty c : validClient c = true → c ≠ "".
Proof. intros [H _]%validClient_iff ->. done. Qed.

(** A client a volume may name: none, from before clients were named. *)
Definition volumeClient (c : string) : Prop := c = "" ∨ validClient c = true.

Lemma Cut_dash a b : strings.Contains a dash = false → strings.Cut (a +:+ "-" +:+ b) dash = Some (a, b).
Proof. intros H. apply Cut_Some. done. Qed.

Lemma VolumeNameForID_eq client id :
  VolumeNameForID client id = VolumeNamePrefix +:+ ((if bool_decide (client = "") then "" else client +:+ "-") +:+ id).
Proof. unfold VolumeNameForID. case_bool_decide; [done|]. by rewrite !append_assoc. Qed.

Lemma parse_rest client id rest :
  volumeClient client → shareID id →
  strings.TrimSuffix rest cacheSuffix = (if bool_decide (client = "") then "" else client +:+ "-") +:+ id →
  ParseVolumeName (VolumeNamePrefix +:+ rest) = (client, id, true).
Proof.
  intros Hc Hid Hr. unfold ParseVolumeName. rewrite CutPrefix_append, Hr. pose proof (proj2 (validShare_iff id) Hid) as Hv.
  case_bool_decide as He.
  - subst client. cbn [String.append]. rewrite (proj2 (Cut_None _ _)) by (apply isHex_no_dash, Hid). by rewrite Hv.
  - destruct Hc as [|Hc]; [done|]. rewrite append_assoc, Cut_dash by (apply isHex_no_dash; by apply validClient_iff). by rewrite Hc, Hv.
Qed.

(** A volume's name says whose it is: the names given to a share and to
    its cache read back as the client and the share they were made from, the two
    are told apart, and a name read as one of ours is one of the two names that
    client's share has, so nothing else is ever taken for ours. *)
Theorem volume_names_exact :
  (∀ client id, volumeClient client → shareID id →
     ParseVolumeName (VolumeNameForID client id) = (client, id, true) ∧
     ParseVolumeName (VolumeNameForCache client id) = (client, id, true) ∧
     IsCacheVolume (VolumeNameForID client id) = false ∧ IsCacheVolume (VolumeNameForCache client id) = true) ∧
  (∀ name client id, ParseVolumeName name = (client, id, true) →
     volumeClient client ∧ shareID id ∧ (name = VolumeNameForID client id ∨ name = VolumeNameForCache client id)).
Proof.
  split.
  - intros client id Hc Hid. unfold VolumeNameForCache, CacheVolumeName, IsCacheVolume, IsManagedVolume. rewrite VolumeNameForID_eq.
    set (pre := if bool_decide (client = "") then "" else client +:+ "-"). split_and!.
    + apply parse_rest; [done|done|]. by rewrite TrimSuffix_id.
    + rewrite append_assoc. apply parse_rest; [done|done|]. by rewrite TrimSuffix_append.
    + apply andb_false_intro2. unfold strings.HasSuffix. rewrite HasPrefix_CutPrefix. apply bool_decide_eq_false_2.
      pose proof (shareID_no_cache (VolumeNamePrefix +:+ pre) id Hid) as Hn. unfold strings.CutSuffix in Hn. rewrite append_assoc in Hn.
      intros [x Hx]. rewrite Hx in Hn. done.
    + apply andb_true_intro. split; [apply HasPrefix_spec; eexists; apply append_assoc|].
      unfold strings.HasSuffix. rewrite rev_append. apply HasPrefix_spec. by eexists.
  - intros name client id E. unfold ParseVolumeName in E.
    destruct (strings.CutPrefix name VolumeNamePrefix) as [rest|] eqn:Ep; [|done]. apply CutPrefix_Some in Ep as ->.
    unfold VolumeNameForCache, CacheVolumeName. rewrite VolumeNameForID_eq.
    assert (volumeClient client ∧ shareID id ∧
      strings.TrimSuffix rest cacheSuffix = (if bool_decide (client = "") then "" else client +:+ "-") +:+ id) as (? & ? & Ht).
    { destruct (strings.Cut _ dash) as [[c s]|] eqn:Ec.
      - destruct (validClient c) eqn:Ev; [|done]. injection E as -> -> Hs. apply validShare_iff in Hs. split_and!; [by right|done|].
        apply Cut_Some in Ec as [-> _]. rewrite bool_decide_eq_false_2 by by apply validClient_nonempty. by rewrite append_assoc.
      - injection E as <- <- Hs. apply validShare_iff in Hs. split_and!; [by left|done|done]. }
    split_and!; try done. rewrite <- Ht. unfold strings.TrimSuffix. destruct (strings.CutSuffix rest cacheSuffix) as [r|] eqn:Es; [|by left].
    right. apply CutSuffix_Some in Es as ->. by rewrite append_assoc.
Qed.

(** ** The names this program gives *)

Lemma strlen_firstBytes n s : (n ≤ strlen s)%nat → strlen (firstBytes n s) = n.
Proof. revert s. induction n as [|n IH]; intros [|a s] H; simpl in *; try lia. rewrite IH; lia. Qed.

Lemma everyByte_firstBytes f n s : everyByte f s = true → everyByte f (firstBytes n s) = true.
Proof. revert s. induction n as [|n IH]; intros [|a s]; simpl; try done. intros [-> ?]%andb_true_iff. by apply IH. Qed.

Lemma lowerHex_digit n : (n < 16)%nat → lowerHex (hexDigit n) = true.
Proof. intros H. do 16 (destruct n as [|n]; [reflexivity|]). lia. Qed.

Lemma lowerHex_hex a : lowerHex a = true → hexByte a = true.
Proof. destruct a as [[] [] [] [] [] [] [] []]; intros H; vm_compute in H; try discriminate H; reflexivity. Qed.

Lemma EncodeToString_hex s : everyByte lowerHex (EncodeToString s) = true ∧ strlen (EncodeToString s) = (2 * strlen s)%nat.
Proof.
  induction s as [|a s [IH1 IH2]]; [done|]. cbn [EncodeToString everyByte strlen]. rewrite IH1, IH2.
  pose proof (nat_ascii_bounded a). rewrite !lowerHex_digit; [split; [done|lia]|by apply Nat.mod_upper_bound|].
  by apply Nat.Div0.div_lt_upper_bound.
Qed.

Section given_names.
Context (Sum256 : string → string) (Sum256_len : ∀ s, strlen (Sum256 s) = 32%nat).

Lemma digest_prefix n s :
  (n ≤ 64)%nat → strlen (firstBytes n (EncodeToString (Sum256 s))) = n ∧ isLowerHex (firstBytes n (EncodeToString (Sum256 s))) = true.
Proof.
  intros Hn. destruct (EncodeToString_hex (Sum256 s)) as [H1 H2]. rewrite Sum256_len in H2.
  split; [apply strlen_firstBytes; lia|by apply everyByte_firstBytes].
Qed.

Lemma lower_isHex s : isLowerHex s = true → Nat.even (strlen s) = true → isHex s = true.
Proof. intros H1 H2. apply isHex_iff. split; [|done]. by apply (everyByte_impl lowerHex hexByte); [apply lowerHex_hex|]. Qed.

Lemma digest_shareID key : shareID (digestID Sum256 key).
Proof. destruct (digest_prefix idLen key) as [H1 H2]; [vm_compute; lia|]. split; [done|]. apply lower_isHex; [done|]. unfold digestID. by rewrite H1. Qed.

Lemma digest_client s : validClient (firstBytes clientIDLen (EncodeToString (Sum256 s))) = true ∧ validClientID (firstBytes clientIDLen (EncodeToString (Sum256 s))) = true.
Proof.
  destruct (digest_prefix clientIDLen s) as [H1 H2]; [vm_compute; lia|]. unfold validClientID. rewrite validClient_iff, H2, H1.
  split; [|done]. split; [done|]. apply lower_isHex; [done|]. by rewrite H1.
Qed.

(** Every name this program derives is one every other part accepts: with a
    digest of 32 bytes, a share's export is valid, a machine's id and a run's are
    client ids, and the agent derives for such an export the very cache volume
    the client names, which reads back as that machine's share. *)
Theorem derived_names_accepted key wire run :
  let id := digestID Sum256 key in
  ValidExport (ExportPathForID id) = None ∧
  validClientID (ClientID Sum256 wire) = true ∧ validClientID (EphemeralClientID Sum256 wire run) = true ∧
  (∀ client, client = ClientID Sum256 wire ∨ client = EphemeralClientID Sum256 wire run →
     CacheVolumeForExport client (ExportPathForID id) = Ok (VolumeNameForCache client id) ∧
     ParseVolumeName (VolumeNameForCache client id) = (client, id, true)).
Proof.
  intros id. pose proof (digest_shareID key) as Hid. fold id in Hid.
  assert (parseID (ExportPathForID id) = Ok id) as Hp.
  { unfold parseID, ExportPathForID. assert (strings.HasPrefix (ExportMountPrefix +:+ id) ExportMountPrefix = true) as -> by (apply HasPrefix_spec; by exists id).
    rewrite TrimPrefix_append. destruct Hid as [-> ->]. done. }
  split_and!; [unfold ValidExport; by rewrite Hp|apply digest_client..|].
  intros client Hc. unfold CacheVolumeForExport, VolumeNameForExport. rewrite Hp. split; [done|].
  assert (volumeClient client) as Hv by (right; destruct Hc as [->| ->]; apply digest_client).
  unfold VolumeNameForCache, CacheVolumeName. rewrite VolumeNameForID_eq, append_assoc. apply parse_rest; [done|done|]. by rewrite TrimSuffix_append.
Qed.

End given_names.
