(* ===== verification/Coalesce.v ===== *)
(** * Merging file system events (core-client/fswatch/coalesce.go)

    The coalescer owns no clock and no goroutine: every method takes the time, so
    every method is one definition here.  [Op] is a [uint8] as a [Z]; the sequence
    number, a [uint64], does not reach its end. *)
From Stdlib Require Import Ascii.
From S2P Require Import Prelude GoStrings GoTime DirTypes Names Records.

Open Scope Z_scope.

Definition DefaultDebounce : Duration := 40 * Millisecond.
Definition DefaultMaxDelay : Duration := 250 * Millisecond.
Definition DefaultPendingCap : Z := 8192.

(** [pendingKey] is the export and the path. *)
Abbreviation pendingKey := (string * string)%type.

Record pendingEvent := {
  pe_op : Z;
  pe_dir : bool;
  pe_seq : Z;
  pe_first : Time;
  pe_last : Time
}.

Record lost := {
  lo_count : Z;
  lo_dir : string
}.

(** [notify.Notice]. *)
Record WireNotice := {
  wn_Export : string;
  wn_Path : string;
  wn_Dropped : Z;
  wn_Reason : string
}.

Record coalescer := {
  co_debounce : Duration;
  co_maxDelay : Duration;
  co_cap : Z;
  co_pending : gmap pendingKey pendingEvent;
  co_lost : gmap string lost;
  co_seq : Z
}.

Definition newCoalescer (debounce maxDelay : Duration) (capacity : Z) : coalescer :=
  {| co_debounce := if debounce <=? 0 then DefaultDebounce else debounce;
     co_maxDelay := if maxDelay <=? 0 then DefaultMaxDelay else maxDelay;
     co_cap := if capacity <=? 0 then DefaultPendingCap else capacity;
     co_pending := ∅; co_lost := ∅; co_seq := 0 |}.

Definition with_pending (m : gmap pendingKey pendingEvent) (c : coalescer) : coalescer :=
  {| co_debounce := co_debounce c; co_maxDelay := co_maxDelay c; co_cap := co_cap c; co_pending := m; co_lost := co_lost c; co_seq := co_seq c |}.
Definition with_lost (m : gmap string lost) (c : coalescer) : coalescer :=
  {| co_debounce := co_debounce c; co_maxDelay := co_maxDelay c; co_cap := co_cap c; co_pending := co_pending c; co_lost := m; co_seq := co_seq c |}.

(** [mergeOps]. *)
Definition gone : Z := Z.lor OpRemove OpRename.
Definition present : Z := Z.lor OpCreate OpWrite.

Definition mergeOps (have add : Z) : Z :=
  if negb (Z.land add gone =? 0) then Z.lor (Z.ldiff have present) add
  else if negb (Z.land add present =? 0) then Z.lor (Z.ldiff have gone) add
  else Z.lor have add.

(** [splitSlash] and [commonDir]. *)
Definition splitSlash (p : string) : list string := filter (λ part, part ≠ ""%string) (strings.Split p path.sep).

Fixpoint commonParts (a b : list string) : list string :=
  match a, b with
  | x :: a', y :: b' => if bool_decide (x = y) then x :: commonParts a' b' else []
  | _, _ => []
  end.

Definition commonDir (a b : string) : string :=
  if bool_decide (a = b) then a
  else match commonParts (splitSlash a) (splitSlash b) with
       | [] => "/"
       | parts => "/" +:+ strings.Join parts "/"
       end.

(** [drop] and [overflow]. *)
Definition overflow (export dir : string) (n : Z) (c : coalescer) : coalescer :=
  with_lost (<[export := match co_lost c !! export with
                         | None => {| lo_count := n; lo_dir := dir |}
                         | Some l => {| lo_count := lo_count l + n; lo_dir := commonDir (lo_dir l) dir |}
                         end]> (co_lost c)) c.

Definition drop (export p : string) (c : coalescer) : coalescer :=
  with_lost (<[export := match co_lost c !! export with
                         | None => {| lo_count := 1; lo_dir := path.Dir p |}
                         | Some l => {| lo_count := lo_count l + 1; lo_dir := commonDir (lo_dir l) (path.Dir p) |}
                         end]> (co_lost c)) c.

(** [add]. *)
Definition merged (now : Time) (e : WireEvent) (p : pendingEvent) : pendingEvent :=
  {| pe_op := mergeOps (pe_op p) (we_Op e); pe_dir := pe_dir p || we_Dir e; pe_seq := pe_seq p; pe_first := pe_first p; pe_last := now |}.

Definition add (now : Time) (e : WireEvent) (c : coalescer) : coalescer :=
  let key := (we_Export e, we_Path e) in
  match co_pending c !! key with
  | Some p => with_pending (<[key := merged now e p]> (co_pending c)) c
  | None =>
      if co_cap c <=? Z.of_nat (size (co_pending c)) then drop (we_Export e) (we_Path e) c
      else
        let seq := co_seq c + 1 in
        {| co_debounce := co_debounce c; co_maxDelay := co_maxDelay c; co_cap := co_cap c;
           co_pending := <[key := {| pe_op := we_Op e; pe_dir := we_Dir e; pe_seq := seq; pe_first := now; pe_last := now |}]> (co_pending c);
           co_lost := co_lost c; co_seq := seq |}
  end.

(** [due] and [nextDue]. *)
Definition due (now : Time) (c : coalescer) (p : pendingEvent) : bool :=
  (co_debounce c <=? Sub now (pe_last p)) || (co_maxDelay c <=? Sub now (pe_first p)).

Definition dueAt (now : Time) (c : coalescer) (p : pendingEvent) : Time :=
  let at_ := Add (pe_last p) (co_debounce c) in
  let byDelay := Add (pe_first p) (co_maxDelay c) in
  let at_ := if Before byDelay at_ then byDelay else at_ in
  if Before at_ now then now else at_.

Definition nextDue (now : Time) (c : coalescer) : Time * bool :=
  let earliest := foldl (λ earliest p, let at_ := dueAt now c p in
                           if IsZero earliest || Before at_ earliest then at_ else earliest)
                        zeroTime (snd <$> map_to_list (co_pending c)) in
  (earliest, negb (IsZero earliest)).

(** [flush]. *)
Definition seq_leb (a b : pendingKey * pendingEvent) : bool := pe_seq a.2 <=? pe_seq b.2.

Definition ready (now : Time) (c : coalescer) : list (pendingKey * pendingEvent) :=
  stable_sort seq_leb (filter (λ kv, due now c kv.2 = true) (map_to_list (co_pending c))).

Definition eventOf (kv : pendingKey * pendingEvent) : WireEvent :=
  {| we_Export := kv.1.1; we_Path := kv.1.2; we_Op := pe_op kv.2; we_Dir := pe_dir kv.2 |}.

Definition noticeOf (c : coalescer) (export : string) : WireNotice :=
  match co_lost c !! export with
  | Some l => {| wn_Export := export; wn_Path := lo_dir l; wn_Dropped := lo_count l; wn_Reason := "overflow" |}
  | None => {| wn_Export := export; wn_Path := ""; wn_Dropped := 0; wn_Reason := "overflow" |}
  end.

Definition flush (now : Time) (c : coalescer) : coalescer * list WireEvent * list WireNotice :=
  let out := ready now c in
  let notices := noticeOf c <$> sort_strings (fst <$> map_to_list (co_lost c)) in
  (with_lost ∅ (with_pending (foldl (λ m kv, delete kv.1 m) (co_pending c) out) c), eventOf <$> out, notices).

Definition pendingCount (c : coalescer) : Z := Z.of_nat (size (co_pending c)).

(** ** A watcher's calls *)

Inductive input :=
| Observe (now : Time) (e : WireEvent)
| Overflow (export dir : string) (n : Z)
| Flush (now : Time).

(** What the coalescer is told, and what each flush reported. *)
Fixpoint replay (ins : list input) (c : coalescer) : coalescer * list (list WireEvent * list WireNotice) :=
  match ins with
  | [] => (c, [])
  | Observe now e :: ins' => replay ins' (add now e c)
  | Overflow export dir n :: ins' => replay ins' (overflow export dir n c)
  | Flush now :: ins' =>
      let '(c', events, notices) := flush now c in
      let '(c'', outs) := replay ins' c' in (c'', (events, notices) :: outs)
  end.

(** * Properties of the coalescer (core-client/fswatch/coalesce.go) *)

Open Scope Z_scope.

(** ** Operations *)

(** The operation sets a valid event may carry, as a list to check. *)
Definition allOps : list Z := Z.of_nat <$> seq 1 31.

Definition validOp (o : Z) : Prop := o ≠ 0 ∧ Z.ldiff o opAll = 0.

Lemma validOp_allOps o : validOp o → o ∈ allOps.
Proof.
  intros [Hne Hd]. change opAll with (Z.ones 5) in Hd. rewrite Z.ldiff_ones_r in Hd by done.
  assert (Z.shiftr o 5 = 0) as Hs by (apply (Z.shiftl_eq_0_iff _ 5); [done|exact Hd]).
  rewrite Z.shiftr_div_pow2 in Hs by done. apply Z.div_small_iff in Hs; [|done].
  apply list_elem_of_fmap. exists (Z.to_nat o). split; [lia|]. apply list_elem_of_In, in_seq. lia.
Qed.

(** A set that says a path is there, or that it is not, and never both. *)
Definition unmixed (o : Z) : bool := (Z.land o gone =? 0) || (Z.land o present =? 0).

Definition mergeTable : bool :=
  forallb (λ have, forallb (λ op,
    (1 <=? mergeOps have op) && (mergeOps have op <=? 31) &&
    (negb (unmixed have && unmixed op) ||
     (unmixed (mergeOps have op) &&
      Bool.eqb (negb (Z.land (mergeOps have op) gone =? 0))
               (negb (Z.land op gone =? 0) || ((Z.land op present =? 0) && negb (Z.land have gone =? 0))) &&
      Bool.eqb (negb (Z.land (mergeOps have op) present =? 0))
               (negb (Z.land op present =? 0) || ((Z.land op gone =? 0) && negb (Z.land have present =? 0)))))) allOps) allOps.

Lemma mergeTable_true : mergeTable = true.
Proof. vm_compute. reflexivity. Qed.

Lemma mergeOps_table have op :
  validOp have → validOp op →
  validOp (mergeOps have op) ∧
  (unmixed have = true → unmixed op = true →
   unmixed (mergeOps have op) = true ∧
   (Z.land (mergeOps have op) gone ≠ 0 ↔ Z.land op gone ≠ 0 ∨ (Z.land op present = 0 ∧ Z.land have gone ≠ 0)) ∧
   (Z.land (mergeOps have op) present ≠ 0 ↔ Z.land op present ≠ 0 ∨ (Z.land op gone = 0 ∧ Z.land have present ≠ 0))).
Proof.
  intros Hh%validOp_allOps Ho%validOp_allOps. pose proof mergeTable_true as T. unfold mergeTable in T.
  rewrite forallb_forall in T. specialize (T have (proj1 (list_elem_of_In _ _) Hh)). rewrite forallb_forall in T.
  specialize (T op (proj1 (list_elem_of_In _ _) Ho)). apply andb_true_iff in T as [[T1 T2]%andb_true_iff T3].
  apply Z.leb_le in T1, T2. split.
  - split; [lia|]. change opAll with (Z.ones 5). rewrite Z.ldiff_ones_r, Z.shiftr_div_pow2, Z.div_small by lia. done.
  - intros E1 E2. rewrite E1, E2 in T3. cbn [andb negb orb] in T3. apply andb_true_iff in T3 as [[-> T4]%andb_true_iff T5].
    apply eqb_prop in T4, T5. split; [done|]. clear -T4 T5.
    destruct (Z.eqb_spec (Z.land (mergeOps have op) gone) 0), (Z.eqb_spec (Z.land (mergeOps have op) present) 0),
      (Z.eqb_spec (Z.land op gone) 0), (Z.eqb_spec (Z.land op present) 0), (Z.eqb_spec (Z.land have gone) 0), (Z.eqb_spec (Z.land have present) 0);
      cbn in T4, T5; try discriminate; split; tauto.
Qed.

(** The last operation of a history that says whether the path is there. *)
Definition decides (o : Z) : Prop := Z.land o gone ≠ 0 ∨ Z.land o present ≠ 0.

#[export] Instance decides_dec o : Decision (decides o).
Proof. unfold decides. apply _. Defined.

Definition lastWord (ops : list Z) : Z := List.last (filter decides ops) 0.

Lemma lastWord_snoc ops o : lastWord (ops ++ [o]) = if decide (decides o) then o else lastWord ops.
Proof.
  unfold lastWord. rewrite filter_app, filter_cons, filter_nil. case_decide; [apply List.last_last|by rewrite app_nil_r].
Qed.

(** What a burst of events merges to is the net truth: for any history
    of a path, the merged set says it is gone, or there, exactly as the last
    event that said either did, and never both; and it is a valid set. *)
Theorem merge_is_net_truth o ops :
  Forall (λ o, validOp o ∧ unmixed o = true) (o :: ops) →
  let m := foldl mergeOps o ops in
  validOp m ∧ unmixed m = true ∧
  (Z.land m gone ≠ 0 ↔ Z.land (lastWord (o :: ops)) gone ≠ 0) ∧
  (Z.land m present ≠ 0 ↔ Z.land (lastWord (o :: ops)) present ≠ 0).
Proof.
  induction ops as [|x ops IH] using rev_ind; intros Hv m.
  - inversion Hv as [|? ? [H1 H2] _]; subst. unfold m. cbn [foldl]. split_and!; [done|done|..]; unfold lastWord; rewrite filter_cons, filter_nil;
      (case_decide as Hd; [done|]); unfold decides in Hd; cbn [List.last]; rewrite Z.land_0_l; split; intros; [destruct Hd; by left|done|destruct Hd; by right|done].
  - assert (Forall (λ o, validOp o ∧ unmixed o = true) (o :: ops) ∧ validOp x ∧ unmixed x = true) as (Hv' & Hx1 & Hx2).
    { change (o :: ops ++ [x]) with ((o :: ops) ++ [x]) in Hv. apply Forall_app in Hv as [? Hx]. by inversion Hx. }
    destruct (IH Hv') as (I1 & I2 & I3 & I4). unfold m. rewrite foldl_snoc.
    destruct (mergeOps_table (foldl mergeOps o ops) x I1 Hx1) as [M1 M2]. destruct (M2 I2 Hx2) as (M3 & M4 & M5).
    unfold unmixed in Hx2. apply orb_true_iff in Hx2. rewrite !Z.eqb_eq in Hx2.
    change (o :: ops ++ [x]) with ((o :: ops) ++ [x]). rewrite lastWord_snoc. split; [done|]. split; [done|]. rewrite M4, M5, I3, I4.
    clear -Hx2. revert Hx2. case_decide as Hd; unfold decides in Hd; revert Hd;
      generalize (Z.land x gone) (Z.land x present) (Z.land (lastWord (o :: ops)) gone) (Z.land (lastWord (o :: ops)) present); lia.
Qed.

(** ** The coalescer's state *)

Definition validInput (i : input) : Prop := match i with Observe _ e => ValidEvent e = None | _ => True end.

Record coalescer_ok (c : coalescer) : Prop := {
  ck_debounce : 0 < co_debounce c < 2^63;
  ck_maxDelay : 0 < co_maxDelay c < 2^63;
  ck_size : Z.of_nat (size (co_pending c)) ≤ co_cap c;
  ck_next : 0 ≤ co_seq c;
  ck_seq : ∀ k p, co_pending c !! k = Some p → 0 < pe_seq p ≤ co_seq c;
  ck_inj : ∀ k1 k2 p1 p2, co_pending c !! k1 = Some p1 → co_pending c !! k2 = Some p2 → pe_seq p1 = pe_seq p2 → k1 = k2;
  ck_valid : ∀ k p, co_pending c !! k = Some p → ValidEvent (eventOf (k, p)) = None
}.

Lemma ValidEvent_iff e :
  ValidEvent e = None ↔ ValidExport (we_Export e) = None ∧ ValidSharePath (we_Path e) = None ∧ validOp (we_Op e).
Proof.
  unfold ValidEvent, validOp. destruct (ValidExport _); [naive_solver|]. destruct (ValidSharePath _); [naive_solver|].
  destruct (Z.eqb_spec (we_Op e) 0); [naive_solver|]. destruct (Z.eqb_spec (Z.ldiff (we_Op e) opAll) 0); naive_solver.
Qed.

Lemma newCoalescer_ok debounce maxDelay capacity :
  debounce < 2^63 → maxDelay < 2^63 → coalescer_ok (newCoalescer debounce maxDelay capacity).
Proof.
  intros H1 H2. unfold newCoalescer. split; cbn [co_debounce co_maxDelay co_cap co_pending co_seq]; try (intros *; by rewrite lookup_empty); try done.
  - destruct (Z.leb_spec debounce 0); [vm_compute; done|lia].
  - destruct (Z.leb_spec maxDelay 0); [vm_compute; done|lia].
  - rewrite map_size_empty. destruct (Z.leb_spec capacity 0); [vm_compute; done|lia].
Qed.

Lemma add_ok now e c : coalescer_ok c → ValidEvent e = None → coalescer_ok (add now e c).
Proof.
  intros [K1 K2 K3 Kn K4 K5 K6] Hv. unfold add. set (key := (we_Export e, we_Path e)). destruct (co_pending c !! key) as [p|] eqn:Ek.
  - split; cbn [with_pending co_debounce co_maxDelay co_cap co_pending co_seq]; try done.
    + rewrite map_size_insert_Some by by eexists. done.
    + intros k q. rewrite lookup_insert. case_decide; [|by apply K4]. intros [= <-]. cbn. subst. by apply (K4 key).
    + intros k1 k2 p1 p2. rewrite !lookup_insert. repeat case_decide; subst; try done; try (by apply K5).
      * intros [= <-] E. cbn. by apply (K5 key).
      * intros E [= <-]. cbn. by apply (K5 k1 key).
    + intros k q. rewrite lookup_insert. case_decide; [|by apply K6]. intros [= <-]. subst k.
      pose proof (proj1 (ValidEvent_iff _) (K6 _ _ Ek)) as (V1 & V2 & V3). pose proof (proj1 (ValidEvent_iff _) Hv) as (_ & _ & V4).
      apply ValidEvent_iff. cbn in *. split_and!; [done|done|]. by apply mergeOps_table.
  - destruct (Z.leb_spec (co_cap c) (Z.of_nat (size (co_pending c)))); [by split|].
    split; cbn [co_debounce co_maxDelay co_cap co_pending co_seq]; try done; try lia.
    + rewrite map_size_insert_None by done. lia.
    + intros k q. rewrite lookup_insert. case_decide; [intros [= <-]; cbn; lia|intros E; specialize (K4 _ _ E); lia].
    + intros k1 k2 p1 p2. rewrite !lookup_insert. repeat case_decide; subst; try done; try (by apply K5).
      * intros [= <-] E. cbn. specialize (K4 _ _ E). lia.
      * intros E [= <-]. cbn. specialize (K4 _ _ E). lia.
    + intros k q. rewrite lookup_insert. case_decide; [|by apply K6]. intros [= <-]. subst k. by destruct e.
Qed.

(** ** A flush *)

Lemma foldl_delete_lookup {A} (l : list (pendingKey * A)) (m : gmap pendingKey A) k :
  foldl (λ m kv, delete kv.1 m) m l !! k = if decide (k ∈ l.*1) then None else m !! k.
Proof.
  revert m. induction l as [|[k' x] l IH]; intros m; cbn [foldl fmap list_fmap fst].
  { rewrite decide_False; [done|]. apply not_elem_of_nil. }
  rewrite IH. destruct (decide (k ∈ l.*1)) as [H|H]; [rewrite decide_True; [done|by right]|].
  destruct (decide (k = k')) as [->|Hne].
  - rewrite lookup_delete_eq, decide_True; [done|left].
  - rewrite lookup_delete_ne by done. rewrite decide_False; [done|]. by intros [?|?]%elem_of_cons.
Qed.

Lemma elem_of_ready now c k p : (k, p) ∈ ready now c ↔ co_pending c !! k = Some p ∧ due now c p = true.
Proof. unfold ready. rewrite elem_of_stable_sort, list_elem_of_filter, elem_of_map_to_list. cbn. tauto. Qed.

Lemma key_of_ready now c k : k ∈ (ready now c).*1 ↔ ∃ p, co_pending c !! k = Some p ∧ due now c p = true.
Proof.
  rewrite list_elem_of_fmap. split.
  - intros ([k' p] & -> & Hin%elem_of_ready). by exists p.
  - intros (p & Hp). exists (k, p). split; [done|]. by apply elem_of_ready.
Qed.

Lemma flush_pending now c k :
  co_pending (flush now c).1.1 !! k = match co_pending c !! k with Some p => if due now c p then None else Some p | None => None end.
Proof.
  cbn. rewrite foldl_delete_lookup. case_decide as Hk.
  - apply key_of_ready in Hk as (p & -> & ->). done.
  - destruct (co_pending c !! k) as [p|] eqn:E; [|done]. destruct (due now c p) eqn:Ed; [|done].
    destruct Hk. apply key_of_ready. eauto.
Qed.

Lemma flush_ok now c : coalescer_ok c → coalescer_ok (flush now c).1.1.
Proof.
  intros [K1 K2 K3 Kn K4 K5 K6].
  assert (∀ k p, co_pending (flush now c).1.1 !! k = Some p → co_pending c !! k = Some p) as L.
  { intros k p. rewrite flush_pending. destruct (co_pending c !! k); [|done]. by destruct (due _ _ _). }
  split; try done; try (intros *; eauto).
  assert (co_pending (flush now c).1.1 ⊆ co_pending c) as Hs by (apply map_subseteq_spec, L).
  apply map_subseteq_size in Hs. change (co_cap (flush now c).1.1) with (co_cap c). lia.
Qed.

Lemma overflow_ok export dir n c : coalescer_ok c → coalescer_ok (overflow export dir n c).
Proof. by intros [? ? ? ? ? ?]. Qed.

Lemma flush_events now c e :
  e ∈ (flush now c).1.2 ↔ ∃ k p, co_pending c !! k = Some p ∧ due now c p = true ∧ e = eventOf (k, p).
Proof.
  cbn. rewrite list_elem_of_fmap. split.
  - intros ([k p] & -> & [? ?]%elem_of_ready). eauto.
  - intros (k & p & ? & ? & ->). exists (k, p). by rewrite elem_of_ready.
Qed.

Lemma replay_ok ins c c' outs :
  replay ins c = (c', outs) → coalescer_ok c → Forall validInput ins →
  coalescer_ok c' ∧ ∀ events notices e, (events, notices) ∈ outs → e ∈ events → ValidEvent e = None.
Proof.
  revert c c' outs. induction ins as [|i ins IH]; intros c c' outs E K Hv.
  { injection E as <- <-. split; [done|]. by intros ? ? ? ?%elem_of_nil. }
  inversion Hv as [|? ? Hi Hv']; subst. destruct i as [now e|export dir n|now]; cbn [replay] in E.
  - by apply (IH _ _ _ E); [apply add_ok|].
  - by apply (IH _ _ _ E); [apply overflow_ok|].
  - destruct (flush now c) as [[c1 events] notices] eqn:Ef. destruct (replay ins c1) as [c2 outs'] eqn:Er. injection E as <- <-.
    destruct (IH _ _ _ Er) as [I1 I2]; [|done|].
    { pose proof (flush_ok now c K) as H. by rewrite Ef in H. }
    split; [done|]. intros events0 notices0 e [[= -> ->]|Hin]%elem_of_cons He; [|by eapply I2].
    pose proof (proj1 (flush_events now c e)) as H. rewrite Ef in H. destruct (H He) as (k & p & Hk & _ & ->). by apply (ck_valid _ K).
Qed.

(** A coalescer some watcher has been feeding. *)
Definition coalescer_reachable (c : coalescer) : Prop :=
  ∃ debounce maxDelay capacity ins, debounce < 2^63 ∧ maxDelay < 2^63 ∧ Forall validInput ins ∧
    c = (replay ins (newCoalescer debounce maxDelay capacity)).1.

Lemma coalescer_reachable_ok c : coalescer_reachable c → coalescer_ok c.
Proof.
  intros (d & m & n & ins & Hd & Hm & Hv & ->). destruct (replay ins _) as [c outs] eqn:E.
  by apply replay_ok in E as [? _]; [|apply newCoalescer_ok|].
Qed.

(** C36 (type). Only well-formed events leave the coalescer: whatever valid events and
    overflows a watcher reports, in any order and with any flushes between them,
    every event a flush hands on passes the agent's own validation, and never
    more paths are held than the capacity. *)
Theorem flushed_events_valid debounce maxDelay capacity ins c outs :
  debounce < 2^63 → maxDelay < 2^63 → Forall validInput ins →
  replay ins (newCoalescer debounce maxDelay capacity) = (c, outs) →
  (∀ events notices e, (events, notices) ∈ outs → e ∈ events → ValidEvent e = None) ∧ pendingCount c ≤ co_cap c.
Proof.
  intros Hd Hm Hv E. eapply replay_ok in E as [K Ho]; [|by apply newCoalescer_ok|done]. split; [done|]. apply (ck_size _ K).
Qed.

(** ** When an event is reported *)

Lemma Sub_le d t u : 0 < d < 2^63 → d ≤ Sub t u ↔ d ≤ t - u.
Proof. intros Hd. unfold Sub. lia. Qed.

Lemma due_iff now c p :
  coalescer_ok c → due now c p = true ↔ co_debounce c ≤ now - pe_last p ∨ co_maxDelay c ≤ now - pe_first p.
Proof.
  intros K. unfold due. rewrite orb_true_iff, !Z.leb_le, !Sub_le; [done|apply K..].
Qed.

Lemma sorted_strict (l : list (pendingKey * pendingEvent)) :
  StronglySorted (λ a b, seq_leb a b = true) l → NoDup l.*1 →
  (∀ a b, a ∈ l → b ∈ l → pe_seq a.2 = pe_seq b.2 → a.1 = b.1) →
  StronglySorted (λ a b, pe_seq a.2 < pe_seq b.2) l.
Proof.
  intros Hs. induction Hs as [|a l Hs IH Ha]; intros Hnd Hinj; [constructor|]. inversion Hnd as [|? ? Hni Hnd']; subst.
  constructor; [apply IH; [done|]; intros; apply Hinj; by try right|].
  rewrite Forall_forall in *. intros b Hb. specialize (Ha b Hb). unfold seq_leb in Ha. apply Z.leb_le in Ha.
  destruct (decide (pe_seq a.2 = pe_seq b.2)) as [E|]; [|lia]. exfalso. apply Hni.
  rewrite (Hinj a b) by (done || left || by right). by apply list_elem_of_fmap_2.
Qed.

(** Every event is reported in time: at a flush, a path that has been
    quiet for the debounce interval or held for the longest delay is reported
    with all that happened to it and is no longer held, however often it is
    still touched; the others stay; and the events come out in the order in
    which their paths were first touched, a directory before its children. *)
Theorem flush_on_time c now c' events notices :
  coalescer_reachable c → flush now c = (c', events, notices) →
  (∀ k p, co_pending c !! k = Some p →
     if decide (co_debounce c ≤ now - pe_last p ∨ co_maxDelay c ≤ now - pe_first p)
     then eventOf (k, p) ∈ events ∧ co_pending c' !! k = None
     else co_pending c' !! k = Some p ∧ ∀ e, e ∈ events → (we_Export e, we_Path e) ≠ k) ∧
  (∃ l, events = eventOf <$> l ∧ StronglySorted (λ a b, pe_seq a.2 < pe_seq b.2) l ∧
        ∀ k p, (k, p) ∈ l → co_pending c !! k = Some p).
Proof.
  intros K%coalescer_reachable_ok E. pose proof (flush_pending now c) as Hp. pose proof (flush_events now c) as He. rewrite E in Hp, He. cbn in Hp, He.
  split.
  - intros k p Hk. specialize (Hp k). rewrite Hk in Hp. case_decide as Hd; pose proof (due_iff now c p K) as Hdue.
    + rewrite (proj2 Hdue Hd) in Hp. split; [|done]. apply He. exists k, p. split_and!; [done|by apply Hdue|done].
    + assert (due now c p = false) as Hf by (apply not_true_iff_false; by rewrite Hdue). rewrite Hf in Hp. split; [done|].
      intros e (k' & p' & Hk' & Hd' & ->)%He. cbn. destruct k' as [x y]. cbn. intros <-. congruence.
  - exists (ready now c). split; [by injection E as _ <- _|]. split; [|by intros k p [? _]%elem_of_ready].
    apply sorted_strict.
    + apply stable_sort_sorted; intros *; unfold seq_leb; rewrite !Z.leb_le; lia.
    + unfold ready. rewrite stable_sort_Permutation. eapply sublist_NoDup; [apply (NoDup_fst_map_to_list (co_pending c))|].
      apply fmap_sublist, sublist_filter.
    + intros [k1 p1] [k2 p2] [H1 _]%elem_of_ready [H2 _]%elem_of_ready. cbn. by apply (ck_inj _ K).
Qed.

(** ** The timer *)

Definition minStep (earliest at_ : Time) : Time := if IsZero earliest || Before at_ earliest then at_ else earliest.

Lemma minStep_spec e t : zeroTime < t → e = zeroTime ∨ zeroTime < e →
  zeroTime < minStep e t ∧ minStep e t ≤ t ∧ (e ≠ zeroTime → minStep e t ≤ e) ∧ (minStep e t = t ∨ minStep e t = e).
Proof.
  intros Ht He. unfold minStep, IsZero, Before. destruct (Z.eqb_spec e zeroTime) as [->|Hne]; cbn [orb]; [split_and!; [done|lia|done|by left]|].
  destruct (Z.ltb_spec t e); split_and!; try lia; auto.
Qed.

Lemma earliest_spec l e :
  Forall (λ t, zeroTime < t) l → e = zeroTime ∨ zeroTime < e →
  let m := foldl minStep e l in
  (m = e ∨ m ∈ l) ∧ Forall (λ t, m ≤ t) l ∧ (e ≠ zeroTime → m ≤ e) ∧ (l ≠ [] ∨ e ≠ zeroTime → zeroTime < m).
Proof.
  revert e. induction l as [|t l IH]; intros e Hl He; cbn [foldl]; cbv zeta.
  { split_and!; auto; [lia|]. intros [?|?]; [done|lia]. }
  inversion Hl as [|? ? Ht Hl']; subst. destruct (minStep_spec e t Ht He) as (M1 & M2 & M3 & M4).
  destruct (IH (minStep e t) Hl') as (I1 & I2 & I3 & I4); [by right|]. specialize (I3 ltac:(lia)). specialize (I4 ltac:(right; lia)).
  split_and!; [|constructor; [lia|done]|intros Hne; specialize (M3 Hne); lia|done].
  rewrite elem_of_cons. destruct I1 as [->|?]; [destruct M4 as [->| ->]; auto|auto].
Qed.

Lemma dueAt_eq now c p : dueAt now c p = Z.max now (Z.min (pe_last p + co_debounce c) (pe_first p + co_maxDelay c)).
Proof.
  unfold dueAt, Before, Add. destruct (Z.ltb_spec (pe_first p + co_maxDelay c) (pe_last p + co_debounce c));
    match goal with |- context [?a <? ?b] => destruct (Z.ltb_spec a b) end; lia.
Qed.

Lemma dueAt_iff now t c p : coalescer_ok c → now ≤ t → due t c p = true ↔ dueAt now c p ≤ t.
Proof.
  intros K Ht. rewrite due_iff, dueAt_eq by done. lia.
Qed.

(** The timer is armed exactly: with anything held, [nextDue] is a moment
    from now on at which a flush reports something, and no flush before it would
    report anything. *)
Theorem timer_is_exact c now :
  coalescer_reachable c → co_pending c ≠ ∅ → zeroTime < now →
  (∀ k p, co_pending c !! k = Some p → zeroTime < pe_first p ∧ zeroTime < pe_last p) →
  ∃ t, nextDue now c = (t, true) ∧ now ≤ t ∧
       (∃ k p, co_pending c !! k = Some p ∧ due t c p = true) ∧
       (∀ t' k p, now ≤ t' < t → co_pending c !! k = Some p → due t' c p = false).
Proof.
  intros K%coalescer_reachable_ok Hne Hnow Hz. unfold nextDue.
  assert (∀ l e, foldl (λ earliest p, let at_ := dueAt now c p in if IsZero earliest || Before at_ earliest then at_ else earliest) e l
          = foldl minStep e (dueAt now c <$> l)) as Hfold by (induction l; intros e; cbn; [done|by rewrite IHl]).
  rewrite Hfold. set (l := dueAt now c <$> _).
  assert (∀ x, x ∈ l ↔ ∃ k p, co_pending c !! k = Some p ∧ x = dueAt now c p) as Hl.
  { intros x. unfold l. rewrite list_elem_of_fmap. setoid_rewrite list_elem_of_fmap. split.
    - intros (p & -> & [k q] & -> & Hk%elem_of_map_to_list). eauto.
    - intros (k & p & Hk%elem_of_map_to_list & ->). exists p. split; [done|]. by exists (k, p). }
  assert (∀ p, now ≤ dueAt now c p) as Hge.
  { intros p. rewrite dueAt_eq. lia. }
  assert (Forall (λ t, zeroTime < t) l) as Hpos.
  { apply Forall_forall. intros x (k & p & _ & ->)%Hl. specialize (Hge p). lia. }
  assert (l ≠ []) as Hnil.
  { intros E. apply Hne, map_eq. intros k. rewrite lookup_empty. destruct (co_pending c !! k) as [p|] eqn:Ek; [|done].
    assert (dueAt now c p ∈ l) as Hin by (apply Hl; eauto). rewrite E in Hin. by apply elem_of_nil in Hin. }
  destruct (earliest_spec l zeroTime Hpos ltac:(by left)) as (M1 & M2 & _ & M4). set (t := foldl minStep zeroTime l) in *.
  specialize (M4 ltac:(by left)). destruct M1 as [M1|M1]; [lia|]. apply Hl in M1 as (k & p & Hk & Hp).
  exists t. unfold IsZero. rewrite (proj2 (Z.eqb_neq t zeroTime)) by lia. split_and!; [done|by rewrite Hp| |].
  - exists k, p. split; [done|]. apply (dueAt_iff now); [done| |lia]. rewrite Hp. apply Hge.
  - intros t' k' p' [? ?] Hk'. apply not_true_iff_false. rewrite (dueAt_iff now) by done. rewrite Forall_forall in M2.
    specialize (M2 (dueAt now c p') ltac:(apply Hl; eauto)). lia.
Qed.

(** ** Nothing is lost silently *)

(** A directory a path is at or below. *)
Definition covers (d p : string) : Prop := splitSlash d `prefix_of` splitSlash p.

Definition part (w : string) : Prop := w ≠ ""%string ∧ strings.Contains w path.sep = false.

Lemma splitSlash_parts p : Forall part (splitSlash p).
Proof.
  unfold splitSlash. pose proof (Split_no_sep p path.sep) as H. apply Forall_forall. intros w [Hw Hin]%list_elem_of_filter.
  rewrite Forall_forall in H. split; [done|by apply H].
Qed.

Lemma splitSlash_rooted ws : Forall part ws → splitSlash ("/" +:+ strings.Join ws "/") = ws.
Proof.
  intros Hw. destruct ws as [|w ws]; [done|]. unfold splitSlash.
  change (strings.Split ("/" +:+ strings.Join (w :: ws) "/") path.sep) with (""%string :: strings.Split (strings.Join (w :: ws) "/") path.sep).
  rewrite (Split_Join (w :: ws)); [|done|eapply Forall_impl; [exact Hw|]; by intros ? [_ ?]].
  rewrite filter_cons, decide_False by (intros H; by apply H). clear -Hw. induction Hw as [|x l [Hx _] _ IH]; [done|].
  by rewrite filter_cons, decide_True, IH.
Qed.

Lemma commonParts_refl l : commonParts l l = l.
Proof. induction l as [|x l IH]; [done|]. cbn. rewrite bool_decide_eq_true_2 by done. by rewrite IH. Qed.

Lemma commonParts_prefix a b : commonParts a b `prefix_of` a ∧ commonParts a b `prefix_of` b.
Proof.
  revert b. induction a as [|x a IH]; intros b; cbn; [split; apply prefix_nil|]. destruct b as [|y b]; [split; apply prefix_nil|].
  case_bool_decide; [|split; apply prefix_nil]. subst. destruct (IH b). split; by apply prefix_cons.
Qed.

Lemma Forall_prefix {A} (Q : A → Prop) l l' : l `prefix_of` l' → Forall Q l' → Forall Q l.
Proof. intros [k ->] H. by apply Forall_app in H as [? _]. Qed.

Lemma splitSlash_commonDir a b : splitSlash (commonDir a b) = commonParts (splitSlash a) (splitSlash b).
Proof.
  unfold commonDir. case_bool_decide; [subst; by rewrite commonParts_refl|].
  assert (Forall part (commonParts (splitSlash a) (splitSlash b))) as Hp
    by (eapply Forall_prefix; [apply commonParts_prefix|apply splitSlash_parts]).
  destruct (commonParts _ _) as [|w ws]; [done|]. by apply splitSlash_rooted.
Qed.

(** The directory reported for two losses is above both. *)
Lemma commonDir_covers a b p : covers a p ∨ covers b p → covers (commonDir a b) p.
Proof.
  unfold covers. rewrite splitSlash_commonDir. destruct (commonParts_prefix (splitSlash a) (splitSlash b)) as [Ha Hb].
  intros [H|H]; [exact (transitivity Ha H)|exact (transitivity Hb H)].
Qed.

Lemma Split_dir_part p : strings.Split (path.dir_part p) path.sep = removelast (strings.Split p path.sep) ++ [""%string].
Proof.
  induction p as [|a p IH]; [done|]. cbn [path.dir_part]. destruct (strings.Contains p path.sep) eqn:Ec.
  - cbn [strings.Split]. rewrite IH. destruct (Ascii.eqb a path.sep); destruct (strings.Split p path.sep) as [|w ws] eqn:Es; try (by destruct (Split_not_nil p path.sep)); [done|].
    destruct ws as [|w' ws]; [|done]. exfalso. pose proof (Join_Split p path.sep) as Hj. rewrite Es in Hj. cbn in Hj. subst w.
    pose proof (Split_no_sep p path.sep) as Hn. rewrite Es in Hn. inversion Hn. congruence.
  - cbn [strings.Split]. rewrite (Split_no_Contains p) by done. destruct (Ascii.eqb a path.sep) eqn:E; cbn [strings.Split]; by rewrite ?E.
Qed.

Lemma prefix_removelast {A} (l : list A) : removelast l `prefix_of` l.
Proof. destruct l as [|x l] using rev_ind; [done|]. rewrite removelast_last. by apply prefix_app_r. Qed.

(** The components of a path the agent accepts. *)
Lemma valid_share_parts p : ValidSharePath p = None → ∃ ws, p = "/" +:+ strings.Join ws "/" ∧ Forall plainPart ws ∧ Forall part ws.
Proof.
  intros Hv. unfold ValidSharePath in Hv. case_bool_decide; [done|]. destruct (strings.HasPrefix p "/") eqn:Hp; [|done]. cbn [negb] in Hv.
  destruct (strings.Contains p backslash); [done|]. destruct (strings.Contains p NUL); [done|]. apply HasPrefix_spec in Hp as [q ->].
  case_bool_decide as Hr; [exists []; split; [done|split; constructor]|]. rewrite TrimPrefix_append, badComponent_None in Hv.
  exists (strings.Split q path.sep). rewrite Join_Split. split_and!; [done|done|]. pose proof (Split_no_sep q path.sep) as Hn.
  rewrite Forall_forall in *. intros w Hw. split; [by apply Hv|by apply Hn].
Qed.

Lemma Dir_rooted ws : Forall plainPart ws → Forall part ws → path.Dir ("/" +:+ strings.Join ws "/") = "/" +:+ strings.Join (removelast ws) "/".
Proof.
  intros Hpl Hpa. destruct ws as [|w ws]; [done|]. unfold path.Dir, path.Clean. set (p := "/" +:+ strings.Join (w :: ws) "/").
  assert (strings.HasPrefix (path.dir_part p) "/" = true) as ->.
  { unfold p. change ("/" +:+ strings.Join (w :: ws) "/") with (String "/" (strings.Join (w :: ws) "/")). cbn [path.dir_part].
    by destruct (strings.Contains _ _). }
  rewrite Split_dir_part.
  assert (strings.Split p path.sep = ""%string :: w :: ws) as ->.
  { unfold p. change (strings.Split _ path.sep) with (""%string :: strings.Split (strings.Join (w :: ws) "/") path.sep). f_equal.
    apply (Split_Join (w :: ws)); [done|]. eapply Forall_impl; [exact Hpa|]. by intros ? [_ ?]. }
  change (removelast (""%string :: w :: ws)) with (""%string :: removelast (w :: ws)).
  rewrite clean_parts_snoc_empty. cbn [path.clean_parts]. rewrite bool_decide_eq_true_2 by by left.
  rewrite clean_parts_plain; [done|]. eapply Forall_prefix; [apply prefix_removelast|done].
Qed.

(** A path the agent accepts is below its own directory. *)
Lemma Dir_covers p : ValidSharePath p = None → covers (path.Dir p) p.
Proof.
  intros (ws & -> & Hpl & Hpa)%valid_share_parts. unfold covers. rewrite (splitSlash_rooted ws), Dir_rooted by done.
  rewrite splitSlash_rooted; [apply prefix_removelast|]. eapply Forall_prefix; [apply prefix_removelast|done].
Qed.

(** An event the coalescer still answers for, and one a flush has reported. *)
Definition accounted (c : coalescer) (e : WireEvent) : Prop :=
  is_Some (co_pending c !! (we_Export e, we_Path e)) ∨
  ∃ l, co_lost c !! we_Export e = Some l ∧ covers (lo_dir l) (we_Path e).

Definition reported (out : list WireEvent * list WireNotice) (e : WireEvent) : Prop :=
  (∃ e', e' ∈ out.1 ∧ we_Export e' = we_Export e ∧ we_Path e' = we_Path e) ∨
  (∃ n, n ∈ out.2 ∧ wn_Export n = we_Export e ∧ covers (wn_Path n) (we_Path e)).

Lemma lost_grows c e export dir n :
  accounted c e →
  accounted (with_lost (<[export := match co_lost c !! export with
      | None => {| lo_count := n; lo_dir := dir |}
      | Some l => {| lo_count := lo_count l + n; lo_dir := commonDir (lo_dir l) dir |} end]> (co_lost c)) c) e.
Proof.
  intros [?|(l & Hl & Hc)]; [by left|]. right. cbn [with_lost co_lost]. rewrite lookup_insert. case_decide; [|by exists l]. subst export.
  rewrite Hl. eexists. split; [done|]. cbn. apply commonDir_covers. by left.
Qed.

Lemma add_accounts now e c : ValidEvent e = None → accounted (add now e c) e.
Proof.
  intros (_ & Hp & _)%ValidEvent_iff. unfold add. destruct (co_pending c !! _) as [p|].
  - left. cbn. rewrite lookup_insert_eq. by eexists.
  - destruct (_ <=? _); [|left; cbn; rewrite lookup_insert_eq; by eexists]. right. unfold drop. cbn. rewrite lookup_insert_eq. eexists. split; [done|].
    destruct (co_lost c !! we_Export e); cbn; [apply commonDir_covers; right|]; by apply Dir_covers.
Qed.

Lemma add_keeps now e' e c : accounted c e → accounted (add now e' c) e.
Proof.
  intros Ha. unfold add. destruct (co_pending c !! _) as [p|] eqn:Ek.
  - destruct Ha as [?|?]; [|by right]. left. cbn. rewrite lookup_insert. case_decide; [by eexists|done].
  - destruct (_ <=? _); [by apply lost_grows|]. destruct Ha as [?|?]; [|by right]. left. cbn. rewrite lookup_insert. case_decide; [by eexists|done].
Qed.

Lemma flush_reports now c e :
  accounted c e → accounted (flush now c).1.1 e ∨ reported ((flush now c).1.2, (flush now c).2) e.
Proof.
  intros [[p Hp]|(l & Hl & Hc)].
  - destruct (due now c p) eqn:Ed.
    + right. left. exists (eventOf ((we_Export e, we_Path e), p)). split; [|done]. apply flush_events. eauto 6.
    + left. left. rewrite flush_pending, Hp, Ed. by eexists.
  - right. right. exists (noticeOf c (we_Export e)). cbn [fst snd flush]. split.
    + apply list_elem_of_fmap_2. unfold sort_strings. apply elem_of_stable_sort. apply list_elem_of_fmap.
      exists (we_Export e, l). split; [done|]. by apply elem_of_map_to_list.
    + unfold noticeOf. by rewrite Hl.
Qed.

(** What is accounted for stays so until a flush reports it. *)
Lemma replay_accounts e ins c c' outs : accounted c e → replay ins c = (c', outs) → accounted c' e ∨ ∃ out, out ∈ outs ∧ reported out e.
Proof.
  revert c c' outs. induction ins as [|i ins IH]; intros c c' outs Ha E; [injection E as <- <-; by left|].
  destruct i as [t e'|export dir n|t]; cbn [replay] in E.
  - eapply IH; [|exact E]. by apply add_keeps.
  - eapply IH; [|exact E]. by apply lost_grows.
  - destruct (flush_reports t c e Ha) as [Hk|Hr]; destruct (flush t c) as [[c1 events] notices]; destruct (replay ins c1) as [c2 outs'] eqn:Er; injection E as <- <-.
    + destruct (IH _ _ _ Hk Er) as [?|(out & ? & ?)]; [by left|]. right. exists out. split; [by right|done].
    + right. exists (events, notices). split; [left|done].
Qed.

(** Nothing is lost silently: once a valid event has been observed, then
    after any further events, overflows and flushes the coalescer still holds its
    path or a loss whose directory is above it, or some flush has reported an
    event for that path or a notice for a directory above it. *)
Theorem nothing_lost_silently now e c ins c' outs :
  ValidEvent e = None → replay ins (add now e c) = (c', outs) →
  accounted c' e ∨ ∃ out, out ∈ outs ∧ reported out e.
Proof. intros Hv. apply replay_accounts. by apply add_accounts. Qed.
