(* ===== verification/Gate.v ===== *)
(** * The connection held only while it is needed (client/internal/session/gate.go)

    [connGate] is generic in its connection; here a connection is its identity, a
    [nat], and what [open], [busy], [alive] and [keep] answer is an argument.  Each
    definition is one hold of the mutex; [shut] runs with none held, so an
    operation returns the connection its caller shuts next. *)

From S2P Require Import Prelude GoTime.
Open Scope Z_scope.

Record connGate := {
  ga_idle : Duration;
  ga_conn : option nat;
  ga_lastUsed : Time;
  ga_users : Z;
  ga_drops : Z;
  ga_lastDr : Time
}.

Definition newGate (idle : Duration) : connGate :=
  {| ga_idle := idle; ga_conn := None; ga_lastUsed := zeroTime; ga_users := 0; ga_drops := 0; ga_lastDr := zeroTime |}.

Definition set_conn (o : option nat) (g : connGate) : connGate :=
  {| ga_idle := ga_idle g; ga_conn := o; ga_lastUsed := ga_lastUsed g; ga_users := ga_users g; ga_drops := ga_drops g; ga_lastDr := ga_lastDr g |}.
Definition use (n : Z) (now : Time) (g : connGate) : connGate :=
  {| ga_idle := ga_idle g; ga_conn := ga_conn g; ga_lastUsed := now; ga_users := ga_users g + n; ga_drops := ga_drops g; ga_lastDr := ga_lastDr g |}.

(** [invalidate]: the dead connection, to be shut. *)
Definition invalidate (alive : nat → bool) (now : Time) (g : connGate) : connGate * option nat :=
  match ga_conn g with
  | Some c =>
      if alive c then (g, None)
      else ({| ga_idle := ga_idle g; ga_conn := None; ga_lastUsed := ga_lastUsed g; ga_users := ga_users g;
               ga_drops := ga_drops g + 1; ga_lastDr := now |}, Some c)
  | None => (g, None)
  end.

Definition dropped (g : connGate) : Z * Time := (ga_drops g, ga_lastDr g).

(** [acquire], once what is dead has been shut: [open] is the connection it would
    open, if it can. *)
Definition acquire (open : option nat) (now : Time) (g : connGate) : connGate * option nat :=
  match ga_conn g with
  | Some c => (use 1 now g, Some c)
  | None => match open with
            | Some c => (use 1 now (set_conn (Some c) g), Some c)
            | None => (g, None)
            end
  end.

(** The release [acquire] returns, run once. *)
Definition release (now : Time) (g : connGate) : connGate := use (-1) now g.

(** [sweep], once nothing is dead: the connection to ask [busy] about. *)
Definition sweepAsk (keep : nat → bool) (now : Time) (g : connGate) : option nat :=
  match ga_conn g with
  | Some c => if (ga_idle g <=? 0) || (0 <? ga_users g) || (Sub now (ga_lastUsed g) <? ga_idle g) || keep c then None else Some c
  | None => None
  end.

(** What follows when [c] is not busy: the connection released. *)
Definition sweepRelease (c : nat) (now : Time) (g : connGate) : connGate * option nat :=
  if bool_decide (ga_conn g = None) || (0 <? ga_users g) || (Sub now (ga_lastUsed g) <? ga_idle g) then (g, None)
  else (set_conn None g, Some c).

Definition lastUse (g : connGate) : Time * bool := (ga_lastUsed g, 0 <? ga_users g).

Definition currentLive (alive : nat → bool) (g : connGate) : option nat :=
  match ga_conn g with Some c => if alive c then Some c else None | None => None end.

Definition close (g : connGate) : connGate * option nat :=
  match ga_conn g with Some c => (set_conn None g, Some c) | None => (g, None) end.

(** ** The gate and its callers *)

(** The leases not yet released, by the connection they were given; the sweeps that
    wait for [busy]; what is to be shut, and what has been; how many have opened. *)
Record gateWorld := {
  gw_gate : connGate;
  gw_leases : list nat;
  gw_asking : list nat;
  gw_toShut : list nat;
  gw_shut : list nat;
  gw_opened : nat
}.

Definition gateStart (idle : Duration) : gateWorld :=
  {| gw_gate := newGate idle; gw_leases := []; gw_asking := []; gw_toShut := []; gw_shut := []; gw_opened := 0 |}.

Definition queue (o : option nat) (l : list nat) : list nat := match o with Some c => c :: l | None => l end.

(** [timely] is a sweep whose [busy] answered while the connection it asked about
    was still the gate's: see [late_sweep_leaks]. *)
Definition timely (c : nat) (g : connGate) : Prop := ∀ c', ga_conn g = Some c' → c' = c.

Inductive gate_step (w : gateWorld) : gateWorld → Prop :=
| gate_invalidate alive now g' dead :
    invalidate alive now (gw_gate w) = (g', dead) →
    gate_step w {| gw_gate := g'; gw_leases := gw_leases w; gw_asking := gw_asking w; gw_toShut := queue dead (gw_toShut w);
                   gw_shut := gw_shut w; gw_opened := gw_opened w |}
| gate_shut c l :
    gw_toShut w ≡ₚ c :: l →
    gate_step w {| gw_gate := gw_gate w; gw_leases := gw_leases w; gw_asking := gw_asking w; gw_toShut := l;
                   gw_shut := c :: gw_shut w; gw_opened := gw_opened w |}
| gate_acquire (opens : bool) now g' got :
    acquire (if opens then Some (gw_opened w) else None) now (gw_gate w) = (g', got) →
    gate_step w {| gw_gate := g'; gw_leases := queue got (gw_leases w); gw_asking := gw_asking w; gw_toShut := gw_toShut w;
                   gw_shut := gw_shut w;
                   gw_opened := match ga_conn (gw_gate w) with None => if opens then S (gw_opened w) else gw_opened w | Some _ => gw_opened w end |}
| gate_release c l now :
    gw_leases w ≡ₚ c :: l →
    gate_step w {| gw_gate := release now (gw_gate w); gw_leases := l; gw_asking := gw_asking w; gw_toShut := gw_toShut w;
                   gw_shut := gw_shut w; gw_opened := gw_opened w |}
| gate_ask keep now c :
    sweepAsk keep now (gw_gate w) = Some c →
    gate_step w {| gw_gate := gw_gate w; gw_leases := gw_leases w; gw_asking := c :: gw_asking w; gw_toShut := gw_toShut w;
                   gw_shut := gw_shut w; gw_opened := gw_opened w |}
| gate_busy c l :
    gw_asking w ≡ₚ c :: l →
    gate_step w {| gw_gate := gw_gate w; gw_leases := gw_leases w; gw_asking := l; gw_toShut := gw_toShut w;
                   gw_shut := gw_shut w; gw_opened := gw_opened w |}
| gate_idle c l now g' got :
    gw_asking w ≡ₚ c :: l → timely c (gw_gate w) → sweepRelease c now (gw_gate w) = (g', got) →
    gate_step w {| gw_gate := g'; gw_leases := gw_leases w; gw_asking := l; gw_toShut := queue got (gw_toShut w);
                   gw_shut := gw_shut w; gw_opened := gw_opened w |}
| gate_close g' got :
    close (gw_gate w) = (g', got) →
    gate_step w {| gw_gate := g'; gw_leases := gw_leases w; gw_asking := gw_asking w; gw_toShut := queue got (gw_toShut w);
                   gw_shut := gw_shut w; gw_opened := gw_opened w |}.

Definition gate_reachable (w : gateWorld) : Prop := ∃ idle, rtc gate_step (gateStart idle) w.

(** ** The invariant *)

Definition held (g : connGate) : list nat := match ga_conn g with Some c => [c] | None => [] end.

Record gate_ok (w : gateWorld) : Prop := {
  go_users : ga_users (gw_gate w) = Z.of_nat (length (gw_leases w));
  go_all : held (gw_gate w) ++ gw_toShut w ++ gw_shut w ≡ₚ seq 0 (gw_opened w);
  go_leases : Forall (λ c, (c < gw_opened w)%nat) (gw_leases w)
}.

Lemma held_lt w c : gate_ok w → ga_conn (gw_gate w) = Some c → (c < gw_opened w)%nat.
Proof.
  intros [_ Ha _] E. assert (c ∈ seq 0 (gw_opened w)) as Hin by (rewrite <- Ha; unfold held; rewrite E; left).
  apply list_elem_of_In, in_seq in Hin. lia.
Qed.

(** A connection that leaves the gate is on its way to be shut. *)
Lemma gate_ok_leaves w g' c :
  gate_ok w → ga_conn (gw_gate w) = Some c → ga_conn g' = None → ga_users g' = ga_users (gw_gate w) →
  gate_ok {| gw_gate := g'; gw_leases := gw_leases w; gw_asking := gw_asking w; gw_toShut := c :: gw_toShut w;
             gw_shut := gw_shut w; gw_opened := gw_opened w |}.
Proof.
  intros [K1 K2 K3] Hc Hg Hu. split; cbn [gw_gate gw_leases gw_toShut gw_shut gw_opened]; [congruence| |done].
  unfold held in *. rewrite Hg, <- K2, Hc. done.
Qed.

(** What waits for [busy] is no part of the invariant. *)
Lemma gate_ok_asking w l :
  gate_ok w → gate_ok {| gw_gate := gw_gate w; gw_leases := gw_leases w; gw_asking := l; gw_toShut := gw_toShut w;
                         gw_shut := gw_shut w; gw_opened := gw_opened w |}.
Proof. by intros [? ? ?]. Qed.

Lemma acquire_ok w (opens : bool) now g' got :
  gate_ok w → acquire (if opens then Some (gw_opened w) else None) now (gw_gate w) = (g', got) →
  gate_ok {| gw_gate := g'; gw_leases := queue got (gw_leases w); gw_asking := gw_asking w; gw_toShut := gw_toShut w; gw_shut := gw_shut w;
             gw_opened := match ga_conn (gw_gate w) with None => if opens then S (gw_opened w) else gw_opened w | Some _ => gw_opened w end |}.
Proof.
  intros K E. pose proof (held_lt w) as Hlt. destruct K as [K1 K2 K3] eqn:EK. clear EK. unfold acquire in E.
  destruct (ga_conn (gw_gate w)) as [c|] eqn:Ec; [|destruct opens]; injection E as <- <-.
  - split; cbn; [rewrite K1; lia| |].
    + unfold held in *. cbn. by rewrite Ec in *.
    + constructor; [|done]. by apply Hlt.
  - split; cbn [gw_gate gw_leases gw_toShut gw_shut gw_opened queue length]; [cbn; rewrite K1; lia| |].
    + unfold held in *. cbn [use set_conn ga_conn]. rewrite Ec in K2. rewrite List.seq_S, <- K2. cbn [app Nat.add]. apply Permutation_cons_append.
    + constructor; [lia|]. eapply Forall_impl; [exact K3|]. cbn. lia.
  - by split.
Qed.

Lemma gate_step_ok w w' : gate_ok w → gate_step w w' → gate_ok w'.
Proof.
  intros K Hs. destruct Hs as [alive now g' dead E|c l E|opens now g' got E|c l now E|keep now c E|c l E|c l now g' got E Ht Er|g' got E].
  - unfold invalidate in E. destruct (ga_conn (gw_gate w)) as [c|] eqn:Ec; [destruct (alive c)|]; injection E as <- <-; [by destruct K| |by destruct K].
    by apply gate_ok_leaves.
  - destruct K as [K1 K2 K3]. split; cbn [gw_gate gw_leases gw_toShut gw_shut gw_opened]; [done| |done]. rewrite <- K2, E. cbn. by rewrite Permutation_middle.
  - by eapply acquire_ok.
  - destruct K as [K1 K2 K3]. split; cbn [gw_gate gw_leases gw_toShut gw_shut gw_opened]; [|done|].
    + cbn. rewrite K1, E. cbn [length]. lia.
    + rewrite E in K3. by inversion K3.
  - by apply gate_ok_asking.
  - by apply gate_ok_asking.
  - unfold sweepRelease in Er. destruct (_ || _) eqn:Eb; injection Er as <- <-; [by apply gate_ok_asking|].
    destruct (ga_conn (gw_gate w)) as [c'|] eqn:Ec; [|cbn in Eb; done].
    rewrite (Ht c' Ec) in Ec. apply (gate_ok_asking _ l (gate_ok_leaves w (set_conn None (gw_gate w)) c K Ec eq_refl eq_refl)).
  - unfold close in E. destruct (ga_conn (gw_gate w)) as [c|] eqn:Ec; injection E as <- <-; [by apply gate_ok_leaves|by destruct K].
Qed.

Lemma gate_reachable_ok w : gate_reachable w → gate_ok w.
Proof.
  intros (idle & Hr). assert (gate_ok (gateStart idle)) as K by (split; [done|done|constructor]).
  induction Hr as [|? ? ? Hs _ IH]; [done|]. apply IH. by eapply gate_step_ok.
Qed.

(** The idle release never closes a connection in use: in any state the
    gate's callers can reach while each sweep's question is answered before the
    connection it asked about has been replaced, a sweep that releases one does it
    with no lease outstanding, on whatever connection, and the gate unused for the
    idle time; and every connection ever opened is the one held, is about to be
    shut or has been, each once, so none is left open and none is shut twice. *)
Theorem idle_release_is_safe w :
  gate_reachable w →
  (∀ c now g', sweepRelease c now (gw_gate w) = (g', Some c) →
     gw_leases w = [] ∧ ga_idle (gw_gate w) ≤ Sub now (ga_lastUsed (gw_gate w))) ∧
  NoDup (held (gw_gate w) ++ gw_toShut w ++ gw_shut w) ∧
  (∀ c, c ∈ held (gw_gate w) ++ gw_toShut w ++ gw_shut w ↔ (c < gw_opened w)%nat).
Proof.
  intros [K1 K2 K3]%gate_reachable_ok. split_and!.
  - intros c now g' E. unfold sweepRelease in E. destruct (_ || _) eqn:Eb; [done|]. apply orb_false_iff in Eb as [[_ Hu]%orb_false_iff Hi].
    apply Z.ltb_ge in Hu, Hi. split; [|done]. apply nil_length_inv. lia.
  - rewrite K2. apply NoDup_seq.
  - intros c. rewrite K2. rewrite elem_of_seq. lia.
Qed.

(** A sweep whose [busy] takes longer than the idle time: meanwhile the connection
    dies, another is opened, used and released, and goes idle too. The sweep then
    takes the new connection out of the gate and shuts the old one again: the new
    one is never shut. *)
Definition lateGate : connGate :=
  let g1 := fst (acquire (Some 0%nat) (1 * Second) (newGate Second)) in
  let g2 := release (1 * Second) g1 in
  let g3 := fst (invalidate (λ _, false) (3 * Second) g2) in
  release (3 * Second) (fst (acquire (Some 1%nat) (3 * Second) g3)).

Lemma late_sweep_leaks :
  sweepAsk (λ _, false) (2 * Second) (release (1 * Second) (fst (acquire (Some 0%nat) (1 * Second) (newGate Second)))) = Some 0%nat ∧
  ga_conn lateGate = Some 1%nat ∧ ga_conn (fst (sweepRelease 0 (5 * Second) lateGate)) = None ∧
  snd (sweepRelease 0 (5 * Second) lateGate) = Some 0%nat.
Proof. split_and!; vm_compute; reflexivity. Qed.
