(* ===== verification/Tokens.v ===== *)
(** * Single-use enrolment tokens (core-agent/tokens/tokens.go, core/enrol/enrol.go)

    The store is a directory of files; several agents may share it, so each
    definition is one operation on the directory and the calls interleave between
    them.  A file is the [Token] its JSON holds, or [None] where it holds none;
    [sha256.Sum256], the clock and the nonce are arguments.  An error of the disk
    other than a missing file is left out. *)
From Stdlib Require Import Ascii.
From S2P Require Import Prelude GoStrings GoTime Records Names.

Open Scope Z_scope.

(** ** core/enrol/enrol.go: a token's id *)

Definition idBytes : nat := 5.
Definition idEncodedLen : nat := 8.

(** [idEncoding.DecodeString]: bytes of the alphabet, line ends skipped. *)
Definition idByte (a : ascii) : bool :=
  let n := nat_of_ascii a in ((97 <=? n) && (n <=? 122))%nat || ((50 <=? n) && (n <=? 55))%nat.
Definition lineEnd (a : ascii) : bool := let n := nat_of_ascii a in ((n =? 10) || (n =? 13))%nat.

Definition ValidID (id : string) : bool :=
  (strlen id =? idEncodedLen)%nat && everyByte (λ a, idByte a || lineEnd a) id.

(** ** core-agent/tokens/tokens.go *)

Definition DefaultTTL : Duration := 24 * Hour.
Definition MaxTTL : Duration := 7 * 24 * Hour.
Definition claimStale : Duration := 10 * Minute.
Definition suffix : string := ".json".
Definition claimPrefix : string := ".redeeming-".

(** [Token]; the id is the file's name. *)
Record Token := {
  tk_Hash : string;
  tk_Account : string;
  tk_Created : Time;
  tk_Expires : Time;
  tk_Creator : string;
  tk_Note : string
}.

#[export] Instance Token_eq_dec : EqDecision Token.
Proof. solve_decision. Defined.

Abbreviation store := (gmap string (option Token)).

(** [path] and [tokenID]. *)
Definition tokenPath (id : string) : string := id +:+ suffix.

Definition tokenID (name : string) : option string :=
  match strings.CutPrefix name claimPrefix with
  | Some rest => match strings.Cut rest dash with Some (id, _) => if ValidID id then Some id else None | None => None end
  | None => match strings.CutSuffix name suffix with Some id => if ValidID id then Some id else None | None => None end
  end.

(** [read]. *)
Definition read (d : store) (name : string) : option Token := mjoin (d !! name).

(** [os.Rename]: [None] where there is nothing to rename. *)
Definition rename (from at_ : string) (d : store) : option store :=
  match d !! from with Some f => Some (<[at_ := f]> (delete from d)) | None => None end.

Section tokens.
Context (Sum256 : string → string).

Definition hash (secret : string) : string := EncodeToString (Sum256 secret).

Definition matches (now : Time) (t : Token) (secret : string) : bool :=
  bool_decide (DecodeString (tk_Hash t) = Some (Sum256 secret)) && Before now (tk_Expires t).

(** [Mint], once an id has been drawn: the time to live, and the file through
    [create], which refuses an id already taken. *)
Definition mintTTL (ttl : Duration) : option Duration :=
  if ttl =? 0 then Some DefaultTTL else if (ttl <? 0) || (MaxTTL <? ttl) then None else Some ttl.

Definition mintToken (account creator note secret : string) (now : Time) (ttl : Duration) : Token :=
  let created := (now / Second) * Second in
  {| tk_Hash := hash secret; tk_Account := account; tk_Created := created; tk_Expires := Add created ttl; tk_Creator := creator; tk_Note := note |}.

Definition create (id : string) (t : Token) (d : store) : option store :=
  match d !! tokenPath id with Some _ => None | None => Some (<[tokenPath id := Some t]> d) end.

(** [Live] and [Check]. *)
Definition Live (id : string) (now : Time) (d : store) : bool :=
  ValidID id && match read d (tokenPath id) with Some t => Before now (tk_Expires t) | None => false end.

Definition Check (id secret : string) (now : Time) (d : store) : option Token :=
  if negb (ValidID id) then None
  else match read d (tokenPath id) with
       | Some t => if matches now t secret then Some t else None
       | None => None
       end.

(** [Consume]: the claim's name; then the rename; then the check of what was
    claimed, which puts it back ([Restore]) when it does not match. *)
Definition claimName (id : string) (now : Time) (nonce : string) : string :=
  claimPrefix +:+ id +:+ "-" +:+ Itoa now +:+ "-" +:+ EncodeToString nonce.

Definition claim (id at_ : string) (d : store) : option store :=
  if negb (ValidID id) then None else rename (tokenPath id) at_ d.

Definition checkClaim (at_ secret : string) (now : Time) (d : store) : option Token :=
  match read d at_ with Some t => if matches now t secret then Some t else None | None => None end.

(** [Claim.Restore] and [Claim.Done].  [None] is [os.ErrNotExist]; [removable] is
    false where deleting the file fails in another way, which leaves the claim. *)
Definition Restore (at_ id : string) (d : store) : option store := rename at_ (tokenPath id) d.
Definition Done (removable : bool) (at_ : string) (d : store) : option store :=
  match d !! at_ with Some _ => Some (if removable then delete at_ d else d) | None => None end.

(** [Revoke]: the token's file, then the claims a listing shows. *)
Definition revokeFile (id : string) (d : store) : store * bool := (delete (tokenPath id) d, bool_decide (is_Some (d !! tokenPath id))).

Definition isClaimOf (id name : string) : bool := strings.HasPrefix name (claimPrefix +:+ id +:+ "-").

Definition revokeClaims (id : string) (d : store) : store * bool :=
  (filter (λ kv, isClaimOf id kv.1 = false) d, existsb (isClaimOf id) (map_to_list d).*1).

(** [claimedAt] and the turn of [Sweep] for one name of its listing. *)
Definition claimedAt (rest : string) : option Time :=
  match strings.Split rest dash with
  | [_; ns; _] => Atoi ns
  | _ => None
  end.

Definition sweepName (name : string) (now : Time) (d : store) : store :=
  match strings.CutPrefix name claimPrefix with
  | Some rest => match claimedAt rest with
                 | Some at_ => if claimStale <? Sub now at_ then delete name d else d
                 | None => d
                 end
  | None => match strings.CutSuffix name suffix with
            | Some id => if ValidID id
                         then match read d name with Some t => if Before now (tk_Expires t) then d else delete name d | None => d end
                         else d
            | None => d
            end
  end.

(** [List]: every token of a listing in the order [ReadDir] gives, oldest first. *)
Definition listStep (d : store) (acc : gset string * list (string * Token)) (name : string) : gset string * list (string * Token) :=
  match tokenID name with
  | Some id => if bool_decide (id ∈ acc.1) then acc
               else match read d name with Some t => ({[id]} ∪ acc.1, acc.2 ++ [(id, t)]) | None => acc end
  | None => acc
  end.
Definition List_ (d : store) : list (string * Token) :=
  stable_sort (λ a b, tk_Created a.2 <=? tk_Created b.2)
    (snd (foldl (listStep d) (∅, []) (sort_strings (map_to_list d).*1))).

(** ** Agents that share the directory *)

(** A redemption under way: the claim's name, its id and the secret presented; and
    when what was claimed matched. *)
Record redemption := {
  rn_at : string;
  rn_id : string;
  rn_secret : string;
  rn_ok : option Time
}.

Record tokenWorld := {
  tw_dir : store;
  tw_minted : gmap string (string * Token);
  tw_running : list redemption;
  tw_done : list redemption
}.

Definition with_dir (d : store) (w : tokenWorld) : tokenWorld :=
  {| tw_dir := d; tw_minted := tw_minted w; tw_running := tw_running w; tw_done := tw_done w |}.

(** The calls of any number of agents.  An id is drawn once, and a claim's name
    once: both carry the randomness of [rand.Read]. *)
Inductive token_step (w : tokenWorld) : tokenWorld → Prop :=
| token_mint id secret account creator note now ttl ttl' d' :
    ValidID id = true → tw_minted w !! id = None → mintTTL ttl = Some ttl' →
    create id (mintToken account creator note secret now ttl') (tw_dir w) = Some d' →
    token_step w {| tw_dir := d'; tw_minted := <[id := (secret, mintToken account creator note secret now ttl')]> (tw_minted w);
                    tw_running := tw_running w; tw_done := tw_done w |}
| token_claim id secret now nonce d' :
    tw_dir w !! claimName id now nonce = None → claim id (claimName id now nonce) (tw_dir w) = Some d' →
    token_step w {| tw_dir := d'; tw_minted := tw_minted w;
                    tw_running := {| rn_at := claimName id now nonce; rn_id := id; rn_secret := secret; rn_ok := None |} :: tw_running w;
                    tw_done := tw_done w |}
| token_check r l now t :
    tw_running w ≡ₚ r :: l → rn_ok r = None → checkClaim (rn_at r) (rn_secret r) now (tw_dir w) = Some t →
    token_step w {| tw_dir := tw_dir w; tw_minted := tw_minted w;
                    tw_running := {| rn_at := rn_at r; rn_id := rn_id r; rn_secret := rn_secret r; rn_ok := Some now |} :: l;
                    tw_done := tw_done w |}
| token_restore r l :
    tw_running w ≡ₚ r :: l →
    token_step w {| tw_dir := default (tw_dir w) (Restore (rn_at r) (rn_id r) (tw_dir w)); tw_minted := tw_minted w;
                    tw_running := l; tw_done := tw_done w |}
| token_done removable r l d' :
    tw_running w ≡ₚ r :: l → is_Some (rn_ok r) → Done removable (rn_at r) (tw_dir w) = Some d' →
    token_step w {| tw_dir := d'; tw_minted := tw_minted w; tw_running := l; tw_done := r :: tw_done w |}
| token_lost r l :
    tw_running w ≡ₚ r :: l →
    token_step w {| tw_dir := tw_dir w; tw_minted := tw_minted w; tw_running := l; tw_done := tw_done w |}
| token_revoke_file id : token_step w (with_dir (fst (revokeFile id (tw_dir w))) w)
| token_revoke_claims id : token_step w (with_dir (fst (revokeClaims id (tw_dir w))) w)
| token_sweep name now : token_step w (with_dir (sweepName name now (tw_dir w)) w).

Definition token_reachable (w : tokenWorld) : Prop :=
  rtc token_step {| tw_dir := ∅; tw_minted := ∅; tw_running := []; tw_done := [] |} w.

End tokens.

(** * A token redeems once (core-agent/tokens/tokens.go) *)

Open Scope Z_scope.

(** ** File names *)

Lemma ValidID_bytes id : ValidID id = true → everyByte (λ a, idByte a || lineEnd a) id = true ∧ strlen id = 8%nat.
Proof. unfold ValidID. by intros [->%Nat.eqb_eq ?]%andb_true_iff. Qed.

Lemma ValidID_no_dash id : ValidID id = true → strings.Contains id dash = false.
Proof. intros [H _]%ValidID_bytes. by apply (everyByte_Contains (λ a, idByte a || lineEnd a)). Qed.

Lemma tokenID_path id : ValidID id = true → tokenID (tokenPath id) = Some id.
Proof.
  intros Hv. unfold tokenID, tokenPath.
  assert (strings.CutPrefix (id +:+ suffix) claimPrefix = None) as ->.
  { destruct (ValidID_bytes id Hv) as [Hb Hl]. destruct id as [|a id]; [done|]. cbn [String.append strings.CutPrefix]. cbn [everyByte] in Hb.
    change claimPrefix with (String "." "redeeming-"). cbn [strings.CutPrefix]. destruct (Ascii.eqb_spec "." a) as [<-|]; [|done]. done. }
  assert (strings.CutSuffix (id +:+ suffix) suffix = Some id) as -> by by apply CutSuffix_Some. by rewrite Hv.
Qed.

Lemma tokenID_claim id now nonce : ValidID id = true → tokenID (claimName id now nonce) = Some id.
Proof.
  intros Hv. unfold tokenID, claimName. rewrite CutPrefix_append, Cut_dash by by apply ValidID_no_dash. by rewrite Hv.
Qed.

(** ** How many files a token has *)

Definition copies (id : string) (d : store) : nat := size (filter (λ kv, tokenID kv.1 = Some id) d).

Lemma copies_subseteq id (d d' : store) : d' ⊆ d → (copies id d' ≤ copies id d)%nat.
Proof. intros H. apply map_subseteq_size. by apply map_filter_subseteq_mono. Qed.

Lemma copies_insert id (d : store) k f : (copies id (<[k := f]> d) ≤ copies id d + if decide (tokenID k = Some id) then 1 else 0)%nat.
Proof.
  unfold copies. rewrite map_filter_insert. cbn [fst]. case_decide.
  - destruct (filter (λ kv : string * option Token, tokenID kv.1 = Some id) d !! k) eqn:E; [rewrite map_size_insert_Some by (by eexists); lia|rewrite map_size_insert_None by done; lia].
  - pose proof (copies_subseteq id d (delete k d) (delete_subseteq _ _)) as H'. unfold copies in H'. lia.
Qed.

Lemma copies_delete id (d : store) k :
  is_Some (d !! k) → tokenID k = Some id → copies id d = S (copies id (delete k d)).
Proof.
  intros [f Hf] Hk. unfold copies. rewrite map_filter_delete.
  assert (filter (λ kv, tokenID kv.1 = Some id) d !! k = Some f) as Hl by by apply map_lookup_filter_Some.
  rewrite map_size_delete, Hl. assert (size (filter (λ kv : string * option Token, tokenID kv.1 = Some id) d) ≠ 0%nat).
  { intros E%map_size_empty_inv. rewrite E in Hl. done. } lia.
Qed.

(** A rename keeps the number: the file goes to a name for the same token. *)
Lemma copies_rename id from at_ (d d' : store) :
  rename from at_ d = Some d' → tokenID from = tokenID at_ → (copies id d' ≤ copies id d)%nat.
Proof.
  unfold rename. destruct (d !! from) as [f|] eqn:Ef; [|done]. intros [= <-] E.
  pose proof (copies_insert id (delete from d) at_ f) as Hi. case_decide as Hd.
  - rewrite (copies_delete id d from) by (by eexists || congruence). lia.
  - pose proof (copies_subseteq id d (delete from d) (delete_subseteq _ _)). lia.
Qed.

Lemma rename_lookup from at_ (d d' : store) n f :
  rename from at_ d = Some d' → d' !! n = Some f → (n = at_ ∧ d !! from = Some f) ∨ d !! n = Some f.
Proof.
  unfold rename. destruct (d !! from) as [g|] eqn:Eg; [|done]. intros [= <-]. rewrite lookup_insert. case_decide; [intros [= <-]; auto|].
  intros [_ ?]%lookup_delete_Some. auto.
Qed.

Lemma sweepName_subseteq name now d : sweepName name now d ⊆ d.
Proof.
  unfold sweepName. destruct (strings.CutPrefix _ _) as [rest|].
  - destruct (claimedAt rest); [|done]. destruct (_ <? _); [apply delete_subseteq|done].
  - destruct (strings.CutSuffix _ _) as [id|]; [|done]. destruct (ValidID id); [|done]. destruct (read d name); [|done].
    destruct (Before _ _); [done|apply delete_subseteq].
Qed.

Lemma Decode_Encode s : DecodeString (EncodeToString s) = Some s.
Proof.
  induction s as [|a s IH]; [done|]. cbn [EncodeToString DecodeString]. rewrite IH.
  assert (∀ n, (n < 16)%nat → hexValue (hexDigit n) = Some n) as Hd by (intros n Hn; do 16 (destruct n as [|n]; [reflexivity|]); lia).
  pose proof (nat_ascii_bounded a) as Ha. rewrite !Hd by (apply Nat.mod_upper_bound || apply Nat.Div0.div_lt_upper_bound; lia).
  do 2 f_equal. rewrite <- (ascii_nat_embedding a) at 3. f_equal. symmetry. apply Nat.div_mod_eq.
Qed.

(** ** The invariant *)

Section once.
Context (Sum256 : string → string).

(** How many of some redemptions are of one token. *)
Definition ofToken (id : string) (l : list redemption) : nat := length (filter (λ r, rn_id r = id) l).

(** Whether a token can be claimed: its file is there. *)
Definition unclaimed (id : string) (d : store) : nat := if d !! tokenPath id then 1 else 0.

Lemma ofToken_cons id r l : ofToken id (r :: l) = ((if decide (rn_id r = id) then 1 else 0) + ofToken id l)%nat.
Proof. unfold ofToken. rewrite filter_cons. by case_decide. Qed.

Lemma ofToken_perm id l l' : l ≡ₚ l' → ofToken id l = ofToken id l'.
Proof. unfold ofToken. by intros ->. Qed.

Lemma unclaimed_subseteq id (d d' : store) : d' ⊆ d → (unclaimed id d' ≤ unclaimed id d)%nat.
Proof. intros H. unfold unclaimed. destruct (d' !! tokenPath id) eqn:E; [|lia]. by rewrite (lookup_weaken _ _ _ _ E H). Qed.

Lemma tokenPath_inj id id' : tokenPath id = tokenPath id' → id = id'.
Proof.
  unfold tokenPath. intros E. assert (strings.CutSuffix (id +:+ suffix) suffix = Some id) as H1 by by apply CutSuffix_Some.
  assert (strings.CutSuffix (id' +:+ suffix) suffix = Some id') as H2 by by apply CutSuffix_Some. rewrite E in H1. congruence.
Qed.

Lemma claimName_not_path id now nonce id' : ValidID id' = true → claimName id now nonce ≠ tokenPath id'.
Proof.
  intros Hv E. assert (strings.CutPrefix (tokenPath id') claimPrefix = None) as Hn.
  { destruct (ValidID_bytes id' Hv) as [Hb Hl]. destruct id' as [|a id']; [done|]. cbn [tokenPath String.append strings.CutPrefix]. cbn [everyByte] in Hb.
    change claimPrefix with (String "." "redeeming-"). cbn [strings.CutPrefix]. destruct (Ascii.eqb_spec "." a) as [<-|]; [|done]. done. }
  rewrite <- E in Hn. unfold claimName in Hn. by rewrite CutPrefix_append in Hn.
Qed.

(** What a redemption that may finish has shown. *)
Definition entitled (w : tokenWorld) (r : redemption) : Prop :=
  tokenID (rn_at r) = Some (rn_id r) ∧ ValidID (rn_id r) = true ∧
  ∀ now, rn_ok r = Some now →
    ∃ secret t, tw_minted w !! rn_id r = Some (secret, t) ∧ Sum256 (rn_secret r) = Sum256 secret ∧ now < tk_Expires t.

Record token_ok (w : tokenWorld) : Prop := {
  to_once : ∀ id, ValidID id = true →
    (unclaimed id (tw_dir w) + ofToken id (tw_running w) + ofToken id (tw_done w) ≤ if tw_minted w !! id then 1 else 0)%nat;
  to_file : ∀ n f id, tw_dir w !! n = Some f → tokenID n = Some id → ∃ secret t, tw_minted w !! id = Some (secret, t) ∧ f = Some t;
  to_hash : ∀ id secret t, tw_minted w !! id = Some (secret, t) → tk_Hash t = hash Sum256 secret;
  to_running : Forall (entitled w) (tw_running w);
  to_done : Forall (λ r, entitled w r ∧ is_Some (rn_ok r)) (tw_done w);
  to_single : ∀ id, (copies id (tw_dir w) ≤ if tw_minted w !! id then 1 else 0)%nat
}.

(** Files that go, and redemptions that are given up, change nothing else. *)
Lemma token_ok_shrink w d' l :
  token_ok w → d' ⊆ tw_dir w → (∀ r, r ∈ l → r ∈ tw_running w) → (∀ id, ofToken id l ≤ ofToken id (tw_running w))%nat →
  token_ok {| tw_dir := d'; tw_minted := tw_minted w; tw_running := l; tw_done := tw_done w |}.
Proof.
  intros [K1 K2 K3 K4 K5 K6] Hd Hl Hc. split; cbn [tw_dir tw_minted tw_running tw_done].
  - intros id Hv. specialize (K1 id Hv). pose proof (unclaimed_subseteq id _ _ Hd). specialize (Hc id). lia.
  - intros n f id Hn. apply K2. by eapply lookup_weaken.
  - exact K3.
  - rewrite Forall_forall in K4. apply Forall_forall. intros r Hr. exact (K4 r (Hl r Hr)).
  - exact K5.
  - intros id. specialize (K6 id). pose proof (copies_subseteq id _ _ Hd). lia.
Qed.

Lemma entitled_mint w w' r :
  (∀ id x, tw_minted w !! id = Some x → tw_minted w' !! id = Some x) → entitled w r → entitled w' r.
Proof. intros Hm (H1 & H2 & H3). split_and!; try done. intros now Hn. destruct (H3 now Hn) as (s & t & ? & ? & ?). eauto 6. Qed.

Lemma mint_ok w id secret account creator note now ttl d' :
  token_ok w → ValidID id = true → tw_minted w !! id = None →
  create id (mintToken Sum256 account creator note secret now ttl) (tw_dir w) = Some d' →
  token_ok {| tw_dir := d'; tw_minted := <[id := (secret, mintToken Sum256 account creator note secret now ttl)]> (tw_minted w);
              tw_running := tw_running w; tw_done := tw_done w |}.
Proof.
  intros [K1 K2 K3 K4 K5 K6] Hv Hn E. unfold create in E. destruct (tw_dir w !! tokenPath id); [done|]. injection E as <-.
  set (t := mintToken _ _ _ _ _ _ _).
  assert (∀ id' x, tw_minted w !! id' = Some x → <[id := (secret, t)]> (tw_minted w) !! id' = Some x) as Hm
    by (intros id' x Hx; rewrite lookup_insert_ne; [done|congruence]).
  split; cbn [tw_dir tw_minted tw_running tw_done].
  - intros id' Hv'. specialize (K1 id' Hv'). unfold unclaimed in *. rewrite !lookup_insert. case_decide as Hd.
    + apply tokenPath_inj in Hd as <-. rewrite Hn in K1. rewrite decide_True by done. lia.
    + rewrite decide_False by (intros ->; done). exact K1.
  - intros n f id' Hf Hid. rewrite lookup_insert in Hf. case_decide as Hd.
    + subst n. rewrite tokenID_path in Hid by done. injection Hid as <-. injection Hf as <-. rewrite lookup_insert_eq. eauto.
    + destruct (K2 _ _ _ Hf Hid) as (s & t' & Hs & ->). eauto.
  - intros id' s t'. rewrite lookup_insert. case_decide; [intros [= <- <-]; done|by apply K3].
  - eapply Forall_impl; [exact K4|]. intros r. by apply entitled_mint.
  - eapply Forall_impl; [exact K5|]. intros r [? ?]. split; [by eapply entitled_mint|done].
  - intros id'. specialize (K6 id'). pose proof (copies_insert id' (tw_dir w) (tokenPath id) (Some t)) as Hi. rewrite tokenID_path in Hi by done.
    rewrite lookup_insert. repeat case_decide; simplify_eq; rewrite ?Hn in K6; lia.
Qed.

Lemma rename_files w from at_ d' :
  token_ok w → rename from at_ (tw_dir w) = Some d' → tokenID from = tokenID at_ →
  ∀ n f id, d' !! n = Some f → tokenID n = Some id → ∃ secret t, tw_minted w !! id = Some (secret, t) ∧ f = Some t.
Proof.
  intros [K1 K2 K3 K4 K5 K6] E Heq n f id Hn Hid.
  destruct (rename_lookup _ _ _ _ _ _ E Hn) as [[-> Hf]|Hf]; [|by eapply K2]. eapply K2; [exact Hf|congruence].
Qed.

Lemma claim_ok w id secret now nonce d' :
  token_ok w → claim id (claimName id now nonce) (tw_dir w) = Some d' →
  token_ok {| tw_dir := d'; tw_minted := tw_minted w;
              tw_running := {| rn_at := claimName id now nonce; rn_id := id; rn_secret := secret; rn_ok := None |} :: tw_running w;
              tw_done := tw_done w |}.
Proof.
  intros K E. unfold claim in E. destruct (ValidID id) eqn:Hv; [|done]. cbn [negb] in E.
  pose proof (rename_files w _ _ _ K E) as Hf. destruct K as [K1 K2 K3 K4 K5 K6]. split; cbn [tw_dir tw_minted tw_running tw_done]; try done.
  - intros id' Hv'. specialize (K1 id' Hv'). rewrite ofToken_cons. cbn [rn_id]. unfold rename in E.
    destruct (tw_dir w !! tokenPath id) as [f|] eqn:Ef; [|done]. injection E as <-. unfold unclaimed in *.
    rewrite lookup_insert_ne by (by apply claimName_not_path). destruct (decide (id = id')) as [<-|Hne].
    + rewrite lookup_delete_eq. rewrite Ef in K1. lia.
    + rewrite lookup_delete_ne by (intros ?%tokenPath_inj; done). exact K1.
  - apply Hf. by rewrite tokenID_path, tokenID_claim.
  - constructor; [|exact K4]. split_and!; [by apply tokenID_claim|done|done].
  - intros id'. etrans; [eapply copies_rename; [exact E|by rewrite tokenID_path, tokenID_claim]|apply K6].
Qed.

Lemma running_entitled w r l : token_ok w → tw_running w ≡ₚ r :: l → entitled w r ∧ Forall (entitled w) l.
Proof. intros [_ _ _ K4 _ _] Hl. rewrite Hl in K4. by inversion K4. Qed.

Lemma restore_ok w r l d' :
  token_ok w → tw_running w ≡ₚ r :: l → Restore (rn_at r) (rn_id r) (tw_dir w) = Some d' →
  token_ok {| tw_dir := d'; tw_minted := tw_minted w; tw_running := l; tw_done := tw_done w |}.
Proof.
  intros K Hl E. destruct (running_entitled w r l K Hl) as [(Hat & Hv & _) Hrest].
  pose proof (rename_files w _ _ _ K E) as Hf. destruct K as [K1 K2 K3 K4 K5 K6]. split; cbn [tw_dir tw_minted tw_running tw_done]; try done.
  - intros id' Hv'. specialize (K1 id' Hv'). rewrite (ofToken_perm _ _ _ Hl), ofToken_cons in K1. unfold Restore, rename in E.
    destruct (tw_dir w !! rn_at r) as [f|] eqn:Ef; [|done]. injection E as <-. unfold unclaimed in *. rewrite lookup_insert.
    destruct (decide (rn_id r = id')) as [<-|Hne].
    + rewrite decide_True by done. destruct (tw_dir w !! tokenPath (rn_id r)); lia.
    + rewrite decide_False by (intros ?%tokenPath_inj; done).
      pose proof (unclaimed_subseteq id' _ _ (delete_subseteq (tw_dir w) (rn_at r))) as Hs. unfold unclaimed in Hs. lia.
  - apply Hf. by rewrite Hat, tokenID_path.
  - intros id'. etrans; [eapply copies_rename; [exact E|by rewrite Hat, tokenID_path]|apply K6].
Qed.

Lemma done_ok w removable r l d' :
  token_ok w → tw_running w ≡ₚ r :: l → is_Some (rn_ok r) → Done removable (rn_at r) (tw_dir w) = Some d' →
  token_ok {| tw_dir := d'; tw_minted := tw_minted w; tw_running := l; tw_done := r :: tw_done w |}.
Proof.
  intros K Hl Hok E. destruct (running_entitled w r l K Hl) as [Hr Hrest]. destruct K as [K1 K2 K3 K4 K5 K6].
  assert (d' ⊆ tw_dir w) as Hd. { unfold Done in E. destruct (tw_dir w !! rn_at r); [|done]. injection E as <-. destruct removable; [apply delete_subseteq|done]. }
  split; cbn [tw_dir tw_minted tw_running tw_done]; try done.
  - intros id Hv. specialize (K1 id Hv). rewrite (ofToken_perm _ _ _ Hl), ofToken_cons in K1. rewrite ofToken_cons.
    pose proof (unclaimed_subseteq id _ _ Hd). lia.
  - intros n g id Hn. apply K2. by eapply lookup_weaken.
  - constructor; [|done]. by split.
  - intros id. specialize (K6 id). pose proof (copies_subseteq id _ _ Hd). lia.
Qed.

Lemma check_entitles w r now t :
  token_ok w → entitled w r → checkClaim Sum256 (rn_at r) (rn_secret r) now (tw_dir w) = Some t →
  entitled w {| rn_at := rn_at r; rn_id := rn_id r; rn_secret := rn_secret r; rn_ok := Some now |}.
Proof.
  intros K (Hat & Hv & _) E. split_and!; try done. cbn [rn_ok rn_id rn_secret]. intros now' [= <-].
  unfold checkClaim, read in E. destruct (tw_dir w !! rn_at r) as [f|] eqn:Ef; [|done].
  destruct (to_file _ K _ _ _ Ef Hat) as (secret & t' & Hm & ->). cbn in E.
  destruct (matches Sum256 now t' (rn_secret r)) eqn:Em; [|done]. exists secret, t'. split; [done|].
  unfold matches in Em. apply andb_true_iff in Em as [Em%bool_decide_eq_true_1 Hb]. apply Z.ltb_lt in Hb. split; [|done].
  rewrite (to_hash _ K _ _ _ Hm) in Em. unfold hash in Em. rewrite Decode_Encode in Em. congruence.
Qed.

Lemma token_step_ok w w' : token_ok w → token_step Sum256 w w' → token_ok w'.
Proof.
  intros K Hs. destruct Hs as [id secret account creator note now ttl ttl' d' Hv Hn Ht E|id secret now nonce d' Hf E|r l now t Hl Hno E|r l Hl|rm r l d' Hl Hok E|r l Hl|id|id|name now].
  - by eapply mint_ok.
  - by apply claim_ok.
  - destruct (running_entitled w r l K Hl) as [Hr Hrest]. pose proof K as [K1 K2 K3 K4 K5 K6]. split; try done; cbn [tw_dir tw_minted tw_running tw_done].
    + intros id Hv. specialize (K1 id Hv). rewrite (ofToken_perm _ _ _ Hl), ofToken_cons in K1. rewrite ofToken_cons. exact K1.
    + constructor; [|done]. exact (check_entitles w r now t K Hr E).
  - destruct (Restore (rn_at r) (rn_id r) (tw_dir w)) as [d'|] eqn:E; cbn [default]; [by eapply restore_ok|].
    apply token_ok_shrink; [done|done|intros; rewrite Hl; by right|]. intros id. rewrite (ofToken_perm _ _ _ Hl), ofToken_cons. lia.
  - by eapply done_ok.
  - apply token_ok_shrink; [done|done|intros; rewrite Hl; by right|]. intros id. rewrite (ofToken_perm _ _ _ Hl), ofToken_cons. lia.
  - apply token_ok_shrink; [done|apply delete_subseteq|done|done].
  - apply token_ok_shrink; [done|apply map_filter_subseteq|done|done].
  - apply token_ok_shrink; [done|apply sweepName_subseteq|done|done].
Qed.

Lemma token_reachable_ok w : token_reachable Sum256 w → token_ok w.
Proof.
  intros Hr. assert (token_ok {| tw_dir := ∅; tw_minted := ∅; tw_running := []; tw_done := [] |}) as K.
  { split; try constructor; try done. }
  unfold token_reachable in Hr. induction Hr as [|? ? ? Hs _ IH]; [done|]. apply IH. by eapply token_step_ok.
Qed.

(** C35 (safety). A token redeems at most once, and only for its secret: whatever any
    number of agents sharing the directory do, in any interleaving of minting,
    claiming, checking, restoring, finishing, revoking and sweeping, no id is
    among the finished redemptions twice, and each of them presented a secret
    with the digest of the one minted, before the token expired. *)
Theorem token_redeems_once w :
  token_reachable Sum256 w →
  NoDup (rn_id <$> tw_done w) ∧
  ∀ r, r ∈ tw_done w → ∃ now secret t, rn_ok r = Some now ∧ tw_minted w !! rn_id r = Some (secret, t) ∧
    Sum256 (rn_secret r) = Sum256 secret ∧ now < tk_Expires t.
Proof.
  intros K%token_reachable_ok. split.
  - assert (∀ id, (ofToken id (tw_done w) ≤ 1)%nat) as H.
    { intros id. destruct (ValidID id) eqn:Hv; [pose proof (to_once _ K id Hv) as H; destruct (tw_minted w !! id); lia|].
      unfold ofToken. destruct (filter (λ r, rn_id r = id) (tw_done w)) as [|r l] eqn:Ef; [cbn; lia|]. exfalso.
      assert (r ∈ filter (λ r, rn_id r = id) (tw_done w)) as Hr by (rewrite Ef; left). apply list_elem_of_filter in Hr as [<- Hr].
      pose proof (to_done _ K) as Hd. rewrite Forall_forall in Hd. destruct (Hd r Hr) as [(_ & Hv' & _) _]. congruence. }
    unfold ofToken in H. clear K. revert H. generalize (tw_done w). intros l. induction l as [|r l IH]; intros H; cbn; [constructor|]. constructor.
    + intros (r' & Hid & Hin)%list_elem_of_fmap. specialize (H (rn_id r)). rewrite filter_cons, decide_True in H by done. cbn in H.
      assert (r' ∈ filter (λ r0, rn_id r0 = rn_id r) l) as Hf by (apply list_elem_of_filter; done).
      destruct (filter _ l); [by apply elem_of_nil in Hf|cbn in H; lia].
    + apply IH. intros id. specialize (H id). rewrite filter_cons in H. case_decide; cbn in H; lia.
  - intros r Hr. pose proof (to_done _ K) as Hd. rewrite Forall_forall in Hd. destruct (Hd r Hr) as [(_ & _ & He) [now Hn]].
    destruct (He now Hn) as (s & t & ? & ? & ?). eauto 8.
Qed.

End once.
