(* ===== verification/Forwards.v ===== *)
(** * Local forwards of published ports (client/internal/ports, core/workspace/ports.go)

    [strings.ToLower] is an argument; whether the forwarder opens a listener is its
    answer, given what is open.  A forward is its identity and where it leads; the
    logs are left out. *)
From Stdlib Require Import Ascii.
From S2P Require Import Prelude GoStrings Records AccountPorts.

Open Scope Z_scope.

(** ** core/workspace/ports.go *)

(** [strings.EqualFold] with "tcp", whose letters fold to their two cases alone. *)
Definition foldTCP (s : string) : bool :=
  match s with
  | String a (String b (String c EmptyString)) =>
      (Ascii.eqb a "t" || Ascii.eqb a "T") && (Ascii.eqb b "c" || Ascii.eqb b "C") && (Ascii.eqb c "p" || Ascii.eqb c "P")
  | _ => false
  end.
Definition IsTCP (proto : string) : bool := bool_decide (proto = "") || foldTCP proto.

Definition ProtoOf (containerPort : string) : string :=
  match strings.Cut containerPort "/" with Some (_, proto) => proto | None => "" end.

(** [RequestedPorts]; a Go map of lists. *)
Abbreviation RequestedPorts := (gmap string (list Z)).

Definition AddPort (containerPort : string) (port : Z) (r : RequestedPorts) : RequestedPorts :=
  <[containerPort := default [] (r !! containerPort) ++ [port]]> r.

Definition At (r : RequestedPorts) (containerPort : string) (index : Z) : Z :=
  let list := default [] (r !! containerPort) in
  if (index <? 0) || (Z.of_nat (length list) <=? index) then 0 else default 0 (list !! Z.to_nat index).

Definition comma : ascii := ",".
Definition semicolon : ascii := ";".
Definition equals : ascii := "=".

(** [RequestedPorts.String]. *)
Definition portsEntry (k : string) (ports : list Z) : string :=
  k +:+ "=" +:+ strings.Join (Itoa <$> stable_sort Z.leb ports) ";".

Definition RequestedPorts_String (r : RequestedPorts) : string :=
  strings.Join ((λ k, portsEntry k (default [] (r !! k))) <$> sort_strings (map_to_list r).*1) ",".

(** [ParseRequestedPorts]: the loop over the numbers of one entry, and the loop
    over the entries. *)
Definition maxRequestedPorts : Z := 1024.

Fixpoint parseNumbers (key : string) (numbers : list string) (out : RequestedPorts) (count : Z) : RequestedPorts * Z :=
  match numbers with
  | [] => (out, count)
  | number :: rest =>
      if maxRequestedPorts <=? count then (out, count)
      else match Atoi (strings.TrimSpace number) with
           | Some port =>
               if (port <? 1) || (MaxPort <? port) then parseNumbers key rest out count
               else parseNumbers key rest (AddPort key port out) (count + 1)
           | None => parseNumbers key rest out count
           end
  end.

Definition parseEntry (acc : RequestedPorts * Z) (entry : string) : RequestedPorts * Z :=
  let entry := strings.TrimSpace entry in
  if bool_decide (entry = "") then acc
  else match strings.Cut entry equals with
       | Some (key, value) => parseNumbers (strings.TrimSpace key) (strings.Split value semicolon) acc.1 acc.2
       | None => acc
       end.

Definition ParseRequestedPorts (label : string) : RequestedPorts :=
  fst (foldl parseEntry (∅, 0) (strings.Split label comma)).

(** ** client/internal/ports/ports.go and rule.go *)

Record Published := {
  pb_PublicPort : Z;
  pb_PrivatePort : Z;
  pb_Type : string
}.

Record Container := {
  ct_ID : string;
  ct_Name : string;
  ct_Ports : list Published;
  ct_Labels : gmap string string
}.

Definition Network (p : Published) : string := if IsTCP (pb_Type p) then "tcp" else "udp".

(** [listener] is the protocol and the local port. *)
Abbreviation listener := (string * Z)%type.

(** [published]: once per protocol and port, sorted. *)
Definition published_leb (a b : Published) : bool :=
  if negb (pb_PublicPort a =? pb_PublicPort b) then pb_PublicPort a <? pb_PublicPort b
  else string_leb (Network a) (Network b).

Definition publishedStep (acc : gset listener * list Published) (p : Published) : gset listener * list Published :=
  let key := (Network p, pb_PublicPort p) in
  if pb_PublicPort p =? 0 then acc
  else if bool_decide (key ∈ acc.1) then acc else ({[key]} ∪ acc.1, acc.2 ++ [p]).

Definition published (c : Container) : list Published :=
  stable_sort published_leb (snd (foldl publishedStep (∅, []) (ct_Ports c))).

(** [orPublished]. *)
Definition orPublished (asked : list Z) (p : Published) : list Z :=
  match asked with [] => [pb_PublicPort p] | _ => asked end.

Definition OwnerLabel : string := "com.github.lhns.remote-docker.owner".
Definition ClientLabel : string := "com.github.lhns.remote-docker.client".
Definition PortsLabel : string := "com.github.lhns.remote-docker.ports".

(** [Rule]. *)
Record Rule := {
  rl_User : string;
  rl_ClientID : string
}.

Definition label (c : Container) (k : string) : string := default "" (ct_Labels c !! k).

Definition Owned (r : Rule) (c : Container) : bool := bool_decide (label c OwnerLabel = rl_User r).

Section rules.
Context (ToLower : string → string).

Definition ContainerPort (port : Z) (proto : string) : string :=
  Itoa port +:+ "/" +:+ ToLower (if bool_decide (proto = "") then "tcp" else proto).

Definition LocalPorts (r : Rule) (c : Container) (p : Published) : list Z :=
  if bool_decide (label c ClientLabel = rl_ClientID r)
  then default [] (ParseRequestedPorts (label c PortsLabel) !! ContainerPort (pb_PrivatePort p) (pb_Type p))
  else [].

Definition Local_ (r : Rule) (c : Container) (p : Published) : list Z := orPublished (LocalPorts r c p) p.

End rules.

(** [Forward]: where it leads on the workspace. *)
Record Forward := {
  fw_id : nat;
  fw_remote : Z
}.

Abbreviation forwards := (gmap listener Forward).

(** [Manager]: [active], by container, [closed], and what has been opened. *)
Record Manager := {
  mg_active : gmap string forwards;
  mg_closed : bool;
  mg_next : nat
}.

Definition newManager : Manager := {| mg_active := ∅; mg_closed := false; mg_next := 0 |}.

Section manager.
Context (owned : Container → bool) (local : Container → Published → list Z).

(** The listeners a container asks for, in the order they are opened, with where
    each leads. *)
Definition asks (c : Container) : list (listener * Z) :=
  p ← published c; l ← local c p; [((Network p, l), pb_PublicPort p)].

Definition wants (c : Container) (l : listener) : Prop := l ∈ (asks c).*1.

(** [wanted]: the containers to forward; the last of an id. *)
Definition wantedStep (m : gmap string Container) (c : Container) : gmap string Container :=
  if negb (owned c) then m
  else match published c with [] => m | _ => <[ct_ID c := c]> m end.

Definition wanted (containers : list Container) : gmap string Container := foldl wantedStep ∅ containers.

(** Whether some container's listener has the port already. *)
Definition held (active : gmap string forwards) (l : listener) : bool :=
  existsb (λ kv, bool_decide (is_Some (kv.2 !! l))) (map_to_list active).

(** Closing what is gone or no longer published. *)
Definition pruned (want : gmap string Container) (active : gmap string forwards) : gmap string forwards :=
  map_imap (λ id fs, match want !! id with
                     | None => None
                     | Some c => Some (filter (λ kv, kv.1 ∈ (asks c).*1) fs)
                     end) active.

(** [openLocked]: the forwarder's answer depends on what is open; a refusal is
    skipped. *)
Definition openLocked (can : gmap string forwards → listener → bool) (id : string) (ask : listener * Z) (m : Manager) : Manager :=
  let '(l, remote) := ask in
  if can (mg_active m) l
  then {| mg_active := <[id := <[l := {| fw_id := mg_next m; fw_remote := remote |}]> (default ∅ (mg_active m !! id))]> (mg_active m);
          mg_closed := mg_closed m; mg_next := S (mg_next m) |}
  else m.

(** The listener of one container, when it is open. *)
Definition forward (m : Manager) (id : string) (l : listener) : option Forward := mg_active m !! id ≫= (.!! l).

Definition openAsk (can : gmap string forwards → listener → bool) (id : string) (m : Manager) (ask : listener * Z) : Manager :=
  match forward m id ask.1 with Some _ => m | None => openLocked can id ask m end.

Definition dropEmpty (id : string) (m : Manager) : Manager :=
  match mg_active m !! id with
  | Some fs => if bool_decide (size fs = 0%nat)
               then {| mg_active := delete id (mg_active m); mg_closed := mg_closed m; mg_next := mg_next m |} else m
  | None => m
  end.

Definition openContainer (can : gmap string forwards → listener → bool) (want : gmap string Container) (m : Manager) (id : string) : Manager :=
  match want !! id with
  | Some c => dropEmpty id (foldl (openAsk can id) m (asks c))
  | None => m
  end.

(** [Reconcile], with the containers the daemon listed. *)
Definition Reconcile (can : gmap string forwards → listener → bool) (containers : list Container) (m : Manager) : Manager :=
  let want := wanted containers in
  if mg_closed m then m
  else foldl (openContainer can want)
             {| mg_active := pruned want (mg_active m); mg_closed := mg_closed m; mg_next := mg_next m |}
             (sort_strings (map_to_list want).*1).

(** [Close], [Active] and [Forwarding]. *)
Definition Close (m : Manager) : Manager := {| mg_active := ∅; mg_closed := true; mg_next := mg_next m |}.

Definition Active (m : Manager) : list Z :=
  stable_sort Z.leb (kv ← map_to_list (mg_active m); (λ lf, lf.1.2) <$> map_to_list kv.2).

Definition Forwarding (m : Manager) (port : Z) : bool := held (mg_active m) ("tcp", port).

End manager.

(** * Properties of the local forwards (client/internal/ports, core/workspace/ports.go) *)

Open Scope Z_scope.

(** ** The label *)

(** A container port a label can carry: printable, and none of its separators. *)
Definition labelByte (a : ascii) : bool := visible a && negb (Ascii.eqb a comma) && negb (Ascii.eqb a semicolon) && negb (Ascii.eqb a equals).
Definition labelKey (k : string) : Prop := k ≠ ""%string ∧ everyByte labelByte k = true.

Definition portOk (p : Z) : Prop := 1 ≤ p ≤ MaxPort.

Lemma labelByte_visible a : labelByte a = true → visible a = true.
Proof. unfold labelByte. by destruct (visible a). Qed.

Lemma Itoa_labelBytes p : portOk p → everyByte labelByte (Itoa p) = true.
Proof.
  intros Hp. destruct (Itoa_digits p) as (_ & Hd & _); [unfold portOk in Hp; lia|]. revert Hd. generalize (Itoa p). intros s.
  induction s as [|a s IH]; simpl; [done|]. destruct (digit a) eqn:E; [|done]. intros Hs. rewrite (IH Hs), andb_true_r. clear -E.
  destruct a as [[] [] [] [] [] [] [] []]; vm_compute in E; try done; reflexivity.
Qed.

Lemma everyByte_Join f ws sep : everyByte f sep = true → Forall (λ w, everyByte f w = true) ws → everyByte f (strings.Join ws sep) = true.
Proof.
  intros Hs Hw. induction Hw as [|w ws Hw _ IH]; [done|]. destruct ws as [|w' ws]; [done|].
  rewrite Join_cons by done. by rewrite !everyByte_app, Hw, Hs, IH.
Qed.

Lemma parseNumbers_spec key ps out count :
  Forall portOk ps → count + Z.of_nat (length ps) ≤ maxRequestedPorts → 0 ≤ count →
  parseNumbers key (Itoa <$> ps) out count =
  (match ps with [] => out | _ => <[key := default [] (out !! key) ++ ps]> out end, count + Z.of_nat (length ps)).
Proof.
  intros Hp. revert out count. induction Hp as [|p ps Hp Hps IH]; intros out count Hc H0; cbn [fmap list_fmap parseNumbers length].
  { f_equal. lia. }
  cbn [length] in Hc. rewrite (proj2 (Z.leb_gt _ _)) by lia.
  rewrite TrimSpace_visible by (eapply everyByte_impl; [apply labelByte_visible|by apply Itoa_labelBytes]).
  rewrite Atoi_Itoa by (unfold portOk, MaxPort in Hp; lia). unfold portOk in Hp.
  rewrite (proj2 (Z.ltb_ge _ _)), (proj2 (Z.ltb_ge _ _)) by lia. cbn [orb].
  rewrite IH by lia. f_equal; [|lia]. unfold AddPort. destruct ps as [|p' ps]; [done|].
  rewrite lookup_insert_eq, insert_insert_eq. simpl. by rewrite <- app_assoc.
Qed.

Lemma parseEntry_spec k ps out count :
  labelKey k → Forall portOk ps → ps ≠ [] → count + Z.of_nat (length ps) ≤ maxRequestedPorts → 0 ≤ count → out !! k = None →
  parseEntry (out, count) (k +:+ "=" +:+ strings.Join (Itoa <$> ps) ";") = (<[k := ps]> out, count + Z.of_nat (length ps)).
Proof.
  intros [Hk1 Hk2] Hp Hne Hc H0 Hout. unfold parseEntry.
  assert (Forall (λ w, everyByte labelByte w = true) (Itoa <$> ps)) as Hw by (apply Forall_fmap; eapply Forall_impl; [exact Hp|apply Itoa_labelBytes]).
  rewrite TrimSpace_visible.
  2: { rewrite !everyByte_app. rewrite (everyByte_impl _ _ _ labelByte_visible Hk2). cbn [andb]. change (everyByte visible "=") with true. cbn [andb].
       apply everyByte_Join; [done|]. eapply Forall_impl; [exact Hw|]. intros w. apply everyByte_impl, labelByte_visible. }
  rewrite bool_decide_eq_false_2 by (by destruct k).
  assert (strings.Cut (k +:+ "=" +:+ strings.Join (Itoa <$> ps) ";") equals = Some (k, strings.Join (Itoa <$> ps) ";")) as ->
    by (apply Cut_Some; split; [done|by apply (everyByte_Contains labelByte)]).
  rewrite TrimSpace_visible by (eapply everyByte_impl; [apply labelByte_visible|done]).
  rewrite Split_Join.
  - cbn [fst snd]. rewrite parseNumbers_spec by done. rewrite Hout. destruct ps; done.
  - by destruct ps.
  - eapply Forall_impl; [exact Hw|]. intros w. by apply (everyByte_Contains labelByte).
Qed.

Lemma parseEntry_portsEntry k ps out count :
  labelKey k → Forall portOk ps → ps ≠ [] → count + Z.of_nat (length ps) ≤ maxRequestedPorts → 0 ≤ count → out !! k = None →
  parseEntry (out, count) (portsEntry k ps) = (<[k := stable_sort Z.leb ps]> out, count + Z.of_nat (length ps)).
Proof.
  intros Hk Hp Hne Hc H0 Hout. unfold portsEntry. rewrite <- (length_stable_sort Z.leb ps) in Hc |- *. apply parseEntry_spec; [done| | |done|done|done].
  - by rewrite stable_sort_Permutation.
  - intros E. apply Hne, Permutation_nil_r. by rewrite <- E, stable_sort_Permutation.
Qed.

Definition total (r : RequestedPorts) (ks : list string) : Z := foldr (λ k n, Z.of_nat (length (default [] (r !! k))) + n) 0 ks.

Lemma total_nonneg r ks : 0 ≤ total r ks.
Proof. induction ks as [|k ks IH]; unfold total in *; cbn [foldr]; lia. Qed.

Lemma parseEntries_spec r ks out count :
  NoDup ks → Forall (λ k, labelKey k ∧ ∃ ps, r !! k = Some ps ∧ ps ≠ [] ∧ Forall portOk ps) ks →
  (∀ k, k ∈ ks → out !! k = None) → 0 ≤ count → count + total r ks ≤ maxRequestedPorts →
  fst (foldl parseEntry (out, count) ((λ k, portsEntry k (default [] (r !! k))) <$> ks)) =
  foldl (λ m k, <[k := stable_sort Z.leb (default [] (r !! k))]> m) out ks.
Proof.
  intros Hnd. revert out count. induction Hnd as [|k ks Hni Hnd IH]; intros out count Hk Hout H0 Hc; [done|].
  inversion Hk as [|? ? (Hlk & ps & Hr & Hne & Hp) Hk']; subst. cbn [fmap list_fmap foldl total foldr] in *. fold (total r ks) in Hc. rewrite Hr in *. cbn [default] in *.
  pose proof (total_nonneg r ks). rewrite parseEntry_portsEntry; [|done|done|done|simpl in *; lia|done|apply Hout; left].
  apply IH; [done| |lia|simpl in *; lia]. intros k' Hk''. rewrite lookup_insert_ne; [apply Hout; by right|]. intros ->. done.
Qed.

Lemma foldl_inserts {A} (f : string → A) ks (m : gmap string A) k :
  NoDup ks → foldl (λ m k, <[k := f k]> m) m ks !! k = if decide (k ∈ ks) then Some (f k) else m !! k.
Proof.
  intros Hnd. revert m. induction Hnd as [|k' ks Hni _ IH]; intros m; cbn [foldl]; [done|]. rewrite IH.
  destruct (decide (k ∈ ks)) as [Hk|Hk].
  - by rewrite decide_True by (by right).
  - destruct (decide (k = k')) as [->|Hne].
    + rewrite lookup_insert_eq, decide_True by left. done.
    + rewrite lookup_insert_ne, decide_False; [done| |done]. intros [?|?]%elem_of_cons; done.
Qed.

(** A set of requested ports the label can carry. *)
Definition labelled (r : RequestedPorts) : Prop :=
  (∀ k ps, r !! k = Some ps → labelKey k ∧ ps ≠ [] ∧ Forall portOk ps) ∧ total r (map_to_list r).*1 ≤ maxRequestedPorts.

Lemma total_Permutation r ks ks' : ks ≡ₚ ks' → total r ks = total r ks'.
Proof. induction 1; unfold total in *; cbn [foldr]; lia. Qed.

Definition entryByte (a : ascii) : bool := visible a && negb (Ascii.eqb a comma).

Lemma portsEntry_nocomma k ps : labelKey k → Forall portOk ps → strings.Contains (portsEntry k ps) comma = false.
Proof.
  intros [_ Hk] Hp. apply (everyByte_Contains entryByte); [done|].
  assert (∀ a, labelByte a = true → entryByte a = true) as Himp.
  { intros a. unfold labelByte, entryByte. by destruct (visible a), (Ascii.eqb a comma). }
  unfold portsEntry. rewrite !everyByte_app, (everyByte_impl _ _ _ Himp Hk). cbn [andb]. change (everyByte entryByte "=") with true. cbn [andb].
  apply everyByte_Join; [done|]. apply Forall_fmap. rewrite stable_sort_Permutation. eapply Forall_impl; [exact Hp|].
  intros p H. by apply (everyByte_impl _ _ _ Himp), Itoa_labelBytes.
Qed.

(** The ports a user asked for, written as a container's label and read
    back by whichever session forwards the container, are the same numbers for the
    same container ports, each list in increasing order: for container ports free of
    the label's separators, valid non-empty port lists and at most 1024 ports in all. *)
Theorem requested_ports_roundtrip (r : RequestedPorts) :
  labelled r → ParseRequestedPorts (RequestedPorts_String r) = stable_sort Z.leb <$> r.
Proof.
  intros [Hr Ht]. unfold ParseRequestedPorts, RequestedPorts_String. set (ks := sort_strings (map_to_list r).*1).
  assert (NoDup ks) as Hnd by (unfold ks, sort_strings; rewrite stable_sort_Permutation; apply NoDup_fst_map_to_list).
  assert (∀ k, k ∈ ks ↔ is_Some (r !! k)) as Hks.
  { intros k. unfold ks, sort_strings. rewrite elem_of_stable_sort, list_elem_of_fmap. split.
    - intros ([k' ps] & -> & H%elem_of_map_to_list). by eexists.
    - intros [ps H]. exists (k, ps). by rewrite elem_of_map_to_list. }
  destruct (decide (ks = [])) as [E|Hne].
  { rewrite E. apply map_eq. intros k. rewrite lookup_fmap. destruct (r !! k) eqn:Hk; [|by vm_compute].
    exfalso. assert (k ∈ ks) as H by (apply Hks; by eexists). rewrite E in H. by apply elem_of_nil in H. }
  rewrite Split_Join.
  - rewrite parseEntries_spec; [|done| |done|done|].
    + apply map_eq. intros k. rewrite foldl_inserts, lookup_fmap by done. destruct (decide (k ∈ ks)) as [Hk|Hk].
      * apply Hks in Hk as [ps Hk]. by rewrite Hk.
      * destruct (r !! k) eqn:E; [|done]. destruct Hk. apply Hks. by eexists.
    + apply Forall_forall. intros k [ps Hk]%Hks. destruct (Hr _ _ Hk) as (? & ? & ?). eauto.
    + unfold ks, sort_strings. by rewrite (total_Permutation _ _ _ (stable_sort_Permutation _ _)).
  - by intros ?%fmap_nil_inv.
  - apply Forall_fmap, Forall_forall. intros k [ps Hk]%Hks. destruct (Hr _ _ Hk) as (? & ? & ?). simpl. rewrite Hk. by apply portsEntry_nocomma.
Qed.

(** ** The forwards *)

Section forwards.
Context (owned : Container → bool) (local : Container → Published → list Z).
(** A port of this machine takes one listener per protocol. *)
Context (can : gmap string forwards → listener → bool).
Context (bind_exclusive : ∀ active l, can active l = true → held active l = false).

Abbreviation asks := (asks local).
Abbreviation wants := (wants local).
Abbreviation wanted := (wanted owned).
Abbreviation pruned := (pruned local).
Abbreviation openContainer := (openContainer local can).
Abbreviation Reconcile := (Reconcile owned local can).

Lemma held_iff m l : held (mg_active m) l = true ↔ ∃ id, is_Some (forward m id l).
Proof.
  unfold held, forward. rewrite existsb_exists. split.
  - intros ([id fs] & Hin & Hl%bool_decide_eq_true). apply list_elem_of_In, elem_of_map_to_list in Hin. exists id. by rewrite Hin.
  - intros (id & f & Hf). destruct (mg_active m !! id) as [fs|] eqn:E; [|done]. exists (id, fs).
    split; [by apply list_elem_of_In, elem_of_map_to_list|]. apply bool_decide_eq_true_2. by exists f.
Qed.

(** Nothing that is open is touched by opening more. *)
Definition grows (m m' : Manager) : Prop := ∀ id l f, forward m id l = Some f → forward m' id l = Some f.

(** What is open was open before, or has been opened for a container that wants it
    while no container had it. *)
Definition opened (ok : string → listener → Prop) (m m' : Manager) : Prop :=
  ∀ id l f, forward m' id l = Some f → forward m id l = Some f ∨ ok id l.

(** No listener is open for two containers. *)
Definition exclusive (m : Manager) : Prop :=
  ∀ id id' l, is_Some (forward m id l) → is_Some (forward m id' l) → id = id'.

Lemma grows_held m m' l : grows m m' → held (mg_active m) l = true → held (mg_active m') l = true.
Proof. rewrite !held_iff. intros Hg (id & f & Hf). exists id, f. by apply Hg. Qed.

(** A run of openings for containers and listeners in [ok]. *)
Definition opening (ok : string → listener → Prop) (m m' : Manager) : Prop :=
  grows m m' ∧ opened ok m m' ∧ (exclusive m → exclusive m').

Lemma opening_same ok m m' : (∀ id l, forward m' id l = forward m id l) → opening ok m m'.
Proof.
  intros H. split_and!.
  - intros id l f. by rewrite H.
  - intros id l f. rewrite H. by left.
  - intros Hx i j l. rewrite !H. apply Hx.
Qed.

Lemma opening_trans ok m1 m2 m3 : opening ok m1 m2 → opening ok m2 m3 → opening ok m1 m3.
Proof.
  intros (Hg & Ho & Hx) (Hg' & Ho' & Hx'). split_and!; [intros ? ? ? ?; auto| |auto].
  intros id l f [Hf|Hf]%Ho'; [|by right]. by apply Ho in Hf.
Qed.

Lemma opening_mono (ok ok' : string → listener → Prop) m m' : (∀ id l, ok id l → ok' id l) → opening ok m m' → opening ok' m m'.
Proof. intros Hi (Hg & Ho & Hx). split_and!; [done| |done]. intros id l f [Hf|Hf]%Ho; auto. Qed.

(** What the machine refuses only when it is taken. *)
Definition bindable (l : listener) : Prop := ∀ active, held active l = false → can active l = true.

Lemma openLocked_forward id a m id' l' :
  forward (openLocked can id a m) id' l' =
  if can (mg_active m) a.1 then
    if bool_decide (id = id' ∧ a.1 = l') then Some {| fw_id := mg_next m; fw_remote := a.2 |} else forward m id' l'
  else forward m id' l'.
Proof.
  destruct a as [l rp]. unfold openLocked, forward. cbn [fst snd]. destruct (can _ l); [|done]. cbn [mg_active].
  destruct (decide (id = id')) as [->|Hne].
  - rewrite lookup_insert_eq. simpl. destruct (decide (l = l')) as [->|Hl].
    + by rewrite lookup_insert_eq, bool_decide_eq_true_2.
    + rewrite lookup_insert_ne, bool_decide_eq_false_2 by (done || by intros [_ ?]). by destruct (mg_active m !! id').
  - by rewrite lookup_insert_ne, bool_decide_eq_false_2 by (done || by intros [? _]).
Qed.

Lemma openAsk_spec id a m :
  let m' := openAsk can id m a in
  opening (λ id' l', id' = id ∧ l' = a.1) m m' ∧ (bindable a.1 → held (mg_active m') a.1 = true).
Proof.
  cbn zeta. unfold openAsk. destruct (forward m id a.1) as [f0|] eqn:E0.
  { split; [by apply opening_same|]. intros _. apply held_iff. by exists id, f0. }
  assert (∀ id', can (mg_active m) a.1 = true → forward m id' a.1 = None) as Hfree.
  { intros id' Hc%bind_exclusive. destruct (forward m id' a.1) eqn:E; [|done].
    assert (held (mg_active m) a.1 = true) by (apply held_iff; by exists id'; eexists). congruence. }
  split; [split_and!|].
  - intros id' l' f Hf. rewrite openLocked_forward. destruct (can _ a.1) eqn:Hc; [|done].
    destruct (bool_decide_reflect (id = id' ∧ a.1 = l')) as [[-> <-]|]; [|done]. by rewrite Hfree in Hf.
  - intros id' l' f. rewrite openLocked_forward. destruct (can _ a.1); [|by left]. case_bool_decide as H; [destruct H; by right|by left].
  - intros Hx i j l. rewrite !openLocked_forward. destruct (can _ a.1) eqn:Hc; [|by apply Hx].
    assert (∀ id', forward m id' a.1 = None) as Hf by (intros id'; by apply Hfree).
    destruct (bool_decide_reflect (id = i ∧ a.1 = l)) as [[-> <-]|Hi].
    + case_bool_decide as Hj; [by intros; destruct Hj|]. rewrite Hf. by intros _ [? ?].
    + case_bool_decide as Hj; [|by apply Hx]. destruct Hj as [-> <-]. rewrite Hf. by intros [? ?].
  - intros Hfw. destruct (can (mg_active m) a.1) eqn:Hc.
    + apply held_iff. exists id. rewrite openLocked_forward, Hc, bool_decide_eq_true_2 by done. by eexists.
    + destruct (held (mg_active m) a.1) eqn:Hh; [|by rewrite Hfw in Hc]. apply held_iff in Hh as (id' & f & Hf). apply held_iff.
      exists id', f. by rewrite openLocked_forward, Hc.
Qed.

Lemma dropEmpty_forward id m id' l : forward (dropEmpty id m) id' l = forward m id' l.
Proof.
  unfold dropEmpty, forward. destruct (mg_active m !! id) as [fs|] eqn:E; [|done]. case_bool_decide as Hs; [|done]. cbn [mg_active].
  destruct (decide (id = id')) as [->|Hne]; [|by rewrite lookup_delete_ne].
  rewrite lookup_delete_eq, E. apply map_size_empty_inv in Hs as ->. simpl. by rewrite lookup_empty.
Qed.

Lemma openAsks_spec id m (l : list (listener * Z)) :
  let m' := foldl (openAsk can id) m l in
  opening (λ id' k, id' = id ∧ k ∈ l.*1) m m' ∧ (∀ k, k ∈ l.*1 → bindable k → held (mg_active m') k = true).
Proof.
  cbn zeta. revert m. induction l as [|a l IH]; intros m; cbn [foldl].
  { split; [by apply opening_same|]. intros k []%elem_of_nil. }
  destruct (openAsk_spec id a m) as (Ho & Hc), (IH (openAsk can id m a)) as (Ho' & Hc'). split.
  - eapply opening_trans; (eapply opening_mono; [|first [exact Ho|exact Ho']]); simpl; intros ? ? [-> Hk]; (split; [done|]).
    + subst. left.
    + by right.
  - intros k [->|Hk]%elem_of_cons Hb; [|by apply Hc']. eapply grows_held; [apply Ho'|by apply Hc].
Qed.

Lemma openContainer_spec want m id :
  let m' := openContainer want m id in
  opening (λ id' k, id' = id ∧ ∃ c, want !! id = Some c ∧ wants c k) m m' ∧
  (∀ c k, want !! id = Some c → wants c k → bindable k → held (mg_active m') k = true).
Proof.
  cbn zeta. unfold Forwards.openContainer. destruct (want !! id) as [c|] eqn:E; [|split; [by apply opening_same|done]].
  destruct (openAsks_spec id m (asks c)) as (Ho & Hc). split.
  - eapply opening_trans; [eapply opening_mono; [|exact Ho]|apply opening_same; intros; apply dropEmpty_forward].
    simpl. intros ? k [-> Hk]. eauto.
  - intros c' k [= <-] Hk Hb. apply held_iff. setoid_rewrite dropEmpty_forward. apply held_iff. by apply Hc.
Qed.

Lemma openAll_spec want m ids :
  let m' := foldl (openContainer want) m ids in
  opening (λ id k, ∃ c, want !! id = Some c ∧ wants c k) m m' ∧
  (∀ id c k, id ∈ ids → want !! id = Some c → wants c k → bindable k → held (mg_active m') k = true).
Proof.
  cbn zeta. revert m. induction ids as [|id ids IH]; intros m; cbn [foldl].
  { split; [by apply opening_same|]. intros ? ? ? []%elem_of_nil. }
  destruct (openContainer_spec want m id) as (Ho & Hc), (IH (openContainer want m id)) as (Ho' & Hc'). split.
  - eapply opening_trans; [eapply opening_mono; [|exact Ho]|exact Ho']. simpl. by intros ? k [-> ?].
  - intros id' c k [->|Hi]%elem_of_cons Hw Hk Hb; [|by eapply Hc']. eapply grows_held; [apply Ho'|by eapply Hc].
Qed.

Lemma pruned_forward want m n b id l f :
  forward {| mg_active := pruned want (mg_active m); mg_closed := b; mg_next := n |} id l = Some f ↔
  forward m id l = Some f ∧ ∃ c, want !! id = Some c ∧ wants c l.
Proof.
  unfold forward, Forwards.pruned. cbn [mg_active]. rewrite map_lookup_imap. destruct (mg_active m !! id) as [fs|]; simpl; [|naive_solver].
  destruct (want !! id) as [c|]; simpl; [|naive_solver]. rewrite map_lookup_filter_Some. unfold Forwards.wants. naive_solver.
Qed.

Lemma Reconcile_closed m cs : mg_closed (Reconcile cs m) = mg_closed m.
Proof.
  unfold Forwards.Reconcile. destruct (mg_closed m) eqn:E; [done|].
  assert (∀ id m (l : list (listener * Z)), mg_closed (foldl (openAsk can id) m l) = mg_closed m) as H1.
  { intros id m0 l. revert m0. induction l as [|[k rp] l IH]; intros m0; cbn [foldl]; [done|]. rewrite IH.
    unfold openAsk, openLocked. cbn [fst]. destruct (forward m0 id k); [done|]. by destruct (can _ k). }
  assert (∀ want ids m, mg_closed (foldl (openContainer want) m ids) = mg_closed m) as H2.
  { intros want ids. induction ids as [|id ids IH]; intros m0; cbn [foldl]; [done|]. rewrite IH.
    unfold Forwards.openContainer. destruct (want !! id) as [c|]; [|done]. rewrite <- (H1 id m0 (asks c)). unfold dropEmpty.
    destruct (_ !! id); [|done]. by case_bool_decide. }
  by rewrite H2.
Qed.

(** What one reconcile of an open manager does. *)
Lemma Reconcile_spec m cs :
  mg_closed m = false →
  let m' := Reconcile cs m in
  (∀ id l f, forward m' id l = Some f → ∃ c, wanted cs !! id = Some c ∧ wants c l) ∧
  (∀ id c l, wanted cs !! id = Some c → wants c l → bindable l → ∃ id', is_Some (forward m' id' l)) ∧
  (∀ id c l f, forward m id l = Some f → wanted cs !! id = Some c → wants c l → forward m' id l = Some f) ∧
  (exclusive m → exclusive m').
Proof.
  intros Hop m'. unfold m', Forwards.Reconcile. rewrite Hop. set (m0 := {| mg_active := _ |}).
  destruct (openAll_spec (wanted cs) m0 (sort_strings (map_to_list (wanted cs)).*1)) as ((Hg & Ho & Hx) & Hc).
  split_and!.
  - intros id l f [Hf|Hf]%Ho; [|done]. by apply pruned_forward in Hf as [_ ?].
  - intros id c l Hw Hl Hb. apply held_iff. eapply Hc; [|done..]. unfold sort_strings. apply elem_of_stable_sort, list_elem_of_fmap.
    exists (id, c). by rewrite elem_of_map_to_list.
  - intros id c l f Hf Hw Hl. apply Hg, pruned_forward. eauto.
  - intros He. apply Hx. intros i j l [f Hf] [f' Hf']. apply pruned_forward in Hf as [Hf _], Hf' as [Hf' _]. by eapply He; eexists.
Qed.

(** The calls a manager takes, in any order. *)
Inductive call := CallReconcile (containers : list Container) | CallClose.

Definition callStep (m : Manager) (c : call) : Manager :=
  match c with CallReconcile cs => Reconcile cs m | CallClose => Close m end.

Definition managed (cs : list call) : Manager := foldl callStep newManager cs.

Lemma managed_inv cs : exclusive (managed cs) ∧ (mg_closed (managed cs) = true → mg_active (managed cs) = ∅).
Proof.
  induction cs as [|c cs [Hx Hc]] using rev_ind; [split; [|done]; intros i j l [f Hf]; done|].
  unfold managed. rewrite foldl_app. cbn [foldl]. fold (managed cs). destruct c as [ct|]; cbn [callStep].
  - rewrite Reconcile_closed. destruct (mg_closed (managed cs)) eqn:E.
    + unfold Forwards.Reconcile. rewrite E. auto.
    + split; [|done]. by apply (Reconcile_spec (managed cs) ct E).
  - split; [|done]. by intros i j l [f Hf].
Qed.

(** After any sequence of reconciles and closes, no local listener is
    open for two containers, and a closed manager has none, whatever it is asked
    later.  After a reconcile of an open one, every open listener is one that a
    container of the listing asks for on its behalf; every listener a container asks
    for is open for one of them, unless the machine refuses a free port; and a
    listener that was open for a container which still asks for it is the same
    forward, not opened anew. *)
Theorem forwards_follow_containers (calls : list call) (containers : list Container) :
  let m := managed calls in
  let m' := Reconcile containers m in
  exclusive m' ∧
  (mg_closed m = true → ∀ id l, forward m' id l = None) ∧
  (mg_closed m = false →
   (∀ id l f, forward m' id l = Some f → ∃ c, wanted containers !! id = Some c ∧ wants c l) ∧
   (∀ id c l, wanted containers !! id = Some c → wants c l → bindable l → ∃ id', is_Some (forward m' id' l)) ∧
   (∀ id c l f, forward m id l = Some f → wanted containers !! id = Some c → wants c l → forward m' id l = Some f)).
Proof.
  intros m m'. pose proof (managed_inv (calls ++ [CallReconcile containers])) as [Hx Hc].
  unfold managed in Hx, Hc. rewrite foldl_app in Hx, Hc. cbn [foldl callStep] in Hx, Hc. fold (managed calls) m m' in Hx, Hc.
  split_and!; [done| |].
  - intros Hcl id l. unfold forward. rewrite Hc; [done|]. unfold m'. by rewrite Reconcile_closed.
  - intros Hop. by destruct (Reconcile_spec m containers Hop) as (? & ? & ? & _).
Qed.

End forwards.

(** [wanted] and [asks] in the source's words: the containers of the listing that
    are owned and publish a port, the last of each id. *)
Lemma wanted_sound owned cs id c : wanted owned cs !! id = Some c → c ∈ cs ∧ ct_ID c = id ∧ owned c = true ∧ published c ≠ [].
Proof.
  unfold wanted. assert (∀ m : gmap string Container, foldl (wantedStep owned) m cs !! id = Some c →
    m !! id = Some c ∨ (c ∈ cs ∧ ct_ID c = id ∧ owned c = true ∧ published c ≠ [])) as H.
  { induction cs as [|c' cs IH]; intros m; cbn [foldl]; [by left|]. intros [H|(? & ?)]%IH; [|right; split; [by right|done]].
    unfold wantedStep in H. destruct (owned c') eqn:Eo; cbn [negb] in H; [|by left]. destruct (published c') eqn:Ep; [by left|].
    apply lookup_insert_Some in H as [[<- <-]|[_ H]]; [right|by left]. rewrite Ep. split; [left|done]. }
  intros [?|?]%H; done.
Qed.
