(* ===== verification/Mounts.v ===== *)
(** * What a mount may say (core/workspace/mode.go, mountwords.go, export.go)

    The words of a [-v] option list: how a mount is served ([Mode]) and what its
    share reports and does ([ShareWords]), their parsers, and the share's identity
    derived from them.  The types of words are inductive, each with the word it is
    written as.  [strings.ToLower] is an argument; the errors are inductive, by what
    they say. *)
From Stdlib Require Import Ascii.
From S2P Require Import Prelude GoStrings Records Names.

Open Scope Z_scope.

(** ** core/workspace/mode.go *)

Inductive Read := ReadUnset | ReadDirect | ReadCached.
Inductive Write := WriteUnset | WriteThrough | WriteBack | WriteEphemeral.

#[export] Instance Read_eq_dec : EqDecision Read.
Proof. solve_decision. Defined.
#[export] Instance Write_eq_dec : EqDecision Write.
Proof. solve_decision. Defined.

Definition Read_word (r : Read) : string :=
  match r with ReadUnset => "" | ReadDirect => "direct" | ReadCached => "cached" end.
Definition Write_word (w : Write) : string :=
  match w with WriteUnset => "" | WriteThrough => "through" | WriteBack => "back" | WriteEphemeral => "ephemeral" end.

Record Mode := {
  md_Read : Read;
  md_Write : Write
}.

#[export] Instance Mode_eq_dec : EqDecision Mode.
Proof. solve_decision. Defined.

Definition ModeUnset : Mode := {| md_Read := ReadUnset; md_Write := WriteUnset |}.
Definition DefaultMode : Mode := {| md_Read := ReadDirect; md_Write := WriteThrough |}.

Definition dockerWords (word : string) : option Mode :=
  if bool_decide (word = "default") then Some DefaultMode
  else if bool_decide (word = "consistent") then Some DefaultMode
  else if bool_decide (word = "cached") then Some {| md_Read := ReadCached; md_Write := WriteThrough |}
  else if bool_decide (word = "delegated") then Some {| md_Read := ReadCached; md_Write := WriteBack |}
  else None.

Definition DockerWord (word : string) : bool := bool_decide (is_Some (dockerWords (strings.TrimSpace word))).

(** [Mode.Or], [Mode.Union], [Mode.Prefetch] and [Mode.String]. *)
Definition Or (m fallback : Mode) : Mode :=
  {| md_Read := if bool_decide (md_Read m = ReadUnset) then md_Read fallback else md_Read m;
     md_Write := if bool_decide (md_Write m = WriteUnset) then md_Write fallback else md_Write m |}.

Definition Union (m : Mode) : bool := bool_decide (md_Write m = WriteBack) || bool_decide (md_Write m = WriteEphemeral).
Definition Mode_Prefetch (m : Mode) : bool := bool_decide (md_Read m = ReadCached) && Union m.

Definition Mode_String (m : Mode) : string :=
  let parts := (if bool_decide (md_Read m = ReadUnset) then [] else ["read=" +:+ Read_word (md_Read m)]) ++
               (if bool_decide (md_Write m = WriteUnset) then [] else ["write=" +:+ Write_word (md_Write m)]) in
  match parts with [] => "unset" | _ => strings.Join parts "," end.

(** What a word is refused for. *)
Inductive wordError :=
| NamesTwice (s key : string)
| NotAMode (word : string)
| WordForOneMount (axis setting : string)
| NotAnAxis (axis : string)
| BadWord (key value : string)
| NoEntry (mask : string).

Definition comma : ascii := ",".
Definition equals : ascii := "=".

Definition parseRead (s : string) : res wordError Read :=
  let w := strings.TrimSpace s in
  if bool_decide (w = "direct") then Ok ReadDirect
  else if bool_decide (w = "cached") then Ok ReadCached
  else Err (BadWord "read" s).

Definition parseWrite (s : string) : res wordError Write :=
  let w := strings.TrimSpace s in
  if bool_decide (w = "through") then Ok WriteThrough
  else if bool_decide (w = "back") then Ok WriteBack
  else if bool_decide (w = "ephemeral") then Ok WriteEphemeral
  else Err (BadWord "write" s).

(** [shareKeySetting] (mountwords.go). *)
Definition shareKeySetting (key : string) : option string :=
  if bool_decide (key = "owner") then Some "REMOTE_DOCKER_SHARE_OWNER"
  else if bool_decide (key = "fmask") then Some "REMOTE_DOCKER_SHARE_FMASK"
  else if bool_decide (key = "dmask") then Some "REMOTE_DOCKER_SHARE_DMASK"
  else if bool_decide (key = "watch") then Some "REMOTE_DOCKER_WATCH"
  else if bool_decide (key = "prefetch") then Some "REMOTE_DOCKER_PREFETCH"
  else None.
Definition isShareKey (key : string) : bool := bool_decide (is_Some (shareKeySetting key)).

Definition parseModeWord (word : string) : res wordError Mode :=
  match dockerWords word with
  | Some m => Ok m
  | None =>
      match strings.Cut word equals with
      | None => Err (NotAMode word)
      | Some (axis, value) =>
          if bool_decide (axis = "read") then let? r := parseRead value in Ok {| md_Read := r; md_Write := WriteUnset |}
          else if bool_decide (axis = "write") then let? w := parseWrite value in Ok {| md_Read := ReadUnset; md_Write := w |}
          else match shareKeySetting axis with
               | Some setting => Err (WordForOneMount axis setting)
               | None => Err (NotAnAxis axis)
               end
      end
  end.

(** [ParseMode]: one word on top of what the earlier ones named. *)
Definition modeStep (s : string) (m : Mode) (word : string) : res wordError Mode :=
  let word := strings.TrimSpace word in
  if bool_decide (word = "") then Ok m
  else
    let? got := parseModeWord word in
    if bool_decide (md_Read got ≠ ReadUnset) && bool_decide (md_Read m ≠ ReadUnset) then Err (NamesTwice s "read")
    else
      let m1 := {| md_Read := if bool_decide (md_Read got = ReadUnset) then md_Read m else md_Read got; md_Write := md_Write m |} in
      if bool_decide (md_Write got ≠ WriteUnset) && bool_decide (md_Write m1 ≠ WriteUnset) then Err (NamesTwice s "write")
      else Ok {| md_Read := md_Read m1; md_Write := if bool_decide (md_Write got = WriteUnset) then md_Write m1 else md_Write got |}.

Definition ParseMode (s : string) : res wordError Mode := foldRes (modeStep s) ModeUnset (strings.Split s comma).

Definition IsModeWord (s : string) : bool :=
  let s := strings.TrimSpace s in
  match dockerWords s with
  | Some _ => true
  | None => match strings.Cut s equals with
            | Some (axis, _) => bool_decide (axis = "read") || bool_decide (axis = "write") || isShareKey axis
            | None => false
            end
  end.

Definition attributeOptions (r : Read) : list string :=
  if bool_decide (r = ReadCached) then ["actimeo=60"; "nocto"] else ["actimeo=1"].

(** ** core/workspace/mountwords.go *)

(** [strconv.ParseUint(s, base, 32)] with the base named: digits alone. *)
Definition octalDigit (a : ascii) : option Z :=
  match digit a with Some d => if d <? 8 then Some d else None | None => None end.
Fixpoint octals (acc : Z) (s : string) : option Z :=
  match s with
  | EmptyString => Some acc
  | String a s' => match octalDigit a with Some d => octals (acc * 8 + d) s' | None => None end
  end.
Definition in_uint32 (o : option Z) : option Z := match o with Some n => if n <? 2^32 then Some n else None | None => None end.
Definition ParseUint10 (s : string) : option Z := match s with EmptyString => None | _ => in_uint32 (digits 0 s) end.
Definition ParseUint8 (s : string) : option Z := match s with EmptyString => None | _ => in_uint32 (octals 0 s) end.

(** [utf8.DecodeRuneInString]: the rune and its size; [RuneError] of size 1 where
    the bytes encode none. *)
Definition RuneError : Z := 65533.

Definition DecodeRune (s : string) : Z * nat :=
  let byteAt (i : nat) : Z := match String.get i s with Some a => Z.of_nat (nat_of_ascii a) | None => -1 end in
  let within (lo hi n : Z) := (lo <=? n) && (n <=? hi) in
  let cont (n : Z) := within 128 191 n in
  let low (n : Z) := Z.land n 63 in
  let b0 := byteAt 0%nat in let b1 := byteAt 1%nat in let b2 := byteAt 2%nat in let b3 := byteAt 3%nat in
  if b0 <? 0 then (RuneError, 0%nat)
  else if b0 <? 128 then (b0, 1%nat)
  else if within 194 223 b0 && cont b1 then (Z.lor (Z.shiftl (Z.land b0 31) 6) (low b1), 2%nat)
  else if within 224 239 b0 && within (if b0 =? 224 then 160 else 128) (if b0 =? 237 then 159 else 191) b1 && cont b2
       then (Z.lor (Z.shiftl (Z.land b0 15) 12) (Z.lor (Z.shiftl (low b1) 6) (low b2)), 3%nat)
  else if within 240 244 b0 && within (if b0 =? 240 then 144 else 128) (if b0 =? 244 then 143 else 191) b1 && cont b2 && cont b3
       then (Z.lor (Z.shiftl (Z.land b0 7) 18) (Z.lor (Z.shiftl (low b1) 12) (Z.lor (Z.shiftl (low b2) 6) (low b3))), 4%nat)
  else (RuneError, 1%nat).

Fixpoint dropBytes (n : nat) (s : string) : string :=
  match n, s with S n', String _ s' => dropBytes n' s' | _, _ => s end.

(** The digits a string starts with, and the rest: [IndexFunc] for a rune that is no
    digit, which starts at a byte that is none. *)
Fixpoint spanDigits (s : string) : string * string :=
  match s with
  | EmptyString => ("", "")
  | String a s' => match digit a with
                   | Some _ => let '(l, r) := spanDigits s' in (String a l, r)
                   | None => ("", s)
                   end
  end.

Record Owner := {
  ow_UID : Z;
  ow_GID : Z;
  ow_Set : bool
}.

#[export] Instance Owner_eq_dec : EqDecision Owner.
Proof. solve_decision. Defined.

Definition ParseOwner (s : string) : res wordError Owner :=
  let s := strings.TrimSpace s in
  let bad := Err (BadWord "owner" s) in
  let '(uid, rest) := spanDigits s in
  if bool_decide (rest = "") then
    match ParseUint10 s with
    | Some id => Ok {| ow_UID := id; ow_GID := id; ow_Set := true |}
    | None => bad
    end
  else
    let '(sep, size) := DecodeRune rest in
    if (sep =? 61) || (sep =? 44) || (sep =? RuneError) then bad
    else match ParseUint10 uid, ParseUint10 (dropBytes size rest) with
         | Some u, Some g => Ok {| ow_UID := u; ow_GID := g; ow_Set := true |}
         | _, _ => bad
         end.

Definition Owner_String (o : Owner) : string :=
  if negb (ow_Set o) then "unset" else Itoa (ow_UID o) +:+ ":" +:+ Itoa (ow_GID o).

Record Mask := {
  mk_Bits : Z;
  mk_Set : bool
}.

#[export] Instance Mask_eq_dec : EqDecision Mask.
Proof. solve_decision. Defined.

Definition isOctal (a : ascii) : bool := bool_decide (is_Some (octalDigit a)).

Definition parseMask (name s : string) : res wordError Mask :=
  let s := strings.TrimSpace s in
  if (strlen s <? 1)%nat || (4 <? strlen s)%nat || negb (bool_decide (strings.TrimFunc isOctal s = "")) then Err (BadWord name s)
  else match ParseUint8 s with
       | Some bits => if 511 <? bits then Err (BadWord name s) else Ok {| mk_Bits := bits; mk_Set := true |}
       | None => Err (BadWord name s)
       end.

Definition ParseFileMask (s : string) : res wordError Mask := parseMask "fmask" s.

(** [%04o] of a [uint32]. *)
Fixpoint octalGo (fuel : nat) (n : Z) (acc : string) : string :=
  match fuel with
  | O => acc
  | S fuel' => let acc := String (ascii_of_nat (Z.to_nat (48 + n mod 8))) acc in
               if n / 8 =? 0 then acc else octalGo fuel' (n / 8) acc
  end.
Definition Mask_String (m : Mask) : string :=
  let o := octalGo 11 (mk_Bits m) "" in
  Nat.iter (4 - strlen o) (String "0") o.

Definition ParseDirMask (s : string) : res wordError Mask :=
  let? m := parseMask "dmask" s in
  if Z.land (mk_Bits m) 73 =? 73 then Err (NoEntry (Mask_String m)) else Ok m.

Inductive Watch := WatchUnset | WatchOff | WatchPartial | WatchCoarse.
Inductive Prefetch := PrefetchUnset | PrefetchOff | PrefetchEager | PrefetchTree.

#[export] Instance Watch_eq_dec : EqDecision Watch.
Proof. solve_decision. Defined.
#[export] Instance Prefetch_eq_dec : EqDecision Prefetch.
Proof. solve_decision. Defined.

Definition ParseWatch (s : string) : res wordError Watch :=
  let w := strings.TrimSpace s in
  if bool_decide (w = "off") then Ok WatchOff
  else if bool_decide (w = "partial") then Ok WatchPartial
  else if bool_decide (w = "coarse") then Ok WatchCoarse
  else Err (BadWord "watch" s).

Definition ParsePrefetch (s : string) : res wordError Prefetch :=
  let p := strings.TrimSpace s in
  if bool_decide (p = "off") then Ok PrefetchOff
  else if bool_decide (p = "eager") then Ok PrefetchEager
  else if bool_decide (p = "tree") then Ok PrefetchTree
  else Err (BadWord "prefetch" s).

Definition watchRank (w : Watch) : Z := match w with WatchPartial => 1 | WatchCoarse => 2 | _ => 0 end.
Definition prefetchRank (p : Prefetch) : Z := match p with PrefetchTree => 1 | PrefetchEager => 2 | _ => 0 end.

Definition Watch_Max (w other : Watch) : Watch :=
  if watchRank w <? watchRank other then other
  else if bool_decide (w = WatchUnset) then other else w.
Definition Prefetch_Max (p other : Prefetch) : Prefetch :=
  if prefetchRank p <? prefetchRank other then other
  else if bool_decide (p = PrefetchUnset) then other else p.

Definition Watching (w : Watch) : bool := bool_decide (w = WatchPartial) || bool_decide (w = WatchCoarse).
Definition Prefetching (p : Prefetch) : bool := bool_decide (p = PrefetchEager) || bool_decide (p = PrefetchTree).

Definition Watch_String (w : Watch) : string :=
  match w with WatchUnset | WatchOff => "off" | WatchPartial => "partial" | WatchCoarse => "coarse" end.
Definition Prefetch_String (p : Prefetch) : string :=
  match p with PrefetchUnset | PrefetchOff => "off" | PrefetchEager => "eager" | PrefetchTree => "tree" end.

Record ShareWords := {
  sw_Owner : Owner;
  sw_FMask : Mask;
  sw_DMask : Mask;
  sw_Watch : Watch;
  sw_Prefetch : Prefetch
}.

Record MountWords := {
  mw_Mode : Mode;
  mw_Share : ShareWords
}.

Definition noOwner : Owner := {| ow_UID := 0; ow_GID := 0; ow_Set := false |}.
Definition noMask : Mask := {| mk_Bits := 0; mk_Set := false |}.
Definition noShareWords : ShareWords :=
  {| sw_Owner := noOwner; sw_FMask := noMask; sw_DMask := noMask; sw_Watch := WatchUnset; sw_Prefetch := PrefetchUnset |}.

(** The switch of [ParseMount] on a share's key. *)
Definition setShareWord (key value : string) (w : ShareWords) : res wordError ShareWords :=
  if bool_decide (key = "owner") then
    let? o := ParseOwner value in
    Ok {| sw_Owner := o; sw_FMask := sw_FMask w; sw_DMask := sw_DMask w; sw_Watch := sw_Watch w; sw_Prefetch := sw_Prefetch w |}
  else if bool_decide (key = "fmask") then
    let? m := ParseFileMask value in
    Ok {| sw_Owner := sw_Owner w; sw_FMask := m; sw_DMask := sw_DMask w; sw_Watch := sw_Watch w; sw_Prefetch := sw_Prefetch w |}
  else if bool_decide (key = "dmask") then
    let? m := ParseDirMask value in
    Ok {| sw_Owner := sw_Owner w; sw_FMask := sw_FMask w; sw_DMask := m; sw_Watch := sw_Watch w; sw_Prefetch := sw_Prefetch w |}
  else if bool_decide (key = "watch") then
    let? got := ParseWatch value in
    Ok {| sw_Owner := sw_Owner w; sw_FMask := sw_FMask w; sw_DMask := sw_DMask w; sw_Watch := got; sw_Prefetch := sw_Prefetch w |}
  else if bool_decide (key = "prefetch") then
    let? got := ParsePrefetch value in
    Ok {| sw_Owner := sw_Owner w; sw_FMask := sw_FMask w; sw_DMask := sw_DMask w; sw_Watch := sw_Watch w; sw_Prefetch := got |}
  else Ok w.

(** [ParseMount]: the words so far, the mode's words kept for later, the keys seen. *)
Record mountAcc := {
  ma_words : ShareWords;
  ma_mode : list string;
  ma_seen : gset string
}.

Definition mountStep (s : string) (a : mountAcc) (word : string) : res wordError mountAcc :=
  let word := strings.TrimSpace word in
  if bool_decide (word = "") then Ok a
  else
    let mode := Ok {| ma_words := ma_words a; ma_mode := ma_mode a ++ [word]; ma_seen := ma_seen a |} in
    match strings.Cut word equals with
    | None => mode
    | Some (key, value) =>
        if negb (isShareKey key) then mode
        else if bool_decide (key ∈ ma_seen a) then Err (NamesTwice s key)
        else let? w := setShareWord key value (ma_words a) in
             Ok {| ma_words := w; ma_mode := ma_mode a; ma_seen := {[key]} ∪ ma_seen a |}
    end.

Definition ParseMount (s : string) : res wordError MountWords :=
  let? a := foldRes (mountStep s) {| ma_words := noShareWords; ma_mode := []; ma_seen := ∅ |} (strings.Split s comma) in
  let? mode := ParseMode (strings.Join (ma_mode a) ",") in
  Ok {| mw_Mode := mode; mw_Share := ma_words a |}.

(** ** core/workspace/export.go: identity *)

Record ShareVariant := {
  sv_Mode : Mode;
  sv_Owner : Owner;
  sv_FMask : Mask;
  sv_DMask : Mask
}.

Definition Variant (w : ShareWords) (mode : Mode) : ShareVariant :=
  {| sv_Mode := mode; sv_Owner := sw_Owner w; sv_FMask := sw_FMask w; sv_DMask := sw_DMask w |}.

Definition isDriveLetter (a : ascii) : bool :=
  let n := nat_of_ascii a in ((97 <=? n) && (n <=? 122))%nat || ((65 <=? n) && (n <=? 90))%nat.

(** [strings.ReplaceAll] of a byte by a byte. *)
Fixpoint replaceByte (from to : ascii) (s : string) : string :=
  match s with
  | EmptyString => ""
  | String a s' => String (if Ascii.eqb a from then to else a) (replaceByte from to s')
  end.

Section keys.
Context (ToLower : string → string).

(** The last step of [canonicalKeyFor]: a drive split off, then cleaned. *)
Definition driveKey (p : string) : string :=
  match p with
  | String a (String ":" rest) =>
      if isDriveLetter a then
        if bool_decide (rest = "") then ToLower (String a ":") else ToLower (String a ":" +:+ path.Clean rest)
      else ToLower (path.Clean p)
  | _ => ToLower (path.Clean p)
  end.

Definition canonicalKeyFor (goos p : string) : string :=
  if negb (bool_decide (goos = "windows")) then path.Clean p
  else
    let p := replaceByte backslash path.sep p in
    let p := match strings.CutPrefix p "//?/" with
             | Some rest => match strings.CutPrefix rest "UNC/" with Some unc => "//" +:+ unc | None => rest end
             | None => p
             end in
    match strings.CutPrefix p "//" with
    | Some rest => ToLower ("//" +:+ strings.TrimPrefix (path.Clean ("/" +:+ rest)) "/")
    | None => driveKey p
    end.

Definition nulText : string := String NUL "".

(** [ShareIDFor]: the text it digests, for the canonical key of the path. *)
Definition shareKey (canonical : string) (v : ShareVariant) : string :=
  canonical +:+ nulText +:+ Read_word (md_Read (sv_Mode v)) +:+ nulText +:+ Write_word (md_Write (sv_Mode v)) +:+ nulText +:+
  Itoa (ow_UID (sv_Owner v)) +:+ ":" +:+ Itoa (ow_GID (sv_Owner v)) +:+
  (if mk_Bits (sv_FMask v) =? 0 then "" else nulText +:+ "f" +:+ Mask_String (sv_FMask v)) +:+
  (if mk_Bits (sv_DMask v) =? 0 then "" else nulText +:+ "d" +:+ Mask_String (sv_DMask v)).

Definition ShareIDFor (Sum256 : string → string) (goos localPath : string) (v : ShareVariant) : string :=
  digestID Sum256 (shareKey (canonicalKeyFor goos localPath) v).

Definition LegacyShareID (Sum256 : string → string) (goos localPath : string) : string :=
  digestID Sum256 (canonicalKeyFor goos localPath).

(** [ParseWatchSetting]. *)
Definition ParseWatchSetting (s : string) : res wordError Watch :=
  let w := ToLower (strings.TrimSpace s) in
  if bool_decide (w ∈ [""; "off"; "false"; "0"; "no"]%string) then Ok WatchOff
  else if bool_decide (w ∈ ["partial"; "on"; "true"; "1"; "yes"]%string) then Ok WatchPartial
  else if bool_decide (w ∈ ["coarse"; "best-effort"]%string) then Ok WatchCoarse
  else Err (BadWord "watch" s).

End keys.

(** [NFSVolumeOptions] and [nconnectOption]. *)
Definition NConnectMax : Z := 16.
Definition nconnectOption (n : Z) : list string :=
  if (n <? 2) || (NConnectMax <? n) then [] else ["nconnect=" +:+ Itoa n].

Definition NFSVolumeOptions (port : Z) (exportPath : string) (read : Read) (nconnect : Z) : list (string * string) :=
  let options := ["addr=127.0.0.1"; "port=" +:+ Itoa port; "mountport=" +:+ Itoa port;
                  "nfsvers=3"; "nolock"; "noacl"; "soft"; "timeo=600"; "retrans=2"] ++ attributeOptions read ++
                 ["noatime"; "rsize=1048576"; "wsize=1048576"] ++ nconnectOption nconnect in
  [("type", "nfs"); ("o", strings.Join options ","); ("device", ":" +:+ exportPath)]%string.

Example parse_1 : ParseMount "ro"%string = Err (NotAMode "ro").
Proof. reflexivity. Qed.
Example parse_2 :
  ParseMount "read=cached, write=back,owner=1000.2000,dmask=022" =
  Ok {| mw_Mode := {| md_Read := ReadCached; md_Write := WriteBack |};
        mw_Share := {| sw_Owner := {| ow_UID := 1000; ow_GID := 2000; ow_Set := true |}; sw_FMask := noMask;
                       sw_DMask := {| mk_Bits := 18; mk_Set := true |}; sw_Watch := WatchUnset; sw_Prefetch := PrefetchUnset |} |}.
Proof. reflexivity. Qed.
Example key_1 : canonicalKeyFor (λ s, s) "windows" "\\?\C:\Users\a\..\b" = "C:/Users/b"%string.
Proof. reflexivity. Qed.

(** * Properties of a mount's words (core/workspace/mode.go, mountwords.go, export.go) *)

Open Scope Z_scope.

(** ** Round trips *)

Lemma mode_words_back m : m ≠ ModeUnset → ParseMode (Mode_String m) = Ok m.
Proof. destruct m as [[] []]; intros H; first [done|reflexivity]. Qed.

Lemma ParseUint10_Itoa n : 0 ≤ n < 2^32 → ParseUint10 (Itoa n) = Some n.
Proof.
  intros Hn. destruct (Itoa_digits n) as (Hd & _ & Hne); [lia|]. unfold ParseUint10, in_uint32.
  destruct (Itoa n) eqn:E; [done|]. rewrite <- E in *. rewrite Hd. by rewrite (proj2 (Z.ltb_lt _ _)) by lia.
Qed.

Lemma spanDigits_all s r : allDigits s = true → (match r with EmptyString => True | String a _ => digit a = None end) → spanDigits (s +:+ r) = (s, r).
Proof.
  intros Hs Hr. induction s as [|a s IH]; cbn in *.
  - destruct r as [|a r]; [done|]. cbn. by rewrite Hr.
  - destruct (digit a); [|done]. by rewrite IH.
Qed.

Lemma allDigits_visible s : allDigits s = true → everyByte visible s = true.
Proof.
  induction s as [|a s IH]; cbn; [done|]. destruct (digit a) eqn:E; [|done]. intros H. rewrite (IH H), andb_true_r. clear -E.
  destruct a as [[] [] [] [] [] [] [] []]; vm_compute in E; try done; reflexivity.
Qed.

Lemma owner_words_back o :
  ow_Set o = true → 0 ≤ ow_UID o < 2^32 → 0 ≤ ow_GID o < 2^32 → ParseOwner (Owner_String o) = Ok o.
Proof.
  destruct o as [u g []]; [|done]. cbn [ow_UID ow_GID ow_Set]. intros _ Hu Hg. unfold ParseOwner, Owner_String. cbn [negb ow_UID ow_GID ow_Set].
  destruct (Itoa_digits u) as (_ & Hud & _), (Itoa_digits g) as (_ & Hgd & _); [lia..|].
  rewrite TrimSpace_visible by (rewrite !everyByte_app, (allDigits_visible (Itoa u)), (allDigits_visible (Itoa g)) by done; done).
  rewrite spanDigits_all by done. cbn [String.append].
  rewrite bool_decide_eq_false_2 by done.
  assert (DecodeRune (String ":" (Itoa g)) = (58, 1%nat)) as -> by done.
  cbn [dropBytes]. by rewrite !ParseUint10_Itoa.
Qed.

(** Every mask there is. *)
Definition maskTable : bool :=
  forallb (λ n : nat,
    match ParseFileMask (Mask_String {| mk_Bits := Z.of_nat n; mk_Set := true |}) with Ok m => bool_decide (m = {| mk_Bits := Z.of_nat n; mk_Set := true |}) | Err _ => false end &&
    ((Z.land (Z.of_nat n) 73 =? 73) ||
     match ParseDirMask (Mask_String {| mk_Bits := Z.of_nat n; mk_Set := true |}) with Ok m => bool_decide (m = {| mk_Bits := Z.of_nat n; mk_Set := true |}) | Err _ => false end))
    (seq 0 512).

Lemma maskTable_true : maskTable = true.
Proof. vm_compute. reflexivity. Qed.

Lemma mask_words_back m :
  mk_Set m = true → 0 ≤ mk_Bits m ≤ 511 →
  ParseFileMask (Mask_String m) = Ok m ∧ (Z.land (mk_Bits m) 73 ≠ 73 → ParseDirMask (Mask_String m) = Ok m).
Proof.
  destruct m as [b []]; [|done]. cbn [mk_Bits mk_Set]. intros _ Hb. pose proof maskTable_true as T. unfold maskTable in T. rewrite forallb_forall in T.
  specialize (T (Z.to_nat b)). rewrite Z2Nat.id in T by lia.
  assert (In (Z.to_nat b) (seq 0 512)) as Hin by (apply in_seq; lia). apply T in Hin as [H1 H2]%andb_true_iff.
  split.
  - destruct (ParseFileMask _); [|done]. by apply bool_decide_eq_true in H1 as ->.
  - intros Hn. apply orb_true_iff in H2 as [?%Z.eqb_eq|H2]; [done|]. destruct (ParseDirMask _); [|done]. by apply bool_decide_eq_true in H2 as ->.
Qed.

Lemma parseMask_bounds name s m : parseMask name s = Ok m → mk_Set m = true ∧ 0 ≤ mk_Bits m ≤ 511.
Proof.
  unfold parseMask. destruct (_ || _); [done|]. unfold ParseUint8, in_uint32.
  assert (∀ s acc n, 0 ≤ acc → octals acc s = Some n → 0 ≤ n) as Hpos.
  { clear. intros s. induction s as [|a s IH]; intros acc n Ha; cbn; [by intros [= <-]|].
    destruct (octalDigit a) as [d|] eqn:E; [|done]. apply IH. unfold octalDigit in E. destruct (digit a) eqn:Ed; [|done].
    apply digit_bounds in Ed. destruct (_ <? 8); [|done]. injection E as <-. lia. }
  destruct (strings.TrimSpace s) as [|a t]; [done|]. destruct (octals 0 _) as [n|] eqn:E; [|done].
  destruct (n <? 2^32); [|done]. destruct (Z.ltb_spec 511 n); [done|]. intros [= <-]. cbn. split; [done|]. apply Hpos in E; lia.
Qed.

(** A mount's words survive being written and read: a mode, an owner
    with two 32-bit ids and a mask of permission bits, each in its canonical
    spelling, parse back to themselves; and no directory mask that is accepted
    clears every execute bit, or anything but permission bits. *)
Theorem mount_words_roundtrip :
  (∀ m, m ≠ ModeUnset → ParseMode (Mode_String m) = Ok m) ∧
  (∀ o, ow_Set o = true → 0 ≤ ow_UID o < 2^32 → 0 ≤ ow_GID o < 2^32 → ParseOwner (Owner_String o) = Ok o) ∧
  (∀ m, mk_Set m = true → 0 ≤ mk_Bits m ≤ 511 →
     ParseFileMask (Mask_String m) = Ok m ∧ (Z.land (mk_Bits m) 73 ≠ 73 → ParseDirMask (Mask_String m) = Ok m)) ∧
  (∀ s m, ParseDirMask s = Ok m → 0 ≤ mk_Bits m ≤ 511 ∧ Z.land (mk_Bits m) 73 ≠ 73 ∧ ParseDirMask (Mask_String m) = Ok m).
Proof.
  split_and!; [apply mode_words_back|apply owner_words_back|apply mask_words_back|].
  intros s m. unfold ParseDirMask at 1. destruct (parseMask "dmask" s) as [m'|] eqn:E; [|done].
  destruct (Z.eqb_spec (Z.land (mk_Bits m') 73) 73); [done|]. intros [= <-]. apply parseMask_bounds in E as [Hs Hb].
  split_and!; [lia|lia|done|]. by apply mask_words_back.
Qed.

(** ** The order of the words *)

Lemma TrimSpace_Contains s c : strings.Contains s c = false → strings.Contains (strings.TrimSpace s) c = false.
Proof.
  intros Hs. unfold strings.TrimSpace. set (l := strings.trim_any (strlen s) strings.spaces s).
  assert (strings.Contains l c = false) as Hl.
  { destruct (trim_any_suffix strings.spaces (strlen s) s) as [pre E]. fold l in E. rewrite E, Contains_append in Hs. by apply orb_false_iff in Hs as [_ ?]. }
  rewrite Contains_rev. destruct (trim_any_suffix (strings.rev <$> strings.spaces) (strlen l) (strings.rev l)) as [pre E].
  rewrite <- Contains_rev, E, Contains_append in Hl. by apply orb_false_iff in Hl as [_ ?].
Qed.

Lemma same_ok_sym {E A} (r r' : res E A) : same_ok r r' → same_ok r' r.
Proof. intros H a. by rewrite (H a). Qed.

Lemma same_ok_trans {E A} (r1 r2 r3 : res E A) : same_ok r1 r2 → same_ok r2 r3 → same_ok r1 r3.
Proof. intros H1 H2 a. by rewrite (H1 a). Qed.

Lemma same_ok_bind {E A B} (r r' : res E A) (k k' : A → res E B) :
  same_ok r r' → (∀ a, same_ok (k a) (k' a)) → same_ok (let? a := r in k a) (let? a := r' in k' a).
Proof.
  intros Hr Hk. destruct r as [a|], r' as [a'|]; try done.
  - rewrite (Ok_inj (proj1 (Hr a) eq_refl)). apply Hk.
  - discriminate (proj1 (Hr a) eq_refl).
  - discriminate (proj2 (Hr a') eq_refl).
Qed.

Lemma foldRes_same {E A B} (f f' : A → B → res E A) l :
  (∀ a b, same_ok (f a b) (f' a b)) → ∀ a, same_ok (foldRes f a l) (foldRes f' a l).
Proof. intros H. induction l as [|b l IH]; intros a; [done|]. cbn [foldRes]. by apply same_ok_bind. Qed.

Lemma modeStep_text s s' m w : same_ok (modeStep s m w) (modeStep s' m w).
Proof.
  unfold modeStep. case_bool_decide; [done|]. apply same_ok_bind; [done|]. intros got. repeat destruct (_ && _); done.
Qed.

(** One word's mode on top of the others', for every pair of them. *)
Definition mergeMode (s : string) (m got : Mode) : res wordError Mode :=
  if bool_decide (md_Read got ≠ ReadUnset) && bool_decide (md_Read m ≠ ReadUnset) then Err (NamesTwice s "read")
  else if bool_decide (md_Write got ≠ WriteUnset) && bool_decide (md_Write m ≠ WriteUnset) then Err (NamesTwice s "write")
  else Ok {| md_Read := if bool_decide (md_Read got = ReadUnset) then md_Read m else md_Read got;
             md_Write := if bool_decide (md_Write got = WriteUnset) then md_Write m else md_Write got |}.

Definition allModes : list Mode :=
  r ← [ReadUnset; ReadDirect; ReadCached]; w ← [WriteUnset; WriteThrough; WriteBack; WriteEphemeral]; [{| md_Read := r; md_Write := w |}].

Definition mergeAgrees (m x y : Mode) : bool :=
  match (let? m' := mergeMode "" m x in mergeMode "" m' y), (let? m' := mergeMode "" m y in mergeMode "" m' x) with
  | Ok a, Ok b => bool_decide (a = b)
  | Err _, Err _ => true
  | _, _ => false
  end.

Lemma mergeModes_agree : forallb (λ m, forallb (λ x, forallb (mergeAgrees m x) allModes) allModes) allModes = true.
Proof. vm_compute. reflexivity. Qed.

Lemma allModes_all m : In m allModes.
Proof. destruct m as [[] []]; vm_compute; tauto. Qed.

Lemma mergeMode_text s s' m got : same_ok (mergeMode s m got) (mergeMode s' m got).
Proof. unfold mergeMode. repeat destruct (_ && _); done. Qed.

Lemma mergeMode_comm s m x y :
  same_ok (let? m' := mergeMode s m x in mergeMode s m' y) (let? m' := mergeMode s m y in mergeMode s m' x).
Proof.
  assert (∀ x y, same_ok (let? m' := mergeMode s m x in mergeMode s m' y) (let? m' := mergeMode "" m x in mergeMode "" m' y)) as Ht.
  { intros x' y'. apply same_ok_bind; [apply mergeMode_text|]. intros m'. apply mergeMode_text. }
  eapply same_ok_trans; [apply Ht|]. eapply same_ok_trans; [|apply same_ok_sym, Ht].
  pose proof mergeModes_agree as T. rewrite forallb_forall in T. specialize (T m (allModes_all m)). rewrite forallb_forall in T.
  specialize (T x (allModes_all x)). rewrite forallb_forall in T. specialize (T y (allModes_all y)). unfold mergeAgrees in T.
  destruct (let? m' := mergeMode "" m x in mergeMode "" m' y), (let? m' := mergeMode "" m y in mergeMode "" m' x); try done.
  by apply bool_decide_eq_true in T as ->.
Qed.

Lemma modeStep_merge s m w :
  modeStep s m w = if bool_decide (strings.TrimSpace w = ""%string) then Ok m else let? got := parseModeWord (strings.TrimSpace w) in mergeMode s m got.
Proof. done. Qed.

Lemma modeStep_comm s m x y :
  same_ok (let? m' := modeStep s m x in modeStep s m' y) (let? m' := modeStep s m y in modeStep s m' x).
Proof.
  destruct (decide (strings.TrimSpace x = ""%string)) as [Hx|Hx].
  { assert (∀ m, modeStep s m x = Ok m) as E by (intros m'; by rewrite modeStep_merge, bool_decide_eq_true_2).
    rewrite E. destruct (modeStep s m y); [by rewrite E|done]. }
  destruct (decide (strings.TrimSpace y = ""%string)) as [Hy|Hy].
  { assert (∀ m, modeStep s m y = Ok m) as E by (intros m'; by rewrite modeStep_merge, bool_decide_eq_true_2).
    rewrite E. destruct (modeStep s m x); [by rewrite E|done]. }
  assert (∀ m, modeStep s m x = let? got := parseModeWord (strings.TrimSpace x) in mergeMode s m got) as Ex
    by (intros m'; by rewrite modeStep_merge, bool_decide_eq_false_2).
  assert (∀ m, modeStep s m y = let? got := parseModeWord (strings.TrimSpace y) in mergeMode s m got) as Ey
    by (intros m'; by rewrite modeStep_merge, bool_decide_eq_false_2).
  pose proof (mergeMode_comm s m) as Hc. rewrite Ex, Ey.
  destruct (parseModeWord (strings.TrimSpace x)) as [gx|ex], (parseModeWord (strings.TrimSpace y)) as [gy|ey].
  - specialize (Hc gx gy). destruct (mergeMode s m gx), (mergeMode s m gy); rewrite ?Ex, ?Ey; done.
  - destruct (mergeMode s m gx); [by rewrite Ey|done].
  - destruct (mergeMode s m gy); [by rewrite Ex|done].
  - done.
Qed.

Lemma ParseMode_Join ws : Forall (λ w, strings.Contains w comma = false) ws →
  ParseMode (strings.Join ws ",") = foldRes (modeStep (strings.Join ws ",")) ModeUnset ws.
Proof.
  intros Hw. unfold ParseMode. destruct ws as [|w ws]; [reflexivity|]. by rewrite Split_Join.
Qed.

(** The words of a list that are not blank, without their spaces. *)
Definition trimmed (ws : list string) : list string := filter (λ w, w ≠ ""%string) (strings.TrimSpace <$> ws).

Definition shareWord (word : string) : Prop :=
  match strings.Cut word equals with Some (key, _) => isShareKey key = true | None => False end.
#[export] Instance shareWord_dec word : Decision (shareWord word).
Proof. unfold shareWord. destruct (strings.Cut word equals) as [[]|]; apply _. Defined.

Definition shareStep (s : string) (a : ShareWords * gset string) (word : string) : res wordError (ShareWords * gset string) :=
  match strings.Cut word equals with
  | Some (key, value) =>
      if bool_decide (key ∈ a.2) then Err (NamesTwice s key)
      else let? w := setShareWord key value a.1 in Ok (w, {[key]} ∪ a.2)
  | None => Ok a
  end.

(** [ParseMount]'s loop reads the share's words, and sets the others aside. *)
Lemma mountStep_fold s ws a :
  foldRes (mountStep s) a ws =
  let? r := foldRes (shareStep s) (ma_words a, ma_seen a) (filter shareWord (trimmed ws)) in
  Ok {| ma_words := r.1; ma_mode := ma_mode a ++ filter (λ w, ¬ shareWord w) (trimmed ws); ma_seen := r.2 |}.
Proof.
  revert a. induction ws as [|word ws IH]; intros a; cbn [foldRes].
  { cbn. rewrite app_nil_r. by destruct a. }
  unfold mountStep at 1. unfold trimmed. rewrite fmap_cons, filter_cons. fold (trimmed ws).
  destruct (bool_decide_reflect (strings.TrimSpace word = ""%string)) as [E|E].
  { rewrite decide_False by (by intros H). apply IH. }
  rewrite decide_True by done. rewrite !filter_cons. fold (trimmed ws).
  assert (shareWord (strings.TrimSpace word) ↔ match strings.Cut (strings.TrimSpace word) equals with Some (key, _) => isShareKey key = true | None => False end) as Hsw by done.
  destruct (strings.Cut (strings.TrimSpace word) equals) as [[key value]|] eqn:Ec.
  - destruct (isShareKey key) eqn:Ek; cbn [negb].
    + rewrite decide_True, decide_False by (rewrite Hsw, ?Ec, ?Ek; auto). cbn [foldRes]. unfold shareStep at 1. rewrite Ec. cbn [fst snd].
      case_bool_decide; [done|]. destruct (setShareWord key value (ma_words a)); [|done]. rewrite IH. done.
    + rewrite decide_False, decide_True by (rewrite Hsw, ?Ec, ?Ek; auto). rewrite IH. cbn [ma_words ma_mode ma_seen]. by rewrite <- app_assoc.
  - rewrite decide_False, decide_True by (rewrite Hsw, ?Ec; auto). rewrite IH. cbn [ma_words ma_mode ma_seen]. by rewrite <- app_assoc.
Qed.

(** The part of the share's words a key sets. *)
Inductive part := POwner (o : Owner) | PFMask (m : Mask) | PDMask (m : Mask) | PWatch (w : Watch) | PPrefetch (p : Prefetch) | PNothing.

Definition partOf (key value : string) : res wordError part :=
  if bool_decide (key = "owner") then let? o := ParseOwner value in Ok (POwner o)
  else if bool_decide (key = "fmask") then let? m := ParseFileMask value in Ok (PFMask m)
  else if bool_decide (key = "dmask") then let? m := ParseDirMask value in Ok (PDMask m)
  else if bool_decide (key = "watch") then let? got := ParseWatch value in Ok (PWatch got)
  else if bool_decide (key = "prefetch") then let? got := ParsePrefetch value in Ok (PPrefetch got)
  else Ok PNothing.

Definition applyPart (p : part) (w : ShareWords) : ShareWords :=
  match p with
  | POwner o => {| sw_Owner := o; sw_FMask := sw_FMask w; sw_DMask := sw_DMask w; sw_Watch := sw_Watch w; sw_Prefetch := sw_Prefetch w |}
  | PFMask m => {| sw_Owner := sw_Owner w; sw_FMask := m; sw_DMask := sw_DMask w; sw_Watch := sw_Watch w; sw_Prefetch := sw_Prefetch w |}
  | PDMask m => {| sw_Owner := sw_Owner w; sw_FMask := sw_FMask w; sw_DMask := m; sw_Watch := sw_Watch w; sw_Prefetch := sw_Prefetch w |}
  | PWatch x => {| sw_Owner := sw_Owner w; sw_FMask := sw_FMask w; sw_DMask := sw_DMask w; sw_Watch := x; sw_Prefetch := sw_Prefetch w |}
  | PPrefetch x => {| sw_Owner := sw_Owner w; sw_FMask := sw_FMask w; sw_DMask := sw_DMask w; sw_Watch := sw_Watch w; sw_Prefetch := x |}
  | PNothing => w
  end.

Definition partKey (p : part) : option string :=
  match p with
  | POwner _ => Some "owner" | PFMask _ => Some "fmask" | PDMask _ => Some "dmask" | PWatch _ => Some "watch" | PPrefetch _ => Some "prefetch"
  | PNothing => None
  end%string.

Lemma setShareWord_part key value w : setShareWord key value w = let? p := partOf key value in Ok (applyPart p w).
Proof.
  unfold setShareWord, partOf. generalize (ParseOwner value), (ParseFileMask value), (ParseDirMask value), (ParseWatch value), (ParsePrefetch value).
  intros [] [] [] [] []; by repeat case_bool_decide.
Qed.

Lemma partOf_key key value p : partOf key value = Ok p → partKey p = Some key ∨ p = PNothing.
Proof.
  unfold partOf. generalize (ParseOwner value), (ParseFileMask value), (ParseDirMask value), (ParseWatch value), (ParsePrefetch value).
  intros r1 r2 r3 r4 r5. repeat (case_bool_decide; [subst|]).
  - destruct r1; [|done]. intros [= <-]. by left.
  - destruct r2; [|done]. intros [= <-]. by left.
  - destruct r3; [|done]. intros [= <-]. by left.
  - destruct r4; [|done]. intros [= <-]. by left.
  - destruct r5; [|done]. intros [= <-]. by left.
  - intros [= <-]. by right.
Qed.

Lemma applyPart_comm k1 v1 k2 v2 p q w :
  k1 ≠ k2 → partOf k1 v1 = Ok p → partOf k2 v2 = Ok q → applyPart q (applyPart p w) = applyPart p (applyPart q w).
Proof.
  intros Hne [Hp| ->]%partOf_key [Hq| ->]%partOf_key; try done. destruct p, q; cbn in Hp, Hq; try done; congruence.
Qed.

Lemma shareStep_comm s a x y :
  same_ok (let? a' := shareStep s a x in shareStep s a' y) (let? a' := shareStep s a y in shareStep s a' x).
Proof.
  unfold shareStep. destruct (strings.Cut x equals) as [[k1 v1]|], (strings.Cut y equals) as [[k2 v2]|]; try done.
  2,3: destruct (bool_decide (_ ∈ a.2)); [done|by destruct (setShareWord _ _ _)].
  pose proof (setShareWord_part k1 v1) as E1. pose proof (setShareWord_part k2 v2) as E2.
  destruct a as [w seen]. cbn [fst snd]. rewrite E1, E2.
  destruct (decide (k1 = k2)) as [<-|Hne].
  { case_bool_decide as Hs; [done|]. destruct (partOf k1 v1), (partOf k1 v2); cbn [fst snd]; rewrite ?bool_decide_eq_true_2 by set_solver; done. }
  destruct (bool_decide_reflect (k1 ∈ seen)) as [H1|H1], (bool_decide_reflect (k2 ∈ seen)) as [H2|H2].
  - done.
  - destruct (partOf k2 v2); [|done]. cbn [fst snd]. by rewrite bool_decide_eq_true_2 by set_solver.
  - destruct (partOf k1 v1); [|done]. cbn [fst snd]. by rewrite bool_decide_eq_true_2 by set_solver.
  - destruct (partOf k1 v1) as [p|] eqn:Hp, (partOf k2 v2) as [q|] eqn:Hq; cbn [fst snd]; rewrite ?bool_decide_eq_false_2 by set_solver;
      rewrite ?E1, ?E2; try done.
    rewrite (applyPart_comm k1 v1 k2 v2 p q w Hne Hp Hq), (assoc_L (∪)), (comm_L (∪) {[k2]}), <- (assoc_L (∪)). done.
Qed.

Lemma shareStep_text s s' a w : same_ok (shareStep s a w) (shareStep s' a w).
Proof. unfold shareStep. destruct (strings.Cut w equals) as [[]|]; [|done]. by destruct (bool_decide _). Qed.

(** What a list of words means: the share's, and the mode's. *)
Definition meaning (ws : list string) : res wordError MountWords :=
  let? r := foldRes (shareStep "") (noShareWords, ∅) (filter shareWord (trimmed ws)) in
  let? mode := foldRes (modeStep "") ModeUnset (filter (λ w, ¬ shareWord w) (trimmed ws)) in
  Ok {| mw_Mode := mode; mw_Share := r.1 |}.

Lemma trimmed_no_comma ws : Forall (λ w, strings.Contains w comma = false) ws → Forall (λ w, strings.Contains w comma = false) (trimmed ws).
Proof.
  intros Hw. apply Forall_forall. intros w [_ (w' & -> & Hin)%list_elem_of_fmap]%list_elem_of_filter.
  rewrite Forall_forall in Hw. by apply TrimSpace_Contains, Hw.
Qed.

Lemma ParseMount_meaning s : same_ok (ParseMount s) (meaning (strings.Split s comma)).
Proof.
  unfold ParseMount, meaning. rewrite mountStep_fold. cbn [ma_words ma_seen ma_mode app]. set (ws := strings.Split s comma).
  pose proof (foldRes_same (shareStep s) (shareStep "") (filter shareWord (trimmed ws)) (λ a b, shareStep_text s "" a b) (noShareWords, ∅)) as Hs.
  intros a. destruct (foldRes (shareStep s) _ _) as [r|], (foldRes (shareStep "") _ _) as [r'|]; try done;
    [|discriminate (proj1 (Hs _) eq_refl)|discriminate (proj2 (Hs _) eq_refl)].
  rewrite (Ok_inj (proj1 (Hs r) eq_refl)). cbn [ma_words ma_mode]. rewrite ParseMode_Join.
  - revert a. apply same_ok_bind; [|done]. apply foldRes_same. apply modeStep_text.
  - apply Forall_forall. intros w [_ Hin]%list_elem_of_filter. revert w Hin. apply Forall_forall, trimmed_no_comma, Split_no_sep.
Qed.

Lemma meaning_permutation ws ws' : ws ≡ₚ ws' → same_ok (meaning ws) (meaning ws').
Proof.
  intros Hp. assert (trimmed ws ≡ₚ trimmed ws') as Ht by (unfold trimmed; by rewrite Hp). unfold meaning.
  apply same_ok_bind; [|intros r; apply same_ok_bind; [|done]]; apply foldRes_permutation; try (by rewrite Ht); [apply shareStep_comm|apply modeStep_comm].
Qed.

Lemma trimmed_Split_Join ws : Forall (λ w, strings.Contains w comma = false) ws → trimmed (strings.Split (strings.Join ws ",") comma) = trimmed ws.
Proof. intros Hw. destruct ws as [|w ws]; [reflexivity|]. by rewrite Split_Join. Qed.

(** A mount's words mean the same in any order: a list of words
    separated by commas is accepted exactly when every reordering of it is, with
    the same mode, owner, masks, watch and prefetch. *)
Theorem mount_words_any_order ws ws' w :
  Forall (λ word, strings.Contains word comma = false) ws → ws ≡ₚ ws' →
  ParseMount (strings.Join ws ",") = Ok w ↔ ParseMount (strings.Join ws' ",") = Ok w.
Proof.
  intros Hw Hp. assert (Forall (λ word, strings.Contains word comma = false) ws') as Hw' by (by rewrite <- Hp).
  assert (∀ l, Forall (λ word, strings.Contains word comma = false) l → same_ok (ParseMount (strings.Join l ",")) (meaning l)) as Hm.
  { intros l Hl. eapply same_ok_trans; [apply ParseMount_meaning|]. unfold meaning. by rewrite trimmed_Split_Join. }
  rewrite (Hm ws Hw w), (Hm ws' Hw' w). by apply meaning_permutation.
Qed.

(** ** Which words are taken *)

Lemma parseModeWord_claimed word m : parseModeWord word = Ok m → strings.TrimSpace word = word → IsModeWord word = true.
Proof.
  unfold parseModeWord, IsModeWord. intros H ->. destruct (dockerWords word); [done|]. destruct (strings.Cut word equals) as [[axis value]|]; [|done].
  destruct (bool_decide_reflect (axis = "read"%string)); [done|]. destruct (bool_decide_reflect (axis = "write"%string)); [done|]. by destruct (shareKeySetting axis).
Qed.

Lemma foldRes_all {E A B} (f : A → B → res E A) a l b : foldRes f a l = Ok b → ∀ x, x ∈ l → ∃ a' a'', f a' x = Ok a''.
Proof.
  revert a. induction l as [|y l IH]; intros a H x; [by intros ?%elem_of_nil|]. cbn in H. destruct (f a y) as [a'|] eqn:Ef; [|done].
  intros [->|Hx]%elem_of_cons; eauto.
Qed.

Lemma IsModeWord_TrimSpace w : IsModeWord (strings.TrimSpace w) = IsModeWord w.
Proof. unfold IsModeWord. by rewrite TrimSpace_idem. Qed.

(** No word of ours reaches the daemon unread: whatever list of words a
    mount accepts, each word that is not blank is one [IsModeWord] takes out of a
    [-v] option list; so a word that is left in the list for the daemon is none a
    mount would have understood. *)
Theorem accepted_words_are_taken s w word :
  ParseMount s = Ok w → word ∈ strings.Split s comma → strings.TrimSpace word = ""%string ∨ IsModeWord word = true.
Proof.
  intros H Hin. apply ParseMount_meaning in H. destruct (decide (strings.TrimSpace word = ""%string)) as [|Hne]; [by left|right].
  rewrite <- IsModeWord_TrimSpace. set (t := strings.TrimSpace word) in *.
  assert (t ∈ trimmed (strings.Split s comma)) as Ht by (apply list_elem_of_filter; split; [done|]; by apply list_elem_of_fmap_2).
  unfold meaning in H. destruct (foldRes (shareStep "") _ _) as [r|]; [|done]. destruct (foldRes (modeStep "") _ _) as [m|] eqn:Em; [|done].
  destruct (decide (shareWord t)) as [Hs|Hs].
  - unfold shareWord in Hs. unfold IsModeWord, t. rewrite TrimSpace_idem. fold t. destruct (dockerWords t); [done|].
    destruct (strings.Cut t equals) as [[key value]|]; [|done]. by rewrite Hs, orb_true_r.
  - destruct (foldRes_all _ _ _ _ Em t) as (m1 & m2 & Hm); [by apply list_elem_of_filter|]. rewrite modeStep_merge in Hm.
    assert (strings.TrimSpace t = t) as Et by apply TrimSpace_idem. rewrite Et, bool_decide_eq_false_2 in Hm by done.
    destruct (parseModeWord t) eqn:Ep; [|done]. by eapply parseModeWord_claimed.
Qed.

(** ** Identity *)

Definition keyParts (canonical : string) (v : ShareVariant) : list string :=
  [canonical; Read_word (md_Read (sv_Mode v)); Write_word (md_Write (sv_Mode v)); Itoa (ow_UID (sv_Owner v)) +:+ ":" +:+ Itoa (ow_GID (sv_Owner v))] ++
  (if mk_Bits (sv_FMask v) =? 0 then [] else ["f" +:+ Mask_String (sv_FMask v)]) ++
  (if mk_Bits (sv_DMask v) =? 0 then [] else ["d" +:+ Mask_String (sv_DMask v)]).

Lemma shareKey_Join canonical v : shareKey canonical v = strings.Join (keyParts canonical v) nulText.
Proof.
  unfold shareKey, keyParts. destruct (mk_Bits (sv_FMask v) =? 0), (mk_Bits (sv_DMask v) =? 0); cbn [app strings.Join];
    rewrite ?append_nil_r, ?append_assoc; done.
Qed.

(** A variant whose numbers are the width the code gives them. *)
Record variantOk (v : ShareVariant) : Prop := {
  vo_UID : 0 ≤ ow_UID (sv_Owner v) < 2^32;
  vo_GID : 0 ≤ ow_GID (sv_Owner v) < 2^32;
  vo_FMask : 0 ≤ mk_Bits (sv_FMask v) ≤ 511;
  vo_DMask : 0 ≤ mk_Bits (sv_DMask v) ≤ 511
}.

Lemma maskText_table : forallb (λ n : nat, everyByte visible (Mask_String {| mk_Bits := Z.of_nat n; mk_Set := true |})) (seq 0 512) = true.
Proof. vm_compute. reflexivity. Qed.

Lemma Mask_String_visible m : 0 ≤ mk_Bits m ≤ 511 → everyByte visible (Mask_String m) = true.
Proof.
  intros Hb. pose proof maskText_table as T. rewrite forallb_forall in T. specialize (T (Z.to_nat (mk_Bits m))).
  rewrite Z2Nat.id in T by lia. apply T, in_seq. lia.
Qed.

Lemma Mask_String_inj m m' : 0 ≤ mk_Bits m ≤ 511 → 0 ≤ mk_Bits m' ≤ 511 → Mask_String m = Mask_String m' → mk_Bits m = mk_Bits m'.
Proof.
  intros Hm Hm' E. destruct (mask_words_back {| mk_Bits := mk_Bits m; mk_Set := true |} eq_refl Hm) as [E1 _].
  destruct (mask_words_back {| mk_Bits := mk_Bits m'; mk_Set := true |} eq_refl Hm') as [E2 _].
  change (Mask_String {| mk_Bits := mk_Bits m; mk_Set := true |}) with (Mask_String m) in E1.
  change (Mask_String {| mk_Bits := mk_Bits m'; mk_Set := true |}) with (Mask_String m') in E2. rewrite E, E2 in E1. by injection E1.
Qed.

Lemma visible_no_NUL s : everyByte visible s = true → strings.Contains s NUL = false.
Proof. by apply everyByte_Contains. Qed.

Lemma ownerText_inj u g u' g' :
  0 ≤ u < 2^32 → 0 ≤ g < 2^32 → 0 ≤ u' < 2^32 → 0 ≤ g' < 2^32 →
  Itoa u +:+ ":" +:+ Itoa g = Itoa u' +:+ ":" +:+ Itoa g' → u = u' ∧ g = g'.
Proof.
  intros Hu Hg Hu' Hg' E.
  pose proof (owner_words_back {| ow_UID := u; ow_GID := g; ow_Set := true |} eq_refl Hu Hg) as E1.
  pose proof (owner_words_back {| ow_UID := u'; ow_GID := g'; ow_Set := true |} eq_refl Hu' Hg') as E2.
  unfold Owner_String in E1, E2. cbn [ow_Set ow_UID ow_GID negb] in E1, E2. rewrite E, E2 in E1. by injection E1.
Qed.

Lemma keyParts_no_NUL canonical v :
  strings.Contains canonical NUL = false → variantOk v → Forall (λ w, strings.Contains w NUL = false) (keyParts canonical v).
Proof.
  intros Hc [Hu Hg Hf Hd]. unfold keyParts. destruct (Itoa_digits (ow_UID (sv_Owner v))) as (_ & Hud & _), (Itoa_digits (ow_GID (sv_Owner v))) as (_ & Hgd & _); [lia..|].
  apply Forall_app. split; [|apply Forall_app; split].
  - repeat constructor; [done|by destruct (md_Read (sv_Mode v))|by destruct (md_Write (sv_Mode v))|].
    apply visible_no_NUL. rewrite !everyByte_app, (allDigits_visible _ Hud), (allDigits_visible _ Hgd). done.
  - destruct (_ =? 0); [constructor|]. repeat constructor. apply visible_no_NUL. rewrite everyByte_app, Mask_String_visible by done. done.
  - destruct (_ =? 0); [constructor|]. repeat constructor. apply visible_no_NUL. rewrite everyByte_app, Mask_String_visible by done. done.
Qed.

(** Variants never meet: the text a share's id is the digest of is the
    same for two mounts exactly when the directory's canonical key, the mode, the
    owner's ids and the bits the masks clear are; whether a mask was named makes
    no difference, and nothing one part says can be read as another's. *)
Theorem share_key_injective c c' v v' :
  strings.Contains c NUL = false → strings.Contains c' NUL = false → variantOk v → variantOk v' →
  shareKey c v = shareKey c' v' ↔
  c = c' ∧ sv_Mode v = sv_Mode v' ∧ ow_UID (sv_Owner v) = ow_UID (sv_Owner v') ∧ ow_GID (sv_Owner v) = ow_GID (sv_Owner v') ∧
  mk_Bits (sv_FMask v) = mk_Bits (sv_FMask v') ∧ mk_Bits (sv_DMask v) = mk_Bits (sv_DMask v').
Proof.
  intros Hc Hc' Hv Hv'. split.
  - rewrite !shareKey_Join. intros E.
    assert (keyParts c v = keyParts c' v') as Hk.
    { rewrite <- (Split_Join (keyParts c v) NUL), <- (Split_Join (keyParts c' v') NUL); [|done|by apply keyParts_no_NUL|done|by apply keyParts_no_NUL].
      f_equal. exact E. }
    destruct Hv as [Hu Hg Hf Hd], Hv' as [Hu' Hg' Hf' Hd']. unfold keyParts in Hk. cbn [app] in Hk. injection Hk as <- Hr Hw Ho Ht.
    apply ownerText_inj in Ho as [<- <-]; try done.
    assert (sv_Mode v = sv_Mode v') as ->.
    { destruct (sv_Mode v) as [r w], (sv_Mode v') as [r' w']. cbn in Hr, Hw. by destruct r, r', w, w'. }
    split_and!; try done.
    + destruct (Z.eqb_spec (mk_Bits (sv_FMask v)) 0), (Z.eqb_spec (mk_Bits (sv_FMask v')) 0), (Z.eqb_spec (mk_Bits (sv_DMask v)) 0), (Z.eqb_spec (mk_Bits (sv_DMask v')) 0);
        cbn in Ht; try congruence; try discriminate; injection Ht; intros; by apply Mask_String_inj.
    + destruct (Z.eqb_spec (mk_Bits (sv_FMask v)) 0), (Z.eqb_spec (mk_Bits (sv_FMask v')) 0), (Z.eqb_spec (mk_Bits (sv_DMask v)) 0), (Z.eqb_spec (mk_Bits (sv_DMask v')) 0);
        cbn in Ht; try congruence; try discriminate; injection Ht; intros; by apply Mask_String_inj.
  - intros (<- & Hm & Hu & Hg & Hf & Hd). unfold shareKey, Mask_String. by rewrite Hm, Hu, Hg, Hf, Hd.
Qed.

(** ** Spellings of one directory *)

Lemma replaceByte_append a b s t : replaceByte a b (s +:+ t) = replaceByte a b s +:+ replaceByte a b t.
Proof. induction s as [|x s IH]; cbn; [done|]. by rewrite IH. Qed.

Lemma replaceByte_id a b s : strings.Contains s a = false → replaceByte a b s = s.
Proof. induction s as [|x s IH]; cbn; [done|]. destruct (Ascii.eqb x a); [done|]. cbn. intros H. by rewrite IH. Qed.

Lemma replaceByte_idem a b s : a ≠ b → replaceByte a b (replaceByte a b s) = replaceByte a b s.
Proof.
  intros Hne. induction s as [|x s IH]; cbn; [done|]. rewrite IH. f_equal. destruct (Ascii.eqb_spec x a) as [->|Hx].
  - by destruct (Ascii.eqb_spec b a).
  - by destruct (Ascii.eqb_spec x a).
Qed.

(** On Windows the spellings of one directory have one key: slashes
    for backslashes, the extended-length form of a path with a drive letter, and
    the extended-length form of a share's path, all fold to the plain path's. *)
Theorem windows_spellings_fold ToLower p a rest server :
  isDriveLetter a = true → strings.HasPrefix (replaceByte backslash path.sep server) "?/" = false →
  let key := canonicalKeyFor ToLower "windows" in
  key (replaceByte backslash path.sep p) = key p ∧
  key ("\\?\" +:+ String a (String ":" rest)) = key (String a (String ":" rest)) ∧
  key ("\\?\UNC\" +:+ server) = key ("\\" +:+ server).
Proof.
  intros Ha Hs key. unfold key, canonicalKeyFor. rewrite !bool_decide_eq_true_2 by done. cbn [negb]. split_and!.
  - by rewrite replaceByte_idem.
  - rewrite replaceByte_append. change (replaceByte backslash path.sep "\\?\") with "//?/"%string. rewrite CutPrefix_append.
    assert (replaceByte backslash path.sep (String a (String ":" rest)) = String a (String ":" (replaceByte backslash path.sep rest))) as ->.
    { cbn [replaceByte]. destruct (Ascii.eqb_spec a backslash) as [->|]; [done|]. done. }
    assert (∀ t, strings.CutPrefix (String a (String ":" t)) "UNC/" = None) as ->.
    { intros t. destruct a as [[] [] [] [] [] [] [] []]; done. }
    assert (∀ t p, strings.CutPrefix (String a t) (String "/" p) = None) as H.
    { intros t q. cbn. destruct (Ascii.eqb_spec a "/") as [->|Hne]; [done|]. destruct a as [[] [] [] [] [] [] [] []]; done. }
    by rewrite !H.
  - rewrite !replaceByte_append. change (replaceByte backslash path.sep "\\?\UNC\") with "//?/UNC/"%string.
    change (replaceByte backslash path.sep "\\") with "//"%string. set (t := replaceByte backslash path.sep server) in *.
    change ("//?/UNC/" +:+ t) with ("//?/" +:+ ("UNC/" +:+ t)). rewrite !CutPrefix_append.
    assert (strings.CutPrefix ("//" +:+ t) "//?/" = None) as ->; [|by rewrite CutPrefix_append].
    cbn. rewrite HasPrefix_CutPrefix in Hs. apply bool_decide_eq_false in Hs. destruct (strings.CutPrefix t "?/") eqn:E; [|done]. destruct Hs. by eexists.
Qed.

(** ** Raising *)

Section raising.
Context {A : Type} (Max : A → A → A) (unset : A) (rank : A → Z).
Context (Max_right_comm : ∀ a x y, Max (Max a x) y = Max (Max a y) x).
Context (Max_left : ∀ a x, rank a ≤ rank (Max a x)) (Max_right : ∀ a x, rank x ≤ rank (Max a x)).
Context (Max_one : ∀ a x, Max a x = a ∨ Max a x = x).

Lemma foldl_Max_permutation l l' : l ≡ₚ l' → ∀ a, foldl Max a l = foldl Max a l'.
Proof.
  induction 1 as [|x l l' _ IH|x y l|l1 l2 l3 _ IH1 _ IH2]; intros a; cbn [foldl]; [done|apply IH|by rewrite Max_right_comm|]. by rewrite IH1.
Qed.

Lemma foldl_Max_bound l a x : x = a ∨ x ∈ l → rank x ≤ rank (foldl Max a l).
Proof.
  revert a x. induction l as [|y l IH]; intros a x; cbn [foldl]; [intros [->|[]%elem_of_nil]; lia|].
  intros [->|[->|Hx]%elem_of_cons].
  - etrans; [apply (Max_left a y)|]. apply IH. by left.
  - etrans; [apply (Max_right a y)|]. apply IH. by left.
  - apply IH. by right.
Qed.

Lemma foldl_Max_one l a : foldl Max a l = a ∨ foldl Max a l ∈ l.
Proof.
  revert a. induction l as [|y l IH]; intros a; cbn [foldl]; [by left|]. destruct (IH (Max a y)) as [E|E]; [|right; by right].
  rewrite E. destruct (Max_one a y) as [-> | ->]; [by left|right; left].
Qed.

End raising.

(** A share runs at the highest level any of its mounts asked for,
    whatever order they came in: each [Max] is the least upper bound of the two
    answers in the order off, partial, coarse (off, tree, eager), a mount that says
    nothing changes nothing, and so any order of any mounts gives one answer. *)
Theorem raised_in_any_order (ws ws' : list Watch) (ps ps' : list Prefetch) :
  ws ≡ₚ ws' → ps ≡ₚ ps' →
  foldl Watch_Max WatchUnset ws = foldl Watch_Max WatchUnset ws' ∧
  foldl Prefetch_Max PrefetchUnset ps = foldl Prefetch_Max PrefetchUnset ps' ∧
  (∀ w, w ∈ ws → watchRank w ≤ watchRank (foldl Watch_Max WatchUnset ws)) ∧
  (foldl Watch_Max WatchUnset ws = WatchUnset ∨ foldl Watch_Max WatchUnset ws ∈ ws) ∧
  (∀ p, p ∈ ps → prefetchRank p ≤ prefetchRank (foldl Prefetch_Max PrefetchUnset ps)) ∧
  (foldl Prefetch_Max PrefetchUnset ps = PrefetchUnset ∨ foldl Prefetch_Max PrefetchUnset ps ∈ ps).
Proof.
  intros Hw Hp.
  assert (∀ a x y, Watch_Max (Watch_Max a x) y = Watch_Max (Watch_Max a y) x) as W1 by (intros [] [] []; reflexivity).
  assert (∀ a x y, Prefetch_Max (Prefetch_Max a x) y = Prefetch_Max (Prefetch_Max a y) x) as P1 by (intros [] [] []; reflexivity).
  split_and!.
  - by apply foldl_Max_permutation.
  - by apply foldl_Max_permutation.
  - intros w Hin. apply foldl_Max_bound; [intros [] []; done|intros [] []; done|by right].
  - apply foldl_Max_one. intros [] []; auto.
  - intros p Hin. apply foldl_Max_bound; [intros [] []; done|intros [] []; done|by right].
  - apply foldl_Max_one. intros [] []; auto.
Qed.
