(* ===== verification/WatchTree.v ===== *)
(** * The watched directories (core-client/fswatch: path.go, tree.go)

    The tree holds no lock: one goroutine owns it, so each method is a definition
    from a tree to a tree.  The backend is the set of paths it watches; whether it
    takes a path, and what a directory holds when it is read, are answers of the
    moment, given to each call.  [strings.ToLower] and [strings.EqualFold] are
    arguments: they follow Unicode's tables.  [filepath] is that of a build for
    Unix, as the tests run it for every [goos]. *)

From S2P Require Import Prelude GoStrings Names Mounts.
Open Scope Z_scope.

(** ** path.go *)

Fixpoint ReplaceSlashes (s : string) : string :=
  match s with
  | EmptyString => ""
  | String a s' => String (if Ascii.eqb a backslash then path.sep else a) (ReplaceSlashes s')
  end.

Definition unprefixed (p : string) : string :=
  match strings.CutPrefix p "//?/" with
  | Some rest => match strings.CutPrefix rest "UNC/" with Some unc => "//" +:+ unc | None => rest end
  | None => p
  end.

Definition splitLocal (goos p : string) : list string :=
  let p := if bool_decide (goos = "windows"%string) then unprefixed (ReplaceSlashes p) else p in
  filter (λ part, part ≠ ""%string ∧ part ≠ "."%string) (strings.Split p path.sep).

Definition caseInsensitive (goos : string) : bool := bool_decide (goos = "windows"%string ∨ goos = "darwin"%string).

(** [filepath.Join(dir, name)] for a directory that is not empty. *)
Definition Join (dir name : string) : string := path.Clean (dir +:+ "/" +:+ name).

(** ** tree.go *)

Definition maxDeniedReported : Z := 16.

Record shareRoot := {
  sr_export : string;
  sr_local : string;
  sr_parts : list string;
  sr_mode : Watch;
  sr_only : string
}.

(** [fswatch.Share]. *)
Record Share := {
  sh_ExportPath : string;
  sh_LocalPath : string;
  sh_Mode : Watch;
  sh_File : string
}.

(** [fs.DirEntry], as far as the walk asks. *)
Record dirEntry := {
  de_Name : string;
  de_IsDir : bool;
  de_Symlink : bool
}.

Record tree := {
  wt_goos : string;
  wt_be : gset string;
  wt_budget : Z;
  wt_exclude : gset string;
  wt_roots : list shareRoot;
  wt_dirs : gmap string string;
  wt_denied : gmap string Z;
  wt_deniedN : Z;
  wt_excluded : Z
}.

Definition set_watches (be : gset string) (dirs : gmap string string) (t : tree) : tree :=
  {| wt_goos := wt_goos t; wt_be := be; wt_budget := wt_budget t; wt_exclude := wt_exclude t; wt_roots := wt_roots t;
     wt_dirs := dirs; wt_denied := wt_denied t; wt_deniedN := wt_deniedN t; wt_excluded := wt_excluded t |}.
Definition set_denied (denied : gmap string Z) (n : Z) (t : tree) : tree :=
  {| wt_goos := wt_goos t; wt_be := wt_be t; wt_budget := wt_budget t; wt_exclude := wt_exclude t; wt_roots := wt_roots t;
     wt_dirs := wt_dirs t; wt_denied := denied; wt_deniedN := n; wt_excluded := wt_excluded t |}.
Definition set_excluded (n : Z) (t : tree) : tree :=
  {| wt_goos := wt_goos t; wt_be := wt_be t; wt_budget := wt_budget t; wt_exclude := wt_exclude t; wt_roots := wt_roots t;
     wt_dirs := wt_dirs t; wt_denied := wt_denied t; wt_deniedN := wt_deniedN t; wt_excluded := n |}.
Definition set_roots (roots : list shareRoot) (t : tree) : tree :=
  {| wt_goos := wt_goos t; wt_be := wt_be t; wt_budget := wt_budget t; wt_exclude := wt_exclude t; wt_roots := roots;
     wt_dirs := wt_dirs t; wt_denied := wt_denied t; wt_deniedN := wt_deniedN t; wt_excluded := wt_excluded t |}.

(** [rootMatch]. *)
Record rootMatch := {
  rm_root : shareRoot;
  rm_rel : string
}.

Section fold.
Context (ToLower : string → string) (EqualFold : string → string → bool).

Definition foldEqual (goos a b : string) : bool :=
  if caseInsensitive goos then EqualFold a b else bool_decide (a = b).

(** The components of the root, each against that of the path. *)
Fixpoint prefixFold (goos : string) (rootParts parts : list string) : option (list string) :=
  match rootParts, parts with
  | [], rest => Some rest
  | want :: rootParts', part :: parts' => if foldEqual goos part want then prefixFold goos rootParts' parts' else None
  | _ :: _, [] => None
  end.

Definition relativeTo (goos : string) (rootParts : list string) (local : string) : option string :=
  match prefixFold goos rootParts (splitLocal goos local) with
  | None => None
  | Some [] => Some "/"%string
  | Some rest => Some ("/" +:+ strings.Join rest "/")
  end.

Definition newTree (goos : string) (be : gset string) (budget : Z) (exclude : list string) : tree :=
  {| wt_goos := goos; wt_be := be; wt_budget := budget; wt_exclude := list_to_set (ToLower <$> exclude); wt_roots := [];
     wt_dirs := ∅; wt_denied := ∅; wt_deniedN := 0; wt_excluded := 0 |}.

Definition dirKey (goos p : string) : string :=
  let joined := "/" +:+ strings.Join (splitLocal goos p) "/" in
  if caseInsensitive goos then ToLower joined else joined.

Definition matchRoot (t : tree) (local : string) (r : shareRoot) : option string :=
  match relativeTo (wt_goos t) (sr_parts r) local with
  | None => None
  | Some rel => if bool_decide (sr_only r ≠ ""%string ∧ rel ≠ "/" +:+ sr_only r) then None else Some rel
  end.

Definition deeper (t : tree) (local : string) (acc : nat * list rootMatch) (r : shareRoot) : nat * list rootMatch :=
  match matchRoot t local r with
  | None => acc
  | Some rel =>
      if bool_decide (acc.1 < length (sr_parts r))%nat then (length (sr_parts r), [{| rm_root := r; rm_rel := rel |}])
      else if bool_decide (length (sr_parts r) = acc.1) then (acc.1, (acc.2 ++ [{| rm_root := r; rm_rel := rel |}])%list)
      else acc
  end.

Definition rootsFor (t : tree) (local : string) : list rootMatch :=
  (foldl (deeper t local) (0%nat, []) (wt_roots t)).2.

(** [deny].  When several of the named directories enclose the refused one, the
    order of a Go map chooses whose count rises. *)
Definition encloses (key existing : string) : bool :=
  bool_decide (key = existing) || strings.HasPrefix key (existing +:+ "/").

Definition deny (dir : string) (t : tree) : tree :=
  let key := dirKey (wt_goos t) dir in
  let n := wt_deniedN t + 1 in
  match List.find (encloses key) (fst <$> map_to_list (wt_denied t)) with
  | Some existing => set_denied (alter (Z.add 1) existing (wt_denied t)) n t
  | None =>
      if maxDeniedReported <=? Z.of_nat (size (wt_denied t)) then set_denied (wt_denied t) n t
      else set_denied (<[key := 1]> (wt_denied t)) n t
  end.

Definition isExcluded (name : string) (t : tree) : bool * tree :=
  if bool_decide (ToLower name ∈ wt_exclude t) then (true, set_excluded (wt_excluded t + 1) t) else (false, t).

Definition watching (dir : string) (t : tree) : bool := bool_decide (is_Some (wt_dirs t !! dirKey (wt_goos t) dir)).

(** [covered] and [walkedAt]. *)
Definition covers (goos dir : string) (r : shareRoot) : bool :=
  match relativeTo goos (sr_parts r) dir with
  | Some _ => bool_decide (sr_only r = ""%string) || bool_decide (length (splitLocal goos dir) = length (sr_parts r))
  | None => false
  end.
Definition covered (dir : string) (t : tree) : bool := existsb (covers (wt_goos t) dir) (wt_roots t).

Definition walkedAt (parts : list string) (t : tree) : bool :=
  existsb (λ o, bool_decide (sr_only o = ""%string ∧ sr_parts o = parts)) (wt_roots t).

(** Dropping every watch that a test of its key and its path picks out, from the
    map and from the backend. *)
Definition dropWatches (gone : string → string → bool) (t : tree) : tree :=
  set_watches (foldl (λ be kv, be ∖ {[ kv.2 ]}) (wt_be t) (filter (λ kv, gone kv.1 kv.2 = true) (map_to_list (wt_dirs t))))
              (filter (λ kv, gone kv.1 kv.2 = false) (wt_dirs t)) t.

Definition removeTree (dir : string) (t : tree) : tree :=
  let key := dirKey (wt_goos t) dir in dropWatches (λ watched _, encloses watched key) t.

Definition unwatchUncovered (t : tree) : tree := dropWatches (λ _ p, negb (covered p t)) t.

Definition removeOne (dir : string) (t : tree) : tree :=
  set_watches (wt_be t ∖ {[ dir ]}) (delete (dirKey (wt_goos t) dir) (wt_dirs t)) t.

(** ** Walking *)

Context (AddOk : string → bool) (ReadDir : string → option (list dirEntry)).

Definition addOne (dir : string) (t : tree) : bool * tree :=
  let key := dirKey (wt_goos t) dir in
  if bool_decide (is_Some (wt_dirs t !! key)) then (true, t)
  else if wt_budget t <=? Z.of_nat (size (wt_dirs t)) then (false, deny dir t)
  else if negb (AddOk dir) then (false, t)
  else (true, set_watches (wt_be t ∪ {[ dir ]}) (<[key := dir]> (wt_dirs t)) t).

(** The entries of one directory: what is emitted for them, and which join the queue. *)
Definition enter (current : string) (acc : tree * list string) (e : dirEntry) : tree * list string :=
  if de_IsDir e && negb (de_Symlink e) then
    let '(skip, t) := isExcluded (de_Name e) acc.1 in
    if skip then (t, acc.2) else (t, (acc.2 ++ [Join current (de_Name e)])%list)
  else acc.

Definition visit (current : string) (t : tree) : tree * list string * list (string * bool) :=
  let '(ok, t) := addOne current t in
  if ok then
    match ReadDir current with
    | None => (t, [], [])
    | Some entries => (foldl (enter current) (t, []) entries, (λ e, (Join current (de_Name e), de_IsDir e)) <$> entries)
    end
  else (t, [], []).

(** The loop of [addTree]; [None] when the fuel is spent before the queue.
    [emitted] is what [emit] was called with. *)
Fixpoint walk (fuel : nat) (queue : list string) (t : tree) (emitted : list (string * bool)) : option (tree * list (string * bool)) :=
  match queue with
  | [] => Some (t, emitted)
  | current :: queue' =>
      match fuel with
      | O => None
      | S fuel' =>
          let '(t', children, out) := visit current t in
          walk fuel' (queue' ++ children)%list t' (emitted ++ out)%list
      end
  end.

Definition addTree (fuel : nat) (dir : string) (t : tree) : option (tree * list (string * bool)) := walk fuel [dir] t [].

(** ** [sync] *)

Definition wanted (shares : list Share) : gmap string Watch :=
  foldl (λ want s, if Watching (sh_Mode s) then <[sh_ExportPath s := sh_Mode s]> want else want) ∅ shares.

Definition follow (want : gmap string Watch) (r : shareRoot) : option shareRoot :=
  match want !! sr_export r with
  | Some mode => Some {| sr_export := sr_export r; sr_local := sr_local r; sr_parts := sr_parts r; sr_mode := mode; sr_only := sr_only r |}
  | None => None
  end.

Definition rootOf (goos : string) (s : Share) : shareRoot :=
  let local := if bool_decide (sh_File s ≠ ""%string) then path.Dir (sh_LocalPath s) else sh_LocalPath s in
  {| sr_export := sh_ExportPath s; sr_local := local; sr_parts := splitLocal goos local; sr_mode := sh_Mode s; sr_only := sh_File s |}.

Definition addRoot (fuel : nat) (want : gmap string Watch) (have : gset string) (t : tree) (s : Share) : option tree :=
  if bool_decide (want !! sh_ExportPath s = None ∨ sh_ExportPath s ∈ have) then Some t
  else
    let r := rootOf (wt_goos t) s in
    let shared := bool_decide (sr_only r = ""%string) && walkedAt (sr_parts r) t in
    let t := set_roots (wt_roots t ++ [r])%list t in
    if bool_decide (sr_only r ≠ ""%string) then Some (addOne (sr_local r) t).2
    else if shared then Some t
    else fst <$> addTree fuel (sr_local r) t.

Definition dropRoots (want : gmap string Watch) (t : tree) : tree :=
  let kept := omap (follow want) (wt_roots t) in
  let t' := set_roots kept t in
  if existsb (λ r, bool_decide (want !! sr_export r = None)) (wt_roots t) then unwatchUncovered t' else t'.

Definition sync (fuel : nat) (shares : list Share) (t : tree) : option tree :=
  let want := wanted shares in
  let t := dropRoots want t in
  let have := list_to_set (sr_export <$> wt_roots t) in
  foldl (λ ot s, t ← ot; addRoot fuel want have t s) (Some t) shares.

End fold.
