(* ===== verification/WatchTreeProofs.v ===== *)
(** * The watched directories: lemmas and theorems *)
From S2P Require Import Prelude GoStrings Names Mounts WatchTree.

Open Scope Z_scope.

(** ** Absolute paths as components *)

Definition abs (ws : list string) : string := "/" +:+ strings.Join ws "/".

(** A component as a directory lists it, on a system whose separator is a slash
    or, for windows, a backslash too. *)
Definition goodPart (goos w : string) : Prop :=
  plainPart w ∧ strings.Contains w path.sep = false ∧ (goos = "windows"%string → strings.Contains w backslash = false).

Definition absolute (goos p : string) : Prop := ∃ ws, Forall (goodPart goos) ws ∧ p = abs ws.

Lemma Split_abs ws : Forall (λ w, strings.Contains w path.sep = false) ws →
  strings.Split (abs ws) path.sep = ""%string :: match ws with [] => [""%string] | _ => ws end.
Proof.
  intros H. unfold abs. change ("/" +:+ strings.Join ws "/") with (String path.sep (strings.Join ws "/")).
  cbn [strings.Split]. rewrite Ascii.eqb_refl. f_equal. destruct ws as [|w ws]; [done|]. by apply Split_Join.
Qed.

Lemma ReplaceSlashes_id s : strings.Contains s backslash = false → ReplaceSlashes s = s.
Proof. induction s as [|a s IH]; cbn; [done|]. intros [-> H]%orb_false_iff. by rewrite IH by done. Qed.

Lemma Contains_Join ws sep c : strings.Contains sep c = false → Forall (λ w, strings.Contains w c = false) ws → strings.Contains (strings.Join ws sep) c = false.
Proof.
  intros Hs. induction 1 as [|w ws Hw Hws IH]; [done|]. destruct ws as [|w' ws]; [done|].
  rewrite Join_cons by done. by rewrite !Contains_append, Hw, Hs, IH by done.
Qed.

Lemma unprefixed_abs goos ws : Forall (goodPart goos) ws → unprefixed (abs ws) = abs ws.
Proof.
  intros H. unfold unprefixed, abs. destruct (strings.CutPrefix _ _) as [rest|] eqn:E; [|done].
  apply CutPrefix_Some in E. change ("//?/" +:+ rest)%string with ("/" +:+ ("/?/" +:+ rest))%string in E.
  apply append_inj_l in E. destruct H as [|w ws ((Hw & _) & Hs & _) H]; [done|].
  destruct w as [|a w]; [done|]. cbn in Hs. apply orb_false_iff in Hs as [Hs _].
  destruct ws; cbn in E; injection E as -> _; by rewrite Ascii.eqb_refl in Hs.
Qed.

Lemma splitLocal_abs goos ws : Forall (goodPart goos) ws → splitLocal goos (abs ws) = ws.
Proof.
  intros H. unfold splitLocal.
  assert ((if bool_decide (goos = "windows"%string) then unprefixed (ReplaceSlashes (abs ws)) else abs ws) = abs ws) as ->.
  { case_bool_decide as Hg; [|done]. rewrite ReplaceSlashes_id; [by eapply unprefixed_abs|].
    unfold abs. rewrite Contains_append. apply Contains_Join; [done|]. eapply Forall_impl; [exact H|]. intros w (_ & _ & Hb). auto. }
  rewrite Split_abs by (eapply Forall_impl; [exact H|]; by intros w (_ & Hs & _)).
  assert (filter (λ part, part ≠ ""%string ∧ part ≠ "."%string) ws = ws) as E.
  { clear -H. induction H as [|w ws ((H1 & H2 & _) & _) _ IH]; [done|]. by rewrite filter_cons_True, IH. }
  destruct ws as [|w ws]; [done|]. rewrite filter_cons_False by naive_solver. done.
Qed.

Lemma goodPart_plain goos ws : Forall (goodPart goos) ws → Forall plainPart ws.
Proof. intros H. eapply Forall_impl; [exact H|]. by intros w (Hw & _). Qed.

Lemma Join_abs goos ws n : Forall (goodPart goos) ws → goodPart goos n → Join (abs ws) n = abs (ws ++ [n]).
Proof.
  intros H Hn. unfold Join, abs. rewrite append_assoc, Clean_rooted. f_equal.
  assert (Forall (goodPart goos) (ws ++ [n])) as Ha by (by apply Forall_app; split; [|constructor]).
  destruct ws as [|w ws].
  - cbn [strings.Join]. change ("" +:+ "/" +:+ n) with (String path.sep n). cbn [strings.Split]. rewrite Ascii.eqb_refl.
    rewrite Split_no_Contains by apply Hn. change (path.clean_parts true [] [""%string; n]) with (path.clean_parts true [] [n]).
    rewrite clean_parts_plain; [done|]. by apply (goodPart_plain goos).
  - rewrite <- Join_snoc by done. rewrite Split_Join; [|done|].
    + by rewrite clean_parts_plain by (by apply (goodPart_plain goos)).
    + eapply Forall_impl; [exact Ha|]. by intros ? (_ & ? & _).
Qed.

Lemma absolute_Join goos p n : absolute goos p → goodPart goos n → absolute goos (Join p n).
Proof. intros (ws & H & ->) Hn. exists (ws ++ [n])%list. rewrite (Join_abs goos) by done. split; [|done]. by apply Forall_app; split; [|constructor]. Qed.

Lemma splitLocal_Join goos p n : absolute goos p → goodPart goos n → splitLocal goos (Join p n) = (splitLocal goos p ++ [n])%list.
Proof.
  intros (ws & H & ->) Hn. rewrite (Join_abs goos) by done. rewrite !splitLocal_abs; [done|done|]. by apply Forall_app; split; [|constructor].
Qed.

(** ** Which shares an event belongs to *)

Section roots.
Context (EqualFold : string → string → bool).

Definition matched (t : tree) (local : string) (r : shareRoot) : option rootMatch :=
  (λ rel, {| rm_root := r; rm_rel := rel |}) <$> matchRoot EqualFold t local r.

Definition depth (m : rootMatch) : nat := length (sr_parts (rm_root m)).
Definition deepest (ms : list rootMatch) : nat := list_max (depth <$> ms).

Lemma depth_le_deepest m ms : m ∈ ms → (depth m ≤ deepest ms)%nat.
Proof.
  intros H. assert (Forall (λ k, k ≤ deepest ms)%nat (depth <$> ms)) as Hf by (by apply list_max_le).
  rewrite Forall_fmap, Forall_forall in Hf. exact (Hf m H).
Qed.

(** The reference: the matches, and of them those at the greatest depth. *)
Definition deepestMatches (t : tree) (local : string) (roots : list shareRoot) : list rootMatch :=
  let ms := omap (matched t local) roots in filter (λ m, depth m = deepest ms) ms.

Lemma deeper_fold t local roots :
  foldl (deeper EqualFold t local) (0%nat, []) roots = (deepest (omap (matched t local) roots), deepestMatches t local roots).
Proof.
  induction roots as [|r roots IH] using rev_ind; [done|].
  rewrite foldl_app, IH. cbn [foldl]. unfold deeper, deepestMatches. rewrite omap_app.
  assert (omap (matched t local) [r] = match matchRoot EqualFold t local r with Some rel => [{| rm_root := r; rm_rel := rel |}] | None => [] end) as ->.
  { cbn. unfold matched. by destruct (matchRoot EqualFold t local r). }
  destruct (matchRoot EqualFold t local r) as [rel|]; [|by rewrite app_nil_r].
  set (ms := omap (matched t local) roots). set (m := {| rm_root := r; rm_rel := rel |}).
  assert (deepest (ms ++ [m]) = deepest ms `max` depth m)%nat as Hd.
  { unfold deepest. rewrite fmap_app, list_max_app. cbn. lia. }
  rewrite Hd, filter_app. cbn [fst snd]. change (length (sr_parts r)) with (depth m). case_bool_decide as H1; [|case_bool_decide as H2].
  - replace (deepest ms `max` depth m)%nat with (depth m) by lia. f_equal. rewrite filter_none, filter_cons_True; [done|done|].
    intros m' Hm' E. pose proof (depth_le_deepest m' ms Hm'). lia.
  - replace (deepest ms `max` depth m)%nat with (deepest ms) by lia. by rewrite filter_cons_True.
  - replace (deepest ms `max` depth m)%nat with (deepest ms) by lia. by rewrite filter_cons_False, app_nil_r.
Qed.

Lemma rootsFor_reference t local : rootsFor EqualFold t local = deepestMatches t local (wt_roots t).
Proof. unfold rootsFor. by rewrite deeper_fold. Qed.

Lemma elem_of_matches t local (roots : list shareRoot) m :
  m ∈ omap (matched t local) roots ↔ rm_root m ∈ roots ∧ matchRoot EqualFold t local (rm_root m) = Some (rm_rel m).
Proof.
  rewrite list_elem_of_omap. unfold matched. split.
  - intros (r & Hr & (rel & E & ->)%fmap_Some). done.
  - destruct m as [r rel]. intros [Hr E]. exists r. cbn in *. by rewrite E.
Qed.

(** An event goes to the roots that match it at the greatest depth, all of
    them and no other, whatever the order they were registered in. *)
Theorem deepest_root_wins t t' local :
  (∀ m, m ∈ rootsFor EqualFold t local ↔
     rm_root m ∈ wt_roots t ∧ matchRoot EqualFold t local (rm_root m) = Some (rm_rel m) ∧
     ∀ r, r ∈ wt_roots t → is_Some (matchRoot EqualFold t local r) → (length (sr_parts r) ≤ length (sr_parts (rm_root m)))%nat) ∧
  (wt_goos t' = wt_goos t → wt_roots t' ≡ₚ wt_roots t → rootsFor EqualFold t' local ≡ₚ rootsFor EqualFold t local).
Proof.
  split.
  - intros m. rewrite rootsFor_reference. unfold deepestMatches. rewrite list_elem_of_filter, elem_of_matches. split.
    + intros (Hd & Hr & Hm). split_and!; [done|done|]. intros r Hr' [rel E]. change (length (sr_parts (rm_root m))) with (depth m). rewrite Hd.
      apply (depth_le_deepest {| rm_root := r; rm_rel := rel |}). by apply elem_of_matches.
    + intros (Hr & Hm & Hmax). split; [|done]. apply Nat.le_antisymm; [apply depth_le_deepest; by apply elem_of_matches|].
      apply list_max_le. rewrite Forall_fmap. apply Forall_forall. intros m' [Hr' Hm']%elem_of_matches. apply Hmax; eauto.
  - intros Hg Hp. rewrite !rootsFor_reference. unfold deepestMatches.
    assert (∀ r, matched t' local r = matched t local r) as Hsame by (intros r; unfold matched, matchRoot; by rewrite Hg).
    assert (omap (matched t' local) (wt_roots t') ≡ₚ omap (matched t local) (wt_roots t)) as Hms.
    { rewrite (list_omap_ext _ (matched t local) _ (wt_roots t')) by (by apply Forall_Forall2_diag, Forall_forall; intros; apply Hsame). by rewrite Hp. }
    assert (deepest (omap (matched t' local) (wt_roots t')) = deepest (omap (matched t local) (wt_roots t))) as ->.
    { apply Nat.le_antisymm; apply list_max_le; rewrite Forall_fmap; apply Forall_forall; intros m Hm; apply depth_le_deepest; by rewrite Hms in * || by rewrite <- Hms in *. }
    by rewrite Hms.
Qed.

End roots.

(** ** Watches stay within the shares, and none is lost track of *)

Section watches.
Context (ToLower : string → string) (EqualFold : string → string → bool) (goos : string).

Definition under (roots : list shareRoot) (p : string) : Prop :=
  ∃ r, r ∈ roots ∧ is_Some (relativeTo EqualFold goos (sr_parts r) p).

Lemma relativeTo_prefix parts p : is_Some (relativeTo EqualFold goos parts p) ↔ is_Some (prefixFold EqualFold goos parts (splitLocal goos p)).
Proof. unfold relativeTo. destruct (prefixFold _ _ _ _) as [[|w rest]|]; naive_solver. Qed.

Lemma prefixFold_app parts ws more rest :
  prefixFold EqualFold goos parts ws = Some rest → prefixFold EqualFold goos parts (ws ++ more) = Some (rest ++ more)%list.
Proof.
  revert ws. induction parts as [|w parts IH]; intros ws; [by intros [= ->]|].
  destruct ws as [|v ws]; [done|]. cbn. destruct (foldEqual _ _ _ _); [apply IH|done].
Qed.

Lemma under_Join roots p n : absolute goos p → goodPart goos n → under roots p → under roots (Join p n).
Proof.
  intros Hp Hn (r & Hr & [rest H]%relativeTo_prefix). exists r. split; [done|]. apply relativeTo_prefix.
  rewrite splitLocal_Join by done. eexists. by apply prefixFold_app.
Qed.

Lemma relativeTo_self p : (∀ s, EqualFold s s = true) → is_Some (relativeTo EqualFold goos (splitLocal goos p) p).
Proof.
  intros Hfold. apply relativeTo_prefix. induction (splitLocal goos p) as [|w ws IH]; cbn; [by eexists|].
  unfold foldEqual at 1. rewrite Hfold, bool_decide_eq_true_2 by done. by destruct (caseInsensitive goos).
Qed.

Abbreviation key := (dirKey ToLower goos).

(** The record of the watches is exact, and keeps the budget. *)
Record kept (t : tree) : Prop := {
  kp_goos : wt_goos t = goos;
  kp_keys : ∀ k p, wt_dirs t !! k = Some p → key p = k ∧ absolute goos p;
  kp_be : ∀ p, p ∈ wt_be t → wt_dirs t !! key p = Some p;
  kp_size : Z.of_nat (size (wt_dirs t)) ≤ Z.max 0 (wt_budget t)
}.
Definition within (t : tree) : Prop := ∀ k p, wt_dirs t !! k = Some p → under (wt_roots t) p.

(** What a walk leaves as it is. *)
Definition same_config (t t' : tree) : Prop :=
  wt_goos t' = wt_goos t ∧ wt_budget t' = wt_budget t ∧ wt_exclude t' = wt_exclude t ∧ wt_roots t' = wt_roots t.

#[local] Instance same_config_refl : Reflexive same_config.
Proof. done. Qed.
#[local] Instance same_config_trans : Transitive same_config.
Proof. unfold same_config. intros a b c (?&?&?&?) (?&?&?&?). split_and!; congruence. Qed.

Lemma deny_frame dir t : same_config t (deny ToLower dir t) ∧ wt_dirs (deny ToLower dir t) = wt_dirs t ∧ wt_be (deny ToLower dir t) = wt_be t ∧
  wt_deniedN (deny ToLower dir t) = wt_deniedN t + 1.
Proof. unfold deny. destruct (List.find _ _); [done|]. by destruct (_ <=? _). Qed.

Lemma isExcluded_frame n t x t' : isExcluded ToLower n t = (x, t') →
  same_config t t' ∧ wt_dirs t' = wt_dirs t ∧ wt_be t' = wt_be t ∧ wt_deniedN t' = wt_deniedN t ∧ x = bool_decide (ToLower n ∈ wt_exclude t).
Proof. unfold isExcluded. case_bool_decide; by intros [= <- <-]. Qed.

Lemma kept_frame t t' : same_config t t' → wt_dirs t' = wt_dirs t → wt_be t' = wt_be t → kept t → kept t'.
Proof. intros (Hg & Hb & _) Hd He []. constructor; rewrite ?Hg, ?Hd, ?He, ?Hb; done. Qed.

Lemma within_frame t t' : same_config t t' → wt_dirs t' = wt_dirs t → within t → within t'.
Proof. intros (_ & _ & _ & Hr) Hd H. unfold within. by rewrite Hr, Hd. Qed.

Lemma elem_of_dropped (be : gset string) (l : list (string * string)) p :
  p ∈ foldl (λ be kv, be ∖ {[ kv.2 ]}) be l ↔ p ∈ be ∧ p ∉ l.*2.
Proof. revert be. induction l as [|[k q] l IH]; intros be; cbn; [set_solver|]. rewrite IH. set_solver. Qed.

Lemma dropWatches_kept gone t : kept t → kept (dropWatches gone t).
Proof.
  intros [Hg Hk Hb Hs]. unfold dropWatches. constructor; cbn; [done| | |].
  - intros k p [H _]%map_lookup_filter_Some. by apply Hk.
  - intros p [Hp Hn]%elem_of_dropped. apply map_lookup_filter_Some. split; [by apply Hb|]. cbn.
    destruct (gone (key p) p) eqn:E; [|done]. destruct Hn. apply list_elem_of_fmap. exists (key p, p). split; [done|].
    apply list_elem_of_filter. split; [done|]. apply elem_of_map_to_list. by apply Hb.
  - etrans; [|exact Hs]. apply inj_le, map_subseteq_size, map_filter_subseteq.
Qed.

Lemma dropWatches_within gone t : within t → within (dropWatches gone t).
Proof. intros H k p [Hp _]%map_lookup_filter_Some. by eapply H. Qed.

Lemma covered_under t p : wt_goos t = goos → covered EqualFold p t = true → under (wt_roots t) p.
Proof.
  intros Hg (r & Hr & Hc)%existsb_exists. exists r. split; [by apply list_elem_of_In|]. unfold covers in Hc. rewrite Hg in Hc.
  by destruct (relativeTo _ _ _ _).
Qed.

Lemma unwatchUncovered_within t : kept t → within (unwatchUncovered EqualFold t).
Proof.
  intros Hk k p [_ Hc]%map_lookup_filter_Some. cbn in Hc. apply negb_false_iff in Hc. by apply covered_under in Hc; [|by apply kp_goos].
Qed.

Lemma dropRoots_inv want t : kept t → within t → kept (dropRoots EqualFold want t) ∧ within (dropRoots EqualFold want t).
Proof.
  intros Hk Hw. unfold dropRoots. destruct (existsb _ _) eqn:E.
  - assert (kept (set_roots (omap (follow want) (wt_roots t)) t)) as H by (by destruct Hk). split; [by apply dropWatches_kept|by apply unwatchUncovered_within].
  - split; [by destruct Hk|]. intros k p Hp. destruct (Hw k p Hp) as (r & Hr & Hu). cbn.
    destruct (want !! sr_export r) as [mode|] eqn:Ew.
    + eexists. split; [apply list_elem_of_omap; exists r; split; [done|]; unfold follow; by rewrite Ew|done].
    + exfalso. rewrite <- not_true_iff_false in E. apply E, existsb_exists. exists r. split; [by apply list_elem_of_In|]. by apply bool_decide_eq_true_2.
Qed.

Lemma removeOne_kept dir t : (∀ p, p ∈ wt_be t → key p = key dir → p = dir) → kept t → kept (removeOne ToLower dir t).
Proof.
  intros Hsp [Hg Hk Hb Hs]. unfold removeOne. rewrite Hg. constructor; cbn; [done| | |].
  - intros k p [_ H]%lookup_delete_Some. by apply Hk.
  - intros p [Hp Hne]%elem_of_difference. rewrite elem_of_singleton in Hne. apply lookup_delete_Some. split; [|by apply Hb].
    intros E. apply Hne. by apply Hsp.
  - etrans; [|exact Hs]. apply inj_le, map_subseteq_size, delete_subseteq.
Qed.

Lemma removeOne_within dir t : within t → within (removeOne ToLower dir t).
Proof. intros H k p Hp. cbn in Hp. apply lookup_delete_Some in Hp as [_ Hp]. by eapply H. Qed.

(** *** Walking *)

Context (AddOk : string → bool) (ReadDir : string → option (list dirEntry)).

Abbreviation addOne := (addOne ToLower AddOk).
Abbreviation visit := (visit ToLower AddOk ReadDir).
Abbreviation walk := (walk ToLower AddOk ReadDir).

Lemma addOne_cases dir t ok t' : addOne dir t = (ok, t') →
  same_config t t' ∧
  ((ok = true ∧ t' = t ∧ is_Some (wt_dirs t !! dirKey ToLower (wt_goos t) dir)) ∨
   (ok = true ∧ AddOk dir = true ∧ wt_dirs t !! dirKey ToLower (wt_goos t) dir = None ∧ Z.of_nat (size (wt_dirs t)) < wt_budget t ∧
      t' = set_watches (wt_be t ∪ {[ dir ]}) (<[dirKey ToLower (wt_goos t) dir := dir]> (wt_dirs t)) t) ∨
   (ok = false ∧ wt_budget t ≤ Z.of_nat (size (wt_dirs t)) ∧ t' = deny ToLower dir t) ∨
   (ok = false ∧ AddOk dir = false ∧ t' = t)).
Proof.
  unfold WatchTree.addOne. case_bool_decide as Hd; [intros [= <- <-]; split; [done|left; auto]|]. apply eq_None_not_Some in Hd.
  destruct (Z.leb_spec (wt_budget t) (Z.of_nat (size (wt_dirs t)))); [intros [= <- <-]; split; [by apply deny_frame|by right; right; left]|].
  destruct (AddOk dir) eqn:Ha; intros [= <- <-]; (split; [done|]); [right; left; by split_and!|right; right; by right].
Qed.

Lemma addOne_kept dir t ok t' : addOne dir t = (ok, t') → absolute goos dir → kept t → kept t'.
Proof.
  intros E Habs Hk. apply addOne_cases in E as [Hc [(_ & -> & _)|[(_ & _ & Hn & Hlt & ->)|[(_ & _ & ->)|(_ & _ & ->)]]]]; [done| |by eapply kept_frame; [apply deny_frame..|]|done].
  destruct Hk as [Hg Hk Hb Hs]. rewrite Hg in *. constructor; cbn; [done| | |].
  - intros k p [[<- <-]|[_ H]]%lookup_insert_Some; [done|by apply Hk].
  - intros p [Hp| ->%elem_of_singleton]%elem_of_union; [|by rewrite lookup_insert_eq].
    rewrite lookup_insert_ne; [by apply Hb|]. intros E. specialize (Hb p Hp). rewrite <- E in Hb. congruence.
  - rewrite map_size_insert_None by done. lia.
Qed.

Lemma addOne_within dir t ok t' : addOne dir t = (ok, t') → under (wt_roots t) dir → within t → within t'.
Proof.
  intros E Hu Hw. apply addOne_cases in E as [Hc [(_ & -> & _)|[(_ & _ & _ & _ & ->)|[(_ & _ & ->)|(_ & _ & ->)]]]]; [done| |by eapply within_frame; [apply deny_frame..|]|done].
  intros k p H. cbn in H. apply lookup_insert_Some in H as [[_ <-]|[_ H]]; [done|by eapply Hw].
Qed.

(** What one visit does besides [addOne]: it counts what it excludes and queues
    children of its directory. *)
Lemma enter_fold current es t q t' q' : foldl (enter ToLower current) (t, q) es = (t', q') →
  same_config t t' ∧ wt_dirs t' = wt_dirs t ∧ wt_be t' = wt_be t ∧ wt_deniedN t' = wt_deniedN t ∧
  ∀ p, p ∈ q' ↔ p ∈ q ∨ ∃ e, e ∈ es ∧ de_IsDir e = true ∧ de_Symlink e = false ∧ ToLower (de_Name e) ∉ wt_exclude t ∧ p = Join current (de_Name e).
Proof using Type.
  clear EqualFold goos AddOk ReadDir. revert t q. induction es as [|e es IH]; intros t q; cbn [foldl].
  { intros [= <- <-]. split_and!; try done. intros p. split; [auto|]. intros [?|(e & He & _)]; [done|by apply elem_of_nil in He]. }
  unfold enter at 2. destruct (de_IsDir e && negb (de_Symlink e)) eqn:Ed.
  - apply andb_true_iff in Ed as [Ed Es%negb_true_iff]. cbn [fst snd]. destruct (isExcluded ToLower (de_Name e) t) as [x t1] eqn:Ex.
    apply isExcluded_frame in Ex as (Hc1 & Hd1 & Hb1 & Hn1 & Hx). destruct x.
    + intros (Hc & Hd & Hb & Hn & Hq)%IH. split_and!; [by etrans|congruence..|].
      intros p. rewrite Hq. destruct Hc1 as (_ & _ & -> & _). symmetry in Hx. apply bool_decide_eq_true in Hx. setoid_rewrite elem_of_cons. naive_solver.
    + intros (Hc & Hd & Hb & Hn & Hq)%IH. split_and!; [by etrans|congruence..|].
      intros p. rewrite Hq, elem_of_app, list_elem_of_singleton. destruct Hc1 as (_ & _ & -> & _). symmetry in Hx. apply bool_decide_eq_false in Hx.
      setoid_rewrite elem_of_cons. naive_solver.
  - intros (Hc & Hd & Hb & Hn & Hq)%IH. split_and!; try done; try apply Hc. intros p. rewrite Hq. setoid_rewrite elem_of_cons.
    split; [naive_solver|]. intros [?|(e' & [->|He] & H1 & H2 & H3)]; [auto| |naive_solver]. by rewrite H1, H2 in Ed.
Qed.

Definition childOf (ex : gset string) (current p : string) : Prop :=
  ∃ es e, ReadDir current = Some es ∧ e ∈ es ∧ de_IsDir e = true ∧ de_Symlink e = false ∧ ToLower (de_Name e) ∉ ex ∧ p = Join current (de_Name e).

Lemma watch_visit_spec current t t' ch out : visit current t = (t', ch, out) →
  ∃ ok t1, addOne current t = (ok, t1) ∧ same_config t t' ∧ wt_dirs t' = wt_dirs t1 ∧ wt_be t' = wt_be t1 ∧ wt_deniedN t' = wt_deniedN t1 ∧
    ∀ p, p ∈ ch ↔ ok = true ∧ childOf (wt_exclude t) current p.
Proof using Type.
  clear EqualFold goos. unfold WatchTree.visit. destruct (addOne current t) as [ok t1] eqn:Ea. pose proof (addOne_cases _ _ _ _ Ea) as [Hc _]. intros H. exists ok, t1. split; [done|]. revert H.
  destruct ok; [destruct (ReadDir current) as [es|] eqn:Er|].
  - destruct (foldl _ _ es) as [t2 q] eqn:Ef. apply enter_fold in Ef as (Hc2 & Hd & Hb & Hn & Hq). intros [= <- <- _].
    split_and!; [by etrans|done..|]. intros p. rewrite Hq, elem_of_nil. unfold childOf. rewrite Er. destruct Hc as (_ & _ & -> & _). naive_solver.
  - intros [= <- <- _]. split_and!; try done. intros p. rewrite elem_of_nil. unfold childOf. rewrite Er. naive_solver.
  - intros [= <- <- _]. split_and!; try done. intros p. rewrite elem_of_nil. naive_solver.
Qed.

Hypothesis Hnames : ∀ d es e, ReadDir d = Some es → e ∈ es → goodPart goos (de_Name e).

Lemma childOf_good ex current p : childOf ex current p → absolute goos current → ∃ n, goodPart goos n ∧ p = Join current n.
Proof using Hnames. intros (es & e & Hr & He & _ & _ & _ & ->) Ha. exists (de_Name e). split; [by eapply Hnames|done]. Qed.

(** Whatever each visit keeps, a walk keeps. *)
Lemma walk_ind (I : tree → Prop) (Q : string → Prop) :
  (∀ current t t' ch out, visit current t = (t', ch, out) → Q current → I t → I t' ∧ Forall Q ch) →
  ∀ fuel queue t em t' em', walk fuel queue t em = Some (t', em') → Forall Q queue → I t → I t'.
Proof using Type.
  clear Hnames. intros Hv fuel. induction fuel as [|fuel IH]; intros [|current queue] t em t' em'; cbn; [by intros [= <- <-]|done|by intros [= <- <-]|].
  destruct (visit current t) as [[t1 ch] out] eqn:Ev. intros Hw [Hq Hqs]%Forall_cons Hi. destruct (Hv _ _ _ _ _ Ev Hq Hi) as [Hi1 Hch].
  eapply IH; [exact Hw|by apply Forall_app|done].
Qed.

Definition watchable (t : tree) (p : string) : Prop := absolute goos p ∧ under (wt_roots t) p.

Lemma walk_kept fuel queue t em t' em' : walk fuel queue t em = Some (t', em') → Forall (watchable t) queue → kept t → within t →
  kept t' ∧ within t' ∧ same_config t t'.
Proof using Hnames.
  intros Hw Hq Hk Hi. refine (walk_ind (λ u, kept u ∧ within u ∧ same_config t u) (watchable t) _ _ _ _ _ _ _ Hw Hq _); [|done].
  clear -Hnames. intros current u u' ch out (ok & u1 & Ha & Hc1 & Hd & Hb & Hn & Hch)%watch_visit_spec [Habs Hu] (Hk & Hi & Hc).
  assert (under (wt_roots u) current) as Hu' by (by destruct Hc as (_ & _ & _ & ->)).
  pose proof (addOne_kept _ _ _ _ Ha Habs Hk) as Hk1. pose proof (addOne_within _ _ _ _ Ha Hu' Hi) as Hi1.
  pose proof (addOne_cases _ _ _ _ Ha) as [Hca _].
  assert (same_config u1 u') as Hcb by (unfold same_config in *; destruct Hca as (?&?&?&?), Hc1 as (?&?&?&?); split_and!; congruence).
  split_and!; [by eapply kept_frame|by eapply within_frame|by etrans|]. apply Forall_forall. intros p [_ Hp]%Hch.
  destruct (childOf_good _ _ _ Hp Habs) as (n & Hgood & ->). split; [by apply absolute_Join|by apply under_Join].
Qed.

Lemma addRoot_inv fuel want have t s t' : addRoot ToLower AddOk ReadDir fuel want have t s = Some t' →
  (∀ s, EqualFold s s = true) → absolute goos (sr_local (rootOf goos s)) → kept t → within t → kept t' ∧ within t'.
Proof using Hnames.
  intros E Hfold Habs Hk Hw. unfold addRoot in E. case_bool_decide; [by injection E as <-|]. rewrite (kp_goos _ Hk) in E.
  set (r := rootOf goos s) in *. set (t1 := set_roots (wt_roots t ++ [r])%list t) in *.
  assert (kept t1) as Hk1 by (by destruct Hk).
  assert (within t1) as Hw1.
  { intros k p Hp. destruct (Hw k p Hp) as (r' & Hr' & Hu). exists r'. split; [cbn; by apply elem_of_app; left|done]. }
  assert (under (wt_roots t1) (sr_local r)) as Hu.
  { exists r. split; [cbn; apply elem_of_app; right; by left|]. by apply relativeTo_self. }
  case_bool_decide.
  - apply (inj Some) in E as <-. destruct (addOne (sr_local r) t1) as [ok t2] eqn:Ea. cbn [snd]. split; [exact (addOne_kept _ _ _ _ Ea Habs Hk1)|exact (addOne_within _ _ _ _ Ea Hu Hw1)].
  - destruct (_ && _); [by injection E as <-|]. apply fmap_Some in E as ([t2 em] & Hwalk & ->). unfold addTree in Hwalk.
    destruct (walk_kept _ _ _ _ _ _ Hwalk) as (? & ? & _); [apply Forall_singleton; split; done|done|done|done].
Qed.

Lemma sync_inv fuel shares t t' : sync ToLower EqualFold AddOk ReadDir fuel shares t = Some t' →
  (∀ s, EqualFold s s = true) → Forall (λ s, absolute goos (sr_local (rootOf goos s))) shares → kept t → within t → kept t' ∧ within t'.
Proof using Hnames.
  intros E Hfold Hs Hk Hw. unfold sync in E. destruct (dropRoots_inv (wanted shares) t Hk Hw) as [Hk1 Hw1].
  revert E Hk1 Hw1. generalize (wanted shares), (dropRoots EqualFold (wanted shares) t). intros want u.
  generalize (list_to_set (sr_export <$> wt_roots u) : gset string). intros have. revert u.
  induction Hs as [|s shares Hs _ IH]; intros u; cbn; [by intros [= <-]|].
  destruct (addRoot _ _ _ _ _ _ u s) as [u1|] eqn:Ea.
  - intros E Hk1 Hw1. destruct (addRoot_inv _ _ _ _ _ _ Ea Hfold Hs Hk1 Hw1). eauto.
  - intros E. exfalso. clear -E. induction shares as [|s' shares IH]; [done|]. auto.
Qed.
End watches.

(** * The breadth-first walk of the watched tree

    The queue is taken apart into levels: everything at one depth is visited before
    anything below it.  From this follow that the walk ends, that it leaves nothing
    out unless the budget refuses, and that what the budget refuses is deepest. *)

Open Scope Z_scope.

Section levels.
Context (ToLower : string → string) (AddOk : string → bool) (ReadDir : string → option (list dirEntry)).
Context (goos : string) (ex : gset string).

Abbreviation key := (dirKey ToLower goos).
Abbreviation visit := (visit ToLower AddOk ReadDir).
Abbreviation walk := (walk ToLower AddOk ReadDir).
Abbreviation childOf := (childOf ToLower ReadDir ex).

Definition full (t : tree) : Prop := wt_budget t ≤ Z.of_nat (size (wt_dirs t)).

(** What visiting [items] did from [t] to [t'], with the children it queued. *)
Record visited (items : list string) (t t' : tree) (ch : list string) : Prop := {
  vs_config : same_config t t';
  vs_grows : wt_dirs t ⊆ wt_dirs t';
  vs_denied : wt_deniedN t ≤ wt_deniedN t';
  vs_full : full t → wt_dirs t' = wt_dirs t;
  vs_refused : wt_deniedN t < wt_deniedN t' → full t';
  vs_new : ∀ k p, wt_dirs t' !! k = Some p → wt_dirs t !! k = Some p ∨ p ∈ items;
  vs_children : ∀ p, p ∈ ch → ∃ c, c ∈ items ∧ childOf c p ∧ is_Some (wt_dirs t' !! key c);
  vs_complete : wt_deniedN t' = wt_deniedN t → ∀ c, c ∈ items → AddOk c = true →
    is_Some (wt_dirs t' !! key c) ∧ ∀ p, childOf c p → p ∈ ch;
  vs_size : Z.of_nat (size (wt_dirs t')) ≤ Z.max (Z.of_nat (size (wt_dirs t))) (wt_budget t)
}.

Lemma visit_visited c t t' ch out : wt_goos t = goos → wt_exclude t = ex → visit c t = (t', ch, out) → visited [c] t t' ch.
Proof.
  intros Hg He (ok & t1 & Ha & Hc & Hd & _ & Hn & Hch)%watch_visit_spec. rewrite He in Hch. apply addOne_cases in Ha as [Hca Ha]. rewrite Hg in Ha.
  assert (wt_budget t' = wt_budget t) as Hb by apply Hc. unfold full.
  destruct Ha as [(-> & -> & Hin)|[(-> & Hadd & Hno & Hlt & ->)|[(-> & Hfull & ->)|(-> & Hadd & ->)]]].
  - constructor; unfold full; rewrite ?Hd, ?Hn, ?Hb; try done; try lia; [auto| |].
    + intros p [_ Hp]%Hch. exists c. by split_and!; [left|..].
    + intros _ c' ->%list_elem_of_singleton _. split; [done|]. intros p Hp. by apply Hch.
  - cbn in Hd, Hn. constructor; unfold full; rewrite ?Hd, ?Hn, ?Hb; try done; try lia.
    + by apply insert_subseteq.
    + intros k p [[_ <-]|[_ H]]%lookup_insert_Some; [right; by left|by left].
    + intros p [_ Hp]%Hch. exists c. split_and!; [by left|done|by rewrite lookup_insert_eq].
    + intros _ c' ->%list_elem_of_singleton _. split; [by rewrite lookup_insert_eq|]. intros p Hp. by apply Hch.
    + rewrite map_size_insert_None by done. lia.
  - destruct (deny_frame ToLower c t) as (_ & Hd' & _ & Hn'). rewrite Hd' in Hd. rewrite Hn' in Hn.
    constructor; unfold full; rewrite ?Hd, ?Hn, ?Hb; try done; try lia; [auto|]. intros p [? _]%Hch. done.
  - constructor; unfold full; rewrite ?Hd, ?Hn, ?Hb; try done; try lia; [auto| |].
    + intros p [? _]%Hch. done.
    + intros _ c' ->%list_elem_of_singleton ?. congruence.
Qed.

Lemma visited_nil t : visited [] t t [].
Proof. constructor; unfold full; try done; try lia; [auto|intros p Hp; by apply elem_of_nil in Hp|intros _ c Hc; by apply elem_of_nil in Hc]. Qed.

Lemma visited_app a b t1 t2 t3 ch ch' : visited a t1 t2 ch → visited b t2 t3 ch' → visited (a ++ b) t1 t3 (ch ++ ch').
Proof.
  intros V1 V2. pose proof (vs_config _ _ _ _ V1) as C1. pose proof (vs_config _ _ _ _ V2) as C2.
  assert (wt_budget t2 = wt_budget t1) as Hb by apply C1.
  pose proof (vs_grows _ _ _ _ V1) as G1. pose proof (vs_grows _ _ _ _ V2) as G2.
  pose proof (vs_denied _ _ _ _ V1) as D1. pose proof (vs_denied _ _ _ _ V2) as D2. constructor.
  - destruct C1 as (?&?&?&?), C2 as (?&?&?&?). unfold same_config. split_and!; congruence.
  - by etrans.
  - lia.
  - intros Hf. assert (wt_dirs t2 = wt_dirs t1) as E by (by apply (vs_full _ _ _ _ V1)). rewrite (vs_full _ _ _ _ V2); [done|]. unfold full in *. by rewrite Hb, E.
  - intros Hlt. destruct (decide (wt_deniedN t2 < wt_deniedN t3)) as [|Hn]; [by apply (vs_refused _ _ _ _ V2)|].
    assert (full t2) as Hf by (apply (vs_refused _ _ _ _ V1); lia). unfold full in *. rewrite (vs_full _ _ _ _ V2 Hf). destruct C2 as (_ & -> & _). done.
  - intros k p Hp. destruct (vs_new _ _ _ _ V2 k p Hp) as [H|H]; [|right; apply elem_of_app; by right].
    destruct (vs_new _ _ _ _ V1 k p H) as [?|?]; [by left|right; apply elem_of_app; by left].
  - intros p [Hp|Hp]%elem_of_app.
    + destruct (vs_children _ _ _ _ V1 p Hp) as (c & Hc & Hch & [q Hw]). exists c. split_and!; [apply elem_of_app; by left|done|]. exists q. by eapply lookup_weaken.
    + destruct (vs_children _ _ _ _ V2 p Hp) as (c & Hc & ?). exists c. split; [apply elem_of_app; by right|done].
  - intros E c [Hc|Hc]%elem_of_app Hok.
    + destruct (vs_complete _ _ _ _ V1 ltac:(lia) c Hc Hok) as [[q Hw] Hch]. split; [exists q; by eapply lookup_weaken|].
      intros p Hp. apply elem_of_app. left. auto.
    + destruct (vs_complete _ _ _ _ V2 ltac:(lia) c Hc Hok) as [Hw Hch]. split; [done|]. intros p Hp. apply elem_of_app. right. auto.
  - pose proof (vs_size _ _ _ _ V1). pose proof (vs_size _ _ _ _ V2). lia.
Qed.

(** One level of the queue. *)
Fixpoint visitAll (items : list string) (t : tree) (em : list (string * bool)) : tree * list string * list (string * bool) :=
  match items with
  | [] => (t, [], em)
  | c :: items' =>
      let '(t1, ch, out) := visit c t in
      let '(t2, ch2, em2) := visitAll items' t1 (em ++ out)%list in
      (t2, (ch ++ ch2)%list, em2)
  end.

Lemma visitAll_visited items t em t' ch em' : wt_goos t = goos → wt_exclude t = ex → visitAll items t em = (t', ch, em') → visited items t t' ch.
Proof.
  revert t em t' ch em'. induction items as [|c items IH]; intros t em t' ch em' Hg He; cbn.
  { intros [= <- <- _]. apply visited_nil. }
  destruct (visit c t) as [[t1 ch1] out] eqn:Ev. destruct (visitAll items t1 (em ++ out)) as [[t2 ch2] em2] eqn:Ea. intros [= <- <- _].
  apply visit_visited in Ev; [|done..]. apply (visited_app [c] items t t1); [done|]. destruct (vs_config _ _ _ _ Ev) as (H1 & _ & H2 & _).
  eapply IH; [| |exact Ea]; congruence.
Qed.

Lemma walk_level items rest fuel t em : walk (length items + fuel) (items ++ rest) t em =
  let '(t', ch, em') := visitAll items t em in walk fuel (rest ++ ch)%list t' em'.
Proof.
  revert rest t em. induction items as [|c items IH]; intros rest t em; cbn; [by rewrite app_nil_r|].
  destruct (visit c t) as [[t1 ch] out]. rewrite <- app_assoc, IH. destruct (visitAll items t1 (em ++ out)) as [[t2 ch2] em2]. by rewrite <- app_assoc.
Qed.

Lemma walk_fuel fuel queue t em r : walk fuel queue t em = Some r → (length queue ≤ fuel)%nat.
Proof.
  revert queue t em. induction fuel as [|fuel IH]; intros [|c queue] t em; cbn; [lia|done|lia|].
  destruct (visit c t) as [[t1 ch] out]. intros H%IH. rewrite length_app in H. lia.
Qed.

(** A walk that ends is a level and a walk of what lies below. *)
Lemma walk_by_level fuel items t em r : walk fuel items t em = Some r →
  ∃ fuel' t' ch em', fuel = (length items + fuel')%nat ∧ visitAll items t em = (t', ch, em') ∧ walk fuel' ch t' em' = Some r.
Proof.
  intros H. pose proof (walk_fuel _ _ _ _ _ H) as Hl. exists (fuel - length items)%nat.
  pose proof (walk_level items [] (fuel - length items) t em) as E. rewrite app_nil_r in E.
  replace (length items + (fuel - length items))%nat with fuel in E by lia. rewrite H in E.
  destruct (visitAll items t em) as [[t' ch] em']. exists t', ch, em'. split_and!; [lia|done|done].
Qed.

(** ** What there is to watch below a directory *)

Context (dir : string).
Hypothesis Hnames : ∀ d es e, ReadDir d = Some es → e ∈ es → goodPart goos (de_Name e).
Hypothesis Hdir : absolute goos dir.

Inductive reach : nat → string → Prop :=
| reach_here : reach 0 dir
| reach_below d p q : reach d p → childOf p q → reach (S d) q.

Lemma reach_absolute d p : reach d p → absolute goos p ∧ length (splitLocal goos p) = (length (splitLocal goos dir) + d)%nat.
Proof using Hnames Hdir.
  induction 1 as [|d p q _ [Ha Hl] Hc]; [split; [done|lia]|].
  destruct (childOf_good ToLower goos ReadDir Hnames _ _ _ Hc Ha) as (n & Hn & ->). split; [by apply absolute_Join|].
  rewrite splitLocal_Join, length_app by done. cbn. lia.
Qed.

Lemma reach_unique d d' p : reach d p → reach d' p → d = d'.
Proof using Hnames Hdir. intros [_ H]%reach_absolute [_ H']%reach_absolute. lia. Qed.

(** ** Nothing is left out but what the budget refuses, and that is deepest *)

Definition watched (t : tree) (p : string) : Prop := is_Some (wt_dirs t !! key p).

Lemma watched_mono t t' p : wt_dirs t ⊆ wt_dirs t' → watched t p → watched t' p.
Proof using Type. intros H [q Hq]. exists q. by eapply lookup_weaken. Qed.

Lemma walk_mono fuel queue t em t' em' : walk fuel queue t em = Some (t', em') → wt_goos t = goos → wt_exclude t = ex →
  same_config t t' ∧ wt_dirs t ⊆ wt_dirs t' ∧ wt_deniedN t ≤ wt_deniedN t' ∧ (full t → wt_dirs t' = wt_dirs t).
Proof using Type.
  clear Hnames Hdir dir. intros Hw Hg He.
  refine (walk_ind ToLower AddOk ReadDir (λ u, same_config t u ∧ wt_dirs t ⊆ wt_dirs u ∧ wt_deniedN t ≤ wt_deniedN u ∧ (full t → wt_dirs u = wt_dirs t))
    (λ _, True) _ _ _ _ _ _ _ Hw _ _); [|by apply Forall_true|done].
  intros c u u' ch out Hv _ (Hc & Hd & Hn & Hf). split; [|by apply Forall_true]. pose proof Hc as (Hcg & Hcb & Hce & Hcr).
  apply visit_visited in Hv; [|congruence..]. destruct Hv as [(?&?&?&?) Hg1 Hn1 Hf1 _ _ _ _ _]. split_and!; [unfold same_config; split_and!; congruence|by etrans|lia|].
  intros Hfull. rewrite Hf1; [auto|]. unfold full in *. by rewrite Hcb, Hf.
Qed.

Lemma reach_above d k p : reach k p → (d ≤ k)%nat → ∃ q, reach d q.
Proof using Type.
  clear Hnames Hdir. induction 1 as [|k p q Hp IH Hc]; intros Hle.
  - assert (d = 0%nat) as -> by lia. exists dir. constructor.
  - destruct (decide (d = S k)) as [->|]; [exists q; by econstructor|]. apply IH. lia.
Qed.

(** The walk from a level that holds everything at its depth. *)
Lemma walk_levels fuel d items t em t' em' :
  walk fuel items t em = Some (t', em') → wt_goos t = goos → wt_exclude t = ex → (∀ p, reach d p ↔ p ∈ items) → (∀ k p, reach k p → AddOk p = true) →
  (wt_deniedN t' = wt_deniedN t → ∀ k p, (d ≤ k)%nat → reach k p → watched t' p) ∧
  (∀ key q k, wt_dirs t !! key = None → wt_dirs t' !! key = Some q → reach k q → ∀ j p, (d ≤ j < k)%nat → reach j p → watched t' p).
Proof using Hnames Hdir.
  intros Hw Hg He Hitems Hok. revert d items t em Hw Hg He Hitems. induction (lt_wf fuel) as [fuel _ IH]. intros d items t em Hw Hg He Hitems.
  destruct (decide (items = [])) as [->|Hne].
  { assert (∀ k p, (d ≤ k)%nat → reach k p → False) as Hno.
    { intros k p Hle [q Hq]%(reach_above d); [|done]. apply Hitems in Hq. by apply elem_of_nil in Hq. }
    split; [intros _ k p Hle Hp; by destruct (Hno k p)|]. intros key q k _ _ _ j p [Hle _] Hp. by destruct (Hno j p). }
  destruct (walk_by_level _ _ _ _ _ Hw) as (fuel' & t1 & ch & em1 & -> & Hv & Hw').
  apply visitAll_visited in Hv; [|done..]. destruct (vs_config _ _ _ _ Hv) as (Hc1 & Hc2 & Hc3 & _).
  assert (wt_goos t1 = goos) as Hg1 by congruence. assert (wt_exclude t1 = ex) as He1 by congruence.
  destruct (walk_mono _ _ _ _ _ _ Hw' Hg1 He1) as (_ & Hsub & Hmono & Hfull).
  assert (∀ key q k, wt_dirs t !! key = None → wt_dirs t1 !! key = Some q → reach k q → k = d) as Hnew.
  { intros key q k Hno Hq Hk. destruct (vs_new _ _ _ _ Hv key q Hq) as [|Hin]; [congruence|]. apply Hitems in Hin. by eapply reach_unique. }
  pose proof (vs_denied _ _ _ _ Hv) as Hdn. destruct (decide (wt_deniedN t1 = wt_deniedN t)) as [Heq|Hneq].
  - assert (∀ p, p ∈ items → watched t' p ∧ ∀ q, childOf p q → q ∈ ch) as Hdone.
    { intros p Hp. destruct (vs_complete _ _ _ _ Hv Heq p Hp (Hok d p (proj2 (Hitems p) Hp))) as [Hwd Hch]. split; [by apply (watched_mono t1)|done]. }
    assert (∀ p, reach (S d) p ↔ p ∈ ch) as Hch.
    { intros p. split.
      - intros Hp. inversion Hp as [|d0 p0 q Hp0 Hc]; subst. by apply (Hdone p0); [apply Hitems|].
      - intros Hp. destruct (vs_children _ _ _ _ Hv p Hp) as (c & Hc & Hcc & _). apply Hitems in Hc. by econstructor. }
    destruct (IH fuel' ltac:(destruct items; [done|cbn; lia]) (S d) ch t1 em1 Hw' Hg1 He1 Hch) as [HA HB]. split.
    + intros E k p Hle Hp. destruct (decide (k = d)) as [->|]; [by apply Hdone, Hitems|]. apply (HA ltac:(congruence) k p); [lia|done].
    + intros key q k Hno Hq Hk j p Hj Hp. destruct (decide (j = d)) as [->|]; [by apply Hdone, Hitems|].
      destruct (wt_dirs t1 !! key) as [q'|] eqn:E1; [|apply (HB key q k E1 Hq Hk j p); [lia|done]].
      rewrite (lookup_weaken _ _ _ _ E1 Hsub) in Hq. injection Hq as ->. pose proof (Hnew key q k Hno E1 Hk). lia.
  - rewrite Hfull by (apply (vs_refused _ _ _ _ Hv); lia). split; [lia|].
    intros key q k Hno Hq Hk j p Hj Hp. pose proof (Hnew key q k Hno Hq Hk). lia.
Qed.

(** ** The walk ends *)

Lemma walk_more fuel fuel' queue t em r : walk fuel queue t em = Some r → (fuel ≤ fuel')%nat → walk fuel' queue t em = Some r.
Proof using Type.
  clear Hnames Hdir dir. revert fuel' queue t em. induction fuel as [|fuel IH]; intros fuel' [|c queue] t em; [by destruct fuel'|done|by destruct fuel'|].
  destruct fuel' as [|fuel']; [lia|]. cbn. destruct (visit c t) as [[t1 ch] out]. intros H Hle. apply IH; [done|lia].
Qed.

(** Lowering the case of a path moves no separator. *)
Hypothesis Hlower : ∀ s, strings.Count (ToLower s) path.sep = strings.Count s path.sep.

Lemma Count_abs ws : Forall (goodPart goos) ws → strings.Count (abs ws) path.sep = Nat.max 1 (length ws).
Proof using Type.
  clear Hlower Hnames Hdir dir ex ToLower AddOk ReadDir. intros H. unfold abs. rewrite Count_append. change (strings.Count "/" path.sep) with 1%nat.
  induction H as [|w ws (_ & Hw & _) H IH]; [done|].
  assert (strings.Count w path.sep = 0%nat) as Hw0.
  { clear -Hw. induction w as [|a w IH]; cbn in *; [done|]. apply orb_false_iff in Hw as [-> Hw]. auto. }
  destruct ws as [|w' ws]; [cbn; lia|]. rewrite Join_cons, !Count_append, Hw0 by done. change (strings.Count "/" path.sep) with 1%nat. cbn [length] in *. lia.
Qed.

Lemma Count_key p : absolute goos p → strings.Count (key p) path.sep = Nat.max 1 (length (splitLocal goos p)).
Proof using Hlower.
  clear Hnames Hdir. intros (ws & Hws & ->). unfold dirKey. rewrite splitLocal_abs by done. change ("/" +:+ strings.Join ws "/") with (abs ws).
  destruct (caseInsensitive goos); [rewrite Hlower|]; by apply Count_abs.
Qed.

(** A directory this deep has watches on the way to it, one per directory. *)
Definition below (t : tree) (d : nat) (p : string) : Prop :=
  reach d p ∧ ∃ ks : gset string, (d ≤ S (size ks))%nat ∧ ks ⊆ dom (wt_dirs t) ∧
    ∀ k, k ∈ ks → (strings.Count k path.sep < strings.Count (key p) path.sep)%nat.

Lemma below_child t t' d c p : below t d c → wt_dirs t ⊆ wt_dirs t' → watched t' c → childOf c p → below t' (S d) p.
Proof using Hnames Hdir Hlower.
  intros (Hr & ks & Hs & Hks & Hlt) Hsub Hw Hc. assert (reach (S d) p) as Hp by (by econstructor). split; [done|].
  destruct (reach_absolute _ _ Hr) as [Hac Hlc]. destruct (reach_absolute _ _ Hp) as [Hap Hlp].
  pose proof (Count_key _ Hac) as Hcc. pose proof (Count_key _ Hap) as Hcp.
  destruct d as [|d]; [exists ∅; split_and!; [lia|set_solver|set_solver]|].
  assert (key c ∉ ks) as Hno by (intros Hin; apply Hlt in Hin; lia).
  exists ({[ key c ]} ∪ ks). split_and!.
  - rewrite size_union by set_solver. rewrite size_singleton. lia.
  - apply union_subseteq. split; [|etrans; [done|by apply subseteq_dom]]. apply singleton_subseteq_l. by apply elem_of_dom.
  - intros k [->%elem_of_singleton|Hk]%elem_of_union; [lia|]. specialize (Hlt k Hk). lia.
Qed.

Lemma walk_ends n : ∀ M d items t em, (M + 2 ≤ n + d)%nat → Z.of_nat (size (wt_dirs t)) ≤ Z.of_nat M → wt_budget t ≤ Z.of_nat M →
  wt_goos t = goos → wt_exclude t = ex → (∀ p, p ∈ items → below t d p) → ∃ fuel r, walk fuel items t em = Some r.
Proof using Hnames Hdir Hlower.
  induction n as [|n IH]; intros M d items t em Hn Hs Hb Hg He Hitems.
  - destruct items as [|p items]; [by exists 0%nat, (t, em)|]. destruct (Hitems p ltac:(by left)) as (_ & ks & Hd & Hks & _).
    apply subseteq_size in Hks. rewrite size_dom in Hks. lia.
  - destruct (visitAll items t em) as [[t1 ch] em1] eqn:Ev. pose proof (visitAll_visited _ _ _ _ _ _ Hg He Ev) as V.
    destruct (vs_config _ _ _ _ V) as (Hc1 & Hc2 & Hc3 & _). pose proof (vs_size _ _ _ _ V) as Hs1.
    destruct (IH M (S d) ch t1 em1) as (fuel & r & Hw); [lia|lia|congruence|congruence|congruence| |].
    + intros p Hp. destruct (vs_children _ _ _ _ V p Hp) as (c & Hc & Hcc & Hwc). by eapply below_child; [apply Hitems|apply (vs_grows _ _ _ _ V)|..].
    + exists (length items + fuel)%nat, r. pose proof (walk_level items [] fuel t em) as E. rewrite app_nil_r, Ev in E. rewrite E. exact Hw.
Qed.

(** C39 (termination). Watching a directory ends, whatever is on the disk: the budget bounds how
    deep it goes.  When the backend takes what it is given, every directory below
    that is not excluded and not behind a link is watched, unless a refusal was
    counted; and the walk is breadth first, so a directory is newly watched only
    when every shallower one is. *)
Theorem shallow_directories_first t : wt_goos t = goos → wt_exclude t = ex →
  ∃ fuel t' em, (∀ fuel', (fuel ≤ fuel')%nat → addTree ToLower AddOk ReadDir fuel' dir t = Some (t', em)) ∧
    ((∀ k p, reach k p → AddOk p = true) →
      (wt_deniedN t' = wt_deniedN t → ∀ k p, reach k p → watched t' p) ∧
      (∀ key q k, wt_dirs t !! key = None → wt_dirs t' !! key = Some q → reach k q → ∀ j p, (j < k)%nat → reach j p → watched t' p)).
Proof using Hnames Hdir Hlower.
  intros Hg He. set (M := Nat.max (size (wt_dirs t)) (Z.to_nat (wt_budget t))).
  assert (∀ p, reach 0 p ↔ p ∈ [dir]) as H0.
  { intros p. rewrite list_elem_of_singleton. split; [by inversion 1|]. intros ->. constructor. }
  destruct (walk_ends (M + 2) M 0 [dir] t []) as (fuel & [t' em] & Hw); [lia..|done|done| |].
  { intros p Hp. split; [by apply H0|]. exists ∅. split_and!; [lia|set_solver|set_solver]. }
  exists fuel, t', em. split; [intros fuel' Hle; by eapply walk_more|]. intros Hok.
  destruct (walk_levels _ 0 _ _ _ _ _ Hw Hg He H0 Hok) as [HA HB]. split; [intros E k p; apply HA; [done|lia]|].
  intros key q k Hno Hq Hk j p Hj. apply (HB key q k); [done..|lia].
Qed.

End levels.
