(* ===== verification/Watcher.v ===== *)
(** * The watcher (core-client/fswatch: watch.go, backend.go)

    Three goroutines share two channels.  [drain] moves the backend's events into
    [raw]; [process] owns the tree and the coalescer and puts frames into [out];
    [send] hands them to the connection.  Each turn of one of the loops is a
    definition here.  The channels are lists with their capacity; the observer and
    the connection are lists of what they were told.  The counters, [uint64]s and
    [int]s, do not reach their ends. *)
From S2P Require Import Prelude GoStrings GoTime DirTypes Names Mounts Coalesce WatchTree WatchTreeProofs.

Open Scope Z_scope.

Definition DefaultQueueLen : Z := 256.
Definition rawLen : Z := 4096.
Definition writebackPrefix : string := ".rd-writeback-".

Definition DefaultExcludes : list string :=
  [".git"; "node_modules"; ".venv"; "venv"; "__pycache__"; ".mypy_cache"; ".pytest_cache"; ".gradle"; ".terraform"]%string.

(** [ExcludesOr]: a nil list is [None]. *)
Definition ExcludesOr (list : option (list string)) : Datatypes.list string := default DefaultExcludes list.

Definition DefaultBudget (GOOS : string) : Z :=
  if bool_decide (GOOS ∈ ["darwin"; "freebsd"; "netbsd"; "openbsd"]%string) then 512
  else if bool_decide (GOOS = "windows"%string) then 1024 else 4096.

(** ** Options, as [New] settles them *)

Record Options := {
  op_Budget : Z;
  op_Exclude : option (list string);
  op_Debounce : Duration;
  op_MaxDelay : Duration;
  op_QueueLen : Z;
  op_goos : string
}.

Definition settle (GOOS : string) (o : Options) : Options :=
  {| op_Budget := if op_Budget o <=? 0 then DefaultBudget GOOS else op_Budget o;
     op_Exclude := Some (ExcludesOr (op_Exclude o));
     op_Debounce := op_Debounce o; op_MaxDelay := op_MaxDelay o;
     op_QueueLen := if op_QueueLen o <=? 0 then DefaultQueueLen else op_QueueLen o;
     op_goos := if bool_decide (op_goos o = ""%string) then GOOS else op_goos o |}.

(** ** Events *)

(** [fsnotify.Event]: its path, and what [Has] answers. *)
Record fsEvent := {
  fe_Name : string;
  fe_Create : bool;
  fe_Write : bool;
  fe_Remove : bool;
  fe_Rename : bool;
  fe_Chmod : bool
}.

Definition bit (b : bool) (op : Z) : Z := if b then op else 0.

Definition opFor (e : fsEvent) : Z :=
  Z.lor (Z.lor (Z.lor (Z.lor (Z.lor 0 (bit (fe_Create e) OpCreate)) (bit (fe_Write e) OpWrite))
    (bit (fe_Remove e) OpRemove)) (bit (fe_Rename e) OpRename)) (bit (fe_Chmod e) OpAttrib).

(** What [process] owns, and what the observer has been told so far. *)
Record processor := {
  pr_tree : tree;
  pr_co : coalescer;
  pr_observed : list WireEvent
}.

(** The operations a mode lets through. *)
Definition strip (mode : Watch) (op : Z) : Z :=
  match mode with WatchPartial => Z.ldiff op (Z.lor OpRemove OpRename) | _ => op end.

Definition deliver (now : Time) (op : Z) (isDir : bool) (p : processor) (m : rootMatch) : processor :=
  let event o := {| we_Export := sr_export (rm_root m); we_Path := rm_rel m; we_Op := o; we_Dir := isDir |} in
  let observed := (pr_observed p ++ [event op])%list in
  let op' := strip (sr_mode (rm_root m)) op in
  {| pr_tree := pr_tree p; pr_observed := observed;
     pr_co := if (op' =? 0) && bool_decide (sr_mode (rm_root m) = WatchPartial) then pr_co p else add now (event op') (pr_co p) |}.

Section handle.
Context (ToLower : string → string) (EqualFold : string → string → bool).

(** What the disk and the backend answer while one event is handled. *)
Record answers := {
  an_Add : string → bool;
  an_ReadDir : string → option (list dirEntry);
  an_LstatDir : string → bool
}.

(** The closure [addTree] calls for everything it finds. *)
Definition emitFound (goos : string) (now : Time) (roots : list rootMatch) (c : coalescer) (found : string * bool) : coalescer :=
  foldl (λ c m, match relativeTo EqualFold goos (sr_parts (rm_root m)) found.1 with
                | Some childRel => add now {| we_Export := sr_export (rm_root m); we_Path := childRel; we_Op := OpCreate; we_Dir := found.2 |} c
                | None => c
                end) c roots.

(** The switch of [handle]: whether the path is a directory, the tree, and what a
    walk found. *)
Definition follow_event (an : answers) (fuel : nat) (e : fsEvent) (t : tree) : option (bool * tree * list (string * bool)) :=
  let isDir := watching ToLower (fe_Name e) t in
  if fe_Create e then
    if an_LstatDir an (fe_Name e) then
      let '(skip, t) := isExcluded ToLower (path.Base (fe_Name e)) t in
      if skip then Some (true, t, [])
      else '(t', found) ← addTree ToLower (an_Add an) (an_ReadDir an) fuel (fe_Name e) t; Some (true, t', found)
    else Some (isDir, t, [])
  else if fe_Rename e then Some (isDir, (if isDir then removeTree ToLower (fe_Name e) t else t), [])
  else if fe_Remove e then Some (isDir, (if isDir then removeOne ToLower (fe_Name e) t else t), [])
  else Some (isDir, t, []).

Definition handle (an : answers) (fuel : nat) (now : Time) (e : fsEvent) (p : processor) : option processor :=
  if strings.HasPrefix (path.Base (fe_Name e)) writebackPrefix then Some p
  else
    let roots := rootsFor EqualFold (pr_tree p) (fe_Name e) in
    if bool_decide (roots = []) then Some p
    else
      '(isDir, t, found) ← follow_event an fuel e (pr_tree p);
      let c := foldl (emitFound (wt_goos t) now roots) (pr_co p) found in
      let p' := {| pr_tree := t; pr_co := c; pr_observed := pr_observed p |} in
      let op := opFor e in
      Some (if op =? 0 then p' else foldl (deliver now op isDir) p' roots).

(** The other arms of [process]'s select. *)
Definition processSync (an : answers) (fuel : nat) (shares : list Share) (p : processor) : option processor :=
  t ← sync ToLower EqualFold (an_Add an) (an_ReadDir an) fuel shares (pr_tree p);
  Some {| pr_tree := t; pr_co := pr_co p; pr_observed := pr_observed p |}.

Definition processMissed (p : processor) : processor :=
  {| pr_tree := pr_tree p; pr_co := foldl (λ c r, overflow (sr_export r) "/" 0 c) (pr_co p) (wt_roots (pr_tree p)); pr_observed := pr_observed p |}.

End handle.

(** ** Frames *)

Record Frame := {
  fr_Events : list WireEvent;
  fr_Notice : option WireNotice
}.
Definition noticeFrame (n : WireNotice) : Frame := {| fr_Events := []; fr_Notice := Some n |}.

(** [Stats]. *)
Record Stats := {
  st_Connected : bool;
  st_Watched : Z;
  st_Budget : Z;
  st_Denied : Z;
  st_DeniedDirs : list string;
  st_Excluded : Z;
  st_Pending : Z;
  st_Sent : Z;
  st_Dropped : Z
}.

(** The rest of a [Watcher]: the channels, what is under the mutex, and what the
    observer was told it lost. *)
Record Watcher := {
  wa_queueLen : Z;
  wa_raw : list fsEvent;
  wa_missed : bool;
  wa_out : list Frame;
  wa_sink : bool;
  wa_disconnected : gmap string Z;
  wa_stats : Stats;
  wa_lost : list WireNotice
}.

Definition map_stats (f : Stats → Stats) (w : Watcher) : Watcher :=
  {| wa_queueLen := wa_queueLen w; wa_raw := wa_raw w; wa_missed := wa_missed w; wa_out := wa_out w; wa_sink := wa_sink w;
     wa_disconnected := wa_disconnected w; wa_stats := f (wa_stats w); wa_lost := wa_lost w |}.
Definition set_out (out : list Frame) (w : Watcher) : Watcher :=
  {| wa_queueLen := wa_queueLen w; wa_raw := wa_raw w; wa_missed := wa_missed w; wa_out := out; wa_sink := wa_sink w;
     wa_disconnected := wa_disconnected w; wa_stats := wa_stats w; wa_lost := wa_lost w |}.
Definition set_raw (raw : list fsEvent) (missed : bool) (w : Watcher) : Watcher :=
  {| wa_queueLen := wa_queueLen w; wa_raw := raw; wa_missed := missed; wa_out := wa_out w; wa_sink := wa_sink w;
     wa_disconnected := wa_disconnected w; wa_stats := wa_stats w; wa_lost := wa_lost w |}.
Definition set_disconnected (d : gmap string Z) (w : Watcher) : Watcher :=
  {| wa_queueLen := wa_queueLen w; wa_raw := wa_raw w; wa_missed := wa_missed w; wa_out := wa_out w; wa_sink := wa_sink w;
     wa_disconnected := d; wa_stats := wa_stats w; wa_lost := wa_lost w |}.

Definition add_dropped (n : Z) (s : Stats) : Stats :=
  {| st_Connected := st_Connected s; st_Watched := st_Watched s; st_Budget := st_Budget s; st_Denied := st_Denied s; st_DeniedDirs := st_DeniedDirs s;
     st_Excluded := st_Excluded s; st_Pending := st_Pending s; st_Sent := st_Sent s; st_Dropped := st_Dropped s + n |}.
Definition add_sent (n : Z) (s : Stats) : Stats :=
  {| st_Connected := st_Connected s; st_Watched := st_Watched s; st_Budget := st_Budget s; st_Denied := st_Denied s; st_DeniedDirs := st_DeniedDirs s;
     st_Excluded := st_Excluded s; st_Pending := st_Pending s; st_Sent := st_Sent s + n; st_Dropped := st_Dropped s |}.

Definition countDropped (n : Z) (w : Watcher) : Watcher := map_stats (add_dropped n) w.

Definition tell_lost (n : WireNotice) (w : Watcher) : Watcher :=
  {| wa_queueLen := wa_queueLen w; wa_raw := wa_raw w; wa_missed := wa_missed w; wa_out := wa_out w; wa_sink := wa_sink w;
     wa_disconnected := wa_disconnected w; wa_stats := wa_stats w; wa_lost := (wa_lost w ++ [n])%list |}.

(** [drain]: an event, or an error of the backend. *)
Definition miss (w : Watcher) : Watcher := set_raw (wa_raw w) true w.

Definition drainEvent (e : fsEvent) (w : Watcher) : Watcher :=
  if Z.of_nat (length (wa_raw w)) <? rawLen then set_raw (wa_raw w ++ [e])%list (wa_missed w) w
  else miss (countDropped 1 w).
Definition drainError (overflowed : bool) (w : Watcher) : Watcher := if overflowed then miss w else w.

(** [queue] and [emit]. *)
Definition queue (w : Watcher) (frame : Frame) : Watcher :=
  if Z.of_nat (length (wa_out w)) <? wa_queueLen w then set_out (wa_out w ++ [frame])%list w
  else countDropped (Z.max (Z.of_nat (length (fr_Events frame))) 1) w.

Definition emit (events : list WireEvent) (notices : list WireNotice) (w : Watcher) : Watcher :=
  let w := foldl (λ w n, queue (tell_lost n w) (noticeFrame n)) w notices in
  let kept := filter (λ e, ValidEvent e = None) events in
  let w := countDropped (Z.of_nat (length events - length kept)) w in
  if bool_decide (kept = []) then w else queue w {| fr_Events := kept; fr_Notice := None |}.

(** [SetSink] and [publishTree]. *)
Definition SetSink (present : bool) (w : Watcher) : Watcher :=
  {| wa_queueLen := wa_queueLen w; wa_raw := wa_raw w; wa_missed := wa_missed w; wa_out := wa_out w; wa_sink := present;
     wa_disconnected := wa_disconnected w; wa_lost := wa_lost w;
     wa_stats := let s := wa_stats w in
       {| st_Connected := present; st_Watched := st_Watched s; st_Budget := st_Budget s; st_Denied := st_Denied s; st_DeniedDirs := st_DeniedDirs s;
          st_Excluded := st_Excluded s; st_Pending := st_Pending s; st_Sent := st_Sent s; st_Dropped := st_Dropped s |} |}.

Definition publishTree (t : tree) (c : coalescer) (w : Watcher) : Watcher :=
  map_stats (λ s, {| st_Connected := st_Connected s; st_Watched := Z.of_nat (size (wt_dirs t)); st_Budget := st_Budget s; st_Denied := wt_deniedN t;
                     st_DeniedDirs := fst <$> map_to_list (wt_denied t); st_Excluded := wt_excluded t; st_Pending := pendingCount c;
                     st_Sent := st_Sent s; st_Dropped := st_Dropped s |}) w.

(** [takeDisconnected]: the notices, in the order of the map. *)
Definition disconnectedNotice (kv : string * Z) : WireNotice :=
  {| wn_Export := kv.1; wn_Path := "/"; wn_Dropped := kv.2; wn_Reason := "disconnected" |}.
Definition takeDisconnected (w : Watcher) : list WireNotice * Watcher :=
  (disconnectedNotice <$> map_to_list (wa_disconnected w), set_disconnected ∅ w).

(** One turn of [send], with a frame of the channel: what reached the connection,
    and the watcher.  [Send] is the connection's answer to a frame. *)
Definition countAway (d : gmap string Z) (e : WireEvent) : gmap string Z := <[we_Export e := default 0 (d !! we_Export e) + 1]> d.

Definition sendFrame (Send : Frame → bool) (frame : Frame) (w : Watcher) : list Frame * Watcher :=
  if negb (wa_sink w) then
    ([], countDropped (Z.of_nat (length (fr_Events frame))) (set_disconnected (foldl countAway (wa_disconnected w) (fr_Events frame)) w))
  else
    let '(pending, w) := takeDisconnected w in
    let w := foldl (λ w n, tell_lost n w) w pending in
    let announced := filter (λ f, Send f = true) (noticeFrame <$> pending) in
    if Send frame then ((announced ++ [frame])%list, map_stats (add_sent (Z.of_nat (length (fr_Events frame)))) w)
    else (announced, countDropped (Z.of_nat (length (fr_Events frame))) w).

Definition send (Send : Frame → bool) (w : Watcher) : list Frame * Watcher :=
  match wa_out w with
  | [] => ([], w)
  | frame :: out => sendFrame Send frame (set_out out w)
  end.

(** * The watcher: what it watches, reports and counts *)

Open Scope Z_scope.

Section watcher.
Context (ToLower : string → string) (EqualFold : string → string → bool) (goos : string).
Abbreviation key := (dirKey ToLower goos).

(** Names as a directory lists them. *)
Definition sound (an : answers) : Prop := ∀ d es e, an_ReadDir an d = Some es → e ∈ es → goodPart goos (de_Name e).

Definition set_tree (t : tree) (p : processor) : processor := {| pr_tree := t; pr_co := pr_co p; pr_observed := pr_observed p |}.

(** A turn of [process], or the kernel dropping the watch of a directory that is
    gone.  The shares and the events name absolute paths, and an event that a
    directory was removed names it as it was added. *)
Inductive step : processor → processor → Prop :=
| step_sync an fuel shares p p' : sound an → Forall (λ s, absolute goos (sr_local (rootOf goos s))) shares →
    processSync ToLower EqualFold an fuel shares p = Some p' → step p p'
| step_event an fuel now e p p' : sound an → absolute goos (fe_Name e) →
    (∀ q, q ∈ wt_be (pr_tree p) → key q = key (fe_Name e) → q = fe_Name e) →
    handle ToLower EqualFold an fuel now e p = Some p' → step p p'
| step_missed p : step p (processMissed p)
| step_flush now p : step p {| pr_tree := pr_tree p; pr_co := (flush now (pr_co p)).1.1; pr_observed := pr_observed p |}
| step_vanish q p : step p (set_tree (set_watches (wt_be (pr_tree p) ∖ {[ q ]}) (wt_dirs (pr_tree p)) (pr_tree p)) p).

Definition invariant (p : processor) : Prop := kept ToLower goos (pr_tree p) ∧ within EqualFold goos (pr_tree p).

Lemma deliver_tree now op isDir roots p : pr_tree (foldl (deliver now op isDir) p roots) = pr_tree p.
Proof. revert p. induction roots as [|m roots IH]; intros p; [done|]. cbn. by rewrite IH. Qed.

Lemma rootsFor_under t local : wt_goos t = goos → rootsFor EqualFold t local ≠ [] → under EqualFold goos (wt_roots t) local.
Proof.
  intros Hg Hne. rewrite rootsFor_reference in Hne. destruct (deepestMatches EqualFold t local (wt_roots t)) as [|m ms] eqn:E; [done|].
  assert (m ∈ deepestMatches EqualFold t local (wt_roots t)) as Hm by (rewrite E; by left).
  apply list_elem_of_filter in Hm as [_ [Hr Hm]%elem_of_matches]. exists (rm_root m). split; [done|]. unfold matchRoot in Hm. rewrite Hg in Hm.
  by destruct (relativeTo _ _ _ _).
Qed.

Lemma follow_event_inv an fuel e t isDir t' found : follow_event ToLower an fuel e t = Some (isDir, t', found) →
  sound an → absolute goos (fe_Name e) → (∀ q, q ∈ wt_be t → key q = key (fe_Name e) → q = fe_Name e) → under EqualFold goos (wt_roots t) (fe_Name e) →
  kept ToLower goos t → within EqualFold goos t → kept ToLower goos t' ∧ within EqualFold goos t'.
Proof.
  intros E Hs Ha Hsp Hu Hk Hw. unfold follow_event in E. destruct (fe_Create e); [|destruct (fe_Rename e); [|destruct (fe_Remove e)]].
  - destruct (an_LstatDir an (fe_Name e)); [|by injection E as <- <- <-].
    destruct (isExcluded ToLower (path.Base (fe_Name e)) t) as [skip t1] eqn:Ex. apply isExcluded_frame in Ex as (Hc & Hd & Hb & _ & _).
    pose proof (kept_frame _ _ _ _ Hc Hd Hb Hk) as Hk1. pose proof (within_frame _ _ _ _ Hc Hd Hw) as Hw1.
    destruct skip; [by injection E as <- <- <-|]. apply bind_Some in E as ([t2 em] & Hadd & [= <- <- <-]).
    edestruct (walk_kept ToLower EqualFold goos (an_Add an) (an_ReadDir an)) as (? & ? & _); [exact Hs|exact Hadd| |done|done|done].
    apply Forall_singleton. split; [done|]. by destruct Hc as (_ & _ & _ & ->).
  - injection E as <- <- <-. destruct (watching _ _ _); [|done]. split; [by apply dropWatches_kept|by apply dropWatches_within].
  - injection E as <- <- <-. destruct (watching _ _ _); [|done]. split; [by apply removeOne_kept|by apply removeOne_within].
  - by injection E as <- <- <-.
Qed.

Lemma step_invariant p p' : (∀ s, EqualFold s s = true) → step p p' → invariant p → invariant p'.
Proof.
  intros Hfold Hstep [Hk Hw]. destruct Hstep as [an fuel shares p p' Hs Habs E|an fuel now e p p' Hs Habs Hsp E|p|now p|q p]; [| |done|done|].
  - apply bind_Some in E as (t & E & [= <-]). by eapply (sync_inv ToLower EqualFold goos (an_Add an) (an_ReadDir an)).
  - unfold handle in E. destruct (strings.HasPrefix _ _); [by injection E as <-|]. case_bool_decide as Hr; [by injection E as <-|].
    apply bind_Some in E as ([[isDir t] found] & Ef & [= <-]).
    assert (kept ToLower goos t ∧ within EqualFold goos t) as Hinv by (by eapply follow_event_inv; [..|apply rootsFor_under; [apply Hk|]|done|done]).
    unfold invariant. destruct (opFor e =? 0); [done|]. by rewrite deliver_tree.
  - destruct Hk as [Hg Hkeys Hbe Hsize]. split; [|done]. constructor; cbn; [done..| |done]. intros q' [Hq' _]%elem_of_difference. auto.
Qed.

(** Whatever shares come and go and whatever events arrive, every watch the
    backend holds is on record, so that it can be removed again; every watched
    directory lies within a share that is still there; there are no more than the
    budget allows; and when the last share goes, so does every watch. *)
Theorem watches_stay_in_shares budget exclude c p :
  (∀ s, EqualFold s s = true) →
  rtc step {| pr_tree := newTree ToLower goos ∅ budget exclude; pr_co := c; pr_observed := [] |} p →
  (∀ q, q ∈ wt_be (pr_tree p) → wt_dirs (pr_tree p) !! key q = Some q) ∧
  (∀ k q, wt_dirs (pr_tree p) !! k = Some q → under EqualFold goos (wt_roots (pr_tree p)) q) ∧
  Z.of_nat (size (wt_dirs (pr_tree p))) ≤ Z.max 0 (wt_budget (pr_tree p)) ∧
  (∀ an fuel p', processSync ToLower EqualFold an fuel [] p = Some p' → wt_dirs (pr_tree p') = ∅ ∧ wt_be (pr_tree p') = ∅).
Proof.
  intros Hfold Hr.
  assert (invariant p) as [Hk Hw].
  { eapply (rtc_ind_r invariant); [|intros; by eapply step_invariant|exact Hr]. split; [|intros k q Hq; cbn in Hq; by apply lookup_empty_Some in Hq].
    constructor; cbn; [done|by intros k q Hq%lookup_empty_Some|set_solver|rewrite map_size_empty; lia]. }
  split_and!; [by apply kp_be|done|by apply (kp_size ToLower goos)|].
  intros an fuel p' E. apply bind_Some in E as (t & E & [= <-]). cbn in E. injection E as <-. cbn [pr_tree].
  destruct (dropRoots_inv ToLower EqualFold goos ∅ (pr_tree p) Hk Hw) as [Hk' Hw'].
  assert (wt_roots (dropRoots EqualFold ∅ (pr_tree p)) = []) as Hnone.
  { unfold dropRoots. assert (omap (follow ∅) (wt_roots (pr_tree p)) = []) as E by (clear; induction (wt_roots (pr_tree p)); [done|by cbn]).
    destruct (existsb _ _); cbn; exact E. }
  assert (wt_dirs (dropRoots EqualFold ∅ (pr_tree p)) = ∅) as Hd.
  { apply map_empty. intros k. apply eq_None_not_Some. intros [q Hq]. destruct (Hw' k q Hq) as (r & Hr' & _). rewrite Hnone in Hr'. by apply elem_of_nil in Hr'. }
  split; [exact Hd|]. apply set_eq. intros q. split; [|set_solver]. intros Hq. apply (kp_be _ _ _ Hk') in Hq. by rewrite Hd, lookup_empty in Hq.
Qed.

(** ** Every share an event belongs to hears of it *)

Lemma deliver_keeps now op isDir roots p e : accounted (pr_co p) e → accounted (pr_co (foldl (deliver now op isDir) p roots)) e.
Proof.
  revert p. induction roots as [|m roots IH]; intros p Ha; [done|]. cbn. apply IH. cbn. destruct (_ && _); [done|]. by apply add_keeps.
Qed.

Definition eventFor (op : Z) (isDir : bool) (m : rootMatch) : WireEvent :=
  {| we_Export := sr_export (rm_root m); we_Path := rm_rel m; we_Op := op; we_Dir := isDir |}.

Lemma deliver_observed now op isDir roots p :
  pr_observed (foldl (deliver now op isDir) p roots) = (pr_observed p ++ (eventFor op isDir <$> roots))%list.
Proof. revert p. induction roots as [|m roots IH]; intros p; cbn; [by rewrite app_nil_r|]. rewrite IH. cbn. by rewrite <- app_assoc. Qed.

Lemma deliver_accounts now op isDir roots p m : m ∈ roots → strip (sr_mode (rm_root m)) op ≠ 0 →
  ValidEvent (eventFor (strip (sr_mode (rm_root m)) op) isDir m) = None →
  accounted (pr_co (foldl (deliver now op isDir) p roots)) (eventFor (strip (sr_mode (rm_root m)) op) isDir m).
Proof.
  intros Hin Hne Hv. revert p. induction Hin as [m roots|m m' roots Hin IH]; intros p; cbn; [|by apply IH].
  apply deliver_keeps. cbn. rewrite (proj2 (Z.eqb_neq _ _) Hne). cbn. by apply add_accounts.
Qed.

(** An event under a share is told to the observer once for every root at the
    greatest depth, before a mode strips anything; and what the root's mode lets
    through waits to be sent, or its loss does.  Events of the temporaries of a
    write-back go to nobody. *)
Theorem change_reaches_every_root an fuel now e p p' :
  handle ToLower EqualFold an fuel now e p = Some p' → opFor e ≠ 0 →
  let roots := rootsFor EqualFold (pr_tree p) (fe_Name e) in
  if strings.HasPrefix (path.Base (fe_Name e)) writebackPrefix then p' = p
  else ∃ isDir, pr_observed p' = (pr_observed p ++ (eventFor (opFor e) isDir <$> roots))%list ∧
    ∀ m, m ∈ roots → let op := strip (sr_mode (rm_root m)) (opFor e) in
      op ≠ 0 → ValidEvent (eventFor op isDir m) = None → accounted (pr_co p') (eventFor op isDir m).
Proof.
  intros E Hop roots. unfold handle in E. destruct (strings.HasPrefix _ _); [by injection E as <-|]. fold roots in E.
  case_bool_decide as Hr.
  { injection E as <-. exists false. rewrite Hr. cbn. rewrite app_nil_r. split; [done|]. intros m Hm. by apply elem_of_nil in Hm. }
  apply bind_Some in E as ([[isDir t] found] & _ & [= <-]). exists isDir. rewrite (proj2 (Z.eqb_neq _ _) Hop).
  rewrite deliver_observed. split; [done|]. intros m Hm op. by apply deliver_accounts.
Qed.

Lemma root_covers d : Coalesce.covers "/" d.
Proof. unfold Coalesce.covers. change (splitSlash "/") with (@nil string). apply prefix_nil. Qed.

Lemma overflow_accounts c export n e : we_Export e = export → accounted (overflow export "/" n c) e.
Proof.
  intros <-. right. cbn. rewrite lookup_insert_eq. eexists. split; [done|]. destruct (co_lost c !! we_Export e); cbn; [|apply root_covers].
  apply commonDir_covers. right. apply root_covers.
Qed.

(** When events were lost before a share could be named, because the kernel's
    queue or the watcher's own ran over, every share that is watched is told: a
    change to any path of it stays accounted for until a flush reports it or a
    directory above it. *)
Theorem missed_events_are_announced p r e ins c' outs :
  r ∈ wt_roots (pr_tree p) → we_Export e = sr_export r → replay ins (pr_co (processMissed p)) = (c', outs) →
  accounted c' e ∨ ∃ out, out ∈ outs ∧ reported out e.
Proof.
  intros Hr He. apply replay_accounts. cbn. generalize (pr_co p). induction Hr as [r roots|r r' roots Hr IH]; intros c; cbn; [|by apply IH].
  assert (accounted (overflow (sr_export r) "/" 0 c) e) as Ha by (by apply overflow_accounts). revert Ha. generalize (overflow (sr_export r) "/" 0 c).
  clear. induction roots as [|r roots IH]; intros c Ha; [done|]. cbn. apply IH. by apply lost_grows.
Qed.

End watcher.

(** ** What is sent, and what is lost on the way *)

(** The frames that are taken from the channel, one turn of [send] each. *)
Fixpoint sendAll (Send : Frame → bool) (frames : list Frame) (w : Watcher) : list Frame * Watcher :=
  match frames with
  | [] => ([], w)
  | f :: frames' => let '(out, w') := sendFrame Send f w in let '(out', w'') := sendAll Send frames' w' in ((out ++ out')%list, w'')
  end.

Definition eventsOf (export : string) (frames : list Frame) : list WireEvent :=
  filter (λ e, we_Export e = export) (frames ≫= fr_Events).

Definition away (w : Watcher) (export : string) : Z := default 0 (wa_disconnected w !! export).

Lemma countAway_spec events d export :
  default 0 (foldl countAway d events !! export) = default 0 (d !! export) + Z.of_nat (length (filter (λ e, we_Export e = export) events)).
Proof.
  revert d. induction events as [|e events IH]; intros d; cbn [foldl]; [cbn; lia|]. rewrite IH. unfold countAway.
  destruct (decide (we_Export e = export)) as [<-|Hne].
  - rewrite lookup_insert_eq, filter_cons_True by done. cbn [length]. change (default 0 (Some ?x)) with x. lia.
  - rewrite lookup_insert_ne, filter_cons_False by done. done.
Qed.

Lemma sendAll_away Send frames w out w' : wa_sink w = false → sendAll Send frames w = (out, w') →
  out = [] ∧ wa_sink w' = false ∧ (∀ export, away w' export = away w export + Z.of_nat (length (eventsOf export frames))).
Proof.
  revert w out. induction frames as [|f frames IH]; intros w out Hs; cbn [sendAll].
  { intros [= <- <-]. split_and!; [done|done|]. intros export. cbn. lia. }
  unfold sendFrame. rewrite Hs. cbn [negb]. destruct (sendAll Send frames _) as [out' w1] eqn:Er. intros [= <- <-].
  apply IH in Er as (-> & Hs' & Haw); [|done]. split_and!; [done|done|]. intros export. rewrite Haw. unfold away, eventsOf. cbn [wa_disconnected countDropped map_stats set_disconnected].
  rewrite countAway_spec. cbn [mbind list_bind]. rewrite filter_app, length_app. lia.
Qed.

(** What was lost while there was no connection is announced before anything
    else: with the next frame go first the notices, one for each share that lost
    changes, with how many, and then nothing is owed. *)
Theorem away_changes_announced Send frames w out w' frame :
  (∀ f, Send f = true) → wa_sink w = false → wa_disconnected w = ∅ → sendAll Send frames w = (out, w') →
  ∃ notices w'', sendFrame Send frame (SetSink true w') = ((noticeFrame <$> notices) ++ [frame], w'') ∧ out = [] ∧ wa_disconnected w'' = ∅ ∧
    ∀ export, eventsOf export frames ≠ [] →
      {| wn_Export := export; wn_Path := "/"; wn_Dropped := Z.of_nat (length (eventsOf export frames)); wn_Reason := "disconnected" |} ∈ notices.
Proof.
  intros Hsend Hs H0 E. apply sendAll_away in E as (-> & _ & Haw); [|done]. unfold sendFrame. cbn [SetSink wa_sink negb takeDisconnected].
  set (pending := disconnectedNotice <$> map_to_list (wa_disconnected (SetSink true w'))). rewrite Hsend.
  assert (filter (λ f, Send f = true) (noticeFrame <$> pending) = noticeFrame <$> pending) as ->.
  { clear -Hsend. induction (noticeFrame <$> pending) as [|f l IH]; [done|]. rewrite filter_cons_True by apply Hsend. by rewrite IH. }
  eexists pending, _. split; [done|]. split_and!; [done| |].
  - cbn. assert (∀ l u, wa_disconnected (foldl (λ w n, tell_lost n w) u l) = wa_disconnected u) as ->; [|done].
    clear. intros l. induction l as [|n l IH]; intros u; [done|]. cbn. by rewrite IH.
  - intros export Hne. specialize (Haw export). unfold away in Haw. rewrite H0, lookup_empty in Haw. change (default 0 None) with 0 in Haw.
    destruct (wa_disconnected w' !! export) as [n|] eqn:En.
    + change (default 0 (Some n)) with n in Haw. apply list_elem_of_fmap. exists (export, n). split; [unfold disconnectedNotice; cbn; f_equal; lia|]. by apply elem_of_map_to_list.
    + change (default 0 None) with 0 in Haw. destruct (eventsOf export frames); [done|]. cbn in Haw. lia.
Qed.

Definition waiting (w : Watcher) : Z := Z.of_nat (length (wa_out w ≫= fr_Events)).
Definition tally (w : Watcher) : Z := st_Sent (wa_stats w) + st_Dropped (wa_stats w) + waiting w.

Lemma queue_tally w frame : tally w + Z.of_nat (length (fr_Events frame)) ≤ tally (queue w frame).
Proof.
  unfold queue, tally, waiting. destruct (_ <? _); cbn; [|lia]. rewrite bind_app, length_app. cbn. rewrite app_nil_r. lia.
Qed.

Lemma emit_tally events notices w : tally w + Z.of_nat (length events) ≤ tally (emit events notices w).
Proof.
  unfold emit. assert (tally w ≤ tally (foldl (λ w n, queue (tell_lost n w) (noticeFrame n)) w notices)) as Hn.
  { revert w. induction notices as [|n notices IH]; intros w; [done|]. cbn. etrans; [|apply IH]. etrans; [|apply queue_tally]. unfold tally, waiting. cbn. lia. }
  set (w1 := foldl _ w notices) in *. set (kept := filter _ events).
  assert (length kept ≤ length events)%nat as Hk by apply length_filter.
  assert (tally (countDropped (Z.of_nat (length events - length kept)) w1) = tally w1 + Z.of_nat (length events - length kept)) as Hc by (unfold tally, waiting; cbn; lia).
  case_bool_decide as He; [rewrite Hc; rewrite He; cbn; lia|]. etrans; [|apply queue_tally]. rewrite Hc. cbn. lia.
Qed.

Lemma send_tally Send w : tally (send Send w).2 = tally w.
Proof.
  unfold send. destruct (wa_out w) as [|f out] eqn:Eo; [done|]. unfold tally at 2, waiting. rewrite Eo. cbn [mbind list_bind]. rewrite length_app.
  assert (∀ l u, wa_stats (foldl (λ w n, tell_lost n w) u l) = wa_stats u ∧ wa_out (foldl (λ w n, tell_lost n w) u l) = wa_out u) as Hl.
  { clear. intros l. induction l as [|n l IH]; intros u; [done|]. cbn. destruct (IH (tell_lost n u)) as [-> ->]. done. }
  unfold sendFrame. destruct (negb _); [unfold tally, waiting; cbn; lia|]. cbn [takeDisconnected]. destruct (Send f).
  - unfold tally, waiting. cbn. match goal with |- context [foldl ?g ?u ?l] => destruct (Hl l u) as [-> ->] end. cbn. lia.
  - unfold tally, waiting. cbn. match goal with |- context [foldl ?g ?u ?l] => destruct (Hl l u) as [-> ->] end. cbn. lia.
Qed.
