(* ===== verification/Json.v ===== *)
(** * JSON, as encoding/json reads and writes it

    A body is the value its text holds; a number keeps its text, which is what the
    code compares.  An object decoded into a Go map is a [gmap], the last of a key
    holding; [null] gives a nil map or slice, hence [option]; a raw message that is
    absent is [None], and decoding it fails.  Texts written by [json.Marshal] are
    [jsonText]: bytes that encode no rune become U+FFFD. *)
From Stdlib Require Import Ascii.
From S2P Require Import Prelude GoStrings Records Names Mounts.

Open Scope Z_scope.

(** ** Texts *)

Definition replacement : string := String (ascii_of_nat 239) (String (ascii_of_nat 191) (String (ascii_of_nat 189) "")).

Fixpoint jsonGo (fuel : nat) (s : string) : string :=
  match fuel, s with
  | S fuel', String _ _ =>
      let '(r, n) := DecodeRune s in
      if (r =? RuneError) && (n =? 1)%nat then replacement +:+ jsonGo fuel' (dropBytes 1 s)
      else firstBytes n s +:+ jsonGo fuel' (dropBytes n s)
  | _, _ => ""
  end.
Definition jsonText (s : string) : string := jsonGo (strlen s) s.

Lemma DecodeRune_visible a s : visible a = true → DecodeRune (String a s) = (Z.of_nat (nat_of_ascii a), 1%nat) ∧ Z.of_nat (nat_of_ascii a) ≠ RuneError.
Proof.
  unfold visible. intros H. apply andb_true_iff in H as [H1%Nat.leb_le H2%Nat.leb_le]. split; [|unfold RuneError; lia].
  unfold DecodeRune. cbn [String.get]. rewrite (proj2 (Z.ltb_ge _ _)) by lia. rewrite (proj2 (Z.ltb_lt _ 128)) by lia. done.
Qed.

Lemma jsonText_visible s : everyByte visible s = true → jsonText s = s.
Proof.
  unfold jsonText. induction s as [|a s IH]; [done|]. cbn [everyByte strlen]. intros [Ha Hs]%andb_true_iff. cbn [jsonGo].
  destruct (DecodeRune_visible a s Ha) as [-> Hne]. rewrite (proj2 (Z.eqb_neq _ _) Hne). cbn. by rewrite IH.
Qed.

(** [strings.EqualFold] with an ASCII text, given in lower case: a letter folds to its
    upper case, an s to the long s and a k to the Kelvin sign too. *)
Definition longS : string := String (ascii_of_nat 197) (String (ascii_of_nat 191) "").
Definition kelvin : string := String (ascii_of_nat 226) (String (ascii_of_nat 132) (String (ascii_of_nat 170) "")).
Definition folds (a : ascii) : list string :=
  let n := nat_of_ascii a in
  String a "" :: (if (97 <=? n)%nat && (n <=? 122)%nat then [String (ascii_of_nat (n - 32)) ""] else []) ++
  (if Ascii.eqb a "s" then [longS] else []) ++ (if Ascii.eqb a "k" then [kelvin] else []).
Fixpoint foldsTo (t s : string) : bool :=
  match t with
  | EmptyString => bool_decide (s = "")
  | String a t' => existsb (λ w, match strings.CutPrefix s w with Some rest => foldsTo t' rest | None => false end) (folds a)
  end.

(** ** Values *)

Inductive json :=
| JNull
| JBool (b : bool)
| JNumber (text : string)
| JString (s : string)
| JArray (l : list json)
| JObject (l : list (string * json)).

Abbreviation obj := (gmap string json).

Definition asMap (l : list (string * json)) : obj := list_to_map (reverse l).

(** [raw[k]] of a map that may be nil. *)
Definition field (k : string) (o : option obj) : option json := o ≫= lookup k.

(** [ok && string(raw) != "null"]. *)
Definition given (raw : option json) : option json := match raw with Some JNull => None | _ => raw end.

(** ** Decoding; [None] is an error *)

Definition decString (j : option json) : option string :=
  match j with Some (JString s) => Some s | Some JNull => Some ""%string | _ => None end.

(** Into an [int] that is zero; an error leaves it so. *)
Definition decInt (j : option json) : Z :=
  match j with Some (JNumber t) => default 0 (Atoi t) | _ => 0 end.

Definition decObject (j : json) : option (option obj) :=
  match j with JNull => Some None | JObject l => Some (Some (asMap l)) | _ => None end.

Definition decSlice {A} (dec : json → option A) (j : json) : option (option (list A)) :=
  match j with JNull => Some None | JArray l => Some <$> mapM dec l | _ => None end.

Definition decStrings : json → option (option (list string)) := decSlice (decString ∘ Some).
Definition decObjects : json → option (option (list (option obj))) := decSlice decObject.

(** Into a map of strings: an element of another type is the empty string, and the
    error. *)
Definition textOf (j : json) : string := match j with JString s => s | _ => "" end.
Definition isText (j : json) : bool := match j with JString _ | JNull => true | _ => false end.
Definition decTexts (j : json) : option (option (gmap string string)) * bool :=
  match j with
  | JNull => (Some None, true)
  | JObject l => (Some (Some (textOf <$> asMap l)), forallb (isText ∘ snd) l)
  | _ => (None, false)
  end.

(** ** Encoding; the keys of a map are sorted *)

Definition key_leb (a b : string * json) : bool := string_leb a.1 b.1.
Definition encMap (m : obj) : json := JObject (stable_sort key_leb (map_to_list m)).
Definition encObject (o : option obj) : json := match o with Some m => encMap m | None => JNull end.
Definition encSlice {A} (enc : A → json) (l : option (list A)) : json := match l with Some l => JArray (enc <$> l) | None => JNull end.
Definition encString (s : string) : json := JString (jsonText s).
Definition encTexts (m : gmap string string) : json := encMap (encString <$> m).

(** ** Reading what was written *)

Lemma asMap_encMap (m : obj) : asMap (stable_sort key_leb (map_to_list m)) = m.
Proof.
  unfold asMap. rewrite <- (list_to_map_to_list m) at 2. apply list_to_map_proper.
  - rewrite fmap_reverse, reverse_Permutation, stable_sort_Permutation. apply NoDup_fst_map_to_list.
  - by rewrite reverse_Permutation, stable_sort_Permutation.
Qed.

Lemma dec_encMap m : decObject (encMap m) = Some (Some m).
Proof. cbn. by rewrite asMap_encMap. Qed.

Lemma dec_encObject o : decObject (encObject o) = Some o.
Proof. destruct o as [m|]; [apply dec_encMap|done]. Qed.

Lemma dec_encSlice {A} (dec : json → option A) enc l : (∀ a, dec (enc a) = Some a) → decSlice dec (encSlice enc l) = Some l.
Proof.
  intros H. destruct l as [l|]; [|done]. cbn. replace (mapM dec (enc <$> l)) with (Some l); [done|]. symmetry. apply mapM_Some.
  induction l; constructor; auto.
Qed.

Lemma asMap_lookup l k j : asMap l !! k = Some j → (k, j) ∈ l.
Proof. unfold asMap. intros H%elem_of_list_to_map_2. by rewrite elem_of_reverse in H. Qed.
