(* ===== verification/Rewrite.v ===== *)
(** * Rewriting bind mounts (client/internal/rewrite: bindspec.go, mode.go,
    rewrite.go, gc.go)

    A [-v] argument and its parsing; the words of one mount settled against the
    session's rules and what the workspace can serve; the volume or union that
    backs it; and the collector of volumes nothing uses.  What the code calls (the
    session's share registry, the daemon, the cache channel, the watcher) is
    recorded in a log, and answers as a function of the log so far.  JSON around
    the lists is left out, as are the texts of errors, which are inductive. *)

From Stdlib Require Import Ascii.
From S2P Require Import Prelude GoStrings Records Names Forwards Mounts.
Open Scope Z_scope.

(** ** bindspec.go *)

Record BindSpec := {
  bs_Source : string;
  bs_Target : string;
  bs_Options : string
}.

Definition colonSep : ascii := ":".

Definition nonempty (s : string) : list string := if bool_decide (s = "") then [] else [s].

Definition BindSpec_String (b : BindSpec) : string :=
  strings.Join (nonempty (bs_Source b) ++ [bs_Target b] ++ nonempty (bs_Options b)) ":".

Definition isAlpha (c : ascii) : bool :=
  let n := nat_of_ascii c in ((97 <=? n) && (n <=? 122))%nat || ((65 <=? n) && (n <=? 90))%nat.
Definition isSeparator (c : ascii) : bool := Ascii.eqb c "/" || Ascii.eqb c backslash.

(** [splitBind]'s loop: [cur] is what has been read of the field. *)
Definition driveColon (cur rest : string) : bool :=
  match cur, rest with
  | String a EmptyString, String b _ => isAlpha a && isSeparator b
  | _, _ => false
  end.

Fixpoint splitFrom (cur s : string) : list string :=
  match s with
  | EmptyString => [cur]
  | String a s' =>
      if negb (Ascii.eqb a colonSep) then splitFrom (cur +:+ String a "") s'
      else if driveColon cur s' then splitFrom (cur +:+ ":") s'
      else cur :: splitFrom "" s'
  end.
Definition splitBind (spec : string) : list string := splitFrom "" spec.

(** Whether the second field is there and starts with a slash. *)
Definition slashTarget (fields : list string) : bool :=
  match fields with _ :: target :: _ => strings.HasPrefix target "/" | _ => false end.

Definition resolveFields (spec : string) : list string :=
  let drive := splitBind spec in
  if slashTarget drive then drive
  else let plain := strings.Split spec colonSep in
       if slashTarget plain then plain else drive.

Definition ParseBind (spec : string) : option BindSpec :=
  if bool_decide (strings.TrimSpace spec = "") then None
  else match resolveFields spec with
       | [target] => Some {| bs_Source := ""; bs_Target := target; bs_Options := "" |}
       | [source; target] => Some {| bs_Source := source; bs_Target := target; bs_Options := "" |}
       | [source; target; options] => Some {| bs_Source := source; bs_Target := target; bs_Options := options |}
       | _ => None
       end.

Definition driveRooted (source : string) : bool :=
  match source with
  | String a (String b (String c _)) => isAlpha a && Ascii.eqb b colonSep && isSeparator c
  | _ => false
  end.

Definition IsLocalPath (source : string) : bool :=
  if bool_decide (source = "") then false
  else strings.HasPrefix source "/"
       || bool_decide (source = "." ∨ source = "..")
       || (strings.HasPrefix source "./" || strings.HasPrefix source "../")
       || (strings.HasPrefix source ".\" || strings.HasPrefix source "..\")
       || strings.HasPrefix source "\\"
       || driveRooted source.

(** ** mode.go: words *)

Definition dockerSpelling (asked : string) : string := if DockerWord asked then strings.TrimSpace asked else "".

Definition splitMode (options : string) : res wordError (MountWords * string * string) :=
  if bool_decide (options = "") then Ok ({| mw_Mode := ModeUnset; mw_Share := noShareWords |}, "", "")%string
  else
    let opts := strings.Split options comma in
    let asked := strings.Join (filter (λ o, IsModeWord o = true) opts) "," in
    let? got := ParseMount asked in
    Ok (got, dockerSpelling asked, strings.Join (filter (λ o, IsModeWord o = false) opts) ",").

Definition ourWord (o : string) : bool := IsModeWord o && negb (DockerWord o).

Definition withoutOurWords (options : string) : res wordError string :=
  let opts := strings.Split options comma in
  match filter (λ o, ourWord o = true) opts with
  | [] => Ok options
  | ours => let? _ := ParseMount (strings.Join ours ",") in
            Ok (strings.Join (filter (λ o, ourWord o = false) opts) ",")
  end.

(** ** What a rewriter asks of others *)

Inductive rewriteError :=
| BadWords (e : wordError)
| WatchOffRefused (source : string)
| PrefetchRefused (source : string)
| UnionUnavailable (source reported : string)
| NoCacheChannel
| CacheUnreachable (why : string)
| OwnerNotServed (source : string)
| NoWatcher (source : string)
| WatcherFailed (source why : string)
| ShareFailed (source why : string)
| FileInUnion (source : string)
| NoSubpath (source : string)
| NotAnExport (e : nameError)
| VolumeFailed (source why : string)
| PrepareFailed (source why : string)
| FileOption (source option : string)
| Undecodable (what : string)
| PortTaken (port : Z)
| Panics.

Inductive call :=
| CallAskUnion
| CallOpenCache
| CallStartWatcher
| CallShare (source : string) (words : MountWords)
| CallEnsureVolume (name : string) (opts : list (string * string)) (labels : gmap string string)
| CallPrepare (export cache : string) (port : Z) (mode : Mode) (owner : Owner)
| CallAttach (export source : string) (mode : Mode) (words : ShareWords).

(** The answers, given every call made before.  [OpenCache]'s is whether the
    workspace serves a union's owner. *)
Record world := {
  wo_AskUnion : option (list call → res string string);
  wo_OpenCache : option (list call → res string bool);
  wo_StartWatcher : option (list call → option string);
  wo_Share : list call → string → MountWords → res string (string * string);
  wo_EnsureVolume : list call → string → option string;
  wo_Prepare : list call → string → string → res string string
}.

(** What one request carries along: the calls made, and the variants prepared. *)
Record request := {
  rq_log : list call;
  rq_mounts : gset string
}.

Definition M (A : Type) : Type := request → res rewriteError A * request.

Definition ret {A} (a : A) : M A := λ q, (Ok a, q).
Definition throw {A} (e : rewriteError) : M A := λ q, (Err e, q).
Definition bindM {A B} (m : M A) (k : A → M B) : M B :=
  λ q, match m q with (Ok a, q') => k a q' | (Err e, q') => (Err e, q') end.
Definition note (c : call) : M unit := λ q, (Ok tt, {| rq_log := rq_log q ++ [c]; rq_mounts := rq_mounts q |}).
Definition logged : M (list call) := λ q, (Ok (rq_log q), q).
Definition prepared (key : string) : M bool := λ q, (Ok (bool_decide (key ∈ rq_mounts q)), q).
Definition prepare (key : string) : M unit := λ q, (Ok tt, {| rq_log := rq_log q; rq_mounts := {[key]} ∪ rq_mounts q |}).
Definition lift {A} (f : wordError → rewriteError) (r : res wordError A) : M A :=
  λ q, (match r with Ok a => Ok a | Err e => Err (f e) end, q).

Declare Scope rewrite_scope.
Delimit Scope rewrite_scope with rewrite.
Notation "'do' x <- m ; k" := (bindM m (λ x, k)) (at level 200, x name, m at level 100, k at level 200) : rewrite_scope.
Notation "'do' ' p <- m ; k" := (bindM m (λ p, k)) (at level 200, p pattern, m at level 100, k at level 200) : rewrite_scope.
#[local] Open Scope rewrite_scope.

(** [Rewriter]: its fields that decide; the map of rules in the order it is ranged
    over. *)
Record Rewriter := {
  rw_NFSPort : Z;
  rw_NConnect : Z;
  rw_Owner : string;
  rw_Client : string;
  rw_Mode : Mode;
  rw_ModePaths : list (string * Mode);
  rw_ShareOwner : Owner;
  rw_ShareFMask : Mask;
  rw_ShareDMask : Mask;
  rw_UnionReady : string;
  rw_Watch : Watch;
  rw_Prefetch : Prefetch;
  rw_DockerVersion : string;
  rw_DaemonPaths : list string
}.

Definition UnionReady : string := "ready".

Section rewriting.
Context (CanonicalKey : string → string) (wd : world) (r : Rewriter).

(** [modeFor]: the deepest rule that contains the path. *)
Definition containsKey (key p : string) : bool := bool_decide (key = p) || strings.HasPrefix key (strings.TrimSuffix p "/" +:+ "/").

Definition modeStepFor (key : string) (best : Mode * Z) (rule : string * Mode) : Mode * Z :=
  let p := CanonicalKey rule.1 in
  if negb (containsKey key p) then best
  else if best.2 <? Z.of_nat (strlen p) then (rule.2, Z.of_nat (strlen p)) else best.

Definition modeFor (localPath : string) : Mode :=
  let key := CanonicalKey localPath in
  Or (fst (foldl (modeStepFor key) (ModeUnset, -1) (rw_ModePaths r))) (rw_Mode r).

(** [resolveWatch] and [resolvePrefetch]. *)
Definition resolveWatch (source : string) (asked : Watch) (mode : Mode) : M Watch :=
  let needs := bool_decide (md_Read mode = ReadCached) || Union mode in
  if bool_decide (asked = WatchOff) && needs then throw (WatchOffRefused source)
  else
    let watch := if bool_decide (asked = WatchUnset) then rw_Watch r else asked in
    let watch := if bool_decide (watch = WatchUnset) then WatchOff else watch in
    ret (if bool_decide (watch = WatchOff) && needs then WatchPartial else watch).

Definition resolvePrefetch (source : string) (asked : Prefetch) (mode : Mode) : M Prefetch :=
  if Prefetching asked && negb (Mode_Prefetch mode) then throw (PrefetchRefused source)
  else
    let prefetch := if bool_decide (asked = PrefetchUnset) then rw_Prefetch r else asked in
    ret (if bool_decide (prefetch = PrefetchUnset) || negb (Mode_Prefetch mode) then PrefetchOff else prefetch).

Definition startWatcher (source : string) : M unit :=
  match wo_StartWatcher wd with
  | None => throw (NoWatcher source)
  | Some answer =>
      do log <- logged;
      do _ <- note CallStartWatcher;
      match answer log with Some why => throw (WatcherFailed source why) | None => ret tt end
  end.

Definition openCache : M bool :=
  match wo_OpenCache wd with
  | None => throw NoCacheChannel
  | Some answer =>
      do log <- logged;
      do _ <- note CallOpenCache;
      match answer log with Ok serves => ret serves | Err why => throw (CacheUnreachable why) end
  end.

Definition unionCapability : M string :=
  match wo_AskUnion wd with
  | Some answer =>
      if bool_decide (rw_UnionReady r = UnionReady) then ret (rw_UnionReady r)
      else
        do log <- logged;
        do _ <- note CallAskUnion;
        ret (match answer log with Ok got => got | Err _ => rw_UnionReady r end)
  | None => ret (rw_UnionReady r)
  end.

(** [unionAvailable]: any answer but [ready] is refused. *)
Definition unionAvailable (reported : string) : bool := bool_decide (reported = UnionReady).

Definition rootOwner : Owner := {| ow_UID := 0; ow_GID := 0; ow_Set := true |}.

(** The words settled, before anything is asked. *)
Definition settled (source : string) (asked : MountWords) : MountWords :=
  let s := mw_Share asked in
  let owner := if ow_Set (sw_Owner s) then sw_Owner s else rw_ShareOwner r in
  {| mw_Mode := Or (Or (mw_Mode asked) (modeFor source)) DefaultMode;
     mw_Share := {| sw_Owner := if ow_Set owner then owner else rootOwner;
                    sw_FMask := if mk_Set (sw_FMask s) then sw_FMask s else {| mk_Bits := mk_Bits (rw_ShareFMask r); mk_Set := true |};
                    sw_DMask := if mk_Set (sw_DMask s) then sw_DMask s else {| mk_Bits := mk_Bits (rw_ShareDMask r); mk_Set := true |};
                    sw_Watch := sw_Watch s;
                    sw_Prefetch := sw_Prefetch s |} |}.

Definition with_watch (w : Watch) (p : Prefetch) (m : MountWords) : MountWords :=
  {| mw_Mode := mw_Mode m;
     mw_Share := {| sw_Owner := sw_Owner (mw_Share m); sw_FMask := sw_FMask (mw_Share m); sw_DMask := sw_DMask (mw_Share m);
                    sw_Watch := w; sw_Prefetch := p |} |}.

(** The key of a variant in one request. *)
Definition variantKey (source : string) (m : MountWords) : string :=
  CanonicalKey source +:+ nulText +:+ Mode_String (mw_Mode m) +:+ nulText +:+ Owner_String (sw_Owner (mw_Share m)) +:+
  nulText +:+ Mask_String (sw_FMask (mw_Share m)) +:+ nulText +:+ Mask_String (sw_DMask (mw_Share m)).

Definition startIfWatching (source : string) (w : Watch) : M unit := if Watching w then startWatcher source else ret tt.

(** [resolveMount]. *)
Definition resolveMount (source : string) (asked : MountWords) : M MountWords :=
  let base := settled source asked in
  let got := mw_Mode base in
  do watch <- resolveWatch source (sw_Watch (mw_Share asked)) got;
  do prefetch <- resolvePrefetch source (sw_Prefetch (mw_Share asked)) got;
  let resolved := with_watch watch prefetch base in
  do _ <- (if Union got then
             do reported <- unionCapability;
             if unionAvailable reported then ret tt else throw (UnionUnavailable source reported)
           else ret tt);
  do again <- prepared (variantKey source resolved);
  if again then
    do _ <- startIfWatching source watch;
    ret resolved
  else
    do _ <- (if Union got then
               do serves <- openCache;
               if negb (bool_decide (sw_Owner (mw_Share resolved) = rootOwner)) && negb serves then throw (OwnerNotServed source) else ret tt
             else ret tt);
    do _ <- startIfWatching source watch;
    do _ <- prepare (variantKey source resolved);
    ret resolved.

(** ** rewrite.go *)

Definition ManagedLabel : string := "com.github.lhns.remote-docker".
Definition ManagedShare : string := "share".

Definition ownerLabels : gmap string string :=
  let labels := if bool_decide (rw_Owner r = "") then ∅ else {[OwnerLabel := rw_Owner r]} in
  if bool_decide (rw_Client r = "") then labels else <[ClientLabel := rw_Client r]> labels.

Definition minSubpathMajor : Z := 26.
Definition supportsSubpath (version : string) : bool :=
  let major := match strings.Cut version "." with Some (m, _) => m | None => version end in
  match Atoi (strings.TrimSpace major) with Some n => minSubpathMajor <=? n | None => true end.

Definition ensureVolume (source name : string) (opts : list (string * string)) (labels : gmap string string) : M unit :=
  do log <- logged;
  do _ <- note (CallEnsureVolume name opts labels);
  match wo_EnsureVolume wd log name with Some why => throw (VolumeFailed source why) | None => ret tt end.

Definition union (export share source : string) (labels : gmap string string) (words : MountWords) : M string :=
  let cache := CacheVolumeName share in
  do _ <- ensureVolume source cache [] labels;
  do _ <- openCache;
  do log <- logged;
  do _ <- note (CallPrepare export cache (rw_NFSPort r) (mw_Mode words) (sw_Owner (mw_Share words)));
  match wo_Prepare wd log export cache with
  | Err why => throw (PrepareFailed source why)
  | Ok merged =>
      do _ <- note (CallAttach export source (mw_Mode words) (mw_Share words));
      ret merged
  end.

Definition volumeFor (source : string) (words : MountWords) : M (string * string) :=
  do log <- logged;
  do _ <- note (CallShare source words);
  match wo_Share wd log source words with
  | Err why => throw (ShareFailed source why)
  | Ok (export, file) =>
      if negb (bool_decide (file = "")) && Union (mw_Mode words) then throw (FileInUnion source)
      else if negb (bool_decide (file = "")) && negb (supportsSubpath (rw_DockerVersion r)) then throw (NoSubpath source)
      else match VolumeNameForExport (rw_Client r) export with
           | Err e => throw (NotAnExport e)
           | Ok name =>
               let labels := <[ManagedLabel := ManagedShare]> ownerLabels in
               if Union (mw_Mode words) then
                 do merged <- union export name source labels words;
                 ret (merged, file)
               else
                 do _ <- ensureVolume source name (NFSVolumeOptions (rw_NFSPort r) export (md_Read (mw_Mode words)) (rw_NConnect r)) labels;
                 ret (name, file)
           end
  end.

(** [daemonSource]: the spelling to send the daemon, when it resolves the source. *)
Context (LocalExists : string → bool) (PosixSource : string → string).

Definition isDockerSocket (source : string) : bool := bool_decide (path.Clean source = "/var/run/docker.sock").

Definition declared (source : string) : bool :=
  if bool_decide (source = "") then false
  else
    let clean := path.Clean (replaceByte backslash path.sep source) in
    existsb (λ owned, let owned := path.Clean owned in bool_decide (clean = owned) || strings.HasPrefix clean (owned +:+ "/")) (rw_DaemonPaths r).

Definition daemonSource (source : string) : option string :=
  if negb (IsLocalPath source) then Some source
  else
    let posix := PosixSource source in
    if isDockerSocket source then Some source
    else if isDockerSocket posix then Some posix
    else if declared source && negb (LocalExists source) then Some source
    else if declared posix && negb (LocalExists source) then Some posix
    else None.

(** [fileMount]: the target, the volume, the file under it, and whether it is
    read-only. *)
Record fileMountSpec := {
  fm_Source : string;
  fm_Target : string;
  fm_Subpath : string;
  fm_ReadOnly : bool
}.

Fixpoint fileOptions (opts : list string) (readOnly : bool) : option bool * string :=
  match opts with
  | [] => (Some readOnly, "")
  | opt :: rest =>
      let o := strings.TrimSpace opt in
      if bool_decide (o = "" ∨ o = "rw") then fileOptions rest readOnly
      else if bool_decide (o = "ro") then fileOptions rest true
      else (None, opt)
  end.

Definition fileMount (volume file : string) (bind : BindSpec) : M fileMountSpec :=
  match fileOptions (strings.Split (bs_Options bind) comma) false with
  | (Some readOnly, _) => ret {| fm_Source := volume; fm_Target := bs_Target bind; fm_Subpath := file; fm_ReadOnly := readOnly |}
  | (None, opt) => throw (FileOption (bs_Source bind) opt)
  end.

(** The turn of [rewriteBinds] for one specification: what is kept in the list, or
    the mount it has become.  [Kept] leaves the request as it was. *)
Inductive rewritten := Kept (spec : string) | Rewrote (spec : string) | Moved (m : fileMountSpec).

Definition rewriteBind (spec : string) : M rewritten :=
  match ParseBind spec with
  | None => ret (Kept spec)
  | Some parsed =>
      match daemonSource (bs_Source parsed) with
      | Some source =>
          do options <- lift BadWords (withoutOurWords (bs_Options parsed));
          ret (if negb (bool_decide (options = bs_Options parsed)) || negb (bool_decide (source = bs_Source parsed))
               then Rewrote (BindSpec_String {| bs_Source := source; bs_Target := bs_Target parsed; bs_Options := options |})
               else Kept spec)
      | None =>
          do split <- lift BadWords (splitMode (bs_Options parsed));
          let '(asked, _, options) := split in
          do words <- resolveMount (bs_Source parsed) asked;
          do backing <- volumeFor (bs_Source parsed) words;
          let '(volume, file) := backing in
          let bind := {| bs_Source := bs_Source parsed; bs_Target := bs_Target parsed; bs_Options := options |} in
          if negb (bool_decide (file = "")) then
            do m <- fileMount volume file bind;
            ret (Moved m)
          else ret (Rewrote (BindSpec_String {| bs_Source := volume; bs_Target := bs_Target parsed; bs_Options := options |}))
      end
  end.

Fixpoint rewriteBinds (specs : list string) : M (list rewritten) :=
  match specs with
  | [] => ret []
  | spec :: rest =>
      do x <- rewriteBind spec;
      do xs <- rewriteBinds rest;
      ret (x :: xs)
  end.

End rewriting.
