(* ===== verification/RewriteProofs.v ===== *)
(** * Properties of the rewriting of bind mounts (client/internal/rewrite) *)

From Stdlib Require Import Ascii.
From S2P Require Import Prelude GoStrings Records Names Forwards Mounts Rewrite.
Open Scope Z_scope.
#[local] Open Scope rewrite_scope.

(** ** A bind specification *)

Lemma splitFrom_plain cur s t :
  strings.Contains s colonSep = false → driveColon (cur +:+ s) t = false →
  splitFrom cur (s +:+ String colonSep t) = (cur +:+ s) :: splitFrom "" t.
Proof.
  revert cur. induction s as [|a s IH]; intros cur; cbn [strings.Contains String.append splitFrom].
  - rewrite append_nil_r. intros _ ->. done.
  - intros [Ha Hs]%orb_false_iff Hd. rewrite Ha. cbn [negb]. rewrite IH; rewrite ?append_assoc; done.
Qed.

Lemma splitFrom_end cur s : strings.Contains s colonSep = false → splitFrom cur s = [cur +:+ s].
Proof.
  revert cur. induction s as [|a s IH]; intros cur; cbn [strings.Contains splitFrom]; [by rewrite append_nil_r|].
  intros [Ha Hs]%orb_false_iff. rewrite Ha. cbn [negb]. rewrite IH by done. by rewrite append_assoc.
Qed.

(** A source with no colon, or one colon behind a drive letter. *)
Definition plainSource (s : string) : Prop := s ≠ ""%string ∧ strings.Contains s colonSep = false.
Definition driveSource (s : string) : Prop :=
  ∃ a b rest, s = String a (String ":" (String b rest)) ∧ isAlpha a = true ∧ isSeparator b = true ∧ strings.Contains rest colonSep = false.

Definition goodTarget (t : string) : Prop := strings.HasPrefix t "/" = true ∧ strings.Contains t colonSep = false.

Lemma splitFrom_drive s t :
  driveSource s → splitBind (s +:+ String colonSep t) = s :: splitFrom "" t.
Proof.
  intros (a & b & rest & -> & Ha & Hb & Hr). unfold splitBind. cbn [String.append splitFrom].
  assert (Ascii.eqb a colonSep = false) as -> by (destruct (Ascii.eqb_spec a colonSep) as [->|]; done).
  assert (Ascii.eqb b colonSep = false) as Eb by (destruct (Ascii.eqb_spec b colonSep) as [->|]; done).
  cbn [negb String.append driveColon Ascii.eqb]. change (Ascii.eqb ":" colonSep) with true. cbn [negb]. rewrite Ha, Hb. cbn [andb].
  rewrite Eb. cbn [negb String.append]. rewrite splitFrom_plain; [done|done|].
  cbn. by destruct rest.
Qed.

Lemma Split_three s t o :
  strings.Contains s colonSep = false → strings.Contains t colonSep = false → strings.Contains o colonSep = false →
  strings.Split (s +:+ String colonSep (t +:+ String colonSep o)) colonSep = [s; t; o].
Proof. intros Hs Ht Ho. rewrite !Split_append by done. by rewrite Split_no_Contains. Qed.

Lemma not_blank_slash s : strings.Contains s "/" = true → bool_decide (strings.TrimSpace s = ""%string) = false.
Proof. intros H. apply bool_decide_eq_false_2. by apply (TrimSpace_not_blank s "/"). Qed.

Lemma goodTarget_Contains t : goodTarget t → strings.Contains t "/" = true.
Proof. intros [[q ->]%HasPrefix_spec _]. done. Qed.

Lemma goodTarget_split t rest : goodTarget t → splitFrom "" (t +:+ String colonSep rest) = t :: splitFrom "" rest.
Proof.
  intros [[q ->]%HasPrefix_spec Hc]. rewrite splitFrom_plain; [done|done|]. cbn. destruct q; [|done]. by destruct rest.
Qed.

(** The fields behind the source. *)
Definition tailFields (t o : string) : list string := if bool_decide (o = ""%string) then [t] else [t; o].
Definition tailText (t o : string) : string := if bool_decide (o = ""%string) then t else t +:+ String colonSep o.

Lemma splitFrom_tail t o : goodTarget t → strings.Contains o colonSep = false → splitFrom "" (tailText t o) = tailFields t o.
Proof.
  intros Ht Ho. unfold tailText, tailFields. case_bool_decide; [by apply splitFrom_end, Ht|].
  rewrite goodTarget_split by done. by rewrite splitFrom_end.
Qed.

Lemma slashTarget_tail s t o : goodTarget t → slashTarget (s :: tailFields t o) = true.
Proof. intros [H _]. unfold tailFields. by case_bool_decide. Qed.

(** The plain reading; the drive reading gives way to it where the two differ. *)
Lemma plain_fields s t o :
  plainSource s → goodTarget t → strings.Contains o colonSep = false → strings.HasPrefix o "/" = false →
  resolveFields (s +:+ String colonSep (tailText t o)) = s :: tailFields t o.
Proof.
  intros [Hne Hs] Ht Ho Hos. unfold resolveFields. destruct (driveColon s (tailText t o)) eqn:Ed.
  - assert (strings.Split (s +:+ String colonSep (tailText t o)) colonSep = s :: tailFields t o) as ->.
    { unfold tailText, tailFields. case_bool_decide; rewrite Split_append by done; [by rewrite Split_no_Contains by apply Ht|].
      rewrite Split_append by apply Ht. by rewrite Split_no_Contains. }
    rewrite slashTarget_tail by done.
    assert (slashTarget (splitBind (s +:+ String colonSep (tailText t o))) = false) as ->; [|done].
    destruct s as [|a [|]]; [done| |done]. unfold splitBind. cbn [String.append splitFrom]. cbn in Hs. rewrite orb_false_r in Hs. rewrite Hs.
    cbn [negb String.append]. change (Ascii.eqb colonSep colonSep) with true. cbn [negb]. rewrite Ed. cbn [String.append].
    unfold tailText. case_bool_decide; [by rewrite splitFrom_end by apply Ht|].
    rewrite splitFrom_plain by (apply Ht || done). by rewrite splitFrom_end.
  - unfold splitBind. rewrite splitFrom_plain by done. cbn [String.append]. rewrite splitFrom_tail by done. by rewrite slashTarget_tail.
Qed.

Lemma BindSpec_String_tail s t o :
  s ≠ ""%string → BindSpec_String {| bs_Source := s; bs_Target := t; bs_Options := o |} = s +:+ String colonSep (tailText t o).
Proof.
  intros Hs. unfold BindSpec_String, nonempty, tailText. cbn [bs_Source bs_Target bs_Options]. rewrite bool_decide_eq_false_2 by done.
  by case_bool_decide.
Qed.

(** A bind specification is read as it was written: a source that is a
    name, a path without a colon or a Windows path with a drive letter, an absolute
    target, and options that do not look like a path, come back from the text
    [docker -v] would carry, and so does an anonymous volume. *)
Theorem bind_spec_roundtrip b :
  goodTarget (bs_Target b) → strings.Contains (bs_Options b) colonSep = false → strings.HasPrefix (bs_Options b) "/" = false →
  (bs_Source b = ""%string ∧ bs_Options b = ""%string) ∨ plainSource (bs_Source b) ∨ driveSource (bs_Source b) →
  ParseBind (BindSpec_String b) = Some b.
Proof.
  destruct b as [s t o]. cbn [bs_Source bs_Target bs_Options]. intros Ht Ho Hos Hs. pose proof (goodTarget_Contains t Ht) as Hslash.
  unfold ParseBind. destruct Hs as [[-> ->]|Hs].
  { unfold BindSpec_String. cbn. rewrite not_blank_slash by done. unfold resolveFields, splitBind. rewrite splitFrom_end, Split_no_Contains by apply Ht. done. }
  assert (s ≠ ""%string) as Hne by (destruct Hs as [[? _]|(? & ? & ? & -> & _)]; done).
  rewrite BindSpec_String_tail by done. rewrite not_blank_slash.
  2: { rewrite Contains_append. cbn. apply orb_true_iff. right. unfold tailText. case_bool_decide; [done|]. by rewrite Contains_append, Hslash. }
  assert (resolveFields (s +:+ String colonSep (tailText t o)) = s :: tailFields t o) as ->.
  { destruct Hs as [Hp|Hd]; [by apply plain_fields|]. unfold resolveFields. rewrite splitFrom_drive by done. rewrite splitFrom_tail by done. by rewrite slashTarget_tail. }
  unfold tailFields. case_bool_decide; by subst.
Qed.

(** ** The rule for a directory *)

Lemma containsKey_prefix key p : containsKey key p = true → ∃ x, key = p +:+ x.
Proof.
  unfold containsKey. intros [->%bool_decide_eq_true|[x ->]%HasPrefix_spec]%orb_true_iff; [exists ""%string; by rewrite append_nil_r|].
  unfold strings.TrimSuffix. destruct (strings.CutSuffix p "/") as [q|] eqn:E; simpl.
  - apply CutSuffix_Some in E as ->. by exists x.
  - exists ("/" +:+ x). by rewrite append_assoc.
Qed.

Lemma prefix_same_length (p p' x x' : string) : p +:+ x = p' +:+ x' → strlen p = strlen p' → p = p'.
Proof.
  revert p'. induction p as [|a p IH]; intros [|a' p'] E Hl; try done. cbn in *. injection E as -> E. f_equal. apply IH; [done|lia].
Qed.

Definition with_rules (rules : list (string * Mode)) (r : Rewriter) : Rewriter :=
  {| rw_NFSPort := rw_NFSPort r; rw_NConnect := rw_NConnect r; rw_Owner := rw_Owner r; rw_Client := rw_Client r; rw_Mode := rw_Mode r;
     rw_ModePaths := rules; rw_ShareOwner := rw_ShareOwner r; rw_ShareFMask := rw_ShareFMask r; rw_ShareDMask := rw_ShareDMask r;
     rw_UnionReady := rw_UnionReady r; rw_Watch := rw_Watch r; rw_Prefetch := rw_Prefetch r; rw_DockerVersion := rw_DockerVersion r;
     rw_DaemonPaths := rw_DaemonPaths r |}.

Section rules.
Context (CanonicalKey : string → string).

(** A rule that speaks about a path, and how deep it is. *)
Definition speaks (key : string) (rule : string * Mode) : Prop := containsKey key (CanonicalKey rule.1) = true.
Definition depth (rule : string * Mode) : Z := Z.of_nat (strlen (CanonicalKey rule.1)).

Lemma modeStep_fold key rules best :
  let out := foldl (modeStepFor CanonicalKey key) best rules in
  best.2 ≤ out.2 ∧ (∀ rule, rule ∈ rules → speaks key rule → depth rule ≤ out.2) ∧
  (out = best ∨ ∃ rule, rule ∈ rules ∧ speaks key rule ∧ out = (rule.2, depth rule)).
Proof.
  cbn zeta. revert best. induction rules as [|rule rules IH]; intros best; cbn [foldl].
  { split_and!; [done|by intros ? ?%elem_of_nil|by left]. }
  destruct (IH (modeStepFor CanonicalKey key best rule)) as (H1 & H2 & H3). set (best' := modeStepFor CanonicalKey key best rule) in *.
  assert (best.2 ≤ best'.2 ∧ (speaks key rule → depth rule ≤ best'.2) ∧ (best' = best ∨ speaks key rule ∧ best' = (rule.2, depth rule))) as (B1 & B2 & B3).
  { unfold best', modeStepFor, speaks, depth. destruct (containsKey key _); cbn [negb]; [|split_and!; [done|done|by left]].
    destruct (Z.ltb_spec best.2 (Z.of_nat (strlen (CanonicalKey rule.1)))); cbn [snd]; split_and!; [lia|lia|by right|lia|lia|by left]. }
  split_and!; [lia| |].
  - intros rule' [->|Hin]%elem_of_cons Hs; [specialize (B2 Hs); lia|by apply H2].
  - destruct H3 as [->|(rule' & ? & ? & ?)]; [|right; exists rule'; split; [by right|done]].
    destruct B3 as [->|[? ->]]; [by left|]. right. exists rule. split; [left|done].
Qed.

Lemma speaks_same_depth key rule rule' : speaks key rule → speaks key rule' → depth rule = depth rule' → CanonicalKey rule.1 = CanonicalKey rule'.1.
Proof.
  unfold speaks, depth. intros (x & E)%containsKey_prefix (x' & E')%containsKey_prefix Hd. eapply prefix_same_length; [by rewrite <- E, <- E'|lia].
Qed.

(** A directory's mode is the deepest rule's: where the session's
    rules name different directories, the order in which the map of them is ranged
    over makes no difference; the rule chosen contains the path and no rule that
    contains it is deeper; and with none, the session's own mode stands. *)
Theorem deepest_rule_decides rules rules' r localPath :
  NoDup ((CanonicalKey ∘ fst) <$> rules) → rules ≡ₚ rules' →
  let key := CanonicalKey localPath in
  modeFor CanonicalKey (with_rules rules' r) localPath = modeFor CanonicalKey (with_rules rules r) localPath ∧
  ((Forall (λ rule, ¬ speaks key rule) rules ∧ modeFor CanonicalKey (with_rules rules r) localPath = rw_Mode r) ∨
   ∃ rule, rule ∈ rules ∧ speaks key rule ∧ Forall (λ rule', speaks key rule' → depth rule' ≤ depth rule) rules ∧
           modeFor CanonicalKey (with_rules rules r) localPath = Or rule.2 (rw_Mode r)).
Proof.
  intros Hnd Hp key. unfold modeFor. cbn [with_rules rw_ModePaths rw_Mode]. fold key.
  destruct (modeStep_fold key rules (ModeUnset, -1)) as (_ & A2 & A3), (modeStep_fold key rules' (ModeUnset, -1)) as (_ & B2 & B3).
  assert (∀ rule, depth rule ≤ -1 → False) as Hdeep by (intros rule; unfold depth; lia).
  split.
  - f_equal. f_equal. destruct A3 as [EA|(ra & Hra & Hsa & EA)], B3 as [EB|(rb & Hrb & Hsb & EB)]; rewrite EA, EB in *; cbn [snd] in *; [done| | |].
    + destruct (Hdeep rb). apply A2; [by rewrite Hp|done].
    + destruct (Hdeep ra). apply B2; [by rewrite <- Hp|done].
    + rewrite <- Hp in Hrb. assert (depth ra = depth rb) as Hd.
      { assert (depth rb ≤ depth ra) by (by apply A2). assert (depth ra ≤ depth rb) by (apply B2; [by rewrite <- Hp|done]). lia. }
      assert (ra = rb) as ->; [|done]. pose proof (speaks_same_depth key ra rb Hsa Hsb Hd) as Hk.
      apply list_elem_of_lookup in Hra as [i Hi], Hrb as [j Hj].
      assert (i = j) as ->; [|congruence]. eapply NoDup_lookup; [exact Hnd| |]; rewrite list_lookup_fmap, ?Hi, ?Hj; cbn; [done|by rewrite Hk].
  - destruct A3 as [EA|(ra & Hra & Hsa & EA)].
    + left. rewrite EA in *. split; [apply Forall_forall; intros rule Hin Hs; eapply Hdeep, A2; eauto|]. cbn [fst]. by destruct (rw_Mode r).
    + right. exists ra. rewrite EA in *. split_and!; [done|done|apply Forall_forall; intros rule' ? ?; by apply A2|done].
Qed.

End rules.

(** ** Settling a mount *)

Section settling.
Context (CanonicalKey : string → string) (wd : world) (r : Rewriter).

(** What a step leaves behind: the log grows, by calls in [ok]. *)
Definition extends (ok : call → Prop) (q q' : request) : Prop := ∃ calls, rq_log q' = rq_log q ++ calls ∧ Forall ok calls.

Lemma extends_refl ok q : extends ok q q.
Proof. exists []. by rewrite app_nil_r. Qed.

Lemma extends_trans ok q1 q2 q3 : extends ok q1 q2 → extends ok q2 q3 → extends ok q1 q3.
Proof. intros (c1 & E1 & F1) (c2 & E2 & F2). exists (c1 ++ c2). rewrite E2, E1, app_assoc. split; [done|]. by apply Forall_app. Qed.

Lemma extends_mono (ok ok' : call → Prop) q q' : (∀ c, ok c → ok' c) → extends ok q q' → extends ok' q q'.
Proof. intros H (c & E & F). exists c. split; [done|]. by eapply Forall_impl. Qed.

Lemma bindM_inv {A B} (m : M A) (k : A → M B) q out q' :
  bindM m k q = (out, q') → (∃ a q1, m q = (Ok a, q1) ∧ k a q1 = (out, q')) ∨ (∃ e, m q = (Err e, q') ∧ out = Err e).
Proof. unfold bindM. destruct (m q) as [[a|e] q1]; intros H; [left; eauto|right]. injection H as <- <-. eauto. Qed.

Lemma resolveWatch_spec source asked mode q out q' :
  resolveWatch r source asked mode q = (out, q') →
  q' = q ∧ match out with
           | Ok w => (bool_decide (md_Read mode = ReadCached) || Union mode = true → Watching w = true) ∧
                     (asked ≠ WatchUnset → asked ≠ WatchOff → w = asked) ∧ w ≠ WatchUnset
           | Err e => e = WatchOffRefused source
           end.
Proof.
  unfold resolveWatch. set (needs := _ || _). destruct (bool_decide_reflect (asked = WatchOff)) as [->|Hoff], needs eqn:En; cbn [andb];
    intros [= <- <-]; (split; [done|]); try done; split_and!; try done; destruct asked; try done; destruct (rw_Watch r); done.
Qed.

Lemma resolvePrefetch_spec source asked mode q out q' :
  resolvePrefetch r source asked mode q = (out, q') →
  q' = q ∧ match out with
           | Ok p => (Prefetching p = true → Mode_Prefetch mode = true) ∧ (asked ≠ PrefetchUnset → p = asked) ∧ p ≠ PrefetchUnset
           | Err e => e = PrefetchRefused source
           end.
Proof.
  unfold resolvePrefetch. destruct (Mode_Prefetch mode) eqn:Em; rewrite ?andb_false_r, ?andb_true_r; cbn [negb].
  - intros [= <- <-]. split; [done|]. split_and!; destruct asked, (rw_Prefetch r); done.
  - destruct (Prefetching asked) eqn:Ep; intros [= <- <-]; (split; [done|]); [done|].
    rewrite orb_true_r. split_and!; [done| |done]. destruct asked; done.
Qed.

(** Which errors mean that the watcher was wanted and is not there. *)
Definition watcherError (e : rewriteError) : Prop :=
  match e with NoWatcher _ | WatcherFailed _ _ => True | _ => False end.

Lemma startWatcher_spec source q out q' :
  startWatcher wd source q = (out, q') →
  rq_mounts q' = rq_mounts q ∧
  match out with
  | Ok _ => rq_log q' = rq_log q ++ [CallStartWatcher]
  | Err e => watcherError e ∧ extends (λ _, True) q q'
  end.
Proof.
  unfold startWatcher. destruct (wo_StartWatcher wd) as [answer|]; [|intros [= <- <-]; split; [done|]; split; [done|apply extends_refl]].
  unfold bindM, logged, note. cbn. destruct (answer (rq_log q)); intros [= <- <-]; cbn; (split; [done|]); [|done]. split; [done|]. exists [CallStartWatcher]. split; [done|]. by constructor.
Qed.

Lemma startIfWatching_spec source w q out q' :
  startIfWatching wd source w q = (out, q') →
  rq_mounts q' = rq_mounts q ∧
  match out with
  | Ok _ => if Watching w then rq_log q' = rq_log q ++ [CallStartWatcher] else q' = q
  | Err e => watcherError e ∧ extends (λ _, True) q q'
  end.
Proof.
  unfold startIfWatching. destruct (Watching w); [apply startWatcher_spec|]. by intros [= <- <-].
Qed.

Definition isAskUnion (c : call) : Prop := c = CallAskUnion.
Definition notWatcher (c : call) : Prop := c ≠ CallStartWatcher.

Definition servesUnions : Prop :=
  rw_UnionReady r = UnionReady ∨ ∃ answer log, wo_AskUnion wd = Some answer ∧ answer log = Ok UnionReady.

Lemma unionCapability_spec q out q' :
  unionCapability wd r q = (out, q') →
  rq_mounts q' = rq_mounts q ∧ extends notWatcher q q' ∧
  ∃ reported, out = Ok reported ∧ (reported = UnionReady → servesUnions).
Proof.
  unfold unionCapability, servesUnions. destruct (wo_AskUnion wd) as [answer|].
  2: { intros [= <- <-]. split_and!; [done|apply extends_refl|]. eexists. split; [done|]. auto. }
  case_bool_decide as Hr; [intros [= <- <-]; split_and!; [done|apply extends_refl|]; eexists; split; [done|]; auto|].
  unfold bindM, logged, note, ret. cbn. intros [= <- <-]. cbn. split_and!; [done|by exists [CallAskUnion]; split; [done|]; repeat constructor|].
  eexists. split; [done|]. destruct (answer (rq_log q)) eqn:E; [|done]. intros ->. right. eauto.
Qed.

Lemma openCache_spec q out q' :
  openCache wd q = (out, q') → rq_mounts q' = rq_mounts q ∧ extends notWatcher q q' ∧ match out with Ok _ => True | Err e => ¬ watcherError e end.
Proof.
  unfold openCache. destruct (wo_OpenCache wd) as [answer|]; [|intros [= <- <-]; split_and!; [done|apply extends_refl|auto]].
  unfold bindM, logged, note. cbn. destruct (answer (rq_log q)); intros [= <- <-]; cbn; (split_and!; [done|exists [CallOpenCache]; split; [done|repeat constructor; done]|auto]).
Qed.

(** The refusals between settling the words and starting the watcher. *)
Lemma unionStep_spec source mode q out q' :
  (if Union mode then
     do reported <- unionCapability wd r;
     if unionAvailable reported then ret tt else throw (UnionUnavailable source reported)
   else ret tt) q = (out, q') →
  rq_mounts q' = rq_mounts q ∧ extends notWatcher q q' ∧
  match out with Ok _ => Union mode = true → servesUnions | Err e => ¬ watcherError e end.
Proof.
  destruct (Union mode); [|intros [= <- <-]; split_and!; [done|apply extends_refl|done]].
  intros [(rep & q1 & H1 & H2)|(e & H1 & ->)]%bindM_inv; apply unionCapability_spec in H1 as (Hm & Hx & rep' & E & Hs); [|done].
  injection E as ->. unfold unionAvailable in H2. case_bool_decide as Ha; injection H2 as <- <-; auto.
Qed.

Lemma cacheStep_spec source mode owner q out q' :
  (if Union mode then
     do serves <- openCache wd;
     if negb (bool_decide (owner = rootOwner)) && negb serves then throw (OwnerNotServed source) else ret tt
   else ret tt) q = (out, q') →
  rq_mounts q' = rq_mounts q ∧ extends notWatcher q q' ∧ match out with Ok _ => True | Err e => ¬ watcherError e end.
Proof.
  destruct (Union mode); [|intros [= <- <-]; split_and!; [done|apply extends_refl|done]].
  intros [(serves & q1 & H1 & H2)|(e & H1 & ->)]%bindM_inv; apply openCache_spec in H1 as (Hm & Hx & He); [|done].
  destruct (_ && _); injection H2 as <- <-; auto.
Qed.

(** A mount settled: nothing left open, what was asked kept. *)
Definition settledWell (asked w : MountWords) : Prop :=
  (md_Read (mw_Mode w) ≠ ReadUnset ∧ md_Write (mw_Mode w) ≠ WriteUnset) ∧
  (md_Read (mw_Mode asked) ≠ ReadUnset → md_Read (mw_Mode w) = md_Read (mw_Mode asked)) ∧
  (md_Write (mw_Mode asked) ≠ WriteUnset → md_Write (mw_Mode w) = md_Write (mw_Mode asked)) ∧
  (ow_Set (sw_Owner (mw_Share w)) = true ∧ mk_Set (sw_FMask (mw_Share w)) = true ∧ mk_Set (sw_DMask (mw_Share w)) = true) ∧
  (ow_Set (sw_Owner (mw_Share asked)) = true → sw_Owner (mw_Share w) = sw_Owner (mw_Share asked)) ∧
  (mk_Set (sw_FMask (mw_Share asked)) = true → sw_FMask (mw_Share w) = sw_FMask (mw_Share asked)) ∧
  (mk_Set (sw_DMask (mw_Share asked)) = true → sw_DMask (mw_Share w) = sw_DMask (mw_Share asked)).

Lemma settled_well source asked watch prefetch : settledWell asked (with_watch watch prefetch (settled CanonicalKey r source asked)).
Proof.
  unfold settledWell, with_watch, settled. generalize (modeFor CanonicalKey r source). intros [fr fw].
  destruct asked as [[ar aw] [o f d w p]]. cbn [mw_Mode mw_Share sw_Owner sw_FMask sw_DMask]. split_and!.
  - by destruct ar, fr.
  - by destruct aw, fw.
  - by destruct ar.
  - by destruct aw.
  - destruct (ow_Set o) eqn:Eo; [by rewrite Eo|]. by destruct (ow_Set (rw_ShareOwner r)) eqn:Er.
  - by destruct (mk_Set f) eqn:Ef.
  - by destruct (mk_Set d) eqn:Ed.
  - intros Eo. by rewrite Eo, Eo.
  - by intros ->.
  - by intros ->.
Qed.

(** An accepted mount has the settled words, but for its watch and its prefetch. *)
Lemma resolveMount_words source asked q w q' :
  resolveMount CanonicalKey wd r source asked q = (Ok w, q') → settledWell asked w.
Proof.
  unfold resolveMount. intros [(watch & q1 & _ & H)|(e & _ & ?)]%bindM_inv; [|done].
  apply bindM_inv in H as [(prefetch & q2 & _ & H)|(e & _ & ?)]; [|done].
  apply bindM_inv in H as [([] & q3 & _ & H)|(e & _ & ?)]; [|done].
  apply bindM_inv in H as [([] & q4 & _ & H)|(e & _ & ?)]; [..|done].
  - apply bindM_inv in H as [([] & q5 & _ & H)|(e & _ & ?)]; [|done]. injection H as <- _. apply settled_well.
  - do 3 (apply bindM_inv in H as [([] & ? & _ & H)|(e & _ & ?)]; [|done]). injection H as <- _. apply settled_well.
Qed.

(** C24 (safety). A mount is settled coherently or leaves nothing behind.  A mount that
    is accepted has both axes, its owner and its masks settled, each as the mount
    asked where it did; one that caches reads or writes into a union is watched,
    and the watcher has been started for it; it prefetches only where the mode
    does; and it has a union only where the workspace serves them.  A mount that
    is refused is not remembered as prepared, and has not started the watcher
    unless the watcher is what failed. *)
Theorem mount_settled_or_refused source asked q out q' :
  resolveMount CanonicalKey wd r source asked q = (out, q') →
  match out with
  | Ok w =>
      settledWell asked w ∧
      (md_Read (mw_Mode w) = ReadCached ∨ Union (mw_Mode w) = true → Watching (sw_Watch (mw_Share w)) = true) ∧
      (Watching (sw_Watch (mw_Share w)) = true → last (rq_log q') = Some CallStartWatcher) ∧
      (Prefetching (sw_Prefetch (mw_Share w)) = true → Mode_Prefetch (mw_Mode w) = true) ∧
      (Union (mw_Mode w) = true → servesUnions) ∧
      rq_mounts q' = {[variantKey CanonicalKey source w]} ∪ rq_mounts q
  | Err e => rq_mounts q' = rq_mounts q ∧ (watcherError e ∨ extends notWatcher q q')
  end.
Proof.
  unfold resolveMount. intros [(watch & q1 & H1 & H)|(e & H1 & ->)]%bindM_inv; apply resolveWatch_spec in H1 as [-> H1].
  2: { subst. split; [done|]. right. apply extends_refl. }
  destruct H1 as (Hw1 & _ & _).
  apply bindM_inv in H as [(prefetch & q2 & H2 & H)|(e & H2 & ->)]; apply resolvePrefetch_spec in H2 as [-> H2].
  2: { subst. split; [done|]. right. apply extends_refl. }
  destruct H2 as (Hp1 & _ & _).
  apply bindM_inv in H as [([] & q3 & H3 & H)|(e & H3 & ->)]; apply unionStep_spec in H3 as (M3 & X3 & H3).
  2: { split; [done|]. by right. }
  set (w := with_watch watch prefetch (settled CanonicalKey r source asked)) in *.
  assert (settledWell asked w) as Hset by apply settled_well.
  assert (md_Read (mw_Mode w) = ReadCached ∨ Union (mw_Mode w) = true → Watching watch = true) as Hwatch.
  { intros Hc. apply Hw1. apply orb_true_iff. destruct Hc; [left; by apply bool_decide_eq_true_2|by right]. }
  assert (∀ qa qb (u : unit), startIfWatching wd source watch qa = (Ok u, qb) → rq_mounts qb = rq_mounts qa ∧ (Watching watch = true → last (rq_log qb) = Some CallStartWatcher)) as Hstart.
  { intros qa qb u Hs%startIfWatching_spec. destruct Hs as [Hm Hl]. split; [done|]. intros Ew. rewrite Ew in Hl. rewrite Hl. apply last_snoc. }
  apply bindM_inv in H as [(again & q4 & H4 & H)|(e & H4 & ->)]; unfold prepared in H4; [injection H4 as <- <-|done].
  case_bool_decide as Hk.
  - apply bindM_inv in H as [([] & q5 & H5 & H)|(e & H5 & ->)].
    + injection H as <- <-. destruct (Hstart _ _ _ H5) as [M5 L5]. split_and!; try done. rewrite M5, M3. set_solver.
    + apply startIfWatching_spec in H5 as [M5 [He _]]. split; [congruence|by left].
  - apply bindM_inv in H as [([] & q5 & H5 & H)|(e & H5 & ->)]; apply cacheStep_spec in H5 as (M5 & X5 & H5).
    2: { split; [congruence|]. right. by eapply extends_trans. }
    apply bindM_inv in H as [([] & q6 & H6 & H)|(e & H6 & ->)].
    2: { apply startIfWatching_spec in H6 as [M6 [He _]]. split; [congruence|by left]. }
    destruct (Hstart _ _ _ H6) as [M6 L6]. unfold prepare, bindM, ret in H. injection H as <- <-. cbn [rq_mounts rq_log].
    split_and!; try done. by rewrite M6, M5, M3.
Qed.

End settling.

(** ** A bind rewritten *)

(** The options that are not ours, in their order. *)
Definition others (options : string) : list string :=
  filter (λ w, IsModeWord w = false ∧ w ≠ ""%string) (strings.Split options comma).

Lemma others_Join ws :
  Forall (λ w, strings.Contains w comma = false) ws → others (strings.Join ws ",") = filter (λ w, IsModeWord w = false ∧ w ≠ ""%string) ws.
Proof. intros Hw. unfold others. destruct ws as [|w ws]; [reflexivity|]. by rewrite Split_Join. Qed.

Lemma filter_no_comma (P : string → Prop) `{∀ x, Decision (P x)} options :
  Forall (λ w, strings.Contains w comma = false) (filter P (strings.Split options comma)).
Proof. apply Forall_forall. intros w [_ Hin]%list_elem_of_filter. revert w Hin. apply Forall_forall, Split_no_sep. Qed.

Lemma others_filter (P : string → Prop) `{∀ x, Decision (P x)} options :
  (∀ w, IsModeWord w = false → P w) → others (strings.Join (filter P (strings.Split options comma)) ",") = others options.
Proof.
  intros HP. rewrite others_Join by apply filter_no_comma. unfold others. rewrite list_filter_filter. apply list_filter_iff.
  intros w. split; [tauto|]. intros [? ?]. auto.
Qed.

(** [splitMode] takes every word of ours and leaves the rest as it was. *)
Lemma splitMode_spec options asked spelled rest :
  splitMode options = Ok (asked, spelled, rest) → others rest = others options ∧ ∀ w, w ∈ strings.Split rest comma → IsModeWord w = false.
Proof.
  unfold splitMode. case_bool_decide as He; [intros [= <- <- <-]; subst; split; [done|]; intros w [->|?%elem_of_nil]%elem_of_cons; done|].
  destruct (ParseMount _) as [got|]; [|done]. intros [= <- <- <-]. split; [by apply others_filter|].
  intros w Hw. set (kept := filter (λ o, IsModeWord o = false) (strings.Split options comma)) in *.
  assert (Forall (λ w, strings.Contains w comma = false) kept) as Hc by apply filter_no_comma.
  destruct kept as [|k ks] eqn:Ek; [apply elem_of_cons in Hw as [->|?%elem_of_nil]; done|].
  rewrite Split_Join in Hw by done. rewrite <- Ek in Hw. by apply list_elem_of_filter in Hw as [? _].
Qed.

Lemma withoutOurWords_spec options rest :
  withoutOurWords options = Ok rest → others rest = others options.
Proof.
  unfold withoutOurWords. destruct (filter (λ o, ourWord o = true) _) as [|w ws]; [by intros [= <-]|].
  destruct (ParseMount _); [|done]. intros [= <-]. apply others_filter. intros x Hx. unfold ourWord. by rewrite Hx.
Qed.

Section binds.
Context (CanonicalKey : string → string) (wd : world) (r : Rewriter) (LocalExists : string → bool) (PosixSource : string → string).

(** A computation that only adds to the log. *)
Definition growing {A} (m : M A) : Prop := ∀ q o q', m q = (o, q') → extends (λ _, True) q q'.

Lemma growing_ret {A} (a : A) : growing (ret a).
Proof. intros q o q' [= <- <-]. apply extends_refl. Qed.
Lemma growing_throw {A} e : growing (@throw A e).
Proof. intros q o q' [= <- <-]. apply extends_refl. Qed.
Lemma growing_logged : growing logged.
Proof. intros q o q' [= <- <-]. apply extends_refl. Qed.
Lemma growing_note c : growing (note c).
Proof. intros q o q' [= <- <-]. exists [c]. split; [done|]. by repeat constructor. Qed.
Lemma growing_bind {A B} (m : M A) (k : A → M B) : growing m → (∀ a, growing (k a)) → growing (bindM m k).
Proof.
  intros Hm Hk q o q' [(a & q1 & H1 & H2)|(e & H1 & ->)]%bindM_inv; [|by eapply Hm]. eapply extends_trans; [by eapply Hm|by eapply Hk].
Qed.
Hint Resolve growing_ret growing_throw growing_logged growing_note growing_bind : rd.

Lemma growing_openCache : growing (openCache wd).
Proof. unfold openCache. destruct (wo_OpenCache wd) as [answer|]; [|auto with rd]. do 2 (apply growing_bind; [auto with rd|intros ?]). destruct (answer _); auto with rd. Qed.
Lemma growing_ensureVolume source name opts labels : growing (ensureVolume wd source name opts labels).
Proof. unfold ensureVolume. do 2 (apply growing_bind; [auto with rd|intros ?]). destruct (wo_EnsureVolume _ _ _); auto with rd. Qed.
Hint Resolve growing_openCache growing_ensureVolume : rd.

Lemma growing_union export share source labels words : growing (union wd r export share source labels words).
Proof.
  unfold union. do 4 (apply growing_bind; [auto with rd|intros ?]). destruct (wo_Prepare _ _ _ _); auto with rd.
Qed.
Hint Resolve growing_union : rd.

Lemma volumeFor_log source words q out q' : volumeFor wd r source words q = (out, q') → CallShare source words ∈ rq_log q'.
Proof.
  unfold volumeFor. intros [(log & q1 & H1 & H)|(e & H1 & _)]%bindM_inv; [injection H1 as <- <-|done].
  apply bindM_inv in H as [([] & q2 & H2 & H)|(e & H2 & _)]; [|done]. unfold note in H2. injection H2 as <-.
  match type of H with ?m _ = _ => assert (growing m) as Hg end.
  { destruct (wo_Share _ _ _ _) as [[export file]|]; [|auto with rd]. destruct (_ && _); [auto with rd|]. destruct (_ && _); [auto with rd|].
    destruct (VolumeNameForExport _ _); [|auto with rd]. destruct (Union _); auto with rd. }
  apply Hg in H as (calls & -> & _). apply elem_of_app. left. cbn [rq_log]. apply elem_of_app. right. left.
Qed.

Lemma fileOptions_ro opts ro ro' x : fileOptions opts ro = (Some ro', x) → ro' = true ↔ ro = true ∨ ∃ opt, opt ∈ opts ∧ strings.TrimSpace opt = "ro"%string.
Proof.
  revert ro. induction opts as [|opt opts IH]; intros ro; cbn [fileOptions].
  { intros [= <- <-]. split; [auto|]. intros [?|(? & ?%elem_of_nil & _)]; done. }
  case_bool_decide as H1; [|case_bool_decide as H2; [|done]]; intros ->%IH; (split; [intros [?|(o & ? & ?)]|intros [?|(o & [->|?]%elem_of_cons & Ho)]]).
  all: try (by left); try (by right; exists o; split; [right|]); try (by right; exists opt; split; [left|]); try (by right; exists o).
  destruct H1; congruence.
Qed.

(** A rewritten bind keeps what it does not own.  A named volume is
    never touched: nothing is called for it.  Whatever a bind becomes, its target
    and every option that is not a word of ours stay, in their order; a bind that
    became a volume's carries no word of ours to the daemon, its directory has been
    shared with settled words, and a single file is read-only exactly when [ro] is
    among its options. *)
Theorem rewritten_bind_keeps spec b q x q' :
  ParseBind spec = Some b → rewriteBind CanonicalKey wd r LocalExists PosixSource spec q = (Ok x, q') →
  (IsLocalPath (bs_Source b) = false → q' = q ∧ ∃ o, others o = others (bs_Options b) ∧
     (x = Kept spec ∨ x = Rewrote (BindSpec_String {| bs_Source := bs_Source b; bs_Target := bs_Target b; bs_Options := o |}))) ∧
  (daemonSource r LocalExists PosixSource (bs_Source b) = None →
   ∃ asked words volume o, settledWell asked words ∧ CallShare (bs_Source b) words ∈ rq_log q' ∧
     others o = others (bs_Options b) ∧ (∀ w, w ∈ strings.Split o comma → IsModeWord w = false) ∧
     (x = Rewrote (BindSpec_String {| bs_Source := volume; bs_Target := bs_Target b; bs_Options := o |}) ∨
      ∃ m, x = Moved m ∧ fm_Target m = bs_Target b ∧ fm_Source m = volume ∧
           (fm_ReadOnly m = true ↔ ∃ opt, opt ∈ strings.Split o comma ∧ strings.TrimSpace opt = "ro"%string))).
Proof.
  intros Hb. unfold rewriteBind. rewrite Hb. destruct (daemonSource r LocalExists PosixSource (bs_Source b)) as [source|] eqn:Ed.
  - intros [(o & q1 & H1 & H)|(e & _ & ?)]%bindM_inv; [|done]. unfold lift in H1.
    destruct (withoutOurWords (bs_Options b)) as [o'|] eqn:Eo; [|done]. injection H1 as -> ->. injection H as <- <-.
    apply withoutOurWords_spec in Eo. split; [|done]. intros Hl. split; [done|]. exists o. split; [done|].
    unfold daemonSource in Ed. rewrite Hl in Ed. cbn [negb] in Ed. injection Ed as ->. destruct (_ || _); auto.
  - intros H. split; [intros Hl; unfold daemonSource in Ed; rewrite Hl in Ed; done|]. intros _.
    apply bindM_inv in H as [([[asked spelled] o] & q1 & H1 & H)|(e & _ & ?)]; [|done]. unfold lift in H1.
    destruct (splitMode (bs_Options b)) as [[[asked' spelled'] o']|] eqn:Es; [|done]. injection H1 as -> -> -> ->. apply splitMode_spec in Es as [Eo Em].
    apply bindM_inv in H as [(words & q2 & H2 & H)|(e & _ & ?)]; [|done]. apply resolveMount_words in H2 as Hs.
    apply bindM_inv in H as [([volume file] & q3 & H3 & H)|(e & _ & ?)]; [|done]. apply volumeFor_log in H3.
    exists asked, words, volume, o. case_bool_decide as Hf; cbn [negb] in H.
    + injection H as <- <-. split_and!; auto.
    + apply bindM_inv in H as [(m & q4 & H4 & H)|(e & _ & ?)]; [|done]. injection H as <- <-. unfold fileMount in H4. cbn [bs_Options bs_Target bs_Source] in H4.
      destruct (fileOptions _ false) as [[ro|] opt] eqn:Ef; [|done]. injection H4 as <- <-. split_and!; auto. right. eexists. split; [done|].
      cbn. split_and!; [done|done|]. rewrite (fileOptions_ro _ _ _ _ Ef). split; [intros [?|?]; done|auto].
Qed.

End binds.
