(* ===== verification/PortView.v ===== *)
(** * Published ports in requests and answers (client/internal/rewrite: ports.go,
    portview.go, hosts.go)

    The numbers a user asks for leave the create request and come back in what docker
    shows.  Bodies are JSON values ([Json]); whether a local port is free and the
    order a Go map is ranged over in are arguments. *)
From Stdlib Require Import Ascii.
From S2P Require Import Prelude GoStrings Records AccountPorts Forwards Mounts Json Rewrite.

Open Scope Z_scope.

(** ** ports.go *)

Abbreviation binding := (option obj).
Abbreviation bindings := (gmap string (option (list binding))).

Definition decBindings (j : json) : option bindings :=
  match j with
  | JNull => Some ∅
  | JObject l => if forallb (λ kv, bool_decide (is_Some (decObjects kv.2))) l then Some (omap decObjects (asMap l)) else None
  | _ => None
  end.
Definition encBindings (m : bindings) : json := encMap (encSlice encObject <$> m).

Definition remappable (b : binding) : option Z :=
  match decString (field "HostPort" b) with
  | Some hostPort =>
      if bool_decide (strings.TrimSpace hostPort = "") then None
      else match Atoi hostPort with
           | Some port => if (port <? 1) || (MaxPort <? port) then None else Some port
           | None => None
           end
  | None => None
  end.

Definition fixedTurn (acc : list Z * binding) (b : binding) : list Z * binding :=
  match remappable b with
  | Some port => (acc.1 ++ [port], match acc.2 with Some _ => acc.2 | None => b end)
  | None => acc
  end.
Definition fixedPorts (l : list binding) : list Z * binding := foldl fixedTurn ([], None) l.

Section ports.
Context (LocalPortFree : option (Z → bool)).

Definition taken (containerPort : string) (fixed : list Z) : option Z :=
  match LocalPortFree with
  | Some free => if IsTCP (ProtoOf containerPort) then head (filter (λ p, free p = false) fixed) else None
  | None => None
  end.

(** One container port of the loop of [rewritePorts]. *)
Definition portsTurn (acc : bindings * RequestedPorts) (kv : string * option (list binding)) : res rewriteError (bindings * RequestedPorts) :=
  let '(containerPort, list) := kv in
  let '(fixed, keep) := fixedPorts (default [] list) in
  match fixed with
  | [] => Ok acc
  | _ =>
      match taken containerPort fixed with
      | Some port => Err (PortTaken port)
      | None => Ok (<[containerPort := Some [<["HostPort"%string := JString ""]> <$> keep]]> acc.1, foldl (λ r p, AddPort containerPort p r) acc.2 fixed)
      end
  end.

Context (range : bindings → list (string * option (list binding))).

(** [rewritePorts]: the host configuration, what was asked for, and whether it has
    changed. *)
Definition rewritePorts (hostConfig : option obj) : res rewriteError (option obj * RequestedPorts * bool) :=
  match given (field "PortBindings" hostConfig) with
  | None => Ok (hostConfig, ∅, false)
  | Some raw =>
      match decBindings raw with
      | None => Ok (hostConfig, ∅, false)
      | Some bs =>
          let? acc := foldRes portsTurn (bs, ∅) (range bs) in
          if bool_decide (acc.2 = ∅) then Ok (hostConfig, ∅, false)
          else Ok (<["PortBindings"%string := encBindings acc.1]> <$> hostConfig, acc.2, true)
      end
  end.

End ports.

(** ** portview.go *)

Definition localHost : string := "127.0.0.1".

(** The labels of a container as a list and an inspection carry them; errors leave
    what was read.  A struct's field takes every member that folds to its name. *)
Definition labelsOf (raw : option json) : gmap string string := match raw with Some j => default ∅ (mjoin (decTexts j).1) | None => ∅ end.

Definition labelsMember (m : option (gmap string string)) (kv : string * json) : option (gmap string string) :=
  if foldsTo "labels" kv.1 then
    match (decTexts kv.2).1 with Some None => None | Some (Some t) => Some (t ∪ default ∅ m) | None => m end
  else m.
Definition configLabels (raw : option json) : gmap string string :=
  match raw with Some (JObject l) => default ∅ (foldl labelsMember None l) | _ => ∅ end.

Definition labelled_container (labels : gmap string string) : Container := {| ct_ID := ""; ct_Name := ""; ct_Ports := []; ct_Labels := labels |}.

Definition publishedOf (p : option obj) : Published :=
  {| pb_PublicPort := decInt (field "PublicPort" p); pb_PrivatePort := decInt (field "PrivatePort" p); pb_Type := default ""%string (decString (field "Type" p)) |}.

(** [string(p["PublicPort"])] is neither empty nor 0. *)
Definition namesPort (p : option obj) : bool :=
  match field "PublicPort" p with None => false | Some (JNumber t) => negb (bool_decide (t = "0"%string)) | Some _ => true end.

Definition showAt (local : Z) (p : option obj) : option obj :=
  (λ m, <["PublicPort"%string := JNumber (Itoa local)]> (<["IP"%string := JString localHost]> m)) <$> p.
Definition bindAt (local : Z) (b : binding) : binding :=
  (λ m, <["HostPort"%string := JString (Itoa local)]> (<["HostIp"%string := JString localHost]> m)) <$> b.
Definition askAt (port : Z) (b : obj) : obj := <["HostPort"%string := JString (Itoa port)]> b.

Definition beforeSlash (s : string) : string := match strings.Cut s "/" with Some (a, _) => a | None => s end.

(** [portOf]. *)
Definition portOf (containerPort : string) : Published :=
  {| pb_PublicPort := 0; pb_PrivatePort := default 0 (Atoi (beforeSlash containerPort)); pb_Type := ProtoOf containerPort |}.

Section view.
Context (ToLower : string → string) (rule : Rule).

(** *** ListPorts *)

Definition listTurn (c : Container) (acc : list (option obj) * gset (string * Z * Z)) (p : option obj) : list (option obj) * gset (string * Z * Z) :=
  let d := publishedOf p in
  let key := (Network d, pb_PublicPort d, pb_PrivatePort d) in
  if pb_PublicPort d =? 0 then (acc.1 ++ [p], acc.2)
  else if bool_decide (key ∈ acc.2) then acc
  else (acc.1 ++ ((λ local, showAt local p) <$> Local_ ToLower rule c d), {[key]} ∪ acc.2).

Definition listEntry (entry : option obj) : option obj * bool :=
  let c := labelled_container (labelsOf (field "Labels" entry)) in
  match field "Ports" entry ≫= decObjects with
  | Some (Some ((_ :: _) as shown)) =>
      if negb (Owned rule c) || negb (existsb namesPort shown) then (entry, false)
      else (<["Ports"%string := encSlice encObject (Some (foldl (listTurn c) ([], ∅) shown).1)]> <$> entry, true)
  | _ => (entry, false)
  end.

Definition ListPorts (body : json) : option json :=
  match decObjects body with
  | None => None
  | Some list =>
      let entries := listEntry <$> default [] list in
      if existsb snd entries then Some (encSlice encObject (Some entries.*1)) else None
  end.

(** *** InspectPorts *)

Definition localTurn (c : Container) (private : Z) (proto : string) (acc : list binding * gset Z * bool) (b : binding) : list binding * gset Z * bool :=
  let '(out, seen, changed) := acc in
  let public := default 0 (decString (field "HostPort" b) ≫= Atoi) in
  if public =? 0 then (out ++ [b], seen, changed)
  else if bool_decide (public ∈ seen) then acc
  else (out ++ ((λ local, bindAt local b) <$> Local_ ToLower rule c {| pb_PublicPort := public; pb_PrivatePort := private; pb_Type := proto |}),
        {[public]} ∪ seen, true).

(** A slice nothing was appended to is nil. *)
Definition appended {A} (l : list A) : option (list A) := match l with [] => None | _ => Some l end.

Definition localEntry (c : Container) (containerPort : string) (l : option (list binding)) : option (list binding) * bool :=
  match Atoi (beforeSlash containerPort) with
  | None => (l, false)
  | Some private =>
      let '(out, _, changed) := foldl (localTurn c private (ProtoOf containerPort)) ([], ∅, false) (default [] l) in (appended out, changed)
  end.

Definition localBindings (raw : option json) (c : Container) : option json :=
  match raw ≫= decBindings with
  | None => None
  | Some bs =>
      if existsb (λ kv, (localEntry c kv.1 kv.2).2) (map_to_list bs)
      then Some (encBindings (map_imap (λ k l, Some (localEntry c k l).1) bs)) else None
  end.

(** [askedBindings]; writing to a nil map panics. *)
Definition askedEntry (c : Container) (containerPort : string) (l : option (list binding)) : res rewriteError (option (list binding) * bool) :=
  match LocalPorts ToLower rule c (portOf containerPort), default [] l with
  | [], _ | _, [] => Ok (l, false)
  | _, None :: _ => Err Panics
  | asked, Some b :: _ => Ok (Some ((λ port, Some (askAt port b)) <$> asked), true)
  end.

Definition askedOr (c : Container) (containerPort : string) (l : option (list binding)) : option (list binding) * bool :=
  match askedEntry c containerPort l with Ok r => r | Err _ => (l, false) end.

Definition askedBindings (raw : option json) (c : Container) : res rewriteError (option json) :=
  match raw ≫= decBindings with
  | None => Ok None
  | Some bs =>
      if existsb (λ kv, negb (is_ok (askedEntry c kv.1 kv.2))) (map_to_list bs) then Err Panics
      else if existsb (λ kv, (askedOr c kv.1 kv.2).2) (map_to_list bs)
      then Ok (Some (encBindings (map_imap (λ k l, Some (askedOr c k l).1) bs))) else Ok None
  end.

Definition decodeObject (raw : option json) : option obj := mjoin (raw ≫= decObject).

(** One member of the document, and whether it was replaced. *)
Definition withMember (name : string) (edited : option obj) (doc : obj) : obj * bool :=
  match edited with Some m => (<[name := encMap m]> doc, true) | None => (doc, false) end.

Definition InspectPorts (body : json) : res rewriteError (option json) :=
  match decObject body with
  | None => Ok None
  | Some nd =>
      let doc := default ∅ nd in
      let c := labelled_container (configLabels (doc !! "Config"%string)) in
      if negb (Owned rule c) then Ok None
      else
        let '(doc1, changed1) := withMember "NetworkSettings"
          (settings ← decodeObject (doc !! "NetworkSettings"%string); shown ← localBindings (settings !! "Ports"%string) c;
           Some (<["Ports"%string := shown]> settings)) doc in
        let hostConfig := decodeObject (doc1 !! "HostConfig"%string) in
        let? asked := match hostConfig with Some h => askedBindings (h !! "PortBindings"%string) c | None => Ok None end in
        let '(doc2, changed2) := withMember "HostConfig" (h ← hostConfig; a ← asked; Some (<["PortBindings"%string := a]> h)) doc1 in
        Ok (if changed1 || changed2 then Some (encMap doc2) else None)
  end.

End view.

(** ** hosts.go *)

Definition HostAlias : string := "host.docker.internal".

Definition colonFor (h : string) : string := replaceByte equals ":" h.
Definition hostName (h : string) : string := match strings.Cut (colonFor h) ":" with Some (name, _) => name | None => colonFor h end.

(** [addHostAlias], where the gateway is set. *)
Definition addHostAlias (gateway : string) (hostConfig : obj) : obj * bool :=
  if bool_decide (gateway = "") then (hostConfig, false)
  else
    let network := match hostConfig !! "NetworkMode"%string with Some raw => default ""%string (decString (Some raw)) | None => ""%string end in
    if bool_decide (network = "host"%string) || strings.HasPrefix network "container:" then (hostConfig, false)
    else
      let hosts := match given (hostConfig !! "ExtraHosts"%string) with
                   | None => Some []
                   | Some raw => default [] <$> decStrings raw
                   end in
      match hosts with
      | None => (hostConfig, false)
      | Some hosts =>
          if existsb (λ h, foldsTo HostAlias (hostName h)) hosts then (hostConfig, false)
          else (<["ExtraHosts"%string := JArray (encString <$> hosts ++ [HostAlias +:+ ":" +:+ gateway])]> hostConfig, true)
      end.

(** * The numbers a user asked for come back *)

(** ** What is written is what is read *)

Lemma dec_encBindings (m : bindings) : decBindings (encBindings m) = Some m.
Proof.
  unfold decBindings, encBindings, encMap. rewrite (proj2 (forallb_forall _ _)).
  - f_equal. rewrite asMap_encMap. apply map_eq. intros k. rewrite lookup_omap, lookup_fmap. destruct (m !! k) as [l|]; [|done]. cbn.
    apply dec_encSlice. intros a. apply dec_encObject.
  - intros [k j] Hin%list_elem_of_In. rewrite elem_of_stable_sort, elem_of_map_to_list, lookup_fmap in Hin. destruct (m !! k) as [l|]; [|done]. injection Hin as <-.
    apply bool_decide_eq_true. exists l. apply dec_encSlice. intros a. apply dec_encObject.
Qed.

Lemma decodeObject_encMap m : decodeObject (Some (encMap m)) = Some m.
Proof. unfold decodeObject. cbn [mbind option_bind]. by rewrite dec_encMap. Qed.

Lemma remappable_ok b p : remappable b = Some p → portOk p ∧ is_Some b.
Proof.
  unfold remappable. destruct b as [b|]; [|done]. destruct (decString _) as [h|]; [|done]. case_bool_decide; [done|]. destruct (Atoi h) as [n|]; [|done].
  destruct (Z.ltb_spec n 1), (Z.ltb_spec MaxPort n); cbn; try done. intros [= <-]. split; [unfold portOk; lia|done].
Qed.

Lemma remappable_asked p b : portOk p → remappable (Some (askAt p b)) = Some p.
Proof.
  intros Hp. unfold remappable, askAt, field. cbn [mbind option_bind]. rewrite lookup_insert_eq. cbn [decString].
  assert (everyByte visible (Itoa p) = true) as Hv by (eapply everyByte_impl; [apply labelByte_visible|by apply Itoa_labelBytes]).
  rewrite TrimSpace_visible by done. rewrite Atoi_Itoa by (unfold portOk, MaxPort in Hp; lia). rewrite bool_decide_eq_false_2.
  - unfold portOk in Hp. by rewrite (proj2 (Z.ltb_ge _ _)), (proj2 (Z.ltb_ge _ _)) by lia.
  - intros E. assert (Atoi (Itoa p) = Some p) as Ha by (apply Atoi_Itoa; unfold portOk, MaxPort in Hp; lia). rewrite E in Ha. done.
Qed.

Lemma remappable_emptied b : remappable (<["HostPort"%string := JString ""]> <$> b) = None.
Proof. destruct b as [b|]; [|done]. unfold remappable, field. cbn [fmap option_fmap option_map mbind option_bind]. by rewrite lookup_insert_eq. Qed.

Lemma fixedPorts_fold l ports keep :
  foldl fixedTurn (ports, keep) l = (ports ++ omap remappable l, match keep with Some _ => keep | None => mjoin (head (filter (λ b, is_Some (remappable b)) l)) end).
Proof.
  revert ports keep. induction l as [|b l IH]; intros ports keep; cbn [foldl]; [cbn; rewrite app_nil_r; by destruct keep|].
  unfold fixedTurn at 2. cbn [fst snd]. destruct (remappable b) as [p|] eqn:E; rewrite IH.
  - rewrite filter_cons_True by (rewrite E; done). cbn. rewrite E, <- app_assoc. apply remappable_ok in E as [_ [m ->]]. by destruct keep.
  - rewrite filter_cons_False by (rewrite E; by intros []). cbn. by rewrite E.
Qed.

Lemma fixedPorts_spec l : fixedPorts l = (omap remappable l, mjoin (head (filter (λ b, is_Some (remappable b)) l))).
Proof. apply (fixedPorts_fold l [] None). Qed.

(** The binding that is kept is one of the list. *)
Lemma kept_binding l : omap remappable l ≠ [] → ∃ b, Some b ∈ l ∧ mjoin (head (filter (λ b, is_Some (remappable b)) l)) = Some b.
Proof.
  intros Hne. destruct (filter _ l) as [|b fl] eqn:E.
  - exfalso. apply Hne. clear Hne. induction l as [|b l IH]; [done|]. destruct (decide (is_Some (remappable b))) as [H|H].
    + by rewrite filter_cons_True in E.
    + rewrite filter_cons_False in E by done. cbn. apply eq_None_not_Some in H as ->. by apply IH.
  - assert (b ∈ filter (λ b, is_Some (remappable b)) l) as Hin by (rewrite E; left). apply list_elem_of_filter in Hin as [[p Hp] Hin].
    pose proof Hp as [_ [m ->]]%remappable_ok. by exists m.
Qed.

(** ** The loop of rewritePorts *)

Definition fixedOf (bs : bindings) (k : string) : list Z := omap remappable (default [] (mjoin (bs !! k))).

Definition emptied (l : option (list binding)) : option (list binding) :=
  match omap remappable (default [] l) with
  | [] => l
  | _ => Some [<["HostPort"%string := JString ""]> <$> mjoin (head (filter (λ b, is_Some (remappable b)) (default [] l)))]
  end.

(** What a request asks of the ports it publishes by number. *)
Definition askedOf (bs : bindings) : RequestedPorts := omap (λ l, appended (omap remappable (default [] l))) bs.

Lemma askedOf_lookup bs k : askedOf bs !! k = appended (fixedOf bs k).
Proof. unfold askedOf, fixedOf. rewrite lookup_omap. by destruct (bs !! k). Qed.

Lemma askedOf_unique (req : RequestedPorts) bs : (∀ k, req !! k = appended (fixedOf bs k)) → req = askedOf bs.
Proof. intros H. apply map_eq. intros k. by rewrite H, askedOf_lookup. Qed.

(** What becomes of the bindings of a container port: none of them names a port of the
    host any more.  Where none did they stay; otherwise the first that did is the only
    one left, its number empty and nothing else of it changed. *)
Record daemonChooses (l l' : option (list binding)) : Prop := {
  dc_none : omap remappable (default [] l') = [];
  dc_same : omap remappable (default [] l) = [] → l' = l;
  dc_first : omap remappable (default [] l) ≠ [] →
    ∃ before b0 after b, default [] l = (before ++ Some b0 :: after)%list ∧ omap remappable before = [] ∧ is_Some (remappable (Some b0)) ∧
      l' = Some [Some b] ∧ b !! "HostPort"%string = Some (JString "") ∧ ∀ f, f ≠ "HostPort"%string → b !! f = b0 !! f
}.

Lemma first_binding l : omap remappable l ≠ [] →
  ∃ before b0 after, l = (before ++ Some b0 :: after)%list ∧ omap remappable before = [] ∧ is_Some (remappable (Some b0)) ∧
    mjoin (head (filter (λ b, is_Some (remappable b)) l)) = Some b0.
Proof.
  induction l as [|b l IH]; [done|]. destruct (remappable b) as [p|] eqn:E.
  - intros _. pose proof E as [_ [m ->]]%remappable_ok. exists [], m, l. rewrite filter_cons_True by (by rewrite E). rewrite E. done.
  - change (omap remappable (b :: l)) with (match remappable b with Some p => p :: omap remappable l | None => omap remappable l end). rewrite E.
    intros (before & b0 & after & -> & H1 & H2 & H3)%IH. exists (b :: before), b0, after. rewrite filter_cons_False by (rewrite E; by intros []).
    split_and!; [done| |done|done]. change (omap remappable (b :: before)) with (match remappable b with Some p => p :: omap remappable before | None => omap remappable before end). by rewrite E.
Qed.

Lemma emptied_chooses l : daemonChooses l (emptied l).
Proof.
  unfold emptied. destruct (omap remappable (default [] l)) as [|p ps] eqn:E; [by split|]. destruct (first_binding (default [] l)) as (before & b0 & after & H1 & H2 & H3 & H4); [by rewrite E|].
  rewrite H4. split; [|congruence|].
  - cbn [default from_option id omap list_omap]. by rewrite (remappable_emptied (Some b0)).
  - intros _. exists before, b0, after, (<["HostPort"%string := JString ""]> b0). rewrite lookup_insert_eq. split_and!; try done. intros f Hf. by rewrite lookup_insert_ne.
Qed.

Lemma AddPort_fold k ps (r : RequestedPorts) k' :
  foldl (λ r p, AddPort k p r) r ps !! k' = if decide (k = k') then match ps with [] => r !! k | _ => Some (default [] (r !! k) ++ ps) end else r !! k'.
Proof.
  revert r. induction ps as [|p ps IH]; intros r; cbn [foldl]; [by destruct (decide (k = k')) as [->|]|]. rewrite IH. unfold AddPort.
  destruct (decide (k = k')) as [->|Hne]; [|by rewrite lookup_insert_ne]. rewrite lookup_insert_eq. cbn. destruct ps; [done|]. by rewrite <- app_assoc.
Qed.

Section loop.
Context (free : option (Z → bool)).

Lemma portsTurn_spec m r k l m' r' : portsTurn free (m, r) (k, l) = Ok (m', r') → r !! k = None → m !! k = Some l →
  m' !! k = Some (emptied l) ∧ r' !! k = appended (omap remappable (default [] l)) ∧ (∀ k', k ≠ k' → m' !! k' = m !! k' ∧ r' !! k' = r !! k').
Proof.
  unfold portsTurn, emptied. rewrite fixedPorts_spec. destruct (omap remappable (default [] l)) as [|p ps] eqn:E.
  - intros [= <- <-] Hr Hm. by split_and!.
  - destruct (taken free k (p :: ps)); [done|]. intros [<- <-]%Ok_inj%pair_equal_spec Hr Hm. cbn [fst snd]. rewrite lookup_insert_eq, (AddPort_fold k (p :: ps)), decide_True, Hr by done. split_and!; [done|done|].
    intros k' Hne. rewrite lookup_insert_ne, (AddPort_fold k (p :: ps)), decide_False by done. done.
Qed.

Lemma portsTurns_spec l m r m' r' : foldRes (portsTurn free) (m, r) l = Ok (m', r') → NoDup l.*1 → (∀ k v, (k, v) ∈ l → r !! k = None ∧ m !! k = Some v) →
  (∀ k v, (k, v) ∈ l → m' !! k = Some (emptied v) ∧ r' !! k = appended (omap remappable (default [] v))) ∧ (∀ k, k ∉ l.*1 → m' !! k = m !! k ∧ r' !! k = r !! k).
Proof.
  revert m r. induction l as [|[k v] l IH]; intros m r; cbn [foldRes].
  { intros [= <- <-] _ _. split; [by intros ? ? ?%elem_of_nil|done]. }
  destruct (portsTurn free (m, r) (k, v)) as [[m1 r1]|] eqn:E; [|done]. intros H Hnd Hin. inversion Hnd as [|? ? Hk Hnd']; subst.
  apply portsTurn_spec in E as (E1 & E2 & E3); [|by apply (Hin k v); left|by apply (Hin k v); left]. apply IH in H as [H1 H2]; [|done|].
  - split.
    + intros k' v' [[= -> ->]|Hi]%elem_of_cons; [|by apply H1]. destruct (H2 k Hk) as [-> ->]. done.
    + intros k' [Hne Hn]%not_elem_of_cons. cbn in Hne. destruct (H2 k' Hn) as [-> ->]. by apply E3.
  - intros k' v' Hi. assert (k ≠ k') as Hne. { intros ->. apply Hk. apply list_elem_of_fmap. by exists (k', v'). }
    destruct (E3 k' Hne) as [-> ->]. apply Hin. by right.
Qed.

Context (range : bindings → list (string * option (list binding))).

(** What [rewritePorts] leaves and what it takes out. *)
Lemma rewritePorts_spec hc raw bs hc' req ch : range bs ≡ₚ map_to_list bs →
  hc !! "PortBindings"%string = Some raw → raw ≠ JNull → decBindings raw = Some bs → rewritePorts free range (Some hc) = Ok (hc', req, ch) →
  (∀ k, req !! k = appended (fixedOf bs k)) ∧
  ∃ hc1 raw', hc' = Some hc1 ∧ hc1 !! "PortBindings"%string = Some raw' ∧ decBindings raw' = Some (emptied <$> bs) ∧
              (∀ f, f ≠ "PortBindings"%string → hc1 !! f = hc !! f).
Proof.
  intros Hr Hraw Hn Hb. assert (rewritePorts free range (Some hc) =
    let? acc := foldRes (portsTurn free) (bs, ∅) (range bs) in
    if bool_decide (acc.2 = ∅) then Ok (Some hc, ∅, false) else Ok (Some (<["PortBindings"%string := encBindings acc.1]> hc), acc.2, true)) as ->.
  { unfold rewritePorts. cbn [field mbind option_bind]. rewrite Hraw. assert (given (Some raw) = Some raw) as -> by (by destruct raw). by rewrite Hb. }
  destruct (foldRes (portsTurn free) (bs, ∅) (range bs)) as [[m r]|] eqn:E; [|done]. cbn [fst snd].
  assert (∀ k v, (k, v) ∈ range bs ↔ bs !! k = Some v) as Hin by (intros k v; rewrite Hr; apply elem_of_map_to_list).
  apply portsTurns_spec in E as [E1 E2]; [|rewrite Hr; apply NoDup_fst_map_to_list|intros k v Hk%Hin; by rewrite lookup_empty].
  assert (∀ k, bs !! k = None → k ∉ (range bs).*1) as Hout by (intros k Hk ([k' v] & -> & Hv%Hin)%list_elem_of_fmap; cbn in Hk; congruence).
  assert (∀ k, r !! k = appended (fixedOf bs k)) as Hreq.
  { intros k. unfold fixedOf. destruct (bs !! k) as [v|] eqn:Ek; [by apply E1, Hin|]. by destruct (E2 k (Hout k Ek)) as [_ ->]. }
  assert (m = emptied <$> bs) as ->.
  { apply map_eq. intros k. rewrite lookup_fmap. destruct (bs !! k) as [v|] eqn:Ek; [by apply E1, Hin|]. by destruct (E2 k (Hout k Ek)) as [-> _]. }
  case_bool_decide as He; intros [= <- <- <-].
  - subst r. split; [done|]. exists hc, raw. split_and!; [done|done| |done]. rewrite Hb. f_equal. apply map_eq. intros k. rewrite lookup_fmap.
    destruct (bs !! k) as [v|] eqn:Ek; [|done]. cbn. f_equal. unfold emptied. pose proof (Hreq k) as H. unfold fixedOf in H. rewrite Ek, lookup_empty in H. cbn in H. by destruct (omap remappable _).
  - split; [done|]. eexists _, _. split; [done|]. rewrite lookup_insert_eq. split_and!; [done|apply dec_encBindings|]. intros f Hf. by rewrite lookup_insert_ne.
Qed.

End loop.

(** ** From the request to what docker shows *)

Section asked.
Context (ToLower : string → string) (rule : Rule).

(** A container port spelled as the daemon does. *)
Definition canonical (k : string) : Prop := ContainerPort ToLower (pb_PrivatePort (portOf k)) (pb_Type (portOf k)) = k.

Definition noNull (bs : bindings) : Prop := ∀ k l, bs !! k = Some (Some l) → None ∉ l.

(** A container of this machine that carries what was asked for. *)
Record carries (c : Container) (req : RequestedPorts) : Prop := {
  ca_owner : Owned rule c = true;
  ca_client : label c ClientLabel = rl_ClientID rule;
  ca_ports : label c PortsLabel = RequestedPorts_String req
}.

Lemma LocalPorts_carried c req bs p : carries c req → labelled req → (∀ k, req !! k = appended (fixedOf bs k)) →
  LocalPorts ToLower rule c p = stable_sort Z.leb (fixedOf bs (ContainerPort ToLower (pb_PrivatePort p) (pb_Type p))).
Proof.
  intros [_ Hc Hp] Hl Hr. unfold LocalPorts. rewrite bool_decide_eq_true_2, Hp, requested_ports_roundtrip, lookup_fmap, Hr by done. by destruct (fixedOf _ _).
Qed.

Definition askedShown (c : Container) (bs : bindings) : bindings := map_imap (λ k l, Some (askedOr ToLower rule c k l).1) bs.

Lemma askedShown_lookup c bs k : askedShown c bs !! k = (λ l, (askedOr ToLower rule c k l).1) <$> bs !! k.
Proof. unfold askedShown. rewrite map_lookup_imap. by destruct (bs !! k). Qed.

Lemma askedBindings_spec c raw bs : raw ≫= decBindings = Some bs → noNull bs →
  ∃ a, askedBindings ToLower rule raw c = Ok a ∧ match a with Some j => decBindings j = Some (askedShown c bs) | None => askedShown c bs = bs end.
Proof.
  intros Hb Hn. unfold askedBindings. rewrite Hb. destruct (existsb (λ kv, negb _) _) eqn:E1.
  { apply existsb_exists in E1 as ([k l] & Hin%list_elem_of_In%elem_of_map_to_list & He). unfold askedEntry in He. cbn [fst snd] in He.
    destruct (LocalPorts _ _ _ _), l as [[|[b|] l]|]; cbn in He; try done. destruct (Hn _ _ Hin). left. }
  clear E1. destruct (existsb (λ kv, (askedOr _ _ _ _ _).2) _) eqn:E2; [eexists; split; [done|]; apply dec_encBindings|].
  exists None. split; [done|]. apply map_eq. intros k. rewrite askedShown_lookup. destruct (bs !! k) as [l|] eqn:Ek; [|done]. cbn. f_equal.
  assert ((askedOr ToLower rule c k l).2 = false) as He.
  { apply not_true_iff_false. intros H. rewrite <- not_true_iff_false in E2. apply E2, existsb_exists. exists (k, l). split; [by apply list_elem_of_In, elem_of_map_to_list|done]. }
  unfold askedOr, askedEntry in *. destruct (LocalPorts _ _ _ _), l as [[|[b|] l]|]; done.
Qed.

(** What one container port shows: the numbers asked for, on the binding that was
    kept. *)
Lemma askedShown_fixed c req bs k : carries c req → labelled req → (∀ k, req !! k = appended (fixedOf bs k)) → canonical k →
  fixedOf (askedShown c (emptied <$> bs)) k = stable_sort Z.leb (fixedOf bs k) ∧
  ∀ b, b ∈ default [] (mjoin (askedShown c (emptied <$> bs) !! k)) → ∃ b0, b0 ∈ default [] (mjoin (bs !! k)) ∧ ∀ f, f ≠ "HostPort"%string → field f b = field f b0.
Proof.
  intros Hc Hl Hr Hk. unfold fixedOf at 1. rewrite askedShown_lookup, lookup_fmap. pose proof (LocalPorts_carried c req bs (portOf k) Hc Hl Hr) as HL. rewrite Hk in HL. revert HL.
  unfold fixedOf. destruct (bs !! k) as [l|] eqn:Ek; cbn; [|intros _; split; [done|by intros ? ?%elem_of_nil]]. intros HL.
  assert (Forall portOk (omap remappable (default [] l))) as Hp. { apply Forall_forall. intros p (b & _ & [H _]%remappable_ok)%list_elem_of_omap. done. }
  unfold askedOr, askedEntry. rewrite HL. unfold emptied. destruct (omap remappable (default [] l)) as [|p ps] eqn:Ef.
  - cbn. destruct l as [l|]; cbn in *; [|split; [done|by intros ? ?%elem_of_nil]]. rewrite Ef. split; [done|]. intros b Hb. by exists b.
  - destruct (kept_binding (default [] l)) as (b & Hb & Eb); [by rewrite Ef|]. rewrite Eb. cbn [default fmap option_fmap option_map from_option id].
    set (asked := stable_sort Z.leb (p :: ps)) in *. assert (asked ≠ []) as Hne by (intros E%(f_equal length); unfold asked in E; by rewrite length_stable_sort in E).
    assert (Forall portOk asked) as Hpa by (unfold asked; by rewrite stable_sort_Permutation). clearbody asked. destruct asked as [|a asked]; [done|]. cbn [fst snd mjoin option_join default from_option id].
    rewrite <- (list_fmap_id (a :: asked)) at 2. split.
    + clear -Hpa. induction Hpa as [|x xs Hx _ IH]; [done|]. cbn [fmap list_fmap omap list_omap]. rewrite (remappable_asked x _ Hx). f_equal. exact IH.
    + intros b' (x & -> & _)%list_elem_of_fmap. exists (Some b). split; [done|]. intros f Hf. unfold field, askAt. cbn. by rewrite !lookup_insert_ne.
Qed.

Definition memberOf (name : string) (j : json) : option obj := decodeObject (decodeObject (Some j) ≫= lookup name).

(** From what was sent and the label that came with it to what is shown. *)
Lemma sent_ports_are_shown hc1 raw' bs req doc :
  hc1 !! "PortBindings"%string = Some raw' → decBindings raw' = Some (emptied <$> bs) → noNull bs → (∀ k, req !! k = appended (fixedOf bs k)) → labelled req →
  let c := labelled_container (configLabels (doc !! "Config"%string)) in
  carries c req → doc !! "HostConfig"%string = Some (encMap hc1) →
  (∀ p, Local_ ToLower rule c p = orPublished (stable_sort Z.leb (fixedOf bs (ContainerPort ToLower (pb_PrivatePort p) (pb_Type p)))) p) ∧
  ∃ out h shown, InspectPorts ToLower rule (encMap doc) = Ok out ∧ memberOf "HostConfig" (default (encMap doc) out) = Some h ∧
    h !! "PortBindings"%string ≫= decBindings = Some shown ∧
    ∀ k, canonical k → fixedOf shown k = stable_sort Z.leb (fixedOf bs k) ∧
      ∀ b, b ∈ default [] (mjoin (shown !! k)) → ∃ b0, b0 ∈ default [] (mjoin (bs !! k)) ∧ ∀ f, f ≠ "HostPort"%string → field f b = field f b0.
Proof.
  intros Hraw' Hb' Hnn Hreq Hl c Hc Hh.
  split; [intros p; unfold Local_; by rewrite (LocalPorts_carried c req bs)|].
  assert (noNull (emptied <$> bs)) as Hnn'.
  { intros k l. rewrite lookup_fmap. destruct (bs !! k) as [v|] eqn:Ek; [|done]. cbn. intros [= E]. unfold emptied in E. destruct (omap remappable (default [] v)) as [|p ps] eqn:Ef; [subst; by eapply Hnn|].
    destruct (kept_binding (default [] v)) as (b & _ & Eb); [by rewrite Ef|]. rewrite Eb in E. injection E as <-. by intros ?%list_elem_of_singleton. }
  destruct (askedBindings_spec c (Some raw') (emptied <$> bs) Hb' Hnn') as (a & Ha & Hshown).
  unfold InspectPorts. rewrite dec_encMap. cbn [default from_option id]. fold c. rewrite (ca_owner _ _ Hc). cbn [negb].
  set (ns := _ ≫= (λ settings, _)). assert (∃ doc1 ch1, withMember "NetworkSettings" ns doc = (doc1, ch1) ∧ doc1 !! "HostConfig"%string = Some (encMap hc1) ∧ (ch1 = false → doc1 = doc)) as (doc1 & ch1 & -> & Hd1 & Hch).
  { destruct ns as [m|]; cbn; eexists _, _; (split; [done|]); [by rewrite lookup_insert_ne|done]. }
  rewrite Hd1, decodeObject_encMap, Hraw', Ha. cbn [mbind option_bind].
  assert (∀ d h, d !! "HostConfig"%string = Some (encMap h) → memberOf "HostConfig" (encMap d) = Some h) as Hmem.
  { intros d h Hd. unfold memberOf. rewrite decodeObject_encMap. cbn [mbind option_bind]. by rewrite Hd, decodeObject_encMap. }
  destruct a as [j|]; cbn [mbind option_bind withMember].
  - rewrite orb_true_r. eexists _, _, (askedShown c (emptied <$> bs)). split; [done|]. cbn [default from_option id]. split; [apply Hmem, lookup_insert_eq|]. rewrite lookup_insert_eq. split; [done|].
    intros k Hk. by apply (askedShown_fixed c req).
  - rewrite orb_false_r. eexists _, hc1, (askedShown c (emptied <$> bs)). split; [done|]. split; [destruct ch1; cbn [default from_option id]; apply Hmem; [done|by rewrite <- Hch]|]. rewrite Hraw', Hshown. split; [done|].
    intros k Hk. rewrite <- Hshown. by apply (askedShown_fixed c req).
Qed.

End asked.

(** ** What a listing shows is what is forwarded *)

(** A label names ports alone, whoever wrote it. *)
Definition portsOk (r : RequestedPorts) : Prop := ∀ k ps, r !! k = Some ps → Forall portOk ps.

Lemma parseNumbers_ok key numbers out count : portsOk out → portsOk (parseNumbers key numbers out count).1.
Proof.
  revert out count. induction numbers as [|n ns IH]; intros out count Ho; cbn [parseNumbers]; [done|]. destruct (maxRequestedPorts <=? count); [done|].
  destruct (Atoi _) as [p|]; [|by apply IH]. destruct (Z.ltb_spec p 1), (Z.ltb_spec MaxPort p); cbn [orb]; try (by apply IH). apply IH. intros k ps. unfold AddPort.
  destruct (decide (key = k)) as [->|Hne]; [|rewrite lookup_insert_ne by done; apply Ho]. rewrite lookup_insert_eq. intros [= <-]. apply Forall_app. split; [|repeat constructor; lia].
  destruct (out !! k) as [qs|] eqn:E; [by eapply Ho|constructor].
Qed.

Lemma ParseRequestedPorts_ok s : portsOk (ParseRequestedPorts s).
Proof.
  enough (∀ es acc, portsOk acc.1 → portsOk (foldl parseEntry acc es).1) as H by (apply H; intros k ps; cbn; by rewrite lookup_empty).
  induction es as [|e es IH]; intros acc Ha; [done|]. cbn [foldl]. apply IH. unfold parseEntry. case_bool_decide; [done|].
  destruct (strings.Cut _ _) as [[key value]|]; [|done]. by apply parseNumbers_ok.
Qed.

Section listing.
Context (ToLower : string → string) (rule : Rule).

(** What the entries of [Ports] say is published here. *)
Definition listeners (ps : list (option obj)) : list (string * Z) :=
  (λ d, (Network d, pb_PublicPort d)) <$> filter (λ d, pb_PublicPort d ≠ 0) (publishedOf <$> ps).

(** The daemon's ports are ports, and one of them leads to one container port. *)
Record publishes (ps : list Published) : Prop := {
  ps_range : ∀ d, d ∈ ps → 0 ≤ pb_PublicPort d ≤ MaxPort;
  ps_one : ∀ d e, d ∈ ps → e ∈ ps → pb_PublicPort d ≠ 0 → Network d = Network e → pb_PublicPort d = pb_PublicPort e → d = e
}.

Abbreviation Local c d := (Local_ ToLower rule c d).

Lemma Local_ok c d l : l ∈ Local c d → 1 ≤ l ≤ MaxPort ∨ l = pb_PublicPort d.
Proof.
  unfold Local_, orPublished. destruct (LocalPorts _ _ _ _) as [|a asked] eqn:E; [intros ->%list_elem_of_singleton; by right|]. rewrite <- E. clear E a asked. unfold LocalPorts. case_bool_decide; [|by intros ?%elem_of_nil]. destruct (ParseRequestedPorts _ !! _) as [ps|] eqn:E; [|by intros ?%elem_of_nil]. cbn. intros Hl. left.
  exact (proj1 (Forall_forall _ _) (ParseRequestedPorts_ok _ _ _ E) l Hl).
Qed.

Lemma published_elem c d : publishes (ct_Ports c) → d ∈ published c ↔ d ∈ ct_Ports c ∧ pb_PublicPort d ≠ 0.
Proof.
  intros Hp. unfold published. rewrite elem_of_stable_sort.
  enough (∀ l seen out, (∀ e, e ∈ l → e ∈ ct_Ports c) → (∀ e, e ∈ out → e ∈ ct_Ports c ∧ pb_PublicPort e ≠ 0) →
    (∀ key, key ∈ seen ↔ ∃ e, e ∈ out ∧ key = (Network e, pb_PublicPort e)) →
    d ∈ (foldl publishedStep (seen, out) l).2 ↔ d ∈ out ∨ d ∈ l ∧ pb_PublicPort d ≠ 0) as H.
  { rewrite H; [|done|by intros ? ?%elem_of_nil|set_solver]. set_solver. }
  induction l as [|p l IH]; intros seen out Hl Ho Hs; cbn [foldl]; [set_solver|]. unfold publishedStep at 2. cbn [fst snd]. destruct (Z.eqb_spec (pb_PublicPort p) 0) as [Hz|Hz].
  { rewrite IH; [|set_solver|done|done]. split; [set_solver|]. intros [?|[[->|?]%elem_of_cons ?]]; [by left|done|by right]. }
  case_bool_decide as Hk.
  - apply Hs in Hk as (e & He & [= E1 E2]). assert (e = p) as -> by (symmetry; apply (ps_one _ Hp); [set_solver|by apply Ho|done..]). rewrite IH; [|set_solver|done|done]. set_solver.
  - rewrite IH; [set_solver|set_solver| |].
    + intros e [?|[->|?%elem_of_nil]%elem_of_cons]%elem_of_app; [by apply Ho|split; [set_solver|done]|done].
    + intros key. rewrite elem_of_union, elem_of_singleton, Hs. split.
      * intros [->|(e & ? & ->)]; [exists p|exists e]; set_solver.
      * intros (e & [?|[->|?%elem_of_nil]%elem_of_cons]%elem_of_app & ->); [right; by exists e|by left|done].
Qed.

Lemma asks_elem c l : publishes (ct_Ports c) →
  l ∈ (asks (Local_ ToLower rule) c).*1 ↔ ∃ d, d ∈ ct_Ports c ∧ pb_PublicPort d ≠ 0 ∧ l.1 = Network d ∧ l.2 ∈ Local c d.
Proof.
  intros Hp. unfold asks. rewrite list_elem_of_fmap. setoid_rewrite list_elem_of_bind. setoid_rewrite list_elem_of_bind. split.
  - intros (x & -> & d & (local & ->%list_elem_of_singleton & Hl) & [Hd Hz]%published_elem); [|done]. by exists d.
  - intros (d & Hd & Hz & H1 & H2). exists (l, pb_PublicPort d). split; [done|]. exists d. rewrite published_elem by done. split; [|done]. exists l.2. split; [|done]. destruct l; cbn in *; subst. by left.
Qed.

Lemma listeners_app ps qs : listeners (ps ++ qs) = listeners ps ++ listeners qs.
Proof. unfold listeners. by rewrite fmap_app, filter_app, fmap_app. Qed.

Lemma listeners_cons p ps : listeners (p :: ps) = listeners [p] ++ listeners ps.
Proof. apply (listeners_app [p]). Qed.

Lemma listeners_shown p l : 1 ≤ l ≤ MaxPort → is_Some p → listeners [showAt l p] = [(Network (publishedOf p), l)].
Proof.
  intros Hl [m ->]. unfold listeners, publishedOf, showAt, field. cbn [fmap list_fmap option_fmap option_map mbind option_bind].
  rewrite lookup_insert_eq, !lookup_insert_ne by done. cbn [decInt]. rewrite Atoi_Itoa by (unfold MaxPort in Hl; lia). cbn [default from_option id].
  rewrite filter_cons_True by (cbn; lia). done.
Qed.

Lemma listTurns_spec c ps : publishes (publishedOf <$> ps) → ∀ l,
  l ∈ listeners (foldl (listTurn ToLower rule c) ([], ∅) ps).1 ↔ ∃ d, d ∈ publishedOf <$> ps ∧ pb_PublicPort d ≠ 0 ∧ l.1 = Network d ∧ l.2 ∈ Local c d.
Proof.
  intros Hp l.
  enough (∀ qs seen out, (∀ q, q ∈ qs → q ∈ ps) → (∀ n pu pr, (n, pu, pr) ∈ seen → ∃ d, d ∈ publishedOf <$> ps ∧ pb_PublicPort d ≠ 0 ∧ n = Network d ∧ pu = pb_PublicPort d ∧
     ∀ x, x ∈ Local c d → (Network d, x) ∈ listeners out) →
    l ∈ listeners (foldl (listTurn ToLower rule c) (out, seen) qs).1 ↔ l ∈ listeners out ∨ ∃ d, d ∈ publishedOf <$> qs ∧ pb_PublicPort d ≠ 0 ∧ l.1 = Network d ∧ l.2 ∈ Local c d) as H.
  { rewrite H; [|done|set_solver]. split; [intros [?%elem_of_nil|?]; done|by right]. }
  induction qs as [|q qs IH]; intros seen out Hq Hs; cbn [foldl].
  { split; [by left|]. intros [?|(d & ?%elem_of_nil & _)]; done. }
  set (d := publishedOf q) in *. unfold listTurn at 2. fold d. cbn [fst snd]. cbn [fmap list_fmap]. fold d. assert (d ∈ publishedOf <$> ps) as Hd by (apply list_elem_of_fmap_2, Hq; left).
  assert (∀ (R : Prop) out', (∀ x, x ∈ listeners out' ↔ x ∈ listeners out ∨ (pb_PublicPort d ≠ 0 ∧ x.1 = Network d ∧ x.2 ∈ Local c d)) →
     (R ↔ l ∈ listeners out' ∨ ∃ d, d ∈ publishedOf <$> qs ∧ pb_PublicPort d ≠ 0 ∧ l.1 = Network d ∧ l.2 ∈ Local c d) →
     (R ↔ l ∈ listeners out ∨ ∃ d', d' ∈ d :: (publishedOf <$> qs) ∧ pb_PublicPort d' ≠ 0 ∧ l.1 = Network d' ∧ l.2 ∈ Local c d')) as Hstep.
  { intros R out' Ho ->. rewrite Ho. split.
    - intros [[?|?]|(e & ? & ?)]; [by left|right; exists d; split; [left|done]|right; exists e; split; [by right|done]].
    - intros [?|(e & [->|?]%elem_of_cons & He)]; [by left; left|by left; right|right; by exists e]. }
  destruct (Z.eqb_spec (pb_PublicPort d) 0) as [Hz|Hz].
  - apply (Hstep _ (out ++ [q])).
    + intros x. rewrite listeners_app. unfold listeners at 2. cbn [fmap list_fmap]. fold d. rewrite filter_cons_False by lia. cbn. rewrite app_nil_r. split; [by left|intros [?|[? _]]; done].
    + apply IH; [set_solver|]. intros n pu pr Hin. destruct (Hs n pu pr Hin) as (e & ? & ? & ? & ? & He). exists e. split_and!; try done. intros x Hx. rewrite listeners_app. set_solver.
  - case_bool_decide as Hk.
    + apply (Hstep _ out); [|apply IH; [set_solver|done]]. intros x. split; [by left|]. intros [?|(_ & H1 & H2)]; [done|]. destruct (Hs _ _ _ Hk) as (e & He & Hze & E1 & E2 & Hl).
      assert (e = d) as -> by (symmetry; by apply (ps_one _ Hp)). destruct x; cbn in *; subst. by apply Hl.
    + assert (∀ x, x ∈ listeners ((λ local, showAt local q) <$> Local c d) ↔ x.1 = Network d ∧ x.2 ∈ Local c d) as Hx.
      { assert (is_Some q) as Hsq by (unfold d in Hz; destruct q; done). assert (∀ z, z ∈ Local c d → 1 ≤ z ≤ MaxPort) as Hr by (intros z [?| ->]%Local_ok; [done|]; pose proof (ps_range _ Hp d Hd); lia).
        intros x. revert Hr. generalize (Local c d). intros zs. induction zs as [|z zs IHz]; intros Hr; [cbn; set_solver|]. cbn [fmap list_fmap]. rewrite listeners_cons, listeners_shown by (try apply Hr; (done || left)).
        rewrite elem_of_app, IHz by (intros; apply Hr; by right). fold d. destruct x as [n y]. cbn. set_solver. }
      apply (Hstep _ (out ++ ((λ local, showAt local q) <$> Local c d))).
      * intros x. rewrite listeners_app, elem_of_app, Hx. tauto.
      * apply IH; [set_solver|]. intros n pu pr [[= -> -> ->]%elem_of_singleton|Hin]%elem_of_union.
        -- exists d. split_and!; try done. intros x Hxl. rewrite listeners_app, elem_of_app, Hx. by right.
        -- destruct (Hs n pu pr Hin) as (e & ? & ? & ? & ? & He). exists e. split_and!; try done. intros x Hxl. rewrite listeners_app. set_solver.
Qed.

Lemma unnamed_port p : namesPort p = false → pb_PublicPort (publishedOf p) = 0.
Proof.
  unfold namesPort. cbn. destruct (field "PublicPort" p) as [[]|]; try done. cbn [decInt]. destruct (bool_decide (text = _)) eqn:E; [|done]. by apply bool_decide_eq_true in E as ->.
Qed.

Definition listedContainer (entry : option obj) (ps : list (option obj)) : Container :=
  {| ct_ID := ""; ct_Name := ""; ct_Ports := publishedOf <$> ps; ct_Labels := labelsOf (field "Labels" entry) |}.

(** An entry of the listing as it is shown. *)
Record shownAs (e e' : option obj) : Prop := {
  sa_rest : ∀ f, f ≠ "Ports"%string → field f e' = field f e;
  sa_others : Owned rule (listedContainer e []) = false → e' = e;
  sa_ports : ∀ ps, Owned rule (listedContainer e []) = true → field "Ports" e ≫= decObjects = Some (Some ps) → publishes (publishedOf <$> ps) →
    ∃ ps', field "Ports" e' ≫= decObjects = Some (Some ps') ∧ ∀ l, l ∈ listeners ps' ↔ l ∈ (asks (Local_ ToLower rule) (listedContainer e ps)).*1
}.

Lemma listEntry_same e : (listEntry ToLower rule e).2 = false → (listEntry ToLower rule e).1 = e.
Proof. unfold listEntry. destruct (field "Ports" e ≫= decObjects) as [[[|p ps]|]|]; try done. by destruct (_ || _). Qed.

Lemma listEntry_shown e : shownAs e (listEntry ToLower rule e).1.
Proof.
  assert (∀ ps, existsb namesPort ps = false → publishes (publishedOf <$> ps) → ∀ l, l ∈ listeners ps ↔ l ∈ (asks (Local_ ToLower rule) (listedContainer e ps)).*1) as Hnone.
  { intros ps Hn Hp l. rewrite asks_elem by done. assert (∀ d, d ∈ publishedOf <$> ps → pb_PublicPort d = 0) as Hz.
    { intros d (p & -> & Hin)%list_elem_of_fmap. apply unnamed_port, not_true_iff_false. intros H. rewrite <- not_true_iff_false in Hn. apply Hn, existsb_exists. exists p. by rewrite list_elem_of_In in Hin. }
    unfold listeners. rewrite list_elem_of_fmap. split; [intros (d & _ & [Hd Hi]%list_elem_of_filter); destruct (Hd (Hz d Hi))|intros (d & Hi & Hd & _); destruct (Hd (Hz d Hi))]. }
  unfold listEntry. set (c := labelled_container _). change (Owned rule c) with (Owned rule (listedContainer e [])).
  destruct (field "Ports" e ≫= decObjects) as [[[|p ps]|]|] eqn:E; cycle 2; [split; [done|done|]; intros ps _ H; by rewrite E in H..| |].
  - split; [done|done|]. intros ps _ H Hp. rewrite E in H. injection H as <-. exists []. split; [done|]. by apply Hnone.
  - split.
    + destruct (Owned _ _) eqn:Eo; cbn [negb orb]; [|done]. destruct (existsb namesPort _); [|done]. cbn [negb fst]. intros f Hf. destruct e; [|done]. cbn. by rewrite lookup_insert_ne.
    + by intros ->.
    + intros ps' -> H Hp. rewrite E in H. injection H as <-. cbn [negb orb]. destruct (existsb namesPort (p :: ps)) eqn:En; cbn [negb fst]; [|exists (p :: ps); split; [done|]; by apply Hnone].
      destruct e as [m|]; [|done]. cbn [fmap option_fmap option_map field mbind option_bind]. rewrite lookup_insert_eq. eexists. split; [apply (dec_encSlice decObject); apply dec_encObject|].
      intros l. rewrite (listTurns_spec c (p :: ps) Hp), (asks_elem (listedContainer (Some m) (p :: ps))) by done. done.
Qed.

(** C30 (equivalence). What [docker ps] shows is what is opened here.  In a listing of containers,
    those of other accounts are left as they came, and so is everything but the
    ports of one's own; for those, where the daemon's ports are ports and each leads
    to one container port, the numbers shown are exactly the listeners that the
    session's forwards ask for, protocol by protocol. *)
Theorem listing_shows_the_forwards body es : decObjects body = Some (Some es) →
  ∃ es', decObjects (default body (ListPorts ToLower rule body)) = Some (Some es') ∧ Forall2 shownAs es es'.
Proof.
  intros Hb. exists (listEntry ToLower rule <$> es).*1. split.
  - unfold ListPorts. rewrite Hb. cbn [default from_option id]. destruct (existsb snd _) eqn:E; cbn [default from_option id]; [apply (dec_encSlice decObject); apply dec_encObject|].
    rewrite Hb. do 2 f_equal. clear Hb. induction es as [|e es IH]; [done|]. cbn [fmap list_fmap existsb] in *. apply orb_false_iff in E as [E1 E2]. by rewrite (listEntry_same e E1), <- IH.
  - clear Hb. induction es as [|e es IH]; constructor; [apply listEntry_shown|done].
Qed.

End listing.
