(* ===== verification/Create.v ===== *)
(** * The create request, rewritten (client/internal/rewrite: rewrite.go, mode.go)

    [ContainerCreate] over the JSON body: the binds and the mounts, the published
    ports, the host alias and the labels, in the code's order and in [Rewrite]'s
    monad of calls and refusals.  A write to a nil map is the error [Panics]. *)
From Stdlib Require Import Ascii.
From S2P Require Import Prelude GoStrings Records AccountPorts Forwards Names Mounts Json Rewrite RewriteProofs PortView.

Open Scope Z_scope.
Open Scope rewrite_scope.

(** ** Mounts *)

(** [takeMode]: the words, and the mount without them. *)
Definition takeMode (mount : obj) : M (MountWords * obj) :=
  match given (mount !! "Consistency"%string) with
  | None => ret ({| mw_Mode := ModeUnset; mw_Share := noShareWords |}, mount)
  | Some raw =>
      match decString (Some raw) with
      | None => throw (Undecodable "mount consistency")
      | Some value => do got <- lift BadWords (ParseMount value); ret (got, delete "Consistency"%string mount)
      end
  end.

(** [dropOurConsistency]: the mount, and whether it changed. *)
Definition dropOurConsistency (mount : obj) : M (obj * bool) :=
  match given (mount !! "Consistency"%string) with
  | None => ret (mount, false)
  | Some raw =>
      match decString (Some raw) with
      | None => ret (mount, false)
      | Some value =>
          do rest <- lift BadWords (withoutOurWords value);
          ret (if bool_decide (rest = value) then (mount, false)
               else if bool_decide (rest = ""%string) then (delete "Consistency"%string mount, true)
               else (<["Consistency"%string := encString rest]> mount, true))
      end
  end.

Definition setSubpath (mount : obj) (file : string) : M obj :=
  let with_file options := ret (<["VolumeOptions"%string := encMap (<["Subpath"%string := encString file]> options)]> mount) in
  match given (mount !! "VolumeOptions"%string) with
  | None => with_file ∅
  | Some raw => match decObject raw with Some options => with_file (default ∅ options) | None => throw (Undecodable "VolumeOptions") end
  end.

(** [fileMount]'s result as the mount it is marshalled to. *)
Definition fileMountObj (m : fileMountSpec) : obj :=
  list_to_map [("Type", JString "volume"); ("Source", encString (fm_Source m)); ("Target", encString (fm_Target m)); ("ReadOnly", JBool (fm_ReadOnly m));
               ("VolumeOptions", encMap {["Subpath"%string := encString (fm_Subpath m)]})]%string.

Section creating.
Context (CanonicalKey : string → string) (wd : world) (r : Rewriter) (LocalExists : string → bool) (PosixSource : string → string).

(** A mount whose source is the daemon's: only our words go. *)
Definition daemonMount (source dsource : string) (m : obj) : M (obj * bool) :=
  do edit <- dropOurConsistency m;
  ret (if bool_decide (dsource = source) then edit else (<["Source"%string := encString dsource]> edit.1, true)).

(** A mount of a path here. *)
Definition localMount (source : string) (m : obj) : M (obj * bool) :=
  do took <- takeMode m;
  let '(asked, m) := took in
  do words <- resolveMount CanonicalKey wd r source asked;
  do backing <- volumeFor wd r source words;
  let '(volume, file) := backing in
  let m := <["Type"%string := JString (if Union (mw_Mode words) then "bind" else "volume")]> m in
  let m := <["Source"%string := encString volume]> m in
  do m <- if bool_decide (file = ""%string) then ret m else setSubpath m file;
  ret (delete "BindOptions"%string m, true).

(** One turn of [rewriteMounts]: the mount, and whether it was touched. *)
Definition rewriteMount (mount : option obj) : M (option obj * bool) :=
  match mount, decString (field "Type" mount) with
  | Some m, Some mountType =>
      let isBind := bool_decide (mountType = "bind"%string) in
      match (if isBind then decString (m !! "Source"%string) else Some ""%string) with
      | None => ret (mount, false)
      | Some source =>
          let daemon := daemonSource r LocalExists PosixSource source in
          do edit <- if negb isBind || bool_decide (is_Some daemon) then daemonMount source (default source daemon) m else localMount source m;
          ret (Some edit.1, edit.2)
      end
  | _, _ => ret (mount, false)
  end.

Fixpoint rewriteMountList (mounts : list (option obj)) : M (list (option obj) * bool) :=
  match mounts with
  | [] => ret ([], false)
  | m :: rest =>
      do x <- rewriteMount m;
      do xs <- rewriteMountList rest;
      ret (x.1 :: xs.1, x.2 || xs.2)
  end.

Definition rewriteMounts (hostConfig : option obj) (moved : list obj) : M (option obj * bool) :=
  let raw := given (field "Mounts" hostConfig) in
  if negb (bool_decide (is_Some raw)) && (match moved with [] => true | _ => false end) then ret (hostConfig, false)
  else match (match raw with None => Some [] | Some j => default [] <$> decObjects j end) with
       | None => throw (Undecodable "Mounts")
       | Some mounts =>
           do out <- rewriteMountList mounts;
           ret (if negb ((match moved with [] => true | _ => false end)) || out.2
                then (<["Mounts"%string := JArray (encObject <$> out.1 ++ (Some <$> moved))]> <$> hostConfig, true)
                else (hostConfig, false))
       end.

(** ** Binds *)

Definition keptBind (x : rewritten) : option string := match x with Kept s | Rewrote s => Some s | Moved _ => None end.
Definition movedBind (x : rewritten) : option obj := match x with Moved m => Some (fileMountObj m) | _ => None end.
Definition bindChanged (x : rewritten) : bool := match x with Kept _ => false | _ => true end.

(** [rewriteBinds]: the host configuration, the mounts some became, and whether it
    changed. *)
Definition rewriteBindsField (hostConfig : option obj) : M (option obj * list obj * bool) :=
  match given (field "Binds" hostConfig) with
  | None => ret (hostConfig, [], false)
  | Some raw =>
      match decStrings raw with
      | None => throw (Undecodable "Binds")
      | Some specs =>
          do xs <- rewriteBinds CanonicalKey wd r LocalExists PosixSource (default [] specs);
          ret (if existsb bindChanged xs
               then (<["Binds"%string := JArray (encString <$> omap keptBind xs)]> <$> hostConfig, omap movedBind xs, true)
               else (hostConfig, [], false))
      end
  end.

(** ** Labels *)

Definition wantedLabels (requested : RequestedPorts) : gmap string string :=
  let ports := RequestedPorts_String requested in
  if bool_decide (ports = "") then ownerLabels r else <[PortsLabel := ports]> (ownerLabels r).

(** The labels of the request; [None] where they do not decode. *)
Definition labelsField (payload : option obj) : option (gmap string string) :=
  match given (field "Labels" payload) with
  | None => Some ∅
  | Some raw => match decTexts raw with (Some t, true) => Some (default ∅ t) | _ => None end
  end.

Definition staleLabels (want labels : gmap string string) : bool :=
  existsb (λ kv, negb (bool_decide (default ""%string (labels !! kv.1) = kv.2))) (map_to_list want).

(** [label]: the payload, and whether it changed. *)
Definition labelPayload (requested : RequestedPorts) (payload : option obj) : M (option obj * bool) :=
  let want := wantedLabels requested in
  if bool_decide (want = ∅) then ret (payload, false)
  else match labelsField payload with
       | None => ret (payload, false)
       | Some labels =>
           if negb (staleLabels want labels) then ret (payload, false)
           else match payload with
                | None => throw Panics
                | Some p => ret (Some (<["Labels"%string := encTexts (want ∪ labels)]> p), true)
                end
       end.

(** ** The request *)

Context (LocalPortFree : option (Z → bool)) (range : bindings → list (string * option (list binding))) (gateway : string).

Definition liftRes {A} (x : res rewriteError A) : M A := match x with Ok a => ret a | Err e => throw e end.

Definition rewriteHostConfig (hostConfig : option obj) : M (option obj * RequestedPorts * bool) :=
  do binds <- rewriteBindsField hostConfig;
  do mounts <- rewriteMounts binds.1.1 binds.1.2;
  do ports <- liftRes (rewritePorts LocalPortFree range mounts.1);
  ret (ports.1.1, ports.1.2, binds.2 || mounts.2 || ports.2).

Definition ContainerCreate (body : json) : M json :=
  match decObject body with
  | None => throw (Undecodable "container create")
  | Some payload =>
      do host <- match field "HostConfig" payload with
                 | None => ret (None, ∅, false)
                 | Some raw => match decObject raw with Some hostConfig => rewriteHostConfig hostConfig | None => throw (Undecodable "HostConfig") end
                 end;
      let '(hostConfig, requested, hostChanged) := host in
      let '(hostConfig, aliased) :=
        if bool_decide (gateway = ""%string) then (hostConfig, false)
        else let '(h, aliased) := addHostAlias gateway (default ∅ hostConfig) in (Some h, aliased) in
      do labelled <- labelPayload requested payload;
      let '(payload, changed) := labelled in
      if hostChanged || aliased then
        match payload with None => throw Panics | Some p => ret (encMap (<["HostConfig"%string := encObject hostConfig]> p)) end
      else ret (if changed then encObject payload else body)
  end.

End creating.

(** * What a request keeps *)

Lemma bindM_ok {A B} (m : M A) (k : A → M B) q b q' : bindM m k q = (Ok b, q') → ∃ a q1, m q = (Ok a, q1) ∧ k a q1 = (Ok b, q').
Proof. intros [H|(e & _ & ?)]%bindM_inv; done. Qed.

(** Two objects agree outside some fields. *)
Definition onlyIn (fs : list string) (m m' : obj) : Prop := ∀ f, f ∉ fs → m' !! f = m !! f.

Lemma onlyIn_refl fs m : onlyIn fs m m.
Proof. done. Qed.
Lemma onlyIn_trans fs m1 m2 m3 : onlyIn fs m1 m2 → onlyIn fs m2 m3 → onlyIn fs m1 m3.
Proof. intros H1 H2 f Hf. by rewrite (H2 f Hf), (H1 f Hf). Qed.
Lemma onlyIn_weaken fs fs' m m' : fs ⊆ fs' → onlyIn fs m m' → onlyIn fs' m m'.
Proof. intros Hs H f Hf. apply H. set_solver. Qed.
Lemma onlyIn_insert fs f j m : f ∈ fs → onlyIn fs m (<[f := j]> m).
Proof. intros Hf g Hg. apply lookup_insert_ne. intros ->. done. Qed.
Lemma onlyIn_delete fs f m : f ∈ fs → onlyIn fs m (delete f m).
Proof. intros Hf g Hg. apply lookup_delete_ne. intros ->. done. Qed.
Create HintDb only_db.
#[local] Hint Resolve onlyIn_refl onlyIn_insert onlyIn_delete : only_db.
#[local] Hint Extern 1 (_ ∈ _ :: _) => set_solver : only_db.

Lemma takeMode_keeps m q w m' q' : takeMode m q = (Ok (w, m'), q') → onlyIn ["Consistency"%string] m m'.
Proof.
  unfold takeMode. destruct (given _) as [j|]; [|intros [= _ <- _]; auto with only_db].
  destruct (decString _) as [v|]; [|done]. intros (got & q1 & _ & [= _ <- _])%bindM_ok. auto with only_db.
Qed.

(** The words of a text that are not this program's, in their order. *)
Definition notOurs (options : string) : list string := filter (λ w, ourWord w = false ∧ w ≠ ""%string) (strings.Split options comma).

Lemma withoutOurWords_keeps options rest : withoutOurWords options = Ok rest →
  notOurs rest = notOurs options ∧ ∀ w, w ∈ strings.Split rest comma → ourWord w = false.
Proof.
  unfold withoutOurWords. destruct (filter (λ o, ourWord o = true) _) as [|w ws] eqn:E.
  - intros [= <-]. split; [done|]. intros w Hw. apply not_true_iff_false. intros Ho.
    assert (w ∈ filter (λ o, ourWord o = true) (strings.Split options comma)) as Hin by (by apply list_elem_of_filter). by rewrite E in Hin; apply elem_of_nil in Hin.
  - destruct (ParseMount _); [|done]. intros [= <-]. clear E. set (kept := filter (λ o, ourWord o = false) _).
    assert (Forall (λ w, strings.Contains w comma = false) kept) as Hc by apply filter_no_comma.
    assert (strings.Split (strings.Join kept ",") comma = match kept with [] => [""%string] | _ => kept end) as Es by (destruct kept; [reflexivity|by rewrite Split_Join]).
    unfold notOurs. rewrite Es. split.
    + transitivity (filter (λ w, ourWord w = false ∧ w ≠ ""%string) kept); [by destruct kept|]. unfold kept. clear. induction (strings.Split options comma) as [|x l IH]; [done|].
      rewrite (filter_cons (λ o, ourWord o = false)), (filter_cons _ x l). case_decide as H1; [rewrite (filter_cons (λ w, _ ∧ _) x); case_decide; [by rewrite IH|done]|].
      rewrite decide_False by tauto. exact IH.
    + intros x Hx. destruct kept as [|k ks] eqn:Ek; [by apply list_elem_of_singleton in Hx as ->|]. rewrite <- Ek in Hx. by apply list_elem_of_filter in Hx as [? _].
Qed.

(** What becomes of the consistency of a mount that is not a path's here: it stays,
    or it loses our words and no other. *)
Definition wordsDropped (c c' : option json) : Prop :=
  c' = c ∨ ∃ value rest, decString c = Some value ∧ rest ≠ value ∧ notOurs rest = notOurs value ∧ (∀ w, w ∈ strings.Split rest comma → ourWord w = false) ∧
    (rest = ""%string ∧ c' = None ∨ rest ≠ ""%string ∧ c' = Some (encString rest)).

Lemma dropOurConsistency_keeps m q m' ch q' : dropOurConsistency m q = (Ok (m', ch), q') →
  onlyIn ["Consistency"%string] m m' ∧ wordsDropped (m !! "Consistency"%string) (m' !! "Consistency"%string).
Proof.
  unfold dropOurConsistency. destruct (given _) as [j|] eqn:Eg; [|intros [= <- _ _]; split; [auto with only_db|by left]].
  assert (m !! "Consistency"%string = Some j) as Ej by (destruct (m !! _) as [[]|]; cbn in Eg; congruence).
  destruct (decString _) as [v|] eqn:Ev; [|intros [= <- _ _]; split; [auto with only_db|by left]].
  intros (rest & q1 & Hl & [= H _])%bindM_ok. unfold lift in Hl. destruct (withoutOurWords v) as [rest'|] eqn:Ew; [|done]. injection Hl as -> _.
  apply withoutOurWords_keeps in Ew as [Hn Ho]. rewrite Ej. case_bool_decide as E1; [injection H as <- _; split; [auto with only_db|left; done]|].
  case_bool_decide as E2; injection H as <- _; (split; [auto with only_db|]); right; exists v, rest; rewrite ?lookup_delete_eq, ?lookup_insert_eq; split_and!; auto.
Qed.

Lemma setSubpath_keeps m file q m' q' : setSubpath m file q = (Ok m', q') → onlyIn ["VolumeOptions"%string] m m'.
Proof.
  unfold setSubpath. destruct (given _) as [j|]; [|intros [= <- _]; auto with only_db]. destruct (decObject j); [|done]. intros [= <- _]. auto with only_db.
Qed.

(** The fields of a mount that are rewritten. *)
Definition mountFields : list string := ["Type"; "Source"; "Consistency"; "VolumeOptions"; "BindOptions"].

Record keptMount (m m' : option obj) : Prop := {
  km_rest : ∀ f, f ∉ mountFields → field f m' = field f m;
  km_others : decString (field "Type" m) ≠ Some "bind"%string →
    (∀ f, f ≠ "Consistency"%string → field f m' = field f m) ∧ wordsDropped (field "Consistency" m) (field "Consistency" m')
}.

Lemma keptMount_refl m : keptMount m m.
Proof. split; [done|]. intros _. split; [done|by left]. Qed.

Lemma keptMounts_refl ms : Forall2 keptMount ms ms.
Proof. induction ms; constructor; [apply keptMount_refl|done]. Qed.

Section keeping.
Context (CanonicalKey : string → string) (wd : world) (r : Rewriter) (LocalExists : string → bool) (PosixSource : string → string).

Lemma daemonMount_keeps source dsource m q m' ch q' : daemonMount source dsource m q = (Ok (m', ch), q') →
  onlyIn ["Source"; "Consistency"]%string m m' ∧
  (dsource = source → onlyIn ["Consistency"%string] m m' ∧ wordsDropped (m !! "Consistency"%string) (m' !! "Consistency"%string)).
Proof.
  unfold daemonMount. intros ([m1 ch1] & q1 & [H1 Hw]%dropOurConsistency_keeps & H)%bindM_ok. injection H as H _. case_bool_decide as Hs.
  - injection H as <- _. split; [|done]. eapply onlyIn_weaken; [|done]. set_solver.
  - injection H as <- _. split; [|done]. eapply onlyIn_trans; [eapply onlyIn_weaken; [|done]; set_solver|auto with only_db].
Qed.

Lemma localMount_keeps source m q m' ch q' : localMount CanonicalKey wd r source m q = (Ok (m', ch), q') → onlyIn mountFields m m'.
Proof.
  unfold localMount. intros ([asked m1] & q1 & H1%takeMode_keeps & H)%bindM_ok. apply bindM_ok in H as (words & q2 & _ & H). apply bindM_ok in H as ([volume file] & q3 & _ & H).
  apply bindM_ok in H as (m2 & q4 & H2 & H). injection H as <- _ _. eapply onlyIn_trans; [eapply onlyIn_weaken; [|exact H1]; set_solver|].
  eapply onlyIn_trans; [|apply onlyIn_delete; set_solver]. set (m0 := <["Source"%string := _]> _) in *. eapply onlyIn_trans with m0.
  { unfold m0. eapply onlyIn_trans; apply onlyIn_insert; set_solver. }
  case_bool_decide; [by injection H2 as <- _|]. apply setSubpath_keeps in H2. eapply onlyIn_weaken; [|done]. set_solver.
Qed.

Lemma rewriteMount_keeps m q x q' : rewriteMount CanonicalKey wd r LocalExists PosixSource m q = (Ok x, q') → keptMount m x.1.
Proof.
  unfold rewriteMount. destruct m as [m|]; [|intros [= <- _]; apply keptMount_refl]. destruct (decString (field "Type" (Some m))) as [mountType|] eqn:Et; [|intros [= <- _]; apply keptMount_refl].
  destruct (if bool_decide (mountType = "bind"%string) then _ else _) as [source|] eqn:Es; [|intros [= <- _]; apply keptMount_refl].
  intros ([m' ch] & q1 & H & [= <- _])%bindM_ok. cbn [fst]. case_bool_decide as Eb; cbn [negb orb] in H.
  - split; [|by rewrite Et, Eb]. intros f Hf. cbn. case_bool_decide as Ed; [apply daemonMount_keeps in H as [H _]; apply H; set_solver|]. by apply localMount_keeps in H; apply H.
  - injection Es as <-. assert (daemonSource r LocalExists PosixSource "" = Some ""%string) as Hd by reflexivity. rewrite Hd in H. apply daemonMount_keeps in H as [_ H]. specialize (H eq_refl).
    destruct H as [H Hw]. split; [intros f Hf; apply H; set_solver|]. intros _. split; [intros f Hf; apply H; set_solver|exact Hw].
Qed.

Lemma rewriteMountList_keeps ms q x q' : rewriteMountList CanonicalKey wd r LocalExists PosixSource ms q = (Ok x, q') → Forall2 keptMount ms x.1.
Proof.
  revert q x q'. induction ms as [|m ms IH]; intros q x q'; cbn [rewriteMountList]; [intros [= <- _]; constructor|].
  intros (y & q1 & H1%rewriteMount_keeps & H)%bindM_ok. apply bindM_ok in H as (ys & q2 & H2%IH & [= <- _]). by constructor.
Qed.

(** Two host configurations that agree outside one field. *)
Definition agree (f0 : string) (hc hc' : option obj) : Prop := ∀ f, f ≠ f0 → field f hc' = field f hc.

Lemma agree_insert f0 j hc : agree f0 hc (<[f0 := j]> <$> hc).
Proof. intros f Hf. destruct hc; [|done]. cbn. by rewrite lookup_insert_ne. Qed.

(** The mounts and the binds of a host configuration. *)
Definition mountsOf (hc : option obj) : list (option obj) := default [] (mjoin (field "Mounts" hc ≫= decObjects)).
Definition bindsOf (hc : option obj) : list string := default [] (mjoin (field "Binds" hc ≫= decStrings)).

Lemma mountsOf_given hc : match given (field "Mounts" hc) with None => Some [] | Some j => default [] <$> decObjects j end = Some (mountsOf hc) ∨
  (match given (field "Mounts" hc) with None => Some [] | Some j => default [] <$> decObjects j end) = None.
Proof. unfold mountsOf. destruct (field "Mounts" hc) as [[]|]; cbn; auto. destruct (mapM _ _); cbn; auto. Qed.

Lemma rewriteMounts_keeps hc moved q hc' ch q' : rewriteMounts CanonicalKey wd r LocalExists PosixSource hc moved q = (Ok (hc', ch), q') → (hc = None → moved = []) →
  agree "Mounts" hc hc' ∧ (ch = false → hc' = hc) ∧ ∃ ms', mountsOf hc' = (ms' ++ (Some <$> moved))%list ∧ Forall2 keptMount (mountsOf hc) ms'.
Proof.
  intros H Hnone. assert (moved = [] → ∃ ms', mountsOf hc = (ms' ++ (Some <$> moved))%list ∧ Forall2 keptMount (mountsOf hc) ms') as Hsame.
  { intros ->. exists (mountsOf hc). rewrite fmap_nil, app_nil_r. split; [done|apply keptMounts_refl]. }
  revert H. unfold rewriteMounts. destruct (negb _ && _) eqn:Eskip; [apply andb_true_iff in Eskip as [_ Em]; destruct moved; [|done]; intros [= <- <- _]; split_and!; [done|done|by apply Hsame]|].
  destruct (mountsOf_given hc) as [El|El]; rewrite El; [|done].
  intros (out & q1 & H1%rewriteMountList_keeps & [= H _])%bindM_ok. destruct (negb _ || out.2) eqn:Ec; injection H as <- <-.
  - split_and!; [apply agree_insert|done|]. exists out.1. split; [|done]. destruct hc as [h|]; [|by rewrite Hnone in Eskip].
    unfold mountsOf. cbn [field mbind option_bind fmap option_fmap option_map]. rewrite lookup_insert_eq. cbn [mbind option_bind].
    change (decObjects (JArray (encObject <$> out.1 ++ (Some <$> moved)))) with (decSlice decObject (encSlice encObject (Some (out.1 ++ (Some <$> moved))))).
    by rewrite (dec_encSlice decObject encObject) by apply dec_encObject.
  - apply orb_false_iff in Ec as [Em _]. destruct moved; [|done]. split_and!; [done|done|by apply Hsame].
Qed.

(** What becomes of a bind.  One that is not understood stays; so does one of the
    daemon's own paths or volumes that has no word of ours.  One of those that has
    loses our words and no other, and one of the daemon's paths is spelled the daemon's
    way.  One of a path here is a bind of the volume, or of the mount that volume is,
    with every option but the words of modes; or it is a mount of the one file of the
    volume, which is read-only exactly where it was.  Its target always stays. *)
Definition bindBecomes (spec : string) (x : rewritten) : Prop :=
  match ParseBind spec with
  | None => x = Kept spec
  | Some b =>
      match daemonSource r LocalExists PosixSource (bs_Source b) with
      | Some source =>
          x = Kept spec ∧ source = bs_Source b ∧ (∀ w, w ∈ strings.Split (bs_Options b) comma → ourWord w = false) ∨
          ∃ o, x = Rewrote (BindSpec_String {| bs_Source := source; bs_Target := bs_Target b; bs_Options := o |}) ∧
               notOurs o = notOurs (bs_Options b) ∧ ∀ w, w ∈ strings.Split o comma → ourWord w = false
      | None =>
          ∃ volume o, others o = others (bs_Options b) ∧ (∀ w, w ∈ strings.Split o comma → IsModeWord w = false) ∧
            (x = Rewrote (BindSpec_String {| bs_Source := volume; bs_Target := bs_Target b; bs_Options := o |}) ∨
             ∃ m, x = Moved m ∧ fm_Source m = volume ∧ fm_Target m = bs_Target b ∧ fm_Subpath m ≠ ""%string ∧
                  (fm_ReadOnly m = true ↔ ∃ opt, opt ∈ strings.Split o comma ∧ strings.TrimSpace opt = "ro"%string))
      end
  end.

Lemma rewriteBind_becomes spec q x q' : rewriteBind CanonicalKey wd r LocalExists PosixSource spec q = (Ok x, q') → bindBecomes spec x.
Proof.
  unfold rewriteBind, bindBecomes. destruct (ParseBind spec) as [b|]; [|by intros [= <- _]]. destruct (daemonSource r LocalExists PosixSource (bs_Source b)) as [source|].
  - intros (o & q1 & Hl & H)%bindM_ok. unfold lift in Hl. destruct (withoutOurWords (bs_Options b)) as [o'|] eqn:Ew; [|done]. injection Hl as -> ->. injection H as <- _.
    apply withoutOurWords_keeps in Ew as [Hn Ho]. destruct (negb _ || negb _) eqn:E; [right; by exists o|]. left.
    apply orb_false_iff in E as [E1%negb_false_iff%bool_decide_eq_true E2%negb_false_iff%bool_decide_eq_true]. by rewrite <- E1.
  - intros ([[asked spelled] o] & q1 & Hl & H)%bindM_ok. unfold lift in Hl. destruct (splitMode (bs_Options b)) as [[[asked' spelled'] o']|] eqn:Es; [|done]. injection Hl as -> -> -> ->.
    apply splitMode_spec in Es as [Eo Em]. apply bindM_ok in H as (words & q2 & _ & H). apply bindM_ok in H as ([volume file] & q3 & _ & H). exists volume, o. split_and!; [done|done|].
    case_bool_decide as Hf; cbn [negb] in H; [left; by injection H as <- _|]. right. apply bindM_ok in H as (m & q4 & H4 & [= <- _]). unfold fileMount in H4. cbn [bs_Options bs_Target bs_Source] in H4.
    destruct (fileOptions _ false) as [[ro|] opt] eqn:Ef; [|done]. injection H4 as <- _. eexists. split; [done|]. cbn. split_and!; [done|done|done|].
    rewrite (fileOptions_ro _ _ _ _ Ef). split; [intros [?|?]; done|auto].
Qed.

Lemma rewriteBinds_become specs q xs q' : rewriteBinds CanonicalKey wd r LocalExists PosixSource specs q = (Ok xs, q') → Forall2 bindBecomes specs xs.
Proof.
  revert q xs q'. induction specs as [|spec specs IH]; intros q xs q'; cbn [rewriteBinds]; [intros [= <- _]; constructor|].
  intros (y & q1 & H1%rewriteBind_becomes & H)%bindM_ok. apply bindM_ok in H as (ys & q2 & H2%IH & [= <- _]). by constructor.
Qed.

(** A bind that is kept is kept as it was written. *)
Lemma kept_as_written specs xs : Forall2 bindBecomes specs xs → existsb bindChanged xs = false → omap keptBind xs = specs ∧ omap movedBind xs = [].
Proof.
  induction 1 as [|spec x specs xs Hb _ IH]; [done|]. cbn [existsb]. intros [Hx Hxs]%orb_false_iff. destruct (IH Hxs) as [E1 E2]. destruct x as [s| |]; [|done..].
  cbn. rewrite E1, E2. split; [|done]. f_equal. unfold bindBecomes in Hb. destruct (ParseBind spec) as [b|]; [|by injection Hb]. destruct (daemonSource _ _ _ _).
  - destruct Hb as [[[= ->] _]|(o & ? & _)]; done.
  - destruct Hb as (v & o & _ & _ & [?|(m & ? & _)]); done.
Qed.

(** The texts of a list as they are, or as they are written in JSON. *)
Definition asWritten (l l' : list string) : Prop := l' = l ∨ l' = jsonText <$> l.

Lemma bindsOf_written h (l : list string) : bindsOf (Some (<["Binds"%string := JArray (encString <$> l)]> h)) = jsonText <$> l.
Proof.
  unfold bindsOf. cbn [field mbind option_bind]. rewrite lookup_insert_eq. cbn [mbind option_bind]. unfold decStrings, decSlice.
  replace (mapM (decString ∘ Some) (encString <$> l)) with (Some (jsonText <$> l)); [done|]. symmetry. apply mapM_Some. induction l; constructor; [done|exact IHl].
Qed.

Lemma rewriteBindsField_keeps hc q hc' moved ch q' : rewriteBindsField CanonicalKey wd r LocalExists PosixSource hc q = (Ok (hc', moved, ch), q') →
  agree "Binds" hc hc' ∧ (ch = false → hc' = hc) ∧ (hc' = None → hc = None ∧ moved = []) ∧
  ∃ xs, Forall2 bindBecomes (bindsOf hc) xs ∧ asWritten (omap keptBind xs) (bindsOf hc') ∧ moved = omap movedBind xs.
Proof.
  unfold rewriteBindsField. destruct (given _) as [j|] eqn:Eg.
  2: { intros [= <- <- <- _]. split_and!; [done|done|done|]. exists []. assert (bindsOf hc = []) as -> by (unfold bindsOf; destruct (field "Binds" hc) as [[]|]; done).
       split_and!; [constructor|by left|done]. }
  destruct hc as [h|]; [|done]. assert (field "Binds" (Some h) = Some j) as Ej by (destruct (field "Binds" (Some h)) as [[]|]; cbn in Eg; congruence).
  destruct (decStrings j) as [specs|] eqn:Ed; [|done].
  assert (bindsOf (Some h) = default [] specs) as Eb by (unfold bindsOf; rewrite Ej; cbn [mbind option_bind]; by rewrite Ed). rewrite Eb.
  intros (xs & q1 & H1%rewriteBinds_become & [= H _])%bindM_ok. destruct (existsb _ xs) eqn:Ec; injection H as <- <- <-.
  - split_and!; [apply (agree_insert _ _ (Some h))|done|done|]. exists xs. split_and!; [done| |done]. right. apply bindsOf_written.
  - split_and!; [done|done|done|]. exists xs. destruct (kept_as_written _ _ H1 Ec) as [E1 E2]. rewrite E1, E2. split_and!; [done|left; by rewrite Eb|done].
Qed.

Context (free : option (Z → bool)) (range : bindings → list (string * option (list binding))) (gateway : string).

Lemma rewritePorts_keeps hc hc' req ch : rewritePorts free range hc = Ok (hc', req, ch) → agree "PortBindings" hc hc' ∧ (ch = false → hc' = hc).
Proof.
  unfold rewritePorts. destruct (given _) as [j|]; [|by intros [= <- _ <-]]. destruct (decBindings j) as [bs|]; [|by intros [= <- _ <-]].
  destruct (foldRes _ _ _) as [[m rq]|]; [|done]. cbn [fst snd]. case_bool_decide; intros [= <- _ <-]; [done|]. split; [apply agree_insert|done].
Qed.

Lemma addHostAlias_keeps h h' ch : addHostAlias gateway h = (h', ch) → onlyIn ["ExtraHosts"%string] h h' ∧ (ch = false → h' = h).
Proof.
  unfold addHostAlias. case_bool_decide; [by intros [= <- <-]|]. destruct (_ || _); [by intros [= <- <-]|].
  destruct (match given _ with None => _ | Some _ => _ end) as [hosts|]; [|by intros [= <- <-]]. destruct (existsb _ hosts); intros [= <- <-]; [done|]. split; [auto with only_db|done].
Qed.

Lemma labelPayload_keeps req p q p' ch q' : labelPayload r req p q = (Ok (p', ch), q') → agree "Labels" p p' ∧ (ch = false → p' = p).
Proof.
  unfold labelPayload. case_bool_decide; [by intros [= <- <- _]|]. destruct (labelsField p) as [labels|]; [|by intros [= <- <- _]].
  destruct (negb _); [by intros [= <- <- _]|]. destruct p as [p|]; [|done]. intros [= <- <- _]. split; [apply (agree_insert _ _ (Some p))|done].
Qed.

(** The fields of a host configuration that are rewritten, and what of its binds and
    mounts stays: each in its place, and behind the mounts, in the order of the binds,
    exactly the binds that became mounts. *)
Definition hostFields : list string := ["Binds"; "Mounts"; "PortBindings"; "ExtraHosts"].

Record keptHost (hc hc' : option obj) : Prop := {
  kh_rest : ∀ f, f ∉ hostFields → field f hc' = field f hc;
  kh_mounts : ∃ xs ms', Forall2 bindBecomes (bindsOf hc) xs ∧ asWritten (omap keptBind xs) (bindsOf hc') ∧
    Forall2 keptMount (mountsOf hc) ms' ∧ mountsOf hc' = (ms' ++ (Some <$> omap movedBind xs))%list
}.

Lemma keptHost_none : keptHost None None.
Proof. split; [done|]. exists [], []. split_and!; [constructor|by left|constructor|done]. Qed.

Lemma keptHost_agree f0 hc hc1 hc2 : keptHost hc hc1 → agree f0 hc1 hc2 → f0 ∈ ["PortBindings"; "ExtraHosts"]%string → keptHost hc hc2.
Proof.
  intros [H1 H2] Ha Hf. split.
  - intros f Hn. rewrite (Ha f), (H1 f) by set_solver. done.
  - unfold bindsOf, mountsOf in *. rewrite (Ha "Mounts"%string), (Ha "Binds"%string) by set_solver. exact H2.
Qed.

Abbreviation rewriteHostConfig := (rewriteHostConfig CanonicalKey wd r LocalExists PosixSource free range).
Abbreviation ContainerCreate := (ContainerCreate CanonicalKey wd r LocalExists PosixSource free range gateway).

Lemma rewriteHostConfig_keeps hc q hc' req ch q' : rewriteHostConfig hc q = (Ok (hc', req, ch), q') →
  keptHost hc hc' ∧ (ch = false → hc' = hc) ∧ ∃ hc1 ch1, rewritePorts free range hc1 = Ok (hc', req, ch1) ∧ field "PortBindings" hc1 = field "PortBindings" hc.
Proof.
  unfold Create.rewriteHostConfig. intros ([[hb moved] cb] & q1 & (B1 & B2 & B3 & xs & B4 & B5 & ->)%rewriteBindsField_keeps & H)%bindM_ok. cbn [fst snd] in *.
  apply bindM_ok in H as ([hm cm] & q2 & Hm & H). cbn [fst snd] in *. apply rewriteMounts_keeps in Hm as (M1 & M2 & ms' & M3 & M4); [|by intros []%B3]. apply bindM_ok in H as ([[hp rq] cp] & q3 & H3 & [= <- <- <- _]). cbn [fst snd] in *.
  unfold liftRes in H3. destruct (rewritePorts free range hm) as [[[hp' rq'] cp']|] eqn:Ep; [|done]. injection H3 as -> -> -> _. pose proof Ep as [P1 P2]%rewritePorts_keeps. split_and!.
  - apply (keptHost_agree "PortBindings" _ hm); [|done|set_solver]. split.
    + intros f Hf. rewrite (M1 f), (B1 f) by set_solver. done.
    + exists xs, ms'. split_and!; [done| | |done].
      * unfold bindsOf in *. by rewrite (M1 "Binds"%string).
      * unfold mountsOf in M4 |- *. by rewrite <- (B1 "Mounts"%string).
  - intros [[Hb%B2 Hm%M2]%orb_false_iff Hp%P2]%orb_false_iff. congruence.
  - exists hm, cp. split; [done|]. by rewrite (M1 "PortBindings"%string), (B1 "PortBindings"%string).
Qed.

(** The host configuration of a request, nil where there is none. *)
Definition hostOf (p : option obj) : option obj := mjoin (field "HostConfig" p ≫= decObject).

(** The bindings of a host configuration, as the daemon's number is chosen for them. *)
Definition bindingsOf (hc : option obj) : bindings := default ∅ (given (field "PortBindings" hc) ≫= decBindings).

Lemma rewritePorts_asks hc hc' req ch : range (bindingsOf hc) ≡ₚ map_to_list (bindingsOf hc) → rewritePorts free range hc = Ok (hc', req, ch) →
  req = askedOf (bindingsOf hc) ∧ bindingsOf hc' = emptied <$> bindingsOf hc.
Proof.
  intros Hr H. assert (given (field "PortBindings" hc) ≫= decBindings = None → req = askedOf (bindingsOf hc) ∧ bindingsOf hc' = emptied <$> bindingsOf hc) as Hnone.
  { intros E. assert (bindingsOf hc = ∅) as Eb by (unfold bindingsOf; by rewrite E). rewrite Eb. unfold rewritePorts in H. destruct (given (field "PortBindings" hc)) as [j|]; cbn in E.
    - rewrite E in H. injection H as <- <- _. by rewrite Eb.
    - injection H as <- <- _. by rewrite Eb. }
  destruct (given (field "PortBindings" hc)) as [raw|] eqn:Eg; [|by apply Hnone]. cbn [mbind option_bind] in Hnone. destruct (decBindings raw) as [bs|] eqn:Ed; [|by apply Hnone]. clear Hnone.
  assert (bindingsOf hc = bs) as Eb by (unfold bindingsOf; rewrite Eg; cbn [mbind option_bind]; by rewrite Ed). rewrite Eb in *.
  destruct hc as [h|]; [|done]. assert (h !! "PortBindings"%string = Some raw ∧ raw ≠ JNull) as [Hraw Hn].
  { cbn in Eg. destruct (h !! _) as [[]|]; cbn in Eg; split; congruence. }
  destruct (rewritePorts_spec _ _ _ _ _ _ _ _ Hr Hraw Hn Ed H) as [Hreq (hc1 & raw' & -> & Hraw' & Hb' & _)]. split; [by apply askedOf_unique|].
  unfold bindingsOf. cbn [field mbind option_bind]. rewrite Hraw'. destruct raw'; cbn [given mbind option_bind]; try by rewrite Hb'. by injection Hb' as <-.
Qed.

(** The parts of a request that was accepted. *)
Lemma create_parts body q out q' : ContainerCreate body q = (Ok out, q') →
  ∃ p p' req, decObject body = Some p ∧ decObject out = Some p' ∧
    (∀ f, f ≠ "HostConfig"%string → f ≠ "Labels"%string → field f p' = field f p) ∧ keptHost (hostOf p) (hostOf p') ∧
    (∃ pl q1 ch q2, labelPayload r req p q1 = (Ok (pl, ch), q2) ∧ field "Labels" p' = field "Labels" pl) ∧
    ((∀ bs, range bs ≡ₚ map_to_list bs) → req = askedOf (bindingsOf (hostOf p)) ∧ bindingsOf (hostOf p') = emptied <$> bindingsOf (hostOf p)).
Proof.
  unfold Create.ContainerCreate. destruct (decObject body) as [p|] eqn:Eb; [|done]. intros ([[hc req] hch] & q1 & H1 & H)%bindM_ok.
  assert (keptHost (hostOf p) hc ∧ (hch = false → hc = hostOf p) ∧
    ((∀ bs, range bs ≡ₚ map_to_list bs) → req = askedOf (bindingsOf (hostOf p)) ∧ bindingsOf hc = emptied <$> bindingsOf (hostOf p))) as (K1 & K2 & K3).
  { unfold hostOf. destruct (field "HostConfig" p) as [raw|]; [|injection H1 as <- <- <- _; split_and!; [apply keptHost_none|done|done]]. cbn [mbind option_bind].
    destruct (decObject raw) as [h|]; [|done]. cbn [mjoin option_join]. apply rewriteHostConfig_keeps in H1 as (? & ? & hc1 & ch1 & Hrw & Hpb). split_and!; [done|done|]. intros Hrg.
    assert (bindingsOf hc1 = bindingsOf h) as Ebi by (unfold bindingsOf; by rewrite Hpb). rewrite <- Ebi. apply (rewritePorts_asks _ _ _ _ (Hrg _) Hrw). }
  set (al := if bool_decide (gateway = ""%string) then _ else _) in H.
  assert (∃ hc2 ach, al = (hc2, ach) ∧ agree "ExtraHosts" hc hc2) as (hc2 & ach & Eal & A1).
  { unfold al. case_bool_decide; [by exists hc, false|]. destruct (addHostAlias gateway (default ∅ hc)) as [h a] eqn:Ea. apply addHostAlias_keeps in Ea as [Ea _].
    exists (Some h), a. split; [done|]. intros f Hf. cbn. rewrite (Ea f) by set_solver. destruct hc; [done|]. cbn. by rewrite lookup_empty. }
  rewrite Eal in H. apply bindM_ok in H as ([pl ch] & q2 & Hl & H). pose proof Hl as [L1 L2]%labelPayload_keeps.
  assert (keptHost (hostOf p) hc2) as K4 by (apply (keptHost_agree "ExtraHosts" _ hc); [done|done|set_solver]).
  destruct (hch || ach) eqn:Ec.
  - destruct pl as [pl|]; [|done]. injection H as <- _. exists p, (Some (<["HostConfig"%string := encObject hc2]> pl)), req.
    assert (hostOf (Some (<["HostConfig"%string := encObject hc2]> pl)) = hc2) as Eh by (unfold hostOf; cbn [field mbind option_bind]; rewrite lookup_insert_eq; cbn [mbind option_bind]; by rewrite dec_encObject).
    rewrite Eh. split_and!; [done|apply dec_encMap| |done| |unfold bindingsOf at 2; by rewrite (A1 "PortBindings"%string)].
    + intros f Hf Hf'. rewrite <- (L1 f Hf'). cbn. by rewrite lookup_insert_ne.
    + exists (Some pl), q1, ch, q2. split; [done|]. cbn. by rewrite lookup_insert_ne.
  - injection H as <- _. apply orb_false_iff in Ec as [->%K2 _]. exists p, pl, req.
    assert (decObject (if ch then encObject pl else body) = Some pl) as Ed by (destruct ch; [apply dec_encObject|by rewrite L2]).
    assert (hostOf pl = hostOf p) as Eh by (unfold hostOf; by rewrite (L1 "HostConfig"%string)).
    rewrite Eh. split_and!; [done|done| |done| |done].
    + intros f _ Hf'. by apply L1.
    + by exists pl, q1, ch, q2.
Qed.


(** ** Whose the container is *)

Lemma portsEntry_visible k ps : labelKey k → Forall portOk ps → everyByte visible (portsEntry k ps) = true.
Proof.
  intros [_ Hk] Hp. unfold portsEntry. rewrite !everyByte_app, (everyByte_impl _ _ _ labelByte_visible Hk). change (everyByte visible "=") with true. cbn [andb].
  apply everyByte_Join; [done|]. apply Forall_fmap. rewrite stable_sort_Permutation. eapply Forall_impl; [exact Hp|]. intros p H. by apply (everyByte_impl _ _ _ labelByte_visible), Itoa_labelBytes.
Qed.

Lemma labelled_text req : labelled req → jsonText (RequestedPorts_String req) = RequestedPorts_String req ∧ (req ≠ ∅ → RequestedPorts_String req ≠ ""%string).
Proof.
  intros Hl. split.
  - apply jsonText_visible. unfold RequestedPorts_String. apply everyByte_Join; [done|]. apply Forall_fmap, Forall_forall. intros k Hk. unfold sort_strings in Hk. rewrite elem_of_stable_sort, list_elem_of_fmap in Hk.
    destruct Hk as ([k' ps] & -> & Hr%elem_of_map_to_list). cbn in *. rewrite Hr. destruct Hl as [Hl _]. destruct (Hl _ _ Hr) as (? & _ & ?). by apply portsEntry_visible.
  - intros Hne E. pose proof (requested_ports_roundtrip req Hl) as H. rewrite E in H. apply Hne. apply (fmap_empty_inv (stable_sort Z.leb)). rewrite <- H. by vm_compute.
Qed.

Lemma labelsOf_field p t : labelsField p = Some t → labelsOf (field "Labels" p) = t.
Proof.
  unfold labelsField. destruct (field "Labels" p) as [j|]; [|by intros [= <-]]. destruct j; cbn; try done; try (by intros [= <-]). destruct (forallb _ _); [|done]. by intros [= <-].
Qed.

Lemma labelsOf_encTexts_lookup m k : labelsOf (Some (encTexts m)) !! k = jsonText <$> m !! k.
Proof. cbn. rewrite asMap_encMap, !lookup_fmap. by destruct (m !! k). Qed.

(** The labels of a request that went through [label]: those wanted, over its own. *)
Lemma labelPayload_labels req p q p' ch q' t : labelPayload r req p q = (Ok (p', ch), q') → labelsField p = Some t → (∀ k v, t !! k = Some v → jsonText v = v) →
  let t' := labelsOf (field "Labels" p') in
  (∀ k, wantedLabels r req !! k = None → t' !! k = t !! k) ∧ (∀ k v, wantedLabels r req !! k = Some v → jsonText v = v → default ""%string (t' !! k) = v).
Proof.
  unfold labelPayload. intros H Hf Ht. rewrite Hf in H. cbn zeta. case_bool_decide as Hw.
  { injection H as <- _ _. rewrite (labelsOf_field p t Hf), Hw. split; [done|]. intros k v Hk. by rewrite lookup_empty in Hk. }
  destruct (staleLabels _ t) eqn:Es; cbn [negb] in H.
  - destruct p as [p|]; [|done]. injection H as <- _ _. cbn [field mbind option_bind]. rewrite lookup_insert_eq. split.
    + intros k Hk. rewrite labelsOf_encTexts_lookup, lookup_union, Hk, left_id_L by apply _. destruct (t !! k) as [v|] eqn:E; [|done]. cbn. by rewrite (Ht k v E).
    + intros k v Hk Hj. rewrite labelsOf_encTexts_lookup, (lookup_union_Some_l _ _ _ _ Hk). cbn. done.
  - injection H as <- _ _. rewrite (labelsOf_field p t Hf). split; [done|]. intros k v Hk _. unfold staleLabels in Es.
    rewrite <- not_true_iff_false, existsb_exists in Es. destruct (decide (default ""%string (t !! k) = v)) as [?|Hne]; [done|]. destruct Es. exists (k, v).
    split; [by apply list_elem_of_In, elem_of_map_to_list|]. cbn. by rewrite bool_decide_eq_false_2.
Qed.

Definition sessionRule : Rule := {| rl_User := rw_Owner r; rl_ClientID := rw_Client r |}.

Lemma wanted_owner req : rw_Owner r ≠ ""%string → wantedLabels r req !! OwnerLabel = Some (rw_Owner r).
Proof.
  intros H. unfold wantedLabels. case_bool_decide; [|rewrite lookup_insert_ne by done]; unfold ownerLabels; rewrite (bool_decide_eq_false_2 _ H).
  all: case_bool_decide; [apply lookup_singleton_eq|by rewrite lookup_insert_ne, lookup_singleton_eq].
Qed.
Lemma wanted_client req : rw_Client r ≠ ""%string → wantedLabels r req !! ClientLabel = Some (rw_Client r).
Proof. intros H. unfold wantedLabels. case_bool_decide; [|rewrite lookup_insert_ne by done]; unfold ownerLabels; rewrite (bool_decide_eq_false_2 _ H); apply lookup_insert_eq. Qed.
Lemma wanted_ports req : RequestedPorts_String req ≠ ""%string → wantedLabels r req !! PortsLabel = Some (RequestedPorts_String req).
Proof. intros H. unfold wantedLabels. rewrite (bool_decide_eq_false_2 _ H). apply lookup_insert_eq. Qed.

(** A request that a session accepts, and what it needs to be understood: labels that
    are texts, an account and a machine, and texts that JSON keeps. *)
Record accepted (body out : json) (p p' : option obj) (t : gmap string string) : Prop := {
  ac_made : ∃ q q', ContainerCreate body q = (Ok out, q');
  ac_body : decObject body = Some p;
  ac_out : decObject out = Some p';
  ac_labels : labelsField p = Some t;
  ac_texts : ∀ k v, t !! k = Some v → jsonText v = v;
  ac_owner : rw_Owner r ≠ ""%string ∧ jsonText (rw_Owner r) = rw_Owner r;
  ac_client : rw_Client r ≠ ""%string ∧ jsonText (rw_Client r) = rw_Client r;
  ac_range : ∀ bs, range bs ≡ₚ map_to_list bs
}.

Lemma accepted_parts body out p p' t : accepted body out p p' t →
  let req := askedOf (bindingsOf (hostOf p)) in let c := labelled_container (labelsOf (field "Labels" p')) in
  (∀ k, wantedLabels r req !! k = None → ct_Labels c !! k = t !! k) ∧ (∀ k v, wantedLabels r req !! k = Some v → jsonText v = v → label c k = v) ∧
  bindingsOf (hostOf p') = emptied <$> bindingsOf (hostOf p).
Proof.
  intros [(q & q' & H) Hp Ho Ht Hj _ _ Hrg]. apply create_parts in H as (p0 & p1 & req & H1 & H2 & _ & _ & (pl & q1 & ch & q2 & Hl & Hf) & H4). rewrite H1 in Hp. injection Hp as ->.
  rewrite H2 in Ho. injection Ho as ->. cbn zeta. destruct H4 as [-> H5]; [done|]. destruct (labelPayload_labels _ _ _ _ _ _ _ Hl Ht Hj) as [L1 L2]. rewrite Hf. by split_and!.
Qed.


(** C29 (roundtrip). The ports a user asks for are the ports docker shows and the ports
    that are opened.  A create request that is accepted leaves with the daemon choosing
    every published port, and its label carrying the numbers.  For the container made
    of it, inspected with the labels and the host configuration it was made with, the
    local ports of a publication are the numbers asked for its container port, in
    increasing order; and [docker inspect] shows exactly those under [PortBindings],
    each on a binding that agrees with one the user wrote in everything but its number,
    such as the address it was asked for on.  That is so of a container port that is
    spelled with its protocol in lower case, as docker spells it; the number asked for
    one without is lost ([port_without_protocol]).  The request asks for some port by
    number, and for no more than the label holds; none of its bindings is null. *)
Theorem asked_ports_come_back ToLower body out p p' t doc : accepted body out p p' t →
  let bs := bindingsOf (hostOf p) in labelled (askedOf bs) → askedOf bs ≠ ∅ → noNull bs →
  configLabels (doc !! "Config"%string) = labelsOf (field "Labels" p') → doc !! "HostConfig"%string = Some (encObject (hostOf p')) →
  let c := labelled_container (configLabels (doc !! "Config"%string)) in
  (∀ k l, bs !! k = Some l → ∃ l', bindingsOf (hostOf p') !! k = Some l' ∧ daemonChooses l l') ∧
  label c PortsLabel = RequestedPorts_String (askedOf bs) ∧
  (∀ pub, Local_ ToLower sessionRule c pub = orPublished (stable_sort Z.leb (fixedOf bs (ContainerPort ToLower (pb_PrivatePort pub) (pb_Type pub)))) pub) ∧
  ∃ seen h shown, InspectPorts ToLower sessionRule (encMap doc) = Ok seen ∧ memberOf "HostConfig" (default (encMap doc) seen) = Some h ∧
    h !! "PortBindings"%string ≫= decBindings = Some shown ∧
    ∀ k, canonical ToLower k → fixedOf shown k = stable_sort Z.leb (fixedOf bs k) ∧
      ∀ b, b ∈ default [] (mjoin (shown !! k)) → ∃ b0, b0 ∈ default [] (mjoin (bs !! k)) ∧ ∀ f, f ≠ "HostPort"%string → field f b = field f b0.
Proof.
  intros Ha bs Hl Hne Hnn Hcf Hdoc. cbn zeta. destruct (accepted_parts _ _ _ _ _ Ha) as (L1 & L2 & Hb). destruct Ha as [_ _ _ _ _ [Hno Hjo] [Hnc Hjc] _]. cbn zeta in L1, L2, Hb. fold bs in L1, L2, Hb.
  destruct (labelled_text _ Hl) as [Hj Hs]. set (c := labelled_container _). rewrite <- Hcf in L1, L2. fold c in L1, L2.
  assert (carries sessionRule c (askedOf bs)) as Hc.
  { split; [unfold Owned; rewrite (L2 OwnerLabel (rw_Owner r)); [by apply bool_decide_eq_true|by apply wanted_owner|done]|apply L2; [by apply wanted_client|done]|].
    apply L2; [by apply wanted_ports, Hs|done]. }
  split; [intros k l Hk; exists (emptied l); rewrite Hb, lookup_fmap, Hk; split; [done|apply emptied_chooses]|]. split; [apply Hc|].
  assert (∃ h raw, hostOf p' = Some h ∧ h !! "PortBindings"%string = Some raw ∧ decBindings raw = Some (emptied <$> bs)) as (h & raw & Eh & Hraw & Hdec).
  { assert (bindingsOf (hostOf p') ≠ ∅) as Hbn. { rewrite Hb. intros E%fmap_empty_inv. apply Hne. by rewrite E. }
    unfold bindingsOf in Hb, Hbn. destruct (hostOf p') as [h|]; [|done]. cbn [field mbind option_bind] in Hb, Hbn. destruct (h !! "PortBindings"%string) as [raw|] eqn:Er; [|done]. exists h, raw.
    split_and!; [done|done|]. destruct raw; cbn [given mbind option_bind] in Hb, Hbn; try done; destruct (decBindings _); cbn in Hb, Hbn; congruence. }
  rewrite Eh in Hdoc. exact (sent_ports_are_shown ToLower sessionRule h raw bs (askedOf bs) doc Hraw Hdec Hnn (askedOf_lookup bs) Hl Hc Hdoc).
Qed.

End keeping.
