(* ===== verification/Collect.v ===== *)
(** * Collecting volumes nothing uses (client/internal/rewrite/gc.go, rewrite.go,
    client/internal/session/control.go)

    A collector works on listings that may be stale by the time it removes a volume;
    the guard it shares with the rewriter makes the last look and the removal one
    step.  A share registered and its volume created are one step too. *)

From S2P Require Import Prelude GoStrings Names Forwards Mounts Rewrite.
Open Scope Z_scope.

Record Volume := {
  vl_Name : string;
  vl_Labels : gmap string string
}.

Record Collector := {
  cl_Owner : string;
  cl_Client : string;
  cl_Orphans : bool
}.

Definition labelOf (v : Volume) (k : string) : string := default "" (vl_Labels v !! k).

(** [ours]. *)
Definition ours (c : Collector) (v : Volume) : bool :=
  if negb (IsManagedVolume (vl_Name v)) then false
  else if negb (bool_decide (labelOf v ManagedLabel = ManagedShare)) then false
  else if negb (bool_decide (cl_Owner c = "")) && negb (bool_decide (labelOf v OwnerLabel = cl_Owner c)) then false
  else if negb (bool_decide (cl_Client c = "")) &&
          (negb (bool_decide (labelOf v ClientLabel = cl_Client c)) && negb (bool_decide (labelOf v ClientLabel = "") && cl_Orphans c)) then false
  else true.

(** [cacheHeld]: [caches] is the workspace's answer, [None] where it cannot be asked
    or fails. *)
Definition cacheHeld (caches : option (gset string)) (name : string) : bool :=
  if negb (IsCacheVolume name) then false
  else match caches with None => true | Some mounted => bool_decide (name ∈ mounted) end.

(** What [Collect] decides before it takes the guard. *)
Definition candidate (c : Collector) (inUse : gset string) (caches : option (gset string)) (v : Volume) : bool :=
  ours c v && negb (bool_decide (vl_Name v ∈ inUse)) && negb (cacheHeld caches (vl_Name v)).

(** [exportsVolume]: the volumes of the shares exported, and the caches over them. *)
Definition exportsVolume (exports : gset string) (volume : string) : bool :=
  existsb (λ name, bool_decide (volume = name) || bool_decide (volume = CacheVolumeName name)) (elements exports).

(** [Guard.exported] and [remove], with the daemon's answer. *)
Definition remove (exports : gset string) (name : string) (refuses : bool) (volumes : gset string) : gset string * bool :=
  if exportsVolume exports name then (volumes, false)
  else if refuses then (volumes, false)
  else (volumes ∖ {[name]}, true).

(** [Collect] with nothing running beside it: the volumes left, and how many went. *)
Definition collectOne (c : Collector) (inUse : gset string) (caches : option (gset string)) (exports : gset string) (refuses : string → bool)
    (acc : gset string * Z) (v : Volume) : gset string * Z :=
  if candidate c inUse caches v
  then let '(volumes, gone) := remove exports (vl_Name v) (refuses (vl_Name v)) acc.1 in (volumes, if gone then acc.2 + 1 else acc.2)
  else acc.

Definition Collect (c : Collector) (listed : list Volume) (inUse : gset string) (caches : option (gset string)) (exports : gset string)
    (refuses : string → bool) (volumes : gset string) : gset string * Z :=
  foldl (collectOne c inUse caches exports refuses) (volumes, 0) listed.

(** ** Beside a rewriter *)

(** The volumes the daemon has, the names of the shares the session exports, and the
    volumes its shares were given and not released. *)
Record volumeWorld := {
  vw_volumes : gset string;
  vw_exports : gset string;
  vw_given : gset string
}.

(** The volume [volumeFor] creates for a share: the share's own, or its cache. *)
Definition backing (isUnion : bool) (name : string) : string := if isUnion then CacheVolumeName name else name.

Inductive volume_step (w : volumeWorld) : volumeWorld → Prop :=
| volume_share isUnion name :
    volume_step w {| vw_volumes := {[backing isUnion name]} ∪ vw_volumes w; vw_exports := {[name]} ∪ vw_exports w;
                     vw_given := {[backing isUnion name]} ∪ vw_given w |}
| volume_unshare name :
    volume_step w {| vw_volumes := vw_volumes w; vw_exports := vw_exports w ∖ {[name]};
                     vw_given := vw_given w ∖ {[name; CacheVolumeName name]} |}
| volume_other name :
    volume_step w {| vw_volumes := {[name]} ∪ vw_volumes w; vw_exports := vw_exports w; vw_given := vw_given w |}
| volume_collect c inUse caches v refuses :
    candidate c inUse caches v = true →
    volume_step w {| vw_volumes := fst (remove (vw_exports w) (vl_Name v) refuses (vw_volumes w)); vw_exports := vw_exports w; vw_given := vw_given w |}.

Definition volume_reachable (w : volumeWorld) : Prop :=
  rtc volume_step {| vw_volumes := ∅; vw_exports := ∅; vw_given := ∅ |} w.

Lemma exportsVolume_iff exports v : exportsVolume exports v = true ↔ ∃ name, name ∈ exports ∧ (v = name ∨ v = CacheVolumeName name).
Proof.
  unfold exportsVolume. rewrite existsb_exists. split.
  - intros (n & Hin & H). apply list_elem_of_In, elem_of_elements in Hin. exists n. split; [done|]. apply orb_true_iff in H. rewrite !bool_decide_eq_true in H. done.
  - intros (n & Hin & H). exists n. split; [by apply list_elem_of_In, elem_of_elements|]. apply orb_true_iff. rewrite !bool_decide_eq_true. done.
Qed.

(** A volume is given while its share is exported, and the daemon has it. *)
Record volumes_ok (w : volumeWorld) : Prop := {
  vk_exported : ∀ v, v ∈ vw_given w → exportsVolume (vw_exports w) v = true;
  vk_there : vw_given w ⊆ vw_volumes w
}.

Lemma remove_spares exports name refuses volumes v :
  v ∈ volumes → exportsVolume exports v = true → v ∈ fst (remove exports name refuses volumes).
Proof.
  intros Hv He. unfold remove. destruct (exportsVolume exports name) eqn:E; [done|]. destruct refuses; [done|]. cbn.
  apply elem_of_difference. split; [done|]. intros ->%elem_of_singleton. congruence.
Qed.

Lemma volume_step_ok w w' : volumes_ok w → volume_step w w' → volumes_ok w'.
Proof.
  intros [He Ht] Hs. destruct Hs as [isUnion name|name|name|c inUse caches v refuses _]; split; cbn [vw_given vw_exports vw_volumes].
  - intros v [->%elem_of_singleton|Hv]%elem_of_union; apply exportsVolume_iff.
    + exists name. split; [set_solver|]. destruct isUnion; auto.
    + apply He, exportsVolume_iff in Hv as (n & ? & ?). exists n. split; [set_solver|done].
  - set_solver.
  - intros v [Hv Hn]%elem_of_difference. apply He, exportsVolume_iff in Hv as (n & Hin & Hv). apply exportsVolume_iff. exists n. split; [|done].
    apply elem_of_difference. split; [done|]. intros ->%elem_of_singleton. apply Hn. destruct Hv as [->| ->]; set_solver.
  - set_solver.
  - done.
  - set_solver.
  - done.
  - intros x Hx. apply remove_spares; [by apply Ht|by apply He].
Qed.

Lemma volume_reachable_ok w : volume_reachable w → volumes_ok w.
Proof.
  intros Hr. assert (volumes_ok {| vw_volumes := ∅; vw_exports := ∅; vw_given := ∅ |}) as K by (split; [intros v []%elem_of_empty|done]).
  unfold volume_reachable in Hr. induction Hr as [|? ? ? Hs _ IH]; [done|]. apply IH. by eapply volume_step_ok.
Qed.

Lemma ours_iff c v :
  ours c v = true ↔
  IsManagedVolume (vl_Name v) = true ∧ labelOf v ManagedLabel = ManagedShare ∧
  (cl_Owner c ≠ ""%string → labelOf v OwnerLabel = cl_Owner c) ∧
  (cl_Client c ≠ ""%string → labelOf v ClientLabel = cl_Client c ∨ labelOf v ClientLabel = ""%string ∧ cl_Orphans c = true).
Proof.
  unfold ours. destruct (IsManagedVolume (vl_Name v)); cbn [negb]; [|naive_solver].
  repeat case_bool_decide; destruct (cl_Orphans c); cbn; naive_solver.
Qed.

(** Collection spares what a share has.  Whatever the collectors of any
    machine decided from listings that may be stale, interleaved with shares being
    registered and released in any order, the daemon has every volume a share was
    given; and a volume that a collector does remove carries our prefix and our
    label, the owner's and the machine's (or, for orphans, no machine's), was not
    in use when it looked, was not a cache the workspace had mounted or could not
    answer for, and belongs to no exported share. *)
Theorem collection_spares_shares w :
  volume_reachable w →
  vw_given w ⊆ vw_volumes w ∧
  ∀ c inUse caches v refuses, candidate c inUse caches v = true → snd (remove (vw_exports w) (vl_Name v) refuses (vw_volumes w)) = true →
    IsManagedVolume (vl_Name v) = true ∧ labelOf v ManagedLabel = ManagedShare ∧
    (cl_Owner c ≠ ""%string → labelOf v OwnerLabel = cl_Owner c) ∧
    (cl_Client c ≠ ""%string → labelOf v ClientLabel = cl_Client c ∨ labelOf v ClientLabel = ""%string ∧ cl_Orphans c = true) ∧
    vl_Name v ∉ inUse ∧
    (IsCacheVolume (vl_Name v) = true → ∃ mounted, caches = Some mounted ∧ vl_Name v ∉ mounted) ∧
    vl_Name v ∉ vw_given w.
Proof.
  intros [He Ht]%volume_reachable_ok. split; [done|]. intros c inUse caches v refuses Hc Hr. unfold candidate in Hc.
  apply andb_true_iff in Hc as [[(H1 & H2 & H3 & H4)%ours_iff Hu%negb_true_iff%bool_decide_eq_false]%andb_true_iff Hh%negb_true_iff].
  split_and!; try done.
  - intros Hcache. unfold cacheHeld in Hh. rewrite Hcache in Hh. cbn [negb] in Hh. destruct caches as [mounted|]; [|done]. exists mounted. split; [done|].
    by apply bool_decide_eq_false in Hh.
  - intros Hg%He. unfold remove in Hr. by rewrite Hg in Hr.
Qed.
