(* ===== verification/Prune.v ===== *)
(** * What the agent removes from a daemon (agent/internal/prune)

    Listings, the record of when each image was last in use, and the time go in;
    what to remove comes out.  The record's file is JSON and left out. *)

From Stdlib Require Import Ascii.
From S2P Require Import Prelude GoStrings GoTime Records Names.
Open Scope Z_scope.

Record Image := {
  im_ID : string;
  im_Tags : list string;
  im_Digests : list string;
  im_Size : Z
}.

Definition Refs (i : Image) : list string :=
  match im_Tags i, im_Digests i with
  | [], [] => [im_ID i]
  | [], digests => digests
  | tags, _ => tags
  end.

Record Container := {
  ct_ID : string;
  ct_Name : string;
  ct_ImageID : string;
  ct_Status : string;
  ct_Created : Time;
  ct_Finished : Time
}.

Definition Stopped (c : Container) : bool :=
  bool_decide (ct_Status c = "exited") || bool_decide (ct_Status c = "dead") || bool_decide (ct_Status c = "created").

(** [Finished.Year() <= 1]: before the second year begins. *)
Definition yearTwo : Time := zeroTime + 365 * 86400 * Second.

Definition Since (c : Container) : Time :=
  if IsZero (ct_Finished c) || (ct_Finished c <? yearTwo) then ct_Created c else ct_Finished c.

(** [Resolve]: by tag or digest, then by a prefix of the id. *)
Definition atSign : ascii := "@".
Definition colonByte : ascii := ":".

Definition withLatest (name : string) : string :=
  if strings.Contains name colonByte || strings.Contains name atSign then name else name +:+ ":latest".

Definition namedBy (name : string) (img : Image) : bool :=
  existsb (λ t, let t := strings.TrimPrefix t "docker.io/library/" in bool_decide (t = name ∨ t = withLatest name)) (im_Tags img)
  || bool_decide (name ∈ im_Digests img).

Definition byPrefix (bare : string) (img : Image) : bool := strings.HasPrefix (strings.TrimPrefix (im_ID img) "sha256:") bare.

Definition Resolve (images : list Image) (name : string) : option string :=
  let name := strings.TrimPrefix (strings.TrimPrefix name "docker.io/library/") "docker.io/" in
  let bare := strings.TrimPrefix name "sha256:" in
  match List.find (namedBy name) images with
  | Some img => Some (im_ID img)
  | None => if (4 <=? strlen bare)%nat && isLowerHex bare then im_ID <$> List.find (byPrefix bare) images else None
  end.

Definition Used (containers : list Container) : gset string := list_to_set (ct_ImageID <$> containers).

(** ** The record *)

Record Record_ := {
  rc_Swept : Time;
  rc_Seen : gmap string Time
}.

Definition NewRecord : Record_ := {| rc_Swept := zeroTime; rc_Seen := ∅ |}.

Definition LastSeen (r : Record_) (id : string) (now : Time) : Time := default now (rc_Seen r !! id).

(** [Observe]: the images listed, then those in use, then those named. *)
Definition listSeen (now : Time) (old : gmap string Time) (seen : gmap string Time) (img : Image) : gmap string Time :=
  <[im_ID img := default now (old !! im_ID img)]> seen.

Definition useSeen (now : Time) (seen : gmap string Time) (id : string) : gmap string Time :=
  match seen !! id with Some _ => <[id := now]> seen | None => seen end.

Definition nameSeen (now : Time) (images : list Image) (seen : gmap string Time) (name : string) : gmap string Time :=
  match Resolve images name with Some id => <[id := now]> seen | None => seen end.

Definition Observe (now : Time) (images : list Image) (containers : list Container) (created : list string) (r : Record_) : Record_ :=
  let listed := foldl (listSeen now (rc_Seen r)) ∅ images in
  let used := foldl (useSeen now) listed (elements (Used containers)) in
  {| rc_Swept := rc_Swept r; rc_Seen := foldl (nameSeen now images) used created |}.

(** ** What to remove *)

Record Candidate := {
  cd_Image : Image;
  cd_Seen : Time
}.

Definition unused (r : Record_) (images : list Image) (containers : list Container) (protected : gset string) (now : Time) : list Candidate :=
  let used := Used containers in
  stable_sort (λ a b, cd_Seen a <=? cd_Seen b)
    ((λ img, {| cd_Image := img; cd_Seen := LastSeen r (im_ID img) now |}) <$>
       filter (λ img, im_ID img ∉ used ∧ im_ID img ∉ protected) images).

Definition AgeImages (r : Record_) (images : list Image) (containers : list Container) (protected : gset string) (after : Duration) (now : Time) : list Candidate :=
  filter (λ c, after < Sub now (cd_Seen c)) (unused r images containers protected now).

Definition PressureImages (r : Record_) (images : list Image) (containers : list Container) (protected : gset string) (floor : Duration) (now : Time) : list Candidate :=
  filter (λ c, floor ≤ Sub now (cd_Seen c)) (unused r images containers protected now).

Definition AgeContainers (containers : list Container) (after : Duration) (now : Time) : list Container :=
  filter (λ c, Stopped c = true ∧ strings.HasPrefix (strings.TrimPrefix (ct_Name c) "/") "rd-" = false ∧ after < Sub now (Since c)) containers.

(** ** Looking at a daemon, again and again *)

Record observation := {
  ob_now : Time;
  ob_images : list Image;
  ob_containers : list Container;
  ob_created : list string
}.

Definition observe (r : Record_) (o : observation) : Record_ := Observe (ob_now o) (ob_images o) (ob_containers o) (ob_created o) r.

(** An image a look found listed, and one it found in use. *)
Definition listedAt (o : observation) (id : string) : Prop := id ∈ im_ID <$> ob_images o.
Definition usedAt (o : observation) (id : string) : Prop :=
  id ∈ Used (ob_containers o) ∨ ∃ name, name ∈ ob_created o ∧ Resolve (ob_images o) name = Some id.

Lemma listSeen_fold now old images id seen :
  foldl (listSeen now old) seen images !! id =
  if decide (id ∈ im_ID <$> images) then Some (default now (old !! id)) else seen !! id.
Proof.
  revert seen. induction images as [|img images IH]; intros seen; cbn [foldl]; [by rewrite decide_False by (intros []%elem_of_nil)|].
  rewrite IH. rewrite fmap_cons. destruct (decide (id ∈ im_ID <$> images)) as [H|H].
  - by rewrite decide_True by (by right).
  - unfold listSeen. destruct (decide (im_ID img = id)) as [<-|Hne].
    + rewrite lookup_insert_eq, decide_True by left. done.
    + rewrite lookup_insert_ne, decide_False; [done| |done]. intros [?|?]%elem_of_cons; congruence.
Qed.

(** A pass that sets some ids to now leaves the others, and takes none away. *)
Lemma useSeen_fold now ids seen id :
  foldl (useSeen now) seen ids !! id = match seen !! id with Some t => Some (if decide (id ∈ ids) then now else t) | None => None end.
Proof.
  revert seen. induction ids as [|i ids IH]; intros seen; cbn [foldl].
  { destruct (seen !! id); [|done]. by rewrite decide_False by (intros []%elem_of_nil). }
  rewrite IH. unfold useSeen. destruct (decide (i = id)) as [->|Hne].
  - destruct (seen !! id) eqn:E; [|by rewrite E]. rewrite lookup_insert_eq. rewrite (decide_True (P := id ∈ id :: ids)) by left. by case_decide.
  - assert (match seen !! i with Some _ => <[i := now]> seen | None => seen end !! id = seen !! id) as ->.
    { destruct (seen !! i); [|done]. by rewrite lookup_insert_ne. }
    destruct (seen !! id); [|done]. f_equal. destruct (decide (id ∈ ids)); [by rewrite decide_True by (by right)|].
    rewrite decide_False; [done|]. intros [?|?]%elem_of_cons; congruence.
Qed.

Lemma nameSeen_fold now images names seen id :
  (∃ name, name ∈ names ∧ Resolve images name = Some id) ∧ foldl (nameSeen now images) seen names !! id = Some now ∨
  (¬ (∃ name, name ∈ names ∧ Resolve images name = Some id)) ∧ foldl (nameSeen now images) seen names !! id = seen !! id.
Proof.
  revert seen. induction names as [|n names IH]; intros seen; cbn [foldl].
  { right. split; [|done]. by intros (? & []%elem_of_nil & _). }
  destruct (IH (nameSeen now images seen n)) as [[(m & ? & ?) Hl]|[Hn Hl]]; [left; split; [exists m; split; [by right|done]|done]|].
  rewrite Hl. unfold nameSeen. destruct (Resolve images n) as [i|] eqn:Er.
  - destruct (decide (i = id)) as [->|Hne]; [left; split; [exists n; split; [left|done]|by rewrite lookup_insert_eq]|].
    right. split; [|by rewrite lookup_insert_ne]. intros (m & [->|Hm]%elem_of_cons & Hr); [congruence|]. apply Hn. eauto.
  - right. split; [|done]. intros (m & [->|Hm]%elem_of_cons & Hr); [congruence|]. apply Hn. eauto.
Qed.

(** What one look leaves in the record for an image it found. *)
Lemma observe_seen r o id :
  listedAt o id →
  ∃ t, rc_Seen (observe r o) !! id = Some t ∧ (usedAt o id → t = ob_now o) ∧ (t = ob_now o ∨ rc_Seen r !! id = Some t).
Proof.
  intros Hl. unfold observe, Observe. cbn [rc_Seen].
  set (used := foldl (useSeen (ob_now o)) _ _).
  assert (∃ t, used !! id = Some t ∧ (id ∈ Used (ob_containers o) → t = ob_now o) ∧ (t = ob_now o ∨ rc_Seen r !! id = Some t)) as (t & Ht & Hu & Ho).
  { unfold used. rewrite useSeen_fold, listSeen_fold, decide_True by done. eexists. split; [done|]. destruct (decide (id ∈ elements _)) as [Hin|Hin]; [by auto|].
    split; [by intros ?%elem_of_elements|]. destruct (rc_Seen r !! id); cbn; auto. }
  destruct (nameSeen_fold (ob_now o) (ob_images o) (ob_created o) used id) as [[Hn ->]|[Hn ->]].
  - exists (ob_now o). auto.
  - exists t. split; [done|]. split; [intros [?|?]; [auto|done]|done].
Qed.

(** An image in use stays until it has been unused for as long as was
    asked.  If some look at the daemon found an image in use, and every later look
    found it listed, then whenever the images to remove by age (or under pressure)
    are computed from the record, with whatever listing and at whatever time, and
    that image is among them, more than the age (at least the floor) has passed
    since that look; it is in the listing, no container of the listing references
    it, and nobody protected it. *)
Theorem used_images_stay before o after_ now images containers protected age c :
  let r := foldl observe NewRecord (before ++ o :: after_) in
  usedAt o (im_ID (cd_Image c)) → listedAt o (im_ID (cd_Image c)) → Forall (λ o', listedAt o' (im_ID (cd_Image c)) ∧ ob_now o ≤ ob_now o') after_ →
  (c ∈ AgeImages r images containers protected age now → age < Sub now (ob_now o)) ∧
  (c ∈ PressureImages r images containers protected age now → age ≤ Sub now (ob_now o)) ∧
  (c ∈ AgeImages r images containers protected age now ∨ c ∈ PressureImages r images containers protected age now →
   cd_Image c ∈ images ∧ im_ID (cd_Image c) ∉ Used containers ∧ im_ID (cd_Image c) ∉ protected).
Proof.
  intros r Hu Hl Ha. set (id := im_ID (cd_Image c)) in *.
  assert (∃ t, rc_Seen r !! id = Some t ∧ ob_now o ≤ t) as (t & Ht & Hge).
  { unfold r. rewrite foldl_app. cbn [foldl]. generalize (foldl observe NewRecord before). intros r0. clear r.
    destruct (observe_seen r0 o id Hl) as (t0 & E0 & H0 & _). specialize (H0 Hu). subst t0.
    assert (∃ t, rc_Seen (observe r0 o) !! id = Some t ∧ ob_now o ≤ t) as H by (exists (ob_now o); split; [done|lia]). revert H.
    generalize (observe r0 o). clear E0 r0. induction Ha as [|o' l [Hl' Hn] _ IH]; intros r (t & E & Hg); cbn [foldl]; [eauto|].
    apply IH. destruct (observe_seen r o' id Hl') as (t' & E' & _ & [->|E'']); [eauto|]. exists t'. split; [done|]. congruence. }
  assert (c ∈ unused r images containers protected now → cd_Seen c = t ∧ cd_Image c ∈ images ∧ id ∉ Used containers ∧ id ∉ protected) as Hc.
  { unfold unused. rewrite elem_of_stable_sort, list_elem_of_fmap. intros (img & -> & [[? ?] ?]%list_elem_of_filter). cbn in *. split_and!; try done.
    unfold LastSeen, id in *. by rewrite Ht. }
  unfold AgeImages, PressureImages. rewrite !list_elem_of_filter. split_and!.
  - intros [Hlt Hin]. destruct (Hc Hin) as (E & _). rewrite E in Hlt. unfold Sub in *. lia.
  - intros [Hlt Hin]. destruct (Hc Hin) as (E & _). rewrite E in Hlt. unfold Sub in *. lia.
  - intros [[_ Hin]|[_ Hin]]; by apply Hc in Hin as (_ & ?).
Qed.

(** A name with the port of its registry and no tag resolves to nothing, although
    the image it means is listed. *)
Definition registryImage : Image := {| im_ID := "sha256:aaaa"; im_Tags := ["localhost:5000/app:latest"%string]; im_Digests := []; im_Size := 1 |}.

Lemma registry_port_unresolved :
  Resolve [registryImage] "localhost:5000/app" = None ∧ Resolve [registryImage] "localhost:5000/app:latest" = Some "sha256:aaaa"%string.
Proof. split; vm_compute; reflexivity. Qed.
