(* ===== verification/FdCache.v ===== *)
(** * Files kept open across requests (core-client/nfsserve/fdcache.go)

    One definition per hold of the cache's mutex.  What a request, an eviction or a
    timer does between two holds is a thread of the state: an open that is in the
    file system, an eviction that has its entry in hand, a close that is due.  A
    step relation interleaves them.  The descriptors are numbered in the order they
    were opened; a descriptor's [timer] is whether its idle timer is running.

    The reading and writing through a shared descriptor is at the end: each request
    has its own offset, and the pair of a seek and a write is made under the
    descriptor's lock, so it is one definition. *)

From Stdlib Require Import Ascii.
From S2P Require Import Prelude GoStrings.
Open Scope Z_scope.

Definition fdCacheMax : nat := 64.

(** [cachedFD]: [fd_closed] is the file's. *)
Record cachedFD := {
  fd_path : string;
  fd_refs : Z;
  fd_timer : bool;
  fd_closed : bool
}.

Definition with_refs (r : Z) (e : cachedFD) : cachedFD := {| fd_path := fd_path e; fd_refs := r; fd_timer := fd_timer e; fd_closed := fd_closed e |}.
Definition with_timer (t : bool) (e : cachedFD) : cachedFD := {| fd_path := fd_path e; fd_refs := fd_refs e; fd_timer := t; fd_closed := fd_closed e |}.
Definition with_closed (e : cachedFD) : cachedFD := {| fd_path := fd_path e; fd_refs := fd_refs e; fd_timer := fd_timer e; fd_closed := true |}.

(** [fdCacheFS], the descriptors it has opened, and the threads. *)
Record fdCacheFS := {
  fc_open : gmap string nat;
  fc_fds : list cachedFD;
  fc_opening : list string;
  fc_handles : list nat;
  fc_evicting : list nat;
  fc_closing : list nat
}.

Definition withFDCache : fdCacheFS := {| fc_open := ∅; fc_fds := []; fc_opening := []; fc_handles := []; fc_evicting := []; fc_closing := [] |}.

Definition set_open (m : gmap string nat) (c : fdCacheFS) : fdCacheFS :=
  {| fc_open := m; fc_fds := fc_fds c; fc_opening := fc_opening c; fc_handles := fc_handles c; fc_evicting := fc_evicting c; fc_closing := fc_closing c |}.
Definition set_fds (l : list cachedFD) (c : fdCacheFS) : fdCacheFS :=
  {| fc_open := fc_open c; fc_fds := l; fc_opening := fc_opening c; fc_handles := fc_handles c; fc_evicting := fc_evicting c; fc_closing := fc_closing c |}.
Definition set_opening (l : list string) (c : fdCacheFS) : fdCacheFS :=
  {| fc_open := fc_open c; fc_fds := fc_fds c; fc_opening := l; fc_handles := fc_handles c; fc_evicting := fc_evicting c; fc_closing := fc_closing c |}.
Definition set_handles (l : list nat) (c : fdCacheFS) : fdCacheFS :=
  {| fc_open := fc_open c; fc_fds := fc_fds c; fc_opening := fc_opening c; fc_handles := l; fc_evicting := fc_evicting c; fc_closing := fc_closing c |}.
Definition set_evicting (l : list nat) (c : fdCacheFS) : fdCacheFS :=
  {| fc_open := fc_open c; fc_fds := fc_fds c; fc_opening := fc_opening c; fc_handles := fc_handles c; fc_evicting := l; fc_closing := fc_closing c |}.
Definition set_closing (l : list nat) (c : fdCacheFS) : fdCacheFS :=
  {| fc_open := fc_open c; fc_fds := fc_fds c; fc_opening := fc_opening c; fc_handles := fc_handles c; fc_evicting := fc_evicting c; fc_closing := l |}.

Definition on_fd (f : cachedFD → cachedFD) (id : nat) (c : fdCacheFS) : fdCacheFS := set_fds (alter f id (fc_fds c)) c.

(** [cacheable], with the values of Linux. *)
Definition O_CREATE : Z := 64.
Definition O_EXCL : Z := 128.
Definition O_TRUNC : Z := 512.
Definition O_APPEND : Z := 1024.

Definition cacheable (flag : Z) : bool :=
  Z.land flag (Z.lor (Z.lor (Z.lor O_CREATE O_TRUNC) O_EXCL) O_APPEND) =? 0.

(** [evict]'s hold: the entry it will evict. *)
Definition evict (name : string) (c : fdCacheFS) : fdCacheFS :=
  match fc_open c !! name with
  | Some id => set_evicting (id :: fc_evicting c) c
  | None => c
  end.

(** One more request has the descriptor. *)
Definition share (id : nat) (c : fdCacheFS) : fdCacheFS :=
  set_handles (id :: fc_handles c) (on_fd (λ e, with_refs (fd_refs e + 1) e) id c).

(** [OpenFile]'s first hold: a request that is not cacheable evicts and passes
    through; a hit is shared and its timer stopped; a full cache passes through;
    a miss goes to the file system. *)
Definition openFirst (max : nat) (flag : Z) (name : string) (c : fdCacheFS) : fdCacheFS :=
  if negb (cacheable flag) then evict name c
  else match fc_open c !! name with
       | Some id => share id (on_fd (with_timer false) id c)
       | None => if (max <=? size (fc_open c))%nat then c else set_opening (name :: fc_opening c) c
       end.

(** Its second: the file has been opened. Another request's entry is kept, and the
    new descriptor closed. *)
Definition openSecond (name : string) (c : fdCacheFS) : fdCacheFS :=
  match fc_open c !! name with
  | Some id => share id c
  | None =>
      let id := length (fc_fds c) in
      let e := {| fd_path := name; fd_refs := 1; fd_timer := false; fd_closed := false |} in
      set_handles (id :: fc_handles c) (set_open (<[name := id]> (fc_open c)) (set_fds (fc_fds c ++ [e]) c))
  end.

(** [release]: closed by the caller when it was evicted in use, else left for its
    idle timer. *)
Definition release (id : nat) (c : fdCacheFS) : fdCacheFS :=
  let c := on_fd (λ e, with_refs (fd_refs e - 1) e) id c in
  match fc_fds c !! id with
  | None => c
  | Some e =>
      if 0 <? fd_refs e then c
      else if bool_decide (fc_open c !! fd_path e = Some id) then on_fd (with_timer true) id c
      else set_closing (id :: fc_closing c) c
  end.

(** [evictEntry]. *)
Definition evictEntry (id : nat) (c : fdCacheFS) : fdCacheFS :=
  match fc_fds c !! id with
  | None => c
  | Some e =>
      let c1 := if bool_decide (fc_open c !! fd_path e = Some id) then set_open (delete (fd_path e) (fc_open c)) c else c in
      let c2 := on_fd (with_timer false) id c1 in
      if 0 <? fd_refs e then c2 else set_closing (id :: fc_closing c2) c2
  end.

(** [close]. *)
Definition close (id : nat) (c : fdCacheFS) : fdCacheFS := on_fd with_closed id c.

(** [under] and [evictTree]'s names. *)
Definition under (dir path : string) : bool :=
  let dir := path.Clean dir in
  let path := path.Clean path in
  if bool_decide (dir = "." ∨ dir = "/") then true else strings.HasPrefix path (dir +:+ "/").

Definition evictTreeNames (name : string) (c : fdCacheFS) : list string :=
  filter (λ p, p = name ∨ under name p = true) (elements (dom (fc_open c))).

(** [evictTree], which [Remove] and [Rename] begin with: each name's eviction is a
    hold of its own. *)
Definition evictTree (name : string) (c : fdCacheFS) : fdCacheFS := foldl (λ c p, evict p c) c (evictTreeNames name c).

(** ** The steps *)

Inductive fd_step (max : nat) : fdCacheFS → fdCacheFS → Prop :=
| fd_open flag name c : fd_step max c (openFirst max flag name c)
| fd_opened name l1 l2 c : fc_opening c = l1 ++ name :: l2 → fd_step max c (openSecond name (set_opening (l1 ++ l2) c))
| fd_open_failed name l1 l2 c : fc_opening c = l1 ++ name :: l2 → fd_step max c (set_opening (l1 ++ l2) c)
| fd_release id l1 l2 c : fc_handles c = l1 ++ id :: l2 → fd_step max c (release id (set_handles (l1 ++ l2) c))
| fd_evict name c : fd_step max c (evict name c)
| fd_timer_fires id e c : fc_fds c !! id = Some e → fd_timer e = true → fd_step max c (set_evicting (id :: fc_evicting c) (on_fd (with_timer false) id c))
| fd_evict_entry id l1 l2 c : fc_evicting c = l1 ++ id :: l2 → fd_step max c (evictEntry id (set_evicting (l1 ++ l2) c))
| fd_close id l1 l2 c : fc_closing c = l1 ++ id :: l2 → fd_step max c (close id (set_closing (l1 ++ l2) c)).

Definition fd_reachable (max : nat) (c : fdCacheFS) : Prop := rtc (fd_step max) withFDCache c.

(** How many requests have a descriptor. *)
Definition holders (id : nat) (c : fdCacheFS) : nat := length (filter (λ i, i = id) (fc_handles c)).

(** What is true of one descriptor. *)
Record fd_ok (c : fdCacheFS) (id : nat) (e : cachedFD) : Prop := {
  fo_refs : fd_refs e = Z.of_nat (holders id c);
  fo_done : fd_closed e = true ∨ id ∈ fc_closing c → fd_refs e = 0 ∧ fc_open c !! fd_path e ≠ Some id;
  fo_kept : fc_open c !! fd_path e = Some id → 0 < fd_refs e ∨ fd_timer e = true ∨ id ∈ fc_evicting c;
  fo_gone : fc_open c !! fd_path e ≠ Some id → 0 < fd_refs e ∨ id ∈ fc_closing c ∨ fd_closed e = true
}.

Record fd_inv (c : fdCacheFS) : Prop := {
  fi_fds : ∀ id e, fc_fds c !! id = Some e → fd_ok c id e;
  fi_open : ∀ name id, fc_open c !! name = Some id → ∃ e, fc_fds c !! id = Some e ∧ fd_path e = name;
  fi_ids : ∀ id, id ∈ fc_handles c ∨ id ∈ fc_evicting c ∨ id ∈ fc_closing c → is_Some (fc_fds c !! id)
}.

(** ** The invariant is kept *)

Lemma on_fd_lookup f id c i : fc_fds (on_fd f id c) !! i = if decide (i = id) then f <$> fc_fds c !! i else fc_fds c !! i.
Proof.
  unfold on_fd. cbn [set_fds fc_fds]. case_decide as E; [subst i; apply list_lookup_alter_eq|]. by apply list_lookup_alter_ne.
Qed.

Lemma holders_cons id l c : holders id (set_handles (id :: l) c) = S (length (filter (λ i, i = id) l)).
Proof. unfold holders. cbn [set_handles fc_handles]. by rewrite filter_cons_True. Qed.

Lemma holders_split id i (l1 l2 : list nat) :
  length (filter (λ x, x = i) (l1 ++ id :: l2)) = ((if decide (id = i) then 1 else 0) + length (filter (λ x, x = i) (l1 ++ l2)))%nat.
Proof. rewrite !filter_app, filter_cons, !length_app. case_decide; cbn; lia. Qed.

Lemma on_fd_same c id : on_fd (λ e, e) id c = c.
Proof.
  destruct c as [o fds op h ev cl]. unfold on_fd, set_fds. cbn. f_equal. apply list_eq. intros i. destruct (decide (id = i)) as [->|].
  - rewrite list_lookup_alter_eq. by destruct (fds !! i).
  - by rewrite list_lookup_alter_ne.
Qed.

(** A hit: one more request, the timer as it is or stopped. *)
Lemma share_inv f id c :
  (∀ e, fd_path (f e) = fd_path e ∧ fd_refs (f e) = fd_refs e ∧ fd_closed (f e) = fd_closed e) →
  fd_inv c → (∃ name, fc_open c !! name = Some id) → fd_inv (share id (on_fd f id c)).
Proof.
  intros Hsame [Hf Ho Hi] [name Hn]. destruct (Ho name id Hn) as (e0 & He0 & Hp0).
  assert (∀ i, fc_fds (share id (on_fd f id c)) !! i = if decide (i = id) then Some (with_refs (fd_refs e0 + 1) (f e0)) else fc_fds c !! i) as Hl.
  { intros i. unfold share. cbn [set_handles fc_fds]. rewrite !on_fd_lookup. case_decide as Ei; [|done]. subst i. rewrite He0. cbn. by destruct (Hsame e0) as (_ & -> & _). }
  destruct (Hsame e0) as (S1 & S2 & S3). split.
  - intros i e. rewrite Hl. case_decide as Ei.
    + intros [= <-]. subst i. destruct (Hf id e0 He0) as [F1 F2 F3 F4]. split; cbn [with_refs fd_refs fd_closed fd_path fd_timer]; rewrite ?S1, ?S3.
      * rewrite F1. unfold holders. cbn [share set_handles fc_handles on_fd set_fds]. rewrite filter_cons_True by done. cbn. lia.
      * intros Hd. exfalso. destruct F2 as [_ F2]; [exact Hd|]. by rewrite Hp0 in F2.
      * intros _. left. lia.
      * intros H. exfalso. apply H. cbn. by rewrite Hp0.
    + intros He. destruct (Hf i e He) as [F1 F2 F3 F4]. split; try done. rewrite F1. unfold holders. cbn [share set_handles fc_handles on_fd set_fds]. by rewrite filter_cons_False by congruence.
  - intros n i H. destruct (Ho n i H) as (e & He & Hp). rewrite Hl. case_decide as Ei; [|eauto]. subst i. eexists. split; [done|]. cbn. congruence.
  - intros i Hi'. rewrite Hl. case_decide; [by eexists|]. apply Hi. cbn in Hi'. destruct Hi' as [[?|?]%elem_of_cons|?]; [done|auto|auto].
Qed.

(** Steps that change only the lists of threads. *)
Lemma evicting_inv id c : is_Some (fc_fds c !! id) → fd_inv c → fd_inv (set_evicting (id :: fc_evicting c) c).
Proof.
  intros Hs [Hf Ho Hi]. split; [|done|].
  - intros i e He. destruct (Hf i e He) as [F1 F2 F3 F4]. split; try done. intros H. destruct (F3 H) as [?|[?|?]]; auto. right. right. by right.
  - intros i [?|[[->|?]%elem_of_cons|?]]; auto.
Qed.

Lemma evict_inv name c : fd_inv c → fd_inv (evict name c).
Proof.
  intros Hc. unfold evict. destruct (fc_open c !! name) as [id|] eqn:E; [|done]. apply evicting_inv; [|done]. destruct (fi_open _ Hc name id E) as (e & He & _). by eexists.
Qed.

Lemma timer_inv id e c : fc_fds c !! id = Some e → fd_inv c → fd_inv (set_evicting (id :: fc_evicting c) (on_fd (with_timer false) id c)).
Proof.
  intros He0 [Hf Ho Hi].
  assert (∀ i, fc_fds (set_evicting (id :: fc_evicting c) (on_fd (with_timer false) id c)) !! i = if decide (i = id) then Some (with_timer false e) else fc_fds c !! i) as Hl.
  { intros i. cbn [set_evicting fc_fds]. rewrite on_fd_lookup. case_decide as Ei; [|done]. subst i. by rewrite He0. }
  split.
  - intros i e'. rewrite Hl. case_decide as Ei.
    + intros [= <-]. subst i. destruct (Hf id e He0) as [F1 F2 F3 F4]. split; try done. intros _. right. right. left.
    + intros He'. destruct (Hf i e' He') as [F1 F2 F3 F4]. split; try done. intros H. destruct (F3 H) as [?|[?|?]]; auto. right. right. by right.
  - intros n i H. destruct (Ho n i H) as (e' & He' & Hp). rewrite Hl. case_decide as Ei; [|eauto]. subst i. eexists. split; [done|]. cbn. congruence.
  - intros i Hi'. rewrite Hl. case_decide; [by eexists|]. apply Hi. cbn in Hi'. destruct Hi' as [?|[[?|?]%elem_of_cons|?]]; [auto|done|auto|auto].
Qed.

Lemma opened_inv name c : fd_inv c → fc_open c !! name = None → fd_inv (openSecond name c).
Proof.
  intros [Hf Ho Hi] Hn. unfold openSecond. rewrite Hn. set (new := {| fd_path := name; fd_refs := 1; fd_timer := false; fd_closed := false |}).
  assert (∀ i, i ∈ fc_handles c ∨ i ∈ fc_evicting c ∨ i ∈ fc_closing c → i ≠ length (fc_fds c)) as Hold.
  { intros i [e He]%Hi ->. apply lookup_lt_Some in He. lia. }
  split.
  - intros i e. cbn [set_handles set_open set_fds fc_fds]. rewrite lookup_app_Some. intros [He|[Hge He]].
    + assert (i ≠ length (fc_fds c)) as Hne by (apply lookup_lt_Some in He; lia). destruct (Hf i e He) as [F1 F2 F3 F4].
      assert (<[name:=length (fc_fds c)]> (fc_open c) !! fd_path e = Some i ↔ fc_open c !! fd_path e = Some i) as Hop.
      { destruct (decide (name = fd_path e)) as [<-|]; [|by rewrite lookup_insert_ne]. rewrite lookup_insert_eq, Hn. split; [congruence|done]. }
      split; cbn [set_handles set_open set_fds fc_open fc_closing fc_evicting]; rewrite ?Hop; try done.
      rewrite F1. unfold holders. cbn [set_handles set_open set_fds fc_handles]. by rewrite filter_cons_False by done.
    + destruct (i - length (fc_fds c))%nat as [|k] eqn:Ek; [|done]. assert (i = length (fc_fds c)) as -> by lia. cbn in He. injection He as <-. split; cbn [set_handles set_open set_fds fc_open fc_closing fc_evicting new fd_refs fd_closed fd_path fd_timer].
      * unfold holders. cbn [set_handles set_open set_fds fc_handles]. rewrite filter_cons_True by done. cbn [length].
        assert (filter (λ i, i = length (fc_fds c)) (fc_handles c) = []) as ->; [|done]. apply filter_none. intros x Hx. apply Hold. auto.
      * intros [?|Hin]; [done|]. exfalso. apply (Hold (length (fc_fds c))); auto.
      * intros _. left. lia.
      * intros _. left. lia.
  - intros n i. cbn [set_handles set_open set_fds fc_open fc_fds]. rewrite lookup_insert_Some. intros [[<- <-]|[_ H]].
    + exists new. split; [by apply list_lookup_middle|done].
    + destruct (Ho n i H) as (e & He & Hp). exists e. split; [by apply lookup_app_l_Some|done].
  - intros i. cbn [set_handles set_open set_fds fc_handles fc_evicting fc_closing fc_fds]. intros H. destruct (decide (i = length (fc_fds c))) as [->|Hne].
    + apply lookup_lt_is_Some. rewrite length_app. cbn. lia.
    + assert (is_Some (fc_fds c !! i)) as [e He]; [|exists e; by apply lookup_app_l_Some]. apply Hi. destruct H as [[?|?]%elem_of_cons|?]; [done|auto|auto].
Qed.

(** A thread that goes on: it is taken out of its list. *)
Lemma elem_of_taken {A} (x y : A) l1 l2 : x ∈ l1 ++ l2 → x ∈ l1 ++ y :: l2.
Proof. rewrite !elem_of_app, elem_of_cons. tauto. Qed.

Lemma fd_release_inv id l1 l2 c : fc_handles c = l1 ++ id :: l2 → fd_inv c → fd_inv (release id (set_handles (l1 ++ l2) c)).
Proof.
  intros Hh [Hf Ho Hi]. assert (is_Some (fc_fds c !! id)) as [e0 He0] by (apply Hi; left; rewrite Hh; apply elem_of_app; right; left).
  destruct (Hf id e0 He0) as [G1 G2 G3 G4]. unfold holders in G1. rewrite Hh, holders_split, decide_True in G1 by done.
  set (c1 := on_fd (λ e, with_refs (fd_refs e - 1) e) id (set_handles (l1 ++ l2) c)).
  assert (∀ i, fc_fds c1 !! i = if decide (i = id) then Some (with_refs (fd_refs e0 - 1) e0) else fc_fds c !! i) as Hl.
  { intros i. unfold c1. rewrite on_fd_lookup. case_decide as Ei; [|done]. subst i. cbn [set_handles fc_fds]. by rewrite He0. }
  assert (release id (set_handles (l1 ++ l2) c) = (if 0 <? fd_refs e0 - 1 then c1 else if bool_decide (fc_open c !! fd_path e0 = Some id) then on_fd (with_timer true) id c1 else set_closing (id :: fc_closing c) c1)) as ->.
  { unfold release. fold c1. rewrite Hl, decide_True by done. done. }
  assert (∀ c' timer, fc_open c' = fc_open c → fc_handles c' = l1 ++ l2 → fc_evicting c' = fc_evicting c →
            (∀ i, fc_fds c' !! i = if decide (i = id) then Some (with_timer timer (with_refs (fd_refs e0 - 1) e0)) else fc_fds c !! i) →
            (fc_closing c' = fc_closing c ∧ (0 < fd_refs e0 - 1 ∨ fc_open c !! fd_path e0 = Some id ∧ timer = true) ∨
             fc_closing c' = id :: fc_closing c ∧ fd_refs e0 - 1 = 0 ∧ fc_open c !! fd_path e0 ≠ Some id) → fd_inv c') as Hgen.
  { intros c' timer E1 E2 E3 E4 E5. split.
    - intros i e. rewrite E4. case_decide as Ei.
      + intros [= <-]. subst i. split; cbn [with_timer with_refs fd_refs fd_closed fd_path fd_timer]; rewrite ?E1, ?E3.
        * unfold holders. rewrite E2. lia.
        * intros Hd. destruct E5 as [[E5 _]|(E5 & ? & ?)]; [|done]. rewrite E5 in Hd. destruct (G2 Hd) as [? _]. lia.
        * intros H. destruct E5 as [[_ [?|[_ ->]]]|(_ & _ & ?)]; auto.
        * intros H. destruct E5 as [[_ [?|[? _]]]|(E5 & _ & _)]; [auto|done|]. right. left. rewrite E5. left.
      + intros He. destruct (Hf i e He) as [F1 F2 F3 F4]. split; rewrite ?E1, ?E3; try done.
        * rewrite F1. unfold holders. rewrite E2, Hh, holders_split, decide_False by congruence. done.
        * intros Hd. apply F2. destruct E5 as [[E5 _]|(E5 & _)]; rewrite E5 in Hd; [done|]. destruct Hd as [?|[?|?]%elem_of_cons]; [auto|done|auto].
        * intros H. destruct (F4 H) as [?|[?|?]]; auto. right. left. destruct E5 as [[E5 _]|(E5 & _)]; rewrite E5; [done|by right].
    - intros n i. rewrite E1. intros H. destruct (Ho n i H) as (e & He & Hp). rewrite E4. case_decide as Ei; [|eauto]. subst i. eexists. split; [done|]. cbn. congruence.
    - intros i. rewrite E4. case_decide as Ei; [by eexists|]. rewrite E2, E3. intros H. apply Hi. rewrite Hh. destruct H as [?|[?|H]]; [left; by apply elem_of_taken|auto|].
      right. right. destruct E5 as [[E5 _]|(E5 & _)]; rewrite E5 in H; [done|]. by apply elem_of_cons in H as [?|?]. }
  assert (fd_refs e0 - 1 = 0 ∨ 0 < fd_refs e0 - 1) as Hpos by lia.
  destruct (Z.ltb_spec 0 (fd_refs e0 - 1)) as [Hlt|Hle]; [|case_bool_decide as Hop].
  - apply (Hgen c1 (fd_timer e0)); [done|done|done| |by auto]. intros i. rewrite Hl. by destruct e0.
  - apply (Hgen (on_fd (with_timer true) id c1) true); [done|done|done| |by auto]. intros i. rewrite on_fd_lookup, Hl. by case_decide.
  - apply (Hgen (set_closing (id :: fc_closing c) c1) (fd_timer e0)); [done|done|done| |right; split_and!; [done|lia|done]]. intros i. cbn [set_closing fc_fds]. rewrite Hl. by destruct e0.
Qed.

Lemma evictEntry_inv id l1 l2 c : fc_evicting c = l1 ++ id :: l2 → fd_inv c → fd_inv (evictEntry id (set_evicting (l1 ++ l2) c)).
Proof.
  intros Hh [Hf Ho Hi]. assert (is_Some (fc_fds c !! id)) as [e0 He0] by (apply Hi; right; left; rewrite Hh; apply elem_of_app; right; left).
  destruct (Hf id e0 He0) as [G1 G2 G3 G4].
  set (c' := evictEntry id (set_evicting (l1 ++ l2) c)).
  assert (∀ n i, fc_open c' !! n = Some i ↔ fc_open c !! n = Some i ∧ i ≠ id) as E1.
  { intros n i. unfold c', evictEntry. cbn [set_evicting fc_fds]. rewrite He0.
    assert (fc_open (if bool_decide (fc_open c !! fd_path e0 = Some id) then set_open (delete (fd_path e0) (fc_open c)) (set_evicting (l1 ++ l2) c) else set_evicting (l1 ++ l2) c) !! n = Some i ↔ fc_open c !! n = Some i ∧ i ≠ id) as Hx.
    { case_bool_decide as Hop; cbn [set_open set_evicting fc_open].
      - rewrite lookup_delete_Some. split; [intros [Hne H]; split; [done|]; intros ->|intros [H Hne]; split; [congruence|done]].
        destruct (Ho n id H) as (e & He & Hp). congruence.
      - split; [intros H; split; [done|]; intros ->|tauto]. destruct (Ho n id H) as (e & He & Hp). congruence. }
    destruct (0 <? fd_refs e0); cbn [set_closing on_fd set_fds fc_open]; exact Hx. }
  assert (fc_handles c' = fc_handles c ∧ fc_evicting c' = l1 ++ l2 ∧ (fc_closing c' = if 0 <? fd_refs e0 then fc_closing c else id :: fc_closing c)) as (E2 & E3 & E5).
  { unfold c', evictEntry. cbn [set_evicting fc_fds]. rewrite He0. destruct (0 <? fd_refs e0); case_bool_decide; done. }
  assert (∀ i, fc_fds c' !! i = if decide (i = id) then Some (with_timer false e0) else fc_fds c !! i) as E4.
  { intros i. unfold c', evictEntry. cbn [set_evicting fc_fds]. rewrite He0.
    destruct (0 <? fd_refs e0); cbn [set_closing fc_fds]; rewrite on_fd_lookup; case_bool_decide; cbn [set_open set_evicting fc_fds]; (case_decide as Ei; [subst i; by rewrite He0|done]). }
  clearbody c'. split.
  - intros i e. rewrite E4. case_decide as Ei.
    + intros [= <-]. subst i. split; cbn [with_timer fd_refs fd_closed fd_path fd_timer].
      * rewrite G1. unfold holders. by rewrite E2.
      * intros Hd. split; [|rewrite E1; tauto]. rewrite E5 in Hd. destruct (Z.ltb_spec 0 (fd_refs e0)) as [Hlt|Hle]; [by apply G2|]. lia.
      * intros H%E1. tauto.
      * intros _. rewrite E5. destruct (Z.ltb_spec 0 (fd_refs e0)) as [Hlt|Hle]; [auto|]. right. left. left.
    + intros He. destruct (Hf i e He) as [F1 F2 F3 F4]. split.
      * rewrite F1. unfold holders. by rewrite E2.
      * intros Hd. destruct F2 as [? Hno]; [|split; [done|rewrite E1; tauto]]. rewrite E5 in Hd. destruct (0 <? fd_refs e0); [done|]. destruct Hd as [?|[?|?]%elem_of_cons]; [auto|done|auto].
      * intros [H _]%E1. destruct (F3 H) as [?|[?|Hin]]; auto. right. right. rewrite E3. rewrite Hh in Hin. apply elem_of_app in Hin as [?|[?|?]%elem_of_cons]; [apply elem_of_app; auto|done|apply elem_of_app; auto].
      * rewrite E1. intros H. destruct F4 as [?|[?|?]]; [tauto|auto| |auto]. right. left. rewrite E5. destruct (0 <? fd_refs e0); [done|by right].
  - intros n i [H Hne]%E1. destruct (Ho n i H) as (e & He & Hp). rewrite E4, decide_False by done. eauto.
  - intros i. rewrite E4. case_decide as Ei; [by eexists|]. rewrite E2, E3, E5. intros H. apply Hi. destruct H as [?|[?|H]]; [auto|right; left; rewrite Hh; by apply elem_of_taken|].
    right. right. destruct (0 <? fd_refs e0); [done|]. by apply elem_of_cons in H as [?|?].
Qed.

Lemma close_inv id l1 l2 c : fc_closing c = l1 ++ id :: l2 → fd_inv c → fd_inv (close id (set_closing (l1 ++ l2) c)).
Proof.
  intros Hh [Hf Ho Hi]. assert (id ∈ fc_closing c) as Hin by (rewrite Hh; apply elem_of_app; right; left).
  assert (is_Some (fc_fds c !! id)) as [e0 He0] by auto. destruct (Hf id e0 He0) as [G1 G2 G3 G4].
  assert (∀ i, fc_fds (close id (set_closing (l1 ++ l2) c)) !! i = if decide (i = id) then Some (with_closed e0) else fc_fds c !! i) as Hl.
  { intros i. unfold close. rewrite on_fd_lookup. case_decide as Ei; [|done]. subst i. cbn [set_closing fc_fds]. by rewrite He0. }
  split.
  - intros i e. rewrite Hl. case_decide as Ei.
    + intros [= <-]. subst i. destruct (G2 (or_intror Hin)) as [? ?]. split; cbn [with_closed fd_refs fd_closed fd_path fd_timer]; try done; auto.
    + intros He. destruct (Hf i e He) as [F1 F2 F3 F4]. split; try done.
      * intros Hd. apply F2. cbn in Hd. destruct Hd as [?|?]; [auto|]. right. rewrite Hh. by apply elem_of_taken.
      * intros H. destruct (F4 H) as [?|[Hx|?]]; auto. right. left. cbn. rewrite Hh in Hx. apply elem_of_app in Hx as [?|[?|?]%elem_of_cons]; [apply elem_of_app; auto|done|apply elem_of_app; auto].
  - intros n i H. destruct (Ho n i H) as (e & He & Hp). rewrite Hl. case_decide as Ei; [|eauto]. subst i. eexists. split; [done|]. cbn. congruence.
  - intros i H. rewrite Hl. case_decide; [by eexists|]. apply Hi. cbn in H. destruct H as [?|[?|?]]; auto. right. right. rewrite Hh. by apply elem_of_taken.
Qed.

Lemma fd_step_inv max c c' : fd_inv c → fd_step max c c' → fd_inv c'.
Proof.
  assert (∀ l c, fd_inv c → fd_inv (set_opening l c)) as Hop.
  { intros l c0 [Hf Ho Hi]. split; [|done|done]. intros i e He. destruct (Hf i e He). by split. }
  assert (∀ e, fd_path e = fd_path e ∧ fd_refs e = fd_refs e ∧ fd_closed e = fd_closed e) as Hid by done.
  intros Hc Hs. destruct Hs as [flag name c|name l1 l2 c H|name l1 l2 c H|id l1 l2 c H|name c|id e c H Ht|id l1 l2 c H|id l1 l2 c H].
  - unfold openFirst. destruct (negb (cacheable flag)); [by apply evict_inv|]. destruct (fc_open c !! name) as [id|] eqn:E; [by apply share_inv; eauto|].
    destruct (max <=? _)%nat; auto.
  - specialize (Hop (l1 ++ l2) c Hc). destruct (fc_open c !! name) as [id|] eqn:E; [|by apply opened_inv].
    unfold openSecond. cbn [set_opening fc_open]. rewrite E. rewrite <- (on_fd_same (set_opening (l1 ++ l2) c) id). apply share_inv; eauto.
  - auto.
  - by apply fd_release_inv.
  - by apply evict_inv.
  - by eapply timer_inv.
  - by apply evictEntry_inv.
  - by apply close_inv.
Qed.

Lemma fd_reachable_inv max c : fd_reachable max c → fd_inv c.
Proof.
  unfold fd_reachable. intros H. assert (fd_inv withFDCache) as H0.
  { split; [done|cbn; by intros ? ? ?%lookup_empty_Some|]. cbn. intros i [[]%elem_of_nil|[[]%elem_of_nil|[]%elem_of_nil]]. }
  revert H0. induction H; eauto using fd_step_inv.
Qed.

(** A descriptor is never closed while a request has it, none that was
    closed is handed out, and none is left open for good.  However opens, closes,
    evictions and timers interleave: a descriptor's count is the number of requests
    that have it; one that is closed, or about to be, has no request and is in the
    cache under no name, so that no later request finds it; a name leads to a
    descriptor opened for it; and a descriptor that is still open is held by a
    request, about to be closed, or in the cache with its idle timer running or its
    eviction under way. *)
Theorem descriptors_accounted_for max c :
  fd_reachable max c →
  (∀ id e, fc_fds c !! id = Some e →
     fd_refs e = Z.of_nat (holders id c) ∧
     (fd_closed e = true ∨ id ∈ fc_closing c → holders id c = 0%nat ∧ ∀ name, fc_open c !! name ≠ Some id) ∧
     (fd_closed e = false → (0 < holders id c)%nat ∨ id ∈ fc_closing c ∨
                            fc_open c !! fd_path e = Some id ∧ (fd_timer e = true ∨ id ∈ fc_evicting c))) ∧
  (∀ name id, fc_open c !! name = Some id → ∃ e, fc_fds c !! id = Some e ∧ fd_path e = name ∧ fd_closed e = false).
Proof.
  intros Hc%fd_reachable_inv. destruct Hc as [Hf Ho Hi]. split.
  - intros id e He. destruct (Hf id e He) as [F1 F2 F3 F4]. split_and!; [done| |].
    + intros Hd. destruct (F2 Hd) as [H0 Hn]. split; [lia|]. intros name H. destruct (Ho name id H) as (e' & He' & Hp). congruence.
    + intros Hcl. destruct (decide (fc_open c !! fd_path e = Some id)) as [H|H].
      * destruct (F3 H) as [?|?]; [left; lia|auto].
      * destruct (F4 H) as [?|[?|?]]; [left; lia|auto|congruence].
  - intros name id H. destruct (Ho name id H) as (e & He & Hp). exists e. split_and!; [done|done|]. destruct (fd_closed e) eqn:Ec; [|done].
    destruct (fo_done _ _ _ (Hf id e He)) as [_ Hn]; [auto|]. congruence.
Qed.

(** ** Reading and writing a shared file *)

(** The file behind a descriptor, with the descriptor's own position; bytes beyond
    the end read as nothing and a write beyond it leaves zeros between. *)
Record osFile := {
  of_data : list Byte.byte;
  of_pos : nat
}.

Definition writeAt (data : list Byte.byte) (off : nat) (p : list Byte.byte) : list Byte.byte :=
  take off data ++ repeat Byte.x00 (off - length data) ++ p ++ drop (off + length p) data.

Definition readAt (data : list Byte.byte) (off n : nat) : list Byte.byte := take n (drop off data).

Definition file_Seek (off : nat) (f : osFile) : osFile := {| of_data := of_data f; of_pos := off |}.

(** [os.File.Write]: [n] bytes of [p] were written, all where there was no error. *)
Definition file_Write (p : list Byte.byte) (n : nat) (f : osFile) : osFile :=
  {| of_data := match take n p with [] => of_data f | q => writeAt (of_data f) (of_pos f) q end; of_pos := of_pos f + length (take n p) |}.

Definition file_Read (n : nat) (f : osFile) : list Byte.byte * osFile :=
  let p := readAt (of_data f) (of_pos f) n in (p, {| of_data := of_data f; of_pos := of_pos f + length p |}).

(** [sharedFile.Write], [Read] and [Seek]: the request's offset, and the file. *)
Definition shared_Write (p : list Byte.byte) (n : nat) (s : nat * osFile) : nat * osFile :=
  let f := file_Write p n (file_Seek s.1 s.2) in (s.1 + length (take n p), f)%nat.

Definition shared_Read (n : nat) (s : nat * osFile) : list Byte.byte * (nat * osFile) :=
  let '(p, f) := file_Read n (file_Seek s.1 s.2) in (p, (s.1 + length p, f)%nat).

(** One request's turn on the file. *)
Inductive fdOp := OpSeek (off : nat) | OpWrite (p : list Byte.byte) (n : nat) | OpRead (n : nat).

Definition turn (op : fdOp) (s : nat * osFile) : list Byte.byte * (nat * osFile) :=
  match op with
  | OpSeek off => ([], (off, s.2))
  | OpWrite p n => ([], shared_Write p n s)
  | OpRead n => shared_Read n s
  end.

(** Requests in any order on one file: who, and what. *)
Fixpoint runShared (ops : list (nat * fdOp)) (offs : gmap nat nat) (f : osFile) : list (list Byte.byte) * (gmap nat nat * osFile) :=
  match ops with
  | [] => ([], (offs, f))
  | (who, op) :: ops' =>
      let '(out, (off, f')) := turn op (default 0%nat (offs !! who), f) in
      let '(outs, r) := runShared ops' (<[who := off]> offs) f' in (out :: outs, r)
  end.

(** The same, each request with a position of its own in the file's bytes. *)
Definition turnAt (op : fdOp) (off : nat) (data : list Byte.byte) : list Byte.byte * (nat * list Byte.byte) :=
  match op with
  | OpSeek off' => ([], (off', data))
  | OpWrite p n => ([], ((off + length (take n p))%nat, match take n p with [] => data | q => writeAt data off q end))
  | OpRead n => let p := readAt data off n in (p, ((off + length p)%nat, data))
  end.

Fixpoint runAlone (ops : list (nat * fdOp)) (offs : gmap nat nat) (data : list Byte.byte) : list (list Byte.byte) * (gmap nat nat * list Byte.byte) :=
  match ops with
  | [] => ([], (offs, data))
  | (who, op) :: ops' =>
      let '(out, (off, data')) := turnAt op (default 0%nat (offs !! who)) data in
      let '(outs, r) := runAlone ops' (<[who := off]> offs) data' in (out :: outs, r)
  end.

(** Requests that share a descriptor read and write as if each had
    opened the file for itself: whatever the order of their seeks, reads and
    writes, and wherever the descriptor's own position was, each reads the bytes
    at its own offset, writes there, and the file ends the same. *)
Theorem shared_as_if_alone ops offs f :
  let '(outs, (offs', f')) := runShared ops offs f in runAlone ops offs (of_data f) = (outs, (offs', of_data f')).
Proof.
  revert offs f. induction ops as [|[who op] ops IH]; intros offs f; [done|]. cbn [runShared runAlone].
  set (off := default 0%nat (offs !! who)).
  assert (∃ out off' f', turn op (off, f) = (out, (off', f')) ∧ turnAt op off (of_data f) = (out, (off', of_data f'))) as (out & off' & f' & -> & ->).
  { destruct op; cbn; eexists _, _, _; split; done. }
  specialize (IH (<[who := off']> offs) f'). destruct (runShared ops _ f') as [outs [offs2 f2]]. by rewrite IH.
Qed.

(** ** What the cache does not promise *)

(** Three opens at once fill a cache for two: the room is asked for before the file
    system, and not again after it. *)
Definition threeOpening : fdCacheFS := openFirst 2 0 "c" (openFirst 2 0 "b" (openFirst 2 0 "a" withFDCache)).
Definition threeOpened : fdCacheFS :=
  let step name rest c := openSecond name (set_opening rest c) in step "a"%string [] (step "b"%string ["a"%string] (step "c"%string ["b"; "a"]%string threeOpening)).

Lemma three_reachable : fd_reachable 2 threeOpened.
Proof.
  unfold fd_reachable, threeOpened, threeOpening.
  eapply rtc_l; [apply (fd_open 2 0 "a")|]. eapply rtc_l; [apply (fd_open 2 0 "b")|]. eapply rtc_l; [apply (fd_open 2 0 "c")|].
  eapply rtc_l; [apply (fd_opened 2 "c" [] ["b"; "a"]%string); reflexivity|]. eapply rtc_l; [apply (fd_opened 2 "b" [] ["a"%string]); reflexivity|].
  eapply rtc_l; [apply (fd_opened 2 "a" [] []); reflexivity|]. apply rtc_refl.
Qed.

Lemma cache_overfull : size (fc_open threeOpened) = 3%nat.
Proof. vm_compute. reflexivity. Qed.

(** An open that is in the file system when the name is removed enters the cache
    after the eviction, and is found by later requests for the name. *)
Definition staleOpen : fdCacheFS := openSecond "a" (set_opening [] (evict "a" (openFirst 64 0 "a" withFDCache))).

Lemma stale_reachable : fd_reachable 64 staleOpen.
Proof.
  unfold fd_reachable, staleOpen. eapply rtc_l; [apply (fd_open 64 0 "a")|]. eapply rtc_l; [apply (fd_evict 64 "a")|].
  eapply rtc_l; [apply (fd_opened 64 "a" [] []); reflexivity|]. apply rtc_refl.
Qed.

Lemma removed_name_is_cached : fc_open staleOpen !! "a"%string = Some 0%nat.
Proof. vm_compute. reflexivity. Qed.

Lemma descriptors_accounted_for_witness :
  ∃ e, fc_fds threeOpened !! 0%nat = Some e ∧ fd_refs e = 1 ∧ fd_closed e = false ∧ fd_path e = "c"%string.
Proof.
  destruct (descriptors_accounted_for 2 threeOpened three_reachable) as [Hf Ho].
  destruct (Ho "c"%string 0%nat) as (e & He & Hp & Hc); [vm_compute; reflexivity|]. exists e. destruct (Hf 0%nat e He) as (Hr & _ & _).
  split; [exact He|]. split; [rewrite Hr; vm_compute; reflexivity|]. split; [exact Hc|exact Hp].
Defined.
