(* ===== verification/NfsServe.v ===== *)
(** * The exported directories (core-client/nfsserve: registry.go, handles.go,
    attrs.go, onefile.go, names.go, server.go)

    The registry of shares with what [os.Stat] says of a local path and what the
    machine's own record says of an export as arguments; the handles of share
    roots over go-nfs's caching handler, which is a parameter; the mode bits a
    file is reported with; and the view of a share that is one file.  The file
    systems behind a share are named by their base directory. *)
From Stdlib Require Import Ascii.
From S2P Require Import Prelude GoStrings Records Names Mounts.

Open Scope Z_scope.

(** ** attrs.go *)

Record Attrs := {
  at_UID : Z;
  at_GID : Z;
  at_FileMode : Z;
  at_DirMode : Z;
  at_AlwaysExecutable : bool;
  at_FileMask : Z;
  at_DirMask : Z
}.

Definition DefaultAttrs : Attrs :=
  {| at_UID := 0; at_GID := 0; at_FileMode := 438; at_DirMode := 511; at_AlwaysExecutable := false; at_FileMask := 0; at_DirMask := 0 |}.

(** [fs.FileMode]: the permissions, and the bit of a directory. *)
Definition ModePerm : Z := 511.
Definition ModeDir : Z := Z.shiftl 1 31.
Definition executableBits : Z := 73.

(** [attrInfo.Mode]. *)
Definition attrMode (a : Attrs) (mode : Z) : Z :=
  if negb (Z.land mode ModeDir =? 0) then
    Z.lor (Z.ldiff mode ModePerm) (Z.land (Z.ldiff (at_DirMode a) (at_DirMask a)) ModePerm)
  else
    let perm := Z.land (at_FileMode a) ModePerm in
    let perm := if at_AlwaysExecutable a || negb (Z.land mode executableBits =? 0) then Z.lor perm executableBits else perm in
    Z.lor (Z.ldiff mode ModePerm) (Z.ldiff perm (at_FileMask a)).

(** [leavesRoot]. *)
Definition leavesRoot (rel : string) : bool := bool_decide (rel = "..") || strings.HasPrefix rel "../".

(** ** names.go *)

Definition ntfsBad (a : ascii) : bool :=
  let n := nat_of_ascii a in
  bool_decide (n ∈ [60; 62; 58; 34; 124; 63; 42]%nat) || (n <? 32)%nat || (n =? 127)%nat.

Definition ntfsNameOK (ToUpper : string → string) (name : string) : bool :=
  if bool_decide (name = "") then true
  else if negb (everyByte (λ a, negb (ntfsBad a)) name) then false
  else if strings.HasSuffix name "." || strings.HasSuffix name " " then false
  else
    let stem := ToUpper (match strings.Cut name "." with Some (stem, _) => stem | None => name end) in
    if bool_decide (stem ∈ ["CON"; "PRN"; "AUX"; "NUL"]%string) then false
    else negb ((strlen stem =? 4)%nat && (strings.HasPrefix stem "COM" || strings.HasPrefix stem "LPT") &&
               match String.get 3 stem with Some a => let n := nat_of_ascii a in ((49 <=? n) && (n <=? 57))%nat | None => false end).

(** ** onefile.go *)

Definition slashedPath (p : string) : string := path.Clean ("/" +:+ replaceByte backslash path.sep p).
Definition isRootPath (p : string) : bool := bool_decide (slashedPath p = "/").
Definition oneVisible (name p : string) : bool := bool_decide (strings.TrimPrefix (slashedPath p) "/" = name).
Definition oneReadable (name p : string) : bool := isRootPath p || oneVisible name p.

(** What a request on the one file's share may be, and whether it is let through. *)
Inductive fsRequest :=
| ReqOpen (p : string) | ReqCreate (p : string) | ReqStat (p : string) | ReqReadDir (p : string)
| ReqRename (from to : string) | ReqRemove (p : string) | ReqReadlink (p : string) | ReqMkdirAll (p : string)
| ReqSymlink (target link : string) | ReqTempFile | ReqChroot (p : string) | ReqLink (name link : string) | ReqChmod (p : string).

Definition oneAllows (name : string) (r : fsRequest) : bool :=
  match r with
  | ReqOpen p | ReqCreate p | ReqRemove p | ReqReadlink p | ReqChmod p => oneVisible name p
  | ReqStat p => oneReadable name p
  | ReqReadDir p => isRootPath p
  | ReqRename from to => oneVisible name from && oneVisible name to
  | ReqMkdirAll _ | ReqSymlink _ _ | ReqTempFile | ReqChroot _ | ReqLink _ _ => false
  end.

(** ** registry.go *)

(** What [os.Stat] finds. *)
Inductive statKind := StatMissing | StatDir | StatRegular | StatOther.

Record Share := {
  sh_ExportPath : string;
  sh_LocalPath : string;
  sh_File : string;
  sh_Mode : Mode;
  sh_words : ShareWords;
  sh_base : string;
  sh_attrs : Attrs
}.

(** [Share.raise]. *)
Definition raise_words (w have : ShareWords) : ShareWords :=
  {| sw_Owner := sw_Owner have; sw_FMask := sw_FMask have; sw_DMask := sw_DMask have;
     sw_Watch := Watch_Max (sw_Watch have) (sw_Watch w); sw_Prefetch := Prefetch_Max (sw_Prefetch have) (sw_Prefetch w) |}.

Definition raise_share (w : ShareWords) (s : Share) : Share :=
  {| sh_ExportPath := sh_ExportPath s; sh_LocalPath := sh_LocalPath s; sh_File := sh_File s; sh_Mode := sh_Mode s;
     sh_words := raise_words w (sh_words s); sh_base := sh_base s; sh_attrs := sh_attrs s |}.

Inductive exportError := CannotExport | CannotBeShared.

(** [register]: the attributes and the words, resolved against each other. *)
Definition resolveAttrs (a : Attrs) (w : ShareWords) : Attrs :=
  {| at_UID := if ow_Set (sw_Owner w) then ow_UID (sw_Owner w) else at_UID a;
     at_GID := if ow_Set (sw_Owner w) then ow_GID (sw_Owner w) else at_GID a;
     at_FileMode := at_FileMode a; at_DirMode := at_DirMode a; at_AlwaysExecutable := at_AlwaysExecutable a;
     at_FileMask := if mk_Set (sw_FMask w) then mk_Bits (sw_FMask w) else at_FileMask a;
     at_DirMask := if mk_Set (sw_DMask w) then mk_Bits (sw_DMask w) else at_DirMask a |}.

Definition resolveWords (a : Attrs) (w : ShareWords) : ShareWords :=
  {| sw_Owner := {| ow_UID := at_UID a; ow_GID := at_GID a; ow_Set := true |};
     sw_FMask := {| mk_Bits := at_FileMask a; mk_Set := true |};
     sw_DMask := {| mk_Bits := at_DirMask a; mk_Set := true |};
     sw_Watch := match sw_Watch w with WatchUnset => WatchOff | v => v end;
     sw_Prefetch := match sw_Prefetch w with PrefetchUnset => PrefetchOff | v => v end |}.

Definition normalizeExport (p : string) : string :=
  let p := strings.TrimSpace p in
  if bool_decide (p = "") then "/"
  else
    let p := path.Clean (if strings.HasPrefix p "/" then p else "/" +:+ p) in
    if bool_decide (p = "/") then "/" else strings.TrimSuffix p "/".

Section registry.
Context (ToLower : string → string) (Sum256 : string → string) (goos : string) (Stat : string → statKind) (attrs : Attrs).

Abbreviation registry := (gmap string Share).

(** The export of a variant of a local path. *)
Definition exportFor (localPath : string) (v : ShareVariant) : string := ExportPathForID (ShareIDFor ToLower Sum256 goos localPath v).

Definition register (localPath recorded : string) (mode : Mode) (words : ShareWords) (r : registry) : res exportError Share * registry :=
  match Stat localPath with
  | StatMissing => (Err CannotExport, r)
  | StatOther => (Err CannotBeShared, r)
  | kind =>
      let attrs := resolveAttrs attrs words in
      let words := resolveWords attrs words in
      let exportPath := if bool_decide (recorded = "") then exportFor localPath (Variant words mode) else recorded in
      match r !! exportPath with
      | Some existing => let s := raise_share words existing in (Ok s, <[exportPath := s]> r)
      | None =>
          let '(base, file) := match kind with
                               | StatDir => (localPath, ""%string)
                               | _ => (path.Dir localPath, path.Base localPath)
                               end in
          let s := {| sh_ExportPath := exportPath; sh_LocalPath := localPath; sh_File := file; sh_Mode := mode; sh_words := words;
                      sh_base := base; sh_attrs := attrs |} in
          (Ok s, <[exportPath := s]> r)
      end
  end.

Definition Register (localPath : string) (mode : Mode) (words : ShareWords) (r : registry) : res exportError Share * registry :=
  register localPath "" mode words r.

Definition RecordedExport (localPath : string) (mode : Mode) (words : ShareWords) : string :=
  if bool_decide (mode = ModeUnset) then ExportPathForID (LegacyShareID ToLower Sum256 goos localPath)
  else if negb (ow_Set (sw_Owner words)) then ""
  else exportFor localPath (Variant words mode).

(** [Lookup]; the exports below which a path lies are ranged over in some order. *)
Definition belowExport (clean : string) (kv : string * Share) : option (Share * string) :=
  match strings.CutPrefix clean (kv.1 +:+ "/") with Some rest => Some (kv.2, "/" +:+ rest) | None => None end.

Definition Lookup (exportPath : string) (r : registry) : option (Share * string) :=
  let clean := normalizeExport exportPath in
  match r !! clean with
  | Some s => Some (s, "/"%string)
  | None => head (omap (belowExport clean) (map_to_list r))
  end.

(** [LookupOrRestore], with the machine's record of exports. *)
Context (Restore : string → option (string * Mode * ShareWords)).

Definition setMasks (w : ShareWords) : ShareWords :=
  {| sw_Owner := sw_Owner w;
     sw_FMask := {| mk_Bits := mk_Bits (sw_FMask w); mk_Set := true |};
     sw_DMask := {| mk_Bits := mk_Bits (sw_DMask w); mk_Set := true |};
     sw_Watch := sw_Watch w; sw_Prefetch := sw_Prefetch w |}.

Definition LookupOrRestore (exportPath : string) (r : registry) : option (Share * string) * registry :=
  match Lookup exportPath r with
  | Some found => (Some found, r)
  | None =>
      let clean := normalizeExport exportPath in
      match Restore clean with
      | None => (None, r)
      | Some (local, mode, words) =>
          if negb (bool_decide (clean = RecordedExport local mode words)) then (None, r)
          else
            match register local clean mode (setMasks words) r with
            | (Err _, r') => (None, r')
            | (Ok s, r') => if bool_decide (sh_ExportPath s = clean) then (Some (s, "/"%string), r') else (None, r')
            end
      end
  end.

(** [restoreMatching], over the exports the record names. *)
Definition restoreMatching (recorded : list string) (match_ : string → bool) (r : registry) : option Share * registry :=
  match List.find match_ recorded with
  | None => (None, r)
  | Some export =>
      match LookupOrRestore export r with
      | (Some (s, rest), r') => (if bool_decide (rest = "/"%string) then Some s else None, r')
      | (None, r') => (None, r')
      end
  end.

Definition Shares (r : registry) : list Share :=
  stable_sort (λ a b, string_leb (sh_ExportPath a) (sh_ExportPath b)) (snd <$> map_to_list r).

(** ** handles.go *)

Definition exportKeySize : nat := 8.
Definition cachedHandleSize : nat := 16.
Definition rootHandleSize : nat := exportKeySize + cachedHandleSize.

Definition exportKey (export : string) : string := firstBytes exportKeySize (Sum256 export).

(** [ToHandle]: [root] is the export the file system is the root of, [""] for
    another; [cached] what the caching handler gave. *)
Definition ToHandle (root : string) (path : list string) (cached : string) : string :=
  if negb (bool_decide (path = [])) || bool_decide (root = "") || negb (strlen cached =? cachedHandleSize)%nat then cached
  else exportKey root +:+ cached.

(** What a handle leads to: what the caching handler answers for it, or a share's
    root. *)
Inductive handleTarget (A : Type) := FromCache (a : A) | ShareRoot (s : Share).
Arguments FromCache {A} a.
Arguments ShareRoot {A} s.

Definition shareForKey (key : string) (r : registry) : option Share :=
  if negb (strlen key =? exportKeySize)%nat then None
  else List.find (λ s, bool_decide (exportKey (sh_ExportPath s) = key)) (Shares r).

Definition FromHandle {A} (cache : string → option A) (recorded : list string) (handle : string) (r : registry)
  : option (handleTarget A) * registry :=
  if negb (strlen handle =? rootHandleSize)%nat then (FromCache <$> cache handle, r)
  else
    let key := firstBytes exportKeySize handle in
    match cache (dropBytes exportKeySize handle) with
    | Some a => (Some (FromCache a), r)
    | None =>
        match shareForKey key r with
        | Some s => (Some (ShareRoot s), r)
        | None =>
            let '(s, r') := restoreMatching recorded (λ e, bool_decide (exportKey e = key)) r in
            (ShareRoot <$> s, r')
        end
    end.

(** ** server.go *)

(** [Mount]: the share and the directory below its root. *)
Definition Mount (dirpath : string) (r : registry) : option (Share * string) * registry := LookupOrRestore dirpath r.

End registry.
Arguments FromCache {A} a.
Arguments ShareRoot {A} s.

(** * Properties of the exported directories (core-client/nfsserve) *)

Open Scope Z_scope.

(** ** The reported mode *)

(** Bit by bit, the mode a file is reported with: the bits above the permissions
    are the file's; a directory's permissions are the configured ones less the
    mask; another file's too, with the execute bits where the file has one or
    every file has, less the mask. *)
Lemma attrMode_bits a mode n :
  0 ≤ n → 0 ≤ at_FileMask a →
  Z.testbit (attrMode a mode) n =
  if 9 <=? n then Z.testbit mode n
  else if negb (Z.land mode ModeDir =? 0) then Z.testbit (at_DirMode a) n && negb (Z.testbit (at_DirMask a) n)
  else (Z.testbit (at_FileMode a) n ||
        (at_AlwaysExecutable a || negb (Z.land mode executableBits =? 0)) && Z.testbit executableBits n) && negb (Z.testbit (at_FileMask a) n).
Proof.
  intros Hn Hm. assert (Z.testbit ModePerm n = negb (9 <=? n)) as Hp.
  { unfold ModePerm. change 511 with (Z.ones 9). destruct (Z.leb_spec 9 n); [apply Z.ones_spec_high|apply Z.ones_spec_low]; lia. }
  assert (9 ≤ n → Z.testbit executableBits n = false) as He.
  { intros H. unfold executableBits. apply (Z.bits_above_log2 73 n); [lia|]. change (Z.log2 73) with 6. lia. }
  unfold attrMode. destruct (negb (Z.land mode ModeDir =? 0)).
  - rewrite Z.lor_spec, Z.ldiff_spec, Z.land_spec, Z.ldiff_spec, Hp. destruct (Z.leb_spec 9 n); cbn; rewrite ?andb_true_r, ?andb_false_r, ?orb_false_r; done.
  - set (x := at_AlwaysExecutable a || _). rewrite Z.lor_spec, !Z.ldiff_spec, Hp.
    assert (Z.testbit (if x then Z.lor (Z.land (at_FileMode a) ModePerm) executableBits else Z.land (at_FileMode a) ModePerm) n =
            Z.testbit (at_FileMode a) n && negb (9 <=? n) || x && Z.testbit executableBits n) as ->.
    { destruct x; rewrite ?Z.lor_spec, Z.land_spec, Hp; cbn; by rewrite ?orb_false_r. }
    destruct (Z.leb_spec 9 n) as [H|H]; cbn; [|by rewrite andb_false_r, andb_true_r].
    rewrite (He H), !andb_false_r, andb_true_r. cbn. by rewrite orb_false_r.
Qed.

(** ** One file *)

(** The paths a request names, and whether it only looks. *)
Definition reqPaths (r : fsRequest) : list string :=
  match r with
  | ReqOpen p | ReqCreate p | ReqStat p | ReqReadDir p | ReqRemove p | ReqReadlink p | ReqMkdirAll p | ReqChroot p | ReqChmod p => [p]
  | ReqRename a b | ReqSymlink a b | ReqLink a b => [a; b]
  | ReqTempFile => []
  end.

Definition reqLooks (r : fsRequest) : bool := match r with ReqStat _ | ReqReadDir _ => true | _ => false end.

(** Whatever a request names, only the one file is let through, and the directory
    it is in, to be looked at. *)
Lemma one_file_only name r :
  oneAllows name r = true → Forall (λ p, slashedPath p = "/" +:+ name ∨ reqLooks r = true ∧ slashedPath p = "/"%string) (reqPaths r).
Proof.
  assert (∀ q, oneVisible name q = true → slashedPath q = "/" +:+ name) as Hv.
  { intros q H%bool_decide_eq_true. unfold slashedPath in *. rewrite Clean_rooted in *. rewrite TrimPrefix_append in H. by rewrite H. }
  assert (∀ q, isRootPath q = true → slashedPath q = "/"%string) as Hr by (by intros q H%bool_decide_eq_true).
  destruct r; cbn [oneAllows reqPaths reqLooks]; intros H; try done; try (apply Forall_singleton; by auto).
  - apply Forall_singleton. apply orb_true_iff in H as [H|H]; auto.
  - apply andb_true_iff in H as [H1 H2]. repeat constructor; auto.
Qed.

(** ** The registry *)

(** The bits of a share's words that make its identity. *)
Lemma shareKey_bits c m w w' :
  ow_UID (sw_Owner w) = ow_UID (sw_Owner w') → ow_GID (sw_Owner w) = ow_GID (sw_Owner w') → mk_Bits (sw_FMask w) = mk_Bits (sw_FMask w') →
  mk_Bits (sw_DMask w) = mk_Bits (sw_DMask w') → shareKey c (Variant w m) = shareKey c (Variant w' m).
Proof. intros H1 H2 H3 H4. unfold shareKey, Mask_String. cbn. by rewrite H1, H2, H3, H4. Qed.

Section registry.
Context (ToLower : string → string) (Sum256 : string → string) (goos : string) (Stat : string → statKind) (attrs : Attrs)
        (Restore : string → option (string * Mode * ShareWords)).

Abbreviation registry := (gmap string Share).
Abbreviation exportFor := (exportFor ToLower Sum256 goos).
Abbreviation RecordedExport := (RecordedExport ToLower Sum256 goos).
Abbreviation register := (register ToLower Sum256 goos Stat attrs).
Abbreviation LookupOrRestore := (LookupOrRestore ToLower Sum256 goos Stat attrs Restore).
Abbreviation FromHandle := (FromHandle ToLower Sum256 goos Stat attrs Restore).

(** What the words of a mount become. *)
Definition resolved (words : ShareWords) : ShareWords := resolveWords (resolveAttrs attrs words) words.

(** What a share serves, and how, when it was asked for with some words: the
    directory itself, or the one file of the directory it is in; under the owner and
    the masks of the words, the session's where they are not set; with the session's
    modes.  The share's own words say the owner and the masks it is served with. *)
Record servedAs (words : ShareWords) (s : Share) : Prop := {
  sd_what : Stat (sh_LocalPath s) = StatDir ∧ sh_base s = sh_LocalPath s ∧ sh_File s = ""%string ∨
            Stat (sh_LocalPath s) = StatRegular ∧ sh_base s = path.Dir (sh_LocalPath s) ∧ sh_File s = path.Base (sh_LocalPath s);
  sd_owner : ow_Set (sw_Owner words) = true → at_UID (sh_attrs s) = ow_UID (sw_Owner words) ∧ at_GID (sh_attrs s) = ow_GID (sw_Owner words);
  sd_noOwner : ow_Set (sw_Owner words) = false → at_UID (sh_attrs s) = at_UID attrs ∧ at_GID (sh_attrs s) = at_GID attrs;
  sd_fmask : at_FileMask (sh_attrs s) = if mk_Set (sw_FMask words) then mk_Bits (sw_FMask words) else at_FileMask attrs;
  sd_dmask : at_DirMask (sh_attrs s) = if mk_Set (sw_DMask words) then mk_Bits (sw_DMask words) else at_DirMask attrs;
  sd_modes : at_FileMode (sh_attrs s) = at_FileMode attrs ∧ at_DirMode (sh_attrs s) = at_DirMode attrs ∧
             at_AlwaysExecutable (sh_attrs s) = at_AlwaysExecutable attrs;
  sd_words : sw_Owner (sh_words s) = {| ow_UID := at_UID (sh_attrs s); ow_GID := at_GID (sh_attrs s); ow_Set := true |} ∧
             sw_FMask (sh_words s) = {| mk_Bits := at_FileMask (sh_attrs s); mk_Set := true |} ∧
             sw_DMask (sh_words s) = {| mk_Bits := at_DirMask (sh_attrs s); mk_Set := true |}
}.

(** The whole of [register]. *)
Lemma register_spec localPath recorded mode words r res r' :
  register localPath recorded mode words r = (res, r') →
  let export := if bool_decide (recorded = ""%string) then exportFor localPath (Variant (resolved words) mode) else recorded in
  match res with
  | Err _ => r' = r
  | Ok s => r' = <[export := s]> r ∧
            match r !! export with
            | Some old => s = raise_share (resolved words) old
            | None => sh_ExportPath s = export ∧ sh_LocalPath s = localPath ∧ sh_Mode s = mode ∧ sh_words s = resolved words ∧ servedAs words s
            end
  end.
Proof.
  unfold NfsServe.register. fold (resolved words). destruct (Stat localPath) eqn:Est; [by intros [= <- <-]| | |by intros [= <- <-]].
  all: cbv zeta; destruct (r !! _); intros [= <- <-]; [done|].
  all: split_and!; [done..|]; split; cbn; auto; by destruct (ow_Set (sw_Owner words)).
Qed.

(** Who asked for what is served: the user, by mounting the path with that mode and
    those words, or this machine's own record of an earlier run, in which a mask
    that is not written is 0. *)
Definition entitled (asked : list (string * Mode * ShareWords)) (s : Share) : Prop :=
  (∃ words, (sh_LocalPath s, sh_Mode s, words) ∈ asked ∧ servedAs words s) ∨
  (∃ words, Restore (sh_ExportPath s) = Some (sh_LocalPath s, sh_Mode s, words) ∧
            sh_ExportPath s = RecordedExport (sh_LocalPath s) (sh_Mode s) words ∧ servedAs (setMasks words) s).

(** An export names the path, the mode, the owner and the masks it is served with. *)
Definition named (s : Share) : Prop :=
  sh_ExportPath s = exportFor (sh_LocalPath s) (Variant (sh_words s) (sh_Mode s)) ∨
  sh_Mode s = ModeUnset ∧ sh_ExportPath s = ExportPathForID (LegacyShareID ToLower Sum256 goos (sh_LocalPath s)).

Definition registry_ok (asked : list (string * Mode * ShareWords)) (r : registry) : Prop :=
  ∀ export s, r !! export = Some s → sh_ExportPath s = export ∧ named s ∧ entitled asked s.

(** A share is what it was, watched and filled no less. *)
Definition same_share (s s' : Share) : Prop :=
  sh_ExportPath s' = sh_ExportPath s ∧ sh_LocalPath s' = sh_LocalPath s ∧ sh_File s' = sh_File s ∧ sh_Mode s' = sh_Mode s ∧
  sh_base s' = sh_base s ∧ sh_attrs s' = sh_attrs s ∧ sw_Owner (sh_words s') = sw_Owner (sh_words s) ∧
  sw_FMask (sh_words s') = sw_FMask (sh_words s) ∧ sw_DMask (sh_words s') = sw_DMask (sh_words s) ∧
  watchRank (sw_Watch (sh_words s)) ≤ watchRank (sw_Watch (sh_words s')) ∧
  prefetchRank (sw_Prefetch (sh_words s)) ≤ prefetchRank (sw_Prefetch (sh_words s')).

Definition grows (r r' : registry) : Prop := ∀ export s, r !! export = Some s → ∃ s', r' !! export = Some s' ∧ same_share s s'.

Lemma same_share_refl s : same_share s s.
Proof. unfold same_share. split_and!; done || lia. Qed.

Lemma same_share_trans s1 s2 s3 : same_share s1 s2 → same_share s2 s3 → same_share s1 s3.
Proof. unfold same_share. intros (?&?&?&?&?&?&?&?&?&?&?) (?&?&?&?&?&?&?&?&?&?&?). split_and!; congruence || lia. Qed.

Lemma grows_refl r : grows r r.
Proof. intros e s H. eauto using same_share_refl. Qed.

Lemma grows_trans r1 r2 r3 : grows r1 r2 → grows r2 r3 → grows r1 r3.
Proof. intros H1 H2 e s H. destruct (H1 e s H) as (s2 & E2 & S2). destruct (H2 e s2 E2) as (s3 & E3 & S3). eauto using same_share_trans. Qed.

Lemma raise_share_same w s : same_share s (raise_share w s).
Proof.
  unfold same_share. split_and!; try done; cbn; [destruct (sw_Watch (sh_words s)), (sw_Watch w)|destruct (sw_Prefetch (sh_words s)), (sw_Prefetch w)]; vm_compute; discriminate.
Qed.

Lemma named_raise w s : named s → named (raise_share w s).
Proof. done. Qed.

Lemma servedAs_raise words w s : servedAs words s → servedAs words (raise_share w s).
Proof. by intros []. Qed.

Lemma entitled_raise asked w s : entitled asked s → entitled asked (raise_share w s).
Proof. intros [(words & H1 & H2%(servedAs_raise _ w))|(words & H1 & H2 & H3%(servedAs_raise _ w))]; [left|right]; eauto. Qed.

(** One registration. *)
Lemma register_ok asked localPath recorded mode words r res r' :
  registry_ok asked r → register localPath recorded mode words r = (res, r') →
  (recorded = ""%string → (localPath, mode, words) ∈ asked) →
  (recorded ≠ ""%string → (∃ words0, Restore recorded = Some (localPath, mode, words0) ∧ recorded = RecordedExport localPath mode words0 ∧ words = setMasks words0) ∧
     (exportFor localPath (Variant (resolved words) mode) = recorded ∨ mode = ModeUnset ∧ recorded = ExportPathForID (LegacyShareID ToLower Sum256 goos localPath))) →
  registry_ok asked r' ∧ grows r r' ∧ ∀ s, res = Ok s → r' !! sh_ExportPath s = Some s.
Proof.
  intros Hok Hreg Hu Hrec. pose proof (register_spec _ _ _ _ _ _ _ Hreg) as H. cbv zeta in H.
  set (export := if bool_decide (recorded = ""%string) then _ else recorded) in *.
  destruct res as [s|e]; [|subst r'; split_and!; [done|apply grows_refl|done]]. destruct H as [-> H].
  destruct (r !! export) as [old|] eqn:Eo.
  - subst s. destruct (Hok export old Eo) as (E1 & E2 & E3). split_and!.
    + intros e s. rewrite lookup_insert_Some. intros [[<- <-]|[_ Hs]]; [|by apply Hok]. split_and!; [done|by apply named_raise|by apply entitled_raise].
    + intros e s Hs. destruct (decide (e = export)) as [->|Hne].
      * rewrite lookup_insert_eq. eexists. split; [done|]. replace s with old by congruence. apply raise_share_same.
      * rewrite lookup_insert_ne by done. eauto using same_share_refl.
    + intros s [= <-]. cbn. rewrite E1. apply lookup_insert_eq.
  - destruct H as (H1 & H2 & H3 & H4 & H5). split_and!.
    + intros e s'. rewrite lookup_insert_Some. intros [[<- <-]|[_ Hs]]; [|by apply Hok]. split; [done|]. unfold named, entitled. rewrite H1, H2, H3, H4.
      unfold export in *. case_bool_decide as Er; [split; [by left|left; eauto]|]. destruct (Hrec Er) as [(words0 & Hr1 & Hr2 & ->) Hr3].
      split; [destruct Hr3 as [<-|[? ?]]; auto|]. right. eauto.
    + intros e s' Hs. rewrite lookup_insert_ne by congruence. eauto using same_share_refl.
    + intros s' [= <-]. rewrite H1. apply lookup_insert_eq.
Qed.

(** ** Lookups *)

Lemma normalizeExport_nonempty p : normalizeExport p ≠ ""%string.
Proof.
  unfold normalizeExport. case_bool_decide; [done|]. set (q := path.Clean _).
  assert (∃ out, q = "/" +:+ out) as [out Hq].
  { unfold q. destruct (strings.HasPrefix (strings.TrimSpace p) "/") eqn:E; [apply HasPrefix_spec in E as [r ->]|]; rewrite Clean_rooted; by eexists. }
  case_bool_decide as Eq; [done|]. unfold strings.TrimSuffix. destruct (strings.CutSuffix q "/") as [r|] eqn:Ec; [|by rewrite Hq].
  apply CutSuffix_Some in Ec. cbn. intros ->. done.
Qed.

Lemma belowExport_Some clean (e : string) (s s' : Share) rest :
  belowExport clean (e, s) = Some (s', rest) → s' = s ∧ ∃ sub, rest = "/" +:+ sub ∧ clean = e +:+ "/" +:+ sub.
Proof.
  unfold belowExport. cbn [fst snd]. destruct (strings.CutPrefix clean _) as [sub|] eqn:E; [|done]. intros [= <- <-]. apply CutPrefix_Some in E as ->.
  split; [done|]. exists sub. split; [done|]. by rewrite append_assoc.
Qed.

(** What a lookup answers. *)
Definition found (p : string) (s : Share) (rest : string) : Prop :=
  rest = "/"%string ∧ normalizeExport p = sh_ExportPath s ∨
  ∃ sub, rest = "/" +:+ sub ∧ normalizeExport p = sh_ExportPath s +:+ "/" +:+ sub.

Lemma Lookup_spec asked p r s rest : registry_ok asked r → Lookup p r = Some (s, rest) → r !! sh_ExportPath s = Some s ∧ found p s rest.
Proof.
  intros Hok. unfold Lookup. destruct (r !! normalizeExport p) as [s0|] eqn:E.
  - intros [= <- <-]. destruct (Hok _ _ E) as (E1 & _). rewrite E1. split; [done|]. left. done.
  - intros Hh. apply head_Some_elem_of in Hh. apply list_elem_of_omap in Hh as ([e s0] & Hin%elem_of_map_to_list & Hb).
    apply belowExport_Some in Hb as (-> & sub & -> & Hc). destruct (Hok _ _ Hin) as (E1 & _). rewrite E1. split; [done|]. right. exists sub. by rewrite E1.
Qed.

Lemma recorded_named local mode words clean :
  clean ≠ ""%string → clean = RecordedExport local mode words →
  exportFor local (Variant (resolved (setMasks words)) mode) = clean ∨ mode = ModeUnset ∧ clean = ExportPathForID (LegacyShareID ToLower Sum256 goos local).
Proof.
  intros Hne ->. unfold NfsServe.RecordedExport in *. case_bool_decide; [by right|]. left. destruct (ow_Set (sw_Owner words)) eqn:Eo; [|done]. cbn [negb].
  unfold NfsServe.exportFor, ShareIDFor. do 2 f_equal. apply shareKey_bits; cbn; by rewrite ?Eo.
Qed.

Lemma LookupOrRestore_ok asked p r o r' :
  registry_ok asked r → LookupOrRestore p r = (o, r') →
  registry_ok asked r' ∧ grows r r' ∧ ∀ s rest, o = Some (s, rest) → r' !! sh_ExportPath s = Some s ∧ found p s rest.
Proof.
  intros Hok. unfold NfsServe.LookupOrRestore. destruct (Lookup p r) as [[s0 rest0]|] eqn:El.
  { intros [= <- <-]. split_and!; [done|apply grows_refl|]. intros s rest [= <- <-]. by eapply Lookup_spec. }
  destruct (Restore (normalizeExport p)) as [[[local mode] words]|] eqn:Er; [|intros [= <- <-]; split_and!; [done|apply grows_refl|done]].
  case_bool_decide as Hrec; cbn [negb]; [|intros [= <- <-]; split_and!; [done|apply grows_refl|done]].
  pose proof (normalizeExport_nonempty p) as Hne.
  destruct (register local (normalizeExport p) mode (setMasks words) r) as [res r1] eqn:Ereg.
  destruct (register_ok asked local (normalizeExport p) mode (setMasks words) r res r1 Hok Ereg) as (R1 & R2 & R3); [done|intros _; split; [by eauto|by apply recorded_named]|].
  destruct res as [s0|e]; [|intros [= <- <-]; done]. case_bool_decide as Ee; intros [= <- <-]; [|done]. split_and!; [done|done|]. intros s rest [= <- <-].
  split; [by apply R3|]. by left.
Qed.

Lemma restoreMatching_ok asked recorded match_ r o r' :
  registry_ok asked r → restoreMatching ToLower Sum256 goos Stat attrs Restore recorded match_ r = (o, r') →
  registry_ok asked r' ∧ grows r r' ∧ ∀ s, o = Some s → r' !! sh_ExportPath s = Some s ∧ ∃ e, e ∈ recorded ∧ match_ e = true ∧ found e s "/".
Proof.
  intros Hok. unfold restoreMatching. destruct (List.find match_ recorded) as [e|] eqn:Ef; [|intros [= <- <-]; split_and!; [done|apply grows_refl|done]].
  apply find_some in Ef as [Hin%list_elem_of_In Hm]. destruct (LookupOrRestore e r) as [[[s0 rest]|] r1] eqn:El; destruct (LookupOrRestore_ok asked e r _ r1 Hok El) as (R1 & R2 & R3).
  - intros [= <- <-]. split_and!; [done|done|]. intros s. case_bool_decide as Hr; [|done]. intros [= <-]. destruct (R3 s0 rest eq_refl) as [? ?]. subst rest. eauto.
  - intros [= <- <-]. done.
Qed.

Lemma shareForKey_ok asked key r s :
  registry_ok asked r → shareForKey Sum256 key r = Some s → r !! sh_ExportPath s = Some s ∧ exportKey Sum256 (sh_ExportPath s) = key.
Proof.
  intros Hok. unfold shareForKey. destruct (negb _); [done|]. intros [Hin%list_elem_of_In Hk%bool_decide_eq_true]%find_some. split; [|done].
  unfold Shares in Hin. rewrite elem_of_stable_sort, list_elem_of_fmap in Hin. destruct Hin as ([e s'] & -> & Hin%elem_of_map_to_list). cbn [snd] in *. destruct (Hok _ _ Hin) as (E & _). by rewrite E.
Qed.

Lemma FromHandle_ok {A} asked (cache : string → option A) recorded handle r o r' :
  registry_ok asked r → FromHandle cache recorded handle r = (o, r') →
  registry_ok asked r' ∧ grows r r' ∧
  ∀ s, o = Some (ShareRoot s) → r' !! sh_ExportPath s = Some s ∧
    (exportKey Sum256 (sh_ExportPath s) = firstBytes exportKeySize handle ∨
     ∃ e, e ∈ recorded ∧ exportKey Sum256 e = firstBytes exportKeySize handle ∧ found e s "/").
Proof.
  intros Hok. unfold NfsServe.FromHandle. destruct (negb _); [intros [= <- <-]; split_and!; [done|apply grows_refl|]; intros s; by destruct (cache handle)|].
  destruct (cache _) as [a|]; [intros [= <- <-]; split_and!; [done|apply grows_refl|done]|].
  destruct (shareForKey Sum256 _ r) as [s0|] eqn:Es.
  { intros [= <- <-]. split_and!; [done|apply grows_refl|]. intros s [= <-]. destruct (shareForKey_ok asked _ _ _ Hok Es) as [? ?]. auto. }
  destruct (restoreMatching _ _ _ _ _ _ recorded _ r) as [o1 r1] eqn:Er. intros [= <- <-]. destruct (restoreMatching_ok asked _ _ _ _ _ Hok Er) as (R1 & R2 & R3).
  split_and!; [done|done|]. intros s. destruct o1 as [s1|]; [|done]. intros [= <-]. destruct (R3 s1 eq_refl) as (H1 & e & H2 & H3%bool_decide_eq_true & H4). split; [done|]. right. eauto.
Qed.

(** ** A server over time *)

(** The registry, and the local paths the user has mounted, each with the mode and
    the words it was mounted with. *)
Inductive srv_step : registry * list (string * Mode * ShareWords) → registry * list (string * Mode * ShareWords) → Prop :=
| srv_register localPath mode words r asked res r' :
    Register ToLower Sum256 goos Stat attrs localPath mode words r = (res, r') → srv_step (r, asked) (r', (localPath, mode, words) :: asked)
| srv_mount p r asked o r' : LookupOrRestore p r = (o, r') → srv_step (r, asked) (r', asked)
| srv_handle A (cache : string → option A) recorded handle r asked o r' :
    FromHandle cache recorded handle r = (o, r') → srv_step (r, asked) (r', asked).

Definition srv_reachable (w : registry * list (string * Mode * ShareWords)) : Prop := rtc srv_step (∅, []) w.

Lemma registry_ok_asked asked asked' r : asked ⊆ asked' → registry_ok asked r → registry_ok asked' r.
Proof. intros Hs Hok e s H. destruct (Hok e s H) as (? & ? & [(words & ? & ?)|?]); split_and!; try done; [left; exists words; split; [by apply Hs|done]|by right]. Qed.

Lemma srv_step_ok w w' : registry_ok w.2 w.1 → srv_step w w' → registry_ok w'.2 w'.1 ∧ grows w.1 w'.1.
Proof.
  intros Hok Hs. destruct Hs as [localPath mode words r asked res r' H|p r asked o r' H|A cache recorded handle r asked o r' H]; cbn [fst snd] in *.
  - apply (registry_ok_asked asked ((localPath, mode, words) :: asked)) in Hok; [|set_solver]. destruct (register_ok _ _ _ _ _ _ _ _ Hok H) as (? & ? & _); [by left|done|done].
  - destruct (LookupOrRestore_ok _ _ _ _ _ Hok H) as (? & ? & _). done.
  - destruct (FromHandle_ok _ _ _ _ _ _ _ Hok H) as (? & ? & _). done.
Qed.

Lemma srv_steps_ok w w' : registry_ok w.2 w.1 → rtc srv_step w w' → registry_ok w'.2 w'.1 ∧ grows w.1 w'.1.
Proof.
  intros Hok. induction 1 as [w|w1 w2 w3 H12 _ IH]; [split; [done|apply grows_refl]|]. destruct (srv_step_ok _ _ Hok H12) as [Hok2 Hg].
  destruct (IH Hok2) as [? ?]. split; [done|by eapply grows_trans].
Qed.

Lemma srv_reachable_ok w : srv_reachable w → registry_ok w.2 w.1.
Proof. intros H. apply (srv_steps_ok (∅, []) w); [|done]. intros e s H0. cbn in H0. by apply lookup_empty_Some in H0. Qed.

(** C19 (safety). The far side reaches only what somebody here asked for, and gets
    it the way it was asked for.  Whatever has been registered, mounted and presented
    so far, whatever path a mount names and whatever bytes a handle holds: a mount
    that succeeds is of a share that is registered, for a local path the user mounted
    with that mode, or this machine recorded with that mode under that very export.
    What is served is that directory itself, or that one file of the directory it is
    in; it is reported with the owner and the masks the mount or the record asked
    for, and with the session's where they were not set, a mask that a record does
    not have being 0.  The export names the path, the mode, the owner and the masks.
    The path mounted is the share's export or lies below it.  The same holds of the
    share a root handle leads to.  What [os.Stat] says of a path is taken to stay the
    same, and the file system behind a share is named by the directory it is bound
    to. *)
Theorem mounts_reach_only_shared w :
  srv_reachable w →
  (∀ p s rest r', LookupOrRestore p w.1 = (Some (s, rest), r') →
     r' !! sh_ExportPath s = Some s ∧ named s ∧ entitled w.2 s ∧ found p s rest) ∧
  (∀ A (cache : string → option A) recorded handle s r', FromHandle cache recorded handle w.1 = (Some (ShareRoot s), r') →
     r' !! sh_ExportPath s = Some s ∧ named s ∧ entitled w.2 s ∧
     (exportKey Sum256 (sh_ExportPath s) = firstBytes exportKeySize handle ∨
      ∃ e, e ∈ recorded ∧ exportKey Sum256 e = firstBytes exportKeySize handle ∧ found e s "/")).
Proof.
  intros Hok%srv_reachable_ok. split.
  - intros p s rest r' H. destruct (LookupOrRestore_ok _ _ _ _ _ Hok H) as (R1 & _ & R3). destruct (R3 s rest eq_refl) as [E F].
    destruct (R1 _ _ E) as (_ & ? & ?). done.
  - intros A cache recorded handle s r' H. destruct (FromHandle_ok _ _ _ _ _ _ _ Hok H) as (R1 & _ & R3). destruct (R3 s eq_refl) as [E F].
    destruct (R1 _ _ E) as (_ & ? & ?). done.
Qed.

(** A share stays what it was.  Once registered it is there for as long
    as the server runs, under its export, for the same path, with the same mode,
    owner, masks and file system; what later mounts of it ask for raises its watch
    and its prefetch and never lowers them. *)
Theorem shares_only_rise w w' export s :
  srv_reachable w → rtc srv_step w w' → w.1 !! export = Some s → ∃ s', w'.1 !! export = Some s' ∧ same_share s s'.
Proof. intros Hok%srv_reachable_ok Hs. destruct (srv_steps_ok _ _ Hok Hs) as [_ Hg]. apply Hg. Qed.

(** ** Handles of share roots *)

Context (Sum256_len : ∀ s, strlen (Sum256 s) = 32%nat).

Lemma firstBytes_append a b : firstBytes (strlen a) (a +:+ b) = a.
Proof using Type. induction a as [|x a IH]; [by destruct b|]. cbn. by rewrite IH. Qed.

Lemma dropBytes_append a b : dropBytes (strlen a) (a +:+ b) = b.
Proof using Type. induction a as [|x a IH]; [by destruct b|]. cbn. by rewrite IH. Qed.

Lemma named_form s : named s → ∃ id, sh_ExportPath s = ExportMountPrefix +:+ id ∧ shareID id.
Proof. intros [->|[_ ->]]; eexists; (split; [done|]; by apply digest_shareID). Qed.

Lemma shareID_bytes id : shareID id → everyByte hexByte id = true ∧ strlen id = idLen.
Proof using Type. intros [H1 [H2 _]%isHex_iff]. done. Qed.

Lemma normalizeExport_export id : shareID id → normalizeExport (ExportMountPrefix +:+ id) = ExportMountPrefix +:+ id.
Proof using Type.
  intros [Hb Hl]%shareID_bytes. assert (everyByte visible (ExportMountPrefix +:+ id) = true) as Hv.
  { rewrite everyByte_app. cbn. eapply everyByte_impl; [|exact Hb]. intros a. destruct a as [[] [] [] [] [] [] [] []]; vm_compute; done. }
  unfold normalizeExport. rewrite TrimSpace_visible by done. rewrite bool_decide_eq_false_2 by done.
  change (strings.HasPrefix (ExportMountPrefix +:+ id) "/") with true. cbv iota. change (ExportMountPrefix +:+ id) with ("/" +:+ ("m/" +:+ id)).
  assert (strings.Contains id path.sep = false) as Hs by (by apply (everyByte_Contains hexByte)).
  assert (id ≠ ""%string) as Hne by (by intros ->).
  assert (strings.Split ("m/" +:+ id) path.sep = ["m"%string; id]) as Hsp.
  { change ("m/" +:+ id) with ("m" +:+ String path.sep id). rewrite Split_append by done. by rewrite Split_no_Contains. }
  rewrite Clean_rooted, Hsp, clean_parts_plain.
  2: { repeat constructor; try done; intros ->; vm_compute in Hl; discriminate. }
  cbn [List.rev app strings.Join]. change (strings.Join ["m"%string; id] "/") with ("m/" +:+ id).
  rewrite bool_decide_eq_false_2 by done. unfold strings.TrimSuffix. destruct (strings.CutSuffix _ "/") as [r|] eqn:Ec; [|done].
  apply CutSuffix_Some in Ec. exfalso. change ("/" +:+ ("m/" +:+ id)) with ("/m/" +:+ id) in Ec. destruct (append_suffix "/m/" id r "/" Ec) as [x Hx].
  - cbn. rewrite Hl. vm_compute. lia.
  - rewrite Hx, Contains_append in Hs. cbn in Hs. by rewrite orb_true_r in Hs.
Qed.

(** An export is below no other. *)
Lemma exports_flat asked r p e :
  registry_ok asked r → shareID p → e = ExportMountPrefix +:+ p → omap (belowExport e) (map_to_list r) = [].
Proof.
  intros Hok Hp ->. destruct (omap _ _) as [|[s rest] l] eqn:E; [done|]. exfalso.
  assert ((s, rest) ∈ omap (belowExport (ExportMountPrefix +:+ p)) (map_to_list r)) as Hin by (rewrite E; left).
  apply list_elem_of_omap in Hin as ([e' s'] & Hin%elem_of_map_to_list & Hb). apply belowExport_Some in Hb as (-> & sub & _ & Heq).
  destruct (Hok _ _ Hin) as (E1 & Hn & _). destruct (named_form _ Hn) as (id & Hid & Hs). rewrite E1 in Hid. rewrite Hid in Heq.
  apply (f_equal strlen) in Heq. rewrite !strlen_append in Heq. destruct (shareID_bytes _ Hp) as [_ L1], (shareID_bytes _ Hs) as [_ L2]. rewrite L1, L2 in Heq.
  assert (strlen "/" = 1%nat) as L3 by done. lia.
Qed.

Lemma exportKey_len e : strlen (exportKey Sum256 e) = exportKeySize.
Proof. unfold exportKey. apply strlen_firstBytes. rewrite Sum256_len. vm_compute. lia. Qed.

(** The handle of a share's root outlives the process.  A later process
    that has a record of the share's export, to which the path there still is,
    resolves the handle to a share under that very export, registered now,
    although its own handle cache has never seen it; as long as no other export it
    serves or has recorded has the same eight-byte key. *)
Theorem root_handle_survives {A} s cached (cache : string → option A) recorded w local mode words :
  named s → strlen cached = cachedHandleSize → cache cached = None → srv_reachable w →
  sh_ExportPath s ∈ recorded → Restore (sh_ExportPath s) = Some (local, mode, words) → sh_ExportPath s = RecordedExport local mode words →
  Stat local = StatDir ∨ Stat local = StatRegular →
  (∀ e, e ∈ recorded ∨ is_Some (w.1 !! e) → exportKey Sum256 e = exportKey Sum256 (sh_ExportPath s) → e = sh_ExportPath s) →
  ∃ s' r', FromHandle cache recorded (ToHandle Sum256 (sh_ExportPath s) [] cached) w.1 = (Some (ShareRoot s'), r') ∧
           sh_ExportPath s' = sh_ExportPath s ∧ r' !! sh_ExportPath s = Some s'.
Proof.
  intros Hn Hc Hno Hw%srv_reachable_ok Hin Hres Hrec Hst Huniq. destruct (named_form s Hn) as (id & He & Hid). set (e := sh_ExportPath s) in *.
  pose proof (exportKey_len e) as Hk. assert (e ≠ ""%string) as Hne by (by rewrite He).
  assert (ToHandle Sum256 e [] cached = exportKey Sum256 e +:+ cached) as ->.
  { unfold ToHandle. rewrite Hc, bool_decide_eq_true_2, bool_decide_eq_false_2 by done. done. }
  assert (dropBytes exportKeySize (exportKey Sum256 e +:+ cached) = cached) as Hd by (rewrite <- Hk; apply dropBytes_append).
  assert (firstBytes exportKeySize (exportKey Sum256 e +:+ cached) = exportKey Sum256 e) as Hf by (rewrite <- Hk at 1; apply firstBytes_append).
  assert (strlen (exportKey Sum256 e +:+ cached) = rootHandleSize) as Hl by (by rewrite strlen_append, Hk, Hc).
  unfold NfsServe.FromHandle. rewrite Hl, Hd, Hf, Hno, Nat.eqb_refl. cbn [negb].
  destruct (shareForKey Sum256 (exportKey Sum256 e) w.1) as [s1|] eqn:Es.
  { destruct (shareForKey_ok _ _ _ _ Hw Es) as [H1 H2]. assert (sh_ExportPath s1 = e) as E by (apply Huniq; [right; by eexists|done]). rewrite E in H1. eauto. }
  unfold restoreMatching. destruct (List.find _ recorded) as [e0|] eqn:Ef.
  2: { exfalso. apply list_elem_of_In in Hin. apply (find_none _ _ Ef), bool_decide_eq_false in Hin. done. }
  apply find_some in Ef as [Hin0%list_elem_of_In Hk0%bool_decide_eq_true]. assert (e0 = e) as -> by (apply Huniq; [by left|done]).
  assert (normalizeExport e = e) as Hnorm by (rewrite He; by apply normalizeExport_export).
  unfold NfsServe.LookupOrRestore, Lookup. rewrite Hnorm. destruct (w.1 !! e) as [s1|] eqn:Ew.
  { rewrite bool_decide_eq_true_2 by done. cbn. destruct (Hw _ _ Ew) as (E1 & _). eauto. }
  rewrite (exports_flat _ _ id e Hw Hid He). cbn [head]. rewrite Hres, bool_decide_eq_true_2 by done. cbn [negb].
  unfold NfsServe.register. rewrite bool_decide_eq_false_2, Ew by done.
  destruct Hst as [-> | ->]; rewrite bool_decide_eq_true_2 by done; rewrite bool_decide_eq_true_2 by done; cbn; eexists _, _; (split; [done|]; split; [done|apply lookup_insert_eq]).
Qed.

End registry.
