(* ===== verification/ShareStore.v ===== *)
(** * The exports a workspace has been asked for, remembered (client/internal/session:
    shares.go, and restoreShare, recordsToKeep and shareRegistrar.Share)

    The record of the shares that outlives a session: what is written of a share,
    what is believed of the file, and how it answers a mount for an export this
    session has not registered.  The file is the record its JSON holds, after
    [encoding/json] has written its texts ([jsonText]); what [os.Stat] finds, the
    clock, the host's and the account's name and whether a write succeeds are
    arguments.  Everything under the store's mutex is one definition; [save] is two,
    since it holds another mutex across the copy and the write. *)
From Stdlib Require Import Ascii.
From S2P Require Import Prelude GoStrings GoTime Records Names Mounts Json NfsServe.

Open Scope Z_scope.

(** ** One record *)

Record shareRecord := {
  sr_Export : string;
  sr_Path : string;
  sr_LastUsed : Time;
  sr_Read : string;
  sr_Write : string;
  sr_Owner : string;
  sr_FMask : string;
  sr_DMask : string;
  sr_Watch : string;
  sr_Prefetch : string
}.

#[export] Instance shareRecord_eq_dec : EqDecision shareRecord.
Proof. solve_decision. Defined.

(** [string(words.Watch)] and [string(words.Prefetch)]. *)
Definition Watch_word (w : Watch) : string := match w with WatchUnset => "" | w => Watch_String w end.
Definition Prefetch_word (p : Prefetch) : string := match p with PrefetchUnset => "" | p => Prefetch_String p end.

Definition mode (r : shareRecord) : Mode :=
  if bool_decide (sr_Read r = "") || bool_decide (sr_Write r = "") then ModeUnset
  else match ParseMode ("read=" +:+ sr_Read r +:+ ",write=" +:+ sr_Write r) with Ok m => m | Err _ => ModeUnset end.

Definition orElse {E A} (r : res E A) (a : A) : A := match r with Ok x => x | Err _ => a end.

Definition words (r : shareRecord) : ShareWords :=
  {| sw_Owner := orElse (ParseOwner (sr_Owner r)) noOwner; sw_FMask := orElse (ParseFileMask (sr_FMask r)) noMask;
     sw_DMask := orElse (ParseDirMask (sr_DMask r)) noMask; sw_Watch := orElse (ParseWatch (sr_Watch r)) WatchUnset;
     sw_Prefetch := orElse (ParsePrefetch (sr_Prefetch r)) PrefetchUnset |}.

Definition recordFor (now : Time) (s : Share) : shareRecord :=
  let w := sh_words s in
  let unset := bool_decide (sh_Mode s = ModeUnset) in
  {| sr_Export := sh_ExportPath s; sr_Path := sh_LocalPath s; sr_LastUsed := now;
     sr_Read := if unset then "" else Read_word (md_Read (sh_Mode s));
     sr_Write := if unset then "" else Write_word (md_Write (sh_Mode s));
     sr_Owner := if ow_Set (sw_Owner w) then Owner_String (sw_Owner w) else "";
     sr_FMask := if mk_Bits (sw_FMask w) =? 0 then "" else Mask_String (sw_FMask w);
     sr_DMask := if mk_Bits (sw_DMask w) =? 0 then "" else Mask_String (sw_DMask w);
     sr_Watch := Watch_word (sw_Watch w); sr_Prefetch := Prefetch_word (sw_Prefetch w) |}.

(** ** The file *)

Record boundRecord := {
  br_Version : Z;
  br_Machine : string;
  br_User : string
}.

Record shareFile := {
  sf_bound : boundRecord;
  sf_Shares : list shareRecord
}.

Definition shareFileVersion : Z := 1.
Definition bindRecord (me : string * string) (version : Z) : boundRecord :=
  {| br_Version := version; br_Machine := me.1; br_User := me.2 |}.

(** [readBound]: [None] is a file that cannot be read, or that is not JSON. *)
Definition readBound (me : string * string) (version : Z) (b : option boundRecord) : bool :=
  match b with
  | None => false
  | Some b => (br_Version b =? version) && bool_decide (br_Machine b = me.1) && bool_decide (br_User b = me.2)
  end.

(** What is on the disk of a file that was written. *)
Definition writtenRecord (r : shareRecord) : shareRecord :=
  {| sr_Export := jsonText (sr_Export r); sr_Path := jsonText (sr_Path r); sr_LastUsed := sr_LastUsed r; sr_Read := jsonText (sr_Read r);
     sr_Write := jsonText (sr_Write r); sr_Owner := jsonText (sr_Owner r); sr_FMask := jsonText (sr_FMask r); sr_DMask := jsonText (sr_DMask r);
     sr_Watch := jsonText (sr_Watch r); sr_Prefetch := jsonText (sr_Prefetch r) |}.

Definition writeShares (f : shareFile) : shareFile :=
  {| sf_bound := {| br_Version := br_Version (sf_bound f); br_Machine := jsonText (br_Machine (sf_bound f)); br_User := jsonText (br_User (sf_bound f)) |};
     sf_Shares := writtenRecord <$> sf_Shares f |}.

(** ** The store *)

Definition shareUnused : Duration := 30 * 24 * Hour.

Abbreviation records := (gmap string shareRecord).

(** The copy [save] takes. *)
Definition fileOf (me : string * string) (m : records) : shareFile :=
  {| sf_bound := bindRecord me shareFileVersion;
     sf_Shares := stable_sort (λ a b, string_leb (sr_Export a) (sr_Export b)) (map_to_list m).*2 |}.

(** [forget]: and whether anything was dropped. *)
Definition forget (keep : gset string) (m : records) : records * bool :=
  let m' := filter (λ kv, kv.1 ∈ keep) m in (m', negb (bool_decide (m' = m))).

(** [touch]. *)
Definition touch (now : Time) (export : string) (m : records) : records * bool :=
  match m !! export with
  | None => (m, false)
  | Some r => (<[export := {| sr_Export := sr_Export r; sr_Path := sr_Path r; sr_LastUsed := now; sr_Read := sr_Read r; sr_Write := sr_Write r;
                              sr_Owner := sr_Owner r; sr_FMask := sr_FMask r; sr_DMask := sr_DMask r; sr_Watch := sr_Watch r; sr_Prefetch := sr_Prefetch r |}]> m, true)
  end.

(** [remember]: and whether the record is written again. *)
Definition differs (now : Time) (r next : shareRecord) : bool :=
  negb (bool_decide (sr_Path r = sr_Path next)) || negb (bool_decide (sr_Read r = sr_Read next)) || negb (bool_decide (sr_Write r = sr_Write next)) ||
  negb (bool_decide (sr_Owner r = sr_Owner next)) || negb (bool_decide (sr_FMask r = sr_FMask next)) || negb (bool_decide (sr_DMask r = sr_DMask next)) ||
  negb (bool_decide (sr_Watch r = sr_Watch next)) || negb (bool_decide (sr_Prefetch r = sr_Prefetch next)) || (Hour <? Sub now (sr_LastUsed r)).

Definition remember (now : Time) (s : Share) (m : records) : records * bool :=
  let next := recordFor now s in
  let changed := match m !! sh_ExportPath s with None => true | Some r => differs now r next end in
  (if changed then <[sh_ExportPath s := next]> m else m, changed).

Definition exports (m : records) : list string := sort_strings (map_to_list m).*1.

Section store.
Context (ToLower : string → string) (Sum256 : string → string) (goos : string) (Stat : string → statKind) (now : Time).

Definition usable (r : shareRecord) : bool :=
  if bool_decide (sr_Export r = "") || bool_decide (sr_Path r = "") then false
  else if negb (bool_decide (sr_Export r = RecordedExport ToLower Sum256 goos (sr_Path r) (mode r) (words r))) then false
  else if negb (IsZero (sr_LastUsed r)) && (shareUnused <? Sub now (sr_LastUsed r)) then false
  else match Stat (sr_Path r) with StatDir => true | _ => false end.

Definition loadRecord (m : records) (r : shareRecord) : records := if usable r then <[sr_Export r := r]> m else m.

Definition newShareStore (me : string * string) (disk : option shareFile) : records :=
  match disk with
  | None => ∅
  | Some f => if readBound me shareFileVersion (Some (sf_bound f)) then foldl loadRecord ∅ (sf_Shares f) else ∅
  end.

(** [restore], up to the stamp, which is [touch]'s. *)
Definition restore (export : string) (m : records) : option (string * Mode * ShareWords) :=
  match m !! export with
  | Some r => if usable r then Some (sr_Path r, mode r, words r) else None
  | None => None
  end.

Definition unionExports (m : records) : list string :=
  sort_strings (omap (λ kv, if Union (mode kv.2) && usable kv.2 then Some kv.1 else None) (map_to_list m)).

(** notify.go: [restoreShare], with the session's own settings. *)
Definition restoreShare (watch : Watch) (prefetch : Prefetch) (m : records) (export : string) : option (string * Mode * ShareWords) :=
  match restore export m with
  | None => None
  | Some (p, md, w) =>
      Some (p, md, {| sw_Owner := sw_Owner w; sw_FMask := sw_FMask w; sw_DMask := sw_DMask w;
                      sw_Watch := match sw_Watch w with WatchUnset => watch | v => v end;
                      sw_Prefetch := match sw_Prefetch w with PrefetchUnset => prefetch | v => v end |})
  end.

(** adapters.go: [shareRegistrar.Share]; the watcher is told by the caller. *)
Definition registrarShare (attrs : Attrs) (localPath : string) (md : Mode) (w : ShareWords) (r : gmap string Share) (m : records)
  : res exportError Share * gmap string Share * (records * bool) :=
  match Register ToLower Sum256 goos Stat attrs localPath md w r with
  | (Ok s, r') => (Ok s, r', remember now s m)
  | (Err e, r') => (Err e, r', (m, false))
  end.

End store.

(** control.go: [recordsToKeep]. *)
Definition recordsToKeep (volumeNames : list string) (clientID : string) (registered : list string) : gset string :=
  list_to_set (omap (λ name, let '(client, share, ok) := ParseVolumeName name in
                             if ok && (bool_decide (client = "") || bool_decide (client = clientID)) then Some (ExportPathForID share) else None) volumeNames)
  ∪ list_to_set registered.

(** * What was remembered is restored *)

(** ** A record holds what is served *)

Section restoring.
Context (ToLower : string → string) (Sum256 : string → string) (goos : string) (Sum256_len : ∀ s, strlen (Sum256 s) = 32%nat).

Abbreviation exportFor := (exportFor ToLower Sum256 goos).

(** Words that a registered share has. *)
Record plainWords (w : ShareWords) : Prop := {
  pw_owner : ow_Set (sw_Owner w) = true ∧ 0 ≤ ow_UID (sw_Owner w) < 2^32 ∧ 0 ≤ ow_GID (sw_Owner w) < 2^32;
  pw_fmask : mk_Set (sw_FMask w) = true ∧ 0 ≤ mk_Bits (sw_FMask w) ≤ 511;
  pw_dmask : mk_Set (sw_DMask w) = true ∧ 0 ≤ mk_Bits (sw_DMask w) ≤ 511 ∧ Z.land (mk_Bits (sw_DMask w)) 73 ≠ 73;
  pw_watch : sw_Watch w ≠ WatchUnset;
  pw_prefetch : sw_Prefetch w ≠ PrefetchUnset
}.

(** A share whose record can be read back. *)
Record keepable (s : Share) : Prop := {
  kp_named : sh_ExportPath s = exportFor (sh_LocalPath s) (Variant (sh_words s) (sh_Mode s));
  kp_mode : md_Read (sh_Mode s) ≠ ReadUnset ∧ md_Write (sh_Mode s) ≠ WriteUnset;
  kp_words : plainWords (sh_words s);
  kp_path : sh_LocalPath s ≠ ""%string ∧ jsonText (sh_LocalPath s) = sh_LocalPath s
}.

Lemma export_form s : keepable s → ∃ id, sh_ExportPath s = ExportMountPrefix +:+ id ∧ shareID id.
Proof using Sum256_len. intros [-> _ _ _]. eexists. split; [done|]. by apply digest_shareID. Qed.

Lemma shareID_visible id : shareID id → everyByte visible (ExportMountPrefix +:+ id) = true.
Proof.
  clear. intros [_ [Hb _]%isHex_iff]. rewrite everyByte_app. cbn. eapply everyByte_impl; [|exact Hb]. intros a. destruct a as [[] [] [] [] [] [] [] []]; vm_compute; done.
Qed.

Lemma Owner_String_visible o : ow_Set o = true → 0 ≤ ow_UID o → 0 ≤ ow_GID o → everyByte visible (Owner_String o) = true.
Proof.
  clear. intros Hs Hu Hg. unfold Owner_String. rewrite Hs. cbn [negb]. destruct (Itoa_digits (ow_UID o) Hu) as (_ & Hud & _), (Itoa_digits (ow_GID o) Hg) as (_ & Hgd & _).
  rewrite !everyByte_app, (allDigits_visible _ Hud), (allDigits_visible _ Hgd). done.
Qed.

(** What is read back of a share's record. *)
Lemma written_back now s : keepable s → let r := writtenRecord (recordFor now s) in
  r = recordFor now s ∧ mode r = sh_Mode s ∧ setMasks (words r) = sh_words s ∧ ow_Set (sw_Owner (words r)) = true.
Proof using Sum256_len.
  intros Hk. destruct (export_form s Hk) as (id & Hid & Hform). destruct Hk as [Hn [Hr Hw] [(Ho & Hu & Hg) (Hf & Hfb) (Hd & Hdb & Hd73) Hwa Hpr] [Hp Hj]].
  set (w := sh_words s) in *. assert (sh_Mode s ≠ ModeUnset) as Hm by (intros E; by rewrite E in Hr).
  assert (writtenRecord (recordFor now s) = recordFor now s) as E.
  { unfold recordFor, writtenRecord. cbn [sr_Export sr_Path sr_LastUsed sr_Read sr_Write sr_Owner sr_FMask sr_DMask sr_Watch sr_Prefetch]. fold w.
    rewrite (bool_decide_eq_false_2 _ Hm), Ho, Hj. rewrite (jsonText_visible (sh_ExportPath s)) by (rewrite Hid; by apply shareID_visible).
    rewrite (jsonText_visible (Owner_String _)) by (apply Owner_String_visible; lia || done). f_equal.
    - by destruct (md_Read (sh_Mode s)).
    - by destruct (md_Write (sh_Mode s)).
    - destruct (_ =? 0); [done|]. apply jsonText_visible, Mask_String_visible. lia.
    - destruct (_ =? 0); [done|]. apply jsonText_visible, Mask_String_visible. lia.
    - by destruct (sw_Watch w).
    - by destruct (sw_Prefetch w). }
  cbv zeta. rewrite E. split; [done|]. unfold mode, words, recordFor. cbn [sr_Export sr_Path sr_LastUsed sr_Read sr_Write sr_Owner sr_FMask sr_DMask sr_Watch sr_Prefetch]. fold w.
  rewrite (bool_decide_eq_false_2 _ Hm), Ho. split.
  { destruct (sh_Mode s) as [[] []]; first [done|reflexivity]. }
  rewrite owner_words_back by (lia || done). unfold setMasks. cbn [orElse sw_Owner sw_FMask sw_DMask sw_Watch sw_Prefetch]. split; [|done].
  assert (∀ m, mk_Set m = true → {| mk_Bits := mk_Bits m; mk_Set := true |} = m) as Hset by (by intros [] ?; cbn in *; subst).
  assert ({| mk_Bits := mk_Bits (orElse (ParseFileMask (if mk_Bits (sw_FMask w) =? 0 then "" else Mask_String (sw_FMask w))) noMask); mk_Set := true |} = sw_FMask w) as ->.
  { destruct (Z.eqb_spec (mk_Bits (sw_FMask w)) 0) as [E0|]; [rewrite <- (Hset _ Hf), E0; done|]. rewrite (proj1 (mask_words_back _ Hf Hfb)). by apply Hset. }
  assert ({| mk_Bits := mk_Bits (orElse (ParseDirMask (if mk_Bits (sw_DMask w) =? 0 then "" else Mask_String (sw_DMask w))) noMask); mk_Set := true |} = sw_DMask w) as ->.
  { destruct (Z.eqb_spec (mk_Bits (sw_DMask w)) 0) as [E0|]; [rewrite <- (Hset _ Hd), E0; done|]. rewrite (proj2 (mask_words_back _ Hd Hdb) Hd73). by apply Hset. }
  assert (orElse (ParseWatch (Watch_word (sw_Watch w))) WatchUnset = sw_Watch w) as -> by (by destruct (sw_Watch w)).
  assert (orElse (ParsePrefetch (Prefetch_word (sw_Prefetch w))) PrefetchUnset = sw_Prefetch w) as -> by (by destruct (sw_Prefetch w)).
  by destruct w.
Qed.

(** What a mount's words and the session's own attributes may be. *)
Record parsedWords (w : ShareWords) : Prop := {
  pa_owner : ow_Set (sw_Owner w) = true → 0 ≤ ow_UID (sw_Owner w) < 2^32 ∧ 0 ≤ ow_GID (sw_Owner w) < 2^32;
  pa_fmask : mk_Set (sw_FMask w) = true → 0 ≤ mk_Bits (sw_FMask w) ≤ 511;
  pa_dmask : mk_Set (sw_DMask w) = true → 0 ≤ mk_Bits (sw_DMask w) ≤ 511 ∧ Z.land (mk_Bits (sw_DMask w)) 73 ≠ 73
}.

Record plainAttrs (a : Attrs) : Prop := {
  pt_ids : 0 ≤ at_UID a < 2^32 ∧ 0 ≤ at_GID a < 2^32;
  pt_masks : 0 ≤ at_FileMask a ≤ 511 ∧ 0 ≤ at_DirMask a ≤ 511 ∧ Z.land (at_DirMask a) 73 ≠ 73
}.

Lemma resolved_plain a w : plainAttrs a → parsedWords w → plainWords (resolved a w).
Proof.
  clear. intros [[Hu Hg] (Hf & Hd & H73)] [Ho Hpf Hpd]. unfold resolved, resolveWords, resolveAttrs. split; cbn.
  - destruct (ow_Set (sw_Owner w)); [|done]. split; [done|]. by apply Ho.
  - destruct (mk_Set (sw_FMask w)); [|done]. split; [done|]. by apply Hpf.
  - destruct (mk_Set (sw_DMask w)); [|done]. split; [done|]. by apply Hpd.
  - by destruct (sw_Watch w).
  - by destruct (sw_Prefetch w).
Qed.

(** Every share a session registers can be kept. *)
Lemma registered_keepable Stat attrs localPath md w r s r' :
  (∀ e s0, r !! e = Some s0 → keepable s0) → plainAttrs attrs → parsedWords w → md_Read md ≠ ReadUnset → md_Write md ≠ WriteUnset →
  localPath ≠ ""%string → jsonText localPath = localPath →
  Register ToLower Sum256 goos Stat attrs localPath md w r = (Ok s, r') → keepable s ∧ ∀ e s0, r' !! e = Some s0 → keepable s0.
Proof.
  clear Sum256_len. intros Hr Ha Hw H1 H2 H3 H4 H. apply register_spec in H as [-> H]. pose proof (resolved_plain _ _ Ha Hw) as Hp.
  rewrite bool_decide_eq_true_2 in H |- * by done.
  assert (keepable s) as Hs.
  { destruct (r !! _) as [old|] eqn:E.
    - subst s. destruct (Hr _ _ E) as [K1 K2 [K3 K4 K5 K6 K7] K8]. split; [done|done| |done].
      destruct Hp as [_ _ _ Hwa Hpr]. split; cbn [raise_share raise_words sh_words sw_Owner sw_FMask sw_DMask sw_Watch sw_Prefetch]; try done.
      + unfold Watch_Max. destruct (_ <? _); [done|]. by case_bool_decide.
      + unfold Prefetch_Max. destruct (_ <? _); [done|]. by case_bool_decide.
    - destruct H as (E1 & E2 & E3 & E4 & _). split; rewrite ?E1, ?E2, ?E3, ?E4; done. }
  split; [done|]. intros e s0 [[_ <-]|[_ H0]]%lookup_insert_Some; [done|by eapply Hr].
Qed.

(** ** The records in memory *)

Definition exportForm (e : string) : Prop := ∃ id, e = ExportMountPrefix +:+ id ∧ shareID id.

Definition records_ok (m : records) : Prop := ∀ e r, m !! e = Some r → sr_Export r = e ∧ exportForm e.

Lemma exportForm_json e : exportForm e → jsonText e = e.
Proof. clear. intros (id & -> & H). by apply jsonText_visible, shareID_visible. Qed.

Lemma usable_form Stat now r : usable ToLower Sum256 goos Stat now r = true → exportForm (sr_Export r).
Proof using Sum256_len.
  unfold usable. destruct (bool_decide (sr_Export r = "") || _) eqn:E0; [done|]. apply orb_false_iff in E0 as [E0%bool_decide_eq_false _].
  destruct (bool_decide (sr_Export r = RecordedExport _ _ _ _ _ _)) eqn:E; [|done]. intros _. apply bool_decide_eq_true in E. rewrite E in E0 |- *. unfold NfsServe.RecordedExport in *. case_bool_decide; [eexists; split; [done|by apply digest_shareID]|].
  destruct (negb _); [done|]. eexists. split; [done|by apply digest_shareID].
Qed.

Lemma loaded_ok Stat now l m : records_ok m → records_ok (foldl (loadRecord ToLower Sum256 goos Stat now) m l).
Proof using Sum256_len.
  revert m. induction l as [|r l IH]; intros m Hm; [done|]. cbn. apply IH. unfold loadRecord. destruct (usable _ _ _ _ _ r) eqn:E; [|done].
  intros e r0 [[<- <-]|[_ H]]%lookup_insert_Some; [split; [done|by eapply usable_form]|by apply Hm].
Qed.

Lemma newShareStore_ok Stat now me disk : records_ok (newShareStore ToLower Sum256 goos Stat now me disk).
Proof using Sum256_len.
  unfold newShareStore. assert (records_ok ∅) as H0 by (intros e r H; by apply lookup_empty_Some in H). destruct disk as [f|]; [|done]. destruct (readBound _ _ _); [|done]. by apply loaded_ok.
Qed.

Lemma remember_ok now s m : records_ok m → exportForm (sh_ExportPath s) → records_ok (remember now s m).1.
Proof.
  clear. intros Hm Hs. unfold remember. cbn [fst]. assert (∀ b : bool, records_ok (if b then <[sh_ExportPath s := recordFor now s]> m else m)) as H; [|apply H].
  intros [|]; [|done]. intros e r [[<- <-]|[_ H]]%lookup_insert_Some; [done|by apply Hm].
Qed.

Lemma touch_ok now e m : records_ok m → records_ok (touch now e m).1.
Proof. clear. intros Hm. unfold touch. destruct (m !! e) as [r|] eqn:E; [|done]. cbn [fst]. intros e' r' [[<- <-]|[_ H]]%lookup_insert_Some; [exact (Hm _ _ E)|by apply Hm]. Qed.

Lemma forget_ok keep m : records_ok m → records_ok (forget keep m).1.
Proof. clear. intros Hm e r [H _]%map_lookup_filter_Some. by apply Hm. Qed.

(** The record of a share that was remembered, an hour old at most. *)
Lemma remember_record now s m : records_ok m → ∃ t, (remember now s m).1 !! sh_ExportPath s = Some (recordFor t s) ∧ now - t ≤ Hour.
Proof.
  clear. intros Hm. unfold remember. cbn [fst]. destruct (m !! sh_ExportPath s) as [r|] eqn:E.
  2: { exists now. rewrite lookup_insert_eq. split; [done|]. rewrite Z.sub_diag. vm_compute. discriminate. }
  destruct (differs now r (recordFor now s)) eqn:D; [exists now; rewrite lookup_insert_eq; split; [done|rewrite Z.sub_diag; vm_compute; discriminate]|].
  exists (sr_LastUsed r). rewrite E. destruct (Hm _ _ E) as [He _]. unfold differs in D. rewrite !orb_false_iff, !negb_false_iff, !bool_decide_eq_true in D.
  destruct D as ((((((((D1 & D2) & D3) & D4) & D5) & D6) & D7) & D8) & D9%Z.ltb_ge). split.
  - f_equal. destruct r. cbn in *. subst. done.
  - unfold Sub in D9. change Hour with 3600000000000 in *. lia.
Qed.

(** ** Loading *)

Lemma usable_recorded Stat now' t s : keepable s → Stat (sh_LocalPath s) = StatDir → now' - t ≤ shareUnused →
  usable ToLower Sum256 goos Stat now' (recordFor t s) = true.
Proof using Sum256_len.
  intros Hk Hst Ht. destruct (written_back t s Hk) as (Hw & Hm & Hs & Ho). rewrite Hw in Hm, Hs, Ho. unfold usable.
  destruct (export_form s Hk) as (id & Hid & _). rewrite Hm.
  change (sr_Export (recordFor t s)) with (sh_ExportPath s). change (sr_Path (recordFor t s)) with (sh_LocalPath s). change (sr_LastUsed (recordFor t s)) with t.
  rewrite (bool_decide_eq_false_2 (sh_ExportPath s = "")) by (by rewrite Hid). rewrite (bool_decide_eq_false_2 (sh_LocalPath s = "")) by (apply Hk). cbn [orb].
  assert (sh_ExportPath s = RecordedExport ToLower Sum256 goos (sh_LocalPath s) (sh_Mode s) (words (recordFor t s))) as <-.
  { unfold RecordedExport. rewrite bool_decide_eq_false_2 by (intros E; destruct Hk as [_ [Hr _] _ _]; by rewrite E in Hr). rewrite Ho. cbn [negb].
    rewrite (kp_named _ Hk). unfold NfsServe.exportFor, ShareIDFor. do 2 f_equal. rewrite <- Hs. by apply shareKey_bits. }
  rewrite bool_decide_eq_true_2 by done. cbn [negb]. rewrite (proj2 (Z.ltb_ge shareUnused (Sub now' t))), andb_false_r, Hst; [done|].
  unfold Sub. change shareUnused with 2592000000000000 in *. lia.
Qed.

Lemma loaded_lookup Stat now l m r : NoDup (sr_Export <$> l) → r ∈ l → usable ToLower Sum256 goos Stat now r = true →
  foldl (loadRecord ToLower Sum256 goos Stat now) m l !! sr_Export r = Some r.
Proof.
  clear Sum256_len. assert (∀ l m, sr_Export r ∉ (sr_Export <$> l) → m !! sr_Export r = Some r → foldl (loadRecord ToLower Sum256 goos Stat now) m l !! sr_Export r = Some r) as Hkeep.
  { clear l m. intros l. induction l as [|x l IH]; intros m; [done|]. cbn. intros Hn Hm. apply IH; [set_solver|]. unfold loadRecord. destruct (usable _ _ _ _ _ x); [|done].
    rewrite lookup_insert_ne; [done|set_solver]. }
  revert m. induction l as [|x l IH]; intros m; [by intros _ ?%elem_of_nil|]. cbn. intros [Hx Hl]%NoDup_cons [->|Hr]%elem_of_cons Hu; [|by apply IH].
  apply Hkeep; [done|]. unfold loadRecord. by rewrite Hu, lookup_insert_eq.
Qed.

Lemma NoDup_exports me m : records_ok m → NoDup (sr_Export <$> sf_Shares (writeShares (fileOf me m))).
Proof.
  clear. intros Hm. cbn. rewrite <- list_fmap_compose. assert ((sr_Export ∘ writtenRecord) <$> stable_sort (λ a b, string_leb (sr_Export a) (sr_Export b)) (map_to_list m).*2 ≡ₚ (map_to_list m).*1) as ->.
  { rewrite stable_sort_Permutation, <- list_fmap_compose. apply Permutation_refl'. apply list_fmap_ext. intros i [e r] H%list_elem_of_lookup_2%elem_of_map_to_list. cbn.
    destruct (Hm _ _ H) as [-> Hf]. by rewrite exportForm_json. }
  apply NoDup_fst_map_to_list.
Qed.

Lemma saved_record me m e r : m !! e = Some r → writtenRecord r ∈ sf_Shares (writeShares (fileOf me m)).
Proof. clear. intros H%elem_of_map_to_list. cbn. apply list_elem_of_fmap. exists r. split; [done|]. apply elem_of_stable_sort, list_elem_of_fmap. by exists (e, r). Qed.

(** ** Saving *)

(** The store with its savers: how many have still to take a copy, the copy that is
    being written, the file, and whether the last write failed. *)
Record world := {
  w_records : records;
  w_pending : nat;
  w_writing : option shareFile;
  w_disk : option shareFile;
  w_failed : bool
}.

Definition edited (p : records * bool) (w : world) : world :=
  {| w_records := p.1; w_pending := (if p.2 then 1 else 0) + w_pending w; w_writing := w_writing w; w_disk := w_disk w; w_failed := w_failed w |}.

Inductive edit_step : world → world → Prop :=
| e_remember now s w : exportForm (sh_ExportPath s) → edit_step w (edited (remember now s (w_records w)) w)
| e_touch now e w : edit_step w (edited (touch now e (w_records w)) w)
| e_forget keep w : edit_step w (edited (forget keep (w_records w)) w).

(** [save]: the copy under both mutexes, then the write under the saving one. *)
Inductive save_step (me : string * string) : world → world → Prop :=
| v_copy m n d b : save_step me {| w_records := m; w_pending := S n; w_writing := None; w_disk := d; w_failed := b |}
                               {| w_records := m; w_pending := n; w_writing := Some (fileOf me m); w_disk := d; w_failed := b |}
| v_write m n f d b (ok : bool) :
    save_step me {| w_records := m; w_pending := n; w_writing := Some f; w_disk := d; w_failed := b |}
                 {| w_records := m; w_pending := n; w_writing := None; w_disk := if ok then Some (writeShares f) else d; w_failed := negb ok |}.

Definition store_step (me : string * string) (w w' : world) : Prop := edit_step w w' ∨ save_step me w w'.

Definition opened (m : records) (disk : option shareFile) : world :=
  {| w_records := m; w_pending := 0; w_writing := None; w_disk := disk; w_failed := false |}.

(** The file holds what the store does, or nothing has been saved yet. *)
Definition current (me : string * string) (m0 : records) (d0 : option shareFile) (w : world) : Prop :=
  w_disk w = Some (writeShares (fileOf me (w_records w))) ∨ w_disk w = d0 ∧ w_records w = m0.

Definition saves_inv (me : string * string) (m0 : records) (d0 : option shareFile) (w : world) : Prop :=
  w_pending w = O → match w_writing w with
                    | Some f => f = fileOf me (w_records w)
                    | None => w_failed w = true ∨ current me m0 d0 w
                    end.

Lemma edited_inv me m0 d0 p w : (p.2 = false → p.1 = w_records w) → saves_inv me m0 d0 w → saves_inv me m0 d0 (edited p w).
Proof. clear. destruct p as [m [|]]; cbn; intros Hp Hw; [done|]. rewrite (Hp eq_refl). unfold edited. cbn. by destruct w. Qed.

Lemma edit_unchanged w :
  (∀ now s, (remember now s (w_records w)).2 = false → (remember now s (w_records w)).1 = w_records w) ∧
  (∀ now e, (touch now e (w_records w)).2 = false → (touch now e (w_records w)).1 = w_records w) ∧
  (∀ keep, (forget keep (w_records w)).2 = false → (forget keep (w_records w)).1 = w_records w).
Proof.
  clear. split_and!.
  - intros now s. unfold remember. cbn [fst snd]. by intros ->.
  - intros now e. unfold touch. by destruct (_ !! e).
  - intros keep. unfold forget. cbn [fst snd]. by intros ?%negb_false_iff%bool_decide_eq_true.
Qed.

Lemma store_step_inv me m0 d0 w w' : saves_inv me m0 d0 w → store_step me w w' → saves_inv me m0 d0 w'.
Proof.
  clear. destruct (edit_unchanged w) as (H1 & H2 & H3). intros Hw [He|Hs]; [destruct He; apply edited_inv; auto|]. destruct Hs; unfold saves_inv, current in *; cbn in *; [done|].
  intros Hp. specialize (Hw Hp). subst f. destruct ok; cbn; auto.
Qed.

Lemma store_step_ok me w w' : records_ok (w_records w) → store_step me w w' → records_ok (w_records w').
Proof.
  clear. intros Hw [He|Hs]; [|by destruct Hs]. destruct He; cbn; [by apply remember_ok|by apply touch_ok|by apply forget_ok].
Qed.

Lemma reachable_inv me m0 d0 w : rtc (store_step me) (opened m0 d0) w → saves_inv me m0 d0 w ∧ (records_ok m0 → records_ok (w_records w)).
Proof.
  clear. intros H. remember (opened m0 d0) as w0 eqn:E0.
  assert (saves_inv me m0 d0 w0 ∧ (records_ok m0 → records_ok (w_records w0))) as H0 by (subst; split; [intros _; right; by right|done]).
  clear E0. revert H0. induction H as [w|w w1 w2 Hs _ IH]; [done|]. intros [HA HB]. apply IH. split; [by eapply store_step_inv|]. intros Hm. eapply store_step_ok; eauto.
Qed.

(** The saves that are due can all be done, and then the file is current. *)
Lemma saves_drain me m0 d0 w : saves_inv me m0 d0 w → w_failed w = false →
  ∃ w', rtc (save_step me) w w' ∧ w_records w' = w_records w ∧ w_pending w' = O ∧ w_writing w' = None ∧ current me m0 d0 w'.
Proof.
  clear. destruct w as [m n wr d b]. revert wr d b. induction n as [|n IH]; intros wr d b Hinv Hb; cbn in Hb; subst b.
  - destruct wr as [f|].
    + eexists. split; [eapply rtc_once, (v_write _ _ _ _ _ _ true)|]. cbn. split_and!; try done. left. cbn. by rewrite (Hinv eq_refl).
    + eexists. split; [done|]. cbn. split_and!; try done. by destruct (Hinv eq_refl) as [?|?].
  - destruct wr as [f|].
    + destruct (IH (Some (fileOf me m)) (Some (writeShares f)) false) as (w' & Hw' & ?); [by intros _|done|]. exists w'. split; [|done].
      eapply rtc_l; [eapply (v_write _ _ _ _ _ _ true)|]. eapply rtc_l; [apply v_copy|]. done.
    + destruct (IH (Some (fileOf me m)) d false) as (w' & Hw' & ?); [by intros _|done|]. exists w'. split; [|done]. eapply rtc_l; [apply v_copy|]. done.
Qed.

(** The newest set of shares is what stays on the disk, however many callers save at
    once: when no save is due or under way and the last write succeeded, the file
    holds what the store holds, or nothing was changed since the store was opened;
    and the saves that are due always get there. *)
Theorem newest_record_lands me m0 d0 w : rtc (store_step me) (opened m0 d0) w → w_failed w = false →
  (w_pending w = O → w_writing w = None → current me m0 d0 w) ∧
  ∃ w', rtc (save_step me) w w' ∧ w_records w' = w_records w ∧ w_pending w' = O ∧ w_writing w' = None ∧ current me m0 d0 w'.
Proof.
  clear. intros [Hi _]%reachable_inv Hf. split; [|by apply saves_drain]. intros Hp Hw. specialize (Hi Hp). rewrite Hw in Hi. by destruct Hi as [?|?]; [congruence|].
Qed.

(** What a session that starts from a file answers for a share the file holds. *)
Lemma restored_share Stat' now' attrs' watch prefetch m t s : keepable s → Stat' (sh_LocalPath s) = StatDir → now' - t ≤ shareUnused →
  m !! sh_ExportPath s = Some (recordFor t s) →
  ∃ s' r', LookupOrRestore ToLower Sum256 goos Stat' attrs' (restoreShare ToLower Sum256 goos Stat' now' watch prefetch m) (sh_ExportPath s) ∅ = (Some (s', "/"%string), r') ∧
    sh_ExportPath s' = sh_ExportPath s ∧ sh_LocalPath s' = sh_LocalPath s ∧ sh_Mode s' = sh_Mode s ∧ sh_words s' = sh_words s.
Proof using Sum256_len.
  intros Hk Hst Ht Hm. destruct (export_form s Hk) as (id & Hid & Hform). pose proof (usable_recorded Stat' now' t s Hk Hst Ht) as Hu.
  destruct (written_back t s Hk) as (Ew & Emode & Ewords & Eset). rewrite Ew in *. destruct (kp_words _ Hk) as [(Ho & _) (Hf & _) (Hd & _) Hwa Hpr]. set (w := words (recordFor t s)) in *.
  unfold LookupOrRestore, Lookup. rewrite Hid, normalizeExport_export, lookup_empty, <- Hid by done. rewrite map_to_list_empty. change (head _) with (@None (Share * string)). cbv iota beta.
  assert (restoreShare ToLower Sum256 goos Stat' now' watch prefetch m (sh_ExportPath s) = Some (sh_LocalPath s, sh_Mode s, w)) as ->.
  { unfold restoreShare, restore. rewrite Hm, Hu, Emode. fold w. change (sr_Path (recordFor t s)) with (sh_LocalPath s). do 2 f_equal.
    rewrite <- Ewords in Hwa, Hpr. clearbody w. destruct w as [? ? ? [] []]; done. }
  assert (sh_ExportPath s = RecordedExport ToLower Sum256 goos (sh_LocalPath s) (sh_Mode s) w) as Hrec.
  { unfold usable in Hu. destruct (_ || _) in Hu; [done|]. destruct (bool_decide (sr_Export _ = _)) eqn:E in Hu; [|done]. apply bool_decide_eq_true in E. by rewrite Emode in E. }
  rewrite bool_decide_eq_true_2 by done. cbn [negb]. rewrite Ewords. unfold register. rewrite Hst, (bool_decide_eq_false_2 (sh_ExportPath s = "")) by (by rewrite Hid). rewrite lookup_empty. cbn [sh_ExportPath].
  rewrite bool_decide_eq_true_2 by done. eexists _, _. split; [done|]. cbn [sh_ExportPath sh_LocalPath sh_Mode sh_words]. split_and!; try done.
  unfold resolveWords, resolveAttrs. rewrite Ho, Hf, Hd. cbn. destruct (sh_words s) as [[? ? ?] [? ?] [? ?] wa pr]; cbn in *; subst. by destruct wa, pr.
Qed.

(** C31 (roundtrip). A share that was asked for is served after a restart.  Whatever the store went
    through before, once a share is remembered and the file written, a session that
    starts from the file within thirty days less an hour, on the same machine and
    account, answers a mount of the share's export with the same directory, the same
    mode, owner, masks, watch and prefetch, whatever its own defaults are, provided
    the directory is still there. *)
Theorem remembered_share_comes_back me Stat0 now0 disk0 w now s m' Stat' now' attrs' watch prefetch :
  jsonText me.1 = me.1 → jsonText me.2 = me.2 →
  rtc (store_step me) (opened (newShareStore ToLower Sum256 goos Stat0 now0 me disk0) disk0) w → keepable s →
  m' = (remember now s (w_records w)).1 → now' - now ≤ shareUnused - Hour → Stat' (sh_LocalPath s) = StatDir →
  let restarted := newShareStore ToLower Sum256 goos Stat' now' me (Some (writeShares (fileOf me m'))) in
  ∃ s' r', LookupOrRestore ToLower Sum256 goos Stat' attrs' (restoreShare ToLower Sum256 goos Stat' now' watch prefetch restarted) (sh_ExportPath s) ∅ = (Some (s', "/"%string), r') ∧
    sh_ExportPath s' = sh_ExportPath s ∧ sh_LocalPath s' = sh_LocalPath s ∧ sh_Mode s' = sh_Mode s ∧ sh_words s' = sh_words s.
Proof using Sum256_len.
  intros Hj1 Hj2 [_ Hok]%reachable_inv Hk -> Hnow Hst. cbv zeta. specialize (Hok (newShareStore_ok _ _ _ _)).
  destruct (remember_record now s _ Hok) as (t & Ht & Hage). assert (now' - t ≤ shareUnused) as Hage' by lia.
  apply (restored_share Stat' now' attrs' watch prefetch _ t s); [done..|]. unfold newShareStore, readBound. cbn [writeShares sf_bound fileOf bindRecord br_Version br_Machine br_User].
  rewrite Hj1, Hj2, Z.eqb_refl, !bool_decide_eq_true_2 by done. cbn [andb].
  assert (records_ok (remember now s (w_records w)).1) as Hok' by (apply remember_ok; [done|by apply export_form]).
  pose proof (saved_record me _ _ _ Ht) as Hin. rewrite (proj1 (written_back t s Hk)) in Hin. change (sh_ExportPath s) with (sr_Export (recordFor t s)).
  apply loaded_lookup; [by apply (NoDup_exports me)|done|by apply usable_recorded].
Qed.

(** An edited file cannot make an export lead elsewhere: whatever the file says, what
    is answered for an export is a directory that is there, under the mode and words
    the export was derived from. *)
Theorem edited_record_leads_nowhere_else me Stat0 now0 disk0 w Stat now export p md wd :
  rtc (store_step me) (opened (newShareStore ToLower Sum256 goos Stat0 now0 me disk0) disk0) w →
  restore ToLower Sum256 goos Stat now export (w_records w) = Some (p, md, wd) →
  export = RecordedExport ToLower Sum256 goos p md wd ∧ Stat p = StatDir ∧ p ≠ ""%string.
Proof using Sum256_len.
  intros [_ Hok]%reachable_inv. specialize (Hok (newShareStore_ok _ _ _ _)). unfold restore. destruct (w_records w !! export) as [r|] eqn:E; [|done].
  destruct (usable _ _ _ _ _ r) eqn:Hu; [|done]. intros [= <- <- <-]. destruct (Hok _ _ E) as [<- _]. unfold usable in Hu.
  destruct (bool_decide (sr_Export r = "") || _) eqn:E0; [done|]. apply orb_false_iff in E0 as [_ E0%bool_decide_eq_false].
  destruct (bool_decide (sr_Export r = RecordedExport _ _ _ _ _ _)) eqn:E1; [|done]. apply bool_decide_eq_true in E1. destruct (_ && _); [done|]. by destruct (Stat (sr_Path r)).
Qed.

End restoring.
