(* ===== verification/KeyFiles.v ===== *)
(** * Account names and key files (core/workspace/account.go,
    core-agent/accounts: unixname.go, keyfile_write.go, accounts.go)

    What an account may be called and which unix user it is; the text of a key
    file, line by line, and its changes.  A keys directory is the text of each file
    in it.  [strings.ToLower], [ssh.ParseAuthorizedKey], [ssh.MarshalAuthorizedKey]
    and [ssh.FingerprintSHA256] are arguments. *)

From Stdlib Require Import Ascii.
From S2P Require Import Prelude GoStrings Records Names Mounts.
Open Scope Z_scope.

(** ** core/workspace/account.go *)

Definition MaxAccountNameLength : nat := 30.

Definition nameRune (n : Z) : bool :=
  ((97 <=? n) && (n <=? 122)) || ((48 <=? n) && (n <=? 57)) || (n =? 95) || (n =? 45).

(** The loop over the runes; each is one byte or more. *)
Fixpoint sanitize (fuel : nat) (s : string) : string :=
  match fuel, s with
  | S fuel', String _ _ =>
      let '(rune, size) := DecodeRune s in
      String (if nameRune rune then ascii_of_nat (Z.to_nat rune) else "-") (sanitize fuel' (dropBytes size s))
  | _, _ => ""
  end.

Definition noNameStart (a : ascii) : bool := bool_decide (is_Some (digit a)) || Ascii.eqb a "-".

Definition AccountName (ToLower : string → string) (base : string) : option string :=
  let lower := ToLower base in
  let name := strings.TrimLeftFunc noNameStart (sanitize (strlen lower) lower) in
  if bool_decide (name = "") then None
  else Some (if (MaxAccountNameLength <? strlen name)%nat then firstBytes MaxAccountNameLength name else name).

(** ** core-agent/accounts/unixname.go *)

Definition DefaultPrefix : string := "rd-".

Definition unixName (prefix account : string) : string :=
  let room := (Z.of_nat MaxAccountNameLength - Z.of_nat (strlen prefix))%Z in
  if room <? 1 then account
  else prefix +:+ (if room <? Z.of_nat (strlen account) then firstBytes (Z.to_nat room) account else account).

Inductive action := createAccount | adoptAccount | refuseAccount.

Definition claim (account prefix holder : string) : action :=
  if bool_decide (holder = "") then createAccount
  else if bool_decide (holder = account ∨ holder = unixName prefix account) then adoptAccount
  else refuseAccount.

(** [removal]: the unix user to remove, none, or a refusal. *)
Definition removal (account prefix holder : string) : option string :=
  match claim account prefix holder with
  | createAccount => Some ""
  | adoptAccount => Some holder
  | refuseAccount => None
  end.

(** ** core-agent/accounts: the text of a key file *)

Definition bom8 : string := strings.utf8 [239; 187; 191]%nat.
Definition bom16le : string := strings.utf8 [255; 254]%nat.
Definition bom16be : string := strings.utf8 [254; 255]%nat.

(** [stripBOM]: [None] for UTF-16. *)
Definition stripBOM (data : string) : option string :=
  match strings.CutPrefix data bom8 with
  | Some after => Some after
  | None => if strings.HasPrefix data bom16le || strings.HasPrefix data bom16be then None else Some data
  end.

(** [readLines], of a file that is there. *)
Definition readLines (data : string) : option (list string) :=
  match stripBOM data with
  | None => None
  | Some data => Some (if bool_decide (data = "") then []
                       else strings.Split (strings.TrimSuffix data (String newline "")) newline)
  end.

(** [strings.Fields]. *)
Fixpoint fieldsGo (fuel : nat) (cur s : string) : list string :=
  let done := if bool_decide (cur = "") then [] else [cur] in
  match fuel with
  | O => done
  | S fuel' =>
      match s with
      | EmptyString => done
      | String a s' => match strings.cut_any strings.spaces s with
                       | Some r => done ++ fieldsGo fuel' "" r
                       | None => fieldsGo fuel' (cur +:+ String a "") s'
                       end
      end
  end.
Definition Fields (s : string) : list string := fieldsGo (S (strlen s)) "" s.

(** A line of a key file: blank or a comment, something else, or a key with its
    comment. *)
Inductive keyLine (key : Type) := BlankLine | NotKey | IsKey (k : key) (comment : string).
Arguments BlankLine {key}.
Arguments NotKey {key}.
Arguments IsKey {key} k comment.

Section keys.
Context {key : Type} (ParseAuthorizedKey : string → option (key * string)) (MarshalAuthorizedKey : key → string) (Fingerprint : key → string).

Definition parseKeyLine (raw : string) : keyLine key :=
  let line := strings.TrimSpace raw in
  let parsed := match ParseAuthorizedKey line with Some (k, comment) => IsKey k comment | None => NotKey end in
  match line with
  | EmptyString => BlankLine
  | String a _ => if Ascii.eqb a "#" then BlankLine else parsed
  end.

(** The key of a line, if it is one. *)
Definition lineKey (raw : string) : option key :=
  match parseKeyLine raw with IsKey k _ => Some k | _ => None end.

(** [parseKeys]: the keys and their comments, in order, and how many lines were
    neither; a line the scanner's buffer cannot hold is an error, as is a file
    with no key. *)
Definition MaxScanTokenSize : Z := 65536.

Definition parseStep (acc : list key * list string * nat) (raw : string) : list key * list string * nat :=
  let '(keys, comments, skipped) := acc in
  match parseKeyLine raw with
  | BlankLine => acc
  | NotKey => (keys, comments, S skipped)
  | IsKey k c => (keys ++ [k], comments ++ [c], skipped)
  end.

Definition parseKeys (data : string) : option (list key * list string * nat) :=
  match stripBOM data with
  | None => None
  | Some data =>
      let lines := strings.Split data newline in
      if existsb (λ l, MaxScanTokenSize <=? Z.of_nat (strlen l)) lines then None
      else
        let '(keys, comments, skipped) := foldl parseStep ([], [], 0%nat) lines in
        match keys with [] => None | _ => Some (keys, comments, skipped) end
  end.

Definition holds (fp : string) (line : string) : bool :=
  match lineKey line with Some k => bool_decide (Fingerprint k = fp) | None => false end.

Definition withoutKey (lines : list string) (fp : string) : list string * bool :=
  (filter (λ l, holds fp l = false) lines, existsb (holds fp) lines).

Definition keyLineFor (k : key) (comment : string) : string :=
  let line := strings.TrimSpace (MarshalAuthorizedKey k) in
  let comment := strings.Join (Fields comment) " " in
  if bool_decide (comment = "") then line else line +:+ " " +:+ comment.

(** [readLines] of a path of a directory: a file that is missing has none. *)
Definition fileLines (d : gmap string string) (file : string) : option (list string) :=
  match d !! file with Some text => readLines text | None => Some [] end.

(** [writeKeyFile]: replaced, or deleted when no key is left. *)
Definition writeKeyFile (file : string) (lines : list string) (d : gmap string string) : gmap string string :=
  if existsb (λ l, bool_decide (is_Some (lineKey l))) lines then <[file := WriteRecord lines]> d else delete file d.

(** [removeKeyLine]: [None] where the file cannot be read. *)
Definition removeKeyLine (file fp : string) (d : gmap string string) : option (bool * gmap string string) :=
  match fileLines d file with
  | None => None
  | Some lines =>
      let '(kept, found) := withoutKey lines fp in
      Some (if found then (true, writeKeyFile file kept d) else (false, d))
  end.

End keys.
