(* ===== verification/Accounts.v ===== *)
(** * The accounts of a workspace (core-agent/accounts: accounts.go,
    keyfile_write.go)

    The store reads every keys directory, gives each account a uid that is
    remembered in the uidmap, has its unix user created in the background, and
    publishes it; the agent's own writes go to the one enrolled directory.

    The state is the contents of the directories (file names to texts), the text of
    the uidmap, and the store's fields.  One definition per hold of [syncMu]: [swap]
    (which is a whole sync; subscribers are told afterwards), [ensured] and
    [provisionEnd] (the two halves of what a provisioning goroutine does when
    [Ensure] returns), [releaseName], [Known]; and one per change of the enrolled
    file, made under its lock file.  Whether the uidmap can be read and written is
    an argument. *)

From Stdlib Require Import Ascii.
From S2P Require Import Prelude GoStrings Records Names Mounts KeyFiles.
Open Scope Z_scope.

Abbreviation directory := (gmap string string) (only parsing).

(** What one call finds of the state directory. *)
Record stateEnv := {
  se_readable : bool;
  se_writable : bool
}.

Inductive accountError :=
| BadName
| NoEnrolledDir
| DirUnreadable
| UidmapUnreadable
| UidmapUnwritable
| FileUnreadable
| AccountExists
| OperatorKeyError
| NotReread (e : accountError).

(** [KeySource] and [Account]. *)
Record KeySource (key : Type) := {
  so_Dir : string;
  so_Keys : list key;
  so_Comments : list string
}.
Arguments so_Dir {key}.
Arguments so_Keys {key}.
Arguments so_Comments {key}.

Record Account (key : Type) := {
  ac_Name : string;
  ac_UID : Z;
  ac_GID : Z;
  ac_Home : string;
  ac_Keys : list key;
  ac_Sources : list (KeySource key);
  ac_Unix : string
}.
Arguments ac_Name {key}.
Arguments ac_UID {key}.
Arguments ac_GID {key}.
Arguments ac_Home {key}.
Arguments ac_Keys {key}.
Arguments ac_Sources {key}.
Arguments ac_Unix {key}.

(** [Store], with what is on disk. *)
Record Store (key : Type) := {
  st_KeysDirs : list string;
  st_EnrolledDir : string;
  st_UIDBase : Z;
  st_disk : gmap string directory;
  st_uidmap : option string;
  st_provisioned : gmap string (string * string);
  st_provisioning : gset string;
  st_accounts : gmap string (Account key);
  st_unusable : gset (string * string)
}.
Arguments st_KeysDirs {key}.
Arguments st_EnrolledDir {key}.
Arguments st_UIDBase {key}.
Arguments st_disk {key}.
Arguments st_uidmap {key}.
Arguments st_provisioned {key}.
Arguments st_provisioning {key}.
Arguments st_accounts {key}.
Arguments st_unusable {key}.

(** ** The uidmap *)

(** [loadUIDs]'s parser. *)
Definition parseUID (line : string) : option (string * Z) :=
  match strings.Cut line ":" with
  | None => None
  | Some (name, value) =>
      match Atoi (strings.TrimSpace value) with
      | Some uid => Some (strings.TrimSpace name, uid)
      | None => None
      end
  end.

(** The record; the last line for a name wins. *)
Definition parseUIDs (text : option string) : gmap string Z :=
  match text with
  | None => ∅
  | Some t => list_to_map (reverse (omap parseUID (ReadRecord t)))
  end.

Definition uidLine (kv : string * Z) : string := kv.1 +:+ ":" +:+ Itoa kv.2.

Definition lineOfUID (uids : gmap string Z) (name : string) : string := uidLine (name, default 0 (uids !! name)).

(** [nextUID], in an [int]. *)
Definition nextUID (uids : gmap string Z) (base : Z) : Z :=
  wrap64 (foldr Z.max (wrap64 (base - 1)) (map_to_list uids).*2 + 1).

Definition releasedUIDs : string := "-released".

Section accounts.
Context {key : Type} (ToLower : string → string) (ParseAuthorizedKey : string → option (key * string))
        (MarshalAuthorizedKey : key → string) (Fingerprint : key → string).

Abbreviation Account := (Account key).
Abbreviation KeySource := (KeySource key).
Abbreviation Store := (Store key).

Definition with_disk (d : gmap string directory) (s : Store) : Store :=
  {| st_KeysDirs := st_KeysDirs s; st_EnrolledDir := st_EnrolledDir s; st_UIDBase := st_UIDBase s; st_disk := d; st_uidmap := st_uidmap s;
     st_provisioned := st_provisioned s; st_provisioning := st_provisioning s; st_accounts := st_accounts s; st_unusable := st_unusable s |}.

Definition with_uidmap (t : option string) (s : Store) : Store :=
  {| st_KeysDirs := st_KeysDirs s; st_EnrolledDir := st_EnrolledDir s; st_UIDBase := st_UIDBase s; st_disk := st_disk s; st_uidmap := t;
     st_provisioned := st_provisioned s; st_provisioning := st_provisioning s; st_accounts := st_accounts s; st_unusable := st_unusable s |}.

Definition with_provisioned (m : gmap string (string * string)) (s : Store) : Store :=
  {| st_KeysDirs := st_KeysDirs s; st_EnrolledDir := st_EnrolledDir s; st_UIDBase := st_UIDBase s; st_disk := st_disk s; st_uidmap := st_uidmap s;
     st_provisioned := m; st_provisioning := st_provisioning s; st_accounts := st_accounts s; st_unusable := st_unusable s |}.

Definition with_provisioning (p : gset string) (s : Store) : Store :=
  {| st_KeysDirs := st_KeysDirs s; st_EnrolledDir := st_EnrolledDir s; st_UIDBase := st_UIDBase s; st_disk := st_disk s; st_uidmap := st_uidmap s;
     st_provisioned := st_provisioned s; st_provisioning := p; st_accounts := st_accounts s; st_unusable := st_unusable s |}.

Definition with_accounts (m : gmap string Account) (u : gset (string * string)) (s : Store) : Store :=
  {| st_KeysDirs := st_KeysDirs s; st_EnrolledDir := st_EnrolledDir s; st_UIDBase := st_UIDBase s; st_disk := st_disk s; st_uidmap := st_uidmap s;
     st_provisioned := st_provisioned s; st_provisioning := st_provisioning s; st_accounts := m; st_unusable := u |}.

(** [New], in a process that has just started on what is on disk. *)
Definition New (s : Store) : Store :=
  with_accounts ∅ ∅ (with_provisioning ∅ (with_provisioned ∅ s)).

Definition dirs (s : Store) : list string :=
  if bool_decide (st_EnrolledDir s = "") then st_KeysDirs s else st_KeysDirs s ++ [st_EnrolledDir s].

Definition loadUIDs (env : stateEnv) (s : Store) : res accountError (gmap string Z) :=
  if se_readable env then Ok (parseUIDs (st_uidmap s)) else Err UidmapUnreadable.

Definition saveUIDs (env : stateEnv) (uids : gmap string Z) (s : Store) : res accountError Store :=
  if se_writable env then Ok (with_uidmap (Some (WriteRecord (lineOfUID uids <$> sort_strings (elements (dom uids))))) s)
  else Err UidmapUnwritable.

(** ** Key files of a directory *)

Definition pub : string := ".pub".

Definition isKeyFile (name : string) : bool := negb (strings.HasPrefix name ".") && strings.HasSuffix name pub.

Definition isExact (name : string) : bool :=
  let base := strings.TrimSuffix name pub in
  bool_decide (AccountName ToLower base = Some base).

(** The files in the order they claim their accounts. *)
Definition claimOrder (d : directory) : list string :=
  let names := filter (λ n, isKeyFile n = true) (elements (dom d)) in
  sort_strings (filter (λ n, isExact n = true) names) ++ sort_strings (filter (λ n, isExact n = false) names).

Definition claimStep (acc : list (string * string) * gmap string string) (file : string) : list (string * string) * gmap string string :=
  let '(out, claimed) := acc in
  match AccountName ToLower (strings.TrimSuffix file pub) with
  | None => acc
  | Some name => match claimed !! name with
                 | Some _ => acc
                 | None => (out ++ [(file, name)], <[name := file]> claimed)
                 end
  end.

Definition keyFiles (s : Store) (dir : string) : res accountError (list (string * string)) :=
  match st_disk s !! dir with
  | None => if bool_decide (dir = st_EnrolledDir s) then Ok [] else Err DirUnreadable
  | Some d => Ok (fst (foldl claimStep ([], ∅) (claimOrder d)))
  end.

(** ** A sync *)

Definition Account_source (a : option Account) (dir : string) : KeySource :=
  let none := {| so_Dir := ""; so_Keys := []; so_Comments := [] |} in
  match a with
  | None => none
  | Some a => default none (List.find (λ src, bool_decide (so_Dir src = dir)) (ac_Sources a))
  end.

Definition Authorized (a : Account) (k : key) : bool :=
  existsb (λ k', bool_decide (Fingerprint k' = Fingerprint k)) (ac_Keys a).

Definition newAccount (name : string) : Account :=
  {| ac_Name := name; ac_UID := 0; ac_GID := 0; ac_Home := ""; ac_Keys := []; ac_Sources := []; ac_Unix := "" |}.

Definition add_source (src : KeySource) (a : Account) : Account :=
  {| ac_Name := ac_Name a; ac_UID := ac_UID a; ac_GID := ac_GID a; ac_Home := ac_Home a; ac_Keys := ac_Keys a;
     ac_Sources := ac_Sources a ++ [src]; ac_Unix := ac_Unix a |}.

Definition with_keys (keys : list key) (a : Account) : Account :=
  {| ac_Name := ac_Name a; ac_UID := ac_UID a; ac_GID := ac_GID a; ac_Home := ac_Home a; ac_Keys := keys;
     ac_Sources := ac_Sources a; ac_Unix := ac_Unix a |}.

Definition with_uid (uid : Z) (a : Account) : Account :=
  {| ac_Name := ac_Name a; ac_UID := uid; ac_GID := uid; ac_Home := ac_Home a; ac_Keys := ac_Keys a;
     ac_Sources := ac_Sources a; ac_Unix := ac_Unix a |}.

Definition with_unix (p : string * string) (a : Account) : Account :=
  {| ac_Name := ac_Name a; ac_UID := ac_UID a; ac_GID := ac_GID a; ac_Home := p.2; ac_Keys := ac_Keys a;
     ac_Sources := ac_Sources a; ac_Unix := p.1 |}.

Definition revoked (a : Account) : Account :=
  {| ac_Name := ac_Name a; ac_UID := ac_UID a; ac_GID := ac_GID a; ac_Home := ac_Home a; ac_Keys := [];
     ac_Sources := []; ac_Unix := ac_Unix a |}.

(** What one file contributes, and whether it is unusable. *)
Definition contribution (s : Store) (dir account text : string) : option KeySource * bool :=
  match parseKeys ParseAuthorizedKey text with
  | Some (keys, comments, _) => (Some {| so_Dir := dir; so_Keys := keys; so_Comments := comments |}, false)
  | None =>
      if bool_decide ((dir, account) ∈ st_unusable s) then (None, true)
      else
        let src := Account_source (st_accounts s !! account) dir in
        (match so_Keys src with [] => None | _ => Some src end, true)
  end.

(** [swap]'s loop over the files of a directory, and over the directories. *)
Abbreviation readings := (gmap string Account * gset (string * string))%type (only parsing).

Definition readFile (s : Store) (dir : string) (d : directory) (acc : readings) (f : string * string) : readings :=
  let '(found, unusable) := acc in
  let '(src, bad) := contribution s dir f.2 (default "" (d !! f.1)) in
  let unusable := if bad then {[(dir, f.2)]} ∪ unusable else unusable in
  (match src with
   | None => found
   | Some src => <[f.2 := add_source src (default (newAccount f.2) (found !! f.2))]> found
   end, unusable).

Definition readDir (s : Store) (acc : readings) (dir : string) : res accountError readings :=
  match keyFiles s dir with
  | Err e => Err e
  | Ok files => Ok (foldl (readFile s dir (default ∅ (st_disk s !! dir))) acc files)
  end.

(** The union of the sources' keys, one per fingerprint. *)
Definition dedupStep (acc : list key * gset string) (k : key) : list key * gset string :=
  let '(keys, seen) := acc in
  if bool_decide (Fingerprint k ∈ seen) then acc else (keys ++ [k], {[Fingerprint k]} ∪ seen).

Definition dedup (keys : list key) : list key := fst (foldl dedupStep ([], ∅) keys).

Definition gatherKeys (a : Account) : Account := with_keys (dedup (mjoin (so_Keys <$> ac_Sources a))) a.

(** [reconcile]'s first part: the uids, in sorted order. *)
Definition uidStep (base : Z) (acc : gmap string Z * bool) (name : string) : gmap string Z * bool :=
  let '(uids, changed) := acc in
  match uids !! name with
  | Some _ => acc
  | None => (<[name := nextUID uids base]> uids, true)
  end.

(** Its third: the accounts to publish. *)
Definition publishStep (found : gmap string Account) (provisioned : gmap string (string * string)) (next : gmap string Account) (name : string)
  : gmap string Account :=
  match provisioned !! name, found !! name with
  | Some p, Some a => <[name := with_unix p a]> next
  | _, _ => next
  end.

Definition revokeUnless (found : gmap string Account) (name : string) (a : Account) : option Account :=
  Some (if bool_decide (is_Some (found !! name)) then a
        else match ac_Keys a with [] => a | _ => revoked a end).

(** What [provision] starts: the accounts not provisioned nor being so. *)
Definition unprovisioned (s : Store) (names : list string) : list string :=
  filter (λ n, st_provisioned s !! n = None ∧ n ∉ st_provisioning s) names.

Definition reconcile (env : stateEnv) (found : gmap string Account) (unusable : gset (string * string)) (uids : gmap string Z) (s : Store)
  : res accountError (list string) * Store :=
  let names := sort_strings (elements (dom found)) in
  let '(uids', changed) := foldl (uidStep (st_UIDBase s)) (uids, false) names in
  let found := map_imap (λ name a, Some (with_uid (default 0 (uids' !! name)) a)) found in
  match (if changed then saveUIDs env uids' s else Ok s) with
  | Err e => (Err e, s)
  | Ok s1 =>
      let todo := unprovisioned s1 names in
      let s2 := with_provisioning (list_to_set todo ∪ st_provisioning s1) s1 in
      let next := foldl (publishStep found (st_provisioned s2)) (st_accounts s2) names in
      (Ok todo, with_accounts (map_imap (revokeUnless found) next) unusable s2)
  end.

(** [swap]: the accounts whose provisioning it started. *)
Definition swap (env : stateEnv) (s : Store) : res accountError (list string) * Store :=
  match loadUIDs env s with
  | Err e => (Err e, s)
  | Ok uids =>
      match foldRes (readDir s) (∅, ∅) (dirs s) with
      | Err e => (Err e, s)
      | Ok (found, unusable) => reconcile env (gatherKeys <$> found) unusable uids s
      end
  end.

(** [provision]'s goroutine: when [Ensure] has succeeded, and when the account's
    turn is over. *)
Definition ensured (name unix home : string) (s : Store) : Store :=
  with_provisioned (<[name := (unix, home)]> (st_provisioned s)) s.

Definition provisionEnd (name : string) (s : Store) : Store :=
  with_provisioning (st_provisioning s ∖ {[name]}) s.

(** ** Names that are taken *)

Definition fileFor (s : Store) (dir name : string) : res accountError (option string) :=
  match keyFiles s dir with
  | Err e => Err e
  | Ok files => Ok (fst <$> List.find (λ f, bool_decide (f.2 = name)) files)
  end.

(** The loop over the directories, that stops at the first file or error. *)
Fixpoint anyFile (s : Store) (name : string) (ds : list string) : res accountError bool :=
  match ds with
  | [] => Ok false
  | dir :: ds' =>
      match fileFor s dir name with
      | Err e => Err e
      | Ok (Some _) => Ok true
      | Ok None => anyFile s name ds'
      end
  end.

(** [Known], of a name already derived. *)
Definition Known (env : stateEnv) (s : Store) (name : string) : res accountError bool :=
  match loadUIDs env s with
  | Err e => Err e
  | Ok uids => match uids !! name with Some _ => Ok true | None => anyFile s name (dirs s) end
  end.

Definition releaseName (env : stateEnv) (name : string) (s : Store) : Store :=
  if bool_decide (is_Some (st_provisioned s !! name) ∨ is_Some (st_accounts s !! name) ∨ name ∈ st_provisioning s) then s
  else match anyFile s name (dirs s) with
       | Err _ | Ok true => s
       | Ok false =>
           match loadUIDs env s with
           | Err _ => s
           | Ok uids =>
               match uids !! name with
               | None => s
               | Some uid =>
                   let uids := delete name uids in
                   match saveUIDs env (<[releasedUIDs := Z.max (default 0 (uids !! releasedUIDs)) uid]> uids) s with
                   | Err _ => s
                   | Ok s' => s'
                   end
               end
           end
       end.

(** ** Changes of the enrolled directory *)

Definition operatorFiles (s : Store) (name : string) : res accountError (list (string * string)) :=
  foldRes (λ out dir, match fileFor s dir name with
                      | Err e => Err e
                      | Ok None => Ok out
                      | Ok (Some file) => Ok (out ++ [(dir, file)])
                      end) [] (st_KeysDirs s).

(** The enrolled directory, written. *)
Definition put_enrolled (d : directory) (s : Store) : Store := with_disk (<[st_EnrolledDir s := d]> (st_disk s)) s.

(** [edit]: the change under the file's lock, which needs the directory to be
    there, and a sync; [change] is given the account's file, the directory and the
    store. *)
Definition edit {A} (env : stateEnv) (name : string) (change : string → directory → Store → res accountError (A * Store)) (s : Store)
  : res accountError A * Store :=
  if bool_decide (st_EnrolledDir s = "") then (Err NoEnrolledDir, s)
  else match st_disk s !! st_EnrolledDir s with
       | None => (Err DirUnreadable, s)
       | Some d =>
           match change (name +:+ pub) d s with
           | Err e => (Err e, s)
           | Ok (a, s1) =>
               match swap env s1 with
               | (Err e, s2) => (Err (NotReread e), s2)
               | (Ok _, s2) => (Ok a, s2)
               end
           end
       end.

(** [AppendKey] before the wait for the account: whether the key was added. *)
Definition appendChange (k : key) (comment file : string) (d : directory) (s : Store) : res accountError (bool * Store) :=
  match fileLines d file with
  | None => Err FileUnreadable
  | Some lines =>
      if snd (withoutKey ParseAuthorizedKey Fingerprint lines (Fingerprint k)) then Ok (false, s)
      else Ok (true, put_enrolled (writeKeyFile ParseAuthorizedKey file (lines ++ [keyLineFor MarshalAuthorizedKey k comment]) d) s)
  end.

Definition AppendKey (env : stateEnv) (account : string) (k : key) (comment : string) (s : Store) : res accountError bool * Store :=
  match AccountName ToLower account with
  | None => (Err BadName, s)
  | Some name => edit env name (appendChange k comment) s
  end.

(** [CreateAccount] before the wait. *)
Definition createChange (env : stateEnv) (name : string) (k : key) (comment file : string) (d : directory) (s : Store) : res accountError (unit * Store) :=
  match Known env s name with
  | Err e => Err e
  | Ok true => Err AccountExists
  | Ok false =>
      match d !! file with
      | Some _ => Err AccountExists
      | None => Ok (tt, put_enrolled (<[file := keyLineFor MarshalAuthorizedKey k comment +:+ String newline ""]> d) s)
      end
  end.

Definition CreateAccount (env : stateEnv) (account : string) (k : key) (comment : string) (s : Store) : res accountError unit * Store :=
  match AccountName ToLower account with
  | None => (Err BadName, s)
  | Some name => edit env name (createChange env name k comment) s
  end.

(** [RemoveKey]: an operator's file that cannot be read protects nothing. *)
Definition operatorHolds (s : Store) (fp : string) (f : string * string) : bool :=
  match fileLines (default ∅ (st_disk s !! f.1)) f.2 with
  | Some lines => snd (withoutKey ParseAuthorizedKey Fingerprint lines fp)
  | None => false
  end.

Definition removeChange (fp file : string) (d : directory) (s : Store) : res accountError (bool * Store) :=
  match removeKeyLine ParseAuthorizedKey Fingerprint file fp d with
  | Some (removed, d') => Ok (removed, put_enrolled d' s)
  | None => Err FileUnreadable
  end.

Definition RemoveKey (env : stateEnv) (account fp : string) (s : Store) : res accountError bool * Store :=
  match AccountName ToLower account with
  | None => (Err BadName, s)
  | Some name =>
      match operatorFiles s name with
      | Err e => (Err e, s)
      | Ok files =>
          if existsb (operatorHolds s fp) files then (Err OperatorKeyError, s)
          else edit env name (removeChange fp) s
      end
  end.

Definition RemoveAccountFile (env : stateEnv) (account : string) (s : Store) : res accountError unit * Store :=
  match AccountName ToLower account with
  | None => (Err BadName, s)
  | Some name =>
      match operatorFiles s name with
      | Err e => (Err e, s)
      | Ok (_ :: _) => (Err OperatorKeyError, s)
      | Ok [] => edit env name (λ file d s, Ok (tt, put_enrolled (delete file d) s)) s
      end
  end.

(** [awaitProvisioning], by whether its wait ran out: what it reports. *)
Inductive awaitError := ErrProvisioning | ErrNotProvisioned.

Definition awaitProvisioning (timedOut : bool) (name : string) (s : Store) : option awaitError :=
  if timedOut && bool_decide (name ∈ st_provisioning s) then Some ErrProvisioning
  else match st_provisioned s !! name with Some _ => None | None => Some ErrNotProvisioned end.

(** [awaitOrWithdraw]'s change, where the account was never created. *)
Definition withdrawChange (env : stateEnv) (name fp : string) (release : bool) (file : string) (d : directory) (s : Store) : res accountError (unit * Store) :=
  match removeChange fp file d s with
  | Err e => Err e
  | Ok (_, s1) => Ok (tt, if release then releaseName env name s1 else s1)
  end.

Definition awaitOrWithdraw (env : stateEnv) (timedOut : bool) (name fp : string) (release : bool) (s : Store)
  : option awaitError * res accountError unit * Store :=
  match awaitProvisioning timedOut name s with
  | Some ErrNotProvisioned =>
      let '(undo, s') := edit env name (withdrawChange env name fp release) s in (Some ErrNotProvisioned, undo, s')
  | other => (other, Ok tt, s)
  end.

End accounts.
