(* ===== verification/KeyFilesProofs.v ===== *)
(** * Properties of account names and key files (core/workspace/account.go,
    core-agent/accounts) *)

From Stdlib Require Import Ascii.
From S2P Require Import Prelude GoStrings Records Names Mounts KeyFiles.
Open Scope Z_scope.

(** ** Account names *)

(** A byte of an account name. *)
Definition accountByte (a : ascii) : bool := nameRune (Z.of_nat (nat_of_ascii a)).

Lemma sanitize_bytes fuel s : everyByte accountByte (sanitize fuel s) = true.
Proof.
  revert s. induction fuel as [|fuel IH]; intros [|a s]; try done. cbn [sanitize]. destruct (DecodeRune (String a s)) as [rune size]. cbn [everyByte].
  rewrite IH, andb_true_r. destruct (nameRune rune) eqn:E; [|done]. unfold accountByte.
  assert (45 ≤ rune ≤ 122) as Hr by (unfold nameRune in E; rewrite !orb_true_iff, !andb_true_iff, !Z.leb_le, !Z.eqb_eq in E; lia).
  rewrite nat_ascii_embedding by lia. by rewrite Z2Nat.id by lia.
Qed.

Lemma everyByte_TrimLeftFunc f g s : everyByte f s = true → everyByte f (strings.TrimLeftFunc g s) = true.
Proof. induction s as [|a s IH]; cbn; [done|]. intros [Ha Hs]%andb_true_iff. destruct (g a); [auto|]. cbn. by rewrite Ha, Hs. Qed.

Lemma TrimLeftFunc_start f s : match strings.TrimLeftFunc f s with EmptyString => True | String a _ => f a = false end.
Proof. induction s as [|a s IH]; cbn; [done|]. destruct (f a) eqn:E; [done|]. done. Qed.

Lemma firstBytes_start n s : (0 < n)%nat → match s with EmptyString => firstBytes n s = ""%string | String a s' => firstBytes n s = String a (firstBytes (n - 1) s') end.
Proof. destruct n as [|n]; [lia|]. destruct s; [done|]. cbn. by rewrite Nat.sub_0_r. Qed.

Lemma strlen_firstBytes_min n s : strlen (firstBytes n s) = Nat.min n (strlen s).
Proof. revert s. induction n as [|n IH]; intros [|a s]; cbn; [done..|]. by rewrite IH. Qed.

(** A name an account may have: short, of the few bytes, and starting with a letter
    or an underscore. *)
Definition goodName (name : string) : Prop :=
  (1 ≤ strlen name ≤ MaxAccountNameLength)%nat ∧ everyByte accountByte name = true ∧
  match name with EmptyString => False | String a _ => noNameStart a = false end.

Lemma DecodeRune_ascii a s : accountByte a = true → DecodeRune (String a s) = (Z.of_nat (nat_of_ascii a), 1%nat).
Proof.
  intros H. unfold DecodeRune. cbn [String.get]. set (n := Z.of_nat (nat_of_ascii a)) in *.
  assert (45 ≤ n ≤ 122) as Hn by (unfold accountByte, nameRune in H; fold n in H; rewrite !orb_true_iff, !andb_true_iff, !Z.leb_le, !Z.eqb_eq in H; lia).
  rewrite (proj2 (Z.ltb_ge n 0)), (proj2 (Z.ltb_lt n 128)) by lia. done.
Qed.

Lemma sanitize_id s : everyByte accountByte s = true → sanitize (strlen s) s = s.
Proof.
  induction s as [|a s IH]; [done|]. cbn [everyByte]. intros [Ha Hs]%andb_true_iff. change (strlen (String a s)) with (S (strlen s)). cbn [sanitize].
  rewrite (DecodeRune_ascii a s Ha). unfold accountByte in Ha. rewrite Ha. cbn [dropBytes]. rewrite Nat2Z.id, ascii_nat_embedding. by rewrite IH.
Qed.

Lemma AccountName_good ToLower base name : AccountName ToLower base = Some name → goodName name.
Proof.
  unfold AccountName. set (t := strings.TrimLeftFunc noNameStart _). case_bool_decide as Hne; [done|]. intros H. apply (inj Some) in H. subst name.
  assert (everyByte accountByte t = true) as Hb by (apply everyByte_TrimLeftFunc, sanitize_bytes).
  pose proof (TrimLeftFunc_start noNameStart (sanitize (strlen (ToLower base)) (ToLower base))) as Hst. fold t in Hst.
  destruct t as [|a t']; [done|]. destruct (Nat.ltb_spec MaxAccountNameLength (strlen (String a t'))) as [H|H]; split_and!.
  - rewrite strlen_firstBytes_min. unfold MaxAccountNameLength in *. lia.
  - rewrite strlen_firstBytes_min. lia.
  - by apply everyByte_firstBytes.
  - by rewrite (firstBytes_start MaxAccountNameLength (String a t')) by (unfold MaxAccountNameLength; lia).
  - cbn. lia.
  - done.
  - done.
  - done.
Qed.

Section names.
Context (ToLower : string → string).
(** [strings.ToLower] leaves text alone that is lower case already. *)
Context (ToLower_lower : ∀ s, everyByte accountByte s = true → ToLower s = s).

Lemma AccountName_id n : goodName n → AccountName ToLower n = Some n.
Proof.
  intros ([_ Hl] & Hbn & Hs). unfold AccountName. rewrite ToLower_lower, sanitize_id by done.
  assert (strings.TrimLeftFunc noNameStart n = n) as -> by (destruct n as [|a n']; [done|]; cbn; by rewrite Hs).
  rewrite bool_decide_eq_false_2 by (by destruct n). by rewrite (proj2 (Nat.ltb_ge _ _)).
Qed.

(** A name that is derived is one the workspace can create and derives
    again: 1 to 30 lower-case letters, digits, dashes and underscores that start
    with a letter or an underscore; and deriving a name from it gives it back, so
    the client and the workspace, each deriving from what it has, agree. *)
Theorem account_names_stable base name :
  AccountName ToLower base = Some name → goodName name ∧ AccountName ToLower name = Some name.
Proof. intros H%AccountName_good. auto using AccountName_id. Qed.

End names.

(** The unix user fits as the account's name does, and a stranger's is never taken. *)
Lemma unixName_fits account : (strlen account ≤ MaxAccountNameLength)%nat → (strlen (unixName DefaultPrefix account) ≤ MaxAccountNameLength)%nat.
Proof.
  intros H. unfold unixName. change (Z.of_nat MaxAccountNameLength - Z.of_nat (strlen DefaultPrefix)) with 27. change (27 <? 1) with false. cbv iota.
  rewrite strlen_append. change (strlen DefaultPrefix) with 3%nat.
  destruct (Z.ltb_spec 27 (Z.of_nat (strlen account))); [rewrite strlen_firstBytes_min|]; unfold MaxAccountNameLength in *; lia.
Qed.

(** ** The text of a key file *)

Definition plainByte (a : ascii) : bool := let n := nat_of_ascii a in ((32 <=? n) && (n <=? 126))%nat.

(** A line with no mark at its start that [stripBOM] would act on. *)
Definition unmarked (l : string) : Prop :=
  strings.CutPrefix l bom8 = None ∧ strings.HasPrefix l bom16le = false ∧ strings.HasPrefix l bom16be = false.

Lemma CutPrefix_line l p t :
  strings.CutPrefix l p = None → strings.Contains p newline = false → strings.CutPrefix (l +:+ String newline t) p = None.
Proof.
  revert p. induction l as [|a l IH]; intros [|b p]; try done.
  - intros _. cbn. intros [H _]%orb_false_iff. rewrite H. done.
  - cbn. intros H1 [H2 H3]%orb_false_iff. destruct (Ascii.eqb b a); [|done]. by apply IH.
Qed.

Lemma HasPrefix_line l p t : strings.HasPrefix l p = false → strings.Contains p newline = false → strings.HasPrefix (l +:+ String newline t) p = false.
Proof.
  rewrite !HasPrefix_CutPrefix, !bool_decide_eq_false. intros H Hp [x Hx]. rewrite CutPrefix_line in Hx; [done| |done].
  destruct (strings.CutPrefix l p) eqn:E; [|done]. destruct H. by eexists.
Qed.

Lemma stripBOM_line l t : unmarked l → stripBOM (l +:+ String newline t) = Some (l +:+ String newline t).
Proof.
  intros (H1 & H2 & H3). unfold stripBOM. rewrite CutPrefix_line by done. by rewrite !HasPrefix_line.
Qed.

(** What is written is read back. *)
Lemma readLines_WriteRecord lines :
  Forall (λ l, strings.Contains l newline = false ∧ unmarked l) lines → strings.Join lines (String newline "") ≠ ""%string →
  readLines (WriteRecord lines) = Some lines.
Proof.
  intros Hl Hne. unfold WriteRecord. rewrite bool_decide_eq_false_2 by done. destruct lines as [|l lines]; [done|].
  assert (stripBOM (strings.Join (l :: lines) (String newline "") +:+ String newline "") = Some (strings.Join (l :: lines) (String newline "") +:+ String newline "")) as E.
  { inversion Hl as [|? ? [_ Hu] _]; subst. destruct lines as [|l' lines]; [by apply stripBOM_line|]. rewrite Join_cons by done. rewrite !append_assoc.
    change (String newline "" +:+ ?x) with (String newline x). apply stripBOM_line. done. }
  unfold readLines. rewrite E. rewrite bool_decide_eq_false_2 by (by destruct (strings.Join (l :: lines) _)).
  rewrite TrimSuffix_append. rewrite Split_Join; [done|done|]. eapply Forall_impl; [exact Hl|]. by intros ? [? _].
Qed.

Lemma readLines_no_newline text lines : readLines text = Some lines → Forall (λ l, strings.Contains l newline = false) lines.
Proof.
  unfold readLines. destruct (stripBOM text) as [data|]; [|done]. case_bool_decide; intros [= <-]; [constructor|]. apply Split_no_sep.
Qed.

(** ** Comments stay on their line *)

Lemma cut_any_newline s : strings.cut_any strings.spaces (String newline s) = Some s.
Proof. done. Qed.

Lemma fieldsGo_no_newline fuel cur s :
  strings.Contains cur newline = false → Forall (λ w, strings.Contains w newline = false) (fieldsGo fuel cur s).
Proof.
  revert cur s. induction fuel as [|fuel IH]; intros cur s Hc; cbn [fieldsGo].
  { case_bool_decide; repeat constructor; done. }
  destruct s as [|a s]; [case_bool_decide; repeat constructor; done|].
  destruct (strings.cut_any strings.spaces (String a s)) as [r|] eqn:E.
  - apply Forall_app. split; [case_bool_decide; repeat constructor; done|by apply IH].
  - apply IH. rewrite Contains_append, Hc. cbn. destruct (Ascii.eqb_spec a newline) as [->|]; [|done]. by rewrite cut_any_newline in E.
Qed.

Lemma Join_no_newline ws : Forall (λ w, strings.Contains w newline = false) ws → strings.Contains (strings.Join ws " ") newline = false.
Proof.
  induction 1 as [|w ws Hw _ IH]; [done|]. destruct ws as [|w' ws]; [done|]. rewrite Join_cons by done. by rewrite !Contains_append, Hw, IH.
Qed.

Section store.
Context {key : Type} (ParseAuthorizedKey : string → option (key * string)) (MarshalAuthorizedKey : key → string) (Fingerprint : key → string).

(** A marshalled key is one line of printable ASCII that starts with its type; the
    parser reads it back, whatever comment follows on the line. *)
Context (marshal_plain : ∀ k, everyByte plainByte (strings.TrimSpace (MarshalAuthorizedKey k)) = true).
Context (marshal_start : ∀ k, ∃ a s, strings.TrimSpace (MarshalAuthorizedKey k) = String a s ∧ visible a = true ∧ a ≠ "#"%char).
Context (parse_marshal : ∀ k rest, strings.Contains rest newline = false → rest = ""%string ∨ strings.HasPrefix rest " " = true →
  ∃ comment, ParseAuthorizedKey (strings.TrimSpace (strings.TrimSpace (MarshalAuthorizedKey k) +:+ rest)) = Some (k, comment)).

Abbreviation keyLineFor := (keyLineFor MarshalAuthorizedKey).
Abbreviation lineKey := (lineKey ParseAuthorizedKey).
Abbreviation holds := (holds ParseAuthorizedKey Fingerprint).
Abbreviation writeKeyFile := (writeKeyFile ParseAuthorizedKey).

Lemma keyLineFor_shape k comment :
  ∃ rest, keyLineFor k comment = strings.TrimSpace (MarshalAuthorizedKey k) +:+ rest ∧ strings.Contains rest newline = false ∧
          (rest = ""%string ∨ strings.HasPrefix rest " " = true).
Proof.
  unfold KeyFiles.keyLineFor. case_bool_decide; [exists ""%string; rewrite append_nil_r; auto|].
  exists (" " +:+ strings.Join (Fields comment) " "). split_and!; [done| |by right].
  rewrite Contains_append. change (strings.Contains " " newline) with false. cbn [orb]. apply Join_no_newline. by apply fieldsGo_no_newline.
Qed.

(** A string that starts with a visible byte starts with it when trimmed. *)
Lemma TrimSpace_start a s : visible a = true → ∃ t, strings.TrimSpace (String a s) = String a t.
Proof.
  intros Hv. unfold strings.TrimSpace. rewrite (trim_any_id strings.spaces) by (apply cut_any_visible, visible_no_space; done).
  destruct (trim_any_suffix (strings.rev <$> strings.spaces) (strlen (String a s)) (strings.rev (String a s))) as [pre E].
  set (t := strings.trim_any _ _ _) in *.
  assert (String a s = strings.rev t +:+ strings.rev pre) as E' by (by rewrite <- rev_append, <- E, rev_rev).
  destruct (strings.rev t) as [|b u] eqn:Et; [|injection E' as <- _; eauto]. exfalso.
  assert (strings.Contains t a = true) as Hc.
  { apply trim_any_visible_left; [done| |by rewrite Contains_rev; cbn; rewrite Ascii.eqb_refl].
    apply Forall_fmap, Forall_forall. intros p Hp. simpl. rewrite Contains_rev. revert p Hp. apply Forall_forall.
    revert Hv. clear. destruct a as [[] [] [] [] [] [] [] []]; vm_compute; intros; try done; repeat constructor. }
  rewrite <- Contains_rev, Et in Hc. done.
Qed.

Lemma parse_keyLineFor k comment : ∃ c, parseKeyLine ParseAuthorizedKey (keyLineFor k comment) = IsKey k c.
Proof.
  destruct (keyLineFor_shape k comment) as (rest & -> & Hn & Hr). destruct (parse_marshal k rest Hn Hr) as [c Hp]. exists c.
  destruct (marshal_start k) as (a & s & Ea & Hv & Hh). unfold parseKeyLine. rewrite Ea in *. cbn [String.append] in *.
  destruct (TrimSpace_start a (s +:+ rest) Hv) as [t Et]. rewrite Et in *. rewrite Hp. destruct (Ascii.eqb_spec a "#"); done.
Qed.

Lemma lineKey_keyLineFor k comment : lineKey (keyLineFor k comment) = Some k.
Proof. unfold KeyFiles.lineKey. by destruct (parse_keyLineFor k comment) as [c ->]. Qed.

Lemma plain_unmarked s : (∃ a t, s = String a t ∧ visible a = true) → unmarked s.
Proof. intros (a & t & -> & Hv). destruct a as [[] [] [] [] [] [] [] []]; vm_compute in Hv; try done; repeat split. Qed.

Lemma keyLineFor_line k comment : strings.Contains (keyLineFor k comment) newline = false ∧ unmarked (keyLineFor k comment) ∧ keyLineFor k comment ≠ ""%string.
Proof.
  destruct (keyLineFor_shape k comment) as (rest & -> & Hn & _). destruct (marshal_start k) as (a & s & Ea & Hv & _). split_and!.
  - rewrite Contains_append, Hn, orb_false_r. by apply (everyByte_Contains plainByte).
  - rewrite Ea. apply plain_unmarked. by exists a, (s +:+ rest).
  - by rewrite Ea.
Qed.

(** A directory every file of which can be read, and read again once written. *)
Definition dirOk (d : gmap string string) : Prop :=
  ∀ file text, d !! file = Some text → ∃ lines, readLines text = Some lines ∧ Forall unmarked lines.

Lemma fileLines_ok d file lines :
  dirOk d → fileLines d file = Some lines → Forall (λ l, strings.Contains l newline = false ∧ unmarked l) lines.
Proof.
  intros Hs. unfold fileLines. destruct (d !! file) as [text|] eqn:E; [|by intros [= <-]].
  intros Hr. destruct (Hs _ _ E) as (lines' & E' & Hu). rewrite Hr in E'. injection E' as <-. apply Forall_and. split; [|done]. by eapply readLines_no_newline.
Qed.

(** The keys of a file of a directory. *)
Definition fileKeys (d : gmap string string) (file : string) : list key :=
  match fileLines d file with Some lines => omap lineKey lines | None => [] end.

Lemma key_line_not_blank lines : existsb (λ l, bool_decide (is_Some (lineKey l))) lines = true → strings.Join lines (String newline "") ≠ ""%string.
Proof.
  intros (l & Hin & [k Hk]%bool_decide_eq_true)%existsb_exists E. assert (l ≠ ""%string) as Hne by (by intros ->).
  destruct lines as [|l0 [|l1 lines]]; [done| |].
  - cbn in Hin, E. destruct Hin as [->|[]]. done.
  - rewrite Join_cons in E by done. by destruct l0.
Qed.

(** What a file says after it has been written. *)
Lemma writeKeyFile_spec file lines d :
  dirOk d → Forall (λ l, strings.Contains l newline = false ∧ unmarked l) lines →
  let d' := writeKeyFile file lines d in
  dirOk d' ∧ fileKeys d' file = omap lineKey lines ∧ (∀ other, other ≠ file → d' !! other = d !! other).
Proof.
  intros Hs Hl d'. unfold d', KeyFiles.writeKeyFile. destruct (existsb _ lines) eqn:E.
  - pose proof (readLines_WriteRecord lines Hl (key_line_not_blank lines E)) as Hr. split_and!.
    + intros n text. rewrite lookup_insert_Some. intros [[<- <-]|[_ H]]; [|by eapply Hs]. exists lines. split; [done|]. eapply Forall_impl; [exact Hl|]. by intros ? [_ ?].
    + unfold fileKeys, fileLines. by rewrite lookup_insert_eq, Hr.
    + intros other Hne. by rewrite lookup_insert_ne.
  - split_and!.
    + intros n text. rewrite lookup_delete_Some. intros [_ H]. by eapply Hs.
    + unfold fileKeys, fileLines. rewrite lookup_delete_eq. cbn. symmetry. clear -E. induction lines as [|l lines IH]; [done|].
      cbn in E |- *. apply orb_false_iff in E as [E1%bool_decide_eq_false E2]. destruct (lineKey l); [by destruct E1|]. by apply IH.
    + intros other Hne. by rewrite lookup_delete_ne.
Qed.

Lemma holds_Some fp l k : lineKey l = Some k → holds fp l = bool_decide (Fingerprint k = fp).
Proof. unfold KeyFiles.holds. by intros ->. Qed.

Lemma holds_None fp l : lineKey l = None → holds fp l = false.
Proof. unfold KeyFiles.holds. by intros ->. Qed.

Lemma omap_filter_holds fp (lines : list string) :
  omap lineKey (filter (λ l, holds fp l = false) lines) = filter (λ k, Fingerprint k ≠ fp) (omap lineKey lines).
Proof.
  induction lines as [|l lines IH]; [done|]. rewrite filter_cons. destruct (lineKey l) as [k|] eqn:Ek.
  - pose proof (holds_Some fp l k Ek) as Hh. cbn [omap list_omap]. rewrite Ek, filter_cons. destruct (decide (Fingerprint k = fp)) as [Hf|Hf].
    + rewrite decide_False by (rewrite Hh; by rewrite bool_decide_eq_true_2). rewrite IH. by rewrite decide_False by (by intros ?).
    + rewrite decide_True by (rewrite Hh; by apply bool_decide_eq_false_2). cbn [omap list_omap]. rewrite Ek. rewrite decide_True by done. by f_equal.
  - rewrite decide_True by (by apply holds_None). cbn [omap list_omap]. by rewrite Ek.
Qed.

Lemma withoutKey_found fp lines : snd (withoutKey ParseAuthorizedKey Fingerprint lines fp) = true ↔ ∃ k, k ∈ omap lineKey lines ∧ Fingerprint k = fp.
Proof.
  unfold withoutKey. cbn [snd]. rewrite existsb_exists. setoid_rewrite list_elem_of_omap. unfold KeyFiles.holds. split.
  - intros (l & Hin%list_elem_of_In & H). destruct (lineKey l) as [k|] eqn:E; [|done]. exists k. split; [eauto|]. by apply bool_decide_eq_true in H.
  - intros (k & (l & Hin & E) & Hf). exists l. split; [by apply list_elem_of_In|]. rewrite E. by apply bool_decide_eq_true_2.
Qed.

(** What a change of one file leaves as it was. *)
Definition leavesOthers (file : string) (d d' : gmap string string) : Prop :=
  dirOk d' ∧ ∀ other, other ≠ file → d' !! other = d !! other.

(** A key added behind the others. *)
Lemma append_spec d file lines k comment :
  dirOk d → fileLines d file = Some lines →
  let d' := writeKeyFile file (lines ++ [keyLineFor k comment]) d in
  leavesOthers file d d' ∧ fileKeys d' file = fileKeys d file ++ [k].
Proof.
  intros Hd El. pose proof (fileLines_ok d file lines Hd El) as Hl. destruct (keyLineFor_line k comment) as (N1 & N2 & _).
  destruct (writeKeyFile_spec file (lines ++ [keyLineFor k comment]) d Hd) as (S1 & S2 & S3); [apply Forall_app; split; [done|by apply Forall_singleton]|].
  cbv zeta. split; [done|]. rewrite S2, omap_app. unfold fileKeys. rewrite El. f_equal. cbn. by rewrite lineKey_keyLineFor.
Qed.

Lemma removeKeyLine_spec d file fp removed d' :
  dirOk d → removeKeyLine ParseAuthorizedKey Fingerprint file fp d = Some (removed, d') →
  leavesOthers file d d' ∧ (removed = true ↔ ∃ k', k' ∈ fileKeys d file ∧ Fingerprint k' = fp) ∧
  fileKeys d' file = filter (λ k', Fingerprint k' ≠ fp) (fileKeys d file).
Proof.
  intros Hd. unfold removeKeyLine. destruct (fileLines d file) as [lines|] eqn:El; [|done].
  assert (fileKeys d file = omap lineKey lines) as Hk by (unfold fileKeys; by rewrite El).
  pose proof (withoutKey_found fp lines) as Hw. pose proof (fileLines_ok d file lines Hd El) as Hl.
  unfold withoutKey in *. cbn [snd] in Hw. destruct (existsb _ lines) eqn:Ef; intros [= <- <-].
  - destruct (writeKeyFile_spec file (filter (λ l, holds fp l = false) lines) d Hd) as (S1 & S2 & S3).
    { apply Forall_forall. intros l [_ Hin]%list_elem_of_filter. rewrite Forall_forall in Hl. auto. }
    split_and!; [by split|rewrite Hk, <- Hw; done|]. by rewrite S2, Hk, omap_filter_holds.
  - split_and!; [by split|rewrite Hk, <- Hw; done|]. rewrite Hk. symmetry. apply filter_id.
    intros k Hin Hf. assert (false = true) as ?; [|done]. apply Hw. by exists k.
Qed.

(** A file with one key. *)
Lemma created_spec d file k comment :
  dirOk d → let d' := <[file := keyLineFor k comment +:+ String newline ""]> d in
  leavesOthers file d d' ∧ fileKeys d' file = [k].
Proof.
  intros Hd. destruct (keyLineFor_line k comment) as (N1 & N2 & N3).
  assert (readLines (keyLineFor k comment +:+ String newline "") = Some [keyLineFor k comment]) as Hr.
  { rewrite <- (readLines_WriteRecord [keyLineFor k comment]) by (by rewrite ?Forall_singleton). unfold WriteRecord. cbn [strings.Join]. by rewrite bool_decide_eq_false_2. }
  cbv zeta. split; [split|].
  - intros n text. rewrite lookup_insert_Some. intros [[<- <-]|[_ H]]; [|by eapply Hd]. eexists. split; [done|]. by apply Forall_singleton.
  - intros other Hne. by rewrite lookup_insert_ne.
  - unfold fileKeys, fileLines. rewrite lookup_insert_eq, Hr. cbn. by rewrite lineKey_keyLineFor.
Qed.

(** What [parseKeys] enrols is what the lines hold, where it accepts the file. *)
Lemma parseStep_fold lines acc :
  (foldl (parseStep ParseAuthorizedKey) acc lines).1.1 = acc.1.1 ++ omap lineKey lines.
Proof.
  revert acc. induction lines as [|l lines IH]; intros [[ks cs] n]; cbn [foldl]; [by rewrite app_nil_r|].
  rewrite IH. cbn [omap list_omap]. unfold parseStep, KeyFiles.lineKey at 2. destruct (parseKeyLine _ l); cbn; by rewrite <- ?app_assoc.
Qed.

Lemma omap_readLines data :
  omap lineKey (if bool_decide (data = ""%string) then [] else strings.Split (strings.TrimSuffix data (String newline "")) newline) =
  omap lineKey (strings.Split data newline).
Proof.
  case_bool_decide as E; [by subst data|]. unfold strings.TrimSuffix. destruct (strings.CutSuffix data (String newline "")) as [r|] eqn:Ec; [|done].
  apply CutSuffix_Some in Ec. subst data. cbn [default]. rewrite Split_snoc, omap_app. cbn. by rewrite app_nil_r.
Qed.

(** Whether every line fits the scanner's buffer. *)
Definition shortLines (text : string) : Prop :=
  ∀ data, stripBOM text = Some data → Forall (λ l, Z.of_nat (strlen l) < MaxScanTokenSize) (strings.Split data newline).

Lemma parseKeys_spec text :
  match parseKeys ParseAuthorizedKey text with
  | Some (keys, _, _) => keys ≠ [] ∧ ∃ lines, readLines text = Some lines ∧ keys = omap lineKey lines
  | None => shortLines text → ∀ lines, readLines text = Some lines → omap lineKey lines = []
  end.
Proof.
  unfold parseKeys, readLines, shortLines. destruct (stripBOM text) as [data|]; [|done].
  destruct (existsb _ _) eqn:Ee.
  { intros Hs. exfalso. apply existsb_exists in Ee as (l & Hin%list_elem_of_In & H%Z.leb_le). specialize (Hs data eq_refl). rewrite Forall_forall in Hs. specialize (Hs l Hin). lia. }
  pose proof (parseStep_fold (strings.Split data newline) ([], [], 0%nat)) as Hf. cbn [app] in Hf. change (([], [], 0%nat).1.1 ++ ?x) with x in Hf.
  destruct (foldl _ _ _) as [[keys comments] n]. cbn in Hf. subst keys. destruct (omap lineKey (strings.Split data newline)) eqn:Eo.
  - intros _ lines [= <-]. by rewrite omap_readLines.
  - split; [done|]. eexists. split; [done|]. by rewrite omap_readLines.
Qed.

End store.
