(* ===== verification/AccountsProofs.v ===== *)
(** * Properties of the accounts of a workspace (core-agent/accounts) *)

From Stdlib Require Import Ascii.
From S2P Require Import Prelude GoStrings Records Names Mounts AccountPorts KeyFiles KeyFilesProofs Accounts.
Open Scope Z_scope.

(** ** The uidmap's text *)

(** [Itoa] and [Atoi] on every [int]. *)
Lemma Itoa_neg p : Itoa (Zneg p) = String "-" (Itoa (Zpos p)).
Proof. done. Qed.

Lemma Itoa_plain u : plainText (Itoa u).
Proof.
  unfold plainText. destruct (Z.le_gt_cases 0 u) as [H|H]; [by apply allDigits_bytes, Itoa_digits|]. destruct u as [|p|p]; [lia|lia|].
  rewrite Itoa_neg. cbn [everyByte]. by apply allDigits_bytes, Itoa_digits.
Qed.

Lemma Atoi_Itoa_int n : -2^63 ≤ n < 2^63 → Atoi (Itoa n) = Some n.
Proof.
  intros Hn. destruct (Z.le_gt_cases 0 n) as [H|H]; [apply Atoi_Itoa; lia|]. destruct n as [|p|p]; [lia|lia|].
  rewrite Itoa_neg. destruct (Itoa_digits (Zpos p)) as (Hd & _ & Hne); [lia|]. unfold Atoi. destruct (Itoa (Zpos p)) as [|a s]; [done|].
  rewrite Hd. cbn [fmap option_fmap option_map]. change (- Zpos p) with (Zneg p). rewrite (proj2 (Z.leb_le _ _)), (proj2 (Z.ltb_lt _ _)) by lia. done.
Qed.

Lemma uidLine_record n u : plainText n → recordLine (uidLine (n, u)).
Proof.
  intros Hn. unfold uidLine. cbn [fst snd]. split_and!.
  - rewrite !everyByte_app, (plainText_visible n Hn). cbn. by apply plainText_visible, Itoa_plain.
  - by destruct n.
  - unfold plainText in Hn. destruct n as [|a s]; [done|].
    change (strings.HasPrefix (String a s +:+ ":" +:+ Itoa u) "#") with (Ascii.eqb "#" a && true).
    destruct (Ascii.eqb_spec "#" a) as [<-|]; [by vm_compute in Hn|done].
Qed.

Lemma parse_uidLine n u : plainText n → -2^63 ≤ u < 2^63 → parseUID (uidLine (n, u)) = Some (n, u).
Proof.
  intros Hn Hu. unfold parseUID, uidLine. cbn [fst snd].
  assert (strings.Cut (n +:+ ":" +:+ Itoa u) ":" = Some (n, Itoa u)) as ->.
  { apply Cut_Some. split; [done|]. by apply (everyByte_Contains nameByte). }
  rewrite !TrimSpace_visible; [by rewrite Atoi_Itoa_int|by apply plainText_visible|by apply plainText_visible, Itoa_plain].
Qed.

(** What is saved is what is loaded. *)
Definition uidsPlain (uids : gmap string Z) : Prop := map_Forall (λ n u, plainText n ∧ -2^63 ≤ u < 2^63) uids.

Lemma parse_saved_uids uids :
  uidsPlain uids → parseUIDs (Some (WriteRecord (lineOfUID uids <$> sort_strings (elements (dom uids))))) = uids.
Proof.
  intros Hp. set (names := sort_strings (elements (dom uids))).
  assert (∀ n, n ∈ names ↔ is_Some (uids !! n)) as Hn.
  { intros n. unfold names, sort_strings. by rewrite elem_of_stable_sort, elem_of_elements, elem_of_dom. }
  assert (NoDup names) as Hnd.
  { unfold names, sort_strings. rewrite stable_sort_Permutation. apply NoDup_elements. }
  assert (∀ n, n ∈ names → plainText n ∧ -2^63 ≤ default 0 (uids !! n) < 2^63) as Hok.
  { intros n [u Hu]%Hn. rewrite Hu. exact (Hp n u Hu). }
  unfold parseUIDs. rewrite ReadRecord_WriteRecord.
  2: { apply Forall_fmap, Forall_forall. intros n Hin. destruct (Hok n Hin) as [? ?]. by apply uidLine_record. }
  assert (omap parseUID (lineOfUID uids <$> names) = (λ n, (n, default 0 (uids !! n))) <$> names) as ->.
  { clear Hn Hnd. induction names as [|n l IH]; [done|]. rewrite !fmap_cons. cbn [omap list_omap]. unfold lineOfUID at 1.
    destruct (Hok n) as [? ?]; [left|]. rewrite parse_uidLine by done. f_equal. apply IH. intros; apply Hok; by right. }
  apply map_eq. intros n. destruct (uids !! n) as [u|] eqn:E.
  - apply elem_of_list_to_map.
    + rewrite fmap_reverse, <- list_fmap_compose. rewrite reverse_Permutation. unfold compose. cbn. by rewrite list_fmap_id.
    + rewrite elem_of_reverse, list_elem_of_fmap. exists n. rewrite E. split; [done|]. apply Hn. by eexists.
  - apply not_elem_of_list_to_map. rewrite fmap_reverse, elem_of_reverse, <- list_fmap_compose. unfold compose. cbn. rewrite list_fmap_id, Hn, E. by intros [? ?].
Qed.

(** ** Uids *)

Definition highest (uids : gmap string Z) (base : Z) : Z := foldr Z.max (base - 1) (map_to_list uids).*2.

Lemma foldr_max_ge x l : x ≤ foldr Z.max x l ∧ ∀ y, y ∈ l → y ≤ foldr Z.max x l.
Proof.
  induction l as [|z l [IH1 IH2]]; cbn; [split; [lia|by intros ? []%elem_of_nil]|]. split; [lia|]. intros y [->|H]%elem_of_cons; [lia|]. specialize (IH2 y H). lia.
Qed.

Lemma foldr_max_in x l : foldr Z.max x l = x ∨ foldr Z.max x l ∈ l.
Proof.
  induction l as [|z l IH]; cbn; [by left|]. destruct (Z.max_spec z (foldr Z.max x l)) as [[_ ->]|[_ ->]]; [|right; left].
  destruct IH as [->|?]; [by left|right; by right].
Qed.

Lemma highest_ge uids base n u : uids !! n = Some u → u ≤ highest uids base.
Proof. intros H. apply foldr_max_ge. apply list_elem_of_fmap. exists (n, u). split; [done|]. by apply elem_of_map_to_list. Qed.

(** No uid is as large as an [int] can be. *)
Definition uidsFit (uids : gmap string Z) : Prop := map_Forall (λ _ u, u < 2^63 - 1) uids.

Lemma nextUID_spec uids base :
  0 ≤ base < 2^63 - 1 → uidsFit uids →
  nextUID uids base = highest uids base + 1 ∧ base ≤ nextUID uids base < 2^63 ∧ (∀ n u, uids !! n = Some u → u < nextUID uids base).
Proof.
  intros Hb Hf. unfold nextUID. rewrite (wrap64_small (base - 1)) by lia. fold (highest uids base).
  destruct (foldr_max_ge (base - 1) (map_to_list uids).*2) as [H1 _]. fold (highest uids base) in H1.
  assert (highest uids base < 2^63 - 1) as H2.
  { unfold highest. destruct (foldr_max_in (base - 1) (map_to_list uids).*2) as [->|Hin]; [lia|].
    apply list_elem_of_fmap in Hin as ([n u] & -> & Hin%elem_of_map_to_list). exact (Hf n u Hin). }
  rewrite wrap64_small by lia. split; [done|]. split; [lia|]. intros n u Hu. pose proof (highest_ge uids base n u Hu). lia.
Qed.

Definition uidsInj (uids : gmap string Z) : Prop := ∀ n m u, uids !! n = Some u → uids !! m = Some u → n = m.

(** What is new in the uidmap is above everything that was in it. *)
Definition above (base : Z) (uids uids' : gmap string Z) : Prop :=
  ∀ m u, uids' !! m = Some u → uids !! m = Some u ∨ base ≤ u ∧ ∀ n v, uids !! n = Some v → v < u.

(** Handing out uids to names. *)
Lemma uidStep_extends base names uids c : uids ⊆ (foldl (uidStep base) (uids, c) names).1.
Proof.
  revert uids c. induction names as [|n names IH]; intros uids c; cbn [foldl]; [done|]. unfold uidStep at 2.
  destruct (uids !! n) eqn:Eu; [apply IH|]. etrans; [|apply IH]. by apply insert_subseteq.
Qed.

Lemma uidsFit_mono uids uids' : uids ⊆ uids' → uidsFit uids' → uidsFit uids.
Proof. intros Hs Hf n u Hu. apply (Hf n u). by eapply lookup_weaken. Qed.

Lemma uidStep_plain base names uids c :
  Forall plainText names → uidsPlain uids →
  let '(uids', c') := foldl (uidStep base) (uids, c) names in
  uidsPlain uids' ∧ (∀ n, is_Some (uids' !! n) ↔ is_Some (uids !! n) ∨ n ∈ names) ∧ (c' = false → c = false ∧ uids' = uids).
Proof.
  revert uids c. induction names as [|n names IH]; intros uids c Hn Hp; cbn [foldl].
  { split_and!; try done. intros m. rewrite elem_of_nil. tauto. }
  apply Forall_cons in Hn as [Hn Hns]. unfold uidStep at 2. destruct (uids !! n) as [u|] eqn:Eu.
  - specialize (IH uids c Hns Hp). destruct (foldl _ (uids, c) names) as [uids' c']. destruct IH as (H1 & H2 & H3). split_and!; [done| |done].
    intros m. rewrite H2, elem_of_cons. split; [tauto|]. intros [?|[->|?]]; [tauto|left; by eexists|tauto].
  - specialize (IH (<[n := nextUID uids base]> uids) true Hns). destruct (foldl _ _ names) as [uids' c']. destruct IH as (H1 & H2 & H3).
    { apply map_Forall_insert_2; [|done]. split; [done|]. apply wrap64_range. }
    split_and!; [done| |intros Hc; by destruct (H3 Hc)]. intros m. rewrite H2, lookup_insert_is_Some', elem_of_cons. naive_solver.
Qed.

Lemma insert_fresh_uid uids n base :
  0 ≤ base < 2^63 - 1 → uidsFit uids → uidsInj uids → uidsInj (<[n := nextUID uids base]> uids).
Proof.
  intros Hb Hf Hi. destruct (nextUID_spec uids base Hb Hf) as (_ & Hr & Hgt).
  intros a b u. rewrite !lookup_insert_Some. intros [[-> <-]|[? Ha]] [[-> E]|[? Hb']]; [done| | |by eapply Hi].
  - specialize (Hgt _ _ Hb'). lia.
  - specialize (Hgt _ _ Ha). lia.
Qed.

Lemma uidStep_fresh base names uids c :
  0 ≤ base < 2^63 - 1 → uidsInj uids →
  let uids' := (foldl (uidStep base) (uids, c) names).1 in uidsFit uids' → uidsInj uids' ∧ above base uids uids'.
Proof.
  intros Hb. revert uids c. induction names as [|n names IH]; intros uids c Hi; cbv zeta; cbn [foldl]; [intros Hf; split; [done|by intros ? ?; left]|].
  assert (uidStep base (uids, c) n = match uids !! n with Some _ => (uids, c) | None => (<[n := nextUID uids base]> uids, true) end) as -> by done.
  destruct (uids !! n) as [u|] eqn:Eu; [by apply IH|].
  pose proof (uidStep_extends base names (<[n := nextUID uids base]> uids) true) as Hext.
  set (uids' := (foldl _ _ names).1) in *. intros Hf.
  assert (uidsFit uids) as Hf0 by (eapply uidsFit_mono; [|exact Hf]; etrans; [by apply insert_subseteq|exact Hext]).
  destruct (IH (<[n := nextUID uids base]> uids) true (insert_fresh_uid uids n base Hb Hf0 Hi) Hf) as [H4 H5].
  destruct (nextUID_spec uids base Hb Hf0) as (_ & Hge & Hgt). split; [done|].
  intros m u Hm. destruct (H5 m u Hm) as [Hu|[Hbu Hu]].
  - apply lookup_insert_Some in Hu as [[<- <-]|[_ ?]]; [|by left]. right. split; [lia|exact Hgt].
  - right. split; [done|]. intros n' v Hv. apply (Hu n' v). rewrite lookup_insert_ne by congruence. done.
Qed.

(** ** Names of files and of accounts *)

Lemma accountByte_plain a : accountByte a = true → nameByte a = true.
Proof. destruct a as [[] [] [] [] [] [] [] []]; vm_compute; done. Qed.

Lemma goodName_plain n : goodName n → plainText n.
Proof. intros (_ & Hb & _). eapply everyByte_impl; [|exact Hb]. apply accountByte_plain. Qed.

Lemma goodName_not_released n : goodName n → n ≠ releasedUIDs.
Proof. intros (_ & _ & Hs) ->. done. Qed.

Lemma TrimSuffix_pub f n : strings.HasSuffix f pub = true → strings.TrimSuffix f pub = n → f = n +:+ pub.
Proof.
  unfold strings.HasSuffix, strings.TrimSuffix. rewrite HasPrefix_CutPrefix. intros [r Hr]%bool_decide_eq_true.
  assert (strings.CutSuffix f pub = Some (strings.rev r)) as E by (unfold strings.CutSuffix; by rewrite Hr).
  rewrite E. cbn. intros <-. by apply CutSuffix_Some in E.
Qed.

Lemma HasSuffix_append s p : strings.HasSuffix (s +:+ p) p = true.
Proof. unfold strings.HasSuffix. rewrite rev_append. apply HasPrefix_spec. by eexists. Qed.

Lemma isKeyFile_good n : goodName n → isKeyFile (n +:+ pub) = true.
Proof.
  intros (_ & Hb & Hs). unfold isKeyFile. destruct n as [|a n]; [done|]. apply andb_true_iff. split; [|apply HasSuffix_append].
  change (strings.HasPrefix (String a n +:+ pub) ".") with (Ascii.eqb "." a && true). destruct (Ascii.eqb_spec "." a) as [<-|]; [|done]. done.
Qed.

Section claims.
Context (ToLower : string → string).

Definition nameOf (file : string) : option string := AccountName ToLower (strings.TrimSuffix file pub).

(** What the claims made so far say. *)
Definition claims_ok (files : list string) (acc : list (string * string) * gmap string string) : Prop :=
  NoDup acc.1.*2 ∧ (∀ f n, (f, n) ∈ acc.1 → f ∈ files ∧ nameOf f = Some n ∧ acc.2 !! n = Some f) ∧
  (∀ n f, acc.2 !! n = Some f → (f, n) ∈ acc.1) ∧ (∀ f n, f ∈ files → nameOf f = Some n → is_Some (acc.2 !! n)).

Lemma claimStep_ok files acc f : claims_ok files acc → claims_ok (files ++ [f]) (claimStep ToLower acc f).
Proof.
  destruct acc as [out claimed]. intros (H1 & H2 & H3 & H4). unfold claimStep. fold (nameOf f). destruct (nameOf f) as [name|] eqn:En.
  2: { split_and!; [done| |done|].
    - intros f' n Hin. destruct (H2 f' n Hin) as (? & ? & ?). split_and!; [set_solver|done|done].
    - intros f' n [Hin| ->%list_elem_of_singleton]%elem_of_app Hf; [eauto|congruence]. }
  destruct (claimed !! name) as [f0|] eqn:Ec.
  { split_and!; [done| |done|].
    - intros f' n Hin. destruct (H2 f' n Hin) as (? & ? & ?). split_and!; [set_solver|done|done].
    - intros f' n [Hin| ->%list_elem_of_singleton]%elem_of_app Hf; [eauto|]. replace n with name by congruence. by eexists. }
  split_and!; cbn [fst snd].
  - rewrite fmap_app. apply NoDup_app. split_and!; [done| |apply NoDup_singleton]. intros n ([f' n'] & -> & Hin)%list_elem_of_fmap Hn%list_elem_of_singleton.
    cbn in Hn. subst n'. destruct (H2 f' name Hin) as (_ & _ & ?). cbn in *. congruence.
  - intros f' n [Hin|Hin%list_elem_of_singleton]%elem_of_app; [|injection Hin as -> ->].
    + destruct (H2 f' n Hin) as (? & ? & Hc). split_and!; [set_solver|done|]. cbn in Hc. rewrite lookup_insert_ne by congruence. done.
    + split_and!; [set_solver|done|by rewrite lookup_insert_eq].
  - intros n f' Hc%lookup_insert_Some. destruct Hc as [[<- <-]|[_ Hc]]; [set_solver|]. apply elem_of_app. left. by apply H3.
  - intros f' n [Hin| ->%list_elem_of_singleton]%elem_of_app Hf; rewrite lookup_insert_is_Some'; [right; by eapply H4|left; congruence].
Qed.

Lemma claims_fold files : claims_ok files (foldl (claimStep ToLower) ([], ∅) files).
Proof.
  induction files as [|f files IH] using rev_ind.
  - cbn [foldl]. split_and!; cbn [fst snd]; [apply NoDup_nil_2|by intros ? ? []%elem_of_nil|by intros ? ? ?%lookup_empty_Some|by intros ? ? []%elem_of_nil].
  - rewrite foldl_app. by apply claimStep_ok.
Qed.

(** A claim is never taken away. *)
Lemma claims_stay files acc c : c ∈ acc.1 → c ∈ (foldl (claimStep ToLower) acc files).1.
Proof.
  revert acc. induction files as [|f files IH]; intros [out claimed] Hc; cbn [foldl]; [done|]. apply IH. unfold claimStep.
  destruct (AccountName _ _) as [n|]; [|done]. destruct (claimed !! n); [done|]. cbn in *. set_solver.
Qed.

Lemma claim_of_first files1 files2 f n :
  f ∈ files1 → nameOf f = Some n → (∀ f', f' ∈ files1 → nameOf f' = Some n → f' = f) →
  (f, n) ∈ (foldl (claimStep ToLower) ([], ∅) (files1 ++ files2)).1.
Proof.
  intros Hf Hn Hu. rewrite foldl_app. apply claims_stay. destruct (claims_fold files1) as (_ & H2 & H3 & H4).
  destruct (H4 f n Hf Hn) as [f' Hf']. pose proof (H3 n f' Hf') as Hin. destruct (H2 f' n Hin) as (? & ? & _). rewrite (Hu f') in Hin; done.
Qed.

End claims.

(** ** The files of a directory *)

Section directories.
Context {key : Type} (ToLower : string → string) (ParseAuthorizedKey : string → option (key * string)) (Fingerprint : key → string).
Abbreviation Store := (Store key).
Abbreviation keyFiles := (@keyFiles key ToLower).

Lemma elem_of_claimOrder d f : f ∈ claimOrder ToLower d ↔ isKeyFile f = true ∧ is_Some (d !! f).
Proof using Type.
  clear ParseAuthorizedKey Fingerprint.
  unfold claimOrder, sort_strings. rewrite elem_of_app, !elem_of_stable_sort, !list_elem_of_filter, elem_of_elements, elem_of_dom.
  destruct (isExact ToLower f); naive_solver.
Qed.

(** Each account has one file at most, a file of the directory that names it. *)
Lemma keyFiles_spec (s : Store) dir files :
  keyFiles s dir = Ok files →
  NoDup files.*2 ∧ ∀ f n, (f, n) ∈ files → nameOf ToLower f = Some n ∧ isKeyFile f = true ∧ ∃ d text, st_disk s !! dir = Some d ∧ d !! f = Some text.
Proof using Type.
  clear ParseAuthorizedKey Fingerprint.
  unfold Accounts.keyFiles. destruct (st_disk s !! dir) as [d|] eqn:Ed.
  2: { case_bool_decide; [|done]. intros [= <-]. split; [apply NoDup_nil_2|by intros ? ? []%elem_of_nil]. }
  intros [= <-]. destruct (claims_fold ToLower (claimOrder ToLower d)) as (H1 & H2 & _). split; [done|]. intros f n Hin.
  destruct (H2 f n Hin) as (Hf & Hn & _). apply elem_of_claimOrder in Hf as [Hk [text Ht]]. eauto 10.
Qed.

Lemma isExact_spec f n :
  isKeyFile f = true → nameOf ToLower f = Some n → isExact ToLower f = bool_decide (f = n +:+ pub).
Proof using Type.
  clear ParseAuthorizedKey Fingerprint.
  unfold isKeyFile, isExact, nameOf. intros [_ Hs]%andb_true_iff Hn. rewrite Hn. apply bool_decide_ext. split.
  - intros [= Hb]. apply TrimSuffix_pub; congruence.
  - intros ->. by rewrite TrimSuffix_append.
Qed.

(** The file that is called as its account enrols it, whatever other files fold to
    the same name. *)
Lemma exact_file_wins (s : Store) dir d n files :
  keyFiles s dir = Ok files → st_disk s !! dir = Some d → is_Some (d !! (n +:+ pub)) → AccountName ToLower n = Some n → (n +:+ pub, n) ∈ files.
Proof using Type.
  clear ParseAuthorizedKey Fingerprint.
  unfold Accounts.keyFiles. intros Hk Ed Hf Hn. rewrite Ed in Hk. injection Hk as <-. unfold claimOrder.
  assert (nameOf ToLower (n +:+ pub) = Some n) as Hno by (unfold nameOf; by rewrite TrimSuffix_append).
  assert (isKeyFile (n +:+ pub) = true) as Hkf by (by eapply isKeyFile_good, AccountName_good).
  apply claim_of_first; [|done|].
  - unfold sort_strings. rewrite elem_of_stable_sort, !list_elem_of_filter, elem_of_elements, elem_of_dom. split_and!; [|done|done].
    rewrite (isExact_spec _ n) by done. by apply bool_decide_eq_true_2.
  - intros f'. unfold sort_strings. rewrite elem_of_stable_sort, !list_elem_of_filter. intros (He & Hk & _) Hn'. rewrite (isExact_spec f' n) in He by done.
    by apply bool_decide_eq_true in He.
Qed.

(** The text of the file that enrols an account in a directory. *)
Definition textFor (s : Store) (dir name : string) : option string :=
  match keyFiles s dir with
  | Ok files => match List.find (λ f, bool_decide (f.2 = name)) files with Some f => default ∅ (st_disk s !! dir) !! f.1 | None => None end
  | Err _ => None
  end.

(** What a directory contributes to an account, and whether its file is unusable. *)
Definition sourceFor (s : Store) (name dir : string) : option (KeySource key) :=
  match textFor s dir name with Some text => (contribution ParseAuthorizedKey s dir name text).1 | None => None end.

Definition badFor (s : Store) (name dir : string) : bool :=
  match textFor s dir name with Some text => (contribution ParseAuthorizedKey s dir name text).2 | None => false end.

(** ** What a sync reads *)

Definition accountWith (name : string) (srcs : list (KeySource key)) : option (Account key) :=
  match srcs with [] => None | _ => Some (foldl (λ a src, add_source src a) (newAccount name) srcs) end.

Lemma accountWith_snoc name srcs src : accountWith name (srcs ++ [src]) = Some (add_source src (default (newAccount name) (accountWith name srcs))).
Proof. unfold accountWith. destruct srcs as [|s0 srcs]; [done|]. cbn [app]. by rewrite app_comm_cons, foldl_app. Qed.

Lemma add_sources (srcs : list (KeySource key)) a :
  let a' := foldl (λ a src, add_source src a) a srcs in ac_Sources a' = ac_Sources a ++ srcs ∧ ac_Name a' = ac_Name a.
Proof.
  revert a. induction srcs as [|src srcs IH]; intros a; cbn; [by rewrite app_nil_r|]. destruct (IH (add_source src a)) as [-> ->].
  split; [|done]. cbn. by rewrite <- app_assoc.
Qed.

Lemma accountWith_sources name srcs a : accountWith name srcs = Some a → ac_Sources a = srcs ∧ ac_Name a = name ∧ srcs ≠ [].
Proof. destruct srcs as [|s0 srcs]; [done|]. unfold accountWith. intros [= <-]. by destruct (add_sources srcs (add_source s0 (newAccount name))) as [-> ->]. Qed.

(** What reading one file does to the account it names, and to the others. *)
Lemma readFile_at s dir d found un f found' un' name :
  readFile ParseAuthorizedKey s dir d (found, un) f = (found', un') →
  if decide (f.2 = name) then
    let c := contribution ParseAuthorizedKey s dir name (default "" (d !! f.1)) in
    found' !! name = match c.1 with Some src => Some (add_source src (default (newAccount name) (found !! name))) | None => found !! name end ∧
    (∀ x, (x, name) ∈ un' ↔ (x, name) ∈ un ∨ x = dir ∧ c.2 = true)
  else found' !! name = found !! name ∧ ∀ x, (x, name) ∈ un' ↔ (x, name) ∈ un.
Proof.
  unfold readFile. destruct (contribution _ s dir f.2 _) as [src bad] eqn:Ec. intros [= <- <-]. case_decide as En.
  - subst name. cbv zeta. rewrite Ec. cbn [fst snd]. split; [destruct src; [by rewrite lookup_insert_eq|done]|]. intros x. destruct bad; set_solver.
  - split; [destruct src; [by rewrite lookup_insert_ne|done]|]. intros x. destruct bad; set_solver.
Qed.

Lemma readFiles_others s dir d files acc name :
  name ∉ files.*2 →
  let acc' := foldl (readFile ParseAuthorizedKey s dir d) acc files in acc'.1 !! name = acc.1 !! name ∧ ∀ x, (x, name) ∈ acc'.2 ↔ (x, name) ∈ acc.2.
Proof.
  revert acc. induction files as [|f files IH]; intros [found un] Hn; cbn [foldl]; [done|]. rewrite fmap_cons in Hn. apply not_elem_of_cons in Hn as [Hf Hn].
  destruct (readFile _ s dir d (found, un) f) as [found' un'] eqn:Er. pose proof (readFile_at _ _ _ _ _ _ _ _ name Er) as H. rewrite decide_False in H by done.
  destruct H as [H1 H2]. destruct (IH (found', un') Hn) as [I1 I2]. cbv zeta. cbn [fst snd] in *. split; [congruence|]. intros x. rewrite I2. apply H2.
Qed.

Lemma readDir_at s dir found un found' un' name :
  readDir ToLower ParseAuthorizedKey s (found, un) dir = Ok (found', un') →
  found' !! name = match sourceFor s name dir with Some src => Some (add_source src (default (newAccount name) (found !! name))) | None => found !! name end ∧
  (∀ x, (x, name) ∈ un' ↔ (x, name) ∈ un ∨ x = dir ∧ badFor s name dir = true).
Proof.
  unfold readDir, sourceFor, badFor, textFor. destruct (keyFiles s dir) as [files|] eqn:Ek; [|done]. intros [= Ef].
  destruct (keyFiles_spec s dir files Ek) as [Hnd Hf]. destruct (List.find _ files) as [f|] eqn:Efi.
  - apply find_some in Efi as [Hin%list_elem_of_In Hn%bool_decide_eq_true]. destruct f as [f n]. cbn in Hn. subst n.
    destruct (Hf f name Hin) as (_ & _ & d & text & Ed & Et). rewrite Ed in Ef |- *. change (default ∅ (Some d)) with d in *. cbn [fst]. rewrite Et.
    apply list_elem_of_split in Hin as (l1 & l2 & ->). rewrite fmap_app, fmap_cons in Hnd. cbn in Hnd. apply NoDup_app in Hnd as (_ & Hn1 & [Hn2 _]%NoDup_cons).
    rewrite foldl_app in Ef. cbn [foldl] in Ef.
    destruct (readFiles_others s dir d l1 (found, un) name) as [A1 A2]; [intros ?; by eapply Hn1; [|left]|].
    destruct (foldl _ (found, un) l1) as [f1 u1]. destruct (readFile _ s dir d (f1, u1) (f, name)) as [f2 u2] eqn:Er.
    pose proof (readFile_at _ _ _ _ _ _ _ _ name Er) as H. rewrite decide_True in H by done. cbn [fst snd] in *. rewrite Et in H. change (default ""%string (Some text)) with text in H. destruct H as [H1 H2].
    destruct (readFiles_others s dir d l2 (f2, u2) name Hn2) as [B1 B2]. rewrite Ef in B1, B2. cbn [fst snd] in *. rewrite B1, H1, A1. split; [done|].
    intros x. by rewrite B2, H2, A2.
  - destruct (readFiles_others s dir (default ∅ (st_disk s !! dir)) files (found, un) name) as [A1 A2].
    { intros ([f n] & E & Hin)%list_elem_of_fmap. cbn in E. subst n. apply list_elem_of_In, (find_none _ _ Efi), bool_decide_eq_false in Hin. done. }
    rewrite Ef in A1, A2. cbn [fst snd] in *. split; [done|]. intros x. rewrite A2. split; [by left|]. intros [?|[_ ?]]; done.
Qed.

Lemma readDirs_at s ds found un name :
  foldRes (readDir ToLower ParseAuthorizedKey s) (∅, ∅) ds = Ok (found, un) →
  found !! name = accountWith name (omap (sourceFor s name) ds) ∧ ∀ x, (x, name) ∈ un ↔ x ∈ ds ∧ badFor s name x = true.
Proof.
  revert found un. induction ds as [|dir ds IH] using rev_ind; intros found un.
  { intros [= <- <-]. split; [apply lookup_empty|]. intros x. rewrite elem_of_nil. set_solver. }
  rewrite foldRes_app. destruct (foldRes _ _ ds) as [[f1 u1]|]; [|done]. cbn [foldRes].
  destruct (readDir _ _ s (f1, u1) dir) as [[f2 u2]|] eqn:Er; [|done]. intros [= <- <-]. destruct (IH f1 u1 eq_refl) as [I1 I2].
  destruct (readDir_at s dir f1 u1 f2 u2 name Er) as [H1 H2]. split.
  - rewrite H1, I1, omap_app. cbn. destruct (sourceFor s name dir) as [src|]; [by rewrite accountWith_snoc|by rewrite app_nil_r].
  - intros x. rewrite H2, I2, elem_of_app, list_elem_of_singleton. naive_solver.
Qed.

(** ** Keys *)

Lemma dedup_fold keys acc :
  (∀ k, k ∈ acc.1 → Fingerprint k ∈ acc.2) → (∀ fp, fp ∈ acc.2 → ∃ k, k ∈ acc.1 ∧ Fingerprint k = fp) →
  let acc' := foldl (dedupStep Fingerprint) acc keys in
  ∀ fp, (∃ k, k ∈ acc'.1 ∧ Fingerprint k = fp) ↔ (∃ k, k ∈ acc.1 ++ keys ∧ Fingerprint k = fp).
Proof using Type.
  clear ToLower ParseAuthorizedKey.
  revert acc. induction keys as [|k keys IH]; intros [ks seen] H1 H2; cbn [foldl]; [by rewrite app_nil_r|]. unfold dedupStep at 2. cbn [fst snd] in *. case_bool_decide as Hs.
  - intros fp. cbv zeta. rewrite (IH (ks, seen) H1 H2 fp). cbn [fst]. destruct (H2 _ Hs) as (k0 & Hk0 & E0). setoid_rewrite elem_of_app. setoid_rewrite elem_of_cons. naive_solver.
  - intros fp. cbv zeta. rewrite (IH (ks ++ [k], {[Fingerprint k]} ∪ seen)); cbn [fst snd].
    + by rewrite <- app_assoc.
    + intros k' [?|Hk'%list_elem_of_singleton]%elem_of_app; [|subst k']; set_solver.
    + intros fp' [->%elem_of_singleton|Hf]%elem_of_union; [exists k; set_solver|]. destruct (H2 _ Hf) as (k0 & ? & ?). exists k0. set_solver.
Qed.

Lemma dedup_fingerprints keys fp : (∃ k, k ∈ dedup Fingerprint keys ∧ Fingerprint k = fp) ↔ ∃ k, k ∈ keys ∧ Fingerprint k = fp.
Proof using Type.
  clear ToLower ParseAuthorizedKey. unfold dedup. rewrite (dedup_fold keys ([], ∅)); [done|by intros ? []%elem_of_nil|by intros ? []%elem_of_empty]. Qed.

(** A key authenticates when some source has it. *)
Definition fromSource (k : key) (src : KeySource key) : Prop := ∃ k', k' ∈ so_Keys src ∧ Fingerprint k' = Fingerprint k.

Lemma Authorized_spec a k : Authorized Fingerprint a k = true ↔ ∃ k', k' ∈ ac_Keys a ∧ Fingerprint k' = Fingerprint k.
Proof using Type.
  clear ToLower ParseAuthorizedKey.
  unfold Authorized. rewrite existsb_exists. setoid_rewrite bool_decide_eq_true. setoid_rewrite <- list_elem_of_In. done.
Qed.

Lemma gatherKeys_authorized a k : Authorized Fingerprint (gatherKeys Fingerprint a) k = true ↔ ∃ src, src ∈ ac_Sources a ∧ fromSource k src.
Proof using Type.
  clear ToLower ParseAuthorizedKey.
  rewrite Authorized_spec. cbn [gatherKeys with_keys ac_Keys]. rewrite dedup_fingerprints. unfold fromSource. setoid_rewrite list_elem_of_join. setoid_rewrite list_elem_of_fmap. naive_solver.
Qed.

(** ** What a sync publishes *)

Lemma publish_fold (found : gmap string (Account key)) prov names next name :
  foldl (publishStep found prov) next names !! name =
  match prov !! name, found !! name with Some p, Some a => if decide (name ∈ names) then Some (with_unix p a) else next !! name | _, _ => next !! name end.
Proof.
  revert next. induction names as [|n names IH]; intros next; cbn [foldl].
  { destruct (prov !! name), (found !! name); [|done..]. by rewrite decide_False by (intros []%elem_of_nil). }
  rewrite IH. unfold publishStep. destruct (decide (n = name)) as [->|Hne].
  - destruct (prov !! name) as [p|], (found !! name) as [a|]; try done. rewrite lookup_insert_eq, (decide_True (P := name ∈ name :: names)) by left. by case_decide.
  - assert (match prov !! n with Some p => match found !! n with Some a => <[n := with_unix p a]> next | None => next end | None => next end !! name = next !! name) as ->.
    { destruct (prov !! n), (found !! n); rewrite ?lookup_insert_ne; done. }
    destruct (prov !! name), (found !! name); try done. destruct (decide (name ∈ names)) as [H|H]; [by rewrite decide_True by (by right)|].
    rewrite decide_False; [done|]. intros [?|?]%elem_of_cons; congruence.
Qed.

Definition revokeOne (a : Account key) : Account key := match ac_Keys a with [] => a | _ => revoked a end.

(** Everything a sync that succeeds changes. *)
Lemma swap_spec env s started s' :
  swap ToLower ParseAuthorizedKey Fingerprint env s = (Ok started, s') →
  ∃ (found : gmap string (Account key)) (uids' : gmap string Z),
    (∀ n, found !! n = gatherKeys Fingerprint <$> accountWith n (omap (sourceFor s n) (dirs s))) ∧
    (foldl (uidStep (st_UIDBase s)) (parseUIDs (st_uidmap s), false) (sort_strings (elements (dom found)))).1 = uids' ∧
    (st_uidmap s' = Some (WriteRecord (lineOfUID uids' <$> sort_strings (elements (dom uids')))) ∨
     st_uidmap s' = st_uidmap s ∧ (foldl (uidStep (st_UIDBase s)) (parseUIDs (st_uidmap s), false) (sort_strings (elements (dom found)))).2 = false) ∧
    (∀ n, st_accounts s' !! n = match found !! n, st_provisioned s !! n with
                               | Some a, Some p => Some (with_unix p (with_uid (default 0 (uids' !! n)) a))
                               | Some _, None => st_accounts s !! n
                               | None, _ => revokeOne <$> st_accounts s !! n
                               end) ∧
    (∀ n, n ∈ st_provisioning s' ↔ n ∈ st_provisioning s ∨ is_Some (found !! n) ∧ st_provisioned s !! n = None) ∧
    (∀ x n, (x, n) ∈ st_unusable s' ↔ x ∈ dirs s ∧ badFor s n x = true) ∧
    st_provisioned s' = st_provisioned s ∧ st_disk s' = st_disk s ∧ st_UIDBase s' = st_UIDBase s ∧
    st_KeysDirs s' = st_KeysDirs s ∧ st_EnrolledDir s' = st_EnrolledDir s.
Proof.
  unfold swap, loadUIDs. destruct (se_readable env); [|done]. destruct (foldRes _ _ (dirs s)) as [[found0 un]|] eqn:Ef; [|done].
  unfold reconcile. set (found := gatherKeys Fingerprint <$> found0). set (names := sort_strings (elements (dom found))).
  destruct (foldl (uidStep _) _ names) as [uids' changed] eqn:Eu. intros H.
  assert (∃ s1, (st_uidmap s1 = Some (WriteRecord (lineOfUID uids' <$> sort_strings (elements (dom uids')))) ∨ st_uidmap s1 = st_uidmap s ∧ changed = false) ∧
    s1 = with_uidmap (st_uidmap s1) s ∧ (if changed then saveUIDs env uids' s else Ok s) = Ok s1) as (s1 & Hm & Hs1 & E1).
  { destruct changed; [|exists s; split_and!; [by right|by destruct s|done]]. unfold saveUIDs in *. destruct (se_writable env); [|done].
    eexists (with_uidmap _ s). split_and!; [by left|done|done]. }
  rewrite E1 in H. injection H as <- <-. exists found, uids'. split.
  { intros n. unfold found. rewrite lookup_fmap. destruct (readDirs_at s (dirs s) found0 un n Ef) as [-> _]. done. }
  fold names. rewrite Eu. split; [done|]. cbn [fst snd]. rewrite Hs1. cbn [st_uidmap st_accounts st_provisioning st_unusable st_provisioned st_disk st_UIDBase st_KeysDirs st_EnrolledDir with_accounts with_provisioning with_uidmap].
  split; [done|]. split_and!; try done.
  - intros n. rewrite map_lookup_imap. rewrite publish_fold, map_lookup_imap.
    assert (n ∈ names ↔ is_Some (found !! n)) as Hn by (unfold names, sort_strings; by rewrite elem_of_stable_sort, elem_of_elements, elem_of_dom).
    destruct (found !! n) as [a|] eqn:Efn; cbn.
    + destruct (st_provisioned s !! n) as [p|]; cbn.
      * rewrite decide_True by (apply Hn; by eexists). cbn. unfold revokeUnless. rewrite map_lookup_imap, Efn. cbn. done.
      * unfold revokeUnless. rewrite map_lookup_imap, Efn. cbn. by destruct (st_accounts s !! n).
    + destruct (st_provisioned s !! n) as [p|]; cbn; unfold revokeUnless; rewrite map_lookup_imap, Efn; cbn; by destruct (st_accounts s !! n).
  - intros n. unfold unprovisioned. cbn. rewrite elem_of_union, elem_of_list_to_set, list_elem_of_filter. unfold names, sort_strings. rewrite elem_of_stable_sort, elem_of_elements, elem_of_dom.
    destruct (decide (n ∈ st_provisioning s)); naive_solver.
  - intros x n. destruct (readDirs_at s (dirs s) found0 un n Ef) as [_ ->]. done.
Qed.

End directories.
