(* ===== verification/AccountsTheorems.v ===== *)
(** * What the workspace promises about uids and keys (core-agent/accounts) *)

From Stdlib Require Import Ascii.
From S2P Require Import Prelude GoStrings Records Names Mounts AccountPorts KeyFiles KeyFilesProofs Accounts AccountsProofs.
Open Scope Z_scope.

Section theorems.
Context {key : Type} (ToLower : string → string) (ParseAuthorizedKey : string → option (key * string))
        (MarshalAuthorizedKey : key → string) (Fingerprint : key → string).
Abbreviation Store := (Store key).
Abbreviation swap := (swap ToLower ParseAuthorizedKey Fingerprint).
Abbreviation releaseName := (@releaseName key ToLower).

Definition uids (s : Store) : gmap string Z := parseUIDs (st_uidmap s).

(** ** A workspace over time *)

(** The store, the names of this process's creations, and the accounts a unix user
    was ever created for. *)
Record World := {
  w_store : Store;
  w_pending : gset string;
  w_users : gset string
}.

(** One hold of a lock, or one thing that happens outside. *)
Inductive step : World → World → Prop :=
| step_sync env s p u r s' : swap env s = (r, s') → step (Build_World s p u) (Build_World s' p u)
| step_append env account k comment s p u r s' :
    AppendKey ToLower ParseAuthorizedKey MarshalAuthorizedKey Fingerprint env account k comment s = (r, s') →
    step (Build_World s p u) (Build_World s' p u)
| step_remove_key env account fp s p u r s' :
    RemoveKey ToLower ParseAuthorizedKey Fingerprint env account fp s = (r, s') → step (Build_World s p u) (Build_World s' p u)
| step_remove_account env account s p u r s' :
    RemoveAccountFile ToLower ParseAuthorizedKey Fingerprint env account s = (r, s') → step (Build_World s p u) (Build_World s' p u)
| step_create env account name k comment s p u r s' :
    CreateAccount ToLower ParseAuthorizedKey MarshalAuthorizedKey Fingerprint env account k comment s = (r, s') → AccountName ToLower account = Some name →
    step (Build_World s p u) (Build_World s' (if is_ok r then {[name]} ∪ p else p) u)
| step_withdraw env name fp release s p u r s' :
    (release = true → name ∈ p) →
    edit ToLower ParseAuthorizedKey Fingerprint env name (withdrawChange ToLower ParseAuthorizedKey Fingerprint env name fp release) s = (r, s') →
    step (Build_World s p u) (Build_World s' p u)
| step_ensured name unix home s p u :
    name ∈ st_provisioning s → st_provisioned s !! name = None → step (Build_World s p u) (Build_World (ensured name unix home s) p ({[name]} ∪ u))
| step_provision_end name s p u : step (Build_World s p u) (Build_World (provisionEnd name s) p u)
| step_by_hand d s p u : step (Build_World s p u) (Build_World (with_disk d s) p u)
| step_restart s p u : step (Build_World s p u) (Build_World (New s) ∅ u).

(** A step after which no uid is as large as an [int] can be. *)
Definition fit_step (w w' : World) : Prop := step w w' ∧ uidsFit (uids (w_store w')).

Record world_inv (w : World) : Prop := {
  wi_base : 0 ≤ st_UIDBase (w_store w) < 2^63 - 1;
  wi_plain : uidsPlain (uids (w_store w));
  wi_nonneg : map_Forall (λ _ u, 0 ≤ u) (uids (w_store w));
  wi_inj : uidsInj (uids (w_store w));
  wi_accounts : ∀ n a, st_accounts (w_store w) !! n = Some a →
                  ac_Name a = n ∧ uids (w_store w) !! n = Some (ac_UID a) ∧ ac_GID a = ac_UID a ∧ st_provisioned (w_store w) !! n = Some (ac_Unix a, ac_Home a);
  wi_provisioned : ∀ n, is_Some (st_provisioned (w_store w) !! n) → n ∈ w_users w;
  wi_provisioning : ∀ n, n ∈ st_provisioning (w_store w) → n ≠ releasedUIDs ∧ is_Some (uids (w_store w) !! n);
  wi_users : ∀ n, n ∈ w_users w → n ≠ releasedUIDs ∧ is_Some (uids (w_store w) !! n);
  wi_pending : ∀ n, n ∈ w_pending w → goodName n ∧ (n ∈ w_users w → is_Some (st_provisioned (w_store w) !! n))
}.

(** What an uidmap may become. *)
Definition later (m m' : gmap string Z) : Prop :=
  (∀ n u, n ≠ releasedUIDs → m' !! n = Some u → m !! n = Some u ∨ ∀ k v, m !! k = Some v → v < u) ∧
  (∀ n v, m !! n = Some v → ∃ n' v', m' !! n' = Some v' ∧ v ≤ v').

Lemma later_refl m : later m m.
Proof. split; [auto|]. intros n v H. exists n, v. split; [done|lia]. Qed.

Lemma later_trans m1 m2 m3 : later m1 m2 → later m2 m3 → later m1 m3.
Proof.
  intros [A1 A2] [B1 B2]. split.
  - intros n u Hn Hu. destruct (B1 n u Hn Hu) as [H|H]; [by apply A1|]. right. intros k v Hv. destruct (A2 k v Hv) as (n' & v' & H' & Hle). specialize (H n' v' H'). lia.
  - intros n v Hv. destruct (A2 n v Hv) as (n1 & v1 & H1 & L1). destruct (B2 n1 v1 H1) as (n2 & v2 & H2 & L2). exists n2, v2. split; [done|lia].
Qed.

Definition keeps (w w' : World) : Prop :=
  later (uids (w_store w)) (uids (w_store w')) ∧ (∀ n, n ∈ w_users w → uids (w_store w') !! n = uids (w_store w) !! n) ∧ w_users w ⊆ w_users w'.

Lemma keeps_refl w : keeps w w.
Proof. split_and!; [apply later_refl|done|done]. Qed.

Lemma keeps_trans w1 w2 w3 : keeps w1 w2 → keeps w2 w3 → keeps w1 w3.
Proof.
  intros (A1 & A2 & A3) (B1 & B2 & B3). split_and!; [by eapply later_trans| |set_solver]. intros n Hn. rewrite B2 by set_solver. by apply A2.
Qed.

(** ** A sync *)

Lemma swap_err env s e s' : swap env s = (Err e, s') → s' = s.
Proof.
  unfold Accounts.swap, reconcile. destruct (loadUIDs env s); [|by intros [= _ <-]]. destruct (foldRes _ _ _) as [[? ?]|]; [|by intros [= _ <-]].
  destruct (foldl _ _ _) as [? []]; [destruct (saveUIDs _ _ _)|]; by intros [= ? <-].
Qed.

Lemma sourceFor_name s n dir : is_Some (sourceFor ToLower ParseAuthorizedKey s n dir) → goodName n.
Proof.
  unfold sourceFor, textFor. destruct (keyFiles ToLower s dir) as [files|] eqn:Ek; [|by intros [? ?]].
  destruct (List.find _ files) as [[f m]|] eqn:Ef; [|by intros [? ?]]. intros _.
  apply find_some in Ef as [Hin%list_elem_of_In Hm%bool_decide_eq_true]. cbn in Hm. subst m.
  destruct (keyFiles_spec ToLower s dir files Ek) as [_ H]. destruct (H f n Hin) as [Hn _]. by eapply AccountName_good.
Qed.

Lemma found_good s n a : accountWith n (omap (sourceFor ToLower ParseAuthorizedKey s n) (dirs s)) = Some a → goodName n.
Proof.
  intros (_ & _ & Hne)%accountWith_sources. destruct (omap _ (dirs s)) as [|src l] eqn:E; [done|].
  assert (src ∈ omap (sourceFor ToLower ParseAuthorizedKey s n) (dirs s)) as Hin by (rewrite E; left).
  apply list_elem_of_omap in Hin as (dir & _ & Hs). eapply sourceFor_name. by eexists.
Qed.

(** What a sync makes of the uidmap. *)
Lemma swap_uids env s started s' :
  swap env s = (Ok started, s') → uidsPlain (uids s) →
  uidsPlain (uids s') ∧ uids s ⊆ uids s' ∧
  (∀ n, is_Some (accountWith n (omap (sourceFor ToLower ParseAuthorizedKey s n) (dirs s))) → is_Some (uids s' !! n)) ∧
  (∀ n, is_Some (accountWith n (omap (sourceFor ToLower ParseAuthorizedKey s n) (dirs s))) → st_provisioned s !! n ≠ None →
        ∃ a, st_accounts s' !! n = Some a ∧ uids s' !! n = Some (ac_UID a)) ∧
  (0 ≤ st_UIDBase s < 2^63 - 1 → uidsInj (uids s) → uidsFit (uids s') → uidsInj (uids s') ∧ above (st_UIDBase s) (uids s) (uids s')).
Proof.
  intros Hs Hp. destruct (swap_spec _ _ _ _ _ _ _ Hs) as (found & uids' & Hf & Hu & Hm & Ha & _).
  set (names := sort_strings (elements (dom found))) in *.
  assert (∀ n, n ∈ names ↔ is_Some (found !! n)) as Hn by (intros n; unfold names, sort_strings; by rewrite elem_of_stable_sort, elem_of_elements, elem_of_dom).
  assert (Forall plainText names) as Hpl.
  { apply Forall_forall. intros n [a Hn']%Hn. rewrite Hf in Hn'. destruct (accountWith n _) eqn:E; [|done]. by eapply goodName_plain, found_good. }
  fold (uids s) in Hu, Hm. pose proof (uidStep_plain (st_UIDBase s) names (uids s) false Hpl Hp) as Hst.
  pose proof (uidStep_extends (st_UIDBase s) names (uids s) false) as Hext.
  pose proof (uidStep_fresh (st_UIDBase s) names (uids s) false) as Hfr.
  destruct (foldl (uidStep (st_UIDBase s)) (uids s, false) names) as [u' c'] eqn:Eu. cbn [fst snd] in *. subst u'. destruct Hst as (P1 & P2 & P3).
  assert (uids s' = uids') as E.
  { unfold uids at 1. destruct Hm as [->|[-> Hc]]; [by apply parse_saved_uids|]. symmetry. by apply P3. }
  rewrite E. split_and!; [done|done| | |auto].
  - intros n [a Hn']. apply P2. right. apply Hn. rewrite Hf, Hn'. by eexists.
  - intros n [a Hn'] Hpr. rewrite Ha, Hf, Hn'. cbn [fmap option_fmap option_map]. destruct (st_provisioned s !! n) as [p|]; [|done]. eexists. split; [done|]. cbn.
    assert (is_Some (uids' !! n)) as [u ->]; [|done]. apply P2. right. apply Hn. rewrite Hf, Hn'. by eexists.
Qed.

Lemma swap_inv env s p u r s' :
  world_inv (Build_World s p u) → swap env s = (r, s') → uidsFit (uids s') →
  world_inv (Build_World s' p u) ∧ keeps (Build_World s p u) (Build_World s' p u).
Proof.
  intros Hw Hs Hfit. destruct r as [started|e]; [|apply swap_err in Hs; subst s'; split; [done|apply keeps_refl]].
  destruct Hw as [Wb Wp Wn Wi Wa Wpr Wpg Wu Wpe]. cbn [w_store w_pending w_users] in *.
  destruct (swap_uids env s started s' Hs Wp) as (U1 & U2 & U3 & U4 & U5). destruct (U5 Wb Wi Hfit) as [U6 U7].
  destruct (swap_spec _ _ _ _ _ _ _ Hs) as (found & uids' & Hf & _ & _ & Ha & Hpg & _ & Ep & _ & Eb & _).
  assert (∀ n x, uids s !! n = Some x → uids s' !! n = Some x) as Hkeep by (intros n x Hx; by eapply lookup_weaken).
  split.
  - split; cbn [w_store w_pending w_users].
    + by rewrite Eb.
    + done.
    + intros n x Hx. destruct (U7 n x Hx) as [H|[H _]]; [exact (Wn n x H)|lia].
    + done.
    + intros n a Hn. rewrite Ep. destruct (accountWith n (omap (sourceFor ToLower ParseAuthorizedKey s n) (dirs s))) as [a0|] eqn:Eacc.
      * destruct (st_provisioned s !! n) as [pr|] eqn:Epr.
        -- destruct (U4 n) as (a' & Ha' & Hu'); [by eexists|by rewrite Epr|]. rewrite Hn in Ha'. injection Ha' as <-.
           rewrite Ha, Hf, Eacc, Epr in Hn. cbn in Hn. injection Hn as <-. destruct pr as [unix home]. cbn. split_and!; [by apply accountWith_sources in Eacc as (_ & -> & _)|done|done|done].
        -- rewrite Ha, Hf, Eacc, Epr in Hn. cbn in Hn. destruct (Wa n a Hn) as (_ & _ & _ & ?). congruence.
      * rewrite Ha, Hf, Eacc in Hn. cbn in Hn. destruct (st_accounts s !! n) as [a0|] eqn:Ea0; [|done]. cbn in Hn. injection Hn as <-.
        destruct (Wa n a0 Ea0) as (H1 & H2 & H3 & H4). unfold revokeOne. destruct (ac_Keys a0); split_and!; auto.
    + intros n. rewrite Ep. apply Wpr.
    + intros n [Hn|[Hn _]]%Hpg; [destruct (Wpg n Hn) as [? [x Hx]]; eauto|]. rewrite Hf in Hn. destruct (accountWith _ _) eqn:Eacc; [|by destruct Hn].
      split; [by eapply goodName_not_released, found_good|apply U3; rewrite Eacc; by eexists].
    + intros n Hn. destruct (Wu n Hn) as [? [x Hx]]. eauto.
    + intros n Hn. rewrite Ep. auto.
  - split_and!; cbn [w_store w_users]; [split|..].
    + intros n x _ Hx. destruct (U7 n x Hx) as [?|[_ ?]]; auto.
    + intros n x Hx. exists n, x. split; [eauto|lia].
    + intros n Hn. destruct (Wu n Hn) as [_ [x Hx]]. rewrite Hx. eauto.
    + done.
Qed.

(** ** A name released *)

Lemma release_inv env n s p u :
  world_inv (Build_World s p u) → n ∈ p →
  world_inv (Build_World (releaseName env n s) p u) ∧ keeps (Build_World s p u) (Build_World (releaseName env n s) p u).
Proof.
  intros Hw Hn. assert (∀ s', s' = s → world_inv (Build_World s' p u) ∧ keeps (Build_World s p u) (Build_World s' p u)) as Hsame by (intros s' ->; split; [done|apply keeps_refl]).
  unfold Accounts.releaseName. case_bool_decide as Hheld; [by apply Hsame|]. destruct (anyFile _ s n _) as [[]|]; [by apply Hsame| |by apply Hsame].
  unfold loadUIDs. destruct (se_readable env); [|by apply Hsame]. fold (uids s). destruct (uids s !! n) as [x|] eqn:Ex; [|by apply Hsame].
  unfold saveUIDs. destruct (se_writable env); [|by apply Hsame].
  set (m' := <[releasedUIDs := _]> (delete n (uids s))). clear Hsame.
  destruct Hw as [Wb Wp Wn Wi Wa Wpr Wpg Wu Wpe]. cbn [w_store w_pending w_users] in *. destruct (Wpe n Hn) as [Hgood Hnu].
  assert (n ∉ u) as Hnotu by (intros H; apply Hheld; left; auto). pose proof (goodName_not_released n Hgood) as Hnr.
  assert (0 ≤ x) as Hx0 by exact (Wn n x Ex).
  assert (∃ y, m' !! releasedUIDs = Some y ∧ x ≤ y ∧ (y = x ∨ uids s !! releasedUIDs = Some y)) as (y & Ey & Hxy & Hy).
  { unfold m'. rewrite lookup_insert_eq, lookup_delete_ne by done. eexists. split; [done|]. split; [lia|]. destruct (uids s !! releasedUIDs) as [y0|] eqn:Ey; cbn.
    - destruct (Z.max_spec y0 x) as [[_ ->]|[_ ->]]; auto.
    - left. lia. }
  assert (∀ k, k ≠ releasedUIDs → k ≠ n → m' !! k = uids s !! k) as Hm by (intros k H1 H2; unfold m'; rewrite lookup_insert_ne, lookup_delete_ne by done; done).
  assert (m' !! n = None) as Hmn by (unfold m'; rewrite lookup_insert_ne by done; apply lookup_delete_eq).
  assert (∀ k v, m' !! k = Some v → k = releasedUIDs ∧ v = y ∨ k ≠ releasedUIDs ∧ k ≠ n ∧ uids s !! k = Some v) as Hmv.
  { intros k v Hk. destruct (decide (k = releasedUIDs)) as [->|H1]; [left; split; [done|congruence]|]. destruct (decide (k = n)) as [->|H2]; [congruence|]. right. rewrite <- Hm by done. done. }
  assert (uidsPlain m') as Hpl.
  { intros k v Hk. destruct (Hmv k v Hk) as [[-> ->]|(_ & _ & H)]; [|exact (Wp k v H)]. split; [reflexivity|]. destruct Hy as [->|H]; [exact (proj2 (Wp n x Ex))|exact (proj2 (Wp _ _ H))]. }
  assert (uids (with_uidmap (Some (WriteRecord (lineOfUID m' <$> sort_strings (elements (dom m'))))) s) = m') as Eu by (unfold uids; cbn; by apply parse_saved_uids).
  split.
  - split; cbn [w_store w_pending w_users st_UIDBase with_uidmap st_accounts st_provisioned st_provisioning]; rewrite ?Eu; try done.
    + intros k v Hk. destruct (Hmv k v Hk) as [[-> ->]|(_ & _ & H)]; [lia|exact (Wn k v H)].
    + intros a b v Hav Hbv. destruct (Hmv a v Hav) as [[-> ->]|(A1 & A2 & A3)], (Hmv b _ Hbv) as [[-> Hb]|(B1 & B2 & B3)]; [done| | |by eapply Wi].
      * destruct Hy as [->|H]; [by destruct B2; eapply Wi|by eapply Wi].
      * subst v. destruct Hy as [->|H]; [by destruct A2; eapply Wi|by eapply Wi].
    + intros k a Hk. destruct (Wa k a Hk) as (H1 & H2 & H3 & H4). assert (k ∈ u) as Hku by (apply Wpr; by eexists). split_and!; try done.
      rewrite Hm; [done|by apply Wu|by intros ->].
    + intros k Hk. destruct (Wpg k Hk) as [? ?]. split; [done|]. rewrite Hm; [done|done|]. intros ->. apply Hheld. auto.
    + intros k Hk. destruct (Wu k Hk) as [? ?]. split; [done|]. rewrite Hm; [done|done|by intros ->].
  - split_and!; cbn [w_store w_users]; rewrite ?Eu; [split|..].
    + intros k v Hk Hv. left. by destruct (Hmv k v Hv) as [[? _]|(_ & _ & ?)].
    + intros k v Hk. destruct (decide (k = n)) as [->|H2]; [exists releasedUIDs, y; split; [done|replace v with x by congruence; done]|].
      destruct (decide (k = releasedUIDs)) as [->|H1]; [|exists k, v; rewrite Hm by done; split; [done|lia]].
      exists releasedUIDs, y. split; [done|]. unfold m' in Ey. rewrite lookup_insert_eq, lookup_delete_ne, Hk in Ey by done. cbn in Ey. injection Ey as <-. lia.
    + intros k Hk. apply Hm; [by apply Wu|by intros ->].
    + done.
Qed.

(** ** Every step *)

Lemma disk_inv d s p u : world_inv (Build_World s p u) → world_inv (Build_World (with_disk d s) p u) ∧ keeps (Build_World s p u) (Build_World (with_disk d s) p u).
Proof. intros []. split; [by split|apply (keeps_refl (Build_World s p u))]. Qed.

Lemma edit_inv {A} env name change s p u (r : res accountError A) s' :
  world_inv (Build_World s p u) → uidsFit (uids s') →
  (∀ file d a s1, change file d s = Ok (a, s1) → world_inv (Build_World s1 p u) ∧ keeps (Build_World s p u) (Build_World s1 p u)) →
  edit ToLower ParseAuthorizedKey Fingerprint env name change s = (r, s') →
  world_inv (Build_World s' p u) ∧ keeps (Build_World s p u) (Build_World s' p u).
Proof.
  intros Hw Hfit Hc. unfold edit. case_bool_decide; [intros [= _ <-]; split; [done|apply keeps_refl]|].
  destruct (st_disk s !! st_EnrolledDir s) as [d|]; [|intros [= _ <-]; split; [done|apply keeps_refl]].
  destruct (change _ d s) as [[a s1]|e] eqn:Ec; [|intros [= _ <-]; split; [done|apply keeps_refl]]. destruct (Hc _ _ _ _ Ec) as [Hw1 Hk1].
  destruct (swap env s1) as [r1 s2] eqn:Es. intros E. assert (s2 = s') as -> by (destruct r1; by injection E as _ <-).
  destruct (swap_inv env s1 p u r1 s' Hw1 Es Hfit) as [Hw2 Hk2]. split; [done|by eapply keeps_trans].
Qed.

Lemma removeChange_disk fp file d (s : Store) r s' : removeChange ParseAuthorizedKey Fingerprint fp file d s = Ok (r, s') → ∃ d', s' = put_enrolled d' s.
Proof. unfold removeChange. destruct (removeKeyLine _ _ _ _ _) as [[? ?]|]; [|done]. intros [= _ <-]. by eexists. Qed.

Lemma edit_ok {A} env name change s (a : A) s' :
  edit ToLower ParseAuthorizedKey Fingerprint env name change s = (Ok a, s') →
  ∃ d s1 started, st_EnrolledDir s ≠ ""%string ∧ st_disk s !! st_EnrolledDir s = Some d ∧ change (name +:+ pub) d s = Ok (a, s1) ∧ swap env s1 = (Ok started, s').
Proof.
  unfold edit. case_bool_decide; [done|]. destruct (st_disk s !! st_EnrolledDir s) as [d|]; [|done].
  destruct (change _ d s) as [[a0 s1]|e] eqn:Ec; [|done]. destruct (swap env s1) as [[started|?] s2] eqn:Es; [|done]. intros [= <- <-]. eauto 10.
Qed.

Lemma createChange_ok env name k comment file d (s : Store) s1 :
  createChange ToLower MarshalAuthorizedKey env name k comment file d s = Ok (tt, s1) →
  s1 = put_enrolled (<[file := keyLineFor MarshalAuthorizedKey k comment +:+ String newline ""]> d) s ∧ uids s !! name = None ∧ d !! file = None.
Proof.
  unfold createChange, Known, loadUIDs. destruct (se_readable env); [|done]. fold (uids s). destruct (uids s !! name) eqn:Eu; [done|].
  destruct (anyFile _ s name _) as [[]|]; [done| |done]. destruct (d !! file); [done|]. by intros [= <-].
Qed.

Lemma pending_inv s p u name : world_inv (Build_World s p u) → goodName name → name ∉ u → world_inv (Build_World s ({[name]} ∪ p) u).
Proof.
  intros [] Hg Hu. split; cbn in *; try done. intros n [->%elem_of_singleton|Hn]%elem_of_union; [|auto]. by split.
Qed.

Lemma fit_step_inv w w' : world_inv w → fit_step w w' → world_inv w' ∧ keeps w w'.
Proof.
  intros Hw [Hs Hfit]. destruct Hs; cbn [w_store] in Hfit.
  - by eapply swap_inv.
  - unfold AppendKey in H. destruct (AccountName ToLower account) as [name|]; [|injection H as _ <-; split; [done|apply keeps_refl]].
    eapply edit_inv; [done|done| |exact H]. intros file d a s1. unfold appendChange. destruct (fileLines d file); [|done].
    destruct (snd _); intros [= _ <-]; [split; [done|apply keeps_refl]|]. by apply disk_inv.
  - unfold RemoveKey in H. destruct (AccountName ToLower account) as [name|]; [|injection H as _ <-; split; [done|apply keeps_refl]].
    destruct (operatorFiles _ s name) as [files|]; [|injection H as _ <-; split; [done|apply keeps_refl]].
    destruct (existsb _ files); [injection H as _ <-; split; [done|apply keeps_refl]|].
    eapply edit_inv; [done|done| |exact H]. intros file d a s1 [d' ->]%removeChange_disk. by apply disk_inv.
  - unfold RemoveAccountFile in H. destruct (AccountName ToLower account) as [name|]; [|injection H as _ <-; split; [done|apply keeps_refl]].
    destruct (operatorFiles _ s name) as [[|? ?]|]; [|injection H as _ <-; split; [done|apply keeps_refl]..].
    eapply edit_inv; [done|done| |exact H]. intros file d a s1 [= _ <-]. by apply disk_inv.
  - unfold CreateAccount in H. rewrite H0 in H.
    destruct (edit_inv env name (createChange ToLower MarshalAuthorizedKey env name k comment) s p u r s' Hw Hfit) as [Hw' Hk]; [|exact H|].
    { intros file d [] s1 [-> _]%createChange_ok. by apply disk_inv. }
    destruct r as [[]|e]; cbn [is_ok]; [|done]. split; [|done]. apply pending_inv; [done|by eapply AccountName_good|].
    apply edit_ok in H as (d & s1 & started & _ & _ & (_ & Hn & _)%createChange_ok & _). intros Hu.
    destruct (wi_users _ Hw name Hu) as [_ [x Hx]]. cbn in Hx. congruence.
  - eapply edit_inv; [done|done| |exact H0]. intros file d a s1. unfold withdrawChange. destruct (removeChange _ _ fp file d s) as [[b s2]|] eqn:Er; [|done].
    intros [= _ <-]. apply removeChange_disk in Er as [d' ->]. destruct (disk_inv (<[st_EnrolledDir s := d']> (st_disk s)) s p u Hw) as [Hw1 Hk1].
    destruct release; [|done]. destruct (release_inv env name (put_enrolled d' s) p u Hw1) as [Hw2 Hk2]; [auto|]. split; [exact Hw2|exact (keeps_trans _ _ _ Hk1 Hk2)].
  - destruct Hw as [Wb Wp Wn Wi Wa Wpr Wpg Wu Wpe]. cbn [w_store w_pending w_users] in *. split.
    + split; cbn [w_store w_pending w_users ensured with_provisioned st_UIDBase st_accounts st_provisioned st_provisioning]; try done.
      * intros n a Hn. destruct (Wa n a Hn) as (? & ? & ? & Hp). split_and!; try done. rewrite lookup_insert_ne; [done|congruence].
      * intros n. rewrite lookup_insert_is_Some'. intros [->|Hn]; [set_solver|]. apply elem_of_union. right. auto.
      * intros n [->%elem_of_singleton|Hn]%elem_of_union; [by apply Wpg|by apply Wu].
      * intros n Hn. destruct (Wpe n Hn) as [Hg Hu]. split; [done|]. rewrite lookup_insert_is_Some'. intros [->%elem_of_singleton|H1]%elem_of_union; auto.
    + split_and!; [apply later_refl|done|cbn; set_solver].
  - destruct Hw as [Wb Wp Wn Wi Wa Wpr Wpg Wu Wpe]. split; [|apply (keeps_refl (Build_World s p u))]. split; cbn in *; try done. intros n [Hn _]%elem_of_difference. auto.
  - by apply disk_inv.
  - destruct Hw as [Wb Wp Wn Wi Wa Wpr Wpg Wu Wpe]. split; [|apply (keeps_refl (Build_World s p u))].
    split; cbn in *; try done. by intros ? [? ?%lookup_empty_Some].
Qed.

(** A workspace that starts: its uidmap holds distinct uids under names as the
    accounts have them, and every account that has a unix user is in it. *)
Definition starts (w : World) : Prop :=
  w_store w = New (w_store w) ∧ w_pending w = ∅ ∧ 0 ≤ st_UIDBase (w_store w) < 2^63 - 1 ∧
  uidsPlain (uids (w_store w)) ∧ map_Forall (λ _ u, 0 ≤ u) (uids (w_store w)) ∧ uidsInj (uids (w_store w)) ∧
  (∀ n, n ∈ w_users w → n ≠ releasedUIDs ∧ is_Some (uids (w_store w) !! n)).

Definition world_reachable (w : World) : Prop := ∃ w0, starts w0 ∧ rtc fit_step w0 w.

Lemma starts_inv w : starts w → world_inv w.
Proof.
  destruct w as [s p u]. intros (Es & Ep & Hb & Hp & Hn & Hi & Hu). cbn [w_store w_pending w_users] in *. subst p. split; cbn [w_store w_pending w_users]; try done; rewrite Es; cbn.
  - by intros ? ? ?%lookup_empty_Some.
  - by intros ? [? ?%lookup_empty_Some].
  - by intros ? []%elem_of_empty.
Qed.

Lemma steps_inv w w' : world_inv w → rtc fit_step w w' → world_inv w' ∧ keeps w w'.
Proof.
  intros Hw. induction 1 as [w|w1 w2 w3 H12 _ IH]; [split; [done|apply keeps_refl]|]. destruct (fit_step_inv _ _ Hw H12) as [Hw2 Hk2].
  destruct (IH Hw2) as [Hw3 Hk3]. split; [done|by eapply keeps_trans].
Qed.

Lemma world_reachable_inv w : world_reachable w → world_inv w.
Proof. intros (w0 & H0%starts_inv & Hs). by eapply steps_inv. Qed.


(** ** Keys *)

Abbreviation textFor := (@textFor key ToLower).
Abbreviation sourceFor := (@sourceFor key ToLower ParseAuthorizedKey).

(** A file gives an account a key: it holds it, or it is unusable, was not so at
    the last sync, and gave it then. *)
Definition gives (s : Store) (dir name text : string) (k : key) : Prop :=
  match parseKeys ParseAuthorizedKey text with
  | Some (keys, _, _) => ∃ k', k' ∈ keys ∧ Fingerprint k' = Fingerprint k
  | None => (dir, name) ∉ st_unusable s ∧ fromSource Fingerprint k (Account_source (st_accounts s !! name) dir)
  end.

Lemma gives_spec s dir name k :
  (∃ src, sourceFor s name dir = Some src ∧ fromSource Fingerprint k src) ↔ ∃ text, textFor s dir name = Some text ∧ gives s dir name text k.
Proof.
  unfold AccountsProofs.sourceFor. destruct (textFor s dir name) as [text|]; [|naive_solver].
  assert ((∃ src, (contribution ParseAuthorizedKey s dir name text).1 = Some src ∧ fromSource Fingerprint k src) ↔ gives s dir name text k) as H; [|naive_solver].
  unfold contribution, gives. destruct (parseKeys ParseAuthorizedKey text) as [[[keys cs] n]|].
  - cbn [fst]. unfold fromSource. split; [intros (src & [= <-] & H); exact H|]. intros H. eexists. split; [done|exact H].
  - case_bool_decide as Hu; cbn [fst]; [split; [by intros (? & ? & ?)|by intros [? _]]|].
    destruct (so_Keys (Account_source _ _)) as [|k0 ks] eqn:Ek.
    + split; [by intros (? & ? & ?)|]. intros (_ & k' & Hk' & _). rewrite Ek in Hk'. by apply elem_of_nil in Hk'.
    + split; [intros (src & [= <-] & H); done|]. intros [_ H]. eauto.
Qed.

(** Who may authenticate after a sync, by what was read. *)
Lemma swap_authorized w env started s' name k :
  world_inv w → let s := w_store w in swap env s = (Ok started, s') →
  ((∃ a, st_accounts s' !! name = Some a ∧ Authorized Fingerprint a k = true) ↔
   is_Some (st_provisioned s !! name) ∧ ∃ dir text, dir ∈ dirs s ∧ textFor s dir name = Some text ∧ gives s dir name text k).
Proof.
  intros Hw s Hs. destruct (swap_spec _ _ _ _ _ _ _ Hs) as (found & uids' & Hf & _ & _ & Ha & _). rewrite Ha, Hf.
  assert ((∃ dir text, dir ∈ dirs s ∧ textFor s dir name = Some text ∧ gives s dir name text k) ↔
          ∃ src, src ∈ omap (sourceFor s name) (dirs s) ∧ fromSource Fingerprint k src) as ->.
  { setoid_rewrite list_elem_of_omap. pose proof (gives_spec s) as Hg. split.
    - intros (dir & text & Hd & Ht). destruct (proj2 (Hg dir name k)) as (src & Hs1 & Hs2); [eauto|]. eauto 10.
    - intros (src & (dir & Hd & Hsrc) & Hk). destruct (proj1 (Hg dir name k)) as (text & H1 & H2); [eauto|]. eauto 10. }
  destruct (accountWith name (omap (sourceFor s name) (dirs s))) as [a0|] eqn:Ea; cbn [fmap option_fmap option_map].
  - apply accountWith_sources in Ea as (Esrc & _ & _). destruct (st_provisioned s !! name) as [pr|] eqn:Ep.
    + assert (∀ a, Authorized Fingerprint (with_unix pr (with_uid (default 0 (uids' !! name)) a)) k = Authorized Fingerprint a k) as Hau by done.
      split.
      * intros (a & [= <-] & H). rewrite Hau in H. apply gatherKeys_authorized in H. rewrite Esrc in H. eauto.
      * intros [_ H]. eexists. split; [done|]. rewrite Hau. apply gatherKeys_authorized. by rewrite Esrc.
    + split; [|by intros [[? ?] _]]. intros (a & Hn & _). destruct (wi_accounts _ Hw name a Hn) as (_ & _ & _ & ?). fold s in H. congruence.
  - assert (omap (sourceFor s name) (dirs s) = []) as -> by (by destruct (omap _ _)). split.
    + intros (a & Hn & Hau). destruct (st_accounts s !! name) as [a1|]; [|done]. cbn in Hn. injection Hn as <-. unfold revokeOne in Hau.
      destruct (ac_Keys a1) as [|? ?] eqn:E; [|done]. unfold Authorized in Hau. by rewrite E in Hau.
    + intros (_ & src & []%elem_of_nil & _).
Qed.

(** The file read for an account is one of the directory that names it, and the one
    called as the account where there is one. *)
Lemma find_unique (files : list (string * string)) f n : NoDup files.*2 → (f, n) ∈ files → List.find (λ x, bool_decide (x.2 = n)) files = Some (f, n).
Proof.
  intros Hnd Hin. destruct (List.find _ files) as [[f' n']|] eqn:E.
  - apply find_some in E as [H1%list_elem_of_In H2%bool_decide_eq_true]. cbn in H2. subst n'. f_equal.
    apply list_elem_of_lookup in Hin as [i Hi], H1 as [j Hj]. assert (i = j) as ->; [|congruence].
    eapply NoDup_lookup; [exact Hnd| |]; rewrite list_lookup_fmap; [by rewrite Hi|by rewrite Hj].
  - apply list_elem_of_In in Hin. apply (find_none _ _ E), bool_decide_eq_false in Hin. done.
Qed.

Lemma textFor_exact (s : Store) dir d name text :
  st_disk s !! dir = Some d → d !! (name +:+ pub) = Some text → AccountName ToLower name = Some name → textFor s dir name = Some text.
Proof.
  intros Hd Ht Hn. unfold AccountsProofs.textFor. destruct (keyFiles ToLower s dir) as [files|] eqn:Ek.
  2: { unfold keyFiles in Ek. by rewrite Hd in Ek. }
  destruct (keyFiles_spec ToLower s dir files Ek) as [Hnd _]. rewrite (find_unique files (name +:+ pub) name Hnd).
  - rewrite Hd. cbn. done.
  - eapply exact_file_wins; [done|done|by eexists|done].
Qed.

Lemma textFor_file (s : Store) dir name text :
  textFor s dir name = Some text → ∃ d file, st_disk s !! dir = Some d ∧ d !! file = Some text ∧ nameOf ToLower file = Some name ∧ fileFor ToLower s dir name = Ok (Some file).
Proof.
  unfold AccountsProofs.textFor, fileFor. destruct (keyFiles ToLower s dir) as [files|] eqn:Ek; [|done]. destruct (List.find _ files) as [[f n]|] eqn:Ef; [|done].
  apply find_some in Ef as [Hin%list_elem_of_In Hn%bool_decide_eq_true]. cbn in Hn. subst n.
  destruct (keyFiles_spec ToLower s dir files Ek) as [_ H]. destruct (H f name Hin) as (Hn & _ & d & text' & Hd & Ht). rewrite Hd. cbn. intros Ht'. eauto 10.
Qed.

(** C12 (functional). Who may authenticate follows the key files.  After a sync a key
    authenticates as an account exactly if the account's unix user has been
    created and some keys directory gives it that key: its file for the account
    holds the key, or holds no usable key although it did at the last sync and
    gave that key then, so that it takes two reads in a row of an unusable file
    (or its removal) to revoke.  The file a directory has for the account is one
    whose name folds to it, and the one named exactly so where there is one,
    whatever else folds to the same name. *)
Theorem keys_follow_files w env started s' name k :
  world_reachable w → swap env (w_store w) = (Ok started, s') →
  ((∃ a, st_accounts s' !! name = Some a ∧ Authorized Fingerprint a k = true) ↔
   is_Some (st_provisioned (w_store w) !! name) ∧
   ∃ dir text, dir ∈ dirs (w_store w) ∧ textFor (w_store w) dir name = Some text ∧ gives (w_store w) dir name text k) ∧
  (∀ dir text, textFor (w_store w) dir name = Some text →
     ∃ d file, st_disk (w_store w) !! dir = Some d ∧ d !! file = Some text ∧ nameOf ToLower file = Some name) ∧
  (∀ dir d text, st_disk (w_store w) !! dir = Some d → d !! (name +:+ pub) = Some text → AccountName ToLower name = Some name →
     textFor (w_store w) dir name = Some text).
Proof.
  intros Hw%world_reachable_inv Hs. split_and!.
  - by eapply swap_authorized.
  - intros dir text Ht. destruct (textFor_file _ _ _ _ Ht) as (d & file & ? & ? & ? & _). eauto.
  - intros dir d text. apply textFor_exact.
Qed.

(** ** Enrolling *)

Context (ToLower_lower : ∀ s, everyByte accountByte s = true → ToLower s = s).
Context (marshal_plain : ∀ k, everyByte plainByte (strings.TrimSpace (MarshalAuthorizedKey k)) = true).
Context (marshal_start : ∀ k, ∃ a s, strings.TrimSpace (MarshalAuthorizedKey k) = String a s ∧ visible a = true ∧ a ≠ "#"%char).
Context (parse_marshal : ∀ k rest, strings.Contains rest newline = false → rest = ""%string ∨ strings.HasPrefix rest " " = true →
  ∃ comment, ParseAuthorizedKey (strings.TrimSpace (strings.TrimSpace (MarshalAuthorizedKey k) +:+ rest)) = Some (k, comment)).

(** A file of a directory, wherever it is. *)
Definition fileAt (s : Store) (dir file : string) : option string := st_disk s !! dir ≫= λ d, d !! file.

(** The keys an account is enrolled with by the agent. *)
Definition enrolledKeys (s : Store) (name : string) : list key :=
  fileKeys ParseAuthorizedKey (default ∅ (st_disk s !! st_EnrolledDir s)) (name +:+ pub).

(** Only the account's enrolled file may differ. *)
Definition onlyFile (name : string) (s s' : Store) : Prop :=
  st_EnrolledDir s' = st_EnrolledDir s ∧ st_KeysDirs s' = st_KeysDirs s ∧ st_provisioned s' = st_provisioned s ∧
  ∀ dir file, (dir, file) ≠ (st_EnrolledDir s, name +:+ pub) → fileAt s' dir file = fileAt s dir file.

Lemma put_enrolled_only name d d' (s : Store) s' started :
  st_disk s !! st_EnrolledDir s = Some d → leavesOthers (name +:+ pub) d d' → ∀ env, swap env (put_enrolled d' s) = (Ok started, s') →
  onlyFile name s s' ∧ enrolledKeys s' name = fileKeys ParseAuthorizedKey d' (name +:+ pub) ∧ st_disk s' !! st_EnrolledDir s' = Some d'.
Proof.
  clear ToLower_lower marshal_plain marshal_start parse_marshal.
  intros Hd [_ Hl] env Hs. destruct (swap_spec _ _ _ _ _ _ _ Hs) as (? & ? & _ & _ & _ & _ & _ & _ & E1 & E2 & _ & E3 & E4).
  assert (st_disk s' !! st_EnrolledDir s' = Some d') as Hd' by (rewrite E2, E4; cbn; apply lookup_insert_eq). split_and!; [split_and!| |done].
  - done.
  - done.
  - done.
  - intros dir file Hne. unfold fileAt. rewrite E2. cbn. destruct (decide (dir = st_EnrolledDir s)) as [->|Hdir]; [|by rewrite lookup_insert_ne].
    rewrite lookup_insert_eq, Hd. cbn. apply Hl. congruence.
  - unfold enrolledKeys. by rewrite Hd'.
Qed.

Lemma AppendKey_spec env account name k comment s added s' :
  AccountName ToLower account = Some name → (∀ d, st_disk s !! st_EnrolledDir s = Some d → dirOk d) →
  AppendKey ToLower ParseAuthorizedKey MarshalAuthorizedKey Fingerprint env account k comment s = (Ok added, s') →
  onlyFile name s s' ∧ (added = false ↔ ∃ k', k' ∈ enrolledKeys s name ∧ Fingerprint k' = Fingerprint k) ∧
  enrolledKeys s' name = enrolledKeys s name ++ (if added then [k] else []) ∧ (∃ d, st_disk s !! st_EnrolledDir s = Some d).
Proof.
  intros Hn Hok. unfold AppendKey. rewrite Hn. intros (d & s1 & started & _ & Hd & Hc & Hs)%edit_ok. specialize (Hok d Hd).
  unfold appendChange in Hc. destruct (fileLines d (name +:+ pub)) as [lines|] eqn:El; [|done].
  assert (enrolledKeys s name = omap (lineKey ParseAuthorizedKey) lines) as Ek by (unfold enrolledKeys, fileKeys; rewrite Hd; change (default ∅ (Some d)) with d; by rewrite El).
  pose proof (withoutKey_found ParseAuthorizedKey Fingerprint (Fingerprint k) lines) as Hw.
  destruct (snd (withoutKey _ _ _ _)) eqn:Ef; injection Hc as <- <-.
  - assert (s = put_enrolled d s) as Es by (unfold put_enrolled; destruct s; cbn in *; by rewrite insert_id). rewrite Es in Hs.
    destruct (put_enrolled_only name d d s s' started Hd) with (env := env) as (O1 & O2 & _); [split; done|done|]. split_and!; [done| | |eauto].
    + rewrite Ek, <- Hw. done.
    + rewrite O2, app_nil_r. unfold enrolledKeys. by rewrite Hd.
  - destruct (append_spec ParseAuthorizedKey MarshalAuthorizedKey marshal_plain marshal_start parse_marshal d (name +:+ pub) lines k comment Hok El) as [L1 L2].
    destruct (put_enrolled_only name _ _ s s' started Hd L1 env Hs) as (O1 & O2 & _). split_and!; [done| | |eauto].
    + rewrite Ek, <- Hw. done.
    + rewrite O2, L2. unfold enrolledKeys. by rewrite Hd.
Qed.

(** The operator's files that name an account, in the order of the directories. *)
Lemma operatorFiles_spec (s : Store) name files :
  operatorFiles ToLower s name = Ok files → ∀ dir file, (dir, file) ∈ files ↔ dir ∈ st_KeysDirs s ∧ fileFor ToLower s dir name = Ok (Some file).
Proof using Type.
  clear ParseAuthorizedKey MarshalAuthorizedKey Fingerprint ToLower_lower marshal_plain marshal_start parse_marshal.
  unfold operatorFiles. revert files. induction (st_KeysDirs s) as [|dir0 ds IH] using rev_ind; intros files.
  { intros [= <-] dir file. rewrite !elem_of_nil. tauto. }
  rewrite foldRes_app. destruct (foldRes _ _ ds) as [out|]; [|done]. cbn [foldRes]. specialize (IH out eq_refl).
  destruct (fileFor ToLower s dir0 name) as [[file0|]|] eqn:Ef; [| |done]; intros [= <-] dir file; rewrite !elem_of_app, IH, !list_elem_of_singleton.
  - split; [intros [[? ?]|[= -> ->]]; auto|]. intros [[?|Hd] Hf]; [auto|]. subst dir. right. congruence.
  - split; [intros [? ?]; auto|]. intros [[?|Hd] Hf]; [auto|]. subst dir. congruence.
Qed.

Lemma RemoveKey_spec env account name fp s removed s' :
  AccountName ToLower account = Some name → (∀ d, st_disk s !! st_EnrolledDir s = Some d → dirOk d) →
  RemoveKey ToLower ParseAuthorizedKey Fingerprint env account fp s = (Ok removed, s') →
  onlyFile name s s' ∧ (removed = true ↔ ∃ k', k' ∈ enrolledKeys s name ∧ Fingerprint k' = fp) ∧
  enrolledKeys s' name = filter (λ k', Fingerprint k' ≠ fp) (enrolledKeys s name) ∧
  (∀ dir file, dir ∈ st_KeysDirs s → fileFor ToLower s dir name = Ok (Some file) →
     ∀ k', k' ∈ fileKeys ParseAuthorizedKey (default ∅ (st_disk s !! dir)) file → Fingerprint k' ≠ fp) ∧
  ∃ d d' started, st_disk s !! st_EnrolledDir s = Some d ∧ removeKeyLine ParseAuthorizedKey Fingerprint (name +:+ pub) fp d = Some (removed, d') ∧
                  swap env (put_enrolled d' s) = (Ok started, s').
Proof.
  clear ToLower_lower marshal_plain marshal_start parse_marshal.
  intros Hn Hok. unfold RemoveKey. rewrite Hn. destruct (operatorFiles ToLower s name) as [files|] eqn:Eo; [|done].
  pose proof (operatorFiles_spec s name files Eo) as Hfiles. destruct (existsb _ files) eqn:Ee; [done|].
  intros (d & s1 & started & _ & Hd & Hc & Hs)%edit_ok. specialize (Hok d Hd). unfold removeChange in Hc.
  destruct (removeKeyLine _ _ _ _ d) as [[b d']|] eqn:Er; [|done]. injection Hc as <- <-.
  destruct (removeKeyLine_spec ParseAuthorizedKey Fingerprint d _ fp b d' Hok Er) as (L1 & L2 & L3).
  destruct (put_enrolled_only name d d' s s' started Hd L1 env Hs) as (O1 & O2 & _). split_and!; [done| | | |eauto 10].
  - rewrite L2. unfold enrolledKeys. by rewrite Hd.
  - rewrite O2, L3. unfold enrolledKeys. by rewrite Hd.
  - intros dir file Hin Hff k' Hk' Hfp. assert (false = true) as ?; [|done]. rewrite <- Ee. apply existsb_exists. exists (dir, file).
    split; [by apply list_elem_of_In, Hfiles|]. unfold operatorHolds. cbn [fst snd]. unfold fileKeys in Hk'. destruct (fileLines _ file) as [lines|]; [|by apply elem_of_nil in Hk'].
    apply withoutKey_found. eauto.
Qed.

Lemma CreateAccount_spec env account name k comment s s' :
  AccountName ToLower account = Some name → (∀ d, st_disk s !! st_EnrolledDir s = Some d → dirOk d) →
  CreateAccount ToLower ParseAuthorizedKey MarshalAuthorizedKey Fingerprint env account k comment s = (Ok tt, s') →
  onlyFile name s s' ∧ uids s !! name = None ∧ fileAt s (st_EnrolledDir s) (name +:+ pub) = None ∧ enrolledKeys s' name = [k].
Proof.
  intros Hn Hok. unfold CreateAccount. rewrite Hn. intros (d & s1 & started & _ & Hd & (-> & Hu & Hf)%createChange_ok & Hs)%edit_ok.
  destruct (created_spec ParseAuthorizedKey MarshalAuthorizedKey marshal_plain marshal_start parse_marshal d (name +:+ pub) k comment (Hok d Hd)) as [L1 L2].
  destruct (put_enrolled_only name _ _ s s' started Hd L1 env Hs) as (O1 & O2 & _). split_and!; [done|done| |by rewrite O2].
  unfold fileAt. rewrite Hd. done.
Qed.

(** An enrolment changes exactly one key of one account.  Adding a key
    puts it behind the account's others, unless the account has it, whatever the
    comment says; removing one takes it out and leaves the others in order, and
    succeeds only where no operator's file for the account has it; creating an
    account succeeds only for a name the uidmap does not have and no enrolled file
    has, and gives it that key alone.  No other file of any directory is touched. *)
Theorem enrolment_changes_one_key env account name k comment fp s :
  AccountName ToLower account = Some name → (∀ d, st_disk s !! st_EnrolledDir s = Some d → dirOk d) →
  (∀ added s', AppendKey ToLower ParseAuthorizedKey MarshalAuthorizedKey Fingerprint env account k comment s = (Ok added, s') →
     onlyFile name s s' ∧ (added = false ↔ ∃ k', k' ∈ enrolledKeys s name ∧ Fingerprint k' = Fingerprint k) ∧
     enrolledKeys s' name = enrolledKeys s name ++ (if added then [k] else [])) ∧
  (∀ removed s', RemoveKey ToLower ParseAuthorizedKey Fingerprint env account fp s = (Ok removed, s') →
     onlyFile name s s' ∧ (removed = true ↔ ∃ k', k' ∈ enrolledKeys s name ∧ Fingerprint k' = fp) ∧
     enrolledKeys s' name = filter (λ k', Fingerprint k' ≠ fp) (enrolledKeys s name) ∧
     (∀ dir file, dir ∈ st_KeysDirs s → fileFor ToLower s dir name = Ok (Some file) →
        ∀ k', k' ∈ fileKeys ParseAuthorizedKey (default ∅ (st_disk s !! dir)) file → Fingerprint k' ≠ fp)) ∧
  (∀ s', CreateAccount ToLower ParseAuthorizedKey MarshalAuthorizedKey Fingerprint env account k comment s = (Ok tt, s') →
     onlyFile name s s' ∧ uids s !! name = None ∧ fileAt s (st_EnrolledDir s) (name +:+ pub) = None ∧ enrolledKeys s' name = [k]).
Proof.
  intros Hn Hok. split_and!.
  - intros added s' H. destruct (AppendKey_spec _ _ _ _ _ _ _ _ Hn Hok H) as (? & ? & ? & _). done.
  - intros removed s' H. destruct (RemoveKey_spec _ _ _ _ _ _ _ Hn Hok H) as (? & ? & ? & ? & _). done.
  - intros s' H. by eapply CreateAccount_spec.
Qed.

(** ** What an enrolment is worth at once *)

Lemma put_enrolled_inv w d : world_inv w → world_inv (Build_World (put_enrolled d (w_store w)) (w_pending w) (w_users w)).
Proof.
  clear ToLower_lower marshal_plain marshal_start parse_marshal. destruct w as [s p u]. intros Hw. cbn [w_store w_pending w_users]. by apply disk_inv. Qed.

Lemma enrolled_in_dirs (s : Store) : st_EnrolledDir s ≠ ""%string → st_EnrolledDir s ∈ dirs s.
Proof.
  clear ToLower_lower marshal_plain marshal_start parse_marshal. intros H. unfold dirs. rewrite bool_decide_eq_false_2 by done. set_solver. Qed.

(** Every key a directory's exact file holds is given, where its lines are short. *)
Lemma exact_file_gives (s : Store) dir d name k :
  AccountName ToLower name = Some name → st_disk s !! dir = Some d → (∀ text, d !! (name +:+ pub) = Some text → shortLines text) →
  (∃ k', k' ∈ fileKeys ParseAuthorizedKey d (name +:+ pub) ∧ Fingerprint k' = Fingerprint k) →
  ∃ text, textFor s dir name = Some text ∧ gives s dir name text k.
Proof.
  clear ToLower_lower marshal_plain marshal_start parse_marshal.
  intros Hn Hd Hsh (k' & Hk' & Hfp). unfold fileKeys, fileLines in Hk'. destruct (d !! (name +:+ pub)) as [text|] eqn:Et; [|by apply elem_of_nil in Hk'].
  destruct (readLines text) as [lines|] eqn:Er; [|by apply elem_of_nil in Hk']. exists text. split; [by eapply textFor_exact|].
  pose proof (parseKeys_spec ParseAuthorizedKey text) as Hp. unfold gives. destruct (parseKeys _ text) as [[[keys ?] ?]|].
  - destruct Hp as (_ & lines' & E & ->). rewrite Er in E. injection E as <-. eauto.
  - rewrite (Hp (Hsh text eq_refl) lines Er) in Hk'. by apply elem_of_nil in Hk'.
Qed.

(** A key that was added, or was there already, authenticates as soon as
    the call has returned, where the account's unix user has been created; with no
    line of the file longer than the 64 KiB a line may have. *)
Theorem appended_key_authenticates w env account name k comment added s' :
  world_reachable w → AccountName ToLower account = Some name → (∀ d, st_disk (w_store w) !! st_EnrolledDir (w_store w) = Some d → dirOk d) →
  AppendKey ToLower ParseAuthorizedKey MarshalAuthorizedKey Fingerprint env account k comment (w_store w) = (Ok added, s') →
  (∀ text, fileAt s' (st_EnrolledDir s') (name +:+ pub) = Some text → shortLines text) → is_Some (st_provisioned (w_store w) !! name) →
  ∃ a, st_accounts s' !! name = Some a ∧ Authorized Fingerprint a k = true.
Proof.
  intros Hw%world_reachable_inv Hn Hok HA Hsh Hpr. set (s := w_store w) in *.
  destruct (AppendKey_spec _ _ _ _ _ _ _ _ Hn Hok HA) as (Ho & Hadd & Hkeys & _).
  assert (∃ k', k' ∈ enrolledKeys s' name ∧ Fingerprint k' = Fingerprint k) as Hk.
  { rewrite Hkeys. destruct added; [exists k; set_solver|]. rewrite app_nil_r. by apply Hadd. }
  unfold AppendKey in HA. rewrite Hn in HA. apply edit_ok in HA as (d & s1 & started & Hne & Hd & Hc & Hs).
  assert (∃ d1, s1 = put_enrolled d1 s) as [d1 ->].
  { unfold appendChange in Hc. destruct (fileLines d _); [|done]. destruct (snd _); injection Hc as _ <-; [|by eexists].
    exists d. unfold put_enrolled. destruct s; cbn in *. by rewrite insert_id. }
  destruct (swap_spec _ _ _ _ _ _ _ Hs) as (? & ? & _ & _ & _ & _ & _ & _ & _ & E2 & _ & _ & E4).
  apply (swap_authorized _ env started s' name k (put_enrolled_inv w d1 Hw) Hs). split; [done|].
  exists (st_EnrolledDir s). destruct (exact_file_gives (put_enrolled d1 s) (st_EnrolledDir s) d1 name k) as (text & H1 & H2).
  - by eapply AccountName_id, AccountName_good.
  - cbn. apply lookup_insert_eq.
  - intros text Ht. apply Hsh. unfold fileAt. rewrite E2, E4. cbn. by rewrite lookup_insert_eq.
  - unfold enrolledKeys in Hk. rewrite E2, E4 in Hk. cbn in Hk. by rewrite lookup_insert_eq in Hk.
  - exists text. split; [by apply (enrolled_in_dirs (put_enrolled d1 s))|done].
Qed.

Lemma omap_lineKey_nil lines : omap (lineKey ParseAuthorizedKey) lines = [] → existsb (λ l, bool_decide (is_Some (lineKey ParseAuthorizedKey l))) lines = false.
Proof.
  clear ToLower_lower marshal_plain marshal_start parse_marshal.
  induction lines as [|l lines IH]; [done|]. cbn. destruct (lineKey ParseAuthorizedKey l) eqn:E; [done|]. intros H. by rewrite IH.
Qed.

(** What is left of a file a key was taken out of. *)
Lemma removed_file fp file d d' text :
  dirOk d → removeKeyLine ParseAuthorizedKey Fingerprint file fp d = Some (true, d') → d' !! file = Some text → shortLines text →
  ∃ keys cs n, parseKeys ParseAuthorizedKey text = Some (keys, cs, n) ∧ ∀ k, k ∈ keys → Fingerprint k ≠ fp.
Proof.
  clear ToLower_lower marshal_plain marshal_start parse_marshal.
  intros Hok Hr Ht Hsh. destruct (removeKeyLine_spec ParseAuthorizedKey Fingerprint d file fp true d' Hok Hr) as (_ & _ & Hk).
  assert (fileKeys ParseAuthorizedKey d' file ≠ []) as Hne.
  { unfold removeKeyLine in Hr. destruct (fileLines d file) as [lines|] eqn:El; [|done]. unfold withoutKey in Hr. destruct (existsb _ lines); [|done]. injection Hr as <-.
    destruct (writeKeyFile_spec ParseAuthorizedKey file (filter (λ l, holds ParseAuthorizedKey Fingerprint fp l = false) lines) d Hok) as (_ & W2 & _).
    { pose proof (fileLines_ok d file lines Hok El) as Hl. apply Forall_forall. intros l [_ Hin]%list_elem_of_filter. rewrite Forall_forall in Hl. auto. }
    rewrite W2. intros E. apply omap_lineKey_nil in E. unfold writeKeyFile in Ht. rewrite E in Ht. by rewrite lookup_delete_eq in Ht. }
  unfold fileKeys, fileLines in Hk, Hne. rewrite Ht in Hk, Hne. pose proof (parseKeys_spec ParseAuthorizedKey text) as Hp.
  destruct (readLines text) as [lines|] eqn:Er; [|done]. destruct (parseKeys _ text) as [[[keys cs] n]|]; [|by rewrite (Hp Hsh lines eq_refl) in Hne].
  destruct Hp as (_ & lines' & [= <-] & ->). eexists _, _, _. split; [done|]. intros k. rewrite Hk, list_elem_of_filter. tauto.
Qed.

(** A key that was removed is refused as soon as the call has returned:
    it authenticates as the account no more, where every operator's file for the
    account can be used, no other file of the enrolled directory folds to the
    account's name, and no line is longer than the 64 KiB a line may have. *)
Theorem removed_key_is_refused w env account name fp s' :
  let s := w_store w in
  world_reachable w → AccountName ToLower account = Some name → (∀ d, st_disk s !! st_EnrolledDir s = Some d → dirOk d) →
  RemoveKey ToLower ParseAuthorizedKey Fingerprint env account fp s = (Ok true, s') →
  st_EnrolledDir s ∉ st_KeysDirs s →
  (∀ dir text, dir ∈ st_KeysDirs s → textFor s dir name = Some text → parseKeys ParseAuthorizedKey text ≠ None) →
  (∀ d file, st_disk s !! st_EnrolledDir s = Some d → is_Some (d !! file) → nameOf ToLower file = Some name → file = name +:+ pub) →
  (∀ text, fileAt s' (st_EnrolledDir s') (name +:+ pub) = Some text → shortLines text) →
  ∀ a k, st_accounts s' !! name = Some a → Fingerprint k = fp → Authorized Fingerprint a k = false.
Proof.
  clear ToLower_lower marshal_plain marshal_start parse_marshal.
  intros s Hw%world_reachable_inv Hn Hok HR Hnot Huse Hfold Hsh a k Ha Hfp. apply not_true_iff_false. intros Hau.
  destruct (RemoveKey_spec _ _ _ _ _ _ _ Hn Hok HR) as (_ & _ & _ & Hop & d & d' & started & Hd & Hrm & Hs).
  destruct (swap_spec _ _ _ _ _ _ _ Hs) as (? & ? & _ & _ & _ & _ & _ & _ & _ & E2 & _ & _ & E4).
  destruct (proj1 (swap_authorized _ env started s' name k (put_enrolled_inv w d' Hw) Hs)) as (_ & dir & text & Hdir & Ht & Hg); [eauto|]. cbn [w_store] in *. fold s in Hdir, Ht, Hg.
  destruct (removeKeyLine_spec ParseAuthorizedKey Fingerprint d _ fp true d' (Hok d Hd) Hrm) as ([_ Hl] & _ & _).
  destruct (decide (dir = st_EnrolledDir s)) as [->|Hne].
  - apply textFor_file in Ht as (d0 & file & Hd0 & Hft & Hno & _). cbn in Hd0. rewrite lookup_insert_eq in Hd0. injection Hd0 as <-.
    assert (file = name +:+ pub) as ->.
    { destruct (decide (file = name +:+ pub)) as [|Hfn]; [done|]. apply (Hfold d file Hd); [|done]. rewrite <- Hl by done. by eexists. }
    destruct (removed_file fp _ d d' text (Hok d Hd) Hrm Hft) as (keys & cs & n & Hp & Hk).
    { apply Hsh. unfold fileAt. rewrite E2, E4. cbn. rewrite lookup_insert_eq. done. }
    unfold gives in Hg. rewrite Hp in Hg. destruct Hg as (k' & Hin & Hf). apply (Hk k' Hin). congruence.
  - assert (dir ∈ st_KeysDirs s) as Hkd by (unfold dirs in Hdir; cbn in Hdir; case_bool_decide; set_solver).
    assert (textFor s dir name = Some text) as Ht0.
    { rewrite <- Ht. unfold AccountsProofs.textFor, keyFiles. cbn. by rewrite !lookup_insert_ne by done. }
    specialize (Huse dir text Hkd Ht0). unfold gives in Hg. pose proof (parseKeys_spec ParseAuthorizedKey text) as Hp.
    destruct (parseKeys _ text) as [[[keys cs] n]|]; [|done]. destruct Hp as (_ & lines & Er & ->). destruct Hg as (k' & Hin & Hf).
    apply textFor_file in Ht0 as (d0 & file & Hd0 & Hft & _ & Hff). apply (Hop dir file Hkd Hff k'); [|congruence]. rewrite Hd0. change (default ∅ (Some d0)) with d0. unfold fileKeys, fileLines. by rewrite Hft, Er.
Qed.

End theorems.
