(* ===== verification/Info.v ===== *)
(** * What a workspace says of itself (core/workspace/info.go)

    The answer to a client's first question: lines of KEY=VALUE, written by
    [Encode] and read by [ParseInfo].  The reader is the text it yields, and whether
    it failed after that. *)
From Stdlib Require Import Ascii.
From S2P Require Import Prelude GoStrings Records AccountPorts Names KeyFiles AccountsProofs.

Open Scope Z_scope.

Record Info := {
  if_User : string;
  if_UID : Z;
  if_GID : Z;
  if_NFSPort : Z;
  if_Docker : string;
  if_Agent : string;
  if_DaemonPaths : list string;
  if_Mode : string;
  if_Storage : string;
  if_Union : string;
  if_Now : Z;
  if_Client : string;
  if_HostGateway : string;
  if_Extra : gmap string string
}.

Definition noInfo : Info :=
  {| if_User := ""; if_UID := 0; if_GID := 0; if_NFSPort := 0; if_Docker := ""; if_Agent := ""; if_DaemonPaths := []; if_Mode := ""; if_Storage := "";
     if_Union := ""; if_Now := 0; if_Client := ""; if_HostGateway := ""; if_Extra := ∅ |}.

Definition keyUser : string := "WORKSPACE_USER".
Definition keyUID : string := "WORKSPACE_UID".
Definition keyGID : string := "WORKSPACE_GID".
Definition keyNFSPort : string := "WORKSPACE_NFS_PORT".
Definition keyDocker : string := "WORKSPACE_DOCKER".
Definition keyAgent : string := "WORKSPACE_AGENT".
Definition keyStorage : string := "WORKSPACE_STORAGE".
Definition keyMode : string := "WORKSPACE_MODE".
Definition keyDaemonPaths : string := "WORKSPACE_DAEMON_PATHS".
Definition keyUnion : string := "WORKSPACE_UNION".
Definition keyNow : string := "WORKSPACE_NOW".
Definition keyClient : string := "WORKSPACE_CLIENT".
Definition keyHostGateway : string := "WORKSPACE_HOST_GATEWAY".
Definition DockerUnavailable : string := "unavailable".

Definition splitPaths (value : string) : list string :=
  filter (λ p, p ≠ ""%string) (strings.TrimSpace <$> strings.Split value ","%char).

Inductive infoError :=
| InfoLine (line : string)
| InfoValue (key value : string)
| InfoRead
| InfoMissing (key : string)
| InfoNoUser
| InfoPort (port : Z).

(** The fields of an info, one replaced. *)
Definition set_text (key value : string) (i : Info) : Info :=
  let at_ k := bool_decide (key = k) in
  {| if_User := if at_ keyUser then value else if_User i; if_UID := if_UID i; if_GID := if_GID i; if_NFSPort := if_NFSPort i;
     if_Docker := if at_ keyDocker then value else if_Docker i; if_Agent := if at_ keyAgent then value else if_Agent i;
     if_DaemonPaths := if at_ keyDaemonPaths then splitPaths value else if_DaemonPaths i; if_Mode := if at_ keyMode then value else if_Mode i;
     if_Storage := if at_ keyStorage then value else if_Storage i; if_Union := if at_ keyUnion then value else if_Union i; if_Now := if_Now i;
     if_Client := if at_ keyClient then value else if_Client i; if_HostGateway := if at_ keyHostGateway then value else if_HostGateway i; if_Extra := if_Extra i |}.
Definition set_number (key : string) (n : Z) (i : Info) : Info :=
  let at_ k := bool_decide (key = k) in
  {| if_User := if_User i; if_UID := if at_ keyUID then n else if_UID i; if_GID := if at_ keyGID then n else if_GID i; if_NFSPort := if at_ keyNFSPort then n else if_NFSPort i;
     if_Docker := if_Docker i; if_Agent := if_Agent i; if_DaemonPaths := if_DaemonPaths i; if_Mode := if_Mode i; if_Storage := if_Storage i; if_Union := if_Union i;
     if_Now := if at_ keyNow then n else if_Now i; if_Client := if_Client i; if_HostGateway := if_HostGateway i; if_Extra := if_Extra i |}.
Definition set_extra (key value : string) (i : Info) : Info :=
  {| if_User := if_User i; if_UID := if_UID i; if_GID := if_GID i; if_NFSPort := if_NFSPort i; if_Docker := if_Docker i; if_Agent := if_Agent i;
     if_DaemonPaths := if_DaemonPaths i; if_Mode := if_Mode i; if_Storage := if_Storage i; if_Union := if_Union i; if_Now := if_Now i;
     if_Client := if_Client i; if_HostGateway := if_HostGateway i; if_Extra := <[key := value]> (if_Extra i) |}.

Definition numberKeys : list string := [keyUID; keyGID; keyNFSPort; keyNow].
Definition textKeys : list string := [keyUser; keyAgent; keyStorage; keyMode; keyDaemonPaths; keyUnion; keyDocker; keyHostGateway; keyClient].

(** The switch over a line's key. *)
Definition setKey (key value : string) (i : Info) : res infoError Info :=
  if bool_decide (key ∈ numberKeys) then match Atoi value with Some n => Ok (set_number key n i) | None => Err (InfoValue key value) end
  else if bool_decide (key = keyClient) && negb (validClientID value) then Err (InfoValue key value)
  else if bool_decide (key ∈ textKeys) then Ok (set_text key value i)
  else Ok (set_extra key value i).

(** One line: what is known, and the keys seen. *)
Definition infoLine (st : Info * gset string) (text : string) : res infoError (Info * gset string) :=
  let line := strings.TrimSpace text in
  if bool_decide (line = ""%string) || strings.HasPrefix line "#" then Ok st
  else match strings.Cut line "="%char with
       | None => Err (InfoLine line)
       | Some (key, value) =>
           let key := strings.TrimSpace key in
           let? i := setKey key value st.1 in Ok (i, {[ key ]} ∪ st.2)
       end.

Definition checkInfo (i : Info) (seen : gset string) : res infoError Info :=
  if negb (bool_decide (keyUser ∈ seen)) then Err (InfoMissing keyUser)
  else if negb (bool_decide (keyNFSPort ∈ seen)) then Err (InfoMissing keyNFSPort)
  else if bool_decide (if_User i = ""%string) then Err InfoNoUser
  else
    let unbound := (if_NFSPort i =? 0) && negb (bool_decide (if_Client i = ""%string)) in
    if negb unbound && ((if_NFSPort i <? 1) || (MaxPort <? if_NFSPort i)) then Err (InfoPort (if_NFSPort i)) else Ok i.

(** [bufio.ScanLines]: without the line's end, nor a carriage return before it.  The
    scanner stops, and fails, at a line its buffer cannot hold. *)
Definition dropCR (line : string) : string := strings.TrimSuffix line (String "013" "").
Definition textLines (text : string) : list string :=
  let ls := strings.Split text newline in match last ls with Some l => if bool_decide (l = ""%string) then removelast ls else ls | None => ls end.
Definition fits (line : string) : bool := Z.of_nat (strlen line) <? MaxScanTokenSize.
Fixpoint scanLines (ls : list string) : list string * bool :=
  match ls with
  | [] => ([], false)
  | l :: ls' => if fits l then let '(out, failed) := scanLines ls' in (dropCR l :: out, failed) else ([], true)
  end.

Definition ParseInfo (text : string) (readFailed : bool) : res infoError Info :=
  let '(lines, tooLong) := scanLines (textLines text) in
  let? st := foldRes infoLine (noInfo, ∅) lines in
  if tooLong || readFailed then Err InfoRead else checkInfo st.1 st.2.

(** ** Writing *)

Definition infoPairs (i : Info) : list (string * string) :=
  ([(keyUser, if_User i); (keyUID, Itoa (if_UID i)); (keyGID, Itoa (if_GID i)); (keyNFSPort, Itoa (if_NFSPort i));
    (keyDocker, if bool_decide (if_Docker i = ""%string) then DockerUnavailable else if_Docker i); (keyAgent, if_Agent i); (keyStorage, if_Storage i); (keyMode, if_Mode i);
    (keyDaemonPaths, strings.Join (if_DaemonPaths i) ","); (keyUnion, if_Union i); (keyNow, Itoa (if_Now i))] ++
   (if bool_decide (if_Client i = ""%string) then [] else [(keyClient, if_Client i)]) ++
   (if bool_decide (if_HostGateway i = ""%string) then [] else [(keyHostGateway, if_HostGateway i)]) ++
   ((λ k, (k, default ""%string (if_Extra i !! k))) <$> sort_strings (elements (dom (if_Extra i)))))%list.

Definition pairLine (p : string * string) : string := p.1 +:+ "=" +:+ p.2.
Definition Encode (i : Info) : string := foldr (λ p t, pairLine p +:+ String newline t) ""%string (infoPairs i).

(** * What a workspace says of itself is what a client reads *)

Open Scope Z_scope.

(** ** Lines *)

(** No blank at the end, and none that ends the line. *)
Definition ends (v : string) : bool := match strings.rev v with EmptyString => true | String b _ => visible b end.
Definition tidy (v : string) : Prop := strings.Contains v newline = false ∧ ends v = true.
Definition starts (k : string) : bool := match k with EmptyString => false | String a _ => visible a && negb (Ascii.eqb a "#") end.
(** A key that is read back as itself. *)
Definition keyText (k : string) : Prop :=
  starts k = true ∧ strings.Contains k newline = false ∧ strings.Contains k "="%char = false ∧ strings.TrimSpace k = k.

Lemma TrimSpace_ends a s b t : String a s = strings.rev (String b t) → visible a = true → visible b = true → strings.TrimSpace (String a s) = String a s.
Proof.
  intros E Ha Hb. unfold strings.TrimSpace. destruct (visible_no_space a Ha) as [H1 _]. destruct (visible_no_space b Hb) as [_ H2].
  assert (strings.trim_any (strlen (String a s)) strings.spaces (String a s) = String a s) as ->.
  { cbn [strlen String.length strings.trim_any]. by rewrite cut_any_visible. }
  rewrite E, rev_rev. cbn [strlen]. assert (∀ n, strings.trim_any n (strings.rev <$> strings.spaces) (String b t) = String b t) as ->; [|done].
  intros [|n]; [done|]. cbn [strings.trim_any]. by rewrite cut_any_visible.
Qed.

Lemma pairLine_last k v : ends v = true → ∃ b t, strings.rev (k +:+ "=" +:+ v) = String b t ∧ visible b = true.
Proof.
  unfold ends. rewrite !rev_append. destruct (strings.rev v) as [|b t]; intros Hv; [exists "="%char, (strings.rev k); done|].
  eexists b, _. split; [rewrite append_assoc; cbn; reflexivity|done].
Qed.

Lemma pairLine_trimmed k v : keyText k → tidy v → strings.TrimSpace (pairLine (k, v)) = pairLine (k, v).
Proof.
  intros (Hs & _) [_ He]. destruct k as [|a k]; [done|]. cbn in Hs. apply andb_true_iff in Hs as [Ha _].
  destruct (pairLine_last (String a k) v He) as (b & t & Hr & Hb). unfold pairLine. cbn [fst snd]. change (String a k +:+ "=" +:+ v) with (String a (k +:+ "=" +:+ v)) in *.
  apply (TrimSpace_ends _ _ b t); [by rewrite <- Hr, rev_rev|done|done].
Qed.

Lemma pairLine_oneline k v : keyText k → tidy v → strings.Contains (pairLine (k, v)) newline = false.
Proof. intros (_ & Hk & _) [Hv _]. unfold pairLine. cbn [fst snd]. rewrite !Contains_append, Hk, Hv. done. Qed.

Lemma pairLine_noCR k v : tidy v → dropCR (pairLine (k, v)) = pairLine (k, v).
Proof.
  intros [_ He]. destruct (pairLine_last k v He) as (b & t & Hr & Hb). unfold dropCR, strings.TrimSuffix, strings.CutSuffix, pairLine. cbn [fst snd]. rewrite Hr.
  change (strings.rev (String "013" "")) with (String "013" ""). cbn [strings.CutPrefix]. destruct (Ascii.eqb_spec "013" b) as [<-|_]; [by vm_compute in Hb|done].
Qed.

Lemma infoLine_pair st k v : keyText k → tidy v → infoLine st (pairLine (k, v)) = let? i := setKey k v st.1 in Ok (i, {[ k ]} ∪ st.2).
Proof.
  intros Hk Hv. unfold infoLine. rewrite pairLine_trimmed by done. destruct Hk as (Hs & _ & He & Ht). destruct k as [|a k]; [done|]. cbn in Hs. apply andb_true_iff in Hs as [_ Hs].
  rewrite bool_decide_eq_false_2 by done. assert (strings.HasPrefix (pairLine (String a k, v)) "#" = false) as ->.
  { change (strings.HasPrefix (String a (k +:+ "=" +:+ v)) "#" = false). apply negb_true_iff in Hs. cbn [strings.HasPrefix]. by rewrite Ascii.eqb_sym, Hs. }
  cbn [orb]. assert (strings.Cut (pairLine (String a k, v)) "="%char = Some (String a k, v)) as ->.
  { by apply Cut_Some. }
  by rewrite Ht.
Qed.

(** A text of such lines is read line by line, up to one that is too long. *)
Lemma lines_pairs ps : Forall (λ p, keyText p.1 ∧ tidy p.2) ps → textLines (foldr (λ p t, pairLine p +:+ String newline t) ""%string ps) = pairLine <$> ps.
Proof.
  intros H. unfold textLines. assert (strings.Split (foldr (λ p t, pairLine p +:+ String newline t) ""%string ps) newline = ((pairLine <$> ps) ++ [""%string])%list) as ->.
  { induction H as [|[k v] ps [Hk Hv] _ IH]; [done|]. cbn [foldr]. rewrite Split_append by (by apply pairLine_oneline). by rewrite IH. }
  by rewrite last_snoc, bool_decide_eq_true_2, removelast_last.
Qed.

Lemma scan_pairs ps : Forall (λ p, keyText p.1 ∧ tidy p.2) ps →
  ∃ ps1 ps2, ps = (ps1 ++ ps2)%list ∧ scanLines (pairLine <$> ps) = (pairLine <$> ps1, negb (forallb (λ p, fits (pairLine p)) ps)) ∧
    (forallb (λ p, fits (pairLine p)) ps = true → ps2 = []).
Proof.
  induction 1 as [|[k v] ps [Hk Hv] _ (ps1 & ps2 & -> & E & Hn)]; [by exists [], []|]. rewrite fmap_cons. cbn [scanLines forallb]. destruct (fits (pairLine (k, v))) eqn:Ef.
  - exists ((k, v) :: ps1), ps2. split; [done|]. cbn [snd] in Hv. rewrite E, fmap_cons, pairLine_noCR by done. split; [done|]. exact Hn.
  - exists [], ((k, v) :: ps1 ++ ps2)%list. split_and!; done.
Qed.

Lemma foldRes_pairs ps st : Forall (λ p, keyText p.1 ∧ tidy p.2) ps →
  foldRes infoLine st (pairLine <$> ps) = foldRes (λ st p, let? i := setKey p.1 p.2 st.1 in Ok (i, {[ p.1 ]} ∪ st.2)) st ps.
Proof.
  intros H. revert st. induction H as [|[k v] ps [Hk Hv] _ IH]; intros st; [done|]. rewrite fmap_cons. cbn [foldRes]. rewrite infoLine_pair by done. cbn [fst snd].
  destruct (setKey k v st.1); [apply IH|done].
Qed.

(** ** The pairs of an info *)

Lemma setKey_number k s n i : bool_decide (k ∈ numberKeys) = true → Atoi s = Some n → setKey k s i = Ok (set_number k n i).
Proof. intros Hk Hs. unfold setKey. by rewrite Hk, Hs. Qed.

Lemma setKey_text k v i : bool_decide (k ∈ numberKeys) = false → bool_decide (k ∈ textKeys) = true → (k = keyClient → validClientID v = true) → setKey k v i = Ok (set_text k v i).
Proof.
  intros Hn Ht Hc. unfold setKey. rewrite Hn, Ht. destruct (bool_decide (k = keyClient)) eqn:E; [|done]. apply bool_decide_eq_true in E. by rewrite Hc.
Qed.

Lemma setKey_extra k v i : k ∉ numberKeys → k ∉ textKeys → setKey k v i = Ok (set_extra k v i).
Proof.
  intros Hn Ht. unfold setKey. rewrite (bool_decide_eq_false_2 (k ∈ numberKeys)), (bool_decide_eq_false_2 (k ∈ textKeys)) by done.
  rewrite bool_decide_eq_false_2; [done|]. intros ->. apply Ht. unfold textKeys. set_solver.
Qed.

(** An info that can be told: its texts are lines, its numbers fit, its port is one
    or is not bound yet, and its other keys are no known ones. *)
Record tellable (i : Info) : Prop := {
  te_user : if_User i ≠ ""%string;
  te_texts : Forall tidy [if_User i; if_Docker i; if_Agent i; if_Storage i; if_Mode i; if_Union i; if_HostGateway i];
  te_numbers : Forall (λ n, -2^63 ≤ n < 2^63) [if_UID i; if_GID i; if_Now i];
  te_port : 1 ≤ if_NFSPort i ≤ MaxPort ∨ if_NFSPort i = 0 ∧ if_Client i ≠ ""%string;
  te_client : if_Client i ≠ ""%string → validClientID (if_Client i) = true;
  te_paths : Forall (λ p, p ≠ ""%string ∧ strings.TrimSpace p = p ∧ strings.Contains p ","%char = false ∧ tidy p) (if_DaemonPaths i);
  te_extra : ∀ k v, if_Extra i !! k = Some v → keyText k ∧ tidy v ∧ k ∉ numberKeys ∧ k ∉ textKeys
}.

Lemma tidy_visible v : everyByte visible v = true → tidy v.
Proof.
  intros H. split; [by eapply (everyByte_Contains visible)|]. unfold ends. assert (everyByte visible (strings.rev v) = true) as Hr by (unfold strings.rev; by rewrite everyByte_rev_app, H).
  destruct (strings.rev v); [done|]. cbn in Hr. by apply andb_true_iff in Hr as [? _].
Qed.

Lemma tidy_Itoa n : tidy (Itoa n).
Proof. apply tidy_visible, plainText_visible, Itoa_plain. Qed.

Lemma tidy_client v : validClientID v = true → tidy v.
Proof.
  unfold validClientID. intros [_ H]%andb_true_iff. apply tidy_visible. unfold isLowerHex in H. eapply everyByte_impl; [|exact H].
  intros a Ha. destruct a as [[] [] [] [] [] [] [] []]; vm_compute in Ha |- *; done.
Qed.

Lemma tidy_Join ps : Forall tidy ps → tidy (strings.Join ps ",").
Proof.
  induction 1 as [|p ps [Hp1 Hp2] Hps [IH1 IH2]]; [by split|]. destruct ps as [|q ps]; [by split|]. rewrite Join_cons by done. split.
  - rewrite !Contains_append, Hp1, IH1. done.
  - unfold ends in *. rewrite !rev_append. destruct (strings.rev (strings.Join (q :: ps) ",")); [done|]. by rewrite append_assoc.
Qed.

Lemma splitPaths_Join ps : Forall (λ p, p ≠ ""%string ∧ strings.TrimSpace p = p ∧ strings.Contains p ","%char = false ∧ tidy p) ps → splitPaths (strings.Join ps ",") = ps.
Proof.
  intros H. unfold splitPaths. destruct ps as [|p ps]; [done|]. change (strings.Join (p :: ps) ",") with (strings.Join (p :: ps) (String ","%char "")).
  rewrite Split_Join; [|done|eapply Forall_impl; [exact H|]; naive_solver].
  induction H as [|q qs (H1 & H2 & _) _ IH]; [done|]. rewrite fmap_cons, H2, filter_cons_True by done. by rewrite IH.
Qed.

Lemma known_keyText k : k ∈ numberKeys ++ textKeys → keyText k.
Proof.
  intros Hk. assert (Forall keyText (numberKeys ++ textKeys)) as H by (repeat constructor; vm_compute; reflexivity).
  exact (proj1 (Forall_forall _ _) H k Hk).
Qed.

(** ** Read back *)

Definition readPair (st : Info * gset string) (p : string * string) : res infoError (Info * gset string) := let? i := setKey p.1 p.2 st.1 in Ok (i, {[ p.1 ]} ∪ st.2).

Definition docker_or (d : string) : string := if bool_decide (d = ""%string) then DockerUnavailable else d.

(** An info with its first fields only. *)
Definition core (i : Info) (client gateway : string) (extra : gmap string string) : Info :=
  {| if_User := if_User i; if_UID := if_UID i; if_GID := if_GID i; if_NFSPort := if_NFSPort i; if_Docker := docker_or (if_Docker i); if_Agent := if_Agent i;
     if_DaemonPaths := if_DaemonPaths i; if_Mode := if_Mode i; if_Storage := if_Storage i; if_Union := if_Union i; if_Now := if_Now i;
     if_Client := client; if_HostGateway := gateway; if_Extra := extra |}.

Lemma tellable_pairs i : tellable i → Forall (λ p, keyText p.1 ∧ tidy p.2) (infoPairs i).
Proof.
  intros [Hu Ht Hn Hp Hc Hpa Hx]. unfold infoPairs. repeat (apply Forall_cons in Ht as [? Ht]).
  assert (∀ k v, bool_decide (k ∈ (numberKeys ++ textKeys)%list) = true → tidy v → keyText (k, v).1 ∧ tidy (k, v).2) as Hk.
  { intros k v Hk Hv. split; [|done]. apply known_keyText. by apply bool_decide_eq_true in Hk. }
  repeat (apply Forall_app; split).
  - repeat (apply Forall_cons; split); [..|done]; apply Hk; try (vm_compute; reflexivity); try done; try apply tidy_Itoa.
    + case_bool_decide; [split; vm_compute; reflexivity|done].
    + apply tidy_Join. eapply Forall_impl; [exact Hpa|]. naive_solver.
  - case_bool_decide as E; [done|]. apply Forall_singleton, Hk; [vm_compute; reflexivity|]. by apply tidy_client, Hc.
  - case_bool_decide as E; [done|]. apply Forall_singleton, Hk; [vm_compute; reflexivity|done].
  - apply Forall_fmap, Forall_forall. intros k Hin. apply elem_of_stable_sort, elem_of_elements, elem_of_dom in Hin as [v Hv]. cbn. rewrite Hv. cbn. by destruct (Hx k v Hv) as (? & ? & _).
Qed.

Lemma read_number k s n i seen rest : bool_decide (k ∈ numberKeys) = true → Atoi s = Some n →
  foldRes readPair (i, seen) ((k, s) :: rest) = foldRes readPair (set_number k n i, {[ k ]} ∪ seen) rest.
Proof. intros Hk Hs. cbn [foldRes]. unfold readPair at 1. cbn [fst snd]. by rewrite (setKey_number k s n). Qed.

Lemma read_text k v i seen rest : bool_decide (k ∈ numberKeys) = false → bool_decide (k ∈ textKeys) = true → (k = keyClient → validClientID v = true) →
  foldRes readPair (i, seen) ((k, v) :: rest) = foldRes readPair (set_text k v i, {[ k ]} ∪ seen) rest.
Proof. intros Hn Ht Hc. cbn [foldRes]. unfold readPair at 1. cbn [fst snd]. by rewrite setKey_text. Qed.

Lemma read_head i : tellable i →
  ∃ seen, keyUser ∈ seen ∧ keyNFSPort ∈ seen ∧
  foldRes readPair (noInfo, ∅) [(keyUser, if_User i); (keyUID, Itoa (if_UID i)); (keyGID, Itoa (if_GID i)); (keyNFSPort, Itoa (if_NFSPort i));
    (keyDocker, docker_or (if_Docker i)); (keyAgent, if_Agent i); (keyStorage, if_Storage i); (keyMode, if_Mode i);
    (keyDaemonPaths, strings.Join (if_DaemonPaths i) ","); (keyUnion, if_Union i); (keyNow, Itoa (if_Now i))] = Ok (core i "" "" ∅, seen).
Proof.
  intros [Hu Ht Hn Hp Hc Hpa Hx]. repeat (apply Forall_cons in Hn as [? Hn]).
  assert (-2^63 ≤ if_NFSPort i < 2^63) as Hport by (unfold MaxPort in Hp; lia).
  rewrite (read_text keyUser) by (try reflexivity; by intros [=]). rewrite (read_number keyUID _ (if_UID i)) by (try reflexivity; by apply Atoi_Itoa_int).
  rewrite (read_number keyGID _ (if_GID i)) by (try reflexivity; by apply Atoi_Itoa_int). rewrite (read_number keyNFSPort _ (if_NFSPort i)) by (try reflexivity; by apply Atoi_Itoa_int).
  rewrite (read_text keyDocker), (read_text keyAgent), (read_text keyStorage), (read_text keyMode), (read_text keyDaemonPaths), (read_text keyUnion) by (try reflexivity; by intros [=]).
  rewrite (read_number keyNow _ (if_Now i)) by (try reflexivity; by apply Atoi_Itoa_int). cbn [foldRes]. eexists. split_and!; [| |f_equal; f_equal]; [set_solver|set_solver|].
  transitivity (core {| if_User := if_User i; if_UID := if_UID i; if_GID := if_GID i; if_NFSPort := if_NFSPort i; if_Docker := if_Docker i; if_Agent := if_Agent i;
    if_DaemonPaths := splitPaths (strings.Join (if_DaemonPaths i) ","); if_Mode := if_Mode i; if_Storage := if_Storage i; if_Union := if_Union i; if_Now := if_Now i;
    if_Client := ""; if_HostGateway := ""; if_Extra := ∅ |} "" "" ∅); [reflexivity|]. unfold core. cbn. by rewrite splitPaths_Join.
Qed.

Lemma read_extra (m : gmap string string) ks i cl gw (ex : gmap string string) seen :
  (∀ k, k ∈ ks → k ∉ numberKeys ∧ k ∉ textKeys ∧ is_Some (m !! k)) →
  ∃ ex' seen', foldRes readPair (core i cl gw ex, seen) ((λ k, (k, default ""%string (m !! k))) <$> ks) = Ok (core i cl gw ex', seen') ∧ seen ⊆ seen' ∧
    ∀ k, ex' !! k = if bool_decide (k ∈ ks) then m !! k else ex !! k.
Proof.
  revert ex seen. induction ks as [|k ks IH]; intros ex seen Hk.
  - exists ex, seen. split_and!; [done|done|]. intros k. by rewrite bool_decide_eq_false_2 by apply not_elem_of_nil.
  - destruct (Hk k ltac:(by left)) as (Hn & Ht & [v Hv]). rewrite fmap_cons. cbn [foldRes]. unfold readPair at 1. cbn [fst snd]. rewrite Hv, setKey_extra by done. cbn [default].
    change (default ""%string (Some v)) with v.
    destruct (IH (<[k := v]> ex) ({[ k ]} ∪ seen)) as (ex' & seen' & Hf & Hs & He); [intros j Hj; apply Hk; by right|].
    exists ex', seen'. split_and!; [exact Hf|set_solver|]. intros j. rewrite He. destruct (decide (j ∈ ks)) as [Hj|Hj].
    + by rewrite !bool_decide_eq_true_2 by set_solver.
    + rewrite (bool_decide_eq_false_2 (j ∈ ks)) by done. destruct (decide (k = j)) as [<-|Hne].
      * rewrite lookup_insert_eq, bool_decide_eq_true_2 by set_solver. by rewrite Hv.
      * rewrite lookup_insert_ne, bool_decide_eq_false_2 by set_solver. done.
Qed.

Lemma read_client i seen : (if_Client i ≠ ""%string → validClientID (if_Client i) = true) →
  ∃ s2, seen ⊆ s2 ∧ foldRes readPair (core i "" "" ∅, seen) (if bool_decide (if_Client i = ""%string) then [] else [(keyClient, if_Client i)]) = Ok (core i (if_Client i) "" ∅, s2).
Proof.
  intros Hc. case_bool_decide as E; [exists seen; split; [done|]; cbn [foldRes]; by rewrite E|].
  exists ({[ keyClient ]} ∪ seen). split; [set_solver|]. rewrite read_text by (try reflexivity; auto). cbn [foldRes]. f_equal.
Qed.

Lemma read_gateway i cl seen :
  ∃ s3, seen ⊆ s3 ∧ foldRes readPair (core i cl "" ∅, seen) (if bool_decide (if_HostGateway i = ""%string) then [] else [(keyHostGateway, if_HostGateway i)]) =
    Ok (core i cl (if_HostGateway i) ∅, s3).
Proof.
  case_bool_decide as E; [exists seen; split; [done|]; cbn [foldRes]; by rewrite E|].
  exists ({[ keyHostGateway ]} ∪ seen). split; [set_solver|]. rewrite read_text by (try reflexivity; by intros [=]). cbn [foldRes]. f_equal.
Qed.

(** Every line of it fits the scanner's buffer. *)
Definition shortLines (i : Info) : bool := forallb (λ p, fits (pairLine p)) (infoPairs i).

Lemma foldRes_prefix {A B E} (f : A → B → res E A) a l1 l2 r : foldRes f a (l1 ++ l2) = Ok r → ∃ r1, foldRes f a l1 = Ok r1.
Proof. rewrite foldRes_app. destruct (foldRes f a l1); [eauto|done]. Qed.

Lemma pairs_read i : tellable i →
  ∃ seen, keyUser ∈ seen ∧ keyNFSPort ∈ seen ∧ foldRes infoLine (noInfo, ∅) (pairLine <$> infoPairs i) = Ok (core i (if_Client i) (if_HostGateway i) (if_Extra i), seen).
Proof.
  intros Hi. rewrite foldRes_pairs by (by apply tellable_pairs).
  change (foldRes (λ st p, let? i := setKey p.1 p.2 st.1 in Ok (i, {[ p.1 ]} ∪ st.2))) with (foldRes readPair). unfold infoPairs. fold (docker_or (if_Docker i)).
  destruct (read_head i Hi) as (seen & Hs1 & Hs2 & Hh). rewrite foldRes_app, Hh. cbv beta iota. rewrite foldRes_app. pose proof Hi as [Hu _ _ Hp Hc _ Hx].
  destruct (read_client i seen Hc) as (s2 & Hs3 & ->). cbv beta iota. destruct (read_gateway i (if_Client i) s2) as (s3 & Hs4 & Eg). rewrite foldRes_app, Eg. cbv beta iota.
  destruct (read_extra (if_Extra i) (sort_strings (elements (dom (if_Extra i)))) i (if_Client i) (if_HostGateway i) ∅ s3) as (ex & s4 & -> & Hs5 & He).
  { intros k Hk. apply elem_of_stable_sort, elem_of_elements, elem_of_dom in Hk as [v Hv]. destruct (Hx k v Hv) as (_ & _ & ? & ?). eauto. }
  assert (ex = if_Extra i) as ->.
  { apply map_eq. intros k. rewrite He. destruct (decide (k ∈ sort_strings (elements (dom (if_Extra i))))) as [Hk|Hk]; [by rewrite bool_decide_eq_true_2|].
    rewrite bool_decide_eq_false_2, lookup_empty by done. symmetry. apply not_elem_of_dom. intros Hd. apply Hk, elem_of_stable_sort, elem_of_elements, Hd. }
  exists s4. split_and!; auto.
Qed.

(** C37 (roundtrip). What a workspace says of itself is what a client reads.  Of every
    tellable info the text that is written is read as that info, with any other keys
    it carries, a daemon that did not answer as unavailable; unless one of its lines
    is of 64 KiB or more, which the client's scanner does not hold, and then reading
    it is an error and yields nothing.  Tellable is an info whose user is not empty,
    whose texts have no line break and do not end in a blank, whose numbers fit an
    [int], whose port is one, or 0 with a client, whose client is well-formed, whose
    daemon paths have no comma and no blank around them, and whose other keys are
    none of the known ones. *)
Theorem info_comes_back i : tellable i →
  ParseInfo (Encode i) false = if shortLines i then Ok (core i (if_Client i) (if_HostGateway i) (if_Extra i)) else Err InfoRead.
Proof.
  intros Hi. pose proof (tellable_pairs i Hi) as Hps. unfold ParseInfo, Encode. rewrite lines_pairs by done. destruct (pairs_read i Hi) as (seen & H1 & H2 & Hr).
  destruct (scan_pairs _ Hps) as (ps1 & ps2 & E & -> & Hall). fold (shortLines i) in *. destruct (shortLines i).
  - rewrite (Hall eq_refl), app_nil_r in E. rewrite <- E, Hr. cbn [negb orb fst snd]. unfold checkInfo. rewrite !bool_decide_eq_true_2 by done. pose proof Hi as [Hu _ _ Hp _ _ _].
    cbn [negb core if_User if_NFSPort if_Client]. rewrite (bool_decide_eq_false_2 (if_User i = _)) by done. destruct Hp as [Hp|[Hp Hcl]].
    + rewrite (proj2 (Z.ltb_ge _ _)), (proj2 (Z.ltb_ge _ _)) by lia. by rewrite andb_false_r.
    + rewrite Hp, bool_decide_eq_false_2 by done. done.
  - rewrite E, fmap_app in Hr. apply foldRes_prefix in Hr as [[i1 s1] ->]. done.
Qed.
