(* ===== verification/CacheProto.v ===== *)
(** * The cache channel's requests and a share's union

    core/cache/cache.go: what a request may ask, and its validation on both ends.
    core-agent/union/union.go and child.go: a union as the agent resolved it, where
    it is mounted and with what, and how its specification reaches the child
    process that serves it, through the environment.  A read mode is the text the
    client sent; an [int] is a [Z]. *)
From S2P Require Import Prelude GoStrings Records Names Mounts AccountPorts WatchTreeProofs AccountsProofs.

Open Scope Z_scope.

(** ** core/cache/cache.go *)

Definition CodecNone : string := "".
Definition CodecZstd : string := "zstd".
Definition Codecs : list string := [CodecZstd].

Record Hello := {
  he_Version : Z;
  he_Codecs : list string;
  he_Owner : bool;
  he_Carry : bool;
  he_Times : bool
}.

Definition Accepts (h : Hello) (codec : string) : bool := bool_decide (codec = CodecNone) || bool_decide (codec ∈ he_Codecs h).
Definition supportsCodec (codec : string) : bool :=
  Accepts {| he_Version := 0; he_Codecs := Codecs; he_Owner := false; he_Carry := false; he_Times := false |} codec.

(** [Op], a string: the ones there are, and any other. *)
Inductive Op := OpPrepare | OpApply | OpDrop | OpChanges | OpPull | OpPresent | OpMounted | OpOther (op : string).

Record Request := {
  rq_Op : Op;
  rq_Export : string;
  rq_Port : Z;
  rq_Cache : string;
  rq_Read : string;
  rq_Owner : string;
  rq_Paths : list string;
  rq_Bytes : Z;
  rq_Codec : string;
  rq_Carry : bool;
  rq_Times : bool;
  rq_Fill : bool
}.

Definition rootOwner : Owner := {| ow_UID := 0; ow_GID := 0; ow_Set := true |}.

Definition OwnerOf (r : Request) : res wordError Owner := if bool_decide (rq_Owner r = ""%string) then Ok rootOwner else ParseOwner (rq_Owner r).

Inductive requestError :=
| RequestExport (e : nameError)
| RequestPort (port : Z)
| RequestVolume (name : string)
| RequestOwner (e : wordError)
| RequestBytes (n : Z)
| RequestCodec (codec : string)
| RequestNoPaths
| RequestPath (e : pathError)
| RequestShareRoot
| RequestOp (op : string).

(** The first path that a test refuses. *)
Fixpoint firstError {A} (test : string → option A) (paths : list string) : option A :=
  match paths with
  | [] => None
  | p :: paths' => match test p with Some e => Some e | None => firstError test paths' end
  end.

Definition pathAsked (p : string) : option requestError := RequestPath <$> ValidSharePath p.
Definition pathDropped (p : string) : option requestError :=
  match ValidSharePath p with
  | Some e => Some (RequestPath e)
  | None => if bool_decide (strings.TrimSpace p = "/"%string) then Some RequestShareRoot else None
  end.

Definition Request_Validate (r : Request) : option requestError :=
  match rq_Op r with
  | OpMounted => None
  | op =>
      match ValidExport (rq_Export r) with
      | Some e => Some (RequestExport e)
      | None =>
          match op with
          | OpPrepare =>
              if (rq_Port r <? 1) || (MaxPort <? rq_Port r) then Some (RequestPort (rq_Port r))
              else if negb (IsManagedVolume (rq_Cache r)) then Some (RequestVolume (rq_Cache r))
              else match OwnerOf r with Err e => Some (RequestOwner e) | Ok _ => None end
          | OpApply =>
              if rq_Bytes r <? 0 then Some (RequestBytes (rq_Bytes r))
              else if negb (supportsCodec (rq_Codec r)) then Some (RequestCodec (rq_Codec r)) else None
          | OpDrop => match rq_Paths r with [] => Some RequestNoPaths | paths => firstError pathDropped paths end
          | OpChanges => None
          | OpPull | OpPresent => match rq_Paths r with [] => Some RequestNoPaths | paths => firstError pathAsked paths end
          | OpMounted => None
          | OpOther o => Some (RequestOp o)
          end
      end
  end.

(** ** core-agent/union/union.go *)

Definition Root : string := "/run/rd-union".
Definition Binary : string := "fuse-overlayfs".

Record Spec := {
  sp_PID : Z;
  sp_Export : string;
  sp_Client : string;
  sp_Port : Z;
  sp_CacheDir : string;
  sp_Read : string;
  sp_UID : Z;
  sp_GID : Z
}.

(** [path.Join]: the elements that are not empty, joined and cleaned. *)
Definition pathJoin (elems : list string) : string :=
  match filter (λ e, e ≠ ""%string) elems with [] => ""%string | es => path.Clean (strings.Join es "/") end.

Definition spec_id (s : Spec) : string := strings.TrimPrefix (sp_Export s) ExportMountPrefix.
Definition Lower (s : Spec) : string := pathJoin [Root; sp_Client s; spec_id s; "lower"%string].
Definition Merged (s : Spec) : string := pathJoin [Root; sp_Client s; spec_id s; "merged"%string].
Definition Upper (s : Spec) : string := pathJoin [sp_CacheDir s; "upper"%string].
Definition Work (s : Spec) : string := pathJoin [sp_CacheDir s; "work"%string].
Definition Dirs (s : Spec) : list string := [Lower s; Merged s; Upper s; Work s].

Definition mountFlags : list string :=
  ["noatime"; "atime"; "relatime"; "strictatime"; "ro"; "rw"; "nosuid"; "nodev"; "noexec"; "sync"; "dirsync"]%string.

Definition readOf (w : string) : Read :=
  if bool_decide (w = "direct"%string) then ReadDirect else if bool_decide (w = "cached"%string) then ReadCached else ReadUnset.

(** [LowerMount]: source, type, data and flags. *)
Definition optionOf (opts : list (string * string)) (k : string) : string := default ""%string (snd <$> List.find (λ kv, bool_decide (kv.1 = k)) opts).
Definition LowerMount (s : Spec) : string * string * string * list string :=
  let opts := NFSVolumeOptions (sp_Port s) (sp_Export s) (readOf (sp_Read s)) 0 in
  let words := strings.Split (optionOf opts "o") (Ascii.ascii_of_nat 44) in
  (optionOf opts "device", optionOf opts "type", strings.Join (filter (λ o, o ∉ mountFlags) words) ",", filter (λ o, o ∈ mountFlags) words).

Definition Args (s : Spec) : list string :=
  [Binary; "-f"; "-o"; "lowerdir=" +:+ Lower s +:+ ",upperdir=" +:+ Upper s +:+ ",workdir=" +:+ Work s; Merged s]%string.

(** [validClient] ranges over runes; a byte above 127 is part of none it accepts. *)
Definition specClient (c : string) : bool := negb (bool_decide (c = ""%string)) && everyByte lowerHex c.

Inductive specError :=
| SpecExport (e : nameError)
| SpecPort (p : Z)
| SpecCacheDir (d : string)
| SpecPID (p : Z)
| SpecRead (r : string)
| SpecClient (c : string).

Definition Spec_Validate (s : Spec) : option specError :=
  match ValidExport (sp_Export s) with
  | Some e => Some (SpecExport e)
  | None =>
      if (sp_Port s <? 1) || (MaxPort <? sp_Port s) then Some (SpecPort (sp_Port s))
      else if negb (strings.HasPrefix (sp_CacheDir s) "/") || bool_decide (sp_CacheDir s = "/"%string) then Some (SpecCacheDir (sp_CacheDir s))
      else if sp_PID s <? 0 then Some (SpecPID (sp_PID s))
      else if negb (bool_decide (sp_Read s = "direct"%string) || bool_decide (sp_Read s = "cached"%string)) then Some (SpecRead (sp_Read s))
      else if negb (specClient (sp_Client s)) then Some (SpecClient (sp_Client s)) else None
  end.

(** ** core-agent/union/child.go *)

Definition ModeServe : string := "serve".
Definition ModeUnmount : string := "unmount".

(** The variables, in the order they are set; [getenv] below reads them as a
    process does. *)
Definition envFor (mode : string) (s : Spec) : list (string * string) :=
  [("RD_UNION_MODE", mode); ("RD_UNION_PID", Itoa (sp_PID s)); ("RD_UNION_EXPORT", sp_Export s); ("RD_UNION_CLIENT", sp_Client s);
   ("RD_UNION_PORT", Itoa (sp_Port s)); ("RD_UNION_CACHE", sp_CacheDir s); ("RD_UNION_READ", sp_Read s);
   ("RD_UNION_OWNER", Owner_String {| ow_UID := sp_UID s; ow_GID := sp_GID s; ow_Set := true |})]%string.

Definition getenv (env : list (string * string)) (k : string) : string := optionOf env k.

Inductive childError :=
| ChildNumber (name : string)
| ChildOwner (e : wordError)
| ChildSpec (e : specError)
| ChildMode (mode : string).

Definition ownerFrom (v : string) : res wordError Owner := if bool_decide (v = ""%string) then Ok rootOwner else ParseOwner v.

Definition FromEnv (getenv : string → string) : res childError (Spec * string) :=
  match Atoi (getenv "RD_UNION_PID") with
  | None => Err (ChildNumber "RD_UNION_PID")
  | Some pid =>
      match Atoi (getenv "RD_UNION_PORT") with
      | None => Err (ChildNumber "RD_UNION_PORT")
      | Some port =>
          match ownerFrom (getenv "RD_UNION_OWNER") with
          | Err e => Err (ChildOwner e)
          | Ok owner =>
              let s := {| sp_UID := ow_UID owner; sp_GID := ow_GID owner; sp_PID := pid; sp_Export := getenv "RD_UNION_EXPORT";
                          sp_Client := getenv "RD_UNION_CLIENT"; sp_Port := port; sp_CacheDir := getenv "RD_UNION_CACHE"; sp_Read := getenv "RD_UNION_READ" |} in
              match Spec_Validate s with
              | Some e => Err (ChildSpec e)
              | None =>
                  let mode := getenv "RD_UNION_MODE" in
                  if bool_decide (mode = ModeServe ∨ mode = ModeUnmount) then Ok (s, mode) else Err (ChildMode mode)
              end
          end
      end
  end.

(** * The cache channel's requests and a share's union: lemmas and theorems *)

Open Scope Z_scope.

(** ** A valid specification *)

Definition plainName (w : string) : Prop := plainPart w ∧ strings.Contains w path.sep = false.

Lemma hexName f (w : string) : everyByte f w = true → w ≠ ""%string → f path.sep = false → f (Ascii.ascii_of_nat 46) = false → plainName w.
Proof.
  intros Hw Hne Hs Hd. split; [|by apply (everyByte_Contains f)]. split_and!; [done| |]; intros ->; cbn [everyByte] in Hw; apply andb_true_iff in Hw as [Hw _]; exact (eq_true_false_abs _ Hw Hd).
Qed.

Lemma ValidExport_id e : ValidExport e = None →
  ∃ id, shareID id ∧ (e = ExportMountPrefix +:+ id ∨ e = VolumeNamePrefix +:+ id).
Proof.
  unfold ValidExport, parseID. destruct (strings.HasPrefix e ExportMountPrefix) eqn:E1; [|destruct (strings.HasPrefix e VolumeNamePrefix) eqn:E2; [|done]].
  - apply HasPrefix_spec in E1 as [id ->]. rewrite TrimPrefix_append. destruct (Nat.eqb_spec (strlen id) idLen); [|done]. cbn [negb].
    destruct (isHex id) eqn:Eh; [|done]. intros _. exists id. split; [done|by left].
  - apply HasPrefix_spec in E2 as [id ->]. rewrite TrimPrefix_append. destruct (Nat.eqb_spec (strlen id) idLen); [|done]. cbn [negb].
    destruct (isHex id) eqn:Eh; [|done]. intros _. exists id. split; [done|by right].
Qed.

Lemma shareID_plain id : shareID id → plainName id.
Proof. intros [Hl [Hh _]%isHex_iff]. apply (hexName hexByte); [done| |done|done]. by intros ->. Qed.

Lemma spec_id_plain s : ValidExport (sp_Export s) = None → plainName (spec_id s).
Proof.
  intros (id & Hid & He)%ValidExport_id. unfold spec_id. destruct He as [->| ->].
  - rewrite TrimPrefix_append. by apply shareID_plain.
  - assert (strings.TrimPrefix (VolumeNamePrefix +:+ id) ExportMountPrefix = VolumeNamePrefix +:+ id) as -> by done.
    destruct (shareID_plain id Hid) as [_ Hs]. split; [split_and!; done|]. by rewrite Contains_append, Hs.
Qed.

Lemma spec_id_inj s s' : ValidExport (sp_Export s) = None → ValidExport (sp_Export s') = None → spec_id s = spec_id s' → sp_Export s = sp_Export s'.
Proof.
  intros (id & Hid & He)%ValidExport_id (id' & Hid' & He')%ValidExport_id. unfold spec_id.
  assert (∀ x, strings.TrimPrefix (VolumeNamePrefix +:+ x) ExportMountPrefix = VolumeNamePrefix +:+ x) as Hv by done.
  assert (∀ x y, shareID x → x ≠ VolumeNamePrefix +:+ y) as Hno.
  { intros x y [_ Hx] ->. apply isHex_no_dash in Hx. done. }
  destruct He as [->| ->], He' as [->| ->]; rewrite ?TrimPrefix_append, ?Hv; intros E.
  - by rewrite E.
  - by apply Hno in E.
  - symmetry in E. by apply Hno in E.
  - done.
Qed.

Lemma Spec_Validate_None s : Spec_Validate s = None ↔
  ValidExport (sp_Export s) = None ∧ 1 ≤ sp_Port s ≤ MaxPort ∧ strings.HasPrefix (sp_CacheDir s) "/" = true ∧ sp_CacheDir s ≠ "/"%string ∧
  0 ≤ sp_PID s ∧ (sp_Read s = "direct"%string ∨ sp_Read s = "cached"%string) ∧ specClient (sp_Client s) = true.
Proof.
  unfold Spec_Validate. destruct (ValidExport _); [by split; [|intros (? & _)]|].
  destruct (Z.ltb_spec (sp_Port s) 1); [by split; [|intros; lia]|]. destruct (Z.ltb_spec MaxPort (sp_Port s)); [by split; [|intros; lia]|]. cbn [orb].
  destruct (strings.HasPrefix _ _); cbn [negb orb]; [|by split; [|intros (_ & _ & ? & _)]]. case_bool_decide; [by split; [|naive_solver]|].
  destruct (Z.ltb_spec (sp_PID s) 0); [by split; [|intros; lia]|]. repeat case_bool_decide; cbn [orb negb]; [| | |by split; [|naive_solver]]; destruct (specClient _); cbn [negb]; split; naive_solver.
Qed.

Lemma pathJoin_plain ws : Forall plainName ws → ws ≠ [] → pathJoin (Root :: ws) = abs ("run" :: "rd-union" :: ws)%string.
Proof.
  intros H Hne. unfold pathJoin. rewrite filter_cons_True by done.
  assert (filter (λ e, e ≠ ""%string) ws = ws) as -> by (clear Hne; induction H as [|w ws [(? & _) _] _ IH]; [done|by rewrite filter_cons_True, IH]).
  assert (strings.Join (Root :: ws) "/" = abs ("run" :: "rd-union" :: ws)%string) as ->.
  { unfold abs. rewrite !Join_cons by done. done. }
  unfold abs. rewrite Clean_rooted, Split_Join; [|done|].
  - rewrite clean_parts_plain; [done|]. repeat constructor; try done. eapply Forall_impl; [exact H|]. by intros w [? _].
  - repeat constructor; try done. eapply Forall_impl; [exact H|]. by intros w [_ ?].
Qed.

Lemma specClient_plain c : specClient c = true → plainName c.
Proof. intros [Hne%negb_true_iff Hb]%andb_true_iff. apply bool_decide_eq_false in Hne. by apply (hexName lowerHex). Qed.

Lemma Merged_valid s : Spec_Validate s = None → Merged s = abs ["run"; "rd-union"; sp_Client s; spec_id s; "merged"]%string.
Proof.
  intros (He & _ & _ & _ & _ & _ & Hc)%Spec_Validate_None. unfold Merged. apply pathJoin_plain; [|done].
  apply Forall_cons; split; [by apply specClient_plain|]. apply Forall_cons; split; [by apply spec_id_plain|]. apply Forall_singleton. by split; [split_and!|].
Qed.

(** The mountpoints of a valid union lie below its root and name its machine and
    its share: two unions with one mountpoint are of one machine and one export. *)
Theorem union_mounts_apart s s' : Spec_Validate s = None → Spec_Validate s' = None →
  strings.HasPrefix (Merged s) (Root +:+ "/" +:+ sp_Client s +:+ "/") = true ∧
  (Merged s = Merged s' → sp_Client s = sp_Client s' ∧ sp_Export s = sp_Export s').
Proof.
  intros Hs Hs'. rewrite (Merged_valid s Hs), (Merged_valid s' Hs').
  apply Spec_Validate_None in Hs as (He & _ & _ & _ & _ & _ & Hc). apply Spec_Validate_None in Hs' as (He' & _ & _ & _ & _ & _ & Hc').
  pose proof (specClient_plain _ Hc) as [_ Pc]. pose proof (specClient_plain _ Hc') as [_ Pc'].
  pose proof (spec_id_plain _ He) as [_ Pi]. pose proof (spec_id_plain _ He') as [_ Pi']. split.
  - apply HasPrefix_spec. exists (spec_id s +:+ "/merged"). unfold abs. rewrite !Join_cons by done. cbn [strings.Join]. by rewrite !append_assoc.
  - intros E. apply (f_equal (λ p, strings.Split p path.sep)) in E. rewrite !Split_abs in E by (repeat constructor; done).
    injection E as E1 E2. split; [done|]. by apply spec_id_inj.
Qed.

(** The child that serves a union reads from its environment exactly the
    specification and the mode the agent put there. *)
Theorem child_gets_its_spec s mode : Spec_Validate s = None → sp_PID s < 2^63 → 0 ≤ sp_UID s < 2^32 → 0 ≤ sp_GID s < 2^32 →
  mode = ModeServe ∨ mode = ModeUnmount → FromEnv (getenv (envFor mode s)) = Ok (s, mode).
Proof.
  intros Hv Hp Hu Hg Hm. pose proof Hv as (_ & Hport & _ & _ & Hpid & _)%Spec_Validate_None. unfold FromEnv.
  change (getenv (envFor mode s) "RD_UNION_PID") with (Itoa (sp_PID s)). rewrite Atoi_Itoa by lia.
  change (getenv (envFor mode s) "RD_UNION_PORT") with (Itoa (sp_Port s)). rewrite Atoi_Itoa by (unfold MaxPort in Hport; lia).
  change (getenv (envFor mode s) "RD_UNION_OWNER") with (Owner_String {| ow_UID := sp_UID s; ow_GID := sp_GID s; ow_Set := true |}).
  unfold ownerFrom. rewrite owner_words_back by done.
  assert (Owner_String {| ow_UID := sp_UID s; ow_GID := sp_GID s; ow_Set := true |} ≠ ""%string) as Hne.
  { unfold Owner_String. cbn [negb ow_Set ow_UID ow_GID]. intros E. apply (f_equal strlen) in E. rewrite !strlen_append in E. cbn in E. lia. }
  rewrite bool_decide_eq_false_2 by done. cbn [ow_UID ow_GID].
  match goal with |- context [Spec_Validate ?x] => assert (x = s) as -> by (by destruct s) end. rewrite Hv.
  change (getenv (envFor mode s) "RD_UNION_MODE") with mode. by rewrite bool_decide_eq_true_2.
Qed.

(** An export spelled as a volume is taken for one: it names the cache volume of the
    share, and another mountpoint. *)
Lemma volume_taken_for_export :
  ValidExport "rd-0123456789abcdef" = None ∧
  CacheVolumeForExport "00000000" "rd-0123456789abcdef" = CacheVolumeForExport "00000000" "/m/0123456789abcdef".
Proof. split; vm_compute; reflexivity. Qed.
