(* ===== verification/Unions.v ===== *)
(** * The unions of a workspace (agent/internal/unions/unions.go)

    One union per share and machine, mounted and supervised by the agent.  Each
    hold of the manager's mutex is a definition; [tstep] is what a cache session
    does between them, with the answers of the union's mount and of the daemon left
    open, and [step] interleaves the sessions, the supervisors of cancelled unions,
    which end when they end, and the mounts, which come and go by themselves.  A
    union is known by a number where the code has its pointer: [mg_lives] has every
    one that was started, the ones that were cancelled too.  The counter of prepares,
    a [uint64], does not reach its end. *)
From S2P Require Import Prelude GoStrings Records Names Mounts AccountPorts CacheProto.

Open Scope Z_scope.

(** [live].  [lv_supervised] is that its context was not cancelled, [lv_ended] that
    its supervisor has returned, which closes [done]: a child of it may run until
    then.  [lv_key] is the share it was started for. *)
Record live := {
  lv_spec : Spec;
  lv_host : string;
  lv_cache : string;
  lv_prepared : Z;
  lv_supervised : bool;
  lv_ended : bool;
  lv_key : string
}.

(** The manager, and what it acts on: [mg_mounts] has what is mounted, by the process
    whose namespace it is in and the path, and [mg_wedged] the unions whose
    supervisor [drain] stopped waiting for. *)
Record Manager := {
  mg_lives : gmap nat live;
  mg_shares : gmap string nat;
  mg_pending : gset string;
  mg_sessions : gmap string Z;
  mg_prepares : Z;
  mg_mounts : gset (Z * string);
  mg_wedged : gset nat
}.

Definition newManager : Manager :=
  {| mg_lives := ∅; mg_shares := ∅; mg_pending := ∅; mg_sessions := ∅; mg_prepares := 0; mg_mounts := ∅; mg_wedged := ∅ |}.

Definition set_lives (f : gmap nat live → gmap nat live) (m : Manager) : Manager :=
  {| mg_lives := f (mg_lives m); mg_shares := mg_shares m; mg_pending := mg_pending m; mg_sessions := mg_sessions m; mg_prepares := mg_prepares m;
     mg_mounts := mg_mounts m; mg_wedged := mg_wedged m |}.
Definition set_shares (f : gmap string nat → gmap string nat) (m : Manager) : Manager :=
  {| mg_lives := mg_lives m; mg_shares := f (mg_shares m); mg_pending := mg_pending m; mg_sessions := mg_sessions m; mg_prepares := mg_prepares m;
     mg_mounts := mg_mounts m; mg_wedged := mg_wedged m |}.
Definition set_pending (f : gset string → gset string) (m : Manager) : Manager :=
  {| mg_lives := mg_lives m; mg_shares := mg_shares m; mg_pending := f (mg_pending m); mg_sessions := mg_sessions m; mg_prepares := mg_prepares m;
     mg_mounts := mg_mounts m; mg_wedged := mg_wedged m |}.
Definition set_sessions (f : gmap string Z → gmap string Z) (m : Manager) : Manager :=
  {| mg_lives := mg_lives m; mg_shares := mg_shares m; mg_pending := mg_pending m; mg_sessions := f (mg_sessions m); mg_prepares := mg_prepares m;
     mg_mounts := mg_mounts m; mg_wedged := mg_wedged m |}.
Definition set_mounts (f : gset (Z * string) → gset (Z * string)) (m : Manager) : Manager :=
  {| mg_lives := mg_lives m; mg_shares := mg_shares m; mg_pending := mg_pending m; mg_sessions := mg_sessions m; mg_prepares := mg_prepares m;
     mg_mounts := f (mg_mounts m); mg_wedged := mg_wedged m |}.
Definition set_wedged (f : gset nat → gset nat) (m : Manager) : Manager :=
  {| mg_lives := mg_lives m; mg_shares := mg_shares m; mg_pending := mg_pending m; mg_sessions := mg_sessions m; mg_prepares := mg_prepares m;
     mg_mounts := mg_mounts m; mg_wedged := f (mg_wedged m) |}.

(** Where a union serves, and [alive] where the probe answers in time. *)
Definition served (s : Spec) : Z * string := (sp_PID s, Merged s).
Definition mountedAt (s : Spec) (m : Manager) : bool := bool_decide (served s ∈ mg_mounts m).

(** [owner], [key] and [ownedBy]. *)
Definition nul : string := String NUL "".
Definition owner (account client : string) : string := account +:+ nul +:+ client +:+ nul.
Definition key (account client export : string) : string := owner account client +:+ export.
Definition ownedBy (k o : string) : bool := strings.HasPrefix k o.

(** [legacy]. *)
Definition legacy (s : Spec) : Spec :=
  {| sp_PID := sp_PID s; sp_Export := sp_Export s; sp_Client := ""; sp_Port := sp_Port s; sp_CacheDir := sp_CacheDir s; sp_Read := sp_Read s;
     sp_UID := sp_UID s; sp_GID := sp_GID s |}.

(** ** What a prepare is refused for before it mounts *)

Record Daemon := {
  dm_Host : string;
  dm_PID : Z
}.

Inductive prepareError :=
| PrepareExport (e : nameError)
| NotThisMachines (cache : string)
| PrepareRequest (e : requestError)
| NoCacheVolume
| PrepareOwner (e : wordError)
| PrepareSpec (e : specError).

(** The head of [Prepare]; [RawMountpoint] is the daemon's answer. *)
Definition prepareSpec (RawMountpoint : string → string → option string) (client : string) (d : Daemon) (req : Request) : res prepareError Spec :=
  match CacheVolumeForExport client (rq_Export req) with
  | Err e => Err (PrepareExport e)
  | Ok expected =>
      if bool_decide (rq_Cache req ≠ expected) then Err (NotThisMachines (rq_Cache req))
      else match Request_Validate req with
      | Some e => Err (PrepareRequest e)
      | None =>
          match RawMountpoint (dm_Host d) (rq_Cache req) with
          | None => Err NoCacheVolume
          | Some cacheDir =>
              let read := if bool_decide (rq_Read req = ""%string) then "cached"%string else rq_Read req in
              match OwnerOf req with
              | Err e => Err (PrepareOwner e)
              | Ok owner =>
                  let s := {| sp_UID := ow_UID owner; sp_GID := ow_GID owner; sp_PID := dm_PID d; sp_Export := rq_Export req; sp_Client := client;
                              sp_Port := rq_Port req; sp_Read := read; sp_CacheDir := cacheDir |} in
                  match Spec_Validate s with Some e => Err (PrepareSpec e) | None => Ok s end
              end
          end
      end
  end.

(** ** The holds of the mutex *)

Definition stamp (id : nat) (m : Manager) : Manager :=
  let n := mg_prepares m + 1 in
  {| mg_lives := alter (λ l, {| lv_spec := lv_spec l; lv_host := lv_host l; lv_cache := lv_cache l; lv_prepared := n; lv_supervised := lv_supervised l;
                                lv_ended := lv_ended l; lv_key := lv_key l |}) id (mg_lives m);
     mg_shares := mg_shares m; mg_pending := mg_pending m; mg_sessions := mg_sessions m; mg_prepares := n; mg_mounts := mg_mounts m; mg_wedged := mg_wedged m |}.

Definition cancelled (l : live) : live :=
  {| lv_spec := lv_spec l; lv_host := lv_host l; lv_cache := lv_cache l; lv_prepared := lv_prepared l; lv_supervised := false; lv_ended := lv_ended l; lv_key := lv_key l |}.
Definition returned (l : live) : live :=
  {| lv_spec := lv_spec l; lv_host := lv_host l; lv_cache := lv_cache l; lv_prepared := lv_prepared l; lv_supervised := lv_supervised l; lv_ended := true; lv_key := lv_key l |}.

(** [remove], whose cancelling tells the supervisor and no more. *)
Definition remove (k : string) (id : nat) (m : Manager) : Manager := set_shares (delete k) (set_lives (alter cancelled id) m).

(** The hold of [discard]; it drains the union where it was the share's own. *)
Definition ours (k : string) (id : nat) (m : Manager) : bool := bool_decide (mg_shares m !! k = Some id).
Definition discard (k : string) (id : nat) (m : Manager) : Manager := if ours k id m then remove k id m else m.

(** [drain]: the supervisor returned, or [stopTimeout] passed first. *)
Definition supervisorEnds (id : nat) (m : Manager) : Manager := set_lives (alter returned id) m.
Definition drainGivesUp (id : nat) (m : Manager) : Manager := set_wedged (λ w, {[ id ]} ∪ w) m.

(** What a prepare is about: its key, the union's specification, the daemon's host
    and the cache volume. *)
Record prep := {
  pp_key : string;
  pp_spec : Spec;
  pp_host : string;
  pp_cache : string
}.

(** The hold in which [Prepare] claims the share. *)
Inductive claimed := ClaimWait | ClaimAgain | ClaimMount (m : Manager).
Definition claim (k : string) (existing : option nat) (m : Manager) : claimed :=
  if bool_decide (k ∈ mg_pending m) then ClaimWait
  else if bool_decide (mg_shares m !! k ≠ existing) then ClaimAgain
  else ClaimMount (set_pending (λ p, {[ k ]} ∪ p) m).
Definition unclaim (k : string) (m : Manager) : Manager := set_pending (λ p, p ∖ {[ k ]}) m.

(** The hold in which [mount] starts a union. *)
Definition startUnion (r : prep) (m : Manager) : nat * Manager :=
  let id := fresh (dom (mg_lives m)) in
  let l := {| lv_spec := pp_spec r; lv_host := pp_host r; lv_cache := pp_cache r; lv_prepared := 0; lv_supervised := true; lv_ended := false; lv_key := pp_key r |} in
  (id, set_shares (<[pp_key r := id]>) (set_lives (<[id := l]>) m)).

(** [Open] and the end of a session. *)
Definition sessionsOf (o : string) (m : Manager) : Z := default 0 (mg_sessions m !! o).
Definition Open (o : string) (m : Manager) : Manager := set_sessions (<[o := sessionsOf o m + 1]>) m.
Definition endSession (o : string) (m : Manager) : Manager :=
  let n := sessionsOf o m - 1 in set_sessions (if n <=? 0 then delete o else <[o := n]>) m.

(** The unions of a machine, and [heldByContainers]: the hosts and mounts listed
    under the mutex, then the daemons' answers. *)
Definition ownedLives (o : string) (m : Manager) : list (string * nat * live) :=
  omap (λ kv, (λ l, (kv.1, kv.2, l)) <$> mg_lives m !! kv.2) (filter (λ kv, ownedBy kv.1 o = true) (map_to_list (mg_shares m))).
Definition hostsOf (o : string) (m : Manager) : gset string := list_to_set ((λ x, lv_host x.2) <$> ownedLives o m).
Definition mountsOf (o : string) (m : Manager) : gset string := list_to_set ((λ x, Merged (lv_spec x.2)) <$> ownedLives o m).

Definition heldFrom (MountSources : string → option (gset string)) (hosts mounts : gset string) : gset string :=
  let answers := MountSources <$> elements hosts in
  if existsb (λ a, bool_decide (a = None)) answers then mounts
  else mounts ∩ ⋃ (omap id answers).

(** The last hold of [Release]. *)
Definition taken (asked : Z) (held : gset string) (x : string * nat * live) : bool :=
  (lv_prepared x.2 <=? asked) && negb (bool_decide (Merged (lv_spec x.2) ∈ held)).
(** One union of it, drained under the mutex: [late] has the unions whose supervisor
    does not return in time. *)
Definition takeOne (late : gset nat) (m : Manager) (x : string * nat * live) : Manager :=
  let m := remove x.1.1 x.1.2 m in if bool_decide (x.1.2 ∈ late) then drainGivesUp x.1.2 m else supervisorEnds x.1.2 m.
Definition releaseTake (o : string) (asked : Z) (held : gset string) (late : gset nat) (m : Manager) : Manager * list Spec :=
  let gone := filter (λ x, taken asked held x = true) (ownedLives o m) in
  (foldl (takeOne late) m gone, (λ x, lv_spec x.2) <$> gone).

(** After it, with the mutex free: [union.Unmount] of each, by its path. *)
Definition unmount (s : Spec) (m : Manager) : Manager := set_mounts (λ ms, ms ∖ {[ served s ]}) m.

(** [MountedCaches]; [MountedShares] is what the mount table says of the machine. *)
Definition MountedCaches (account client : string) (MountedShares : option (list string)) (m : Manager) : option (list string) :=
  let own := filter (λ c, c ≠ ""%string) ((λ x, lv_cache x.2) <$> ownedLives (owner account client) m) in
  match (if bool_decide (client ≠ ""%string) then MountedShares else Some []) with
  | None => None
  | Some ids => Some (sort_strings (elements (list_to_set (own ++ (VolumeNameForCache client <$> ids)) : gset string)))
  end.

(** ** A session *)

(** Why a prepare takes a union for dead: nothing is mounted at its path, or the
    probe did not answer within [aliveTimeout]. *)
Inductive verdict := NotMounted | NoAnswer.

Inductive pc :=
| Idle
| Look (r : prep)
| Ask (r : prep) (existing : option nat)
| Handing (r : prep) (id : nat)
| Claim (r : prep) (existing : option nat) (why : verdict)
| Waiting (r : prep)
| Mount (r : prep) (existing : option nat) (why : verdict)
| Dead (r : prep) (existing : option nat) (why : verdict) (dead : option nat)
| DrainDead (r : prep) (id : nat)
| Start (r : prep)
| Ready (r : prep) (id : nat)
| Failed (r : prep) (id : nat)
| DrainFailed (r : prep) (id : nat)
| Stamp (r : prep) (id : nat)
| Unclaim (r : prep)
| Release
| RelAsked (asked : Z)
| RelListed (asked : Z) (hosts mounts : gset string)
| RelHeld (asked : Z) (hosts mounts : gset string) (sources : string → option (gset string))
| RelUnmount (specs : list Spec)
| Ended.

(** Whether the session is still open. *)
Definition isOpen (p : pc) : bool :=
  match p with Release | RelAsked _ | RelListed _ _ _ | RelHeld _ _ _ _ | RelUnmount _ | Ended => false | _ => true end.

Inductive tstep (o : string) (m : Manager) : pc → Manager → pc → Prop :=
| t_prepare r export : pp_key r = o +:+ export → tstep o m Idle m (Look r)
| t_look r : tstep o m (Look r) m (Ask r (mg_shares m !! pp_key r))
| t_alive r id l : mg_lives m !! id = Some l → mountedAt (lv_spec l) m = true → sp_UID (lv_spec l) = sp_UID (pp_spec r) → sp_GID (lv_spec l) = sp_GID (pp_spec r) →
    tstep o m (Ask r (Some id)) m (Handing r id)
| t_otherOwner r id l : mg_lives m !! id = Some l → mountedAt (lv_spec l) m = true → sp_UID (lv_spec l) ≠ sp_UID (pp_spec r) ∨ sp_GID (lv_spec l) ≠ sp_GID (pp_spec r) →
    tstep o m (Ask r (Some id)) m Idle
| t_hand r id : tstep o m (Handing r id) (stamp id m) Idle
| t_unknown r : tstep o m (Ask r None) m (Claim r None NotMounted)
| t_notMounted r id l : mg_lives m !! id = Some l → mountedAt (lv_spec l) m = false → tstep o m (Ask r (Some id)) m (Claim r (Some id) NotMounted)
| t_noAnswer r id : tstep o m (Ask r (Some id)) m (Claim r (Some id) NoAnswer)
| t_wait r existing why : claim (pp_key r) existing m = ClaimWait → tstep o m (Claim r existing why) m (Waiting r)
| t_waited r : pp_key r ∉ mg_pending m → tstep o m (Waiting r) m (Look r)
| t_gaveUp r : tstep o m (Waiting r) m Idle
| t_again r existing why : claim (pp_key r) existing m = ClaimAgain → tstep o m (Claim r existing why) m (Look r)
| t_claim r existing why m' : claim (pp_key r) existing m = ClaimMount m' → tstep o m (Claim r existing why) m' (Mount r existing why)
| t_dead r existing why : tstep o m (Mount r existing why) m (Dead r existing why (mg_shares m !! pp_key r))
| t_none r existing why : tstep o m (Dead r existing why None) m (Start r)
| t_discard r existing why id : ours (pp_key r) id m = true → tstep o m (Dead r existing why (Some id)) (discard (pp_key r) id m) (DrainDead r id)
| t_taken r existing why id : ours (pp_key r) id m = false → tstep o m (Dead r existing why (Some id)) (discard (pp_key r) id m) (Start r)
| t_drained r id l : mg_lives m !! id = Some l → lv_ended l = true → tstep o m (DrainDead r id) m (Start r)
| t_stopTimeout r id : tstep o m (DrainDead r id) (drainGivesUp id m) (Start r)
| t_start r id m' : startUnion r m = (id, m') → tstep o m (Start r) m' (Ready r id)
| t_failed r id : tstep o m (Ready r id) m (Failed r id)
| t_giveBack r id : ours (pp_key r) id m = true → tstep o m (Failed r id) (discard (pp_key r) id m) (DrainFailed r id)
| t_givenBack r id : ours (pp_key r) id m = false → tstep o m (Failed r id) (discard (pp_key r) id m) (Unclaim r)
| t_failedDrained r id l : mg_lives m !! id = Some l → lv_ended l = true → tstep o m (DrainFailed r id) m (Unclaim r)
| t_failedTimeout r id : tstep o m (DrainFailed r id) (drainGivesUp id m) (Unclaim r)
| t_ready r id : mountedAt (pp_spec r) m = true → tstep o m (Ready r id) m (Stamp r id)
| t_notOwned r id : tstep o m (Stamp r id) m (Failed r id)
| t_stamp r id : tstep o m (Stamp r id) (stamp id m) (Unclaim r)
| t_unclaim r : tstep o m (Unclaim r) (unclaim (pp_key r) m) Idle
| t_end : tstep o m Idle (endSession o m) Release
| t_othersOpen : 0 < sessionsOf o m → tstep o m Release m Ended
| t_asks : sessionsOf o m ≤ 0 → tstep o m Release m (RelAsked (mg_prepares m))
| t_lists asked : tstep o m (RelAsked asked) m (RelListed asked (hostsOf o m) (mountsOf o m))
| t_answered asked hosts mounts sources : tstep o m (RelListed asked hosts mounts) m (RelHeld asked hosts mounts sources)
| t_reopened asked hosts mounts sources : 0 < sessionsOf o m → tstep o m (RelHeld asked hosts mounts sources) m Ended
| t_takes asked hosts mounts sources late m' specs : sessionsOf o m ≤ 0 → releaseTake o asked (heldFrom sources hosts mounts) late m = (m', specs) →
    tstep o m (RelHeld asked hosts mounts sources) m' (RelUnmount specs)
| t_unmounts s specs : tstep o m (RelUnmount (s :: specs)) (unmount s m) (RelUnmount specs)
| t_unmountFails s specs : tstep o m (RelUnmount (s :: specs)) m (RelUnmount specs)
| t_released : tstep o m (RelUnmount []) m Ended.

Record thread := {
  th_owner : string;
  th_pc : pc
}.
Record World := {
  wo_m : Manager;
  wo_threads : gmap nat thread
}.

(** A machine's owner, as the key that authenticated names it. *)
Definition machine (o : string) : Prop :=
  ∃ account client, strings.Contains account NUL = false ∧ strings.Contains client NUL = false ∧ o = owner account client.

(** A session opens, or runs to its next point; the supervisor of a cancelled union
    returns; what is mounted changes, for the children's reasons or the kernel's. *)
Inductive step : World → World → Prop :=
| step_open w i o : machine o → wo_threads w !! i = None →
    step w {| wo_m := Open o (wo_m w); wo_threads := <[i := {| th_owner := o; th_pc := Idle |}]> (wo_threads w) |}
| step_run w i o p m' p' : wo_threads w !! i = Some {| th_owner := o; th_pc := p |} → tstep o (wo_m w) p m' p' →
    step w {| wo_m := m'; wo_threads := <[i := {| th_owner := o; th_pc := p' |}]> (wo_threads w) |}
| step_returns w id l : mg_lives (wo_m w) !! id = Some l → lv_supervised l = false →
    step w {| wo_m := supervisorEnds id (wo_m w); wo_threads := wo_threads w |}
| step_mounts w f : step w {| wo_m := set_mounts f (wo_m w); wo_threads := wo_threads w |}.

Definition startWorld : World := {| wo_m := newManager; wo_threads := ∅ |}.

(** * The unions of a workspace: what survives, and what is mounted once *)

Open Scope Z_scope.

(** ** Whose share a key is *)

Lemma owner_app o o' e : machine o → machine o' → ownedBy (o' +:+ e) o = true → o' = o.
Proof.
  intros (a & c & Ha & Hc & ->) (a' & c' & Ha' & Hc' & ->) [r E]%HasPrefix_spec. unfold owner, nul in *. rewrite !append_assoc in E. cbn [String.append] in E.
  assert (strings.Cut (a' +:+ String NUL (c' +:+ String NUL e)) NUL = Some (a', c' +:+ String NUL e)) as E1 by (by apply Cut_Some).
  assert (strings.Cut (a +:+ String NUL (c +:+ String NUL r)) NUL = Some (a, c +:+ String NUL r)) as E2 by (by apply Cut_Some).
  cbn in E. rewrite E in E1. rewrite E2 in E1. injection E1 as -> E1.
  assert (strings.Cut (c +:+ String NUL r) NUL = Some (c, r)) as E3 by (by apply Cut_Some). rewrite E1 in E3.
  assert (strings.Cut (c' +:+ String NUL e) NUL = Some (c', e)) as E4 by (by apply Cut_Some). rewrite E3 in E4. by injection E4 as -> _.
Qed.

(** ** The manager by itself *)

(** A share names the one union that is supervised for it. *)
Record consistent (m : Manager) : Prop := {
  cs_share : ∀ k id, mg_shares m !! k = Some id → ∃ l, mg_lives m !! id = Some l ∧ lv_supervised l = true ∧ lv_key l = k;
  cs_running : ∀ id l, mg_lives m !! id = Some l → lv_supervised l = true → mg_shares m !! lv_key l = Some id;
  cs_prepared : ∀ id l, mg_lives m !! id = Some l → lv_prepared l ≤ mg_prepares m;
  cs_count : 0 ≤ mg_prepares m
}.

(** What no hold undoes: a union keeps what it is, its stamp only rises, and a
    share's entry stays, goes, or was written by the holder of the claim. *)
Record evolves (mine : option string) (m m' : Manager) : Prop := {
  ev_live : ∀ id l, mg_lives m !! id = Some l → ∃ l', mg_lives m' !! id = Some l' ∧ lv_spec l' = lv_spec l ∧ lv_host l' = lv_host l ∧
    lv_key l' = lv_key l ∧ lv_prepared l ≤ lv_prepared l' ∧ (lv_supervised l' = true → lv_supervised l = true);
  ev_share : ∀ k, mine = Some k ∨ mg_shares m' !! k = mg_shares m !! k ∨ mg_shares m' !! k = None;
  ev_count : mg_prepares m ≤ mg_prepares m'
}.

Lemma evolves_same mine m m' : mg_lives m' = mg_lives m → mg_shares m' = mg_shares m → mg_prepares m' = mg_prepares m → evolves mine m m'.
Proof. intros Hl Hs Hp. constructor; [intros id l H; exists l; by rewrite Hl|intros k; rewrite Hs; auto|lia]. Qed.

Lemma evolves_trans m1 m2 m3 : evolves None m1 m2 → evolves None m2 m3 → evolves None m1 m3.
Proof.
  intros [L1 S1 C1] [L2 S2 C2]. constructor; [| |lia].
  - intros id l H. destruct (L1 id l H) as (l1 & Hl1 & ? & ? & ? & ? & ?). destruct (L2 id l1 Hl1) as (l2 & Hl2 & ? & ? & ? & ? & ?).
    exists l2. split_and!; [done|congruence|congruence|congruence|lia|auto].
  - intros k. destruct (S1 k) as [?|[E1|E1]], (S2 k) as [?|[E2|E2]]; try done; right; rewrite ?E2, ?E1; auto.
Qed.

Lemma consistent_same m m' : mg_lives m' = mg_lives m → mg_shares m' = mg_shares m → mg_prepares m' = mg_prepares m → consistent m → consistent m'.
Proof. intros Hl Hs Hp []. constructor; rewrite ?Hl, ?Hs, ?Hp; done. Qed.

Lemma stamp_lookup id m id' l : mg_lives (stamp id m) !! id' = Some l ↔
  ∃ l0, mg_lives m !! id' = Some l0 ∧
    l = if decide (id = id') then {| lv_spec := lv_spec l0; lv_host := lv_host l0; lv_cache := lv_cache l0; lv_prepared := mg_prepares m + 1; lv_supervised := lv_supervised l0; lv_ended := lv_ended l0; lv_key := lv_key l0 |} else l0.
Proof.
  cbn. destruct (decide (id = id')) as [->|Hne].
  - rewrite lookup_alter_eq, fmap_Some. done.
  - rewrite lookup_alter_ne by done. naive_solver.
Qed.

Lemma stamp_consistent id m : consistent m → consistent (stamp id m).
Proof.
  intros [Hs Hr Hp Hc]. constructor; [| | |cbn; lia].
  - intros k id' H. destruct (Hs k id' H) as (l & Hl & Hrun & Hk). eexists. split; [apply stamp_lookup; eauto|]. by case_decide.
  - intros id' l (l0 & Hl & ->)%stamp_lookup Hrun. assert (mg_shares m !! lv_key l0 = Some id') by (apply Hr; [done|by case_decide]). by case_decide.
  - intros id' l (l0 & Hl & ->)%stamp_lookup. cbn. specialize (Hp id' l0 Hl). case_decide; cbn; lia.
Qed.

Lemma stamp_evolves mine id m : consistent m → evolves mine m (stamp id m).
Proof.
  intros [_ _ Hp _]. constructor; [|auto|cbn; lia]. intros id' l Hl. eexists. split; [apply stamp_lookup; eauto|]. specialize (Hp id' l Hl).
  case_decide; cbn; split_and!; try done; lia.
Qed.

Lemma remove_lookup k id m id' l : mg_lives (remove k id m) !! id' = Some l ↔
  ∃ l0, mg_lives m !! id' = Some l0 ∧ l = if decide (id = id') then cancelled l0 else l0.
Proof.
  cbn. destruct (decide (id = id')) as [->|Hne].
  - rewrite lookup_alter_eq, fmap_Some. done.
  - rewrite lookup_alter_ne by done. naive_solver.
Qed.

Lemma remove_consistent k id m : mg_shares m !! k = Some id → consistent m → consistent (remove k id m).
Proof.
  intros Hk [Hs Hr Hp Hc]. destruct (Hs k id Hk) as (l & Hl & Hrun & Hkey). constructor; [| | |done].
  - intros k' id' H. cbn in H. apply lookup_delete_Some in H as [Hne H]. destruct (Hs k' id' H) as (l' & Hl' & Hrun' & Hkey'). eexists. split; [apply remove_lookup; eauto|].
    rewrite decide_False by congruence. done.
  - intros id' l' (l0 & Hl0 & ->)%remove_lookup Hrun'. case_decide as E; [done|]. cbn. apply lookup_delete_Some. split; [|by apply Hr].
    intros E'. specialize (Hr id' l0 Hl0 Hrun'). congruence.
  - intros id' l' (l0 & Hl0 & ->)%remove_lookup. case_decide; cbn; by apply (Hp id').
Qed.

Lemma remove_evolves k id m : evolves None m (remove k id m).
Proof.
  constructor; [| |cbn; lia].
  - intros id' l Hl. eexists. split; [apply remove_lookup; eauto|]. case_decide; cbn; split_and!; try done; lia.
  - intros k'. right. cbn. rewrite lookup_delete. case_decide; auto.
Qed.

Lemma evolves_weaken mine m m' : evolves None m m' → evolves mine m m'.
Proof. intros [H1 H2 H3]. constructor; [done| |done]. intros k. destruct (H2 k); [done|auto]. Qed.

Lemma discard_ok k id m : consistent m → consistent (discard k id m) ∧ evolves None m (discard k id m).
Proof.
  intros H. unfold discard, ours. case_bool_decide; [|split; [done|by apply evolves_same]]. split; [by apply remove_consistent|apply remove_evolves].
Qed.

Lemma discard_wedged k id m : mg_wedged (discard k id m) = mg_wedged m.
Proof. unfold discard. by destruct (ours k id m). Qed.

Lemma discard_same k id m : mg_pending (discard k id m) = mg_pending m ∧ mg_sessions (discard k id m) = mg_sessions m.
Proof. unfold discard. by destruct (ours k id m). Qed.

Lemma discard_gone k id m : mg_shares m !! k = None ∨ mg_shares m !! k = Some id → mg_shares (discard k id m) !! k = None.
Proof. unfold discard, ours. case_bool_decide as E; [intros _; cbn; by rewrite lookup_delete_eq|intros [?|?]; done]. Qed.

Lemma discard_notOurs k id m : ours k id m = false → discard k id m = m.
Proof. unfold discard. by intros ->. Qed.

Lemma discard_other k0 id0 m k id : mg_shares m !! k = Some id → mg_shares (discard k0 id0 m) !! k ≠ Some id → k0 = k ∧ id0 = id.
Proof.
  unfold discard. destruct (ours k0 id0 m) eqn:Ho; [|done]. apply bool_decide_eq_true in Ho. cbn. rewrite lookup_delete. case_decide; [|done]. subst. intros. split; congruence.
Qed.

Lemma discard_drained k id m : ours k id m = true → consistent m →
  consistent (discard k id m) ∧ evolves None m (discard k id m) ∧ mg_shares (discard k id m) !! k = None ∧
  ∃ l, mg_lives (discard k id m) !! id = Some l ∧ lv_supervised l = false.
Proof.
  intros Ho Hc. destruct (discard_ok k id m Hc) as [Hc' Hev]. pose proof Ho as Hs%bool_decide_eq_true. split_and!; [done|done|apply discard_gone; by right|].
  destruct (cs_share _ Hc k id Hs) as (l & Hl & _). exists (cancelled l). split; [|done]. unfold discard. rewrite Ho. apply remove_lookup. exists l. by rewrite decide_True.
Qed.

Lemma ends_lookup id m id' l : mg_lives (supervisorEnds id m) !! id' = Some l ↔ ∃ l0, mg_lives m !! id' = Some l0 ∧ l = if decide (id = id') then returned l0 else l0.
Proof.
  cbn. destruct (decide (id = id')) as [->|Hne].
  - rewrite lookup_alter_eq, fmap_Some. done.
  - rewrite lookup_alter_ne by done. naive_solver.
Qed.

Lemma ends_ok id m : consistent m → consistent (supervisorEnds id m) ∧ evolves None m (supervisorEnds id m).
Proof.
  intros [Hs Hr Hp Hc]. split; constructor; cbn [supervisorEnds set_lives mg_prepares mg_shares]; try done.
  - intros k id' H. destruct (Hs k id' H) as (l & Hl & ?). eexists. split; [apply ends_lookup; eauto|]. by case_decide.
  - intros id' l (l0 & Hl & ->)%ends_lookup Hrun. specialize (Hr id' l0 Hl). case_decide; by apply Hr.
  - intros id' l (l0 & Hl & ->)%ends_lookup. specialize (Hp id' l0 Hl). by case_decide.
  - intros id' l Hl. eexists. split; [apply ends_lookup; eauto|]. case_decide; cbn; split_and!; try done; lia.
  - auto.
Qed.

Lemma startUnion_ok r m id m' : startUnion r m = (id, m') → mg_shares m !! pp_key r = None → consistent m →
  mg_lives m !! id = None ∧ mg_shares m' = <[pp_key r := id]> (mg_shares m) ∧
  (∃ l, mg_lives m' = <[id := l]> (mg_lives m) ∧ lv_supervised l = true ∧ lv_key l = pp_key r ∧ lv_prepared l = 0 ∧ lv_spec l = pp_spec r) ∧
  consistent m' ∧ evolves (Some (pp_key r)) m m'.
Proof.
  intros [= Hid Hm] Hno Hc. destruct Hc as [Hs Hr Hp Hct].
  assert (mg_lives m !! id = None) as Hfresh by (apply not_elem_of_dom; rewrite <- Hid; apply is_fresh).
  rewrite Hid in Hm. clear Hid. subst m'. cbn [mg_lives mg_shares set_lives set_shares]. split_and!; [done|done|by eexists| |].
  - constructor; cbn; [| | |done].
    + intros k id' [[<- <-]|[Hne H]]%lookup_insert_Some; [eexists; rewrite lookup_insert_eq; done|].
      destruct (Hs k id' H) as (l & Hl & ?). exists l. split; [|done]. rewrite lookup_insert_ne; [done|]. congruence.
    + intros id' l [[<- <-]|[Hne H]]%lookup_insert_Some Hrun; cbn; [by rewrite lookup_insert_eq|].
      specialize (Hr id' l H Hrun). rewrite lookup_insert_ne; [done|]. congruence.
    + intros id' l [[<- <-]|[Hne H]]%lookup_insert_Some; cbn; [done|by apply (Hp id')].
  - constructor; cbn; [| |lia].
    + intros id' l Hl. exists l. rewrite lookup_insert_ne by congruence. done.
    + intros k. destruct (decide (pp_key r = k)) as [->|Hne]; [by left|]. rewrite lookup_insert_ne by done. auto.
Qed.

(** ** The last hold of a release *)

Lemma elem_of_ownedLives o m k id l :
  (k, id, l) ∈ ownedLives o m ↔ mg_shares m !! k = Some id ∧ ownedBy k o = true ∧ mg_lives m !! id = Some l.
Proof.
  unfold ownedLives. rewrite list_elem_of_omap. split.
  - intros ([k' id'] & [Ho H%elem_of_map_to_list]%list_elem_of_filter & (l' & Hl & [= -> -> ->])%fmap_Some). done.
  - intros (Hs & Ho & Hl). exists (k, id). cbn. rewrite Hl. split; [|done]. apply list_elem_of_filter. split; [done|]. by apply elem_of_map_to_list.
Qed.

Lemma ownedLives_keys o m : NoDup ((λ x : string * nat * live, x.1.1) <$> ownedLives o m).
Proof.
  unfold ownedLives. pose proof (NoDup_fst_map_to_list (mg_shares m)) as H. induction (map_to_list (mg_shares m)) as [|[k id] l IH]; [constructor|].
  cbn [fmap list_fmap] in H. apply NoDup_cons in H as [Hk H]. specialize (IH H). rewrite filter_cons. case_decide; [|done]. cbn.
  destruct (mg_lives m !! id) as [lv|]; cbn; [|done]. apply NoDup_cons. split; [|done].
  intros ([[k' id'] l'] & -> & (kv & [_ Hin]%list_elem_of_filter & (lv' & _ & [= -> -> ->])%fmap_Some)%list_elem_of_omap)%list_elem_of_fmap. cbn in Hk.
  apply Hk. apply list_elem_of_fmap. by exists kv.
Qed.

(** What [takeOne] does to the manager, less what it does to the one union. *)
Lemma takeOne_ok late k id l m : mg_shares m !! k = Some id → consistent m →
  let m' := takeOne late m (k, id, l) in
  consistent m' ∧ evolves None m m' ∧ mg_pending m' = mg_pending m ∧ mg_sessions m' = mg_sessions m ∧ mg_shares m' = delete k (mg_shares m).
Proof.
  intros Hk Hc. cbv zeta. unfold takeOne. cbn [fst snd]. pose proof (remove_consistent k id m Hk Hc) as Hc1. pose proof (remove_evolves k id m) as He1. case_bool_decide.
  - split_and!; [by apply (consistent_same (remove k id m))|eapply evolves_trans; [exact He1|by apply evolves_same]|done..].
  - destruct (ends_ok id _ Hc1) as [Hc2 He2]. split_and!; [done|by eapply evolves_trans|done..].
Qed.

Lemma remove_all late gone m : consistent m → Forall (λ x : string * nat * live, mg_shares m !! x.1.1 = Some x.1.2) gone → NoDup ((λ x, x.1.1) <$> gone) →
  let m' := foldl (takeOne late) m gone in
  consistent m' ∧ evolves None m m' ∧ mg_pending m' = mg_pending m ∧ mg_sessions m' = mg_sessions m ∧
  ∀ k, mg_shares m' !! k = if decide (k ∈ (λ x : string * nat * live, x.1.1) <$> gone) then None else mg_shares m !! k.
Proof.
  revert m. induction gone as [|[[k id] l] gone IH]; intros m Hc Hg Hn; [split_and!; [done|by apply evolves_same|done|done|]; intros k; cbn; by rewrite decide_False by apply not_elem_of_nil|].
  apply Forall_cons in Hg as [Hk Hg]. cbn [fmap list_fmap] in Hn. apply NoDup_cons in Hn as [Hnk Hn]. cbn in Hk, Hnk. cbn [foldl fst snd].
  destruct (takeOne_ok late k id l m Hk Hc) as (T1 & T2 & T3 & T4 & T5).
  destruct (IH (takeOne late m (k, id, l))) as (Hc' & Hev & Hp & Hs & Hout); [done| |done|].
  - apply Forall_forall. intros [[k' id'] l'] Hin. rewrite Forall_forall in Hg. specialize (Hg _ Hin). cbn [fst snd] in *. rewrite T5, lookup_delete_ne; [done|].
    intros ->. apply Hnk. apply list_elem_of_fmap. by exists (k', id', l').
  - split_and!; [done|by eapply evolves_trans|by rewrite Hp|by rewrite Hs|]. intros k'. cbn [foldl]. rewrite Hout, T5.
    cbn [fmap list_fmap fst]. destruct (decide (k' = k)) as [->|Hne].
    + rewrite (decide_True (P := k ∈ k :: _)) by left. case_decide; [done|]. apply lookup_delete_eq.
    + rewrite lookup_delete_ne by done. do 2 case_decide; set_solver.
Qed.

Lemma gone_keys o asked held m : NoDup ((λ x : string * nat * live, x.1.1) <$> filter (λ x, taken asked held x = true) (ownedLives o m)).
Proof.
  pose proof (ownedLives_keys o m) as Hn. induction (ownedLives o m) as [|x l IH]; [constructor|]. cbn in Hn. apply NoDup_cons in Hn as [Hx Hn].
  rewrite filter_cons. case_decide; [|by apply IH]. cbn. apply NoDup_cons. split; [|by apply IH].
  intros (y & Ey & [_ Hy]%list_elem_of_filter)%list_elem_of_fmap. apply Hx. rewrite Ey. apply list_elem_of_fmap. by exists y.
Qed.

Lemma releaseTake_ok o asked held late m : consistent m →
  let m' := (releaseTake o asked held late m).1 in
  consistent m' ∧ evolves None m m' ∧ mg_pending m' = mg_pending m ∧ mg_sessions m' = mg_sessions m ∧
  ∀ k id, mg_shares m !! k = Some id → mg_shares m' !! k ≠ Some id →
    ownedBy k o = true ∧ ∃ l, mg_lives m !! id = Some l ∧ lv_prepared l ≤ asked ∧ Merged (lv_spec l) ∉ held.
Proof.
  intros Hc. unfold releaseTake. cbn [fst].
  destruct (remove_all late (filter (λ x, taken asked held x = true) (ownedLives o m)) m Hc) as (H1 & H2 & H3 & H4 & H5).
  - apply Forall_forall. intros [[k id] l] [_ (? & _)%elem_of_ownedLives]%list_elem_of_filter. done.
  - apply gone_keys.
  - split_and!; [done..|]. intros k id Hs Hgone.
    destruct (decide (k ∈ (λ x : string * nat * live, x.1.1) <$> filter (λ x, taken asked held x = true) (ownedLives o m))) as [Hin|Hout];
      [|by rewrite H5, decide_False in Hgone].
    apply list_elem_of_fmap in Hin as ([[k' id'] l] & -> & [Ht (Hs' & Ho & Hl)%elem_of_ownedLives]%list_elem_of_filter). cbn in *.
    rewrite Hs in Hs'. injection Hs' as <-. split; [done|]. exists l. unfold taken in Ht. cbn in Ht. apply andb_true_iff in Ht as [Ht1%Z.leb_le Ht2%negb_true_iff].
    apply bool_decide_eq_false in Ht2. done.
Qed.

(** The unions a release unmounts are cancelled, and the machine's own. *)
Lemma taken_specs o asked held late m m' specs : consistent m → releaseTake o asked held late m = (m', specs) →
  Forall (λ s, ∃ id l, mg_lives m' !! id = Some l ∧ lv_spec l = s ∧ lv_supervised l = false ∧ ownedBy (lv_key l) o = true) specs.
Proof.
  intros Hc E. destruct (releaseTake_ok o asked held late m Hc) as (Hc' & Hev & _). rewrite E in Hc', Hev. cbn [fst] in *. injection E as E <-.
  apply Forall_forall. intros s ([[k id] l] & -> & Hx)%list_elem_of_fmap. pose proof Hx as [_ (Hs & Ho & Hl)%elem_of_ownedLives]%list_elem_of_filter. cbn [snd].
  destruct (ev_live _ _ _ Hev id l Hl) as (l' & Hl' & E1 & _ & E2 & _). exists id, l'. assert (lv_key l = k) as Hk.
  { destruct (cs_share _ Hc k id Hs) as (l0 & Hl0 & _ & ?). congruence. }
  rewrite E1, E2, Hk. split_and!; try done. destruct (lv_supervised l') eqn:Esup; [|done]. exfalso. pose proof (cs_running _ Hc' id l' Hl' Esup) as Hsh. rewrite E2, Hk in Hsh.
  revert Hsh. rewrite <- E. edestruct (remove_all late) as (_ & _ & _ & _ & H5); [exact Hc| | |rewrite H5, decide_True; [done|]].
  - apply Forall_forall. intros [[k' id'] l''] [_ (? & _)%elem_of_ownedLives]%list_elem_of_filter. done.
  - apply gone_keys.
  - apply list_elem_of_fmap. by exists (k, id, l).
Qed.

Lemma heldFrom_answers sources hosts mounts h p :
  h ∈ hosts → p ∈ mounts → p ∉ heldFrom sources hosts mounts → ∃ answer, sources h = Some answer ∧ p ∉ answer.
Proof.
  intros Hh Hp. unfold heldFrom. destruct (existsb _ _) eqn:Ex; [done|]. intros Hno.
  assert (∀ x, x ∈ hosts → sources x ≠ None) as Hall.
  { intros x Hx E. rewrite <- not_true_iff_false in Ex. apply Ex, existsb_exists. exists None. split; [|by apply bool_decide_eq_true_2].
    apply list_elem_of_In, list_elem_of_fmap. exists x. split; [done|]. by apply elem_of_elements. }
  destruct (sources h) as [answer|] eqn:Es; [|by destruct (Hall h)]. exists answer. split; [done|]. intros Ha. apply Hno, elem_of_intersection. split; [done|].
  apply elem_of_union_list. exists answer. split; [|done]. apply list_elem_of_omap. exists (Some answer). split; [|done].
  apply list_elem_of_fmap. exists h. split; [done|]. by apply elem_of_elements.
Qed.

(** ** Sessions *)

Definition openAs (o : string) (t : thread) : Prop := th_owner t = o ∧ isOpen (th_pc t) = true.
#[local] Instance openAs_dec o t : Decision (openAs o t).
Proof. unfold openAs. apply _. Defined.
Definition openCount (o : string) (ts : gmap nat thread) : nat := size (filter (λ it : nat * thread, openAs o it.2) ts).

Lemma openCount_fresh o ts i t : ts !! i = None → openCount o (<[i := t]> ts) = (openCount o ts + if decide (openAs o t) then 1 else 0)%nat.
Proof.
  intros Hi. unfold openCount. case_decide as Ht.
  - rewrite map_filter_insert_True by done. rewrite map_size_insert_None; [lia|]. apply map_lookup_filter_None. by left.
  - rewrite map_filter_insert_False by done. rewrite delete_id by done. lia.
Qed.

Lemma openCount_insert o ts i t t' : ts !! i = Some t →
  (openCount o (<[i := t']> ts) + (if decide (openAs o t) then 1 else 0) = openCount o ts + if decide (openAs o t') then 1 else 0)%nat.
Proof.
  intros Hi. rewrite <- (insert_delete_id ts i t Hi) at 2. rewrite <- insert_delete_eq.
  rewrite !openCount_fresh by apply lookup_delete_eq. lia.
Qed.

Lemma open_bit o o' p : (if decide (openAs o' {| th_owner := o; th_pc := p |}) then 1 else 0)%nat = (if decide (o = o') then if isOpen p then 1 else 0 else 0)%nat.
Proof. case_decide as H; unfold openAs in H; cbn in H; destruct (decide (o = o')); destruct (isOpen p); naive_solver. Qed.

Lemma openCount_zero o ts i t : openCount o ts = 0%nat → ts !! i = Some t → th_owner t = o → isOpen (th_pc t) = false.
Proof.
  intros H Hi Ho. apply not_true_iff_false. intros Hopen. unfold openCount in H. apply map_size_empty_inv in H.
  assert (filter (λ it : nat * thread, openAs o it.2) ts !! i = Some t) as E by (by apply map_lookup_filter_Some). by rewrite H in E.
Qed.

(** What each point of a session knows. *)
Definition prepOf (p : pc) : option prep :=
  match p with
  | Look r | Ask r _ | Handing r _ | Claim r _ _ | Waiting r | Mount r _ _ | Dead r _ _ _ | DrainDead r _ | Start r | Ready r _ | Failed r _
  | DrainFailed r _ | Stamp r _ | Unclaim r => Some r
  | _ => None
  end.
Definition holds (p : pc) : option string :=
  match p with
  | Mount r _ _ | Dead r _ _ _ | DrainDead r _ | Start r | Ready r _ | Failed r _ | DrainFailed r _ | Stamp r _ | Unclaim r => Some (pp_key r)
  | _ => None
  end.
Definition drains (p : pc) : option nat := match p with DrainDead _ id | DrainFailed _ id => Some id | _ => None end.
Definition clears (p : pc) : option string := match p with Start r | DrainDead r _ | DrainFailed r _ => Some (pp_key r) | _ => None end.
Definition unmounts (p : pc) : list Spec := match p with RelUnmount specs => specs | _ => [] end.
Definition builds (p : pc) : option nat := match p with Ready _ id | Failed _ id | Stamp _ id => Some id | _ => None end.
Definition asks (p : pc) : option Z := match p with RelAsked a | RelListed a _ _ | RelHeld a _ _ _ => Some a | _ => None end.
Definition list_of (p : pc) : option (Z * gset string * gset string) :=
  match p with RelListed a hosts mounts | RelHeld a hosts mounts _ => Some (a, hosts, mounts) | _ => None end.

Record pcOk (m : Manager) (o : string) (p : pc) : Prop := {
  po_key : ∀ r, prepOf p = Some r → ∃ export, pp_key r = o +:+ export;
  po_mount : ∀ r d v, p = Mount r d v → mg_shares m !! pp_key r = None ∨ mg_shares m !! pp_key r = d;
  po_dead : ∀ r e v d, p = Dead r e v d → (mg_shares m !! pp_key r = None ∨ mg_shares m !! pp_key r = d) ∧ (d = None ∨ d = e);
  po_start : ∀ k, clears p = Some k → mg_shares m !! k = None;
  po_builds : ∀ k id, holds p = Some k → builds p = Some id → mg_shares m !! k = None ∨ mg_shares m !! k = Some id;
  po_asked : ∀ a, asks p = Some a → a ≤ mg_prepares m;
  po_drains : ∀ id, drains p = Some id → ∃ l, mg_lives m !! id = Some l ∧ lv_supervised l = false;
  po_unmounts : Forall (λ s, ∃ id l, mg_lives m !! id = Some l ∧ lv_spec l = s ∧ lv_supervised l = false ∧ ownedBy (lv_key l) o = true) (unmounts p)
}.

Lemma pcOk_other mine m m' o p : evolves mine m m' → (∀ k, holds p = Some k → mine ≠ Some k) → pcOk m o p → pcOk m' o p.
Proof.
  intros [Hev Hs Hc] Hmine [H1 H1' H2 H3 H4 H5 H6 H7]. constructor; [done| | | | | | |].
  - intros r d v ->. destruct (Hs (pp_key r)) as [?|[->| ->]]; [by destruct (Hmine (pp_key r))|eauto|auto].
  - intros r e v d ->. destruct (H2 r e v d eq_refl) as [Ha Hb]. split; [|done]. destruct (Hs (pp_key r)) as [?|[->| ->]]; [by destruct (Hmine (pp_key r))|auto|auto].
  - intros k Hk. destruct (Hs k) as [?|[->| ->]]; [|auto|auto]. destruct (Hmine k); [|done]. by destruct p.
  - intros k id Hk Hb. destruct (Hs k) as [?|[->| ->]]; [by destruct (Hmine k)|auto|auto].
  - intros a Ha. specialize (H5 a Ha). lia.
  - intros id Hid. destruct (H6 id Hid) as (l & Hl & Hns). destruct (Hev id l Hl) as (l' & Hl' & _ & _ & _ & _ & Hsup). exists l'. split; [done|].
    destruct (lv_supervised l'); [|done]. by rewrite Hsup in Hns.
  - eapply Forall_impl; [exact H7|]. intros s (id & l & Hl & Hsp & Hns & Ho). destruct (Hev id l Hl) as (l' & Hl' & E1 & _ & E2 & _ & Hsup).
    exists id, l'. rewrite E1, E2. split_and!; try done. destruct (lv_supervised l'); [|done]. by rewrite Hsup in Hns.
Qed.

Lemma claim_cases k existing m m' : claim k existing m = ClaimMount m' → k ∉ mg_pending m ∧ mg_shares m !! k = existing ∧ m' = set_pending (λ p, {[ k ]} ∪ p) m.
Proof. unfold claim. case_bool_decide; [done|]. case_bool_decide as E; [done|]. intros [= <-]. split_and!; [done| |done]. destruct (decide (mg_shares m !! k = existing)); [done|by destruct E]. Qed.

Lemma tstep_manager o m p m' p' : tstep o m p m' p' → consistent m → pcOk m o p → consistent m' ∧ evolves (holds p) m m' ∧ pcOk m' o p'.
Proof.
  intros Hst Hc Hp. destruct Hp as [Hkey Hmount Hdead Hstart Hb Ha Hdr Hun].
  destruct Hst as [| | | |r id| | | | | | | |r existing why m' Hcl|r existing why|r existing why|r existing why id Ho|r existing why id Ho|r id l|r id|r id m' Hs|
                   |r id Ho|r id Ho|r id l|r id| | |r id|r| | | | | | |asked hosts mounts sources late m' specs Hse Ht|s specs|s specs|].
  all: try (split_and!; [done|by apply evolves_same|]; constructor; cbn in *; try done; intros; simplify_eq/=; eauto; lia).
  - split_and!; [by apply stamp_consistent|by apply stamp_evolves|]. constructor; done.
  - apply claim_cases in Hcl as (_ & Hex & ->). split_and!; [by apply (consistent_same m)|by apply evolves_same|]. constructor; cbn in *; try done. intros ? ? ? [= <- <- <-]. by right.
  - split_and!; [done|by apply evolves_same|]. constructor; cbn in *; try done. intros ? [= <-]. by destruct (Hdead _ _ _ _ eq_refl) as [[?|?] _].
  - destruct (discard_drained (pp_key r) id m Ho Hc) as (Hc' & Hev & Hno & Hl). split_and!; [done|by apply evolves_weaken|]. constructor; cbn in *; try done.
    + intros ? [= <-]. exact Hno.
    + intros ? [= <-]. exact Hl.
  - rewrite (discard_notOurs _ _ _ Ho). split_and!; [done|by apply evolves_same|]. constructor; cbn in *; try done. intros ? [= <-].
    apply bool_decide_eq_false in Ho. by destruct (Hdead _ _ _ _ eq_refl) as [[?|?] _].
  - split_and!; [by apply (consistent_same m)|by apply evolves_same|]. constructor; cbn in *; done.
  - destruct (startUnion_ok r m id m' Hs (Hstart _ eq_refl) Hc) as (Hfr & Hsh & _ & Hc' & Hev). split_and!; [done|done|]. constructor; cbn in *; try done.
    intros k id' [= <-] [= <-]. right. rewrite Hsh. apply lookup_insert_eq.
  - destruct (discard_drained (pp_key r) id m Ho Hc) as (Hc' & Hev & Hno & Hl). split_and!; [done|by apply evolves_weaken|]. constructor; cbn in *; try done.
    + intros ? [= <-]. exact Hno.
    + intros ? [= <-]. exact Hl.
  - rewrite (discard_notOurs _ _ _ Ho). split_and!; [done|by apply evolves_same|]. constructor; cbn in *; done.
  - split_and!; [by apply (consistent_same m)|by apply evolves_same|]. constructor; cbn in *; done.
  - split_and!; [by apply stamp_consistent|by apply stamp_evolves|]. constructor; cbn in *; done.
  - split_and!; [by apply (consistent_same m)|by apply evolves_same|]. constructor; cbn in *; done.
  - split_and!; [by apply (consistent_same m)|by apply evolves_same|]. constructor; cbn in *; done.
  - destruct (releaseTake_ok o asked (heldFrom sources hosts mounts) late m Hc) as (Hc' & Hev & _). pose proof (taken_specs _ _ _ _ _ _ _ Hc Ht) as Hsp.
    rewrite Ht in Hc', Hev. clear Ht. split_and!; [done|done|]. constructor; cbn in *; done.
  - split_and!; [by apply (consistent_same m)|by apply evolves_same|]. constructor; cbn in *; try done. by inversion Hun.
  - split_and!; [done|by apply evolves_same|]. constructor; cbn in *; try done. by inversion Hun.
Qed.

Lemma tstep_pending o m p m' p' : tstep o m p m' p' → consistent m →
  (holds p' = holds p ∧ mg_pending m' = mg_pending m) ∨
  (∃ k, holds p = None ∧ holds p' = Some k ∧ k ∉ mg_pending m ∧ mg_pending m' = {[ k ]} ∪ mg_pending m) ∨
  (∃ k, holds p = Some k ∧ holds p' = None ∧ mg_pending m' = mg_pending m ∖ {[ k ]}).
Proof.
  intros Hst Hc. destruct Hst; try (left; done).
  - right; left. match goal with H : claim _ _ _ = _ |- _ => apply claim_cases in H as (? & _ & ->) end. eexists. done.
  - left. split; [done|apply discard_same].
  - left. split; [done|apply discard_same].
  - left. split; [done|]. match goal with H : startUnion _ _ = _ |- _ => injection H as _ <- end. done.
  - left. split; [done|apply discard_same].
  - left. split; [done|apply discard_same].
  - right; right. eexists. done.
  - left. split; [done|]. match goal with H : releaseTake ?o ?a ?h ?l ?m = _ |- _ => destruct (releaseTake_ok o a h l m Hc) as (_ & _ & E & _); by rewrite H in E end.
Qed.

Lemma tstep_sessions o m p m' p' : tstep o m p m' p' → consistent m →
  (isOpen p' = isOpen p ∧ mg_sessions m' = mg_sessions m) ∨ (isOpen p = true ∧ isOpen p' = false ∧ m' = endSession o m).
Proof.
  intros Hst Hc. destruct Hst; try (left; done).
  - left. match goal with H : claim _ _ _ = _ |- _ => apply claim_cases in H as (? & _ & ->) end. done.
  - left. split; [done|apply discard_same].
  - left. split; [done|apply discard_same].
  - left. split; [done|]. match goal with H : startUnion _ _ = _ |- _ => injection H as _ <- end. done.
  - left. split; [done|apply discard_same].
  - left. split; [done|apply discard_same].
  - right. done.
  - left. split; [done|]. match goal with H : releaseTake ?o ?a ?h ?l ?m = _ |- _ => destruct (releaseTake_ok o a h l m Hc) as (_ & _ & _ & E & _); by rewrite H in E end.
Qed.

Lemma sessionsOf_open o o' m : sessionsOf o' (Open o m) = sessionsOf o' m + if decide (o = o') then 1 else 0.
Proof.
  unfold sessionsOf at 1. cbn. destruct (decide (o = o')) as [<-|Hne]; [by rewrite lookup_insert_eq|]. rewrite lookup_insert_ne by done. unfold sessionsOf. lia.
Qed.

Lemma sessionsOf_end o o' m : (if decide (o = o') then 1 else 0) ≤ sessionsOf o' m → (∀ n, mg_sessions m !! o = Some n → 0 < n) →
  sessionsOf o' (endSession o m) = sessionsOf o' m - if decide (o = o') then 1 else 0.
Proof.
  intros Hle Hpos. unfold endSession, sessionsOf in *. cbn. destruct (decide (o = o')) as [<-|E].
  - destruct (mg_sessions m !! o) as [n|] eqn:Es; cbn in *; [|lia]. destruct (Z.leb_spec (n - 1) 0); cbn.
    + rewrite lookup_delete_eq. cbn. lia.
    + by rewrite lookup_insert_eq.
  - destruct (_ <=? 0); [rewrite lookup_delete_ne by done|rewrite lookup_insert_ne by done]; lia.
Qed.

(** ** The sessions together *)

(** Some session is bringing this union up. *)
Definition building (ts : gmap nat thread) (k : string) (id : nat) : Prop :=
  ∃ j t, ts !! j = Some t ∧ holds (th_pc t) = Some k ∧ builds (th_pc t) = Some id.

(** A release that has listed the machine's unions listed every one it may take. *)
Definition listed (m : Manager) (ts : gmap nat thread) (o : string) (a : Z) (hosts mounts : gset string) : Prop :=
  ∀ k id l, mg_shares m !! k = Some id → ownedBy k o = true → mg_lives m !! id = Some l → lv_prepared l ≤ a →
    (lv_host l ∈ hosts ∧ Merged (lv_spec l) ∈ mounts) ∨ building ts k id.

(** A cancelled union whose supervisor has not returned: [drain] gave it up, or the
    holder of its share's claim still waits for it. *)
Definition winding (m : Manager) (ts : gmap nat thread) (id : nat) (k : string) : Prop :=
  id ∈ mg_wedged m ∨ ∃ j t, ts !! j = Some t ∧ holds (th_pc t) = Some k ∧ drains (th_pc t) = Some id.

Record winv (w : World) : Prop := {
  wi_m : consistent (wo_m w);
  wi_pc : ∀ i t, wo_threads w !! i = Some t → machine (th_owner t) ∧ pcOk (wo_m w) (th_owner t) (th_pc t);
  wi_claim : ∀ i t k, wo_threads w !! i = Some t → holds (th_pc t) = Some k → k ∈ mg_pending (wo_m w);
  wi_one : ∀ i j t u k, wo_threads w !! i = Some t → wo_threads w !! j = Some u → holds (th_pc t) = Some k → holds (th_pc u) = Some k → i = j;
  wi_count : ∀ o, sessionsOf o (wo_m w) = Z.of_nat (openCount o (wo_threads w));
  wi_pos : ∀ o n, mg_sessions (wo_m w) !! o = Some n → 0 < n;
  wi_listed : ∀ i t a hosts mounts, wo_threads w !! i = Some t → list_of (th_pc t) = Some (a, hosts, mounts) →
    listed (wo_m w) (wo_threads w) (th_owner t) a hosts mounts;
  wi_rest : ∀ id l, mg_lives (wo_m w) !! id = Some l → lv_supervised l = false → lv_ended l = false → winding (wo_m w) (wo_threads w) id (lv_key l)
}.

(** A step of session [i] at a share it holds the claim of: what the entry names
    afterwards is being brought up by it, or was stamped just now, or is as before
    and not being brought up by anybody. *)
Lemma own_share o m p m' p' k id : tstep o m p m' p' → consistent m → pcOk m o p → holds p = Some k → mg_shares m' !! k = Some id →
  (holds p' = Some k ∧ builds p' = Some id) ∨
  (∃ l, mg_lives m' !! id = Some l ∧ mg_prepares m < lv_prepared l) ∨
  (mg_shares m !! k = Some id ∧ builds p = None).
Proof.
  intros Hst Hc Hp Hk Hs. destruct Hp as [_ _ Hdead Hstart Hb _ _ _]. destruct Hst; cbn in Hk; try discriminate; injection Hk as Hk; subst k.
  - by right; right.
  - by right; right.
  - exfalso. rewrite discard_gone in Hs; [done|]. apply (Hdead _ _ _ _ eq_refl).
  - exfalso. rewrite discard_gone in Hs; [done|]. apply (Hdead _ _ _ _ eq_refl).
  - by right; right.
  - by right; right.
  - left. split; [done|]. destruct (startUnion_ok r m _ _ H (Hstart _ eq_refl) Hc) as (_ & Hsh & _). rewrite Hsh, lookup_insert_eq in Hs. cbn. congruence.
  - left. destruct (Hb _ _ eq_refl eq_refl); cbn; split; congruence.
  - exfalso. rewrite discard_gone in Hs; [done|]. by apply Hb.
  - exfalso. rewrite discard_gone in Hs; [done|]. by apply Hb.
  - by right; right.
  - by right; right.
  - left. destruct (Hb _ _ eq_refl eq_refl); cbn; split; congruence.
  - left. destruct (Hb _ _ eq_refl eq_refl); cbn; split; congruence.
  - right; left. assert (mg_shares m !! pp_key r = Some id) as Hs' by done. destruct (Hb _ _ eq_refl eq_refl) as [?|Hid]; [congruence|].
    rewrite Hs' in Hid. injection Hid as <-. destruct (cs_share _ Hc _ _ Hs') as (l & Hl & _).
    eexists. split; [apply stamp_lookup; eexists; split; [exact Hl|reflexivity]|]. rewrite decide_True by done. cbn. lia.
  - by right; right.
Qed.

Lemma listed_step w i o p m' p' j t a hosts mounts : winv w → wo_threads w !! i = Some {| th_owner := o; th_pc := p |} →
  tstep o (wo_m w) p m' p' → wo_threads w !! j = Some t → list_of (th_pc t) = Some (a, hosts, mounts) →
  listed m' (<[i := {| th_owner := o; th_pc := p' |}]> (wo_threads w)) (th_owner t) a hosts mounts.
Proof.
  intros Hw Hi Hst Hj Hl k id l' Hs Ho Hl' Hle.
  destruct (wi_pc _ Hw i _ Hi) as [_ Hpc]. destruct (tstep_manager _ _ _ _ _ Hst (wi_m _ Hw) Hpc) as (Hc' & Hev & _).
  assert (a ≤ mg_prepares (wo_m w)) as Ha.
  { destruct (wi_pc _ Hw j t Hj) as [_ Hpj]. apply (po_asked _ _ _ Hpj). destruct (th_pc t); cbn in *; congruence. }
  assert (mg_shares (wo_m w) !! k = Some id → (lv_host l' ∈ hosts ∧ Merged (lv_spec l') ∈ mounts) ∨ building (wo_threads w) k id) as Hbefore.
  { intros Hs0. destruct (cs_share _ (wi_m _ Hw) _ _ Hs0) as (l & Hl0 & _). destruct (ev_live _ _ _ Hev _ _ Hl0) as (l1 & Hl1 & Hsp & Hho & _ & Hpr & _).
    rewrite Hl' in Hl1. injection Hl1 as <-. rewrite Hsp, Hho. eapply (wi_listed _ Hw j t); [done|done|done|done|done|lia]. }
  destruct (decide (holds p = Some k)) as [Hk|Hk].
  - destruct (own_share _ _ _ _ _ _ _ Hst (wi_m _ Hw) Hpc Hk Hs) as [[Hk' Hb']|[(l2 & Hl2 & Hlt)|[Hs0 Hb]]].
    + right. exists i. eexists. rewrite lookup_insert_eq. done.
    + rewrite Hl' in Hl2. injection Hl2 as <-. lia.
    + destruct (Hbefore Hs0) as [?|(j' & t' & Hj' & Hk' & Hb')]; [by left|]. exfalso.
      assert (i = j') as <- by (by eapply (wi_one _ Hw)). rewrite Hi in Hj'. injection Hj' as <-. cbn in Hb'. congruence.
  - destruct (ev_share _ _ _ Hev k) as [?|[E|E]]; [done| |congruence]. rewrite E in Hs.
    destruct (Hbefore Hs) as [?|(j' & t' & Hj' & Hk' & Hb')]; [by left|]. right. exists j', t'. rewrite lookup_insert_ne; [done|].
    intros ->. rewrite Hi in Hj'. injection Hj' as <-. done.
Qed.

(** What one step leaves winding down. *)
Lemma takeOne_rest late k id0 l0 m id l : mg_lives (takeOne late m (k, id0, l0)) !! id = Some l → lv_supervised l = false → lv_ended l = false →
  id ∈ mg_wedged (takeOne late m (k, id0, l0)) ∨ mg_lives m !! id = Some l.
Proof.
  unfold takeOne. cbn [fst snd]. case_bool_decide as Hb.
  - intros Hl _ He. change (mg_lives (remove k id0 m) !! id = Some l) in Hl. apply remove_lookup in Hl as (l1 & Hl1 & ->). case_decide as Hd; [subst; left; cbn; set_solver|by right].
  - intros (l1 & Hl1 & ->)%ends_lookup _ He. apply remove_lookup in Hl1 as (l2 & Hl2 & ->). case_decide; [done|]. by right.
Qed.

Lemma take_wedged late gone m : mg_wedged m ⊆ mg_wedged (foldl (takeOne late) m gone).
Proof.
  revert m. induction gone as [|[[k id] l] gone IH]; intros m; [done|]. cbn [foldl]. etrans; [|apply IH]. unfold takeOne. cbn [fst snd].
  case_bool_decide; cbn; [set_solver|done].
Qed.

Lemma take_rest late gone m id l : mg_lives (foldl (takeOne late) m gone) !! id = Some l → lv_supervised l = false → lv_ended l = false →
  id ∈ mg_wedged (foldl (takeOne late) m gone) ∨ mg_lives m !! id = Some l.
Proof.
  revert m. induction gone as [|[[k id0] l0] gone IH]; intros m; cbn [foldl]; [auto|]. intros Hl Hs He.
  destruct (IH _ Hl Hs He) as [?|Hl1]; [by left|]. destruct (takeOne_rest late k id0 l0 m id l Hl1 Hs He) as [Hw|?]; [|by right]. left. by apply take_wedged.
Qed.

Lemma discard_rest k id0 m id l : consistent m → mg_lives (discard k id0 m) !! id = Some l →
  mg_lives m !! id = Some l ∨ (ours k id0 m = true ∧ id = id0 ∧ lv_key l = k).
Proof.
  intros Hc. unfold discard. destruct (ours k id0 m) eqn:Ho; [|auto]. intros (l0 & Hl0 & ->)%remove_lookup. case_decide as Hd; [|auto]. subst id0. right.
  apply bool_decide_eq_true in Ho. destruct (cs_share _ Hc k id Ho) as (l1 & Hl1 & _ & Hk). split_and!; [done|done|]. cbn. congruence.
Qed.

Lemma rest_step o m p m' p' id l : tstep o m p m' p' → consistent m → mg_lives m' !! id = Some l → lv_supervised l = false → lv_ended l = false →
  mg_wedged m ⊆ mg_wedged m' ∧
  (id ∈ mg_wedged m' ∨ (holds p' = Some (lv_key l) ∧ drains p' = Some id) ∨
   ∃ l0, mg_lives m !! id = Some l0 ∧ lv_supervised l0 = false ∧ lv_ended l0 = false ∧ lv_key l0 = lv_key l ∧ drains p ≠ Some id).
Proof.
  intros Hst Hc Hl Hs He. assert (∀ l0, mg_lives m !! id = Some l0 → l0 = l → drains p ≠ Some id →
    ∃ l0, mg_lives m !! id = Some l0 ∧ lv_supervised l0 = false ∧ lv_ended l0 = false ∧ lv_key l0 = lv_key l ∧ drains p ≠ Some id) as Hsame by (intros l0 ? ->; eauto 6).
  destruct Hst; try (split; [done|]; right; right; by eapply Hsame).
  - split; [done|]. apply stamp_lookup in Hl as (l0 & Hl0 & ->). right; right. exists l0. case_decide; done.
  - match goal with H : claim _ _ _ = _ |- _ => apply claim_cases in H as (_ & _ & ->) end. split; [done|]. right; right. by eapply Hsame.
  - split; [by rewrite discard_wedged|]. apply discard_rest in Hl as [Hl|(_ & -> & Hk)]; [right; right; by eapply Hsame| |done]. right; left. cbn. by rewrite Hk.
  - split; [by rewrite discard_wedged|]. apply discard_rest in Hl as [Hl|(Ho & _)]; [right; right; by eapply Hsame|congruence|done].
  - split; [done|]. right; right. eapply Hsame; [done|done|]. cbn. intros [= ->]. congruence.
  - split; [cbn; set_solver|]. destruct (decide (id0 = id)) as [->|Hne]; [left; cbn; set_solver|]. right; right. eapply Hsame; [done|done|]. cbn. congruence.
  - match goal with H : startUnion _ _ = _ |- _ => injection H as Hid <- end. split; [done|]. right; right. cbn in Hl. apply lookup_insert_Some in Hl as [[_ <-]|[_ Hl]]; [done|]. by eapply Hsame.
  - split; [by rewrite discard_wedged|]. apply discard_rest in Hl as [Hl|(_ & -> & Hk)]; [right; right; by eapply Hsame| |done]. right; left. cbn. by rewrite Hk.
  - split; [by rewrite discard_wedged|]. apply discard_rest in Hl as [Hl|(Ho & _)]; [right; right; by eapply Hsame|congruence|done].
  - split; [done|]. right; right. eapply Hsame; [done|done|]. cbn. intros [= ->]. congruence.
  - split; [cbn; set_solver|]. destruct (decide (id0 = id)) as [->|Hne]; [left; cbn; set_solver|]. right; right. eapply Hsame; [done|done|]. cbn. congruence.
  - split; [done|]. apply stamp_lookup in Hl as (l0 & Hl0 & ->). right; right. exists l0. case_decide; done.
  - match goal with H : releaseTake _ _ _ _ _ = _ |- _ => injection H as <- _ end. split; [apply take_wedged|].
    apply take_rest in Hl as [?|Hl]; [by left| |done|done]. right; right. by eapply Hsame.
Qed.

Lemma winv_start : winv startWorld.
Proof.
  constructor; cbn; try (intros; by rewrite lookup_empty in *); try (intros i t; by rewrite lookup_empty).
  - constructor; cbn; [| | |lia]; intros ? ? H; by rewrite lookup_empty in H.
  - intros o. unfold sessionsOf, openCount. cbn. by rewrite lookup_empty, map_filter_empty, map_size_empty.
Qed.

Lemma winv_open w i o : winv w → machine o → wo_threads w !! i = None →
  winv {| wo_m := Open o (wo_m w); wo_threads := <[i := {| th_owner := o; th_pc := Idle |}]> (wo_threads w) |}.
Proof.
  intros Hw Ho Hi. assert (evolves None (wo_m w) (Open o (wo_m w))) as Hev by (by apply evolves_same). constructor; cbn.
  - by apply (consistent_same (wo_m w)), (wi_m _ Hw).
  - intros j t [[<- <-]|[_ Hj]]%lookup_insert_Some; [split; [done|by constructor]|]. destruct (wi_pc _ Hw j t Hj) as [? ?]. split; [done|]. by eapply pcOk_other.
  - intros j t k [[<- <-]|[_ Hj]]%lookup_insert_Some Hk; [done|]. by eapply (wi_claim _ Hw).
  - intros j j' t u k [[<- <-]|[_ Hj]]%lookup_insert_Some [[<- <-]|[_ Hj']]%lookup_insert_Some Hk Hk'; try done. by eapply (wi_one _ Hw).
  - intros o'. rewrite openCount_fresh by done. rewrite sessionsOf_open, (wi_count _ Hw o'). unfold openAs. cbn [th_owner th_pc isOpen].
    destruct (decide (o = o')) as [<-|Hne]; [rewrite decide_True by done; lia|rewrite decide_False by naive_solver; lia].
  - intros o' n [[<- <-]|[_ Hn]]%lookup_insert_Some; [rewrite (wi_count _ Hw o); lia|by eapply (wi_pos _ Hw)].
  - intros j t a hosts mounts [[<- <-]|[Hne Hj]]%lookup_insert_Some Hl; [done|]. intros k id l Hs Hok Hll Hle.
    destruct (wi_listed _ Hw j t a hosts mounts Hj Hl k id l Hs Hok Hll Hle) as [?|(j' & t' & Hj' & ?)]; [by left|]. right. exists j', t'.
    rewrite lookup_insert_ne by congruence. done.
  - intros id l Hl Hs He. destruct (wi_rest _ Hw id l Hl Hs He) as [?|(j & t & Hj & ?)]; [by left|]. right. exists j, t. rewrite lookup_insert_ne by congruence. done.
Qed.

Lemma lists_all o m k id l : mg_shares m !! k = Some id → ownedBy k o = true → mg_lives m !! id = Some l →
  lv_host l ∈ hostsOf o m ∧ Merged (lv_spec l) ∈ mountsOf o m.
Proof.
  intros Hs Ho Hl. assert ((k, id, l) ∈ ownedLives o m) as Hin by (by apply elem_of_ownedLives).
  split; apply elem_of_list_to_set, list_elem_of_fmap; by exists (k, id, l).
Qed.

Lemma winv_run w i o p m' p' : winv w → wo_threads w !! i = Some {| th_owner := o; th_pc := p |} → tstep o (wo_m w) p m' p' →
  winv {| wo_m := m'; wo_threads := <[i := {| th_owner := o; th_pc := p' |}]> (wo_threads w) |}.
Proof.
  intros Hw Hi Hst. destruct (wi_pc _ Hw i _ Hi) as [Hmach Hpc]. cbn in Hmach, Hpc.
  destruct (tstep_manager _ _ _ _ _ Hst (wi_m _ Hw) Hpc) as (Hc' & Hev & Hpc').
  pose proof (tstep_pending _ _ _ _ _ Hst (wi_m _ Hw)) as Hpend. pose proof (tstep_sessions _ _ _ _ _ Hst (wi_m _ Hw)) as Hses.
  assert (∀ j t k, j ≠ i → wo_threads w !! j = Some t → holds (th_pc t) = Some k → holds p ≠ Some k) as Hother.
  { intros j t k Hne Hj Hk Hp. apply Hne. eapply (wi_one _ Hw); [exact Hj|exact Hi|exact Hk|exact Hp]. }
  constructor; cbn.
  - done.
  - intros j t [[<- <-]|[Hne Hj]]%lookup_insert_Some; [done|]. destruct (wi_pc _ Hw j t Hj) as [? ?]. split; [done|]. eapply pcOk_other; [exact Hev| |done].
    intros k Hk. by eapply Hother.
  - intros j t k [[<- <-]|[Hne Hj]]%lookup_insert_Some Hk.
    + cbn in Hk. destruct Hpend as [[Hh ->]|[(k' & _ & Hh & _ & ->)|(k' & _ & Hh & _)]]; [eapply (wi_claim _ Hw); [exact Hi|]; cbn; congruence| |congruence].
      rewrite Hk in Hh. injection Hh as ->. set_solver.
    + pose proof (wi_claim _ Hw j t k Hj Hk) as Hin. destruct Hpend as [[_ ->]|[(k' & _ & _ & _ & ->)|(k' & Hh & _ & ->)]]; [done|set_solver|].
      apply elem_of_difference. split; [done|]. intros ->%elem_of_singleton. by eapply (Hother j t).
  - assert (∀ j t k, j ≠ i → wo_threads w !! j = Some t → holds (th_pc t) = Some k → holds p' ≠ Some k) as Hother'.
    { intros j t k Hne Hj Hk Hp'. destruct Hpend as [[Hh _]|[(k' & _ & Hh & Hno & _)|(k' & _ & Hh & _)]]; [by eapply (Hother j t k); [..|congruence]| |congruence].
      rewrite Hp' in Hh. injection Hh as ->. apply Hno. by eapply (wi_claim _ Hw). }
    intros j j' t u k [[<- <-]|[Hne Hj]]%lookup_insert_Some [[<- <-]|[Hne' Hj']]%lookup_insert_Some Hk Hk'; [done| | |by eapply (wi_one _ Hw)].
    + by destruct (Hother' j' u k).
    + by destruct (Hother' j t k).
  - intros o'. pose proof (openCount_insert o' (wo_threads w) i _ {| th_owner := o; th_pc := p' |} Hi) as Hn. pose proof (wi_count _ Hw o') as Hc. rewrite !open_bit in Hn.
    destruct Hses as [[Ho Hs]|(Ho & Ho' & ->)].
    + unfold sessionsOf in *. rewrite Hs, Hc. rewrite Ho in Hn. lia.
    + rewrite sessionsOf_end; [| |by apply (wi_pos _ Hw)]; rewrite Ho, Ho' in Hn; destruct (decide (o = o')); lia.
  - intros o' n. destruct Hses as [[_ ->]|(_ & _ & ->)]; [by apply (wi_pos _ Hw)|]. unfold endSession. cbn. destruct (Z.leb_spec (sessionsOf o (wo_m w) - 1) 0).
    + intros [_ Hn]%lookup_delete_Some. by eapply (wi_pos _ Hw).
    + intros [[_ <-]|[_ Hn]]%lookup_insert_Some; [lia|by eapply (wi_pos _ Hw)].
  - intros j t a hosts mounts [[<- <-]|[Hne Hj]]%lookup_insert_Some Hl; [|by eapply listed_step]. cbn [th_pc th_owner] in *.
    destruct (list_of p) as [[[a0 h0] m0]|] eqn:Ep.
    + assert (list_of p' = list_of p) as E by (inversion Hst; subst; cbn in *; congruence). rewrite E, Ep in Hl. injection Hl as -> -> ->. exact (listed_step w i o p m' p' i _ a hosts mounts Hw Hi Hst Hi Ep).
    + inversion Hst; subst; cbn in *; try congruence. injection Hl as <- <- <-. intros k id l Hs Ho Hll _. left. by eapply lists_all.
  - intros id l Hl Hs He. destruct (rest_step _ _ _ _ _ id l Hst (wi_m _ Hw) Hl Hs He) as [Hsub [?|[?|(l0 & Hl0 & Hs0 & He0 & Hk0 & Hd0)]]].
    + by left.
    + right. exists i. eexists. rewrite lookup_insert_eq. done.
    + destruct (wi_rest _ Hw id l0 Hl0 Hs0 He0) as [?|(j & t & Hj & Hk & Hd)]; [left; by apply Hsub|]. right. exists j, t. rewrite <- Hk0. rewrite lookup_insert_ne; [done|].
      intros ->. rewrite Hi in Hj. injection Hj as <-. done.
Qed.

(** A change to the unions that is no session's. *)
Lemma winv_around w m' : winv w → consistent m' → evolves None (wo_m w) m' → mg_shares m' = mg_shares (wo_m w) → mg_pending m' = mg_pending (wo_m w) →
  mg_sessions m' = mg_sessions (wo_m w) → mg_wedged m' = mg_wedged (wo_m w) →
  (∀ id l, mg_lives m' !! id = Some l → lv_supervised l = false → lv_ended l = false → mg_lives (wo_m w) !! id = Some l) →
  winv {| wo_m := m'; wo_threads := wo_threads w |}.
Proof.
  intros Hw Hc Hev Hsh Hp Hse Hwe Hre. constructor; cbn [wo_m wo_threads].
  - done.
  - intros i t Hi. destruct (wi_pc _ Hw i t Hi) as [? ?]. split; [done|]. by eapply pcOk_other.
  - rewrite Hp. apply (wi_claim _ Hw).
  - apply (wi_one _ Hw).
  - intros o. unfold sessionsOf. rewrite Hse. apply (wi_count _ Hw).
  - rewrite Hse. apply (wi_pos _ Hw).
  - intros i t a hosts mounts Hi Hl k id l Hs Ho Hl' Hle. rewrite Hsh in Hs. destruct (cs_share _ (wi_m _ Hw) _ _ Hs) as (l0 & Hl0 & _).
    destruct (ev_live _ _ _ Hev _ _ Hl0) as (l1 & Hl1 & Hsp & Hho & _ & Hpr & _). rewrite Hl' in Hl1. injection Hl1 as <-. rewrite Hsp, Hho.
    eapply (wi_listed _ Hw i t); [done|done|done|done|done|lia].
  - intros id l Hl Hs He. unfold winding. rewrite Hwe. apply (wi_rest _ Hw); [by apply Hre|done|done].
Qed.

Lemma step_winv w w' : step w w' → winv w → winv w'.
Proof.
  intros [w0 i o Ho Hi|w0 i o p m' p' Hi Hst|w0 id l Hl Hns|w0 f] Hw; [by apply winv_open|by apply (winv_run w0 i o p)| |].
  - destruct (ends_ok id _ (wi_m _ Hw)) as [Hc Hev]. apply winv_around; try done. intros id' l' (l0 & Hl0 & ->)%ends_lookup. by case_decide.
  - apply winv_around; try done; [by apply (consistent_same (wo_m w0)), (wi_m _ Hw)|by apply evolves_same].
Qed.

Lemma reachable_winv w : rtc step startWorld w → winv w.
Proof. intros H. eapply (rtc_ind_r winv); [apply winv_start| |exact H]. intros; by eapply step_winv. Qed.

(** C21 (invariant). Prepares of one share that run together, with releases between
    them, never have two unions registered or supervised for it: the unions whose
    supervisor was not told to stop are exactly the ones the manager has for their
    shares.  A union that was told to stop may run on until its supervisor returns,
    and the code waits for that no longer than [stopTimeout]: so of the unions of one
    share two have not ended at once only where the wait for one of them timed out.
    A mount that an earlier agent left is nobody's here. *)
Theorem one_union_per_share w : rtc step startWorld w →
  (∀ id l, mg_lives (wo_m w) !! id = Some l → lv_supervised l = true → mg_shares (wo_m w) !! lv_key l = Some id) ∧
  (∀ k id, mg_shares (wo_m w) !! k = Some id → ∃ l, mg_lives (wo_m w) !! id = Some l ∧ lv_supervised l = true ∧ lv_key l = k) ∧
  (∀ id1 l1 id2 l2, mg_lives (wo_m w) !! id1 = Some l1 → mg_lives (wo_m w) !! id2 = Some l2 → lv_key l1 = lv_key l2 →
     lv_ended l1 = false → lv_ended l2 = false → id1 = id2 ∨ id1 ∈ mg_wedged (wo_m w) ∨ id2 ∈ mg_wedged (wo_m w)).
Proof.
  intros Hw%reachable_winv. pose proof (wi_m _ Hw) as Hc. split_and!; [apply (cs_running _ Hc)|apply (cs_share _ Hc)|].
  assert (∀ id1 l1 id2 l2, mg_lives (wo_m w) !! id1 = Some l1 → mg_lives (wo_m w) !! id2 = Some l2 → lv_key l1 = lv_key l2 → lv_supervised l1 = true → lv_supervised l2 = false →
    lv_ended l2 = false → id2 ∈ mg_wedged (wo_m w)) as Hmix.
  { intros id1 l1 id2 l2 H1 H2 Hk Hs1 Hs2 He2. destruct (wi_rest _ Hw id2 l2 H2 Hs2 He2) as [?|(j & t & Hj & Hh & Hd)]; [done|]. exfalso.
    destruct (wi_pc _ Hw j t Hj) as [_ Hpc]. pose proof (cs_running _ Hc id1 l1 H1 Hs1) as Hsh. rewrite Hk in Hsh.
    rewrite (po_start _ _ _ Hpc (lv_key l2)) in Hsh; [done|]. destruct (th_pc t); done. }
  intros id1 l1 id2 l2 H1 H2 Hk He1 He2. destruct (lv_supervised l1) eqn:Hs1, (lv_supervised l2) eqn:Hs2.
  - left. pose proof (cs_running _ Hc id1 l1 H1 Hs1). pose proof (cs_running _ Hc id2 l2 H2 Hs2). congruence.
  - right; right. by apply (Hmix id1 l1 id2 l2).
  - right; left. by apply (Hmix id2 l2 id1 l1).
  - destruct (wi_rest _ Hw id1 l1 H1 Hs1 He1) as [?|(j1 & t1 & Hj1 & Hh1 & Hd1)]; [auto|]. destruct (wi_rest _ Hw id2 l2 H2 Hs2 He2) as [?|(j2 & t2 & Hj2 & Hh2 & Hd2)]; [auto|].
    left. rewrite Hk in Hh1. assert (j1 = j2) as <- by (by eapply (wi_one _ Hw)). congruence.
Qed.

(** ** Why a union is replaced *)

(** What a prepare that goes on to replace a union has found out about it. *)
Definition evidence (p : pc) : option (prep * nat * verdict) :=
  match p with Claim r (Some id) why | Mount r (Some id) why | Dead r (Some id) why _ => Some (r, id, why) | _ => None end.

(** An earlier moment at which it asked; where the answer was that nothing is mounted
    at the path, nothing was. *)
Definition foundOut (w : World) (i : nat) (o : string) (r : prep) (id : nat) (s : Spec) (why : verdict) : Prop :=
  ∃ w0, rtc step startWorld w0 ∧ rtc step w0 w ∧ wo_threads w0 !! i = Some {| th_owner := o; th_pc := Ask r (Some id) |} ∧
        (why = NotMounted → served s ∉ mg_mounts (wo_m w0)).

Lemma evidence_step o m p m' p' r id why : tstep o m p m' p' → evidence p' = Some (r, id, why) →
  evidence p = Some (r, id, why) ∨ (p = Ask r (Some id) ∧ (why = NotMounted → ∃ l, mg_lives m !! id = Some l ∧ mountedAt (lv_spec l) m = false)).
Proof. intros Hst He. destruct Hst; cbn in He; simplify_eq; auto; right; split; try done; eauto. Qed.

Lemma foundOut_later w w' i o r id s why : step w w' → foundOut w i o r id s why → foundOut w' i o r id s why.
Proof. intros Hs (w0 & H1 & H2 & H3). exists w0. split; [done|]. split; [by eapply rtc_r|done]. Qed.

(** No step changes what a union is. *)
Lemma step_spec w w' id l : winv w → step w w' → mg_lives (wo_m w) !! id = Some l → ∃ l', mg_lives (wo_m w') !! id = Some l' ∧ lv_spec l' = lv_spec l.
Proof.
  intros Hw Hs Hl. assert (∃ mine, evolves mine (wo_m w) (wo_m w')) as [mine [Hev _ _]].
  { destruct Hs as [w i o Ho Hi|w i o p m' p' Hi Hst|w id' l' Hl' Hns|w f]; [exists None; by apply evolves_same| |exists None; by apply ends_ok, wi_m|exists None; by apply evolves_same].
    destruct (wi_pc _ Hw i _ Hi) as [_ Hpc]. destruct (tstep_manager _ _ _ _ _ Hst (wi_m _ Hw) Hpc) as (_ & ? & _). by eexists. }
  destruct (Hev id l Hl) as (l' & ? & ? & _). eauto.
Qed.

Lemma reachable_evidence w : rtc step startWorld w →
  ∀ i o p r id why, wo_threads w !! i = Some {| th_owner := o; th_pc := p |} → evidence p = Some (r, id, why) →
    why = NotMounted → ∃ l, mg_lives (wo_m w) !! id = Some l ∧ foundOut w i o r id (lv_spec l) why.
Proof.
  intros Hr. eapply (rtc_ind_r (λ w, ∀ i o p r id why, wo_threads w !! i = Some {| th_owner := o; th_pc := p |} → evidence p = Some (r, id, why) →
    why = NotMounted → ∃ l, mg_lives (wo_m w) !! id = Some l ∧ foundOut w i o r id (lv_spec l) why)); [| |exact Hr]; [by intros i o p r id why H|].
  clear Hr w. intros w w' Hr Hs IH i o p r id why Hi He Hwhy. pose proof (reachable_winv _ Hr) as Hw.
  assert (∀ p0, wo_threads w !! i = Some {| th_owner := o; th_pc := p0 |} → evidence p0 = Some (r, id, why) →
    ∃ l, mg_lives (wo_m w') !! id = Some l ∧ foundOut w' i o r id (lv_spec l) why) as Hkeep.
  { intros p0 Hi0 He0. destruct (IH i o p0 r id why Hi0 He0 Hwhy) as (l & Hl & Hf). destruct (step_spec w w' id l Hw Hs Hl) as (l' & Hl' & Hsp). exists l'. split; [done|]. rewrite Hsp.
    by eapply foundOut_later. }
  destruct Hs as [w j o' Ho Hj|w j o' q m' q' Hj Hst|w id' l' Hl' Hns|w f]; cbn [wo_threads] in Hi; [| |by apply (Hkeep p)|by apply (Hkeep p)].
  - apply lookup_insert_Some in Hi as [[_ [= _ <-]]|[_ Hi]]; [done|by apply (Hkeep p)].
  - apply lookup_insert_Some in Hi as [[<- [= <- <-]]|[_ Hi]]; [|by apply (Hkeep p)].
    destruct (evidence_step _ _ _ _ _ _ _ _ Hst He) as [Hq|[-> Hm]]; [by apply (Hkeep q)|]. destruct (Hm Hwhy) as (l & Hl & Hno).
    assert (step w {| wo_m := m'; wo_threads := <[j := {| th_owner := o'; th_pc := q' |}]> (wo_threads w) |}) as Hs by (by eapply step_run).
    destruct (step_spec w _ id l Hw Hs Hl) as (l' & Hl' & Hsp). exists l'. split; [done|]. rewrite Hsp. exists w. split_and!; [done|by apply rtc_once|done|].
    intros _. by apply bool_decide_eq_false in Hno.
Qed.

Lemma take_mounts late gone m : mg_mounts (foldl (takeOne late) m gone) = mg_mounts m.
Proof.
  revert m. induction gone as [|[[k id] l] gone IH]; intros m; [done|]. cbn [foldl]. rewrite IH. unfold takeOne. cbn [fst snd]. by case_bool_decide.
Qed.

Lemma unmounted_by_release o m p m' p' x : tstep o m p m' p' → consistent m → x ∈ mg_mounts m → x ∉ mg_mounts m' →
  ∃ s specs, p = RelUnmount (s :: specs) ∧ served s = x.
Proof.
  intros Hst Hc Hin Hout. destruct Hst; try done.
  - match goal with H : claim _ _ _ = _ |- _ => apply claim_cases in H as (_ & _ & ->) end. done.
  - unfold discard in Hout. by destruct (ours _ _ _).
  - unfold discard in Hout. by destruct (ours _ _ _).
  - match goal with H : startUnion _ _ = _ |- _ => injection H as _ <- end. done.
  - unfold discard in Hout. by destruct (ours _ _ _).
  - unfold discard in Hout. by destruct (ours _ _ _).
  - match goal with H : releaseTake _ _ _ _ _ = _ |- _ => injection H as <- _ end. by rewrite take_mounts in Hout.
  - exists s, specs. split; [done|]. destruct (decide (served s = x)) as [|Hne]; [done|]. destruct Hout. apply elem_of_difference. split; [done|]. by intros ->%elem_of_singleton.
Qed.

Lemma given_up w i o p m' p' k id l : rtc step startWorld w → wo_threads w !! i = Some {| th_owner := o; th_pc := p |} → tstep o (wo_m w) p m' p' →
  mg_shares (wo_m w) !! k = Some id → mg_shares m' !! k ≠ Some id → mg_lives (wo_m w) !! id = Some l →
  (∃ i o r why, pp_key r = k ∧ wo_threads w !! i = Some {| th_owner := o; th_pc := Dead r (Some id) why (Some id) |} ∧
     (why = NoAnswer ∨ foundOut w i o r id (lv_spec l) NotMounted)) ∨
  (∃ i o r, pp_key r = k ∧ wo_threads w !! i = Some {| th_owner := o; th_pc := Failed r id |}) ∨
  (∃ i o asked hosts mounts sources answer,
     wo_threads w !! i = Some {| th_owner := o; th_pc := RelHeld asked hosts mounts sources |} ∧ ownedBy k o = true ∧
     (∀ j t, wo_threads w !! j = Some t → th_owner t = o → isOpen (th_pc t) = false) ∧
     lv_prepared l ≤ asked ∧ sources (lv_host l) = Some answer ∧ Merged (lv_spec l) ∉ answer).
Proof.
  intros Hr Hi Hst Hs Hgone Hl. pose proof (reachable_winv _ Hr) as Hw. destruct (wi_pc _ Hw i _ Hi) as [_ Hpc]. destruct Hst; try (by destruct Hgone).
  - destruct Hgone. match goal with H : claim _ _ _ = _ |- _ => apply claim_cases in H as (_ & _ & ->) end. done.
  - left. destruct (discard_other _ _ _ _ _ Hs Hgone) as [<- <-]. destruct (po_dead _ _ _ Hpc _ _ _ _ eq_refl) as [_ [?|<-]]; [done|].
    exists i, o, r, why. split_and!; [done|done|]. destruct why; [right|by left]. destruct (reachable_evidence w Hr i o _ r _ NotMounted Hi eq_refl eq_refl) as (l' & Hl' & ?).
    rewrite Hl in Hl'. by injection Hl' as <-.
  - destruct Hgone. by rewrite discard_notOurs.
  - destruct Hgone. pose proof (po_start _ _ _ Hpc _ eq_refl) as Hno. match goal with H : startUnion _ _ = _ |- _ => injection H as _ <- end. cbn. rewrite lookup_insert_ne; [done|congruence].
  - right; left. destruct (discard_other _ _ _ _ _ Hs Hgone) as [<- <-]. by exists i, o, r.
  - destruct Hgone. by rewrite discard_notOurs.
  - right; right. destruct (releaseTake_ok o asked (heldFrom sources hosts mounts) late (wo_m w) (wi_m _ Hw)) as (_ & _ & _ & _ & Ht).
    match goal with H : releaseTake _ _ _ _ _ = _ |- _ => rewrite H in Ht end. destruct (Ht k id Hs Hgone) as (Ho & l0 & Hl0 & Hle & Hno). rewrite Hl in Hl0. injection Hl0 as <-.
    assert (openCount o (wo_threads w) = 0%nat) as H00 by (pose proof (wi_count _ Hw o); lia).
    destruct (wi_listed _ Hw i _ asked hosts mounts Hi eq_refl k id l Hs Ho Hl Hle) as [[Hh Hm]|(j & t & Hj & Hk & Hb)].
    + destruct (heldFrom_answers sources hosts mounts _ _ Hh Hm Hno) as (answer & Ha & Hna). exists i, o, asked, hosts, mounts, sources, answer.
      split_and!; try done. intros j t Hj Ho'. by eapply openCount_zero.
    + exfalso. destruct (wi_pc _ Hw j t Hj) as [Hmt Hpj]. destruct (wi_pc _ Hw i _ Hi) as [Hmi _]. cbn in Hmi.
      assert (∃ r, prepOf (th_pc t) = Some r ∧ pp_key r = k) as (r & Hr0 & Hkr) by (destruct (th_pc t); cbn in *; naive_solver).
      destruct (po_key _ _ _ Hpj r Hr0) as [e He]. rewrite Hkr in He. rewrite He in Ho. apply owner_app in Ho; [|done|done].
      assert (isOpen (th_pc t) = false) as Hcl by (by eapply openCount_zero). destruct (th_pc t); done.
Qed.

(** C20 (safety). A union that is registered for a share is given up in three ways only.
    A prepare of that very share replaces it, having asked after this very union
    before: nothing was mounted at its path at that moment, or the question was not
    answered in time.  The prepare that started it gives it back, because it could
    not be brought up.  Or the release of a machine takes it, and then no session of
    the machine is open, no prepare has handed the union out since that release asked
    the daemon, and the daemon answered that no container binds it.
    As for the mount itself, the manager unmounts a path only in a release, for a
    union of that release's machine that was given up before.  That is done by the
    path and after the mutex is free, so a union that was registered for the path in
    between loses its mount: [late_unmount_takes_a_new_union] is such a run. *)
Theorem unions_outlive_their_use w w' k id l : rtc step startWorld w → step w w' → mg_shares (wo_m w) !! k = Some id → mg_lives (wo_m w) !! id = Some l →
  (mg_shares (wo_m w') !! k ≠ Some id →
   (∃ i o r why, pp_key r = k ∧ wo_threads w !! i = Some {| th_owner := o; th_pc := Dead r (Some id) why (Some id) |} ∧
      (why = NoAnswer ∨ foundOut w i o r id (lv_spec l) NotMounted)) ∨
   (∃ i o r, pp_key r = k ∧ wo_threads w !! i = Some {| th_owner := o; th_pc := Failed r id |}) ∨
   (∃ i o asked hosts mounts sources answer,
      wo_threads w !! i = Some {| th_owner := o; th_pc := RelHeld asked hosts mounts sources |} ∧ ownedBy k o = true ∧
      (∀ j t, wo_threads w !! j = Some t → th_owner t = o → isOpen (th_pc t) = false) ∧
      lv_prepared l ≤ asked ∧ sources (lv_host l) = Some answer ∧ Merged (lv_spec l) ∉ answer)) ∧
  (∀ i o p m' p', wo_threads w !! i = Some {| th_owner := o; th_pc := p |} → tstep o (wo_m w) p m' p' →
   served (lv_spec l) ∈ mg_mounts (wo_m w) → served (lv_spec l) ∉ mg_mounts m' →
   ∃ s specs id0 l0, p = RelUnmount (s :: specs) ∧ served s = served (lv_spec l) ∧ mg_lives (wo_m w) !! id0 = Some l0 ∧ lv_spec l0 = s ∧
     lv_supervised l0 = false ∧ ownedBy (lv_key l0) o = true ∧ id0 ≠ id).
Proof.
  intros Hr Hstep Hs Hl. pose proof (reachable_winv _ Hr) as Hw. split.
  - intros Hgone. destruct Hstep as [w i o Ho Hi|w i o p m' p' Hi Hst|w id' l' Hl' Hns|w f]; [by destruct Hgone| |by destruct Hgone|by destruct Hgone].
    cbn [wo_m] in Hgone. exact (given_up w i o p m' p' k id l Hr Hi Hst Hs Hgone Hl).
  - intros i o p m' p' Hi Hst Hin Hout. destruct (unmounted_by_release _ _ _ _ _ _ Hst (wi_m _ Hw) Hin Hout) as (s & specs & -> & Hsv).
    destruct (wi_pc _ Hw i _ Hi) as [_ Hpc]. pose proof (po_unmounts _ _ _ Hpc) as Hf. cbn in Hf. apply Forall_cons in Hf as [(id0 & l0 & Hl0 & Hsp & Hns & Ho) _].
    exists s, specs, id0, l0. split_and!; try done. intros ->. destruct (cs_share _ (wi_m _ Hw) k id Hs) as (l1 & Hl1 & Hsup & _). congruence.
Qed.

(** A union that is handed out while a release waits for the daemon is newer than
    the question, so that release leaves it. *)
Lemma handed_out_is_newer w i j t a o r id w' l : rtc step startWorld w → wo_threads w !! i = Some t → asks (th_pc t) = Some a →
  wo_threads w !! j = Some {| th_owner := o; th_pc := Stamp r id |} ∨ wo_threads w !! j = Some {| th_owner := o; th_pc := Handing r id |} →
  wo_m w' = stamp id (wo_m w) → mg_lives (wo_m w') !! id = Some l → a < lv_prepared l.
Proof.
  intros Hw%reachable_winv Hi Ha _ Hm Hl. destruct (wi_pc _ Hw i t Hi) as [_ Hpc]. pose proof (po_asked _ _ _ Hpc a Ha) as Hle. rewrite Hm in Hl.
  apply stamp_lookup in Hl as (l0 & _ & ->). rewrite decide_True by done. cbn. lia.
Qed.
