(* ===== verification/Cleanup.v ===== *)
(** * Removing what an expired run left (agent/internal/ephemeral/cleanup.go,
    agent/internal/dockercli/runs.go)

    What docker prints for a command line, whether it removes something, what a
    volume's JSON holds and what happens to the unions meanwhile are answers; the
    removals that were run are the trace.  The unions are the manager of [Unions]. *)
From Stdlib Require Import Ascii.
From S2P Require Import Prelude GoStrings GoTime Records Names Mounts Forwards Rewrite Collect KeyFiles Ephemeral CacheProto Unions.

Open Scope Z_scope.

(** ** runs.go *)

Record Container := {
  co_ID : string;
  co_Project : string
}.

Definition newline : ascii := ascii_of_nat 10.
Definition bar : ascii := "|".

(** One line of "id|project". *)
Definition containerLine (line : string) : option Container :=
  let line := strings.TrimSpace line in
  let '(id, project) := match strings.Cut line bar with Some (id, project) => (id, project) | None => (line, ""%string) end in
  if bool_decide (id = "") then None else Some {| co_ID := id; co_Project := project |}.

Definition parseContainers (out : string) : list Container := omap containerLine (strings.Split out newline).

Definition networkLine (client : string) (projects : gset string) (line : string) : option string :=
  match strings.Cut (strings.TrimSpace line) bar with
  | Some (name, project) => if bool_decide (project ∈ projects) && strings.HasSuffix project ("-" +:+ client) then Some name else None
  | None => None
  end.

Definition projectNetworks (out client : string) (projects : gset string) : list string := omap (networkLine client projects) (strings.Split out newline).

Definition parseVolumes (decode : string → option Volume) (out : string) : option (list Volume) := mapM decode (strings.Split out newline).

Definition parseInUse (out : string) : gset string :=
  list_to_set (filter (λ n, n ≠ ""%string) (strings.TrimSpace <$> FieldsFunc (λ a, Ascii.eqb a bar || Ascii.eqb a newline) out)).

(** The command lines. *)
Inductive command := RmContainers (ids : list string) | RmNetwork (name : string) | RmVolume (name : string).

Definition quoted (s : string) : string := String (ascii_of_nat 34) (s +:+ String (ascii_of_nat 34) "").
Definition composeProject : string := "com.docker.compose.project".
Definition labelFilter (kv : string * string) : list string := ["--filter"; "label=" +:+ kv.1 +:+ "=" +:+ kv.2]%string.
Definition psArgs (labels : list (string * string)) : list string :=
  ["ps"; "--all"; "--no-trunc"]%string ++ mjoin (labelFilter <$> labels) ++ ["--format"; "{{.ID}}|{{.Label " +:+ quoted composeProject +:+ "}}"]%string.
Definition containersArgs (account client : string) : list string := psArgs [(OwnerLabel, account); (ClientLabel, client)].
Definition networksArgs : list string :=
  ["network"; "ls"; "--filter"; "label=" +:+ composeProject; "--format"; "{{.Name}}|{{.Label " +:+ quoted composeProject +:+ "}}"]%string.
Definition volumesArgs (client : string) : list string := ["volume"; "ls"; "--quiet"]%string ++ labelFilter (ClientLabel, client).
Definition inspectArgs (names : list string) : list string := ["volume"; "inspect"; "--format"; "{{json .}}"]%string ++ names.
Definition psAllArgs : list string := ["ps"; "--all"; "--quiet"]%string.
Definition mountsArgs (ids : list string) : list string :=
  ["inspect"; "--format"; "{{range .Mounts}}{{if eq .Type " +:+ quoted "volume" +:+ "}}{{.Name}}|{{end}}{{end}}"]%string ++ ids.
Definition removeArgs (c : command) : list string :=
  match c with
  | RmContainers ids => ["rm"; "--force"; "--volumes"]%string ++ ids
  | RmNetwork n => ["network"; "rm"; n]%string
  | RmVolume n => ["volume"; "rm"; n]%string
  end.

(** ** cleanup.go *)

(** The answers.  [cn_docker] is what docker prints on a host for the arguments of a
    command that only looks, each of which is run once at most; [cn_remove] whether it
    did what the arguments of a removal say, from what was removed so far, latest
    first.  [cn_anonymous] are the anonymous volumes docker made for a container. *)
Record cleanEnv := {
  cn_ensure : option string;
  cn_docker : string → list string → option string;
  cn_decode : string → option Volume;
  cn_remove : list (command * bool) → string → list string → bool;
  cn_anonymous : string → gset string;
  cn_late : gset nat;
  cn_unmounts : Spec → bool;
  cn_sources : string → option (gset string);
  cn_asking : Manager → Manager;
  cn_meanwhile : Manager → Manager;
  cn_mounted : option (list string)
}.

Inductive cleanError := NamesNoClient | CannotReach | CannotList | CannotRemove | Kept (n : Z).

(** What has been done: the trace, latest first, and the objects kept. *)
Record progress := {
  pr_trace : list (command * bool);
  pr_kept : Z
}.

(** [CLI.Line] and [CLI.Run], on the daemon the account has. *)
Definition hostOf (env : cleanEnv) : string := default ""%string (cn_ensure env).
Definition line (env : cleanEnv) (args : list string) : option string := strings.TrimSpace <$> cn_docker env (hostOf env) args.

Definition attempt (env : cleanEnv) (c : command) (p : progress) : bool * progress :=
  let ok := cn_remove env (pr_trace p) (hostOf env) (removeArgs c) in (ok, {| pr_trace := (c, ok) :: pr_trace p; pr_kept := pr_kept p |}).
Definition keep (p : progress) : progress := {| pr_trace := pr_trace p; pr_kept := pr_kept p + 1 |}.

(** [Unions.Release]; [cn_asking] is what other sessions do while docker is asked,
    [cn_late] the unions that do not stop in time, [cn_unmounts] whether an unmount
    succeeds. *)
Definition Release (env : cleanEnv) (account client : string) (m : Manager) : Manager :=
  let o := owner account client in
  if 0 <? sessionsOf o m then m
  else let asked := mg_prepares m in
       let held := heldFrom (cn_sources env) (hostsOf o m) (mountsOf o m) in
       let m := cn_asking env m in
       if 0 <? sessionsOf o m then m
       else let '(m, specs) := releaseTake o asked held (cn_late env) m in
            foldl (λ m s, if cn_unmounts env s then unmount s m else m) m specs.

(** The containers and the networks of the run. *)
Definition projectsOf (cs : list Container) : gset string := list_to_set (filter (λ p, p ≠ ""%string) (co_Project <$> cs)).

Definition removeNetwork (env : cleanEnv) (p : progress) (n : string) : progress :=
  let '(ok, p) := attempt env (RmNetwork n) p in if ok then p else keep p.

Definition removeContainers (env : cleanEnv) (account client : string) (p : progress) : res cleanError unit * progress :=
  match line env (containersArgs account client) with
  | None => (Err CannotList, p)
  | Some out =>
      let cs := parseContainers out in
      let '(ok, p) := match cs with [] => (true, p) | _ => attempt env (RmContainers (co_ID <$> cs)) p end in
      if negb ok then (Err CannotRemove, p)
      else if bool_decide (projectsOf cs = ∅) then (Ok tt, p)
      else match line env networksArgs with
           | None => (Err CannotList, p)
           | Some out => (Ok tt, foldl (removeNetwork env) p (projectNetworks out client (projectsOf cs)))
           end
  end.

(** [runOwns]. *)
Definition runOwns (v : Volume) (account client : string) : bool :=
  IsManagedVolume (vl_Name v) && bool_decide (labelOf v ManagedLabel = ManagedShare) &&
  bool_decide (labelOf v OwnerLabel = account) && bool_decide (labelOf v ClientLabel = client).

(** [Docker.Volumes] and [Docker.VolumesInUse]. *)
Definition listVolumes (env : cleanEnv) (client : string) : option (list Volume) :=
  match line env (volumesArgs client) with
  | None => None
  | Some names => if bool_decide (names = "") then Some []
                  else match line env (inspectArgs (Fields names)) with None => None | Some out => parseVolumes (cn_decode env) out end
  end.

Definition volumesInUse (env : cleanEnv) : option (gset string) :=
  match line env psAllArgs with
  | None => None
  | Some ids => if bool_decide (ids = "") then Some ∅
                else match line env (mountsArgs (Fields ids)) with None => None | Some out => Some (parseInUse out) end
  end.

Definition removeVolume (env : cleanEnv) (account client : string) (inUse mounted : gset string) (p : progress) (v : Volume) : progress :=
  if negb (runOwns v account client) then p
  else if bool_decide (vl_Name v ∈ inUse) || bool_decide (vl_Name v ∈ mounted) then keep p
  else let '(ok, p) := attempt env (RmVolume (vl_Name v)) p in if ok then p else keep p.

Definition finishClean (p : progress) : res cleanError unit := if 0 <? pr_kept p then Err (Kept (pr_kept p)) else Ok tt.

(** [Clean]: its error, the commands run, latest first, and the unions. *)
Definition Clean (env : cleanEnv) (containers : bool) (account client : string) (m : Manager) : res cleanError unit * list (command * bool) * Manager :=
  if bool_decide (client = "") then (Err NamesNoClient, [], m)
  else match cn_ensure env with
       | None => (Err CannotReach, [], m)
       | Some _ =>
           let p0 := {| pr_trace := []; pr_kept := 0 |} in
           let '(r, p) := if containers then removeContainers env account client p0 else (Ok tt, p0) in
           match r with
           | Err e => (Err e, pr_trace p, m)
           | Ok _ =>
               let m := cn_meanwhile env (Release env account client m) in
               match listVolumes env client, volumesInUse env, MountedCaches account client (cn_mounted env) m with
               | Some vols, Some inUse, Some caches =>
                   let p := foldl (removeVolume env account client inUse (list_to_set caches)) p vols in (finishClean p, pr_trace p, m)
               | _, _, _ => (Err CannotList, pr_trace p, m)
               end
           end
       end.

(** * Cleaning removes the run's own, and what it says is gone is gone *)

(** ** What may be removed *)

(** A volume of the run that nothing uses, as docker and the unions were asked. *)
Definition freeVolume (env : cleanEnv) (account client : string) (m : Manager) (n : string) : Prop :=
  ∃ vols inUse caches v, listVolumes env client = Some vols ∧ volumesInUse env = Some inUse ∧ MountedCaches account client (cn_mounted env) m = Some caches ∧
    v ∈ vols ∧ vl_Name v = n ∧ runOwns v account client = true ∧ n ∉ inUse ∧ n ∉ caches.

Definition runContainers (env : cleanEnv) (account client : string) : list Container := default [] (parseContainers <$> line env (containersArgs account client)).

(** What docker documents of [ps --filter label=K=V], the key ending at the first
    ["="]: it lists the containers that carry the label, a line each; [labels] is what
    a container carries. *)
Definition filtersHonoured (labels : string → gmap string string) (env : cleanEnv) : Prop :=
  ∀ filters out c, Forall (λ kv, strings.Contains kv.1 "="%char = false) filters → line env (psArgs filters) = Some out → c ∈ parseContainers out →
    Forall (λ kv, labels (co_ID c) !! kv.1 = Some kv.2) filters.

(** The volumes a command takes with it. *)
Definition volumesOf (env : cleanEnv) (c : command) : gset string :=
  match c with RmContainers ids => ⋃ (cn_anonymous env <$> ids) | RmNetwork _ => ∅ | RmVolume n => {[ n ]} end.

(** A network of a project of the run's containers that is named for the client. *)
Definition runNetwork (env : cleanEnv) (account client n : string) : Prop :=
  ∃ out project c, line env networksArgs = Some out ∧ n ∈ projectNetworks out client (projectsOf (runContainers env account client)) ∧
    c ∈ runContainers env account client ∧ co_Project c = project ∧ project ≠ ""%string ∧ strings.HasSuffix project ("-" +:+ client) = true.

Definition permitted (env : cleanEnv) (containers : bool) (account client : string) (m : Manager) (c : command) : Prop :=
  match c with
  | RmContainers ids => containers = true ∧ ids = co_ID <$> runContainers env account client ∧ ids ≠ []
  | RmNetwork n => containers = true ∧ runNetwork env account client n
  | RmVolume n => freeVolume env account client m n
  end.

Lemma projectNetworks_spec env out account client n : line env networksArgs = Some out →
  n ∈ projectNetworks out client (projectsOf (runContainers env account client)) → runNetwork env account client n.
Proof.
  intros Ho Hn. pose proof Hn as (ln & _ & Hl)%list_elem_of_omap. unfold networkLine in Hl. destruct (strings.Cut _ _) as [[name project]|]; [|done].
  destruct (bool_decide (project ∈ _) && _) eqn:E; [|done]. injection Hl as ->. apply andb_true_iff in E as [Hp%bool_decide_eq_true Hs].
  unfold projectsOf in Hp. rewrite elem_of_list_to_set, list_elem_of_filter, list_elem_of_fmap in Hp. destruct Hp as [Hne (c & Ec & Hc)]. exists out, project, c. by split_and!.
Qed.

Section cleaning.
Context (env : cleanEnv) (containers : bool) (account client : string).

Abbreviation attempted Q := (Forall (λ e : command * bool, Q e.1)).

Lemma networks_trace (Q : command → Prop) ns p : attempted Q (pr_trace p) → (∀ n, n ∈ ns → Q (RmNetwork n)) → attempted Q (pr_trace (foldl (removeNetwork env) p ns)).
Proof.
  clear. revert p. induction ns as [|n ns IH]; intros p Hp Hq; [done|]. cbn. apply IH; [|set_solver]. unfold removeNetwork, attempt. destruct (cn_remove _ _ _ _); cbn; (constructor; [cbn; apply Hq; set_solver|done]).
Qed.

Lemma volumes_trace (Q : command → Prop) inUse mounted vols p :
  attempted Q (pr_trace p) → (∀ v, v ∈ vols → runOwns v account client = true → vl_Name v ∉ inUse → vl_Name v ∉ mounted → Q (RmVolume (vl_Name v))) →
  attempted Q (pr_trace (foldl (removeVolume env account client inUse mounted) p vols)).
Proof.
  clear containers. revert p. induction vols as [|v vols IH]; intros p Hp Hq; [done|]. cbn. apply IH; [|set_solver]. unfold removeVolume. destruct (runOwns v account client) eqn:Eo; [|done]. cbn [negb].
  destruct (bool_decide (vl_Name v ∈ inUse) || bool_decide (vl_Name v ∈ mounted)) eqn:Eu; [done|]. apply orb_false_iff in Eu as [E1%bool_decide_eq_false E2%bool_decide_eq_false].
  unfold attempt. destruct (cn_remove _ _ _ _); cbn; (constructor; [cbn; apply Hq; [set_solver|done..]|done]).
Qed.

Lemma removeContainers_trace (Q : command → Prop) p r p' : removeContainers env account client p = (r, p') → attempted Q (pr_trace p) →
  (co_ID <$> runContainers env account client ≠ [] → Q (RmContainers (co_ID <$> runContainers env account client))) → (∀ n, runNetwork env account client n → Q (RmNetwork n)) → attempted Q (pr_trace p').
Proof.
  unfold removeContainers. intros H Hp Hc Hn. assert (∀ out, line env (containersArgs account client) = Some out → runContainers env account client = parseContainers out) as Hps by (intros out E; unfold runContainers; by rewrite E).
  destruct (line env (containersArgs account client)) as [out|] eqn:Eps; cbn in H; [|by injection H as <- <-]. specialize (Hps out eq_refl). rewrite <- Hps in H.
  set (p1 := match runContainers env account client with [] => (true, p) | _ => attempt env (RmContainers (co_ID <$> runContainers env account client)) p end) in H.
  assert (attempted Q (pr_trace p1.2)) as Hp1. { unfold p1. destruct (runContainers env account client); [done|]. cbn. constructor; [by apply Hc|done]. }
  destruct p1 as [ok p2]. cbn in Hp1. destruct ok; cbn in H; [|by injection H as <- <-]. case_bool_decide; [by injection H as <- <-|].
  destruct (line env networksArgs) as [nets|] eqn:En; cbn in H; [|by injection H as <- <-]. injection H as <- <-. apply networks_trace; [done|]. intros n Hin. apply Hn. by eapply projectNetworks_spec.
Qed.

Lemma clean_permitted m r tr m' : Clean env containers account client m = (r, tr, m') → Forall (λ e, permitted env containers account client m' e.1) tr.
Proof.
  unfold Clean. case_bool_decide as Ec; [intros [= <- <- <-]; constructor|]. destruct (cn_ensure env) as [host|]; [|intros [= <- <- <-]; constructor].
  set (p0 := {| pr_trace := []; pr_kept := 0 |}). destruct (if containers then removeContainers env account client p0 else (Ok tt, p0)) as [r1 p] eqn:E1. set (m1 := cn_meanwhile env _).
  assert (∀ m0, attempted (permitted env containers account client m0) (pr_trace p)) as Hp.
  { intros m0. destruct containers; [|injection E1 as <- <-; constructor]. apply (removeContainers_trace _ p0 r1); [done|constructor|intros ?; by split_and!|intros n Hn; by split]. }
  destruct r1 as [[]|e]; [|intros [= <- <- <-]; apply Hp]. destruct (listVolumes env client) as [vols|] eqn:Ev; [|intros [= <- <- <-]; apply Hp]. destruct (volumesInUse env) as [inUse|] eqn:Eu; [|intros [= <- <- <-]; apply Hp].
  destruct (MountedCaches account client (cn_mounted env) m1) as [caches|] eqn:Em; [|intros [= <- <- <-]; apply Hp]. intros [= <- <- <-].
  apply volumes_trace; [apply Hp|]. intros v Hv Ho Hu Hc. cbn. exists vols, inUse, caches, v. split_and!; try done. by rewrite elem_of_list_to_set in Hc.
Qed.

(** C25 (safety). Cleaning an expired run removes nothing but the run's own.  A volume that
    it removes by name carries this program's prefix and label, this account and this
    client; no container named it and no union of the machine was mounted on it when
    asked.  A network belongs to a compose project of one of the run's containers and
    is named for the client.  Containers go only where that is switched on, and each
    of them carries the account's and the client's label.  With the containers go the
    anonymous volumes docker made for them, which carry neither prefix nor label, and
    no other volume.  It relies on docker's documented filter: what [ps] prints for
    some labels are containers that carry them, a line each. *)
Theorem cleaning_removes_only_the_runs labels m r tr m' : filtersHonoured labels env → Clean env containers account client m = (r, tr, m') →
  Forall (λ e, permitted env containers account client m' e.1) tr ∧
  (∀ ids ok id, (RmContainers ids, ok) ∈ tr → id ∈ ids → labels id !! OwnerLabel = Some account ∧ labels id !! ClientLabel = Some client) ∧
  (∀ e n, e ∈ tr → n ∈ volumesOf env e.1 →
     freeVolume env account client m' n ∨ containers = true ∧ ∃ c, c ∈ runContainers env account client ∧ n ∈ cn_anonymous env (co_ID c)).
Proof.
  intros Hf Hc%clean_permitted. split; [done|]. rewrite Forall_forall in Hc. split.
  - intros ids ok id Hin Hid. destruct (Hc _ Hin) as (_ & -> & _). apply list_elem_of_fmap in Hid as (c & -> & Hc0). unfold runContainers in Hc0.
    destruct (line env (containersArgs account client)) as [out|] eqn:E; [|by apply elem_of_nil in Hc0]. assert (Forall (λ kv : string * string, strings.Contains kv.1 "="%char = false) [(OwnerLabel, account); (ClientLabel, client)]) as Hk by (by repeat constructor).
    pose proof (Hf _ _ c Hk E Hc0) as [H1 [H2 _]%Forall_cons]%Forall_cons. done.
  - intros [c ok] n Hin Hn. specialize (Hc _ Hin). cbn [fst] in *. destruct c as [ids|nw|v]; cbn [permitted volumesOf] in *.
    + right. destruct Hc as (? & -> & _). split; [done|]. apply elem_of_union_list in Hn as (X & (id & -> & (c & -> & Hc)%list_elem_of_fmap)%list_elem_of_fmap & Hx). by exists c.
    + by apply elem_of_empty in Hn.
    + left. by apply elem_of_singleton in Hn as ->.
Qed.

(** ** What a run that was cleaned has left *)

Lemma kept_mono inUse mounted vols p : pr_kept p ≤ pr_kept (foldl (removeVolume env account client inUse mounted) p vols) ∧
  ∀ e, e ∈ pr_trace p → e ∈ pr_trace (foldl (removeVolume env account client inUse mounted) p vols).
Proof.
  clear containers. revert p. induction vols as [|v vols IH]; intros p; [done|]. cbn. destruct (IH (removeVolume env account client inUse mounted p v)) as [I1 I2].
  assert (pr_kept p ≤ pr_kept (removeVolume env account client inUse mounted p v) ∧ ∀ e, e ∈ pr_trace p → e ∈ pr_trace (removeVolume env account client inUse mounted p v)) as [H1 H2].
  { unfold removeVolume, attempt. destruct (negb _); [done|]. destruct (_ || _); [cbn; split; [lia|done]|]. destruct (cn_remove _ _ _ _); cbn; (split; [lia|set_solver]). }
  split; [lia|]. intros e He. by apply I2, H2.
Qed.

Lemma volumes_gone inUse mounted vols p : pr_kept (foldl (removeVolume env account client inUse mounted) p vols) ≤ 0 → 0 ≤ pr_kept p →
  ∀ v, v ∈ vols → runOwns v account client = true → (RmVolume (vl_Name v), true) ∈ pr_trace (foldl (removeVolume env account client inUse mounted) p vols).
Proof.
  clear containers. revert p. induction vols as [|v0 vols IH]; intros p Hk Hp v; [by intros ?%elem_of_nil|]. cbn in *. destruct (kept_mono inUse mounted [v0] p) as [Hm _]. cbn in Hm.
  intros [->|Hv]%elem_of_cons Ho; [|apply IH; [done|lia|done..]]. destruct (kept_mono inUse mounted vols (removeVolume env account client inUse mounted p v0)) as [H1 H2]. apply H2.
  assert (pr_kept p < pr_kept (removeVolume env account client inUse mounted p v0) ∨ (RmVolume (vl_Name v0), true) ∈ pr_trace (removeVolume env account client inUse mounted p v0)) as [?|?]; [|lia|done].
  unfold removeVolume. rewrite Ho. cbn [negb]. destruct (_ || _); [left; cbn; lia|]. unfold attempt. destruct (cn_remove _ _ _ _); cbn; [right; set_solver|left; lia].
Qed.

Lemma networks_gone ns p : pr_kept p ≤ pr_kept (foldl (removeNetwork env) p ns) ∧ (∀ e, e ∈ pr_trace p → e ∈ pr_trace (foldl (removeNetwork env) p ns)) ∧
  (pr_kept (foldl (removeNetwork env) p ns) ≤ pr_kept p → ∀ n, n ∈ ns → (RmNetwork n, true) ∈ pr_trace (foldl (removeNetwork env) p ns)).
Proof.
  clear. revert p. induction ns as [|n ns IH]; intros p; [cbn; split_and!; [done|done|intros _ ? ?%elem_of_nil; done]|]. cbn. destruct (IH (removeNetwork env p n)) as (I1 & I2 & I3).
  unfold removeNetwork, attempt in *. destruct (cn_remove _ _ _ _); cbn in *.
  - split_and!; [done|intros e He; apply I2; set_solver|]. intros Hk n' [->|Hn]%elem_of_cons; [apply I2; set_solver|by apply I3].
  - split_and!; [lia|intros e He; apply I2; set_solver|]. intros Hk. lia.
Qed.

Lemma containers_gone p p' : removeContainers env account client p = (Ok tt, p') → pr_kept p' ≤ pr_kept p →
  (runContainers env account client ≠ [] → (RmContainers (co_ID <$> runContainers env account client), true) ∈ pr_trace p') ∧ (∀ n, runNetwork env account client n → (RmNetwork n, true) ∈ pr_trace p').
Proof.
  unfold removeContainers. intros H Hk. assert (∀ out, line env (containersArgs account client) = Some out → runContainers env account client = parseContainers out) as Hps by (intros out E; unfold runContainers; by rewrite E).
  destruct (line env (containersArgs account client)) as [out|] eqn:Eps; cbn in H; [|done]. specialize (Hps out eq_refl). rewrite <- Hps in H.
  set (p1 := match runContainers env account client with [] => (true, p) | _ => attempt env (RmContainers (co_ID <$> runContainers env account client)) p end) in H.
  assert (pr_kept p1.2 = pr_kept p ∧ (p1.1 = true → runContainers env account client ≠ [] → (RmContainers (co_ID <$> runContainers env account client), true) ∈ pr_trace p1.2)) as [Hk1 Hp1].
  { unfold p1. destruct (runContainers env account client); [done|]. split; [done|]. unfold attempt. cbn [fst snd pr_trace]. intros -> _. set_solver. }
  destruct p1 as [ok p2]. cbn [fst snd] in *. destruct ok; cbn in H; [|done]. case_bool_decide as Epr.
  - injection H as <-. split; [by apply Hp1|]. intros n (o & pr & c & _ & _ & Hc & <- & Hne & _). exfalso. assert (co_Project c ∈ projectsOf (runContainers env account client)) as Hin; [|rewrite Epr in Hin; set_solver].
    unfold projectsOf. rewrite elem_of_list_to_set, list_elem_of_filter. split; [done|]. by apply list_elem_of_fmap_2.
  - destruct (line env networksArgs) as [nets|] eqn:En; cbn in H; [|done]. injection H as <-. destruct (networks_gone (projectNetworks nets client (projectsOf (runContainers env account client))) p2) as (N1 & N2 & N3).
    split; [intros Hne; apply N2; by apply Hp1|]. intros n (o & pr & c & Ho & Hin & _). apply N3; [lia|]. by simplify_eq.
Qed.

Lemma removeContainers_kept p r p' : removeContainers env account client p = (r, p') → pr_kept p ≤ pr_kept p'.
Proof.
  unfold removeContainers. destruct (line env (containersArgs account client)) as [out|]; [|by intros [= <- <-]]. destruct (match parseContainers out with [] => _ | _ => _ end) as [ok p1] eqn:E.
  assert (pr_kept p1 = pr_kept p) as Hk by (destruct (parseContainers out); by injection E as <- <-). rewrite <- Hk. destruct (negb ok); [by intros [= <- <-]|]. case_bool_decide; [by intros [= <- <-]|].
  destruct (line env networksArgs); [|by intros [= <- <-]]. intros [= <- <-]. apply networks_gone.
Qed.

Lemma cleaned_gone m r tr m' : Clean env containers account client m = (r, tr, m') → is_ok r = true →
  (∃ vols, listVolumes env client = Some vols ∧ ∀ v, v ∈ vols → runOwns v account client = true → (RmVolume (vl_Name v), true) ∈ tr) ∧
  (containers = true → (runContainers env account client ≠ [] → (RmContainers (co_ID <$> runContainers env account client), true) ∈ tr) ∧ ∀ n, runNetwork env account client n → (RmNetwork n, true) ∈ tr).
Proof.
  unfold Clean. case_bool_decide; [by intros [= <- <- <-]|]. destruct (cn_ensure env) as [host|]; [|by intros [= <- <- <-]].
  set (p0 := {| pr_trace := []; pr_kept := 0 |}). destruct (if containers then removeContainers env account client p0 else (Ok tt, p0)) as [r1 p] eqn:E1. set (m1 := cn_meanwhile env _).
  destruct r1 as [[]|e]; [|by intros [= <- <- <-]]. destruct (listVolumes env client) as [vols|]; [|by intros [= <- <- <-]]. destruct (volumesInUse env) as [inUse|]; [|by intros [= <- <- <-]].
  destruct (MountedCaches account client (cn_mounted env) m1) as [caches|]; [|by intros [= <- <- <-]]. intros [= <- <- <-]. unfold finishClean.
  destruct (kept_mono inUse (list_to_set caches) vols p) as [K1 K2]. set (q := foldl _ p vols) in *. destruct (Z.ltb_spec 0 (pr_kept q)) as [?|Hq]; [done|]. intros _.
  assert (0 ≤ pr_kept p) as Hp. { destruct containers; [|injection E1 as <-; done]. apply (removeContainers_kept p0 _ _ E1). }
  split.
  - exists vols. split; [done|]. intros v Hv Ho. by apply volumes_gone.
  - intros ->. destruct (containers_gone p0 p E1) as [C1 C2]; [cbn; lia|]. split; [intros Hne; apply K2; by apply C1|intros n Hn; apply K2; by apply C2].
Qed.

End cleaning.

(** C26 (functional). A run whose cleaning succeeded has left nothing.  Every volume docker listed as the
    run's was removed, and docker said so; where containers are cleaned, so were the
    run's containers and its networks.  A sweep gives the run's port away, or forgets
    the run, only then. *)
Theorem cleaned_runs_are_gone `{RunPorts P E} env containers m r tr m' d (reg : Registry P) :
  Clean env containers (du_key d).1 (du_key d).2 m = (r, tr, m') →
  sweepOne (is_ok r) d reg = (reg, None) ∨
  (∃ vols, listVolumes env (du_key d).2 = Some vols ∧ ∀ v, v ∈ vols → runOwns v (du_key d).1 (du_key d).2 = true → (RmVolume (vl_Name v), true) ∈ tr) ∧
  (containers = true → (runContainers env (du_key d).1 (du_key d).2 ≠ [] → (RmContainers (co_ID <$> runContainers env (du_key d).1 (du_key d).2), true) ∈ tr) ∧ ∀ n, runNetwork env (du_key d).1 (du_key d).2 n → (RmNetwork n, true) ∈ tr).
Proof. intros Hc. destruct (is_ok r) eqn:Er; [|by left]. right. by apply (cleaned_gone _ _ _ _ _ _ _ _ Hc). Qed.
