(* ===== verification/UnionLayer.v ===== *)
(** * What a container did to a share (agent/internal/unions/changes.go)

    The cache layer of a union is a tree of entries in the order
    [filepath.WalkDir] visits them: a directory before what it holds, names in
    order.  What a stat answers is an [info], with the change time and the device
    number the platform reads; times are Unix nanoseconds. *)
From S2P Require Import Prelude GoStrings DirTypes Names.

Open Scope Z_scope.

Definition whiteoutPrefix : string := ".wh.".
Definition opaqueMarker : string := ".wh..wh..opq".
Definition opaqueMarkerDev : string := ".wh..opq".

(** What an entry is.  A link's target is what [os.Readlink] answers. *)
Inductive kind := KDir | KFile | KLink (target : option string) | KChar (rdev : Z) | KOther.

Record info := {
  in_kind : kind;
  in_size : Z;
  in_mtime : Z;
  in_ctime : Z;
  in_perm : Z
}.

(** An entry: its name, what the listing says of it, what a stat says (none when it
    fails), whether it has an opaque attribute, whether it can be listed, and what
    it holds. *)
Inductive layer :=
  Layer (base : string) (isDir : bool) (i : option info) (opaqueAttr readable : bool) (kids : list layer).
Definition ly_base (e : layer) : string := let '(Layer b _ _ _ _ _) := e in b.
Definition ly_isDir (e : layer) : bool := let '(Layer _ d _ _ _ _) := e in d.
Definition ly_info (e : layer) : option info := let '(Layer _ _ i _ _ _) := e in i.
Definition ly_opaque (e : layer) : bool := let '(Layer _ _ _ o _ _) := e in o.
Definition ly_readable (e : layer) : bool := let '(Layer _ _ _ _ r _) := e in r.
Definition ly_kids (e : layer) : list layer := let '(Layer _ _ _ _ _ k) := e in k.

(** ** What the client's stream wrote (unions.go) *)

Record applied := {
  ap_size : Z;
  ap_modTime : Z;
  ap_ctime : Z
}.

Definition noteApplied (name : string) (a : applied) (m : gmap string applied) : gmap string applied := <[name := a]> m.
Definition forgetApplied (name : string) (m : gmap string applied) : gmap string applied := delete name m.
Definition isApplied (m : gmap string applied) (name : string) (size modTime ctime : Z) : bool :=
  match m !! name with
  | Some a => (ap_size a =? size) && (ap_modTime a =? modTime) && ((ap_ctime a =? 0) || (ctime =? 0) || (ap_ctime a =? ctime))
  | None => false
  end.

(** ** Marks *)

Definition isWhiteout (i : info) : bool := match in_kind i with KChar rdev => rdev =? 0 | _ => false end.

Definition deletedChange (p : string) (changed : Z) : Change :=
  {| ch_Path := p; ch_Size := 0; ch_ModTime := 0; ch_Deleted := true; ch_Opaque := false; ch_Link := ""; ch_Changed := changed; ch_Dir := false; ch_Mode := 0 |}.
Definition opaqueChange (p : string) (changed : Z) : Change :=
  {| ch_Path := p; ch_Size := 0; ch_ModTime := 0; ch_Deleted := false; ch_Opaque := true; ch_Link := ""; ch_Changed := changed; ch_Dir := false; ch_Mode := 0 |}.

(** [path.Split]. *)
Definition pathSplit (p : string) : string * string := (path.dir_part p, strings.TrimPrefix p (path.dir_part p)).

(** [markerChange]: the path, and whether the mark is a replaced directory's. *)
Definition markerChange (name : string) (i : info) : option (string * bool) :=
  let '(dir, base) := pathSplit name in
  if bool_decide (base = opaqueMarker ∨ base = opaqueMarkerDev) then
    let dir := strings.TrimSuffix dir "/" in
    if bool_decide (dir = ""%string) then None else Some (dir, true)
  else if strings.HasPrefix base (whiteoutPrefix +:+ ".wh.") then None
  else match in_kind i with
       | KFile | KChar _ => Some (dir +:+ strings.TrimPrefix base whiteoutPrefix, false)
       | _ => None
       end.

(** [markerCtime] and [emptyDir]. *)
Definition ctimeOfName (kids : list layer) (name : string) : option Z :=
  k ← List.find (λ k, bool_decide (ly_base k = name)) kids; in_ctime <$> ly_info k.
Definition earlier (earliest : Z) (c : option Z) : Z :=
  match c with
  | Some c => if negb (c =? 0) && ((earliest =? 0) || (c <? earliest)) then c else earliest
  | None => earliest
  end.
Definition markerCtime (kids : list layer) : Z := foldl earlier 0 (ctimeOfName kids <$> [opaqueMarker; opaqueMarkerDev]).
Definition emptyDir (e : layer) : bool := ly_readable e && bool_decide (length (ly_kids e) = 0%nat).

(** ** The walk *)

Section walk.
Context (ap : gmap string applied) (carry times : bool).

Definition when (t : Z) : Z := if times then t else 0.
Definition stamped (ch : Change) (i : info) : Change :=
  if times then
    {| ch_Path := ch_Path ch; ch_Size := ch_Size ch; ch_ModTime := ch_ModTime ch; ch_Deleted := ch_Deleted ch; ch_Opaque := ch_Opaque ch; ch_Link := ch_Link ch;
       ch_Changed := in_ctime i; ch_Dir := ch_Dir ch; ch_Mode := in_perm i |}
  else ch.
Definition dirChange (p : string) : Change :=
  {| ch_Path := p; ch_Size := 0; ch_ModTime := 0; ch_Deleted := false; ch_Opaque := false; ch_Link := ""; ch_Changed := 0; ch_Dir := true; ch_Mode := 0 |}.
Definition linkChange (p target : string) (mtime : Z) : Change :=
  {| ch_Path := p; ch_Size := 0; ch_ModTime := mtime; ch_Deleted := false; ch_Opaque := false; ch_Link := target; ch_Changed := 0; ch_Dir := false; ch_Mode := 0 |}.
Definition fileChange (p : string) (size mtime : Z) : Change :=
  {| ch_Path := p; ch_Size := size; ch_ModTime := mtime; ch_Deleted := false; ch_Opaque := false; ch_Link := ""; ch_Changed := 0; ch_Dir := false; ch_Mode := 0 |}.

(** The changes so far, and the directories reported as replaced. *)
Abbreviation found := (list Change * gset string)%type.

Definition report (ch : Change) (st : found) : found := ((st.1 ++ [ch])%list, st.2).
Definition reportOpaque (ch : Change) (st : found) : found := ((st.1 ++ [ch])%list, {[ ch_Path ch ]} ∪ st.2).

(** The callback, for an entry a stat answered for: what was found, and whether the
    directory is skipped. *)
Definition visitEntry (name : string) (e : layer) (i : info) (st : found) : found * bool :=
  if strings.HasPrefix (ly_base e) whiteoutPrefix then
    if ly_isDir e then (st, true)
    else match markerChange name i with
         | Some (p, true) =>
             if carry then
               if bool_decide (p ∈ st.2) then (st, false) else (reportOpaque (opaqueChange p (when (in_ctime i))) st, false)
             else (st, false)
         | Some (p, false) => (report (deletedChange p (when (in_ctime i))) st, false)
         | None => (st, false)
         end
  else if isWhiteout i then (report (deletedChange name (when (in_ctime i))) st, false)
  else match in_kind i with
       | KDir =>
           if carry && negb (bool_decide (name ∈ st.2)) && ly_opaque e then
             (reportOpaque (opaqueChange name (when (markerCtime (ly_kids e)))) st, false)
           else if times && emptyDir e then (report (stamped (dirChange name) i) st, false)
           else (st, false)
       | KLink target =>
           if carry then
             match target with Some t => (report (stamped (linkChange name t (in_mtime i)) i) st, false) | None => (st, false) end
           else (st, false)
       | KFile =>
           if isApplied ap name (in_size i) (in_mtime i) (in_ctime i) then (st, false)
           else (report (stamped (fileChange name (in_size i) (in_mtime i)) i) st, false)
       | _ => (st, false)
       end.

Definition visitAny (name : string) (e : layer) (st : found) : found * bool :=
  match ly_info e with Some i => visitEntry name e i st | None => (st, false) end.

Fixpoint walkLayer (prefix : string) (e : layer) (st : found) {struct e} : found :=
  let name := prefix +:+ "/" +:+ ly_base e in
  let '(st', skip) := visitAny name e st in
  match e with
  | Layer _ isDir _ _ _ kids =>
      if isDir && negb skip then
        (fix go (kids : list layer) (st : found) : found :=
           match kids with [] => st | k :: kids' => go kids' (walkLayer name k st) end) kids st'
      else st'
  end.

(** [changesIn]: none when the layer itself cannot be read. *)
Definition changesIn (upper : option (list layer)) : option (list Change) :=
  top ← upper; Some (foldl (λ st e, walkLayer "" e st) ([], ∅) top).1.

End walk.

(** ** Asking about paths (write.go, changes.go) *)

Definition within (name : string) : res pathError string :=
  let p := "/" +:+ strings.TrimPrefix name "/" in
  match ValidSharePath p with
  | Some e => Err e
  | None => Ok (if bool_decide (p = "/"%string) then "."%string else strings.TrimPrefix p "/")
  end.

(** [present]; [Lstat] says of a name whether it is there ([Ok]), or whether the
    error is that it does not exist. *)
Definition present (Lstat : string → res bool unit) (paths : list string) : list string :=
  filter (λ p, match within p with
               | Err _ => true
               | Ok name => match Lstat name with Ok _ => true | Err notExist => negb notExist end
               end = true) paths.

(** The head of [pull]: the names to fetch, and what is left out; without carry the
    first bad name fails the request. *)
Definition pullNames (carry : bool) (paths : list string) : res pathError (list string * list string) :=
  foldRes (λ acc p, match within p with
                    | Ok name => Ok ((acc.1 ++ [name])%list, acc.2)
                    | Err e => if carry then Ok (acc.1, (acc.2 ++ [p])%list) else Err e
                    end) ([], []) paths.

(** * What a container did to a share: the list is sound and complete *)

Open Scope Z_scope.

(** Induction on a tree of entries. *)
Lemma layer_tree_ind (P : layer → Prop) :
  (∀ b d i o r kids, Forall P kids → P (Layer b d i o r kids)) → ∀ e, P e.
Proof.
  intros H. fix IH 1. intros [b d i o r kids]. apply H. induction kids as [|k kids IHk]; constructor; [apply IH|exact IHk].
Qed.

Section changes.
Context (ap : gmap string applied) (carry times : bool).
Abbreviation when := (when times).
Abbreviation stamped := (stamped times).
Abbreviation walkLayer := (walkLayer ap carry times).
Abbreviation visitAny := (visitAny ap carry times).

(** What an entry says, by itself: the deletion or the replacement a mark stands
    for, and of anything else what the container made of it. *)
Definition says (name : string) (e : layer) : list Change :=
  match ly_info e with
  | None => []
  | Some i =>
      if strings.HasPrefix (ly_base e) whiteoutPrefix then
        if ly_isDir e then []
        else match markerChange name i with
             | Some (p, true) => if carry then [opaqueChange p (when (in_ctime i))] else []
             | Some (p, false) => [deletedChange p (when (in_ctime i))]
             | None => []
             end
      else if isWhiteout i then [deletedChange name (when (in_ctime i))]
      else match in_kind i with
           | KDir => (if carry && ly_opaque e then [opaqueChange name (when (markerCtime (ly_kids e)))] else []) ++
                     (if times && emptyDir e then [stamped (dirChange name) i] else [])
           | KLink (Some t) => if carry then [stamped (linkChange name t (in_mtime i)) i] else []
           | KFile => if isApplied ap name (in_size i) (in_mtime i) (in_ctime i) then [] else [stamped (fileChange name (in_size i) (in_mtime i)) i]
           | _ => []
           end
  end.

(** A directory that is a mark of the overlay's own is not entered. *)
Definition skips (e : layer) : bool := bool_decide (is_Some (ly_info e)) && strings.HasPrefix (ly_base e) whiteoutPrefix && ly_isDir e.

Inductive seen : string → layer → string → layer → Prop :=
| seen_self prefix e : seen prefix e (prefix +:+ "/" +:+ ly_base e) e
| seen_kid prefix e k n e' : ly_isDir e = true → skips e = false → k ∈ ly_kids e → seen (prefix +:+ "/" +:+ ly_base e) k n e' → seen prefix e n e'.

Definition opaques (l : list Change) : list string := ch_Path <$> filter (λ ch, ch_Opaque ch = true) l.
Definition good (st : list Change * gset string) : Prop := NoDup (opaques st.1) ∧ ∀ p, p ∈ st.2 ↔ p ∈ opaques st.1.

(** A change is in the list, or its path is reported as replaced. *)
Definition covered (l : list Change) (ch : Change) : Prop := ch ∈ l ∨ ch_Path ch ∈ opaques l.

Record walked (st st' : list Change * gset string) (mine : Change → Prop) : Prop := {
  wk_good : good st';
  wk_keeps : ∀ ch, ch ∈ st.1 → ch ∈ st'.1;
  wk_sound : ∀ ch, ch ∈ st'.1 → ch ∈ st.1 ∨ mine ch;
  wk_complete : ∀ ch, mine ch → covered st'.1 ch
}.

Lemma opaques_mono l l' p : (∀ ch, ch ∈ l → ch ∈ l') → p ∈ opaques l → p ∈ opaques l'.
Proof. intros H. unfold opaques. rewrite !list_elem_of_fmap. setoid_rewrite list_elem_of_filter. naive_solver. Qed.

Lemma covered_mono l l' ch : (∀ ch, ch ∈ l → ch ∈ l') → covered l ch → covered l' ch.
Proof. intros H [?|?]; [left; auto|right; by eapply opaques_mono]. Qed.

Lemma walked_refl st mine : good st → (∀ ch, mine ch → covered st.1 ch) → walked st st mine.
Proof. intros Hg Hc. constructor; auto. Qed.

Lemma walked_trans st1 st2 st3 m1 m2 : walked st1 st2 m1 → walked st2 st3 m2 → walked st1 st3 (λ ch, m1 ch ∨ m2 ch).
Proof.
  intros [G1 K1 S1 C1] [G2 K2 S2 C2]. constructor; [done|auto| |].
  - intros ch [H|H]%S2; [|auto]. destruct (S1 ch H); auto.
  - intros ch [H|H]; [|auto]. eapply covered_mono; [exact K2|auto].
Qed.

Lemma walked_ext st st' m m' : (∀ ch, m ch ↔ m' ch) → walked st st' m → walked st st' m'.
Proof. intros H [G K S C]. constructor; [done|done| |]; intros ch Hch; [destruct (S ch Hch); [auto|right; by apply H]|apply C; by apply H]. Qed.

Lemma report_walked ch st : good st → ch_Opaque ch = false → walked st (report ch st) (λ c, c = ch).
Proof.
  intros [Hn Hs] Hc. assert (opaques (st.1 ++ [ch]) = opaques st.1) as E.
  { unfold opaques. rewrite filter_app, filter_cons_False by (by rewrite Hc). by rewrite app_nil_r. }
  constructor; unfold report; cbn [fst snd].
  - unfold good. cbn [fst snd]. rewrite E. done.
  - intros c Hin. apply elem_of_app. by left.
  - intros c [?|?%list_elem_of_singleton]%elem_of_app; auto.
  - intros c ->. left. apply elem_of_app. right. by left.
Qed.

Lemma reportOpaque_walked ch st : good st → ch_Opaque ch = true → ch_Path ch ∉ st.2 → walked st (reportOpaque ch st) (λ c, c = ch).
Proof.
  intros [Hn Hs] Hc Hno. assert (opaques (st.1 ++ [ch]) = (opaques st.1 ++ [ch_Path ch])%list) as E.
  { unfold opaques. rewrite filter_app, filter_cons_True by done. by rewrite fmap_app. }
  constructor; unfold reportOpaque; cbn [fst snd].
  - unfold good. cbn [fst snd]. rewrite E. split.
    + apply NoDup_app. split_and!; [done| |apply NoDup_singleton]. intros p Hp ->%list_elem_of_singleton. by apply Hno, Hs.
    + intros p. rewrite elem_of_union, elem_of_singleton, elem_of_app, list_elem_of_singleton, Hs. tauto.
  - intros c Hin. apply elem_of_app. by left.
  - intros c [?|?%list_elem_of_singleton]%elem_of_app; auto.
  - intros c ->. left. apply elem_of_app. right. by left.
Qed.

Lemma covered_opaque st p c : good st → p ∈ st.2 → ch_Path c = p → covered st.1 c.
Proof. intros [_ Hs] Hp Hc. right. rewrite Hc. by apply Hs. Qed.

Lemma visitAny_walked name e st st' skip : visitAny name e st = (st', skip) → good st → walked st st' (λ ch, ch ∈ says name e) ∧ skip = skips e.
Proof.
  unfold UnionLayer.visitAny, says, skips. intros E Hg.
  assert (∀ P : Change → Prop, (∀ c, ¬ P c) → walked st st P) as Hnone by (intros P HP; apply walked_refl; [done|]; intros c Hc; by destruct (HP c)).
  assert (∀ c : Change, c ∉ @nil Change) as Hnil by (intros c Hc; by apply elem_of_nil in Hc).
  assert (∀ ch, ch_Opaque ch = false → walked st (report ch st) (λ c, c ∈ [ch])) as Hrep.
  { intros ch Hch. eapply walked_ext; [|by apply report_walked]. intros c. by rewrite list_elem_of_singleton. }
  assert (∀ ch, ch_Opaque ch = true → ch_Path ch ∉ st.2 → walked st (reportOpaque ch st) (λ c, c ∈ [ch])) as Hop.
  { intros ch Hch Hno. eapply walked_ext; [|by apply reportOpaque_walked]. intros c. by rewrite list_elem_of_singleton. }
  assert (∀ c i, ch_Opaque (stamped c i) = ch_Opaque c ∧ ch_Path (stamped c i) = ch_Path c) as Hst by (intros c i; unfold UnionLayer.stamped; by destruct times).
  destruct (ly_info e) as [i|]; [|injection E as <- <-; split; [by apply Hnone|done]]. rewrite bool_decide_eq_true_2 by eauto. cbn [andb].
  unfold visitEntry in E. destruct (strings.HasPrefix (ly_base e) whiteoutPrefix); cbn [andb].
  { destruct (ly_isDir e); [injection E as <- <-; split; [by apply Hnone|done]|].
    destruct (markerChange name i) as [[p []]|]; [destruct carry; [case_bool_decide as Hp|]| |]; injection E as <- <-; (split; [|done]); try (by apply Hnone).
    - apply walked_refl; [done|]. intros c ->%list_elem_of_singleton. by eapply covered_opaque.
    - by apply Hop.
    - by apply Hrep. }
  destruct (isWhiteout i); [injection E as <- <-; split; [by apply Hrep|done]|].
  destruct (in_kind i) as [| |[t|]|rdev|].
  - destruct carry; cbn [andb] in E.
    + case_bool_decide as Hp; cbn [negb andb] in E.
      * destruct (times && emptyDir e); injection E as <- <-; (split; [|done]).
        -- destruct (ly_opaque e); cbn [app]; [|by apply Hrep; rewrite (proj1 (Hst _ _))].
           pose proof (Hrep (stamped (dirChange name) i) (proj1 (Hst _ _))) as [G K S C]. constructor; [done|done| |].
           ++ intros c Hc. destruct (S c Hc) as [?|?]; [by left|right; by right].
           ++ intros c [->|Hc]%elem_of_cons; [|by apply C]. eapply covered_mono; [exact K|]. by eapply covered_opaque.
        -- rewrite app_nil_r. destruct (ly_opaque e); [|by apply Hnone]. apply walked_refl; [done|]. intros c ->%list_elem_of_singleton. by eapply covered_opaque.
      * destruct (ly_opaque e).
        -- injection E as <- <-. split; [|done]. pose proof (Hop (opaqueChange name (when (markerCtime (ly_kids e)))) eq_refl Hp) as [G K S C]. constructor; [done|done| |].
           ++ intros c Hc. destruct (S c Hc) as [?|?]; [by left|right; apply elem_of_app; by left].
           ++ intros c [Hc|Hc]%elem_of_app; [by apply C|]. right. destruct (times && emptyDir e); [|by apply elem_of_nil in Hc]. apply list_elem_of_singleton in Hc as ->.
              rewrite (proj2 (Hst _ _)). destruct G as [_ G]. apply G. cbn. set_solver.
        -- cbn [app]. destruct (times && emptyDir e); injection E as <- <-; (split; [|done]); [|by apply Hnone]. apply Hrep. by rewrite (proj1 (Hst _ _)).
    + cbn [app]. destruct (times && emptyDir e); injection E as <- <-; (split; [|done]); [|by apply Hnone]. apply Hrep. by rewrite (proj1 (Hst _ _)).
  - destruct (isApplied _ _ _ _ _); injection E as <- <-; (split; [|done]); [by apply Hnone|]. apply Hrep. by rewrite (proj1 (Hst _ _)).
  - destruct carry; injection E as <- <-; (split; [|done]); [|by apply Hnone]. apply Hrep. by rewrite (proj1 (Hst _ _)).
  - destruct carry; injection E as <- <-; (split; [|done]); by apply Hnone.
  - injection E as <- <-. split; [by apply Hnone|done].
  - injection E as <- <-. split; [by apply Hnone|done].
Qed.

Definition sayings (prefix : string) (es : list layer) (ch : Change) : Prop := ∃ e n e', e ∈ es ∧ seen prefix e n e' ∧ ch ∈ says n e'.

Lemma walk_list prefix kids st :
  Forall (λ k, ∀ prefix st, good st → walked st (walkLayer prefix k st) (sayings prefix [k])) kids → good st →
  walked st (foldl (λ st k, walkLayer prefix k st) st kids) (sayings prefix kids).
Proof.
  intros Hk. revert st. induction Hk as [|k kids Hk _ IH]; intros st Hg.
  - apply walked_refl; [done|]. intros ch (e & _ & _ & He & _). by apply elem_of_nil in He.
  - pose proof (Hk prefix st Hg) as H1. pose proof (IH _ (wk_good _ _ _ H1)) as H2. eapply walked_ext; [|exact (walked_trans _ _ _ _ _ H1 H2)].
    intros ch. unfold sayings. setoid_rewrite elem_of_cons. split.
    + intros [(e & n & e' & [->|He] & H)|(e & n & e' & He & H)]; [by exists k, n, e'; auto|by apply elem_of_nil in He|by exists e, n, e'; auto].
    + intros (e & n & e' & [->|He] & H); [left; by exists k, n, e'; auto|right; by exists e, n, e'].
Qed.

Lemma walkLayer_walked e : ∀ prefix st, good st → walked st (walkLayer prefix e st) (sayings prefix [e]).
Proof.
  induction e as [b d i o r kids IH] using layer_tree_ind. intros prefix st Hg. cbn [UnionLayer.walkLayer]. set (e := Layer b d i o r kids) in *.
  set (name := prefix +:+ "/" +:+ ly_base e). destruct (visitAny name e st) as [st1 skip] eqn:Ev. apply visitAny_walked in Ev as [H1 ->]; [|done].
  assert (∀ ch, sayings prefix [e] ch ↔ ch ∈ says name e ∨ (d = true ∧ skips e = false ∧ sayings name kids ch)) as Hsay.
  { intros ch. unfold sayings. split.
    - intros (e0 & n & e' & ->%list_elem_of_singleton & Hs & Hc). inversion Hs as [? ?|? ? k ? ? Hd Hsk Hk Hs']; subst; [by left|]. right. split_and!; [done|done|]. by exists k, n, e'.
    - intros [Hc|(Hd & Hsk & k & n & e' & Hk & Hs & Hc)]; [exists e, name, e; split_and!; [by left|constructor|done]|].
      exists e, n, e'. split_and!; [by left|by econstructor|done]. }
  assert ((fix go (kids : list layer) (st : list Change * gset string) := match kids with [] => st | k :: kids' => go kids' (walkLayer name k st) end) kids st1
          = foldl (λ st k, walkLayer name k st) st1 kids) as -> by (generalize st1; clear; induction kids as [|k kids IH]; intros st1; [done|]; cbn; apply IH).
  destruct d; cbn [andb]; [destruct (skips e) eqn:Esk; cbn [negb]|].
  - eapply walked_ext; [|exact H1]. intros ch. rewrite Hsay. naive_solver.
  - pose proof (walk_list name kids st1 IH (wk_good _ _ _ H1)) as H2. eapply walked_ext; [|exact (walked_trans _ _ _ _ _ H1 H2)]. intros ch. rewrite Hsay. naive_solver.
  - eapply walked_ext; [|exact H1]. intros ch. rewrite Hsay. naive_solver.
Qed.

(** The list of a share's changes is what the entries of its cache layer say,
    read one by one: each change listed is said by an entry the walk reaches, and
    each one said is listed, or its path is listed as a directory that was
    replaced, which happens once.  A file that is exactly as the client's stream
    left it says nothing. *)
Theorem changes_are_what_entries_say top out : changesIn ap carry times (Some top) = Some out →
  (∀ ch, ch ∈ out → sayings "" top ch) ∧
  (∀ ch, sayings "" top ch → covered out ch) ∧
  NoDup (opaques out).
Proof.
  intros [= <-]. assert (good ([], ∅)) as H0 by (split; [constructor|intros p; cbn; set_solver]).
  pose proof (walk_list "" top ([], ∅) ltac:(apply Forall_forall; intros k _ prefix st; apply walkLayer_walked) H0) as [[Hn _] _ S C].
  split_and!; [|done|done]. intros ch Hch. destruct (S ch Hch) as [H|H]; [by apply elem_of_nil in H|done].
Qed.

End changes.

(** A path is left out of the answer only when it is known not to exist. *)
Lemma present_keeps_doubt Lstat paths p : p ∈ paths → p ∉ present Lstat paths → ∃ name, within p = Ok name ∧ Lstat name = Err true.
Proof.
  intros Hp Hno. unfold present in Hno. destruct (within p) as [name|e] eqn:Ew.
  - exists name. split; [done|]. destruct (Lstat name) as [|[]] eqn:El; [|done|]; destruct Hno; apply list_elem_of_filter; by rewrite Ew, El.
  - destruct Hno. apply list_elem_of_filter. by rewrite Ew.
Qed.

(** The mark of a name that is empty is read as a deletion of the directory it is
    in: at the top of a share, of the share itself. *)
Lemma empty_mark_deletes_root ctime :
  markerChange "/.wh." {| in_kind := KFile; in_size := 0; in_mtime := 0; in_ctime := ctime; in_perm := 420 |} = Some ("/"%string, false).
Proof. vm_compute. reflexivity. Qed.
