(* ===== verification/UnionWrite.v ===== *)
(** * Filling a share's cache (agent/internal/unions/write.go)

    A batch is a tar, extracted through the merged mount, an [os.Root] as in [Root];
    [RootFill] adds the operations that write over a file in place.  What the cache
    layer says of a path is a function of the disk. *)
From S2P Require Import Prelude GoStrings GoTime CacheProto DirTypes Decide Root MemFS Names UnionLayer.

Open Scope Z_scope.

Class RootFill (D : Type) `{Root D} := {
  OpenWrite : D → string → Z → D * option goerror;
  WriteFrom0 : D → string → string → D * option goerror;
  Truncate : D → string → Z → D * option goerror;
  CloseFile : D → string → D * option goerror;
  RemoveAll : D → string → D * option goerror
}.

Fixpoint dropChars (n : nat) (s : string) : string := match n, s with S n', String _ s' => dropChars n' s' | _, _ => s end.
Fixpoint takeChars (n : nat) (s : string) : string := match n, s with S n', String a s' => String a (takeChars n' s') | _, _ => ""%string end.

(** Opening for writing makes an empty file where there is none and leaves one that
    is there; writing replaces the first bytes; cutting keeps them.  All of them act
    at the place the path leads to, and follow a link that is there. *)
Class RootFillLaws (D : Type) `{RootFill D} := {
  close_same d p q : node (CloseFile d p).1 q = node d q;
  open_frame d p m q : ¬ isLink (node d (place d p)) → q ≠ place d p → node (OpenWrite d p m).1 q = node d q;
  open_file d p m perm t b : node d (place d p) = Some (nFile perm t b) → node (OpenWrite d p m).1 (place d p) = node d (place d p);
  open_kind d p m : ¬ isLink (node d (place d p)) → ¬ isLink (node (OpenWrite d p m).1 (place d p));
  open_ok d p m : (OpenWrite d p m).2 = None → ¬ isLink (node d (place d p)) → ∃ perm t b, node (OpenWrite d p m).1 (place d p) = Some (nFile perm t b);
  write0_frame d p s q : ¬ isLink (node d (place d p)) → q ≠ place d p → node (WriteFrom0 d p s).1 q = node d q;
  write0_file d p s perm t b : node d (place d p) = Some (nFile perm t b) →
    ∃ t' b', node (WriteFrom0 d p s).1 (place d p) = Some (nFile perm t' b') ∧ ((WriteFrom0 d p s).2 = None → b' = s +:+ dropChars (strlen s) b);
  truncate_frame d p n q : ¬ isLink (node d (place d p)) → q ≠ place d p → node (Truncate d p n).1 q = node d q;
  truncate_file d p n perm t b : node d (place d p) = Some (nFile perm t b) →
    ∃ t' b', node (Truncate d p n).1 (place d p) = Some (nFile perm t' b') ∧ ((Truncate d p n).2 = None → b' = takeChars (Z.to_nat n) b)
}.

(** The cache layer under the merged mount, as [Lstat] in it answers with the change
    time.  Writing at one place leaves another place's file in the layer alone; it
    may copy up the directories above. *)
Class CacheLayer (D : Type) := upper : D → string → option (FileInfo * Z).

Definition upper_kept `{Root D} `{!CacheLayer D} (t : string) (d d' : D) : Prop :=
  ∀ q n, q ≠ t → node d q = Some n → n ≠ nDir → upper d' q = upper d q.

Class CacheLayerLaws (D : Type) `{RootFill D} `{!CacheLayer D} := {
  upper_create d p m : upper_kept (place d p) d (Create d p m).1;
  upper_open d p m : ¬ isLink (node d (place d p)) → upper_kept (place d p) d (OpenWrite d p m).1;
  upper_write0 d p s : ¬ isLink (node d (place d p)) → upper_kept (place d p) d (WriteFrom0 d p s).1;
  upper_truncate d p n : ¬ isLink (node d (place d p)) → upper_kept (place d p) d (Truncate d p n).1;
  upper_close d p : upper_kept (place d p) d (CloseFile d p).1;
  upper_chtimes d p t : ¬ isLink (node d (place d p)) → upper_kept (place d p) d (Chtimes d p t).1;
  upper_remove d p : upper_kept (place d p) d (Remove d p).1;
  upper_mkdirall d p q n : node d q = Some n → n ≠ nDir → upper (MkdirAll d p).1 q = upper d q
}.

Inductive entryType := TypeReg | TypeDir | TypeSymlink | TypeOther.

(** A header and what follows it: the bytes that can be read, and the error the
    reading ends with. *)
Record tarEntry := {
  te_Name : string;
  te_Type : entryType;
  te_Perm : Z;
  te_Size : Z;
  te_ModTime : option Time;
  te_Linkname : string;
  te_body : string;
  te_bodyErr : option goerror
}.

(** [errors.Is(err, os.ErrExist)]: EEXIST or ENOTEMPTY. *)
Definition isExist (e : goerror) : bool := bool_decide (ge_errno e = Some 17 ∨ ge_errno e = Some 39).

Section extract.
Context {D : Type} `{RootFill D}.

(** The regular file of [writeEntry], from its opening: whether it was made by this
    entry, and the info it has at the end, if it can be had. *)
Definition openEntry (d : D) (target : string) (perm : Z) : D * bool * option goerror :=
  let '(d1, err) := Create d target perm in
  match err with
  | None => (d1, true, None)
  | Some e => if isExist e then let '(d2, err2) := OpenWrite d1 target perm in (d2, false, err2) else (d1, false, Some e)
  end.

Definition copyBody (d : D) (target : string) (e : tarEntry) : D * option goerror :=
  let '(d1, err) := WriteFrom0 d target (te_body e) in
  match err with
  | Some _ => ((CloseFile d1 target).1, err)
  | None => match te_bodyErr e with Some er => ((CloseFile d1 target).1, Some er) | None => (d1, None) end
  end.

(** Cutting what is longer than the entry, and closing. *)
Definition shorten (d : D) (target : string) (e : tarEntry) : D * option goerror :=
  let '(d1, err) := match Stat d target with
                    | Ok st => if te_Size e <? fi_Size st then Truncate d target (te_Size e) else (d, None)
                    | Err _ => (d, None)
                    end in
  match err with
  | Some _ => ((CloseFile d1 target).1, err)
  | None => CloseFile d1 target
  end.

Definition writeFile (d : D) (target : string) (e : tarEntry) : D * bool * res goerror (option FileInfo) :=
  let '(d1, err) := MkdirAll d (path.Dir target) in
  match err with
  | Some er => (d1, false, Err er)
  | None =>
      let '(d2, created, err) := openEntry d1 target (te_Perm e) in
      match err with
      | Some er => (d2, created, Err er)
      | None =>
          let '(d3, err) := copyBody d2 target e in
          match err with
          | Some er => (d3, created, Err er)
          | None =>
              let '(d4, err) := shorten d3 target e in
              match err with
              | Some er => (d4, created, Err er)
              | None =>
                  let d5 := match te_ModTime e with Some t => (Chtimes d4 target t).1 | None => d4 end in
                  (d5, created, Ok (match Stat d5 target with Ok info => Some info | Err _ => None end))
              end
          end
      end
  end.

Definition badPath (e : pathError) : goerror := errText "unions: a path".

Definition writeEntry (d : D) (e : tarEntry) : D * bool * res goerror (option FileInfo) :=
  match within (te_Name e) with
  | Err er => (d, false, Err (badPath er))
  | Ok target =>
      match te_Type e with
      | TypeDir => let '(d1, err) := MkdirAll d target in (d1, false, match err with Some er => Err er | None => Ok None end)
      | TypeSymlink =>
          let '(d1, err) := Remove d target in
          match err with
          | Some er => if ge_notExist er then let '(d2, err2) := Symlink d1 (te_Linkname e) target in (d2, false, match err2 with Some er2 => Err er2 | None => Ok None end)
                       else (d1, false, Err er)
          | None => let '(d2, err2) := Symlink d1 (te_Linkname e) target in (d2, false, match err2 with Some er2 => Err er2 | None => Ok None end)
          end
      | TypeReg => writeFile d target e
      | TypeOther => (d, false, Ok None)
      end
  end.

(** The loop's state: the disk, what the caller keeps, the entries left out and the
    container's files that were kept. *)
Record extracted (A : Type) := {
  ex_disk : D;
  ex_note : A;
  ex_skipped : list string;
  ex_kept : list string
}.
#[global] Arguments ex_disk {_}. #[global] Arguments ex_note {_}.
#[global] Arguments ex_skipped {_}. #[global] Arguments ex_kept {_}.
#[global] Arguments Build_extracted {_}.

Definition nameOf (e : tarEntry) : string := "/" +:+ strings.TrimPrefix (te_Name e) "/".

Section loop.
Context {A : Type} (theirs : option (D → A → string → bool)) (skip : bool) (landed : D → A → string → FileInfo → A).

Definition claims (st : extracted A) (e : tarEntry) : bool :=
  match theirs, te_Type e with Some f, TypeReg => f (ex_disk st) (ex_note st) (nameOf e) | _, _ => false end.

(** One turn: the state, or the error that ends the batch with the disk as it is. *)
Definition extractOne (st : extracted A) (e : tarEntry) : extracted A * option goerror :=
  let name := nameOf e in
  if claims st e then (Build_extracted (ex_disk st) (ex_note st) (ex_skipped st) (ex_kept st ++ [name])%list, None)
  else
    let '(d1, created, r) := writeEntry (ex_disk st) e in
    match r with
    | Err er =>
        if negb skip then (Build_extracted d1 (ex_note st) [] [], Some er)
        else
          let d2 := match within (te_Name e) with Ok target => if created then (Remove d1 target).1 else d1 | Err _ => d1 end in
          (Build_extracted d2 (ex_note st) (ex_skipped st ++ [name])%list (ex_kept st), None)
    | Ok None => (Build_extracted d1 (ex_note st) (ex_skipped st) (ex_kept st), None)
    | Ok (Some info) => (Build_extracted d1 (landed d1 (ex_note st) name info) (ex_skipped st) (ex_kept st), None)
    end.

(** [extractWith], from an opened root: the entries, and the error the archive ends
    with, if it does not end as it should. *)
Fixpoint extractWith (es : list tarEntry) (endErr : option goerror) (st : extracted A) : extracted A * option goerror :=
  match es with
  | [] => (st, endErr)
  | e :: es' =>
      let '(st', err) := extractOne st e in
      match err with Some _ => (st', err) | None => extractWith es' endErr st' end
  end.

End loop.

(** [containersOwn]: [layer] is what the cache layer has at a name, with its change
    time. *)
Definition containersOwn (layer : D → string → option (FileInfo * Z)) (ap : gmap string applied) (d : D) (name : string) : bool :=
  match within name with
  | Err _ => false
  | Ok target =>
      match layer d target with
      | None => false
      | Some (i, ctime) =>
          if negb (IsRegular i) && negb (IsSymlink i) then false
          else negb (isApplied ap name (fi_Size i) (fi_ModTime i) ctime)
      end
  end.

(** [inLayer]: what is noted of a file that landed. *)
Definition inLayer (layer : option (D → string → option (FileInfo * Z))) (d : D) (name : string) (merged : FileInfo) : applied :=
  let plain := {| ap_size := fi_Size merged; ap_modTime := fi_ModTime merged; ap_ctime := 0 |} in
  match layer, within name with
  | Some f, Ok target => match f d target with
                         | Some (i, ctime) => {| ap_size := fi_Size i; ap_modTime := fi_ModTime i; ap_ctime := ctime |}
                         | None => plain
                         end
  | _, _ => plain
  end.

(** [decoded]: why a payload cannot be read; [zstdErr] is what opening the zstd
    reader answers. *)
Definition decoded (codec : string) (zstdErr : option goerror) : option goerror :=
  if bool_decide (codec = CodecNone) then None
  else if bool_decide (codec = CodecZstd) then zstdErr
  else Some (errText "unions: a batch arrived encoded as something this workspace cannot read").

(** [Apply].  [mergedErr] is what [mergedRoot] answers, [rootErr] what opening the
    merged root does; [layer] is none when the layer could not be opened; [es] and
    [endErr] are the archive. *)
Definition Apply (mergedErr zstdErr rootErr : option goerror) (codec : string) (layer : option (D → string → option (FileInfo * Z)))
    (carry fill : bool) (es : list tarEntry) (endErr : option goerror) (d : D) (ap : gmap string applied) : extracted (gmap string applied) * option goerror :=
  let start := Build_extracted d ap [] [] in
  let landed d' ap' name info := noteApplied name (inLayer layer d' name info) ap' in
  match mergedErr with
  | Some er => (start, Some er)
  | None =>
      match decoded codec zstdErr with
      | Some er => (start, Some er)
      | None =>
          if fill && match layer with Some _ => false | None => true end then (start, Some (errText "unions: opening the cache layer"))
          else
            let theirs := if fill then (λ f d' ap' name, containersOwn f ap' d' name) <$> layer else None in
            match rootErr with
            | Some er => (start, Some er)
            | None => extractWith theirs carry landed es endErr start
            end
      end
  end.

(** [remove], the body of [Drop]: the disk, what was told gone, and the error. *)
Fixpoint removePaths (d : D) (paths gone : list string) : D * list string * option goerror :=
  match paths with
  | [] => (d, gone, None)
  | p :: paths' =>
      match within p with
      | Err e => (d, gone, Some (badPath e))
      | Ok target =>
          let '(d1, err) := RemoveAll d target in
          match err with
          | Some er => if ge_notExist er then removePaths d1 paths' (gone ++ [p])%list else (d1, gone, Some er)
          | None => removePaths d1 paths' (gone ++ [p])%list
          end
      end
  end.

Definition Drop (mergedErr rootErr : option goerror) (paths : list string) (d : D) (ap : gmap string applied) : D * gmap string applied * option goerror :=
  match mergedErr with
  | Some er => (d, ap, Some er)
  | None =>
      match paths, rootErr with
      | [], _ => (d, ap, None)
      | _, Some er => (d, ap, Some er)
      | _, None => let '(d', gone, err) := removePaths d paths [] in (d', foldl (λ m p, forgetApplied p m) ap gone, err)
      end
  end.

End extract.
#[global] Arguments extracted : clear implicits.

(** ** The disk in memory *)

Definition memOpenWrite (d : MemFS.t) (p : string) (m : Z) : MemFS.t * option goerror :=
  match d !! p with
  | None => (<[p := nFile m 1 ""]> d, None)
  | Some (nFile _ _ _) => (d, None)
  | Some _ => (d, Some MemFS.exists_)
  end.
Definition memWriteFrom0 (d : MemFS.t) (p s : string) : MemFS.t * option goerror :=
  match d !! p with
  | Some (nFile perm t b) => (<[p := nFile perm t (s +:+ dropChars (strlen s) b)]> d, None)
  | _ => (d, Some MemFS.notExist)
  end.
Definition memTruncate (d : MemFS.t) (p : string) (n : Z) : MemFS.t * option goerror :=
  match d !! p with
  | Some (nFile perm t b) => (<[p := nFile perm t (takeChars (Z.to_nat n) b)]> d, None)
  | _ => (d, Some MemFS.notExist)
  end.
Definition memRemoveAll (d : MemFS.t) (p : string) : MemFS.t * option goerror :=
  (filter (λ kv, kv.1 ≠ p ∧ p ∉ path.ups (path.Dir kv.1)) d, None).

#[export] Instance mem_fill : RootFill MemFS.t (H := MemFS.root) :=
  {| OpenWrite := memOpenWrite; WriteFrom0 := memWriteFrom0; Truncate := memTruncate; CloseFile := λ d _, (d, None); RemoveAll := memRemoveAll |}.

#[export] Instance mem_fill_laws : @RootFillLaws MemFS.t MemFS.root mem_fill.
Proof.
  split; cbn [node place MemFS.root OpenWrite WriteFrom0 Truncate CloseFile mem_fill fst]; intros; unfold memOpenWrite, memWriteFrom0, memTruncate in *.
  all: repeat case_match; simplify_map_eq; try done; eauto.
  all: try (eexists _, _, _; by simplify_map_eq).
  all: try (eexists _, _; split; [by simplify_map_eq|by intros _]).
Qed.

(** Every file of this disk is in the layer, and keeps one change time. *)
#[export] Instance mem_layer : CacheLayer MemFS.t := λ d q,
  match d !! q with Some (nFile perm t b) => Some (fileInfo perm t b, 9) | _ => None end.

#[export] Instance mem_layer_laws : @CacheLayerLaws MemFS.t MemFS.root mem_fill mem_layer.
Proof.
  assert (∀ (d d' : MemFS.t) p, (∀ q, q ≠ p → @node MemFS.t MemFS.root d' q = @node MemFS.t MemFS.root d q) → @upper_kept MemFS.t MemFS.root mem_layer p d d') as Hk.
  { intros d d' p Hf q n Hq _ _. unfold upper, mem_layer. specialize (Hf q Hq); cbn in Hf; by rewrite Hf. }
  split; try (intros; apply Hk; intros).
  - by apply (@create_frame MemFS.t MemFS.root MemFS.root_laws).
  - by apply open_frame.
  - by apply write0_frame.
  - by apply truncate_frame.
  - done.
  - by apply (@chtimes_frame MemFS.t MemFS.root MemFS.root_laws).
  - by apply (@remove_frame MemFS.t MemFS.root MemFS.root_laws).
  - intros d p q n Hn Hd. unfold upper, mem_layer. destruct (decide (@node MemFS.t MemFS.root (MemFS.mkdirAll d p).1 q = @node MemFS.t MemFS.root d q)) as [E|Hne]; [cbn in *; by rewrite E|].
    apply (@mkdirall_frame MemFS.t MemFS.root MemFS.root_laws) in Hne as [Hne _]. cbn in Hn, Hne. congruence.
Qed.

(** * Filling a share's cache: a batch spares what containers wrote, and lands the rest *)

Open Scope Z_scope.

(** ** Names and targets *)

Lemma within_name a t : within a = Ok t →
  (t = "."%string ∧ "/" +:+ strings.TrimPrefix a "/" = "/"%string) ∨ (t ≠ "."%string ∧ "/" +:+ strings.TrimPrefix a "/" = "/" +:+ t).
Proof.
  unfold within. set (x := strings.TrimPrefix a "/"). destruct (ValidSharePath ("/" +:+ x)) eqn:Ev; [done|].
  case_bool_decide as Hp; [intros [= <-]; by left|]. rewrite TrimPrefix_append. intros [= <-]. right. split; [|done].
  intros E. rewrite E in Ev. by vm_compute in Ev.
Qed.

Lemma clean_parts_unrooted acc ws : Forall plainPart ws → path.clean_parts false acc ws = (List.rev acc ++ ws)%list.
Proof.
  revert acc. induction ws as [|w ws IH]; intros acc Hw; cbn; [by rewrite app_nil_r|].
  inversion Hw as [|? ? (H1 & H2 & H3) Hw']; subst. rewrite bool_decide_eq_false_2 by naive_solver. rewrite bool_decide_eq_false_2 by done.
  rewrite IH by done. cbn. by rewrite <- app_assoc.
Qed.

(** A target is a clean path. *)
Lemma within_clean a t : within a = Ok t → cleanRel t.
Proof.
  unfold within. set (x := strings.TrimPrefix a "/"). destruct (ValidSharePath ("/" +:+ x)) eqn:Ev; [done|].
  case_bool_decide as Hp; [intros [= <-]; by right|]. rewrite TrimPrefix_append. intros [= <-]. right.
  unfold ValidSharePath in Ev. rewrite TrimPrefix_append in Ev. rewrite (bool_decide_eq_false_2 _ Hp) in Ev.
  case_bool_decide; [done|]. destruct (negb _); [done|]. destruct (strings.Contains _ backslash); [done|].
  destruct (strings.Contains _ NUL); [done|]. apply badComponent_None in Ev.
  assert (strings.HasPrefix x "/" = false) as Hx.
  { destruct (strings.HasPrefix x "/") eqn:E; [|done]. apply HasPrefix_spec in E as [r E]. rewrite E in Ev. cbn in Ev.
    by apply Forall_cons in Ev as [[[] _] _]. }
  unfold path.Clean. rewrite Hx, clean_parts_unrooted by done. cbn [List.rev app]. rewrite Join_Split.
  rewrite bool_decide_eq_false_2; [done|]. intros E. rewrite E in Hp. done.
Qed.

(** Two names of one place are one name. *)
Lemma within_inj a b t : within a = Ok t → within b = Ok t → "/" +:+ strings.TrimPrefix a "/" = "/" +:+ strings.TrimPrefix b "/".
Proof. intros [[Ha ->]|[Ha ->]]%within_name [[Hb ->]|[Hb ->]]%within_name; congruence. Qed.

Lemma within_nameOf e : within (nameOf e) = within (te_Name e).
Proof. unfold nameOf, within. by rewrite TrimPrefix_append. Qed.

Lemma nameOf_inj e1 e2 t : within (te_Name e1) = Ok t → within (te_Name e2) = Ok t → nameOf e1 = nameOf e2.
Proof. apply within_inj. Qed.

Lemma take_app (a b : string) : takeChars (strlen a) (a +:+ b) = a.
Proof. induction a as [|c a IH]; cbn; [by destruct b|]. by f_equal. Qed.

Lemma strlen_app' (a b : string) : strlen (a +:+ b) = (strlen a + strlen b)%nat.
Proof. induction a; cbn; [done|]. by f_equal. Qed.

Section fill.
Context {D : Type} `{Root D, !RootLaws D, !RootFill D, !RootFillLaws D, !CacheLayer D, !CacheLayerLaws D}.
Implicit Types d : D.

(** What an entry for the place [t] may do to a disk: elsewhere it only adds
    directories where nothing was, and no file changes in the layer, and it puts no
    link at [t]. *)
Record touches (t : string) (d d' : D) : Prop := {
  to_kept : ∀ q, q ≠ t → is_Some (node d q) → node d' q = node d q;
  to_new : ∀ q, q ≠ t → node d q = None → node d' q = None ∨ node d' q = Some nDir;
  to_link : ¬ isLink (node d t) → ¬ isLink (node d' t);
  to_upper : upper_kept t d d'
}.

Lemma touches_refl t d : touches t d d.
Proof. constructor; auto. by intros q n. Qed.

Lemma touches_trans t d1 d2 d3 : touches t d1 d2 → touches t d2 d3 → touches t d1 d3.
Proof.
  intros [K1 N1 L1 U1] [K2 N2 L2 U2]. constructor.
  - intros q Hq Hs. rewrite K2, K1; auto. by rewrite K1.
  - intros q Hq Hn. destruct (N1 q Hq Hn) as [E|E]; [auto|]. right. rewrite K2; [done|done|by rewrite E].
  - auto.
  - intros q n Hq Hn Hd. transitivity (upper d2 q); [|exact (U1 q n Hq Hn Hd)]. apply (U2 q n); [done| |done]. rewrite K1 by eauto. done.
Qed.

(** An operation that only changes [t]. *)
Lemma touches_at t d d' : (∀ q, q ≠ t → node d' q = node d q) → (¬ isLink (node d t) → ¬ isLink (node d' t)) → upper_kept t d d' → touches t d d'.
Proof. intros Hf Hl Hu. constructor; [intros; by apply Hf|intros; left; by rewrite Hf|done|done]. Qed.

(** A place a target is at itself: no link is on the way, and none is there. *)
Definition reached (d : D) (t : string) : Prop := ¬ isLink (node d t) ∧ straight d t.

Lemma reached_place d t : cleanRel t → reached d t → place d t = t.
Proof. intros Hc [_ Hs]. by apply place_straight. Qed.

Lemma touches_links t d d' q : touches t d d' → ¬ isLink (node d q) → ¬ isLink (node d' q).
Proof.
  intros [K N L _] Hq. destruct (decide (q = t)) as [->|Hne]; [auto|]. destruct (node d q) eqn:En; [rewrite K, En by eauto; done|].
  destruct (N q Hne En) as [-> | ->]; by intros [].
Qed.

Lemma touches_reached t d d' r : touches t d d' → reached d r → reached d' r.
Proof. intros Ht [Hl Hs]. split; [by eapply touches_links|]. intros u Hu. eapply touches_links; eauto. Qed.

Lemma mkdirall_touches t p d : touches t d (MkdirAll d p).1.
Proof.
  assert (∀ q, is_Some (node d q) → node (MkdirAll d p).1 q = node d q) as Hk.
  { intros q [n Hn]. destruct (decide (node (MkdirAll d p).1 q = node d q)) as [|Hne]; [done|]. apply mkdirall_frame in Hne as [Hne _]. congruence. }
  assert (∀ q, node d q = None → node (MkdirAll d p).1 q = None ∨ node (MkdirAll d p).1 q = Some nDir) as Hn.
  { intros q Hq. destruct (decide (node (MkdirAll d p).1 q = node d q)) as [->|Hne]; [by left|]. apply mkdirall_frame in Hne as (_ & ? & _). by right. }
  constructor; [auto|auto| |intros q n _ Hq Hd; by eapply upper_mkdirall]. intros Hl. destruct (node d t) as [n|] eqn:E; [rewrite Hk, E by eauto; done|].
  destruct (Hn t E) as [-> | ->]; cbn; auto.
Qed.

Lemma close_touches t d : place d t = t → touches t d (CloseFile d t).1.
Proof. intros Hp. apply touches_at; [intros; by rewrite close_same..|]. rewrite <- Hp at 1. apply upper_close. Qed.

(** ** One entry *)

Definition isFile (n : option Node) : Prop := match n with Some (nFile _ _ _) => True | _ => False end.

Lemma isFile_ex n : isFile n ↔ ∃ perm t b, n = Some (nFile perm t b).
Proof. destruct n as [[]|]; cbn; naive_solver. Qed.

Lemma file_not_link n : isFile n → ¬ isLink n.
Proof. destruct n as [[]|]; cbn; tauto. Qed.

Lemma touches_file t d d' : (∀ q, q ≠ t → node d' q = node d q) → isFile (node d' t) → upper_kept t d d' → touches t d d'.
Proof. intros Hq Hf Hu. apply touches_at; [done| |done]. intros _. by apply file_not_link. Qed.

Lemma openEntry_touches d t perm d' created err : openEntry d t perm = (d', created, err) → cleanRel t → reached d t →
  touches t d d' ∧ (err = None → isFile (node d' t)).
Proof.
  unfold openEntry. intros E Hc Hre. pose proof Hre as [Hl _]. pose proof (reached_place _ _ Hc Hre) as Hp.
  pose proof (create_frame d t perm) as Hf. pose proof (create_ok d t perm) as Hok. pose proof (create_err d t perm) as Herr. pose proof (upper_create d t perm) as Hu. rewrite Hp in *.
  destruct (Create d t perm) as [d1 e1]. cbn [fst snd] in *. destruct e1 as [e|].
  - rewrite <- (Herr e eq_refl) in Hl. assert (touches t d d1) as H1 by (apply touches_at; [done|by intros _|done]).
    destruct (isExist e); [|injection E as <- <- <-; split; done].
    pose proof (reached_place d1 t Hc (touches_reached _ _ _ _ H1 Hre)) as Hp1.
    pose proof (open_frame d1 t perm) as Of. pose proof (open_kind d1 t perm) as Ol. pose proof (open_ok d1 t perm) as Oo. pose proof (upper_open d1 t perm) as Ou. rewrite Hp1 in *. specialize (Ol Hl). specialize (Ou Hl).
    destruct (OpenWrite d1 t perm) as [d2 e2]. injection E as <- <- <-. cbn [fst snd] in *. split; [|intros ->; apply isFile_ex; auto].
    eapply touches_trans; [exact H1|]. apply touches_at; auto.
  - destruct (Hok eq_refl) as (_ & perm' & t' & Hn). injection E as <- <- <-. split; [|intros _; by rewrite Hn].
    apply touches_file; [done| |done]. by rewrite Hn.
Qed.

Lemma copyBody_file d t e d' err : copyBody d t e = (d', err) → cleanRel t → straight d t → isFile (node d t) →
  touches t d d' ∧ isFile (node d' t) ∧
  (err = None → te_bodyErr e = None ∧ ∃ perm t0 b t', node d t = Some (nFile perm t0 b) ∧ node d' t = Some (nFile perm t' (te_body e +:+ dropChars (strlen (te_body e)) b))).
Proof.
  unfold copyBody. intros E Hc Hst Hf. pose proof (file_not_link _ Hf) as Hl. pose proof (reached_place d t Hc (conj Hl Hst)) as Hp. apply isFile_ex in Hf as (perm & t0 & b & Hn).
  pose proof (write0_frame d t (te_body e)) as Wf. pose proof (write0_file d t (te_body e) perm t0 b) as W0. pose proof (upper_write0 d t (te_body e)) as Wu.
  rewrite Hp in *. destruct (W0 Hn) as (t' & b' & Wn & Wb). specialize (Wu Hl).
  destruct (WriteFrom0 d t (te_body e)) as [d1 e1]. cbn [fst snd] in *.
  assert (touches t d d1) as H1 by (apply touches_file; [auto|by rewrite Wn|done]).
  assert (touches t d (CloseFile d1 t).1) as H2 by (eapply touches_trans; [exact H1|apply close_touches, reached_place; [done|by eapply touches_reached]]).
  destruct e1 as [er|]; [|destruct (te_bodyErr e)]; injection E as <- <-; split_and!; try done; try (by rewrite ?close_same, Wn).
  intros _. split; [done|]. exists perm, t0, b, t'. by rewrite <- (Wb eq_refl).
Qed.

Lemma shorten_file d t e d' err : shorten d t e = (d', err) → cleanRel t → straight d t → isFile (node d t) →
  touches t d d' ∧ isFile (node d' t) ∧
  (err = None → ∀ perm t0 b, node d t = Some (nFile perm t0 b) →
     ∃ t', node d' t = Some (nFile perm t' (if te_Size e <? Z.of_nat (strlen b) then takeChars (Z.to_nat (te_Size e)) b else b))).
Proof.
  unfold shorten. intros E Hc0 Hst Hf. pose proof (file_not_link _ Hf) as Hl. pose proof (reached_place d t Hc0 (conj Hl Hst)) as Hp. apply isFile_ex in Hf as (perm & t0 & b & Hn).
  assert (Stat d t = Ok (fileInfo perm t0 b)) as Hstat by (apply stat_file; by rewrite Hp). rewrite Hstat in E. cbn [fileInfo fi_Size] in E.
  assert (∀ d1 err1, place d1 t = t → (match err1 with Some _ => ((CloseFile d1 t).1, err1) | None => CloseFile d1 t end) = (d', err) →
    (∀ q, node d' q = node d1 q) ∧ upper_kept t d1 d' ∧ (err = None → err1 = None)) as Hc.
  { intros d1 err1 Hp1 Hx. pose proof (close_same d1 t) as Hs. pose proof (upper_close d1 t) as Hu. rewrite Hp1 in Hu. destruct err1; [injection Hx as <- <-; done|]. rewrite Hx in Hs, Hu. done. }
  destruct (te_Size e <? Z.of_nat (strlen b)) eqn:El.
  - pose proof (truncate_frame d t (te_Size e)) as Tf. pose proof (truncate_file d t (te_Size e) perm t0 b) as T0. pose proof (upper_truncate d t (te_Size e)) as Tu.
    rewrite Hp in Tf, T0, Tu. destruct (T0 Hn) as (t' & b' & Tn & Tb). specialize (Tu Hl).
    destruct (Truncate d t (te_Size e)) as [d1 e1]. cbn [fst snd] in *.
    assert (touches t d d1) as H1 by (apply touches_file; [auto|by rewrite Tn|done]).
    apply Hc in E as (E1 & Eu & E2); [|apply reached_place; [done|by eapply touches_reached]].
    split_and!; [eapply touches_trans; [exact H1|apply touches_at; [done|by rewrite E1|done]]|by rewrite E1, Tn|].
    intros He ? ? ? Hn'. rewrite Hn in Hn'. simplify_eq. rewrite El, E1, Tn. exists t'. by rewrite (Tb (E2 eq_refl)).
  - apply (Hc d None Hp) in E as (E1 & Eu & _). split_and!; [apply touches_at; [done|by rewrite E1|done]|by rewrite E1, Hn|].
    intros _ ? ? ? Hn'. rewrite Hn in Hn'. simplify_eq. rewrite El, E1. eauto.
Qed.

Lemma writeFile_touches d t e d' created r : writeFile d t e = (d', created, r) → cleanRel t → reached d t →
  touches t d d' ∧
  (∀ i, r = Ok i → te_Size e = Z.of_nat (strlen (te_body e)) → ∃ perm t0, node d' t = Some (nFile perm t0 (te_body e)) ∧ i = Some (fileInfo perm t0 (te_body e))).
Proof.
  unfold writeFile. intros E Hcl Hre. pose proof (mkdirall_touches t (path.Dir t) d) as H1. destruct (MkdirAll d (path.Dir t)) as [d1 e1]. cbn [fst] in H1.
  destruct e1 as [er|]; [injection E as <- <- <-; by split|]. pose proof (touches_reached _ _ _ _ H1 Hre) as Hl1.
  destruct (openEntry d1 t (te_Perm e)) as [[d2 c2] e2] eqn:Eo. destruct (openEntry_touches _ _ _ _ _ _ Eo Hcl Hl1) as [H2 Hf2]. pose proof (touches_trans _ _ _ _ H1 H2) as H12.
  destruct e2 as [er|]; [injection E as <- <- <-; by split|].
  destruct (copyBody d2 t e) as [d3 e3] eqn:Ec. destruct (copyBody_file _ _ _ _ _ Ec Hcl (proj2 (touches_reached _ _ _ _ H12 Hre)) (Hf2 eq_refl)) as (H3 & Hf3 & Hb3). pose proof (touches_trans _ _ _ _ H12 H3) as H13.
  destruct e3 as [er|]; [injection E as <- <- <-; by split|]. destruct (Hb3 eq_refl) as (_ & perm & t0 & b & t3 & _ & Hn3).
  destruct (shorten d3 t e) as [d4 e4] eqn:Es. destruct (shorten_file _ _ _ _ _ Es Hcl (proj2 (touches_reached _ _ _ _ H13 Hre)) Hf3) as (H4 & Hf4 & Hb4). pose proof (touches_trans _ _ _ _ H13 H4) as H14.
  destruct e4 as [er|]; [injection E as <- <- <-; by split|]. destruct (Hb4 eq_refl _ _ _ Hn3) as [t4 Hn4]. injection E as <- <- <-.
  set (d5 := match te_ModTime e with Some m => (Chtimes d4 t m).1 | None => d4 end).
  assert (touches t d4 d5 ∧ ∃ t5, node d5 t = Some (nFile perm t5 (if te_Size e <? Z.of_nat (strlen (te_body e +:+ dropChars (strlen (te_body e)) b)) then takeChars (Z.to_nat (te_Size e)) (te_body e +:+ dropChars (strlen (te_body e)) b) else te_body e +:+ dropChars (strlen (te_body e)) b))) as [H5 [t5 Hn5]].
  { subst d5. destruct (te_ModTime e) as [m|]; [|split; [apply touches_refl|eauto]].
    pose proof (reached_place d4 t Hcl (touches_reached _ _ _ _ H14 Hre)) as Hp4.
    pose proof (chtimes_file d4 t m) as C0. pose proof (chtimes_frame d4 t m) as Cf. pose proof (upper_chtimes d4 t m) as Cu. rewrite Hp4 in C0, Cf, Cu.
    destruct (C0 _ _ _ Hn4) as (t5 & Hc & _). split; [|eauto].
    apply touches_file; [intros q Hq; apply Cf; [rewrite Hn4; by intros []|done]|by rewrite Hc|apply Cu; rewrite Hn4; by intros []]. }
  assert (touches t d d5) as H15 by (by eapply touches_trans). pose proof (reached_place d5 t Hcl (touches_reached _ _ _ _ H15 Hre)) as Hp5.
  split; [done|]. intros i [= <-] Hs. rewrite Hs, strlen_app' in Hn5.
  assert ((if Z.of_nat (strlen (te_body e)) <? Z.of_nat (strlen (te_body e) + strlen (dropChars (strlen (te_body e)) b)) then takeChars (Z.to_nat (Z.of_nat (strlen (te_body e)))) (te_body e +:+ dropChars (strlen (te_body e)) b) else te_body e +:+ dropChars (strlen (te_body e)) b) = te_body e) as Eb.
  { rewrite Nat2Z.id, take_app. destruct (Z.ltb_spec (Z.of_nat (strlen (te_body e))) (Z.of_nat (strlen (te_body e) + strlen (dropChars (strlen (te_body e)) b)))); [done|].
    destruct (dropChars (strlen (te_body e)) b) as [|c s]; [|cbn [strlen String.length] in *; lia]. clear. induction (te_body e) as [|a s IH]; [done|]. cbn. by f_equal. }
  rewrite Eb in Hn5. exists perm, t5. split; [done|]. rewrite (stat_file d5 t perm t5 (te_body e)); [done|by rewrite Hp5].
Qed.

(** ** One turn of the loop *)

Lemma writeEntry_touches d e t d' created r : writeEntry d e = (d', created, r) → te_Type e ≠ TypeSymlink → within (te_Name e) = Ok t → reached d t → touches t d d'.
Proof.
  unfold writeEntry. intros E Hs Hw Hl. rewrite Hw in E. destruct (te_Type e).
  - by destruct (writeFile_touches _ _ _ _ _ _ E (within_clean _ _ Hw) Hl).
  - pose proof (mkdirall_touches t t d) as H1. destruct (MkdirAll d t). by injection E as <- <- <-.
  - done.
  - injection E as <- <- <-. apply touches_refl.
Qed.

Lemma removed_touches t d : place d t = t → touches t d (Remove d t).1.
Proof.
  intros Hp. pose proof (remove_frame d t) as Rf. pose proof (upper_remove d t) as Ru. pose proof (remove_err d t) as Re. pose proof (remove_ok d t) as Ro.
  rewrite Hp in *. apply touches_at; [auto| |done]. intros Hl. destruct (snd (Remove d t)) as [e|] eqn:E.
  - by rewrite (Re e eq_refl).
  - rewrite (Ro eq_refl). by intros [].
Qed.

Lemma no_target_same d e d' created r : writeEntry d e = (d', created, r) → (∀ t, within (te_Name e) ≠ Ok t) → d' = d.
Proof. unfold writeEntry. intros E Hn. destruct (within (te_Name e)) as [t|er]; [by destruct (Hn t)|]. by injection E as <- <- <-. Qed.

Section batch.
Context (fill carry : bool).

Abbreviation st := (extracted D (gmap string applied)).
Definition theirsOf : option (D → gmap string applied → string → bool) := if fill then Some (λ d ap name, containersOwn upper ap d name) else None.
Definition noteIn (d : D) (ap : gmap string applied) (name : string) (info : FileInfo) : gmap string applied := noteApplied name (inLayer (Some upper) d name info) ap.
Abbreviation turn := (extractOne theirsOf carry noteIn).
Abbreviation loop := (extractWith theirsOf carry noteIn).

(** A batch runs, or fails having touched nothing. *)
Lemma Apply_loop mergedErr zstdErr rootErr codec es endErr d ap :
  Apply mergedErr zstdErr rootErr codec (Some upper) carry fill es endErr d ap = loop es endErr (Build_extracted d ap [] []) ∨
  ∃ er, Apply mergedErr zstdErr rootErr codec (Some upper) carry fill es endErr d ap = (Build_extracted d ap [] [], Some er).
Proof.
  unfold Apply. destruct mergedErr; [by eauto|]. destruct (decoded codec zstdErr); [by eauto|].
  rewrite andb_false_r. destruct rootErr; [by eauto|]. left. unfold theirsOf. by destruct fill.
Qed.

Lemma containersOwn_same n p d d' (ap ap' : gmap string applied) : within n = Ok p → upper d' p = upper d p → ap' !! n = ap !! n → containersOwn upper ap' d' n = containersOwn upper ap d n.
Proof. intros Hw Hn Ha. unfold containersOwn. rewrite Hw, Hn. destruct (upper d p) as [[i c]|]; [|done]. unfold isApplied. by rewrite Ha. Qed.

(** What has just been noted of a file is not taken for the container's. *)
Lemma noted_not_theirs d ap n i : containersOwn upper (noteIn d ap n i) d n = false.
Proof.
  unfold containersOwn, noteIn, inLayer, noteApplied, isApplied. destruct (within n) as [p|]; [|done]. destruct (upper d p) as [[j c]|]; [|done].
  rewrite lookup_insert_eq. cbn [ap_size ap_modTime ap_ctime]. rewrite !Z.eqb_refl. cbn. rewrite !orb_true_r. by destruct (negb (IsRegular j) && _).
Qed.

(** An entry that is not a link, with no link at its target or on the way to it. *)
Definition plain (d : D) (e : tarEntry) : Prop := te_Type e ≠ TypeSymlink ∧ ∀ t, within (te_Name e) = Ok t → reached d t.

Lemma turn_elsewhere (s s' : st) e err : turn s e = (s', err) → plain (ex_disk s) e →
  (∀ q, within (te_Name e) ≠ Ok q → is_Some (node (ex_disk s) q) → node (ex_disk s') q = node (ex_disk s) q) ∧
  (∀ q, reached (ex_disk s) q → reached (ex_disk s') q) ∧
  (∀ q n, within (te_Name e) ≠ Ok q → node (ex_disk s) q = Some n → n ≠ nDir → upper (ex_disk s') q = upper (ex_disk s) q) ∧
  (∀ n, n ≠ nameOf e → ex_note s' !! n = ex_note s !! n).
Proof.
  unfold extractOne. intros E [Hs Hp]. destruct (claims _ s e); [injection E as <- <-; cbn; auto|].
  destruct (writeEntry (ex_disk s) e) as [[d1 created] r] eqn:Ew.
  assert (((∃ t, within (te_Name e) = Ok t ∧ touches t (ex_disk s) (ex_disk s')) ∨ ex_disk s' = ex_disk s) ∧ (∀ n, n ≠ nameOf e → ex_note s' !! n = ex_note s !! n)) as [Ht Hnote].
  { split.
    - destruct (within (te_Name e)) as [t|er] eqn:Et.
      + left. exists t. split; [done|]. pose proof (writeEntry_touches _ _ _ _ _ _ Ew Hs Et (Hp t eq_refl)) as H1.
        destruct r as [[i|]|er]; [| |destruct (negb carry)]; injection E as <- <-; cbn [ex_disk]; try done.
        destruct created; [eapply touches_trans; [exact H1|apply removed_touches, reached_place; [by eapply within_clean|by eapply touches_reached; [|apply Hp]]]|done].
      + right. assert (d1 = ex_disk s) as -> by (apply (no_target_same _ _ _ _ _ Ew); intros t Ht; by rewrite Ht in Et).
        destruct r as [[i|]|er']; [| |destruct (negb carry)]; by injection E as <- <-.
    - intros n Hn. destruct r as [[i|]|er]; [| |destruct (negb carry)]; injection E as <- <-; cbn [ex_note]; try done. unfold noteIn, noteApplied. by rewrite lookup_insert_ne. }
  split_and!; [| | |done].
  - intros q Hq Hsome. destruct Ht as [(t & Et & [K _ _ _])| ->]; [|done]. apply K; [|done]. intros ->. done.
  - intros q Hq. destruct Ht as [(t & _ & Ht)| ->]; [by eapply touches_reached|auto].
  - intros q n Hq Hn Hd. destruct Ht as [(t & Et & [_ _ _ U])| ->]; [|done]. apply (U q n); [|done|done]. intros ->. done.
Qed.

Lemma turn_grows (s s' : st) e : turn s e = (s', None) → ex_kept s ⊆ ex_kept s' ∧ ex_skipped s ⊆ ex_skipped s'.
Proof using Type.
  clear CacheLayerLaws0 RootLaws0 RootFillLaws0. unfold extractOne. intros E. destruct (claims _ s e); [injection E as <-; cbn; set_solver|].
  destruct (writeEntry (ex_disk s) e) as [[d1 created] [[i|]|er]]; [| |destruct (negb carry); [done|]]; injection E as <-; cbn; set_solver.
Qed.

(** What a turn leaves of its own entry. *)
Definition outcome (e : tarEntry) (s : st) : Prop :=
  nameOf e ∈ ex_kept s ∨ nameOf e ∈ ex_skipped s ∨
  (∃ t perm t0, within (te_Name e) = Ok t ∧ node (ex_disk s) t = Some (nFile perm t0 (te_body e)) ∧ containersOwn upper (ex_note s) (ex_disk s) (nameOf e) = false).

Definition whole (e : tarEntry) : Prop := te_Type e = TypeReg ∧ te_Size e = Z.of_nat (strlen (te_body e)).

Lemma turn_outcome (s s' : st) e : turn s e = (s', None) → plain (ex_disk s) e → whole e → outcome e s'.
Proof.
  unfold extractOne, outcome. intros E [_ Hp] [Ht Hsz]. destruct (claims _ s e); [injection E as <-; left; cbn; set_solver|].
  destruct (writeEntry (ex_disk s) e) as [[d1 created] r] eqn:Ew. unfold writeEntry in Ew. rewrite Ht in Ew.
  destruct (within (te_Name e)) as [t|er] eqn:Et.
  - destruct (writeFile_touches _ _ _ _ _ _ Ew (within_clean _ _ Et) (Hp t eq_refl)) as [_ Hok]. destruct r as [i|er].
    + destruct (Hok i eq_refl Hsz) as (perm & t0 & Hn & ->). injection E as <-. right. right. exists t, perm, t0. split_and!; [done|done|apply noted_not_theirs].
    + destruct (negb carry); [done|]. injection E as <-. right. left. cbn. set_solver.
  - injection Ew as <- <- <-. destruct (negb carry); [done|]. injection E as <-. right. left. cbn. set_solver.
Qed.

Lemma plain_later (s s' : st) e err es : turn s e = (s', err) → plain (ex_disk s) e → Forall (plain (ex_disk s)) es → Forall (plain (ex_disk s')) es.
Proof.
  intros E Hp. intros Hall. apply (Forall_impl _ _ _ Hall). intros e2 [H1 H2]. destruct (turn_elsewhere _ _ _ _ E Hp) as (_ & Hl & _ & _). split; [done|]. intros t Ht. apply Hl; auto.
Qed.

(** ** Batches *)

Lemma outcome_stays (s s' : st) e e2 : turn s e2 = (s', None) → plain (ex_disk s) e2 → nameOf e2 ≠ nameOf e → outcome e s → outcome e s'.
Proof.
  intros E Hp Hne Ho. destruct (turn_grows _ _ _ E) as [Hk Hs]. destruct (turn_elsewhere _ _ _ _ E Hp) as (Hq & _ & Hup & Hnote).
  destruct Ho as [H1|[H1|(t & perm & t0 & Ht & Hn & Hc)]]; [left; auto|right; left; auto|]. right. right. exists t, perm, t0.
  assert (within (te_Name e2) ≠ Ok t) as Ht2 by (intros Ht2; apply Hne; by eapply nameOf_inj).
  assert (node (ex_disk s') t = node (ex_disk s) t) as Hsame by (apply Hq; [done|by rewrite Hn]).
  split_and!; [done|by rewrite Hsame|]. rewrite <- Hc. apply (containersOwn_same _ t); [by rewrite within_nameOf|by eapply Hup|auto].
Qed.

Lemma loop_keeps_outcome es endErr (s out : st) e :
  loop es endErr s = (out, None) → Forall (plain (ex_disk s)) es → nameOf e ∉ nameOf <$> es → outcome e s → outcome e out.
Proof.
  revert s. induction es as [|e2 es IH]; intros s E Hp Hn Ho; cbn [extractWith] in E; [by injection E as <- ->|].
  apply not_elem_of_cons in Hn as [Hn1 Hn2]. inversion_clear Hp as [|? ? Hp1 Hp2].
  destruct (turn s e2) as [s' [er|]] eqn:Et; [done|]. apply (IH s' E); [by eapply plain_later|done|]. by eapply outcome_stays.
Qed.

Lemma loop_lands es endErr (s out : st) :
  loop es endErr s = (out, None) → Forall (plain (ex_disk s)) es → Forall whole es → NoDup (nameOf <$> es) → ∀ e, e ∈ es → outcome e out.
Proof.
  revert s. induction es as [|e2 es IH]; intros s E Hp Hw Hnd e He; [by apply elem_of_nil in He|]. cbn [extractWith] in E. rewrite fmap_cons in Hnd.
  apply NoDup_cons in Hnd as [Hnd1 Hnd2]. inversion_clear Hp as [|? ? Hp1 Hp2]. inversion_clear Hw as [|? ? Hw1 Hw2].
  destruct (turn s e2) as [s' [er|]] eqn:Et; [done|]. pose proof (plain_later _ _ _ _ _ Et Hp1 Hp2) as Hp'.
  apply elem_of_cons in He as [->|He]; [|by eapply (IH s')]. eapply loop_keeps_outcome; [exact E|done|done|]. by eapply turn_outcome.
Qed.

(** A batch of regular files that lands without an error leaves each of them in
    one of three ways, for every carry and fill: named as the container's own and
    kept, named as skipped, or written whole, the longer file it may have
    replaced cut to size, and then not taken for something the container wrote. *)
Theorem batch_lands_or_names mergedErr zstdErr rootErr codec es endErr d ap out :
  Apply mergedErr zstdErr rootErr codec (Some upper) carry fill es endErr d ap = (out, None) →
  Forall (plain d) es → Forall whole es → NoDup (nameOf <$> es) → ∀ e, e ∈ es → outcome e out.
Proof.
  intros E Hp Hw Hn. destruct (Apply_loop mergedErr zstdErr rootErr codec es endErr d ap) as [El|[er El]]; rewrite El in E; [|done].
  exact (loop_lands es endErr (Build_extracted d ap [] []) out E Hp Hw Hn).
Qed.

End batch.

Section spares.
Context (carry : bool).
Abbreviation st := (extracted D (gmap string applied)).
Abbreviation turn := (extractOne (theirsOf true) carry noteIn).
Abbreviation loop := (extractWith (theirsOf true) carry noteIn).

(** The container's own at a name. *)
Definition ownAt (n p : string) (nd : Node) (s : st) : Prop := node (ex_disk s) p = Some nd ∧ nd ≠ nDir ∧ containersOwn upper (ex_note s) (ex_disk s) n = true.

Lemma turn_spares (s s' : st) e err n p nd : turn s e = (s', err) → plain (ex_disk s) e → within n = Ok p → n = "/" +:+ strings.TrimPrefix n "/" →
  ownAt n p nd s → ownAt n p nd s' ∧ (err = None → te_Type e = TypeReg → nameOf e = n → n ∈ ex_kept s').
Proof.
  intros E Hp Hw Hn (Hnd & Hdir & Hown). assert (within (te_Name e) = Ok p ∨ within (te_Name e) ≠ Ok p) as [Ht|Ht].
  { destruct (within (te_Name e)) as [t|]; [destruct (decide (t = p)) as [->|Hne]; [by left|right; congruence]|by right]. }
  - assert (nameOf e = n) as Hname by (rewrite Hn; exact (within_inj _ _ _ Ht Hw)). destruct (te_Type e) eqn:Ety.
    + unfold extractOne, claims, theirsOf in E. rewrite Ety, Hname, Hown in E. injection E as <- <-. split; [done|]. intros _ _ _. cbn. set_solver.
    + split; [|by intros]. pose proof (mkdirall_touches (p +:+ "x") p (ex_disk s)) as [K _ _ _]. pose proof (upper_mkdirall (ex_disk s) p p nd Hnd Hdir) as Hu.
      unfold extractOne, claims, theirsOf, writeEntry in E. rewrite Ety, Ht in E.
      assert (node (MkdirAll (ex_disk s) p).1 p = Some nd) as Hk.
      { rewrite K; [done| |by rewrite Hnd]. intros Hx. apply (f_equal strlen) in Hx. rewrite strlen_app' in Hx. cbn in Hx. lia. }
      destruct (MkdirAll (ex_disk s) p) as [d1 [er|]]; [destruct (negb carry)|]; injection E as <- <-; unfold ownAt; cbn [ex_disk ex_note fst] in *; (split_and!; [done|done|]); rewrite <- Hown; by apply (containersOwn_same _ p).
    + by destruct Hp as [[] _].
    + split; [|by intros]. unfold extractOne, claims, theirsOf, writeEntry in E. rewrite Ety, Ht in E. by injection E as <- <-.
  - destruct (turn_elsewhere true carry _ _ _ _ E Hp) as (Hq & _ & Hup & Hnote).
    assert (nameOf e ≠ n) as Hname by (intros Hx; apply Ht; rewrite <- Hw, <- Hx; by rewrite within_nameOf).
    assert (node (ex_disk s') p = node (ex_disk s) p) as Hsame by (apply Hq; [done|by rewrite Hnd]).
    split; [|by intros _ _ ?]. split_and!; [by rewrite Hsame|done|]. rewrite <- Hown. apply (containersOwn_same _ p); [done|by eapply Hup|auto].
Qed.

Lemma loop_spares es endErr n p nd (s out : st) err : loop es endErr s = (out, err) → Forall (plain (ex_disk s)) es → within n = Ok p → n = "/" +:+ strings.TrimPrefix n "/" →
  ownAt n p nd s → ownAt n p nd out ∧ (err = None → n ∈ ex_kept s ∨ (∃ e, e ∈ es ∧ te_Type e = TypeReg ∧ nameOf e = n) → n ∈ ex_kept out).
Proof.
  intros E Hp Hw Hn. revert s E Hp. induction es as [|e es IH]; intros s E Hp Ho; cbn [extractWith] in E.
  - injection E as <- ->. split; [done|]. intros _ [H1|(e & He & _)]; [done|by apply elem_of_nil in He].
  - inversion_clear Hp as [|? ? Hp1 Hp2]. destruct (turn s e) as [s' err1] eqn:Et.
    destruct (turn_spares _ _ _ _ _ _ _ Et Hp1 Hw Hn Ho) as [Ho' Hk]. pose proof (plain_later true carry _ _ _ _ _ Et Hp1 Hp2) as Hp'.
    destruct err1 as [er|]; [injection E as <- <-; by split|]. destruct (IH s' E Hp' Ho') as [H1 H2]. split; [done|]. intros He Hor. apply (H2 He).
    destruct Hor as [Hs|(e1 & [->|He1]%elem_of_cons & Hr)]; [left; by apply (turn_grows true carry _ _ _ Et)|left; destruct Hr; by apply Hk|right; eauto].
Qed.

(** C22 (safety). A fill never touches a file the container has its own version of: whatever
    files and directories the batch holds and however it ends, the file is as it
    was and still the container's, and a batch that ends well names it as kept
    when it held it.  It holds of batches that carry no links, on a mount where no
    link is at the target of an entry or among the directories above it: there the
    check looks at the name and the write follows the link. *)
Theorem fill_spares_containers_files mergedErr zstdErr rootErr codec es endErr d ap out err n p nd :
  Apply mergedErr zstdErr rootErr codec (Some upper) carry true es endErr d ap = (out, err) → Forall (plain d) es →
  within n = Ok p → n = "/" +:+ strings.TrimPrefix n "/" →
  node d p = Some nd → nd ≠ nDir → containersOwn upper ap d n = true →
  node (ex_disk out) p = Some nd ∧ containersOwn upper (ex_note out) (ex_disk out) n = true ∧
  (err = None → (∃ e, e ∈ es ∧ te_Type e = TypeReg ∧ nameOf e = n) → n ∈ ex_kept out).
Proof.
  intros E Hp Hw Hn Hnd Hdir Hown. destruct (Apply_loop true carry mergedErr zstdErr rootErr codec es endErr d ap) as [El|[er El]]; rewrite El in E; [|by injection E as <- <-].
  destruct (loop_spares es endErr n p nd (Build_extracted d ap [] []) out err E Hp Hw Hn (conj Hnd (conj Hdir Hown))) as [(H1 & _ & H2) H3]. auto.
Qed.

End spares.

End fill.
