(* ===== verification/Elevate.v ===== *)
(** * Running privileged (agent/internal/elevate/plan.go, docker.go)

    The workspace launches a privileged copy of its own container.  What it is
    launched with is a function of what the host says of the container; [RunSpec]
    is rendered here for the accounts' daemons too. *)

From Stdlib Require Import Ascii.
From S2P Require Import Prelude GoStrings Records.
Open Scope Z_scope.

Definition elevatedEnv : string := "WORKSPACE_ELEVATED".
Definition nameSuffix : string := ".elevated".
Definition ImageEnv : string := "WORKSPACE_IMAGE".

Record Mount := {
  mt_Type : string;
  mt_Name : string;
  mt_Source : string;
  mt_Destination : string;
  mt_ReadOnly : bool
}.

Definition nonEmpty (s : string) : bool := negb (bool_decide (s = ""%string)).

Definition mountArg (m : Mount) : string :=
  let source := if bool_decide (mt_Type m = "volume"%string) && nonEmpty (mt_Name m) then mt_Name m else mt_Source m in
  let spec := source +:+ ":" +:+ mt_Destination m in
  if mt_ReadOnly m then spec +:+ ":ro" else spec.

Record ContainerInfo := {
  ci_ID : string;
  ci_Name : string;
  ci_Image : string;
  ci_Mounts : list Mount;
  ci_Env : list string
}.

Record RunSpec := {
  rs_Name : string;
  rs_Image : string;
  rs_Network : string;
  rs_Entrypoint : string;
  rs_Privileged : bool;
  rs_Detach : bool;
  rs_Remove : bool;
  rs_Labels : list string;
  rs_Mounts : list Mount;
  rs_Env : list string;
  rs_Tmpfs : list string;
  rs_Command : list string
}.

(** An option with a value, when there is one. *)
Definition flag (f v : string) : list string := if nonEmpty v then [f; v] else [].
Definition each {A} (f : string) (v : A → string) (l : list A) : list string := l ≫= λ x, [f; v x].

Definition RunSpec_Args (s : RunSpec) : list string :=
  (["run"; if rs_Detach s then "-d" else "-i"]%string ++
   (if rs_Remove s then ["--rm"%string] else []) ++
   (if rs_Privileged s then ["--privileged"%string] else []) ++
   flag "--network" (rs_Network s) ++ flag "--entrypoint" (rs_Entrypoint s) ++ flag "--name" (rs_Name s) ++
   each "--label" id (rs_Labels s) ++ each "-e" id (rs_Env s) ++ each "-v" mountArg (rs_Mounts s) ++ each "--tmpfs" id (rs_Tmpfs s) ++
   [rs_Image s] ++ rs_Command s)%list.

Definition DefaultHostSocket : string := "/var/run/host-docker.sock".

(** [cmp.Or] of two texts. *)
Definition orText (a b : string) : string := if nonEmpty a then a else b.

Definition isHostSocket (hostSocket : string) (m : Mount) : bool :=
  bool_decide (mt_Destination m = hostSocket) || (strings.HasSuffix (mt_Destination m) "/docker.sock" || strings.HasSuffix (mt_Source m) "/docker.sock").

Definition childMounts (mounts : list Mount) (hostSocket : string) : list Mount := filter (λ m, isHostSocket hostSocket m = false) mounts.

Definition childEnv (env : list string) (image : string) : list string :=
  ((if nonEmpty image then [ImageEnv +:+ "=" +:+ image] else []) ++
   filter (λ e, strings.HasPrefix e (elevatedEnv +:+ "=") = false) env ++ [elevatedEnv +:+ "=1"])%list.

Definition childName (name : string) : string :=
  let name := strings.TrimPrefix name "/" in if nonEmpty name then name +:+ nameSuffix else "".

Definition isElevated (env : list string) : bool :=
  existsb (λ e, match strings.Cut e "="%char with Some (name, value) => bool_decide (name = elevatedEnv) && nonEmpty value | None => false end) env.

Inductive elevateError := NoContainer | NoImage | AlreadyElevated.

(** [Plan]; [hostSocket] is the option of that name. *)
Definition elevatePlan (self : ContainerInfo) (hostSocket : string) : res elevateError RunSpec :=
  if negb (nonEmpty (ci_ID self)) && negb (nonEmpty (ci_Name self)) then Err NoContainer
  else if negb (nonEmpty (ci_Image self)) then Err NoImage
  else if isElevated (ci_Env self) then Err AlreadyElevated
  else Ok {| rs_Name := childName (ci_Name self); rs_Image := ci_Image self; rs_Network := "container:" +:+ orText (ci_ID self) (ci_Name self);
             rs_Entrypoint := ""; rs_Privileged := true; rs_Detach := false; rs_Remove := true; rs_Labels := [];
             rs_Mounts := childMounts (ci_Mounts self) (orText hostSocket DefaultHostSocket); rs_Env := childEnv (ci_Env self) (ci_Image self);
             rs_Tmpfs := []; rs_Command := [] |}.

(** docker.go: [containerIDFromMountinfo], on the lines of the file. *)
Definition hexByte (a : ascii) : bool :=
  let n := nat_of_ascii a in ((48 <=? n) && (n <=? 57) || (97 <=? n) && (n <=? 102) || (65 <=? n) && (n <=? 70))%nat.

(** [strings.Cut] at a text. *)
Fixpoint cutText (s sep : string) : option string :=
  match strings.CutPrefix s sep with
  | Some rest => Some rest
  | None => match s with String _ s' => cutText s' sep | EmptyString => None end
  end.

Definition beforeSlash (s : string) : string := match strings.Cut s "/"%char with Some (a, _) => a | None => s end.

Fixpoint containerIDFromMountinfo (lines : list string) : string :=
  match lines with
  | [] => ""
  | line :: lines' =>
      match cutText line "/containers/" with
      | None => containerIDFromMountinfo lines'
      | Some rest => let cid := beforeSlash rest in
                     if bool_decide (strlen cid = 64%nat) && everyByte hexByte cid then cid else containerIDFromMountinfo lines'
      end
  end.

(** [selfRef] and [Run]'s part before the launch: the reference, or what is run.
    [mountinfo] is the file's lines, none when it cannot be read; [inspect] the host's
    answer. *)
Definition selfRef (selfEnv : string) (mountinfo : option (list string)) (hostname : option string) : string :=
  if nonEmpty selfEnv then selfEnv
  else let cid := match mountinfo with Some lines => containerIDFromMountinfo lines | None => ""%string end in
       if nonEmpty cid then cid else default ""%string hostname.

(** ** The child is elevated once, and never holds the host's socket *)

Lemma isElevated_child env image : isElevated (childEnv env image) = true.
Proof.
  unfold isElevated, childEnv. apply existsb_exists. exists (elevatedEnv +:+ "=1").
  split; [apply list_elem_of_In; set_solver|vm_compute; reflexivity].
Qed.

(** A privileged child is never given the host's docker socket, whatever the
    container it copies had mounted and wherever: no mount of it leads to the
    configured place, and none has a source or a destination named docker.sock.
    And the child cannot elevate again: whatever else the host says of a container
    with the child's environment, its plan is refused. *)
Theorem elevated_child_is_confined self hostSocket spec : elevatePlan self hostSocket = Ok spec →
  (∀ m, m ∈ rs_Mounts spec → m ∈ ci_Mounts self ∧ mt_Destination m ≠ orText hostSocket DefaultHostSocket ∧
     strings.HasSuffix (mt_Destination m) "/docker.sock" = false ∧ strings.HasSuffix (mt_Source m) "/docker.sock" = false) ∧
  (∀ child hostSocket', ci_Env child = rs_Env spec → ∀ s, elevatePlan child hostSocket' ≠ Ok s).
Proof.
  unfold elevatePlan. destruct (_ && _); [done|]. destruct (negb _); [done|]. destruct (isElevated (ci_Env self)); [done|].
  intros [= <-]. split.
  - cbn [rs_Mounts]. unfold childMounts. intros m [Hs Hm]%list_elem_of_filter. unfold isHostSocket in Hs.
    apply orb_false_iff in Hs as [Hd [H1 H2]%orb_false_iff]. split_and!; [done| |done|done]. by apply bool_decide_eq_false in Hd.
  - cbn [rs_Env]. intros child hs He s. rewrite He, isElevated_child. by destruct (negb (nonEmpty (ci_ID child)) && _), (negb (nonEmpty (ci_Image child))).
Qed.

(** A directory that holds the socket is not the socket: it is mounted. *)
Lemma socket_directory_passes :
  isHostSocket DefaultHostSocket {| mt_Type := "bind"; mt_Name := ""; mt_Source := "/var/run"; mt_Destination := "/host/run"; mt_ReadOnly := false |} = false.
Proof. reflexivity. Qed.
