(* ===== verification/DaemonPlan.v ===== *)
(** * The daemon of an account, planned (agent/internal/daemons/plan.go)

    What an account's daemon is launched with, the digest that says what it was
    created from, and the settings' parsers.  The hash is an argument. *)

From Stdlib Require Import Ascii.
From S2P Require Import Prelude GoStrings Records Elevate.
Open Scope Z_scope.

Definition DefaultImage : string := "docker:28-dind".
Definition Entrypoint : string := "dockerd-entrypoint.sh".
Definition SocketDir : string := "/run/rd".
Definition socketMount : string := "/rd-sock".
Definition socketName : string := "docker.sock".
Definition ExecRoot : string := "/var/run/docker".
Definition ManagedLabel : string := "remote-docker.daemon".
Definition AccountLabel : string := "remote-docker.account".
Definition WorkspaceLabel : string := "remote-docker.workspace".
Definition specLabel : string := "remote-docker.spec".
Definition storageLabel : string := "remote-docker.storage-driver".

Record Spec := {
  sp_Name : string;
  sp_Image : string;
  sp_Entrypoint : string;
  sp_Privileged : bool;
  sp_Labels : list string;
  sp_Mounts : list Mount;
  sp_Env : list string;
  sp_Tmpfs : list string;
  sp_Command : list string
}.

Record Options := {
  op_Image : string;
  op_Workspace : string;
  op_Mounts : list Mount;
  op_StorageDriver : string
}.

Definition ContainerName (account : string) : string := "rd-dind-" +:+ account.
Definition VolumeName (account : string) : string := "rd-dind-" +:+ account +:+ "-lib".
Definition SocketPathFor (account : string) : string := SocketDir +:+ "/" +:+ account +:+ "/" +:+ socketName.
Definition HostFor (account : string) : string := "unix://" +:+ SocketPathFor account.

Definition Spec_Args (s : Spec) : list string :=
  RunSpec_Args {| rs_Name := sp_Name s; rs_Image := sp_Image s; rs_Network := ""; rs_Entrypoint := sp_Entrypoint s; rs_Privileged := sp_Privileged s;
                  rs_Detach := true; rs_Remove := false; rs_Labels := sp_Labels s; rs_Mounts := sp_Mounts s; rs_Env := sp_Env s; rs_Tmpfs := sp_Tmpfs s;
                  rs_Command := sp_Command s |}.

Definition with_labels (f : list string → list string) (s : Spec) : Spec :=
  {| sp_Name := sp_Name s; sp_Image := sp_Image s; sp_Entrypoint := sp_Entrypoint s; sp_Privileged := sp_Privileged s; sp_Labels := f (sp_Labels s);
     sp_Mounts := sp_Mounts s; sp_Env := sp_Env s; sp_Tmpfs := sp_Tmpfs s; sp_Command := sp_Command s |}.

(** What [Fingerprint] writes into its hash: each argument but its own label, with
    a zero byte behind it. *)
Definition zeroByte : string := String "000" "".
Definition isSpecLabel (arg : string) : bool := strings.HasPrefix arg (specLabel +:+ "=").
Definition digested (args : list string) : string := foldr (λ a t, a +:+ zeroByte +:+ t) ""%string (filter (λ a, isSpecLabel a = false) args).

Section plan.
(** SHA-256 in hex. *)
Context (sha256 : string → string).

Definition Fingerprint (s : Spec) : string := String.substring 0 16 (sha256 (digested (Spec_Args s))).

Inductive planError := NoAccount | BadAccount (account : string).

(** [strings.ContainsAny(account, "/ \t")]. *)
Definition unusable (account : string) : bool :=
  strings.Contains account "/"%char || strings.Contains account " "%char || strings.Contains account "009"%char.

Definition dindCommand (driver : string) : list string :=
  (["dockerd"; "-H"; "unix://" +:+ socketMount +:+ "/" +:+ socketName; "-H"; "unix:///var/run/docker.sock"]%string ++ flag "--storage-driver" driver)%list.

Definition planLabels (account : string) (opts : Options) : list string :=
  ([ManagedLabel +:+ "=1"; AccountLabel +:+ "=" +:+ account; storageLabel +:+ "=" +:+ op_StorageDriver opts; specLabel +:+ "="] ++
   (if nonEmpty (op_Workspace opts) then [WorkspaceLabel +:+ "=" +:+ op_Workspace opts] else []))%list.

Definition planned (account : string) (opts : Options) : Spec :=
  {| sp_Name := ContainerName account; sp_Image := orText (op_Image opts) DefaultImage; sp_Entrypoint := Entrypoint; sp_Privileged := true;
     sp_Labels := planLabels account opts;
     sp_Mounts := ([{| mt_Type := "bind"; mt_Name := ""; mt_Source := SocketDir +:+ "/" +:+ account; mt_Destination := socketMount; mt_ReadOnly := false |};
                    {| mt_Type := "volume"; mt_Name := VolumeName account; mt_Source := ""; mt_Destination := "/var/lib/docker"; mt_ReadOnly := false |}] ++
                   op_Mounts opts)%list;
     sp_Env := ["DOCKER_TLS_CERTDIR="%string]; sp_Tmpfs := [ExecRoot +:+ ":rw,exec,mode=755"]; sp_Command := dindCommand (op_StorageDriver opts) |}.

(** The loop that stamps the digest in the label left for it; it digests the
    spec with the labels it has stamped so far. *)
Fixpoint stampFrom (i : nat) (n : nat) (s : Spec) : Spec :=
  match n with
  | O => s
  | S n' =>
      let s' := if bool_decide (sp_Labels s !! i = Some (specLabel +:+ "=")) then with_labels <[i := specLabel +:+ "=" +:+ Fingerprint s]> s else s in
      stampFrom (S i) n' s'
  end.

Definition Plan (account : string) (opts : Options) : res planError Spec :=
  if negb (nonEmpty account) then Err NoAccount
  else if unusable account then Err (BadAccount account)
  else let s := planned account opts in Ok (stampFrom 0 (length (sp_Labels s)) s).

End plan.

(** ** Settings *)

Fixpoint StorageDriverFrom (args : list string) : string :=
  match args with
  | [] => ""
  | arg :: rest =>
      match strings.CutPrefix arg "--storage-driver=" with
      | Some v => v
      | None => match rest with
                | next :: _ => if bool_decide (arg = "--storage-driver"%string) then next else StorageDriverFrom rest
                | [] => StorageDriverFrom rest
                end
      end
  end.

Inductive mountsError :=
| MountShape (entry : string)
| MountOption (entry option : string)
| MountRelative (entry : string)
| MountTaken (entry destination : string).

(** One entry of [ParseMounts], trimmed. *)
Definition parseMountEntry (entry : string) : res mountsError Mount :=
  let mount source destination (options : option string) :=
    if match options with Some o => negb (bool_decide (o = "ro"%string)) && negb (bool_decide (o = "rw"%string)) | None => false end
    then Err (MountOption entry (default ""%string options))
    else if negb (strings.HasPrefix source "/") || negb (strings.HasPrefix destination "/") then Err (MountRelative entry)
    else if bool_decide (path.Clean destination = socketMount) || bool_decide (path.Clean destination = "/var/lib/docker"%string)
    then Err (MountTaken entry destination)
    else Ok {| mt_Type := "bind"; mt_Name := ""; mt_Source := source; mt_Destination := destination; mt_ReadOnly := bool_decide (options = Some "ro"%string) |} in
  match strings.Split entry ":"%char with
  | [source; destination] => mount source destination None
  | [source; destination; o] => mount source destination (Some o)
  | _ => Err (MountShape entry)
  end.

Definition ParseMounts (spec : string) : res mountsError (list Mount) :=
  foldRes (λ acc entry, let entry := strings.TrimSpace entry in
             if nonEmpty entry then let? m := parseMountEntry entry in Ok (acc ++ [m])%list else Ok acc) [] (strings.Split spec ","%char).

Definition MissingSources (stat : string → bool) (mounts : list Mount) : list Mount := filter (λ m, stat (mt_Source m) = false) mounts.
Definition DaemonPaths (perAccount : bool) (mounts : list Mount) : list string := (if perAccount then mt_Destination else mt_Source) <$> mounts.
Definition UnmountedRemaps (mounts : list Mount) : list Mount := filter (λ m, mt_Source m ≠ mt_Destination m) mounts.

(** runner.go: [labelValue]. *)
Fixpoint labelIn (parts : list string) (key : string) : string :=
  match parts with
  | [] => ""
  | l :: rest => match strings.Cut (strings.TrimSpace l) "="%char with
                 | Some (name, value) => if bool_decide (name = key) then value else labelIn rest key
                 | None => labelIn rest key
                 end
  end.
Definition labelValue (labels key : string) : string := labelIn (strings.Split labels ","%char) key.
