(* ===== verification/Daemons.v ===== *)
(** * The daemons of the accounts (agent/internal/daemons/runner.go, target.go)

    What the manager asks of docker and of the disk, and what it has them do, is a
    program of [io]: a question or a command with what follows each answer.  [runs]
    says what a program may answer with and which events it leaves, whatever the
    answers are; [exec] runs it against given ones.

    The manager's own state is behind a mutex: each hold is a definition, and [step]
    interleaves the callers of [ensure] with [Adopt], [Reset] and the clock.  A
    daemon is known by a number where the code has its pointer. *)
From Stdlib Require Import Ascii.
From S2P Require Import Prelude GoStrings GoTime Records KeyFiles Elevate DaemonPlan.

Open Scope Z_scope.

(** ** Questions and commands *)

Inductive query :=
| QLabel (name label : string)
| QStatus (name : string)
| QPid (name : string)
| QStatusPid (name : string)
| QStat (path : string)
| QVersion (account : string)
| QPs (account : string)
| QLogs (name : string)
| QManaged (workspace : string)
| QVolumes (filter : option string).

Inductive cmd :=
| CMkdir (path : string) (mode : Z)
| CChmod (path : string) (mode : Z)
| CHandOver (account socket : string)
| CVolumeCreate (labels : list string) (name : string)
| CRun (args : list string)
| CStart (name : string)
| CStop (name : string)
| CRemove (name : string)
| CVolumeRemove (name : string).

(** [Ask] is answered with the output, or not at all; [Do] with an error, if there
    is one; [Clock] with the time; [Given] says whether the caller has given up. *)
Inductive io (A : Type) :=
| Ret (a : A)
| Ask (q : query) (k : option string → io A)
| Do (c : cmd) (k : option string → io A)
| Clock (k : Time → io A)
| Given (k : bool → io A).
Arguments Ret {A}. Arguments Ask {A}. Arguments Do {A}. Arguments Clock {A}. Arguments Given {A}.

Fixpoint io_bind {A B} (m : io A) (f : A → io B) : io B :=
  match m with
  | Ret a => f a
  | Ask q k => Ask q (λ x, io_bind (k x) f)
  | Do c k => Do c (λ x, io_bind (k x) f)
  | Clock k => Clock (λ x, io_bind (k x) f)
  | Given k => Given (λ x, io_bind (k x) f)
  end.
#[export] Instance io_mbind : MBind io := λ A B f m, io_bind m f.

Definition ask (q : query) : io (option string) := Ask q Ret.
Definition do_ (c : cmd) : io (option string) := Do c Ret.
Definition clock : io Time := Clock Ret.
Definition gaveUp : io bool := Given Ret.

Inductive event :=
| EAsked (q : query) (answer : option string)
| EDid (c : cmd) (error : option string)
| ETime (t : Time)
| EGiven (b : bool).

#[export] Instance query_eq_dec : EqDecision query.
Proof. solve_decision. Defined.
#[export] Instance cmd_eq_dec : EqDecision cmd.
Proof. solve_decision. Defined.
#[export] Instance event_eq_dec : EqDecision event.
Proof. solve_decision. Defined.

Inductive runs {A} : io A → list event → A → Prop :=
| runs_ret a : runs (Ret a) [] a
| runs_ask q k x tr a : runs (k x) tr a → runs (Ask q k) (EAsked q x :: tr) a
| runs_do c k x tr a : runs (k x) tr a → runs (Do c k) (EDid c x :: tr) a
| runs_clock k t tr a : runs (k t) tr a → runs (Clock k) (ETime t :: tr) a
| runs_given k b tr a : runs (k b) tr a → runs (Given k) (EGiven b :: tr) a.

(** Answers, each from what has happened so far, latest first. *)
Record answers := {
  an_ask : list event → query → option string;
  an_do : list event → cmd → option string;
  an_clock : list event → Time;
  an_given : list event → bool
}.

Fixpoint exec {A} (w : answers) (past : list event) (m : io A) : list event * A :=
  let next e k := let '(tr, a) := exec w (e :: past) k in (e :: tr, a) in
  match m with
  | Ret a => ([], a)
  | Ask q k => let x := an_ask w past q in next (EAsked q x) (k x)
  | Do c k => let x := an_do w past c in next (EDid c x) (k x)
  | Clock k => let x := an_clock w past in next (ETime x) (k x)
  | Given k => let x := an_given w past in next (EGiven x) (k x)
  end.

(** ** Reading docker's answers *)

(** [fmt.Sscanf]'s [%s] and [%d]: blanks are skipped, a line's end is not. *)
Definition blank (a : ascii) : bool := let n := nat_of_ascii a in ((n =? 32) || (n =? 9) || (n =? 11) || (n =? 12) || (n =? 13))%nat.
Fixpoint word (s : string) : string * string :=
  match s with
  | String a s' => if blank a || bool_decide (a = newline) then (""%string, s) else let '(w, r) := word s' in (String a w, r)
  | EmptyString => (""%string, ""%string)
  end.
Definition scanWord (s : string) : option (string * string) :=
  let '(w, r) := word (strings.TrimLeftFunc blank s) in if nonEmpty w then Some (w, r) else None.
Fixpoint leadingDigits (s : string) : string :=
  match s with String a s' => match digit a with Some _ => String a (leadingDigits s') | None => "" end | EmptyString => "" end.
Definition scanInt (s : string) : option Z :=
  let s := strings.TrimLeftFunc blank s in
  let '(sign, s) := match s with
                    | String a s' => if bool_decide (a = "-"%char) then ("-"%string, s') else if bool_decide (a = "+"%char) then ("+"%string, s') else (""%string, s)
                    | EmptyString => (""%string, s)
                    end in
  Atoi (sign +:+ leadingDigits s).
Definition scanStatusPid (s : string) : option (string * Z) :=
  '(status, rest) ← scanWord s; pid ← scanInt rest; Some (status, pid).

Definition noValue : string := "<no value>".

(** ** Daemons *)

Record Daemon := {
  dm_Account : string;
  dm_PID : Z;
  dm_Socket : string;
  dm_checked : Time
}.

Definition NetNSPath (d : Daemon) : string := "/proc/" +:+ Itoa (dm_PID d) +:+ "/ns/net".
Definition netnsRoot (pid : Z) : string := if pid =? 0 then "/" else "/proc/" +:+ Itoa pid +:+ "/root".

Record Target := {
  ta_Socket : string;
  ta_Host : string;
  ta_NetNSPath : string;
  ta_Root : string;
  ta_PID : Z
}.
Definition target (d : Daemon) : Target :=
  {| ta_Socket := dm_Socket d; ta_Host := HostFor (dm_Account d); ta_NetNSPath := NetNSPath d; ta_Root := netnsRoot (dm_PID d); ta_PID := dm_PID d |}.
(** [Shared]'s target, the same for everybody. *)
Definition sharedTarget (socket : string) : Target :=
  {| ta_Socket := orText socket "/var/run/docker.sock"; ta_Host := ""; ta_NetNSPath := ""; ta_Root := "/"; ta_PID := 0 |}.

Definition aliveTTL : Duration := 2 * Second.
Definition failTTL : Duration := 5 * Second.
Definition DefaultReadyTimeout : Duration := 180 * Second.
Definition pollEvery : Duration := 200 * Millisecond.

Section manager.
(** The options, the hash, the reading of a row of docker's listing and the budget
    that was set. *)
Context (opts : Options) (sha256 : string → string) (rowOf : string → option (string * string)) (ReadyTimeout : Duration).

Definition readyTimeout : Duration := if 0 <? ReadyTimeout then ReadyTimeout else DefaultReadyTimeout.

Definition state (name : string) : io string := out ← ask (QStatus name); Ret (default ""%string out).
Definition pid (name : string) : io (option Z) := out ← ask (QPid name); Ret (o ← out; scanInt o).

Definition runningInside (account : string) : io Z :=
  out ← ask (QPs account);
  Ret match out with
      | None => -1
      | Some o => let o := strings.TrimSpace o in if nonEmpty o then Z.of_nat (length (strings.Split o newline)) else 0
      end.

Definition idle (account name : string) : io bool :=
  st ← state name;
  if negb (bool_decide (st = "running"%string)) then Ret true
  else n ← runningInside account; Ret (n =? 0).

Definition storageChanged (name : string) : io bool :=
  was ← ask (QLabel name storageLabel);
  Ret match was with
      | None => false
      | Some was => negb (bool_decide (was = noValue)) && negb (bool_decide (was = op_StorageDriver opts))
      end.

Definition reconcile (account : string) (spec : Spec) : io unit :=
  was ← ask (QLabel (sp_Name spec) specLabel);
  match was with
  | None => Ret tt
  | Some was =>
      if bool_decide (was = noValue) || bool_decide (was = Fingerprint sha256 spec) then Ret tt
      else
        changed ← storageChanged (sp_Name spec);
        if changed : bool then Ret tt
        else
          idles ← idle account (sp_Name spec);
          if idles : bool then _ ← do_ (CRemove (sp_Name spec)); Ret tt else Ret tt
  end.

Definition alive (d : Daemon) : io bool :=
  st ← ask (QStat (dm_Socket d));
  match st with
  | None => Ret false
  | Some _ =>
      out ← ask (QStatusPid (ContainerName (dm_Account d)));
      Ret match out ≫= scanStatusPid with
          | None => false
          | Some (status, p) => bool_decide (status = "running"%string) && (0 <? p) && (p =? dm_PID d)
          end
  end.

Definition lastWords (name : string) : io string :=
  out ← ask (QLogs name);
  Ret match out with
      | Some o => let o := strings.TrimSpace o in if nonEmpty o then " It last said:" +:+ String newline o else ""%string
      | None => ""%string
      end.

(** One look of [await]. *)
Definition look1 (account name : string) : io (option Daemon) :=
  let socket := SocketPathFor account in
  st ← ask (QStat socket);
  match st with
  | None => Ret None
  | Some _ =>
      p ← pid name;
      match p with
      | None => Ret None
      | Some p =>
          if 0 <? p then
            _ ← do_ (CHandOver account socket);
            v ← ask (QVersion account);
            Ret match v with Some _ => Some {| dm_Account := account; dm_PID := p; dm_Socket := socket; dm_checked := zeroTime |} | None => None end
          else Ret None
      end
  end.

Inductive startError :=
| ErrPlan (e : planError)
| ErrCommand (text : string)
| ErrNoAnswer (name words : string)
| ErrGaveUp (name words : string)
| ErrFuel.

(** [await]: each round looks, and waits unless its time is up or the caller has
    given up. *)
Fixpoint await (fuel : nat) (account name : string) (deadline : Time) : io (res startError Daemon) :=
  match fuel with
  | O => Ret (Err ErrFuel)
  | S fuel' =>
      d ← look1 account name;
      match d with
      | Some d => Ret (Ok d)
      | None =>
          now ← clock;
          if After now deadline then words ← lastWords name; Ret (Err (ErrNoAnswer name words))
          else
            given ← gaveUp;
            if given : bool then words ← lastWords name; Ret (Err (ErrGaveUp name words))
            else await fuel' account name deadline
      end
  end.

(** The rounds [await] can have: the budget, in waits. *)
Definition awaitFuel : nat := Z.to_nat (readyTimeout / pollEvery + 2).

(** A command whose error ends the start. *)
Definition must (c : cmd) (k : io (res startError Daemon)) : io (res startError Daemon) :=
  e ← do_ c; match e with Some t => Ret (Err (ErrCommand t)) | None => k end.

Definition start (account : string) : io (res startError Daemon) :=
  match Plan sha256 account opts with
  | Err e => Ret (Err (ErrPlan e))
  | Ok spec =>
      must (CMkdir SocketDir 493) (
      must (CChmod SocketDir 493) (
      must (CMkdir (SocketDir +:+ "/" +:+ account) 488) (
      must (CVolumeCreate [ManagedLabel +:+ "=1"; AccountLabel +:+ "=" +:+ account] (VolumeName account)) (
        _ ← reconcile account spec;
        st ← state (sp_Name spec);
        let then_ := now ← clock; await awaitFuel account (sp_Name spec) (Add now readyTimeout) in
        if bool_decide (st = "running"%string) then then_
        else if bool_decide (st = ""%string) then must (CRun (Spec_Args spec)) then_
        else must (CStart (sp_Name spec)) then_))))
  end.

(** ** The workspace's daemons together *)

Definition managed : io (option (list (string * string))) :=
  out ← ask (QManaged (op_Workspace opts));
  Ret (o ← out; Some (omap (λ line, if nonEmpty line then rowOf line else None) (strings.Split o newline))).

Fixpoint stopEach (rows : list (string * string)) (stopped : Z) : io Z :=
  match rows with
  | [] => Ret stopped
  | (labels, st) :: rows' =>
      let account := labelValue labels AccountLabel in
      if negb (bool_decide (st = "running"%string)) && negb (bool_decide (st = "restarting"%string)) || negb (nonEmpty account) then stopEach rows' stopped
      else e ← do_ (CStop (ContainerName account)); match e with Some _ => stopEach rows' stopped | None => stopEach rows' (stopped + 1) end
  end.

Definition StopStrays : io (option Z) :=
  if negb (nonEmpty (op_Workspace opts)) then Ret None
  else rows ← managed; match rows with None => Ret None | Some rows => n ← stopEach rows 0; Ret (Some n) end.

(** What [Adopt] registers. *)
Fixpoint adoptEach (rows : list (string * string)) : io (list Daemon) :=
  match rows with
  | [] => Ret []
  | (labels, _) :: rows' =>
      let account := labelValue labels AccountLabel in
      if negb (nonEmpty account) then adoptEach rows'
      else
        p ← pid (ContainerName account);
        match p with
        | Some p => if 0 <? p then rest ← adoptEach rows';
                                   Ret ({| dm_Account := account; dm_PID := p; dm_Socket := SocketPathFor account; dm_checked := zeroTime |} :: rest)
                    else adoptEach rows'
        | None => adoptEach rows'
        end
  end.
Definition Adopt : io (option (list Daemon)) :=
  rows ← managed; match rows with None => Ret None | Some rows => ds ← adoptEach rows; Ret (Some ds) end.

Definition Accounts : io (option (list string)) :=
  rows ← managed;
  Ret (r ← rows; Some (sort_strings (filter (λ a, nonEmpty a = true) ((λ row : string * string, labelValue row.1 AccountLabel) <$> r)))).

Definition Exists (account : string) : io bool := st ← state (ContainerName account); Ret (nonEmpty st).
Definition Running (account : string) : io Z :=
  st ← state (ContainerName account); if bool_decide (st = "running"%string) then runningInside account else Ret 0.

(** [strings.Fields] of a listing holds a name. *)
Definition listedIn (out : option string) (name : string) : bool :=
  match out with Some o => bool_decide (name ∈ Fields o) | None => false end.

Inductive resetError := ResetPlan (e : planError) | ResetListing | ResetCommand (text : string) | ResetForeign.

Definition removeStorage (account : string) : io (option resetError) :=
  let name := VolumeName account in
  ours ← ask (QVolumes (Some account));
  match ours return io (option resetError) with
  | None => Ret (Some ResetListing)
  | Some _ =>
      if listedIn ours name then io_bind (do_ (CVolumeRemove name)) (λ e, Ret (ResetCommand <$> e))
      else
        io_bind (ask (QVolumes None)) (λ all,
          match all with
          | None => Ret (Some ResetListing)
          | Some _ => Ret (if listedIn all name then Some ResetForeign else None)
          end)
  end.

Definition Reset (account : string) (purge : bool) : io (option resetError) :=
  match Plan sha256 account opts with
  | Err e => Ret (Some (ResetPlan e))
  | Ok _ =>
      _ ← do_ (CRemove (ContainerName account));
      if purge then removeStorage account else Ret None
  end.

End manager.

(** * The daemons of the accounts: nothing of an account's is lost, and a start ends *)

Open Scope Z_scope.

(** ** Programs and their traces *)

Lemma runs_Ask {A} q (k : option string → io A) tr a : runs (Ask q k) tr a → ∃ x tr', tr = EAsked q x :: tr' ∧ runs (k x) tr' a.
Proof. inversion 1; subst; eauto. Qed.
Lemma runs_Do {A} c (k : option string → io A) tr a : runs (Do c k) tr a → ∃ x tr', tr = EDid c x :: tr' ∧ runs (k x) tr' a.
Proof. inversion 1; subst; eauto. Qed.
Lemma runs_Ret {A} (x : A) tr a : runs (Ret x) tr a → tr = [] ∧ x = a.
Proof. inversion 1; subst; eauto. Qed.
Lemma runs_Clock {A} (k : Time → io A) tr a : runs (Clock k) tr a → ∃ x tr', tr = ETime x :: tr' ∧ runs (k x) tr' a.
Proof. inversion 1; subst; eauto. Qed.
Lemma runs_Given {A} (k : bool → io A) tr a : runs (Given k) tr a → ∃ x tr', tr = EGiven x :: tr' ∧ runs (k x) tr' a.
Proof. inversion 1; subst; eauto. Qed.

Lemma runs_bind {A B} (m : io A) (f : A → io B) tr b :
  runs (io_bind m f) tr b → ∃ tr1 a tr2, tr = (tr1 ++ tr2)%list ∧ runs m tr1 a ∧ runs (f a) tr2 b.
Proof.
  revert tr. induction m as [a|q k IH|c k IH|k IH|k IH]; cbn [io_bind]; intros tr H.
  - exists [], a, tr. split_and!; [done|constructor|done].
  - apply runs_Ask in H as (x & tr' & -> & H). apply IH in H as (tr1 & a & tr2 & -> & H1 & H2). exists (EAsked q x :: tr1), a, tr2. split_and!; [done|by constructor|done].
  - apply runs_Do in H as (x & tr' & -> & H). apply IH in H as (tr1 & a & tr2 & -> & H1 & H2). exists (EDid c x :: tr1), a, tr2. split_and!; [done|by constructor|done].
  - apply runs_Clock in H as (x & tr' & -> & H). apply IH in H as (tr1 & a & tr2 & -> & H1 & H2). exists (ETime x :: tr1), a, tr2. split_and!; [done|by constructor|done].
  - apply runs_Given in H as (x & tr' & -> & H). apply IH in H as (tr1 & a & tr2 & -> & H1 & H2). exists (EGiven x :: tr1), a, tr2. split_and!; [done|by constructor|done].
Qed.

(** Running against given answers is one way to run. *)
Lemma exec_runs {A} w past (m : io A) tr a : exec w past m = (tr, a) → runs m tr a.
Proof.
  revert past tr. induction m as [x|q k IH|c k IH|k IH|k IH]; cbn [exec]; intros past tr H; [injection H as <- <-; constructor|..];
    (destruct (exec w _ _) as [tr' b] eqn:E; injection H as <- <-; apply IH in E; by constructor).
Qed.

(** Takes one question, command, reading or end off a run. *)
Ltac run_step H :=
  cbn [mbind io_mbind io_bind ask do_ clock gaveUp] in H;
  lazymatch type of H with
  | runs (Ask _ _) _ _ => apply runs_Ask in H as (? & ? & -> & H); cbn beta iota in H
  | runs (Do _ _) _ _ => apply runs_Do in H as (? & ? & -> & H); cbn beta iota in H
  | runs (Clock _) _ _ => apply runs_Clock in H as (? & ? & -> & H); cbn beta iota in H
  | runs (Given _) _ _ => apply runs_Given in H as (? & ? & -> & H); cbn beta iota in H
  | runs (Ret _) _ _ => apply runs_Ret in H as [-> <-]
  end.

Ltac no_ret H := apply runs_Ret in H as [_ H]; discriminate H.

Lemma runs_must (c : cmd) (k : io (res startError Daemon)) tr r : runs (must c k) tr r →
  ∃ x tr', tr = EDid c x :: tr' ∧ (tr' = [] ∧ (∃ t, r = Err (ErrCommand t)) ∨ x = None ∧ runs k tr' r).
Proof. unfold must. intros H. run_step H. eexists _, _. split; [done|]. destruct x; [run_step H; eauto|auto]. Qed.

Section manager.
Context (opts : Options) (sha256 : string → string) (ReadyTimeout : Duration).

(** ** What a command needs to have been answered first *)

Definition quiet (e : event) : Prop := match e with EDid (CRemove _) _ | EDid (CVolumeRemove _) _ => False | _ => True end.

(** What was asked right before a daemon may be replaced.  Its settings are known to be
    others.  Its driver is not known to be another: docker answered that it is the
    same or was not recorded, or did not answer.  It is not known to run: docker
    answered with another state, or did not answer; or it runs, and its own daemon
    answered that nothing runs in it. *)
Definition licence (account : string) (spec : Spec) (last : list event) : Prop :=
  ∃ was sto st inside,
    last = EAsked (QLabel (sp_Name spec) specLabel) (Some was) :: EAsked (QLabel (sp_Name spec) storageLabel) sto :: EAsked (QStatus (sp_Name spec)) st :: inside ∧
    was ≠ noValue ∧ was ≠ Fingerprint sha256 spec ∧
    (sto = None ∨ sto = Some noValue ∨ sto = Some (op_StorageDriver opts)) ∧
    (inside = [] ∧ (st = None ∨ ∃ state, st = Some state ∧ state ≠ "running"%string) ∨
     st = Some "running"%string ∧ ∃ out, inside = [EAsked (QPs account) (Some out)] ∧ strings.TrimSpace out = ""%string).
Definition replaceable (account : string) (spec : Spec) (past : list event) : Prop := ∃ before last, past = (before ++ last)%list ∧ licence account spec last.

Definition removals_licensed (account : string) (spec : Spec) (tr : list event) : Prop :=
  (∀ n e, EDid (CVolumeRemove n) e ∉ tr) ∧
  (∀ tr1 n e tr2, tr = (tr1 ++ EDid (CRemove n) e :: tr2)%list → n = sp_Name spec ∧ replaceable account spec tr1).

Lemma licensed_quiet account spec tr : Forall quiet tr → removals_licensed account spec tr.
Proof.
  intros H. split.
  - intros n e Hin. exact (proj1 (Forall_forall _ _) H _ Hin).
  - intros tr1 n e tr2 ->. apply Forall_app in H as [_ H]. by inversion H.
Qed.

Lemma replaceable_after account spec pre tr : replaceable account spec tr → replaceable account spec (pre ++ tr).
Proof. intros (before & last & -> & H). exists (pre ++ before)%list, last. by rewrite app_assoc. Qed.

Lemma licensed_app account spec tr1 tr2 : removals_licensed account spec tr1 → removals_licensed account spec tr2 → removals_licensed account spec (tr1 ++ tr2).
Proof.
  intros [V1 R1] [V2 R2]. split; [intros n e [?|?]%elem_of_app; [by eapply V1|by eapply V2]|]. intros u n e v E.
  destruct (app_eq_app _ _ _ _ E) as (l & [[-> E2]|[-> E2]]).
  - destruct l as [|x l]; cbn [app] in E2.
    + destruct (R2 [] n e v (eq_sym E2)) as [-> Hr]. split; [done|]. apply (replaceable_after account spec u) in Hr. by rewrite app_nil_r in Hr.
    + injection E2 as <- ->. by apply (R1 u n e l).
  - destruct (R2 l n e v E2) as [-> Hr]. split; [done|]. by apply replaceable_after.
Qed.

Lemma quiet_pid name tr r : runs (pid name) tr r → Forall quiet tr.
Proof. unfold pid. intros H. repeat run_step H. by repeat constructor. Qed.
Lemma quiet_state name tr r : runs (state name) tr r → Forall quiet tr.
Proof. unfold state. intros H. repeat run_step H. by repeat constructor. Qed.
Lemma quiet_lastWords name tr r : runs (lastWords name) tr r → Forall quiet tr.
Proof. unfold lastWords. intros H. repeat run_step H. by repeat constructor. Qed.

Lemma quiet_look1 account name tr r : runs (look1 account name) tr r → Forall quiet tr.
Proof.
  unfold look1. intros H. run_step H. destruct x; [|run_step H; by repeat constructor]. constructor; [done|].
  apply runs_bind in H as (tr1 & p & tr2 & -> & H1 & H2). apply Forall_app. split; [by eapply quiet_pid|].
  destruct p as [p|]; [|run_step H2; constructor]. destruct (0 <? p); [|run_step H2; constructor]. repeat run_step H2. by repeat constructor.
Qed.

Lemma quiet_await fuel account name deadline tr r : runs (await fuel account name deadline) tr r → Forall quiet tr.
Proof.
  revert tr. induction fuel as [|fuel IH]; intros tr H; cbn [await] in H; [run_step H; constructor|].
  apply runs_bind in H as (tr1 & d & tr2 & -> & H1 & H2). apply Forall_app. split; [by eapply quiet_look1|].
  destruct d; [run_step H2; constructor|]. run_step H2. constructor; [done|]. destruct (After _ _).
  - apply runs_bind in H2 as (tr3 & ws & tr4 & -> & H3 & H4). run_step H4. rewrite app_nil_r. by eapply quiet_lastWords.
  - run_step H2. constructor; [done|]. destruct x1; [|by apply IH].
    apply runs_bind in H2 as (tr3 & ws & tr4 & -> & H3 & H4). run_step H4. rewrite app_nil_r. by eapply quiet_lastWords.
Qed.

(** ** Replacing a daemon *)

Lemma idle_spec account name tr b : runs (idle account name) tr b → Forall quiet tr ∧
  (b = true → ∃ st inside, tr = EAsked (QStatus name) st :: inside ∧
     (inside = [] ∧ (st = None ∨ ∃ state, st = Some state ∧ state ≠ "running"%string) ∨
      st = Some "running"%string ∧ ∃ out, inside = [EAsked (QPs account) (Some out)] ∧ strings.TrimSpace out = ""%string)).
Proof.
  unfold idle, state. intros H. repeat run_step H. destruct (bool_decide (default ""%string x = "running"%string)) eqn:E; cbn [negb] in H.
  - apply bool_decide_eq_true in E. destruct x as [st|]; [|done]. cbn in E. subst st. unfold runningInside in H. repeat run_step H. split; [by repeat constructor|].
    intros Hb. eexists _, _. split; [done|]. right. split; [done|]. destruct x as [out|]; [|done]. exists out. split; [done|].
    unfold nonEmpty in Hb. destruct (bool_decide (strings.TrimSpace out = ""%string)) eqn:Eo; [by apply bool_decide_eq_true in Eo|].
    apply Z.eqb_eq in Hb. cbn [negb] in Hb. pose proof (Split_not_nil (strings.TrimSpace out) newline) as Hn. destruct (strings.Split (strings.TrimSpace out) newline); [done|cbn in Hb; lia].
  - run_step H. split; [by repeat constructor|]. intros _. eexists _, _. split; [done|]. left. split; [done|]. apply bool_decide_eq_false in E. destruct x as [st|]; [right; by exists st|by left].
Qed.

Lemma reconcile_licensed account spec tr r : runs (reconcile opts sha256 account spec) tr r → removals_licensed account spec tr.
Proof.
  unfold reconcile. intros H. run_step H. destruct x as [was|]; [|run_step H; apply licensed_quiet; by repeat constructor].
  destruct (bool_decide (was = noValue) || bool_decide (was = Fingerprint sha256 spec)) eqn:Ew; [run_step H; apply licensed_quiet; by repeat constructor|].
  apply orb_false_iff in Ew as [E1%bool_decide_eq_false E2%bool_decide_eq_false].
  unfold storageChanged in H. repeat run_step H. rename x into sto.
  destruct (match sto with Some was0 => _ | None => false end) eqn:Es; [run_step H; apply licensed_quiet; by repeat constructor|].
  apply runs_bind in H as (tr1 & b & tr2 & -> & H1 & H2). apply idle_spec in H1 as [Hq Hb].
  set (head := [EAsked (QLabel (sp_Name spec) specLabel) (Some was); EAsked (QLabel (sp_Name spec) storageLabel) sto]).
  destruct b; [|run_step H2; apply licensed_quiet; rewrite app_nil_r; by repeat constructor].
  repeat run_step H2. assert (replaceable account spec (head ++ tr1)) as Hr.
  { destruct (Hb eq_refl) as (st & inside & -> & Hst). exists [], (head ++ EAsked (QStatus (sp_Name spec)) st :: inside)%list. split; [done|]. exists was, sto, st, inside.
    split_and!; try done. destruct sto as [s0|]; [|by left]. apply andb_false_iff in Es as [E|E]; apply negb_false_iff in E; apply bool_decide_eq_true in E as ->; auto. }
  change (removals_licensed account spec ((head ++ tr1) ++ [EDid (CRemove (sp_Name spec)) x])). split.
  - intros n e [Hin|Hin]%elem_of_app; [|set_solver]. assert (Forall quiet (head ++ tr1)) as Hall by (apply Forall_app; split; [by repeat constructor|done]).
    exact (proj1 (Forall_forall _ _) Hall _ Hin).
  - intros u n e v E. apply app_eq_app in E as (l & [[Eu El]|[Eu El]]).
    + destruct l as [|y l]; [cbn in El; rewrite app_nil_r in Eu; assert (n = sp_Name spec) as -> by congruence; by rewrite <- Eu|].
      exfalso. assert (Forall quiet (head ++ tr1)) as Hall by (apply Forall_app; split; [by repeat constructor|done]). rewrite Eu in Hall. apply Forall_app in Hall as [_ Hall].
      cbn in El. injection El as <- _. by inversion Hall.
    + destruct l as [|y l]; [cbn in El; rewrite app_nil_r in Eu; assert (n = sp_Name spec) as -> by congruence; by rewrite Eu|]. cbn in El. injection El as _ El. by destruct l.
Qed.
(** ** Starting *)

(** What follows the commands that prepare a start. *)
Lemma launch_spec account spec tr r :
  runs (_ ← reconcile opts sha256 account spec;
        st ← state (sp_Name spec);
        let then_ := now ← clock; await (awaitFuel ReadyTimeout) account (sp_Name spec) (Add now (readyTimeout ReadyTimeout)) in
        if bool_decide (st = "running"%string) then then_
        else if bool_decide (st = ""%string) then must (CRun (Spec_Args spec)) then_
        else must (CStart (sp_Name spec)) then_) tr r →
  removals_licensed account spec tr.
Proof.
  intros H. apply runs_bind in H as (tr1 & [] & tr2 & -> & H1 & H2). apply reconcile_licensed in H1. apply licensed_app; [done|]. clear H1.
  apply runs_bind in H2 as (tr3 & st & tr4 & -> & H3 & H4). apply licensed_quiet, Forall_app. split; [by eapply quiet_state|]. clear H3. cbn zeta in H4.
  assert (∀ tr, runs (now ← clock; await (awaitFuel ReadyTimeout) account (sp_Name spec) (Add now (readyTimeout ReadyTimeout))) tr r → Forall quiet tr) as Haw.
  { intros tr H. run_step H. constructor; [done|]. by eapply quiet_await. }
  destruct (bool_decide (st = "running"%string)); [by apply Haw|]. destruct (bool_decide (st = ""%string));
    apply runs_must in H4 as (x & tr' & -> & [[-> _]|[_ H4]]); (constructor; [done|]); [constructor|by apply Haw|constructor|by apply Haw].
Qed.

Lemma Plan_name account spec : Plan sha256 account opts = Ok spec → sp_Name spec = ContainerName account.
Proof.
  unfold Plan. destruct (negb _); [done|]. destruct (unusable account); [done|]. intros [= <-].
  assert (∀ n i s, sp_Name (stampFrom sha256 i n s) = sp_Name s) as ->; [|done].
  intros n. induction n as [|n IH]; intros i s; cbn [stampFrom]; [done|]. rewrite IH. by destruct (bool_decide _).
Qed.

(** C23 (safety). Starting an account's daemon, whatever docker answers, never removes a
    volume, and removes a container only to replace it, and only the account's own
    one.  Right before it does, three questions were asked in this order.  Which
    settings was it created from: docker answered, and they are other ones.  Which
    storage driver: docker did not answer that it is another one.  Is it running:
    docker did not answer that it is, or it did, and then the account's daemon
    answered that no container runs in it; where that daemon does not answer, it is
    left alone.  An inspection that fails counts as one that says nothing against the
    removal, so a running daemon whose state docker does not tell is removed
    ([unanswered_status_replaces]). *)
Theorem start_replaces_only_idle account tr r : runs (start opts sha256 ReadyTimeout account) tr r →
  (∀ n e, EDid (CVolumeRemove n) e ∉ tr) ∧
  (∀ tr1 n e tr2, tr = (tr1 ++ EDid (CRemove n) e :: tr2)%list →
     ∃ spec, Plan sha256 account opts = Ok spec ∧ n = ContainerName account ∧ replaceable account spec tr1).
Proof.
  unfold start. intros H. destruct (Plan sha256 account opts) as [spec|e] eqn:Ep.
  - assert (removals_licensed account spec tr) as [HV HR].
    { repeat match type of H with runs (must _ _) _ _ => apply runs_must in H as (? & ? & -> & [[-> _]|[_ H]]); [by apply licensed_quiet; repeat constructor|] end.
      apply launch_spec in H. repeat match goal with |- removals_licensed _ _ (?e :: ?l) => apply (licensed_app account spec [e] l); [by apply licensed_quiet; repeat constructor|] end. done. }
    split; [done|]. intros tr1 n e tr2 E. destruct (HR tr1 n e tr2 E) as [-> Hr]. exists spec. split_and!; [done|by apply Plan_name|done].
  - run_step H. split; [intros n e' []%elem_of_nil|]. intros tr1 n e' tr2 E. by destruct tr1.
Qed.

(** Resetting an account removes its container; its storage goes only when
    that was asked for, and only the volume that docker lists with the account's
    labels: one that merely has the name stays. *)
Theorem reset_removes_only_labelled account purge tr r n e : runs (Reset opts sha256 account purge) tr r →
  EDid (CVolumeRemove n) e ∈ tr →
  purge = true ∧ n = VolumeName account ∧ ∃ out, EAsked (QVolumes (Some account)) (Some out) ∈ tr ∧ n ∈ Fields out.
Proof.
  unfold Reset. intros H. destruct (Plan sha256 account opts); [|run_step H; by intros []%elem_of_nil]. run_step H. destruct purge; [|run_step H; set_solver].
  unfold removeStorage in H. run_step H. destruct x1 as [out|]; [|run_step H; set_solver].
  destruct (listedIn (Some out) (VolumeName account)) eqn:El.
  - repeat run_step H. unfold listedIn in El. apply bool_decide_eq_true in El. intros Hin. assert (n = VolumeName account) as -> by set_solver.
    split_and!; [done|done|]. exists out. split; [set_solver|done].
  - run_step H. destruct x0; run_step H; set_solver.
Qed.

(** ** A start that answers, and one that ends *)

(** A daemon taken for alive was said to run under the process it was known by. *)
Lemma alive_same_process d tr : runs (alive d) tr true →
  ∃ out, EAsked (QStatusPid (ContainerName (dm_Account d))) (Some out) ∈ tr ∧ scanStatusPid out = Some ("running"%string, dm_PID d).
Proof.
  unfold alive. intros H. run_step H. destruct x; [|no_ret H]. run_step H. apply runs_Ret in H as [-> H]. destruct x as [out|]; [|done]. cbn in H.
  destruct (scanStatusPid out) as [[st p]|] eqn:E; [|done]. apply andb_true_iff in H as [[H1%bool_decide_eq_true _]%andb_true_iff H2%Z.eqb_eq]. subst st p. exists out.
  split; [set_solver|done].
Qed.

(** One that has started is the account's and answered. *)
Lemma await_answers fuel account name deadline tr d : runs (await fuel account name deadline) tr (Ok d) →
  dm_Account d = account ∧ dm_Socket d = SocketPathFor account ∧ 0 < dm_PID d ∧ ∃ v, EAsked (QVersion account) (Some v) ∈ tr.
Proof.
  revert tr. induction fuel as [|fuel IH]; intros tr H; cbn [await] in H; [no_ret H|].
  apply runs_bind in H as (tr1 & o & tr2 & -> & H1 & H2). destruct o as [d'|].
  - apply runs_Ret in H2 as [-> [= ->]]. rewrite app_nil_r. unfold look1 in H1. run_step H1. destruct x; [|no_ret H1].
    apply runs_bind in H1 as (tr3 & p & tr4 & -> & H3 & H4). destruct p as [p|]; [|no_ret H4]. destruct (0 <? p) eqn:Ep; [|no_ret H4].
    run_step H4. run_step H4. apply runs_Ret in H4 as [-> H4]. destruct x1 as [v|]; [|done]. injection H4 as <-. apply Z.ltb_lt in Ep.
    split_and!; [done|done|done|]. exists v. set_solver.
  - run_step H2. destruct (After x deadline).
    + apply runs_bind in H2 as (tr3 & ws & tr4 & -> & _ & H4). no_ret H4.
    + run_step H2. destruct x1.
      * apply runs_bind in H2 as (tr3 & ws & tr4 & -> & _ & H4). no_ret H4.
      * apply IH in H2 as (H2 & H3 & H4 & v & Hv). split_and!; [done|done|done|]. exists v. set_solver.
Qed.

(** The times a program read, and that they are a wait apart. *)
Definition times (tr : list event) : list Time := omap (λ e, match e with ETime t => Some t | _ => None end) tr.
Fixpoint paced (from : Time) (ts : list Time) : Prop := match ts with [] => True | t :: ts' => from ≤ t ∧ paced (t + pollEvery) ts' end.

Lemma times_app tr1 tr2 : times (tr1 ++ tr2) = (times tr1 ++ times tr2)%list.
Proof. apply omap_app. Qed.

Lemma times_did c x tr : times (EDid c x :: tr) = times tr.
Proof. done. Qed.
Lemma times_asked q x tr : times (EAsked q x :: tr) = times tr.
Proof. done. Qed.

Lemma times_look1 account name tr o : runs (look1 account name) tr o → times tr = [].
Proof.
  unfold look1. intros H. run_step H. destruct x; [|by run_step H]. apply runs_bind in H as (tr1 & p & tr2 & -> & H1 & H2).
  unfold pid in H1. repeat run_step H1. destruct (x ≫= λ o, scanInt o) as [p|]; [|by run_step H2]. destruct (0 <? p); [|by run_step H2]. by repeat run_step H2.
Qed.

Lemma await_ends fuel account name deadline from tr r : runs (await fuel account name deadline) tr r → paced from (times tr) →
  deadline - from < (Z.of_nat fuel - 1) * pollEvery → (0 < fuel)%nat → r ≠ Err ErrFuel.
Proof.
  revert from tr. induction fuel as [|fuel IH]; intros from tr H Hp Hf H0; [lia|]. cbn [await] in H.
  apply runs_bind in H as (tr1 & o & tr2 & -> & H1 & H2). rewrite times_app, (times_look1 _ _ _ _ H1) in Hp. cbn [app] in Hp.
  destruct o as [d|]; [by run_step H2|]. run_step H2. destruct (After x deadline) eqn:Ea.
  - apply runs_bind in H2 as (tr3 & ws & tr4 & -> & _ & H4). by run_step H4.
  - run_step H2. destruct Hp as [Hx Hp]. unfold After in Ea. apply Z.ltb_ge in Ea. destruct x1.
    + apply runs_bind in H2 as (tr3 & ws & tr4 & -> & _ & H4). by run_step H4.
    + unfold pollEvery, Millisecond in *. assert (fuel ≠ 0)%nat by (intros ->; lia). eapply (IH (x + _)); [exact H2|exact Hp|lia|lia].
Qed.

End manager.

(** The rounds a start is given are enough. *)
Lemma awaitFuel_enough ReadyTimeout : readyTimeout ReadyTimeout < (Z.of_nat (awaitFuel ReadyTimeout) - 1) * pollEvery.
Proof.
  unfold awaitFuel. assert (0 < readyTimeout ReadyTimeout) as Hp by (unfold readyTimeout, DefaultReadyTimeout, Second; destruct (Z.ltb_spec 0 ReadyTimeout); lia).
  assert (0 < pollEvery) as H0 by done. pose proof (Z.div_pos (readyTimeout ReadyTimeout) pollEvery ltac:(lia) H0). rewrite Z2Nat.id by lia.
  pose proof (Z.mul_succ_div_gt (readyTimeout ReadyTimeout) pollEvery H0). lia.
Qed.

Lemma times_reconcile opts sha256 account spec tr r : runs (reconcile opts sha256 account spec) tr r → times tr = [].
Proof.
  unfold reconcile. intros H. run_step H. destruct x as [was|]; [|by run_step H]. destruct (_ || _); [by run_step H|].
  unfold storageChanged in H. repeat run_step H. destruct (match x with Some _ => _ | None => _ end); [by run_step H|].
  apply runs_bind in H as (tr1 & b & tr2 & -> & H1 & H2). change (times (tr1 ++ tr2) = []). rewrite times_app.
  assert (times tr1 = []) as ->. { unfold idle, state in H1. repeat run_step H1. destruct (negb _); [by run_step H1|]. unfold runningInside in H1. by repeat run_step H1. }
  destruct b; by repeat run_step H2.
Qed.

(** Starting a daemon ends: when each look at the clock is a wait after the one
    before it, the budget is over before the rounds the loop is given are, so a
    start always answers with a daemon or with what was wrong. *)
Theorem start_ends opts sha256 ReadyTimeout account tr r : runs (start opts sha256 ReadyTimeout account) tr r →
  (∀ t0 ts, times tr = t0 :: ts → paced t0 ts) → r ≠ Err ErrFuel.
Proof.
  unfold start. intros H Hp. destruct (Plan sha256 account opts) as [spec|e]; [|by run_step H].
  repeat match type of H with runs (must _ _) _ _ => apply runs_must in H as (? & ? & -> & [(-> & t & ->)|[-> H]]); [done|] end.
  apply runs_bind in H as (tr1 & [] & tr2 & -> & H1 & H2). apply times_reconcile in H1.
  apply runs_bind in H2 as (tr3 & st & tr4 & -> & H3 & H4). unfold state in H3. repeat run_step H3.
  assert (∀ t0 ts, times tr4 = t0 :: ts → paced t0 ts) as Hp' by (intros t0 ts E; apply Hp; rewrite !times_did, times_app, H1; exact E).
  assert (∀ tr, runs (now ← clock; await (awaitFuel ReadyTimeout) account (sp_Name spec) (Add now (readyTimeout ReadyTimeout))) tr r → times tr4 = times tr → r ≠ Err ErrFuel) as Haw.
  { intros tr H Et. run_step H. specialize (Hp' _ _ Et).
    eapply await_ends; [exact H|exact Hp'|unfold Add; pose proof (awaitFuel_enough ReadyTimeout); lia|unfold awaitFuel].
    pose proof (awaitFuel_enough ReadyTimeout) as Hf. unfold awaitFuel in Hf. unfold readyTimeout, DefaultReadyTimeout, Second, pollEvery, Millisecond in *. destruct (Z.ltb_spec 0 ReadyTimeout); lia. }
  cbn zeta in H4. destruct (bool_decide _); [by eapply Haw|]. destruct (bool_decide _);
    (apply runs_must in H4 as (y & tr' & -> & [(-> & t & ->)|[-> H4]]); [done|]; by eapply Haw).
Qed.

(** ** The workspace's daemons together *)

(** Strays are stopped, and nothing else is done to anything: only accounts'
    daemons, and only by an agent that can tell its own. *)
Lemma strays_only_stopped opts rowOf tr r c e : runs (StopStrays opts rowOf) tr r → EDid c e ∈ tr →
  op_Workspace opts ≠ ""%string ∧ ∃ a, a ≠ ""%string ∧ c = CStop (ContainerName a).
Proof.
  unfold StopStrays. destruct (nonEmpty (op_Workspace opts)) eqn:Ew; cbn [negb]; intros H; [|run_step H; by intros []%elem_of_nil].
  unfold nonEmpty in Ew. apply negb_true_iff, bool_decide_eq_false in Ew. unfold managed in H. cbn [mbind io_mbind io_bind ask] in H. run_step H.
  assert (∀ rows n tr' r', runs (stopEach rows n) tr' r' → EDid c e ∈ tr' → ∃ a, a ≠ ""%string ∧ c = CStop (ContainerName a)) as Hstop.
  { induction rows as [|[l st] rows IH]; intros n tr' r' Hr; cbn [stopEach] in Hr; [run_step Hr; by intros []%elem_of_nil|].
    destruct (_ || negb (nonEmpty (labelValue l AccountLabel))) eqn:Eo; [by eapply IH|]. apply orb_false_iff in Eo as [_ Eo]. unfold nonEmpty in Eo.
    rewrite negb_involutive in Eo. apply bool_decide_eq_false in Eo. run_step Hr. intros [[= -> _]|Hin]%elem_of_cons; [eauto|].
    match type of Hr with runs (match ?y with _ => _ end) _ _ => destruct y end; by eapply IH. }
  intros Hin. split; [done|]. apply elem_of_cons in Hin as [[=]|Hin].
  destruct (x ≫= _) as [rows|]; [|run_step H; by apply elem_of_nil in Hin]. apply runs_bind in H as (tr1 & n & tr2 & -> & H1 & H2). run_step H2. rewrite app_nil_r in Hin. by eapply Hstop.
Qed.

(** What is adopted are accounts' daemons that run, none of them taken for
    confirmed. *)
Lemma adopted_own opts rowOf tr ds d : runs (Adopt opts rowOf) tr (Some ds) → d ∈ ds →
  dm_Account d ≠ ""%string ∧ dm_Socket d = SocketPathFor (dm_Account d) ∧ 0 < dm_PID d ∧ dm_checked d = zeroTime.
Proof.
  unfold Adopt, managed. cbn [mbind io_mbind io_bind ask]. intros H. run_step H. destruct (x ≫= _) as [rows|]; [|by apply runs_Ret in H as [_ [=]]].
  apply runs_bind in H as (tr1 & ds' & tr2 & -> & H1 & H2). apply runs_Ret in H2 as [_ [= ->]]. clear x. revert tr1 ds H1.
  induction rows as [|[l st] rows IH]; intros tr1 ds H Hin; cbn [adoptEach] in H; [run_step H; by apply elem_of_nil in Hin|].
  destruct (nonEmpty (labelValue l AccountLabel)) eqn:Ea; cbn [negb] in H; [|by eapply IH]. unfold nonEmpty in Ea. apply negb_true_iff, bool_decide_eq_false in Ea.
  apply runs_bind in H as (tr3 & p & tr4 & -> & _ & H). destruct p as [p|]; [|by eapply IH]. destruct (0 <? p) eqn:Ep; [|by eapply IH]. apply Z.ltb_lt in Ep.
  apply runs_bind in H as (tr5 & rest & tr6 & -> & H5 & H6). apply runs_Ret in H6 as [_ <-]. apply elem_of_cons in Hin as [->|Hin]; [done|by eapply IH].
Qed.

(** * The daemon of an account, planned: the label it carries is its digest *)

Open Scope Z_scope.

(** Labels that are the same but for the digest's own. *)
Definition sameLabels (l l' : list string) : Prop := Forall2 (λ a b, a = b ∨ isSpecLabel a = true ∧ isSpecLabel b = true) l l'.

Lemma filter_labels l l' : sameLabels l l' →
  filter (λ a, isSpecLabel a = false) (each "--label" id l) = filter (λ a, isSpecLabel a = false) (each "--label" id l').
Proof.
  induction 1 as [|a b l l' Hab _ IH]; [done|]. unfold each in *. rewrite !bind_cons, !filter_app, IH. f_equal.
  destruct Hab as [->|[Ha Hb]]; [done|]. unfold id. rewrite !(filter_cons_True _ "--label"%string) by done.
  by rewrite !filter_cons_False, !filter_nil by (by rewrite ?Ha, ?Hb).
Qed.

(** The digest does not depend on its own label. *)
Lemma digested_labels s f : sameLabels (sp_Labels s) (f (sp_Labels s)) → digested (Spec_Args (with_labels f s)) = digested (Spec_Args s).
Proof.
  intros Hl. unfold digested, Spec_Args, RunSpec_Args. cbn [rs_Labels rs_Mounts rs_Env rs_Tmpfs rs_Command rs_Image rs_Name rs_Entrypoint rs_Network rs_Privileged rs_Detach rs_Remove
    with_labels sp_Labels sp_Name sp_Image sp_Entrypoint sp_Privileged sp_Mounts sp_Env sp_Tmpfs sp_Command].
  rewrite !filter_app. by rewrite (filter_labels _ _ Hl).
Qed.

Section plan.
Context (sha256 : string → string).

Lemma stamp_skip i n s : sp_Labels s !! i ≠ Some (specLabel +:+ "=") → stampFrom sha256 i (S n) s = stampFrom sha256 (S i) n s.
Proof. intros H. cbn [stampFrom]. by rewrite bool_decide_eq_false_2. Qed.

Lemma stamp_hit i n s : sp_Labels s !! i = Some (specLabel +:+ "=") →
  stampFrom sha256 i (S n) s = stampFrom sha256 (S i) n (with_labels <[i := specLabel +:+ "=" +:+ Fingerprint sha256 s]> s).
Proof. intros H. cbn [stampFrom]. by rewrite bool_decide_eq_true_2. Qed.

(** The labels of a plan: the account's, the driver's, the digest's, and the
    workspace's. *)
Lemma Plan_labels account opts spec : Plan sha256 account opts = Ok spec →
  sp_Labels spec = ([ManagedLabel +:+ "=1"; AccountLabel +:+ "=" +:+ account; storageLabel +:+ "=" +:+ op_StorageDriver opts; specLabel +:+ "=" +:+ Fingerprint sha256 spec] ++
    (if nonEmpty (op_Workspace opts) then [WorkspaceLabel +:+ "=" +:+ op_Workspace opts] else []))%list.
Proof.
  unfold Plan. destruct (negb _); [done|]. destruct (unusable account); [done|]. cbn zeta. set (s := planned account opts). intros <-%Ok_inj.
  set (s' := with_labels <[3%nat := specLabel +:+ "=" +:+ Fingerprint sha256 s]> s).
  assert (stampFrom sha256 0 (length (sp_Labels s)) s = s') as ->.
  { change (sp_Labels s) with (planLabels account opts). unfold planLabels. rewrite length_app. cbn [length Nat.add].
    rewrite !stamp_skip, stamp_hit by done. fold s'. destruct (nonEmpty (op_Workspace opts)) eqn:E; cbn [length]; [|done].
    assert (sp_Labels s' !! 4%nat ≠ Some (specLabel +:+ "=")) as H4; [|by rewrite stamp_skip by exact H4].
    unfold s', s. cbn [with_labels sp_Labels planned]. unfold planLabels. rewrite E. by cbn. }
  assert (Fingerprint sha256 s' = Fingerprint sha256 s) as ->.
  { unfold Fingerprint, s'. rewrite digested_labels; [done|]. unfold s. cbn [sp_Labels planned]. unfold planLabels. cbn [app insert list_insert].
    repeat (apply Forall2_cons; split; [by left|]). apply Forall2_cons. split; [by right|]. apply Forall_Forall2_diag, Forall_true. by left. }
  unfold s', s. cbn [with_labels sp_Labels planned]. unfold planLabels. done.
Qed.

End plan.

(** A daemon's label says whether its settings are still the ones it was created
    with.  The label a plan stamps is the plan's own digest, so a daemon created
    from it is left alone: no command is given.  One whose label is another digest,
    with the same storage driver, is replaced as soon as it is found not running. *)
Theorem label_decides_replacement sha256 opts account spec v tr r : Plan sha256 account opts = Ok spec →
  runs (reconcile opts sha256 account spec) (EAsked (QLabel (sp_Name spec) specLabel) (Some v) :: tr) r →
  ((specLabel +:+ "=" +:+ v) ∈ sp_Labels spec → tr = []) ∧
  (∀ st tr', v ≠ noValue → (specLabel +:+ "=" +:+ v) ∉ sp_Labels spec → st ≠ "running"%string →
     tr = EAsked (QLabel (sp_Name spec) storageLabel) (Some (op_StorageDriver opts)) :: EAsked (QStatus (sp_Name spec)) (Some st) :: tr' →
     ∃ e, tr' = [EDid (CRemove (sp_Name spec)) e]).
Proof.
  intros Hp H. pose proof (Plan_labels _ _ _ _ Hp) as Hl.
  assert ((specLabel +:+ "=" +:+ v) ∈ sp_Labels spec ↔ v = Fingerprint sha256 spec) as Hiff.
  { rewrite Hl. split; [|intros ->; set_solver]. intros Hv.
    assert (∀ a b, specLabel +:+ "=" +:+ a = specLabel +:+ "=" +:+ b → a = b) as Hinj by (intros a b E; cbn in E; by injection E).
    apply elem_of_app in Hv as [Hv|Hv]; [|destruct (nonEmpty _); [apply list_elem_of_singleton in Hv; by cbn in Hv|by apply elem_of_nil in Hv]].
    repeat (apply elem_of_cons in Hv as [Hv|Hv]; [first [by apply Hinj in Hv|by cbn in Hv]|]). by apply elem_of_nil in Hv. }
  unfold reconcile in H. apply runs_Ask in H as (x & tr0 & E & H). injection E as <- ->. cbn [io_bind] in H. split.
  - intros ->%Hiff. rewrite (bool_decide_eq_true_2 (_ = Fingerprint _ _)), orb_true_r in H by done. by apply runs_Ret in H as [-> _].
  - intros st tr' Hn Hv Hst ->. rewrite (bool_decide_eq_false_2 (v = noValue)), (bool_decide_eq_false_2 (v = Fingerprint _ _)) in H by (rewrite <- ?Hiff; done).
    cbn [orb] in H. unfold storageChanged in H. apply runs_Ask in H as (x & tr2 & E & H). injection E as <- <-. cbn [mbind io_mbind io_bind] in H.
    rewrite (bool_decide_eq_true_2 (op_StorageDriver opts = op_StorageDriver opts)), andb_false_r in H by done. unfold idle, state in H. cbn [mbind io_mbind io_bind ask] in H.
    apply runs_Ask in H as (x & tr3 & E & H). injection E as <- <-. cbn [default] in H. change (default ""%string (Some st)) with st in H.
    rewrite bool_decide_eq_false_2 in H by done. cbn [negb io_bind do_] in H. apply runs_Do in H as (e & tr4 & -> & H). apply runs_Ret in H as [-> _]. by exists e.
Qed.

(** What is digested tells the arguments apart. *)
Lemma digested_inj l l' : Forall (λ a, strings.Contains a "000"%char = false) l → Forall (λ a, strings.Contains a "000"%char = false) l' →
  digested l = digested l' → filter (λ a, isSpecLabel a = false) l = filter (λ a, isSpecLabel a = false) l'.
Proof.
  intros H H' E. unfold digested in E.
  assert (∀ k, Forall (λ a, strings.Contains a "000"%char = false) k → Forall (λ a, strings.Contains a "000"%char = false) (filter (λ a, isSpecLabel a = false) k)) as Hf
    by (intros k Hk; apply Forall_forall; intros x [_ Hx]%list_elem_of_filter; exact (proj1 (Forall_forall _ _) Hk x Hx)).
  apply Hf in H, H'. revert H H' E. generalize (filter (λ a, isSpecLabel a = false) l) as k, (filter (λ a, isSpecLabel a = false) l') as k'. clear Hf.
  assert (∀ a t, strings.Contains a "000"%char = false → strings.Cut (a +:+ zeroByte +:+ t) "000"%char = Some (a, t)) as Hcut.
  { intros a t Ha. by apply Cut_Some. }
  induction k as [|a k IH]; intros [|b k'] Hk Hk' E; [done| | |].
  - exfalso. destruct b; done.
  - exfalso. destruct a; done.
  - apply Forall_cons in Hk as [Ha Hk]. apply Forall_cons in Hk' as [Hb Hk']. cbn [foldr] in E. apply (f_equal (λ s, strings.Cut s "000"%char)) in E.
    rewrite !Hcut in E by done. injection E as -> E. f_equal. by apply IH.
Qed.
