(* ===== verification/DaemonEnsure.v ===== *)
(** * Handing out the accounts' daemons (agent/internal/daemons/runner.go: [ensure])

    The callers of [ensure] and the commands that change the manager's maps, one
    definition per hold of the mutex.  What [alive] and [start] answer is left open:
    they are the programs of [Daemons].  The world keeps what was confirmed and
    when, for the statements alone. *)
From S2P Require Import Prelude GoStrings GoTime Records DaemonPlan Daemons.

Open Scope Z_scope.

(** [mg_daemons] is the heap; [mg_pending] maps an account to the channel its
    starter will close, [mg_closed] the channels that are closed. *)
Record Manager := {
  mg_daemons : gmap nat Daemon;
  mg_byName : gmap string nat;
  mg_pending : gmap string nat;
  mg_closed : gset nat;
  mg_channels : nat;
  mg_failed : gmap string (Time * string)
}.

Definition newManager : Manager :=
  {| mg_daemons := ∅; mg_byName := ∅; mg_pending := ∅; mg_closed := ∅; mg_channels := 0; mg_failed := ∅ |}.

Definition set_checked (t : Time) (d : Daemon) : Daemon :=
  {| dm_Account := dm_Account d; dm_PID := dm_PID d; dm_Socket := dm_Socket d; dm_checked := t |}.

(** ** The holds of the mutex *)

(** The daemon known for an account, and whether it need not be asked. *)
Definition known (now : Time) (account : string) (m : Manager) : option (nat * bool) :=
  id ← mg_byName m !! account; d ← mg_daemons m !! id; Some (id, Sub now (dm_checked d) <? aliveTTL).

Definition confirm (now : Time) (id : nat) (m : Manager) : Manager :=
  {| mg_daemons := alter (set_checked now) id (mg_daemons m); mg_byName := mg_byName m; mg_pending := mg_pending m; mg_closed := mg_closed m;
     mg_channels := mg_channels m; mg_failed := mg_failed m |}.

Inductive gated := GFailed (err : string) | GWait (ch : nat) | GLead (ch : nat) (m : Manager).

Definition lead (account : string) (m : Manager) : gated :=
  match mg_pending m !! account with
  | Some ch => GWait ch
  | None => GLead (mg_channels m)
      {| mg_daemons := mg_daemons m; mg_byName := mg_byName m; mg_pending := <[account := mg_channels m]> (mg_pending m); mg_closed := mg_closed m;
         mg_channels := S (mg_channels m); mg_failed := mg_failed m |}
  end.

Definition gate (now : Time) (account : string) (m : Manager) : gated :=
  match mg_failed m !! account with
  | Some (at_, err) => if Sub now at_ <? failTTL then GFailed err else lead account m
  | None => lead account m
  end.

(** A daemon that starts is a new object. *)
Definition newId (m : Manager) : nat := fresh (dom (mg_daemons m)).

Definition register (account : string) (d : Daemon) (m : Manager) : Manager :=
  {| mg_daemons := <[newId m := d]> (mg_daemons m); mg_byName := <[account := newId m]> (mg_byName m); mg_pending := mg_pending m; mg_closed := mg_closed m;
     mg_channels := mg_channels m; mg_failed := mg_failed m |}.

Definition unpend (account : string) (m : Manager) : Manager :=
  {| mg_daemons := mg_daemons m; mg_byName := mg_byName m; mg_pending := delete account (mg_pending m); mg_closed := mg_closed m;
     mg_channels := mg_channels m; mg_failed := mg_failed m |}.

Definition set_failed (f : gmap string (Time * string) → gmap string (Time * string)) (m : Manager) : Manager :=
  {| mg_daemons := mg_daemons m; mg_byName := mg_byName m; mg_pending := mg_pending m; mg_closed := mg_closed m;
     mg_channels := mg_channels m; mg_failed := f (mg_failed m) |}.

(** The end of a start: what it answers with, whether its caller had given up. *)
Definition finish (now : Time) (account : string) (r : res string Daemon) (gaveUp : bool) (m : Manager) : Manager * res string nat :=
  let m1 := unpend account m in
  match r with
  | Ok d => (set_failed (delete account) (register account (set_checked now d) m1), Ok (newId m1))
  | Err e => (if gaveUp then m1 else set_failed (<[account := (now, e)]>) m1, Err e)
  end.

Definition closeWait (ch : nat) (m : Manager) : Manager :=
  {| mg_daemons := mg_daemons m; mg_byName := mg_byName m; mg_pending := mg_pending m; mg_closed := {[ ch ]} ∪ mg_closed m;
     mg_channels := mg_channels m; mg_failed := mg_failed m |}.

(** [Adopt]'s entry of one daemon, and [Reset]'s hold. *)
Definition adoptOne (d : Daemon) (m : Manager) : Manager := register (dm_Account d) d m.
Definition forget (account : string) (m : Manager) : Manager :=
  {| mg_daemons := mg_daemons m; mg_byName := delete account (mg_byName m); mg_pending := mg_pending m; mg_closed := mg_closed m;
     mg_channels := mg_channels m; mg_failed := delete account (mg_failed m) |}.
Definition Started (m : Manager) : nat := size (mg_byName m).

(** ** The callers *)

Inductive pc :=
| PLook
| PAlive (id : nat)
| PConfirmed (id : nat)
| PGate
| PWait (ch : nat)
| PStart (ch : nat)
| PEnd (ch : nat) (r : res string Daemon) (gaveUp : bool)
| PClose (ch : nat) (at_ : Time) (r : res string nat)
| PDone (at_ : Time) (r : res string nat).

(** [at_] is when an answer was settled, under the mutex. *)
Record thread := {
  th_account : string;
  th_pc : pc
}.

Record World := {
  wo_m : Manager;
  wo_threads : gmap nat thread;
  wo_now : Time;
  wo_confirmed : list (nat * Time)
}.

(** What a start of an account answers with is that account's daemon. *)
Definition ownDaemon (account : string) (d : Daemon) : Prop := dm_Account d = account ∧ dm_Socket d = SocketPathFor account.

(** A caller's step: the manager, where it goes on, and what it confirmed. *)
Inductive tstep (now : Time) (a : string) (m : Manager) : pc → Manager → pc → option nat → Prop :=
| t_fresh id : known now a m = Some (id, true) → tstep now a m PLook m (PDone now (Ok id)) None
| t_stale id : known now a m = Some (id, false) → tstep now a m PLook m (PAlive id) None
| t_unknown : known now a m = None → tstep now a m PLook m PGate None
| t_alive id : tstep now a m (PAlive id) m (PConfirmed id) None
| t_dead id : tstep now a m (PAlive id) m PGate None
| t_confirm id : tstep now a m (PConfirmed id) (confirm now id m) (PDone now (Ok id)) (Some id)
| t_memo err : gate now a m = GFailed err → tstep now a m PGate m (PDone now (Err err)) None
| t_wait ch : gate now a m = GWait ch → tstep now a m PGate m (PWait ch) None
| t_woken ch : ch ∈ mg_closed m → tstep now a m (PWait ch) m PLook None
| t_leave ch err : tstep now a m (PWait ch) m (PDone now (Err err)) None
| t_lead ch m' : gate now a m = GLead ch m' → tstep now a m PGate m' (PStart ch) None
| t_started ch d : ownDaemon a d → tstep now a m (PStart ch) m (PEnd ch (Ok d) false) None
| t_failed ch err gaveUp : tstep now a m (PStart ch) m (PEnd ch (Err err) gaveUp) None
| t_finish ch r gaveUp m' r' : finish now a r gaveUp m = (m', r') →
    tstep now a m (PEnd ch r gaveUp) m' (PClose ch now r') (match r' with Ok id => Some id | Err _ => None end)
| t_close ch at_ r : tstep now a m (PClose ch at_ r) (closeWait ch m) (PDone at_ r) None.

Inductive step : World → World → Prop :=
| step_call w t a : wo_threads w !! t = None →
    step w {| wo_m := wo_m w; wo_threads := <[t := {| th_account := a; th_pc := PLook |}]> (wo_threads w); wo_now := wo_now w; wo_confirmed := wo_confirmed w |}
| step_run w t a p m' p' c : wo_threads w !! t = Some {| th_account := a; th_pc := p |} → tstep (wo_now w) a (wo_m w) p m' p' c →
    step w {| wo_m := m'; wo_threads := <[t := {| th_account := a; th_pc := p' |}]> (wo_threads w); wo_now := wo_now w;
              wo_confirmed := match c with Some id => (id, wo_now w) :: wo_confirmed w | None => wo_confirmed w end |}
| step_adopt w d : ownDaemon (dm_Account d) d → dm_checked d = zeroTime →
    step w {| wo_m := adoptOne d (wo_m w); wo_threads := wo_threads w; wo_now := wo_now w; wo_confirmed := wo_confirmed w |}
| step_reset w a : step w {| wo_m := forget a (wo_m w); wo_threads := wo_threads w; wo_now := wo_now w; wo_confirmed := wo_confirmed w |}
| step_tick w d : 0 < d → step w {| wo_m := wo_m w; wo_threads := wo_threads w; wo_now := wo_now w + d; wo_confirmed := wo_confirmed w |}.

Definition startWorld (now : Time) : World := {| wo_m := newManager; wo_threads := ∅; wo_now := now; wo_confirmed := [] |}.

(** * Handing out the accounts' daemons: one start at a time, and only what answers *)

Open Scope Z_scope.

(** ** One start per account *)

(** The channel a caller has promised to close, while the account is still pending
    for it and until it is closed. *)
Definition leads (p : pc) : option nat := match p with PStart ch | PEnd ch _ _ => Some ch | _ => None end.
Definition holds (p : pc) : option nat := match p with PStart ch | PEnd ch _ _ | PClose ch _ _ => Some ch | _ => None end.

Lemma leads_holds p ch : leads p = Some ch → holds p = Some ch.
Proof. by destruct p. Qed.

Record flights (w : World) : Prop := {
  fl_pending : ∀ t a p ch, wo_threads w !! t = Some {| th_account := a; th_pc := p |} → leads p = Some ch → mg_pending (wo_m w) !! a = Some ch;
  fl_leader : ∀ a ch, mg_pending (wo_m w) !! a = Some ch → ∃ t p, wo_threads w !! t = Some {| th_account := a; th_pc := p |} ∧ leads p = Some ch;
  fl_unique : ∀ t1 t2 a1 a2 p1 p2 ch, wo_threads w !! t1 = Some {| th_account := a1; th_pc := p1 |} → wo_threads w !! t2 = Some {| th_account := a2; th_pc := p2 |} →
    holds p1 = Some ch → holds p2 = Some ch → t1 = t2;
  fl_bound : ∀ t a p ch, wo_threads w !! t = Some {| th_account := a; th_pc := p |} → holds p = Some ch → (ch < mg_channels (wo_m w))%nat;
  fl_waiting : ∀ t a ch, wo_threads w !! t = Some {| th_account := a; th_pc := PWait ch |} →
    ch ∈ mg_closed (wo_m w) ∨ ∃ t' a' p', wo_threads w !! t' = Some {| th_account := a'; th_pc := p' |} ∧ holds p' = Some ch
}.

(** A step that changes neither the channels nor what its caller holds. *)
Lemma flights_quiet w t a p p' m' now' c' :
  flights w → wo_threads w !! t = Some {| th_account := a; th_pc := p |} →
  mg_pending m' = mg_pending (wo_m w) → mg_channels m' = mg_channels (wo_m w) → mg_closed m' = mg_closed (wo_m w) →
  leads p' = leads p → holds p' = holds p →
  (∀ ch, p' = PWait ch → ch ∈ mg_closed (wo_m w) ∨ ∃ t' a' q, wo_threads w !! t' = Some {| th_account := a'; th_pc := q |} ∧ holds q = Some ch) →
  flights {| wo_m := m'; wo_threads := <[t := {| th_account := a; th_pc := p' |}]> (wo_threads w); wo_now := now'; wo_confirmed := c' |}.
Proof.
  intros [F1 F2 F3 F4 F5] Ht Ep Ec Ecl Hl Hh Hw.
  (* every thread after the step has one before it with the same holdings *)
  assert (∀ u b q, <[t := {| th_account := a; th_pc := p' |}]> (wo_threads w) !! u = Some {| th_account := b; th_pc := q |} →
    ∃ q0, wo_threads w !! u = Some {| th_account := b; th_pc := q0 |} ∧ leads q0 = leads q ∧ holds q0 = holds q) as Hback.
  { intros u b q [[<- [= <- <-]]|[_ Hq]]%lookup_insert_Some; eauto. }
  assert (∀ u b q, wo_threads w !! u = Some {| th_account := b; th_pc := q |} →
    ∃ q0, <[t := {| th_account := a; th_pc := p' |}]> (wo_threads w) !! u = Some {| th_account := b; th_pc := q0 |} ∧ leads q0 = leads q ∧ holds q0 = holds q) as Hforth.
  { intros u b q Hq. destruct (decide (t = u)) as [<-|Hne]; [rewrite Ht in Hq; injection Hq as <- <-; exists p'; by rewrite lookup_insert_eq|].
    exists q. by rewrite lookup_insert_ne. }
  constructor; cbn [wo_m wo_threads]; rewrite ?Ep, ?Ec, ?Ecl.
  - intros u b q ch Hq Hlq. destruct (Hback u b q Hq) as (q0 & Hq0 & E1 & _). eapply F1; [exact Hq0|]. by rewrite E1.
  - intros b ch Hb. destruct (F2 b ch Hb) as (u & q & Hq & Hlq). destruct (Hforth u b q Hq) as (q0 & Hq0 & E1 & _). exists u, q0. by rewrite E1.
  - intros u1 u2 b1 b2 q1 q2 ch H1 H2 E1 E2. destruct (Hback _ _ _ H1) as (r1 & R1 & _ & X1). destruct (Hback _ _ _ H2) as (r2 & R2 & _ & X2).
    eapply F3; [exact R1|exact R2|rewrite X1; exact E1|by rewrite X2].
  - intros u b q ch Hq Hhq. destruct (Hback u b q Hq) as (q0 & Hq0 & _ & E1). eapply F4; [exact Hq0|]. by rewrite E1.
  - intros u b ch Hq.
    assert (ch ∈ mg_closed (wo_m w) ∨ ∃ t' a' q, wo_threads w !! t' = Some {| th_account := a'; th_pc := q |} ∧ holds q = Some ch) as [Hc|(t' & a' & q & Hq' & Hhq)].
    { apply lookup_insert_Some in Hq as [[<- [= <- ->]]|[_ Hq]]; [by apply Hw|by eapply F5]. }
    + by left.
    + right. destruct (Hforth _ _ _ Hq') as (q0 & Hq0 & _ & E1). exists t', a', q0. by rewrite E1.
Qed.

Lemma gate_wait now a m ch : gate now a m = GWait ch → mg_pending m !! a = Some ch.
Proof. unfold gate, lead. intros H. repeat case_match; congruence. Qed.

Lemma gate_lead now a m ch m' : gate now a m = GLead ch m' →
  mg_pending m !! a = None ∧ ch = mg_channels m ∧ mg_pending m' = <[a := ch]> (mg_pending m) ∧ mg_channels m' = S ch ∧ mg_closed m' = mg_closed m ∧
  mg_daemons m' = mg_daemons m ∧ mg_byName m' = mg_byName m.
Proof. unfold gate, lead. intros H. repeat case_match; simplify_eq; done. Qed.

Lemma finish_maps now a r g m m' r' : finish now a r g m = (m', r') →
  mg_pending m' = delete a (mg_pending m) ∧ mg_channels m' = mg_channels m ∧ mg_closed m' = mg_closed m.
Proof. unfold finish. destruct r; [|destruct g]; intros [= <- <-]; done. Qed.

(** Taking the lead, giving up the account, and closing the channel. *)
Lemma flights_lead w t a ch m' : flights w → wo_threads w !! t = Some {| th_account := a; th_pc := PGate |} →
  gate (wo_now w) a (wo_m w) = GLead ch m' →
  flights {| wo_m := m'; wo_threads := <[t := {| th_account := a; th_pc := PStart ch |}]> (wo_threads w); wo_now := wo_now w; wo_confirmed := wo_confirmed w |}.
Proof.
  intros [F1 F2 F3 F4 F5] Ht (Hn & -> & Ep & Ec & Ecl & _)%gate_lead. set (ch := mg_channels (wo_m w)) in *.
  assert (∀ u b q, wo_threads w !! u = Some {| th_account := b; th_pc := q |} → holds q ≠ Some ch) as Hfresh by (intros u b q Hq Hh; apply (F4 u b q ch) in Hh; [lia|done]).
  constructor; cbn [wo_m wo_threads]; rewrite ?Ep, ?Ec, ?Ecl.
  - intros u b q c [[<- [= <- <-]]|[Hne Hq]]%lookup_insert_Some Hl; [injection Hl as <-; by rewrite lookup_insert_eq|].
    pose proof (F1 u b q c Hq Hl) as Hb. rewrite lookup_insert_ne; [done|]. intros <-. congruence.
  - intros b c [[<- <-]|[Hne Hb]]%lookup_insert_Some; [exists t, (PStart ch); by rewrite lookup_insert_eq|].
    destruct (F2 b c Hb) as (u & q & Hq & Hl). exists u, q. rewrite lookup_insert_ne; [done|]. intros <-. rewrite Ht in Hq. by simplify_eq.
  - intros u1 u2 b1 b2 q1 q2 c H1 H2 E1 E2.
    apply lookup_insert_Some in H1 as [[<- [= <- <-]]|[N1 H1]]; apply lookup_insert_Some in H2 as [[<- [= <- <-]]|[N2 H2]]; [done| | |by eapply F3].
    + injection E1 as <-. by destruct (Hfresh u2 b2 q2 H2).
    + injection E2 as <-. by destruct (Hfresh u1 b1 q1 H1).
  - intros u b q c [[<- [= <- <-]]|[_ Hq]]%lookup_insert_Some Hh; [injection Hh as <-; lia|]. specialize (F4 u b q c Hq Hh). lia.
  - intros u b c [[_ [= _]]|[_ Hq]]%lookup_insert_Some. destruct (F5 u b c Hq) as [?|(t' & a' & q & Hq' & Hh)]; [by left|]. right. exists t', a', q.
    rewrite lookup_insert_ne; [done|]. intros <-. rewrite Ht in Hq'. by simplify_eq.
Qed.

Lemma flights_finish w t a ch r g m' r' c' : flights w → wo_threads w !! t = Some {| th_account := a; th_pc := PEnd ch r g |} →
  finish (wo_now w) a r g (wo_m w) = (m', r') →
  flights {| wo_m := m'; wo_threads := <[t := {| th_account := a; th_pc := PClose ch (wo_now w) r' |}]> (wo_threads w); wo_now := wo_now w; wo_confirmed := c' |}.
Proof.
  intros [F1 F2 F3 F4 F5] Ht (Ep & Ec & Ecl)%finish_maps. pose proof (F1 t a _ ch Ht eq_refl) as Ha.
  constructor; cbn [wo_m wo_threads]; rewrite ?Ep, ?Ec, ?Ecl.
  - intros u b q c [[<- [= <- <-]]|[Hne Hq]]%lookup_insert_Some Hl; [done|]. pose proof (F1 u b q c Hq Hl) as Hb. rewrite lookup_delete_ne; [done|]. intros <-.
    rewrite Ha in Hb. injection Hb as <-. apply Hne. eapply F3; [exact Ht|exact Hq|done|by apply leads_holds].
  - intros b c [Hne Hb]%lookup_delete_Some. destruct (F2 b c Hb) as (u & q & Hq & Hl). exists u, q. rewrite lookup_insert_ne; [done|]. intros <-.
    rewrite Ht in Hq. by simplify_eq.
  - intros u1 u2 b1 b2 q1 q2 c H1 H2 E1 E2.
    apply lookup_insert_Some in H1 as [[<- [= <- <-]]|[N1 H1]]; apply lookup_insert_Some in H2 as [[<- [= <- <-]]|[N2 H2]]; [done| | |by eapply F3].
    + eapply F3; [exact Ht|exact H2|exact E1|done].
    + eapply F3; [exact H1|exact Ht|done|exact E2].
  - intros u b q c [[<- [= <- <-]]|[_ Hq]]%lookup_insert_Some Hh; [by eapply (F4 t a (PEnd ch r g))|by eapply F4].
  - intros u b c [[_ [= _]]|[_ Hq]]%lookup_insert_Some. destruct (F5 u b c Hq) as [?|(t' & a' & q & Hq' & Hh)]; [by left|]. right.
    destruct (decide (t = t')) as [<-|Hne]; [|exists t', a', q; by rewrite lookup_insert_ne].
    rewrite Ht in Hq'. injection Hq' as <- <-. exists t, a, (PClose ch (wo_now w) r'). by rewrite lookup_insert_eq.
Qed.

Lemma flights_close w t a ch at_ r : flights w → wo_threads w !! t = Some {| th_account := a; th_pc := PClose ch at_ r |} →
  flights {| wo_m := closeWait ch (wo_m w); wo_threads := <[t := {| th_account := a; th_pc := PDone at_ r |}]> (wo_threads w); wo_now := wo_now w; wo_confirmed := wo_confirmed w |}.
Proof.
  intros [F1 F2 F3 F4 F5] Ht. constructor; cbn [wo_m wo_threads closeWait mg_pending mg_channels mg_closed].
  - intros u b q c [[<- [= <- <-]]|[_ Hq]]%lookup_insert_Some Hl; [done|by eapply F1].
  - intros b c Hb. destruct (F2 b c Hb) as (u & q & Hq & Hl). exists u, q. rewrite lookup_insert_ne; [done|]. intros <-. rewrite Ht in Hq. by simplify_eq.
  - intros u1 u2 b1 b2 q1 q2 c [[<- [= <- <-]]|[N1 H1]]%lookup_insert_Some; [done|]. intros [[<- [= <- <-]]|[N2 H2]]%lookup_insert_Some; [done|by eapply F3].
  - intros u b q c [[<- [= <- <-]]|[_ Hq]]%lookup_insert_Some Hh; [done|by eapply F4].
  - intros u b c [[_ [= _]]|[_ Hq]]%lookup_insert_Some. destruct (F5 u b c Hq) as [?|(t' & a' & q & Hq' & Hh)]; [left; set_solver|].
    destruct (decide (t = t')) as [<-|Hne]; [rewrite Ht in Hq'; injection Hq' as <- <-; injection Hh as <-; left; set_solver|].
    right. exists t', a', q. by rewrite lookup_insert_ne.
Qed.

Lemma flights_same w m' now' c' : flights w → mg_pending m' = mg_pending (wo_m w) → mg_channels m' = mg_channels (wo_m w) → mg_closed m' = mg_closed (wo_m w) →
  flights {| wo_m := m'; wo_threads := wo_threads w; wo_now := now'; wo_confirmed := c' |}.
Proof. intros [F1 F2 F3 F4 F5] Ep Ec Ecl. constructor; cbn [wo_m wo_threads]; rewrite ?Ep, ?Ec, ?Ecl; done. Qed.

Lemma flights_call w t a : flights w → wo_threads w !! t = None →
  flights {| wo_m := wo_m w; wo_threads := <[t := {| th_account := a; th_pc := PLook |}]> (wo_threads w); wo_now := wo_now w; wo_confirmed := wo_confirmed w |}.
Proof.
  intros [F1 F2 F3 F4 F5] Ht.
  assert (∀ u x, wo_threads w !! u = Some x → <[t := {| th_account := a; th_pc := PLook |}]> (wo_threads w) !! u = Some x) as Hk
    by (intros u x Hu; rewrite lookup_insert_ne; [done|]; intros <-; congruence).
  constructor; cbn [wo_m wo_threads].
  - intros u b q c [[<- [= <- <-]]|[_ Hq]]%lookup_insert_Some Hl; [done|by eapply F1].
  - intros b c Hb. destruct (F2 b c Hb) as (u & q & Hq & Hl). exists u, q. auto.
  - intros u1 u2 b1 b2 q1 q2 c [[<- [= <- <-]]|[N1 H1]]%lookup_insert_Some; [done|]. intros [[<- [= <- <-]]|[N2 H2]]%lookup_insert_Some; [done|by eapply F3].
  - intros u b q c [[<- [= <- <-]]|[_ Hq]]%lookup_insert_Some Hh; [done|by eapply F4].
  - intros u b c [[_ [= _]]|[_ Hq]]%lookup_insert_Some. destruct (F5 u b c Hq) as [?|(t' & a' & q & Hq' & Hh)]; [by left|]. right. exists t', a', q. auto.
Qed.

Lemma flights_step w w' : step w w' → flights w → flights w'.
Proof.
  intros Hs Hf. destruct Hs as [w t a Ht|w t a p m' p' c Ht Hstep|w d _ _|w a|w d _]; [by apply flights_call| |by apply flights_same..].
  destruct Hstep; try (by eapply flights_quiet).
  - eapply flights_quiet; [done|exact Ht|done..|]. intros c [= <-]. right. apply gate_wait in H. destruct (fl_leader w Hf a ch H) as (t' & q & Hq & Hl).
    exists t', a, q. split; [done|]. by apply leads_holds.
  - by eapply flights_lead.
  - by eapply flights_finish.
  - by apply flights_close.
Qed.

Lemma flights_reachable now w : rtc step (startWorld now) w → flights w.
Proof.
  intros H. remember (startWorld now) as w0 eqn:E. assert (flights w0) as H0 by (subst; constructor; cbn; naive_solver).
  clear E. induction H as [|w1 w2 w3 Hs _ IH]; [done|]. apply IH. by eapply flights_step.
Qed.

(** However many sessions of an account arrive together, one of them starts
    its daemon: no two callers are in a start of the same account at once.  And a
    caller that waits for another's start is not left waiting: the channel is
    closed, or somebody is still to close it. *)
Theorem one_start_per_account now w : rtc step (startWorld now) w →
  (∀ t1 t2 a p1 p2, wo_threads w !! t1 = Some {| th_account := a; th_pc := p1 |} → wo_threads w !! t2 = Some {| th_account := a; th_pc := p2 |} →
     is_Some (leads p1) → is_Some (leads p2) → t1 = t2) ∧
  (∀ t a ch, wo_threads w !! t = Some {| th_account := a; th_pc := PWait ch |} →
     ch ∈ mg_closed (wo_m w) ∨ ∃ t' a' p', wo_threads w !! t' = Some {| th_account := a'; th_pc := p' |} ∧ holds p' = Some ch).
Proof.
  intros Hr. pose proof (flights_reachable _ _ Hr) as [F1 F2 F3 F4 F5]. split; [|done]. intros t1 t2 a p1 p2 H1 H2 [c1 L1] [c2 L2].
  pose proof (F1 _ _ _ _ H1 L1) as E1. pose proof (F1 _ _ _ _ H2 L2) as E2. rewrite E1 in E2. injection E2 as <-.
  eapply F3; [exact H1|exact H2|by apply leads_holds|by apply leads_holds].
Qed.

(** ** What is handed out *)

Definition owned (w : World) (a : string) (id : nat) : Prop := ∃ d, mg_daemons (wo_m w) !! id = Some d ∧ ownDaemon a d.

(** A daemon settled on at a time: the account's, and confirmed within the time a
    confirmation is believed for. *)
Definition settledOn (w : World) (a : string) (at_ : Time) (id : nat) : Prop :=
  owned w a id ∧ ∃ t', (id, t') ∈ wo_confirmed w ∧ t' ≤ at_ ∧ Sub at_ t' < aliveTTL.

Definition thread_ok (w : World) (a : string) (p : pc) : Prop :=
  match p with
  | PAlive id | PConfirmed id => owned w a id
  | PEnd _ (Ok d) _ => ownDaemon a d
  | PClose _ at_ (Ok id) | PDone at_ (Ok id) => settledOn w a at_ id
  | _ => True
  end.

Record handing (w : World) : Prop := {
  hd_now : 0 ≤ wo_now w;
  hd_byName : ∀ a id, mg_byName (wo_m w) !! a = Some id → owned w a id;
  hd_checked : ∀ id d, mg_daemons (wo_m w) !! id = Some d → dm_checked d = zeroTime ∨ (id, dm_checked d) ∈ wo_confirmed w;
  hd_past : ∀ id t, (id, t) ∈ wo_confirmed w → t ≤ wo_now w;
  hd_threads : ∀ t a p, wo_threads w !! t = Some {| th_account := a; th_pc := p |} → thread_ok w a p
}.

(** What changes of daemons keep: their accounts, and what was confirmed. *)
Definition later (w w' : World) : Prop := (∀ a id, owned w a id → owned w' a id) ∧ (∀ x, x ∈ wo_confirmed w → x ∈ wo_confirmed w').

Lemma later_thread w w' a p : later w w' → thread_ok w a p → thread_ok w' a p.
Proof.
  intros [Ho Hc]. unfold thread_ok, settledOn. destruct p as [| | | | | |? [] ?|? ? []|? []]; auto; intros [H1 (t' & H2 & H3)]; (split; [auto|]; exists t'; auto).
Qed.

(** The threads after a step of one of them. *)
Lemma threads_after w w' t a p' : later w w' → handing w → wo_threads w' = <[t := {| th_account := a; th_pc := p' |}]> (wo_threads w) → thread_ok w' a p' →
  ∀ u b q, wo_threads w' !! u = Some {| th_account := b; th_pc := q |} → thread_ok w' b q.
Proof. intros Hl Hh E Hok u b q. rewrite E. intros [[<- [= <- <-]]|[_ Hq]]%lookup_insert_Some; [done|]. eapply later_thread; [done|]. by eapply hd_threads. Qed.

(** A step that leaves the heap, the names, the clock and the confirmations. *)
Lemma handing_same w t a p' m' : handing w → mg_daemons m' = mg_daemons (wo_m w) → mg_byName m' = mg_byName (wo_m w) →
  (∀ w', later w w' → thread_ok w' a p') →
  handing {| wo_m := m'; wo_threads := <[t := {| th_account := a; th_pc := p' |}]> (wo_threads w); wo_now := wo_now w; wo_confirmed := wo_confirmed w |}.
Proof.
  intros Hh Ed En Hok. set (w' := Build_World _ _ _ _). assert (later w w') as Hl by (split; [|auto]; intros b id (d & Hd & Ho); exists d; cbn; by rewrite Ed).
  pose proof Hh as [H1 H2 H3 H4 H5]. constructor; [done| | |done|].
  - intros b id Hb. cbn in Hb. rewrite En in Hb. apply Hl. auto.
  - intros id d Hd. cbn in Hd. rewrite Ed in Hd. auto.
  - eapply threads_after; [done|done|done|by apply Hok].
Qed.

Lemma Sub_self t : Sub t t = 0.
Proof. unfold Sub. lia. Qed.

Lemma known_owned w a id b : handing w → known (wo_now w) a (wo_m w) = Some (id, b) → owned w a id ∧ (b = true → settledOn w a (wo_now w) id).
Proof.
  intros [H1 H2 H3 H4 _] Hk. unfold known in Hk. destruct (mg_byName (wo_m w) !! a) as [id'|] eqn:Eb; [|done]. cbn in Hk.
  destruct (mg_daemons (wo_m w) !! id') as [d|] eqn:Ed; [|done]. cbn in Hk. injection Hk as <- <-. pose proof (H2 a id' Eb) as Ho. split; [done|]. intros Hf.
  apply Z.ltb_lt in Hf. split; [done|]. destruct (H3 id' d Ed) as [Hz|Hc]; [|exists (dm_checked d); eauto].
  exfalso. rewrite Hz in Hf. unfold Sub, zeroTime, aliveTTL, Second in Hf. lia.
Qed.

Lemma newId_fresh m : mg_daemons m !! newId m = None.
Proof. apply not_elem_of_dom. unfold newId. apply is_fresh. Qed.

Lemma handing_confirm w t a id : handing w → wo_threads w !! t = Some {| th_account := a; th_pc := PConfirmed id |} →
  handing {| wo_m := confirm (wo_now w) id (wo_m w); wo_threads := <[t := {| th_account := a; th_pc := PDone (wo_now w) (Ok id) |}]> (wo_threads w); wo_now := wo_now w;
             wo_confirmed := (id, wo_now w) :: wo_confirmed w |}.
Proof.
  intros Hh Ht. set (w' := Build_World _ _ _ _). pose proof Hh as [H1 H2 H3 H4 H5].
  assert (later w w') as Hl.
  { split; [|intros x Hx; by right]. intros b i (d & Hd & Ho). unfold owned. cbn. destruct (decide (id = i)) as [<-|Hne].
    - rewrite lookup_alter_eq, Hd. cbn. eauto.
    - rewrite lookup_alter_ne by done. eauto. }
  constructor; cbn [wo_m wo_now wo_confirmed].
  - done.
  - intros b i Hb. apply Hl. auto.
  - intros i d Hd. cbn in Hd. destruct (decide (id = i)) as [<-|Hne].
    + rewrite lookup_alter_eq in Hd. destruct (mg_daemons (wo_m w) !! id); [|done]. injection Hd as <-. right. by left.
    + rewrite lookup_alter_ne in Hd by done. destruct (H3 i d Hd); [by left|right; by right].
  - intros i t' [[= -> ->]|Hc]%elem_of_cons; [done|eauto].
  - eapply threads_after; [exact Hl|done|done|]. split; [apply Hl, (H5 t a _ Ht)|]. exists (wo_now w). split; [by left|]. split; [done|]. by rewrite Sub_self.
Qed.

Lemma handing_finish w t a ch r g m' r' : handing w → wo_threads w !! t = Some {| th_account := a; th_pc := PEnd ch r g |} →
  finish (wo_now w) a r g (wo_m w) = (m', r') →
  handing {| wo_m := m'; wo_threads := <[t := {| th_account := a; th_pc := PClose ch (wo_now w) r' |}]> (wo_threads w); wo_now := wo_now w;
             wo_confirmed := match match r' with Ok id => Some id | Err _ => None end with Some id => (id, wo_now w) :: wo_confirmed w | None => wo_confirmed w end |}.
Proof.
  intros Hh Ht E. pose proof (hd_threads w Hh t a _ Ht) as Hok. unfold finish in E. destruct r as [d|e].
  - injection E as <- <-. set (id := newId (unpend a (wo_m w))). set (d' := set_checked (wo_now w) d). set (w' := Build_World _ _ _ _). pose proof Hh as [H1 H2 H3 H4 H5].
    assert (mg_daemons (wo_m w) !! id = None) as Hfr by exact (newId_fresh (unpend a (wo_m w))).
    assert (owned w' a id) as Hnew by (exists d'; cbn; rewrite lookup_insert_eq; done).
    assert (later w w') as Hl.
    { split; [|intros x Hx; by right]. intros b i (d0 & Hd0 & Ho). exists d0. split; [|done]. cbn. rewrite lookup_insert_ne; [done|]. intros Ei. assert (id = i) as <- by exact Ei. congruence. }
    constructor; cbn [wo_m wo_now wo_confirmed].
    + done.
    + intros b i Hb. cbn in Hb. apply lookup_insert_Some in Hb as [[<- <-]|[_ Hb]]; [done|]. apply Hl. auto.
    + intros i d0 Hd. cbn in Hd. apply lookup_insert_Some in Hd as [[<- <-]|[_ Hd]]; [right; by left|]. destruct (H3 i d0 Hd); [by left|right; by right].
    + intros i t' [[= -> ->]|Hc]%elem_of_cons; [done|eauto].
    + eapply threads_after; [exact Hl|done|done|]. split; [done|]. exists (wo_now w). split; [by left|]. split; [done|]. by rewrite Sub_self.
  - injection E as <- <-. cbn. apply handing_same; [done|by destruct g|by destruct g|done].
Qed.

Lemma handing_adopt w d : handing w → ownDaemon (dm_Account d) d → dm_checked d = zeroTime →
  handing {| wo_m := adoptOne d (wo_m w); wo_threads := wo_threads w; wo_now := wo_now w; wo_confirmed := wo_confirmed w |}.
Proof.
  intros Hh Ho Hz. set (w' := Build_World _ _ _ _). pose proof Hh as [H1 H2 H3 H4 H5]. pose proof (newId_fresh (wo_m w)) as Hfr.
  assert (later w w') as Hl.
  { split; [|auto]. intros b i (d0 & Hd0 & Hb). exists d0. split; [|done]. cbn. rewrite lookup_insert_ne; [done|]. intros <-. congruence. }
  constructor; cbn [wo_m wo_now wo_confirmed wo_threads].
  - done.
  - intros b i Hb. cbn in Hb. apply lookup_insert_Some in Hb as [[<- <-]|[_ Hb]]; [|apply Hl; auto]. exists d. cbn. by rewrite lookup_insert_eq.
  - intros i d0 Hd. cbn in Hd. apply lookup_insert_Some in Hd as [[<- <-]|[_ Hd]]; auto.
  - done.
  - intros u b q Hq. eapply later_thread; [exact Hl|]. by eapply H5.
Qed.

Lemma handing_step w w' : step w w' → handing w → handing w'.
Proof.
  intros Hs Hh. destruct Hs as [w t a Ht|w t a p m' p' c Ht Hstep|w d Ho Hz|w a|w d Hd].
  - by apply handing_same.
  - pose proof (hd_threads w Hh t a p Ht) as Hok. destruct Hstep; try (by apply handing_same).
    + apply handing_same; [done..|]. intros w' Hl. eapply later_thread; [exact Hl|]. destruct (known_owned w a id true Hh H) as [_ Hset]. by apply Hset.
    + apply handing_same; [done..|]. intros w' Hl. eapply later_thread; [exact Hl|]. by destruct (known_owned w a id false Hh H).
    + apply handing_same; [done..|]. intros w' Hl. by apply (later_thread w w' a (PConfirmed id)).
    + by apply handing_confirm.
    + apply gate_lead in H as (_ & _ & _ & _ & _ & Ed & En). by apply handing_same.
    + by eapply handing_finish.
    + apply handing_same; [done..|]. intros w' Hl. by apply (later_thread w w' a (PDone at_ r)).
  - by apply handing_adopt.
  - pose proof Hh as [H1 H2 H3 H4 H5]. constructor; [done| |done|done|done]. intros b id Hb. cbn in Hb. apply lookup_delete_Some in Hb as [_ Hb]. exact (H2 b id Hb).
  - pose proof Hh as [H1 H2 H3 H4 H5]. constructor; cbn [wo_now wo_m wo_confirmed wo_threads]; [lia|done|done| |done]. intros id t Ht. specialize (H4 id t Ht). lia.
Qed.

Lemma handing_reachable now w : 0 ≤ now → rtc step (startWorld now) w → handing w.
Proof.
  intros Hn H. remember (startWorld now) as w0 eqn:E. assert (handing w0) as H0 by (subst; constructor; cbn; [done|intros; by simplify_map_eq|intros; by simplify_map_eq|intros ? ? []%elem_of_nil|intros; by simplify_map_eq]).
  clear E Hn. induction H as [|w1 w2 w3 Hs _ IH]; [done|]. apply IH. by eapply handing_step.
Qed.

(** A caller is only ever handed its own account's daemon, at that account's
    socket, and one that a start or a check of its process had confirmed less than
    two seconds before the answer was settled: never one that was merely adopted
    from an earlier agent. *)
Theorem handed_out_daemons_answered now w t a at_ id : 0 ≤ now → rtc step (startWorld now) w →
  wo_threads w !! t = Some {| th_account := a; th_pc := PDone at_ (Ok id) |} →
  (∃ d, mg_daemons (wo_m w) !! id = Some d ∧ dm_Account d = a ∧ dm_Socket d = SocketPathFor a) ∧
  ∃ t', (id, t') ∈ wo_confirmed w ∧ t' ≤ at_ ∧ Sub at_ t' < aliveTTL.
Proof. intros Hn Hr Ht. exact (hd_threads w (handing_reachable _ _ Hn Hr) t a _ Ht). Qed.
