(* ===== verification/EnrolPolicy.v ===== *)
(** * Who may manage accounts (agent/internal/sshd/enrolpolicy.go,
    core/enrol/manage.go)

    One operation and the facts it is decided on.  A refusal is named by its reason,
    with what it says of the request; [Code] is what the client switches on, and the
    wording is left out. *)

From S2P Require Import Prelude GoStrings Records.
Open Scope Z_scope.

(** ** core/enrol: operations, refusals *)

Definition OpWhoami : string := "whoami".
Definition OpTokenCreate : string := "token.create".
Definition OpTokenList : string := "token.ls".
Definition OpTokenRemove : string := "token.rm".
Definition OpUserList : string := "user.ls".
Definition OpUserRemove : string := "user.rm".
Definition OpKeyList : string := "key.ls".
Definition OpKeyAdd : string := "key.add".
Definition OpKeyRemove : string := "key.rm".

Inductive refusal :=
| Denied (op target caller : string)
| AdminsCreateTokens (caller : string)
| TooManyTokens (live : Z)
| OwnAccount
| OperatorHolds (op target dir : string)
| LastAdmin (target : string)
| ConnectedKey
| LastKey
| BadAccountName (asked : string)
| BothTargets
| NameToRemove
| UnknownOp (op : string)
| CannotStore
| TokensUnreadable
| MintFailed
| NoToken (id : string)
| NoAccount (name : string)
| RunningUnknown (target : string)
| StillRunning (target : string) (n : Z)
| NotPublicKey
| NotCreated (target : string)
| NoKey (target fp : string)
| NotWritten
| Busy
| Refused
| OtherAccount (bound asked : string)
| NoNameGiven
| ReservedName (name : string)
| AccountsUnreadable
| NameTaken (name : string)
| NotEnrolled
| BadRequest.

#[export] Instance refusal_eq_dec : EqDecision refusal.
Proof. solve_decision. Defined.

Definition CodeRefused : string := "refused".
Definition CodeName : string := "name".
Definition CodeStorage : string := "storage".
Definition CodeBusy : string := "busy".
Definition CodeFailed : string := "failed".
Definition CodeDenied : string := "denied".
Definition CodeForce : string := "force".
Definition CodeUnknown : string := "unknown".

Definition Code (e : refusal) : string :=
  match e with
  | Denied _ _ _ | AdminsCreateTokens _ | TooManyTokens _ | OwnAccount | OperatorHolds _ _ _ | LastAdmin _ => CodeDenied
  | ConnectedKey | LastKey | RunningUnknown _ | StillRunning _ _ => CodeForce
  | BadAccountName _ | BothTargets | NameToRemove | OtherAccount _ _ | NoNameGiven | ReservedName _ | NameTaken _ => CodeName
  | UnknownOp _ | NoToken _ | NoAccount _ | NoKey _ _ => CodeUnknown
  | CannotStore => CodeStorage
  | TokensUnreadable | MintFailed | NotPublicKey | NotCreated _ | NotWritten | AccountsUnreadable | NotEnrolled | BadRequest => CodeFailed
  | Busy => CodeBusy
  | Refused => CodeRefused
  end.

(** ** agent/internal/sshd/enrolpolicy.go *)

Record check := {
  ck_Op : string;
  ck_Caller : string;
  ck_Admin : bool;
  ck_Target : string;
  ck_TargetAdmin : bool;
  ck_TargetKeys : Z;
  ck_KeysLeft : Z;
  ck_OtherAdmins : Z;
  ck_OperatorDir : string;
  ck_LiveTokens : Z;
  ck_AdminOnlyTokens : bool;
  ck_Connected : bool;
  ck_Force : bool
}.

Definition maxSelfTokens : Z := 10.

Definition denied (c : check) : refusal := Denied (ck_Op c) (ck_Target c) (ck_Caller c).

(** The removal that would leave no admin with a key, and those that need a force. *)
Definition authorizeLast (c : check) : option refusal :=
  if ck_TargetAdmin c && (0 <? ck_TargetKeys c) && (ck_KeysLeft c =? 0) && (ck_OtherAdmins c =? 0) then Some (LastAdmin (ck_Target c))
  else if bool_decide (ck_Op c = OpKeyRemove) && bool_decide (ck_Target c = ck_Caller c) && negb (ck_Force c) then
    if ck_Connected c then Some ConnectedKey else if ck_KeysLeft c =? 0 then Some LastKey else None
  else None.

Definition authorize (c : check) : option refusal :=
  let creates := bool_decide (ck_Op c = OpTokenCreate) && negb (ck_Admin c) in
  if bool_decide (ck_Op c = OpWhoami) then None
  else if negb (ck_Admin c) && (bool_decide (ck_Op c = OpUserList ∨ ck_Op c = OpUserRemove) || bool_decide (ck_Target c ≠ ck_Caller c)) then Some (denied c)
  else if creates && ck_AdminOnlyTokens c then Some (AdminsCreateTokens (ck_Caller c))
  else if creates && (maxSelfTokens <=? ck_LiveTokens c) then Some (TooManyTokens (ck_LiveTokens c))
  else if bool_decide (ck_Op c = OpUserRemove) then
    if bool_decide (ck_Target c = ck_Caller c) then Some OwnAccount
    else if bool_decide (ck_OperatorDir c ≠ ""%string) then Some (OperatorHolds (ck_Op c) (ck_Target c) (ck_OperatorDir c))
    else authorizeLast c
  else if bool_decide (ck_Op c = OpKeyRemove) then
    if bool_decide (ck_OperatorDir c ≠ ""%string) then Some (OperatorHolds (ck_Op c) (ck_Target c) (ck_OperatorDir c))
    else authorizeLast c
  else None.

(** What an operation that was allowed says of the caller. *)
Lemma authorize_self c : authorize c = None → ck_Admin c = false → ck_Op c ≠ OpWhoami → ck_Target c = ck_Caller c ∧ ck_Op c ≠ OpUserList ∧ ck_Op c ≠ OpUserRemove.
Proof.
  unfold authorize. intros H Ha Hw. rewrite Ha, (bool_decide_eq_false_2 (ck_Op c = OpWhoami)) in H by done. cbn [negb andb] in H.
  destruct (bool_decide (ck_Op c = OpUserList ∨ ck_Op c = OpUserRemove)) eqn:E1; [done|]. destruct (bool_decide (ck_Target c ≠ ck_Caller c)) eqn:E2; [done|].
  apply bool_decide_eq_false in E1, E2. destruct (decide (ck_Target c = ck_Caller c)); [|done]. tauto.
Qed.

(** An allowed removal. *)
Lemma authorize_removal c : authorize c = None → ck_Op c = OpUserRemove ∨ ck_Op c = OpKeyRemove →
  ck_OperatorDir c = ""%string ∧ (ck_Op c = OpUserRemove → ck_Target c ≠ ck_Caller c) ∧
  (ck_TargetAdmin c = true → 0 < ck_TargetKeys c → ck_KeysLeft c = 0 → ck_OtherAdmins c ≠ 0).
Proof.
  unfold authorize. intros H Hop. destruct (bool_decide (ck_Op c = OpWhoami)) eqn:Ew; [by destruct Hop as [Hop|Hop]; rewrite Hop in Ew|].
  destruct (negb (ck_Admin c) && _); [done|]. destruct (_ && ck_AdminOnlyTokens c); [done|]. destruct (_ && (maxSelfTokens <=? _)); [done|].
  assert (authorizeLast c = None → ck_TargetAdmin c = true → 0 < ck_TargetKeys c → ck_KeysLeft c = 0 → ck_OtherAdmins c ≠ 0) as Hl.
  { unfold authorizeLast. intros HL Hta Hk Hl Ho. rewrite Hta, Hl, Ho, (proj2 (Z.ltb_lt 0 _) Hk) in HL. done. }
  destruct (bool_decide (ck_Op c = OpUserRemove)) eqn:Eu.
  - destruct (bool_decide (ck_Target c = ck_Caller c)) eqn:Et; [done|]. destruct (bool_decide (ck_OperatorDir c ≠ _)) eqn:Ed; [done|].
    apply bool_decide_eq_false in Et, Ed. split_and!; [by destruct (decide (ck_OperatorDir c = ""%string))|done|auto].
  - apply bool_decide_eq_false in Eu. destruct Hop as [?|Hop]; [done|]. rewrite bool_decide_eq_true_2 in H by done. destruct (bool_decide (ck_OperatorDir c ≠ _)) eqn:Ed; [done|].
    apply bool_decide_eq_false in Ed. split_and!; [by destruct (decide (ck_OperatorDir c = ""%string))|done|auto].
Qed.

(** A non-admin's tokens are few. *)
Lemma authorize_quota c : authorize c = None → ck_Op c = OpTokenCreate → ck_Admin c = false → ck_AdminOnlyTokens c = false ∧ ck_LiveTokens c < maxSelfTokens.
Proof.
  unfold authorize. intros H Ho Ha. rewrite Ho, Ha in H. cbn [negb andb] in H. rewrite (bool_decide_eq_false_2 (OpTokenCreate = OpWhoami)), (bool_decide_eq_true_2 (OpTokenCreate = OpTokenCreate)) in H by done. cbn [negb andb] in H. destruct (_ || _); [done|]. destruct (ck_AdminOnlyTokens c); [done|].
  destruct (maxSelfTokens <=? ck_LiveTokens c) eqn:E; [done|]. apply Z.leb_gt in E. done.
Qed.
