(* ===== verification/Manage.v ===== *)
(** * Managing the accounts of a workspace (agent/internal/sshd/manage.go,
    core-agent/accounts/purge.go, core/enrol/manage.go)

    One request of an account that has authenticated, over the store of accounts,
    the directory of tokens, the registry of runs and the ports they hold.  What a
    request finds outside is an argument: the state directory at each call, whether
    the directories can be used, the clock, the tokens drawn, what the provisioning
    under way does while the request waits for it, and what the account's daemon
    answers.  A change of the daemon is a call that is recorded.  The audit log is
    left out. *)

From Stdlib Require Import Ascii.
From S2P Require Import Prelude GoStrings GoTime Records Names Mounts AccountPorts Ephemeral KeyFiles Accounts Tokens EnrolPolicy.
Open Scope Z_scope.

(** ** What a request finds *)

(** A turn of the goroutine that provisions accounts. *)
Inductive provisionEvent :=
| Ensured (name unix home : string)
| Resynced (env : stateEnv)
| Ended (name : string).

(** What [removeHome] finds of the home. *)
Inductive homeFound :=
| HomeGone
| HomeUnreadable
| HomeAt (isDir : bool) (owner : option Z) (mounted : option string) (removable : bool).

Record serverEnv := {
  ev_state : nat → stateEnv;
  ev_writable : bool;
  ev_listable : bool;
  ev_now : Time;
  ev_drawn : list (string * string);
  ev_wait : list provisionEvent;
  ev_timedOut : bool;
  ev_running : Z;
  ev_reset : bool;
  ev_shared : bool;
  ev_home : homeFound;
  ev_userGone : bool;
  ev_ports : portEnv;
  ev_recordable : bool
}.

(** ** core/enrol/manage.go *)

Record Request := {
  rq_Op : string;
  rq_Account : string;
  rq_Unbound : bool;
  rq_Expires : Duration;
  rq_Note : string;
  rq_ID : string;
  rq_Key : string;
  rq_Fingerprint : string;
  rq_Force : bool;
  rq_Purge : bool
}.

Record TokenInfo := {
  ti_ID : string;
  ti_Token : string;
  ti_Account : string;
  ti_Expires : Time;
  ti_Creator : string;
  ti_Note : string
}.

Definition StateConnected : string := "connected".
Definition StateEnrolled : string := "enrolled".
Definition StateRevoked : string := "revoked".
Definition StateNotEnrolled : string := "not enrolled".

Record User := {
  us_Name : string;
  us_UID : Z;
  us_Sources : list (string * bool * Z);
  us_Admin : bool;
  us_State : string
}.

Record KeyInfo := {
  ky_Fingerprint : string;
  ky_Comment : string;
  ky_Dir : string;
  ky_Operator : bool;
  ky_Current : bool
}.

Inductive notice :=
| DaemonNotRemoved (target : string) (purge : bool)
| FilesNotPurged (target : string)
| PortsStillRecorded (target : string)
| SharedDaemon (target : string)
| StillAdmin (target : string)
| StillBeingCreated (target : string)
| AlreadyEnrolled (target : string).

(** The reply: one of its answers, what the person should know, or a refusal. *)
Inductive Reply :=
| RWhoami (account : string) (admin : bool) (fingerprint : string)
| RToken (t : TokenInfo)
| RTokens (l : list TokenInfo)
| RUsers (l : list User)
| RKeys (l : list KeyInfo)
| RDone (notices : list notice)
| RError (e : refusal).

(** The account a connection authenticated as. *)
Record sessionAccount := {
  sa_name : string;
  sa_fingerprint : string
}.

(** ** The server *)

Record Server (key : Type) := {
  sv_accounts : Store key;
  sv_tokens : option store;
  sv_Admins : gset string;
  sv_AdminOnlyTokens : bool;
  sv_runs : Registry Ports;
  sv_resets : list (string * bool)
}.
Arguments sv_accounts {key}.
Arguments sv_tokens {key}.
Arguments sv_Admins {key}.
Arguments sv_AdminOnlyTokens {key}.
Arguments sv_runs {key}.
Arguments sv_resets {key}.

Section manage.
Context {key : Type} (ToLower : string → string) (ParseAuthorizedKey : string → option (key * string))
        (MarshalAuthorizedKey : key → string) (Fingerprint : key → string) (Sum256 : string → string) (M : Mapping).

Abbreviation Server := (Server key).
Abbreviation Store := (Store key).

Definition on_accounts (s : Store) (sv : Server) : Server :=
  {| sv_accounts := s; sv_tokens := sv_tokens sv; sv_Admins := sv_Admins sv; sv_AdminOnlyTokens := sv_AdminOnlyTokens sv; sv_runs := sv_runs sv; sv_resets := sv_resets sv |}.
Definition on_tokens (d : store) (sv : Server) : Server :=
  {| sv_accounts := sv_accounts sv; sv_tokens := Some d; sv_Admins := sv_Admins sv; sv_AdminOnlyTokens := sv_AdminOnlyTokens sv; sv_runs := sv_runs sv; sv_resets := sv_resets sv |}.
Definition on_runs (r : Registry Ports) (sv : Server) : Server :=
  {| sv_accounts := sv_accounts sv; sv_tokens := sv_tokens sv; sv_Admins := sv_Admins sv; sv_AdminOnlyTokens := sv_AdminOnlyTokens sv; sv_runs := r; sv_resets := sv_resets sv |}.
Definition add_reset (account : string) (purge : bool) (sv : Server) : Server :=
  {| sv_accounts := sv_accounts sv; sv_tokens := sv_tokens sv; sv_Admins := sv_Admins sv; sv_AdminOnlyTokens := sv_AdminOnlyTokens sv; sv_runs := sv_runs sv;
     sv_resets := sv_resets sv ++ [(account, purge)] |}.

Definition isAdmin (sv : Server) (name : string) : bool := bool_decide (name ∈ sv_Admins sv).

(** ** Adding a key and waiting for the account (core-agent/accounts) *)

Definition provisionTurn (s : Store) (e : provisionEvent) : Store :=
  match e with
  | Ensured name unix home => if bool_decide (name ∈ st_provisioning s) then ensured name unix home s else s
  | Resynced env => snd (swap ToLower ParseAuthorizedKey Fingerprint env s)
  | Ended name => provisionEnd name s
  end.

(** [AppendKey] to its end: whether the key was added, and what the wait reported. *)
Definition AppendKeyWait (env : serverEnv) (account : string) (k : key) (comment : string) (s : Store) : res accountError (bool * option awaitError) * Store :=
  match AppendKey ToLower ParseAuthorizedKey MarshalAuthorizedKey Fingerprint (ev_state env 0) account k comment s with
  | (Err e, s1) => (Err e, s1)
  | (Ok added, s1) =>
      match AccountName ToLower account with
      | None => (Err BadName, s1)
      | Some name =>
          let s2 := foldl provisionTurn s1 (ev_wait env) in
          if added then
            let '(err, _, s3) := awaitOrWithdraw ToLower ParseAuthorizedKey Fingerprint (ev_state env 1) (ev_timedOut env) name (Fingerprint k) false s2 in
            (Ok (true, err), s3)
          else (Ok (false, awaitProvisioning (ev_timedOut env) name s2), s2)
      end
  end.

(** [CreateAccount] to its end. *)
Definition CreateAccountWait (env : serverEnv) (account : string) (k : key) (comment : string) (s : Store) : res accountError (option awaitError) * Store :=
  match CreateAccount ToLower ParseAuthorizedKey MarshalAuthorizedKey Fingerprint (ev_state env 0) account k comment s with
  | (Err e, s1) => (Err e, s1)
  | (Ok _, s1) =>
      match AccountName ToLower account with
      | None => (Err BadName, s1)
      | Some name =>
          let s2 := foldl provisionTurn s1 (ev_wait env) in
          let '(err, _, s3) := awaitOrWithdraw ToLower ParseAuthorizedKey Fingerprint (ev_state env 1) (ev_timedOut env) name (Fingerprint k) true s2 in
          (Ok err, s3)
      end
  end.

(** ** core-agent/accounts/purge.go *)

(** [removeHome]: whether the home was deleted, or why it was not. *)
Inductive homeError := HomePath | HomeStat | HomeNotDir | HomeOwner (uid : Z) | HomeMounted | HomeRemove.

Definition removeHome (found : homeFound) (a : Account key) : res homeError bool :=
  let p := ac_Home a in
  if negb (strings.HasPrefix p "/") || negb (bool_decide (path.Clean p = p)) || bool_decide (path.Dir p = p) then Err HomePath
  else match found with
       | HomeGone => Ok false
       | HomeUnreadable => Err HomeStat
       | HomeAt isDir owner mounted removable =>
           if negb isDir then Err HomeNotDir
           else match owner with
                | Some uid => if uid =? ac_UID a then
                                match mounted with Some _ => Err HomeMounted | None => if removable then Ok true else Err HomeRemove end
                              else Err (HomeOwner uid)
                | None => match mounted with Some _ => Err HomeMounted | None => if removable then Ok true else Err HomeRemove end
                end
       end.

(** [Purge]: what failed, and the home deleted, if it was. *)
Definition Purge (env : serverEnv) (name : string) (s : Store) : bool * option string * Store :=
  match st_accounts s !! name with
  | None => (false, None, s)
  | Some a =>
      match ac_Keys a with
      | _ :: _ => (false, None, s)
      | [] =>
          let s1 := with_provisioned (delete name (st_provisioned s)) s in
          let home := if bool_decide (ac_Home a = ""%string) then Ok false else removeHome (ev_home env) a in
          (is_ok home && ev_userGone env, match home with Ok true => Some (ac_Home a) | _ => None end, s1)
      end
  end.

(** ** agent/internal/sshd/manage.go *)

Definition keysOf (s : Store) (name : string) : list key := match st_accounts s !! name with Some a => ac_Keys a | None => [] end.

Definition checkFor (op : string) (caller : sessionAccount) (target : string) (sv : Server) : check :=
  {| ck_Op := op; ck_Caller := sa_name caller; ck_Admin := isAdmin sv (sa_name caller); ck_Target := target; ck_TargetAdmin := isAdmin sv target;
     ck_TargetKeys := Z.of_nat (length (keysOf (sv_accounts sv) target)); ck_KeysLeft := 0;
     ck_OtherAdmins := Z.of_nat (length (filter (λ name, name ≠ target ∧ keysOf (sv_accounts sv) name ≠ []) (elements (sv_Admins sv))));
     ck_OperatorDir := ""; ck_LiveTokens := 0; ck_AdminOnlyTokens := sv_AdminOnlyTokens sv; ck_Connected := false; ck_Force := false |}.

Definition with_live (n : Z) (c : check) : check :=
  {| ck_Op := ck_Op c; ck_Caller := ck_Caller c; ck_Admin := ck_Admin c; ck_Target := ck_Target c; ck_TargetAdmin := ck_TargetAdmin c; ck_TargetKeys := ck_TargetKeys c;
     ck_KeysLeft := ck_KeysLeft c; ck_OtherAdmins := ck_OtherAdmins c; ck_OperatorDir := ck_OperatorDir c; ck_LiveTokens := n; ck_AdminOnlyTokens := ck_AdminOnlyTokens c;
     ck_Connected := ck_Connected c; ck_Force := ck_Force c |}.
Definition with_removal (dir : string) (left : Z) (connected force : bool) (c : check) : check :=
  {| ck_Op := ck_Op c; ck_Caller := ck_Caller c; ck_Admin := ck_Admin c; ck_Target := ck_Target c; ck_TargetAdmin := ck_TargetAdmin c; ck_TargetKeys := ck_TargetKeys c;
     ck_KeysLeft := left; ck_OtherAdmins := ck_OtherAdmins c; ck_OperatorDir := dir; ck_LiveTokens := ck_LiveTokens c; ck_AdminOnlyTokens := ck_AdminOnlyTokens c;
     ck_Connected := connected; ck_Force := force |}.

(** *** Tokens *)

Definition tokenInfo (token : string) (t : string * Token) : TokenInfo :=
  {| ti_ID := t.1; ti_Token := token; ti_Account := tk_Account t.2; ti_Expires := tk_Expires t.2; ti_Creator := tk_Creator t.2; ti_Note := tk_Note t.2 |}.

Definition liveTokens (now : Time) (creator : string) (d : store) : Z :=
  Z.of_nat (length (filter (λ t, tk_Creator t.2 = creator ∧ Before now (tk_Expires t.2) = true) (List_ d))).

(** [Mint]: the first pair drawn whose id is free; a draw that fails is an error. *)
Fixpoint mintFirst (account creator note : string) (now : Time) (ttl : Duration) (drawn : list (string * string)) (d : store) : option (string * string * Token * store) :=
  match drawn with
  | [] => None
  | (id, secret) :: drawn' =>
      let t := mintToken Sum256 account creator note secret now ttl in
      match create id t d with
      | Some d' => Some (id, secret, t, d')
      | None => mintFirst account creator note now ttl drawn' d
      end
  end.

Definition Mint (env : serverEnv) (account creator note : string) (ttl : Duration) (d : store) : option (string * string * Token * store) :=
  match mintTTL ttl with None => None | Some ttl => mintFirst account creator note (ev_now env) ttl (ev_drawn env) d end.

Definition tokenCreate (env : serverEnv) (caller : sessionAccount) (target : string) (req : Request) (sv : Server) : Reply * Server :=
  let c := checkFor (rq_Op req) caller target sv in
  let cannot := match authorize c with Some e => (RError e, sv) | None => (RError CannotStore, sv) end in
  match sv_tokens sv with
  | None => cannot
  | Some d =>
      if negb (ev_writable env) then cannot
      else if negb (ck_Admin c) && negb (ev_listable env) then (RError TokensUnreadable, sv)
      else match authorize (if ck_Admin c then c else with_live (liveTokens (ev_now env) (sa_name caller) d) c) with
           | Some e => (RError e, sv)
           | None => match Mint env target (sa_name caller) (rq_Note req) (rq_Expires req) d with
                     | None => (RError MintFailed, sv)
                     | Some (id, secret, t, d') => (RToken (tokenInfo (id +:+ "." +:+ secret) (id, t)), on_tokens d' sv)
                     end
           end
  end.

Definition tokenList (env : serverEnv) (caller : sessionAccount) (target : string) (all : bool) (sv : Server) : Reply :=
  match authorize (checkFor OpTokenList caller target sv) with
  | Some e => RError e
  | None =>
      let all := all && isAdmin sv (sa_name caller) in
      match sv_tokens sv with
      | None => RTokens []
      | Some d => if ev_listable env then RTokens (tokenInfo "" <$> filter (λ t, all = true ∨ tk_Account t.2 = target) (List_ d)) else RError TokensUnreadable
      end
  end.

(** [Revoke]. *)
Definition Revoke (id : string) (d : store) : bool * store :=
  if negb (ValidID id) then (false, d)
  else let '(d1, f1) := revokeFile id d in let '(d2, f2) := revokeClaims id d1 in (f1 || f2, d2).

Definition tokenRemove (env : serverEnv) (caller : sessionAccount) (id : string) (sv : Server) : Reply * Server :=
  if bool_decide (sv_tokens sv ≠ None) && negb (ev_listable env) then (RError TokensUnreadable, sv)
  else
    let d := default ∅ (sv_tokens sv) in
    let found := List.find (λ t, bool_decide (t.1 = id)) (List_ d) in
    let account := match found with Some t => tk_Account t.2 | None => ""%string end in
    match authorize (checkFor OpTokenRemove caller account sv), found with
    | None, Some _ => let '(ok, d') := Revoke id d in if ok then (RDone [], on_tokens d' sv) else (RError (NoToken id), on_tokens d' sv)
    | _, _ => (RError (NoToken id), sv)
    end.

(** *** Accounts *)

Definition userOf (connected : string → Z) (sv : Server) (a : Account key) : User :=
  {| us_Name := ac_Name a; us_UID := ac_UID a;
     us_Sources := (λ src, (so_Dir src, bool_decide (so_Dir src ≠ st_EnrolledDir (sv_accounts sv)), Z.of_nat (length (so_Keys src)))) <$> ac_Sources a;
     us_Admin := isAdmin sv (ac_Name a);
     us_State := match ac_Keys a with [] => StateRevoked | _ => if 0 <? connected (ac_Name a) then StateConnected else StateEnrolled end |}.

Definition users (connected : string → Z) (sv : Server) : list User :=
  let accounts := (map_to_list (st_accounts (sv_accounts sv))).*2 in
  stable_sort (λ a b, String.leb (us_Name a) (us_Name b))
    ((userOf connected sv <$> accounts) ++
     ((λ name, {| us_Name := name; us_UID := 0; us_Sources := []; us_Admin := true; us_State := StateNotEnrolled |}) <$>
        filter (λ name, name ∉ ac_Name <$> accounts) (elements (sv_Admins sv)))).

Definition writeError (e : accountError) : refusal := match e with OperatorKeyError => OperatorHolds "" "" "" | _ => NotWritten end.

(** The operator's directory a removal runs into: the last. *)
Definition operatorDir (sv : Server) (holds : KeySource key → bool) (a : option (Account key)) : string :=
  match a with
  | None => ""
  | Some a => foldl (λ dir src, if bool_decide (so_Dir src ≠ st_EnrolledDir (sv_accounts sv)) && holds src then so_Dir src else dir) ""%string (ac_Sources a)
  end.

(** The tokens bound to an account, withdrawn. *)
Definition revokeBound (env : serverEnv) (target : string) (sv : Server) : Server :=
  match sv_tokens sv with
  | None => sv
  | Some d => if ev_listable env then on_tokens (foldl (λ d t, if bool_decide (tk_Account t.2 = target) then snd (Revoke t.1 d) else d) d (List_ d)) sv else sv
  end.

Definition forgetFailed (env : serverEnv) (account : string) (p : Ports) : bool :=
  match load (ev_ports env) p with
  | Err _ => true
  | Ok p1 => negb (bool_decide (filter (λ kv, ¬ (kv.1.1 = account ∧ en_ephemeral kv.2 = false)) (po_assigned p1) = po_assigned p1)) && negb (pv_writable (ev_ports env))
  end.

(** The runs and the ports of an account whose storage is gone. *)
Definition dropRuns (env : serverEnv) (target : string) (sv : Server) : Server * list notice :=
  let '(r, snap) := @Drop Ports portEnv (accountPorts M) target (sv_runs sv) in
  let r := write (ev_recordable env) snap r in
  (on_runs (with_ports (Forget (ev_ports env) target (rg_ports r)) r) sv,
   if forgetFailed env target (rg_ports r) then [PortsStillRecorded target] else []).

(** What follows once the account's keys are gone. *)
Definition removeRest (env : serverEnv) (target : string) (purge : bool) (sv : Server) : Server * list notice :=
  let sv := add_reset target purge sv in
  let storageGone := ev_reset env && purge && negb (ev_shared env) in
  let n1 := if ev_reset env then [] else [DaemonNotRemoved target purge] in
  let '(sv, n2) := if purge then let '(ok, _, s) := Purge env target (sv_accounts sv) in (on_accounts s sv, if ok then [] else [FilesNotPurged target]) else (sv, []) in
  let '(sv, n3) := if storageGone then dropRuns env target sv else (sv, []) in
  (sv, n1 ++ n2 ++ n3 ++ (if ev_shared env then [SharedDaemon target] else []) ++ (if isAdmin sv target then [StillAdmin target] else [])).

(** [userRemove], as far as its checks: what it refuses with, [None] to go on. *)
Definition userRemoveChecked (env : serverEnv) (caller : sessionAccount) (target : string) (force : bool) (sv : Server) : option Reply :=
  let a := st_accounts (sv_accounts sv) !! target in
  let c := with_removal (operatorDir sv (λ _, true) a) 0 false false (checkFor OpUserRemove caller target sv) in
  match authorize c, a with
  | Some e, _ => Some (RError e)
  | None, None => Some (RError (NoAccount target))
  | None, Some _ =>
      if negb force && (ev_running env <? 0) then Some (RError (RunningUnknown target))
      else if negb force && (0 <? ev_running env) then Some (RError (StillRunning target (ev_running env)))
      else if negb (ev_writable env) then Some (RError CannotStore)
      else None
  end.

(** And from there on.  No lock is held from the checks to here. *)
Definition userRemoveGo (env : serverEnv) (target : string) (purge : bool) (sv : Server) : Reply * Server :=
  let sv := revokeBound env target sv in
  match RemoveAccountFile ToLower ParseAuthorizedKey Fingerprint (ev_state env 0) target (sv_accounts sv) with
  | (Err e, s) => (RError (writeError e), on_accounts s sv)
  | (Ok _, s) => let '(sv, notices) := removeRest env target purge (on_accounts s sv) in (RDone notices, sv)
  end.

Definition userRemove (env : serverEnv) (caller : sessionAccount) (target : string) (force purge : bool) (sv : Server) : Reply * Server :=
  match userRemoveChecked env caller target force sv with
  | Some r => (r, sv)
  | None => userRemoveGo env target purge sv
  end.

(** *** Keys *)

Definition keyInfo (sv : Server) (caller : sessionAccount) (target dir : string) (kc : key * string) : KeyInfo :=
  {| ky_Fingerprint := Fingerprint kc.1; ky_Comment := kc.2; ky_Dir := dir; ky_Operator := bool_decide (dir ≠ st_EnrolledDir (sv_accounts sv));
     ky_Current := bool_decide (target = sa_name caller) && bool_decide (Fingerprint kc.1 = sa_fingerprint caller) |}.

Definition keyList (caller : sessionAccount) (target : string) (sv : Server) : Reply :=
  match authorize (checkFor OpKeyList caller target sv) with
  | Some e => RError e
  | None => match st_accounts (sv_accounts sv) !! target with
            | None => RError (NoAccount target)
            | Some a => RKeys (mjoin ((λ src, keyInfo sv caller target (so_Dir src) <$> zip (so_Keys src) (so_Comments src)) <$> ac_Sources a))
            end
  end.

Definition keyAdd (env : serverEnv) (caller : sessionAccount) (target line : string) (sv : Server) : Reply * Server :=
  match ParseAuthorizedKey line with
  | None => (RError NotPublicKey, sv)
  | Some (k, comment) =>
      match authorize (checkFor OpKeyAdd caller target sv), st_accounts (sv_accounts sv) !! target with
      | Some e, _ => (RError e, sv)
      | None, None => (RError (NoAccount target), sv)
      | None, Some _ =>
          if negb (ev_writable env) then (RError CannotStore, sv)
          else match AppendKeyWait env target k comment (sv_accounts sv) with
               | (Err e, s) => (RError (writeError e), on_accounts s sv)
               | (Ok (_, Some ErrProvisioning), s) => (RDone [StillBeingCreated target], on_accounts s sv)
               | (Ok (_, Some ErrNotProvisioned), s) => (RError (NotCreated target), on_accounts s sv)
               | (Ok (added, None), s) => (RDone (if added then [] else [AlreadyEnrolled target]), on_accounts s sv)
               end
      end
  end.

Definition holdsKey (fp : string) (keys : list key) : bool := existsb (λ k, bool_decide (Fingerprint k = fp)) keys.

(** [keyRemove], its checks and the removal, with no lock held from one to the other. *)
Definition keyRemoveChecked (env : serverEnv) (caller : sessionAccount) (target fp : string) (force : bool) (sv : Server) : option Reply :=
  let c := checkFor OpKeyRemove caller target sv in
  let a := st_accounts (sv_accounts sv) !! target in
  match authorize (with_removal "" (ck_TargetKeys c) false false c) with
  | Some e => Some (RError e)
  | None =>
      if negb (holdsKey fp (keysOf (sv_accounts sv) target)) then Some (RError (NoKey target fp))
      else
        let connected := bool_decide (target = sa_name caller) && bool_decide (fp = sa_fingerprint caller) in
        match authorize (with_removal (operatorDir sv (λ src, holdsKey fp (so_Keys src)) a) (ck_TargetKeys c - 1) connected force c) with
        | Some e => Some (RError e)
        | None => if negb (ev_writable env) then Some (RError CannotStore) else None
        end
  end.

Definition keyRemoveGo (env : serverEnv) (target fp : string) (sv : Server) : Reply * Server :=
  match RemoveKey ToLower ParseAuthorizedKey Fingerprint (ev_state env 0) target fp (sv_accounts sv) with
  | (Err e, s) => (RError (writeError e), on_accounts s sv)
  | (Ok true, s) => (RDone [], on_accounts s sv)
  | (Ok false, s) => (RError (NoKey target fp), on_accounts s sv)
  end.

Definition keyRemove (env : serverEnv) (caller : sessionAccount) (target fp : string) (force : bool) (sv : Server) : Reply * Server :=
  match keyRemoveChecked env caller target fp force sv with
  | Some r => (r, sv)
  | None => keyRemoveGo env target fp sv
  end.

(** *** One request

    [operate] takes one request from start to end with no other beside it.  The
    code takes each in a goroutine of its own, so two may pass their checks before
    either removes anything: [keyRemoveChecked] and [userRemoveChecked] are the
    checks, [keyRemoveGo] and [userRemoveGo] the removals. *)

Definition operate (env : serverEnv) (connected : string → Z) (caller : sessionAccount) (req : Request) (sv : Server) : Reply * Server :=
  let named := if bool_decide (rq_Account req = ""%string) then Some (sa_name caller) else AccountName ToLower (rq_Account req) in
  let op := rq_Op req in
  match named with
  | None => (RError (BadAccountName (rq_Account req)), sv)
  | Some target =>
      if bool_decide (op = OpWhoami) then (RWhoami (sa_name caller) (isAdmin sv (sa_name caller)) (sa_fingerprint caller), sv)
      else if bool_decide (op = OpTokenCreate) then
        if rq_Unbound req && bool_decide (rq_Account req ≠ ""%string) then (RError BothTargets, sv)
        else tokenCreate env caller (if rq_Unbound req then "" else target) req sv
      else if bool_decide (op = OpTokenList) then (tokenList env caller target (bool_decide (rq_Account req = ""%string)) sv, sv)
      else if bool_decide (op = OpTokenRemove) then tokenRemove env caller (rq_ID req) sv
      else if bool_decide (op = OpUserList) then
        (match authorize (checkFor op caller "" sv) with Some e => RError e | None => RUsers (users connected sv) end, sv)
      else if bool_decide (op = OpUserRemove) then
        if bool_decide (rq_Account req = ""%string) then (RError NameToRemove, sv) else userRemove env caller target (rq_Force req) (rq_Purge req) sv
      else if bool_decide (op = OpKeyList) then (keyList caller target sv, sv)
      else if bool_decide (op = OpKeyAdd) then keyAdd env caller target (rq_Key req) sv
      else if bool_decide (op = OpKeyRemove) then keyRemove env caller target (rq_Fingerprint req) (rq_Force req) sv
      else (RError (UnknownOp op), sv)
  end.

End manage.
