(* ===== verification/ManageProofs.v ===== *)
(** * What managing the accounts changes *)

From Stdlib Require Import Ascii.
From S2P Require Import Prelude GoStrings GoTime Records Names Mounts AccountPorts Ephemeral KeyFiles KeyFilesProofs Accounts AccountsProofs AccountsTheorems Tokens EnrolPolicy Manage.
Open Scope Z_scope.

(** ** Files *)

Section files.
Context {key : Type} (ToLower : string → string) (ParseAuthorizedKey : string → option (key * string))
        (MarshalAuthorizedKey : key → string) (Fingerprint : key → string).
Abbreviation Store := (Store key).

(** Every key file but one account's enrolled one is as it was. *)
Definition filesApart (name : string) (s s' : Store) : Prop :=
  st_EnrolledDir s' = st_EnrolledDir s ∧ st_KeysDirs s' = st_KeysDirs s ∧
  ∀ dir file, (dir, file) ≠ (st_EnrolledDir s, name +:+ pub) → fileAt s' dir file = fileAt s dir file.

Lemma filesApart_refl name s : filesApart name s s.
Proof. done. Qed.

Lemma filesApart_trans name s1 s2 s3 : filesApart name s1 s2 → filesApart name s2 s3 → filesApart name s1 s3.
Proof.
  intros (A1 & A2 & A3) (B1 & B2 & B3). split_and!; [congruence|congruence|]. intros dir file H. rewrite B3 by (by rewrite A1). by apply A3.
Qed.

Lemma filesApart_disk name (s s' : Store) : st_EnrolledDir s' = st_EnrolledDir s → st_KeysDirs s' = st_KeysDirs s → st_disk s' = st_disk s → filesApart name s s'.
Proof. intros H1 H2 H3. split_and!; [done|done|]. intros dir file _. unfold fileAt. by rewrite H3. Qed.

Lemma swap_disk env s r s' :
  swap ToLower ParseAuthorizedKey Fingerprint env s = (r, s') → st_EnrolledDir s' = st_EnrolledDir s ∧ st_KeysDirs s' = st_KeysDirs s ∧ st_disk s' = st_disk s.
Proof.
  intros H. destruct r as [started|e].
  - by destruct (swap_spec _ _ _ _ _ _ _ H) as (? & ? & _ & _ & _ & _ & _ & _ & _ & ? & _ & ? & ?).
  - by apply swap_err in H as ->.
Qed.

Lemma put_enrolled_apart name d d' (s : Store) :
  st_disk s !! st_EnrolledDir s = Some d → (∀ other, other ≠ name +:+ pub → d' !! other = d !! other) → filesApart name s (put_enrolled d' s).
Proof.
  intros Hd H. split_and!; [done|done|]. intros dir file Hne. unfold fileAt. cbn. destruct (decide (dir = st_EnrolledDir s)) as [->|Hdir]; [|by rewrite lookup_insert_ne].
  rewrite lookup_insert_eq, Hd. cbn. apply H. congruence.
Qed.

Lemma edit_apart {A} env name change s (r : res accountError A) s' :
  (∀ d a s1, st_disk s !! st_EnrolledDir s = Some d → change (name +:+ pub) d s = Ok (a, s1) → filesApart name s s1) →
  edit ToLower ParseAuthorizedKey Fingerprint env name change s = (r, s') → filesApart name s s'.
Proof.
  intros Hc. unfold edit. case_bool_decide; [by intros [= _ <-]|]. destruct (st_disk s !! st_EnrolledDir s) as [d|]; [|by intros [= _ <-]].
  destruct (change _ d s) as [[a s1]|e] eqn:Ec; [|by intros [= _ <-]]. specialize (Hc d a s1 eq_refl Ec).
  destruct (swap _ _ _ env s1) as [[?|?] s2] eqn:Es; intros [= _ <-]; (eapply filesApart_trans; [exact Hc|]; destruct (swap_disk _ _ _ _ Es) as (? & ? & ?); by apply filesApart_disk).
Qed.

Lemma writeKeyFile_other file lines d other : other ≠ file → writeKeyFile ParseAuthorizedKey file lines d !! other = d !! other.
Proof. intros H. unfold writeKeyFile. destruct (existsb _ _); [by rewrite lookup_insert_ne|by rewrite lookup_delete_ne]. Qed.

Lemma removeChange_apart name fp d (s : Store) b s1 :
  st_disk s !! st_EnrolledDir s = Some d → removeChange ParseAuthorizedKey Fingerprint fp (name +:+ pub) d s = Ok (b, s1) → filesApart name s s1 ∧ st_uidmap s1 = st_uidmap s.
Proof.
  unfold removeChange, removeKeyLine. intros Hd. destruct (fileLines d _) as [lines|]; [|done]. destruct (withoutKey _ _ lines fp) as [kept []]; intros [= _ <-].
  - split; [|done]. eapply put_enrolled_apart; [done|]. intros. by apply writeKeyFile_other.
  - split; [|done]. by eapply put_enrolled_apart.
Qed.

Lemma releaseName_disk env name (s : Store) :
  st_EnrolledDir (releaseName ToLower env name s) = st_EnrolledDir s ∧ st_KeysDirs (releaseName ToLower env name s) = st_KeysDirs s ∧
  st_disk (releaseName ToLower env name s) = st_disk s.
Proof.
  unfold releaseName. case_bool_decide; [done|]. destruct (anyFile _ _ _ _) as [[]|]; [done| |done]. destruct (loadUIDs env s) as [m|]; [|done]. destruct (m !! name); [|done].
  unfold saveUIDs. by destruct (se_writable env).
Qed.

Lemma AppendKey_apart env account name k comment s r s' :
  AccountName ToLower account = Some name → AppendKey ToLower ParseAuthorizedKey MarshalAuthorizedKey Fingerprint env account k comment s = (r, s') → filesApart name s s'.
Proof.
  intros Hn. unfold AppendKey. rewrite Hn. apply edit_apart. intros d a s1 Hd. unfold appendChange. destruct (fileLines d _) as [lines|]; [|done].
  destruct (snd _); intros [= _ <-]; [done|]. eapply put_enrolled_apart; [done|]. intros. by apply writeKeyFile_other.
Qed.

Lemma CreateAccount_apart env account name k comment s r s' :
  AccountName ToLower account = Some name → CreateAccount ToLower ParseAuthorizedKey MarshalAuthorizedKey Fingerprint env account k comment s = (r, s') → filesApart name s s'.
Proof.
  intros Hn. unfold CreateAccount. rewrite Hn. apply edit_apart. intros d [] s1 Hd (-> & _ & _)%createChange_ok. eapply put_enrolled_apart; [done|]. intros. by rewrite lookup_insert_ne.
Qed.

Lemma RemoveKey_apart env account name fp s r s' :
  AccountName ToLower account = Some name → RemoveKey ToLower ParseAuthorizedKey Fingerprint env account fp s = (r, s') → filesApart name s s'.
Proof.
  intros Hn. unfold RemoveKey. rewrite Hn. destruct (operatorFiles _ _ _); [|by intros [= _ <-]]. destruct (existsb _ _); [by intros [= _ <-]|].
  apply edit_apart. intros d b s1 Hd H. by destruct (removeChange_apart name fp d s b s1 Hd H).
Qed.

Lemma RemoveAccountFile_apart env account name s r s' :
  AccountName ToLower account = Some name → RemoveAccountFile ToLower ParseAuthorizedKey Fingerprint env account s = (r, s') → filesApart name s s'.
Proof.
  intros Hn. unfold RemoveAccountFile. rewrite Hn. destruct (operatorFiles _ _ _) as [[|? ?]|]; [|by intros [= _ <-]..].
  apply edit_apart. intros d a s1 Hd [= _ <-]. eapply put_enrolled_apart; [done|]. intros. by rewrite lookup_delete_ne.
Qed.

Lemma provisionTurns_disk l s :
  let s' := foldl (provisionTurn ToLower ParseAuthorizedKey Fingerprint) s l in
  st_EnrolledDir s' = st_EnrolledDir s ∧ st_KeysDirs s' = st_KeysDirs s ∧ st_disk s' = st_disk s.
Proof.
  cbv zeta. revert s. induction l as [|e l IH]; intros s; [done|]. cbn [foldl]. destruct (IH (provisionTurn ToLower ParseAuthorizedKey Fingerprint s e)) as (-> & -> & ->).
  destruct e as [name unix home|env|name]; cbn [provisionTurn].
  - by case_bool_decide.
  - destruct (swap ToLower ParseAuthorizedKey Fingerprint env s) as [r s'] eqn:E. by apply swap_disk in E.
  - done.
Qed.

Lemma awaitOrWithdraw_apart env timedOut name fp release s err undo s' :
  awaitOrWithdraw ToLower ParseAuthorizedKey Fingerprint env timedOut name fp release s = (err, undo, s') → filesApart name s s'.
Proof.
  unfold awaitOrWithdraw. destruct (awaitProvisioning timedOut name s) as [[]|]; [by intros [= _ _ <-]| |by intros [= _ _ <-]].
  destruct (edit _ _ _ env name _ s) as [u s1] eqn:E. intros [= _ _ <-]. revert E. apply edit_apart. intros d a s1' Hd. unfold withdrawChange.
  destruct (removeChange _ _ fp _ d s) as [[b s2]|] eqn:Er; [|done]. destruct (removeChange_apart name fp d s b s2 Hd Er) as [Ha _]. intros [= _ <-]. destruct release; [|done].
  eapply filesApart_trans; [exact Ha|]. destruct (releaseName_disk env name s2) as (? & ? & ?). by apply filesApart_disk.
Qed.

Lemma AppendKeyWait_apart env account name k comment s r s' :
  AccountName ToLower account = Some name → AppendKeyWait ToLower ParseAuthorizedKey MarshalAuthorizedKey Fingerprint env account k comment s = (r, s') → filesApart name s s'.
Proof.
  intros Hn. unfold AppendKeyWait. destruct (AppendKey _ _ _ _ _ account k comment s) as [[added|e] s1] eqn:Ea; apply (AppendKey_apart _ _ name) in Ea; [|done|by intros [= _ <-]|done].
  rewrite Hn. destruct (provisionTurns_disk (ev_wait env) s1) as (P1 & P2 & P3). eapply filesApart_disk in P1; [|exact P2|exact P3]. destruct added.
  - destruct (awaitOrWithdraw _ _ _ _ _ name _ false _) as [[err undo] s3] eqn:Ew. apply awaitOrWithdraw_apart in Ew. intros [= _ <-]. eapply filesApart_trans; [exact Ea|]. by eapply filesApart_trans.
  - intros [= _ <-]. by eapply filesApart_trans.
Qed.

Lemma CreateAccountWait_apart env account name k comment s r s' :
  AccountName ToLower account = Some name → CreateAccountWait ToLower ParseAuthorizedKey MarshalAuthorizedKey Fingerprint env account k comment s = (r, s') → filesApart name s s'.
Proof.
  intros Hn. unfold CreateAccountWait. destruct (CreateAccount _ _ _ _ _ account k comment s) as [[u|e] s1] eqn:Ea; apply (CreateAccount_apart _ _ name) in Ea; [|done|by intros [= _ <-]|done].
  rewrite Hn. destruct (provisionTurns_disk (ev_wait env) s1) as (P1 & P2 & P3). eapply filesApart_disk in P1; [|exact P2|exact P3].
  destruct (awaitOrWithdraw _ _ _ _ _ name _ true _) as [[err undo] s3] eqn:Ew. apply awaitOrWithdraw_apart in Ew. intros [= _ <-]. eapply filesApart_trans; [exact Ea|]. by eapply filesApart_trans.
Qed.

End files.

(** ** Tokens *)

(** At most one file for every token: what the calls of the store keep. *)
Definition single (d : store) : Prop := ∀ id, (copies id d ≤ 1)%nat.

Lemma reachable_single Sum256 w : token_reachable Sum256 w → single (tw_dir w).
Proof. intros H%token_reachable_ok id. pose proof (to_single _ _ H id). destruct (tw_minted w !! id); lia. Qed.

Lemma single_name d n1 n2 id : single d → is_Some (d !! n1) → is_Some (d !! n2) → tokenID n1 = Some id → tokenID n2 = Some id → n1 = n2.
Proof.
  intros Hs H1 H2 E1 E2. destruct (decide (n1 = n2)) as [|Hne]; [done|]. specialize (Hs id). rewrite (copies_delete id d n1 H1 E1) in Hs.
  rewrite (copies_delete id (delete n1 d) n2) in Hs; [lia|by rewrite lookup_delete_ne|done].
Qed.

Lemma tokenID_isClaimOf id n : ValidID id = true → isClaimOf id n = true → tokenID n = Some id.
Proof.
  intros Hv [rest ->]%HasPrefix_spec. unfold tokenID. rewrite append_assoc, CutPrefix_append, append_assoc. rewrite Cut_dash by (by apply ValidID_no_dash). by rewrite Hv.
Qed.

Lemma Revoke_removes id (d : store) ok d' : Revoke id d = (ok, d') → d' ⊆ d ∧ ∀ n, d' !! n ≠ d !! n → tokenID n = Some id.
Proof.
  unfold Revoke. destruct (ValidID id) eqn:Hv; cbn [negb]; [|by intros [= _ <-]]. unfold revokeFile, revokeClaims. intros [= _ <-]. split.
  - etrans; [apply map_filter_subseteq|apply delete_subseteq].
  - intros n Hn. destruct (decide (n = tokenPath id)) as [->|Hp]; [by apply tokenID_path|]. apply tokenID_isClaimOf; [done|]. destruct (isClaimOf id n) eqn:Ec; [done|].
    destruct Hn. rewrite map_lookup_filter. rewrite lookup_delete_ne by done. destruct (d !! n) as [f|]; [|done]. cbn. by rewrite option_guard_True.
Qed.

(** The listing: every readable file of a token, once. *)
Definition listed (d : store) (n : string) : option (string * Token) :=
  match tokenID n with Some id => match read d n with Some t => Some (id, t) | None => None end | None => None end.

Lemma listStep_fold d ns seen out :
  NoDup (omap tokenID ns) → (∀ n id, n ∈ ns → tokenID n = Some id → id ∉ seen) →
  snd (foldl (listStep d) (seen, out) ns) = out ++ omap (listed d) ns.
Proof.
  revert seen out. induction ns as [|n ns IH]; intros seen out Hnd Hs; [by rewrite app_nil_r|]. cbn [foldl]. unfold listStep at 2. cbn [fst snd].
  assert (omap (listed d) (n :: ns) = match listed d n with Some x => x :: omap (listed d) ns | None => omap (listed d) ns end) as -> by done.
  unfold listed at 1. cbn in Hnd. destruct (tokenID n) as [id|] eqn:En.
  - apply NoDup_cons in Hnd as [Hni Hnd]. rewrite bool_decide_eq_false_2 by (apply (Hs n); [left|done]). destruct (read d n) as [t|].
    + rewrite IH; [by rewrite <- app_assoc|done|]. intros m id' Hm Em [->%elem_of_singleton|Hin]%elem_of_union; [|by apply (Hs m id'); [right|..]].
      apply Hni. apply list_elem_of_omap. by exists m.
    + apply IH; [done|]. intros m id' Hm. apply Hs. by right.
  - apply IH; [done|]. intros m id' Hm. apply Hs. by right.
Qed.

Lemma NoDup_omap {A B} (f : A → option B) (l : list A) : NoDup l → (∀ x y z, x ∈ l → y ∈ l → f x = Some z → f y = Some z → x = y) → NoDup (omap f l).
Proof.
  induction 1 as [|x l Hx Hl IH]; intros Hinj; [constructor|]. cbn. destruct (f x) as [z|] eqn:E; [|apply IH; intros; eapply Hinj; eauto; by right].
  constructor; [|apply IH; intros; eapply Hinj; eauto; by right]. intros (y & Hy & Ey)%list_elem_of_omap. apply Hx. by rewrite (Hinj x y z); [|left|right|..].
Qed.

Lemma List_listed d : single d → List_ d ≡ₚ omap (listed d) (map_to_list d).*1.
Proof.
  intros Hs. unfold List_. rewrite stable_sort_Permutation. set (ns := sort_strings (map_to_list d).*1). assert (ns ≡ₚ (map_to_list d).*1) as Hp by apply stable_sort_Permutation.
  rewrite listStep_fold; [|apply NoDup_omap|set_solver].
  - cbn [app]. by rewrite Hp.
  - rewrite Hp. apply NoDup_fst_map_to_list.
  - intros x y z Hx Hy. rewrite Hp in Hx, Hy. apply list_elem_of_fmap in Hx as ([x' f] & -> & Hx%elem_of_map_to_list), Hy as ([y' g] & -> & Hy%elem_of_map_to_list).
    apply (single_name d x' y' z Hs); by eexists.
Qed.

Lemma elem_of_List_ d id t : single d → (id, t) ∈ List_ d ↔ ∃ n, d !! n = Some (Some t) ∧ tokenID n = Some id.
Proof.
  intros Hs. rewrite List_listed by done. rewrite list_elem_of_omap. unfold listed, read. split.
  - intros (n & _ & H). destruct (tokenID n) as [id'|] eqn:E; [|done]. destruct (d !! n) as [[t'|]|] eqn:Ed; cbn in H; [|done..]. injection H as -> ->. eauto.
  - intros (n & Hd & E). exists n. split; [|by rewrite E, Hd]. apply list_elem_of_fmap. exists (n, Some t). split; [done|]. by apply elem_of_map_to_list.
Qed.

(** ** What a request changes *)

Section manage.
Context {key : Type} (ToLower : string → string) (ParseAuthorizedKey : string → option (key * string))
        (MarshalAuthorizedKey : key → string) (Fingerprint : key → string) (Sum256 : string → string) (M : Mapping).
Abbreviation Server := (Server key).
Abbreviation operate := (operate ToLower ParseAuthorizedKey MarshalAuthorizedKey Fingerprint Sum256 M).

(** Every file that is not as it was holds a token for the account, which was
    taken away, or which the account created. *)
Definition tokensOwn (account : string) (d d' : store) : Prop :=
  ∀ n, d' !! n ≠ d !! n → ∃ t, tk_Account t = account ∧ (d !! n = Some (Some t) ∧ d' !! n = None ∨ d !! n = None ∧ d' !! n = Some (Some t) ∧ tk_Creator t = account).

Record confined (account : string) (sv sv' : Server) : Prop := {
  cf_files : filesApart account (sv_accounts sv) (sv_accounts sv');
  cf_tokens : match sv_tokens sv, sv_tokens sv' with Some d, Some d' => tokensOwn account d d' | None, None => True | _, _ => False end;
  cf_admins : sv_Admins sv' = sv_Admins sv ∧ sv_AdminOnlyTokens sv' = sv_AdminOnlyTokens sv;
  cf_rest : sv_runs sv' = sv_runs sv ∧ sv_resets sv' = sv_resets sv
}.

Lemma confined_self account sv : confined account sv sv.
Proof. split; [apply filesApart_refl| |done|done]. destruct (sv_tokens sv); [|done]. by intros n Hn. Qed.

Lemma confined_accounts account s sv : filesApart account (sv_accounts sv) s → confined account sv (on_accounts s sv).
Proof. intros H. destruct (confined_self account sv). split; done. Qed.

Lemma confined_tokens account d d' sv : sv_tokens sv = Some d → tokensOwn account d d' → confined account sv (on_tokens d' sv).
Proof. intros Hd H. destruct (confined_self account sv). split; [done| |done|done]. cbn. by rewrite Hd. Qed.

Lemma mintFirst_spec account creator note now ttl drawn d id secret t d' :
  mintFirst Sum256 account creator note now ttl drawn d = Some (id, secret, t, d') →
  d !! tokenPath id = None ∧ d' = <[tokenPath id := Some t]> d ∧ tk_Account t = account ∧ tk_Creator t = creator ∧ tk_Expires t = Add (tk_Created t) ttl.
Proof.
  induction drawn as [|[id0 secret0] drawn IH]; [done|]. cbn [mintFirst]. unfold create. destruct (d !! tokenPath id0) eqn:E; [exact IH|]. by intros [= <- <- <- <-].
Qed.

Lemma Mint_own env account creator note ttl d id secret t d' :
  Mint Sum256 env account creator note ttl d = Some (id, secret, t, d') → account = creator → tokensOwn account d d'.
Proof.
  unfold Mint. destruct (mintTTL ttl) as [ttl'|]; [|done]. intros (Hn & -> & Ha & Hc & _)%mintFirst_spec <- n Hne. destruct (decide (n = tokenPath id)) as [->|Hp]; [|by rewrite lookup_insert_ne in Hne].
  exists t. split; [done|]. right. by rewrite lookup_insert_eq.
Qed.

Lemma Revoke_own account id d ok d' t : single d → (id, t) ∈ List_ d → tk_Account t = account → Revoke id d = (ok, d') → tokensOwn account d d'.
Proof.
  intros Hs (n0 & H0 & E0)%elem_of_List_ Ha Hr; [|done]. destruct (Revoke_removes id d ok d' Hr) as [Hsub Hrm]. intros n Hn. pose proof (Hrm n Hn) as En.
  destruct (d !! n) as [f|] eqn:Ed.
  - assert (n = n0) as -> by (by apply (single_name d n n0 id); [|eexists|eexists|..]). exists t. split; [done|]. left. split; [congruence|].
    destruct (d' !! n0) as [f'|] eqn:Ed'; [|done]. pose proof (lookup_weaken _ _ _ _ Ed' Hsub). congruence.
  - destruct (d' !! n) as [f'|] eqn:Ed'; [|done]. pose proof (lookup_weaken _ _ _ _ Ed' Hsub). congruence.
Qed.

(** A check made for a caller who is no admin. *)
Lemma nonadmin_check op caller target (sv : Server) c :
  c = checkFor op caller target sv ∨ (∃ n, c = with_live n (checkFor op caller target sv)) ∨ (∃ dir left con force, c = with_removal dir left con force (checkFor op caller target sv)) →
  isAdmin sv (sa_name caller) = false → op ≠ OpWhoami → authorize c = None → target = sa_name caller ∧ op ≠ OpUserList ∧ op ≠ OpUserRemove.
Proof.
  intros Hc Ha Hop Hauth. assert (ck_Op c = op ∧ ck_Admin c = isAdmin sv (sa_name caller) ∧ ck_Target c = target ∧ ck_Caller c = sa_name caller) as (E1 & E2 & E3 & E4).
  { by destruct Hc as [->|[[n ->]|(? & ? & ? & ? & ->)]]. }
  rewrite <- E1, <- E3, <- E4. apply authorize_self; [done|congruence|congruence].
Qed.

Lemma tokenCreate_confined env caller target req (sv : Server) reply sv' :
  isAdmin sv (sa_name caller) = false → rq_Op req = OpTokenCreate → tokenCreate Sum256 env caller target req sv = (reply, sv') → confined (sa_name caller) sv sv' ∧ ∀ l, reply ≠ RTokens l ∧ ∀ u, reply ≠ RUsers u.
Proof.
  intros Ha Hop. unfold tokenCreate. rewrite Hop. assert (∀ e : refusal, (RError e, sv) = (reply, sv') → confined (sa_name caller) sv sv' ∧ ∀ l, reply ≠ RTokens l ∧ ∀ u, reply ≠ RUsers u) as Hr.
  { intros e [= <- <-]. split; [apply confined_self|done]. }
  assert (∀ o : option refusal, match o with Some e => (RError e, sv) | None => (RError CannotStore, sv) end = (reply, sv') → confined (sa_name caller) sv sv' ∧ ∀ l, reply ≠ RTokens l ∧ ∀ u, reply ≠ RUsers u) as Ho.
  { intros [e|]; apply Hr. }
  destruct (sv_tokens sv) as [d|] eqn:Ed; [|apply Ho]. destruct (ev_writable env); cbn [negb]; [|apply Ho]. cbn [checkFor ck_Admin]. rewrite Ha. cbn [negb andb]. destruct (ev_listable env); cbn [negb]; [|apply Hr].
  destruct (authorize _) as [e|] eqn:Ea; [apply Hr|]. destruct (nonadmin_check OpTokenCreate caller target sv _ (or_intror (or_introl (ex_intro _ _ eq_refl))) Ha ltac:(done) Ea) as (Et & _ & _).
  destruct (Mint _ env target _ _ _ d) as [[[[id secret] t] d']|] eqn:Em; [|apply Hr]. intros [= <- <-]. split; [|done]. apply (confined_tokens _ d d'); [done|]. subst target. by eapply Mint_own.
Qed.

Lemma tokenRemove_confined env caller id (sv : Server) reply sv' :
  (∀ d, sv_tokens sv = Some d → single d) → isAdmin sv (sa_name caller) = false → tokenRemove env caller id sv = (reply, sv') → confined (sa_name caller) sv sv' ∧ ∀ l, reply ≠ RTokens l ∧ ∀ u, reply ≠ RUsers u.
Proof.
  intros Hs Ha. unfold tokenRemove. assert (∀ e : refusal, (RError e, sv) = (reply, sv') → confined (sa_name caller) sv sv' ∧ ∀ l, reply ≠ RTokens l ∧ ∀ u, reply ≠ RUsers u) as Hr.
  { intros e [= <- <-]. split; [apply confined_self|done]. }
  destruct (_ && _); [apply Hr|]. destruct (sv_tokens sv) as [d|] eqn:Ed; [|destruct (authorize _); apply Hr]. change (default ∅ (Some d)) with d.
  destruct (List.find _ (List_ d)) as [[id0 t]|] eqn:Ef.
  2: { destruct (authorize _); apply Hr. }
  apply find_some in Ef as [Hin%list_elem_of_In Hid%bool_decide_eq_true]. cbn in Hid. subst id0. cbn [snd].
  destruct (authorize _) as [e|] eqn:Ea; [apply Hr|]. destruct (nonadmin_check OpTokenRemove caller (tk_Account t) sv _ (or_introl eq_refl) Ha ltac:(done) Ea) as (Et & _ & _).
  destruct (Revoke id d) as [ok d'] eqn:Er.
  intros H. assert (sv' = on_tokens d' sv ∧ ∀ l, reply ≠ RTokens l ∧ ∀ u, reply ≠ RUsers u) as [-> Hrep] by (destruct ok; injection H as <- <-; done).
  split; [|done]. apply (confined_tokens _ d d'); [done|]. eapply Revoke_own; eauto.
Qed.

Lemma keyAdd_confined env caller target line sv reply sv' :
  AccountName ToLower (sa_name caller) = Some (sa_name caller) → isAdmin sv (sa_name caller) = false →
  keyAdd ToLower ParseAuthorizedKey MarshalAuthorizedKey Fingerprint env caller target line sv = (reply, sv') → confined (sa_name caller) sv sv' ∧ ∀ l, reply ≠ RTokens l ∧ ∀ u, reply ≠ RUsers u.
Proof.
  intros Hn Ha. unfold keyAdd. assert (∀ e : refusal, (RError e, sv) = (reply, sv') → confined (sa_name caller) sv sv' ∧ ∀ l, reply ≠ RTokens l ∧ ∀ u, reply ≠ RUsers u) as Hr.
  { intros e [= <- <-]. split; [apply confined_self|done]. }
  destruct (ParseAuthorizedKey line) as [[k comment]|]; [|apply Hr]. destruct (authorize _) as [e|] eqn:Ea; [apply Hr|].
  destruct (nonadmin_check OpKeyAdd caller target sv _ (or_introl eq_refl) Ha ltac:(done) Ea) as (-> & _ & _). destruct (st_accounts _ !! _); [|apply Hr].
  destruct (ev_writable env); cbn [negb]; [|apply Hr]. destruct (AppendKeyWait _ _ _ _ env _ k comment _) as [r s] eqn:Ew. apply (AppendKeyWait_apart _ _ _ _ _ _ _ _ _ _ _ _ Hn) in Ew.
  destruct r as [[added [[]|]]|e]; intros [= <- <-]; (split; [by apply confined_accounts|done]).
Qed.

Lemma keyRemove_confined env caller target fp force sv reply sv' :
  AccountName ToLower (sa_name caller) = Some (sa_name caller) → isAdmin sv (sa_name caller) = false →
  keyRemove ToLower ParseAuthorizedKey Fingerprint env caller target fp force sv = (reply, sv') → confined (sa_name caller) sv sv' ∧ ∀ l, reply ≠ RTokens l ∧ ∀ u, reply ≠ RUsers u.
Proof.
  intros Hn Ha. unfold keyRemove, keyRemoveChecked, keyRemoveGo. assert (∀ e : refusal, (RError e, sv) = (reply, sv') → confined (sa_name caller) sv sv' ∧ ∀ l, reply ≠ RTokens l ∧ ∀ u, reply ≠ RUsers u) as Hr.
  { intros e [= <- <-]. split; [apply confined_self|done]. }
  destruct (authorize _) as [e|] eqn:Ea; [apply Hr|].
  destruct (nonadmin_check OpKeyRemove caller target sv _ (or_intror (or_intror (ex_intro _ _ (ex_intro _ _ (ex_intro _ _ (ex_intro _ _ eq_refl)))))) Ha ltac:(done) Ea) as (-> & _ & _).
  destruct (negb _); [apply Hr|]. clear Ea. destruct (authorize _); [apply Hr|]. destruct (ev_writable env); cbn [negb]; [|apply Hr].
  destruct (RemoveKey _ _ _ _ _ fp _) as [r s] eqn:Ew. apply (RemoveKey_apart _ _ _ _ _ _ _ _ _ _ Hn) in Ew.
  destruct r as [[]|e]; intros [= <- <-]; (split; [by apply confined_accounts|done]).
Qed.

(** C15 (safety). An account that is no admin manages itself and nobody else.  Whatever it asks for,
    and whatever the request finds, no key file but its own enrolled one is
    changed; the only tokens that come or go are for its own account, and one that
    comes names it as its creator; the admins, the runs, their ports and the
    daemons are left alone; it is shown no other account's tokens and no list of
    the accounts. *)
Theorem nonadmin_manages_itself env connected caller req sv reply sv' :
  (∀ d, sv_tokens sv = Some d → single d) → AccountName ToLower (sa_name caller) = Some (sa_name caller) → isAdmin sv (sa_name caller) = false →
  operate env connected caller req sv = (reply, sv') →
  confined (sa_name caller) sv sv' ∧ (∀ l t, reply = RTokens l → t ∈ l → ti_Account t = sa_name caller) ∧ ∀ l, reply ≠ RUsers l.
Proof.
  intros Hs Hn Ha. unfold Manage.operate. set (P := λ (reply : Reply) sv', confined (sa_name caller) sv sv' ∧ (∀ l t, reply = RTokens l → t ∈ l → ti_Account t = sa_name caller) ∧ ∀ l, reply ≠ RUsers l).
  change (?a = (reply, sv') → _) with (a = (reply, sv') → P reply sv').
  assert (∀ e, P (RError e) sv) as He by (intros e; split; [apply confined_self|done]).
  assert (∀ e : refusal, (RError e, sv) = (reply, sv') → P reply sv') as Hr by (intros e [= <- <-]; apply He).
  assert (confined (sa_name caller) sv sv' ∧ (∀ l, reply ≠ RTokens l ∧ ∀ u, reply ≠ RUsers u) → P reply sv') as Hw.
  { intros [H1 H2]. split; [done|]. split; [intros l t Hl; by destruct (H2 l)|]. intros l. by destruct (H2 []) as [_ ?]. }
  destruct (if bool_decide _ then _ else _) as [target|]; [|apply Hr]. case_bool_decide; [intros [= <- <-]; split; [apply confined_self|done]|].
  case_bool_decide as E1; [destruct (_ && _); [apply Hr|]; intros H'; apply Hw; by eapply tokenCreate_confined|].
  case_bool_decide as E2.
  { intros [= <- <-]. unfold tokenList. destruct (authorize _) as [e|] eqn:Ea; [apply He|].
    destruct (nonadmin_check OpTokenList caller target sv _ (or_introl eq_refl) Ha ltac:(done) Ea) as (-> & _ & _). split; [apply confined_self|].
    destruct (sv_tokens sv) as [d|]; [|by split; [intros l t [= <-] Ht; by apply elem_of_nil in Ht|]]. destruct (ev_listable env); [|done]. split; [|done].
    intros l t [= <-] (x & -> & Hx)%list_elem_of_fmap. apply list_elem_of_filter in Hx as [[Hall|Hx] _]; [|done]. by rewrite Ha, andb_false_r in Hall. }
  case_bool_decide as E3; [intros H'; apply Hw; by eapply tokenRemove_confined|].
  case_bool_decide as E4.
  { intros [= <- <-]. destruct (authorize _) as [e|] eqn:Ea; [apply He|]. rewrite E4 in Ea. by destruct (nonadmin_check OpUserList caller "" sv _ (or_introl eq_refl) Ha ltac:(done) Ea) as (_ & ? & _). }
  case_bool_decide as E5.
  { case_bool_decide; [apply Hr|]. unfold userRemove, userRemoveChecked, userRemoveGo. destruct (authorize _) as [e|] eqn:Ea; [apply Hr|].
    by destruct (nonadmin_check OpUserRemove caller target sv _ (or_intror (or_intror (ex_intro _ _ (ex_intro _ _ (ex_intro _ _ (ex_intro _ _ eq_refl)))))) Ha ltac:(done) Ea) as (_ & _ & ?). }
  case_bool_decide as E6.
  { intros [= <- <-]. split; [apply confined_self|]. unfold keyList. destruct (authorize _); [done|]. by destruct (st_accounts _ !! target). }
  case_bool_decide as E7; [intros H'; apply Hw; by eapply keyAdd_confined|]. case_bool_decide as E8; [intros H'; apply Hw; by eapply keyRemove_confined|]. apply Hr.
Qed.

(** ** How many tokens an account has *)

Lemma single_mint d id t : copies id d = 0%nat → ValidID id = true → single d → single (<[tokenPath id := Some t]> d).
Proof.
  clear. intros H0 Hv Hs id'. pose proof (copies_insert id' d (tokenPath id) (Some t)) as Hi. rewrite tokenID_path in Hi by done. specialize (Hs id'). case_decide as E; [|lia].
  injection E as <-. lia.
Qed.

Lemma List_mint d id t : copies id d = 0%nat → ValidID id = true → single d → d !! tokenPath id = None → List_ (<[tokenPath id := Some t]> d) ≡ₚ (id, t) :: List_ d.
Proof.
  clear. intros H0 Hv Hs Hd. rewrite !List_listed by (done || by apply single_mint). rewrite map_to_list_insert by done. cbn [fmap list_fmap fst].
  assert (∀ ns : list string, tokenPath id ∉ ns → omap (listed (<[tokenPath id := Some t]> d)) ns = omap (listed d) ns) as Hl.
  { induction ns as [|n ns IH]; [done|]. intros [Hn Hns]%not_elem_of_cons. cbn. rewrite IH by done. unfold listed, read. by rewrite lookup_insert_ne. }
  assert (listed (<[tokenPath id := Some t]> d) (tokenPath id) = Some (id, t)) as E1 by (unfold listed, read; by rewrite tokenID_path, lookup_insert_eq by done).
  cbn. rewrite E1. by rewrite Hl by (intros ([n f] & E & Hin%elem_of_map_to_list)%list_elem_of_fmap; cbn in E; subst n; congruence).
Qed.

(** An account that is no admin never has more than ten tokens of its own making
    that are alive: one it may create leaves it with at most that many, whatever
    others hold; the ids drawn are new ones. *)
Theorem self_tokens_bounded env connected caller req sv d t sv' :
  sv_tokens sv = Some d → single d → Forall (λ x, ValidID x.1 = true ∧ copies x.1 d = 0%nat) (ev_drawn env) →
  isAdmin sv (sa_name caller) = false → operate env connected caller req sv = (RToken t, sv') →
  ∃ d', sv_tokens sv' = Some d' ∧ liveTokens (ev_now env) (sa_name caller) d' ≤ maxSelfTokens ∧ sv_AdminOnlyTokens sv = false ∧ ti_Account t = sa_name caller.
Proof.
  intros Hd Hs Hdr Ha. unfold Manage.operate. destruct (if bool_decide (rq_Account req = _) then _ else _) as [target|]; [|done]. case_bool_decide; [done|].
  destruct (bool_decide (rq_Op req = OpTokenCreate)) eqn:E1.
  2: { repeat case_bool_decide; try done; unfold tokenList, tokenRemove, userRemove, userRemoveChecked, userRemoveGo, keyList, keyAdd, keyRemove, keyRemoveChecked, keyRemoveGo; repeat (case_match; simplify_eq); by intros [=]. }
  apply bool_decide_eq_true in E1. destruct (_ && _); [done|]. set (tg := if rq_Unbound req then _ else target). unfold tokenCreate. rewrite Hd, E1.
  destruct (ev_writable env); cbn [negb]; [|by destruct (authorize _)]. cbn [checkFor ck_Admin]. rewrite Ha. cbn [negb andb]. destruct (ev_listable env); cbn [negb]; [|done].
  destruct (authorize _) as [e|] eqn:Eau; [done|]. pose proof (authorize_quota _ Eau eq_refl Ha) as [Hao Hq]. cbn in Hao, Hq.
  destruct (nonadmin_check OpTokenCreate caller tg sv _ (or_intror (or_introl (ex_intro _ _ eq_refl))) Ha ltac:(done) Eau) as (Et & _ & _).
  destruct (Mint _ env tg _ _ _ d) as [[[[id secret] t0] d']|] eqn:Em; [|done]. intros [= <- <-]. exists d'. unfold Mint in Em. destruct (mintTTL _) as [ttl|]; [|done].
  assert ((id, secret) ∈ ev_drawn env) as Hin.
  { clear -Em. revert Em. induction (ev_drawn env) as [|[i0 s0] l IH]; [done|]. cbn. destruct (create i0 _ d); [intros [= <- <- _ _]; left|intros H; right; by apply IH]. }
  rewrite Forall_forall in Hdr. destruct (Hdr _ Hin) as [Hv H0]. apply mintFirst_spec in Em as (Hn & -> & Hac & Hcr & _). split_and!; [done| |done|by rewrite <- Et].
  unfold liveTokens in *. rewrite (List_mint d id t0 H0 Hv Hs Hn), filter_cons. case_decide; cbn [length]; lia.
Qed.

End manage.
