(* ===== verification/Redeem.v ===== *)
(** * Redeeming an enrolment token (agent/internal/sshd/redeem.go)

    A login with a token's id runs one redemption, which claims the token, enrols
    the key the connection authenticated with and commits by deleting the claim.
    What other agents do to the tokens in between is an argument, as are the
    limiter's answer and whether the claim can be deleted (one that is there and
    cannot is left, and the redemption succeeds); a failed attempt is counted. *)
From Stdlib Require Import Ascii.
From S2P Require Import Prelude GoStrings GoTime Records Names Mounts AccountPorts Ephemeral KeyFiles Accounts Tokens EnrolPolicy Manage KeyFilesProofs AccountsProofs AccountsTheorems ManageProofs.

Open Scope Z_scope.

Record redeemEnv := {
  rv_server : serverEnv;
  rv_allow : bool;
  rv_before : store → store;
  rv_claimed : Time;
  rv_nonce : string;
  rv_meanwhile : store → store;
  rv_removable : bool
}.

(** [redeemer] and [enrol.RedeemRequest]. *)
Record redeemer (key : Type) := {
  rd_id : string;
  rd_key : key
}.
Arguments rd_id {key}.
Arguments rd_key {key}.

Record RedeemRequest := {
  rr_Secret : string;
  rr_Account : string;
  rr_Comment : string
}.

(** [enrol.RedeemReply]. *)
Inductive RedeemReply :=
| Redeemed (account : string) (created pending : bool)
| RedeemRefused (e : refusal).

Definition reservedNames : list string := ["root"; "admin"; "administrator"; "nobody"; "operator"; "docker"; "workspace"]%string.

Inductive redeemLabel := LabelPending | LabelOK | LabelFailed | LabelRefused.

Definition redeemOutcome (r : RedeemReply) : redeemLabel :=
  match r with
  | Redeemed _ _ true => LabelPending
  | Redeemed _ _ false => LabelOK
  | RedeemRefused e => if bool_decide (Code e = CodeFailed ∨ Code e = CodeStorage) then LabelFailed else LabelRefused
  end.

(** A key that was enrolled, and what it takes to take it out again. *)
Record enrolment := {
  em_created : bool;
  em_pending : bool;
  em_undo : bool
}.

Section redeem.
Context {key : Type} (ToLower : string → string) (ParseAuthorizedKey : string → option (key * string))
        (MarshalAuthorizedKey : key → string) (Fingerprint : key → string) (Sum256 : string → string).

Abbreviation Server := (Server key).
Abbreviation Store := (Store key).

(** [redeemName]: the account a token enrols into, and whether it must be new. *)
Definition redeemName (env : stateEnv) (bound asked : string) (sv : Server) : res refusal (string * bool) :=
  match (if bool_decide (asked = ""%string) then Some ""%string else AccountName ToLower asked) with
  | None => Err (BadAccountName asked)
  | Some asked =>
      if bool_decide (bound ≠ ""%string) then
        if bool_decide (asked ≠ ""%string) && bool_decide (asked ≠ bound) then Err (OtherAccount bound asked) else Ok (bound, false)
      else if bool_decide (asked = ""%string) then Err NoNameGiven
      else if bool_decide (asked ∈ reservedNames) || isAdmin sv asked then Err (ReservedName asked)
      else match Known ToLower env (sv_accounts sv) asked with
           | Err _ => Err AccountsUnreadable
           | Ok true => Err (NameTaken asked)
           | Ok false => Ok (asked, true)
           end
  end.

(** [enrolKey]: the error is that the name was taken, or another. *)
Definition enrolKey (env : serverEnv) (name : string) (create : bool) (k : key) (comment : string) (s : Store) : res bool enrolment * Store :=
  if create then
    match CreateAccountWait ToLower ParseAuthorizedKey MarshalAuthorizedKey Fingerprint env name k comment s with
    | (Err AccountExists, s1) => (Err true, s1)
    | (Err _, s1) | (Ok (Some ErrNotProvisioned), s1) => (Err false, s1)
    | (Ok (Some ErrProvisioning), s1) => (Ok {| em_created := true; em_pending := true; em_undo := true |}, s1)
    | (Ok None, s1) => (Ok {| em_created := true; em_pending := false; em_undo := true |}, s1)
    end
  else
    match Known ToLower (ev_state env 2) s name with
    | Err _ => (Err false, s)
    | Ok known =>
        match AppendKeyWait ToLower ParseAuthorizedKey MarshalAuthorizedKey Fingerprint env name k comment s with
        | (Err _, s1) | (Ok (_, Some ErrNotProvisioned), s1) => (Err false, s1)
        | (Ok (added, Some ErrProvisioning), s1) => (Ok {| em_created := negb known; em_pending := true; em_undo := added |}, s1)
        | (Ok (added, None), s1) => (Ok {| em_created := negb known; em_pending := false; em_undo := added |}, s1)
        end
    end.

(** Its undo: the account's file, or the key where it was added. *)
Definition undoKey (env : serverEnv) (name : string) (create : bool) (k : key) (e : enrolment) (s : Store) : Store :=
  if create then snd (RemoveAccountFile ToLower ParseAuthorizedKey Fingerprint (ev_state env 3) name s)
  else if em_undo e then snd (RemoveKey ToLower ParseAuthorizedKey Fingerprint (ev_state env 3) name (Fingerprint k) s)
  else s.

Definition stillAuthorized (s : Store) (name : string) (k : key) : bool :=
  match st_accounts s !! name with Some a => Authorized Fingerprint a k | None => false end.

(** [Consume]: the claim's name, or what is left. *)
Definition Consume (env : redeemEnv) (id secret : string) (d : store) : option string * store :=
  let at_ := claimName id (rv_claimed env) (rv_nonce env) in
  match claim id at_ d with
  | None => (None, d)
  | Some d1 => match checkClaim Sum256 at_ secret (rv_claimed env) d1 with
               | Some _ => (Some at_, d1)
               | None => (None, default d1 (Restore at_ id d1))
               end
  end.

(** Once the token has been claimed: the enrolment, and the commit. *)
Definition enrolClaimed (env : redeemEnv) (at_ id name : string) (create : bool) (k : key) (comment : string) (d : store) (sv : Server) : RedeemReply * Server :=
  let '(enrolled, s1) := enrolKey (rv_server env) name create k comment (sv_accounts sv) in
  let d := rv_meanwhile env d in
  let giveBack s := on_accounts s (on_tokens (default d (Restore at_ id d)) sv) in
  match enrolled with
  | Err taken => (RedeemRefused (if taken then NameTaken name else NotEnrolled), giveBack s1)
  | Ok e =>
      if negb (em_pending e) && negb (stillAuthorized s1 name k) then
        (RedeemRefused NotEnrolled, giveBack (undoKey (rv_server env) name create k e s1))
      else
        match Done (rv_removable env) at_ d with
        | None => (RedeemRefused Refused, on_accounts (undoKey (rv_server env) name create k e s1) (on_tokens d sv))
        | Some d' => (Redeemed name (em_created e) (em_pending e), on_accounts s1 (on_tokens d' sv))
        end
  end.

(** [redeem]: its reply, whether an attempt was spent, and the server. *)
Definition redeem (env : redeemEnv) (r : redeemer key) (req : RedeemRequest) (sv : Server) : RedeemReply * bool * Server :=
  match sv_tokens sv with
  | None => (RedeemRefused Refused, false, sv)
  | Some d =>
      if negb (rv_allow env) then (RedeemRefused Busy, false, sv)
      else if negb (ev_writable (rv_server env)) then (RedeemRefused CannotStore, false, sv)
      else match Check Sum256 (rd_id r) (rr_Secret req) (ev_now (rv_server env)) d with
           | None => (RedeemRefused Refused, true, sv)
           | Some tok =>
               match redeemName (ev_state (rv_server env) 4) (tk_Account tok) (rr_Account req) sv with
               | Err e => (RedeemRefused e, false, sv)
               | Ok (name, create) =>
                   match Consume env (rd_id r) (rr_Secret req) (rv_before env d) with
                   | (None, d1) => (RedeemRefused Refused, false, on_tokens d1 sv)
                   | (Some at_, d1) =>
                       let '(reply, sv') := enrolClaimed env at_ (rd_id r) name create (rd_key r) (rr_Comment req) d1 sv in (reply, false, sv')
                   end
               end
           end
  end.

(** A login with a token's id: [authenticateToken] accepts any key for a live one,
    and a connection redeems once. *)
Definition authenticateToken (sv : Server) (now : Time) (id : string) : bool :=
  match sv_tokens sv with Some d => Live id now d | None => false end.

Definition RedeemCommand : string := "workspace-redeem".

(** [serveRedeem]: the reply, if the command is run, and whether the connection has
    been used; [None] is a request that could not be read. *)
Definition serveRedeem (env : redeemEnv) (r : redeemer key) (used : bool) (command : string) (req : option RedeemRequest) (sv : Server)
  : option RedeemReply * bool * Server :=
  if negb (bool_decide (command = RedeemCommand)) then (None, used, sv)
  else if used then (None, true, sv)
  else match req with
       | None => (Some (RedeemRefused BadRequest), true, sv)
       | Some req => let '(reply, _, sv') := redeem env r req sv in (Some reply, true, sv')
       end.

End redeem.

(** * A redemption is a transaction *)

Open Scope Z_scope.

#[export] Instance awaitError_eq_dec : EqDecision awaitError.
Proof. solve_decision. Defined.

Section redeem.
Context {key : Type} (ToLower : string → string) (ParseAuthorizedKey : string → option (key * string))
        (MarshalAuthorizedKey : key → string) (Fingerprint : key → string) (Sum256 : string → string).
Context (marshal_plain : ∀ k, everyByte plainByte (strings.TrimSpace (MarshalAuthorizedKey k)) = true).
Context (marshal_start : ∀ k, ∃ a s, strings.TrimSpace (MarshalAuthorizedKey k) = String a s ∧ visible a = true ∧ a ≠ "#"%char).
Context (parse_marshal : ∀ k rest, strings.Contains rest newline = false → rest = ""%string ∨ strings.HasPrefix rest " " = true →
  ∃ comment, ParseAuthorizedKey (strings.TrimSpace (strings.TrimSpace (MarshalAuthorizedKey k) +:+ rest)) = Some (k, comment)).
Abbreviation Store := (Store key).
Abbreviation Server := (Server key).
Abbreviation swap := (swap ToLower ParseAuthorizedKey Fingerprint).
Abbreviation edit := (edit ToLower ParseAuthorizedKey Fingerprint).
Abbreviation enrolledKeys := (enrolledKeys ParseAuthorizedKey).
Abbreviation fileKeys := (fileKeys ParseAuthorizedKey).

(** ** A store that can be written *)

(** The state directory can be used. *)
Definition sound (env : stateEnv) : Prop := se_readable env = true ∧ se_writable env = true.

(** Every operator's directory is there, and every enrolled file can be read. *)
Record fit (s : Store) : Prop := {
  ft_dirs : ∀ dir, dir ∈ st_KeysDirs s → is_Some (st_disk s !! dir);
  ft_files : ∀ d, st_disk s !! st_EnrolledDir s = Some d → dirOk d
}.

(** What an enrolment makes of a store: one account's enrolled keys are these, and
    nothing else of any directory differs. *)
Record moved (name : string) (keys : list key) (s s' : Store) : Prop := {
  mv_apart : filesApart name s s';
  mv_keys : enrolledKeys s' name = keys;
  mv_fit : fit s';
  mv_ready : st_EnrolledDir s' ≠ ""%string ∧ is_Some (st_disk s' !! st_EnrolledDir s')
}.

Lemma moved_trans name k1 k2 s1 s2 s3 : moved name k1 s1 s2 → moved name k2 s2 s3 → moved name k2 s1 s3.
Proof. intros [A1 _ _ _] [B1 B2 B3 B4]. split; [by eapply filesApart_trans|done..]. Qed.

Lemma moved_disk name (s s' : Store) :
  fit s → st_EnrolledDir s ≠ ""%string → is_Some (st_disk s !! st_EnrolledDir s) →
  st_EnrolledDir s' = st_EnrolledDir s → st_KeysDirs s' = st_KeysDirs s → st_disk s' = st_disk s → moved name (enrolledKeys s name) s s'.
Proof.
  intros [F1 F2] Hne Hd E1 E2 E3. split.
  - by apply filesApart_disk.
  - unfold AccountsTheorems.enrolledKeys. by rewrite E3, E1.
  - split; [rewrite E2, E3|rewrite E1, E3]; done.
  - by rewrite E1, E3.
Qed.

Lemma moved_other name keys s s' n : moved name keys s s' → n ≠ name → enrolledKeys s' n = enrolledKeys s n.
Proof.
  intros [(E1 & _ & Hf) _ _ _] Hn. unfold AccountsTheorems.enrolledKeys, KeyFilesProofs.fileKeys, fileLines. assert (n +:+ pub ≠ name +:+ pub) as Hne.
  { intros E. assert (strings.CutSuffix (n +:+ pub) pub = Some n) as H1 by by apply CutSuffix_Some. assert (strings.CutSuffix (name +:+ pub) pub = Some name) as H2 by by apply CutSuffix_Some.
    rewrite E in H1. congruence. }
 
  specialize (Hf (st_EnrolledDir s) (n +:+ pub) ltac:(congruence)). unfold fileAt in Hf. rewrite E1. unfold default, id. 
  destruct (st_disk s' !! st_EnrolledDir s) as [d'|], (st_disk s !! st_EnrolledDir s) as [d|]; cbn in Hf; rewrite ?lookup_empty; by rewrite ?Hf, <- ?Hf.
Qed.

Lemma keyFiles_there (s : Store) dir : fit s → dir ∈ dirs s → ∃ files, keyFiles ToLower s dir = Ok files.
Proof.
  intros [F1 _] Hin. unfold keyFiles. destruct (st_disk s !! dir) eqn:E; [eauto|]. case_bool_decide as Hd; [eauto|]. exfalso. unfold dirs in Hin. case_bool_decide.
  - destruct (F1 dir Hin). congruence.
  - apply elem_of_app in Hin as [Hin|Hin%list_elem_of_singleton]; [|done]. destruct (F1 dir Hin). congruence.
Qed.

Lemma swap_total env s : sound env → fit s → ∃ started s', swap env s = (Ok started, s').
Proof.
  intros [Hr Hw] Hf. unfold Accounts.swap, loadUIDs. rewrite Hr. assert (∃ acc, foldRes (readDir ToLower ParseAuthorizedKey s) (∅, ∅) (dirs s) = Ok acc) as [[found un] ->].
  { assert (∀ ds, (∀ dir, dir ∈ ds → dir ∈ dirs s) → ∀ acc, ∃ acc', foldRes (readDir ToLower ParseAuthorizedKey s) acc ds = Ok acc') as H; [|by apply H].
    induction ds as [|dir ds IH]; intros Hds acc; [eexists; done|]. cbn [foldRes]. unfold readDir at 1. destruct (keyFiles_there s dir Hf) as [files ->]; [apply Hds; left|]. apply IH. intros. apply Hds. by right. }
  unfold reconcile. destruct (foldl _ _ _) as [u' c]. unfold saveUIDs. rewrite Hw. destruct c; eauto.
Qed.

(** An edit whose change keeps the store fit either changed nothing or is over. *)
Lemma edit_cases {A} env name change s (r : res accountError A) s' :
  sound env → (∀ d a s1, st_disk s !! st_EnrolledDir s = Some d → change (name +:+ pub) d s = Ok (a, s1) → fit s1) → edit env name change s = (r, s') →
  (∃ e, r = Err e ∧ s' = s ∧ (st_EnrolledDir s = ""%string ∨ st_disk s !! st_EnrolledDir s = None ∨ ∃ d, st_disk s !! st_EnrolledDir s = Some d ∧ change (name +:+ pub) d s = Err e)) ∨
  ∃ d a s1 started, r = Ok a ∧ st_EnrolledDir s ≠ ""%string ∧ st_disk s !! st_EnrolledDir s = Some d ∧ change (name +:+ pub) d s = Ok (a, s1) ∧ swap env s1 = (Ok started, s').
Proof.
  intros He Hc. unfold Accounts.edit. case_bool_decide; [intros [= <- <-]; left; eauto 10|]. destruct (st_disk s !! st_EnrolledDir s) as [d|]; [|intros [= <- <-]; left; eauto 10].
  destruct (change _ d s) as [[a s1]|e] eqn:Ec; [|intros [= <- <-]; left; eauto 10]. destruct (swap_total env s1 He (Hc d a s1 eq_refl Ec)) as (started & s2 & Es).
  rewrite Es. intros [= <- <-]. right. eauto 10.
Qed.

Lemma put_fit name d d' (s : Store) : fit s → st_disk s !! st_EnrolledDir s = Some d → leavesOthers (name +:+ pub) d d' → fit (put_enrolled d' s).
Proof.
  intros [F1 F2] Hd [Ho _]. split; cbn.
  - intros dir Hin. destruct (decide (dir = st_EnrolledDir s)) as [->|?]; [rewrite lookup_insert_eq; by eexists|rewrite lookup_insert_ne by done; by apply F1].
  - intros d0. rewrite lookup_insert_eq. by intros [= <-].
Qed.

(** The enrolled directory written, by a store with the same disk, and synced. *)
Lemma put_moved env name d d' (s s1 s' : Store) started :
  fit s → st_EnrolledDir s ≠ ""%string → st_disk s !! st_EnrolledDir s = Some d → leavesOthers (name +:+ pub) d d' →
  st_EnrolledDir s1 = st_EnrolledDir s → st_KeysDirs s1 = st_KeysDirs s → st_disk s1 = st_disk (put_enrolled d' s) →
  swap env s1 = (Ok started, s') → moved name (fileKeys d' (name +:+ pub)) s s'.
Proof.
  intros Hf Hne Hd Hl E1 E2 E3 Hs. destruct (swap_disk _ _ _ _ _ _ _ Hs) as (S1 & S2 & S3). destruct (put_fit name d d' s Hf Hd Hl) as [P1 P2].
  assert (st_disk s' !! st_EnrolledDir s' = Some d') as Hd' by (rewrite S1, S3, E1, E3; cbn; apply lookup_insert_eq). split.
  - eapply filesApart_trans; [apply (put_enrolled_apart name d d' s Hd); by destruct Hl|]. apply filesApart_disk; [by rewrite S1, E1|by rewrite S2, E2|by rewrite S3, E3].
  - unfold AccountsTheorems.enrolledKeys. by rewrite Hd'.
  - split; [intros dir; rewrite S2, S3, E2, E3; apply P1|]. intros d0. rewrite Hd'. intros [= <-]. by destruct Hl.
  - rewrite Hd'. split; [congruence|by eexists].
Qed.

(** ** Each change of the enrolled directory *)

Lemma fileKeys_enrolled (s : Store) d name : st_disk s !! st_EnrolledDir s = Some d → fileKeys d (name +:+ pub) = enrolledKeys s name.
Proof. intros Hd. unfold AccountsTheorems.enrolledKeys. by rewrite Hd. Qed.

Lemma put_same d (s : Store) : st_disk s !! st_EnrolledDir s = Some d → put_enrolled d s = s.
Proof. intros Hd. unfold put_enrolled. destruct s; cbn in *. by rewrite insert_id. Qed.

Lemma AppendKey_moved env account name k comment s r s' :
  sound env → fit s → AccountName ToLower account = Some name → AppendKey ToLower ParseAuthorizedKey MarshalAuthorizedKey Fingerprint env account k comment s = (r, s') →
  match r with
  | Err _ => s' = s
  | Ok added => moved name (enrolledKeys s name ++ if added then [k] else []) s s' ∧ (added = true → Forall (λ k', Fingerprint k' ≠ Fingerprint k) (enrolledKeys s name)) ∧
                (added = false → ∃ k', k' ∈ enrolledKeys s name ∧ Fingerprint k' = Fingerprint k)
  end.
Proof.
  intros He Hf Hn. unfold AppendKey. rewrite Hn. intros H. pose proof (ft_files s Hf) as Hok.
  assert (∀ d a s1, st_disk s !! st_EnrolledDir s = Some d → appendChange ParseAuthorizedKey MarshalAuthorizedKey Fingerprint k comment (name +:+ pub) d s = Ok (a, s1) →
            ∃ d', s1 = put_enrolled d' s ∧ leavesOthers (name +:+ pub) d d' ∧ fileKeys d' (name +:+ pub) = enrolledKeys s name ++ (if a then [k] else []) ∧
                  (if a then Forall (λ k', Fingerprint k' ≠ Fingerprint k) (enrolledKeys s name) else ∃ k', k' ∈ enrolledKeys s name ∧ Fingerprint k' = Fingerprint k)) as Hc.
  { intros d a s1 Hd. unfold appendChange. destruct (fileLines d _) as [lines|] eqn:El; [|done]. pose proof (withoutKey_found ParseAuthorizedKey Fingerprint (Fingerprint k) lines) as Hw.
    assert (enrolledKeys s name = omap (lineKey ParseAuthorizedKey) lines) as Ek by (rewrite <- (fileKeys_enrolled s d name Hd); unfold KeyFilesProofs.fileKeys; by rewrite El).
    destruct (snd _) eqn:Ew; intros [= <- <-].
    - exists d. rewrite put_same by done. split_and!; [done|split; [by apply Hok|done]|by rewrite app_nil_r, (fileKeys_enrolled s d)|]. rewrite Ek. by apply Hw.
    - destruct (append_spec ParseAuthorizedKey MarshalAuthorizedKey marshal_plain marshal_start parse_marshal d (name +:+ pub) lines k comment (Hok d Hd) El) as [L1 L2].
      eexists. split_and!; [done|exact L1|by rewrite L2, (fileKeys_enrolled s d)|]. rewrite Ek. apply Forall_forall. intros k' Hin Hfp. by assert (false = true) by (apply Hw; eauto). }
  pose proof (λ Hside, edit_cases env name _ s r s' He Hside H) as Hcases. destruct Hcases as [(e & -> & -> & _)|(d & a & s1 & started & -> & Hne & Hd & Hch & Hs)].
  - intros d a s1 Hd Hch. destruct (Hc d a s1 Hd Hch) as (d' & -> & Hl & _). by apply (put_fit name d d').
  - done.
  - destruct (Hc d a s1 Hd Hch) as (d' & -> & Hl & Hk & Ha). split; [rewrite <- Hk; by apply (put_moved env name d d' s (put_enrolled d' s) s' started)|]. destruct a; (split; intros ?; [done || exact Ha|done || exact Ha]).
Qed.

Lemma CreateAccount_moved env account name k comment s r s' :
  sound env → fit s → AccountName ToLower account = Some name → CreateAccount ToLower ParseAuthorizedKey MarshalAuthorizedKey Fingerprint env account k comment s = (r, s') →
  match r with
  | Err _ => s' = s
  | Ok _ => moved name [k] s s' ∧ enrolledKeys s name = [] ∧ Known ToLower env s name = Ok false
  end.
Proof.
  intros He Hf Hn. unfold CreateAccount. rewrite Hn. intros H. pose proof (ft_files s Hf) as Hok.
  assert (∀ d, st_disk s !! st_EnrolledDir s = Some d → leavesOthers (name +:+ pub) d (<[name +:+ pub := keyLineFor MarshalAuthorizedKey k comment +:+ String newline ""]> d) ∧
            fileKeys (<[name +:+ pub := keyLineFor MarshalAuthorizedKey k comment +:+ String newline ""]> d) (name +:+ pub) = [k]) as Hc.
  { intros d Hd. exact (created_spec ParseAuthorizedKey MarshalAuthorizedKey marshal_plain marshal_start parse_marshal d (name +:+ pub) k comment (Hok d Hd)). }
  pose proof (λ Hside, edit_cases env name _ s r s' He Hside H) as Hcases. destruct Hcases as [(e & -> & -> & _)|(d & [] & s1 & started & -> & Hne & Hd & Hch & Hs)].
  - intros d [] s1 Hd (-> & _ & _)%createChange_ok. apply (put_fit name d); [done..|by apply Hc].
  - done.
  - pose proof (createChange_ok _ _ _ _ _ _ _ _ _ _ Hch) as (-> & _ & Hnone). destruct (Hc d Hd) as [L1 L2]. split_and!.
    + eapply put_moved in Hs; [|exact Hf|exact Hne|exact Hd|exact L1|done|done|done]. by rewrite L2 in Hs.
    + rewrite <- (fileKeys_enrolled s d) by done. unfold KeyFilesProofs.fileKeys, fileLines. by rewrite Hnone.
    + unfold createChange in Hch. by destruct (Known ToLower env s name) as [[]|].
Qed.

Lemma removeChange_moved name fp d (s : Store) b s1 :
  fit s → st_disk s !! st_EnrolledDir s = Some d → removeChange ParseAuthorizedKey Fingerprint fp (name +:+ pub) d s = Ok (b, s1) →
  ∃ d', s1 = put_enrolled d' s ∧ leavesOthers (name +:+ pub) d d' ∧ fileKeys d' (name +:+ pub) = filter (λ k', Fingerprint k' ≠ fp) (enrolledKeys s name).
Proof.
  intros Hf Hd. unfold removeChange. destruct (removeKeyLine _ _ _ _ d) as [[b' d']|] eqn:Er; [|done]. intros [= <- <-].
  destruct (removeKeyLine_spec ParseAuthorizedKey Fingerprint d _ fp b' d' (ft_files s Hf d Hd) Er) as (L1 & _ & L3). exists d'. split_and!; [done|done|]. by rewrite L3, (fileKeys_enrolled s d).
Qed.

Lemma removeChange_total name fp d (s : Store) : fit s → st_disk s !! st_EnrolledDir s = Some d → ∃ b s1, removeChange ParseAuthorizedKey Fingerprint fp (name +:+ pub) d s = Ok (b, s1).
Proof.
  intros Hf Hd. unfold removeChange, removeKeyLine, fileLines. destruct (d !! (name +:+ pub)) as [text|] eqn:Et.
  - destruct (ft_files s Hf d Hd _ _ Et) as (lines & -> & _). destruct (withoutKey _ _ lines fp) as [? []]; eauto.
  - destruct (withoutKey _ _ [] fp) as [? []]; eauto.
Qed.

Lemma RemoveKey_moved env account name fp s r s' :
  sound env → fit s → st_EnrolledDir s ≠ ""%string → is_Some (st_disk s !! st_EnrolledDir s) → AccountName ToLower account = Some name →
  (∀ dir file, dir ∈ st_KeysDirs s → fileFor ToLower s dir name = Ok (Some file) → operatorHolds ParseAuthorizedKey Fingerprint s fp (dir, file) = false) →
  RemoveKey ToLower ParseAuthorizedKey Fingerprint env account fp s = (r, s') → moved name (filter (λ k', Fingerprint k' ≠ fp) (enrolledKeys s name)) s s'.
Proof.
  intros He Hf Hne [d0 Hd0] Hn Hop. unfold RemoveKey. rewrite Hn.
  assert (∃ files, operatorFiles ToLower s name = Ok files) as [files Ef].
  { unfold operatorFiles. assert (∀ ds, (∀ dir, dir ∈ ds → dir ∈ dirs s) → ∀ out, ∃ files,
      foldRes (λ out dir, match fileFor ToLower s dir name with Err e => Err e | Ok None => Ok out | Ok (Some file) => Ok (out ++ [(dir, file)]) end) out ds = Ok files) as H.
    { induction ds as [|dir ds IH]; intros Hds out; [eexists; done|]. cbn [foldRes]. unfold fileFor at 1. destruct (keyFiles_there s dir Hf) as [fs ->]; [apply Hds; left|].
      destruct (fst <$> List.find _ fs); apply IH; intros; apply Hds; by right. }
    apply H. intros dir Hin. unfold dirs. case_bool_decide; set_solver. }
  rewrite Ef. pose proof (operatorFiles_spec ToLower s name files Ef) as Hfs. destruct (existsb _ files) eqn:Ee.
  { apply existsb_exists in Ee as ([dir file] & Hin%list_elem_of_In & Hh). apply Hfs in Hin as [Hin Hff]. by rewrite (Hop dir file Hin Hff) in Hh. }
  intros H. pose proof (λ Hside, edit_cases env name _ s r s' He Hside H) as Hcases. destruct Hcases as [(e & -> & -> & [?|[?|(d & Hd & Hch)]])|(d & a & s1 & started & -> & _ & Hd & Hch & Hs)].
  - intros d a s1 Hd Hch. destruct (removeChange_moved name fp d s a s1 Hf Hd Hch) as (d' & -> & Hl & _). by apply (put_fit name d d').
  - done.
  - congruence.
  - destruct (removeChange_total name fp d s Hf Hd) as (b & s1 & E). congruence.
  - destruct (removeChange_moved name fp d s a s1 Hf Hd Hch) as (d' & -> & Hl & <-). by apply (put_moved env name d d' s (put_enrolled d' s) s' started).
Qed.

Lemma RemoveAccountFile_moved env account name s r s' :
  sound env → fit s → st_EnrolledDir s ≠ ""%string → is_Some (st_disk s !! st_EnrolledDir s) → AccountName ToLower account = Some name → operatorFiles ToLower s name = Ok [] →
  RemoveAccountFile ToLower ParseAuthorizedKey Fingerprint env account s = (r, s') → moved name [] s s'.
Proof.
  intros He Hf Hne [d0 Hd0] Hn Hop. unfold RemoveAccountFile. rewrite Hn, Hop.
  assert (∀ d, st_disk s !! st_EnrolledDir s = Some d → leavesOthers (name +:+ pub) d (delete (name +:+ pub) d)) as Hl.
  { intros d Hd. split; [|intros other ?; by rewrite lookup_delete_ne]. intros f text [_ Ht]%lookup_delete_Some. by eapply (ft_files s Hf). }
  intros H. pose proof (λ Hside, edit_cases env name _ s r s' He Hside H) as Hcases. destruct Hcases as [(e & -> & -> & [?|[?|(d & Hd & Hch)]])|(d & a & s1 & started & -> & _ & Hd & [= _ <-] & Hs)].
  - intros d a s1 Hd [= _ <-]. by apply (put_fit name d), Hl.
  - done.
  - congruence.
  - done.
  - assert (fileKeys (delete (name +:+ pub) d) (name +:+ pub) = []) as <- by (unfold KeyFilesProofs.fileKeys, fileLines; by rewrite lookup_delete_eq). apply (put_moved env name d _ s (put_enrolled (delete (name +:+ pub) d) s) s' started); auto.
Qed.

(** The wait for the account: the key is taken out exactly when it was never
    created. *)
Lemma awaitOrWithdraw_moved env timedOut name fp release s err undo s' :
  sound env → fit s → st_EnrolledDir s ≠ ""%string → is_Some (st_disk s !! st_EnrolledDir s) →
  awaitOrWithdraw ToLower ParseAuthorizedKey Fingerprint env timedOut name fp release s = (err, undo, s') →
  moved name (if bool_decide (err = Some ErrNotProvisioned) then filter (λ k', Fingerprint k' ≠ fp) (enrolledKeys s name) else enrolledKeys s name) s s'.
Proof.
  intros He Hf Hne [d0 Hd0]. unfold awaitOrWithdraw. destruct (awaitProvisioning timedOut name s) as [[]|].
  - intros [= <- _ <-]. rewrite bool_decide_eq_false_2 by done. apply moved_disk; eauto.
  - destruct (edit env name _ s) as [u s1] eqn:E. intros [= <- _ <-]. rewrite bool_decide_eq_true_2 by done.
    assert (∀ d a s1, st_disk s !! st_EnrolledDir s = Some d → withdrawChange ToLower ParseAuthorizedKey Fingerprint env name fp release (name +:+ pub) d s = Ok (a, s1) →
              ∃ d', leavesOthers (name +:+ pub) d d' ∧ fileKeys d' (name +:+ pub) = filter (λ k', Fingerprint k' ≠ fp) (enrolledKeys s name) ∧
                    st_EnrolledDir s1 = st_EnrolledDir s ∧ st_KeysDirs s1 = st_KeysDirs s ∧ st_disk s1 = st_disk (put_enrolled d' s)) as Hc.
    { intros d a s2 Hd. unfold withdrawChange. destruct (removeChange _ _ fp _ d s) as [[b s3]|] eqn:Er; [|done]. destruct (removeChange_moved name fp d s b s3 Hf Hd Er) as (d' & -> & Hl & Hk).
      intros [= _ <-]. exists d'. destruct release; [|done]. destruct (releaseName_disk ToLower env name (put_enrolled d' s)) as (-> & -> & ->). done. }
    pose proof (λ Hside, edit_cases env name _ s u s1 He Hside E) as Hcases. destruct Hcases as [(e & -> & -> & [?|[?|(d & Hd & Hch)]])|(d & a & s2 & started & -> & _ & Hd & Hch & Hs)].
    + intros d a s2 Hd Hch. destruct (Hc d a s2 Hd Hch) as (d' & Hl & _ & E1 & E2 & E3). destruct (put_fit name d d' s Hf Hd Hl) as [P1 P2].
      split; [intros dir; rewrite E2, E3; apply P1|intros d1; rewrite E1, E3; apply P2].
    + done.
    + congruence.
    + unfold withdrawChange in Hch. destruct (removeChange_total name fp d s Hf Hd) as (b & s2 & E'). by rewrite E' in Hch.
    + destruct (Hc d a s2 Hd Hch) as (d' & Hl & <- & E1 & E2 & E3). by apply (put_moved env name d d' s s2 s1 started).
  - intros [= <- _ <-]. rewrite bool_decide_eq_false_2 by done. apply moved_disk; eauto.
Qed.

(** ** Adding a key, to the end of the wait *)

Abbreviation unheld k s name := (Forall (λ k', Fingerprint k' ≠ Fingerprint k) (enrolledKeys s name)) (only parsing).

Lemma filter_unheld k s name : unheld k s name → filter (λ k', Fingerprint k' ≠ Fingerprint k) (enrolledKeys s name ++ [k]) = enrolledKeys s name.
Proof.
  clear. intros H. rewrite filter_app, filter_cons, decide_False by (by intros Hn; apply Hn). rewrite app_nil_r. apply filter_id. intros k' Hin Hk. rewrite Forall_forall in H. by apply (H k').
Qed.

Lemma turns_moved name keys (s s1 : Store) l :
  moved name keys s s1 → moved name keys s (foldl (provisionTurn ToLower ParseAuthorizedKey Fingerprint) s1 l).
Proof.
  clear. intros Hm. destruct (provisionTurns_disk ToLower ParseAuthorizedKey Fingerprint l s1) as (P1 & P2 & P3). eapply moved_trans; [exact Hm|].
  destruct Hm as [_ Hk Hf [Hne Hd]]. rewrite <- Hk. by apply moved_disk.
Qed.

Lemma AppendKeyWait_moved env account name k comment s r s' :
  (∀ i, sound (ev_state env i)) → fit s → AccountName ToLower account = Some name →
  AppendKeyWait ToLower ParseAuthorizedKey MarshalAuthorizedKey Fingerprint env account k comment s = (r, s') →
  match r with
  | Err _ => s' = s
  | Ok (_, Some ErrNotProvisioned) => moved name (enrolledKeys s name) s s'
  | Ok (added, _) => moved name (enrolledKeys s name ++ if added then [k] else []) s s' ∧ (added = true → unheld k s name) ∧
                     (added = false → ∃ k', k' ∈ enrolledKeys s name ∧ Fingerprint k' = Fingerprint k)
  end.
Proof.
  intros He Hf Hn. unfold AppendKeyWait. destruct (AppendKey _ _ _ _ _ account k comment s) as [[added|e] s1] eqn:Ea; apply (AppendKey_moved _ _ name) in Ea; try done; [|by intros [= <- <-]].
  destruct Ea as (Hm & Ht & Hff). rewrite Hn. pose proof (turns_moved name _ s s1 (ev_wait env) Hm) as Hm2. set (s2 := foldl _ s1 _) in *. destruct added.
  - destruct (awaitOrWithdraw _ _ _ _ _ name _ false s2) as [[err undo] s3] eqn:Ew. pose proof (mv_keys _ _ _ _ Hm2) as Hk. apply awaitOrWithdraw_moved in Ew; [|by apply He|by eapply mv_fit|by eapply (mv_ready _ _ _ _ Hm2)..].
    rewrite Hk in Ew. intros [= <- <-]. destruct err as [[]|].
    + rewrite bool_decide_eq_false_2 in Ew by done. split; [by eapply moved_trans|by auto].
    + rewrite bool_decide_eq_true_2, filter_unheld in Ew by auto. by eapply moved_trans.
    + rewrite bool_decide_eq_false_2 in Ew by done. split; [by eapply moved_trans|by auto].
  - intros [= <- <-]. rewrite app_nil_r in Hm2 |- *. destruct (awaitProvisioning _ name s2) as [[]|]; auto.
Qed.

Lemma CreateAccountWait_moved env account name k comment s r s' :
  (∀ i, sound (ev_state env i)) → fit s → AccountName ToLower account = Some name →
  CreateAccountWait ToLower ParseAuthorizedKey MarshalAuthorizedKey Fingerprint env account k comment s = (r, s') →
  match r with
  | Err _ => s' = s
  | Ok (Some ErrNotProvisioned) => moved name (enrolledKeys s name) s s'
  | Ok _ => moved name [k] s s' ∧ enrolledKeys s name = [] ∧ Known ToLower (ev_state env 0) s name = Ok false
  end.
Proof.
  intros He Hf Hn. unfold CreateAccountWait. destruct (CreateAccount _ _ _ _ _ account k comment s) as [[u|e] s1] eqn:Ea; apply (CreateAccount_moved _ _ name) in Ea; try done; [|by intros [= <- <-]].
  destruct Ea as (Hm & Hnil & Hkn). rewrite Hn. pose proof (turns_moved name _ s s1 (ev_wait env) Hm) as Hm2. set (s2 := foldl _ s1 _) in *.
  destruct (awaitOrWithdraw _ _ _ _ _ name _ true s2) as [[err undo] s3] eqn:Ew. pose proof (mv_keys _ _ _ _ Hm2) as Hk. apply awaitOrWithdraw_moved in Ew; [|by apply He|by eapply mv_fit|by eapply (mv_ready _ _ _ _ Hm2)..].
  rewrite Hk in Ew. intros [= <- <-]. destruct err as [[]|].
  - rewrite bool_decide_eq_false_2 in Ew by done. split; [by eapply moved_trans|done].
  - rewrite bool_decide_eq_true_2, filter_cons, decide_False in Ew by (done || by intros Hx; apply Hx). rewrite Hnil. by eapply moved_trans.
  - rewrite bool_decide_eq_false_2 in Ew by done. split; [by eapply moved_trans|done].
Qed.

(** ** Operators' directories do not change *)

Lemma operator_dir name (s s' : Store) dir :
  filesApart name s s' → fit s → fit s' → st_EnrolledDir s ∉ st_KeysDirs s → dir ∈ st_KeysDirs s → st_disk s' !! dir = st_disk s !! dir.
Proof.
  intros (_ & E2 & Hf) [F1 _] [F1' _] Hnot Hin. destruct (F1 dir Hin) as [d Hd]. destruct (F1' dir) as [d' Hd']; [by rewrite E2|]. rewrite Hd, Hd'. f_equal. apply map_eq. intros file.
  specialize (Hf dir file). unfold fileAt in Hf. rewrite Hd, Hd' in Hf. cbn in Hf. apply Hf. intros [= -> _]. done.
Qed.

Lemma operator_fileFor name n (s s' : Store) dir :
  filesApart name s s' → fit s → fit s' → st_EnrolledDir s ∉ st_KeysDirs s → dir ∈ st_KeysDirs s → fileFor ToLower s' dir n = fileFor ToLower s dir n.
Proof.
  intros Ha Hf Hf' Hnot Hin. unfold fileFor, keyFiles. rewrite (operator_dir name s s' dir) by done. by destruct Ha as (-> & _ & _).
Qed.

Lemma Known_operators env (s : Store) name : Known ToLower env s name = Ok false → ∀ dir, dir ∈ dirs s → fileFor ToLower s dir name = Ok None.
Proof.
  unfold Known. destruct (loadUIDs env s) as [u|]; [|done]. destruct (u !! name); [done|]. induction (dirs s) as [|dir0 ds IH]; [set_solver|]. cbn [anyFile].
  destruct (fileFor ToLower s dir0 name) as [[?|]|] eqn:E; [done| |done]. intros H dir [->|Hin]%elem_of_cons; [done|by apply IH].
Qed.

Lemma operatorFiles_none (s : Store) name : (∀ dir, dir ∈ st_KeysDirs s → fileFor ToLower s dir name = Ok None) → operatorFiles ToLower s name = Ok [].
Proof.
  unfold operatorFiles. induction (st_KeysDirs s) as [|dir ds IH]; intros H; [done|]. cbn [foldRes]. rewrite (H dir) by left. apply IH. intros. apply H. by right.
Qed.

(** No operator's file for an account has the key. *)
Definition unheldByOperators (k : key) (s : Store) : Prop :=
  ∀ name dir file, dir ∈ st_KeysDirs s → fileFor ToLower s dir name = Ok (Some file) → operatorHolds ParseAuthorizedKey Fingerprint s (Fingerprint k) (dir, file) = false.

(** ** An enrolment, and its undo *)

(** One key more, at the end, unless one with its fingerprint was there. *)
Definition oneMore (k : key) (old new : list key) : Prop :=
  new = (old ++ [k])%list ∨ (new = old ∧ ∃ k', k' ∈ old ∧ Fingerprint k' = Fingerprint k).

Lemma enrolKey_moved env name create k comment s r s' :
  (∀ i, sound (ev_state env i)) → fit s → AccountName ToLower name = Some name → st_EnrolledDir s ∉ st_KeysDirs s → unheldByOperators k s →
  enrolKey ToLower ParseAuthorizedKey MarshalAuthorizedKey Fingerprint env name create k comment s = (r, s') →
  match r with
  | Err _ => s' = s ∨ moved name (enrolledKeys s name) s s'
  | Ok e => (∃ keys, moved name keys s s' ∧ oneMore k (enrolledKeys s name) keys) ∧
            moved name (enrolledKeys s name) s (undoKey ToLower ParseAuthorizedKey Fingerprint env name create k e s') ∧
            (create = true → em_created e = true)
  end.
Proof.
  intros He Hf Hn Hnot Hop. unfold enrolKey. destruct create.
  - destruct (CreateAccountWait _ _ _ _ env name k comment s) as [r' s1] eqn:Ec. apply (CreateAccountWait_moved _ _ name) in Ec; [|done..].
    assert (∀ e, moved name [k] s s1 ∧ enrolledKeys s name = [] ∧ Known ToLower (ev_state env 0) s name = Ok false →
      (∃ keys, moved name keys s s1 ∧ oneMore k (enrolledKeys s name) keys) ∧ moved name (enrolledKeys s name) s (undoKey ToLower ParseAuthorizedKey Fingerprint env name true k e s1)) as Hundo.
    { intros e (Hm & Hnil & Hkn). split; [exists [k]; split; [done|left; by rewrite Hnil]|]. unfold undoKey. rewrite Hnil.
      destruct (RemoveAccountFile _ _ _ _ name s1) as [r1 s2] eqn:Er. cbn [snd]. eapply moved_trans; [exact Hm|]. eapply RemoveAccountFile_moved; [apply He|by eapply mv_fit|by apply (mv_ready _ _ _ _ Hm)..|exact Hn| |exact Er].
      apply operatorFiles_none. pose proof (mv_apart _ _ _ _ Hm) as Ha. destruct Ha as (E1 & E2 & E3). intros dir Hin. rewrite E2 in Hin.
      rewrite (operator_fileFor name name s s1 dir (mv_apart _ _ _ _ Hm) Hf (mv_fit _ _ _ _ Hm) Hnot Hin). eapply Known_operators; [exact Hkn|]. unfold dirs. case_bool_decide; set_solver. }
    destruct r' as [[[]|]|[]]; intros [= <- <-]; auto.
    + destruct (Hundo {| em_created := true; em_pending := true; em_undo := true |} Ec). auto.
    + destruct (Hundo {| em_created := true; em_pending := false; em_undo := true |} Ec). auto.
  - destruct (Known ToLower _ s name) as [known|]; [|intros [= <- <-]; auto]. destruct (AppendKeyWait _ _ _ _ env name k comment s) as [r' s1] eqn:Ec. apply (AppendKeyWait_moved _ _ name) in Ec; [|done..].
    assert (∀ added e, em_undo e = added → moved name (enrolledKeys s name ++ if added then [k] else []) s s1 ∧ (added = true → unheld k s name) ∧ (added = false → ∃ k', k' ∈ enrolledKeys s name ∧ Fingerprint k' = Fingerprint k) →
      (∃ keys, moved name keys s s1 ∧ oneMore k (enrolledKeys s name) keys) ∧ moved name (enrolledKeys s name) s (undoKey ToLower ParseAuthorizedKey Fingerprint env name false k e s1)) as Hundo.
    { intros added e Eu (Hm & Ht & Hff). unfold undoKey. rewrite Eu. destruct added.
      - split; [eexists; split; [exact Hm|by left]|]. destruct (RemoveKey _ _ _ _ name _ s1) as [r1 s2] eqn:Er. cbn [snd]. rewrite <- (filter_unheld k s name) by auto. rewrite <- (mv_keys _ _ _ _ Hm).
        eapply moved_trans; [exact Hm|]. eapply RemoveKey_moved; [apply He|by eapply mv_fit|by apply (mv_ready _ _ _ _ Hm)..|exact Hn| |exact Er].
        pose proof (mv_apart _ _ _ _ Hm) as (E1 & E2 & E3). intros dir file Hin Hff'. rewrite E2 in Hin. rewrite (operator_fileFor name name s s1 dir (mv_apart _ _ _ _ Hm) Hf (mv_fit _ _ _ _ Hm) Hnot Hin) in Hff'.
        unfold operatorHolds. cbn [fst snd]. rewrite (operator_dir name s s1 dir (mv_apart _ _ _ _ Hm) Hf (mv_fit _ _ _ _ Hm) Hnot Hin). exact (Hop name dir file Hin Hff').
      - rewrite app_nil_r in Hm. split; [|done]. eexists. split; [exact Hm|]. right. split; [done|]. by apply Hff. }
    destruct r' as [[added [[]|]]|]; intros [= <- <-]; auto.
    + destruct (Hundo added {| em_created := negb known; em_pending := true; em_undo := added |} eq_refl Ec). split_and!; done.
    + destruct (Hundo added {| em_created := negb known; em_pending := false; em_undo := added |} eq_refl Ec). split_and!; done.
Qed.

(** ** A redemption *)

Context (ToLower_lower : ∀ s, everyByte accountByte s = true → ToLower s = s).

Abbreviation redeem := (redeem ToLower ParseAuthorizedKey MarshalAuthorizedKey Fingerprint Sum256).

Lemma redeemName_spec env bound asked (sv : Server) name create :
  redeemName ToLower env bound asked sv = Ok (name, create) →
  bound ≠ ""%string ∧ name = bound ∧ create = false ∨
  bound = ""%string ∧ create = true ∧ AccountName ToLower asked = Some name ∧ name ∉ reservedNames ∧ isAdmin sv name = false ∧ Known ToLower env (sv_accounts sv) name = Ok false.
Proof.
  clear. unfold redeemName. destruct (if bool_decide (asked = _) then _ else _) as [a|] eqn:Ea; [|done]. destruct (bool_decide (bound ≠ ""%string)) eqn:Hb.
  { apply bool_decide_eq_true in Hb. destruct (_ && _); [done|]. intros [= <- <-]. auto. }
  apply bool_decide_eq_false, dec_stable in Hb. destruct (bool_decide (a = ""%string)) eqn:Hn; [done|]. apply bool_decide_eq_false in Hn. destruct (bool_decide (a ∈ reservedNames)) eqn:Er; [done|]. destruct (isAdmin sv a) eqn:Ead; [done|]. cbn [orb].
  destruct (Known _ _ _ a) as [[]|] eqn:Ek; [done| |done]. intros [= <- <-]. right. apply bool_decide_eq_false in Er. split_and!; try done. revert Ea. case_bool_decide; [by intros [= <-]|done].
Qed.

Lemma redeemName_folded env bound asked (sv : Server) name create :
  redeemName ToLower env bound asked sv = Ok (name, create) → (bound ≠ ""%string → AccountName ToLower bound = Some bound) → AccountName ToLower name = Some name.
Proof using ToLower_lower.
  clear marshal_plain marshal_start parse_marshal. intros [(Hb & -> & _)|(_ & _ & Hn & _)]%redeemName_spec H; [by apply H|]. by eapply AccountName_id, AccountName_good.
Qed.

(** What a redemption may rely on: the state directory, the keys directories, and a
    key no operator has enrolled. *)
Record redeemable (env : redeemEnv) (r : redeemer key) (sv : Server) : Prop := {
  rb_sound : ∀ i, sound (ev_state (rv_server env) i);
  rb_fit : fit (sv_accounts sv);
  rb_apart : st_EnrolledDir (sv_accounts sv) ∉ st_KeysDirs (sv_accounts sv);
  rb_unheld : unheldByOperators (rd_key r) (sv_accounts sv);
  rb_bound : ∀ d n t, sv_tokens sv = Some d → d !! n = Some (Some t) → tk_Account t ≠ ""%string → AccountName ToLower (tk_Account t) = Some (tk_Account t)
}.

Lemma Check_file id secret now d tok : Check Sum256 id secret now d = Some tok → d !! tokenPath id = Some (Some tok) ∧ ValidID id = true ∧ matches Sum256 now tok secret = true.
Proof.
  clear. unfold Check, read. destruct (ValidID id); [|done]. cbn. destruct (d !! tokenPath id) as [[t|]|]; cbn; [|done..]. destruct (matches _ now t secret) eqn:E; [|done]. by intros [= <-].
Qed.

(** C17 (functional). A redemption that succeeds enrols the key the connection authenticated with,
    and only that.  The token's file was there with the secret presented, unexpired;
    the account is the token's own, or a new one under a name that nothing knew,
    that is neither reserved nor an admin's; the account's enrolled keys are what
    they were with this one more at the end, unless its fingerprint was among them;
    no other file of any keys directory changes, so every other account's enrolled
    keys are what they were; the key authenticates at once unless the account is
    still being created; and the claim was still there when it was committed, and is
    gone unless it could not be deleted, which only leaves it.  It holds while the
    state directory can be read and written, every operator's directory is there and
    every enrolled file can be read, the enrolled directory is not one of the
    operators', no operator's file has the key, and the accounts tokens are bound to
    are written as names are. *)
Theorem redemption_enrols_the_bearer env r req sv name created pending spent sv' :
  redeemable env r sv → redeem env r req sv = (Redeemed name created pending, spent, sv') →
  (∃ d tok, sv_tokens sv = Some d ∧ d !! tokenPath (rd_id r) = Some (Some tok) ∧ matches Sum256 (ev_now (rv_server env)) tok (rr_Secret req) = true ∧
     (tk_Account tok ≠ ""%string ∧ name = tk_Account tok ∨
      tk_Account tok = ""%string ∧ created = true ∧ AccountName ToLower (rr_Account req) = Some name ∧ name ∉ reservedNames ∧ isAdmin sv name = false ∧
      Known ToLower (ev_state (rv_server env) 4) (sv_accounts sv) name = Ok false)) ∧
  oneMore (rd_key r) (enrolledKeys (sv_accounts sv) name) (enrolledKeys (sv_accounts sv') name) ∧
  filesApart name (sv_accounts sv) (sv_accounts sv') ∧
  (∀ n, n ≠ name → enrolledKeys (sv_accounts sv') n = enrolledKeys (sv_accounts sv) n) ∧
  (pending = false → stillAuthorized Fingerprint (sv_accounts sv') name (rd_key r) = true) ∧
  (let at_ := claimName (rd_id r) (rv_claimed env) (rv_nonce env) in
   ∃ d d1 d', sv_tokens sv = Some d ∧ claim (rd_id r) at_ (rv_before env d) = Some d1 ∧ sv_tokens sv' = Some d' ∧ is_Some (rv_meanwhile env d1 !! at_) ∧
            d' = if rv_removable env then delete at_ (rv_meanwhile env d1) else rv_meanwhile env d1).
Proof.
  intros [Hs Hf Hnot Hop Hb]. unfold Redeem.redeem. destruct (sv_tokens sv) as [d|] eqn:Ed; [|done]. destruct (rv_allow env); cbn [negb]; [|done]. destruct (ev_writable _); cbn [negb]; [|done].
  destruct (Check _ _ _ _ d) as [tok|] eqn:Ec; [|done]. apply Check_file in Ec as (Hd & Hv & Hmt). destruct (redeemName _ _ _ _ sv) as [[nm create]|] eqn:En; [|done].
  pose proof (redeemName_folded _ _ _ _ _ _ En (Hb d _ tok eq_refl Hd)) as Hfold. apply redeemName_spec in En.
  unfold Consume. destruct (claim _ _ _) as [d1|] eqn:Ecl; [|done]. destruct (checkClaim _ _ _ _ d1) as [t1|]; [|done]. unfold enrolClaimed.
  destruct (enrolKey _ _ _ _ _ nm create _ _ _) as [e s1] eqn:Ee. apply (enrolKey_moved _ _ _ _ _ _ _ _ Hs Hf Hfold Hnot Hop) in Ee. destruct e as [e|]; [|done].
  destruct Ee as ((keys & Hm & Hk) & _ & Hcr). destruct (negb (em_pending e) && _) eqn:Ea; [done|]. unfold Done. destruct (rv_meanwhile env d1 !! _) as [f|] eqn:Ef; [|done].
  intros [= <- <- <- _ <-]. cbn [on_accounts on_tokens sv_accounts sv_tokens]. split_and!.
  - exists d, tok. split_and!; [done..|]. destruct En as [(H1 & H2 & _)|(H1 & H2 & H3 & H4 & H5 & H6)]; [auto|]. right. auto 10.
  - by rewrite (mv_keys _ _ _ _ Hm).
  - exact (mv_apart _ _ _ _ Hm).
  - intros n Hn. by apply (moved_other nm keys).
  - intros Hp. rewrite Hp in Ea. cbn in Ea. by apply negb_false_iff in Ea.
  - exists d, d1. eexists. split_and!; [done|exact Ecl|done| |done]. rewrite Ef. by eexists.
Qed.



End redeem.
