(* ===== verification/AdminProofs.v ===== *)
(** * Some admin keeps a key *)

From Stdlib Require Import Ascii.
From S2P Require Import Prelude GoStrings GoTime Records Names Mounts AccountPorts Ephemeral KeyFiles KeyFilesProofs Accounts AccountsProofs AccountsTheorems Tokens EnrolPolicy Manage ManageProofs.
Open Scope Z_scope.

(** ** A change of one account's file is no change for another *)

Section others.
Context {key : Type} (ToLower : string → string) (ParseAuthorizedKey : string → option (key * string)) (Fingerprint : key → string).
Abbreviation Store := (Store key).

(** The claim of a name is the first file that folds to it. *)
Lemma claims_first files n :
  List.find (λ c, bool_decide (c.2 = n)) (foldl (claimStep ToLower) ([], ∅) files).1 = (λ f, (f, n)) <$> head (filter (λ f, nameOf ToLower f = Some n) files).
Proof.
  clear. induction files as [|f files IH] using rev_ind; [done|]. rewrite foldl_app. cbn [foldl]. destruct (claims_fold ToLower files) as (_ & H2 & H3 & H4).
  destruct (foldl (claimStep ToLower) ([], ∅) files) as [out claimed]. cbn [fst snd] in *. unfold claimStep. fold (nameOf ToLower f). rewrite filter_app.
  assert (∀ l : list string, head (filter (λ f, nameOf ToLower f = Some n) files ++ l) = match head (filter (λ f, nameOf ToLower f = Some n) files) with Some x => Some x | None => head l end) as ->.
  { intros l. by destruct (filter _ files). }
  assert (∀ l, List.find (λ c : string * string, bool_decide (c.2 = n)) (out ++ l) =
               match List.find (λ c, bool_decide (c.2 = n)) out with Some x => Some x | None => List.find (λ c, bool_decide (c.2 = n)) l end) as Hfind.
  { clear. induction out as [|c out IH]; intros l; [done|]. cbn. case_bool_decide; [done|apply IH]. }
  destruct (nameOf ToLower f) as [m|] eqn:En.
  2: { cbn [fst]. rewrite IH. rewrite filter_cons, decide_False, filter_nil by congruence. by destruct (head _). }
  destruct (claimed !! m) as [f0|] eqn:Ec; cbn [fst]; rewrite ?Hfind, IH, filter_cons, filter_nil.
  - destruct (decide (nameOf ToLower f = Some n)) as [E|_]; [|by destruct (head _)]. assert (m = n) as -> by congruence. pose proof (H3 n f0 Ec) as Hin. destruct (H2 f0 n Hin) as (Hf & Hn & _).
    destruct (filter (λ f, nameOf ToLower f = Some n) files) eqn:Efl; [|done]. exfalso. assert (f0 ∈ filter (λ f, nameOf ToLower f = Some n) files) as Hx by (by apply list_elem_of_filter). rewrite Efl in Hx. by apply elem_of_nil in Hx.
  - destruct (head (filter _ files)) as [x|] eqn:Eh; [done|]. cbn [fmap option_fmap option_map List.find snd]. destruct (decide (nameOf ToLower f = Some n)) as [E|E]; [|by rewrite bool_decide_eq_false_2 by congruence].
    assert (m = n) as -> by congruence. by rewrite bool_decide_eq_true_2.
Qed.

#[local] Instance string_leb_antisymm : AntiSymm (=) (λ a b, string_leb a b = true).
Proof. intros a b H1 H2. by apply String.leb_antisym. Qed.

Lemma filter_sort_same (P : string → Prop) `{∀ x, Decision (P x)} l l' : filter P l ≡ₚ filter P l' → filter P (sort_strings l) = filter P (sort_strings l').
Proof.
  clear. intros Hp. assert (∀ l, StronglySorted (λ a b, string_leb a b = true) (filter P (sort_strings l))) as Hs.
  { intros l0. pose proof (stable_sort_sorted string_leb string_leb_total string_leb_trans l0) as Hl. change (stable_sort string_leb l0) with (sort_strings l0) in Hl.
    induction Hl as [|x xs Hxs IH Hx]; [constructor|]. rewrite filter_cons. case_decide; [|done]. constructor; [done|]. apply Forall_forall. intros y [_ Hy]%list_elem_of_filter. rewrite Forall_forall in Hx. auto. }
  apply (StronglySorted_unique (λ a b, string_leb a b = true)); [apply Hs..|]. unfold sort_strings. by rewrite !stable_sort_Permutation.
Qed.

(** Where only files that fold to another name differ, the claim is the same. *)
Lemma claimOrder_same (d d' : gmap string string) n :
  (∀ f, nameOf ToLower f = Some n → is_Some (d' !! f) ↔ is_Some (d !! f)) →
  filter (λ f, nameOf ToLower f = Some n) (claimOrder ToLower d') = filter (λ f, nameOf ToLower f = Some n) (claimOrder ToLower d).
Proof.
  clear. intros Hd. unfold claimOrder. rewrite !filter_app. assert (∀ (Q : string → bool) b, filter (λ f, nameOf ToLower f = Some n) (filter (λ m, Q m = b) (filter (λ m, isKeyFile m = true) (elements (dom d')))) ≡ₚ
    filter (λ f, nameOf ToLower f = Some n) (filter (λ m, Q m = b) (filter (λ m, isKeyFile m = true) (elements (dom d))))) as Hp.
  { intros Q b. apply NoDup_Permutation; [by do 3 apply NoDup_filter; apply NoDup_elements..|]. intros f. rewrite !list_elem_of_filter, !elem_of_elements, !elem_of_dom. pose proof (Hd f). naive_solver. }
  f_equal; apply filter_sort_same, Hp.
Qed.

(** What a directory has for another account. *)
Lemma textFor_other name other (s s' : Store) d d' dir :
  AccountName ToLower name = Some name → other ≠ name → st_EnrolledDir s' = st_EnrolledDir s →
  st_disk s !! st_EnrolledDir s = Some d → st_disk s' = <[st_EnrolledDir s := d']> (st_disk s) → (∀ f, f ≠ name +:+ pub → d' !! f = d !! f) →
  textFor ToLower s' dir other = textFor ToLower s dir other.
Proof.
  intros Hn Hne E1 Hd E2 Hl. unfold textFor, keyFiles. rewrite E1, E2. destruct (decide (dir = st_EnrolledDir s)) as [->|Hdir]; [|by rewrite lookup_insert_ne].
  rewrite lookup_insert_eq, Hd. change (default ∅ (Some d')) with d'. change (default ∅ (Some d)) with d. rewrite !claims_first.
  assert (∀ f, nameOf ToLower f = Some other → f ≠ name +:+ pub) as Hf. { intros f Hf ->. unfold nameOf in Hf. rewrite TrimSuffix_append in Hf. congruence. }
  rewrite (claimOrder_same d d' other) by (intros f Hfo; by rewrite Hl by auto). destruct (head _) as [f|] eqn:Eh; [|done]. cbn [fmap option_fmap option_map fst].
  apply Hl, Hf. destruct (filter _ (claimOrder ToLower d)) as [|f0 l] eqn:Efl; [done|]. injection Eh as ->. assert (f ∈ filter (λ f, nameOf ToLower f = Some other) (claimOrder ToLower d)) as Hin by (rewrite Efl; left).
  by apply list_elem_of_filter in Hin as [? _].
Qed.

End others.

Section admins.
Context {key : Type} (ToLower : string → string) (ParseAuthorizedKey : string → option (key * string))
        (MarshalAuthorizedKey : key → string) (Fingerprint : key → string) (Sum256 : string → string) (M : Mapping).
Context (ToLower_lower : ∀ s, everyByte accountByte s = true → ToLower s = s).
Abbreviation Store := (Store key).
Abbreviation Server := (Server key).
Abbreviation swap := (swap ToLower ParseAuthorizedKey Fingerprint).
Abbreviation World := (@World key).

(** What is published is what a sync of the files publishes. *)
Definition settled (s : Store) : Prop := ∃ env started, swap env s = (Ok started, s).

(** ** Keys that are published *)

Definition authorizes (s : Store) (name : string) (k : key) : Prop := ∃ a, st_accounts s !! name = Some a ∧ Authorized Fingerprint a k = true.

Lemma keysOf_authorizes (s : Store) name : keysOf s name ≠ [] ↔ ∃ k, authorizes s name k.
Proof.
  unfold keysOf, authorizes. destruct (st_accounts s !! name) as [a|]; [|split; [done|by intros (k & a & ? & _)]]. split.
  - destruct (ac_Keys a) as [|k l] eqn:E; [done|]. intros _. exists k, a. split; [done|]. apply Authorized_spec. exists k. rewrite E. split; [left|done].
  - intros (k & a' & [= <-] & (k' & Hin & _)%Authorized_spec). by destruct (ac_Keys a); [apply elem_of_nil in Hin|].
Qed.

Lemma keysOf_same (s s' : Store) name : st_accounts s' = st_accounts s → keysOf s' name = keysOf s name.
Proof. unfold keysOf. by intros ->. Qed.

Lemma dedup_NoDup keys : NoDup (Fingerprint <$> dedup Fingerprint keys).
Proof.
  unfold dedup. assert (∀ acc, NoDup (Fingerprint <$> acc.1) → (∀ k, k ∈ acc.1 → Fingerprint k ∈ acc.2) → NoDup (Fingerprint <$> (foldl (dedupStep Fingerprint) acc keys).1)) as H.
  { induction keys as [|k keys IH]; intros [ks seen] Hnd Hs; [done|]. cbn [foldl]. apply IH; unfold dedupStep; cbn [fst snd] in *; case_bool_decide as Hk; cbn [fst snd]; [done| |done|].
    - rewrite fmap_app. apply NoDup_app. split_and!; [done| |apply NoDup_singleton]. intros fp (k' & -> & Hk')%list_elem_of_fmap Hfp%list_elem_of_singleton. apply Hk. rewrite <- Hfp. by apply Hs.
    - intros k' [Hk'|Hk'%list_elem_of_singleton]%elem_of_app; [|subst k']; set_solver. }
  apply H; [apply NoDup_nil_2|by intros k []%elem_of_nil].
Qed.

Lemma published_distinct (w : World) name : world_inv w → settled (w_store w) → NoDup (Fingerprint <$> keysOf (w_store w) name).
Proof.
  intros Hw (env & started & Hs). unfold keysOf. destruct (st_accounts (w_store w) !! name) as [a|] eqn:Ea; [|apply NoDup_nil_2].
  destruct (swap_spec _ _ _ _ _ _ _ Hs) as (found & uids' & Hf & _ & _ & Ha & _). destruct (wi_accounts _ Hw name a Ea) as (_ & _ & _ & Hp). specialize (Ha name). rewrite Ea, Hp in Ha.
  destruct (found !! name) as [a0|] eqn:Ef.
  - injection Ha as ->. cbn. rewrite Hf in Ef. destruct (accountWith _ _) as [a1|]; [|done]. injection Ef as <-. cbn. apply dedup_NoDup.
  - cbn in Ha. injection Ha as ->. unfold revokeOne. destruct (ac_Keys a) eqn:E; cbn; rewrite ?E; apply NoDup_nil_2.
Qed.

Lemma another_key keys fp : NoDup (Fingerprint <$> keys) → (2 ≤ length keys)%nat → ∃ k, k ∈ keys ∧ Fingerprint k ≠ fp.
Proof.
  destruct keys as [|k1 [|k2 keys]]; cbn; [lia|lia|]. intros [H1 _]%NoDup_cons _. destruct (decide (Fingerprint k1 = fp)) as [E|E]; [|exists k1; split; [left|done]].
  exists k2. split; [right; left|]. intros E2. apply H1. rewrite E, <- E2. left.
Qed.

(** ** A sync after a change of one account's file *)

Section changed.
Context (w : World) (env : stateEnv) (d d' : gmap string string) (name : string) (started : list string) (s' : Store).
Context (Hw : world_inv w) (Hset : settled (w_store w)) (Hn : AccountName ToLower name = Some name).
Context (Hd : st_disk (w_store w) !! st_EnrolledDir (w_store w) = Some d) (Hl : ∀ f, f ≠ name +:+ pub → d' !! f = d !! f).
Context (Hs : swap env (put_enrolled d' (w_store w)) = (Ok started, s')).

Lemma authorizes_before n k :
  authorizes (w_store w) n k ↔ is_Some (st_provisioned (w_store w) !! n) ∧ ∃ dir text, dir ∈ dirs (w_store w) ∧ textFor ToLower (w_store w) dir n = Some text ∧ gives ParseAuthorizedKey Fingerprint (w_store w) dir n text k.
Proof using Hw Hset MarshalAuthorizedKey. destruct Hset as (env0 & started0 & Hs0). exact (swap_authorized ToLower ParseAuthorizedKey MarshalAuthorizedKey Fingerprint w env0 started0 (w_store w) n k Hw Hs0). Qed.

Lemma authorizes_after n k :
  authorizes s' n k ↔ is_Some (st_provisioned (w_store w) !! n) ∧
    ∃ dir text, dir ∈ dirs (w_store w) ∧ textFor ToLower (put_enrolled d' (w_store w)) dir n = Some text ∧ gives ParseAuthorizedKey Fingerprint (w_store w) dir n text k.
Proof using Hw Hs MarshalAuthorizedKey.
  exact (swap_authorized ToLower ParseAuthorizedKey MarshalAuthorizedKey Fingerprint _ env started s' n k (put_enrolled_inv w d' Hw) Hs).
Qed.

Lemma other_keeps other : other ≠ name → keysOf (w_store w) other ≠ [] → keysOf s' other ≠ [].
Proof using Hw Hs Hset Hn Hd Hl MarshalAuthorizedKey.
  intros Hne (k & (Hp & dir & text & Hdir & Ht & Hg)%authorizes_before)%keysOf_authorizes. apply keysOf_authorizes. exists k. apply authorizes_after. split; [done|].
  exists dir, text. split_and!; [done| |done]. rewrite <- Ht. by apply (textFor_other ToLower name other (w_store w) (put_enrolled d' (w_store w)) d d').
Qed.

(** A key that is left in the account's own file, or in another directory. *)
Lemma key_left k text0 : d !! (name +:+ pub) = Some text0 → shortLines text0 →
  (∀ text, d' !! (name +:+ pub) = Some text → shortLines text) →
  (∀ k', k' ∈ fileKeys ParseAuthorizedKey d (name +:+ pub) → Fingerprint k' = Fingerprint k → k' ∈ fileKeys ParseAuthorizedKey d' (name +:+ pub)) →
  (fileKeys ParseAuthorizedKey d (name +:+ pub) ≠ []) →
  authorizes (w_store w) name k → authorizes s' name k.
Proof using Hw Hs Hset Hn Hd MarshalAuthorizedKey.
  intros Ht0 Hsh Hsh' Hkeep Hsome (Hp & dir & text & Hdir & Ht & Hg)%authorizes_before. apply authorizes_after. split; [done|].
  destruct (decide (dir = st_EnrolledDir (w_store w))) as [->|Hne].
  - rewrite (textFor_exact ToLower (w_store w) _ d name text0 Hd Ht0 Hn) in Ht. injection Ht as <-. exists (st_EnrolledDir (w_store w)).
    assert (∃ k', k' ∈ fileKeys ParseAuthorizedKey d (name +:+ pub) ∧ Fingerprint k' = Fingerprint k) as (k' & Hin & Hfp).
    { unfold gives in Hg. pose proof (parseKeys_spec ParseAuthorizedKey text0) as Hpk. unfold fileKeys, fileLines in *. rewrite Ht0 in *. destruct (parseKeys _ text0) as [[[ks ?] ?]|].
      - destruct Hpk as (_ & lines & -> & ->). done.
      - destruct (readLines text0) as [lines|]; [|done]. by rewrite (Hpk Hsh lines eq_refl) in Hsome. }
    destruct (exact_file_gives ToLower ParseAuthorizedKey Fingerprint (put_enrolled d' (w_store w)) (st_EnrolledDir (w_store w)) d' name k) as (text & H1 & H2); [done|cbn; apply lookup_insert_eq|done|eauto|].
    exists text. by split_and!.
  - exists dir, text. split_and!; [done| |done]. unfold textFor, keyFiles in *. cbn. by rewrite !lookup_insert_ne.
Qed.

End changed.

(** A failed change publishes nothing. *)
Lemma edit_err_accounts {A} env name change s (e : accountError) s' :
  (∀ d (a : A) s1, change (name +:+ pub) d s = Ok (a, s1) → st_accounts s1 = st_accounts s) →
  edit ToLower ParseAuthorizedKey Fingerprint env name change s = (Err e, s') → st_accounts s' = st_accounts s.
Proof.
  intros Hc. unfold edit. case_bool_decide; [by intros [= _ <-]|]. destruct (st_disk s !! _) as [d|]; [|by intros [= _ <-]]. destruct (change _ d s) as [[a s1]|] eqn:Ec; [|by intros [= _ <-]].
  destruct (swap env s1) as [[?|?] s2] eqn:Es; [done|]. intros [= _ <-]. apply swap_err in Es as ->. by apply (Hc d a).
Qed.

(** ** The two removals *)

Context (w : World) (Hreach : world_reachable ToLower ParseAuthorizedKey MarshalAuthorizedKey Fingerprint w) (Hset : settled (w_store w)).
Context (Hok : ∀ d, st_disk (w_store w) !! st_EnrolledDir (w_store w) = Some d → dirOk d).

Lemma RemoveKey_keeps env name fp r s' :
  AccountName ToLower name = Some name → (∀ text, fileAt (w_store w) (st_EnrolledDir (w_store w)) (name +:+ pub) = Some text → shortLines text) →
  (∀ text, fileAt s' (st_EnrolledDir s') (name +:+ pub) = Some text → shortLines text) →
  RemoveKey ToLower ParseAuthorizedKey Fingerprint env name fp (w_store w) = (r, s') →
  (∀ other, other ≠ name → keysOf (w_store w) other ≠ [] → keysOf s' other ≠ []) ∧
  (∀ k, Fingerprint k ≠ fp → authorizes (w_store w) name k → authorizes s' name k).
Proof using Hreach Hset Hok.
  intros Hn Hsh Hsh' HR. pose proof (world_reachable_inv _ _ _ _ w Hreach) as Hw. destruct r as [removed|e].
  - destruct (RemoveKey_spec _ _ _ _ _ _ _ _ _ _ Hn Hok HR) as (_ & Hrem & _ & _ & d & d' & started & Hd & Hrm & Hs).
    destruct (removeKeyLine_spec ParseAuthorizedKey Fingerprint d _ fp removed d' (Hok d Hd) Hrm) as ([_ Hl] & Hb & Hk). split.
    + intros other Hne. by apply (other_keeps w env d d' name started s' Hw Hset Hn Hd Hl Hs).
    + intros k Hfp Hau. destruct removed.
      * destruct (proj1 Hb eq_refl) as (k0 & Hk0 & _). destruct (d !! (name +:+ pub)) as [text0|] eqn:Et.
        2: { unfold fileKeys, fileLines in Hk0. rewrite Et in Hk0. by apply elem_of_nil in Hk0. }
        apply (key_left w env d d' name started s' Hw Hset Hn Hd Hs k text0 Et).
        -- apply Hsh. unfold fileAt. by rewrite Hd.
        -- intros text Ht. apply Hsh'. destruct (swap_disk _ _ _ _ _ _ _ Hs) as (E1 & _ & E3). unfold fileAt. rewrite E1, E3. cbn. by rewrite lookup_insert_eq.
        -- intros k' Hin Ek. rewrite Hk. apply list_elem_of_filter. split; [congruence|done].
        -- intros E. rewrite E in Hk0. by apply elem_of_nil in Hk0.
        -- done.
      * assert (d' = d) as ->. { unfold removeKeyLine in Hrm. destruct (fileLines d _) as [lines|]; [|done]. destruct (withoutKey _ _ lines fp) as [? []]; congruence. }
        apply (authorizes_after w env d started s' Hw Hs name k). apply (authorizes_before w Hw Hset name k) in Hau.
        assert (put_enrolled d (w_store w) = w_store w) as -> by (unfold put_enrolled; destruct (w_store w); cbn in *; by rewrite insert_id). exact Hau.
  - assert (st_accounts s' = st_accounts (w_store w)) as E.
    { unfold RemoveKey in HR. rewrite Hn in HR. destruct (operatorFiles _ _ _); [|by injection HR as _ <-]. destruct (existsb _ _); [by injection HR as _ <-|]. revert HR. apply edit_err_accounts.
      intros d0 x s1. unfold removeChange. destruct (removeKeyLine _ _ _ _ d0) as [[? ?]|]; [|done]. by intros [= _ <-]. }
    split; [intros other _; by rewrite (keysOf_same (w_store w) s')|]. intros k _. unfold authorizes. by rewrite E.
Qed.

Lemma RemoveAccountFile_keeps env name r s' other :
  AccountName ToLower name = Some name → RemoveAccountFile ToLower ParseAuthorizedKey Fingerprint env name (w_store w) = (r, s') →
  other ≠ name ∨ (∃ e, r = Err e) → keysOf (w_store w) other ≠ [] → keysOf s' other ≠ [].
Proof using Hreach Hset.
  intros Hn HR Ho Hk. pose proof (world_reachable_inv _ _ _ _ w Hreach) as Hw. destruct r as [[]|e].
  - destruct Ho as [Hne|[? ?]]; [|done]. unfold RemoveAccountFile in HR. rewrite Hn in HR. destruct (operatorFiles _ _ _) as [[|? ?]|]; [|done..].
    apply edit_ok in HR as (d & s1 & started & _ & Hd & [= <-] & Hs). apply (other_keeps w env d (delete (name +:+ pub) d) name started s' Hw Hset Hn Hd) in Hk; [done| |done|done].
    intros f Hf. by rewrite lookup_delete_ne.
  - rewrite (keysOf_same (w_store w) s'); [done|]. unfold RemoveAccountFile in HR. rewrite Hn in HR. destruct (operatorFiles _ _ _) as [[|? ?]|]; [|by injection HR as _ <-..].
    revert HR. apply edit_err_accounts. by intros d0 x s1 [= _ <-].
Qed.

Lemma other_admin op caller target (sv : Server) : ck_OtherAdmins (checkFor op caller target sv) ≠ 0 → ∃ b, b ∈ sv_Admins sv ∧ b ≠ target ∧ keysOf (sv_accounts sv) b ≠ [].
Proof.
  clear. cbn. intros H. destruct (filter _ (elements (sv_Admins sv))) as [|b l] eqn:E; [done|]. exists b.
  assert (b ∈ filter (λ name, name ≠ target ∧ keysOf (sv_accounts sv) name ≠ []) (elements (sv_Admins sv))) as Hin by (rewrite E; left). apply list_elem_of_filter in Hin as [[? ?] ?%elem_of_elements]. done.
Qed.

(** Purging, and what follows, publishes nothing. *)
Lemma removeRest_accounts env target purge (sv : Server) :
  let sv' := fst (removeRest M env target purge sv) in st_accounts (sv_accounts sv') = st_accounts (sv_accounts sv) ∧ sv_Admins sv' = sv_Admins sv.
Proof.
  clear. cbv zeta. unfold removeRest. set (sv1 := add_reset target purge sv).
  assert (st_accounts (sv_accounts sv1) = st_accounts (sv_accounts sv) ∧ sv_Admins sv1 = sv_Admins sv) as [E1 E2] by done.
  assert (∀ s : Store, st_accounts (Purge env target s).2 = st_accounts s) as Hp. { intros s. unfold Purge. destruct (st_accounts s !! target) as [a|]; [|done]. by destruct (ac_Keys a). }
  assert (∀ b : Server, st_accounts (sv_accounts (dropRuns M env target b).1) = st_accounts (sv_accounts b) ∧ sv_Admins (dropRuns M env target b).1 = sv_Admins b) as Hdr.
  { intros b. unfold dropRuns. by destruct (Drop _ _) as [r snap]. }
  destruct purge.
  - specialize (Hp (sv_accounts sv1)). destruct (Purge env target (sv_accounts sv1)) as [[ok home] s] eqn:Ep. cbn [snd] in Hp. set (sv2 := on_accounts s sv1). specialize (Hdr sv2).
    destruct (_ && negb (ev_shared env)); [destruct (dropRuns M env target sv2) as [sv3 n3]|]; cbn [fst] in *; [destruct Hdr as [-> ->]|]; cbn; by rewrite Hp.
  - rewrite andb_false_r. done.
Qed.

Lemma revokeBound_accounts env target (sv : Server) : sv_accounts (revokeBound env target sv) = sv_accounts sv ∧ sv_Admins (revokeBound env target sv) = sv_Admins sv.
Proof. clear. unfold revokeBound. destruct (sv_tokens sv); [|done]. by destruct (ev_listable env). Qed.

(** C16 (safety). No single request locks every admin out.  While some admin has a key,
    whatever key or account anybody asks to remove, an admin or not, with a force or
    without, some admin has a key once that request is done, with no other request
    beside it: the removal that would take the last one is refused.  It holds with
    the accounts published as the files say and every file of the enrolled directory
    readable line by line, no line longer than the 64 KiB one may have.  Two requests
    at once can take one key each and leave no admin a key, since no lock is held
    from the check to the removal. *)
Theorem some_admin_keeps_a_key env connected caller req sv b reply sv' :
  sv_accounts sv = w_store w → AccountName ToLower (sa_name caller) = Some (sa_name caller) →
  (∀ s name text, s = sv_accounts sv ∨ s = sv_accounts sv' → fileAt s (st_EnrolledDir s) (name +:+ pub) = Some text → shortLines text) →
  rq_Op req = OpKeyRemove ∨ rq_Op req = OpUserRemove → b ∈ sv_Admins sv → keysOf (sv_accounts sv) b ≠ [] →
  operate ToLower ParseAuthorizedKey MarshalAuthorizedKey Fingerprint Sum256 M env connected caller req sv = (reply, sv') →
  ∃ b', b' ∈ sv_Admins sv' ∧ keysOf (sv_accounts sv') b' ≠ [].
Proof using Hreach Hset Hok ToLower_lower.
  intros Ew Hc Hsh Hop Hb Hkb. unfold operate. destruct (if bool_decide (rq_Account req = ""%string) then _ else _) as [target|] eqn:Et; [|intros [= _ <-]; eauto].
  assert (AccountName ToLower target = Some target) as Hn. { revert Et. case_bool_decide; [by intros [= <-]|]. intros Et. by eapply AccountName_id, AccountName_good. }
  assert (∀ op, rq_Op req = op → op = OpKeyRemove ∨ op = OpUserRemove) as Hneq by (intros op <-; exact Hop).
  do 5 (match goal with |- context [bool_decide (rq_Op req = ?o)] => rewrite (bool_decide_eq_false_2 (rq_Op req = o)) by (intros Ho; by destruct (Hneq _ Ho)) end).
  destruct (bool_decide (rq_Op req = OpUserRemove)) eqn:Eu.
  - clear Hneq Et Eu. case_bool_decide; [intros [= _ <-]; eauto|]. unfold userRemove, userRemoveChecked, userRemoveGo. destruct (authorize _) as [e|] eqn:Ea; [intros [= _ <-]; eauto|].
    apply authorize_removal in Ea; [|by left]. destruct Ea as (_ & _ & Hlast). destruct (st_accounts (sv_accounts sv) !! target) as [a|]; [|intros [= _ <-]; eauto].
    destruct (negb _ && _); [intros [= _ <-]; eauto|]. destruct (negb _ && _); [intros [= _ <-]; eauto|]. destruct (negb _); [intros [= _ <-]; eauto|].
    destruct (revokeBound_accounts env target sv) as [R1 R2]. set (sv1 := revokeBound env target sv) in *. rewrite R1, Ew. destruct (RemoveAccountFile _ _ _ _ target (w_store w)) as [r s] eqn:Er.
    assert (∃ b', b' ∈ sv_Admins sv ∧ keysOf (w_store w) b' ≠ [] ∧ b' ≠ target) as (b' & Hb1 & Hb2 & Hb3).
    { destruct (decide (b = target)) as [->|Hne]; [|rewrite Ew in Hkb; eauto]. destruct (other_admin OpUserRemove caller target sv) as (b' & ? & ? & Hk'); [|rewrite Ew in Hk'; eauto].
      apply Hlast; [by apply bool_decide_eq_true_2| |done]. cbn. destruct (keysOf (sv_accounts sv) target); [done|cbn; lia]. }
    assert (keysOf s b' ≠ []) as Hks by (by apply (RemoveAccountFile_keeps _ target r s b' Hn Er); [left|]).
    destruct r as [[]|e]; [|intros [= _ <-]; cbn; exists b'; by rewrite R2].
    pose proof (removeRest_accounts env target (rq_Purge req) (on_accounts s sv1)) as [P1 P2]. destruct (removeRest _ _ _ _ _) as [sv3 notices]. intros [= _ <-]. cbn [fst] in P1, P2. exists b'.
    rewrite P2, (keysOf_same s) by exact P1. cbn. by rewrite R2.
  - apply bool_decide_eq_false in Eu. destruct Hop as [Hop|Hop]; [|done]. clear Hneq.
    do 2 (match goal with |- context [bool_decide (rq_Op req = ?o)] => rewrite (bool_decide_eq_false_2 (rq_Op req = o)) by (by rewrite Hop) end). rewrite bool_decide_eq_true_2 by done.
    unfold keyRemove, keyRemoveChecked, keyRemoveGo. destruct (authorize _) as [e|]; [intros [= _ <-]; eauto|]. destruct (holdsKey _ _ _) eqn:Eh; cbn [negb]; [|intros [= _ <-]; eauto].
    destruct (authorize _) as [e|] eqn:Ea; [intros [= _ <-]; eauto|]. apply authorize_removal in Ea; [|by right]. destruct Ea as (_ & _ & Hlast). destruct (negb _); [intros [= _ <-]; eauto|].
    rewrite Ew. destruct (RemoveKey _ _ _ _ target _ (w_store w)) as [r s] eqn:Er. intros H. assert (sv' = on_accounts s sv) as -> by (destruct r as [[]|]; by injection H as _ <-). clear H.
    destruct (RemoveKey_keeps (ev_state env 0) target (rq_Fingerprint req) r s Hn) as [Ho Ht]; [intros text; rewrite <- Ew; apply Hsh; auto|intros text; apply (Hsh s); auto|exact Er|].
    cbn [on_accounts sv_Admins sv_accounts]. rewrite Ew in *. destruct (decide (b = target)) as [->|Hne]; [|eauto]. cbn in Hlast. rewrite Ew in Hlast.
    destruct (decide (Z.of_nat (length (keysOf (w_store w) target)) - 1 = 0)) as [E1|E1].
    + destruct (other_admin OpKeyRemove caller target sv) as (b' & ? & ? & Hk'); [|rewrite Ew in Hk'; eauto]. cbn. rewrite Ew. apply Hlast; [by apply bool_decide_eq_true_2|lia|done].
    + destruct (another_key (keysOf (w_store w) target) (rq_Fingerprint req)) as (k & Hk & Hfp); [apply published_distinct; [by eapply world_reachable_inv|done]|destruct (keysOf (w_store w) target); [done|cbn in *; lia]|].
      exists target. split; [done|]. apply keysOf_authorizes. exists k. apply Ht; [done|]. unfold keysOf in Hk. unfold authorizes. destruct (st_accounts (w_store w) !! target) as [a|]; [|by apply elem_of_nil in Hk].
      exists a. split; [done|]. apply Authorized_spec. eauto.
Qed.

End admins.
