(* ===== verification/Logins.v ===== *)
(** * Logging in, and being thrown out (agent/internal/sshd: server.go, revoke.go)

    A key is checked when it is offered and again once it has signed, under the lock
    of the live connections; every sync of the accounts is followed by a sweep that
    closes the connections whose key is enrolled no more.  One definition per hold of
    that lock; a sweep keeps it through its loop and asks the store for each
    connection, so that other syncs land between its turns. *)

From S2P Require Import Prelude GoStrings GoTime Records Names Mounts AccountPorts Ephemeral KeyFiles Accounts Tokens EnrolPolicy Manage Redeem.
Open Scope Z_scope.

Definition LoginPrefix : string := "+token:".

(** How far a connection has got. *)
Inductive phase := Handshake | LoggedIn | Redeeming | Refused_.

(** [liveConn] with the connection's context: the account or the redeemer that
    [authenticate] left there, and who it was recorded as. *)
Record conn (key : Type) := {
  cn_account : option sessionAccount;
  cn_redeemer : option (redeemer key);
  cn_who : option (string * key);
  cn_phase : phase;
  cn_held : Z;
  cn_revoked : bool;
  cn_closed : bool
}.
Arguments cn_account {key}.
Arguments cn_redeemer {key}.
Arguments cn_who {key}.
Arguments cn_phase {key}.
Arguments cn_held {key}.
Arguments cn_revoked {key}.
Arguments cn_closed {key}.

Section logins.
Context {key : Type} (ToLower : string → string) (Fingerprint : key → string) (Marshal : key → string).
Abbreviation Store := (Store key).
Abbreviation conn := (conn key).

(** [track]. *)
Definition tracked : conn :=
  {| cn_account := None; cn_redeemer := None; cn_who := None; cn_phase := Handshake; cn_held := 0; cn_revoked := false; cn_closed := false |}.

Definition set_context (a : option sessionAccount) (r : option (redeemer key)) (c : conn) : conn :=
  {| cn_account := a; cn_redeemer := r; cn_who := cn_who c; cn_phase := cn_phase c; cn_held := cn_held c; cn_revoked := cn_revoked c; cn_closed := cn_closed c |}.
Definition set_phase (p : phase) (c : conn) : conn :=
  {| cn_account := cn_account c; cn_redeemer := cn_redeemer c; cn_who := cn_who c; cn_phase := p; cn_held := cn_held c; cn_revoked := cn_revoked c; cn_closed := cn_closed c |}.
Definition set_who (who : string * key) (c : conn) : conn :=
  {| cn_account := cn_account c; cn_redeemer := cn_redeemer c; cn_who := Some who; cn_phase := cn_phase c; cn_held := cn_held c; cn_revoked := cn_revoked c; cn_closed := cn_closed c |}.
Definition set_held (n : Z) (revoked closed : bool) (c : conn) : conn :=
  {| cn_account := cn_account c; cn_redeemer := cn_redeemer c; cn_who := cn_who c; cn_phase := cn_phase c; cn_held := n; cn_revoked := revoked; cn_closed := closed |}.

(** [authenticate], of a login and the key it offers: whether it is accepted, and
    the context. *)
Definition authenticate (s : Store) (live : string → bool) (login : string) (k : key) (c : conn) : bool * conn :=
  match strings.CutPrefix login LoginPrefix with
  | Some id => if live id then (true, set_context None (Some {| rd_id := id; rd_key := k |}) c) else (false, c)
  | None =>
      match AccountName ToLower login with
      | None => (false, c)
      | Some name =>
          match st_accounts s !! name with
          | None => (false, c)
          | Some a => if Authorized Fingerprint a k then (true, set_context (Some {| sa_name := ac_Name a; sa_fingerprint := Fingerprint k |}) None c) else (false, c)
          end
      end
  end.

(** [authenticated]: who a connection is, and whether that is still authorized. *)
Definition authenticated (s : Store) (name : string) (k : key) (c : conn) : bool * conn :=
  (stillAuthorized Fingerprint s name k, set_who (name, k) c).

(** [loggedIn], once a key has signed. *)
Definition loggedIn (s : Store) (k : key) (c : conn) : conn :=
  match cn_redeemer c, cn_account c with
  | Some r, _ => set_phase (if bool_decide (Marshal (rd_key r) = Marshal k) then Redeeming else Refused_) c
  | None, None => set_phase Refused_ c
  | None, Some a =>
      if bool_decide (sa_fingerprint a = Fingerprint k) then
        let '(ok, c') := authenticated s (sa_name a) k c in set_phase (if ok then LoggedIn else Refused_) c'
      else set_phase Refused_ c
  end.

(** [sweep]'s turn for one connection. *)
Definition sweepConn (s : Store) (c : conn) : conn :=
  match cn_who c with
  | Some (name, k) =>
      if stillAuthorized Fingerprint s name k then c
      else if 0 <? cn_held c then set_held (cn_held c) true (cn_closed c) c else set_held (cn_held c) (cn_revoked c) true c
  | None => c
  end.

(** [hold] and its release. *)
Definition hold (c : conn) : conn := set_held (cn_held c + 1) (cn_revoked c) (cn_closed c) c.
Definition releaseHold (c : conn) : conn :=
  let n := cn_held c - 1 in set_held n (cn_revoked c) (cn_closed c || (n =? 0) && cn_revoked c) c.

(** [Connections]. *)
Definition Connections (conns : gmap nat conn) (account : string) : Z :=
  Z.of_nat (size (filter (λ kv, fst <$> cn_who kv.2 = Some account) conns)).

(** ** The server over time *)

(** The accounts published; the live connections; the sweeps that are due; and the
    connections the sweep under way has still to look at. *)
Record loginWorld := {
  lw_store : Store;
  lw_conns : gmap nat conn;
  lw_due : nat;
  lw_sweep : option (list nat)
}.

Definition put_conn (id : nat) (c : conn) (w : loginWorld) : loginWorld :=
  {| lw_store := lw_store w; lw_conns := <[id := c]> (lw_conns w); lw_due := lw_due w; lw_sweep := lw_sweep w |}.

Inductive login_step (w : loginWorld) : loginWorld → Prop :=
| login_track id : lw_sweep w = None → lw_conns w !! id = None → login_step w (put_conn id tracked w)
| login_offer id c live login k : lw_conns w !! id = Some c → cn_phase c = Handshake →
    login_step w (put_conn id (snd (authenticate (lw_store w) live login k c)) w)
| login_sign id c k : lw_sweep w = None → lw_conns w !! id = Some c → cn_phase c = Handshake →
    login_step w (put_conn id (loggedIn (lw_store w) k c) w)
| login_sync s : login_step w {| lw_store := s; lw_conns := lw_conns w; lw_due := S (lw_due w); lw_sweep := lw_sweep w |}
| login_sweep n ids : lw_due w = S n → lw_sweep w = None → ids ≡ₚ elements (dom (lw_conns w)) →
    login_step w {| lw_store := lw_store w; lw_conns := lw_conns w; lw_due := n; lw_sweep := Some ids |}
| login_sweep_one id ids c : lw_sweep w = Some (id :: ids) → lw_conns w !! id = Some c →
    login_step w {| lw_store := lw_store w; lw_conns := <[id := sweepConn (lw_store w) c]> (lw_conns w); lw_due := lw_due w; lw_sweep := Some ids |}
| login_sweep_end : lw_sweep w = Some [] → login_step w {| lw_store := lw_store w; lw_conns := lw_conns w; lw_due := lw_due w; lw_sweep := None |}
| login_hold id c : lw_sweep w = None → lw_conns w !! id = Some c → login_step w (put_conn id (hold c) w)
| login_release id c : lw_sweep w = None → lw_conns w !! id = Some c → 0 < cn_held c → login_step w (put_conn id (releaseHold c) w)
| login_gone id : lw_sweep w = None → login_step w {| lw_store := lw_store w; lw_conns := delete id (lw_conns w); lw_due := lw_due w; lw_sweep := None |}.

Definition login_reachable (w : loginWorld) : Prop := ∃ s, rtc login_step {| lw_store := s; lw_conns := ∅; lw_due := 0; lw_sweep := None |} w.

(** ** What a connection is worth *)

(** On its way out: closed, or to be closed when what holds it has replied. *)
Definition leaving (c : conn) : Prop := cn_closed c = true ∨ 0 < cn_held c ∧ cn_revoked c = true.

Definition vouched (w : loginWorld) (id : nat) (c : conn) : Prop :=
  match cn_who c with
  | Some (name, k) => cn_phase c = LoggedIn → stillAuthorized Fingerprint (lw_store w) name k = true ∨ leaving c ∨ (0 < lw_due w)%nat ∨ ∃ ids, lw_sweep w = Some ids ∧ id ∈ ids
  | None => cn_phase c ≠ LoggedIn
  end.

(** One of an account and a redeemer, and who a connection is is its account. *)
Definition exclusive (c : conn) : Prop :=
  (cn_redeemer c ≠ None → cn_account c = None ∧ cn_who c = None) ∧ (cn_phase c = Redeeming → cn_redeemer c ≠ None) ∧ (cn_phase c = Handshake → cn_who c = None).

Definition login_inv (w : loginWorld) : Prop := ∀ id c, lw_conns w !! id = Some c → vouched w id c ∧ exclusive c.

Lemma login_step_inv w w' : login_inv w → login_step w w' → login_inv w'.
Proof.
  intros Hi Hs. destruct Hs as [id Hl Hn|id c live login k Hc Hp|id c k Hl Hc Hp|s|n ids Hd Hl Hids|id ids c Hl Hc|Hl|id c Hl Hc|id c Hl Hc Hh|id Hl].
  - intros id' c'. cbn. intros [[<- <-]|[_ H]]%lookup_insert_Some; [|exact (Hi id' c' H)]. split; [by unfold vouched|by split_and!].
  - destruct (Hi id c Hc) as [Hv (He1 & He2 & He3)]. specialize (He3 Hp). intros id' c'. cbn. intros [[<- <-]|[_ H]]%lookup_insert_Some; [|exact (Hi id' c' H)].
    unfold authenticate. destruct (strings.CutPrefix login LoginPrefix) as [tid|].
    + destruct (live tid); cbn [snd]; [|by split; [|split_and!]]. split; [unfold vouched; cbn; by rewrite He3, Hp|]. split_and!; cbn; [done|by rewrite Hp|done].
    + destruct (AccountName _ _) as [name|]; [|by split; [|split_and!]]. destruct (st_accounts _ !! name) as [a|]; [|by split; [|split_and!]]. destruct (Authorized _ a k); cbn [snd]; [|by split; [|split_and!]].
      split; [unfold vouched; cbn; by rewrite He3, Hp|]. split_and!; cbn; [done|by rewrite Hp|done].
  - destruct (Hi id c Hc) as [Hv (He1 & He2 & He3)]. specialize (He3 Hp). intros id' c'. cbn. intros [[<- <-]|[_ H]]%lookup_insert_Some; [|exact (Hi id' c' H)].
    unfold loggedIn. destruct (cn_redeemer c) as [r|] eqn:Er.
    + destruct He1 as [Ha Hw]; [done|]. case_bool_decide; (split; [unfold vouched; cbn; by rewrite He3|split_and!; cbn; rewrite ?Er, ?Ha, ?Hw; done]).
    + destruct (cn_account c) as [a|] eqn:Ea; [|split; [unfold vouched; cbn; by rewrite He3|split_and!; cbn; by rewrite ?Er]].
      case_bool_decide; [|split; [unfold vouched; cbn; by rewrite He3|split_and!; cbn; by rewrite ?Er]]. cbn [authenticated].
      destruct (stillAuthorized Fingerprint (lw_store w) (sa_name a) k) eqn:Es; (split; [unfold vouched; cbn; auto|split_and!; cbn; by rewrite ?Er]). done.
  - intros id c Hc. cbn in Hc. destruct (Hi id c Hc) as [Hv He]. split; [|done]. unfold vouched in *. destruct (cn_who c) as [[name k]|]; [|done]. intros _. right. right. left. cbn. lia.
  - intros id c Hc. cbn in Hc. destruct (Hi id c Hc) as [Hv He]. split; [|done]. unfold vouched in *. destruct (cn_who c) as [[name k]|]; [|done]. intros _. right. right. right. cbn. exists ids. split; [done|].
    rewrite Hids. apply elem_of_elements, elem_of_dom. by eexists.
  - destruct (Hi id c Hc) as [Hv (He1 & He2 & He3)]. intros id' c'. cbn. intros [[<- <-]|[Hne H]]%lookup_insert_Some.
    + unfold sweepConn. destruct (cn_who c) as [[name k]|] eqn:Ew; [|split; [unfold vouched in *; by rewrite Ew in *|by split_and!; rewrite ?Ew]].
      destruct (stillAuthorized Fingerprint (lw_store w) name k) eqn:Es; [split; [unfold vouched; rewrite Ew; auto|by split_and!; rewrite ?Ew]|].
      destruct (Z.ltb_spec 0 (cn_held c)); (split; [unfold vouched; cbn; rewrite Ew; intros _; right; left|split_and!; cbn; by rewrite ?Ew]); [by right|by left].
    + destruct (Hi id' c' H) as [Hv' He']. split; [|done]. unfold vouched in *. destruct (cn_who c') as [[name k]|]; [|done]. intros Hp. destruct (Hv' Hp) as [?|[?|[?|(ids' & E & Hin)]]]; auto.
      right. right. right. cbn. exists ids. split; [done|]. rewrite Hl in E. injection E as <-. apply elem_of_cons in Hin as [->|?]; done.
  - intros id c Hc. cbn in Hc. destruct (Hi id c Hc) as [Hv He]. split; [|done]. unfold vouched in *. destruct (cn_who c) as [[name k]|]; [|done]. intros Hp. destruct (Hv Hp) as [?|[?|[?|(ids' & E & Hin)]]]; auto.
    rewrite Hl in E. injection E as <-. by apply elem_of_nil in Hin.
  - destruct (Hi id c Hc) as [Hv (He1 & He2 & He3)]. intros id' c'. cbn. intros [[<- <-]|[_ H]]%lookup_insert_Some; [|exact (Hi id' c' H)]. split; [|by split_and!]. unfold vouched in *. cbn.
    destruct (cn_who c) as [[name k]|]; [|done]. intros Hp. destruct (Hv Hp) as [?|[[?|[? ?]]|[?|?]]]; auto; right; left; [by left|]. right. cbn. split; [lia|done].
  - destruct (Hi id c Hc) as [Hv (He1 & He2 & He3)]. intros id' c'. cbn. intros [[<- <-]|[_ H]]%lookup_insert_Some; [|exact (Hi id' c' H)]. split; [|by split_and!]. unfold vouched in *. cbn.
    destruct (cn_who c) as [[name k]|]; [|done]. intros Hp. destruct (Hv Hp) as [?|[[Hcl|[Hh' Hr]]|[?|?]]]; auto; right; left; unfold leaving; cbn.
    + left. by rewrite Hcl.
    + destruct (Z.eqb_spec (cn_held c - 1) 0); [left; rewrite Hr; by rewrite orb_true_r|right; split; [lia|done]].
  - intros id' c'. cbn. intros [_ H]%lookup_delete_Some. rewrite <- Hl. destruct w; cbn in *. subst. exact (Hi id' c' H).
Qed.

Lemma login_reachable_inv w : login_reachable w → login_inv w.
Proof.
  intros [s H]. assert (login_inv {| lw_store := s; lw_conns := ∅; lw_due := 0; lw_sweep := None |}) as Hi by (intros id c; cbn; by rewrite lookup_empty).
  induction H as [|w1 w2 w3 H1 _ IH]; [done|]. apply IH. by eapply login_step_inv.
Qed.

(** C14 (safety). Revoking a key disconnects it.  However logins, syncs of the accounts, sweeps and
    requests interleave, once the sweep that follows the last sync is over every
    connection that is logged in has a key its account still enrols, or has been
    closed, or will be as soon as the request that holds it has replied: also one
    whose key was revoked between the offer and the signature.  A connection that
    redeems a token has no account. *)
Theorem revoked_keys_are_disconnected w id c :
  login_reachable w → lw_due w = 0%nat → lw_sweep w = None → lw_conns w !! id = Some c →
  (cn_phase c = LoggedIn → ∃ name k, cn_who c = Some (name, k) ∧ (stillAuthorized Fingerprint (lw_store w) name k = true ∨ cn_closed c = true ∨ 0 < cn_held c ∧ cn_revoked c = true)) ∧
  (cn_phase c = Redeeming → cn_account c = None ∧ cn_who c = None).
Proof.
  intros Hi%login_reachable_inv Hd Hl Hc. destruct (Hi id c Hc) as [Hv (He1 & He2 & _)]. split; [|auto]. intros Hp. unfold vouched in Hv. destruct (cn_who c) as [[name k]|]; [|done]. exists name, k. split; [done|].
  destruct (Hv Hp) as [?|[?|[?|(ids & E & _)]]]; [auto|auto|lia|congruence].
Qed.

End logins.
