(* ===== verification/Replay.v ===== *)
(** * Replaying a client's changes (core-agent/replay/replay.go)

    A frame becomes operations on paths under the directory the workspace's daemon
    has each export mounted at, so that a watcher in a container notices.  The
    daemon's answers and the clock are arguments, by how often each has been asked;
    an operation on a path is recorded.  The directories of a frame are touched in
    the order the map lists them. *)
From Stdlib Require Import Ascii.
From S2P Require Import Prelude GoStrings GoTime Records DirTypes Names Coalesce WatchTree Watcher CacheProto WatchTreeProofs.

Open Scope Z_scope.

Definition mountpointTTL : Duration := 10 * Second.

(** ** Paths *)

Definition Under (root p sep : string) : bool := bool_decide (p = root) || strings.HasPrefix p (root +:+ sep).

Definition resolve (root share : string) : option string :=
  let rel := strings.TrimPrefix (path.Clean ("/" +:+ share)) "/" in
  let p := pathJoin [root; rel] in
  if Under root p "/" then Some p else None.

Definition cleanShare (p : string) : string := path.Clean ("/" +:+ strings.TrimPrefix p "/").

Definition parentDir (p : string) : string :=
  let d := path.Dir (cleanShare p) in if bool_decide (d = "."%string) then "/" else d.

(** ** The replayer *)

Record Replayer := {
  rp_Client : string;
  rp_cached : gmap string (string * Time);
  rp_asked : nat;
  rp_read : nat;
  rp_pokes : list (string * bool)
}.

Section replay.
Context (Mountpoint : nat → string → option string) (clock : nat → Time).

Definition ask_mountpoint (volume : string) (r : Replayer) : option string * Replayer :=
  (Mountpoint (rp_asked r) volume,
   {| rp_Client := rp_Client r; rp_cached := rp_cached r; rp_asked := S (rp_asked r); rp_read := rp_read r; rp_pokes := rp_pokes r |}).
Definition time_now (r : Replayer) : Time * Replayer :=
  (clock (rp_read r), {| rp_Client := rp_Client r; rp_cached := rp_cached r; rp_asked := rp_asked r; rp_read := S (rp_read r); rp_pokes := rp_pokes r |}).
Definition set_cached (volume : string) (c : string * Time) (r : Replayer) : Replayer :=
  {| rp_Client := rp_Client r; rp_cached := <[volume := c]> (rp_cached r); rp_asked := rp_asked r; rp_read := rp_read r; rp_pokes := rp_pokes r |}.
Definition add_poke (p : string) (isDir : bool) (r : Replayer) : Replayer :=
  {| rp_Client := rp_Client r; rp_cached := rp_cached r; rp_asked := rp_asked r; rp_read := rp_read r; rp_pokes := rp_pokes r ++ [(p, isDir)] |}.

(** [mountpoint]: the clock is read only where there is something cached. *)
Definition fresh (volume : string) (r : Replayer) : option string * Replayer :=
  match rp_cached r !! volume with
  | None => (None, r)
  | Some (p, at_) => let '(now, r) := time_now r in (if Sub now at_ <? mountpointTTL then Some p else None, r)
  end.

Definition mountpoint (export : string) (r : Replayer) : option string * Replayer :=
  match VolumeNameForExport (rp_Client r) export with
  | Err _ => (None, r)
  | Ok volume =>
      match fresh volume r with
      | (Some p, r) => (if bool_decide (p = ""%string) then None else Some p, r)
      | (None, r) =>
          let '(answer, r) := ask_mountpoint volume r in
          let mp := default ""%string answer in
          let '(now, r) := time_now r in
          (if bool_decide (mp = ""%string) then None else Some mp, set_cached volume (mp, now) r)
      end
  end.

Definition poke (export share : string) (isDir : bool) (r : Replayer) : Replayer :=
  match mountpoint export r with
  | (None, r) => r
  | (Some root, r) => match resolve root share with Some p => add_poke p isDir r | None => r end
  end.

(** [apply]: an event, with the directories noted so far; then the directories. *)
Definition note (export dir : string) (dirs : gmap string (gset string)) : gmap string (gset string) :=
  <[export := {[ dir ]} ∪ default ∅ (dirs !! export)]> dirs.

Definition applyEvent (acc : Replayer * gmap string (gset string)) (e : WireEvent) : Replayer * gmap string (gset string) :=
  let '(r, dirs) := acc in
  match ValidEvent e with
  | Some _ => acc
  | None =>
      if negb (Z.land (we_Op e) (Z.lor OpRemove OpRename) =? 0) then (r, note (we_Export e) (parentDir (we_Path e)) dirs)
      else if negb (Z.land (we_Op e) OpCreate =? 0) then
        (poke (we_Export e) (we_Path e) (we_Dir e) r, note (we_Export e) (parentDir (we_Path e)) dirs)
      else (poke (we_Export e) (we_Path e) (we_Dir e) r, dirs)
  end.

Definition pokeDirs (dirs : gmap string (gset string)) (r : Replayer) : Replayer :=
  foldl (λ r kv, foldl (λ r dir, poke kv.1 dir true r) r (elements kv.2)) r (map_to_list dirs).

Definition apply (frame : Frame) (r : Replayer) : Replayer :=
  match fr_Notice frame with
  | Some n => poke (wn_Export n) (cleanShare (wn_Path n)) true r
  | None => let '(r, dirs) := foldl applyEvent (r, ∅) (fr_Events frame) in pokeDirs dirs r
  end.

(** [Serve]'s loop: a line that is no frame is skipped. *)
Definition Serve (lines : list (option Frame)) (r : Replayer) : Replayer :=
  foldl (λ r line, match line with Some frame => apply frame r | None => r end) r lines.

End replay.

(** * Changes are replayed under the client's own mounts, and all of them *)

Open Scope Z_scope.

(** ** Paths *)

Lemma Clean_abs ws : Forall plainName ws → path.Clean (abs ws) = abs ws.
Proof.
  intros H. unfold abs. rewrite Clean_rooted. f_equal. destruct ws as [|w ws]; [done|]. rewrite Split_Join; [|done|eapply Forall_impl; [exact H|]; by intros ? [_ ?]].
  rewrite clean_parts_plain; [done|]. eapply Forall_impl; [exact H|]. by intros ? [? _].
Qed.

Lemma Clean_slash q : path.Clean ("/" +:+ "/" +:+ q) = path.Clean ("/" +:+ q).
Proof. rewrite !Clean_rooted. change (strings.Split ("/" +:+ q) path.sep) with (""%string :: strings.Split q path.sep). cbn [path.clean_parts]. by rewrite bool_decide_eq_true_2 by by left. Qed.

(** What a path in a share is in the workspace. *)
Definition joined (root share : string) : string := if bool_decide (share = "/"%string) then root else root +:+ share.

Lemma abs_app ws vs : ws ≠ [] → vs ≠ [] → abs ws +:+ abs vs = abs (ws ++ vs).
Proof.
  intros Hw Hv. unfold abs. revert Hw. induction ws as [|w ws IH]; [done|]. intros _. destruct ws as [|w' ws].
  - cbn [app]. rewrite (Join_cons w vs) by done. cbn. by rewrite ?append_assoc.
  - cbn [app] in *. rewrite !Join_cons by done. specialize (IH ltac:(done)). cbn in IH. injection IH as IH. rewrite !append_assoc. cbn. by rewrite ?append_assoc, IH.
Qed.

Lemma abs_root ws : Forall plainName ws → abs ws = "/"%string → ws = [].
Proof. intros H E. destruct ws as [|w ws]; [done|]. exfalso. inversion H as [|? ? [[Hw _] _] _]; subst. unfold abs in E. destruct ws as [|v ws]; [by destruct w|]. rewrite Join_cons in E by done. by destruct w. Qed.

Lemma TrimPrefix_abs ws : strings.TrimPrefix (abs ws) "/" = strings.Join ws "/".
Proof. apply TrimPrefix_append. Qed.

(** A path the agent accepts always resolves, to what it says, under a mountpoint
    that is not the root. *)
Lemma resolve_abs ws vs : Forall plainName ws → ws ≠ [] → Forall plainName vs → resolve (abs ws) (abs vs) = Some (joined (abs ws) (abs vs)).
Proof.
  intros Hw Hne Hv. unfold resolve. assert (path.Clean ("/" +:+ abs vs) = abs vs) as ->. { unfold abs at 1. rewrite Clean_slash. by apply Clean_abs. }
  rewrite TrimPrefix_abs. unfold pathJoin. rewrite filter_cons_True by done.
  destruct vs as [|v vs].
  - cbn [strings.Join]. rewrite filter_cons_False by (by intros H; apply H). rewrite filter_nil. cbn [strings.Join]. rewrite Clean_abs by done. unfold Under, joined.
    rewrite (bool_decide_eq_true_2 (abs ws = abs ws)), (bool_decide_eq_true_2 (abs [] = "/"%string)) by done. done.
  - rewrite filter_cons_True; [|destruct vs as [|v' vs]; [by inversion Hv as [|? ? [[? _] _] _]|rewrite Join_cons by done; by destruct v]].
    rewrite filter_nil. assert (strings.Join [abs ws; strings.Join (v :: vs) "/"] "/" = abs ws +:+ abs (v :: vs)) as ->. { rewrite Join_cons by done. done. }
    rewrite abs_app by done. rewrite Clean_abs by (by apply Forall_app). assert (Under (abs ws) (abs (ws ++ v :: vs)) "/" = true) as ->.
    { unfold Under. apply orb_true_iff. right. apply HasPrefix_spec. exists (strings.Join (v :: vs) "/"). rewrite <- abs_app by done. change (abs (v :: vs)) with ("/" +:+ strings.Join (v :: vs) "/"). by rewrite append_assoc. }
    unfold joined. rewrite bool_decide_eq_false_2; [by rewrite abs_app|]. intros E. by apply abs_root in E.
Qed.

Lemma valid_share_abs p : ValidSharePath p = None → ∃ vs, p = abs vs ∧ Forall plainName vs.
Proof.
  intros (vs & -> & H1 & H2)%valid_share_parts. exists vs. split; [done|]. apply Forall_forall. intros w Hw. rewrite Forall_forall in H1, H2. split; [by apply H1|by apply H2].
Qed.

Lemma cleanShare_abs vs : Forall plainName vs → cleanShare (abs vs) = abs vs.
Proof. intros H. unfold cleanShare. rewrite TrimPrefix_abs. by apply Clean_abs. Qed.

Lemma parentDir_abs vs : Forall plainName vs → parentDir (abs vs) = abs (removelast vs).
Proof.
  intros H. unfold parentDir. rewrite cleanShare_abs by done. assert (path.Dir (abs vs) = abs (removelast vs)) as ->.
  { apply Dir_rooted; eapply Forall_impl; [exact H|by intros ? [? _]|exact H|]. intros w [(? & _) ?]. done. }
  by rewrite bool_decide_eq_false_2 by (by unfold abs).
Qed.

Section replay.
Context (Mountpoint : nat → string → option string) (clock : nat → Time).
Abbreviation poke := (poke Mountpoint clock).
Abbreviation mountpoint := (mountpoint Mountpoint clock).
Abbreviation applyEvent := (applyEvent Mountpoint clock).
Abbreviation pokeDirs := (pokeDirs Mountpoint clock).
Abbreviation apply := (apply Mountpoint clock).

(** ** What every poke keeps *)

(** A property of the replayer that each poke keeps is kept by a whole stream. *)
Lemma stream_keeps (P : Replayer → Prop) : (∀ export share isDir r, P r → P (poke export share isDir r)) → ∀ lines r, P r → P (Serve Mountpoint clock lines r).
Proof.
  intros Hp. assert (∀ es r dirs, P r → P (foldl applyEvent (r, dirs) es).1) as He.
  { induction es as [|e es IH]; intros r dirs Hr; [done|]. cbn [foldl]. destruct (applyEvent (r, dirs) e) as [r1 d1] eqn:E. apply IH. revert E. unfold Replay.applyEvent.
    destruct (ValidEvent e); [by intros [= <- _]|]. destruct (negb _); [by intros [= <- _]|]. destruct (negb _); intros [= <- _]; by apply Hp. }
  assert (∀ l r, P r → P (foldl (λ r (kv : string * gset string), foldl (λ r dir, poke kv.1 dir true r) r (elements kv.2)) r l)) as Hd.
  { induction l as [|[ex ds] l IH]; intros r Hr; [done|]. cbn [foldl]. apply IH. generalize (elements (ex, ds).2). intros els. revert r Hr. induction els as [|d els IHe]; intros r Hr; [done|]. cbn [foldl]. apply IHe. by apply Hp. }
  induction lines as [|[frame|] lines IH]; intros r Hr; [done| |by apply IH]. cbn. apply IH. unfold Replay.apply. destruct (fr_Notice frame); [by apply Hp|].
  specialize (He (fr_Events frame) r ∅ Hr). destruct (foldl _ _ _) as [r1 dirs]. by apply Hd.
Qed.

(** What the daemon answered for a volume, how long ago. *)
Definition answered (volume root : string) (at_ : Time) (r : Replayer) : Prop :=
  ∃ k i, (k < rp_asked r)%nat ∧ (i < rp_read r)%nat ∧ root = default ""%string (Mountpoint k volume) ∧ at_ = clock i.

Definition trusted (client p : string) : Prop :=
  ∃ export volume root k i j, VolumeNameForExport client export = Ok volume ∧ Mountpoint k volume = Some root ∧ root ≠ ""%string ∧
    (j = i ∨ Sub (clock j) (clock i) < mountpointTTL) ∧ Under root p "/" = true.

Record replay_ok (client : string) (r : Replayer) : Prop := {
  ro_client : rp_Client r = client;
  ro_cached : ∀ volume root at_, rp_cached r !! volume = Some (root, at_) → answered volume root at_ r;
  ro_pokes : ∀ p isDir, (p, isDir) ∈ rp_pokes r → trusted client p
}.

Lemma mountpoint_ok client export r o r' : replay_ok client r → mountpoint export r = (o, r') →
  replay_ok client r' ∧ rp_pokes r' = rp_pokes r ∧ ∀ root, o = Some root → ∃ volume k i j, VolumeNameForExport client export = Ok volume ∧ Mountpoint k volume = Some root ∧ root ≠ ""%string ∧ (j = i ∨ Sub (clock j) (clock i) < mountpointTTL).
Proof.
  intros [H1 H2 H3]. unfold Replay.mountpoint. rewrite H1. destruct (VolumeNameForExport client export) as [volume|] eqn:Ev; [|by intros [= <- <-]].
  assert (∀ (root : string) k, root = default ""%string (Mountpoint k volume) → root ≠ ""%string → Mountpoint k volume = Some root) as Hk. { intros root k. destruct (Mountpoint k volume); cbn; naive_solver. }
  assert (∀ r1, rp_Client r1 = client → rp_pokes r1 = rp_pokes r → (rp_asked r ≤ rp_asked r1)%nat → (rp_read r ≤ rp_read r1)%nat → (∀ v x a, rp_cached r1 !! v = Some (x, a) → rp_cached r !! v = Some (x, a) ∨ answered v x a r1) → replay_ok client r1) as Hlater.
  { intros r1 E1 E2 L1 L2 Hc. split; [done| |by rewrite E2]. intros v x a Hx. destruct (Hc v x a Hx) as [Hy|?]; [|done]. destruct (H2 v x a Hy) as (k & i & ? & ? & ? & ?). exists k, i. split_and!; [lia|lia|done|done]. }
  unfold fresh. destruct (rp_cached r !! volume) as [[p at_]|] eqn:Ec; cbn [time_now].
  - destruct (Z.ltb_spec (Sub (clock (rp_read r)) at_) mountpointTTL) as [Hlt|_].
    + intros [= <- <-]. split_and!; [apply Hlater; cbn; auto|done|]. case_bool_decide as Hp; [done|]. intros root [= <-]. destruct (H2 _ _ _ Ec) as (k & i & _ & _ & Hr & ->). exists volume, k, i, (rp_read r). auto 10.
    + cbn. intros [= <- <-]. split_and!; [apply Hlater; cbn; auto|done|].
      * intros v x a [[<- [= <- <-]]|[_ ?]]%lookup_insert_Some; [|by left]. right. exists (rp_asked r), (S (rp_read r)). cbn. split_and!; [lia|lia|done|done].
      * case_bool_decide as Hp; [done|]. intros root [= <-]. exists volume, (rp_asked r), 0%nat, 0%nat. auto 10.
  - cbn. intros [= <- <-]. split_and!; [apply Hlater; cbn; auto|done|].
    + intros v x a [[<- [= <- <-]]|[_ ?]]%lookup_insert_Some; [|by left]. right. exists (rp_asked r), (rp_read r). cbn. split_and!; [lia|lia|done|done].
    + case_bool_decide as Hp; [done|]. intros root [= <-]. exists volume, (rp_asked r), 0%nat, 0%nat. auto 10.
Qed.

Lemma poke_ok client export share isDir r : replay_ok client r → replay_ok client (poke export share isDir r).
Proof.
  intros Hr. unfold Replay.poke. destruct (mountpoint export r) as [[root|] r1] eqn:E; destruct (mountpoint_ok client _ _ _ _ Hr E) as (H1 & H2 & H3); [|done].
  unfold resolve. destruct (Under _ _ _) eqn:Eu; [|done]. destruct H1 as [A1 A2 A3]. split; [done|done|]. cbn. intros p d [?|Hp%list_elem_of_singleton]%elem_of_app; [by eapply A3|]. injection Hp as -> ->.
  destruct (H3 root eq_refl) as (volume & k & i & j & ? & ? & ? & ?). exists export, volume, root, k, i, j. auto.
Qed.

(** Whatever a client sends, an operation is performed only on a path that is, or is
    below, the directory the daemon gave for one of that client's own volumes, as
    it answered less than ten seconds before: no event or notice names a path
    elsewhere. *)
Theorem replays_stay_in_the_clients_mounts client lines p isDir :
  (p, isDir) ∈ rp_pokes (Serve Mountpoint clock lines {| rp_Client := client; rp_cached := ∅; rp_asked := 0; rp_read := 0; rp_pokes := [] |}) →
  ∃ export volume root k i j, VolumeNameForExport client export = Ok volume ∧ Mountpoint k volume = Some root ∧ root ≠ ""%string ∧
    (j = i ∨ Sub (clock j) (clock i) < mountpointTTL) ∧ Under root p "/" = true.
Proof.
  apply (ro_pokes client). apply stream_keeps; [intros; by apply poke_ok|]. split; cbn; [done|by intros ? ? ? ?%lookup_empty_Some|by intros ? ? []%elem_of_nil].
Qed.

(** ** Nothing that is valid is left out *)

Section stable.
Context (export volume client : string) (ws : list string).
Context (Hvol : VolumeNameForExport client export = Ok volume) (Hws : Forall plainName ws) (Hne : ws ≠ []).
Context (Hans : ∀ k, Mountpoint k volume = Some (abs ws)).

Definition steady (r : Replayer) : Prop := rp_Client r = client ∧ ∀ root at_, rp_cached r !! volume = Some (root, at_) → root = abs ws.

Lemma mountpoint_steady ex r o r' : steady r → mountpoint ex r = (o, r') → steady r' ∧ rp_pokes r' = rp_pokes r ∧ (ex = export → o = Some (abs ws)).
Proof using Hvol Hans.
  intros [H1 H2]. unfold Replay.mountpoint. rewrite H1. destruct (VolumeNameForExport client ex) as [v|] eqn:Ev.
  2: { intros [= <- <-]. split_and!; [by split|done|]. intros ->. by rewrite Hvol in Ev. }
  assert (ex = export → v = volume) as Hv by (intros ->; congruence). unfold fresh. destruct (rp_cached r !! v) as [[p at_]|] eqn:Ec; cbn [time_now].
  - destruct (_ <? _).
    + intros [= <- <-]. split_and!; [by split|done|]. intros E. rewrite (Hv E) in Ec. by rewrite (H2 _ _ Ec).
    + cbn. intros [= <- <-]. split_and!; [split; [done|]; cbn|done|intros E; by rewrite (Hv E), Hans]. intros root a [[-> [= <- _]]|[_ ?]]%lookup_insert_Some; [by rewrite Hans|by eapply H2].
  - cbn. intros [= <- <-]. split_and!; [split; [done|]; cbn|done|intros E; by rewrite (Hv E), Hans]. intros root a [[-> [= <- _]]|[_ ?]]%lookup_insert_Some; [by rewrite Hans|by eapply H2].
Qed.

Lemma poke_steady ex share isDir r : steady r → steady (poke ex share isDir r) ∧ (∀ x, x ∈ rp_pokes r → x ∈ rp_pokes (poke ex share isDir r)) ∧
  ∀ vs, ex = export → share = abs vs → Forall plainName vs → (joined (abs ws) share, isDir) ∈ rp_pokes (poke ex share isDir r).
Proof using Hvol Hans Hws Hne.
  intros Hr. unfold Replay.poke. destruct (mountpoint ex r) as [o r1] eqn:E. destruct (mountpoint_steady _ _ _ _ Hr E) as (H1 & H2 & H3). destruct o as [root|].
  - destruct (resolve root share) as [p|] eqn:Er.
    + split_and!; [done|cbn; rewrite H2; set_solver|]. intros vs He -> Hvs. injection (H3 He) as ->. rewrite resolve_abs in Er by done. injection Er as <-. cbn. set_solver.
    + split_and!; [done|by rewrite H2|]. intros vs He -> Hvs. injection (H3 He) as ->. by rewrite resolve_abs in Er.
  - split_and!; [done|by rewrite H2|]. intros vs He. by specialize (H3 He).
Qed.

(** What an event touches of its share. *)
Definition touched (e : WireEvent) : list (string * bool) :=
  if negb (Z.land (we_Op e) (Z.lor OpRemove OpRename) =? 0) then [(parentDir (we_Path e), true)]
  else if negb (Z.land (we_Op e) OpCreate =? 0) then [(we_Path e, we_Dir e); (parentDir (we_Path e), true)]
  else [(we_Path e, we_Dir e)].

Definition noted (dirs : gmap string (gset string)) (dir : string) : Prop := dir ∈ default ∅ (dirs !! export).

Lemma note_noted ex dir dirs d : noted (note ex dir dirs) d ↔ noted dirs d ∨ ex = export ∧ d = dir.
Proof.
  unfold noted, note. destruct (decide (ex = export)) as [->|Hn]; [rewrite lookup_insert_eq; cbn; set_solver|rewrite lookup_insert_ne by done; naive_solver].
Qed.

Lemma applyEvents_touch es r dirs : steady r →
  let '(r', dirs') := foldl applyEvent (r, dirs) es in
  steady r' ∧ (∀ x, x ∈ rp_pokes r → x ∈ rp_pokes r') ∧ (∀ d, noted dirs d → noted dirs' d) ∧
  ∀ e share d, e ∈ es → ValidEvent e = None → we_Export e = export → (share, d) ∈ touched e → (joined (abs ws) share, d) ∈ rp_pokes r' ∨ d = true ∧ noted dirs' share.
Proof using Hvol Hans Hws Hne.
  revert r dirs. induction es as [|e es IH]; intros r dirs Hr; [cbn; split_and!; [done|done|done|by intros ? ? ? []%elem_of_nil]|]. cbn [foldl].
  destruct (applyEvent (r, dirs) e) as [r1 dirs1] eqn:E1.
  assert (steady r1 ∧ (∀ x, x ∈ rp_pokes r → x ∈ rp_pokes r1) ∧ (∀ d, noted dirs d → noted dirs1 d) ∧
    (∀ share d, ValidEvent e = None → we_Export e = export → (share, d) ∈ touched e → (joined (abs ws) share, d) ∈ rp_pokes r1 ∨ d = true ∧ noted dirs1 share)) as (S1 & S2 & S3 & S4).
  { revert E1. unfold Replay.applyEvent, touched. destruct (ValidEvent e) eqn:Ev; [intros [= <- <-]; split_and!; done|].
    assert (∃ vs, we_Path e = abs vs ∧ Forall plainName vs) as (vs & Evs & Hvs).
    { apply valid_share_abs. unfold ValidEvent in Ev. destruct (ValidExport _); [done|]. by destruct (ValidSharePath _). }
    destruct (negb (Z.land (we_Op e) (Z.lor OpRemove OpRename) =? 0)).
    - intros [= <- <-]. split_and!; [done|done|intros; rewrite note_noted; auto|]. intros share d _ Hex Hin%list_elem_of_singleton. injection Hin as -> ->. right. split; [done|]. rewrite note_noted. auto.
    - destruct (poke_steady (we_Export e) (we_Path e) (we_Dir e) r Hr) as (P1 & P2 & P3). destruct (negb _); intros [= <- <-].
      + split_and!; [done|done|intros; rewrite note_noted; auto|]. intros share d _ Hex [[= -> ->]|Hin%list_elem_of_singleton]%elem_of_cons; [left; by apply (P3 vs)|]. injection Hin as -> ->. right. split; [done|]. rewrite note_noted. auto.
      + split_and!; [done|done|done|]. intros share d _ Hex Hin%list_elem_of_singleton. injection Hin as -> ->. left. by apply (P3 vs). }
  specialize (IH r1 dirs1 S1). destruct (foldl applyEvent (r1, dirs1) es) as [r' dirs']. destruct IH as (I1 & I2 & I3 & I4). split_and!; [done|auto|auto|].
  intros e' share d [->|Hin]%elem_of_cons Hv Hex Ht; [|by eapply I4]. destruct (S4 share d Hv Hex Ht) as [?|[? ?]]; auto.
Qed.

Lemma pokeDirs_touch dirs r : steady r → (∀ x, x ∈ rp_pokes r → x ∈ rp_pokes (pokeDirs dirs r)) ∧
  ∀ vs, noted dirs (abs vs) → Forall plainName vs → (joined (abs ws) (abs vs), true) ∈ rp_pokes (pokeDirs dirs r).
Proof using Hvol Hans Hws Hne.
  unfold Replay.pokeDirs.
  assert (∀ ex l r, steady r → let r' := foldl (λ r dir, poke ex dir true r) r l in steady r' ∧ (∀ x, x ∈ rp_pokes r → x ∈ rp_pokes r') ∧
            ∀ vs, ex = export → abs vs ∈ l → Forall plainName vs → (joined (abs ws) (abs vs), true) ∈ rp_pokes r') as Hin.
  { intros ex. induction l as [|d l IH]; intros r0 H0; [split_and!; [done|done|by intros ? ? []%elem_of_nil]|]. cbn [foldl]. destruct (poke_steady ex d true r0 H0) as (P1 & P2 & P3). destruct (IH _ P1) as (I1 & I2 & I3).
    split_and!; [done|auto|]. intros vs He [<-|Hl]%elem_of_cons Hvs; [apply I2; by apply (P3 vs)|by eapply I3]. }
  assert (∀ l r, steady r → let r' := foldl (λ r (kv : string * gset string), foldl (λ r dir, poke kv.1 dir true r) r (elements kv.2)) r l in (∀ x, x ∈ rp_pokes r → x ∈ rp_pokes r') ∧
            ∀ vs ds, (export, ds) ∈ l → abs vs ∈ ds → Forall plainName vs → (joined (abs ws) (abs vs), true) ∈ rp_pokes r') as Hout.
  { induction l as [|[ex ds] l IH]; intros r0 H0; [split; [done|by intros ? ? []%elem_of_nil]|]. cbn [foldl]. destruct (Hin ex (elements ds) r0 H0) as (P1 & P2 & P3). cbn [fst snd] in *. destruct (IH _ P1) as (I1 & I2).
    split; [auto|]. intros vs ds' [[= <- ->]|Hl]%elem_of_cons Hd Hvs; [apply I1; apply P3; [done|by apply elem_of_elements|done]|by eapply I2]. }
  intros Hr. destruct (Hout (map_to_list dirs) r Hr) as [H1 H2]. split; [done|]. intros vs Hn Hvs. unfold noted in Hn. destruct (dirs !! export) as [ds|] eqn:Ed; cbn in Hn; [|set_solver].
  eapply H2; [by apply elem_of_map_to_list|done|done].
Qed.

(** Every change a client reports is replayed.  In a frame of events, for each one the
    agent accepts, of an export whose volume the daemon has mounted at a directory
    that is not the root, what it touches is poked there: the path itself, or its
    directory where it was removed or renamed, and both where it was created;
    whatever else the frame holds. *)
Theorem valid_events_are_replayed frame r e share d :
  rp_Client r = client → (∀ root at_, rp_cached r !! volume = Some (root, at_) → root = abs ws) →
  fr_Notice frame = None → e ∈ fr_Events frame → ValidEvent e = None → we_Export e = export → (share, d) ∈ touched e →
  (joined (abs ws) share, d) ∈ rp_pokes (apply frame r).
Proof using Hvol Hans Hws Hne.
  intros Hc Hca Hn Hin Hv Hex Ht. unfold Replay.apply. rewrite Hn. pose proof (applyEvents_touch (fr_Events frame) r ∅ (conj Hc Hca)) as H. destruct (foldl _ _ _) as [r1 dirs]. destruct H as (S1 & _ & _ & S4).
  destruct (pokeDirs_touch dirs r1 S1) as [P1 P2]. destruct (S4 e share d Hin Hv Hex Ht) as [?|[-> Hd]]; [by apply P1|].
  assert (∃ vs, we_Path e = abs vs ∧ Forall plainName vs) as (vs & Evs & Hvs).
  { apply valid_share_abs. unfold ValidEvent in Hv. destruct (ValidExport _); [done|]. by destruct (ValidSharePath _). }
  assert (∃ us, share = abs us ∧ Forall plainName us) as (us & -> & Hus); [|by apply P2].
  assert (Forall plainName (removelast vs)) as Hrl by (eapply Forall_prefix; [apply prefix_removelast|done]).
  unfold touched in Ht. rewrite Evs in Ht. rewrite parentDir_abs in Ht by done. destruct (negb _); [|destruct (negb _)]; set_unfold in Ht; naive_solver.
Qed.

End stable.

End replay.
