(* ===== verification/Examples.v ===== *)
(** * Concrete runs

    Each theorem with hypotheses is applied here to a concrete share, tree or
    disk on which they hold; the definitions are evaluated. *)

From S2P Require Import Prelude GoStrings GoTime DirTypes Decide Replace.
From S2P Require Import WbState Shares Root MemFS.
From S2P Require Import WritePass WritePassProofs WriteBack.
From S2P Require Import Tree TreeProofs TreeTheorems Walk Prefetch Invalidate Sender.
Open Scope Z_scope.

(** A change the consumer reports: [size] bytes at [p], written at [mod_] by its
    clock and last changed at [changed]. *)
Definition reports (p : string) (size mod_ changed : Z) (deleted : bool) : Change :=
  {| ch_Path := p; ch_Size := size; ch_ModTime := mod_; ch_Deleted := deleted; ch_Opaque := false;
     ch_Link := ""; ch_Changed := changed; ch_Dir := false; ch_Mode := 420 |}.

Definition infoOf (size mod_ : Z) : FileInfo := {| fi_Size := size; fi_ModTime := mod_; fi_Mode := 420 |}.

(** A share the fill sent [/a] of, which the consumer has since rewritten. *)
Definition baseA : Baseline := {| b_Size := 3; b_ModTime := 1000 * Second; b_Consumer := 0 |}.
Definition sentA : gmap string Baseline := {[ "/a" := baseA ]}.
Definition hereA (p : string) : option FileInfo :=
  if bool_decide (p = "/a") then Some (infoOf 3 (1000 * Second)) else None.
Definition rewroteA : Change := reports "/a" 5 (2000 * Second) (2000 * Second) false.
Definition actsA : list action := decide_ sentA {["/a"]} hereA None 0 Second 0 [rewroteA].
Definition actA : action := default (actOf "" kindConflict) (head actsA).

Lemma decide_touches_only_licensed_witness :
  ∃ ch, ch ∈ [rewroteA] ∧ ch_Path ch = "/a" ∧ licensed sentA None 0 Second ch (infoOf 3 (1000 * Second)).
Proof.
  apply (decide_touches_only_licensed sentA {["/a"]} hereA None 0 Second 0 [rewroteA] actA);
    [left|vm_compute; reflexivity..].
Defined.

Lemma decide_unknown_time_keeps_witness :
  touches (default (actOf "" kindConflict) (head (decide_ ∅ ∅ hereA None 0 Second 0 [rewroteA]))) = false.
Proof.
  apply (decide_unknown_time_keeps ∅ ∅ hereA None 0 Second 0 [rewroteA] _ (infoOf 3 (1000 * Second)));
    [left|vm_compute; reflexivity..|exact I].
Defined.

(** [/a] was deleted here, and the consumer wrote it since. *)
Lemma decide_no_resurrection_witness :
  Forall (λ a, a_Path a = "/a" → a_kind a = kindMkdir)
    (decide_ ∅ {["/a"]} (λ _, None) None 0 Second 0 [rewroteA]).
Proof.
  apply Forall_forall.
  refine (proj1 (decide_no_resurrection ∅ {["/a"]} (λ _, None) None 0 Second 0 [rewroteA] "/a" _) _ _);
    [reflexivity..|apply elem_of_singleton; reflexivity].
Defined.

Lemma decide_held_refines_merge_witness :
  verdict_of (fst (decideOne sentA {["/a"]} hereA None 0 Second 0 rewroteA)) =
  Some (merge Changed Unchanged true).
Proof.
  refine (decide_held_refines_merge sentA {["/a"]} hereA None 0 Second 0 rewroteA baseA _ _ _ _ _ _);
    [reflexivity..| |vm_compute; reflexivity].
  intros i Hi. vm_compute in Hi. by simplify_eq.
Defined.

Lemma decide_seen_is_local_witness :
  ∃ info, hereA "/a" = Some info ∧ s_Size (a_Seen actA) = fi_Size info ∧ s_Mod (a_Seen actA) = fi_ModTime info ∧
    (s_Ctime (a_Seen actA) = zeroTime ∨ ∃ f : string → option Time, None = Some f ∧ f "/a" = Some (s_Ctime (a_Seen actA))).
Proof.
  apply (decide_seen_is_local sentA {["/a"]} hereA None 0 Second 0 [rewroteA] actA);
    [left|vm_compute; reflexivity].
Defined.

Definition deletedAll : list action := [actDelete "/d" true; actDelete "/d/x" false; actDelete "/b" false].

Lemma deletes_deepest_first_witness : deletes deletedAll = ["/d/x"; "/d"; "/b"] ∧ (0 < 1)%nat.
Proof.
  split; [vm_compute; reflexivity|].
  apply (proj2 (deletes_deepest_first deletedAll) "/d" "x" 1%nat 0%nat); vm_compute; reflexivity.
Defined.

(** ** Links *)

Definition linkChange : Change :=
  {| ch_Path := "/l"; ch_Size := 0; ch_ModTime := 5; ch_Deleted := false; ch_Opaque := false;
     ch_Link := "b"; ch_Changed := 5; ch_Dir := false; ch_Mode := 0 |}.
Definition ownLink (p : string) : linkState :=
  {| l_Exists := true; l_IsLink := true; l_Target := "a"; l_ModTime := 3 |}.

Lemma decideLinks_only_over_own_witness :
  l_Exists (ownLink "/l") = false ∨
  (l_IsLink (ownLink "/l") = true ∧
   ({[ "/l" := linkBaseline "a" 3 ]} : gmap string Baseline) !! "/l" = Some (linkBaseline "a" 3) ∧
   ownLink "/l" = ownLink "/l").
Proof.
  apply (decideLinks_only_over_own {[ "/l" := linkBaseline "a" 3 ]} [linkChange] ownLink
           (actLink "/l" "b" (ownLink "/l"))); [left|reflexivity].
Defined.

(** ** Write-back's memory *)

Lemma backoff_closed_form_witness : backoff Second Minute 3 = 8 * Second.
Proof.
  refine (eq_trans (backoff_closed_form Second Minute 3 _ _ _) _); vm_compute; congruence.
Defined.

(** A share [s], attached and failed once. *)
Definition wbFailed : writeBacks :=
  wb_apply "s" (OpFail 100 "the disk is full" "/a" 1 false) (wb.reset "s" ∅).

Lemma wbFailed_reachable : wb_reachable wbFailed.
Proof. apply wbr_op, wbr_reset, wbr_init. Qed.

Lemma wb_stall_invariant_witness : map_Forall (λ _, wb_wf) wbFailed.
Proof. apply wb_stall_invariant, wbFailed_reachable. Defined.

Definition wbFailedState : wbState := default wbZero (wbFailed !! "s").

Lemma fail_then_ready_witness :
  wb.ready "s" (200 + Minute) (fst (wb.fail "s" 200 "still full" "/a" 1 false wbFailed)) = true.
Proof.
  refine (proj1 (proj2 (fail_then_ready wbFailed "s" wbFailedState 200 "still full" "/a" 1 false (200 + Minute) _ _)) _);
    [apply wbFailed_reachable|reflexivity|apply Z.le_refl].
Defined.

Definition refused : Skipped := {| sk_Path := "/a"; sk_Why := "the name is too long"; sk_Kind := SkipName |}.
Definition changeB : Change := reports "/b" 7 (2000 * Second) (2000 * Second) false.

Lemma skip_withholds_only_same_witness :
  wb.unskipped "s" [rewroteA; changeB] (fst (wb.skip_ "s" rewroteA refused wbFailed)) = [changeB] ∧
  (rewroteA ∈ wb.unskipped "s" [rewroteA; changeB]
     (wb.landed "s" ["/a"] (fst (wb.skip_ "s" rewroteA refused wbFailed)))).
Proof.
  split; [vm_compute; reflexivity|].
  refine (proj2 (proj2 (skip_withholds_only_same "s" wbFailed wbFailedState rewroteA refused [rewroteA; changeB] _ _)) _ _ _);
    [reflexivity|discriminate|reflexivity|left].
Defined.

Definition keptA : gmap string Skipped :=
  {[ "/a" := {| sk_Path := "/a"; sk_Why := whyYouLater; sk_Kind := SkipKept |} ]}.

Lemma keptNow_said_once_witness :
  length (snd (wb.keptNow "s" keptA {[ "/a" := rewroteA ]} wbFailed)) = 1%nat ∧
  snd (wb.keptNow "s" keptA {[ "/a" := rewroteA ]}
         (fst (wb.keptNow "s" keptA {[ "/a" := rewroteA ]} wbFailed))) = [].
Proof.
  split; [vm_compute; reflexivity|].
  apply (keptNow_said_once "s" keptA {[ "/a" := rewroteA ]} wbFailed wbFailedState); [reflexivity|].
  intros p sk H. unfold keptA in H. apply lookup_singleton_Some in H as [<- <-]. reflexivity.
Defined.

Lemma ranked_after_try_witness :
  wb.ranked "s" ["/a"; "/b"] (wb.try_ "s" {["/a"; "/b"]} {["/b"]} wbFailed) = ["/b"; "/a"] ∧
  wb.ranked "s" ["/a"; "/b"] (wb.try_ "s" {["/a"; "/b"]} {["/b"]} wbFailed) ≡ₚ ["/a"; "/b"].
Proof.
  split; [vm_compute; reflexivity|].
  apply (ranked_after_try "s" wbFailed wbFailedState {["/a"; "/b"]} {["/b"]} ["/a"; "/b"]). reflexivity.
Defined.

(** ** What the cache knows *)

Definition fillOpts : ShareOptions := {| o_Policy := PolicyTree; o_Ephemeral := false; o_Exec := 73 |}.

(** A share attached and sent one file, [a], of three bytes. *)
Definition sentOne : Applied :=
  {| ap_Read := [{| rd_Path := "a"; rd_Size := 3; rd_ModTime := 1000 * Second |}]; ap_Skipped := []; ap_Kept := [] |}.
Definition attachedS : shares := set_ "s" "/home/me/s" (newShareState fillOpts) ∅ noShares.
Definition filledS : shares :=
  noteApplied "s" sentOne (record "s" [{| e_Path := "a"; e_Size := 3 |}] attachedS).

Lemma filledS_reachable : shares_reachable filledS.
Proof.
  eapply rtc_l; [apply step_set|]. apply rtc_once, step_batch.
  intros r Hr. apply list_elem_of_singleton in Hr as ->. left.
Qed.

Lemma shares_record_invariant_witness :
  is_Some (manifestOf filledS "s" !! "/a") ∧ ("/a" ∈ recordedOf filledS "s").
Proof.
  split; [eexists; vm_compute; reflexivity|].
  apply (proj1 (proj2 (proj2 (proj2 (proj2 (shares_record_invariant filledS filledS_reachable)))) "s" "/a")).
  eexists; vm_compute; reflexivity.
Defined.

Lemma restart_keeps_record_witness :
  manifestOf (set_ "s" "/home/me/s" (newShareState fillOpts)
                (cachedStore.decode (cachedStore.encode (snapshot filledS "s"))) noShares) "s" = manifestOf filledS "s".
Proof.
  refine (proj2 (restart_keeps_record filledS "s" "/home/me/s" (newShareState fillOpts) noShares filledS_reachable _)).
  intros p b Hb.
  assert (manifestOf filledS "s" = {[ "/a" := {| b_Size := 3; b_ModTime := 1000 * Second; b_Consumer := 0 |} ]}) as E
    by (vm_compute; reflexivity).
  rewrite E in Hb. apply lookup_singleton_Some in Hb as [_ <-]. vm_compute. split; congruence.
Defined.

(** ** A write-back round on a disk in memory *)

#[local] Existing Instances unixPlatform MemFS.root MemFS.root_laws.

(** Names compared without folding, and one random number for all temporaries. *)
Definition exactly (a b : string) : bool := bool_decide (a = b).
Definition rand0 (n : nat) : Z := 0.

Definition diskA : gmap string Root.Node := {[ "a" := nFile 420 (1000 * Second) "abc"; "mine" := nFile 420 5 "keep" ]}.

(** The consumer's file, and a store that serves it when it is asked for. *)
Definition fileA : File :=
  {| f_Path := "/a"; f_ModTime := 2000 * Second; f_Mode := 420; f_Body := "hello"; f_BodyErr := None; f_Unreadable := "" |}.
Definition serveA (chunk : list string) : PullAnswer :=
  {| pa_files := if bool_decide ("/a" ∈ chunk) then [fileA] else []; pa_err := None; pa_cancelled := false |}.

Definition envA : PassEnv (gmap string Root.Node) :=
  {| pe_clock := 3000 * Second; pe_live := true; pe_Changes := ChangesOk [rewroteA]; pe_OpenRoot := None;
     pe_Present := None; pe_Pull := serveA; pe_ChangeTime := None; pe_skew := 0; pe_margin := Second |}.

Definition cacheA : cacheState (gmap string Root.Node) :=
  {| cs_disk := diskA; cs_shares := filledS; cs_changed := ∅; cs_rand := 0 |}.

Lemma serveA_honest : honest serveA.
Proof. intros chunk f Hf. unfold serveA in Hf. simpl in Hf. case_bool_decide; [by apply list_elem_of_singleton in Hf as ->|by apply elem_of_nil in Hf]. Qed.

Lemma plainA : plainName rand0 "/a".
Proof. split; [by right|]. intros n. vm_compute. discriminate. Qed.

Lemma ordinaryA : ordinary rand0 envA diskA (manifestOf filledS "s") [rewroteA].
Proof.
  assert (∀ p, mayTouch envA diskA (manifestOf filledS "s") [rewroteA] p → p = "/a"%string) as Hp.
  { intros p [Hp|[(f & _ & _ & [=] & _) _]]. by apply list_elem_of_singleton in Hp as ->. }
  assert (∀ u r, reportedRels envA diskA (manifestOf filledS "s") [rewroteA] r → ¬ above u r) as Ha.
  { intros u r (p & -> & ->%Hp). unfold above. replace (path.ups (path.Dir (relPath "/a"))) with (@nil string) by (vm_compute; reflexivity). apply not_elem_of_nil. }
  split.
  - intros p ->%Hp. apply plainA.
  - intros r u Hr Hu. by apply Ha in Hu.
  - intros r Hr u Hu. by apply Ha in Hu.
  - intros ch ch' ->%list_elem_of_singleton _ Hl. by vm_compute in Hl.
Qed.

Lemma listingsS : listingsUnder (sh_wb filledS).
Proof.
  intros share s dir l p Hs Hl. exfalso. assert (map_Forall (λ _ s, wb_walks s = ∅) (sh_wb filledS)) as Hf.
  { apply (bool_decide_eq_true_1 _). vm_compute. reflexivity. }
  rewrite (Hf share s Hs) in Hl. by apply lookup_empty_Some in Hl.
Qed.

Lemma round_touches_only_reported_witness :
  cs_disk (fst (writeBackShare exactly rand0 envA "s" false cacheA)) !! "a" = Some (nFile 420 (2000 * Second) "hello") ∧
  confined rand0 (reportedRels envA diskA (manifestOf filledS "s") [rewroteA]) diskA
    (cs_disk (fst (writeBackShare exactly rand0 envA "s" false cacheA))).
Proof.
  split; [vm_compute; reflexivity|].
  refine (proj1 (round_touches_only_reported exactly rand0 envA "s" false cacheA [rewroteA] serveA_honest _ ordinaryA listingsS)).
  reflexivity.
Defined.



Definition ephemeralS : shares :=
  set_ "s" "/home/me/s" (newShareState {| o_Policy := PolicyTree; o_Ephemeral := true; o_Exec := 73 |}) ∅ noShares.
Definition ephemeralCache : cacheState (gmap string Root.Node) :=
  {| cs_disk := diskA; cs_shares := ephemeralS; cs_changed := ∅; cs_rand := 0 |}.

Lemma ephemeral_round_is_empty_witness :
  round exactly rand0 (λ _ _, envA) (λ _ _, false) true ["s"] ephemeralCache = (ephemeralCache, 0, ∅).
Proof.
  apply (ephemeral_round_is_empty exactly rand0 (λ _ _, envA) (λ _ _, false) true ephemeralCache).
  vm_compute. reflexivity.
Defined.

(** The pass that lands [/a]. *)
Definition decidedA : list action := decide_ (manifestOf filledS "s") (recordedOf filledS "s") (localAtRoot diskA) None 0 Second 73 [rewroteA].
Definition passA : writePass (gmap string Root.Node) := newPass diskA ∅ filledS 0.

Lemma pull_keeps_what_landed_witness :
  let p' := fst (pull None exactly rand0 (3000 * Second) "s" {[ "/a" := rewroteA ]} (actionsByPath decidedA) (serveA ["/a"]) ["/a"] passA) in
  manifestOf (p_shares p') "s" !! "/a" = Some {| b_Size := 5; b_ModTime := 2000 * Second; b_Consumer := 2000 * Second |} ∧
  "/a" ∈ p_wrote p'.
Proof.
  destruct (pull_keeps_what_landed None exactly rand0 (3000 * Second) "s" {[ "/a" := rewroteA ]} (serveA ["/a"])
              decidedA ["/a"] passA "/a") as (Hm & _ & Hw & _).
  - intros f Hf. apply list_elem_of_singleton in Hf as ->. left.
  - intros q Hq. apply list_elem_of_singleton in Hq as ->. apply (bool_decide_eq_true_1 _). vm_compute. reflexivity.
  - apply (bool_decide_eq_true_1 _). vm_compute. reflexivity.
  - eexists. vm_compute. reflexivity.
  - eexists. vm_compute. reflexivity.
  - apply (bool_decide_eq_true_1 _). vm_compute. reflexivity.
  - split; [|exact Hw]. refine (eq_trans Hm _). vm_compute. reflexivity.
Defined.

Lemma touched_only_as_seen_witness :
  p_disk (chmod None "s" ∅ (actChmod "/mine" 73) passA) = diskA.
Proof.
  refine (proj1 (proj2 (proj2 (proj1 (touched_only_as_seen None exactly rand0 "s" ∅ ∅ (actChmod "/mine" 73)
            fileA (λ _, true) passA diskA "mine" _ _) _)))); vm_compute; reflexivity.
Defined.

Definition landedDisk : gmap string Root.Node := fst (writeUnder diskA fileA (Some (λ _, true)) 0 0).

Lemma landed_write_settles_witness :
  let f' := commit (localAtRoot landedDisk) (λ _, None) "s" [actWrite "/a" (2000 * Second) 0] ["/a"] [] filledS in
  fst (decideOne (manifestOf f' "s") ∅ (localAtRoot landedDisk) None 0 Second 0 rewroteA) = [].
Proof.
  refine (landed_write_settles rand0 "s" filledS diskA fileA (λ _, true) 0 0 landedDisk (λ _, None) ∅ None 0 Second 0
           rewroteA (actWrite "/a" (2000 * Second) 0) _ plainA _ _ _ _ _ _ _ _ _ _ _ _ _);
    first [vm_compute; reflexivity | eexists; vm_compute; reflexivity | vm_compute; discriminate].
Defined.

(** ** The tree *)

Definition treeFiles : list Entry :=
  [{| e_Path := "a/x"; e_Size := 20000 |}; {| e_Path := "a/y"; e_Size := 10000 |};
   {| e_Path := "b"; e_Size := 30000 |}; {| e_Path := "big"; e_Size := 5000000 |}].

(** A layout with every default, on a link of 20 ms and 10 MB/s. *)
Definition plainLayout : Layout :=
  {| ly_Link := {| lk_RTT := 20 * Millisecond; lk_Bandwidth := 10000000 |}; ly_LargeFile := 0; ly_LeafBytes := 0;
     ly_WindowLeaves := 0; ly_Branching := 0; ly_MaxFetchBDP := float64.ofZ 0; ly_FMin := float64.ofZ 0;
     ly_NodePromote := float64.ofZ 0 |}.

Definition treeA : Tree :=
  match NewTree treeFiles plainLayout with
  | Ok t => t
  | Err _ => {| t_layout := plainLayout; t_root := Node [] [] zeroc; t_where := ∅; t_entries := [] |}
  end.

Lemma treeFiles_nonneg : Forall nonneg treeFiles.
Proof. repeat constructor; vm_compute; discriminate. Qed.

Lemma treeA_new : NewTree treeFiles plainLayout = Ok treeA.
Proof. vm_compute. reflexivity. Qed.

Lemma treeA_reachable : tree_reachable (fst (Read "b" 10000 treeA)).
Proof.
  exists treeFiles, plainLayout, treeA. split; [apply treeFiles_nonneg|]. split; [apply treeA_new|].
  apply rtc_once, tree_read. lia.
Qed.

Lemma treeA_reachable0 : tree_reachable treeA.
Proof. exists treeFiles, plainLayout, treeA. split; [apply treeFiles_nonneg|]. split; [apply treeA_new|]. apply rtc_refl. Qed.

Lemma tree_counters_exact_witness :
  Stored (fst (Read "b" 10000 treeA)) = (60000, 3) ∧ unstoredCount (fst (Read "b" 10000 treeA)) =
    Z.of_nat (length (openCells (cellsOf (t_root (fst (Read "b" 10000 treeA)))))).
Proof.
  split; [vm_compute; reflexivity|].
  apply (proj2 (proj2 (tree_counters_exact (fst (Read "b" 10000 treeA)) treeA_reachable))).
Defined.

Lemma read_sends_within_cap_witness :
  (e_Path <$> snd (Read "b" 10000 treeA)) = ["a/y"; "a/x"; "b"] ∧
  (snd (Read "b" 10000 treeA) = [] ∨ sumSizes (snd (Read "b" 10000 treeA)) ≤ cap (t_layout treeA)).
Proof.
  split; [vm_compute; reflexivity|].
  apply (proj1 (read_sends_within_cap treeA "b" 10000 treeA_reachable0 ltac:(lia))).
Defined.

Lemma unstored_smallest_first_witness :
  let '(t', out) := Unstored 1000000 2 treeA in
  (e_Path <$> out) = ["a/y"; "a/x"] ∧ Z.of_nat (length out) ≤ Z.max 2 0.
Proof.
  pose proof (unstored_smallest_first treeA 1000000 2 treeA_reachable0) as H.
  destruct (Unstored 1000000 2 treeA) as [t' out] eqn:E. split; [|exact (proj1 H)].
  assert (out = snd (Unstored 1000000 2 treeA)) as -> by (rewrite E; reflexivity). vm_compute. reflexivity.
Defined.

Lemma treeA_unique : uniquePaths treeA.
Proof. apply (bool_decide_eq_true_1 _). vm_compute. reflexivity. Qed.

Lemma refused_batch_restores_witness :
  Stored (Unstore (snd (Read "b" 10000 treeA)) (fst (Read "b" 10000 treeA))) = (0, 0).
Proof.
  refine (eq_trans (proj1 (refused_batch_restores treeA "b" 10000 0 0 treeA_reachable0 treeA_unique ltac:(lia))) _).
  vm_compute. reflexivity.
Defined.

Lemma newTree_holds_small_files_witness :
  fst <$> cellsOf (t_root treeA) ≡ₚ filter (λ e, e_Size e ≤ ly_LargeFile (t_layout treeA)) treeFiles.
Proof. apply (newTree_holds_small_files treeFiles plainLayout treeA treeFiles_nonneg treeA_new). Defined.

Lemma levelFor_least_witness :
  ∃ j : nat, levelFor (t_layout treeA) 1000000 = Z.of_nat j ∧ 1000000 ≤ 262144 * 2 ^ Z.of_nat j ∧
    (j = 0%nat ∨ 262144 * 2 ^ (Z.of_nat j - 1) < 1000000).
Proof. apply (levelFor_least (t_layout treeA) 1000000); vm_compute; reflexivity. Defined.

(** ** The walk and the fill *)

Definition shareKids : list dirent :=
  [DFile "a" true (Some 3); DDir ".git" [DFile "HEAD" true (Some 9)]; DDir "src" [DFile ".wh.x" true (Some 1); DFile "m.go" true (Some 7)]].

Lemma walk_covers_witness :
  snd (walk shareKids [".git"]) = [{| e_Path := "a"; e_Size := 3 |}; {| e_Path := "src/m.go"; e_Size := 7 |}] ∧
  let '(s, out) := walk shareKids [".git"] in
  st_TotalFiles s = Z.of_nat (length out) ∧ st_TotalBytes s = foldr (λ e s, e_Size e + s) 0 out ∧
  Forall (λ e, excludedPath (e_Path e) [".git"] = false ∧
               Forall (λ part, strings.HasPrefix part ".wh." = false) (strings.Split (e_Path e) path.sep)) out.
Proof.
  split; [vm_compute; reflexivity|]. apply (walk_covers shareKids [".git"]).
  repeat constructor; vm_compute; first [discriminate | reflexivity].
Defined.

Definition prefetchA : prefetch := newPrefetch PolicyEager treeA.
Definition smallBudget : Budget := {| bu_Files := 2; bu_Bytes := 1000000 |}.

Lemma walk_within_budget_witness :
  let '(p', out, demand) := next smallBudget 5 prefetchA in
  (e_Path <$> out) = ["a/y"; "a/x"] ∧ demand = false.
Proof.
  pose proof (walk_within_budget smallBudget 5 prefetchA treeA_reachable0 eq_refl) as H.
  destruct (next smallBudget 5 prefetchA) as [[p' out] demand] eqn:E. split; [|exact (proj1 H)].
  assert (out = snd (fst (next smallBudget 5 prefetchA))) as -> by (rewrite E; reflexivity). vm_compute. reflexivity.
Defined.

(** The consumer rewrote [/a] since it was sent, and says so. *)
Definition sendEnvA : SendEnv :=
  {| se_clock := 3000 * Second; se_live := true; se_Changes := ChangesOk [rewroteA];
     se_Apply := λ _, Ok {| ap_Read := []; ap_Skipped := []; ap_Kept := [] |}; se_Drop := λ _, None;
     se_stat := hereA; se_gone := λ _, false; se_hasCtime := true; se_open := true; se_ctime := λ _, Some (1000 * Second);
     se_skew := 0; se_margin := Second |}.
Definition booksA : books := {| bk_shares := filledS; bk_changed := ∅ |}.
Definition entriesA : list Entry := [{| e_Path := "a"; e_Size := 3 |}; {| e_Path := "c"; e_Size := 1 |}].


Lemma edit_held_back_iff_later_witness :
  snd (withoutLaterConsumerChanges sendEnvA "s" entriesA booksA) `sublist_of` entriesA ∧
  snd (withoutLaterConsumerChanges sendEnvA "s" entriesA booksA) = [{| e_Path := "c"; e_Size := 1 |}].
Proof.
  split; [|vm_compute; reflexivity].
  refine (proj1 (edit_held_back_iff_later sendEnvA "s" entriesA booksA _ _ _ _ _)); 
    [reflexivity|reflexivity|vm_compute; reflexivity].
Defined.

(** ** The fill of a share *)

Definition slowLink : Link := {| lk_RTT := 20 * Millisecond; lk_Bandwidth := 10000000 |}.
Definition treeOpts : ShareOptions := {| o_Policy := PolicyTree; o_Ephemeral := false; o_Exec := 73 |}.
Definition eagerOpts : ShareOptions := {| o_Policy := PolicyEager; o_Ephemeral := false; o_Exec := 73 |}.

(** A share attached with the tree policy, then raised to eager. *)
Definition treeFill : fills := Attach slowLink ∅ "s" "/home/me/s" treeOpts noFills.

Lemma treeFill_reachable : fills_reachable treeFill.
Proof. apply rtc_once, fill_attach. Qed.

Lemma touch_fast_path_exact_witness :
  fl_trees treeFill = 1 ∧ fl_trees treeFill = treeCount (fl_prefetch treeFill) ∧
  touchShare 5 "s" "/a" 10 treeFill = touchSlow 5 "s" "/a" 10 treeFill.
Proof.
  split; [vm_compute; reflexivity|]. apply (touch_fast_path_exact treeFill 5 "s" "/a" 10 treeFill_reachable).
Defined.

Lemma attach_runs_at_highest_witness :
  ∃ pol, policyOf "s" (Attach slowLink ∅ "s" "/home/me/s" eagerOpts treeFill) = Some pol ∧ rank pol = Z.max (rank PolicyTree) (rank PolicyEager).
Proof.
  destruct (attach_runs_at_highest slowLink ∅ "s" "/home/me/s" eagerOpts treeFill treeFill_reachable) as (pol & Hp & Hr & _).
  exists pol. split; [exact Hp|]. refine (eq_trans Hr _). vm_compute. reflexivity.
Defined.

(** An eager share whose walk is over and found the files of [treeFiles]; the
    store takes every batch. *)
Definition emptyTree : Tree :=
  match NewTree [] (linkLayout slowLink) with Ok t => t | Err _ => treeA end.
Definition eagerPrefetch : prefetch := set_walked (feed treeFiles [] (newPrefetch PolicyEager emptyTree)).
Definition eagerFill : fills :=
  on_prefetch <["s" := eagerPrefetch]> (Attach slowLink ∅ "s" "/home/me/s" eagerOpts noFills).
Definition takesAll : turn :=
  {| tn_env := {| se_clock := 3000 * Second; se_live := true; se_Changes := ChangesOk [];
                  se_Apply := λ _, Ok {| ap_Read := []; ap_Skipped := []; ap_Kept := [] |}; se_Drop := λ _, None;
                  se_stat := λ _, None; se_gone := λ _, false; se_hasCtime := false; se_open := true; se_ctime := λ _, None;
                  se_skew := 0; se_margin := Second |};
     tn_clock := 3000 * Second; tn_failedAt := 3000 * Second; tn_link := slowLink |}.
Definition roomy : Budget := {| bu_Files := 0; bu_Bytes := 0 |}.

Lemma eagerPrefetch_tree : tree_reachable (pf_tree eagerPrefetch).
Proof.
  exists [], (linkLayout slowLink), emptyTree. split; [constructor|]. split; [vm_compute; reflexivity|].
  apply rtc_once, tree_add, treeFiles_nonneg.
Qed.

Lemma takesAll_accepts (batch : list Entry) (s : shareState) (b : books) : snd (sendBatch (tn_env takesAll) "s" batch s b) = None.
Proof.
  unfold sendBatch, handBatch. cbn [tn_env takesAll se_live negb].
  destruct (withoutConsumerChanges _ _ _ _) as [b1 r] eqn:E.
  assert (∃ out, r = Ok out) as [out ->].
  { unfold withoutConsumerChanges, consumersOwn in E. destruct (_ || _); [by injection E as _ <-; eexists|].
    unfold consumerChanged in E. cbn [se_Changes] in E. destruct (bk_changed b !! "s") as [c|].
    - destruct (negb false && _); destruct (bool_decide _); injection E as _ <-; by eexists.
    - destruct (bool_decide _); injection E as _ <-; by eexists. }
  by destruct (_ && _).
Qed.

Lemma send_loop_ends_witness : is_Some (wakeUp roomy Second (λ _, takesAll) "s" eagerFill).
Proof.
  apply (send_loop_ends roomy Second (λ _, takesAll) "s" eagerPrefetch eagerFill (drainFuel eagerPrefetch));
    [vm_compute; reflexivity|apply eagerPrefetch_tree|apply Nat.le_refl].
Defined.

Lemma eager_fill_finishes_witness :
  (∃ f' p' s', wakeUp roomy Second (λ _, takesAll) "s" eagerFill = Some f' ∧
    fl_prefetch f' !! "s" = Some p' ∧ stateOf "s" f' = Some s' ∧ ss_Done s' = true) ∧
  ((ss_Cached <$> (wakeUp roomy Second (λ _, takesAll) "s" eagerFill ≫= stateOf "s")) = Some true).
Proof.
  split; [|vm_compute; reflexivity].
  destruct (eager_fill_finishes roomy Second (λ _, takesAll) "s" eagerPrefetch eagerFill
              (set_Local "/home/me/s" (newShareState eagerOpts))) as (f' & p' & s' & Hw & Hp & Hs & _ & Hd & _).
  - vm_compute. reflexivity.
  - vm_compute. reflexivity.
  - vm_compute. reflexivity.
  - apply eagerPrefetch_tree.
  - reflexivity.
  - reflexivity.
  - vm_compute. constructor.
  - intros k. vm_compute. split; discriminate.
  - intros k. apply takesAll_accepts.
  - exists f', p', s'. split; [exact Hw|]. split; [exact Hp|]. split; [exact Hs|exact Hd].
Defined.

(** A raise that found the share's prefetch before a forget took it: both take it
    out of the counter, and the next tree share is not counted at all. Its reads
    are then skipped by the fast path. *)
Definition racedFill : fills :=
  Attach slowLink ∅ "s" "/home/me/s" treeOpts
    (raiseOrphan PolicyEager (default eagerPrefetch (fl_prefetch treeFill !! "s")) (forgetShare "s" treeFill)).

Lemma raise_forget_race :
  fl_trees racedFill = 0 ∧ treeCount (fl_prefetch racedFill) = 1 ∧
  pf_lastRead <$> fl_prefetch (touchShare 5 "s" "/a" 10 racedFill) !! "s" = Some zeroTime ∧
  pf_lastRead <$> fl_prefetch (touchSlow 5 "s" "/a" 10 racedFill) !! "s" = Some 5.
Proof. vm_compute. split_and!; reflexivity. Qed.

(** ** A store that answers with more than it was asked *)

(** The guard of a file the pass has no action for is the zero action's, whose
    path names the share's root as [""]: on a disk where that cannot be read as
    an entry the guard passes.  A store that answers a pull of [/a] with [/mine]
    therefore replaces this machine's own file.  [honest] is the hypothesis under
    which this cannot happen. *)
Definition serveMine (chunk : list string) : PullAnswer :=
  {| pa_files := [{| f_Path := "/mine"; f_ModTime := 2000 * Second; f_Mode := 420; f_Body := "theirs";
                     f_BodyErr := None; f_Unreadable := "" |}]; pa_err := None; pa_cancelled := false |}.

Lemma pull_unasked_overwrites :
  p_disk (fst (pull None exactly rand0 (3000 * Second) "s" {[ "/a" := rewroteA ]} (actionsByPath decidedA)
                 (serveMine ["/a"]) ["/a"] passA)) !! "mine" = Some (nFile 420 (2000 * Second) "theirs").
Proof. vm_compute. reflexivity. Qed.
