(* ===== verification/ClientExamples.v ===== *)
(** * Concrete runs of the client's parts

    The theorems on the tunnel, the names, the coalescer, the gate, the tokens and
    the forwards, each applied where its hypotheses hold; and what their hypotheses
    leave out. *)
From Stdlib Require Import Ascii.
From S2P Require Import Prelude GoStrings GoTime Records DirTypes Tunnel Names Coalesce Gate Tokens Forwards Mounts NfsServe.

Open Scope Z_scope.

(** ** Datagrams *)

(** "hi", nothing, and one byte, in a stream cut inside the first length and inside
    the last datagram. *)
Definition sentDatagrams : list bytes := [[104; 105]; []; [7]].
Definition sentFrames : list bytes := [[0; 2; 104; 105]; [0; 0]; [0; 1; 7]].
Definition cutStream : reader := {| rd_chunks := [[0]; [2; 104]; [105; 0; 0; 0; 1]; [7]]; rd_end := EOF |}.

Lemma sent_frames : Forall2 (λ p f, WriteDatagram p = Ok f) sentDatagrams sentFrames.
Proof. repeat constructor. Qed.

Lemma sent_fits : Forall (λ p : bytes, (length p ≤ 2)%nat) sentDatagrams.
Proof. repeat constructor. Qed.

Lemma datagrams_roundtrip_witness : readFlow 4 2 cutStream = (sentDatagrams, Some EOF).
Proof. exact (datagrams_roundtrip sentDatagrams sentFrames 2 cutStream sent_frames sent_fits eq_refl eq_refl). Defined.

(** The same stream, cut right behind the last length. *)
Definition shortStream : reader := {| rd_chunks := [[0]; [2; 104]; [105; 0; 0; 0; 1]]; rd_end := EOF |}.

Lemma cut_flow_delivers_whole_witness :
  ∃ k, (k < 3)%nat ∧ (length (mjoin (take k sentFrames)) ≤ 8 < length (mjoin (take (S k) sentFrames)))%nat ∧
       readFlow 4 2 shortStream =
       (take k sentDatagrams, Some (if decide (8 = length (mjoin (take k sentFrames)) ∨ 8 = (length (mjoin (take k sentFrames)) + 2))%nat
                                    then EOF else ErrUnexpectedEOF)).
Proof.
  apply (cut_flow_delivers_whole sentDatagrams sentFrames 2 shortStream 8 sent_frames sent_fits eq_refl); [simpl; lia|reflexivity].
Defined.

Example cut_behind_length : readFlow 4 2 shortStream = ([[104; 105]; []], Some EOF).
Proof. reflexivity. Qed.

(** ** Names *)

Definition shareA : string := "0123456789abcdef".
Definition machineA : string := "89abcdef".

Lemma volume_names_exact_witness :
  ParseVolumeName (VolumeNameForID machineA shareA) = (machineA, shareA, true) ∧
  (∀ client id, ParseVolumeName "rd-0123456789abcdef-cache" = (client, id, true) → "rd-0123456789abcdef-cache"%string = VolumeNameForID client id ∨ "rd-0123456789abcdef-cache"%string = VolumeNameForCache client id).
Proof.
  split.
  - apply (proj1 volume_names_exact machineA shareA); [right; reflexivity|split; reflexivity].
  - intros client id H. apply (proj2 volume_names_exact _ client id H).
Defined.

(** A digest of the right length; nothing else is asked of it. *)
Definition sum32 (s : string) : string := String (ascii_of_nat (strlen s)) "0123456789012345678901234567890".

Lemma derived_names_accepted_witness :
  ValidExport (ExportPathForID (digestID sum32 "/home/a")) = None ∧
  CacheVolumeForExport (ClientID sum32 "key") (ExportPathForID (digestID sum32 "/home/a")) =
  Ok (VolumeNameForCache (ClientID sum32 "key") (digestID sum32 "/home/a")).
Proof.
  destruct (derived_names_accepted sum32 (λ _, eq_refl) "/home/a" "key" "run") as (H1 & _ & _ & H2).
  split; [exact H1|]. exact (proj1 (H2 _ (or_introl eq_refl))).
Defined.

(** ** The coalescer *)

Definition exportA : string := "/m/0123456789abcdef".
Definition eventA (p : string) (op : Z) : WireEvent := {| we_Export := exportA; we_Path := p; we_Op := op; we_Dir := false |}.

(** Created, written, deleted and created again. *)
Lemma merge_is_net_truth_witness :
  Z.land (foldl mergeOps OpCreate [OpWrite; OpRemove; OpCreate]) gone = 0 ∧
  Z.land (foldl mergeOps OpCreate [OpWrite; OpRemove; OpCreate]) present ≠ 0.
Proof.
  destruct (merge_is_net_truth OpCreate [OpWrite; OpRemove; OpCreate]) as (_ & _ & Hg & Hp).
  { repeat constructor; vm_compute; congruence. }
  split; [|apply Hp; vm_compute; congruence].
  destruct (Z.eq_dec (Z.land (foldl mergeOps OpCreate [OpWrite; OpRemove; OpCreate]) gone) 0) as [|H]; [done|].
  apply Hg in H. vm_compute in H. congruence.
Defined.

(** Two files touched at second 1, one of them again 30ms later; a capacity of two, so
    a third path is only counted. *)
Definition burst : list input :=
  [Observe Second (eventA "/src/a" OpWrite); Observe Second (eventA "/src/b" OpCreate);
   Observe (Second + 30 * Millisecond) (eventA "/src/a" OpWrite); Observe Second (eventA "/src/lib/c" OpWrite)].

Lemma burst_valid : Forall validInput burst.
Proof. repeat constructor. Qed.

Definition burstThenFlush : list input := burst ++ [Flush (Second + 50 * Millisecond)].

Lemma burst_flushed :
  (replay burstThenFlush (newCoalescer 0 0 2)).2 =
  [([eventA "/src/b" OpCreate], [{| wn_Export := exportA; wn_Path := "/src/lib"; wn_Dropped := 1; wn_Reason := "overflow" |}])].
Proof. vm_compute. reflexivity. Qed.

Lemma flushed_events_valid_witness :
  ValidEvent (eventA "/src/b" OpCreate) = None ∧ pendingCount (replay burstThenFlush (newCoalescer 0 0 2)).1 ≤ 2.
Proof.
  destruct (flushed_events_valid 0 0 2 burstThenFlush _ _ eq_refl eq_refl ltac:(repeat constructor) (surjective_pairing _)) as [H1 H2].
  split; [|exact H2]. rewrite burst_flushed in H1. eapply H1; left.
Defined.

Definition burstHeld : coalescer := (replay burst (newCoalescer 0 0 2)).1.

Lemma burst_reachable : coalescer_reachable burstHeld.
Proof. exists 0, 0, 2, burst. split_and!; [done|done|apply burst_valid|done]. Qed.

Lemma burst_has_b : is_Some (co_pending burstHeld !! (exportA, "/src/b"%string)).
Proof. vm_compute. by eexists. Qed.

Lemma flush_on_time_witness :
  eventA "/src/b" OpCreate ∈ (flush (Second + 50 * Millisecond) burstHeld).1.2 ∧
  co_pending (flush (Second + 50 * Millisecond) burstHeld).1.1 !! (exportA, "/src/b"%string) = None.
Proof.
  destruct (flush_on_time burstHeld (Second + 50 * Millisecond) _ _ _ burst_reachable
    (eq_trans (surjective_pairing _) (f_equal (λ x, (x, _)) (surjective_pairing _)))) as [H _].
  assert (co_pending burstHeld !! (exportA, "/src/b"%string) =
    Some {| pe_op := OpCreate; pe_dir := false; pe_seq := 2; pe_first := Second; pe_last := Second |}) as Hb by (vm_compute; reflexivity).
  specialize (H _ _ Hb). rewrite decide_True in H by (left; vm_compute; congruence). exact H.
Defined.

Lemma burst_times k p : co_pending burstHeld !! k = Some p → zeroTime < pe_first p ∧ zeroTime < pe_last p.
Proof.
  assert (forallb (λ kv : pendingKey * pendingEvent, (zeroTime <? pe_first kv.2) && (zeroTime <? pe_last kv.2)) (map_to_list (co_pending burstHeld)) = true) as Hf
    by (vm_compute; reflexivity).
  rewrite forallb_forall in Hf. intros H%elem_of_map_to_list%list_elem_of_In%Hf. cbn [snd] in H. apply andb_true_iff in H as [H1%Z.ltb_lt H2%Z.ltb_lt]. done.
Qed.

Lemma timer_is_exact_witness :
  nextDue (Second + 35 * Millisecond) burstHeld = (Second + 40 * Millisecond, true) ∧
  ∃ t, nextDue (Second + 35 * Millisecond) burstHeld = (t, true) ∧ Second + 35 * Millisecond ≤ t.
Proof.
  split; [vm_compute; reflexivity|].
  destruct (timer_is_exact burstHeld (Second + 35 * Millisecond) burst_reachable) as (t & E & Ht & _).
  - intros E. pose proof burst_has_b as [p Hp]. rewrite E in Hp. done.
  - reflexivity.
  - apply burst_times.
  - exists t. split; [exact E|exact Ht].
Defined.

(** The path the full coalescer could not hold is covered by the notice. *)
Lemma nothing_lost_silently_witness :
  ∃ out, out ∈ (replay [Flush (2 * Second)] (add Second (eventA "/src/lib/d" OpWrite) burstHeld)).2 ∧ reported out (eventA "/src/lib/d" OpWrite).
Proof.
  destruct (nothing_lost_silently Second (eventA "/src/lib/d" OpWrite) burstHeld [Flush (2 * Second)] _ _ eq_refl (surjective_pairing _)) as [H|H]; [|exact H].
  exfalso. destruct H as [[p Hp]|(l & Hl & _)]; [vm_compute in Hp|vm_compute in Hl]; discriminate.
Defined.

(** ** The gate *)

(** One connection, leased, released, and swept after the idle time. *)
Definition idleGate : connGate := release (1 * Second) (fst (acquire (Some 0%nat) (1 * Second) (newGate Second))).
Definition idleWorld : gateWorld :=
  {| gw_gate := idleGate; gw_leases := []; gw_asking := [0%nat]; gw_toShut := []; gw_shut := []; gw_opened := 1 |}.

Lemma idleWorld_reachable : gate_reachable idleWorld.
Proof.
  exists Second. eapply rtc_l; [exact (gate_acquire (gateStart Second) true (1 * Second) _ _ eq_refl)|].
  eapply rtc_l; [exact (gate_release _ 0%nat [] (1 * Second) (reflexivity _))|].
  apply rtc_once. refine (gate_ask _ (λ _, false) (2 * Second) 0%nat _). reflexivity.
Qed.

Lemma idle_release_is_safe_witness :
  gw_leases idleWorld = [] ∧ ga_idle idleGate ≤ Sub (2 * Second) (ga_lastUsed idleGate) ∧
  NoDup (Gate.held idleGate ++ gw_toShut idleWorld ++ gw_shut idleWorld).
Proof.
  destruct (idle_release_is_safe idleWorld idleWorld_reachable) as (H1 & H2 & _).
  destruct (H1 0%nat (2 * Second) (set_conn None idleGate) eq_refl) as [H3 H4].
  split; [exact H3|]. split; [exact H4|exact H2].
Defined.

(** ** Tokens *)

Definition tokenA : string := "abcdefgh".
Definition mintedA : Token := mintToken sum32 "alice" "admin" "" "secret" 0 DefaultTTL.
Definition claimA : string := claimName tokenA Second "n".
Definition redeemed : tokenWorld :=
  {| tw_dir := ∅; tw_minted := {[tokenA := ("secret"%string, mintedA)]}; tw_running := [];
     tw_done := [{| rn_at := claimA; rn_id := tokenA; rn_secret := "secret"; rn_ok := Some Second |}] |}.

(** Minted, claimed, checked and finished. *)
Lemma redeemed_reachable : token_reachable sum32 redeemed.
Proof.
  eapply rtc_l; [eapply (token_mint sum32 _ tokenA "secret" "alice" "admin" "" 0 0 DefaultTTL); reflexivity|].
  eapply rtc_l; [eapply (token_claim sum32 _ tokenA "secret" Second "n"); reflexivity|].
  eapply rtc_l; [eapply (token_check sum32 _ {| rn_at := claimA; rn_id := tokenA; rn_secret := "secret"; rn_ok := None |} [] Second mintedA); reflexivity|].
  eapply rtc_l; [eapply (token_done sum32 _ true {| rn_at := claimA; rn_id := tokenA; rn_secret := "secret"; rn_ok := Some Second |} []); [reflexivity|by eexists|reflexivity]|].
  apply rtc_refl.
Qed.

Lemma token_redeems_once_witness : NoDup (rn_id <$> tw_done redeemed) ∧ length (tw_done redeemed) = 1%nat.
Proof. split; [exact (proj1 (token_redeems_once sum32 redeemed redeemed_reachable))|reflexivity]. Defined.

(** A revocation between a claim and its restoring: it finds neither the token's file
    nor, later, the claim's, says there is no such token, and the token is there. *)
Definition tokenDir : store := {[tokenPath tokenA := Some mintedA]}.

Definition revokeRace : option (bool * bool * bool) :=
  match claim tokenA claimA tokenDir with
  | Some claimed =>
      let '(d, foundFile) := revokeFile tokenA claimed in
      match Restore claimA tokenA d with
      | Some restored => let '(d', foundClaim) := revokeClaims tokenA restored in Some (foundFile, foundClaim, Live tokenA (2 * Second) d')
      | None => None
      end
  | None => None
  end.

Lemma revoke_misses_restored : revokeRace = Some (false, false, true).
Proof. vm_compute. reflexivity. Qed.

(** An id of seven letters and a line end passes for a token's id. *)
Lemma ValidID_line_end : ValidID ("abcdefg" +:+ String newline "") = true.
Proof. reflexivity. Qed.

(** ** Published ports *)

Definition askedPorts : RequestedPorts := {["80/tcp"%string := [9090; 8080]; "53/udp"%string := [53]]}.

Lemma requested_ports_roundtrip_witness :
  ParseRequestedPorts "53/udp=53,80/tcp=8080;9090" = stable_sort Z.leb <$> askedPorts.
Proof.
  change "53/udp=53,80/tcp=8080;9090"%string with (RequestedPorts_String askedPorts).
  apply requested_ports_roundtrip. split; [|vm_compute; congruence].
  unfold askedPorts. intros k ps [[<- <-]|[_ [<- <-]%lookup_singleton_Some]]%lookup_insert_Some;
    (split; [split; [done|reflexivity]|]; split; [done|]; repeat constructor; vm_compute; congruence).
Defined.

(** A machine that refuses what is taken, and nothing else. *)
Definition freeCan (active : gmap string forwards) (l : listener) : bool := negb (Forwards.held active l).

Lemma freeCan_exclusive active l : freeCan active l = true → Forwards.held active l = false.
Proof. unfold freeCan. by destruct (Forwards.held active l). Qed.

Definition web (id : string) (public : Z) : Container :=
  {| ct_ID := id; ct_Name := id; ct_Ports := [{| pb_PublicPort := public; pb_PrivatePort := 80; pb_Type := "tcp" |}];
     ct_Labels := {[OwnerLabel := "alice"%string; ClientLabel := "laptop"%string; PortsLabel := "80/tcp=8080"%string]} |}.

Definition laptopRule : Rule := {| rl_User := "alice"; rl_ClientID := "laptop" |}.
Definition laptopLocal : Container → Published → list Z := Local_ (λ s, s) laptopRule.

(** Two containers ask for 8080: the first in order has it. *)
Lemma forwards_follow_containers_witness :
  let m' := Reconcile (Owned laptopRule) laptopLocal freeCan [web "b" 32769; web "a" 32768] newManager in
  exclusive m' ∧ (∃ id, is_Some (forward m' id ("tcp"%string, 8080))) ∧ Active m' = [8080].
Proof.
  destruct (forwards_follow_containers (Owned laptopRule) laptopLocal freeCan freeCan_exclusive [] [web "b" 32769; web "a" 32768]) as (Hx & _ & Ho).
  destruct (Ho eq_refl) as (_ & Hc & _). cbn zeta. split; [exact Hx|]. split; [|vm_compute; reflexivity].
  apply (Hc "a"%string (web "a" 32768)); [vm_compute; reflexivity|left|].
  intros active E. unfold freeCan. rewrite E. reflexivity.
Defined.

(** A container whose published port has changed keeps the forward to the old one:
    what is kept is decided by the local listener alone. *)
Definition restarted : Manager :=
  let m := Reconcile (Owned laptopRule) laptopLocal freeCan [web "a" 32768] newManager in
  Reconcile (Owned laptopRule) laptopLocal freeCan [web "a" 32770] m.

Lemma forward_to_old_port : fw_remote <$> forward restarted "a" ("tcp"%string, 8080) = Some 32768.
Proof. vm_compute. reflexivity. Qed.

(** * Concrete shares

    The theorems on the exported directories, each applied where its hypotheses
    hold. *)

Open Scope Z_scope.

(** A digest of 32 bytes: the text's own first ones. *)
Definition zeros32 : string := "00000000000000000000000000000000".
Definition pad32 (s : string) : string := firstBytes 32 (s +:+ zeros32).

Lemma pad32_len s : strlen (pad32 s) = 32%nat.
Proof. apply strlen_firstBytes. rewrite strlen_append. change (strlen zeros32) with 32%nat. lia. Qed.

Definition sameText (s : string) : string := s.

(** The project is a directory; it is mounted twice, the second time to be watched. *)
Definition projectStat (p : string) : statKind := if bool_decide (p = "/src"%string) then StatDir else StatMissing.
Definition liveMode : Mode := {| md_Read := ReadDirect; md_Write := WriteThrough |}.
Definition watched : ShareWords := {| sw_Owner := noOwner; sw_FMask := noMask; sw_DMask := noMask; sw_Watch := WatchPartial; sw_Prefetch := PrefetchUnset |}.

Definition noRecord (_ : string) : option (string * Mode * ShareWords) := None.

Definition mountOnce : res exportError Share * gmap string Share := Register sameText pad32 "linux" projectStat DefaultAttrs "/src" liveMode noShareWords ∅.
Definition mountTwice : res exportError Share * gmap string Share := Register sameText pad32 "linux" projectStat DefaultAttrs "/src" liveMode watched mountOnce.2.

Definition projectExport : string := exportFor sameText pad32 "linux" "/src" (Variant (resolved DefaultAttrs noShareWords) liveMode).

Definition projectAsked : string * Mode * ShareWords := ("/src"%string, liveMode, noShareWords).

Lemma once_reachable : srv_reachable sameText pad32 "linux" projectStat DefaultAttrs noRecord (mountOnce.2, [projectAsked]).
Proof.
  unfold srv_reachable. eapply rtc_l; [|apply rtc_refl].
  eapply srv_register. apply surjective_pairing.
Qed.

Definition projectShare : Share :=
  {| sh_ExportPath := projectExport; sh_LocalPath := "/src"; sh_File := ""; sh_Mode := liveMode; sh_words := resolved DefaultAttrs noShareWords;
     sh_base := "/src"; sh_attrs := DefaultAttrs |}.

Lemma mounts_reach_only_shared_witness :
  entitled sameText pad32 "linux" projectStat DefaultAttrs noRecord [projectAsked] projectShare ∧ found (projectExport +:+ "/lib/../bin") projectShare "/bin".
Proof.
  destruct (mounts_reach_only_shared sameText pad32 "linux" projectStat DefaultAttrs noRecord (mountOnce.2, [projectAsked]) once_reachable) as [H _].
  destruct (H (projectExport +:+ "/lib/../bin") projectShare "/bin"%string mountOnce.2) as (_ & _ & He & Hf); [vm_compute; reflexivity|]. split; [exact He|exact Hf].
Defined.

Lemma shares_only_rise_witness : ∃ s', mountTwice.2 !! projectExport = Some s' ∧ same_share projectShare s'.
Proof.
  apply (shares_only_rise sameText pad32 "linux" projectStat DefaultAttrs noRecord (mountOnce.2, [projectAsked]) (mountTwice.2, [("/src"%string, liveMode, watched); projectAsked])).
  - exact once_reachable.
  - apply rtc_once. eapply srv_register. apply surjective_pairing.
  - vm_compute. reflexivity.
Defined.

(** After a restart: the record has the project's export, as it was registered. *)
Definition projectRecord (e : string) : option (string * Mode * ShareWords) :=
  if bool_decide (e = projectExport) then Some ("/src"%string, liveMode, resolved DefaultAttrs noShareWords) else None.
Definition uuid16 : string := "0123456789abcdef".
Definition emptyCache (_ : string) : option unit := None.

Lemma root_handle_survives_witness :
  ∃ s' r', FromHandle sameText pad32 "linux" projectStat DefaultAttrs projectRecord emptyCache [projectExport] (ToHandle pad32 projectExport [] uuid16) ∅
             = (Some (ShareRoot s'), r') ∧ sh_ExportPath s' = projectExport ∧ r' !! projectExport = Some s'.
Proof.
  apply (root_handle_survives sameText pad32 "linux" projectStat DefaultAttrs projectRecord pad32_len projectShare uuid16 emptyCache [projectExport]
           (∅, []) "/src" liveMode (resolved DefaultAttrs noShareWords)).
  - left. reflexivity.
  - reflexivity.
  - reflexivity.
  - apply rtc_refl.
  - by apply list_elem_of_singleton.
  - vm_compute. reflexivity.
  - vm_compute. reflexivity.
  - left. reflexivity.
  - intros e [He%list_elem_of_singleton|[s He]] _; [exact He|]. cbn in He. by apply lookup_empty_Some in He.
Defined.

Example reported_modes :
  attrMode DefaultAttrs 420 = 438 ∧ attrMode DefaultAttrs 493 = 511 ∧ attrMode DefaultAttrs (Z.lor ModeDir 448) = Z.lor ModeDir 511.
Proof. split_and!; vm_compute; reflexivity. Qed.
