(* ===== verification/MountExamples.v ===== *)
(** * Concrete mounts

    The theorems on a mount's words, a share's identity, the rewriting of binds and
    the collection of volumes, each applied where its hypotheses hold; and what
    their hypotheses leave out. *)

From Stdlib Require Import Ascii.
From S2P Require Import Prelude GoStrings Records Names Forwards Mounts Rewrite RewriteProofs Collect.
Open Scope Z_scope.

(** ** Words *)

Definition cachedBack : Mode := {| md_Read := ReadCached; md_Write := WriteBack |}.
Definition owner1000 : Owner := {| ow_UID := 1000; ow_GID := 2000; ow_Set := true |}.
Definition mask022 : Mask := {| mk_Bits := 18; mk_Set := true |}.

Lemma mount_words_roundtrip_witness :
  ParseMode "read=cached,write=back" = Ok cachedBack ∧ ParseOwner "1000:2000" = Ok owner1000 ∧ ParseDirMask "0022" = Ok mask022.
Proof.
  destruct mount_words_roundtrip as (H1 & H2 & H3 & _). split_and!.
  - apply (H1 cachedBack). discriminate.
  - apply (H2 owner1000); [reflexivity|vm_compute; split; congruence|vm_compute; split; congruence].
  - apply (H3 mask022); [reflexivity|vm_compute; split; congruence|vm_compute; congruence].
Defined.

Definition wordList : list string := ["owner=1000.2000"; "write=back"; "read=cached"]%string.
Definition wordListBack : list string := ["read=cached"; "write=back"; "owner=1000.2000"]%string.

Lemma mount_words_any_order_witness :
  ∃ w, ParseMount "owner=1000.2000,write=back,read=cached" = Ok w ∧ ParseMount "read=cached,write=back,owner=1000.2000" = Ok w.
Proof.
  eexists. split; [reflexivity|]. apply (mount_words_any_order wordList wordListBack); [repeat constructor| |reflexivity].
  change wordListBack with (rev wordList). apply Permutation_rev.
Defined.

Lemma accepted_words_are_taken_witness : IsModeWord " watch=off" = true.
Proof.
  destruct (accepted_words_are_taken "cached, watch=off" _ " watch=off" eq_refl) as [H|H]; [right; left|discriminate H|exact H].
Defined.

(** ** Identity *)

Definition variantA : ShareVariant := {| sv_Mode := cachedBack; sv_Owner := owner1000; sv_FMask := noMask; sv_DMask := mask022 |}.
Definition variantB : ShareVariant := {| sv_Mode := cachedBack; sv_Owner := owner1000; sv_FMask := mask022; sv_DMask := noMask |}.

Lemma variants_ok : variantOk variantA ∧ variantOk variantB.
Proof. split; split; vm_compute; split; congruence. Qed.

Lemma share_key_injective_witness : shareKey "/home/a" variantA ≠ shareKey "/home/a" variantB.
Proof.
  intros E. apply (share_key_injective "/home/a" "/home/a" variantA variantB eq_refl eq_refl (proj1 variants_ok) (proj2 variants_ok)) in E.
  destruct E as (_ & _ & _ & _ & E & _). discriminate E.
Defined.

Lemma windows_spellings_fold_witness :
  canonicalKeyFor (λ s, s) "windows" "\\?\C:\src" = canonicalKeyFor (λ s, s) "windows" "C:\src" ∧
  canonicalKeyFor (λ s, s) "windows" "\\?\UNC\server\share" = canonicalKeyFor (λ s, s) "windows" "\\server\share".
Proof.
  destruct (windows_spellings_fold (λ s, s) "" "C" "\src" "server\share" eq_refl eq_refl) as (_ & H1 & H2). split; [exact H1|exact H2].
Defined.

Lemma raised_in_any_order_witness :
  foldl Watch_Max WatchUnset [WatchOff; WatchCoarse; WatchPartial] = foldl Watch_Max WatchUnset [WatchPartial; WatchCoarse; WatchOff] ∧
  watchRank WatchPartial ≤ watchRank (foldl Watch_Max WatchUnset [WatchOff; WatchCoarse; WatchPartial]).
Proof.
  destruct (raised_in_any_order [WatchOff; WatchCoarse; WatchPartial] [WatchPartial; WatchCoarse; WatchOff] [] [] (Permutation_rev _) (Permutation_refl _))
    as (H1 & _ & H2 & _).
  split; [exact H1|]. apply H2. do 2 right. left.
Defined.

(** ** Binds *)

Definition projects : BindSpec := {| bs_Source := "C:\projects"; bs_Target := "/app"; bs_Options := "ro" |}.

Lemma bind_spec_roundtrip_witness : ParseBind "C:\projects:/app:ro" = Some projects.
Proof.
  apply (bind_spec_roundtrip projects); [split; reflexivity|reflexivity|reflexivity|].
  right. right. exists "C"%char, "\"%char, "projects"%string. split_and!; reflexivity.
Defined.

(** A volume whose name is one letter, and a Windows path, where both readings are
    there: the target decides. *)
Example one_letter_volume :
  ParseBind "c:/app" = Some {| bs_Source := "c"; bs_Target := "/app"; bs_Options := "" |} ∧
  ParseBind "c:/app:/x" = Some {| bs_Source := "c:/app"; bs_Target := "/x"; bs_Options := "" |}.
Proof. split; reflexivity. Qed.

Definition laptop : Rewriter :=
  {| rw_NFSPort := 30001; rw_NConnect := 0; rw_Owner := "alice"; rw_Client := "89abcdef"; rw_Mode := ModeUnset;
     rw_ModePaths := [("/src", {| md_Read := ReadCached; md_Write := WriteUnset |}); ("/src/out", {| md_Read := ReadDirect; md_Write := WriteUnset |})]%string;
     rw_ShareOwner := rootOwner; rw_ShareFMask := noMask; rw_ShareDMask := noMask; rw_UnionReady := UnionReady;
     rw_Watch := WatchOff; rw_Prefetch := PrefetchTree; rw_DockerVersion := "27.1"; rw_DaemonPaths := [] |}.

Lemma deepest_rule_decides_witness :
  modeFor path.Clean (with_rules (rev (rw_ModePaths laptop)) laptop) "/src/out/x" = modeFor path.Clean laptop "/src/out/x" ∧
  md_Read (modeFor path.Clean laptop "/src/out/x") = ReadDirect.
Proof.
  split; [|reflexivity].
  refine (proj1 (deepest_rule_decides path.Clean (rw_ModePaths laptop) (rev (rw_ModePaths laptop)) laptop "/src/out/x" _ (Permutation_rev _))).
  refine (bool_decide_unpack _ _). vm_compute. exact I.
Defined.

(** Two rules that name one directory in two spellings: which one holds is the order
    the map is ranged over in. *)
Definition twoSpellings : list (string * Mode) :=
  [("/src", {| md_Read := ReadCached; md_Write := WriteUnset |}); ("/src/", {| md_Read := ReadDirect; md_Write := WriteUnset |})]%string.

Lemma rule_depends_on_order :
  md_Read (modeFor path.Clean (with_rules twoSpellings laptop) "/src/a") = ReadCached ∧
  md_Read (modeFor path.Clean (with_rules (rev twoSpellings) laptop) "/src/a") = ReadDirect.
Proof. split; reflexivity. Qed.

(** A workspace that answers everything, and one that serves no owner but root. *)
Definition willing (serves : bool) : world :=
  {| wo_AskUnion := None; wo_OpenCache := Some (λ _, Ok serves); wo_StartWatcher := Some (λ _, None);
     wo_Share := λ _ _ _, Ok ("/m/0123456789abcdef", "")%string; wo_EnsureVolume := λ _ _, None; wo_Prepare := λ _ _ _, Ok "/unions/a"%string |}.

Definition noRequest : request := {| rq_log := []; rq_mounts := ∅ |}.
Definition asksBack : MountWords := {| mw_Mode := {| md_Read := ReadUnset; md_Write := WriteBack |}; mw_Share := noShareWords |}.
Definition asksOwner : MountWords :=
  {| mw_Mode := {| md_Read := ReadUnset; md_Write := WriteBack |};
     mw_Share := {| sw_Owner := owner1000; sw_FMask := noMask; sw_DMask := noMask; sw_Watch := WatchUnset; sw_Prefetch := PrefetchUnset |} |}.

Definition settledBack : res rewriteError MountWords * request := resolveMount path.Clean (willing true) laptop "/src" asksBack noRequest.

Lemma mount_settled_or_refused_witness :
  match fst settledBack with
  | Ok w => settledWell asksBack w ∧ last (rq_log (snd settledBack)) = Some CallStartWatcher ∧ Prefetching (sw_Prefetch (mw_Share w)) = true
  | Err _ => False
  end.
Proof.
  pose proof (mount_settled_or_refused path.Clean (willing true) laptop "/src" asksBack noRequest _ _ (surjective_pairing settledBack)) as H.
  destruct (fst settledBack) as [w|e] eqn:E; [|vm_compute in E; discriminate E].
  destruct H as (H1 & H2 & H3 & _). vm_compute in E. injection E as <-.
  split; [exact H1|]. split; [apply H3, H2; left; reflexivity|reflexivity].
Defined.

(** The refusal of an owner comes after the cache's channel has been opened. *)
Lemma refused_owner_opened_cache :
  let refused := resolveMount path.Clean (willing false) laptop "/src" asksOwner noRequest in
  fst refused = Err (OwnerNotServed "/src") ∧ rq_log (snd refused) = [CallOpenCache].
Proof. split; vm_compute; reflexivity. Qed.

Definition bindSrc : string := "/src/out:/app:ro,read=cached".

Definition rewrittenSrc : res rewriteError rewritten * request :=
  rewriteBind path.Clean (willing true) laptop (λ _, true) (λ _, ""%string) bindSrc noRequest.

Lemma rewrittenSrc_kept : rewrittenSrc = (Ok (Rewrote "rd-89abcdef-0123456789abcdef:/app:ro"), snd rewrittenSrc).
Proof. vm_compute. reflexivity. Qed.

Lemma rewritten_bind_keeps_witness : ∃ words, CallShare "/src/out" words ∈ rq_log (snd rewrittenSrc).
Proof.
  destruct (rewritten_bind_keeps path.Clean (willing true) laptop (λ _, true) (λ _, ""%string) bindSrc
    {| bs_Source := "/src/out"; bs_Target := "/app"; bs_Options := "ro,read=cached" |} noRequest _ _ eq_refl rewrittenSrc_kept) as [_ H].
  destruct (H eq_refl) as (asked & words & volume & o & _ & Hin & _). exists words. exact Hin.
Defined.

(** ** Collection *)

Definition shareVolume : string := "rd-89abcdef-0123456789abcdef".
Definition oneShare : volumeWorld :=
  {| vw_volumes := {[shareVolume]} ∪ ∅; vw_exports := {[shareVolume]} ∪ ∅; vw_given := {[shareVolume]} ∪ ∅ |}.

Lemma oneShare_reachable : volume_reachable oneShare.
Proof. apply rtc_once. exact (volume_share _ false shareVolume). Qed.

Definition staleVolume : Volume :=
  {| vl_Name := "rd-89abcdef-ffffffffffffffff"; vl_Labels := {[ManagedLabel := ManagedShare; OwnerLabel := "alice"%string; ClientLabel := "89abcdef"%string]} |}.
Definition aliceCollector : Collector := {| cl_Owner := "alice"; cl_Client := "89abcdef"; cl_Orphans := false |}.

Lemma collection_spares_shares_witness :
  shareVolume ∈ vw_volumes oneShare ∧ vl_Name staleVolume ∉ vw_given oneShare ∧ labelOf staleVolume OwnerLabel = "alice"%string.
Proof.
  destruct (collection_spares_shares oneShare oneShare_reachable) as [H1 H2].
  split; [apply H1; apply elem_of_union_l, elem_of_singleton; reflexivity|].
  destruct (H2 aliceCollector ∅ None staleVolume false) as (_ & _ & H3 & _ & _ & _ & H4); [vm_compute; reflexivity|vm_compute; reflexivity|].
  split; [exact H4|]. apply H3. discriminate.
Defined.

(** A workspace that declares its root declares nothing below it. *)
Definition declaresRoot : Rewriter :=
  {| rw_NFSPort := 30001; rw_NConnect := 0; rw_Owner := ""; rw_Client := ""; rw_Mode := ModeUnset; rw_ModePaths := [];
     rw_ShareOwner := rootOwner; rw_ShareFMask := noMask; rw_ShareDMask := noMask; rw_UnionReady := UnionReady;
     rw_Watch := WatchOff; rw_Prefetch := PrefetchOff; rw_DockerVersion := ""; rw_DaemonPaths := ["/"%string] |}.

Lemma declared_root_only : declared declaresRoot "/" = true ∧ declared declaresRoot "/etc" = false.
Proof. split; reflexivity. Qed.
