(* ===== verification/CreateExamples.v ===== *)
(** * Concrete create requests and answers

    The theorems on the create request and on the ports docker shows, each applied
    where its hypotheses hold; and what their hypotheses leave out. *)
From S2P Require Import Prelude GoStrings Records AccountPorts Forwards Mounts Json Rewrite RewriteProofs PortView Create MountExamples.

Open Scope Z_scope.

(** ** Published ports *)

Definition alice : Rule := {| rl_User := "alice"; rl_ClientID := "89abcdef" |}.
Definition same (s : string) : string := s.

Definition web : obj := {["HostIp"%string := JString "0.0.0.0"; "HostPort"%string := JString "8080"]}.
Definition webBindings : bindings := {["80/tcp"%string := Some [Some web]]}.
Definition webHost : obj := {["PortBindings"%string := encBindings webBindings; "Memory"%string := JNumber "1024"]}.
Definition webAsked : RequestedPorts := {["80/tcp"%string := [8080]]}.

Definition webRewritten : res rewriteError (option obj * RequestedPorts * bool) := rewritePorts (Some (λ p, bool_decide (p = 8080))) map_to_list (Some webHost).
Definition webSent : option obj := match webRewritten with Ok (h, _, _) => h | Err _ => None end.

Lemma webRewritten_ok : webRewritten = Ok (webSent, webAsked, true).
Proof. vm_compute. reflexivity. Qed.

Lemma webAsked_labelled : labelled webAsked.
Proof.
  split; [|vm_compute; congruence]. unfold webAsked. intros k ps [<- <-]%lookup_singleton_Some. split; [split; [done|reflexivity]|]. split; [done|]. repeat constructor; vm_compute; congruence.
Qed.

Lemma webBindings_noNull : noNull webBindings.
Proof. intros k l. unfold webBindings. intros [<- [= <-]]%lookup_singleton_Some. by intros ?%list_elem_of_singleton. Qed.

(** A container port without its protocol is asked for under a name that is never
    looked up: the number is lost. *)
Definition bareHost : obj := {["PortBindings"%string := encBindings {["80"%string := Some [Some web]]}]}.
Example port_without_protocol :
  match rewritePorts None map_to_list (Some bareHost) with Ok (_, req, _) => RequestedPorts_String req = "80=8080"%string | Err _ => False end ∧
  LocalPorts same alice (labelled_container {[OwnerLabel := "alice"; ClientLabel := "89abcdef"; PortsLabel := "80=8080"]}%string) (portOf "80") = [].
Proof. vm_compute. split; reflexivity. Qed.

Definition webLabels : json := JObject [(OwnerLabel, JString "alice"); (ClientLabel, JString "89abcdef"); (PortsLabel, JString "80/tcp=8080")].
Definition webEntry : json :=
  JObject [("Labels", webLabels); ("Ports", JArray [JObject [("IP", JString "0.0.0.0"); ("PrivatePort", JNumber "80"); ("PublicPort", JNumber "49153"); ("Type", JString "tcp")];
                                                    JObject [("IP", JString "::"); ("PrivatePort", JNumber "80"); ("PublicPort", JNumber "49153"); ("Type", JString "tcp")]])]%string.
Definition webEntryMap : option obj := default None (decObject webEntry).

Lemma listing_shows_the_forwards_witness :
  ∃ e', decObjects (default (JArray [webEntry]) (ListPorts same alice (JArray [webEntry]))) = Some (Some [e']) ∧ shownAs same alice webEntryMap e'.
Proof.
  destruct (listing_shows_the_forwards same alice (JArray [webEntry]) [webEntryMap] eq_refl) as (es' & H & F).
  inversion F as [|? e' ? l He Hl]; subst. inversion Hl; subst. exists e'. split; [exact H|exact He].
Defined.

(** Both of the daemon's entries are one publication, shown as it was asked for. *)
Example webEntry_shown : listeners (default [] (mjoin (field "Ports" (listEntry same alice webEntryMap).1 ≫= decObjects))) = [("tcp"%string, 8080)].
Proof. vm_compute. reflexivity. Qed.

(** ** The create request *)

Definition webBody : json :=
  JObject [("Image", JString "nginx"); ("Labels", JObject [("stage", JString "dev")]);
           ("HostConfig", JObject [("Memory", JNumber "1024"); ("Binds", JArray [JString "/src:/app:ro"]);
              ("Mounts", JArray [JObject [("Type", JString "bind"); ("Source", JString "/src/out"); ("Target", JString "/out"); ("ReadOnly", JBool true); ("Consistency", JString "read=cached")];
                                 JObject [("Type", JString "volume"); ("Source", JString "data"); ("Target", JString "/data")]]);
              ("PortBindings", encBindings webBindings)])]%string.

Definition create (gateway : string) (body : json) : res rewriteError json * request :=
  ContainerCreate path.Clean (willing true) laptop (λ _, true) (λ _, ""%string) None map_to_list gateway body noRequest.

Definition webRun : res rewriteError json * request := create "172.17.0.1" webBody.
Definition webOut : json := match webRun.1 with Ok j => j | Err _ => JNull end.

Lemma webRun_ok : create "172.17.0.1" webBody = (Ok webOut, webRun.2).
Proof. vm_compute. reflexivity. Qed.

Definition webPayload : option obj := default None (decObject webBody).
Definition webStage : gmap string string := {["stage"%string := "dev"%string]}.


Definition webSent' : option obj := default None (decObject webOut).

Lemma webAccepted : accepted path.Clean (willing true) laptop (λ _, true) (λ _, ""%string) None map_to_list "172.17.0.1" webBody webOut webPayload webSent' webStage.
Proof.
  split; [eexists _, _; exact webRun_ok|reflexivity|vm_compute; reflexivity|vm_compute; reflexivity| |split; [discriminate|reflexivity]|split; [discriminate|reflexivity]|reflexivity].
  intros k v. unfold webStage. intros [<- <-]%lookup_singleton_Some. reflexivity.
Qed.

Lemma webPayload_bindings : bindingsOf (hostOf webPayload) = webBindings.
Proof. vm_compute. reflexivity. Qed.


(** Docker's inspection of the container. *)
Definition webDoc : obj :=
  {["Config"%string := JObject [("Labels"%string, default JNull (field "Labels" webSent'))]; "HostConfig"%string := encObject (hostOf webSent');
    "NetworkSettings"%string := JObject [("Ports", JObject [("80/tcp", JArray [JObject [("HostIp", JString "0.0.0.0"); ("HostPort", JString "49153")]])])]%string]}.

Lemma asked_ports_come_back_witness :
  (∃ l', bindingsOf (hostOf webSent') !! "80/tcp"%string = Some l' ∧ daemonChooses (Some [Some web]) l') ∧
  ∃ out h shown, InspectPorts same alice (encMap webDoc) = Ok out ∧ memberOf "HostConfig" (default (encMap webDoc) out) = Some h ∧
    h !! "PortBindings"%string ≫= decBindings = Some shown ∧ fixedOf shown "80/tcp" = [8080].
Proof.
  destruct (asked_ports_come_back _ _ _ _ _ _ _ _ same _ _ _ _ _ webDoc webAccepted) as (H0 & _ & _ & out & h & shown & H1 & H2 & H3 & H4).
  - rewrite webPayload_bindings. exact webAsked_labelled.
  - rewrite webPayload_bindings. discriminate.
  - rewrite webPayload_bindings. exact webBindings_noNull.
  - vm_compute. reflexivity.
  - reflexivity.
  - rewrite webPayload_bindings in H0, H4. split; [exact (H0 "80/tcp"%string (Some [Some web]) eq_refl)|].
    exists out, h, shown. split; [exact H1|]. split; [exact H2|]. split; [exact H3|]. destruct (H4 "80/tcp"%string) as [E _]; [vm_compute; reflexivity|]. rewrite E. vm_compute. reflexivity.
Defined.

(** What was sent: the number gone from the binding, the alias added, and the labels
    over the caller's. *)
Example webOut_sent :
  labelsOf (field "Labels" (default None (decObject webOut))) =
    {["stage" := "dev"; OwnerLabel := "alice"; ClientLabel := "89abcdef"; PortsLabel := "80/tcp=8080"]}%string ∧
  field "ExtraHosts" (hostOf (default None (decObject webOut))) = Some (JArray [JString "host.docker.internal:172.17.0.1"]) ∧
  field "Binds" (hostOf (default None (decObject webOut))) = Some (JArray [JString "rd-89abcdef-0123456789abcdef:/app:ro"]).
Proof. split_and!; vm_compute; reflexivity. Qed.

(** A request whose body is null is written to as if it were an object. *)
Example null_body_panics : (create "" JNull).1 = Err Panics.
Proof. vm_compute. reflexivity. Qed.
