(* ===== verification/AgentExamples.v ===== *)
(** * Concrete runs of the agent's ports and ephemeral runs

    Each theorem on them that has hypotheses, applied where they hold; and what
    happens when a run ends while a [Port] call of it waits. *)

From stdpp Require Import functions.
From S2P Require Import Prelude GoStrings GoTime Records AccountPorts Ephemeral EphemeralProofs.
Open Scope Z_scope.

(** ** The port allocator *)

(** A disk that can be read and written; uid 10001 is the only account, so port
    30001 is the only one somebody derives. *)
Definition demoEnv (preferred : Z) : portEnv :=
  {| pv_readable := true; pv_writable := true; pv_Reserved := Z.eqb 10001; pv_Preferred := Some preferred |}.

Definition nobody : Ports := freshPorts None.

(** The account's first machine gets the account's own port, the second one another. *)
Definition oneMachine : Ports := fst (For DefaultMapping (demoEnv 0) "alice" 10001 "laptop" nobody).
Definition twoMachines : Ports := fst (For DefaultMapping (demoEnv 0) "alice" 10001 "desk" oneMachine).

Example machines_ports :
  snd (For DefaultMapping (demoEnv 0) "alice" 10001 "laptop" nobody) = Ok 30001 ∧
  snd (For DefaultMapping (demoEnv 0) "alice" 10001 "desk" oneMachine) = Ok 65535 ∧
  po_disk twoMachines = Some ("alice:desk:65535" +:+ String newline ("alice:laptop:30001" +:+ String newline "")).
Proof. split_and!; vm_compute; reflexivity. Qed.

Lemma nothing_assigned : assigned_ok (parseRecord None) 0.
Proof.
  change (assigned_ok ∅ 0). split; [intros ? ? ? ? E|intros ? ? E|intros ? ? E|intros ? ? ? ? E]; by apply lookup_empty_Some in E.
Qed.

Lemma oneMachine_reachable : ports_reachable DefaultMapping oneMachine.
Proof.
  exists None. split; [apply nothing_assigned|]. apply rtc_once.
  apply (port_for DefaultMapping nobody (demoEnv 0) "alice" 10001 "laptop"); reflexivity.
Defined.

Lemma twoMachines_reachable : ports_reachable DefaultMapping twoMachines.
Proof.
  destruct oneMachine_reachable as (disk & Hd & Hr). exists disk. split; [done|]. eapply rtc_r; [exact Hr|].
  apply (port_for DefaultMapping oneMachine (demoEnv 0) "alice" 10001 "desk"); reflexivity.
Defined.

Lemma laptop_has : is_Some (view twoMachines !! ("alice", "laptop")).
Proof. vm_compute. by eexists. Qed.

Lemma desk_has : is_Some (view twoMachines !! ("alice", "desk")).
Proof. vm_compute. by eexists. Qed.

Lemma ports_never_shared_witness :
  ∃ e1 e2, view twoMachines !! ("alice", "laptop") = Some e1 ∧ view twoMachines !! ("alice", "desk") = Some e2 ∧ en_port e1 ≠ en_port e2.
Proof.
  destruct laptop_has as [e1 E1], desk_has as [e2 E2]. exists e1, e2. split; [exact E1|]. split; [exact E2|]. intros E.
  discriminate (proj1 (ports_never_shared DefaultMapping eq_refl twoMachines twoMachines_reachable) _ _ _ _ E1 E2 E).
Defined.

Lemma given_port_is_free_witness :
  takenIn (view oneMachine) 65535 = false ∧
  (PortForUID DefaultMapping 10001 = Ok 65535 ∨ handable DefaultMapping (Z.eqb 10001) 65535).
Proof.
  destruct (given_port_is_free DefaultMapping eq_refl (demoEnv 0) "alice" 10001 "desk" oneMachine) as (H & _).
  - apply oneMachine_reachable.
  - reflexivity.
  - reflexivity.
  - discriminate.
  - vm_compute. reflexivity.
  - apply (H twoMachines 65535). vm_compute. reflexivity.
Defined.

(** A second account, whose own port was given to nobody, may not forward the first
    one's. *)
Lemma owns_exclusive_witness :
  snd (Owns DefaultMapping (demoEnv 0) "alice" 10001 65535 twoMachines) = true ∧
  snd (Owns DefaultMapping (demoEnv 0) "bob" 45535 65535 twoMachines) = false.
Proof.
  split; [vm_compute; reflexivity|].
  apply (owns_exclusive DefaultMapping eq_refl (demoEnv 0) (demoEnv 0) twoMachines 65535 "alice" "bob" 10001 45535).
  - apply twoMachines_reachable.
  - discriminate.
  - discriminate.
  - vm_compute. reflexivity.
Defined.

Lemma machine_keeps_port_witness :
  synced twoMachines ∧ snd (For DefaultMapping (demoEnv 40000) "alice" 10002 "desk" (restart twoMachines)) = Ok 65535.
Proof.
  apply (machine_keeps_port DefaultMapping eq_refl (demoEnv 0) (demoEnv 40000) "alice" 10001 10002 "desk" oneMachine twoMachines 65535 30002).
  - apply oneMachine_reachable.
  - apply (bool_decide_eq_true_1 _). vm_compute. reflexivity.
  - reflexivity.
  - reflexivity.
  - discriminate.
  - intros e E. vm_compute in E. discriminate.
  - reflexivity.
  - reflexivity.
  - reflexivity.
  - vm_compute. reflexivity.
Defined.

(** ** The runs *)

Definition ciKey : string * string := ("ci", "run1").
Definition isCi (k : string * string) : Prop := k = ciKey.

#[local] Instance demoPorts : RunPorts Ports portEnv := accountPorts DefaultMapping.
#[local] Instance demoLaws : RunPortsLaws Ports portEnv := accountPorts_laws DefaultMapping eq_refl.

Definition noRuns : Registry Ports :=
  {| rg_Max := 0; rg_Grace := 0; rg_runs := ∅; rg_ports := nobody; rg_ids := 0; rg_gen := 0; rg_written := 0; rg_disk := [] |}.

Definition minuteOf (n : Z) : Time := n * Minute.

(** A run that attached and has its port. *)
Definition ran : Registry Ports := fst (Restore (demoEnv 0) (minuteOf 0) noRuns).
Definition ran1 : Registry Ports := fst (fst (Attach (minuteOf 0) ciKey ran)).
Definition ran2 : Registry Ports := fst (portBegin ciKey ran1).
Definition ran3 : Registry Ports := fst (portAsk (demoEnv 0) ciKey ran2).
Definition ran4 : Registry Ports := fst (fst (portEnd ciKey 0 (snd (portAsk (demoEnv 0) ciKey ran2)) ran3)).

Abbreviation World := (@world Ports).
Definition world0 : World := {| wd_reg := ran; wd_th := λ _, noThreads |}.
Definition world1 : World := {| wd_reg := ran1; wd_th := <[ciKey := with_conns [0%nat] noThreads]> (wd_th world0) |}.
Definition world2 : World := {| wd_reg := ran2; wd_th := <[ciKey := with_asks [(0%nat, None)] (wd_th world1 ciKey)]> (wd_th world1) |}.
Definition world3 : World :=
  {| wd_reg := ran3; wd_th := <[ciKey := with_asks [(0%nat, Some (Some (65535, 1)))] (wd_th world2 ciKey)]> (wd_th world2) |}.
Definition world4 : World := {| wd_reg := ran4; wd_th := <[ciKey := with_asks [] (wd_th world3 ciKey)]> (wd_th world3) |}.

Lemma world4_reachable : runs_reachable isCi world4.
Proof.
  exists noRuns, (demoEnv 0), (minuteOf 0). split.
  { split; [reflexivity| | |constructor|constructor].
    - split; [apply nothing_assigned|vm_compute; discriminate|apply nothing_assigned|done].
    - intros k _. change ((heldOf <$> (∅ : gmap assignment entry)) !! k = None). by rewrite fmap_empty, lookup_empty. }
  eapply rtc_l; [eapply (run_attach _ world0 (minuteOf 0) ciKey ran1 (Ok 0%nat)); [done|vm_compute; reflexivity]|].
  eapply rtc_l; [eapply (run_begin _ world1 ciKey ran2 (Asking 0)); [done|vm_compute; reflexivity]|].
  eapply rtc_l; [eapply (run_ask _ world2 (demoEnv 0) ciKey 0 [] ran3 (Some (65535, 1))); [done|done|vm_compute; reflexivity]|].
  eapply rtc_l; [eapply (run_end _ world3 ciKey 0 (Some (65535, 1)) [] ran4); [done|done|vm_compute; reflexivity]|].
  apply rtc_refl.
Qed.

Lemma ci_names k : isCi k → rp_name k.1 ∧ rp_name k.2.
Proof. intros ->. split; reflexivity. Qed.

Lemma ci_runs : ∃ ru, rg_runs (wd_reg world4) !! ciKey = Some ru ∧ ru_state ru = Live ∧ ru_port ru = 65535.
Proof. vm_compute. by eexists. Qed.

Lemma runs_keep_ports_witness :
  ∃ ru, rg_runs (wd_reg world4) !! ciKey = Some ru ∧ ru_state ru = Live ∧ 0 < ru_conns ru ∧
        held world4 !! ciKey = Some (ru_port ru, ru_token ru, true) ∧ ru_port ru = 65535.
Proof.
  destruct (runs_keep_ports isCi ci_names world4 ciKey
              world4_reachable eq_refl) as [H _].
  destruct ci_runs as (ru & E & Hs & Hp).
  destruct (H ru E) as (HL & _ & Hheld & _). exists ru. split; [exact E|]. split; [exact Hs|]. split; [by apply HL|].
  split; [|exact Hp]. apply Hheld; rewrite ?Hs, ?Hp; done.
Defined.

(** A run that ends while a [Port] call of it waits. The run expires and is cleaned
    up; another attaches under the same key and asks for a port too, and the
    allocator gives both calls the one entry of their key. The new run's call
    returns first and keeps the port; the old call finds its run gone and frees
    it, so that the next run to ask is given the port of a live one. *)
Definition otherKey : string * string := ("ci", "run2").
Definition everybody (_ : string) : bool := true.

Definition waiting : Registry Ports := fst (detach (minuteOf 0) ciKey 0 ran2).
Definition expiredAway : Registry Ports := Sweep everybody (minuteOf 5) (λ _, true) waiting.
Definition secondRun : Registry Ports := fst (portBegin ciKey (fst (fst (Attach (minuteOf 6) ciKey expiredAway)))).
Definition oldAnswer : Registry Ports := fst (portAsk (demoEnv 0) ciKey secondRun).
Definition newAnswer : Registry Ports := fst (portAsk (demoEnv 0) ciKey oldAnswer).
Definition newDone : Registry Ports := fst (fst (portEnd ciKey 1 (snd (portAsk (demoEnv 0) ciKey oldAnswer)) newAnswer)).
Definition oldDone : Registry Ports := fst (fst (portEnd ciKey 0 (snd (portAsk (demoEnv 0) ciKey secondRun)) newDone)).
Definition thirdRun : Registry Ports := fst (portBegin otherKey (fst (fst (Attach (minuteOf 6) otherKey oldDone)))).
Definition bothRun : Registry Ports :=
  let '(r, answer) := portAsk (demoEnv 0) otherKey thirdRun in fst (fst (portEnd otherKey 2 answer r)).

Lemma orphan_call_frees :
  (λ ru, (ru_state ru, ru_port ru)) <$> rg_runs bothRun !! ciKey = Some (Live, 65535) ∧
  (λ ru, (ru_state ru, ru_port ru)) <$> rg_runs bothRun !! otherKey = Some (Live, 65535).
Proof. split; vm_compute; reflexivity. Qed.
