(* ===== verification/AccountExamples.v ===== *)
(** * Concrete accounts and images

    The theorems on account names, key files and image pruning, each applied where
    its hypotheses hold. *)

From Stdlib Require Import Ascii.
From S2P Require Import Prelude GoStrings GoTime Records Names Mounts AccountPorts Prune KeyFiles KeyFilesProofs Accounts AccountsProofs AccountsTheorems.
Open Scope Z_scope.

(** ** Names *)

(** ASCII lower case. *)
Definition lowerByte (a : ascii) : ascii := let n := nat_of_ascii a in if ((65 <=? n) && (n <=? 90))%nat then ascii_of_nat (n + 32) else a.
Fixpoint lowerASCII (s : string) : string := match s with EmptyString => EmptyString | String a s' => String (lowerByte a) (lowerASCII s') end.

Lemma lowerASCII_lower s : everyByte accountByte s = true → lowerASCII s = s.
Proof.
  induction s as [|a s IH]; [done|]. cbn [everyByte lowerASCII]. intros [Ha Hs]%andb_true_iff. rewrite IH by done. f_equal.
  revert Ha. clear. destruct a as [[] [] [] [] [] [] [] []]; vm_compute; done.
Qed.

Lemma account_names_stable_witness : goodName "jane-doe" ∧ AccountName lowerASCII "jane-doe" = Some "jane-doe"%string.
Proof. apply (account_names_stable lowerASCII lowerASCII_lower "1-Jane.Doe" "jane-doe"). vm_compute. reflexivity. Defined.

(** ** Key files *)

Inductive demoKey := Ed25519 | Ecdsa.
#[export] Instance demoKey_eq_dec : EqDecision demoKey.
Proof. solve_decision. Defined.

Definition demoMarshal (k : demoKey) : string :=
  match k with Ed25519 => "ssh-ed25519 AAAA" | Ecdsa => "ecdsa-sha2-nistp256 BBBB" end +:+ String newline "".
Definition demoParse (s : string) : option (demoKey * string) :=
  match s with String "s" _ => Some (Ed25519, ""%string) | String "e" _ => Some (Ecdsa, ""%string) | _ => None end.
Definition demoFingerprint (k : demoKey) : string := match k with Ed25519 => "SHA256:a" | Ecdsa => "SHA256:b" end.

Lemma demo_plain k : everyByte plainByte (strings.TrimSpace (demoMarshal k)) = true.
Proof. destruct k; vm_compute; reflexivity. Qed.

Lemma demo_start k : ∃ a s, strings.TrimSpace (demoMarshal k) = String a s ∧ visible a = true ∧ a ≠ "#"%char.
Proof. destruct k; vm_compute; eexists _, _; split_and!; done. Qed.

Lemma demo_parse k rest :
  strings.Contains rest newline = false → rest = ""%string ∨ strings.HasPrefix rest " " = true →
  ∃ comment, demoParse (strings.TrimSpace (strings.TrimSpace (demoMarshal k) +:+ rest)) = Some (k, comment).
Proof.
  intros _ _. destruct k.
  - change (strings.TrimSpace (demoMarshal Ed25519)) with "ssh-ed25519 AAAA"%string. cbn [String.append].
    match goal with |- context [strings.TrimSpace (String ?a ?s)] => destruct (TrimSpace_start a s eq_refl) as [t ->] end. by eexists.
  - change (strings.TrimSpace (demoMarshal Ecdsa)) with "ecdsa-sha2-nistp256 BBBB"%string. cbn [String.append].
    match goal with |- context [strings.TrimSpace (String ?a ?s)] => destruct (TrimSpace_start a s eq_refl) as [t ->] end. by eexists.
Qed.

(** Jane's file has a key of hers, under a comment; the operator's directory is
    empty and nothing has been provisioned. *)
Definition janeFile : string := "# work" +:+ String newline ("ssh-ed25519 AAAA jane@laptop" +:+ String newline "").
Definition onDisk (enrolled : gmap string string) : gmap string (gmap string string) := {["/keys"%string := ∅; "/enrolled"%string := enrolled]}.
Definition storeWith (enrolled : gmap string string) : Store demoKey :=
  {| st_KeysDirs := ["/keys"%string]; st_EnrolledDir := "/enrolled"; st_UIDBase := 10000; st_disk := onDisk enrolled; st_uidmap := None;
     st_provisioned := ∅; st_provisioning := ∅; st_accounts := ∅; st_unusable := ∅ |}.
Definition usable : stateEnv := {| se_readable := true; se_writable := true |}.

Abbreviation demoSwap := (swap lowerASCII demoParse demoFingerprint usable).
Abbreviation demoStep := (fit_step lowerASCII demoParse demoMarshal demoFingerprint).
Abbreviation demoReachable := (world_reachable lowerASCII demoParse demoMarshal demoFingerprint).

(** The first sync starts the provisioning, and the one after it publishes. *)
Definition janes0 : Store demoKey := storeWith {["jane.pub"%string := janeFile]}.
Definition janes1 : Store demoKey := snd (demoSwap janes0).
Definition janes2 : Store demoKey := ensured "jane" "rd-jane" "/home/rd-jane" janes1.
Definition janes3 : Store demoKey := snd (demoSwap janes2).

Definition worldOf (users : gset string) (s : Store demoKey) : World := {| w_store := s; w_pending := ∅; w_users := users |}.

Definition janeUids : gmap string Z := {["jane"%string := 10000]}.

Lemma jane_fits (s : Store demoKey) : uids s = janeUids → uidsFit (uids s).
Proof. intros ->. by apply map_Forall_singleton. Qed.

Lemma janes0_starts : starts (worldOf ∅ janes0).
Proof.
  assert (uids janes0 = ∅) as E by reflexivity. unfold starts, worldOf. cbn [w_store w_pending w_users]. rewrite E. split_and!; try done; try apply map_Forall_empty.
Qed.

Lemma janes2_reachable : demoReachable (worldOf {["jane"%string]} janes2).
Proof.
  exists (worldOf ∅ janes0). split; [exact janes0_starts|].
  eapply rtc_l; [split; [eapply (step_sync _ _ _ _ usable janes0); apply surjective_pairing|apply jane_fits; vm_compute; reflexivity]|].
  eapply rtc_l; [split; [eapply (step_ensured _ _ _ _ "jane" "rd-jane" "/home/rd-jane" janes1); [apply (bool_decide_unpack _); vm_compute; exact I|vm_compute; reflexivity]|]|].
  - apply jane_fits. vm_compute. reflexivity.
  - rewrite union_empty_r_L. apply rtc_refl.
Qed.

Lemma janes3_reachable : demoReachable (worldOf {["jane"%string]} janes3).
Proof.
  destruct janes2_reachable as (w0 & H0 & Hs). exists w0. split; [exact H0|]. eapply rtc_r; [exact Hs|].
  split; [eapply (step_sync _ _ _ _ usable janes2); apply surjective_pairing|apply jane_fits; vm_compute; reflexivity].
Qed.


Lemma keys_follow_files_witness : ∃ a, st_accounts janes3 !! "jane"%string = Some a ∧ Authorized demoFingerprint a Ed25519 = true.
Proof.
  destruct (keys_follow_files lowerASCII demoParse demoMarshal demoFingerprint (worldOf {["jane"%string]} janes2) usable [] janes3 "jane" Ed25519 janes2_reachable) as (H & _ & Hx).
  - vm_compute. reflexivity.
  - apply H. split; [vm_compute; by eexists|]. exists "/enrolled"%string, janeFile. split_and!.
    + apply (bool_decide_unpack _). vm_compute. exact I.
    + apply (Hx _ {["jane.pub"%string := janeFile]}); vm_compute; reflexivity.
    + unfold gives. vm_compute. exists Ed25519. split; [left|reflexivity].
Defined.

(** ** Changes *)

Definition janesDir : gmap string string := {["jane.pub"%string := janeFile]}.

Lemma janes3_enrolled : st_disk janes3 !! st_EnrolledDir janes3 = Some janesDir.
Proof. vm_compute. reflexivity. Qed.

Lemma janes3_dirs : st_KeysDirs janes3 = ["/keys"%string].
Proof. vm_compute. reflexivity. Qed.

Lemma janes3_operator : textFor lowerASCII janes3 "/keys" "jane" = None.
Proof. vm_compute. reflexivity. Qed.

Lemma janes_ok (d : gmap string string) : st_disk janes3 !! st_EnrolledDir janes3 = Some d → dirOk d.
Proof.
  rewrite janes3_enrolled. intros [= <-] n text Ht. unfold janesDir in Ht. apply lookup_singleton_Some in Ht as [<- <-]. eexists. split; [vm_compute; reflexivity|]. repeat constructor.
Qed.

Definition janeAdded : Store demoKey := snd (AppendKey lowerASCII demoParse demoMarshal demoFingerprint usable "Jane" Ecdsa " second  laptop" janes3).
Definition janeRemoved : Store demoKey := snd (RemoveKey lowerASCII demoParse demoFingerprint usable "Jane" "SHA256:a" janes3).

Lemma enrolment_changes_one_key_witness :
  enrolledKeys demoParse janeAdded "jane" = [Ed25519; Ecdsa] ∧ enrolledKeys demoParse janeRemoved "jane" = [].
Proof.
  destruct (enrolment_changes_one_key lowerASCII demoParse demoMarshal demoFingerprint demo_plain demo_start demo_parse
              usable "Jane" "jane" Ecdsa " second  laptop" "SHA256:a" janes3) as (Ha & Hr & _); [vm_compute; reflexivity|exact janes_ok|].
  destruct (Ha true janeAdded) as (_ & _ & Ek); [vm_compute; reflexivity|]. destruct (Hr true janeRemoved) as (_ & _ & Er & _); [vm_compute; reflexivity|].
  split; [rewrite Ek; vm_compute; reflexivity|rewrite Er; vm_compute; reflexivity].
Defined.

Lemma short_text text : forallb (λ l, Z.of_nat (strlen l) <? MaxScanTokenSize) (strings.Split (default ""%string (stripBOM text)) newline) = true → shortLines text.
Proof. intros H data Hd. rewrite Hd in H. apply Forall_forall. intros l Hl%list_elem_of_In. rewrite forallb_forall in H. by apply Z.ltb_lt, H. Qed.

Lemma appended_key_authenticates_witness : ∃ a, st_accounts janeAdded !! "jane"%string = Some a ∧ Authorized demoFingerprint a Ecdsa = true.
Proof.
  apply (appended_key_authenticates lowerASCII demoParse demoMarshal demoFingerprint lowerASCII_lower demo_plain demo_start demo_parse
           (worldOf {["jane"%string]} janes3) usable "Jane" "jane" Ecdsa " second  laptop" true janeAdded).
  - exact janes3_reachable.
  - vm_compute. reflexivity.
  - exact janes_ok.
  - vm_compute. reflexivity.
  - intros text Ht. apply short_text. vm_compute in Ht. injection Ht as <-. vm_compute. reflexivity.
  - vm_compute. by eexists.
Defined.

Lemma removed_key_is_refused_witness :
  ∃ a, st_accounts janeRemoved !! "jane"%string = Some a ∧ Authorized demoFingerprint a Ed25519 = false.
Proof.
  destruct (st_accounts janeRemoved !! "jane"%string) as [a|] eqn:Ea; [|vm_compute in Ea; discriminate Ea]. exists a. split; [reflexivity|].
  apply (removed_key_is_refused lowerASCII demoParse demoMarshal demoFingerprint (worldOf {["jane"%string]} janes3) usable "Jane" "jane" "SHA256:a" janeRemoved).
  - exact janes3_reachable.
  - vm_compute. reflexivity.
  - exact janes_ok.
  - vm_compute. reflexivity.
  - apply (bool_decide_unpack _). vm_compute. exact I.
  - intros dir text. cbn [w_store worldOf]. rewrite janes3_dirs. intros ->%list_elem_of_singleton. rewrite janes3_operator. discriminate.
  - intros d file. cbn [w_store worldOf]. rewrite janes3_enrolled. intros [= <-] [text Ht] _. unfold janesDir in Ht. by apply lookup_singleton_Some in Ht as [<- _].
  - intros text Ht. vm_compute in Ht. discriminate Ht.
  - exact Ea.
  - reflexivity.
Defined.

(** A file [Jane.pub] beside [jane.pub] is ignored, until [jane.pub] goes with its
    last key: then its key, which the removal was of, authenticates. *)
Definition shadowed : gmap string string := {["jane.pub"%string := janeFile; "Jane.pub"%string := janeFile]}.
Definition shadow3 : Store demoKey := snd (demoSwap (ensured "jane" "rd-jane" "/home/rd-jane" (snd (demoSwap (storeWith shadowed))))).
Definition shadowRemoved : res accountError bool * Store demoKey := RemoveKey lowerASCII demoParse demoFingerprint usable "jane" "SHA256:a" shadow3.

Example shadow_takes_over :
  fst shadowRemoved = Ok true ∧ (λ a, Authorized demoFingerprint a Ed25519) <$> st_accounts (snd shadowRemoved) !! "jane"%string = Some true.
Proof. split; vm_compute; reflexivity. Qed.

(** ** Images *)

Definition hour : Duration := 60 * Minute.
Definition alpine : Image := {| im_ID := "sha256:aaaa"; im_Tags := ["alpine:latest"%string]; im_Digests := []; im_Size := 5 |}.

(** Alpine runs at the first look and is only listed at the second. *)
Definition runningAlpine : Container :=
  {| ct_ID := "c1"; ct_Name := "/web"; ct_ImageID := "sha256:aaaa"; ct_Status := "running"; ct_Created := 0; ct_Finished := zeroTime |}.
Definition look1 : observation := {| ob_now := 0; ob_images := [alpine]; ob_containers := [runningAlpine]; ob_created := [] |}.
Definition look2 : observation := {| ob_now := hour; ob_images := [alpine]; ob_containers := []; ob_created := [] |}.
Definition looked : Record_ := foldl observe NewRecord [look1; look2].
Definition goneAlpine : Candidate := {| cd_Image := alpine; cd_Seen := 0 |}.

Example alpine_goes :
  AgeImages looked [alpine] [] ∅ hour (2 * hour) = [goneAlpine] ∧ AgeImages looked [alpine] [] ∅ hour hour = [].
Proof. split; vm_compute; reflexivity. Qed.

Lemma used_images_stay_witness : hour < Sub (2 * hour) 0 ∧ im_ID alpine ∉ Used [].
Proof.
  destruct (used_images_stay [] look1 [look2] (2 * hour) [alpine] [] ∅ hour goneAlpine) as (Ha & _ & Hb).
  - left. by apply elem_of_list_to_set, list_elem_of_singleton.
  - by apply list_elem_of_singleton.
  - apply Forall_singleton. split; [by apply list_elem_of_singleton|]. vm_compute. discriminate.
  - assert (goneAlpine ∈ AgeImages looked [alpine] [] ∅ hour (2 * hour)) as Hin by (rewrite (proj1 alpine_goes); by apply list_elem_of_singleton).
    split; [exact (Ha Hin)|]. by apply Hb; left.
Defined.
