(* ===== verification/WatchExamples.v ===== *)
(** * The watcher on a small tree

    Concrete states where the hypotheses of the watcher's theorems hold, and the
    runs behind its findings. *)
From S2P Require Import Prelude GoStrings GoTime DirTypes Names Mounts Coalesce WatchTree WatchTreeProofs Watcher Records CacheProto Replay.

Open Scope Z_scope.

Definition asIs (s : string) : string := s.
Definition sameText (a b : string) : bool := bool_decide (a = b).

(** A share with a source directory, excluded modules, a link and a file. *)
Definition entry (n : string) (dir link : bool) : dirEntry := {| de_Name := n; de_IsDir := dir; de_Symlink := link |}.
Definition demoEntries : list dirEntry := [entry "src" true false; entry "node_modules" true false; entry "out" false true; entry "a.txt" false false].
Definition demoReadDir (d : string) : option (list dirEntry) :=
  if bool_decide (d = "/w"%string) then Some demoEntries
  else if bool_decide (d = "/w/src"%string) then Some [entry "deep" true false]
  else if bool_decide (d = "/w/src/deep"%string) then Some []
  else None.
Definition demo : answers := {| an_Add := λ _, true; an_ReadDir := demoReadDir; an_LstatDir := λ d, bool_decide (is_Some (demoReadDir d)) |}.

Lemma good (w : string) : bool_decide (plainPart w ∧ strings.Contains w path.sep = false) = true → goodPart "linux" w.
Proof. intros [H1 H2]%bool_decide_eq_true. by split_and!. Qed.

Lemma demo_sound : sound "linux" demo.
Proof.
  assert (Forall (λ e, goodPart "linux" (de_Name e)) (demoEntries ++ [entry "deep" true false])) as H by (repeat constructor; by apply good).
  rewrite Forall_forall in H. intros d es e. cbn. unfold demoReadDir. repeat case_bool_decide; intros [= <-] He; apply H, elem_of_app; auto. by apply elem_of_nil in He.
Qed.

Definition demoShare : Share := {| sh_ExportPath := "/m/1111111111111111"; sh_LocalPath := "/w"; sh_Mode := WatchPartial; sh_File := "" |}.
Definition watchStart : processor :=
  {| pr_tree := newTree asIs "linux" ∅ 8 (ExcludesOr None); pr_co := newCoalescer 0 0 0; pr_observed := [] |}.
Definition synced : processor := default watchStart (processSync asIs sameText demo 8 [demoShare] watchStart).

Lemma synced_from : processSync asIs sameText demo 8 [demoShare] watchStart = Some synced.
Proof. vm_compute. reflexivity. Qed.

Lemma absolute_w : absolute "linux" "/w".
Proof. exists ["w"%string]. split; [|done]. constructor; [by apply good|constructor]. Qed.

Lemma watches_stay_in_shares_witness :
  bool_decide (wt_be (pr_tree synced) = {[ "/w"; "/w/src"; "/w/src/deep" ]}) = true ∧
  (∀ q, q ∈ wt_be (pr_tree synced) → wt_dirs (pr_tree synced) !! dirKey asIs "linux" q = Some q).
Proof.
  split; [vm_compute; reflexivity|].
  refine (proj1 (watches_stay_in_shares asIs sameText "linux" 8 (ExcludesOr None) (newCoalescer 0 0 0) synced _ _)).
  - intros s. unfold sameText. by apply bool_decide_eq_true_2.
  - apply rtc_once. apply (step_sync asIs sameText "linux" demo 8 [demoShare]); [exact demo_sound|constructor; [exact absolute_w|constructor]|exact synced_from].
Defined.

Definition demoExclude : gset string := wt_exclude (newTree asIs "linux" ∅ 2 (ExcludesOr None)).

(** With a budget of two, the walk stops one level down. *)
Lemma shallow_directories_first_witness :
  ∃ t' em, addTree asIs (an_Add demo) (an_ReadDir demo) 8 "/w" (newTree asIs "linux" ∅ 2 (ExcludesOr None)) = Some (t', em) ∧
    wt_deniedN t' = 1 ∧ watched asIs "linux" t' "/w".
Proof.
  destruct (shallow_directories_first asIs (an_Add demo) (an_ReadDir demo) "linux" demoExclude "/w" demo_sound absolute_w (λ s, eq_refl)
    (newTree asIs "linux" ∅ 2 (ExcludesOr None)) eq_refl eq_refl) as (fuel & t' & em & Hw & H). destruct (H (λ _ _ _, eq_refl)) as [_ Hs].
  pose proof (Hw (fuel + 8)%nat ltac:(lia)) as Hf.
  assert (∃ u em', addTree asIs (an_Add demo) (an_ReadDir demo) 8 "/w" (newTree asIs "linux" ∅ 2 (ExcludesOr None)) = Some (u, em') ∧ wt_deniedN u = 1 ∧
    wt_dirs u !! "/w/src"%string = Some "/w/src"%string) as (u & em' & Hu & Hn & Hd) by (eexists _, _; split; [vm_compute; reflexivity|split; vm_compute; reflexivity]).
  pose proof (walk_more asIs (an_Add demo) (an_ReadDir demo) _ (fuel + 8) _ _ _ _ Hu ltac:(lia)) as Hu'. unfold addTree in Hf. rewrite Hu' in Hf. injection Hf as -> ->.
  exists t', em. split_and!; [done|done|]. refine (Hs "/w/src"%string "/w/src"%string 1%nat _ Hd _ 0%nat "/w"%string _ _); [vm_compute; reflexivity| |lia|constructor].
  apply (reach_below _ _ _ _ 0 "/w"%string); [constructor|]. exists demoEntries, (entry "src" true false).
  split_and!; [reflexivity|by left|done|done|vm_compute; discriminate|reflexivity].
Defined.

Definition edit (name : string) (removed : bool) : fsEvent :=
  {| fe_Name := name; fe_Create := false; fe_Write := negb removed; fe_Remove := removed; fe_Rename := false; fe_Chmod := false |}.
Definition edited : processor := default synced (handle asIs sameText demo 8 0 (edit "/w/src/a.go" false) synced).

Lemma edited_from : handle asIs sameText demo 8 0 (edit "/w/src/a.go" false) synced = Some edited.
Proof. vm_compute. reflexivity. Qed.

Lemma change_reaches_every_root_witness :
  ∃ isDir, pr_observed edited = (eventFor OpWrite isDir <$> rootsFor sameText (pr_tree synced) "/w/src/a.go").
Proof.
  pose proof (change_reaches_every_root asIs sameText demo 8 0 (edit "/w/src/a.go" false) synced edited edited_from ltac:(discriminate)) as H.
  destruct H as (isDir & H & _). exists isDir. exact H.
Defined.

Lemma missed_events_are_announced_witness :
  ∃ out, out ∈ (replay [Flush (10 * Second)] (pr_co (processMissed synced))).2 ∧
    reported out {| we_Export := "/m/1111111111111111"; we_Path := "/src/a.go"; we_Op := OpWrite; we_Dir := false |}.
Proof.
  destruct (missed_events_are_announced synced (rootOf "linux" demoShare)
    {| we_Export := "/m/1111111111111111"; we_Path := "/src/a.go"; we_Op := OpWrite; we_Dir := false |} [Flush (10 * Second)]
    (replay [Flush (10 * Second)] (pr_co (processMissed synced))).1 (replay [Flush (10 * Second)] (pr_co (processMissed synced))).2) as [H|H].
  - vm_compute. left.
  - reflexivity.
  - apply surjective_pairing.
  - exfalso. destruct H as [[x Hx]|(l & Hl & _)]; [vm_compute in Hx|vm_compute in Hl]; discriminate.
  - exact H.
Defined.

(** ** The way out *)

Definition quiet : Stats :=
  {| st_Connected := false; st_Watched := 0; st_Budget := 8; st_Denied := 0; st_DeniedDirs := []; st_Excluded := 0; st_Pending := 0; st_Sent := 0; st_Dropped := 0 |}.
Definition offline (queueLen : Z) (out : list Frame) : Watcher :=
  {| wa_queueLen := queueLen; wa_raw := []; wa_missed := false; wa_out := out; wa_sink := false; wa_disconnected := ∅; wa_stats := quiet; wa_lost := [] |}.
Definition oneEdit : WireEvent := {| we_Export := "/m/1111111111111111"; we_Path := "/a"; we_Op := OpWrite; we_Dir := false |}.
Definition frameOf (l : list WireEvent) : Frame := {| fr_Events := l; fr_Notice := None |}.

Lemma away_changes_announced_witness :
  ∃ notices w'', sendFrame (λ _, true) (frameOf [oneEdit]) (SetSink true (sendAll (λ _, true) [frameOf [oneEdit; oneEdit]] (offline 4 [])).2) =
    ((noticeFrame <$> notices) ++ [frameOf [oneEdit]], w'')%list ∧
    {| wn_Export := "/m/1111111111111111"; wn_Path := "/"; wn_Dropped := 2; wn_Reason := "disconnected" |} ∈ notices.
Proof.
  destruct (away_changes_announced (λ _, true) [frameOf [oneEdit; oneEdit]] (offline 4 []) [] (sendAll (λ _, true) [frameOf [oneEdit; oneEdit]] (offline 4 [])).2
    (frameOf [oneEdit]) (λ _, eq_refl) eq_refl eq_refl eq_refl) as (notices & w'' & E & _ & _ & H).
  exists notices, w''. split; [exact E|]. exact (H "/m/1111111111111111"%string ltac:(discriminate)).
Defined.

(** A frame that finds the queue full is counted, and nobody is told: no notice
    joins the queue, the observer hears nothing, and nothing is owed to the agent. *)
Lemma full_queue_is_silent :
  let w := offline 1 [frameOf [oneEdit]] in let w' := emit [oneEdit] [] w in
  st_Dropped (wa_stats w') = 1 ∧ wa_out w' = wa_out w ∧ wa_lost w' = [] ∧ wa_disconnected w' = ∅.
Proof. vm_compute. split_and!; reflexivity. Qed.

(** A notice that is sent while there is no connection is gone: it has no events to
    be counted by. *)
Lemma notice_without_connection_is_gone :
  let n := {| wn_Export := "/m/1111111111111111"; wn_Path := "/"; wn_Dropped := 7; wn_Reason := "overflow" |} in
  let r := sendFrame (λ _, true) (noticeFrame n) (offline 4 []) in
  r.1 = [] ∧ wa_disconnected r.2 = ∅ ∧ st_Dropped (wa_stats r.2) = 0.
Proof. vm_compute. split_and!; reflexivity. Qed.

(** A share of one file whose name becomes a directory is walked, and its watches
    are covered by no root: their events belong to nobody. *)
Definition oneFile : Share := {| sh_ExportPath := "/m/2222222222222222"; sh_LocalPath := "/w/src"; sh_Mode := WatchCoarse; sh_File := "src" |}.
Definition created (name : string) : fsEvent :=
  {| fe_Name := name; fe_Create := true; fe_Write := false; fe_Remove := false; fe_Rename := false; fe_Chmod := false |}.

Lemma file_share_walks_directory :
  (p ← processSync asIs sameText demo 8 [oneFile] watchStart; p' ← handle asIs sameText demo 8 0 (created "/w/src") p;
   Some (bool_decide ("/w/src/deep"%string ∈ wt_be (pr_tree p')), covered sameText "/w/src/deep" (pr_tree p'), bool_decide (rootsFor sameText (pr_tree p') "/w/src/deep/x" = []))) =
  Some (true, false, true).
Proof. vm_compute. reflexivity. Qed.

(** * Changes replayed in a small workspace *)

Open Scope Z_scope.

(** The daemon has the share mounted; a file is created in it, another is removed,
    and one event names a path outside. *)
Definition shareExport : string := "/m/1111111111111111".
Definition mountedAt : list string := ["var"; "lib"; "docker"; "v1"; "_data"]%string.
Definition oneVolume (k : nat) (volume : string) : option string :=
  if bool_decide (volume = VolumeNameForID "0badcafe" "1111111111111111") then Some (abs mountedAt) else None.
Definition ticking (n : nat) : Time := Z.of_nat n.

Definition change (p : string) (op : Z) : WireEvent := {| we_Export := shareExport; we_Path := p; we_Op := op; we_Dir := false |}.
Definition saved : Frame := {| fr_Events := [change "/src/new.go" OpCreate; change "/../etc/shadow" OpWrite; change "/a.txt" OpRemove]; fr_Notice := None |}.
Definition starting : Replayer := {| rp_Client := "0badcafe"; rp_cached := ∅; rp_asked := 0; rp_read := 0; rp_pokes := [] |}.
Definition replayed : Replayer := Serve oneVolume ticking [Some saved; None] starting.

Lemma replayed_pokes :
  rp_pokes replayed = [("/var/lib/docker/v1/_data/src/new.go", false); ("/var/lib/docker/v1/_data/src", true); ("/var/lib/docker/v1/_data", true)]%string.
Proof. vm_compute. reflexivity. Qed.

Lemma replays_stay_in_the_clients_mounts_witness :
  ∃ export volume root k i j, VolumeNameForExport "0badcafe" export = Ok volume ∧ oneVolume k volume = Some root ∧ root ≠ ""%string ∧
    (j = i ∨ Sub (ticking j) (ticking i) < mountpointTTL) ∧ Under root "/var/lib/docker/v1/_data/src/new.go" "/" = true.
Proof.
  apply (replays_stay_in_the_clients_mounts oneVolume ticking "0badcafe" [Some saved; None] "/var/lib/docker/v1/_data/src/new.go" false).
  change ((("/var/lib/docker/v1/_data/src/new.go")%string, false) ∈ rp_pokes replayed). rewrite replayed_pokes. left.
Defined.

Lemma mountedAt_plain : Forall plainName mountedAt.
Proof. repeat constructor; try done; by intros [=]. Qed.

Lemma valid_events_are_replayed_witness : (joined (abs mountedAt) "/src", true) ∈ rp_pokes (apply oneVolume ticking saved starting).
Proof.
  apply (valid_events_are_replayed oneVolume ticking shareExport (VolumeNameForID "0badcafe" "1111111111111111") "0badcafe" mountedAt)
    with (e := change "/src/new.go" OpCreate).
  - vm_compute. reflexivity.
  - exact mountedAt_plain.
  - discriminate.
  - intros k. vm_compute. reflexivity.
  - reflexivity.
  - intros root at_ H. cbn in H. by apply lookup_empty_Some in H.
  - reflexivity.
  - left.
  - vm_compute. reflexivity.
  - reflexivity.
  - vm_compute. right. left.
Defined.
