(* ===== verification/UnionExamples.v ===== *)
(** * A workspace's unions on small runs, and a run that is cleaned *)
From Stdlib Require Import Ascii.
From S2P Require Import Prelude GoStrings GoTime Records Ephemeral Forwards Rewrite Collect KeyFiles AgentExamples Names Mounts AccountPorts CacheProto Unions DirTypes Decide Root MemFS UnionLayer UnionWrite Cleanup.

Open Scope Z_scope.

Definition demoSpec : Spec :=
  {| sp_PID := 7; sp_Export := "/m/0123456789abcdef"; sp_Client := "00c0ffee"; sp_Port := 20001; sp_CacheDir := "/var/lib/docker/volumes/x/_data";
     sp_Read := "cached"; sp_UID := 1000; sp_GID := 1000 |}.
Definition otherSpec : Spec :=
  {| sp_PID := 7; sp_Export := "/m/0123456789abcdef"; sp_Client := "00c0ffef"; sp_Port := 20002; sp_CacheDir := "/var/lib/docker/volumes/y/_data";
     sp_Read := "cached"; sp_UID := 1000; sp_GID := 1000 |}.

Lemma union_mounts_apart_witness :
  strings.HasPrefix (Merged demoSpec) "/run/rd-union/00c0ffee/" = true ∧ (Merged demoSpec = Merged otherSpec → sp_Client demoSpec = sp_Client otherSpec ∧ sp_Export demoSpec = sp_Export otherSpec).
Proof. exact (union_mounts_apart demoSpec otherSpec eq_refl eq_refl). Defined.

Lemma child_gets_its_spec_witness : FromEnv (getenv (envFor ModeServe demoSpec)) = Ok (demoSpec, ModeServe).
Proof. apply child_gets_its_spec; [vm_compute; reflexivity|vm_compute; reflexivity|vm_compute; split; congruence|vm_compute; split; congruence|by left]. Defined.

(** ** One session: it prepares a share, ends, and its union is released *)

Definition demoMachine : string := owner "jane" "00c0ffee".
Definition demoPrep : prep := {| pp_key := demoMachine +:+ "/m/0123456789abcdef"; pp_spec := demoSpec; pp_host := "unix:///d"; pp_cache := "rd-00c0ffee-0123456789abcdef-cache" |}.

Lemma demoMachine_ok : machine demoMachine.
Proof. exists "jane"%string, "00c0ffee"%string. done. Qed.

(** The session at a point, with the manager there. *)
Definition at_ (m : Manager) (p : pc) : World := {| wo_m := m; wo_threads := {[ 0%nat := {| th_owner := demoMachine; th_pc := p |} ]} |}.

Lemma at_step m p m' p' : tstep demoMachine m p m' p' → step (at_ m p) (at_ m' p').
Proof.
  intros H. replace (at_ m' p') with {| wo_m := m'; wo_threads := <[0%nat := {| th_owner := demoMachine; th_pc := p' |}]> (wo_threads (at_ m p)) |}.
  - by apply (step_run (at_ m p) 0 demoMachine p).
  - reflexivity.
Qed.

Definition m1 : Manager := Open demoMachine newManager.
Definition m2 : Manager := set_pending (λ p, {[ pp_key demoPrep ]} ∪ p) m1.
Definition m3 : Manager := set_mounts (λ ms, {[ served demoSpec ]} ∪ ms) (startUnion demoPrep m2).2.
Definition m4 : Manager := stamp 0 m3.
Definition m5 : Manager := unclaim (pp_key demoPrep) m4.
Definition m6 : Manager := endSession demoMachine m5.
Definition noMounts (host : string) : option (gset string) := Some ∅.
Definition mounted : World := at_ m5 Idle.
Definition askedWorld : World := at_ m6 (RelHeld 1 (hostsOf demoMachine m6) (mountsOf demoMachine m6) noMounts).

Lemma mounted_reachable : rtc step startWorld mounted.
Proof.
  eapply rtc_l; [exact (step_open startWorld 0 demoMachine demoMachine_ok eq_refl)|].
  change {| wo_m := _; wo_threads := _ |} with (at_ m1 Idle).
  eapply rtc_l; [apply at_step, (t_prepare _ _ demoPrep "/m/0123456789abcdef"); reflexivity|].
  eapply rtc_l; [apply at_step, t_look|]. change (mg_shares m1 !! pp_key demoPrep) with (@None nat). eapply rtc_l; [apply at_step, t_unknown|].
  eapply rtc_l; [apply at_step, (t_claim _ _ _ _ _ m2); vm_compute; reflexivity|].
  eapply rtc_l; [apply at_step, t_dead|]. eapply rtc_l; [apply at_step, t_none|].
  eapply rtc_l; [apply at_step, (t_start _ _ _ 0%nat (startUnion demoPrep m2).2); vm_compute; reflexivity|].
  eapply rtc_l; [apply (step_mounts (at_ _ _) (λ ms, {[ served demoSpec ]} ∪ ms))|].
  eapply rtc_l; [apply at_step, t_ready; vm_compute; reflexivity|]. eapply rtc_l; [apply at_step, t_stamp|]. eapply rtc_l; [apply at_step, t_unclaim|]. apply rtc_refl.
Qed.

Lemma asked_reachable : rtc step startWorld askedWorld.
Proof.
  etrans; [exact mounted_reachable|]. eapply rtc_l; [apply at_step, t_end|]. change (endSession demoMachine m5) with m6.
  eapply rtc_l; [apply at_step, t_asks; vm_compute; discriminate|]. change (mg_prepares m6) with 1.
  eapply rtc_l; [apply at_step, t_lists|]. eapply rtc_l; [apply at_step, (t_answered _ _ _ _ _ noMounts)|]. apply rtc_refl.
Qed.

Lemma one_union_per_share_witness : mg_shares (wo_m mounted) !! pp_key demoPrep = Some 0%nat ∧
  (∀ id l, mg_lives (wo_m mounted) !! id = Some l → lv_supervised l = true → mg_shares (wo_m mounted) !! lv_key l = Some id).
Proof. split; [vm_compute; reflexivity|]. exact (proj1 (one_union_per_share mounted mounted_reachable)). Defined.

(** The release takes it, and has it to unmount. *)
Definition m7 : Manager := (releaseTake demoMachine 1 (heldFrom noMounts (hostsOf demoMachine m6) (mountsOf demoMachine m6)) ∅ m6).1.
Definition releasedWorld : World := at_ m7 (RelUnmount [demoSpec]).

Lemma released_step : step askedWorld releasedWorld.
Proof. apply at_step, (t_takes _ _ _ _ _ _ ∅ m7 [demoSpec]); [vm_compute; discriminate|vm_compute; reflexivity]. Qed.

Lemma unions_outlive_their_use_witness : mg_shares (wo_m releasedWorld) !! pp_key demoPrep = None ∧ ∃ l, mg_lives (wo_m askedWorld) !! 0%nat = Some l ∧
  ((∃ i o r why, pp_key r = pp_key demoPrep ∧ wo_threads askedWorld !! i = Some {| th_owner := o; th_pc := Dead r (Some 0%nat) why (Some 0%nat) |} ∧
      (why = NoAnswer ∨ foundOut askedWorld i o r 0%nat (lv_spec l) NotMounted)) ∨
   (∃ i o r, pp_key r = pp_key demoPrep ∧ wo_threads askedWorld !! i = Some {| th_owner := o; th_pc := Failed r 0%nat |}) ∨
   (∃ i o asked hosts mounts sources answer,
      wo_threads askedWorld !! i = Some {| th_owner := o; th_pc := RelHeld asked hosts mounts sources |} ∧ ownedBy (pp_key demoPrep) o = true ∧
      (∀ j t, wo_threads askedWorld !! j = Some t → th_owner t = o → isOpen (th_pc t) = false) ∧
      lv_prepared l ≤ asked ∧ sources (lv_host l) = Some answer ∧ Merged (lv_spec l) ∉ answer)).
Proof.
  split; [vm_compute; reflexivity|]. eexists. split; [vm_compute; reflexivity|].
  refine (proj1 (unions_outlive_their_use askedWorld releasedWorld (pp_key demoPrep) 0 _ asked_reachable released_step _ _) _); [vm_compute; reflexivity|vm_compute; reflexivity|vm_compute; discriminate].
Defined.

(** While the first session's release has still to unmount, a second session of the
    machine opens and prepares the same share. *)
Definition both (m : Manager) (p q : pc) : World :=
  {| wo_m := m; wo_threads := <[1%nat := {| th_owner := demoMachine; th_pc := q |}]> {[ 0%nat := {| th_owner := demoMachine; th_pc := p |} ]} |}.

Lemma second_step m p q m' q' : tstep demoMachine m q m' q' → step (both m p q) (both m' p q').
Proof.
  intros H. replace (both m' p q') with {| wo_m := m'; wo_threads := <[1%nat := {| th_owner := demoMachine; th_pc := q' |}]> (wo_threads (both m p q)) |}.
  - by apply (step_run (both m p q) 1 demoMachine q).
  - reflexivity.
Qed.

Definition n1 : Manager := Open demoMachine m7.
Definition n2 : Manager := set_pending (λ p, {[ pp_key demoPrep ]} ∪ p) n1.
Definition n3 : Manager := set_mounts (λ ms, {[ served demoSpec ]} ∪ ms) (startUnion demoPrep n2).2.
Definition n4 : Manager := unclaim (pp_key demoPrep) (stamp 1 n3).

Example late_unmount_takes_a_new_union :
  let w := both n4 (RelUnmount [demoSpec]) Idle in let w' := both (unmount demoSpec n4) (RelUnmount []) Idle in
  rtc step startWorld w ∧ step w w' ∧ mg_shares (wo_m w') !! pp_key demoPrep = Some 1%nat ∧ sessionsOf demoMachine (wo_m w') = 1 ∧
  mountedAt demoSpec (wo_m w) = true ∧ mountedAt demoSpec (wo_m w') = false.
Proof.
  cbv zeta. split; [|split_and!; [|vm_compute; reflexivity..]].
  - etrans; [exact asked_reachable|]. eapply rtc_l; [exact released_step|].
    eapply rtc_l; [exact (step_open releasedWorld 1 demoMachine demoMachine_ok eq_refl)|]. change {| wo_m := _; wo_threads := _ |} with (both n1 (RelUnmount [demoSpec]) Idle).
    eapply rtc_l; [apply second_step, (t_prepare _ _ demoPrep "/m/0123456789abcdef"); reflexivity|].
    eapply rtc_l; [apply second_step, t_look|]. replace (mg_shares n1 !! pp_key demoPrep) with (@None nat) by (vm_compute; reflexivity). eapply rtc_l; [apply second_step, t_unknown|].
    eapply rtc_l; [apply second_step, (t_claim _ _ _ _ _ n2); vm_compute; reflexivity|].
    eapply rtc_l; [apply second_step, t_dead|]. replace (mg_shares n2 !! pp_key demoPrep) with (@None nat) by (vm_compute; reflexivity). eapply rtc_l; [apply second_step, t_none|].
    eapply rtc_l; [apply second_step, (t_start _ _ _ 1%nat (startUnion demoPrep n2).2); vm_compute; reflexivity|].
    eapply rtc_l; [apply (step_mounts (both _ _ _) (λ ms, {[ served demoSpec ]} ∪ ms))|].
    eapply rtc_l; [apply (second_step n3), t_ready; vm_compute; reflexivity|].
    eapply rtc_l; [apply second_step, t_stamp|]. eapply rtc_l; [apply second_step, t_unclaim|]. apply rtc_refl.
  - exact (step_run (both n4 (RelUnmount [demoSpec]) Idle) 0 demoMachine _ _ _ eq_refl (t_unmounts _ _ demoSpec [])).
Qed.

(** * A cache layer read, and a batch filled, on small inputs *)

Open Scope Z_scope.

(** A layer with a container's file, one the client's stream wrote, a deletion and a
    replaced directory. *)
Definition file (size ctime : Z) : info := {| in_kind := KFile; in_size := size; in_mtime := 5; in_ctime := ctime; in_perm := 420 |}.
Definition dir (ctime : Z) : info := {| in_kind := KDir; in_size := 0; in_mtime := 5; in_ctime := ctime; in_perm := 493 |}.
Definition demoTop : list layer :=
  [Layer ".wh.old" false (Some (file 0 7)) false true []; Layer "mine" false (Some (file 3 8)) false true [];
   Layer "new" true (Some (dir 9)) false true [Layer ".wh..wh..opq" false (Some (file 0 9)) false true []; Layer "yours" false (Some (file 4 6)) false true []]].
Definition demoApplied : gmap string applied := {[ "/new/yours"%string := {| ap_size := 4; ap_modTime := 5; ap_ctime := 6 |} ]}.
Definition demoChanges : list Change :=
  [deletedChange "/old" 7; stamped true (fileChange "/mine" 3 5) (file 3 8); opaqueChange "/new" 9].

Lemma changes_are_what_entries_say_witness :
  changesIn demoApplied true true (Some demoTop) = Some demoChanges ∧
  (∀ ch, ch ∈ demoChanges → sayings demoApplied true true "" demoTop ch) ∧
  (∀ ch, sayings demoApplied true true "" demoTop ch → covered demoChanges ch) ∧ NoDup (opaques demoChanges).
Proof.
  assert (changesIn demoApplied true true (Some demoTop) = Some demoChanges) as E by (vm_compute; reflexivity).
  split; [exact E|]. exact (changes_are_what_entries_say _ _ _ _ _ E).
Defined.

(** A batch of two files: the container rewrote the first, and the second is longer
    here than the client's. *)
Definition entry (name body : string) : tarEntry :=
  {| te_Name := name; te_Type := TypeReg; te_Perm := 420; te_Size := Z.of_nat (strlen body); te_ModTime := Some 30; te_Linkname := ""; te_body := body; te_bodyErr := None |}.
Definition demoBatch : list tarEntry := [entry "a" "old"; entry "b" "xy"].
Definition demoDisk : MemFS.t := <["a"%string := nFile 420 20 "theirs"]> (<["b"%string := nFile 420 10 "longer"]> ∅).
Definition demoNotes : gmap string applied := {[ "/b"%string := {| ap_size := 6; ap_modTime := 10; ap_ctime := 9 |} ]}.
Definition demoOut : extracted MemFS.t (gmap string applied) :=
  (@Apply MemFS.t MemFS.root mem_fill None None None "" (Some upper) true true demoBatch None demoDisk demoNotes).1.

Lemma demoBatch_plain : Forall (@plain MemFS.t MemFS.root demoDisk) demoBatch.
Proof.
  assert (∀ t, t ∈ ["a"; "b"]%string → @reached MemFS.t MemFS.root demoDisk t) as Hr.
  { intros t [->|[->|?%elem_of_nil]%elem_of_cons]%elem_of_cons; [..|done]; (split; [vm_compute; by intros []|]);
      intros u Hu; vm_compute in Hu; by apply elem_of_nil in Hu. }
  apply Forall_forall. intros e [->|[->|?%elem_of_nil]%elem_of_cons]%elem_of_cons; [..|done];
    (split; [done|]); intros t Ht; vm_compute in Ht; injection Ht as <-; apply Hr; set_solver.
Qed.

Lemma fill_spares_containers_files_witness :
  @node MemFS.t MemFS.root (ex_disk demoOut) "a" = Some (nFile 420 20 "theirs") ∧ containersOwn upper (ex_note demoOut) (ex_disk demoOut) "/a" = true ∧ "/a"%string ∈ ex_kept demoOut.
Proof.
  destruct (@fill_spares_containers_files MemFS.t MemFS.root MemFS.root_laws mem_fill mem_fill_laws mem_layer mem_layer_laws true
    None None None "" demoBatch None demoDisk demoNotes demoOut None "/a" "a" (nFile 420 20 "theirs")) as (H1 & H2 & H3);
    [vm_compute; reflexivity|exact demoBatch_plain|vm_compute; reflexivity|vm_compute; reflexivity|vm_compute; reflexivity|discriminate|vm_compute; reflexivity|].
  split; [exact H1|]. split; [exact H2|]. apply H3; [reflexivity|]. exists (entry "a" "old"). split; [left|split; vm_compute; reflexivity].
Defined.

Lemma batch_lands_or_names_witness :
  @outcome MemFS.t MemFS.root mem_layer (entry "b" "xy") demoOut ∧ @node MemFS.t MemFS.root (ex_disk demoOut) "b" = Some (nFile 420 30 "xy").
Proof.
  split; [|vm_compute; reflexivity].
  apply (@batch_lands_or_names MemFS.t MemFS.root MemFS.root_laws mem_fill mem_fill_laws mem_layer mem_layer_laws true true
    None None None "" demoBatch None demoDisk demoNotes demoOut); [vm_compute; reflexivity|exact demoBatch_plain|repeat constructor| |right; left].
  vm_compute. apply NoDup_cons. split; [|apply NoDup_singleton]. intros ?%list_elem_of_singleton. done.
Defined.

(** * A run that is cleaned

    The theorems on cleaning, applied to a run with a container, a network and two
    volumes, one of which a container of somebody else still names. *)

Open Scope Z_scope.

Definition lines (ws : list string) : string := strings.Join ws (String newline "").

Definition runsVolume (name : string) : Volume :=
  {| vl_Name := name; vl_Labels := {[ ManagedLabel := ManagedShare; OwnerLabel := "jane"%string; ClientLabel := "0badcafe"%string ]} |}.

(** The daemon has two containers: the run's own, and one of somebody else's run. *)
Definition onDaemon : list (string * gmap string string * string) :=
  [("c1"%string, {[ OwnerLabel := "jane"%string; ClientLabel := "0badcafe"%string ]}, "ci-0badcafe"%string);
   ("c2"%string, {[ OwnerLabel := "bob"%string; ClientLabel := "0badcafe"%string ]}, "ci-0badcafe"%string)].
Definition labelsOf (id : string) : gmap string string := default ∅ (snd <$> (fst <$> List.find (λ c, bool_decide (c.1.1 = id)) onDaemon)).

(** The words of the filters of a command line, and what [ps] prints for them. *)
Fixpoint filtersOf (args : list string) : list string :=
  match args with a :: ((b :: rest) as tail) => if bool_decide (a = "--filter"%string) then b :: filtersOf rest else filtersOf tail | _ => [] end.
Definition carries (labels : gmap string string) (f : string) : bool :=
  existsb (λ kv, bool_decide (f = "label=" +:+ kv.1 +:+ "=" +:+ kv.2)) (map_to_list labels).
Definition printPs (args : list string) : string :=
  lines ((λ c : string * gmap string string * string, c.1.1 +:+ "|" +:+ c.2) <$> filter (λ c, forallb (carries c.1.2) (filtersOf args) = true) onDaemon).

(** What docker prints; [named] is what the containers that are left name. *)
Definition answers (named : string) (args : list string) : option string :=
  match args with
  | "ps"%string :: "--all"%string :: "--no-trunc"%string :: rest => Some (printPs rest)
  | "ps"%string :: _ => Some "c2"%string
  | "network"%string :: _ => Some (lines ["ci_default|ci-0badcafe"; "web_default|web"]%string)
  | "volume"%string :: "ls"%string :: _ => Some (lines ["rd-0badcafe-0000000000000001"; "rd-0badcafe-0000000000000002"; "mine"]%string)
  | "volume"%string :: _ :: _ :: _ :: ns => Some (lines ns)
  | _ => Some named
  end.
Definition docker (named : string) : cleanEnv :=
  {| cn_ensure := Some "unix:///run/rd/jane/docker.sock"%string;
     cn_docker := λ _, answers named;
     cn_decode := λ n, Some (if bool_decide (n = "mine"%string) then {| vl_Name := n; vl_Labels := {[ ClientLabel := "0badcafe"%string ]} |} else runsVolume n);
     cn_remove := λ _ _ _, true;
     cn_anonymous := λ id, if bool_decide (id = "c1"%string) then {[ "0123456789abcdef"%string ]} else ∅;
     cn_late := ∅;
     cn_unmounts := λ _, true;
     cn_sources := λ _, Some ∅;
     cn_asking := λ m, m;
     cn_meanwhile := λ m, m;
     cn_mounted := Some [] |}.

Definition cleanedAll := Clean (docker "") true "jane" "0badcafe" newManager.
Definition cleanedSome := Clean (docker "rd-0badcafe-0000000000000002|") true "jane" "0badcafe" newManager.

(** The user's own volume with the client's label stays, and so does the one in use;
    the run then waits for the next sweep. *)
Example cleaning_traces :
  cleanedAll.1 = (Ok tt, [(RmVolume "rd-0badcafe-0000000000000002", true); (RmVolume "rd-0badcafe-0000000000000001", true); (RmNetwork "ci_default", true); (RmContainers ["c1"%string], true)]) ∧
  cleanedSome.1 = (Err (Kept 1), [(RmVolume "rd-0badcafe-0000000000000001", true); (RmNetwork "ci_default", true); (RmContainers ["c1"%string], true)]).
Proof. split; vm_compute; reflexivity. Qed.

Lemma filtersOf_labels fs fmt : filtersOf (mjoin (labelFilter <$> fs) ++ ["--format"%string; fmt]) = (λ kv, "label=" +:+ kv.1 +:+ "=" +:+ kv.2) <$> fs.
Proof. induction fs as [|[k v] fs IH]; [reflexivity|]. cbn. f_equal. exact IH. Qed.

Lemma carries_label (m : gmap string string) k v : map_Forall (λ K _, strings.Contains K "="%char = false) m → strings.Contains k "="%char = false →
  carries m ("label=" +:+ k +:+ "=" +:+ v) = true → m !! k = Some v.
Proof.
  intros Hm Hk. unfold carries. rewrite existsb_exists. intros ([K V] & Hin%list_elem_of_In%elem_of_map_to_list & E%bool_decide_eq_true). cbn [fst snd] in E.
  pose proof (inj (String.append "label=") _ _ E) as E'. change ("=" +:+ v) with (String "=" v) in E'. change ("=" +:+ V) with (String "=" V) in E'. specialize (Hm K V Hin). cbn in Hm.
  assert (strings.Cut (k +:+ String "=" v) "=" = Some (k, v)) as C1 by (by apply Cut_Some).
  assert (strings.Cut (K +:+ String "=" V) "=" = Some (K, V)) as C2 by (by apply Cut_Some). rewrite E', C2 in C1. by injection C1 as -> ->.
Qed.

Lemma twoLabels (account client : string) : map_Forall (λ K _, strings.Contains K "="%char = false) ({[ OwnerLabel := account; ClientLabel := client ]} : gmap string string).
Proof. intros K V [[<- _]|[_ [<- _]%lookup_singleton_Some]]%lookup_insert_Some; reflexivity. Qed.

Lemma docker_filters named : filtersHonoured labelsOf (docker named).
Proof.
  intros fs out c Hfs Hout Hc. assert (c ∈ parseContainers (strings.TrimSpace (printPs (mjoin (labelFilter <$> fs) ++ ["--format"%string; "{{.ID}}|{{.Label " +:+ quoted composeProject +:+ "}}"])))) as Hc'.
  { by injection Hout as <-. }
  unfold printPs in Hc'. rewrite filtersOf_labels in Hc'. clear Hout Hc out. set (fl := _ <$> fs) in Hc'.
  assert (∀ m : gmap string string, map_Forall (λ K _, strings.Contains K "="%char = false) m → forallb (carries m) fl = true → Forall (λ kv, m !! kv.1 = Some kv.2) fs) as Hall.
  { intros m Hm Hf. rewrite forallb_forall in Hf. apply Forall_forall. intros [k v] Hin. rewrite Forall_forall in Hfs. apply carries_label; [done|exact (Hfs _ Hin)|].
    apply Hf, list_elem_of_In, list_elem_of_fmap. by exists (k, v). }
  unfold onDaemon in Hc'. rewrite !filter_cons in Hc'. cbn [fst snd] in Hc'. rewrite filter_nil in Hc'.
  set (m1 := {[ OwnerLabel := "jane"%string; ClientLabel := "0badcafe"%string ]} : gmap string string) in *. set (m2 := {[ OwnerLabel := "bob"%string; ClientLabel := "0badcafe"%string ]} : gmap string string) in *.
  assert (c = {| co_ID := "c1"; co_Project := "ci-0badcafe" |} ∧ forallb (carries m1) fl = true ∨ c = {| co_ID := "c2"; co_Project := "ci-0badcafe" |} ∧ forallb (carries m2) fl = true) as [[-> Hf]|[-> Hf]].
  { destruct (decide (forallb (carries m1) fl = true)), (decide (forallb (carries m2) fl = true)); vm_compute in Hc'; set_solver. }
  - change (labelsOf _) with m1. apply Hall; [apply twoLabels|done].
  - change (labelsOf _) with m2. apply Hall; [apply twoLabels|done].
Qed.

Lemma cleaning_removes_only_the_runs_witness :
  Forall (λ e, permitted (docker "rd-0badcafe-0000000000000002|") true "jane" "0badcafe" cleanedSome.2 e.1) cleanedSome.1.2 ∧ labelsOf "c1" !! OwnerLabel = Some "jane"%string.
Proof.
  destruct (cleaning_removes_only_the_runs (docker "rd-0badcafe-0000000000000002|") true "jane" "0badcafe" labelsOf newManager cleanedSome.1.1 cleanedSome.1.2 cleanedSome.2
              (docker_filters _) eq_refl) as (H1 & H2 & _).
  split; [exact H1|]. apply (proj1 (H2 ["c1"%string] true "c1"%string ltac:(vm_compute; do 2 right; left) ltac:(left))).
Defined.

Definition janesDue : due := {| du_key := ("jane", "0badcafe")%string; du_id := 0; du_port := 30001; du_token := 1 |}.
#[local] Instance janesPorts : RunPorts Ports portEnv := accountPorts DefaultMapping.

Lemma cleaned_runs_are_gone_witness :
  sweepOne (is_ok cleanedAll.1.1) janesDue noRuns = (noRuns, None) ∨
  (∃ vols, listVolumes (docker "") "0badcafe" = Some vols ∧ ∀ v, v ∈ vols → runOwns v "jane" "0badcafe" = true → (RmVolume (vl_Name v), true) ∈ cleanedAll.1.2).
Proof.
  destruct (cleaned_runs_are_gone (docker "") true newManager cleanedAll.1.1 cleanedAll.1.2 cleanedAll.2 janesDue noRuns eq_refl) as [H|[H _]]; [left; exact H|right; exact H].
Defined.
