(* ===== verification/DaemonExamples.v ===== *)
(** * The daemons of a workspace on small runs, and what a workspace says of itself *)

From Stdlib Require Import Ascii.
From S2P Require Import Prelude GoStrings GoTime Records KeyFiles Elevate DaemonPlan Daemons DaemonEnsure AccountPorts Names AccountsProofs Info.
Open Scope Z_scope.

(** ** Elevation *)

Definition bind (source destination : string) : Mount := {| mt_Type := "bind"; mt_Name := ""; mt_Source := source; mt_Destination := destination; mt_ReadOnly := false |}.
Definition demoSelf : ContainerInfo :=
  {| ci_ID := "abc"; ci_Name := "/workspace"; ci_Image := "rd:1"; ci_Mounts := [bind "/srv" "/srv"; bind "/run/docker.sock" "/sock"; bind "/x" "/var/run/host-docker.sock"];
     ci_Env := ["TZ=UTC"%string; "WORKSPACE_ELEVATED="%string] |}.
Definition demoChild : RunSpec :=
  {| rs_Name := "workspace.elevated"; rs_Image := "rd:1"; rs_Network := "container:abc"; rs_Entrypoint := ""; rs_Privileged := true; rs_Detach := false; rs_Remove := true;
     rs_Labels := []; rs_Mounts := [bind "/srv" "/srv"]; rs_Env := ["WORKSPACE_IMAGE=rd:1"; "TZ=UTC"; "WORKSPACE_ELEVATED=1"]%string; rs_Tmpfs := []; rs_Command := [] |}.

Lemma elevated_child_is_confined_witness :
  elevatePlan demoSelf "" = Ok demoChild ∧
  (∀ m, m ∈ rs_Mounts demoChild → m ∈ ci_Mounts demoSelf ∧ mt_Destination m ≠ orText "" DefaultHostSocket ∧
     strings.HasSuffix (mt_Destination m) "/docker.sock" = false ∧ strings.HasSuffix (mt_Source m) "/docker.sock" = false) ∧
  (∀ child hostSocket', ci_Env child = rs_Env demoChild → ∀ s, elevatePlan child hostSocket' ≠ Ok s).
Proof.
  assert (elevatePlan demoSelf "" = Ok demoChild) as E by (vm_compute; reflexivity). split; [exact E|]. exact (elevated_child_is_confined demoSelf "" demoChild E).
Defined.

(** ** A daemon that is out of date and stopped is replaced, and one that is current stays *)

Definition demoOpts : Options := {| op_Image := "rd:1"; op_Workspace := "ws"; op_Mounts := []; op_StorageDriver := "overlay2" |}.
Definition demoSha (s : string) : string := Itoa (Z.of_nat (strlen s)) +:+ "-padding-padding-padding".
Definition stale : answers :=
  {| an_ask := λ past q, match q with
       | QLabel _ l => Some (if bool_decide (l = specLabel) then "old"%string else "overlay2"%string)
       | QStatus _ => Some (if bool_decide (EDid (CRemove (ContainerName "jane")) None ∈ past) then ""%string else "exited"%string)
       | QPid _ => Some "42"%string
       | QStat _ => Some ""%string
       | QVersion _ => Some "28"%string
       | QVolumes _ => Some "rd-dind-jane-lib"%string
       | _ => None
       end;
     an_do := λ _ _, None; an_clock := λ past, Z.of_nat (length past) * Second; an_given := λ _, false |}.
Definition janesRun : list event * res startError Daemon := exec stale [] (start demoOpts demoSha 0 "jane").

Lemma start_replaces_only_idle_witness :
  EDid (CRemove "rd-dind-jane") None ∈ janesRun.1 ∧ (∀ n e, EDid (CVolumeRemove n) e ∉ janesRun.1) ∧
  ∀ tr1 n e tr2, janesRun.1 = (tr1 ++ EDid (CRemove n) e :: tr2)%list → ∃ spec, Plan demoSha "jane" demoOpts = Ok spec ∧ n = ContainerName "jane" ∧ replaceable demoOpts demoSha "jane" spec tr1.
Proof.
  split; [apply (bool_decide_eq_true_1 (EDid (CRemove "rd-dind-jane") None ∈ janesRun.1)); vm_compute; reflexivity|].
  apply (start_replaces_only_idle demoOpts demoSha 0 "jane" janesRun.1 janesRun.2). apply (exec_runs stale []). unfold janesRun. symmetry. apply surjective_pairing.
Defined.

(** The label is read, and then the daemon's state is not: its container goes, although
    it may be running. *)
Definition faltering : answers :=
  {| an_ask := λ past q, match q with
       | QLabel _ l => Some (if bool_decide (l = specLabel) then "old"%string else "overlay2"%string)
       | _ => None
       end;
     an_do := λ _ _, None; an_clock := λ past, Z.of_nat (length past) * Second; an_given := λ _, true |}.
Example unanswered_status_replaces :
  EDid (CRemove (ContainerName "jane")) None ∈ (exec faltering [] (start demoOpts demoSha 0 "jane")).1 ∧
  EAsked (QStatus (ContainerName "jane")) None ∈ (exec faltering [] (start demoOpts demoSha 0 "jane")).1.
Proof. split; apply (bool_decide_eq_true_1 (_ ∈ _)); vm_compute; reflexivity. Qed.

Lemma start_ends_witness : janesRun.2 ≠ Err ErrFuel.
Proof.
  apply (start_ends demoOpts demoSha 0 "jane" janesRun.1); [apply (exec_runs stale []); unfold janesRun; symmetry; apply surjective_pairing|].
  intros t0 ts E. assert (times janesRun.1 = [10 * Second]) as E' by (vm_compute; reflexivity). rewrite E' in E. injection E as <- <-. exact I.
Defined.

Definition janesReset : list event * option resetError := exec stale [] (Reset demoOpts demoSha "jane" true).
Lemma reset_removes_only_labelled_witness :
  EDid (CVolumeRemove "rd-dind-jane-lib") None ∈ janesReset.1 ∧
  ∃ out, EAsked (QVolumes (Some "jane"%string)) (Some out) ∈ janesReset.1 ∧ "rd-dind-jane-lib"%string ∈ Fields out.
Proof.
  assert (EDid (CVolumeRemove "rd-dind-jane-lib") None ∈ janesReset.1) as Hin by (apply (bool_decide_eq_true_1 (EDid (CVolumeRemove "rd-dind-jane-lib") None ∈ janesReset.1)); vm_compute; reflexivity).
  split; [exact Hin|]. eapply (reset_removes_only_labelled demoOpts demoSha "jane" true janesReset.1 janesReset.2); [|exact Hin].
  apply (exec_runs stale []). unfold janesReset. symmetry. apply surjective_pairing.
Defined.

Definition janesSpec : Spec := match Plan demoSha "jane" demoOpts with Ok s => s | Err _ => planned "jane" demoOpts end.
Lemma label_decides_replacement_witness :
  exec stale [] (reconcile demoOpts demoSha "jane" janesSpec) =
    ([EAsked (QLabel "rd-dind-jane" specLabel) (Some "old"%string); EAsked (QLabel "rd-dind-jane" storageLabel) (Some "overlay2"%string);
      EAsked (QStatus "rd-dind-jane") (Some "exited"%string); EDid (CRemove "rd-dind-jane") None], tt) ∧
  ∃ e, [EDid (CRemove "rd-dind-jane") None] = [EDid (CRemove (sp_Name janesSpec)) e].
Proof.
  assert (exec stale [] (reconcile demoOpts demoSha "jane" janesSpec) =
    ([EAsked (QLabel "rd-dind-jane" specLabel) (Some "old"%string); EAsked (QLabel "rd-dind-jane" storageLabel) (Some "overlay2"%string);
      EAsked (QStatus "rd-dind-jane") (Some "exited"%string); EDid (CRemove "rd-dind-jane") None], tt)) as E by (vm_compute; reflexivity).
  split; [exact E|]. pose proof (exec_runs _ _ _ _ _ E) as Hr. assert (Plan demoSha "jane" demoOpts = Ok janesSpec) as Hp by (vm_compute; reflexivity).
  destruct (label_decides_replacement demoSha demoOpts "jane" janesSpec "old" _ tt Hp Hr) as [_ H].
  apply (H "exited"%string); [discriminate| |discriminate|reflexivity].
  apply (bool_decide_eq_true_1 ((specLabel +:+ "=" +:+ "old") ∉ sp_Labels janesSpec)). vm_compute. reflexivity.
Defined.

(** ** Two sessions of one account arrive together *)

Definition jane : string := "jane".
Definition started : Daemon := {| dm_Account := "jane"; dm_PID := 42; dm_Socket := SocketPathFor "jane"; dm_checked := zeroTime |}.
Definition two (p1 p2 : pc) : gmap nat thread := <[1%nat := {| th_account := jane; th_pc := p2 |}]> {[ 0%nat := {| th_account := jane; th_pc := p1 |} ]}.
Definition pendingM : Manager := {| mg_daemons := ∅; mg_byName := ∅; mg_pending := {[ jane := 0%nat ]}; mg_closed := ∅; mg_channels := 1; mg_failed := ∅ |}.
Definition leading : World := {| wo_m := pendingM; wo_threads := two (PStart 0) (PWait 0); wo_now := 100; wo_confirmed := [] |}.

Lemma run1 w w' t a p m' p' c : wo_threads w !! t = Some {| th_account := a; th_pc := p |} → tstep (wo_now w) a (wo_m w) p m' p' c →
  w' = {| wo_m := m'; wo_threads := <[t := {| th_account := a; th_pc := p' |}]> (wo_threads w); wo_now := wo_now w;
          wo_confirmed := match c with Some id => (id, wo_now w) :: wo_confirmed w | None => wo_confirmed w end |} → step w w'.
Proof. intros H1 H2 ->. by eapply step_run. Qed.

Lemma leading_reachable : rtc step (startWorld 100) leading.
Proof.
  eapply rtc_l; [exact (step_call (startWorld 100) 0 jane eq_refl)|].
  eapply rtc_l; [eapply (run1 _ _ 0 jane PLook); [reflexivity|by apply t_unknown|reflexivity]|].
  eapply rtc_l; [eapply (step_call _ 1 jane); reflexivity|].
  eapply rtc_l; [eapply (run1 _ _ 0 jane PGate _ (PStart 0)); [reflexivity|apply (t_lead _ _ _ 0%nat pendingM); reflexivity|reflexivity]|].
  eapply rtc_l; [eapply (run1 _ _ 1 jane PLook); [reflexivity|by apply t_unknown|reflexivity]|].
  eapply rtc_l; [eapply (run1 _ _ 1 jane PGate); [reflexivity|by apply (t_wait _ _ _ 0%nat)|reflexivity]|].
  apply rtc_refl.
Qed.

Lemma one_start_per_account_witness :
  wo_threads leading !! 1%nat = Some {| th_account := jane; th_pc := PWait 0 |} ∧
  (0%nat ∈ mg_closed (wo_m leading) ∨ ∃ t' a' p', wo_threads leading !! t' = Some {| th_account := a'; th_pc := p' |} ∧ holds p' = Some 0%nat).
Proof.
  split; [reflexivity|]. destruct (one_start_per_account 100 leading leading_reachable) as [_ H]. exact (H 1%nat jane 0%nat eq_refl).
Defined.

Definition doneM : Manager := (finish 100 jane (Ok started) false pendingM).1.
Definition servedW : World := {| wo_m := closeWait 0 doneM; wo_threads := two (PDone 100 (Ok 0%nat)) (PWait 0); wo_now := 100; wo_confirmed := [(0%nat, 100)] |}.

Lemma served_reachable : rtc step (startWorld 100) servedW.
Proof.
  etrans; [exact leading_reachable|].
  eapply rtc_l; [eapply (run1 _ _ 0 jane (PStart 0)); [reflexivity|by apply (t_started _ _ _ 0%nat started)|reflexivity]|].
  eapply rtc_l; [eapply (run1 _ _ 0 jane (PEnd 0 (Ok started) false)); [reflexivity|apply (t_finish _ _ _ 0%nat (Ok started) false doneM (Ok 0%nat)); vm_compute; reflexivity|reflexivity]|].
  eapply rtc_l; [eapply (run1 _ _ 0 jane (PClose 0 100 (Ok 0%nat))); [reflexivity|by apply t_close|reflexivity]|].
  apply rtc_refl.
Qed.

Lemma handed_out_daemons_answered_witness :
  ∃ d, mg_daemons (wo_m servedW) !! 0%nat = Some d ∧ dm_Account d = jane ∧ dm_Socket d = SocketPathFor jane.
Proof. destruct (handed_out_daemons_answered 100 servedW 0 jane 100 0) as [H _]; [lia|exact served_reachable|reflexivity|exact H]. Defined.

(** ** What a workspace says of itself *)

(** A run with no port of its own yet, two paths, and a key of a newer agent. *)
Definition demoInfo : Info :=
  {| if_User := "jane"; if_UID := 1000; if_GID := 1000; if_NFSPort := 0; if_Docker := ""; if_Agent := "1.2 (dev)"; if_DaemonPaths := ["/srv"; "/data"]%string;
     if_Mode := "shared"; if_Storage := ""; if_Union := "ready"; if_Now := 1700000000000000000; if_Client := "01234567"; if_HostGateway := "172.17.0.1";
     if_Extra := {[ "WORKSPACE_COLOUR" := "a=b" ]} |}%string.

Lemma tidy_check v : negb (strings.Contains v newline) && ends v = true → tidy v.
Proof. intros [H1 H2]%andb_true_iff. apply negb_true_iff in H1. by split. Qed.

Lemma demoInfo_tellable : tellable demoInfo.
Proof.
  split; cbn [if_User if_UID if_GID if_NFSPort if_Docker if_Agent if_DaemonPaths if_Mode if_Storage if_Union if_Now if_Client if_HostGateway if_Extra demoInfo].
  - done.
  - repeat (apply Forall_cons; split); [by apply tidy_check; vm_compute..|done].
  - repeat (apply Forall_cons; split); [lia..|done].
  - right. by split.
  - intros _. vm_compute. reflexivity.
  - repeat (apply Forall_cons; split); [split_and!; [done|vm_compute; reflexivity..|apply tidy_check; vm_compute; reflexivity]..|done].
  - intros k v [<- <-]%lookup_singleton_Some. split_and!; [split_and!; vm_compute; reflexivity|apply tidy_check; vm_compute; reflexivity| |];
      intros H; apply (bool_decide_eq_true_2 _) in H; vm_compute in H; discriminate.
Qed.

Lemma info_comes_back_witness : ParseInfo (Encode demoInfo) false = Ok (core demoInfo "01234567" "172.17.0.1" {[ "WORKSPACE_COLOUR"%string := "a=b"%string ]}).
Proof. rewrite (info_comes_back demoInfo demoInfo_tellable). reflexivity. Defined.
