(* ===== verification/EnrolExamples.v ===== *)
(** * Managing and redeeming on a small workspace

    Jane's account, with her own requests and a token, each theorem applied where its
    hypotheses hold. *)

From Stdlib Require Import Ascii.
From S2P Require Import Prelude GoStrings GoTime Records Names Mounts AccountPorts Ephemeral KeyFiles KeyFilesProofs Accounts AccountsProofs AccountsTheorems Tokens EnrolPolicy Manage ManageProofs Redeem AdminProofs Logins AccountExamples.
Open Scope Z_scope.

Definition demoHash (s : string) : string := s.

Definition idleRuns : Registry Ports :=
  {| rg_Max := 0; rg_Grace := 0; rg_runs := ∅; rg_ports := {| po_loaded := false; po_assigned := ∅; po_next := 0; po_disk := None |}; rg_ids := 0;
     rg_gen := 0; rg_written := 0; rg_disk := [] |}.

Definition quiet (wait : list provisionEvent) (state : nat → stateEnv) : serverEnv :=
  {| ev_state := state; ev_writable := true; ev_listable := true; ev_now := 0; ev_drawn := [("abcdefgh", "s3cret")]%string; ev_wait := wait; ev_timedOut := false;
     ev_running := 0; ev_reset := true; ev_shared := false; ev_home := HomeGone; ev_userGone := true;
     ev_ports := {| pv_readable := true; pv_writable := true; pv_Reserved := λ _, false; pv_Preferred := None |}; ev_recordable := true |}.
Definition calm : serverEnv := quiet [] (λ _, usable).

Definition jane : sessionAccount := {| sa_name := "jane"; sa_fingerprint := "SHA256:a" |}.
Definition ask (op fp : string) : Request :=
  {| rq_Op := op; rq_Account := ""; rq_Unbound := false; rq_Expires := 0; rq_Note := "laptop"; rq_ID := ""; rq_Key := ""; rq_Fingerprint := fp; rq_Force := true; rq_Purge := false |}.

Definition serverOf (s : Store demoKey) (d : store) (admins : gset string) : Server demoKey :=
  {| sv_accounts := s; sv_tokens := Some d; sv_Admins := admins; sv_AdminOnlyTokens := false; sv_runs := idleRuns; sv_resets := [] |}.

Abbreviation demoOperate := (operate lowerASCII demoParse demoMarshal demoFingerprint demoHash DefaultMapping calm (λ _, 0)).

(** ** Jane is no admin *)

Definition plainServer : Server demoKey := serverOf janes3 ∅ ∅.
Definition minted : Token := mintToken demoHash "jane" "jane" "laptop" "s3cret" 0 DefaultTTL.

Lemma jane_mints : demoOperate jane (ask OpTokenCreate "") plainServer = (RToken (tokenInfo "abcdefgh.s3cret" ("abcdefgh"%string, minted)), on_tokens {[ "abcdefgh.json"%string := Some minted ]} plainServer).
Proof. vm_compute. reflexivity. Qed.

Lemma nonadmin_manages_itself_witness : confined "jane" plainServer (on_tokens {[ "abcdefgh.json"%string := Some minted ]} plainServer).
Proof.
  refine (proj1 (nonadmin_manages_itself lowerASCII demoParse demoMarshal demoFingerprint demoHash DefaultMapping calm (λ _, 0) jane (ask OpTokenCreate "") plainServer _ _ _ _ _ jane_mints)).
  - intros d [= <-] id. apply Nat.le_0_l.
  - vm_compute. reflexivity.
  - vm_compute. reflexivity.
Defined.

Lemma self_tokens_bounded_witness : liveTokens 0 "jane" {[ "abcdefgh.json"%string := Some minted ]} ≤ maxSelfTokens.
Proof.
  assert (single ∅) as H1 by (intros id; apply Nat.le_0_l).
  assert (Forall (λ x, ValidID x.1 = true ∧ copies x.1 ∅ = 0%nat) (ev_drawn calm)) as H2 by (apply Forall_singleton; split; vm_compute; reflexivity).
  destruct (self_tokens_bounded lowerASCII demoParse demoMarshal demoFingerprint demoHash DefaultMapping calm (λ _, 0) jane (ask OpTokenCreate "") plainServer ∅ _ _ eq_refl H1 H2 eq_refl jane_mints) as (d' & E & H & _).
  injection E as <-. exact H.
Defined.

(** ** Jane is the only admin, with two keys: one of them may go *)

Definition adminServer : Server demoKey := serverOf janeAdded ∅ {[ "jane"%string ]}.

Lemma janeAdded_reachable : demoReachable (worldOf {["jane"%string]} janeAdded).
Proof.
  destruct janes3_reachable as (w0 & H0 & Hs). exists w0. split; [exact H0|]. eapply rtc_r; [exact Hs|].
  split; [eapply (step_append _ _ _ _ usable "Jane" Ecdsa " second  laptop" janes3); apply surjective_pairing|apply jane_fits; vm_compute; reflexivity].
Qed.

Lemma janeAdded_settled : settled lowerASCII demoParse demoFingerprint janeAdded.
Proof. exists usable, []. vm_compute. reflexivity. Qed.

Definition twoKeys : string := "# work" +:+ String newline ("ssh-ed25519 AAAA jane@laptop" +:+ String newline ("ecdsa-sha2-nistp256 BBBB second laptop" +:+ String newline "")).
Lemma janeAdded_enrolled : st_disk janeAdded !! st_EnrolledDir janeAdded = Some {[ "jane.pub"%string := twoKeys ]}.
Proof. vm_compute. reflexivity. Qed.

Lemma janeAdded_ok (d : gmap string string) : st_disk janeAdded !! st_EnrolledDir janeAdded = Some d → dirOk d.
Proof.
  rewrite janeAdded_enrolled. intros [= <-] n text Ht. apply lookup_singleton_Some in Ht as [<- <-]. eexists. split; [vm_compute; reflexivity|]. repeat constructor.
Qed.

Definition oneKey : string := "# work" +:+ String newline ("ecdsa-sha2-nistp256 BBBB second laptop" +:+ String newline "").
Definition janeLess : Store demoKey := snd (RemoveKey lowerASCII demoParse demoFingerprint usable "jane" "SHA256:a" janeAdded).
Lemma janeLess_enrolled : st_disk janeLess !! st_EnrolledDir janeLess = Some {[ "jane.pub"%string := oneKey ]}.
Proof. vm_compute. reflexivity. Qed.

Lemma jane_removes : demoOperate jane (ask OpKeyRemove "SHA256:a") adminServer = (RDone [], on_accounts janeLess adminServer).
Proof. vm_compute. reflexivity. Qed.

Example the_last_key_stays : fst (demoOperate jane (ask OpKeyRemove "SHA256:b") (on_accounts janeLess adminServer)) = RError (LastAdmin "jane").
Proof. vm_compute. reflexivity. Qed.

Lemma some_admin_keeps_a_key_witness : ∃ b, b ∈ ({[ "jane"%string ]} : gset string) ∧ keysOf janeLess b ≠ [].
Proof.
  apply (some_admin_keeps_a_key lowerASCII demoParse demoMarshal demoFingerprint demoHash DefaultMapping lowerASCII_lower (worldOf {["jane"%string]} janeAdded)
           janeAdded_reachable janeAdded_settled janeAdded_ok calm (λ _, 0) jane (ask OpKeyRemove "SHA256:a") adminServer "jane" (RDone []) (on_accounts janeLess adminServer)).
  - reflexivity.
  - vm_compute. reflexivity.
  - intros s name text [->| ->] Ht; unfold fileAt in Ht; cbn [serverOf adminServer on_accounts sv_accounts] in Ht; rewrite ?janeAdded_enrolled, ?janeLess_enrolled in Ht; cbn [mbind option_bind] in Ht;
      apply lookup_singleton_Some in Ht as [_ <-]; apply short_text; vm_compute; reflexivity.
  - left. reflexivity.
  - by apply elem_of_singleton.
  - vm_compute. discriminate.
  - exact jane_removes.
Defined.

(** Two admins with a key each, who remove one another at once: both requests pass
    their checks before either removal, and no admin has a key afterwards. *)
Definition joeFile : string := "ecdsa-sha2-nistp256 BBBB joe@laptop" +:+ String newline "".
Definition bothFiles : gmap string string := <["jane.pub"%string := janeFile]> {["joe.pub"%string := joeFile]}.
Definition bothStore : Store demoKey :=
  snd (demoSwap (ensured "joe" "rd-joe" "/home/rd-joe" (ensured "jane" "rd-jane" "/home/rd-jane" (snd (demoSwap (storeWith bothFiles)))))).
Definition bothServer : Server demoKey := serverOf bothStore ∅ {[ "jane"; "joe" ]}%string.
Definition joe : sessionAccount := {| sa_name := "joe"; sa_fingerprint := "SHA256:b" |}.
Abbreviation demoRemoveChecked := (keyRemoveChecked demoFingerprint calm).
Abbreviation demoRemoveGo := (keyRemoveGo lowerASCII demoParse demoFingerprint calm).

Example two_removals_at_once_lock_all_out :
  (length (keysOf bothStore "jane"), length (keysOf bothStore "joe")) = (1%nat, 1%nat) ∧
  demoRemoveChecked jane "joe"%string "SHA256:b" true bothServer = None ∧
  demoRemoveChecked joe "jane"%string "SHA256:a" true bothServer = None ∧
  let '(r1, sv1) := demoRemoveGo "joe" "SHA256:b" bothServer in
  let '(r2, sv2) := demoRemoveGo "jane" "SHA256:a" sv1 in
  (r1, r2) = (RDone [], RDone []) ∧ keysOf (sv_accounts sv2) "jane" = [] ∧ keysOf (sv_accounts sv2) "joe" = [].
Proof. split_and!; [vm_compute; reflexivity..|]. vm_compute. split_and!; reflexivity. Qed.

(** ** Redeeming *)

Definition boundTo (account : string) : Token := mintToken demoHash account "jane" "" "s3cret" 0 DefaultTTL.
Definition withToken (account : string) : Server demoKey := serverOf janes3 {[ "abcdefgh.json"%string := Some (boundTo account) ]} ∅.
Definition alone (e : serverEnv) : redeemEnv := {| rv_server := e; rv_allow := true; rv_before := λ d, d; rv_claimed := 5; rv_nonce := "nonce"; rv_meanwhile := λ d, d; rv_removable := true |}.
Definition bearer : redeemer demoKey := {| rd_id := "abcdefgh"; rd_key := Ecdsa |}.
Definition present : RedeemRequest := {| rr_Secret := "s3cret"; rr_Account := ""; rr_Comment := "phone" |}.
Abbreviation demoRedeem := (redeem lowerASCII demoParse demoMarshal demoFingerprint demoHash).

Lemma janes3_fit : fit janes3.
Proof.
  split; [|exact janes_ok]. rewrite janes3_dirs. intros dir ->%list_elem_of_singleton. vm_compute. by eexists.
Qed.

Lemma janes3_unheld : unheldByOperators lowerASCII demoParse demoFingerprint Ecdsa janes3.
Proof.
  intros name dir file. rewrite janes3_dirs. intros ->%list_elem_of_singleton. unfold fileFor. assert (keyFiles lowerASCII janes3 "/keys" = Ok []) as -> by (vm_compute; reflexivity). discriminate.
Qed.

Lemma demo_redeemable account e : (∀ i, ev_state e i = usable) → AccountName lowerASCII account = Some account → redeemable lowerASCII demoParse demoFingerprint (alone e) bearer (withToken account).
Proof.
  intros He Ha. split; cbn [alone rv_server bearer rd_key withToken serverOf sv_accounts sv_tokens].
  - intros i. rewrite He. done.
  - exact janes3_fit.
  - rewrite janes3_dirs. vm_compute. intros H. by apply list_elem_of_singleton in H.
  - exact janes3_unheld.
  - intros d n t [= <-] [_ [= <-]]%lookup_singleton_Some _. exact Ha.
Qed.

Definition afterPhone : Server demoKey := snd (demoRedeem (alone calm) bearer present (withToken "jane")).
Lemma phone_redeems : demoRedeem (alone calm) bearer present (withToken "jane") = (Redeemed "jane" false false, false, afterPhone).
Proof. vm_compute. reflexivity. Qed.

Lemma redemption_enrols_the_bearer_witness :
  enrolledKeys demoParse (sv_accounts afterPhone) "jane" = (enrolledKeys demoParse (sv_accounts (withToken "jane")) "jane" ++ [Ecdsa])%list ∧
  stillAuthorized demoFingerprint (sv_accounts afterPhone) "jane" Ecdsa = true.
Proof.
  destruct (redemption_enrols_the_bearer lowerASCII demoParse demoMarshal demoFingerprint demoHash demo_plain demo_start demo_parse lowerASCII_lower (alone calm) bearer present (withToken "jane") _ _ _ _ _
              (demo_redeemable "jane" calm (λ _, eq_refl) eq_refl) phone_redeems) as (_ & H1 & _ & _ & H2 & _).
  split; [|exact (H2 eq_refl)]. destruct H1 as [H1|[H1 _]]; [exact H1|]. vm_compute in H1. discriminate H1.
Defined.



(** Where the accounts cannot be read again after the key has been written, the
    redemption fails and the token is put back, but the key stays. *)
Definition unread : serverEnv := quiet [] (λ i, match i with O => {| se_readable := false; se_writable := true |} | _ => usable end).
Example unread_enrolment_stays :
  let '(reply, _, sv') := demoRedeem (alone unread) bearer present (withToken "jane") in
  reply = RedeemRefused NotEnrolled ∧ sv_tokens sv' = sv_tokens (withToken "jane") ∧ enrolledKeys demoParse (sv_accounts sv') "jane" = [Ed25519; Ecdsa].
Proof. vm_compute. split_and!; reflexivity. Qed.

(** ** Jane's key is removed while she is logged in *)

Definition offered : conn demoKey := snd (authenticate lowerASCII demoFingerprint janes3 (λ _, false) "Jane" Ed25519 tracked).
Definition signed : conn demoKey := loggedIn demoFingerprint demoMarshal janes3 Ed25519 offered.
Definition thrownOut : loginWorld (key := demoKey) :=
  {| lw_store := janeRemoved; lw_conns := {[ 0%nat := sweepConn demoFingerprint janeRemoved signed ]}; lw_due := 0; lw_sweep := None |}.

Lemma thrownOut_reachable : login_reachable lowerASCII demoFingerprint demoMarshal thrownOut.
Proof.
  exists janes3. set (w0 := {| lw_store := janes3; lw_conns := ∅; lw_due := 0; lw_sweep := None |}).
  eapply rtc_l; [apply (login_track lowerASCII demoFingerprint demoMarshal w0 0); reflexivity|].
  eapply rtc_l; [eapply (login_offer _ _ _ _ 0 tracked (λ _, false) "Jane" Ed25519); reflexivity|].
  eapply rtc_l; [eapply (login_sign _ _ _ _ 0 offered Ed25519); [reflexivity..|vm_compute; reflexivity]|].
  eapply rtc_l; [apply (login_sync _ _ _ _ janeRemoved)|].
  eapply rtc_l; [eapply (login_sweep _ _ _ _ 0 [0%nat]); [reflexivity..|vm_compute; reflexivity]|].
  eapply rtc_l; [eapply (login_sweep_one _ _ _ _ 0 [] signed); reflexivity|].
  eapply rtc_l; [apply login_sweep_end; reflexivity|]. apply rtc_refl.
Qed.

Lemma revoked_keys_are_disconnected_witness : cn_closed (sweepConn demoFingerprint janeRemoved signed) = true.
Proof.
  destruct (revoked_keys_are_disconnected lowerASCII demoFingerprint demoMarshal thrownOut 0 (sweepConn demoFingerprint janeRemoved signed) thrownOut_reachable eq_refl eq_refl) as [H _]; [reflexivity|].
  destruct H as (name & k & Hw & [H|[H|[H _]]]); [vm_compute; reflexivity| |exact H|].
  - vm_compute in Hw. injection Hw as <- <-. vm_compute in H. discriminate H.
  - vm_compute in H. discriminate H.
Defined.
