(* ===== verification/Config.v ===== *)
(** * How a workspace is reached and how a session behaves (client/internal/config)

    The configuration file and its two forms, the layers a setting is taken from, the
    transport a host names, the list of host ports, and the settings two sessions are
    compared by.  The environment, [time.ParseDuration], a duration's text, [url.Parse]
    and what reading, writing and renaming a file answer are arguments; the file is the
    [File] its JSON holds. *)
From Stdlib Require Import Ascii.
From S2P Require Import Prelude GoStrings GoTime Records Names Mounts Json AccountPorts KeyFiles KeyFilesProofs.

Open Scope Z_scope.

(** ** The file *)

Record Machine := {
  mc_Backend : string;
  mc_Name : string;
  mc_Image : string;
  mc_Rootfs : string;
  mc_CPUs : Z;
  mc_MemoryMB : Z;
  mc_Proxy : string;
  mc_Generation : string;
  mc_Broker : bool;
  mc_HostKey : string
}.

Record Workspace := {
  ws_Host : string;
  ws_Port : Z;
  ws_CAFile : string;
  ws_Insecure : bool;
  ws_User : string;
  ws_Endpoint : string;
  ws_Watch : string;
  ws_Consistency : string;
  ws_ConsistencyPaths : gmap string string;
  ws_WatchBudget : Z;
  ws_CacheFiles : Z;
  ws_CacheBytes : Z;
  ws_Prefetch : string;
  ws_HostPorts : string;
  ws_WatchExclude : list string;
  ws_IdleTimeout : string;
  ws_DaemonIdle : string;
  ws_DaemonStandby : string;
  ws_ShareOwner : string;
  ws_ShareFMask : string;
  ws_ShareDMask : string;
  ws_Machine : option Machine
}.

Definition noWorkspace : Workspace :=
  {| ws_Host := ""; ws_Port := 0; ws_CAFile := ""; ws_Insecure := false; ws_User := ""; ws_Endpoint := ""; ws_Watch := ""; ws_Consistency := "";
     ws_ConsistencyPaths := ∅; ws_WatchBudget := 0; ws_CacheFiles := 0; ws_CacheBytes := 0; ws_Prefetch := ""; ws_HostPorts := ""; ws_WatchExclude := [];
     ws_IdleTimeout := ""; ws_DaemonIdle := ""; ws_DaemonStandby := ""; ws_ShareOwner := ""; ws_ShareFMask := ""; ws_ShareDMask := ""; ws_Machine := None |}.

Record File := {
  fl_Workspace : Workspace;
  fl_Workspaces : gmap string Workspace;
  fl_Default : string
}.

Definition noFile : File := {| fl_Workspace := noWorkspace; fl_Workspaces := ∅; fl_Default := "" |}.

Definition FileNames (f : File) : list string := sort_strings (map_to_list (fl_Workspaces f)).*1.

Inductive configError :=
| UnknownWorkspace (name : string)
| SeveralWorkspaces
| NoName
| BadShareOwner (source : string)
| BadShareFMask (source : string)
| BadShareDMask (source : string)
| BadUser
| BadPort (port : Z)
| Unreadable
| NotJSON
| NoHost
| NotAURL
| NamesNoHost
| MachineOverWebSocket
| NotAPort (text : string)
| TwoPorts (inURL port : Z)
| UnknownScheme (scheme : string)
| NotAHostPort (field : string).

Definition selected (f : File) (want : string) : res configError (string * Workspace) :=
  if bool_decide (fl_Workspaces f = ∅) then
    if bool_decide (want = "") then Ok (""%string, noWorkspace) else Err (UnknownWorkspace want)
  else
    let? want :=
      if negb (bool_decide (want = "")) then Ok want
      else if negb (bool_decide (fl_Default f = "")) then Ok (fl_Default f)
      else match FileNames f with [only] => Ok only | _ => Err SeveralWorkspaces end in
    match fl_Workspaces f !! want with
    | Some ws => Ok (want, ws)
    | None => Err (UnknownWorkspace want)
    end.

(** [cmp.Or] of texts. *)
Definition orText (a b : string) : string := if bool_decide (a = "") then b else a.

(** [Set] and [Remove]. *)
Definition SetWorkspace (name : string) (ws : Workspace) (f : File) : res configError File :=
  if bool_decide (name = "") then Err NoName
  else
    let f := if negb (bool_decide (ws_Host (fl_Workspace f) = "")) && bool_decide (fl_Workspaces f = ∅) then
               let flat := orText (fl_Default f) (ws_Host (fl_Workspace f)) in
               {| fl_Workspace := noWorkspace;
                  fl_Workspaces := if negb (bool_decide (flat = name)) then {[ flat := fl_Workspace f ]} else fl_Workspaces f;
                  fl_Default := fl_Default f |}
             else f in
    Ok {| fl_Workspace := fl_Workspace f; fl_Workspaces := <[name := ws]> (fl_Workspaces f); fl_Default := orText (fl_Default f) name |}.

Definition RemoveWorkspace (name : string) (f : File) : bool * File :=
  match fl_Workspaces f !! name with
  | None => (false, f)
  | Some _ =>
      let f' := {| fl_Workspace := fl_Workspace f; fl_Workspaces := delete name (fl_Workspaces f); fl_Default := fl_Default f |} in
      if negb (bool_decide (fl_Default f = name)) then (true, f')
      else (true, {| fl_Workspace := fl_Workspace f'; fl_Workspaces := fl_Workspaces f';
                     fl_Default := match FileNames f' with [only] => only | _ => "" end |})
  end.

(** ** Loading and saving *)

Inductive readAnswer := ReadData (file : option File) | ReadMissing | ReadFailed.

Definition readRetries : nat := 3.

(** [Load]: the answers of the attempts, and what the last one was. *)
Fixpoint readLoop (attempts : nat) (answer : nat → readAnswer) (i : nat) : readAnswer :=
  match attempts with
  | O => ReadFailed
  | S n => match answer i with
           | ReadFailed => if (n =? 0)%nat then ReadFailed else readLoop n answer (S i)
           | a => a
           end
  end.

Definition Load (answer : nat → readAnswer) : res configError File :=
  match readLoop readRetries answer 0 with
  | ReadMissing => Ok noFile
  | ReadFailed => Err Unreadable
  | ReadData None => Err NotJSON
  | ReadData (Some f) => Ok f
  end.

Definition renameRetries : nat := 10.

(** [WriteAtomic]: what each step answers, and the file afterwards. *)
Record writeAnswers := {
  wa_mkdir : bool;
  wa_create : bool;
  wa_write : bool;
  wa_close : bool;
  wa_chmod : bool;
  wa_rename : nat → bool
}.

Fixpoint renameLoop (attempts : nat) (answer : nat → bool) (i : nat) : bool :=
  match attempts with
  | O => false
  | S n => if answer i then true else renameLoop n answer (S i)
  end.

Definition WriteAtomic {A} (env : writeAnswers) (chmods : bool) (data : A) (old : option A) : bool * option A :=
  if wa_mkdir env && wa_create env && wa_write env && wa_close env && (negb chmods || wa_chmod env) && renameLoop renameRetries (wa_rename env) 0
  then (true, Some data) else (false, old).

Definition Save (env : writeAnswers) (f : File) (old : option File) : bool * option File := WriteAtomic env false f old.

(** ** Lists and host ports *)

Definition splitList (listSep : ascii) (v : string) : list string :=
  filter (λ w, w ≠ ""%string) (strings.TrimSpace <$> FieldsFunc (λ a, Ascii.eqb a "," || Ascii.eqb a listSep) v).

Fixpoint parsePorts (fields : list string) : res configError (list Z) :=
  match fields with
  | [] => Ok []
  | field :: rest =>
      match Atoi field with
      | Some port => if (port <? 1) || (MaxPort <? port) then Err (NotAHostPort field) else let? ports := parsePorts rest in Ok (port :: ports)
      | None => Err (NotAHostPort field)
      end
  end.

(** [slices.Compact]. *)
Fixpoint compact (l : list Z) : list Z :=
  match l with
  | a :: ((b :: _) as l') => if a =? b then compact l' else a :: compact l'
  | l => l
  end.

Definition ParseHostPorts (listSep : ascii) (s : string) : res configError (list Z) :=
  let? ports := parsePorts (splitList listSep s) in Ok (compact (stable_sort Z.leb ports)).

Definition HostPortList (ports : list Z) : string := strings.Join (Itoa <$> ports) ",".

(** ** The layers *)

Record Config := {
  cf_Name : string;
  cf_Host : string;
  cf_Port : Z;
  cf_CAFile : string;
  cf_Insecure : bool;
  cf_Machine : option Machine;
  cf_User : string;
  cf_Endpoint : string;
  cf_Watch : string;
  cf_WatchBudget : Z;
  cf_CacheFiles : Z;
  cf_CacheBytes : Z;
  cf_Prefetch : string;
  cf_HostPorts : string;
  cf_WatchExclude : list string;
  cf_Consistency : string;
  cf_ConsistencyPaths : gmap string string;
  cf_IdleTimeout : Duration;
  cf_DaemonIdle : Duration;
  cf_DaemonStandby : Duration;
  cf_ShareOwner : string;
  cf_ShareUID : Z;
  cf_ShareGID : Z;
  cf_shareOwnerSource : string;
  cf_ShareFMask : string;
  cf_ShareDMask : string;
  cf_ShareFileMask : Z;
  cf_ShareDirMask : Z;
  cf_shareFMaskSource : string;
  cf_shareDMaskSource : string
}.

Definition noConfig : Config :=
  {| cf_Name := ""; cf_Host := ""; cf_Port := 0; cf_CAFile := ""; cf_Insecure := false; cf_Machine := None; cf_User := ""; cf_Endpoint := ""; cf_Watch := "";
     cf_WatchBudget := 0; cf_CacheFiles := 0; cf_CacheBytes := 0; cf_Prefetch := ""; cf_HostPorts := ""; cf_WatchExclude := []; cf_Consistency := "";
     cf_ConsistencyPaths := ∅; cf_IdleTimeout := 0; cf_DaemonIdle := 0; cf_DaemonStandby := 0; cf_ShareOwner := ""; cf_ShareUID := 0; cf_ShareGID := 0;
     cf_shareOwnerSource := ""; cf_ShareFMask := ""; cf_ShareDMask := ""; cf_ShareFileMask := 0; cf_ShareDirMask := 0; cf_shareFMaskSource := ""; cf_shareDMaskSource := "" |}.

Record Overrides := {
  ov_Workspace : string;
  ov_Host : string;
  ov_Port : Z;
  ov_User : string;
  ov_Endpoint : string
}.

Definition EnvHost : string := "REMOTE_DOCKER_HOST".
Definition EnvPort : string := "REMOTE_DOCKER_PORT".
Definition EnvUser : string := "REMOTE_DOCKER_USER".
Definition EnvEndpoint : string := "REMOTE_DOCKER_ENDPOINT".
Definition EnvWorkspace : string := "REMOTE_DOCKER_WORKSPACE".
Definition EnvCAFile : string := "REMOTE_DOCKER_CA_FILE".
Definition EnvInsecure : string := "REMOTE_DOCKER_INSECURE".
Definition EnvConsistency : string := "REMOTE_DOCKER_CONSISTENCY".
Definition EnvWatch : string := "REMOTE_DOCKER_WATCH".
Definition EnvWatchBudget : string := "REMOTE_DOCKER_WATCH_BUDGET".
Definition EnvCacheFiles : string := "REMOTE_DOCKER_CACHE_FILES".
Definition EnvCacheBytes : string := "REMOTE_DOCKER_CACHE_BYTES".
Definition EnvPrefetch : string := "REMOTE_DOCKER_PREFETCH".
Definition EnvHostPorts : string := "REMOTE_DOCKER_HOST_PORTS".
Definition EnvWatchExclude : string := "REMOTE_DOCKER_WATCH_EXCLUDE".
Definition EnvIdleTimeout : string := "REMOTE_DOCKER_IDLE_TIMEOUT".
Definition EnvDaemonIdle : string := "REMOTE_DOCKER_DAEMON_IDLE".
Definition EnvDaemonStandby : string := "REMOTE_DOCKER_DAEMON_STANDBY".
Definition EnvShareOwner : string := "REMOTE_DOCKER_SHARE_OWNER".
Definition EnvShareFMask : string := "REMOTE_DOCKER_SHARE_FMASK".
Definition EnvShareDMask : string := "REMOTE_DOCKER_SHARE_DMASK".

(** [strings.EqualFold] with "false". *)
Definition foldFalse (v : string) : bool := foldsTo "false" v.

(** A setting that is overlaid where it is set. *)
Definition overText (v old : string) : string := orText v old.
Definition overNumber (v old : Z) : Z := if v =? 0 then old else v.
Definition overOption {A} (v : option A) (old : A) : A := default old v.

Section layers.
Context (ToLower : string → string) (getenv : string → string) (ParseDuration : string → option Duration) (listSep : ascii).

Definition duration (v : string) : option Duration := if bool_decide (v = "") then None else ParseDuration v.

Definition applyWorkspace (ws : Workspace) (c : Config) : Config :=
  {| cf_Name := cf_Name c;
     cf_Host := overText (ws_Host ws) (cf_Host c);
     cf_Port := overNumber (ws_Port ws) (cf_Port c);
     cf_CAFile := overText (ws_CAFile ws) (cf_CAFile c);
     cf_Insecure := if ws_Insecure ws then true else cf_Insecure c;
     cf_Machine := match ws_Machine ws with Some m => Some m | None => cf_Machine c end;
     cf_User := overText (ws_User ws) (cf_User c);
     cf_Endpoint := overText (ws_Endpoint ws) (cf_Endpoint c);
     cf_Watch := overText (ws_Watch ws) (cf_Watch c);
     cf_WatchBudget := overNumber (ws_WatchBudget ws) (cf_WatchBudget c);
     cf_CacheFiles := overNumber (ws_CacheFiles ws) (cf_CacheFiles c);
     cf_CacheBytes := overNumber (ws_CacheBytes ws) (cf_CacheBytes c);
     cf_Prefetch := overText (ws_Prefetch ws) (cf_Prefetch c);
     cf_HostPorts := overText (ws_HostPorts ws) (cf_HostPorts c);
     cf_WatchExclude := match ws_WatchExclude ws with [] => cf_WatchExclude c | l => l end;
     cf_Consistency := overText (ws_Consistency ws) (cf_Consistency c);
     cf_ConsistencyPaths := if bool_decide (ws_ConsistencyPaths ws = ∅) then cf_ConsistencyPaths c else ws_ConsistencyPaths ws;
     cf_IdleTimeout := overOption (duration (ws_IdleTimeout ws)) (cf_IdleTimeout c);
     cf_DaemonIdle := overOption (duration (ws_DaemonIdle ws)) (cf_DaemonIdle c);
     cf_DaemonStandby := overOption (duration (ws_DaemonStandby ws)) (cf_DaemonStandby c);
     cf_ShareOwner := overText (ws_ShareOwner ws) (cf_ShareOwner c);
     cf_ShareUID := cf_ShareUID c; cf_ShareGID := cf_ShareGID c;
     cf_shareOwnerSource := if bool_decide (ws_ShareOwner ws = "") then cf_shareOwnerSource c else "the shareOwner setting";
     cf_ShareFMask := overText (ws_ShareFMask ws) (cf_ShareFMask c);
     cf_ShareDMask := overText (ws_ShareDMask ws) (cf_ShareDMask c);
     cf_ShareFileMask := cf_ShareFileMask c; cf_ShareDirMask := cf_ShareDirMask c;
     cf_shareFMaskSource := if bool_decide (ws_ShareFMask ws = "") then cf_shareFMaskSource c else "the shareFmask setting";
     cf_shareDMaskSource := if bool_decide (ws_ShareDMask ws = "") then cf_shareDMaskSource c else "the shareDmask setting" |}.

Definition envNumber (v : string) (old : Z) : Z := if bool_decide (v = "") then old else default old (Atoi v).

Definition applyEnv (c : Config) : Config :=
  {| cf_Name := cf_Name c;
     cf_Host := overText (getenv EnvHost) (cf_Host c);
     cf_Port := envNumber (getenv EnvPort) (cf_Port c);
     cf_CAFile := overText (getenv EnvCAFile) (cf_CAFile c);
     cf_Insecure := let v := getenv EnvInsecure in if bool_decide (v = "") then cf_Insecure c else negb (bool_decide (v = "0"%string)) && negb (foldFalse v);
     cf_Machine := cf_Machine c;
     cf_User := overText (getenv EnvUser) (cf_User c);
     cf_Endpoint := overText (getenv EnvEndpoint) (cf_Endpoint c);
     cf_Watch := overText (getenv EnvWatch) (cf_Watch c);
     cf_WatchBudget := envNumber (getenv EnvWatchBudget) (cf_WatchBudget c);
     cf_CacheFiles := envNumber (getenv EnvCacheFiles) (cf_CacheFiles c);
     cf_CacheBytes := envNumber (getenv EnvCacheBytes) (cf_CacheBytes c);
     cf_Prefetch := overText (getenv EnvPrefetch) (cf_Prefetch c);
     cf_HostPorts := overText (getenv EnvHostPorts) (cf_HostPorts c);
     cf_WatchExclude := let v := getenv EnvWatchExclude in if bool_decide (v = "") then cf_WatchExclude c else splitList listSep v;
     cf_Consistency := overText (getenv EnvConsistency) (cf_Consistency c);
     cf_ConsistencyPaths := cf_ConsistencyPaths c;
     cf_IdleTimeout := overOption (duration (getenv EnvIdleTimeout)) (cf_IdleTimeout c);
     cf_DaemonIdle := overOption (duration (getenv EnvDaemonIdle)) (cf_DaemonIdle c);
     cf_DaemonStandby := overOption (duration (getenv EnvDaemonStandby)) (cf_DaemonStandby c);
     cf_ShareOwner := overText (getenv EnvShareOwner) (cf_ShareOwner c);
     cf_ShareUID := cf_ShareUID c; cf_ShareGID := cf_ShareGID c;
     cf_shareOwnerSource := if bool_decide (getenv EnvShareOwner = "") then cf_shareOwnerSource c else EnvShareOwner;
     cf_ShareFMask := overText (getenv EnvShareFMask) (cf_ShareFMask c);
     cf_ShareDMask := overText (getenv EnvShareDMask) (cf_ShareDMask c);
     cf_ShareFileMask := cf_ShareFileMask c; cf_ShareDirMask := cf_ShareDirMask c;
     cf_shareFMaskSource := if bool_decide (getenv EnvShareFMask = "") then cf_shareFMaskSource c else EnvShareFMask;
     cf_shareDMaskSource := if bool_decide (getenv EnvShareDMask = "") then cf_shareDMaskSource c else EnvShareDMask |}.

(** The connection's own settings, replaced. *)
Definition with_connection (name host : string) (port : Z) (user endpoint : string) (c : Config) : Config :=
  {| cf_Name := name; cf_Host := host; cf_Port := port; cf_CAFile := cf_CAFile c; cf_Insecure := cf_Insecure c; cf_Machine := cf_Machine c; cf_User := user;
     cf_Endpoint := endpoint; cf_Watch := cf_Watch c; cf_WatchBudget := cf_WatchBudget c; cf_CacheFiles := cf_CacheFiles c; cf_CacheBytes := cf_CacheBytes c;
     cf_Prefetch := cf_Prefetch c; cf_HostPorts := cf_HostPorts c; cf_WatchExclude := cf_WatchExclude c; cf_Consistency := cf_Consistency c;
     cf_ConsistencyPaths := cf_ConsistencyPaths c; cf_IdleTimeout := cf_IdleTimeout c; cf_DaemonIdle := cf_DaemonIdle c; cf_DaemonStandby := cf_DaemonStandby c;
     cf_ShareOwner := cf_ShareOwner c; cf_ShareUID := cf_ShareUID c; cf_ShareGID := cf_ShareGID c; cf_shareOwnerSource := cf_shareOwnerSource c;
     cf_ShareFMask := cf_ShareFMask c; cf_ShareDMask := cf_ShareDMask c; cf_ShareFileMask := cf_ShareFileMask c; cf_ShareDirMask := cf_ShareDirMask c;
     cf_shareFMaskSource := cf_shareFMaskSource c; cf_shareDMaskSource := cf_shareDMaskSource c |}.

Definition applyOverrides (o : Overrides) (c : Config) : Config :=
  with_connection (cf_Name c) (overText (ov_Host o) (cf_Host c)) (overNumber (ov_Port o) (cf_Port c)) (overText (ov_User o) (cf_User c))
    (overText (ov_Endpoint o) (cf_Endpoint c)) c.

(** The owner and the masks, parsed. *)
Definition with_parsed (uid gid fmask dmask : Z) (c : Config) : Config :=
  {| cf_Name := cf_Name c; cf_Host := cf_Host c; cf_Port := cf_Port c; cf_CAFile := cf_CAFile c; cf_Insecure := cf_Insecure c; cf_Machine := cf_Machine c;
     cf_User := cf_User c; cf_Endpoint := cf_Endpoint c; cf_Watch := cf_Watch c; cf_WatchBudget := cf_WatchBudget c; cf_CacheFiles := cf_CacheFiles c;
     cf_CacheBytes := cf_CacheBytes c; cf_Prefetch := cf_Prefetch c; cf_HostPorts := cf_HostPorts c; cf_WatchExclude := cf_WatchExclude c;
     cf_Consistency := cf_Consistency c; cf_ConsistencyPaths := cf_ConsistencyPaths c; cf_IdleTimeout := cf_IdleTimeout c; cf_DaemonIdle := cf_DaemonIdle c;
     cf_DaemonStandby := cf_DaemonStandby c; cf_ShareOwner := cf_ShareOwner c; cf_ShareUID := uid; cf_ShareGID := gid; cf_shareOwnerSource := cf_shareOwnerSource c;
     cf_ShareFMask := cf_ShareFMask c; cf_ShareDMask := cf_ShareDMask c; cf_ShareFileMask := fmask; cf_ShareDirMask := dmask;
     cf_shareFMaskSource := cf_shareFMaskSource c; cf_shareDMaskSource := cf_shareDMaskSource c |}.

(** *** The user *)

Definition localUser : string := orText (getenv "USER") (orText (getenv "USERNAME") (getenv "LOGNAME")).
Definition sanitizeUser (name : string) : string := default "user"%string (AccountName ToLower name).
Definition DefaultUser : string := if bool_decide (localUser = "") then "user" else sanitizeUser localUser.

(** *** The scheme of a host *)

(** [strings.Cut] at "://". *)
Fixpoint cutScheme (s : string) : option (string * string) :=
  match strings.CutPrefix s "://" with
  | Some rest => Some (""%string, rest)
  | None => match s with
            | EmptyString => None
            | String a s' => match cutScheme s' with Some (l, r) => Some (String a l, r) | None => None end
            end
  end.

Definition splitScheme (host : string) : string * string * bool :=
  match cutScheme host with None => (""%string, host, false) | Some (scheme, rest) => (ToLower scheme, rest, true) end.

(** *** [File.Resolve] *)

Definition DefaultSSHPort : Z := 2222.

Definition layered (o : Overrides) (f : File) (name : string) (ws : Workspace) : Config :=
  applyOverrides o (applyEnv (applyWorkspace ws (applyWorkspace (fl_Workspace f) (with_connection name "" 0 DefaultUser "" noConfig)))).

Definition parsedShare (c : Config) : res configError Config :=
  let? owner :=
    if bool_decide (cf_ShareOwner c = "") then Ok (cf_ShareUID c, cf_ShareGID c)
    else match ParseOwner (cf_ShareOwner c) with Ok w => Ok (ow_UID w, ow_GID w) | Err _ => Err (BadShareOwner (cf_shareOwnerSource c)) end in
  let? fmask :=
    if bool_decide (cf_ShareFMask c = "") then Ok (cf_ShareFileMask c)
    else match ParseFileMask (cf_ShareFMask c) with Ok m => Ok (mk_Bits m) | Err _ => Err (BadShareFMask (cf_shareFMaskSource c)) end in
  let? dmask :=
    if bool_decide (cf_ShareDMask c = "") then Ok (cf_ShareDirMask c)
    else match ParseDirMask (cf_ShareDMask c) with Ok m => Ok (mk_Bits m) | Err _ => Err (BadShareDMask (cf_shareDMaskSource c)) end in
  Ok (with_parsed owner.1 owner.2 fmask dmask c).

Definition Resolve (o : Overrides) (f : File) : res configError Config :=
  let? sel := selected f (orText (ov_Workspace o) (getenv EnvWorkspace)) in
  let? c := parsedShare (layered o f sel.1 sel.2) in
  match AccountName ToLower (cf_User c) with
  | None => Err BadUser
  | Some account =>
      let '(_, _, scheme) := splitScheme (strings.TrimSpace (cf_Host c)) in
      let port := if (cf_Port c =? 0) && negb scheme then DefaultSSHPort else cf_Port c in
      if negb (port =? 0) && ((port <? 0) || (65535 <? port)) then Err (BadPort port)
      else Ok (with_connection (cf_Name c) (cf_Host c) port account (cf_Endpoint c) c)
  end.

(** [Resolve] of the saved file. *)
Definition ResolveSaved (o : Overrides) (answer : nat → readAnswer) : res configError Config :=
  let? f := Load answer in Resolve o f.

Definition RequireHost (c : Config) : res configError unit := if bool_decide (cf_Host c = "") then Err NoHost else Ok tt.

(** *** Endpoints and contexts *)

(** endpoint_unix.go: [filepath.Ext], what is behind the last dot of the last element. *)
Fixpoint extGo (s : string) (ext : string) : string :=
  match s with
  | EmptyString => ext
  | String a s' => extGo s' (if Ascii.eqb a "/" then "" else if Ascii.eqb a "." then "." else if bool_decide (ext = "") then "" else ext +:+ String a "")
  end.
Definition Ext (p : string) : string := extGo p "".

Definition joinEndpoint (base name : string) : string := strings.TrimSuffix base (Ext base) +:+ "-" +:+ name +:+ Ext base.

Definition EndpointFor (base : string) (c : Config) : string :=
  if negb (bool_decide (cf_Endpoint c = "")) then cf_Endpoint c
  else if bool_decide (cf_Name c = "") || bool_decide (base = "") then base
  else joinEndpoint base (sanitizeUser (cf_Name c)).

Definition ContextName (c : Config) : string := if bool_decide (cf_Name c = "") then "remote-docker" else sanitizeUser (cf_Name c).

End layers.

(** ** transport.go *)

Definition TransportSSH : string := "ssh".
Definition TransportWS : string := "ws".
Definition TransportWSS : string := "wss".

Record Transport := {
  tr_Kind : string;
  tr_Host : string;
  tr_Port : Z;
  tr_URL : string
}.

Definition WebSocket (t : Transport) : bool := bool_decide (tr_Kind t = TransportWS) || bool_decide (tr_Kind t = TransportWSS).

(** What the code reads of a [url.URL]; [ur_rest] is everything else of it. *)
Record URL := {
  ur_Hostname : string;
  ur_Port : string;
  ur_Path : string;
  ur_rest : string
}.

Definition portOr (fallback : Z) (c : Config) : Z := if cf_Port c =? 0 then fallback else cf_Port c.
Definition defaultPortFor (scheme : string) : Z := if bool_decide (scheme = TransportWSS) then 443 else 80.

Definition portFor (u : URL) (fallback : Z) (c : Config) : res configError Z :=
  let? inURL :=
    if bool_decide (ur_Port u = "") then Ok 0
    else match Atoi (ur_Port u) with
         | Some n => if n <=? 0 then Err (NotAPort (ur_Port u)) else Ok n
         | None => Err (NotAPort (ur_Port u))
         end in
  if negb (inURL =? 0) && negb (cf_Port c =? 0) && negb (cf_Port c =? inURL) then Err (TwoPorts inURL (cf_Port c))
  else if negb (inURL =? 0) then Ok inURL
  else Ok (portOr fallback c).

Section transport.
Context (ToLower : string → string) (urlParse : string → option URL) (urlString : URL → string).

Definition parse (scheme rest : string) : res configError URL :=
  match urlParse (scheme +:+ "://" +:+ rest) with
  | None => Err NotAURL
  | Some u => if bool_decide (ur_Hostname u = "") then Err NamesNoHost else Ok u
  end.

Definition transportOf (c : Config) : res configError Transport :=
  let host := strings.TrimSpace (cf_Host c) in
  if bool_decide (host = "") then Err NoHost
  else
    let '(scheme, rest, ok) := splitScheme ToLower host in
    if negb ok then Ok {| tr_Kind := TransportSSH; tr_Host := host; tr_Port := portOr DefaultSSHPort c; tr_URL := "" |}
    else if bool_decide (scheme = TransportSSH) then
      let? u := parse scheme rest in
      let? port := portFor u DefaultSSHPort c in
      Ok {| tr_Kind := TransportSSH; tr_Host := ur_Hostname u; tr_Port := port; tr_URL := "" |}
    else if bool_decide (scheme = TransportWS) || bool_decide (scheme = TransportWSS) then
      if bool_decide (is_Some (cf_Machine c)) then Err MachineOverWebSocket
      else
        let? u := parse scheme rest in
        let? port := portFor u (defaultPortFor scheme) c in
        let u := {| ur_Hostname := ur_Hostname u; ur_Port := ur_Port u; ur_Path := orText (ur_Path u) "/"; ur_rest := ur_rest u |} in
        Ok {| tr_Kind := scheme; tr_Host := ur_Hostname u; tr_Port := port; tr_URL := urlString u |}
    else Err (UnknownScheme scheme).

End transport.

(** ** settings.go *)

Section settings.
Context (ToLower : string → string) (durationText : Duration → string) (listSep : ascii).

Definition shareOwnerSetting (c : Config) : string :=
  if bool_decide (cf_ShareOwner c = "") then Owner_String {| ow_UID := cf_ShareUID c; ow_GID := cf_ShareGID c; ow_Set := true |}
  else match ParseOwner (cf_ShareOwner c) with Ok o => Owner_String o | Err _ => cf_ShareOwner c end.

Definition maskSetting (s : string) (parsed : Z) (parse : string → res wordError Mask) : string :=
  if bool_decide (s = "") then Mask_String {| mk_Bits := parsed; mk_Set := false |}
  else match parse s with Ok m => Mask_String m | Err _ => s end.

Definition canonicalMode (s : string) (fallback : Mode) : string :=
  match ParseMode s with Ok m => Mode_String (Or m fallback) | Err _ => s end.

Definition canonicalWatch (s : string) : string := match ParseWatchSetting ToLower s with Ok w => Watch_String w | Err _ => s end.

Definition canonicalPrefetch (s : string) : string :=
  if bool_decide (strings.TrimSpace s = "") then Prefetch_String PrefetchOff
  else match ParsePrefetch s with Ok p => Prefetch_String p | Err _ => s end.

Definition canonicalHostPorts (s : string) : string :=
  match ParseHostPorts listSep s with Ok ports => HostPortList ports | Err _ => s end.

Definition pathSettings (m : gmap string string) : list string :=
  sort_strings ((λ kv, kv.1 +:+ "=" +:+ canonicalMode kv.2 ModeUnset) <$> map_to_list m).

Definition sessionSettings (c : Config) : list (string * string) :=
  [("consistency", canonicalMode (cf_Consistency c) DefaultMode);
   ("consistency-paths", strings.Join (pathSettings (cf_ConsistencyPaths c)) ";");
   ("watch", canonicalWatch (cf_Watch c));
   ("watch-budget", Itoa (cf_WatchBudget c));
   ("watch-exclude", strings.Join (cf_WatchExclude c) ",");
   ("cache-files", Itoa (cf_CacheFiles c));
   ("cache-bytes", Itoa (cf_CacheBytes c));
   ("prefetch", canonicalPrefetch (cf_Prefetch c));
   ("host-ports", canonicalHostPorts (cf_HostPorts c));
   ("share-owner", shareOwnerSetting c);
   ("share-fmask", maskSetting (cf_ShareFMask c) (cf_ShareFileMask c) ParseFileMask);
   ("share-dmask", maskSetting (cf_ShareDMask c) (cf_ShareDirMask c) ParseDirMask);
   ("idle-timeout", durationText (cf_IdleTimeout c));
   ("daemon-idle", durationText (cf_DaemonIdle c));
   ("daemon-standby", durationText (cf_DaemonStandby c))]%string.

Definition SessionSettings (c : Config) : gmap string string := list_to_map (sessionSettings c).

Definition settingEnv : list (string * string) :=
  [("consistency", EnvConsistency); ("watch", EnvWatch); ("watch-budget", EnvWatchBudget); ("watch-exclude", EnvWatchExclude); ("cache-files", EnvCacheFiles);
   ("cache-bytes", EnvCacheBytes); ("prefetch", EnvPrefetch); ("host-ports", EnvHostPorts); ("share-owner", EnvShareOwner); ("share-fmask", EnvShareFMask);
   ("share-dmask", EnvShareDMask); ("idle-timeout", EnvIdleTimeout); ("daemon-idle", EnvDaemonIdle); ("daemon-standby", EnvDaemonStandby)]%string.

Definition SetInEnvironment (getenv : string → string) (name : string) : bool :=
  match (list_to_map settingEnv : gmap string string) !! name with Some env => negb (bool_decide (getenv env = "")) | None => false end.

Record SettingChange := {
  sc_Name : string;
  sc_Running : string;
  sc_Ours : string
}.

Definition settingChange (running : gmap string string) (named : string → bool) (kv : string * string) : option SettingChange :=
  if negb (named kv.1) then None
  else match running !! kv.1 with
       | Some have => if bool_decide (have = kv.2) then None else Some {| sc_Name := kv.1; sc_Running := have; sc_Ours := kv.2 |}
       | None => None
       end.

Definition DiffSettings (running ours : gmap string string) (named : string → bool) : list SettingChange :=
  stable_sort (λ a b, string_leb (sc_Name a) (sc_Name b)) (omap (settingChange running named) (map_to_list ours)).

Definition NonDefaultSettings (settings : gmap string string) : list string :=
  sort_strings (omap (λ kv, match SessionSettings noConfig !! kv.1 with
                            | Some d => if bool_decide (d = kv.2) then None else Some (kv.1 +:+ "=" +:+ kv.2)
                            | None => None
                            end) (map_to_list settings)).

End settings.

(** * Properties of the configuration *)

(** ** The nearest layer *)

(** The first of several layers that says something. *)
Definition nearestText (layers : list string) (fallback : string) : string := default fallback (head (filter (λ v, v ≠ ""%string) layers)).
Definition nearestNumber (layers : list Z) (fallback : Z) : Z := default fallback (head (filter (λ v, v ≠ 0) layers)).
Definition nearest {A} (layers : list (option A)) (fallback : A) : A := default fallback (head (omap id layers)).

Lemma nearestText_cons v l d : nearestText (v :: l) d = orText v (nearestText l d).
Proof. unfold nearestText, orText. rewrite filter_cons. case_bool_decide as E; [by rewrite decide_False by tauto|by rewrite decide_True by done]. Qed.

Lemma nearestNumber_cons v l d : nearestNumber (v :: l) d = overNumber v (nearestNumber l d).
Proof. unfold nearestNumber, overNumber. rewrite filter_cons. destruct (Z.eqb_spec v 0); [by rewrite decide_False by tauto|by rewrite decide_True by done]. Qed.

Lemma nearest_cons {A} (v : option A) l d : nearest (v :: l) d = default (nearest l d) v.
Proof. unfold nearest. by destruct v. Qed.

(** A number an environment variable says; a malformed one says nothing. *)
Definition numberIn (v : string) : option Z := if bool_decide (v = "") then None else Atoi v.

(** A list that is set. *)
Definition listIn {A} (l : list A) : option (list A) := match l with [] => None | l => Some l end.
Definition numberOf (n : Z) : option Z := if n =? 0 then None else Some n.
Definition pathsIn (m : gmap string string) : option (gmap string string) := if bool_decide (m = ∅) then None else Some m.

Section resolving.
Context (ToLower : string → string) (getenv : string → string) (ParseDuration : string → option Duration) (listSep : ascii).

Abbreviation duration := (duration ParseDuration).

(** What the environment says of the certificate check: nothing, or a value. *)
Definition insecureIn (v : string) : option bool := if bool_decide (v = "") then None else Some (negb (bool_decide (v = "0"%string)) && negb (foldFalse v)).
Definition excludesIn (v : string) : option (list string) := if bool_decide (v = "") then None else Some (splitList listSep v).
Definition flagIn (b : bool) : option bool := if b then Some true else None.

(** Where a text comes from. *)
Definition nearestSource (env envName ws flat setting : string) : string :=
  if bool_decide (env = "") then if bool_decide (ws = "") && bool_decide (flat = "") then "" else setting else envName.

(** The reference: every setting from the nearest of the command line, the
    environment, the workspace's entry and the fields beside it. *)
Definition byLayer (o : Overrides) (flat : Workspace) (name : string) (ws : Workspace) : Config :=
  {| cf_Name := name;
     cf_Host := nearestText [ov_Host o; getenv EnvHost; ws_Host ws; ws_Host flat] "";
     cf_Port := nearest [numberOf (ov_Port o); numberIn (getenv EnvPort); numberOf (ws_Port ws); numberOf (ws_Port flat)] 0;
     cf_CAFile := nearestText [getenv EnvCAFile; ws_CAFile ws; ws_CAFile flat] "";
     cf_Insecure := nearest [insecureIn (getenv EnvInsecure); flagIn (ws_Insecure ws); flagIn (ws_Insecure flat)] false;
     cf_Machine := head (omap id [ws_Machine ws; ws_Machine flat]);
     cf_User := nearestText [ov_User o; getenv EnvUser; ws_User ws; ws_User flat] (DefaultUser ToLower getenv);
     cf_Endpoint := nearestText [ov_Endpoint o; getenv EnvEndpoint; ws_Endpoint ws; ws_Endpoint flat] "";
     cf_Watch := nearestText [getenv EnvWatch; ws_Watch ws; ws_Watch flat] "";
     cf_WatchBudget := nearest [numberIn (getenv EnvWatchBudget); numberOf (ws_WatchBudget ws); numberOf (ws_WatchBudget flat)] 0;
     cf_CacheFiles := nearest [numberIn (getenv EnvCacheFiles); numberOf (ws_CacheFiles ws); numberOf (ws_CacheFiles flat)] 0;
     cf_CacheBytes := nearest [numberIn (getenv EnvCacheBytes); numberOf (ws_CacheBytes ws); numberOf (ws_CacheBytes flat)] 0;
     cf_Prefetch := nearestText [getenv EnvPrefetch; ws_Prefetch ws; ws_Prefetch flat] "";
     cf_HostPorts := nearestText [getenv EnvHostPorts; ws_HostPorts ws; ws_HostPorts flat] "";
     cf_WatchExclude := nearest [excludesIn (getenv EnvWatchExclude); listIn (ws_WatchExclude ws); listIn (ws_WatchExclude flat)] [];
     cf_Consistency := nearestText [getenv EnvConsistency; ws_Consistency ws; ws_Consistency flat] "";
     cf_ConsistencyPaths := nearest [pathsIn (ws_ConsistencyPaths ws); pathsIn (ws_ConsistencyPaths flat)] ∅;
     cf_IdleTimeout := nearest [duration (getenv EnvIdleTimeout); duration (ws_IdleTimeout ws); duration (ws_IdleTimeout flat)] 0;
     cf_DaemonIdle := nearest [duration (getenv EnvDaemonIdle); duration (ws_DaemonIdle ws); duration (ws_DaemonIdle flat)] 0;
     cf_DaemonStandby := nearest [duration (getenv EnvDaemonStandby); duration (ws_DaemonStandby ws); duration (ws_DaemonStandby flat)] 0;
     cf_ShareOwner := nearestText [getenv EnvShareOwner; ws_ShareOwner ws; ws_ShareOwner flat] "";
     cf_ShareUID := 0; cf_ShareGID := 0;
     cf_shareOwnerSource := nearestSource (getenv EnvShareOwner) EnvShareOwner (ws_ShareOwner ws) (ws_ShareOwner flat) "the shareOwner setting";
     cf_ShareFMask := nearestText [getenv EnvShareFMask; ws_ShareFMask ws; ws_ShareFMask flat] "";
     cf_ShareDMask := nearestText [getenv EnvShareDMask; ws_ShareDMask ws; ws_ShareDMask flat] "";
     cf_ShareFileMask := 0; cf_ShareDirMask := 0;
     cf_shareFMaskSource := nearestSource (getenv EnvShareFMask) EnvShareFMask (ws_ShareFMask ws) (ws_ShareFMask flat) "the shareFmask setting";
     cf_shareDMaskSource := nearestSource (getenv EnvShareDMask) EnvShareDMask (ws_ShareDMask ws) (ws_ShareDMask flat) "the shareDmask setting" |}.

Lemma numberOf_over n old : default old (numberOf n) = overNumber n old.
Proof. unfold numberOf, overNumber. by destruct (n =? 0). Qed.
Lemma numberIn_env v old : default old (numberIn v) = envNumber v old.
Proof. unfold numberIn, envNumber. by case_bool_decide. Qed.

Lemma Config_eq c c' :
  cf_Name c = cf_Name c' → cf_Host c = cf_Host c' → cf_Port c = cf_Port c' → cf_CAFile c = cf_CAFile c' → cf_Insecure c = cf_Insecure c' →
  cf_Machine c = cf_Machine c' → cf_User c = cf_User c' → cf_Endpoint c = cf_Endpoint c' → cf_Watch c = cf_Watch c' → cf_WatchBudget c = cf_WatchBudget c' →
  cf_CacheFiles c = cf_CacheFiles c' → cf_CacheBytes c = cf_CacheBytes c' → cf_Prefetch c = cf_Prefetch c' → cf_HostPorts c = cf_HostPorts c' → cf_WatchExclude c = cf_WatchExclude c' →
  cf_Consistency c = cf_Consistency c' → cf_ConsistencyPaths c = cf_ConsistencyPaths c' → cf_IdleTimeout c = cf_IdleTimeout c' → cf_DaemonIdle c = cf_DaemonIdle c' → cf_DaemonStandby c = cf_DaemonStandby c' →
  cf_ShareOwner c = cf_ShareOwner c' → cf_ShareUID c = cf_ShareUID c' → cf_ShareGID c = cf_ShareGID c' → cf_shareOwnerSource c = cf_shareOwnerSource c' → cf_ShareFMask c = cf_ShareFMask c' →
  cf_ShareDMask c = cf_ShareDMask c' → cf_ShareFileMask c = cf_ShareFileMask c' → cf_ShareDirMask c = cf_ShareDirMask c' → cf_shareFMaskSource c = cf_shareFMaskSource c' → cf_shareDMaskSource c = cf_shareDMaskSource c' → c = c'.
Proof. destruct c, c'. cbn. intros. by subst. Qed.

Lemma layered_byLayer o f name ws : layered ToLower getenv ParseDuration listSep o f name ws = byLayer o (fl_Workspace f) name ws.
Proof.
  apply Config_eq; cbn -[nearestText nearest overNumber envNumber orText insecureIn excludesIn splitList nearestSource pathsIn numberOf numberIn];
    first [reflexivity|by rewrite !nearestText_cons|by rewrite !nearest_cons, ?numberIn_env, ?numberOf_over|idtac].
  - unfold insecureIn, flagIn. case_bool_decide; [|done]. cbn. by destruct (ws_Insecure ws), (ws_Insecure (fl_Workspace f)).
  - by destruct (ws_Machine ws), (ws_Machine (fl_Workspace f)).
  - unfold excludesIn, listIn. case_bool_decide; [|done]. cbn. by destruct (ws_WatchExclude ws), (ws_WatchExclude (fl_Workspace f)).
  - unfold pathsIn. by repeat case_bool_decide.
  - unfold nearestSource. by repeat case_bool_decide.
  - unfold nearestSource. by repeat case_bool_decide.
  - unfold nearestSource. by repeat case_bool_decide.
Qed.

Abbreviation Resolve := (Resolve ToLower getenv ParseDuration listSep).

(** What is parsed of a layered configuration. *)
Lemma parsedShare_spec b c : cf_ShareUID b = 0 → cf_ShareGID b = 0 → cf_ShareFileMask b = 0 → cf_ShareDirMask b = 0 → parsedShare b = Ok c →
  c = with_parsed (cf_ShareUID c) (cf_ShareGID c) (cf_ShareFileMask c) (cf_ShareDirMask c) b ∧
  (if bool_decide (cf_ShareOwner b = "") then cf_ShareUID c = 0 ∧ cf_ShareGID c = 0
   else ∃ w, ParseOwner (cf_ShareOwner b) = Ok w ∧ cf_ShareUID c = ow_UID w ∧ cf_ShareGID c = ow_GID w) ∧
  (if bool_decide (cf_ShareFMask b = "") then cf_ShareFileMask c = 0 else ∃ m, ParseFileMask (cf_ShareFMask b) = Ok m ∧ cf_ShareFileMask c = mk_Bits m) ∧
  (if bool_decide (cf_ShareDMask b = "") then cf_ShareDirMask c = 0 else ∃ m, ParseDirMask (cf_ShareDMask b) = Ok m ∧ cf_ShareDirMask c = mk_Bits m).
Proof.
  clear. intros Hu Hg Hf Hd. unfold parsedShare. rewrite Hu, Hg, Hf, Hd.
  destruct (bool_decide (cf_ShareOwner b = "")); [|destruct (ParseOwner (cf_ShareOwner b)) as [w|] eqn:Eo; [|done]]; cbv beta iota.
  all: destruct (bool_decide (cf_ShareFMask b = "")); [|destruct (ParseFileMask (cf_ShareFMask b)) as [fm|] eqn:Ef; [|done]]; cbv beta iota.
  all: destruct (bool_decide (cf_ShareDMask b = "")); [|destruct (ParseDirMask (cf_ShareDMask b)) as [dm|] eqn:Ed; [|done]]; cbv beta iota.
  all: intros [= <-]; (split; [reflexivity|]); cbn; split_and!; first [reflexivity|eexists; split_and!; [reflexivity..]].
Qed.

(** C33 (equivalence). A setting comes from the nearest place that says it: the command line, the
    environment, the workspace's own entry, the fields beside the entries, the
    default; a number or a duration that does not parse says nothing.  The user is
    then spelled as the workspace spells accounts; the port of a bare host with none
    is 2222, and a port is one; an owner or a mask that does not parse is never
    replaced by a default, and neither is a workspace nobody configured. *)
Theorem nearest_layer_wins o f c : Resolve o f = Ok c →
  ∃ name ws, selected f (nearestText [ov_Workspace o; getenv EnvWorkspace] "") = Ok (name, ws) ∧
  let b := byLayer o (fl_Workspace f) name ws in
  c = with_connection name (cf_Host b) (cf_Port c) (cf_User c) (cf_Endpoint b) (with_parsed (cf_ShareUID c) (cf_ShareGID c) (cf_ShareFileMask c) (cf_ShareDirMask c) b) ∧
  AccountName ToLower (cf_User b) = Some (cf_User c) ∧
  cf_Port c = (if (cf_Port b =? 0) && negb (splitScheme ToLower (strings.TrimSpace (cf_Host b))).2 then DefaultSSHPort else cf_Port b) ∧ 0 ≤ cf_Port c ≤ 65535 ∧
  (if bool_decide (cf_ShareOwner b = "") then cf_ShareUID c = 0 ∧ cf_ShareGID c = 0
   else ∃ w, ParseOwner (cf_ShareOwner b) = Ok w ∧ cf_ShareUID c = ow_UID w ∧ cf_ShareGID c = ow_GID w) ∧
  (if bool_decide (cf_ShareFMask b = "") then cf_ShareFileMask c = 0 else ∃ m, ParseFileMask (cf_ShareFMask b) = Ok m ∧ cf_ShareFileMask c = mk_Bits m) ∧
  (if bool_decide (cf_ShareDMask b = "") then cf_ShareDirMask c = 0 else ∃ m, ParseDirMask (cf_ShareDMask b) = Ok m ∧ cf_ShareDirMask c = mk_Bits m).
Proof.
  unfold Config.Resolve. rewrite !nearestText_cons. change (nearestText [] "") with ""%string.
  replace (orText (getenv EnvWorkspace) "") with (getenv EnvWorkspace) by (unfold orText; by case_bool_decide as E; [rewrite E|]).
  destruct (selected f _) as [[name ws]|] eqn:Es; [|done]. cbv beta iota. cbn [fst snd]. rewrite layered_byLayer. set (b := byLayer o (fl_Workspace f) name ws).
  destruct (parsedShare b) as [p|] eqn:Ep; [|done]. cbv beta iota. apply parsedShare_spec in Ep as (Hp & Ho & Hf & Hd); [|done..].
  assert (cf_User p = cf_User b ∧ cf_Port p = cf_Port b ∧ cf_Host p = cf_Host b ∧ cf_Name p = name ∧ cf_Endpoint p = cf_Endpoint b) as (-> & -> & -> & -> & ->) by (by rewrite Hp).
  destruct (AccountName ToLower (cf_User b)) as [account|] eqn:Ea; [|done]. destruct (splitScheme _ _) as [[sc rest] scheme] eqn:Esc.
  set (port := if _ && negb scheme then DefaultSSHPort else cf_Port b). destruct (negb (port =? 0) && _) eqn:Eport; [done|]. intros [= <-]. exists name, ws. split; [done|]. cbv zeta. fold b. rewrite Esc.
  cbn [cf_Port cf_User cf_ShareUID cf_ShareGID cf_ShareFileMask cf_ShareDirMask with_connection snd]. split_and!; try done; [by rewrite Hp at 1| |].
  all: destruct (Z.eqb_spec port 0); [lia|]; cbn in Eport; apply orb_false_iff in Eport as [?%Z.ltb_ge ?%Z.ltb_ge]; lia.
Qed.

End resolving.

(** ** Adding and removing workspaces *)

Definition naming (n : string) (o : Overrides) : Overrides :=
  {| ov_Workspace := n; ov_Host := ov_Host o; ov_Port := ov_Port o; ov_User := ov_User o; ov_Endpoint := ov_Endpoint o |}.

Definition with_name (n : string) (c : Config) : Config := with_connection n (cf_Host c) (cf_Port c) (cf_User c) (cf_Endpoint c) c.

Definition mapOk {E A B} (g : A → B) (r : res E A) : res E B := match r with Ok a => Ok (g a) | Err e => Err e end.

(** The one edit or the other; [n] is the workspace it is about. *)
Inductive edit (n : string) (f f' : File) : Prop :=
| edit_set ws : SetWorkspace n ws f = Ok f' → edit n f f'
| edit_remove : RemoveWorkspace n f = (true, f') → edit n f f'.

Definition flatAlone (f : File) : Prop := ws_Host (fl_Workspace f) ≠ ""%string ∧ fl_Workspaces f = ∅.
Definition flatName (f : File) : string := orText (fl_Default f) (ws_Host (fl_Workspace f)).

#[export] Instance flatAlone_dec f : Decision (flatAlone f).
Proof. unfold flatAlone. apply _. Defined.

Lemma Set_spec n ws f f' : SetWorkspace n ws f = Ok f' →
  n ≠ ""%string ∧ fl_Default f' = orText (fl_Default f) n ∧
  if decide (flatAlone f) then fl_Workspace f' = noWorkspace ∧ fl_Workspaces f' = <[n := ws]> (if decide (flatName f = n) then ∅ else {[ flatName f := fl_Workspace f ]})
  else fl_Workspace f' = fl_Workspace f ∧ fl_Workspaces f' = <[n := ws]> (fl_Workspaces f).
Proof.
  unfold SetWorkspace. case_bool_decide as Hn; [done|]. intros [= <-]. split; [done|]. unfold flatAlone, flatName.
  destruct (decide (ws_Host (fl_Workspace f) = ""%string)) as [Eh|Eh].
  { rewrite (bool_decide_eq_true_2 _ Eh). cbn [negb andb]. rewrite decide_False by tauto. done. }
  rewrite (bool_decide_eq_false_2 _ Eh). destruct (decide (fl_Workspaces f = ∅)) as [Ew|Ew].
  - rewrite (bool_decide_eq_true_2 _ Ew). cbn [negb andb]. rewrite decide_True by done. cbn. split; [done|]. split; [done|]. f_equal.
    destruct (decide (orText _ _ = n)) as [E|E]; [by rewrite (bool_decide_eq_true_2 _ E)|by rewrite (bool_decide_eq_false_2 _ E)].
  - rewrite (bool_decide_eq_false_2 _ Ew). cbn [negb andb]. rewrite decide_False by tauto. done.
Qed.

Lemma Remove_spec n f f' : RemoveWorkspace n f = (true, f') →
  is_Some (fl_Workspaces f !! n) ∧ fl_Workspace f' = fl_Workspace f ∧ fl_Workspaces f' = delete n (fl_Workspaces f) ∧
  (if decide (fl_Default f = n) then fl_Default f' = ""%string ∨ FileNames f' = [fl_Default f'] else fl_Default f' = fl_Default f).
Proof.
  unfold RemoveWorkspace. destruct (fl_Workspaces f !! n) as [w|]; [|done]. destruct (decide (fl_Default f = n)) as [E|E].
  - rewrite bool_decide_eq_true_2 by done. cbn [negb]. intros [= <-]. cbn. split_and!; [eauto|done..|]. unfold FileNames at 3. cbn.
    destruct (FileNames _) as [|only [|]] eqn:El; [by left| |by left]. right. reflexivity.
  - rewrite bool_decide_eq_false_2 by done. cbn [negb]. intros [= <-]. cbn. split_and!; eauto.
Qed.

Lemma selected_named f n w : n ≠ ""%string → fl_Workspaces f !! n = Some w → selected f n = Ok (n, w).
Proof.
  intros Hn Hw. unfold selected. rewrite bool_decide_eq_false_2 by (intros E; by rewrite E in Hw). rewrite (bool_decide_eq_false_2 (n = _)) by done. cbn [negb]. by rewrite Hw.
Qed.

Section editing.
Context (ToLower : string → string) (getenv : string → string) (ParseDuration : string → option Duration) (listSep : ascii).

Abbreviation Resolve := (Resolve ToLower getenv ParseDuration listSep).
Abbreviation layered := (layered ToLower getenv ParseDuration listSep).

Lemma applyWorkspace_none c : applyWorkspace ParseDuration noWorkspace c = c.
Proof. clear. apply Config_eq; reflexivity. Qed.

(** The name is carried through the layers. *)
Lemma applyWorkspace_name n ws c : applyWorkspace ParseDuration ws (with_name n c) = with_name n (applyWorkspace ParseDuration ws c).
Proof. clear. reflexivity. Qed.
Lemma applyEnv_name n c : applyEnv getenv ParseDuration listSep (with_name n c) = with_name n (applyEnv getenv ParseDuration listSep c).
Proof. clear. reflexivity. Qed.
Lemma applyOverrides_name n o c : applyOverrides o (with_name n c) = with_name n (applyOverrides (naming "" o) c).
Proof. clear. reflexivity. Qed.

Lemma parsedShare_name n b : parsedShare (with_name n b) = mapOk (with_name n) (parsedShare b).
Proof.
  clear. unfold parsedShare, with_name. cbn [cf_ShareOwner cf_ShareUID cf_ShareGID cf_ShareFMask cf_ShareFileMask cf_ShareDMask cf_ShareDirMask cf_shareOwnerSource cf_shareFMaskSource cf_shareDMaskSource with_connection].
  destruct (bool_decide _); [|destruct (ParseOwner _); [|done]].
  all: destruct (bool_decide (cf_ShareFMask b = _)); [|destruct (ParseFileMask _); [|done]].
  all: destruct (bool_decide (cf_ShareDMask b = _)); [|destruct (ParseDirMask _); [|done]]; done.
Qed.

Lemma Resolve_naming f n o w : n ≠ ""%string → fl_Workspaces f !! n = Some w →
  Resolve (naming n o) f = let? c := parsedShare (layered o f n w) in
    match AccountName ToLower (cf_User c) with
    | None => Err BadUser
    | Some account =>
        let '(_, _, scheme) := splitScheme ToLower (strings.TrimSpace (cf_Host c)) in
        let port := if (cf_Port c =? 0) && negb scheme then DefaultSSHPort else cf_Port c in
        if negb (port =? 0) && ((port <? 0) || (65535 <? port)) then Err (BadPort port)
        else Ok (with_connection (cf_Name c) (cf_Host c) port account (cf_Endpoint c) c)
    end.
Proof. intros Hn Hw. unfold Config.Resolve. cbn [naming ov_Workspace]. unfold orText. rewrite (bool_decide_eq_false_2 _ Hn). by rewrite (selected_named f n w). Qed.

(** C34 (functional). Adding or removing a workspace leaves the others as they were.  Every other entry
    resolves to the same configuration, whatever is asked for beside it.  A file
    that described one workspace without a name keeps it when a second is added:
    under its default's name or its host, with every setting it had; and the new
    one inherits nothing of it.  A workspace that is added resolves to itself. *)
Theorem edits_keep_the_others n f f' : edit n f f' →
  (∀ m w o, m ≠ ""%string → m ≠ n → fl_Workspaces f !! m = Some w → Resolve (naming m o) f' = Resolve (naming m o) f) ∧
  (∀ ws, SetWorkspace n ws f = Ok f' →
     selected f' n = Ok (n, ws) ∧
     (flatAlone f → fl_Workspace f' = noWorkspace ∧
        (flatName f ≠ n → getenv EnvWorkspace = ""%string → ∀ o, Resolve (naming (flatName f) o) f' = mapOk (with_name (flatName f)) (Resolve (naming "" o) f)))).
Proof.
  intros He. split.
  - intros m w o Hm Hne Hw. assert (fl_Workspaces f' !! m = Some w ∧ fl_Workspace f' = fl_Workspace f) as [Hw' Hf].
    { destruct He as [ws H|H].
      - apply Set_spec in H as (_ & _ & H). rewrite decide_False in H by (intros [_ E]; by rewrite E in Hw). destruct H as [-> ->]. split; [by rewrite lookup_insert_ne|done].
      - apply Remove_spec in H as (_ & -> & -> & _). split; [by rewrite lookup_delete_ne|done]. }
    rewrite !(Resolve_naming _ m o w) by done. unfold Config.layered. by rewrite Hf.
  - intros ws H. apply Set_spec in H as (Hn & _ & H). split.
    { apply selected_named; [done|]. destruct (decide (flatAlone f)); destruct H as [_ ->]; apply lookup_insert_eq. }
    intros Hflat. rewrite decide_True in H by done. destruct H as [Hb Hw]. split; [done|]. intros Hne Henv o. destruct Hflat as [Hh H0].
    assert (flatName f ≠ ""%string) as Hfn by (unfold flatName, orText; by case_bool_decide). rewrite decide_False in Hw by done.
    rewrite (Resolve_naming f' (flatName f) o (fl_Workspace f)) by (done || (rewrite Hw, lookup_insert_ne by done; by rewrite lookup_singleton_eq)).
    unfold Config.Resolve. cbn [naming ov_Workspace]. rewrite Henv. cbn [orText]. change (orText "" "") with ""%string. unfold selected. rewrite bool_decide_eq_true_2 by done.
    rewrite (bool_decide_eq_true_2 (""%string = _)) by done. cbv beta iota. cbn [fst snd].
    assert (layered o f' (flatName f) (fl_Workspace f) = with_name (flatName f) (layered (naming "" o) f "" noWorkspace)) as ->.
    { unfold Config.layered. rewrite Hb, !applyWorkspace_none.
      change (with_connection (flatName f) "" 0 ?u "" noConfig) with (with_name (flatName f) (with_connection "" "" 0 u "" noConfig)).
      by rewrite applyWorkspace_name, applyEnv_name, applyOverrides_name. }
    rewrite parsedShare_name. destruct (parsedShare (layered _ f "" noWorkspace)) as [p|]; [|done]. cbn [mapOk]. unfold with_name at 1 2 3 4 5 6. cbn [cf_User cf_Host cf_Port cf_Name cf_Endpoint with_connection].
    destruct (AccountName ToLower (cf_User p)); [|done]. destruct (splitScheme _ _) as [[? ?] ?]. set (port := if _ && _ then DefaultSSHPort else cf_Port p). by destruct (negb (port =? 0) && _).
Qed.

End editing.

(** ** The default *)

(** A default that is set is configured, or is the name the one nameless workspace
    will have. *)
Definition default_ok (f : File) : Prop := fl_Default f = ""%string ∨ is_Some (fl_Workspaces f !! fl_Default f) ∨ flatAlone f.

Lemma FileNames_in f n : n ∈ FileNames f → is_Some (fl_Workspaces f !! n).
Proof. unfold FileNames, sort_strings. rewrite elem_of_stable_sort, list_elem_of_fmap. intros ([k w] & -> & H%elem_of_map_to_list). eauto. Qed.

Lemma edit_default n f f' : edit n f f' → default_ok f → default_ok f'.
Proof.
  intros [ws H|H] Hd.
  - apply Set_spec in H as (Hn & Ed & H). unfold default_ok. rewrite Ed. unfold orText. case_bool_decide as E0.
    { right. left. destruct (decide (flatAlone f)); destruct H as [_ ->]; rewrite lookup_insert_eq; eauto. }
    right. left. destruct (decide (flatAlone f)) as [Hf|Hf]; destruct H as [_ ->].
    + assert (flatName f = fl_Default f) as -> by (unfold flatName, orText; by rewrite bool_decide_eq_false_2). destruct (decide (fl_Default f = n)) as [->|Hne]; [rewrite lookup_insert_eq; eauto|].
      rewrite lookup_insert_ne, lookup_singleton_eq by done. eauto.
    + destruct Hd as [?|[?|?]]; [done| |done]. destruct (decide (fl_Default f = n)) as [->|Hne]; [rewrite lookup_insert_eq; eauto|]. by rewrite lookup_insert_ne.
  - apply Remove_spec in H as ([w Hw] & Ef & Ew & H). unfold default_ok. destruct (decide (fl_Default f = n)) as [E|E].
    { destruct H as [H|H]; [by left|]. right. left. apply FileNames_in. rewrite H. by apply list_elem_of_singleton. }
    rewrite H. destruct Hd as [?|[?|[_ Hf]]]; [by left| |by rewrite Hf in Hw]. right. left. by rewrite Ew, lookup_delete_ne.
Qed.

(** The default workspace is always there.  However workspaces are added and removed,
    in either form of the file, a command that names none is never told that the
    default is not configured: it gets a workspace, or is asked to choose between
    several when there is no default. *)
Theorem default_never_dangles f f' : rtc (λ f f', ∃ n, edit n f f') f f' → default_ok f →
  default_ok f' ∧ match selected f' "" with Ok _ => True | Err e => e = SeveralWorkspaces ∧ (1 < size (fl_Workspaces f'))%nat ∧ fl_Default f' = ""%string end.
Proof.
  intros Hr Hd. assert (default_ok f') as Hd'. { induction Hr as [|f f1 f2 [n He] _ IH]; [done|]. by apply IH, (edit_default n f). }
  split; [done|]. clear Hr Hd f. unfold selected. case_bool_decide as E0; [by rewrite bool_decide_eq_true_2|]. rewrite (bool_decide_eq_true_2 (""%string = _)) by done. cbn [negb].
  destruct (decide (fl_Default f' = ""%string)) as [Ed|Ed].
  - rewrite (bool_decide_eq_true_2 _ Ed). cbn [negb]. assert (length (FileNames f') = size (fl_Workspaces f')) as Hl.
    { unfold FileNames, sort_strings. by rewrite length_stable_sort, length_fmap, length_map_to_list. }
    destruct (FileNames f') as [|only [|n2 l]] eqn:El.
    + cbn in Hl. symmetry in Hl. by apply map_size_empty_iff in Hl.
    + destruct (FileNames_in f' only) as [w Hw]; [rewrite El; by apply list_elem_of_singleton|]. by rewrite Hw.
    + split; [done|]. split; [|done]. rewrite <- Hl. cbn. lia.
  - rewrite (bool_decide_eq_false_2 _ Ed). cbn [negb]. destruct Hd' as [?|[[w Hw]|[_ ?]]]; [done| |done]. by rewrite Hw.
Qed.

(** ** Settings are compared by what they mean *)

Lemma fieldsFuncGo_word f w s acc : everyByte (λ a, negb (f a)) w = true → fieldsFuncGo f (w +:+ s) acc = fieldsFuncGo f s (acc +:+ w).
Proof.
  revert acc. induction w as [|a w IH]; intros acc; cbn; [by rewrite append_nil_r|]. intros [Ha Hw]%andb_true_iff. apply negb_true_iff in Ha. rewrite Ha, IH by done. by rewrite append_assoc.
Qed.

Lemma FieldsFunc_Join f ws : f ","%char = true → Forall (λ w, w ≠ ""%string ∧ everyByte (λ a, negb (f a)) w = true) ws → FieldsFunc f (strings.Join ws ",") = ws.
Proof.
  intros Hc H. unfold FieldsFunc. induction H as [|w ws [Hne Hw] H IH]; [done|]. destruct ws as [|w2 ws].
  - cbn [strings.Join]. rewrite <- (append_nil_r w) at 1. rewrite fieldsFuncGo_word by done. cbn. by rewrite bool_decide_eq_false_2.
  - rewrite Join_cons by done. rewrite fieldsFuncGo_word by done. cbn [String.append fieldsFuncGo]. rewrite Hc, (bool_decide_eq_false_2 (w = _)) by done. by rewrite IH.
Qed.

(** Ports in a canonical list: each a port, and rising. *)
Definition portList (ps : list Z) : Prop := Forall (λ p, 1 ≤ p ≤ MaxPort) ps ∧ StronglySorted Z.lt ps.

Lemma compact_sorted l : StronglySorted (λ a b, (a <=? b) = true) l → StronglySorted Z.lt (compact l) ∧ (∀ x, x ∈ compact l ↔ x ∈ l).
Proof.
  induction 1 as [|a l Hl [IH1 IH2] Ha]; [split; [constructor|done]|]. destruct l as [|b l]; [split; [repeat constructor|done]|].
  change (compact (a :: b :: l)) with (if a =? b then compact (b :: l) else a :: compact (b :: l)). destruct (Z.eqb_spec a b) as [->|Hne].
  - split; [done|]. intros x. rewrite IH2. set_solver.
  - split; [|set_solver]. constructor; [done|]. rewrite Forall_forall. intros x Hx%IH2. rewrite Forall_forall in Ha. pose proof (Ha b ltac:(set_solver)) as Hab%Z.leb_le.
    apply elem_of_cons in Hx as [->|Hx]; [lia|]. inversion Hl as [|? ? _ Hb]; subst. rewrite Forall_forall in Hb. specialize (Hb x Hx) as Hbx%Z.leb_le. lia.
Qed.

Lemma compact_id l : StronglySorted Z.lt l → compact l = l.
Proof.
  induction 1 as [|a l Hl IH Ha]; [done|]. destruct l as [|b l]; [done|]. change (compact (a :: b :: l)) with (if a =? b then compact (b :: l) else a :: compact (b :: l)).
  inversion Ha; subst. rewrite (proj2 (Z.eqb_neq a b)) by lia. by rewrite IH.
Qed.

Lemma sort_id l : StronglySorted Z.lt l → stable_sort Z.leb l = l.
Proof.
  induction 1 as [|a l Hl IH Ha]; [done|]. cbn. rewrite IH. destruct l as [|b l]; [done|]. cbn. inversion Ha; subst. by rewrite (proj2 (Z.leb_le a b)) by lia.
Qed.

Lemma parsePorts_spec ws ps : parsePorts ws = Ok ps → Forall (λ p, 1 ≤ p ≤ MaxPort) ps.
Proof.
  revert ps. induction ws as [|w ws IH]; intros ps; cbn; [by intros [= <-]|]. destruct (Atoi w) as [p|]; [|done]. destruct ((p <? 1) || (MaxPort <? p)) eqn:E; [done|].
  destruct (parsePorts ws) as [ps'|]; [|done]. intros [= <-]. constructor; [|by apply IH]. apply orb_false_iff in E as [?%Z.ltb_ge ?%Z.ltb_ge]. lia.
Qed.

Lemma parsePorts_Itoa ps : Forall (λ p, 1 ≤ p ≤ MaxPort) ps → parsePorts (Itoa <$> ps) = Ok ps.
Proof.
  induction 1 as [|p ps Hp _ IH]; [done|]. cbn. unfold MaxPort in *. rewrite Atoi_Itoa by lia. rewrite (proj2 (Z.ltb_ge p 1)), (proj2 (Z.ltb_ge _ p)) by lia. cbn. by rewrite IH.
Qed.

Section canonical.
Context (ToLower : string → string) (listSep : ascii) (ToLower_lower : ∀ s, everyByte accountByte s = true → ToLower s = s) (listSep_digit : digit listSep = None).

Lemma Itoa_field p : 0 ≤ p → Itoa p ≠ ""%string ∧ everyByte (λ a, negb (Ascii.eqb a "," || Ascii.eqb a listSep)) (Itoa p) = true ∧ strings.TrimSpace (Itoa p) = Itoa p.
Proof using listSep_digit.
  clear ToLower_lower. intros Hp. destruct (Itoa_digits p Hp) as (_ & Hd & Hne). split; [done|]. split; [|apply TrimSpace_visible; by apply allDigits_visible].
  clear Hne. induction (Itoa p) as [|a s IH]; [done|]. cbn in *. destruct (digit a) eqn:E; [|done]. rewrite IH by done. rewrite andb_true_r, negb_true_iff, orb_false_iff. split.
  - apply Ascii.eqb_neq. intros ->. by vm_compute in E.
  - apply Ascii.eqb_neq. intros ->. congruence.
Qed.

Lemma splitList_ports ps : Forall (λ p, 1 ≤ p ≤ MaxPort) ps → splitList listSep (HostPortList ps) = Itoa <$> ps.
Proof using listSep_digit.
  intros H. unfold splitList, HostPortList. rewrite FieldsFunc_Join; [|done|].
  - assert (strings.TrimSpace <$> (Itoa <$> ps) = Itoa <$> ps) as ->.
    { clear -H listSep_digit. induction H as [|p ps Hp _ IH]; [done|]. cbn. rewrite IH. destruct (Itoa_field p) as (_ & _ & ->); [lia|done]. }
    induction H as [|p ps Hp _ IH]; [done|]. rewrite fmap_cons, filter_cons, decide_True; [by rewrite IH|]. by destruct (Itoa_field p) as (? & _); [lia|].
  - rewrite Forall_fmap. eapply Forall_impl; [exact H|]. intros p [Hp _]. cbv beta in Hp |- *. destruct (Itoa_field p) as (? & ? & _); [lia|]. done.
Qed.

Lemma host_ports_back ps : portList ps → ParseHostPorts listSep (HostPortList ps) = Ok ps.
Proof using listSep_digit. intros [H Hs]. unfold ParseHostPorts. rewrite splitList_ports, parsePorts_Itoa by done. by rewrite sort_id, compact_id. Qed.

Lemma ParseHostPorts_list s ps : ParseHostPorts listSep s = Ok ps → portList ps ∧ ∃ raw, parsePorts (splitList listSep s) = Ok raw ∧ ∀ p, p ∈ ps ↔ p ∈ raw.
Proof.
  clear. unfold ParseHostPorts. destruct (parsePorts _) as [raw|] eqn:E; [|done]. intros [= <-].
  destruct (compact_sorted (stable_sort Z.leb raw)) as [H1 H2]; [apply stable_sort_sorted; intros; rewrite ?Z.leb_le in *; lia|].
  assert (∀ p, p ∈ compact (stable_sort Z.leb raw) ↔ p ∈ raw) as Hin by (intros p; by rewrite H2, elem_of_stable_sort).
  split; [split; [|done]|eauto]. apply parsePorts_spec in E. rewrite Forall_forall in *. intros p Hp. by apply E, Hin.
Qed.

(** What two sessions compare is what a setting means.  A value in its one spelling is
    spelled the same again, for a mode, a watch, a prefetch and host ports; the list
    of host ports is the ports that were written, each once and
    rising, and reads back as itself; and a list with something in it that is no port
    is refused whole. *)
Theorem settings_compare_by_meaning :
  (∀ s fallback, fallback = DefaultMode ∨ fallback = ModeUnset → canonicalMode (canonicalMode s fallback) fallback = canonicalMode s fallback) ∧
  (∀ s, canonicalWatch ToLower (canonicalWatch ToLower s) = canonicalWatch ToLower s) ∧
  (∀ s, canonicalPrefetch (canonicalPrefetch s) = canonicalPrefetch s) ∧
  (∀ s, canonicalHostPorts listSep (canonicalHostPorts listSep s) = canonicalHostPorts listSep s) ∧
  (∀ s ps, ParseHostPorts listSep s = Ok ps → portList ps ∧ ParseHostPorts listSep (HostPortList ps) = Ok ps ∧
     ∀ p, p ∈ ps ↔ ∃ field, field ∈ splitList listSep s ∧ Atoi field = Some p) ∧
  (∀ s field, field ∈ splitList listSep s → (∀ p, Atoi field = Some p → p < 1 ∨ MaxPort < p) → is_ok (ParseHostPorts listSep s) = false).
Proof using ToLower_lower listSep_digit.
  split_and!.
  - intros s fb Hfb. unfold canonicalMode. destruct (ParseMode s) as [m|] eqn:E; [|by rewrite E]. destruct (decide (Or m fb = ModeUnset)) as [Eu|Eu]; [rewrite Eu; by destruct Hfb as [->| ->]|].
    rewrite mode_words_back by done. f_equal. by destruct m as [[] []], Hfb as [->| ->].
  - intros s. unfold canonicalWatch. destruct (ParseWatchSetting ToLower s) as [w|] eqn:E; [|by rewrite E].
    assert (ParseWatchSetting ToLower (Watch_String w) = Ok (if decide (w = WatchUnset) then WatchOff else w)) as ->; [|by destruct w].
    unfold ParseWatchSetting. destruct w; cbn [Watch_String]; rewrite ToLower_lower by reflexivity; reflexivity.
  - intros s. unfold canonicalPrefetch. destruct (bool_decide (strings.TrimSpace s = "")) eqn:E; [reflexivity|]. destruct (ParsePrefetch s) as [p|] eqn:Ep; [by destruct p|by rewrite E, Ep].
  - intros s. unfold canonicalHostPorts. destruct (ParseHostPorts listSep s) as [ps|] eqn:E; [|by rewrite E]. apply ParseHostPorts_list in E as [Hl _]. by rewrite host_ports_back.
  - intros s ps H. apply ParseHostPorts_list in H as (Hl & raw & Hraw & Hin). split_and!; [done|by apply host_ports_back|]. intros p. rewrite Hin. clear Hl Hin. revert raw Hraw.
    induction (splitList listSep s) as [|w ws IH]; intros raw; cbn; [intros [= <-]; set_solver|]. destruct (Atoi w) as [q|] eqn:Eq; [|done]. destruct (_ || _); [done|].
    destruct (parsePorts ws) as [r|]; [|done]. intros [= <-]. rewrite elem_of_cons, (IH r eq_refl). setoid_rewrite elem_of_cons. split; [intros [->|(f & ? & ?)]; eauto|].
    intros (f & [->|?] & Hf); [left; congruence|eauto].
  - intros s field Hin Hbad. unfold ParseHostPorts. assert (∃ e, parsePorts (splitList listSep s) = Err e) as [e ->]; [|done].
    induction (splitList listSep s) as [|w ws IH]; [by apply elem_of_nil in Hin|]. cbn. apply elem_of_cons in Hin as [->|Hin].
    + destruct (Atoi w) as [q|]; [|eauto]. destruct (Hbad q eq_refl); [rewrite (proj2 (Z.ltb_lt q 1)) by lia; cbn; eauto|]. rewrite (proj2 (Z.ltb_lt _ q)), orb_true_r by lia. eauto.
    + destruct (IH Hin) as [e He]. rewrite He. destruct (Atoi w); [|eauto]. destruct (_ || _); eauto.
Qed.

End canonical.

(** A drift is reported exactly: the settings this process names, that the running
    session reports, and whose values differ; and none between a session and its own
    configuration. *)
Theorem drift_is_what_differs running ours named x :
  x ∈ DiffSettings running ours named ↔
  named (sc_Name x) = true ∧ running !! sc_Name x = Some (sc_Running x) ∧ ours !! sc_Name x = Some (sc_Ours x) ∧ sc_Running x ≠ sc_Ours x.
Proof.
  unfold DiffSettings. rewrite elem_of_stable_sort, list_elem_of_omap. split.
  - intros ([k v] & H%elem_of_map_to_list & Hx). unfold settingChange in Hx. cbn in Hx. destruct (named k) eqn:En; [|done]. cbn in Hx. destruct (running !! k) as [have|] eqn:Er; [|done].
    case_bool_decide as E; [done|]. injection Hx as <-. done.
  - intros (Hn & Hr & Ho & Hne). exists (sc_Name x, sc_Ours x). split; [by apply elem_of_map_to_list|]. unfold settingChange. cbn. rewrite Hn, Hr. cbn. rewrite bool_decide_eq_false_2 by done. by destruct x.
Qed.

(** A workspace is reached at one port: the one its URL names, which the setting may
    repeat but not contradict; else the setting; else the scheme's own.  A machine is
    never reached through a WebSocket. *)
Theorem transport_has_one_port ToLower urlParse urlString c t :
  transportOf ToLower urlParse urlString c = Ok t →
  (is_Some (cf_Machine c) → WebSocket t = false) ∧
  ((∃ u n, Atoi (ur_Port u) = Some n ∧ 0 < n ∧ tr_Port t = n ∧ tr_Host t = ur_Hostname u ∧ (cf_Port c = 0 ∨ cf_Port c = n)) ∨
   cf_Port c ≠ 0 ∧ tr_Port t = cf_Port c ∨
   cf_Port c = 0 ∧ tr_Port t = (if WebSocket t then defaultPortFor (tr_Kind t) else DefaultSSHPort)).
Proof.
  assert (∀ u fb p, portFor u fb c = Ok p → (∃ n, Atoi (ur_Port u) = Some n ∧ 0 < n ∧ p = n ∧ (cf_Port c = 0 ∨ cf_Port c = n)) ∨ cf_Port c ≠ 0 ∧ p = cf_Port c ∨ cf_Port c = 0 ∧ p = fb) as Hport.
  { intros u fb p. unfold portFor. case_bool_decide.
    - cbn. intros [= <-]. right. unfold portOr. destruct (Z.eqb_spec (cf_Port c) 0); [by right|by left].
    - destruct (Atoi (ur_Port u)) as [n|]; [|done]. destruct (Z.leb_spec n 0); [done|]. rewrite (proj2 (Z.eqb_neq n 0)) by lia. cbn [negb andb].
      destruct (Z.eqb_spec (cf_Port c) 0); cbn [negb andb]; [intros [= <-]; left; eauto 10|]. destruct (Z.eqb_spec (cf_Port c) n); cbn [negb]; [|done]. intros [= <-]. left. eauto 10. }
  unfold transportOf. case_bool_decide; [done|]. destruct (splitScheme _ _) as [[scheme rest] ok]. destruct ok; cbn [negb].
  2: { intros [= <-]. cbn. split; [done|]. right. unfold portOr. destruct (Z.eqb_spec (cf_Port c) 0); [by right|by left]. }
  case_bool_decide as Es.
  - destruct (parse _ _ _) as [u|]; [|done]. destruct (portFor u _ c) as [p|] eqn:Ep; [|done]. intros [= <-]. cbn. split; [done|]. apply Hport in Ep as [(n & ? & ? & -> & ?)|[?|?]]; [left; eauto 10|auto..].
  - destruct (bool_decide (scheme = TransportWS) || bool_decide (scheme = TransportWSS)) eqn:Ew; [|done]. destruct (bool_decide (is_Some (cf_Machine c))) eqn:Em; [done|]. apply bool_decide_eq_false in Em.
    destruct (parse _ _ _) as [u|]; [|done]. destruct (portFor u _ c) as [p|] eqn:Ep; [|done]. intros [= <-]. split; [done|]. unfold WebSocket. cbn [tr_Kind tr_Port tr_Host ur_Hostname]. rewrite Ew.
    apply Hport in Ep as [(n & ? & ? & -> & ?)|[?|?]]; [left; eauto 10|auto..].
Qed.

(** A file is replaced whole or left as it was, and what was saved is loaded, through
    as many failed reads as are tried again. *)
Theorem saved_file_is_loaded env f old ok disk answer : Save env f old = (ok, disk) →
  (ok = false → disk = old) ∧
  (ok = true → disk = Some f ∧ ∀ k, (k < readRetries)%nat → (∀ i, (i < k)%nat → answer i = ReadFailed) → answer k = ReadData disk → Load answer = Ok f).
Proof.
  unfold Save, WriteAtomic. destruct (_ && _); intros [= <- <-]; [|done]. split; [done|]. intros _. split; [done|]. intros k Hk Hf Ha. unfold Load, readRetries in *.
  destruct k as [|[|[|k]]]; [| | |lia]; cbn [readLoop Nat.eqb].
  - by rewrite Ha.
  - by rewrite (Hf 0%nat), Ha by lia.
  - by rewrite (Hf 0%nat), (Hf 1%nat), Ha by lia.
Qed.
