(* ===== verification/HostPorts.v ===== *)
(** * Local ports a container can reach (client/internal/session/hostports.go)

    What a connection has bound on the workspace for the listed ports.  A listener is
    the number it was opened as and the address it is at; whether the workspace binds an address, what it answers for the gateway and
    what [netip.ParseAddr] makes of it are arguments.  Everything under the
    connection's mutex is one definition; [SetHostPorts] and [startHostPorts], which
    hold the session's and the connection's one after the other, are steps. *)
From S2P Require Import Prelude GoStrings Records.

Open Scope Z_scope.

Definition listener : Type := nat * string.

Record hostForward := {
  hf_port : Z;
  hf_listener : option listener;
  hf_problem : string
}.

(** What a connection keeps of them, and the listeners the workspace holds for it. *)
Record hostConn := {
  hc_forwards : list hostForward;
  hc_closed : bool;
  hc_gateway : string;
  hc_info : string;
  hc_open : gset listener;
  hc_next : nat
}.

Definition newHostConn (info : string) : hostConn :=
  {| hc_forwards := []; hc_closed := false; hc_gateway := ""; hc_info := info; hc_open := ∅; hc_next := 0 |}.

Record hostEnv := {
  he_info : option string;
  he_addr4 : string → option string;
  he_listen : string → bool
}.

(** [hostGateway]: the address, and what is kept of the second answer. *)
Definition hostGateway (env : hostEnv) (c : hostConn) : string * string :=
  let info := if bool_decide (hc_info c = "") then default (hc_info c) (he_info env) else hc_info c in
  (default ""%string (he_addr4 env info), info).

Definition hostBound (port : Z) (fs : list hostForward) : bool :=
  existsb (λ f, (hf_port f =? port) && bool_decide (is_Some (hf_listener f))) fs.

(** [sortHostForwards]; forwards of one port are in some order. *)
Definition sortHostForwards (fs : list hostForward) : list hostForward := stable_sort (λ a b, hf_port a <=? hf_port b) fs.

Definition noGateway : string := "this workspace reports no host gateway".

(** [net.JoinHostPort] of an IPv4 address. *)
Definition hostAddr (gateway : string) (port : Z) : string := gateway +:+ ":" +:+ Itoa port.
Definition refused (addr : string) : string := "the workspace refused " +:+ addr.

Definition set_forwards (fs : list hostForward) (c : hostConn) : hostConn :=
  {| hc_forwards := fs; hc_closed := hc_closed c; hc_gateway := hc_gateway c; hc_info := hc_info c; hc_open := hc_open c; hc_next := hc_next c |}.
Definition SetHostGateway (g : string) (c : hostConn) : hostConn :=
  {| hc_forwards := hc_forwards c; hc_closed := hc_closed c; hc_gateway := g; hc_info := hc_info c; hc_open := hc_open c; hc_next := hc_next c |}.
Definition set_info (info : string) (c : hostConn) : hostConn :=
  {| hc_forwards := hc_forwards c; hc_closed := hc_closed c; hc_gateway := hc_gateway c; hc_info := info; hc_open := hc_open c; hc_next := hc_next c |}.

(** A port that is not bound, with why. *)
Definition giveUp (port : Z) (problem : string) (c : hostConn) : hostConn :=
  set_forwards (hc_forwards c ++ [{| hf_port := port; hf_listener := None; hf_problem := problem |}]) c.

(** [live.ssh.Listen]. *)
Definition listen (addr : string) (port : Z) (c : hostConn) : hostConn :=
  let l := (hc_next c, addr) in
  {| hc_forwards := hc_forwards c ++ [{| hf_port := port; hf_listener := Some l; hf_problem := "" |}];
     hc_closed := hc_closed c; hc_gateway := hc_gateway c; hc_info := hc_info c; hc_open := {[l]} ∪ hc_open c; hc_next := S (hc_next c) |}.

Definition bindPort (env : hostEnv) (gateway : string) (c : hostConn) (port : Z) : hostConn :=
  if hostBound port (hc_forwards c) then c
  else
    let addr := hostAddr gateway port in
    if he_listen env addr then listen addr port c else giveUp port (refused addr) c.

Definition markPort (c : hostConn) (port : Z) : hostConn := if hostBound port (hc_forwards c) then c else giveUp port noGateway c.

(** The forwards that stay, and the listeners that are closed. *)
Definition stays (ports : list Z) (f : hostForward) : bool := bool_decide (is_Some (hf_listener f)) && bool_decide (hf_port f ∈ ports).
Definition keepListed (ports : list Z) (c : hostConn) : hostConn :=
  let kept := filter (λ f, stays ports f = true) (hc_forwards c) in
  let closing := omap hf_listener (filter (λ f, stays ports f = false) (hc_forwards c)) in
  {| hc_forwards := kept; hc_closed := hc_closed c; hc_gateway := hc_gateway c; hc_info := hc_info c; hc_open := hc_open c ∖ list_to_set closing; hc_next := hc_next c |}.

Definition applyHostPorts (env : hostEnv) (ports : list Z) (c : hostConn) : hostConn :=
  if hc_closed c then c
  else
    let c := keepListed ports c in
    match ports with
    | [] => SetHostGateway "" c
    | _ =>
        let '(gateway, info) := hostGateway env c in
        let c := set_info info c in
        let c := SetHostGateway gateway c in
        let c := if bool_decide (gateway = "") then foldl markPort c ports else foldl (bindPort env gateway) c ports in
        set_forwards (sortHostForwards (hc_forwards c)) c
    end.

Definition closeHostForwards (c : hostConn) : hostConn :=
  {| hc_forwards := hc_forwards c; hc_closed := true; hc_gateway := hc_gateway c; hc_info := hc_info c;
     hc_open := hc_open c ∖ list_to_set (omap hf_listener (hc_forwards c)); hc_next := hc_next c |}.

(** [hostForwardStatus]: a port and why it is not forwarded. *)
Definition hostForwardStatus (c : hostConn) : list (Z * option string) :=
  (λ f, (hf_port f, if bool_decide (hf_problem f = "") then None else Some (hf_problem f))) <$> hc_forwards c.

(** ** A session and its connection *)

(** What is between two holds: the callers of [SetHostPorts] that have stored their
    list, each with the connection it took once it has looked ([ss_gen] numbers the
    connections); and the connection that is being built from a copy of the list. *)
Record session := {
  ss_ports : list Z;
  ss_live : option hostConn;
  ss_gen : nat;
  ss_building : option (list Z);
  ss_setting : list (list Z * option nat)
}.

Definition with_setting (l : list (list Z * option nat)) (s : session) : session :=
  {| ss_ports := ss_ports s; ss_live := ss_live s; ss_gen := ss_gen s; ss_building := ss_building s; ss_setting := l |}.
Definition with_live (live : option hostConn) (s : session) : session :=
  {| ss_ports := ss_ports s; ss_live := live; ss_gen := ss_gen s; ss_building := ss_building s; ss_setting := ss_setting s |}.

Inductive session_step (env : hostEnv) : session → session → Prop :=
| h_store ports s : session_step env s
    {| ss_ports := ports; ss_live := ss_live s; ss_gen := ss_gen s; ss_building := ss_building s; ss_setting := (ports, None) :: ss_setting s |}
| h_none l1 ports l2 s : ss_setting s = l1 ++ (ports, None) :: l2 → ss_live s = None → session_step env s (with_setting (l1 ++ l2) s)
| h_take l1 ports l2 s c : ss_setting s = l1 ++ (ports, None) :: l2 → ss_live s = Some c →
    session_step env s (with_setting (l1 ++ (ports, Some (ss_gen s)) :: l2) s)
| h_apply l1 ports l2 s c : ss_setting s = l1 ++ (ports, Some (ss_gen s)) :: l2 → ss_live s = Some c →
    session_step env s (with_live (Some (applyHostPorts env ports c)) (with_setting (l1 ++ l2) s))
| h_late l1 ports gen l2 s : ss_setting s = l1 ++ (ports, Some gen) :: l2 → gen ≠ ss_gen s ∨ ss_live s = None → session_step env s (with_setting (l1 ++ l2) s)
| h_copy s : ss_live s = None → ss_building s = None → session_step env s
    {| ss_ports := ss_ports s; ss_live := None; ss_gen := ss_gen s; ss_building := Some (ss_ports s); ss_setting := ss_setting s |}
| h_connect ports info s : ss_live s = None → ss_building s = Some ports → session_step env s
    {| ss_ports := ss_ports s; ss_live := Some (applyHostPorts env ports (newHostConn info)); ss_gen := S (ss_gen s); ss_building := None; ss_setting := ss_setting s |}
| h_close s c : ss_live s = Some c → session_step env s (with_live (Some (closeHostForwards c)) s)
| h_gone s c : ss_live s = Some c → hc_closed c = true → session_step env s (with_live None s).

Definition startSession (ports : list Z) : session := {| ss_ports := ports; ss_live := None; ss_gen := 0; ss_building := None; ss_setting := [] |}.

(** * Properties of the host ports *)

(** The listeners the workspace holds are those of the forwards, each once, and a port
    has one. *)
Record host_ok (c : hostConn) : Prop := {
  ho_open : ∀ id, id ∈ hc_open c ↔ hc_closed c = false ∧ id ∈ omap hf_listener (hc_forwards c);
  ho_fresh : ∀ id, id ∈ omap hf_listener (hc_forwards c) → (id.1 < hc_next c)%nat;
  ho_ids : NoDup (omap hf_listener (hc_forwards c));
  ho_ports : NoDup (hf_port <$> filter (λ f, is_Some (hf_listener f)) (hc_forwards c));
  ho_why : ∀ f, f ∈ hc_forwards c → (hf_listener f = None ↔ hf_problem f ≠ ""%string)
}.

Lemma hostBound_spec port fs : hostBound port fs = true ↔ ∃ f, f ∈ fs ∧ hf_port f = port ∧ is_Some (hf_listener f).
Proof.
  unfold hostBound. rewrite existsb_exists. split; intros (f & H & H').
  - apply andb_true_iff in H' as [H1%Z.eqb_eq H2%bool_decide_eq_true]. exists f. split; [by apply list_elem_of_In|done].
  - exists f. split; [by apply list_elem_of_In|]. destruct H' as [-> ?]. by rewrite Z.eqb_refl, bool_decide_eq_true_2.
Qed.

Lemma newHostConn_ok info : host_ok (newHostConn info).
Proof. split; cbn; try constructor; set_solver. Qed.

Lemma set_forwards_ok fs c : fs ≡ₚ hc_forwards c → host_ok c → host_ok (set_forwards fs c).
Proof.
  intros Hp [H1 H2 H3 H4 H5]. assert (omap hf_listener fs ≡ₚ omap hf_listener (hc_forwards c)) as Ho by (by rewrite Hp). split; cbn.
  - intros id. rewrite Ho. apply H1.
  - intros id. rewrite Ho. apply H2.
  - by rewrite Ho.
  - by rewrite Hp.
  - intros f. rewrite Hp. apply H5.
Qed.

Lemma giveUp_ok port problem c : problem ≠ ""%string → host_ok c → host_ok (giveUp port problem c).
Proof.
  intros Hp [H1 H2 H3 H4 H5]. unfold giveUp. assert (omap hf_listener (hc_forwards c ++ [{| hf_port := port; hf_listener := None; hf_problem := problem |}]) = omap hf_listener (hc_forwards c)) as E by (rewrite omap_app; cbn; by rewrite app_nil_r).
  split; cbn; rewrite ?E; try done.
  - rewrite filter_app, filter_cons, decide_False by (by intros [? ?]). by rewrite app_nil_r.
  - intros f [Hf|Hf%list_elem_of_singleton]%elem_of_app; [by apply H5|]. by subst f.
Qed.

Lemma listen_ok addr port c : hc_closed c = false → hostBound port (hc_forwards c) = false → host_ok c → host_ok (listen addr port c).
Proof.
  intros Hc Hb [H1 H2 H3 H4 H5]. assert ((hc_next c, addr) ∉ omap hf_listener (hc_forwards c)) as Hn by (intros ?%H2; cbn in *; lia). split; cbn; rewrite ?omap_app; cbn.
  - intros id. rewrite elem_of_union, elem_of_singleton, H1, elem_of_app, list_elem_of_singleton. tauto.
  - intros id [?%H2|E%list_elem_of_singleton]%elem_of_app; [lia|]. subst id. cbn. lia.
  - apply NoDup_app. split; [done|]. split; [|apply NoDup_singleton]. intros x Hx E%list_elem_of_singleton. by subst x.
  - rewrite filter_app, fmap_app, filter_cons, decide_True by (by eexists). cbn. apply NoDup_app. split; [done|]. split; [|apply NoDup_singleton].
    intros x (f & -> & [Hl Hf]%list_elem_of_filter)%list_elem_of_fmap E%list_elem_of_singleton. assert (hostBound port (hc_forwards c) = true) by (apply hostBound_spec; eauto). congruence.
  - intros f [Hf|Hf%list_elem_of_singleton]%elem_of_app; [by apply H5|]. subst f. cbn. done.
Qed.

Lemma markPort_ok c port : host_ok c → host_ok (markPort c port).
Proof. intros H. unfold markPort. destruct (hostBound _ _); [done|]. by apply giveUp_ok. Qed.

Lemma bindPort_ok env g c port : hc_closed c = false → host_ok c → host_ok (bindPort env g c port) ∧ hc_closed (bindPort env g c port) = false.
Proof.
  intros Hc H. unfold bindPort. destruct (hostBound _ _) eqn:E; [done|]. destruct (he_listen env _); [by split; [apply listen_ok|]|]. split; [|done]. by apply giveUp_ok.
Qed.

Lemma keepListed_ok ports c : hc_closed c = false → host_ok c → host_ok (keepListed ports c).
Proof.
  intros Hc [H1 H2 H3 H4 H5]. set (P := λ f, stays ports f = true). assert (∀ x, stays ports x = false ↔ ¬ P x) as HP by (intros x; unfold P; destruct (stays ports x); split; congruence || tauto).
  assert (hc_forwards c ≡ₚ filter P (hc_forwards c) ++ filter (λ f, stays ports f = false) (hc_forwards c)) as Hperm.
  { rewrite <- (filter_app_complement P (hc_forwards c)) at 1. apply Permutation_app_head. apply Permutation_refl'. apply list_filter_iff. intros x. by rewrite HP. }
  pose proof H3 as Hnd. rewrite Hperm, omap_app in Hnd. apply NoDup_app in Hnd as (N1 & N2 & _). split; cbn; fold P.
  - intros id. rewrite elem_of_difference, elem_of_list_to_set, H1, Hc. rewrite Hperm at 1. rewrite omap_app, elem_of_app. split; [tauto|]. intros [_ H]. split; [tauto|]. by apply N2.
  - intros id Hid. apply H2. rewrite Hperm, omap_app. set_solver.
  - done.
  - assert (sublist (filter (λ f, is_Some (hf_listener f)) (filter P (hc_forwards c))) (filter (λ f, is_Some (hf_listener f)) (hc_forwards c))) as Hs.
    { rewrite list_filter_filter, (list_filter_iff _ (λ f, P f ∧ is_Some (hf_listener f))) by tauto. rewrite <- list_filter_filter. apply sublist_filter. }
    eapply sublist_NoDup; [exact H4|]. by apply fmap_sublist.
  - intros f [_ Hf]%list_elem_of_filter. by apply H5.
Qed.

(** ** The loop over the ports *)

(** What trying a port at a gateway comes to: a listener at the gateway's address and
    the port's number, which the workspace binds; or the reason there is none, which is
    so. *)
Definition tried (env : hostEnv) (gateway : string) (f : hostForward) : Prop :=
  let addr := hostAddr gateway (hf_port f) in
  match hf_listener f with
  | Some l => gateway ≠ ""%string ∧ he_listen env addr = true ∧ l.2 = addr
  | None => gateway = ""%string ∧ hf_problem f = noGateway ∨ gateway ≠ ""%string ∧ he_listen env addr = false ∧ hf_problem f = refused addr
  end.

(** What one turn does: it adds forwards of its port that come of trying it, if any,
    and there is one then. *)
Record portStep (T : hostForward → Prop) (g : hostConn → Z → hostConn) : Prop := {
  ps_adds : ∀ c p, ∃ extra, hc_forwards (g c p) = hc_forwards c ++ extra ∧ Forall (λ f, hf_port f = p ∧ T f) extra;
  ps_there : ∀ c p, ∃ f, f ∈ hc_forwards (g c p) ∧ hf_port f = p;
  ps_rest : ∀ c p, hc_closed (g c p) = hc_closed c ∧ hc_gateway (g c p) = hc_gateway c;
  ps_ok : ∀ c p, hc_closed c = false → host_ok c → host_ok (g c p)
}.

Lemma bound_there c p : hostBound p (hc_forwards c) = true → ∃ f, f ∈ hc_forwards c ∧ hf_port f = p.
Proof. intros (f & ? & ? & _)%hostBound_spec. eauto. Qed.

Lemma markPort_step env : portStep (tried env "") markPort.
Proof.
  split; intros c p; unfold markPort.
  - destruct (hostBound _ _); [exists []; by rewrite app_nil_r|]. eexists. split; [done|]. constructor; [|constructor]. split; [done|]. by left.
  - destruct (hostBound _ _) eqn:E; [by apply bound_there|]. eexists. cbn. split; [apply elem_of_app; right; by apply list_elem_of_singleton|done].
  - by destruct (hostBound _ _).
  - intros _ H. by apply markPort_ok.
Qed.

Lemma bindPort_step env g : g ≠ ""%string → portStep (tried env g) (bindPort env g).
Proof.
  intros Hg. split; intros c p; unfold bindPort.
  - destruct (hostBound _ _); [exists []; by rewrite app_nil_r|]. destruct (he_listen env _) eqn:E; eexists; (split; [done|]); (constructor; [|constructor]); (split; [done|]); [done|by right].
  - destruct (hostBound _ _) eqn:E; [by apply bound_there|]. destruct (he_listen env _); eexists; cbn; (split; [apply elem_of_app; right; by apply list_elem_of_singleton|done]).
  - destruct (hostBound _ _); [done|]. by destruct (he_listen env _).
  - intros Hc H. by apply bindPort_ok.
Qed.

Lemma foldl_ports T g ports c : portStep T g → hc_closed c = false → host_ok c →
  let c' := foldl g c ports in
  host_ok c' ∧ hc_closed c' = false ∧ hc_gateway c' = hc_gateway c ∧ (∀ f, f ∈ hc_forwards c → f ∈ hc_forwards c') ∧
  (∀ f, f ∈ hc_forwards c' → f ∈ hc_forwards c ∨ hf_port f ∈ ports ∧ T f) ∧ (∀ p, p ∈ ports → ∃ f, f ∈ hc_forwards c' ∧ hf_port f = p).
Proof.
  intros Hg. revert c. induction ports as [|p ports IH]; intros c Hc Hok; [cbn; split_and!; auto; set_solver|]. cbn [foldl]. destruct (ps_rest _ _ Hg c p) as [Rc Rg].
  destruct (IH (g c p)) as (I1 & I2 & I3 & I4 & I5 & I6); [by rewrite Rc|by apply (ps_ok _ _ Hg)|]. destruct (ps_adds _ _ Hg c p) as (extra & He & Hx). cbv zeta. split_and!; try done; [congruence| | |].
  - intros f Hf. apply I4. rewrite He. set_solver.
  - intros f [Hf|Hf]%I5; [|set_solver]. rewrite He in Hf. apply elem_of_app in Hf as [?|Hf]; [by left|]. right. rewrite Forall_forall in Hx. destruct (Hx f Hf) as [-> ?]. set_solver.
  - intros q [->|Hq]%elem_of_cons; [|by apply I6]. destruct (ps_there _ _ Hg c p) as (f & Hf & Ep). exists f. auto.
Qed.

(** The address containers are told. *)
Definition gatewayFor (env : hostEnv) (ports : list Z) (c : hostConn) : string :=
  match ports with [] => ""%string | _ => (hostGateway env c).1 end.

Lemma elem_of_keepListed ports c f : f ∈ hc_forwards (keepListed ports c) ↔ f ∈ hc_forwards c ∧ is_Some (hf_listener f) ∧ hf_port f ∈ ports.
Proof. unfold keepListed, stays. cbn. rewrite list_elem_of_filter, andb_true_iff, !bool_decide_eq_true. tauto. Qed.

Lemma sortHostForwards_sorted fs : StronglySorted Z.le (hf_port <$> sortHostForwards fs).
Proof.
  apply (StronglySorted_fmap hf_port (λ a b, (hf_port a <=? hf_port b) = true)); [intros a b; apply Z.leb_le|].
  apply stable_sort_sorted; [intros a b; rewrite !Z.leb_le; lia|intros a b d; rewrite !Z.leb_le; lia].
Qed.

Lemma apply_ok env ports c : host_ok c → host_ok (applyHostPorts env ports c).
Proof.
  intros H. unfold applyHostPorts. destruct (hc_closed c) eqn:E; [done|]. pose proof (keepListed_ok ports c E H) as Hk. destruct ports as [|p ports]; [by destruct Hk|].
  destruct (hostGateway env _) as [gateway info]. set (k := SetHostGateway gateway _). assert (host_ok k) as Hk' by (by destruct Hk). assert (hc_closed k = false) as Hc' by done.
  apply set_forwards_ok; [apply stable_sort_Permutation|]. case_bool_decide as Eg; [by apply (foldl_ports _ markPort _ k (markPort_step env))|by apply (foldl_ports _ _ _ k (bindPort_step env gateway Eg))].
Qed.

(** What one application makes of the forwards that stay and of the listed ports. *)
Lemma apply_tries env ports c : host_ok c → hc_closed c = false →
  let c' := applyHostPorts env ports c in let gateway := gatewayFor env ports c in
  hc_closed c' = false ∧ hc_gateway c' = gateway ∧
  (∀ f, f ∈ hc_forwards (keepListed ports c) → f ∈ hc_forwards c') ∧
  (∀ f, f ∈ hc_forwards c' → f ∈ hc_forwards (keepListed ports c) ∨ hf_port f ∈ ports ∧ tried env gateway f) ∧
  (∀ p, p ∈ ports → ∃ f, f ∈ hc_forwards c' ∧ hf_port f = p) ∧
  StronglySorted Z.le (hf_port <$> hc_forwards c').
Proof.
  intros Hok Hc. pose proof (keepListed_ok ports c Hc Hok) as Hk. unfold applyHostPorts. rewrite Hc. destruct ports as [|p0 ports'].
  { cbv zeta. split_and!; try done; [by left|intros p ?%elem_of_nil; done|]. replace (hc_forwards (SetHostGateway "" (keepListed [] c))) with (@nil hostForward); [constructor|].
    symmetry. apply elem_of_nil_inv. intros f (_ & _ & []%elem_of_nil)%elem_of_keepListed. }
  set (ports := p0 :: ports') in *. unfold gatewayFor. change (match ports with [] => ""%string | _ => (hostGateway env c).1 end) with (hostGateway env c).1.
  set (k := keepListed ports c) in *. change (hostGateway env k) with (hostGateway env c). destruct (hostGateway env c) as [gateway info]. cbv beta iota zeta. cbn [fst].
  set (k' := SetHostGateway gateway (set_info info k)). assert (host_ok k') as Hk' by (by destruct Hk). assert (hc_closed k' = false) as Hc' by done.
  set (g := if bool_decide (gateway = "") then markPort else bindPort env gateway). replace (if bool_decide (gateway = "") then foldl markPort k' ports else foldl (bindPort env gateway) k' ports) with (foldl g k' ports) by (unfold g; by case_bool_decide).
  assert (portStep (tried env gateway) g) as Hg by (unfold g; case_bool_decide as Eg; [rewrite Eg; apply markPort_step|by apply bindPort_step]).
  destruct (foldl_ports _ g ports k' Hg Hc' Hk') as (_ & I2 & I3 & I4 & I5 & I6). cbn [set_forwards hc_forwards hc_closed hc_gateway]. split_and!; try done; [| | |apply sortHostForwards_sorted].
  - intros f Hf. apply elem_of_stable_sort. by apply I4.
  - intros f Hf%elem_of_stable_sort. by apply I5.
  - intros p (f & Hf & Hp)%I6. exists f. split; [by apply elem_of_stable_sort|done].
Qed.

(** C32 (functional). A connection's forwards are the listed ports.  Of a connection that
    is not closed and holds the listeners of its forwards, as every reachable one does:
    applying a list closes every listener of a port that is not on it and keeps every
    other one as it is, the same listener and not a new one.  Every other listed port is
    tried at the gateway's address: where the workspace binds the address it has a
    listener there, so no port the workspace accepts is left out; where it has none the
    recorded reason is true, that no gateway was reported or that the workspace does not
    bind that address.  What the workspace holds for the connection is exactly the
    listeners of the forwards; the forwards are in the order of their ports; and
    containers are told the gateway, or no address where no port is listed. *)
Theorem host_ports_follow_the_list env ports c : host_ok c → hc_closed c = false →
  let c' := applyHostPorts env ports c in let gateway := gatewayFor env ports c in
  host_ok c' ∧ hc_closed c' = false ∧ hc_gateway c' = gateway ∧
  (∀ f, f ∈ hc_forwards c' → hf_port f ∈ ports ∧ (f ∈ hc_forwards c ∧ is_Some (hf_listener f) ∨ tried env gateway f)) ∧
  (∀ p, p ∈ ports → ∃ f, f ∈ hc_forwards c' ∧ hf_port f = p ∧ (gateway ≠ ""%string → he_listen env (hostAddr gateway p) = true → is_Some (hf_listener f))) ∧
  (∀ f, f ∈ hc_forwards c → is_Some (hf_listener f) → (f ∈ hc_forwards c' ↔ hf_port f ∈ ports)) ∧
  (∀ l, l ∈ hc_open c' ↔ ∃ f, f ∈ hc_forwards c' ∧ hf_listener f = Some l) ∧
  StronglySorted Z.le (hf_port <$> hc_forwards c').
Proof.
  intros Hok Hc c' gateway. destruct (apply_tries env ports c Hok Hc) as (H1 & H2 & H3 & H4 & H5 & H6). fold c' gateway in H1, H2, H3, H4, H5, H6. pose proof (apply_ok env ports c Hok) as Hok'. fold c' in Hok'.
  assert (∀ f, f ∈ hc_forwards c' → hf_port f ∈ ports ∧ (f ∈ hc_forwards c ∧ is_Some (hf_listener f) ∨ tried env gateway f)) as Hall by (intros f [Hk%elem_of_keepListed|?]%H4; naive_solver).
  split_and!; try done.
  - intros p (f & Hf & Hp)%H5. exists f. split_and!; [done|done|]. intros Hg Hl. destruct (Hall f Hf) as [_ [[_ ?]|Ht]]; [done|]. unfold tried in Ht. rewrite Hp in Ht. destruct (hf_listener f); [done|]. destruct Ht as [[? _]|(_ & ? & _)]; congruence.
  - intros f Hf Hl. split; [apply Hall|]. intros Hp. by apply H3, elem_of_keepListed.
  - intros l. rewrite (ho_open _ Hok'), list_elem_of_omap. naive_solver.
Qed.

(** ** Over a session's life *)

Lemma close_ok c : host_ok c → host_ok (closeHostForwards c) ∧ hc_open (closeHostForwards c) = ∅.
Proof.
  intros [H1 H2 H3 H4 H5]. assert (hc_open c ∖ list_to_set (omap hf_listener (hc_forwards c)) = ∅) as E.
  { apply set_eq. intros id. rewrite elem_of_difference, elem_of_list_to_set, H1. set_solver. }
  split; [|done]. split; cbn; try done. intros id. rewrite E. set_solver.
Qed.

(** Whatever lists are set and whenever connections come and go, the listeners the
    workspace holds for a connection are those of its forwards, a port has one, and a
    connection that has been closed holds none and binds none again. *)
Theorem listeners_are_accounted_for env ports s c : rtc (session_step env) (startSession ports) s → ss_live s = Some c →
  host_ok c ∧ (hc_closed c = true → hc_open c = ∅ ∧ ∀ ports', applyHostPorts env ports' c = c).
Proof.
  intros Hr Hc. assert (∀ c0, ss_live s = Some c0 → host_ok c0) as Hok.
  { clear Hc c. remember (startSession ports) as s0 eqn:E0. assert (∀ c0, ss_live s0 = Some c0 → host_ok c0) as H0 by (by subst). clear E0.
    induction Hr as [|s s1 s2 Hs _ IH]; [done|]. apply IH. intros c0 H. destruct Hs; cbn [ss_live with_setting with_live] in *; try (by apply H0); simplify_eq.
    - apply apply_ok. by apply H0.
    - apply apply_ok, newHostConn_ok.
    - apply close_ok. by apply H0. }
  specialize (Hok c Hc). split; [done|]. intros Hcl. split; [|intros ports'; unfold applyHostPorts; by rewrite Hcl].
  apply set_eq. intros id. rewrite (ho_open _ Hok), Hcl. set_solver.
Qed.
