(* ===== verification/SessionExamples.v ===== *)
(** * Concrete runs of a session's parts

    The theorems on the record of the shares, the configuration and the host ports, each applied where its hypotheses
    hold; and what their hypotheses leave out. *)
From Stdlib Require Import Ascii.
From S2P Require Import Prelude GoStrings GoTime Records Names Mounts KeyFiles KeyFilesProofs NfsServe ShareStore Config HostPorts ClientExamples AccountExamples.

Open Scope Z_scope.

(** ** The record of the shares *)

Definition laptop : string * string := ("laptop"%string, "jane"%string).
Definition oneDay : Duration := 24 * Hour.

Lemma DefaultAttrs_plain : plainAttrs DefaultAttrs.
Proof. split; vm_compute; split_and!; discriminate || reflexivity. Qed.

Lemma noShareWords_parsed : parsedWords noShareWords.
Proof. split; discriminate. Qed.

Lemma projectShare_keepable : keepable sameText pad32 "linux" projectShare.
Proof.
  assert (Register sameText pad32 "linux" projectStat DefaultAttrs "/src" liveMode noShareWords ∅ = (Ok projectShare, <[projectExport := projectShare]> ∅)) as H by (vm_compute; reflexivity).
  destruct (registered_keepable sameText pad32 "linux" projectStat DefaultAttrs "/src" liveMode noShareWords ∅ projectShare _
    ltac:(intros e s0 H0; by rewrite lookup_empty in H0) DefaultAttrs_plain noShareWords_parsed ltac:(done) ltac:(done) ltac:(done) ltac:(vm_compute; reflexivity) H) as [Hk _]. exact Hk.
Qed.

(** A store that starts with no file remembers the project; two callers save. *)
Definition fresh0 : world := opened ∅ None.
Definition remembered : world := edited (remember 1000 projectShare (w_records fresh0)) fresh0.
Definition copied : world :=
  {| w_records := w_records remembered; w_pending := 0; w_writing := Some (fileOf laptop (w_records remembered)); w_disk := None; w_failed := false |}.
Definition saved : world :=
  {| w_records := w_records remembered; w_pending := 0; w_writing := None; w_disk := Some (writeShares (fileOf laptop (w_records remembered))); w_failed := false |}.

Lemma saved_reachable : rtc (store_step laptop) fresh0 saved.
Proof.
  eapply rtc_l; [left; apply (e_remember 1000 projectShare); eexists; split; [reflexivity|vm_compute; split; reflexivity]|].
  eapply rtc_l; [right; apply (v_copy laptop (w_records remembered) 0 None false)|]. eapply rtc_once. right. apply (v_write laptop (w_records remembered) 0 _ None false true).
Qed.

Lemma newest_record_lands_witness : current laptop ∅ None saved.
Proof. apply (newest_record_lands laptop ∅ None saved saved_reachable eq_refl); reflexivity. Defined.

Lemma remembered_share_comes_back_witness :
  let restarted := newShareStore sameText pad32 "linux" projectStat oneDay laptop (Some (writeShares (fileOf laptop (remember 1000 projectShare ∅).1))) in
  ∃ s' r', LookupOrRestore sameText pad32 "linux" projectStat DefaultAttrs (restoreShare sameText pad32 "linux" projectStat oneDay WatchCoarse PrefetchTree restarted) projectExport ∅
             = (Some (s', "/"%string), r') ∧
    sh_ExportPath s' = projectExport ∧ sh_LocalPath s' = "/src"%string ∧ sh_Mode s' = liveMode ∧ sh_words s' = resolved DefaultAttrs noShareWords.
Proof.
  apply (remembered_share_comes_back sameText pad32 "linux" pad32_len laptop projectStat 0 None (opened ∅ None) 1000 projectShare (remember 1000 projectShare ∅).1 projectStat oneDay
           DefaultAttrs WatchCoarse PrefetchTree).
  - vm_compute. reflexivity.
  - vm_compute. reflexivity.
  - apply rtc_refl.
  - exact projectShare_keepable.
  - reflexivity.
  - vm_compute. discriminate.
  - reflexivity.
Defined.

(** A mount of one file is registered and remembered, and its record is not believed
    at the next start, although the file is there. *)
Definition confStat (p : string) : statKind := if bool_decide (p = "/nginx.conf"%string) then StatRegular else StatMissing.

Example one_file_is_not_restored :
  let '(res, _, (m, changed)) := registrarShare sameText pad32 "linux" confStat 1000 DefaultAttrs "/nginx.conf" liveMode noShareWords ∅ ∅ in
  is_ok res = true ∧ changed = true ∧
  newShareStore sameText pad32 "linux" confStat oneDay laptop (Some (writeShares (fileOf laptop m))) = ∅.
Proof. vm_compute. split_and!; reflexivity. Qed.

(** ** The configuration *)

(** The flat form, with a default for every workspace, and two entries. *)
Definition entry (host watch : string) (port : Z) : Workspace :=
  {| ws_Host := host; ws_Port := port; ws_CAFile := ""; ws_Insecure := false; ws_User := ""; ws_Endpoint := ""; ws_Watch := watch; ws_Consistency := "";
     ws_ConsistencyPaths := ∅; ws_WatchBudget := 0; ws_CacheFiles := 0; ws_CacheBytes := 0; ws_Prefetch := ""; ws_HostPorts := ""; ws_WatchExclude := [];
     ws_IdleTimeout := ""; ws_DaemonIdle := ""; ws_DaemonStandby := ""; ws_ShareOwner := "1000"; ws_ShareFMask := ""; ws_ShareDMask := ""; ws_Machine := None |}.
Definition twoWorkspaces : File :=
  {| fl_Workspace := entry "" "partial" 0; fl_Workspaces := {[ "dev"%string := entry "dev.example" "" 0; "ci"%string := entry "wss://ci.example" "off" 0 ]}; fl_Default := "dev" |}.
Definition janesEnv (name : string) : string :=
  if bool_decide (name = "USER"%string) then "Jane" else if bool_decide (name = EnvCacheFiles) then "many" else "".
Definition noDurations (_ : string) : option Duration := None.
Definition nothingAsked : Overrides := {| ov_Workspace := ""; ov_Host := ""; ov_Port := 0; ov_User := ""; ov_Endpoint := "" |}.

Definition janesConfig : Config :=
  match Resolve lowerASCII janesEnv noDurations ":" nothingAsked twoWorkspaces with Ok c => c | Err _ => noConfig end.

Lemma nearest_layer_wins_witness :
  cf_Watch janesConfig = "partial"%string ∧ cf_User janesConfig = "jane"%string ∧ 0 ≤ cf_Port janesConfig ≤ 65535.
Proof.
  destruct (nearest_layer_wins lowerASCII janesEnv noDurations ":" nothingAsked twoWorkspaces janesConfig ltac:(vm_compute; reflexivity)) as (name & ws & _ & _ & _ & _ & Hp & _).
  split; [vm_compute; reflexivity|]. split; [vm_compute; reflexivity|exact Hp].
Defined.

(** One workspace without a name, and a second one added. *)
Definition oneFlat : File := {| fl_Workspace := entry "old.example" "partial" 2299; fl_Workspaces := ∅; fl_Default := "" |}.
Definition secondAdded : File :=
  {| fl_Workspace := noWorkspace; fl_Workspaces := <["dev"%string := entry "dev.example" "" 0]> {[ "old.example"%string := entry "old.example" "partial" 2299 ]}; fl_Default := "dev" |}.

Lemma secondAdded_edit : SetWorkspace "dev" (entry "dev.example" "" 0) oneFlat = Ok secondAdded.
Proof. vm_compute. reflexivity. Qed.

Lemma edits_keep_the_others_witness :
  Resolve lowerASCII janesEnv noDurations ":" (naming "old.example" nothingAsked) secondAdded =
  mapOk (with_name "old.example") (Resolve lowerASCII janesEnv noDurations ":" (naming "" nothingAsked) oneFlat).
Proof.
  destruct (edits_keep_the_others lowerASCII janesEnv noDurations ":" "dev" oneFlat secondAdded (edit_set _ _ _ _ secondAdded_edit)) as [_ H].
  destruct (H _ secondAdded_edit) as [_ Hf]. assert (flatAlone oneFlat) as Ha by (split; [discriminate|reflexivity]). destruct (Hf Ha) as [_ Hr].
  assert (flatName oneFlat = "old.example"%string) as E by (vm_compute; reflexivity). rewrite <- E. apply Hr; [rewrite E; discriminate|vm_compute; reflexivity].
Defined.

Lemma default_never_dangles_witness : default_ok secondAdded.
Proof.
  assert (rtc (λ f f', ∃ n, edit n f f') oneFlat secondAdded) as Hr by (apply rtc_once; exists "dev"%string; exact (edit_set _ _ _ _ secondAdded_edit)).
  destruct (default_never_dangles oneFlat secondAdded Hr (or_introl eq_refl)) as [H _]. exact H.
Defined.

(** Before, a command that named no workspace used the one there was; the addition
    makes the new one the default. *)
Example flat_loses_the_default :
  mapOk cf_Host (Resolve lowerASCII janesEnv noDurations ":" nothingAsked oneFlat) = Ok "old.example"%string ∧
  mapOk cf_Host (Resolve lowerASCII janesEnv noDurations ":" nothingAsked secondAdded) = Ok "dev.example"%string.
Proof. vm_compute. split; reflexivity. Qed.

Lemma settings_compare_by_meaning_witness : canonicalHostPorts ":" "8931, 3000:8931" = "3000,8931"%string ∧ portList [3000; 8931].
Proof.
  destruct (settings_compare_by_meaning lowerASCII ":" lowerASCII_lower eq_refl) as (_ & _ & _ & _ & H & _).
  split; [vm_compute; reflexivity|]. apply (H "8931, 3000:8931"%string). vm_compute. reflexivity.
Defined.

(** The number a URL names is not held against the range of a port, as the setting's
    is. *)
Definition bigPort (_ : string) : option URL := Some {| ur_Hostname := "dev.example"; ur_Port := "99999"; ur_Path := ""; ur_rest := "" |}.

Example url_port_out_of_range :
  transportOf lowerASCII bigPort ur_Hostname (with_connection "" "ssh://dev.example:99999" 0 "jane" "" noConfig) =
  Ok {| tr_Kind := "ssh"; tr_Host := "dev.example"; tr_Port := 99999; tr_URL := "" |}.
Proof. vm_compute. reflexivity. Qed.

(** ** Host ports *)

(** A workspace that binds everything but port 22. *)
Definition bridge : hostEnv :=
  {| he_info := None; he_addr4 := λ a, if bool_decide (a = "172.17.0.1"%string) then Some a else None; he_listen := λ a, negb (bool_decide (a = "172.17.0.1:22"%string)) |}.
Definition twoBound : hostConn := applyHostPorts bridge [3000; 22] (newHostConn "172.17.0.1").

Lemma twoBound_ok : host_ok twoBound.
Proof. apply apply_ok, newHostConn_ok. Qed.

Lemma host_ports_follow_the_list_witness :
  let c' := applyHostPorts bridge [3000; 22; 8080] twoBound in
  host_ok c' ∧ hc_gateway c' = "172.17.0.1"%string ∧
  (∃ f, f ∈ hc_forwards c' ∧ hf_port f = 8080 ∧ is_Some (hf_listener f)) ∧
  (∀ f, f ∈ hc_forwards c' → hf_port f ∈ [3000; 22; 8080] ∧ (f ∈ hc_forwards twoBound ∧ is_Some (hf_listener f) ∨ tried bridge "172.17.0.1" f)).
Proof.
  destruct (host_ports_follow_the_list bridge [3000; 22; 8080] twoBound twoBound_ok eq_refl) as (H1 & _ & H2 & H3 & H4 & _). split; [exact H1|]. split; [exact H2|]. split; [|exact H3].
  destruct (H4 8080) as (f & Hf & Hp & Hl); [set_solver|]. exists f. split; [exact Hf|]. split; [exact Hp|]. apply Hl; [discriminate|reflexivity].
Defined.

(** The listener of a port that was bound stays, a new one is opened at the gateway, and
    the refused one has its reason. *)
Example ports_tried :
  hf_listener <$> hc_forwards (applyHostPorts bridge [3000; 22; 8080] twoBound) = [None; Some (0%nat, "172.17.0.1:3000"); Some (1%nat, "172.17.0.1:8080")]%string ∧
  hostForwardStatus (applyHostPorts bridge [3000; 22; 8080] twoBound) = [(22, Some "the workspace refused 172.17.0.1:22"); (3000, None); (8080, None)]%string.
Proof. vm_compute. split; reflexivity. Qed.

(** A list that is set while a connection is being built reaches no connection: the one
    that is built keeps the copy it took, and the caller found none. *)
Definition missed : session :=
  {| ss_ports := [8080]; ss_live := Some (applyHostPorts bridge [3000] (newHostConn "172.17.0.1")); ss_gen := 1; ss_building := None; ss_setting := [] |}.

Example list_misses_connection : rtc (session_step bridge) (startSession [3000]) missed ∧ hostForwardStatus (default (newHostConn "") (ss_live missed)) = [(3000, None)].
Proof.
  split; [|vm_compute; reflexivity]. eapply rtc_l; [apply h_copy; reflexivity|]. eapply rtc_l; [apply (h_store bridge [8080])|].
  eapply rtc_l; [apply (h_none bridge [] [8080] []); reflexivity|]. apply rtc_once. apply (h_connect bridge [3000] "172.17.0.1" {| ss_ports := [8080]; ss_live := None; ss_gen := 0; ss_building := Some [3000]; ss_setting := [] |}); reflexivity.
Qed.

Lemma listeners_are_accounted_for_witness : host_ok (applyHostPorts bridge [3000] (newHostConn "172.17.0.1")).
Proof. destruct (listeners_are_accounted_for bridge [3000] missed _ (proj1 list_misses_connection) eq_refl) as [H _]. exact H. Defined.
